(* ===== verification/_CoqProject ===== *)
-Q . S2P
Prelude.v
CpuDef.v
Flags.v
HostMemory.v
RegionTable.v
RegionSplit.v
Patches.v
PageCache.v
InstCache.v
Machine.v
CpuMemory.v
Registers.v
DispatchHelpers.v
WideMemory.v
Stack.v
Segments.v
Alu.v
Executor.v
Decoder.v
AluDecode.v
InstDecode.v
Operands.v
Unary.v
Shifts.v
Replay.v
MulDiv.v
Control.v
Move.v
PushPop.v
StringOps.v
Exchange.v
BitOps.v
ApiContext.v
EngineApi.v
Emulation.v
