(* ===== verification/Prelude.v ===== *)
(** * Verification of the cpueaxh x86-64 emulator core

    cpueaxh (src/cpueaxh) is an emulator for x86-64 user code written in C++: a memory manager with
    page permissions and host passthrough, a CPU context, a decoder with an instruction cache, an
    executor, one header per instruction family, and a C interface with hooks and escapes.  This
    library models that core function by function and proves what makes it correct.  Names are the
    source's names; a file's header says which source file it models.

    ** How the parts interact

    The embedding program opens an engine, maps memory and sets registers through EngineApi.v and
    ApiContext.v and runs it through Emulation.v (all cpueaxh.cpp): a loop that checks for a stop
    request, a time or count limit, calls code hooks, hands some instructions to escapes and steps.
    A step (Executor.v, executor.hpp) fetches bytes through the memory manager, asks the
    instruction cache (InstCache.v, inst_cache.hpp) or the decoder (Decoder.v, decoder.hpp, with
    the helpers of DispatchHelpers.v, dispatch_helpers.hpp) for an entry, saves the registers it may
    have to give back, and runs a handler or an inline return or jump.

    The handlers are the instruction files (instructions/): Alu.v with AluDecode.v (add, or, adc,
    sbb, and, sub, xor, cmp), Unary.v (inc, dec, neg, not), Shifts.v (shl, shr, sar, rol, ror, rcl,
    rcr), MulDiv.v (mul, imul, div, idiv), Control.v (jcc, jmp, call, ret), Move.v (mov, movzx,
    movsx, movsxd, lea, cmovcc, setcc, bswap, cbw, cdq), PushPop.v (push, pop, enter, leave, pushf,
    lahf, flags), StringOps.v (movs, cmps, stos, lods, scas, rep),
    Exchange.v (test, xchg, xadd, cmpxchg, cmpxchg8b16b) and BitOps.v (bt, bsf, popcnt, shld).
    The files' copies of one decoder
    are InstDecode.v, a decoder over what they differ in; the laws of reading operands, computing
    and storing are Operands.v; Replay.v shows that a cached entry does what its bytes would.

    A handler reaches registers through Registers.v, segments through Segments.v, the stack through
    Stack.v and vector-sized memory through WideMemory.v (all helper.hpp), flags through Flags.v
    (calc.hpp), and memory through CpuMemory.v (memory.hpp), which checks canonicality, permissions
    and user access, calls the hooks of Machine.v (cpueaxh.cpp) and resolves addresses with
    PageCache.v, on the region table of RegionTable.v and RegionSplit.v and the code patches of
    Patches.v (manager.hpp).  HostMemory.v is the host the regions live in.  CpuDef.v (def.h,
    init.hpp) is the CPU context with its modes, exceptions and snapshots.

    ** How code is modelled

    A C++ function that mutates an object is a state-passing computation [ST S A] over a record with
    the object's fields; early returns are the branches of an [if].  Unsigned integers are [Z] with
    the wrap-around written out ([wrap], [u8] ... [u64]), signed reads are [sext]; fixed arrays and
    buffers are lists, lookup outside a list is 0 where the source never looks outside.  Pointers to
    host memory are addresses; regions and patches are lists in array order.  Functions the source
    repeats for 8, 16, 32 and 64 bits are one definition over the width where the copies agree.

    Loops are structural on the list they walk or the count they count down (the shifts, REP), or
    take fuel: [split_loop] one more than the number of regions (each round leaves one region fewer
    to visit; proved enough), [fetch_pages] fifteen rounds (each reads a byte), the hook retries the
    source's own bound, [cpu_run_loop] the step limit and the emulation loops of Emulation.v one more
    than the count of instructions asked for (both proved enough for bounded runs), the 128-bit
    division loop its 128 bits, the compare-and-exchange loops of the locked operations a parameter
    of which one round is proved to be enough where no other processor interferes and two from any
    stale value.

    Code outside src/, or behind a function pointer, is a class: [HostAlloc] (the platform's
    allocator, law: live blocks do not overlap; instance: a bump allocator), [Callbacks] and
    [EscapeCallbacks] (the embedding program's hooks and escapes; instances: a trace),
    [InstructionSet] (execute_* handlers by name), [ProbeDecoders] (decode_* functions by name, law
    [ProbesFramed]: they write nothing but the decoder's scratch fields, which the modelled decoders
    are proved to obey), [Decoder] (the executor's decoder; Decoder.v gives the instance) and
    [Replayable] (what a decoder's stages promise to Replay.v, with an instance per instruction
    family).  Every property with hypotheses has a witness at a concrete engine, in the Module
    [...Example] that ends its file.

    ** What the theorems show

    - Memory manager.  Mapping, unmapping and protecting refine operations on an abstract map from
      guest addresses to a byte with its protection, host blocks, segment splitting and failure
      included, ranges past the end of the address space refused; the page cache is transparent to
      every operation; patches are an overlay; destruction frees each owned block once, and no
      operation releases a block that is not live (the host heap records every release); the loops
      terminate.
    - CPU memory.  A read returns the little-endian value of what the guest sees or raises the fault
      of the first bad byte with its error code; a write is all or nothing, vector registers and
      masked stores included; locked operations store their operation of the value the memory holds,
      also when a retry starts from a stale one; write then read is the identity.
    - Flags, registers, addresses, segments, stack.  Flag functions against exact arithmetic;
      accessors against slices of registers; effective addresses against the architecture's formula;
      segment loads against the architecture's rules, the two departures named; push and pop as
      inverses.
    - Hooks, escapes, instruction cache.  Handle tables as finite maps; dispatch as a filter; the
      cache as the history of its commits.
    - Decoder.  A function of bytes and mode; well-formed entries; the architecture's one-byte opcode
      map, the departures named; replay of cached entries equals decoding again.
    - Instructions.  Each family computes what the architecture says of its operands, at every
      width and form, or leaves the fault of the first bad byte with memory as it was: exact
      arithmetic and flags, shifts in closed form, products and quotients, transfers of control with
      their returns, moves, procedure frames with LEAVE as the inverse of ENTER, string instructions
      with REP as one block store that can be interrupted and resumed; exchanges and comparisons; bit tests and bit strings.  Where the
      code departs from the architecture the statement has the case by name.
    - Executor and emulation.  Faults roll back where a snapshot is kept; a cache hit that is not stale does
      what decoding again would; bounded runs end; stop
      requests are obeyed; escapes replace their instruction and the cached path misses none; called
      functions restore their return slot.
    - The interface.  A fresh engine satisfies every invariant and closing frees every block;
      registers and contexts round-trip; mapping calls refine the guest's map; copies stop at the
      first byte that may not be accessed.
    - Behaviour that surprises: properties of kind error name it, and the manifest's findings say
      where the code and its comments or the architecture disagree.

    ** Not modelled

    The remaining integer instructions (bmi, nop, movbe, xlat, crc32 and the queries of the
    processor) and the x87, MMX, SSE, AES,
    SHA, AVX and EVEX families are handlers of [InstructionSet] only: the decoder selects among all
    of them, but what they compute is not modelled (they rest on the compiler's floating point and
    on intrinsics of the host, or are lane by lane copies of one another).  The assembly bridge that
    lets guest code call the host, the statistics counters (compiled out by default), the Windows
    driver glue, the examples, tests and tools are left out.  Threads: one thread runs an engine; other
    processors appear only in the locked operations, as stale values their loops may start from. *)

From Stdlib Require Import ZArith Bool List Lia Btauto.
From stdpp Require Import base tactics list gmap.

#[global] Open Scope Z_scope.

(** ** State-passing computations

    The C++ sources mutate an engine through pointers.  A function that mutates
    a state [S] and returns an [A] is modelled as [ST S A].  Early returns are
    the branches of an [if]; sequencing is the order of the [let*]s. *)

Definition ST (S A : Type) : Type := S -> A * S.

Definition st_ret {S A : Type} (a : A) : ST S A := fun s => (a, s).

Definition st_bind {S A B : Type} (c : ST S A) (k : A -> ST S B) : ST S B :=
  fun s => let '(a, s') := c s in k a s'.

Definition st_get {S : Type} : ST S S := fun s => (s, s).

Definition st_gets {S A : Type} (f : S -> A) : ST S A := fun s => (f s, s).

Definition st_modify {S : Type} (f : S -> S) : ST S unit := fun s => (tt, f s).

(** Runs a computation on a component of the state. *)
Definition st_zoom {S T A : Type} (get : S -> T) (set : T -> S -> S) (c : ST T A) : ST S A :=
  fun s => let '(a, t) := c (get s) in (a, set t s).

(** [for (x : l) body(x)]. *)
Fixpoint st_for {S A : Type} (l : list A) (body : A -> ST S unit) : ST S unit :=
  match l with
  | [] => st_ret tt
  | x :: l => fun s => st_for l body (snd (body x s))
  end.

Declare Scope emu_scope.
Delimit Scope emu_scope with emu.

Notation "'let*' x ':=' c 'in' k" := (st_bind c (fun x => k))
  (at level 10, x pattern, c at level 100, k at level 200) : emu_scope.
Notation "c ';;;' k" := (st_bind c (fun _ => k))
  (at level 100, k at level 200, right associativity) : emu_scope.

#[global] Open Scope emu_scope.

(** The result and the final state of a computation. *)
Definition result {S A : Type} (c : ST S A) (s : S) : A := fst (c s).
Definition final {S A : Type} (c : ST S A) (s : S) : S := snd (c s).

(** A step whose run is known. *)
Lemma bind_run {S A B} (c : ST S A) (k : A -> ST S B) s a s' : c s = (a, s') -> st_bind c k s = k a s'.
Proof. unfold st_bind. by intros ->. Qed.

(** Equality of computations on every state, with the congruences that let a
    proof rewrite under [let*]. *)
Definition st_eq {S A : Type} (c d : ST S A) : Prop := forall s, c s = d s.

#[export] Instance st_eq_equivalence {S A} : Equivalence (@st_eq S A).
Proof.
  split; unfold st_eq; [congruence | congruence |].
  intros c d e H1 H2 s. by rewrite H1.
Qed.

#[export] Instance st_bind_proper {S A B} :
  Proper (st_eq ==> pointwise_relation A st_eq ==> st_eq) (@st_bind S A B).
Proof.
  intros c d Hcd k l Hkl s. unfold st_bind. rewrite Hcd.
  destruct (d s) as [a s']. apply Hkl.
Qed.

(** ** Machine words

    A [w]-bit unsigned integer is a [Z] in [0, 2^w).  [wrap w] is the C
    conversion to a [w]-bit unsigned type, [sext w] reads a [w]-bit pattern as a
    two's-complement number (the value of a conversion to a signed type). *)

Definition wrap (w z : Z) : Z := z mod 2 ^ w.
Abbreviation u8 := (wrap 8).
Abbreviation u16 := (wrap 16).
Abbreviation u32 := (wrap 32).
Abbreviation u64 := (wrap 64).

Definition sext (w z : Z) : Z :=
  let x := wrap w z in if x <? 2 ^ (w - 1) then x else x - 2 ^ w.

Definition in_word (w z : Z) : Prop := 0 <= z < 2 ^ w.

(** [(x & m) != 0], the way the sources test a mask. *)
Definition has_bits (x m : Z) : bool := negb (Z.land x m =? 0).

Definition b2z (b : bool) : Z := if b then 1 else 0.

(** Chains of equality tests and case labels; closed intervals. *)
Definition one_of (x : Z) (l : list Z) : bool := existsb (Z.eqb x) l.
Definition between (lo hi x : Z) : bool := (lo <=? x) && (x <=? hi).

Create HintDb emu discriminated.
Create Rewrite HintDb bits.
#[global] Hint Constants Transparent : emu.

(** Arithmetic with [/] and [mod] by constants. *)
(** Closed comparisons, by evaluation. *)
Ltac zcompute := vm_compute; first [reflexivity | discriminate | split; [discriminate | reflexivity]].
(** Discharges the closed hypotheses of an instance [H] of a theorem. *)
Ltac discharge H :=
  repeat match type of H with ?P -> _ =>
    let HP := fresh in assert P as HP by zcompute; specialize (H HP); clear HP
  end.
(** Comparisons and divisions of numerals, in the goal. *)
Ltac closed_ops :=
  repeat match goal with
  | |- context [Z.pos ?a =? Z.pos ?b] =>
      let r := eval vm_compute in (Z.pos a =? Z.pos b) in change (Z.pos a =? Z.pos b) with r
  | |- context [Z.pos ?a / Z.pos ?b] =>
      let r := eval vm_compute in (Z.pos a / Z.pos b) in change (Z.pos a / Z.pos b) with r
  end; cbn iota.
Ltac zdiv := Z.div_mod_to_equations; lia.

Lemma pow2_pos (w : Z) : 0 <= w -> 0 < 2 ^ w.
Proof. intros. apply Z.pow_pos_nonneg; lia. Qed.

Lemma pow2_double (w : Z) : 0 < w -> 2 ^ w = 2 * 2 ^ (w - 1).
Proof. intros. rewrite <- Z.pow_succ_r by lia. f_equal. lia. Qed.

Lemma wrap_range (w z : Z) : 0 <= w -> in_word w (wrap w z).
Proof. intros. apply Z.mod_pos_bound, pow2_pos. done. Qed.

Lemma wrap_small (w z : Z) : in_word w z -> wrap w z = z.
Proof. intros. by apply Z.mod_small. Qed.

Lemma wrap_wrap (w z : Z) : 0 <= w -> wrap w (wrap w z) = wrap w z.
Proof. intros. by apply wrap_small, wrap_range. Qed.

Lemma wrap_add_l (w a b : Z) : 0 <= w -> wrap w (wrap w a + b) = wrap w (a + b).
Proof. intros. unfold wrap. apply Z.add_mod_idemp_l. pose proof (pow2_pos w). lia. Qed.

Lemma wrap_add_r (w a b : Z) : 0 <= w -> wrap w (a + wrap w b) = wrap w (a + b).
Proof. intros. unfold wrap. apply Z.add_mod_idemp_r. pose proof (pow2_pos w). lia. Qed.

Lemma wrap_sub_l (w a b : Z) : 0 <= w -> wrap w (wrap w a - b) = wrap w (a - b).
Proof. intros. rewrite <- !Z.add_opp_r. by apply wrap_add_l. Qed.

#[export] Hint Resolve wrap_range pow2_pos : emu.

(** ** Bits *)

Lemma testbit_wrap (w z i : Z) :
  0 <= w -> Z.testbit (wrap w z) i = (i <? w) && Z.testbit z i.
Proof.
  intros. unfold wrap. destruct (Z.ltb_spec i w).
  - simpl. destruct (Z.ltb_spec i 0).
    + by rewrite !Z.testbit_neg_r by done.
    + apply Z.mod_pow2_bits_low. lia.
  - rewrite Z.mod_pow2_bits_high by lia. done.
Qed.

Lemma testbit_high (w z i : Z) : in_word w z -> w <= i -> Z.testbit z i = false.
Proof.
  intros [? ?] ?. destruct (Z.ltb_spec w 0).
  { rewrite Z.pow_neg_r in * by done. lia. }
  rewrite <- (wrap_small w z) by done. rewrite testbit_wrap by done.
  destruct (Z.ltb_spec i w); [lia | done].
Qed.

(** The sign bit of a word is a comparison. *)
Lemma testbit_sign (w z : Z) :
  0 < w -> in_word w z -> Z.testbit z (w - 1) = (2 ^ (w - 1) <=? z).
Proof.
  intros Hw [Hlo Hhi]. rewrite pow2_double in Hhi by done.
  rewrite Z.testbit_eqb by lia.
  pose proof (pow2_pos (w - 1)).
  destruct (Z.leb_spec (2 ^ (w - 1)) z).
  - replace (z / 2 ^ (w - 1)) with 1; [done|].
    apply Z.div_unique with (r := z - 2 ^ (w - 1)); lia.
  - rewrite Z.div_small by lia. done.
Qed.

(** A mask test on a single bit is a bit test. *)
Lemma has_bits_pow2 (x k : Z) : 0 <= k -> has_bits x (2 ^ k) = Z.testbit x k.
Proof.
  intros Hk. unfold has_bits. destruct (Z.testbit x k) eqn:E.
  - apply negb_true_iff, Z.eqb_neq. intros H.
    assert (Z.testbit (Z.land x (2 ^ k)) k = false) as H' by (by rewrite H, Z.bits_0).
    rewrite Z.land_spec, E, Z.pow2_bits_true in H' by done. done.
  - apply negb_false_iff, Z.eqb_eq. apply Z.bits_inj'. intros i Hi.
    rewrite Z.land_spec, Z.bits_0, Z.pow2_bits_eqb by done.
    destruct (Z.eqb_spec k i); subst; [by rewrite E | by rewrite andb_false_r].
Qed.

(** Reduces an equality of words to an equality of booleans at each bit. *)
#[export] Hint Rewrite Z.lor_spec Z.land_spec Z.lxor_spec Z.ldiff_spec Z.bits_0 : bits.
#[export] Hint Rewrite Z.shiftr_spec Z.shiftl_spec Z.pow2_bits_eqb testbit_wrap Z.testbit_ones
  using lia : bits.
Ltac bitwise := apply Z.bits_inj'; let i := fresh "i" in let Hi := fresh "Hi" in
  intros i Hi; autorewrite with bits.

Lemma wrap_once w t : 0 <= w -> 0 <= t < 2 * 2 ^ w -> wrap w t = if t <? 2 ^ w then t else t - 2 ^ w.
Proof.
  intros. destruct (Z.ltb_spec t (2 ^ w)); [apply wrap_small; split; lia |].
  unfold wrap. symmetry. apply Z.mod_unique with (q := 1); lia.
Qed.

Lemma wrap_once_neg w t : 0 <= w -> - 2 ^ w <= t < 2 ^ w -> wrap w t = if t <? 0 then t + 2 ^ w else t.
Proof.
  intros. destruct (Z.ltb_spec t 0); [| apply wrap_small; split; lia].
  unfold wrap. symmetry. apply Z.mod_unique with (q := -1); lia.
Qed.

Lemma wrap_wrap_le v w z : 0 <= v <= w -> wrap v (wrap w z) = wrap v z.
Proof.
  intros. bitwise. destruct (Z.ltb_spec i v); [| done]. destruct (Z.ltb_spec i w); [done | lia].
Qed.

Lemma lor_in_word (w a b : Z) : 0 <= w -> in_word w a -> in_word w b -> in_word w (Z.lor a b).
Proof.
  intros Hw Ha Hb. replace (Z.lor a b) with (wrap w (Z.lor a b)); [by apply wrap_range|].
  bitwise. destruct (Z.ltb_spec i w); [done|].
  by rewrite (testbit_high w a), (testbit_high w b) by (done || lia).
Qed.

Lemma land_in_word (w a b : Z) : 0 <= w -> in_word w a -> 0 <= b -> in_word w (Z.land a b).
Proof.
  intros Hw Ha Hb. replace (Z.land a b) with (wrap w (Z.land a b)); [by apply wrap_range|].
  bitwise. destruct (Z.ltb_spec i w); [done|]. by rewrite (testbit_high w a) by (done || lia).
Qed.

Lemma ldiff_in_word (w a b : Z) : 0 <= w -> in_word w a -> in_word w (Z.ldiff a b).
Proof.
  intros Hw Ha. replace (Z.ldiff a b) with (wrap w (Z.ldiff a b)); [by apply wrap_range|].
  bitwise. destruct (Z.ltb_spec i w); [done|]. by rewrite (testbit_high w a) by (done || lia).
Qed.

(** ** Arrays: C arrays of fixed length as lists indexed by [Z] *)

Definition arr_get {A} (d : A) (l : list A) (i : Z) : A := nth (Z.to_nat i) l d.
Definition arr_set {A} (l : list A) (i : Z) (v : A) : list A := <[Z.to_nat i := v]> l.

Lemma arr_set_length {A} (l : list A) i v : length (arr_set l i v) = length l.
Proof. apply length_insert. Qed.

Lemma arr_get_set_eq {A} (d : A) l i v :
  0 <= i < Z.of_nat (length l) -> arr_get d (arr_set l i v) i = v.
Proof.
  intros. unfold arr_get, arr_set. rewrite nth_lookup, list_lookup_insert_eq by lia. done.
Qed.

Lemma arr_get_set_ne {A} (d : A) l i j v :
  0 <= i -> 0 <= j -> i <> j -> arr_get d (arr_set l i v) j = arr_get d l j.
Proof.
  intros. unfold arr_get, arr_set. rewrite !nth_lookup, list_lookup_insert_ne by lia. done.
Qed.

(** ** Lists *)

(** The number whose little-endian bytes these are. *)
Fixpoint le_combine (bytes : list Z) : Z :=
  match bytes with [] => 0 | b :: bytes => b + 256 * le_combine bytes end.

Lemma Forall2_impl_in {A B} (P Q : A -> B -> Prop) l k :
  Forall2 P l k -> (forall x y, y ∈ k -> P x y -> Q x y) -> Forall2 Q l k.
Proof.
  induction 1 as [| x y l k Hxy Hlk IH]; intros Himp; constructor.
  - apply Himp; [left | done].
  - apply IH. intros a b Hb. apply Himp. by right.
Qed.
