(* ===== verification/CpuDef.v ===== *)
(** * cpu/def.h and cpu/init.hpp: the CPU context

    The [CPU_CONTEXT] record has the source's fields in the source's order (prefix [c_]).
    The three pointers of the struct are modelled as follows: [mem_mgr] always points to the
    memory manager of the enclosing engine and has no field; [owner_engine] and [inst_cache]
    are booleans saying whether the pointer is non-null.  Every function takes a context that
    exists, so the sources' [if (!ctx)] guards have no counterpart.  Contents: exceptions,
    segments, mode predicates, code-offset and linear-address validation, scalar and vector
    snapshots, x87 status, initialisation. *)

From Stdlib Require Import ZArith Bool List Lia.
From stdpp Require Import base tactics list.
From S2P Require Import Prelude.

(** ** Constants *)

Definition RFLAGS_CF : Z := 2 ^ 0.
Definition RFLAGS_PF : Z := 2 ^ 2.
Definition RFLAGS_AF : Z := 2 ^ 4.
Definition RFLAGS_ZF : Z := 2 ^ 6.
Definition RFLAGS_SF : Z := 2 ^ 7.
Definition RFLAGS_DF : Z := 2 ^ 10.
Definition RFLAGS_OF : Z := 2 ^ 11.

Definition CPU_EXCEPTION_NONE : Z := 0.
Definition CPU_EXCEPTION_DE : Z := 0xE0000000.
Definition CPU_EXCEPTION_GP : Z := 0xE0000001.
Definition CPU_EXCEPTION_SS : Z := 0xE0000002.
Definition CPU_EXCEPTION_NP : Z := 0xE0000003.
Definition CPU_EXCEPTION_UD : Z := 0xE0000004.
Definition CPU_EXCEPTION_PF : Z := 0xE0000005.
Definition CPU_EXCEPTION_AC : Z := 0xE0000006.
Definition CPU_EXCEPTION_BP : Z := 0xE0000007.
Definition CPU_EXCEPTION_DB : Z := 0xE0000008.
Definition CPU_EXCEPTION_OF : Z := 0xE0000009.
Definition CPU_EXCEPTION_NM : Z := 0xE000000A.
Definition CPU_EXCEPTION_MF : Z := 0xE000000B.

Definition CPUEAXH_HOOK_CODE_PRE : Z := 1.
Definition CPUEAXH_HOOK_CODE_POST : Z := 2.
Definition CPUEAXH_HOOK_MEM_READ : Z := 3.
Definition CPUEAXH_HOOK_MEM_WRITE : Z := 4.
Definition CPUEAXH_HOOK_MEM_FETCH : Z := 5.
Definition CPUEAXH_HOOK_MEM_READ_UNMAPPED : Z := 6.
Definition CPUEAXH_HOOK_MEM_WRITE_UNMAPPED : Z := 7.
Definition CPUEAXH_HOOK_MEM_FETCH_UNMAPPED : Z := 8.
Definition CPUEAXH_HOOK_MEM_READ_PROT : Z := 9.
Definition CPUEAXH_HOOK_MEM_WRITE_PROT : Z := 10.
Definition CPUEAXH_HOOK_MEM_FETCH_PROT : Z := 11.

Definition SEG_ES : Z := 0.
Definition SEG_CS : Z := 1.
Definition SEG_SS : Z := 2.
Definition SEG_DS : Z := 3.
Definition SEG_FS : Z := 4.
Definition SEG_GS : Z := 5.

Definition REG_RAX : Z := 0.
Definition REG_RCX : Z := 1.
Definition REG_RDX : Z := 2.
Definition REG_RBX : Z := 3.
Definition REG_RSP : Z := 4.
Definition REG_RBP : Z := 5.
Definition REG_RSI : Z := 6.
Definition REG_RDI : Z := 7.
Definition REG_R13 : Z := 13.

Definition REG_CR0 : Z := 0.
Definition REG_CR2 : Z := 2.
Definition REG_CR3 : Z := 3.
Definition REG_CR4 : Z := 4.
Definition REG_CR8 : Z := 8.

(** ** Data *)

Record CPU_EXCEPTION_STATE := mkExc { exc_code : Z; exc_error_code : Z }.

Record SegmentDescriptor := mkDesc {
  sd_base : Z; sd_limit : Z; sd_type : Z; sd_dpl : Z;
  sd_present : bool; sd_granularity : bool; sd_db : bool; sd_long_mode : bool;
}.

Record SegmentRegister := mkSeg { seg_selector : Z; seg_descriptor : SegmentDescriptor }.

Record XMMRegister := mkXmm { xmm_low : Z; xmm_high : Z }.
Record ZMMUpperRegister := mkZmmU { zmmu_lower : XMMRegister; zmmu_upper : XMMRegister }.
Record ZMMRegister := mkZmm {
  zmm_xmm0 : XMMRegister; zmm_xmm1 : XMMRegister; zmm_xmm2 : XMMRegister; zmm_xmm3 : XMMRegister;
}.

Record CPU_CONTEXT := mkCtx {
  c_regs : list Z;
  c_control_regs : list Z;
  c_processor_id : Z;
  c_long_mode_active : bool;
  c_xmm : list XMMRegister;
  c_ymm_upper : list XMMRegister;
  c_zmm_upper : list ZMMUpperRegister;
  c_opmask : list Z;
  c_mm : list Z;
  c_mxcsr : Z;
  c_x87_control_word : Z;
  c_x87_status_word : Z;
  c_x87_tag_word : Z;
  c_x87_last_opcode : Z;
  c_x87_instruction_pointer : Z;
  c_x87_data_pointer : Z;
  c_x87_pending_exception : bool;
  c_es : SegmentRegister;
  c_cs : SegmentRegister;
  c_ss : SegmentRegister;
  c_ds : SegmentRegister;
  c_fs : SegmentRegister;
  c_gs : SegmentRegister;
  c_rip : Z;
  c_rflags : Z;
  c_cpl : Z;
  c_gdtr_base : Z;
  c_gdtr_limit : Z;
  c_ldtr_base : Z;
  c_ldtr_limit : Z;
  c_owner_engine : bool;
  c_inst_cache : bool;
  c_rex_present : bool;
  c_rex_w : bool;
  c_rex_r : bool;
  c_rex_x : bool;
  c_rex_b : bool;
  c_operand_size_override : bool;
  c_address_size_override : bool;
  c_segment_override : Z;
  c_last_inst_size : Z;
  c_exception : CPU_EXCEPTION_STATE;
  c_cached_mode_key_bits : Z;
  c_cached_mode_key_valid : bool;
}.

(** Assignment to one field of the context. *)

Definition set_c_regs (v : list Z) (r : CPU_CONTEXT) : CPU_CONTEXT :=
  mkCtx v (c_control_regs r) (c_processor_id r) (c_long_mode_active r) (c_xmm r)
    (c_ymm_upper r) (c_zmm_upper r) (c_opmask r) (c_mm r) (c_mxcsr r) (c_x87_control_word r)
    (c_x87_status_word r) (c_x87_tag_word r) (c_x87_last_opcode r)
    (c_x87_instruction_pointer r) (c_x87_data_pointer r) (c_x87_pending_exception r) (c_es r)
    (c_cs r) (c_ss r) (c_ds r) (c_fs r) (c_gs r) (c_rip r) (c_rflags r) (c_cpl r)
    (c_gdtr_base r) (c_gdtr_limit r) (c_ldtr_base r) (c_ldtr_limit r) (c_owner_engine r)
    (c_inst_cache r) (c_rex_present r) (c_rex_w r) (c_rex_r r) (c_rex_x r) (c_rex_b r)
    (c_operand_size_override r) (c_address_size_override r) (c_segment_override r)
    (c_last_inst_size r) (c_exception r) (c_cached_mode_key_bits r) (c_cached_mode_key_valid r).
Definition set_c_control_regs (v : list Z) (r : CPU_CONTEXT) : CPU_CONTEXT :=
  mkCtx (c_regs r) v (c_processor_id r) (c_long_mode_active r) (c_xmm r) (c_ymm_upper r)
    (c_zmm_upper r) (c_opmask r) (c_mm r) (c_mxcsr r) (c_x87_control_word r)
    (c_x87_status_word r) (c_x87_tag_word r) (c_x87_last_opcode r)
    (c_x87_instruction_pointer r) (c_x87_data_pointer r) (c_x87_pending_exception r) (c_es r)
    (c_cs r) (c_ss r) (c_ds r) (c_fs r) (c_gs r) (c_rip r) (c_rflags r) (c_cpl r)
    (c_gdtr_base r) (c_gdtr_limit r) (c_ldtr_base r) (c_ldtr_limit r) (c_owner_engine r)
    (c_inst_cache r) (c_rex_present r) (c_rex_w r) (c_rex_r r) (c_rex_x r) (c_rex_b r)
    (c_operand_size_override r) (c_address_size_override r) (c_segment_override r)
    (c_last_inst_size r) (c_exception r) (c_cached_mode_key_bits r) (c_cached_mode_key_valid r).
Definition set_c_processor_id (v : Z) (r : CPU_CONTEXT) : CPU_CONTEXT :=
  mkCtx (c_regs r) (c_control_regs r) v (c_long_mode_active r) (c_xmm r) (c_ymm_upper r)
    (c_zmm_upper r) (c_opmask r) (c_mm r) (c_mxcsr r) (c_x87_control_word r)
    (c_x87_status_word r) (c_x87_tag_word r) (c_x87_last_opcode r)
    (c_x87_instruction_pointer r) (c_x87_data_pointer r) (c_x87_pending_exception r) (c_es r)
    (c_cs r) (c_ss r) (c_ds r) (c_fs r) (c_gs r) (c_rip r) (c_rflags r) (c_cpl r)
    (c_gdtr_base r) (c_gdtr_limit r) (c_ldtr_base r) (c_ldtr_limit r) (c_owner_engine r)
    (c_inst_cache r) (c_rex_present r) (c_rex_w r) (c_rex_r r) (c_rex_x r) (c_rex_b r)
    (c_operand_size_override r) (c_address_size_override r) (c_segment_override r)
    (c_last_inst_size r) (c_exception r) (c_cached_mode_key_bits r) (c_cached_mode_key_valid r).
Definition set_c_long_mode_active (v : bool) (r : CPU_CONTEXT) : CPU_CONTEXT :=
  mkCtx (c_regs r) (c_control_regs r) (c_processor_id r) v (c_xmm r) (c_ymm_upper r)
    (c_zmm_upper r) (c_opmask r) (c_mm r) (c_mxcsr r) (c_x87_control_word r)
    (c_x87_status_word r) (c_x87_tag_word r) (c_x87_last_opcode r)
    (c_x87_instruction_pointer r) (c_x87_data_pointer r) (c_x87_pending_exception r) (c_es r)
    (c_cs r) (c_ss r) (c_ds r) (c_fs r) (c_gs r) (c_rip r) (c_rflags r) (c_cpl r)
    (c_gdtr_base r) (c_gdtr_limit r) (c_ldtr_base r) (c_ldtr_limit r) (c_owner_engine r)
    (c_inst_cache r) (c_rex_present r) (c_rex_w r) (c_rex_r r) (c_rex_x r) (c_rex_b r)
    (c_operand_size_override r) (c_address_size_override r) (c_segment_override r)
    (c_last_inst_size r) (c_exception r) (c_cached_mode_key_bits r) (c_cached_mode_key_valid r).
Definition set_c_xmm (v : list XMMRegister) (r : CPU_CONTEXT) : CPU_CONTEXT :=
  mkCtx (c_regs r) (c_control_regs r) (c_processor_id r) (c_long_mode_active r) v
    (c_ymm_upper r) (c_zmm_upper r) (c_opmask r) (c_mm r) (c_mxcsr r) (c_x87_control_word r)
    (c_x87_status_word r) (c_x87_tag_word r) (c_x87_last_opcode r)
    (c_x87_instruction_pointer r) (c_x87_data_pointer r) (c_x87_pending_exception r) (c_es r)
    (c_cs r) (c_ss r) (c_ds r) (c_fs r) (c_gs r) (c_rip r) (c_rflags r) (c_cpl r)
    (c_gdtr_base r) (c_gdtr_limit r) (c_ldtr_base r) (c_ldtr_limit r) (c_owner_engine r)
    (c_inst_cache r) (c_rex_present r) (c_rex_w r) (c_rex_r r) (c_rex_x r) (c_rex_b r)
    (c_operand_size_override r) (c_address_size_override r) (c_segment_override r)
    (c_last_inst_size r) (c_exception r) (c_cached_mode_key_bits r) (c_cached_mode_key_valid r).
Definition set_c_ymm_upper (v : list XMMRegister) (r : CPU_CONTEXT) : CPU_CONTEXT :=
  mkCtx (c_regs r) (c_control_regs r) (c_processor_id r) (c_long_mode_active r) (c_xmm r) v
    (c_zmm_upper r) (c_opmask r) (c_mm r) (c_mxcsr r) (c_x87_control_word r)
    (c_x87_status_word r) (c_x87_tag_word r) (c_x87_last_opcode r)
    (c_x87_instruction_pointer r) (c_x87_data_pointer r) (c_x87_pending_exception r) (c_es r)
    (c_cs r) (c_ss r) (c_ds r) (c_fs r) (c_gs r) (c_rip r) (c_rflags r) (c_cpl r)
    (c_gdtr_base r) (c_gdtr_limit r) (c_ldtr_base r) (c_ldtr_limit r) (c_owner_engine r)
    (c_inst_cache r) (c_rex_present r) (c_rex_w r) (c_rex_r r) (c_rex_x r) (c_rex_b r)
    (c_operand_size_override r) (c_address_size_override r) (c_segment_override r)
    (c_last_inst_size r) (c_exception r) (c_cached_mode_key_bits r) (c_cached_mode_key_valid r).
Definition set_c_zmm_upper (v : list ZMMUpperRegister) (r : CPU_CONTEXT) : CPU_CONTEXT :=
  mkCtx (c_regs r) (c_control_regs r) (c_processor_id r) (c_long_mode_active r) (c_xmm r)
    (c_ymm_upper r) v (c_opmask r) (c_mm r) (c_mxcsr r) (c_x87_control_word r)
    (c_x87_status_word r) (c_x87_tag_word r) (c_x87_last_opcode r)
    (c_x87_instruction_pointer r) (c_x87_data_pointer r) (c_x87_pending_exception r) (c_es r)
    (c_cs r) (c_ss r) (c_ds r) (c_fs r) (c_gs r) (c_rip r) (c_rflags r) (c_cpl r)
    (c_gdtr_base r) (c_gdtr_limit r) (c_ldtr_base r) (c_ldtr_limit r) (c_owner_engine r)
    (c_inst_cache r) (c_rex_present r) (c_rex_w r) (c_rex_r r) (c_rex_x r) (c_rex_b r)
    (c_operand_size_override r) (c_address_size_override r) (c_segment_override r)
    (c_last_inst_size r) (c_exception r) (c_cached_mode_key_bits r) (c_cached_mode_key_valid r).
Definition set_c_opmask (v : list Z) (r : CPU_CONTEXT) : CPU_CONTEXT :=
  mkCtx (c_regs r) (c_control_regs r) (c_processor_id r) (c_long_mode_active r) (c_xmm r)
    (c_ymm_upper r) (c_zmm_upper r) v (c_mm r) (c_mxcsr r) (c_x87_control_word r)
    (c_x87_status_word r) (c_x87_tag_word r) (c_x87_last_opcode r)
    (c_x87_instruction_pointer r) (c_x87_data_pointer r) (c_x87_pending_exception r) (c_es r)
    (c_cs r) (c_ss r) (c_ds r) (c_fs r) (c_gs r) (c_rip r) (c_rflags r) (c_cpl r)
    (c_gdtr_base r) (c_gdtr_limit r) (c_ldtr_base r) (c_ldtr_limit r) (c_owner_engine r)
    (c_inst_cache r) (c_rex_present r) (c_rex_w r) (c_rex_r r) (c_rex_x r) (c_rex_b r)
    (c_operand_size_override r) (c_address_size_override r) (c_segment_override r)
    (c_last_inst_size r) (c_exception r) (c_cached_mode_key_bits r) (c_cached_mode_key_valid r).
Definition set_c_mm (v : list Z) (r : CPU_CONTEXT) : CPU_CONTEXT :=
  mkCtx (c_regs r) (c_control_regs r) (c_processor_id r) (c_long_mode_active r) (c_xmm r)
    (c_ymm_upper r) (c_zmm_upper r) (c_opmask r) v (c_mxcsr r) (c_x87_control_word r)
    (c_x87_status_word r) (c_x87_tag_word r) (c_x87_last_opcode r)
    (c_x87_instruction_pointer r) (c_x87_data_pointer r) (c_x87_pending_exception r) (c_es r)
    (c_cs r) (c_ss r) (c_ds r) (c_fs r) (c_gs r) (c_rip r) (c_rflags r) (c_cpl r)
    (c_gdtr_base r) (c_gdtr_limit r) (c_ldtr_base r) (c_ldtr_limit r) (c_owner_engine r)
    (c_inst_cache r) (c_rex_present r) (c_rex_w r) (c_rex_r r) (c_rex_x r) (c_rex_b r)
    (c_operand_size_override r) (c_address_size_override r) (c_segment_override r)
    (c_last_inst_size r) (c_exception r) (c_cached_mode_key_bits r) (c_cached_mode_key_valid r).
Definition set_c_mxcsr (v : Z) (r : CPU_CONTEXT) : CPU_CONTEXT :=
  mkCtx (c_regs r) (c_control_regs r) (c_processor_id r) (c_long_mode_active r) (c_xmm r)
    (c_ymm_upper r) (c_zmm_upper r) (c_opmask r) (c_mm r) v (c_x87_control_word r)
    (c_x87_status_word r) (c_x87_tag_word r) (c_x87_last_opcode r)
    (c_x87_instruction_pointer r) (c_x87_data_pointer r) (c_x87_pending_exception r) (c_es r)
    (c_cs r) (c_ss r) (c_ds r) (c_fs r) (c_gs r) (c_rip r) (c_rflags r) (c_cpl r)
    (c_gdtr_base r) (c_gdtr_limit r) (c_ldtr_base r) (c_ldtr_limit r) (c_owner_engine r)
    (c_inst_cache r) (c_rex_present r) (c_rex_w r) (c_rex_r r) (c_rex_x r) (c_rex_b r)
    (c_operand_size_override r) (c_address_size_override r) (c_segment_override r)
    (c_last_inst_size r) (c_exception r) (c_cached_mode_key_bits r) (c_cached_mode_key_valid r).
Definition set_c_x87_control_word (v : Z) (r : CPU_CONTEXT) : CPU_CONTEXT :=
  mkCtx (c_regs r) (c_control_regs r) (c_processor_id r) (c_long_mode_active r) (c_xmm r)
    (c_ymm_upper r) (c_zmm_upper r) (c_opmask r) (c_mm r) (c_mxcsr r) v (c_x87_status_word r)
    (c_x87_tag_word r) (c_x87_last_opcode r) (c_x87_instruction_pointer r)
    (c_x87_data_pointer r) (c_x87_pending_exception r) (c_es r) (c_cs r) (c_ss r) (c_ds r)
    (c_fs r) (c_gs r) (c_rip r) (c_rflags r) (c_cpl r) (c_gdtr_base r) (c_gdtr_limit r)
    (c_ldtr_base r) (c_ldtr_limit r) (c_owner_engine r) (c_inst_cache r) (c_rex_present r)
    (c_rex_w r) (c_rex_r r) (c_rex_x r) (c_rex_b r) (c_operand_size_override r)
    (c_address_size_override r) (c_segment_override r) (c_last_inst_size r) (c_exception r)
    (c_cached_mode_key_bits r) (c_cached_mode_key_valid r).
Definition set_c_x87_status_word (v : Z) (r : CPU_CONTEXT) : CPU_CONTEXT :=
  mkCtx (c_regs r) (c_control_regs r) (c_processor_id r) (c_long_mode_active r) (c_xmm r)
    (c_ymm_upper r) (c_zmm_upper r) (c_opmask r) (c_mm r) (c_mxcsr r) (c_x87_control_word r) v
    (c_x87_tag_word r) (c_x87_last_opcode r) (c_x87_instruction_pointer r)
    (c_x87_data_pointer r) (c_x87_pending_exception r) (c_es r) (c_cs r) (c_ss r) (c_ds r)
    (c_fs r) (c_gs r) (c_rip r) (c_rflags r) (c_cpl r) (c_gdtr_base r) (c_gdtr_limit r)
    (c_ldtr_base r) (c_ldtr_limit r) (c_owner_engine r) (c_inst_cache r) (c_rex_present r)
    (c_rex_w r) (c_rex_r r) (c_rex_x r) (c_rex_b r) (c_operand_size_override r)
    (c_address_size_override r) (c_segment_override r) (c_last_inst_size r) (c_exception r)
    (c_cached_mode_key_bits r) (c_cached_mode_key_valid r).
Definition set_c_x87_tag_word (v : Z) (r : CPU_CONTEXT) : CPU_CONTEXT :=
  mkCtx (c_regs r) (c_control_regs r) (c_processor_id r) (c_long_mode_active r) (c_xmm r)
    (c_ymm_upper r) (c_zmm_upper r) (c_opmask r) (c_mm r) (c_mxcsr r) (c_x87_control_word r)
    (c_x87_status_word r) v (c_x87_last_opcode r) (c_x87_instruction_pointer r)
    (c_x87_data_pointer r) (c_x87_pending_exception r) (c_es r) (c_cs r) (c_ss r) (c_ds r)
    (c_fs r) (c_gs r) (c_rip r) (c_rflags r) (c_cpl r) (c_gdtr_base r) (c_gdtr_limit r)
    (c_ldtr_base r) (c_ldtr_limit r) (c_owner_engine r) (c_inst_cache r) (c_rex_present r)
    (c_rex_w r) (c_rex_r r) (c_rex_x r) (c_rex_b r) (c_operand_size_override r)
    (c_address_size_override r) (c_segment_override r) (c_last_inst_size r) (c_exception r)
    (c_cached_mode_key_bits r) (c_cached_mode_key_valid r).
Definition set_c_x87_last_opcode (v : Z) (r : CPU_CONTEXT) : CPU_CONTEXT :=
  mkCtx (c_regs r) (c_control_regs r) (c_processor_id r) (c_long_mode_active r) (c_xmm r)
    (c_ymm_upper r) (c_zmm_upper r) (c_opmask r) (c_mm r) (c_mxcsr r) (c_x87_control_word r)
    (c_x87_status_word r) (c_x87_tag_word r) v (c_x87_instruction_pointer r)
    (c_x87_data_pointer r) (c_x87_pending_exception r) (c_es r) (c_cs r) (c_ss r) (c_ds r)
    (c_fs r) (c_gs r) (c_rip r) (c_rflags r) (c_cpl r) (c_gdtr_base r) (c_gdtr_limit r)
    (c_ldtr_base r) (c_ldtr_limit r) (c_owner_engine r) (c_inst_cache r) (c_rex_present r)
    (c_rex_w r) (c_rex_r r) (c_rex_x r) (c_rex_b r) (c_operand_size_override r)
    (c_address_size_override r) (c_segment_override r) (c_last_inst_size r) (c_exception r)
    (c_cached_mode_key_bits r) (c_cached_mode_key_valid r).
Definition set_c_x87_instruction_pointer (v : Z) (r : CPU_CONTEXT) : CPU_CONTEXT :=
  mkCtx (c_regs r) (c_control_regs r) (c_processor_id r) (c_long_mode_active r) (c_xmm r)
    (c_ymm_upper r) (c_zmm_upper r) (c_opmask r) (c_mm r) (c_mxcsr r) (c_x87_control_word r)
    (c_x87_status_word r) (c_x87_tag_word r) (c_x87_last_opcode r) v (c_x87_data_pointer r)
    (c_x87_pending_exception r) (c_es r) (c_cs r) (c_ss r) (c_ds r) (c_fs r) (c_gs r) (c_rip r)
    (c_rflags r) (c_cpl r) (c_gdtr_base r) (c_gdtr_limit r) (c_ldtr_base r) (c_ldtr_limit r)
    (c_owner_engine r) (c_inst_cache r) (c_rex_present r) (c_rex_w r) (c_rex_r r) (c_rex_x r)
    (c_rex_b r) (c_operand_size_override r) (c_address_size_override r) (c_segment_override r)
    (c_last_inst_size r) (c_exception r) (c_cached_mode_key_bits r) (c_cached_mode_key_valid r).
Definition set_c_x87_data_pointer (v : Z) (r : CPU_CONTEXT) : CPU_CONTEXT :=
  mkCtx (c_regs r) (c_control_regs r) (c_processor_id r) (c_long_mode_active r) (c_xmm r)
    (c_ymm_upper r) (c_zmm_upper r) (c_opmask r) (c_mm r) (c_mxcsr r) (c_x87_control_word r)
    (c_x87_status_word r) (c_x87_tag_word r) (c_x87_last_opcode r)
    (c_x87_instruction_pointer r) v (c_x87_pending_exception r) (c_es r) (c_cs r) (c_ss r)
    (c_ds r) (c_fs r) (c_gs r) (c_rip r) (c_rflags r) (c_cpl r) (c_gdtr_base r)
    (c_gdtr_limit r) (c_ldtr_base r) (c_ldtr_limit r) (c_owner_engine r) (c_inst_cache r)
    (c_rex_present r) (c_rex_w r) (c_rex_r r) (c_rex_x r) (c_rex_b r)
    (c_operand_size_override r) (c_address_size_override r) (c_segment_override r)
    (c_last_inst_size r) (c_exception r) (c_cached_mode_key_bits r) (c_cached_mode_key_valid r).
Definition set_c_x87_pending_exception (v : bool) (r : CPU_CONTEXT) : CPU_CONTEXT :=
  mkCtx (c_regs r) (c_control_regs r) (c_processor_id r) (c_long_mode_active r) (c_xmm r)
    (c_ymm_upper r) (c_zmm_upper r) (c_opmask r) (c_mm r) (c_mxcsr r) (c_x87_control_word r)
    (c_x87_status_word r) (c_x87_tag_word r) (c_x87_last_opcode r)
    (c_x87_instruction_pointer r) (c_x87_data_pointer r) v (c_es r) (c_cs r) (c_ss r) (c_ds r)
    (c_fs r) (c_gs r) (c_rip r) (c_rflags r) (c_cpl r) (c_gdtr_base r) (c_gdtr_limit r)
    (c_ldtr_base r) (c_ldtr_limit r) (c_owner_engine r) (c_inst_cache r) (c_rex_present r)
    (c_rex_w r) (c_rex_r r) (c_rex_x r) (c_rex_b r) (c_operand_size_override r)
    (c_address_size_override r) (c_segment_override r) (c_last_inst_size r) (c_exception r)
    (c_cached_mode_key_bits r) (c_cached_mode_key_valid r).
Definition set_c_es (v : SegmentRegister) (r : CPU_CONTEXT) : CPU_CONTEXT :=
  mkCtx (c_regs r) (c_control_regs r) (c_processor_id r) (c_long_mode_active r) (c_xmm r)
    (c_ymm_upper r) (c_zmm_upper r) (c_opmask r) (c_mm r) (c_mxcsr r) (c_x87_control_word r)
    (c_x87_status_word r) (c_x87_tag_word r) (c_x87_last_opcode r)
    (c_x87_instruction_pointer r) (c_x87_data_pointer r) (c_x87_pending_exception r) v (c_cs r)
    (c_ss r) (c_ds r) (c_fs r) (c_gs r) (c_rip r) (c_rflags r) (c_cpl r) (c_gdtr_base r)
    (c_gdtr_limit r) (c_ldtr_base r) (c_ldtr_limit r) (c_owner_engine r) (c_inst_cache r)
    (c_rex_present r) (c_rex_w r) (c_rex_r r) (c_rex_x r) (c_rex_b r)
    (c_operand_size_override r) (c_address_size_override r) (c_segment_override r)
    (c_last_inst_size r) (c_exception r) (c_cached_mode_key_bits r) (c_cached_mode_key_valid r).
Definition set_c_cs (v : SegmentRegister) (r : CPU_CONTEXT) : CPU_CONTEXT :=
  mkCtx (c_regs r) (c_control_regs r) (c_processor_id r) (c_long_mode_active r) (c_xmm r)
    (c_ymm_upper r) (c_zmm_upper r) (c_opmask r) (c_mm r) (c_mxcsr r) (c_x87_control_word r)
    (c_x87_status_word r) (c_x87_tag_word r) (c_x87_last_opcode r)
    (c_x87_instruction_pointer r) (c_x87_data_pointer r) (c_x87_pending_exception r) (c_es r) v
    (c_ss r) (c_ds r) (c_fs r) (c_gs r) (c_rip r) (c_rflags r) (c_cpl r) (c_gdtr_base r)
    (c_gdtr_limit r) (c_ldtr_base r) (c_ldtr_limit r) (c_owner_engine r) (c_inst_cache r)
    (c_rex_present r) (c_rex_w r) (c_rex_r r) (c_rex_x r) (c_rex_b r)
    (c_operand_size_override r) (c_address_size_override r) (c_segment_override r)
    (c_last_inst_size r) (c_exception r) (c_cached_mode_key_bits r) (c_cached_mode_key_valid r).
Definition set_c_ss (v : SegmentRegister) (r : CPU_CONTEXT) : CPU_CONTEXT :=
  mkCtx (c_regs r) (c_control_regs r) (c_processor_id r) (c_long_mode_active r) (c_xmm r)
    (c_ymm_upper r) (c_zmm_upper r) (c_opmask r) (c_mm r) (c_mxcsr r) (c_x87_control_word r)
    (c_x87_status_word r) (c_x87_tag_word r) (c_x87_last_opcode r)
    (c_x87_instruction_pointer r) (c_x87_data_pointer r) (c_x87_pending_exception r) (c_es r)
    (c_cs r) v (c_ds r) (c_fs r) (c_gs r) (c_rip r) (c_rflags r) (c_cpl r) (c_gdtr_base r)
    (c_gdtr_limit r) (c_ldtr_base r) (c_ldtr_limit r) (c_owner_engine r) (c_inst_cache r)
    (c_rex_present r) (c_rex_w r) (c_rex_r r) (c_rex_x r) (c_rex_b r)
    (c_operand_size_override r) (c_address_size_override r) (c_segment_override r)
    (c_last_inst_size r) (c_exception r) (c_cached_mode_key_bits r) (c_cached_mode_key_valid r).
Definition set_c_ds (v : SegmentRegister) (r : CPU_CONTEXT) : CPU_CONTEXT :=
  mkCtx (c_regs r) (c_control_regs r) (c_processor_id r) (c_long_mode_active r) (c_xmm r)
    (c_ymm_upper r) (c_zmm_upper r) (c_opmask r) (c_mm r) (c_mxcsr r) (c_x87_control_word r)
    (c_x87_status_word r) (c_x87_tag_word r) (c_x87_last_opcode r)
    (c_x87_instruction_pointer r) (c_x87_data_pointer r) (c_x87_pending_exception r) (c_es r)
    (c_cs r) (c_ss r) v (c_fs r) (c_gs r) (c_rip r) (c_rflags r) (c_cpl r) (c_gdtr_base r)
    (c_gdtr_limit r) (c_ldtr_base r) (c_ldtr_limit r) (c_owner_engine r) (c_inst_cache r)
    (c_rex_present r) (c_rex_w r) (c_rex_r r) (c_rex_x r) (c_rex_b r)
    (c_operand_size_override r) (c_address_size_override r) (c_segment_override r)
    (c_last_inst_size r) (c_exception r) (c_cached_mode_key_bits r) (c_cached_mode_key_valid r).
Definition set_c_fs (v : SegmentRegister) (r : CPU_CONTEXT) : CPU_CONTEXT :=
  mkCtx (c_regs r) (c_control_regs r) (c_processor_id r) (c_long_mode_active r) (c_xmm r)
    (c_ymm_upper r) (c_zmm_upper r) (c_opmask r) (c_mm r) (c_mxcsr r) (c_x87_control_word r)
    (c_x87_status_word r) (c_x87_tag_word r) (c_x87_last_opcode r)
    (c_x87_instruction_pointer r) (c_x87_data_pointer r) (c_x87_pending_exception r) (c_es r)
    (c_cs r) (c_ss r) (c_ds r) v (c_gs r) (c_rip r) (c_rflags r) (c_cpl r) (c_gdtr_base r)
    (c_gdtr_limit r) (c_ldtr_base r) (c_ldtr_limit r) (c_owner_engine r) (c_inst_cache r)
    (c_rex_present r) (c_rex_w r) (c_rex_r r) (c_rex_x r) (c_rex_b r)
    (c_operand_size_override r) (c_address_size_override r) (c_segment_override r)
    (c_last_inst_size r) (c_exception r) (c_cached_mode_key_bits r) (c_cached_mode_key_valid r).
Definition set_c_gs (v : SegmentRegister) (r : CPU_CONTEXT) : CPU_CONTEXT :=
  mkCtx (c_regs r) (c_control_regs r) (c_processor_id r) (c_long_mode_active r) (c_xmm r)
    (c_ymm_upper r) (c_zmm_upper r) (c_opmask r) (c_mm r) (c_mxcsr r) (c_x87_control_word r)
    (c_x87_status_word r) (c_x87_tag_word r) (c_x87_last_opcode r)
    (c_x87_instruction_pointer r) (c_x87_data_pointer r) (c_x87_pending_exception r) (c_es r)
    (c_cs r) (c_ss r) (c_ds r) (c_fs r) v (c_rip r) (c_rflags r) (c_cpl r) (c_gdtr_base r)
    (c_gdtr_limit r) (c_ldtr_base r) (c_ldtr_limit r) (c_owner_engine r) (c_inst_cache r)
    (c_rex_present r) (c_rex_w r) (c_rex_r r) (c_rex_x r) (c_rex_b r)
    (c_operand_size_override r) (c_address_size_override r) (c_segment_override r)
    (c_last_inst_size r) (c_exception r) (c_cached_mode_key_bits r) (c_cached_mode_key_valid r).
Definition set_c_rip (v : Z) (r : CPU_CONTEXT) : CPU_CONTEXT :=
  mkCtx (c_regs r) (c_control_regs r) (c_processor_id r) (c_long_mode_active r) (c_xmm r)
    (c_ymm_upper r) (c_zmm_upper r) (c_opmask r) (c_mm r) (c_mxcsr r) (c_x87_control_word r)
    (c_x87_status_word r) (c_x87_tag_word r) (c_x87_last_opcode r)
    (c_x87_instruction_pointer r) (c_x87_data_pointer r) (c_x87_pending_exception r) (c_es r)
    (c_cs r) (c_ss r) (c_ds r) (c_fs r) (c_gs r) v (c_rflags r) (c_cpl r) (c_gdtr_base r)
    (c_gdtr_limit r) (c_ldtr_base r) (c_ldtr_limit r) (c_owner_engine r) (c_inst_cache r)
    (c_rex_present r) (c_rex_w r) (c_rex_r r) (c_rex_x r) (c_rex_b r)
    (c_operand_size_override r) (c_address_size_override r) (c_segment_override r)
    (c_last_inst_size r) (c_exception r) (c_cached_mode_key_bits r) (c_cached_mode_key_valid r).
Definition set_c_rflags (v : Z) (r : CPU_CONTEXT) : CPU_CONTEXT :=
  mkCtx (c_regs r) (c_control_regs r) (c_processor_id r) (c_long_mode_active r) (c_xmm r)
    (c_ymm_upper r) (c_zmm_upper r) (c_opmask r) (c_mm r) (c_mxcsr r) (c_x87_control_word r)
    (c_x87_status_word r) (c_x87_tag_word r) (c_x87_last_opcode r)
    (c_x87_instruction_pointer r) (c_x87_data_pointer r) (c_x87_pending_exception r) (c_es r)
    (c_cs r) (c_ss r) (c_ds r) (c_fs r) (c_gs r) (c_rip r) v (c_cpl r) (c_gdtr_base r)
    (c_gdtr_limit r) (c_ldtr_base r) (c_ldtr_limit r) (c_owner_engine r) (c_inst_cache r)
    (c_rex_present r) (c_rex_w r) (c_rex_r r) (c_rex_x r) (c_rex_b r)
    (c_operand_size_override r) (c_address_size_override r) (c_segment_override r)
    (c_last_inst_size r) (c_exception r) (c_cached_mode_key_bits r) (c_cached_mode_key_valid r).
Definition set_c_cpl (v : Z) (r : CPU_CONTEXT) : CPU_CONTEXT :=
  mkCtx (c_regs r) (c_control_regs r) (c_processor_id r) (c_long_mode_active r) (c_xmm r)
    (c_ymm_upper r) (c_zmm_upper r) (c_opmask r) (c_mm r) (c_mxcsr r) (c_x87_control_word r)
    (c_x87_status_word r) (c_x87_tag_word r) (c_x87_last_opcode r)
    (c_x87_instruction_pointer r) (c_x87_data_pointer r) (c_x87_pending_exception r) (c_es r)
    (c_cs r) (c_ss r) (c_ds r) (c_fs r) (c_gs r) (c_rip r) (c_rflags r) v (c_gdtr_base r)
    (c_gdtr_limit r) (c_ldtr_base r) (c_ldtr_limit r) (c_owner_engine r) (c_inst_cache r)
    (c_rex_present r) (c_rex_w r) (c_rex_r r) (c_rex_x r) (c_rex_b r)
    (c_operand_size_override r) (c_address_size_override r) (c_segment_override r)
    (c_last_inst_size r) (c_exception r) (c_cached_mode_key_bits r) (c_cached_mode_key_valid r).
Definition set_c_gdtr_base (v : Z) (r : CPU_CONTEXT) : CPU_CONTEXT :=
  mkCtx (c_regs r) (c_control_regs r) (c_processor_id r) (c_long_mode_active r) (c_xmm r)
    (c_ymm_upper r) (c_zmm_upper r) (c_opmask r) (c_mm r) (c_mxcsr r) (c_x87_control_word r)
    (c_x87_status_word r) (c_x87_tag_word r) (c_x87_last_opcode r)
    (c_x87_instruction_pointer r) (c_x87_data_pointer r) (c_x87_pending_exception r) (c_es r)
    (c_cs r) (c_ss r) (c_ds r) (c_fs r) (c_gs r) (c_rip r) (c_rflags r) (c_cpl r) v
    (c_gdtr_limit r) (c_ldtr_base r) (c_ldtr_limit r) (c_owner_engine r) (c_inst_cache r)
    (c_rex_present r) (c_rex_w r) (c_rex_r r) (c_rex_x r) (c_rex_b r)
    (c_operand_size_override r) (c_address_size_override r) (c_segment_override r)
    (c_last_inst_size r) (c_exception r) (c_cached_mode_key_bits r) (c_cached_mode_key_valid r).
Definition set_c_gdtr_limit (v : Z) (r : CPU_CONTEXT) : CPU_CONTEXT :=
  mkCtx (c_regs r) (c_control_regs r) (c_processor_id r) (c_long_mode_active r) (c_xmm r)
    (c_ymm_upper r) (c_zmm_upper r) (c_opmask r) (c_mm r) (c_mxcsr r) (c_x87_control_word r)
    (c_x87_status_word r) (c_x87_tag_word r) (c_x87_last_opcode r)
    (c_x87_instruction_pointer r) (c_x87_data_pointer r) (c_x87_pending_exception r) (c_es r)
    (c_cs r) (c_ss r) (c_ds r) (c_fs r) (c_gs r) (c_rip r) (c_rflags r) (c_cpl r)
    (c_gdtr_base r) v (c_ldtr_base r) (c_ldtr_limit r) (c_owner_engine r) (c_inst_cache r)
    (c_rex_present r) (c_rex_w r) (c_rex_r r) (c_rex_x r) (c_rex_b r)
    (c_operand_size_override r) (c_address_size_override r) (c_segment_override r)
    (c_last_inst_size r) (c_exception r) (c_cached_mode_key_bits r) (c_cached_mode_key_valid r).
Definition set_c_ldtr_base (v : Z) (r : CPU_CONTEXT) : CPU_CONTEXT :=
  mkCtx (c_regs r) (c_control_regs r) (c_processor_id r) (c_long_mode_active r) (c_xmm r)
    (c_ymm_upper r) (c_zmm_upper r) (c_opmask r) (c_mm r) (c_mxcsr r) (c_x87_control_word r)
    (c_x87_status_word r) (c_x87_tag_word r) (c_x87_last_opcode r)
    (c_x87_instruction_pointer r) (c_x87_data_pointer r) (c_x87_pending_exception r) (c_es r)
    (c_cs r) (c_ss r) (c_ds r) (c_fs r) (c_gs r) (c_rip r) (c_rflags r) (c_cpl r)
    (c_gdtr_base r) (c_gdtr_limit r) v (c_ldtr_limit r) (c_owner_engine r) (c_inst_cache r)
    (c_rex_present r) (c_rex_w r) (c_rex_r r) (c_rex_x r) (c_rex_b r)
    (c_operand_size_override r) (c_address_size_override r) (c_segment_override r)
    (c_last_inst_size r) (c_exception r) (c_cached_mode_key_bits r) (c_cached_mode_key_valid r).
Definition set_c_ldtr_limit (v : Z) (r : CPU_CONTEXT) : CPU_CONTEXT :=
  mkCtx (c_regs r) (c_control_regs r) (c_processor_id r) (c_long_mode_active r) (c_xmm r)
    (c_ymm_upper r) (c_zmm_upper r) (c_opmask r) (c_mm r) (c_mxcsr r) (c_x87_control_word r)
    (c_x87_status_word r) (c_x87_tag_word r) (c_x87_last_opcode r)
    (c_x87_instruction_pointer r) (c_x87_data_pointer r) (c_x87_pending_exception r) (c_es r)
    (c_cs r) (c_ss r) (c_ds r) (c_fs r) (c_gs r) (c_rip r) (c_rflags r) (c_cpl r)
    (c_gdtr_base r) (c_gdtr_limit r) (c_ldtr_base r) v (c_owner_engine r) (c_inst_cache r)
    (c_rex_present r) (c_rex_w r) (c_rex_r r) (c_rex_x r) (c_rex_b r)
    (c_operand_size_override r) (c_address_size_override r) (c_segment_override r)
    (c_last_inst_size r) (c_exception r) (c_cached_mode_key_bits r) (c_cached_mode_key_valid r).
Definition set_c_owner_engine (v : bool) (r : CPU_CONTEXT) : CPU_CONTEXT :=
  mkCtx (c_regs r) (c_control_regs r) (c_processor_id r) (c_long_mode_active r) (c_xmm r)
    (c_ymm_upper r) (c_zmm_upper r) (c_opmask r) (c_mm r) (c_mxcsr r) (c_x87_control_word r)
    (c_x87_status_word r) (c_x87_tag_word r) (c_x87_last_opcode r)
    (c_x87_instruction_pointer r) (c_x87_data_pointer r) (c_x87_pending_exception r) (c_es r)
    (c_cs r) (c_ss r) (c_ds r) (c_fs r) (c_gs r) (c_rip r) (c_rflags r) (c_cpl r)
    (c_gdtr_base r) (c_gdtr_limit r) (c_ldtr_base r) (c_ldtr_limit r) v (c_inst_cache r)
    (c_rex_present r) (c_rex_w r) (c_rex_r r) (c_rex_x r) (c_rex_b r)
    (c_operand_size_override r) (c_address_size_override r) (c_segment_override r)
    (c_last_inst_size r) (c_exception r) (c_cached_mode_key_bits r) (c_cached_mode_key_valid r).
Definition set_c_inst_cache (v : bool) (r : CPU_CONTEXT) : CPU_CONTEXT :=
  mkCtx (c_regs r) (c_control_regs r) (c_processor_id r) (c_long_mode_active r) (c_xmm r)
    (c_ymm_upper r) (c_zmm_upper r) (c_opmask r) (c_mm r) (c_mxcsr r) (c_x87_control_word r)
    (c_x87_status_word r) (c_x87_tag_word r) (c_x87_last_opcode r)
    (c_x87_instruction_pointer r) (c_x87_data_pointer r) (c_x87_pending_exception r) (c_es r)
    (c_cs r) (c_ss r) (c_ds r) (c_fs r) (c_gs r) (c_rip r) (c_rflags r) (c_cpl r)
    (c_gdtr_base r) (c_gdtr_limit r) (c_ldtr_base r) (c_ldtr_limit r) (c_owner_engine r) v
    (c_rex_present r) (c_rex_w r) (c_rex_r r) (c_rex_x r) (c_rex_b r)
    (c_operand_size_override r) (c_address_size_override r) (c_segment_override r)
    (c_last_inst_size r) (c_exception r) (c_cached_mode_key_bits r) (c_cached_mode_key_valid r).
Definition set_c_rex_present (v : bool) (r : CPU_CONTEXT) : CPU_CONTEXT :=
  mkCtx (c_regs r) (c_control_regs r) (c_processor_id r) (c_long_mode_active r) (c_xmm r)
    (c_ymm_upper r) (c_zmm_upper r) (c_opmask r) (c_mm r) (c_mxcsr r) (c_x87_control_word r)
    (c_x87_status_word r) (c_x87_tag_word r) (c_x87_last_opcode r)
    (c_x87_instruction_pointer r) (c_x87_data_pointer r) (c_x87_pending_exception r) (c_es r)
    (c_cs r) (c_ss r) (c_ds r) (c_fs r) (c_gs r) (c_rip r) (c_rflags r) (c_cpl r)
    (c_gdtr_base r) (c_gdtr_limit r) (c_ldtr_base r) (c_ldtr_limit r) (c_owner_engine r)
    (c_inst_cache r) v (c_rex_w r) (c_rex_r r) (c_rex_x r) (c_rex_b r)
    (c_operand_size_override r) (c_address_size_override r) (c_segment_override r)
    (c_last_inst_size r) (c_exception r) (c_cached_mode_key_bits r) (c_cached_mode_key_valid r).
Definition set_c_rex_w (v : bool) (r : CPU_CONTEXT) : CPU_CONTEXT :=
  mkCtx (c_regs r) (c_control_regs r) (c_processor_id r) (c_long_mode_active r) (c_xmm r)
    (c_ymm_upper r) (c_zmm_upper r) (c_opmask r) (c_mm r) (c_mxcsr r) (c_x87_control_word r)
    (c_x87_status_word r) (c_x87_tag_word r) (c_x87_last_opcode r)
    (c_x87_instruction_pointer r) (c_x87_data_pointer r) (c_x87_pending_exception r) (c_es r)
    (c_cs r) (c_ss r) (c_ds r) (c_fs r) (c_gs r) (c_rip r) (c_rflags r) (c_cpl r)
    (c_gdtr_base r) (c_gdtr_limit r) (c_ldtr_base r) (c_ldtr_limit r) (c_owner_engine r)
    (c_inst_cache r) (c_rex_present r) v (c_rex_r r) (c_rex_x r) (c_rex_b r)
    (c_operand_size_override r) (c_address_size_override r) (c_segment_override r)
    (c_last_inst_size r) (c_exception r) (c_cached_mode_key_bits r) (c_cached_mode_key_valid r).
Definition set_c_rex_r (v : bool) (r : CPU_CONTEXT) : CPU_CONTEXT :=
  mkCtx (c_regs r) (c_control_regs r) (c_processor_id r) (c_long_mode_active r) (c_xmm r)
    (c_ymm_upper r) (c_zmm_upper r) (c_opmask r) (c_mm r) (c_mxcsr r) (c_x87_control_word r)
    (c_x87_status_word r) (c_x87_tag_word r) (c_x87_last_opcode r)
    (c_x87_instruction_pointer r) (c_x87_data_pointer r) (c_x87_pending_exception r) (c_es r)
    (c_cs r) (c_ss r) (c_ds r) (c_fs r) (c_gs r) (c_rip r) (c_rflags r) (c_cpl r)
    (c_gdtr_base r) (c_gdtr_limit r) (c_ldtr_base r) (c_ldtr_limit r) (c_owner_engine r)
    (c_inst_cache r) (c_rex_present r) (c_rex_w r) v (c_rex_x r) (c_rex_b r)
    (c_operand_size_override r) (c_address_size_override r) (c_segment_override r)
    (c_last_inst_size r) (c_exception r) (c_cached_mode_key_bits r) (c_cached_mode_key_valid r).
Definition set_c_rex_x (v : bool) (r : CPU_CONTEXT) : CPU_CONTEXT :=
  mkCtx (c_regs r) (c_control_regs r) (c_processor_id r) (c_long_mode_active r) (c_xmm r)
    (c_ymm_upper r) (c_zmm_upper r) (c_opmask r) (c_mm r) (c_mxcsr r) (c_x87_control_word r)
    (c_x87_status_word r) (c_x87_tag_word r) (c_x87_last_opcode r)
    (c_x87_instruction_pointer r) (c_x87_data_pointer r) (c_x87_pending_exception r) (c_es r)
    (c_cs r) (c_ss r) (c_ds r) (c_fs r) (c_gs r) (c_rip r) (c_rflags r) (c_cpl r)
    (c_gdtr_base r) (c_gdtr_limit r) (c_ldtr_base r) (c_ldtr_limit r) (c_owner_engine r)
    (c_inst_cache r) (c_rex_present r) (c_rex_w r) (c_rex_r r) v (c_rex_b r)
    (c_operand_size_override r) (c_address_size_override r) (c_segment_override r)
    (c_last_inst_size r) (c_exception r) (c_cached_mode_key_bits r) (c_cached_mode_key_valid r).
Definition set_c_rex_b (v : bool) (r : CPU_CONTEXT) : CPU_CONTEXT :=
  mkCtx (c_regs r) (c_control_regs r) (c_processor_id r) (c_long_mode_active r) (c_xmm r)
    (c_ymm_upper r) (c_zmm_upper r) (c_opmask r) (c_mm r) (c_mxcsr r) (c_x87_control_word r)
    (c_x87_status_word r) (c_x87_tag_word r) (c_x87_last_opcode r)
    (c_x87_instruction_pointer r) (c_x87_data_pointer r) (c_x87_pending_exception r) (c_es r)
    (c_cs r) (c_ss r) (c_ds r) (c_fs r) (c_gs r) (c_rip r) (c_rflags r) (c_cpl r)
    (c_gdtr_base r) (c_gdtr_limit r) (c_ldtr_base r) (c_ldtr_limit r) (c_owner_engine r)
    (c_inst_cache r) (c_rex_present r) (c_rex_w r) (c_rex_r r) (c_rex_x r) v
    (c_operand_size_override r) (c_address_size_override r) (c_segment_override r)
    (c_last_inst_size r) (c_exception r) (c_cached_mode_key_bits r) (c_cached_mode_key_valid r).
Definition set_c_operand_size_override (v : bool) (r : CPU_CONTEXT) : CPU_CONTEXT :=
  mkCtx (c_regs r) (c_control_regs r) (c_processor_id r) (c_long_mode_active r) (c_xmm r)
    (c_ymm_upper r) (c_zmm_upper r) (c_opmask r) (c_mm r) (c_mxcsr r) (c_x87_control_word r)
    (c_x87_status_word r) (c_x87_tag_word r) (c_x87_last_opcode r)
    (c_x87_instruction_pointer r) (c_x87_data_pointer r) (c_x87_pending_exception r) (c_es r)
    (c_cs r) (c_ss r) (c_ds r) (c_fs r) (c_gs r) (c_rip r) (c_rflags r) (c_cpl r)
    (c_gdtr_base r) (c_gdtr_limit r) (c_ldtr_base r) (c_ldtr_limit r) (c_owner_engine r)
    (c_inst_cache r) (c_rex_present r) (c_rex_w r) (c_rex_r r) (c_rex_x r) (c_rex_b r) v
    (c_address_size_override r) (c_segment_override r) (c_last_inst_size r) (c_exception r)
    (c_cached_mode_key_bits r) (c_cached_mode_key_valid r).
Definition set_c_address_size_override (v : bool) (r : CPU_CONTEXT) : CPU_CONTEXT :=
  mkCtx (c_regs r) (c_control_regs r) (c_processor_id r) (c_long_mode_active r) (c_xmm r)
    (c_ymm_upper r) (c_zmm_upper r) (c_opmask r) (c_mm r) (c_mxcsr r) (c_x87_control_word r)
    (c_x87_status_word r) (c_x87_tag_word r) (c_x87_last_opcode r)
    (c_x87_instruction_pointer r) (c_x87_data_pointer r) (c_x87_pending_exception r) (c_es r)
    (c_cs r) (c_ss r) (c_ds r) (c_fs r) (c_gs r) (c_rip r) (c_rflags r) (c_cpl r)
    (c_gdtr_base r) (c_gdtr_limit r) (c_ldtr_base r) (c_ldtr_limit r) (c_owner_engine r)
    (c_inst_cache r) (c_rex_present r) (c_rex_w r) (c_rex_r r) (c_rex_x r) (c_rex_b r)
    (c_operand_size_override r) v (c_segment_override r) (c_last_inst_size r) (c_exception r)
    (c_cached_mode_key_bits r) (c_cached_mode_key_valid r).
Definition set_c_segment_override (v : Z) (r : CPU_CONTEXT) : CPU_CONTEXT :=
  mkCtx (c_regs r) (c_control_regs r) (c_processor_id r) (c_long_mode_active r) (c_xmm r)
    (c_ymm_upper r) (c_zmm_upper r) (c_opmask r) (c_mm r) (c_mxcsr r) (c_x87_control_word r)
    (c_x87_status_word r) (c_x87_tag_word r) (c_x87_last_opcode r)
    (c_x87_instruction_pointer r) (c_x87_data_pointer r) (c_x87_pending_exception r) (c_es r)
    (c_cs r) (c_ss r) (c_ds r) (c_fs r) (c_gs r) (c_rip r) (c_rflags r) (c_cpl r)
    (c_gdtr_base r) (c_gdtr_limit r) (c_ldtr_base r) (c_ldtr_limit r) (c_owner_engine r)
    (c_inst_cache r) (c_rex_present r) (c_rex_w r) (c_rex_r r) (c_rex_x r) (c_rex_b r)
    (c_operand_size_override r) (c_address_size_override r) v (c_last_inst_size r)
    (c_exception r) (c_cached_mode_key_bits r) (c_cached_mode_key_valid r).
Definition set_c_last_inst_size (v : Z) (r : CPU_CONTEXT) : CPU_CONTEXT :=
  mkCtx (c_regs r) (c_control_regs r) (c_processor_id r) (c_long_mode_active r) (c_xmm r)
    (c_ymm_upper r) (c_zmm_upper r) (c_opmask r) (c_mm r) (c_mxcsr r) (c_x87_control_word r)
    (c_x87_status_word r) (c_x87_tag_word r) (c_x87_last_opcode r)
    (c_x87_instruction_pointer r) (c_x87_data_pointer r) (c_x87_pending_exception r) (c_es r)
    (c_cs r) (c_ss r) (c_ds r) (c_fs r) (c_gs r) (c_rip r) (c_rflags r) (c_cpl r)
    (c_gdtr_base r) (c_gdtr_limit r) (c_ldtr_base r) (c_ldtr_limit r) (c_owner_engine r)
    (c_inst_cache r) (c_rex_present r) (c_rex_w r) (c_rex_r r) (c_rex_x r) (c_rex_b r)
    (c_operand_size_override r) (c_address_size_override r) (c_segment_override r) v
    (c_exception r) (c_cached_mode_key_bits r) (c_cached_mode_key_valid r).
Definition set_c_exception (v : CPU_EXCEPTION_STATE) (r : CPU_CONTEXT) : CPU_CONTEXT :=
  mkCtx (c_regs r) (c_control_regs r) (c_processor_id r) (c_long_mode_active r) (c_xmm r)
    (c_ymm_upper r) (c_zmm_upper r) (c_opmask r) (c_mm r) (c_mxcsr r) (c_x87_control_word r)
    (c_x87_status_word r) (c_x87_tag_word r) (c_x87_last_opcode r)
    (c_x87_instruction_pointer r) (c_x87_data_pointer r) (c_x87_pending_exception r) (c_es r)
    (c_cs r) (c_ss r) (c_ds r) (c_fs r) (c_gs r) (c_rip r) (c_rflags r) (c_cpl r)
    (c_gdtr_base r) (c_gdtr_limit r) (c_ldtr_base r) (c_ldtr_limit r) (c_owner_engine r)
    (c_inst_cache r) (c_rex_present r) (c_rex_w r) (c_rex_r r) (c_rex_x r) (c_rex_b r)
    (c_operand_size_override r) (c_address_size_override r) (c_segment_override r)
    (c_last_inst_size r) v (c_cached_mode_key_bits r) (c_cached_mode_key_valid r).
Definition set_c_cached_mode_key_bits (v : Z) (r : CPU_CONTEXT) : CPU_CONTEXT :=
  mkCtx (c_regs r) (c_control_regs r) (c_processor_id r) (c_long_mode_active r) (c_xmm r)
    (c_ymm_upper r) (c_zmm_upper r) (c_opmask r) (c_mm r) (c_mxcsr r) (c_x87_control_word r)
    (c_x87_status_word r) (c_x87_tag_word r) (c_x87_last_opcode r)
    (c_x87_instruction_pointer r) (c_x87_data_pointer r) (c_x87_pending_exception r) (c_es r)
    (c_cs r) (c_ss r) (c_ds r) (c_fs r) (c_gs r) (c_rip r) (c_rflags r) (c_cpl r)
    (c_gdtr_base r) (c_gdtr_limit r) (c_ldtr_base r) (c_ldtr_limit r) (c_owner_engine r)
    (c_inst_cache r) (c_rex_present r) (c_rex_w r) (c_rex_r r) (c_rex_x r) (c_rex_b r)
    (c_operand_size_override r) (c_address_size_override r) (c_segment_override r)
    (c_last_inst_size r) (c_exception r) v (c_cached_mode_key_valid r).
Definition set_c_cached_mode_key_valid (v : bool) (r : CPU_CONTEXT) : CPU_CONTEXT :=
  mkCtx (c_regs r) (c_control_regs r) (c_processor_id r) (c_long_mode_active r) (c_xmm r)
    (c_ymm_upper r) (c_zmm_upper r) (c_opmask r) (c_mm r) (c_mxcsr r) (c_x87_control_word r)
    (c_x87_status_word r) (c_x87_tag_word r) (c_x87_last_opcode r)
    (c_x87_instruction_pointer r) (c_x87_data_pointer r) (c_x87_pending_exception r) (c_es r)
    (c_cs r) (c_ss r) (c_ds r) (c_fs r) (c_gs r) (c_rip r) (c_rflags r) (c_cpl r)
    (c_gdtr_base r) (c_gdtr_limit r) (c_ldtr_base r) (c_ldtr_limit r) (c_owner_engine r)
    (c_inst_cache r) (c_rex_present r) (c_rex_w r) (c_rex_r r) (c_rex_x r) (c_rex_b r)
    (c_operand_size_override r) (c_address_size_override r) (c_segment_override r)
    (c_last_inst_size r) (c_exception r) (c_cached_mode_key_bits r) v.

(** The fields of a decoded instruction ([DecodedInstruction]). *)
Record DecodedInstruction := mkInst {
  i_opcode : Z;
  i_mandatory_prefix : Z;
  i_modrm : Z;
  i_sib : Z;
  i_displacement : Z;
  i_immediate : Z;
  i_mem_address : Z;
  i_operand_size : Z;
  i_address_size : Z;
  i_has_modrm : bool;
  i_has_sib : bool;
  i_has_lock_prefix : bool;
  i_disp_size : Z;
  i_imm_size : Z;
  i_inst_size : Z;
}.

Definition set_i_opcode (v : Z) (r : DecodedInstruction) : DecodedInstruction :=
  mkInst v (i_mandatory_prefix r) (i_modrm r) (i_sib r) (i_displacement r) (i_immediate r)
    (i_mem_address r) (i_operand_size r) (i_address_size r) (i_has_modrm r) (i_has_sib r)
    (i_has_lock_prefix r) (i_disp_size r) (i_imm_size r) (i_inst_size r).
Definition set_i_mandatory_prefix (v : Z) (r : DecodedInstruction) : DecodedInstruction :=
  mkInst (i_opcode r) v (i_modrm r) (i_sib r) (i_displacement r) (i_immediate r)
    (i_mem_address r) (i_operand_size r) (i_address_size r) (i_has_modrm r) (i_has_sib r)
    (i_has_lock_prefix r) (i_disp_size r) (i_imm_size r) (i_inst_size r).
Definition set_i_modrm (v : Z) (r : DecodedInstruction) : DecodedInstruction :=
  mkInst (i_opcode r) (i_mandatory_prefix r) v (i_sib r) (i_displacement r) (i_immediate r)
    (i_mem_address r) (i_operand_size r) (i_address_size r) (i_has_modrm r) (i_has_sib r)
    (i_has_lock_prefix r) (i_disp_size r) (i_imm_size r) (i_inst_size r).
Definition set_i_sib (v : Z) (r : DecodedInstruction) : DecodedInstruction :=
  mkInst (i_opcode r) (i_mandatory_prefix r) (i_modrm r) v (i_displacement r) (i_immediate r)
    (i_mem_address r) (i_operand_size r) (i_address_size r) (i_has_modrm r) (i_has_sib r)
    (i_has_lock_prefix r) (i_disp_size r) (i_imm_size r) (i_inst_size r).
Definition set_i_displacement (v : Z) (r : DecodedInstruction) : DecodedInstruction :=
  mkInst (i_opcode r) (i_mandatory_prefix r) (i_modrm r) (i_sib r) v (i_immediate r)
    (i_mem_address r) (i_operand_size r) (i_address_size r) (i_has_modrm r) (i_has_sib r)
    (i_has_lock_prefix r) (i_disp_size r) (i_imm_size r) (i_inst_size r).
Definition set_i_immediate (v : Z) (r : DecodedInstruction) : DecodedInstruction :=
  mkInst (i_opcode r) (i_mandatory_prefix r) (i_modrm r) (i_sib r) (i_displacement r) v
    (i_mem_address r) (i_operand_size r) (i_address_size r) (i_has_modrm r) (i_has_sib r)
    (i_has_lock_prefix r) (i_disp_size r) (i_imm_size r) (i_inst_size r).
Definition set_i_mem_address (v : Z) (r : DecodedInstruction) : DecodedInstruction :=
  mkInst (i_opcode r) (i_mandatory_prefix r) (i_modrm r) (i_sib r) (i_displacement r)
    (i_immediate r) v (i_operand_size r) (i_address_size r) (i_has_modrm r) (i_has_sib r)
    (i_has_lock_prefix r) (i_disp_size r) (i_imm_size r) (i_inst_size r).
Definition set_i_operand_size (v : Z) (r : DecodedInstruction) : DecodedInstruction :=
  mkInst (i_opcode r) (i_mandatory_prefix r) (i_modrm r) (i_sib r) (i_displacement r)
    (i_immediate r) (i_mem_address r) v (i_address_size r) (i_has_modrm r) (i_has_sib r)
    (i_has_lock_prefix r) (i_disp_size r) (i_imm_size r) (i_inst_size r).
Definition set_i_address_size (v : Z) (r : DecodedInstruction) : DecodedInstruction :=
  mkInst (i_opcode r) (i_mandatory_prefix r) (i_modrm r) (i_sib r) (i_displacement r)
    (i_immediate r) (i_mem_address r) (i_operand_size r) v (i_has_modrm r) (i_has_sib r)
    (i_has_lock_prefix r) (i_disp_size r) (i_imm_size r) (i_inst_size r).
Definition set_i_has_modrm (v : bool) (r : DecodedInstruction) : DecodedInstruction :=
  mkInst (i_opcode r) (i_mandatory_prefix r) (i_modrm r) (i_sib r) (i_displacement r)
    (i_immediate r) (i_mem_address r) (i_operand_size r) (i_address_size r) v (i_has_sib r)
    (i_has_lock_prefix r) (i_disp_size r) (i_imm_size r) (i_inst_size r).
Definition set_i_has_sib (v : bool) (r : DecodedInstruction) : DecodedInstruction :=
  mkInst (i_opcode r) (i_mandatory_prefix r) (i_modrm r) (i_sib r) (i_displacement r)
    (i_immediate r) (i_mem_address r) (i_operand_size r) (i_address_size r) (i_has_modrm r) v
    (i_has_lock_prefix r) (i_disp_size r) (i_imm_size r) (i_inst_size r).
Definition set_i_has_lock_prefix (v : bool) (r : DecodedInstruction) : DecodedInstruction :=
  mkInst (i_opcode r) (i_mandatory_prefix r) (i_modrm r) (i_sib r) (i_displacement r)
    (i_immediate r) (i_mem_address r) (i_operand_size r) (i_address_size r) (i_has_modrm r)
    (i_has_sib r) v (i_disp_size r) (i_imm_size r) (i_inst_size r).
Definition set_i_disp_size (v : Z) (r : DecodedInstruction) : DecodedInstruction :=
  mkInst (i_opcode r) (i_mandatory_prefix r) (i_modrm r) (i_sib r) (i_displacement r)
    (i_immediate r) (i_mem_address r) (i_operand_size r) (i_address_size r) (i_has_modrm r)
    (i_has_sib r) (i_has_lock_prefix r) v (i_imm_size r) (i_inst_size r).
Definition set_i_imm_size (v : Z) (r : DecodedInstruction) : DecodedInstruction :=
  mkInst (i_opcode r) (i_mandatory_prefix r) (i_modrm r) (i_sib r) (i_displacement r)
    (i_immediate r) (i_mem_address r) (i_operand_size r) (i_address_size r) (i_has_modrm r)
    (i_has_sib r) (i_has_lock_prefix r) (i_disp_size r) v (i_inst_size r).
Definition set_i_inst_size (v : Z) (r : DecodedInstruction) : DecodedInstruction :=
  mkInst (i_opcode r) (i_mandatory_prefix r) (i_modrm r) (i_sib r) (i_displacement r)
    (i_immediate r) (i_mem_address r) (i_operand_size r) (i_address_size r) (i_has_modrm r)
    (i_has_sib r) (i_has_lock_prefix r) (i_disp_size r) (i_imm_size r) v.

Definition zero_inst : DecodedInstruction :=
  mkInst 0 0 0 0 0 0 0 0 0 false false false 0 0 0.

(** ** Exceptions *)

Definition cpu_is_exception_code (code : Z) : bool :=
  (CPU_EXCEPTION_DE <=? code) && (code <=? CPU_EXCEPTION_MF).

Definition cpu_exception_reset : CPU_EXCEPTION_STATE := mkExc CPU_EXCEPTION_NONE 0.

Definition cpu_has_exception (ctx : CPU_CONTEXT) : bool :=
  negb (exc_code (c_exception ctx) =? CPU_EXCEPTION_NONE).

Definition cpu_clear_exception (ctx : CPU_CONTEXT) : CPU_CONTEXT :=
  set_c_exception cpu_exception_reset ctx.

(** The first exception wins: a pending one is never overwritten. *)
Definition cpu_raise_exception (code error_code : Z) (ctx : CPU_CONTEXT) : CPU_CONTEXT :=
  if cpu_has_exception ctx then ctx else set_c_exception (mkExc code error_code) ctx.

Definition raise_de_ctx := cpu_raise_exception CPU_EXCEPTION_DE 0.
Definition raise_gp_ctx (error_code : Z) := cpu_raise_exception CPU_EXCEPTION_GP error_code.
Definition raise_ss_ctx (error_code : Z) := cpu_raise_exception CPU_EXCEPTION_SS error_code.
Definition raise_np_ctx (error_code : Z) := cpu_raise_exception CPU_EXCEPTION_NP error_code.
Definition raise_ud_ctx := cpu_raise_exception CPU_EXCEPTION_UD 0.
Definition raise_pf_ctx (error_code : Z) := cpu_raise_exception CPU_EXCEPTION_PF error_code.
Definition raise_bp_ctx := cpu_raise_exception CPU_EXCEPTION_BP 0.
Definition raise_db_ctx := cpu_raise_exception CPU_EXCEPTION_DB 0.
Definition raise_nm_ctx := cpu_raise_exception CPU_EXCEPTION_NM 0.
Definition raise_mf_ctx := cpu_raise_exception CPU_EXCEPTION_MF 0.

(** ** x87 status *)

Definition cpu_x87_default_control_word : Z := 0x037F.
Definition cpu_x87_default_status_word : Z := 0x0000.
Definition cpu_x87_default_tag_word : Z := 0xFFFF.

Definition cpu_reset_x87_state (ctx : CPU_CONTEXT) : CPU_CONTEXT :=
  set_c_x87_pending_exception false
    (set_c_x87_data_pointer 0
      (set_c_x87_instruction_pointer 0
        (set_c_x87_last_opcode 0
          (set_c_x87_tag_word cpu_x87_default_tag_word
            (set_c_x87_status_word cpu_x87_default_status_word
              (set_c_x87_control_word cpu_x87_default_control_word ctx)))))).

Definition cpu_x87_device_unavailable (ctx : CPU_CONTEXT) : bool :=
  has_bits (arr_get 0 (c_control_regs ctx) REG_CR0) (Z.lor (2 ^ 2) (2 ^ 3)).

Definition cpu_x87_has_pending_exception (ctx : CPU_CONTEXT) : bool := c_x87_pending_exception ctx.

Definition cpu_x87_recompute_pending_exception (ctx : CPU_CONTEXT) : CPU_CONTEXT :=
  let status_flags := Z.land (c_x87_status_word ctx) 0x003F in
  let unmasked := Z.land (Z.land status_flags (u16 (Z.lnot (c_x87_control_word ctx)))) 0x003F in
  set_c_x87_pending_exception (negb (unmasked =? 0)) ctx.

Definition cpu_x87_check_device_available (ctx : CPU_CONTEXT) : bool * CPU_CONTEXT :=
  if cpu_x87_device_unavailable ctx then (false, raise_nm_ctx ctx) else (true, ctx).

Definition cpu_x87_check_wait (has_wait_prefix : bool) (ctx : CPU_CONTEXT) : bool * CPU_CONTEXT :=
  if has_wait_prefix && cpu_x87_has_pending_exception ctx then (false, raise_mf_ctx ctx)
  else (true, ctx).

(** ** Modes and segments *)

Definition cpu_decode_segment_override (prefix : Z) : Z :=
  if prefix =? 0x26 then SEG_ES
  else if prefix =? 0x2E then SEG_CS
  else if prefix =? 0x36 then SEG_SS
  else if prefix =? 0x3E then SEG_DS
  else if prefix =? 0x64 then SEG_FS
  else if prefix =? 0x65 then SEG_GS
  else -1.

Definition cpu_effective_segment_override_or_default (ctx : CPU_CONTEXT) (default_segment : Z) : Z :=
  if (SEG_ES <=? c_segment_override ctx) && (c_segment_override ctx <=? SEG_GS)
  then c_segment_override ctx else default_segment.

Definition cs_long_mode (ctx : CPU_CONTEXT) : bool := sd_long_mode (seg_descriptor (c_cs ctx)).
Definition cs_db (ctx : CPU_CONTEXT) : bool := sd_db (seg_descriptor (c_cs ctx)).

Definition cpu_long_mode_active (ctx : CPU_CONTEXT) : bool := c_long_mode_active ctx.

Definition cpu_is_64bit_code (ctx : CPU_CONTEXT) : bool :=
  cpu_long_mode_active ctx && cs_long_mode ctx.

Definition cpu_is_compatibility_code (ctx : CPU_CONTEXT) : bool :=
  cpu_long_mode_active ctx && negb (cs_long_mode ctx).

Definition cpu_is_compat32_code (ctx : CPU_CONTEXT) : bool :=
  cpu_is_compatibility_code ctx && cs_db ctx.

Definition cpu_allows_rex_prefix (ctx : CPU_CONTEXT) : bool := cpu_is_64bit_code ctx.
Definition cpu_uses_flat_segment_bases (ctx : CPU_CONTEXT) : bool := cpu_is_64bit_code ctx.
Definition cpu_uses_canonical_addresses (ctx : CPU_CONTEXT) : bool := cpu_is_64bit_code ctx.

Definition cpu_default_address_size (ctx : CPU_CONTEXT) : Z :=
  if cpu_is_64bit_code ctx then 64 else if cs_db ctx then 32 else 16.

Definition cpu_default_operand_size (ctx : CPU_CONTEXT) : Z := if cs_db ctx then 32 else 16.

Definition cpu_stack_address_size (ctx : CPU_CONTEXT) : Z :=
  if cpu_is_64bit_code ctx then 64
  else if sd_db (seg_descriptor (c_ss ctx)) then 32 else 16.

(** ** Code offsets and linear addresses *)

Definition cpu_mask_code_offset (value operand_size : Z) : Z :=
  if operand_size =? 16 then u16 value
  else if operand_size =? 32 then u32 value
  else value.

Definition cpu_is_canonical_address (address : Z) : bool :=
  let sign_bit := Z.land (Z.shiftr address 47) 1 in
  let upper_bits := Z.shiftr address 48 in
  upper_bits =? (if negb (sign_bit =? 0) then 0xFFFF else 0x0000).

Definition cpu_validate_code_offset (value operand_size : Z) (ctx : CPU_CONTEXT) : bool * CPU_CONTEXT :=
  let target := cpu_mask_code_offset value operand_size in
  if cpu_uses_canonical_addresses ctx && negb (cpu_is_canonical_address target)
  then (false, raise_gp_ctx 0 ctx) else (true, ctx).

Definition cpu_assign_rip_checked (value operand_size : Z) (ctx : CPU_CONTEXT) : bool * CPU_CONTEXT :=
  let '(ok, ctx) := cpu_validate_code_offset value operand_size ctx in
  if ok then (true, set_c_rip (cpu_mask_code_offset value operand_size) ctx) else (false, ctx).

Definition cpu_segment (ctx : CPU_CONTEXT) (segment_index : Z) : option SegmentRegister :=
  if segment_index =? SEG_ES then Some (c_es ctx)
  else if segment_index =? SEG_CS then Some (c_cs ctx)
  else if segment_index =? SEG_SS then Some (c_ss ctx)
  else if segment_index =? SEG_DS then Some (c_ds ctx)
  else if segment_index =? SEG_FS then Some (c_fs ctx)
  else if segment_index =? SEG_GS then Some (c_gs ctx)
  else None.

Definition cpu_segment_base_for_addressing (ctx : CPU_CONTEXT) (segment_index : Z) : Z :=
  match cpu_segment ctx segment_index with
  | None => 0
  | Some seg =>
      if cpu_uses_flat_segment_bases ctx && negb (segment_index =? SEG_FS)
         && negb (segment_index =? SEG_GS)
      then 0 else sd_base (seg_descriptor seg)
  end.

Definition cpu_raise_noncanonical_address (segment_index : Z) (ctx : CPU_CONTEXT) : CPU_CONTEXT :=
  if segment_index =? SEG_SS then raise_ss_ctx 0 ctx else raise_gp_ctx 0 ctx.

Definition cpu_validate_linear_address (address segment_index : Z) (ctx : CPU_CONTEXT)
  : bool * CPU_CONTEXT :=
  if negb (cpu_uses_canonical_addresses ctx) then (true, ctx)
  else if cpu_is_canonical_address address then (true, ctx)
  else (false, cpu_raise_noncanonical_address segment_index ctx).

(** ** Snapshots *)

Record CPU_SCALAR_SNAPSHOT := mkScalar {
  ss_regs : list Z;
  ss_control_regs : list Z;
  ss_long_mode_active : bool;
  ss_es : SegmentRegister;
  ss_cs : SegmentRegister;
  ss_ss : SegmentRegister;
  ss_ds : SegmentRegister;
  ss_fs : SegmentRegister;
  ss_gs : SegmentRegister;
  ss_rip : Z;
  ss_rflags : Z;
  ss_cpl : Z;
  ss_x87_control_word : Z;
  ss_x87_status_word : Z;
  ss_x87_tag_word : Z;
  ss_x87_last_opcode : Z;
  ss_x87_instruction_pointer : Z;
  ss_x87_data_pointer : Z;
  ss_x87_pending_exception : bool;
  ss_gdtr_base : Z;
  ss_gdtr_limit : Z;
  ss_ldtr_base : Z;
  ss_ldtr_limit : Z;
  ss_rex_present : bool;
  ss_rex_w : bool;
  ss_rex_r : bool;
  ss_rex_x : bool;
  ss_rex_b : bool;
  ss_operand_size_override : bool;
  ss_address_size_override : bool;
  ss_segment_override : Z;
  ss_last_inst_size : Z;
}.

Record CPU_VECTOR_SNAPSHOT := mkVector {
  vs_xmm : list XMMRegister;
  vs_ymm_upper : list XMMRegister;
  vs_zmm_upper : list ZMMUpperRegister;
  vs_opmask : list Z;
  vs_mm : list Z;
  vs_mxcsr : Z;
}.

Definition cpu_capture_scalar_snapshot (ctx : CPU_CONTEXT) : CPU_SCALAR_SNAPSHOT :=
  mkScalar (c_regs ctx) (c_control_regs ctx) (c_long_mode_active ctx) (c_es ctx) (c_cs ctx)
    (c_ss ctx) (c_ds ctx) (c_fs ctx) (c_gs ctx) (c_rip ctx) (c_rflags ctx) (c_cpl ctx)
    (c_x87_control_word ctx) (c_x87_status_word ctx) (c_x87_tag_word ctx)
    (c_x87_last_opcode ctx) (c_x87_instruction_pointer ctx) (c_x87_data_pointer ctx)
    (c_x87_pending_exception ctx) (c_gdtr_base ctx) (c_gdtr_limit ctx) (c_ldtr_base ctx)
    (c_ldtr_limit ctx) (c_rex_present ctx) (c_rex_w ctx) (c_rex_r ctx) (c_rex_x ctx)
    (c_rex_b ctx) (c_operand_size_override ctx) (c_address_size_override ctx)
    (c_segment_override ctx) (c_last_inst_size ctx).

(** Restoring also marks the cached mode key stale. *)
Definition cpu_restore_scalar_snapshot (snapshot : CPU_SCALAR_SNAPSHOT) (ctx : CPU_CONTEXT) : CPU_CONTEXT :=
  mkCtx (ss_regs snapshot) (ss_control_regs snapshot) (c_processor_id ctx)
    (ss_long_mode_active snapshot) (c_xmm ctx) (c_ymm_upper ctx) (c_zmm_upper ctx)
    (c_opmask ctx) (c_mm ctx) (c_mxcsr ctx) (ss_x87_control_word snapshot)
    (ss_x87_status_word snapshot) (ss_x87_tag_word snapshot) (ss_x87_last_opcode snapshot)
    (ss_x87_instruction_pointer snapshot) (ss_x87_data_pointer snapshot)
    (ss_x87_pending_exception snapshot) (ss_es snapshot) (ss_cs snapshot) (ss_ss snapshot)
    (ss_ds snapshot) (ss_fs snapshot) (ss_gs snapshot) (ss_rip snapshot) (ss_rflags snapshot)
    (ss_cpl snapshot) (ss_gdtr_base snapshot) (ss_gdtr_limit snapshot) (ss_ldtr_base snapshot)
    (ss_ldtr_limit snapshot) (c_owner_engine ctx) (c_inst_cache ctx) (ss_rex_present snapshot)
    (ss_rex_w snapshot) (ss_rex_r snapshot) (ss_rex_x snapshot) (ss_rex_b snapshot)
    (ss_operand_size_override snapshot) (ss_address_size_override snapshot)
    (ss_segment_override snapshot) (ss_last_inst_size snapshot) (c_exception ctx)
    (c_cached_mode_key_bits ctx) false.

Definition cpu_restore_decode_transient_snapshot (snapshot : CPU_SCALAR_SNAPSHOT) (ctx : CPU_CONTEXT) : CPU_CONTEXT :=
  mkCtx (c_regs ctx) (c_control_regs ctx) (c_processor_id ctx) (c_long_mode_active ctx)
    (c_xmm ctx) (c_ymm_upper ctx) (c_zmm_upper ctx) (c_opmask ctx) (c_mm ctx) (c_mxcsr ctx)
    (c_x87_control_word ctx) (c_x87_status_word ctx) (c_x87_tag_word ctx)
    (c_x87_last_opcode ctx) (c_x87_instruction_pointer ctx) (c_x87_data_pointer ctx)
    (c_x87_pending_exception ctx) (c_es ctx) (c_cs ctx) (c_ss ctx) (c_ds ctx) (c_fs ctx)
    (c_gs ctx) (c_rip ctx) (c_rflags ctx) (c_cpl ctx) (c_gdtr_base ctx) (c_gdtr_limit ctx)
    (c_ldtr_base ctx) (c_ldtr_limit ctx) (c_owner_engine ctx) (c_inst_cache ctx)
    (ss_rex_present snapshot) (ss_rex_w snapshot) (ss_rex_r snapshot) (ss_rex_x snapshot)
    (ss_rex_b snapshot) (ss_operand_size_override snapshot) (ss_address_size_override snapshot)
    (ss_segment_override snapshot) (ss_last_inst_size snapshot) (c_exception ctx)
    (c_cached_mode_key_bits ctx) (c_cached_mode_key_valid ctx).

Definition cpu_capture_vector_snapshot (ctx : CPU_CONTEXT) : CPU_VECTOR_SNAPSHOT :=
  mkVector (c_xmm ctx) (c_ymm_upper ctx) (c_zmm_upper ctx) (c_opmask ctx) (c_mm ctx)
    (c_mxcsr ctx).

Definition cpu_restore_vector_snapshot (snapshot : CPU_VECTOR_SNAPSHOT) (ctx : CPU_CONTEXT) : CPU_CONTEXT :=
  mkCtx (c_regs ctx) (c_control_regs ctx) (c_processor_id ctx) (c_long_mode_active ctx)
    (vs_xmm snapshot) (vs_ymm_upper snapshot) (vs_zmm_upper snapshot) (vs_opmask snapshot)
    (vs_mm snapshot) (vs_mxcsr snapshot) (c_x87_control_word ctx) (c_x87_status_word ctx)
    (c_x87_tag_word ctx) (c_x87_last_opcode ctx) (c_x87_instruction_pointer ctx)
    (c_x87_data_pointer ctx) (c_x87_pending_exception ctx) (c_es ctx) (c_cs ctx) (c_ss ctx)
    (c_ds ctx) (c_fs ctx) (c_gs ctx) (c_rip ctx) (c_rflags ctx) (c_cpl ctx) (c_gdtr_base ctx)
    (c_gdtr_limit ctx) (c_ldtr_base ctx) (c_ldtr_limit ctx) (c_owner_engine ctx)
    (c_inst_cache ctx) (c_rex_present ctx) (c_rex_w ctx) (c_rex_r ctx) (c_rex_x ctx)
    (c_rex_b ctx) (c_operand_size_override ctx) (c_address_size_override ctx)
    (c_segment_override ctx) (c_last_inst_size ctx) (c_exception ctx)
    (c_cached_mode_key_bits ctx) (c_cached_mode_key_valid ctx).

(** ** Initialisation (cpu/init.hpp) *)

Definition zero_desc : SegmentDescriptor := mkDesc 0 0 0 0 false false false false.
Definition zero_seg : SegmentRegister := mkSeg 0 zero_desc.
Definition zero_xmm : XMMRegister := mkXmm 0 0.
Definition zero_zmmu : ZMMUpperRegister := mkZmmU zero_xmm zero_xmm.

(** All bytes zero (the [memset] of [init_cpu_context]). *)
Definition zero_ctx : CPU_CONTEXT :=
  mkCtx (repeat 0 16) (repeat 0 16) 0 false (repeat zero_xmm 16) (repeat zero_xmm 16)
    (repeat zero_zmmu 16) (repeat 0 8) (repeat 0 8) 0 0 0 0 0 0 0 false zero_seg zero_seg
    zero_seg zero_seg zero_seg zero_seg 0 0 0 0 0 0 0 false false false false false false false
    false false 0 0 cpu_exception_reset 0 false.

Definition init_cpu_context (start_in_compat32 : bool) : CPU_CONTEXT :=
  let ds := mkSeg 0x10 (mkDesc 0 0xFFFFFFFF 0x03 0 true true true false) in
  let ctx := cpu_reset_x87_state zero_ctx in
  let ctx := set_c_long_mode_active true (set_c_mxcsr 0x1F80 (set_c_segment_override (-1) ctx)) in
  let ctx := set_c_control_regs (arr_set (arr_set (c_control_regs ctx) REG_CR0 0x80000011)
                                   REG_CR4 0x00000020) ctx in
  let ctx := set_c_cs (mkSeg 0x08 (mkDesc 0 0xFFFFFFFF 0x0B 0 true true start_in_compat32
                                     (negb start_in_compat32))) ctx in
  let ctx := set_c_ds ds (set_c_es ds (set_c_fs ds (set_c_gs ds ctx))) in
  let ctx := set_c_ss (mkSeg 0x18 (seg_descriptor ds)) ctx in
  set_c_cached_mode_key_valid false ctx.
