(* ===== verification/Flags.v ===== *)
(** * cpu/calc.hpp: status-flag computation

    Every [update_flags_*] function of the source, with the flag formulas it uses.  The 8-, 16-
    and 32-bit copies of one operation differ only in their width and are instances of one
    [_narrow] definition; the 64-bit copies use other carry formulas and are separate.  The
    theorems state each flag against the arithmetic it stands for: carry and borrow out of the
    word, signed overflow, nibble carry, parity of the low byte. *)

From Stdlib Require Import ZArith Bool List Lia Btauto.
From stdpp Require Import base tactics list.
From S2P Require Import Prelude CpuDef.

(** ** Definitions *)

Definition calc_parity (val : Z) : bool :=
  let val := Z.lxor val (Z.shiftr val 4) in
  let val := Z.lxor val (Z.shiftr val 2) in
  let val := Z.lxor val (Z.shiftr val 1) in
  Z.land val 1 =? 0.

Definition set_flag (flag : Z) (value : bool) (ctx : CPU_CONTEXT) : CPU_CONTEXT :=
  if cpu_has_exception ctx then ctx
  else set_c_rflags (if value then Z.lor (c_rflags ctx) flag else Z.ldiff (c_rflags ctx) flag) ctx.

Definition sign_mask (w : Z) : Z := 2 ^ (w - 1).

(** The four flags every operation computes from the (truncated) result. *)
Definition set_sf_zf (w res : Z) (ctx : CPU_CONTEXT) : CPU_CONTEXT :=
  set_flag RFLAGS_ZF (res =? 0) (set_flag RFLAGS_SF (has_bits res (sign_mask w)) ctx).

Definition update_flags_add_narrow (w dst src res : Z) (ctx : CPU_CONTEXT) : CPU_CONTEXT :=
  let r := wrap w res in
  let ctx := set_flag RFLAGS_CF (2 ^ w - 1 <? res) ctx in
  let ctx := set_flag RFLAGS_OF (has_bits (Z.land (Z.lxor dst r) (Z.lxor src r)) (sign_mask w)) ctx in
  let ctx := set_sf_zf w r ctx in
  let ctx := set_flag RFLAGS_AF (has_bits (Z.lxor (Z.lxor dst src) r) 0x10) ctx in
  set_flag RFLAGS_PF (calc_parity (u8 r)) ctx.

Definition update_flags_add8 := update_flags_add_narrow 8.
Definition update_flags_add16 := update_flags_add_narrow 16.
Definition update_flags_add32 := update_flags_add_narrow 32.

Definition update_flags_add64 (dst src res : Z) (ctx : CPU_CONTEXT) : CPU_CONTEXT :=
  let ctx := set_flag RFLAGS_CF (res <? dst) ctx in
  let ctx := set_flag RFLAGS_OF (has_bits (Z.land (Z.lxor dst res) (Z.lxor src res)) (sign_mask 64)) ctx in
  let ctx := set_sf_zf 64 res ctx in
  let ctx := set_flag RFLAGS_AF (has_bits (Z.lxor (Z.lxor dst src) res) 0x10) ctx in
  set_flag RFLAGS_PF (calc_parity (u8 res)) ctx.

Definition update_flags_sub_narrow (w dst src res : Z) (ctx : CPU_CONTEXT) : CPU_CONTEXT :=
  let r := wrap w res in
  let ctx := set_flag RFLAGS_CF (dst <? src) ctx in
  let ctx := set_flag RFLAGS_OF (has_bits (Z.land (Z.lxor dst src) (Z.lxor dst r)) (sign_mask w)) ctx in
  let ctx := set_sf_zf w r ctx in
  let ctx := set_flag RFLAGS_AF (has_bits (Z.lxor (Z.lxor dst src) r) 0x10) ctx in
  set_flag RFLAGS_PF (calc_parity (u8 r)) ctx.

Definition update_flags_sub8 := update_flags_sub_narrow 8.
Definition update_flags_sub16 := update_flags_sub_narrow 16.
Definition update_flags_sub32 := update_flags_sub_narrow 32.

Definition update_flags_sub64 (dst src res : Z) (ctx : CPU_CONTEXT) : CPU_CONTEXT :=
  let ctx := set_flag RFLAGS_CF (dst <? src) ctx in
  let ctx := set_flag RFLAGS_OF (has_bits (Z.land (Z.lxor dst src) (Z.lxor dst res)) (sign_mask 64)) ctx in
  let ctx := set_sf_zf 64 res ctx in
  let ctx := set_flag RFLAGS_AF (has_bits (Z.lxor (Z.lxor dst src) res) 0x10) ctx in
  set_flag RFLAGS_PF (calc_parity (u8 res)) ctx.

Definition nibble_carry (dst src carry_in : Z) : bool :=
  has_bits (Z.land dst 0x0F + Z.land src 0x0F + carry_in) 0x10.

Definition nibble_borrow (dst src borrow_in : Z) : bool :=
  Z.land dst 0x0F <? Z.land src 0x0F + borrow_in.

Definition update_flags_adc_narrow (w dst src carry_in res : Z) (ctx : CPU_CONTEXT) : CPU_CONTEXT :=
  let r := wrap w res in
  let ctx := set_flag RFLAGS_CF (2 ^ w - 1 <? res) ctx in
  let ctx := set_flag RFLAGS_OF (has_bits (Z.land (Z.lxor dst r) (Z.lxor src r)) (sign_mask w)) ctx in
  let ctx := set_sf_zf w r ctx in
  let ctx := set_flag RFLAGS_AF (nibble_carry dst src carry_in) ctx in
  set_flag RFLAGS_PF (calc_parity (u8 r)) ctx.

Definition update_flags_adc8 := update_flags_adc_narrow 8.
Definition update_flags_adc16 := update_flags_adc_narrow 16.
Definition update_flags_adc32 := update_flags_adc_narrow 32.

Definition update_flags_adc64 (dst src carry_in res : Z) (ctx : CPU_CONTEXT) : CPU_CONTEXT :=
  let ctx := set_flag RFLAGS_CF ((res <? dst) || (negb (carry_in =? 0) && (res =? dst))) ctx in
  let ctx := set_flag RFLAGS_OF (has_bits (Z.land (Z.lxor dst res) (Z.lxor src res)) (sign_mask 64)) ctx in
  let ctx := set_sf_zf 64 res ctx in
  let ctx := set_flag RFLAGS_AF (nibble_carry dst src carry_in) ctx in
  set_flag RFLAGS_PF (calc_parity (u8 res)) ctx.

Definition update_flags_sbb_narrow (w dst src borrow_in res : Z) (ctx : CPU_CONTEXT) : CPU_CONTEXT :=
  let r := wrap w res in
  let ctx := set_flag RFLAGS_CF ((dst <? src) || (negb (borrow_in =? 0) && (dst =? src))) ctx in
  let ctx := set_flag RFLAGS_OF (has_bits (Z.land (Z.lxor dst src) (Z.lxor dst r)) (sign_mask w)) ctx in
  let ctx := set_sf_zf w r ctx in
  let ctx := set_flag RFLAGS_AF (nibble_borrow dst src borrow_in) ctx in
  set_flag RFLAGS_PF (calc_parity (u8 r)) ctx.

Definition update_flags_sbb8 := update_flags_sbb_narrow 8.
Definition update_flags_sbb16 := update_flags_sbb_narrow 16.
Definition update_flags_sbb32 := update_flags_sbb_narrow 32.

Definition update_flags_sbb64 (dst src borrow_in res : Z) (ctx : CPU_CONTEXT) : CPU_CONTEXT :=
  let ctx := set_flag RFLAGS_CF ((dst <? src) || (negb (borrow_in =? 0) && (dst =? src))) ctx in
  let ctx := set_flag RFLAGS_OF (has_bits (Z.land (Z.lxor dst src) (Z.lxor dst res)) (sign_mask 64)) ctx in
  let ctx := set_sf_zf 64 res ctx in
  let ctx := set_flag RFLAGS_AF (nibble_borrow dst src borrow_in) ctx in
  set_flag RFLAGS_PF (calc_parity (u8 res)) ctx.

(** TEST and AND share their flag formulas; OR and XOR call the AND functions. *)
Definition update_flags_logic (w res : Z) (ctx : CPU_CONTEXT) : CPU_CONTEXT :=
  let ctx := set_flag RFLAGS_CF false ctx in
  let ctx := set_flag RFLAGS_OF false ctx in
  let ctx := set_sf_zf w res ctx in
  set_flag RFLAGS_PF (calc_parity (u8 res)) ctx.

Definition update_flags_test8 := update_flags_logic 8.
Definition update_flags_test16 := update_flags_logic 16.
Definition update_flags_test32 := update_flags_logic 32.
Definition update_flags_test64 := update_flags_logic 64.
Definition update_flags_and8 := update_flags_logic 8.
Definition update_flags_and16 := update_flags_logic 16.
Definition update_flags_and32 := update_flags_logic 32.
Definition update_flags_and64 := update_flags_logic 64.
Definition update_flags_or8 := update_flags_and8.
Definition update_flags_or16 := update_flags_and16.
Definition update_flags_or32 := update_flags_and32.
Definition update_flags_or64 := update_flags_and64.
Definition update_flags_xor8 := update_flags_and8.
Definition update_flags_xor16 := update_flags_and16.
Definition update_flags_xor32 := update_flags_and32.
Definition update_flags_xor64 := update_flags_and64.

(** INC and DEC save the carry flag around an ADD or SUB of 1. *)
Definition keeping_carry (f : CPU_CONTEXT -> CPU_CONTEXT) (ctx : CPU_CONTEXT) : CPU_CONTEXT :=
  let carry := has_bits (c_rflags ctx) RFLAGS_CF in set_flag RFLAGS_CF carry (f ctx).

Definition update_flags_inc8 (dst res : Z) := keeping_carry (update_flags_add8 dst 1 res).
Definition update_flags_inc16 (dst res : Z) := keeping_carry (update_flags_add16 dst 1 res).
Definition update_flags_inc32 (dst res : Z) := keeping_carry (update_flags_add32 dst 1 res).
Definition update_flags_inc64 (dst res : Z) := keeping_carry (update_flags_add64 dst 1 res).
Definition update_flags_dec8 (dst res : Z) := keeping_carry (update_flags_sub8 dst 1 res).
Definition update_flags_dec16 (dst res : Z) := keeping_carry (update_flags_sub16 dst 1 res).
Definition update_flags_dec32 (dst res : Z) := keeping_carry (update_flags_sub32 dst 1 res).
Definition update_flags_dec64 (dst res : Z) := keeping_carry (update_flags_sub64 dst 1 res).

(** ** Reference semantics of the arithmetic flags *)

Record arith_flags := mkFlags {
  f_cf : bool; f_pf : bool; f_af : bool; f_zf : bool; f_sf : bool; f_of : bool;
}.

(** Even number of set bits among the low eight. *)
Definition even_parity (x : Z) : bool :=
  Nat.even (length (List.filter (Z.testbit x) [0; 1; 2; 3; 4; 5; 6; 7])).

Definition out_of_signed_range (w t : Z) : bool := (t <? - 2 ^ (w - 1)) || (2 ^ (w - 1) <=? t).

Definition add_spec (w dst src c : Z) : arith_flags :=
  let t := dst + src + c in
  mkFlags (2 ^ w <=? t) (even_parity (wrap w t)) (16 <=? dst mod 16 + src mod 16 + c)
    (wrap w t =? 0) (sext w t <? 0) (out_of_signed_range w (sext w dst + sext w src + c)).

Definition sub_spec (w dst src b : Z) : arith_flags :=
  let t := dst - src - b in
  mkFlags (t <? 0) (even_parity (wrap w t)) (dst mod 16 - src mod 16 - b <? 0)
    (wrap w t =? 0) (sext w t <? 0) (out_of_signed_range w (sext w dst - sext w src - b)).

(** The six status flags of [r'] are those of [f]; every other bit is that of [r]. *)
Definition flags_written (f : arith_flags) (r r' : Z) : Prop :=
  forall i, 0 <= i ->
    Z.testbit r' i =
      (if i =? 0 then f_cf f else if i =? 2 then f_pf f else if i =? 4 then f_af f
       else if i =? 6 then f_zf f else if i =? 7 then f_sf f else if i =? 11 then f_of f
       else Z.testbit r i).

(** [ctx'] is [ctx] with new flags and nothing else changed. *)
Definition ctx_flags_written (f : arith_flags) (ctx ctx' : CPU_CONTEXT) : Prop :=
  ctx' = set_c_rflags (c_rflags ctx') ctx /\ flags_written f (c_rflags ctx) (c_rflags ctx').

(** ** Single flags *)

Definition put_bit (k : Z) (v : bool) (r : Z) : Z := if v then Z.lor r (2 ^ k) else Z.ldiff r (2 ^ k).

Lemma testbit_put_bit k v r i :
  0 <= k -> 0 <= i -> Z.testbit (put_bit k v r) i = if i =? k then v else Z.testbit r i.
Proof.
  intros. unfold put_bit. destruct v; autorewrite with bits;
    rewrite (Z.eqb_sym k i); destruct (i =? k); simpl;
    by rewrite ?orb_true_r, ?orb_false_r, ?andb_false_r, ?andb_true_r.
Qed.

Lemma put_bit_in_word w k v r :
  0 <= k < w -> in_word w r -> in_word w (put_bit k v r).
Proof.
  intros. unfold put_bit. destruct v.
  - apply lor_in_word; [lia | done |]. split; [lia |]. apply Z.pow_lt_mono_r; lia.
  - apply ldiff_in_word; [lia | done].
Qed.

Lemma set_flag_put k v ctx :
  cpu_has_exception ctx = false -> set_flag (2 ^ k) v ctx = set_c_rflags (put_bit k v (c_rflags ctx)) ctx.
Proof. unfold set_flag. by intros ->. Qed.

(** With an exception pending no flag changes. *)
Lemma set_flag_pending flag v ctx : cpu_has_exception ctx = true -> set_flag flag v ctx = ctx.
Proof. unfold set_flag. by intros ->. Qed.

Lemma set_flag_has_exception flag v ctx :
  cpu_has_exception (set_flag flag v ctx) = cpu_has_exception ctx.
Proof. unfold set_flag. by destruct (cpu_has_exception ctx) eqn:E. Qed.


Lemma six_flags_written ctx cf of_ sf zf af pf :
  cpu_has_exception ctx = false ->
  ctx_flags_written (mkFlags cf pf af zf sf of_) ctx
    (set_flag RFLAGS_PF pf (set_flag RFLAGS_AF af (set_flag RFLAGS_ZF zf
      (set_flag RFLAGS_SF sf (set_flag RFLAGS_OF of_ (set_flag RFLAGS_CF cf ctx)))))).
Proof.
  intros E. unfold RFLAGS_PF, RFLAGS_AF, RFLAGS_ZF, RFLAGS_SF, RFLAGS_OF, RFLAGS_CF.
  repeat (rewrite set_flag_put by (by rewrite ?set_flag_has_exception)).
  split; [done |]. intros i Hi. cbn [c_rflags set_c_rflags f_cf f_pf f_af f_zf f_sf f_of].
  rewrite !testbit_put_bit by lia.
  repeat match goal with
  | |- context [?a =? ?b] => destruct (Z.eqb_spec a b); subst; try lia; try done
  end.
Qed.

(** ** Arithmetic of the flag formulas *)

Lemma calc_parity_low x : 0 <= x < 256 -> calc_parity x = even_parity x.
Proof.
  intros Hx.
  assert (forallb (fun n => Bool.eqb (calc_parity (Z.of_nat n)) (even_parity (Z.of_nat n))) (List.seq 0 256)
          = true) as H by (vm_compute; reflexivity).
  rewrite forallb_forall in H. specialize (H (Z.to_nat x)).
  rewrite Z2Nat.id in H by lia. apply eqb_prop, H, in_seq. lia.
Qed.

Lemma even_parity_wrap w x : 8 <= w -> even_parity (wrap w x) = even_parity x.
Proof.
  intros. unfold even_parity. do 2 f_equal. apply List.filter_ext_in. intros i Hi.
  rewrite testbit_wrap by lia. destruct (Z.ltb_spec i w); [done |].
  simpl in Hi. lia.
Qed.

Lemma calc_parity_u8 x : calc_parity (u8 x) = even_parity x.
Proof.
  rewrite calc_parity_low, even_parity_wrap by (lia || apply wrap_range; lia). done.
Qed.

Lemma has_sign_bit w x : 0 < w -> in_word w x -> has_bits x (sign_mask w) = (2 ^ (w - 1) <=? x).
Proof. intros. unfold sign_mask. rewrite has_bits_pow2 by lia. by apply testbit_sign. Qed.

Lemma sext_neg w x : 0 < w -> in_word w x -> (sext w x <? 0) = (2 ^ (w - 1) <=? x).
Proof.
  intros Hw [? Hhi]. unfold sext. rewrite wrap_small by done.
  rewrite (pow2_double w) in Hhi |- * by done.
  destruct (Z.ltb_spec x (2 ^ (w - 1))), (Z.leb_spec (2 ^ (w - 1)) x); lia.
Qed.

Lemma sign_of_result w t : 0 < w -> has_bits (wrap w t) (sign_mask w) = (sext w t <? 0).
Proof.
  intros. rewrite has_sign_bit by (done || apply wrap_range; lia).
  rewrite <- sext_neg by (done || apply wrap_range; lia).
  unfold sext. by rewrite wrap_wrap by lia.
Qed.

Ltac sign_bits :=
  unfold sign_mask; rewrite has_bits_pow2 by lia; rewrite Z.land_spec, !Z.lxor_spec;
  rewrite !testbit_sign by (try apply wrap_range; done || lia).

Ltac bool_cases :=
  repeat match goal with
  | |- context [?a <? ?b] => destruct (Z.ltb_spec a b)
  | |- context [?a <=? ?b] => destruct (Z.leb_spec a b)
  | |- context [?a =? ?b] => destruct (Z.eqb_spec a b)
  end.

Lemma add_overflow w d s c :
  0 < w -> in_word w d -> in_word w s -> 0 <= c <= 1 ->
  has_bits (Z.land (Z.lxor d (wrap w (d + s + c))) (Z.lxor s (wrap w (d + s + c)))) (sign_mask w)
  = out_of_signed_range w (sext w d + sext w s + c).
Proof.
  intros Hw Hd Hs Hc. sign_bits. unfold out_of_signed_range, sext.
  rewrite (wrap_small w d), (wrap_small w s) by done. destruct Hd, Hs.
  rewrite wrap_once by lia. rewrite (pow2_double w) in * by done.
  pose proof (pow2_pos (w - 1)). bool_cases; simpl; lia.
Qed.

Lemma sub_overflow w d s b :
  0 < w -> in_word w d -> in_word w s -> 0 <= b <= 1 ->
  has_bits (Z.land (Z.lxor d s) (Z.lxor d (wrap w (d - s - b)))) (sign_mask w)
  = out_of_signed_range w (sext w d - sext w s - b).
Proof.
  intros Hw Hd Hs Hb. sign_bits. unfold out_of_signed_range, sext.
  rewrite (wrap_small w d), (wrap_small w s) by done. destruct Hd, Hs.
  rewrite wrap_once_neg by lia. rewrite (pow2_double w) in * by done.
  pose proof (pow2_pos (w - 1)). bool_cases; simpl; lia.
Qed.

Lemma testbit_4 x : Z.testbit x 4 = Z.odd (x / 16).
Proof. rewrite Z.testbit_odd, Z.shiftr_div_pow2 by lia. done. Qed.

Lemma has_bit_16 x : has_bits x 0x10 = Z.testbit x 4.
Proof. apply (has_bits_pow2 x 4). lia. Qed.

Lemma half_carry w d s t c :
  5 <= w -> 0 <= c <= 1 -> t / 16 = d / 16 + s / 16 + c ->
  has_bits (Z.lxor (Z.lxor d s) (wrap w t)) 0x10 = (0 <? c).
Proof.
  intros Hw Hc Ht. rewrite has_bit_16. autorewrite with bits.
  rewrite !testbit_4, Ht, !Z.odd_add. destruct (Z.ltb_spec 4 w); [| lia].
  assert (Z.odd c = (0 <? c)) as -> by (assert (c = 0 \/ c = 1) as [-> | ->] by lia; done).
  btauto.
Qed.

Lemma add_half_carry w d s :
  5 <= w -> has_bits (Z.lxor (Z.lxor d s) (wrap w (d + s))) 0x10 = (16 <=? d mod 16 + s mod 16).
Proof.
  intros. rewrite (half_carry w d s (d + s) (b2z (16 <=? d mod 16 + s mod 16))).
  all: destruct (Z.leb_spec 16 (d mod 16 + s mod 16)); cbn [b2z]; zdiv.
Qed.

Lemma sub_half_borrow w d s :
  5 <= w -> has_bits (Z.lxor (Z.lxor d s) (wrap w (d - s))) 0x10 = (d mod 16 - s mod 16 <? 0).
Proof.
  intros. rewrite has_bit_16. autorewrite with bits.
  rewrite !testbit_4. destruct (Z.ltb_spec 4 w); [| lia].
  replace ((d - s) / 16) with (d / 16 - s / 16 - b2z (d mod 16 - s mod 16 <? 0))
    by (destruct (Z.ltb_spec (d mod 16 - s mod 16) 0); cbn [b2z]; zdiv).
  rewrite !Z.odd_sub. assert (forall b, Z.odd (b2z b) = b) as -> by (by intros []). btauto.
Qed.

Lemma land_15 x : Z.land x 0x0F = x mod 16.
Proof. apply (Z.land_ones x 4). lia. Qed.

Lemma nibble_carry_spec d s c : 0 <= c <= 1 -> nibble_carry d s c = (16 <=? d mod 16 + s mod 16 + c).
Proof.
  intros. unfold nibble_carry. rewrite !land_15, has_bit_16, testbit_4.
  set (t := d mod 16 + s mod 16 + c).
  assert (0 <= t < 32) by (unfold t; zdiv).
  destruct (Z.leb_spec 16 t).
  - replace (t / 16) with 1; [done | zdiv].
  - by rewrite Z.div_small by lia.
Qed.

Lemma nibble_borrow_spec d s b : nibble_borrow d s b = (d mod 16 - s mod 16 - b <? 0).
Proof. unfold nibble_borrow. rewrite !land_15. bool_cases; lia. Qed.

(** ** The flag functions compute the reference flags *)

Lemma ctx_flags_written_proper f g ctx ctx' :
  f = g -> ctx_flags_written g ctx ctx' -> ctx_flags_written f ctx ctx'.
Proof. by intros ->. Qed.

(** Peels the six writes off and leaves the equality of the flag values. *)
Ltac flags_goal :=
  unfold set_sf_zf; eapply ctx_flags_written_proper; [| by apply six_flags_written].

(** The reference flags with the carry replaced: the narrow formulas differ only there. *)
Definition with_cf (cf : bool) (f : arith_flags) : arith_flags :=
  mkFlags cf (f_pf f) (f_af f) (f_zf f) (f_sf f) (f_of f).

Lemma with_cf_same cf f : f_cf f = cf -> with_cf cf f = f.
Proof. intros <-. by destruct f. Qed.

Lemma add_narrow_written w d s res ctx :
  8 <= w -> in_word w d -> in_word w s -> wrap w res = wrap w (d + s) ->
  cpu_has_exception ctx = false ->
  ctx_flags_written (with_cf (2 ^ w - 1 <? res) (add_spec w d s 0)) ctx
    (update_flags_add_narrow w d s res ctx).
Proof.
  intros Hw Hd Hs Hres E. unfold update_flags_add_narrow. cbv zeta. rewrite Hres. flags_goal.
  unfold with_cf, add_spec; cbn [f_pf f_af f_zf f_sf f_of].
  pose proof (add_overflow w d s 0) as Hov. rewrite !Z.add_0_r in *.
  rewrite calc_parity_u8, sign_of_result, add_half_carry, Hov by (done || lia).
  by rewrite even_parity_wrap by lia.
Qed.

Lemma adc_narrow_written w d s c res ctx :
  8 <= w -> in_word w d -> in_word w s -> 0 <= c <= 1 -> wrap w res = wrap w (d + s + c) ->
  cpu_has_exception ctx = false ->
  ctx_flags_written (with_cf (2 ^ w - 1 <? res) (add_spec w d s c)) ctx
    (update_flags_adc_narrow w d s c res ctx).
Proof.
  intros Hw Hd Hs Hc Hres E. unfold update_flags_adc_narrow. cbv zeta. rewrite Hres. flags_goal.
  unfold with_cf, add_spec; cbn [f_pf f_af f_zf f_sf f_of].
  rewrite calc_parity_u8, sign_of_result, nibble_carry_spec, add_overflow by (done || lia).
  by rewrite even_parity_wrap by lia.
Qed.

Lemma sub_narrow_written w d s res ctx :
  8 <= w -> in_word w d -> in_word w s -> wrap w res = wrap w (d - s) ->
  cpu_has_exception ctx = false ->
  ctx_flags_written (sub_spec w d s 0) ctx (update_flags_sub_narrow w d s res ctx).
Proof.
  intros Hw Hd Hs Hres E. unfold update_flags_sub_narrow. cbv zeta. rewrite Hres. flags_goal.
  unfold sub_spec; cbn [f_pf f_af f_zf f_sf f_of].
  pose proof (sub_overflow w d s 0) as Hov. rewrite !Z.sub_0_r in *.
  rewrite calc_parity_u8, sign_of_result, sub_half_borrow, Hov by (done || lia).
  rewrite even_parity_wrap by lia. f_equal. bool_cases; lia.
Qed.

Lemma sbb_narrow_written w d s b res ctx :
  8 <= w -> in_word w d -> in_word w s -> 0 <= b <= 1 -> wrap w res = wrap w (d - s - b) ->
  cpu_has_exception ctx = false ->
  ctx_flags_written (sub_spec w d s b) ctx (update_flags_sbb_narrow w d s b res ctx).
Proof.
  intros Hw Hd Hs Hb Hres E. unfold update_flags_sbb_narrow. cbv zeta. rewrite Hres. flags_goal.
  unfold sub_spec; cbn [f_pf f_af f_zf f_sf f_of].
  rewrite calc_parity_u8, sign_of_result, nibble_borrow_spec, sub_overflow by (done || lia).
  rewrite even_parity_wrap by lia. f_equal. bool_cases; simpl; lia.
Qed.

(** The 64-bit functions get the wrapped result; they are the narrow ones but for the carry. *)
Lemma add64_narrow d s ctx :
  in_word 64 d -> in_word 64 s -> cpu_has_exception ctx = false ->
  ctx_flags_written (add_spec 64 d s 0) ctx (update_flags_add64 d s (u64 (d + s)) ctx).
Proof.
  intros Hd Hs E. unfold update_flags_add64. cbv zeta. flags_goal.
  unfold add_spec; cbn [f_pf f_af f_zf f_sf f_of].
  pose proof (add_overflow 64 d s 0) as Hov. rewrite !Z.add_0_r in *.
  rewrite calc_parity_u8, sign_of_result, add_half_carry, Hov by (done || lia).
  rewrite even_parity_wrap by lia. f_equal. destruct Hd, Hs. rewrite wrap_once by lia. destruct (Z.ltb_spec (d + s) (2 ^ 64));
    bool_cases; lia.
Qed.

Lemma adc64_narrow d s c ctx :
  in_word 64 d -> in_word 64 s -> 0 <= c <= 1 -> cpu_has_exception ctx = false ->
  ctx_flags_written (add_spec 64 d s c) ctx (update_flags_adc64 d s c (u64 (d + s + c)) ctx).
Proof.
  intros Hd Hs Hc E. unfold update_flags_adc64. cbv zeta. flags_goal.
  unfold add_spec; cbn [f_pf f_af f_zf f_sf f_of].
  rewrite calc_parity_u8, sign_of_result, nibble_carry_spec, add_overflow by (done || lia).
  rewrite even_parity_wrap by lia. f_equal. destruct Hd, Hs. rewrite wrap_once by lia.
  destruct (Z.ltb_spec (d + s + c) (2 ^ 64)); bool_cases; simpl; lia.
Qed.

Lemma sub64_is_narrow d s res : in_word 64 res -> update_flags_sub64 d s res = update_flags_sub_narrow 64 d s res.
Proof. intros. unfold update_flags_sub64, update_flags_sub_narrow. cbv zeta. by rewrite (wrap_small 64 res). Qed.

Lemma sbb64_is_narrow d s b res : in_word 64 res -> update_flags_sbb64 d s b res = update_flags_sbb_narrow 64 d s b res.
Proof. intros. unfold update_flags_sbb64, update_flags_sbb_narrow. cbv zeta. by rewrite (wrap_small 64 res). Qed.

Lemma carry_out w d s c : 0 <= w -> (2 ^ w - 1 <? d + s + c) = f_cf (add_spec w d s c).
Proof. intros. cbn. bool_cases; lia. Qed.

Lemma double_width_fits w : 1 <= w -> 2 * 2 ^ w <= 2 ^ (2 * w).
Proof.
  intros. replace (2 * w) with (w + w) by lia. rewrite Z.pow_add_r by lia.
  pose proof (Z.pow_le_mono_r 2 1 w). nia.
Qed.

(** The wide sum passed by the 8-, 16- and 32-bit callers. *)
Lemma add_flags_written w d s ctx :
  8 <= w -> in_word w d -> in_word w s -> cpu_has_exception ctx = false ->
  ctx_flags_written (add_spec w d s 0) ctx (update_flags_add_narrow w d s (wrap (2 * w) (d + s)) ctx).
Proof.
  intros Hw Hd Hs E. pose proof (double_width_fits w).
  eapply ctx_flags_written_proper; [| apply add_narrow_written; try done; apply wrap_wrap_le; lia].
  symmetry. apply with_cf_same. rewrite <- carry_out, Z.add_0_r by lia. destruct Hd, Hs.
  by rewrite wrap_small by (split; lia).
Qed.

Lemma adc_flags_written w d s c ctx :
  8 <= w -> in_word w d -> in_word w s -> 0 <= c <= 1 -> cpu_has_exception ctx = false ->
  ctx_flags_written (add_spec w d s c) ctx (update_flags_adc_narrow w d s c (wrap (2 * w) (d + s + c)) ctx).
Proof.
  intros Hw Hd Hs Hc E. pose proof (double_width_fits w).
  eapply ctx_flags_written_proper; [| apply adc_narrow_written; try done; apply wrap_wrap_le; lia].
  symmetry. apply with_cf_same. rewrite <- carry_out by lia. destruct Hd, Hs.
  by rewrite wrap_small by (split; lia).
Qed.

Lemma sub_flags_written w d s ctx :
  8 <= w -> in_word w d -> in_word w s -> cpu_has_exception ctx = false ->
  ctx_flags_written (sub_spec w d s 0) ctx (update_flags_sub_narrow w d s (wrap (2 * w) (d - s)) ctx).
Proof. intros. apply sub_narrow_written; try done. apply wrap_wrap_le. lia. Qed.

Lemma sbb_flags_written w d s b ctx :
  8 <= w -> in_word w d -> in_word w s -> 0 <= b <= 1 -> cpu_has_exception ctx = false ->
  ctx_flags_written (sub_spec w d s b) ctx (update_flags_sbb_narrow w d s b (wrap (2 * w) (d - s - b)) ctx).
Proof. intros. apply sbb_narrow_written; try done. apply wrap_wrap_le. lia. Qed.

Lemma sub64_flags_written d s ctx :
  in_word 64 d -> in_word 64 s -> cpu_has_exception ctx = false ->
  ctx_flags_written (sub_spec 64 d s 0) ctx (update_flags_sub64 d s (u64 (d - s)) ctx).
Proof.
  intros. rewrite sub64_is_narrow by (apply wrap_range; lia).
  apply sub_narrow_written; try done; by apply wrap_wrap.
Qed.

Lemma sbb64_flags_written d s b ctx :
  in_word 64 d -> in_word 64 s -> 0 <= b <= 1 -> cpu_has_exception ctx = false ->
  ctx_flags_written (sub_spec 64 d s b) ctx (update_flags_sbb64 d s b (u64 (d - s - b)) ctx).
Proof.
  intros. rewrite sbb64_is_narrow by (apply wrap_range; lia).
  apply sbb_narrow_written; try done; by apply wrap_wrap.
Qed.

(** AND, OR, XOR and TEST clear CF and OF and leave AF. *)
Definition logic_spec (w res : Z) (af : bool) : arith_flags :=
  mkFlags false (even_parity res) af (res =? 0) (2 ^ (w - 1) <=? res) false.

Lemma logic_flags_written w res ctx :
  0 < w -> in_word w res -> cpu_has_exception ctx = false ->
  ctx_flags_written (logic_spec w res (Z.testbit (c_rflags ctx) 4)) ctx (update_flags_logic w res ctx).
Proof.
  intros Hw Hr E. unfold update_flags_logic, set_sf_zf. cbv zeta.
  unfold RFLAGS_PF, RFLAGS_ZF, RFLAGS_SF, RFLAGS_OF, RFLAGS_CF.
  repeat (rewrite set_flag_put by (by rewrite ?set_flag_has_exception)).
  rewrite calc_parity_u8, has_sign_bit by done.
  split; [done |]. intros i Hi. cbn [c_rflags set_c_rflags logic_spec f_cf f_pf f_af f_zf f_sf f_of].
  rewrite !testbit_put_bit by lia.
  repeat match goal with
  | |- context [i =? ?b] => destruct (Z.eqb_spec i b); subst; try lia; try done
  end.
Qed.

(** INC and DEC: the flags of adding or subtracting 1, with CF as it was. *)
Lemma keeping_carry_written f w ctx g :
  cpu_has_exception ctx = false -> ctx_flags_written (with_cf w g) ctx (f ctx) ->
  ctx_flags_written (with_cf (Z.testbit (c_rflags ctx) 0) g) ctx (keeping_carry f ctx).
Proof.
  intros E [Hctx Hf]. unfold keeping_carry, RFLAGS_CF.
  rewrite set_flag_put by (by rewrite Hctx). rewrite (has_bits_pow2 _ 0) by lia.
  split; [cbn; rewrite Hctx; done |].
  intros i Hi. cbn [c_rflags set_c_rflags]. rewrite testbit_put_bit by lia. specialize (Hf i Hi).
  cbn [with_cf f_cf f_pf f_af f_zf f_sf f_of] in *. by destruct (i =? 0).
Qed.

(** INC passes the sum truncated, so ADD's carry formula sees no carry; CF is restored anyway. *)
Lemma inc_flags_written w d ctx :
  8 <= w -> in_word w d -> cpu_has_exception ctx = false ->
  ctx_flags_written (with_cf (Z.testbit (c_rflags ctx) 0) (add_spec w d 1 0)) ctx
    (keeping_carry (update_flags_add_narrow w d 1 (wrap w (d + 1))) ctx).
Proof.
  intros Hw Hd E. eapply keeping_carry_written; [done |]. apply add_narrow_written; try done.
  - split; [lia |]. apply (Z.pow_gt_1 2 w); lia.
  - apply wrap_wrap. lia.
Qed.

Lemma dec_flags_written w d ctx :
  8 <= w -> in_word w d -> cpu_has_exception ctx = false ->
  ctx_flags_written (with_cf (Z.testbit (c_rflags ctx) 0) (sub_spec w d 1 0)) ctx
    (keeping_carry (update_flags_sub_narrow w d 1 (wrap w (d - 1))) ctx).
Proof.
  intros Hw Hd E. apply (keeping_carry_written _ (f_cf (sub_spec w d 1 0))); [done |].
  rewrite with_cf_same by done. apply sub_narrow_written; try done.
  - split; [lia |]. apply (Z.pow_gt_1 2 w); lia.
  - apply wrap_wrap. lia.
Qed.

Lemma inc64_flags_written d ctx :
  in_word 64 d -> cpu_has_exception ctx = false ->
  ctx_flags_written (with_cf (Z.testbit (c_rflags ctx) 0) (add_spec 64 d 1 0)) ctx
    (update_flags_inc64 d (u64 (d + 1)) ctx).
Proof.
  intros Hd E. apply (keeping_carry_written _ (f_cf (add_spec 64 d 1 0))); [done |].
  rewrite with_cf_same by done. by apply add64_narrow.
Qed.

Lemma dec64_flags_written d ctx :
  in_word 64 d -> cpu_has_exception ctx = false ->
  ctx_flags_written (with_cf (Z.testbit (c_rflags ctx) 0) (sub_spec 64 d 1 0)) ctx
    (update_flags_dec64 d (u64 (d - 1)) ctx).
Proof.
  intros Hd E. apply (keeping_carry_written _ (f_cf (sub_spec 64 d 1 0))); [done |].
  rewrite with_cf_same by done. by apply sub64_flags_written.
Qed.

(** ** The properties *)

(** After ADD or ADC, at each of the four widths and for all operands, CF is the carry out of
    the word, OF the signed overflow, SF and ZF the sign and zeroness of the truncated sum, AF the
    carry out of the low nibble and PF the parity of the low byte; no other bit of RFLAGS and
    nothing else of the context changes.  The result argument is the one the instruction passes:
    the wide sum at 8, 16 and 32 bits and the wrapped sum at 64. *)
Theorem add_adc_flags_correct ctx d s c (E : cpu_has_exception ctx = false) (Hc : 0 <= c <= 1) :
  (in_word 8 d -> in_word 8 s ->
     ctx_flags_written (add_spec 8 d s 0) ctx (update_flags_add8 d s (u16 (d + s)) ctx) /\
     ctx_flags_written (add_spec 8 d s c) ctx (update_flags_adc8 d s c (u16 (d + s + c)) ctx)) /\
  (in_word 16 d -> in_word 16 s ->
     ctx_flags_written (add_spec 16 d s 0) ctx (update_flags_add16 d s (u32 (d + s)) ctx) /\
     ctx_flags_written (add_spec 16 d s c) ctx (update_flags_adc16 d s c (u32 (d + s + c)) ctx)) /\
  (in_word 32 d -> in_word 32 s ->
     ctx_flags_written (add_spec 32 d s 0) ctx (update_flags_add32 d s (u64 (d + s)) ctx) /\
     ctx_flags_written (add_spec 32 d s c) ctx (update_flags_adc32 d s c (u64 (d + s + c)) ctx)) /\
  (in_word 64 d -> in_word 64 s ->
     ctx_flags_written (add_spec 64 d s 0) ctx (update_flags_add64 d s (u64 (d + s)) ctx) /\
     ctx_flags_written (add_spec 64 d s c) ctx (update_flags_adc64 d s c (u64 (d + s + c)) ctx)).
Proof.
  repeat split_and; intros Hd Hs; split.
  - by apply (add_flags_written 8).
  - by apply (adc_flags_written 8).
  - by apply (add_flags_written 16).
  - by apply (adc_flags_written 16).
  - by apply (add_flags_written 32).
  - by apply (adc_flags_written 32).
  - by apply add64_narrow.
  - by apply adc64_narrow.
Qed.

Lemma add_adc_flags_correct_witness :
  Z.land (c_rflags (update_flags_add8 0x7F 1 0x80 zero_ctx)) 0x8D5 = 0x890 /\
  ctx_flags_written (add_spec 8 0x7F 1 0) zero_ctx (update_flags_add8 0x7F 1 (u16 (0x7F + 1)) zero_ctx).
Proof.
  split; [reflexivity |].
  refine (proj1 (proj1 (add_adc_flags_correct zero_ctx 0x7F 1 1 eq_refl _) _ _)); unfold in_word; lia.
Defined.

(** After SUB, CMP or SBB, at each of the four widths and for all operands, CF is the borrow
    of the whole subtraction, OF the signed overflow, AF the borrow of the low nibble, SF, ZF and
    PF those of the truncated difference; no other bit of RFLAGS and nothing else changes. *)
Theorem sub_sbb_flags_correct ctx d s b (E : cpu_has_exception ctx = false) (Hb : 0 <= b <= 1) :
  (in_word 8 d -> in_word 8 s ->
     ctx_flags_written (sub_spec 8 d s 0) ctx (update_flags_sub8 d s (u16 (d - s)) ctx) /\
     ctx_flags_written (sub_spec 8 d s b) ctx (update_flags_sbb8 d s b (u16 (d - s - b)) ctx)) /\
  (in_word 16 d -> in_word 16 s ->
     ctx_flags_written (sub_spec 16 d s 0) ctx (update_flags_sub16 d s (u32 (d - s)) ctx) /\
     ctx_flags_written (sub_spec 16 d s b) ctx (update_flags_sbb16 d s b (u32 (d - s - b)) ctx)) /\
  (in_word 32 d -> in_word 32 s ->
     ctx_flags_written (sub_spec 32 d s 0) ctx (update_flags_sub32 d s (u64 (d - s)) ctx) /\
     ctx_flags_written (sub_spec 32 d s b) ctx (update_flags_sbb32 d s b (u64 (d - s - b)) ctx)) /\
  (in_word 64 d -> in_word 64 s ->
     ctx_flags_written (sub_spec 64 d s 0) ctx (update_flags_sub64 d s (u64 (d - s)) ctx) /\
     ctx_flags_written (sub_spec 64 d s b) ctx (update_flags_sbb64 d s b (u64 (d - s - b)) ctx)).
Proof.
  repeat split_and; intros Hd Hs; split.
  - by apply (sub_flags_written 8).
  - by apply (sbb_flags_written 8).
  - by apply (sub_flags_written 16).
  - by apply (sbb_flags_written 16).
  - by apply (sub_flags_written 32).
  - by apply (sbb_flags_written 32).
  - by apply sub64_flags_written.
  - by apply sbb64_flags_written.
Qed.

Lemma sub_sbb_flags_correct_witness :
  Z.land (c_rflags (update_flags_sbb8 0x80 0x7F 1 0 zero_ctx)) 0x8D5 = 0x854 /\
  ctx_flags_written (sub_spec 8 0x80 0x7F 1) zero_ctx
    (update_flags_sbb8 0x80 0x7F 1 (u16 (0x80 - 0x7F - 1)) zero_ctx).
Proof.
  split; [reflexivity |].
  refine (proj2 (proj1 (sub_sbb_flags_correct zero_ctx 0x80 0x7F 1 eq_refl _) _ _)); unfold in_word; lia.
Defined.

(** INC and DEC set the five other flags as ADD and SUB of 1 do and leave CF exactly as it was,
    at each width; the 8-, 16- and 32-bit forms pass the truncated result. *)
Theorem inc_dec_flags_keep_carry ctx d (E : cpu_has_exception ctx = false) :
  let cf := Z.testbit (c_rflags ctx) 0 in
  (in_word 8 d ->
     ctx_flags_written (with_cf cf (add_spec 8 d 1 0)) ctx (update_flags_inc8 d (u8 (d + 1)) ctx) /\
     ctx_flags_written (with_cf cf (sub_spec 8 d 1 0)) ctx (update_flags_dec8 d (u8 (d - 1)) ctx)) /\
  (in_word 16 d ->
     ctx_flags_written (with_cf cf (add_spec 16 d 1 0)) ctx (update_flags_inc16 d (u16 (d + 1)) ctx) /\
     ctx_flags_written (with_cf cf (sub_spec 16 d 1 0)) ctx (update_flags_dec16 d (u16 (d - 1)) ctx)) /\
  (in_word 32 d ->
     ctx_flags_written (with_cf cf (add_spec 32 d 1 0)) ctx (update_flags_inc32 d (u32 (d + 1)) ctx) /\
     ctx_flags_written (with_cf cf (sub_spec 32 d 1 0)) ctx (update_flags_dec32 d (u32 (d - 1)) ctx)) /\
  (in_word 64 d ->
     ctx_flags_written (with_cf cf (add_spec 64 d 1 0)) ctx (update_flags_inc64 d (u64 (d + 1)) ctx) /\
     ctx_flags_written (with_cf cf (sub_spec 64 d 1 0)) ctx (update_flags_dec64 d (u64 (d - 1)) ctx)).
Proof.
  intros cf. repeat split_and; intros Hd; split.
  - by apply (inc_flags_written 8).
  - by apply (dec_flags_written 8).
  - by apply (inc_flags_written 16).
  - by apply (dec_flags_written 16).
  - by apply (inc_flags_written 32).
  - by apply (dec_flags_written 32).
  - by apply inc64_flags_written.
  - by apply dec64_flags_written.
Qed.

Lemma inc_dec_flags_keep_carry_witness :
  c_rflags (update_flags_inc8 0xFF 0 (set_c_rflags 0x203 zero_ctx)) = 0x257 /\
  ctx_flags_written (with_cf true (add_spec 8 0xFF 1 0)) (set_c_rflags 0x203 zero_ctx)
    (update_flags_inc8 0xFF (u8 (0xFF + 1)) (set_c_rflags 0x203 zero_ctx)).
Proof.
  split; [reflexivity |].
  refine (proj1 (proj1 (inc_dec_flags_keep_carry (set_c_rflags 0x203 zero_ctx) 0xFF eq_refl) _)); unfold in_word; lia.
Defined.
