(* ===== verification/HostMemory.v ===== *)
(** * The host side of the emulator: bytes, pointers and the allocator

    Guest memory lives in host memory: a region points at an allocated block or at memory of
    the embedding program.  A host pointer is a 64-bit [Z] with [NULL] = 0, memory a function
    from addresses to bytes, and the live allocations a finite map from block starts to sizes.
    Releasing a pointer that is not a live block is undefined in the platform; the heap keeps the
    record of every release and of whether it was one, so that a second release shows.
    [CPUEAXH_ALLOC_ZEROED], [CPUEAXH_FREE] and [CPUEAXH_MEMCPY] come from the platform: which
    block an allocation picks is a parameter, and that live blocks do not overlap is its law. *)

From Stdlib Require Import ZArith Bool List Lia.
From stdpp Require Import base tactics list gmap.
From S2P Require Import Prelude.

Definition NULL : Z := 0.

Record HostHeap := mkHeap {
  hh_bytes : Z -> Z;
  hh_blocks : gmap Z Z;
  (** The non-null pointers released so far, the last one first, with whether each was live. *)
  hh_frees : list (Z * bool);
}.

(** [calloc]: the block the platform returns for a size, or nothing. *)
Class HostAlloc := ha_pick : HostHeap -> Z -> option Z.

Definition in_range (base size a : Z) : bool := (base <=? a) && (a <? base + size).

(** Pointer plus offset, in a 64-bit address space. *)
Definition ptr_add (p off : Z) : Z := u64 (p + off).

Definition load (p : Z) (h : HostHeap) : Z := hh_bytes h p.

Definition store_bytes (f : Z -> Z) (p v : Z) : Z -> Z := fun a => if a =? p then v else f a.

Definition store (p v : Z) : ST HostHeap unit :=
  st_modify (fun h => mkHeap (store_bytes (hh_bytes h) p (u8 v)) (hh_blocks h) (hh_frees h)).

Definition host_alloc_zeroed `{HostAlloc} (size : Z) : ST HostHeap Z := fun h =>
  match ha_pick h size with
  | Some p => (p, mkHeap (fun a => if in_range p size a then 0 else hh_bytes h a) (<[p := size]> (hh_blocks h)) (hh_frees h))
  | None => (NULL, h)
  end.

(** [p] starts a live block. *)
Definition is_live (p : Z) (h : HostHeap) : bool := bool_decide (is_Some (hh_blocks h !! p)).

(** [free]: nothing at [NULL]; anywhere else the release is recorded, with whether [p] was live. *)
Definition host_free (p : Z) : ST HostHeap unit :=
  st_modify (fun h =>
    if p =? NULL then h
    else mkHeap (hh_bytes h) (delete p (hh_blocks h)) ((p, is_live p h) :: hh_frees h)).

Definition host_memcpy (dst src n : Z) : ST HostHeap unit :=
  st_modify (fun h =>
    mkHeap (fun a => if in_range dst n a then hh_bytes h (src + (a - dst)) else hh_bytes h a) (hh_blocks h) (hh_frees h)).

(** ** Well-formed heaps and the allocator's contract *)

Definition blocks_apart (p n q m : Z) : Prop := p + n <= q \/ q + m <= p.

Record heap_wf (h : HostHeap) : Prop := {
  hw_bytes : forall a, 0 <= hh_bytes h a < 256;
  hw_block : forall p n, hh_blocks h !! p = Some n -> 0 < p /\ 0 <= n /\ p + n <= 2 ^ 64;
  hw_apart : forall p n q m, hh_blocks h !! p = Some n -> hh_blocks h !! q = Some m -> p <> q -> blocks_apart p n q m;
  hw_frees : Forall (fun f => snd f = true) (hh_frees h);
}.

(** What [calloc] documents: a non-null block inside the address space, apart from every live one. *)
Class HostAllocLaws `{HostAlloc} : Prop := {
  ha_pick_ok : forall h n p, heap_wf h -> ha_pick h n = Some p -> 0 <= n ->
    0 < p /\ p + n <= 2 ^ 64 /\ hh_blocks h !! p = None /\ forall q m, hh_blocks h !! q = Some m -> blocks_apart p n q m;
}.

(** ** Lemmas *)

Lemma in_range_true b s a : in_range b s a = true <-> b <= a < b + s.
Proof. unfold in_range. rewrite andb_true_iff, Z.leb_le, Z.ltb_lt. done. Qed.

Lemma in_range_false b s a : in_range b s a = false <-> a < b \/ b + s <= a.
Proof. unfold in_range. rewrite andb_false_iff, Z.leb_gt, Z.ltb_ge. done. Qed.

Lemma in_rangeP b s a : reflect (b <= a < b + s) (in_range b s a).
Proof. apply iff_reflect. symmetry. apply in_range_true. Qed.

Lemma ptr_add_small p off : 0 <= p -> 0 <= off -> p + off < 2 ^ 64 -> ptr_add p off = p + off.
Proof. intros. apply wrap_small. split; lia. Qed.

Section heap.
Context `{HostAllocLaws}.

Lemma host_alloc_zeroed_wf size h :
  heap_wf h -> 0 <= size -> heap_wf (final (host_alloc_zeroed size) h).
Proof.
  intros Hwf Hs. pose proof Hwf as [Hb Hbl Hap Hfr]. unfold final, host_alloc_zeroed.
  destruct (ha_pick h size) as [p|] eqn:E; [| done]. cbn.
  destruct (ha_pick_ok h size p Hwf E Hs) as (Hp & Hend & Hnew & Hfresh).
  split; cbn.
  - intros a. destruct (in_range p size a); [lia | done].
  - intros q n. destruct (decide (q = p)) as [-> | Hne].
    + rewrite lookup_insert_eq. intros [= <-]. done.
    + rewrite lookup_insert_ne by done. apply Hbl.
  - intros q n r m Hq Hr Hne.
    destruct (decide (q = p)) as [-> | Hq']; destruct (decide (r = p)) as [-> | Hr']; [done | ..].
    + rewrite lookup_insert_eq in Hq. injection Hq as <-.
      rewrite lookup_insert_ne in Hr by done. by apply Hfresh.
    + rewrite lookup_insert_eq in Hr. injection Hr as <-.
      rewrite lookup_insert_ne in Hq by done. destruct (Hfresh q n Hq); [by right | by left].
    + rewrite !lookup_insert_ne in * by done. by eapply Hap.
  - done.
Qed.

(** A successful allocation returns a fresh zeroed block and keeps every byte of a live one. *)
Lemma host_alloc_zeroed_ok size h p h' :
  heap_wf h -> 0 <= size -> host_alloc_zeroed size h = (p, h') -> p <> NULL ->
  hh_blocks h !! p = None /\ hh_blocks h' = <[p := size]> (hh_blocks h) /\ 0 < p /\ p + size <= 2 ^ 64 /\
  (forall a, p <= a < p + size -> hh_bytes h' a = 0) /\
  (forall q m a, hh_blocks h !! q = Some m -> q <= a < q + m -> hh_bytes h' a = hh_bytes h a).
Proof.
  intros Hwf Hs Heq Hnn. pose proof Hwf as [Hb Hbl Hap Hfr]. unfold host_alloc_zeroed in Heq.
  destruct (ha_pick h size) as [p'|] eqn:E; injection Heq as <- <-; [| done].
  destruct (ha_pick_ok h size p' Hwf E Hs) as (Hp & Hend & Hnew & Hfresh). cbn. split_and!; try done.
  - intros a Ha. destruct (in_rangeP p' size a); [done | lia].
  - intros q m a Hq Ha. destruct (in_rangeP p' size a); [| done].
    destruct (Hfresh _ _ Hq); lia.
Qed.

Lemma host_alloc_zeroed_fail size h h' :
  heap_wf h -> host_alloc_zeroed size h = (NULL, h') -> 0 <= size -> h' = h.
Proof.
  intros Hwf. unfold host_alloc_zeroed. destruct (ha_pick h size) as [p|] eqn:E; intros Heq Hs; simplify_eq; [| done].
  destruct (ha_pick_ok h size NULL Hwf E Hs). unfold NULL in *. lia.
Qed.

End heap.

Lemma host_free_live p n h :
  heap_wf h -> hh_blocks h !! p = Some n ->
  final (host_free p) h = mkHeap (hh_bytes h) (delete p (hh_blocks h)) ((p, true) :: hh_frees h).
Proof.
  intros Hh Hp. unfold final, host_free, st_modify, is_live. cbn.
  destruct (Z.eqb_spec p NULL) as [-> |]; [destruct (hw_block h Hh _ _ Hp); unfold NULL in *; lia |].
  by rewrite Hp.
Qed.

Lemma host_free_bytes p h a : hh_bytes (final (host_free p) h) a = hh_bytes h a.
Proof. unfold final, host_free, st_modify. cbn. by destruct (p =? NULL). Qed.

Lemma host_free_null h : final (host_free NULL) h = h.
Proof. done. Qed.

Lemma host_free_blocks p h : heap_wf h -> hh_blocks (final (host_free p) h) = delete p (hh_blocks h).
Proof.
  intros Hh. unfold final, host_free, st_modify. cbn. destruct (Z.eqb_spec p NULL) as [-> |]; [| done].
  symmetry. apply delete_id. destruct (hh_blocks h !! NULL) eqn:E; [| done].
  destruct (hw_block h Hh _ _ E). unfold NULL in *. lia.
Qed.

(** Releasing a live block keeps the heap well formed; releasing any other pointer does not. *)
Lemma host_free_wf p n h : heap_wf h -> hh_blocks h !! p = Some n -> heap_wf (final (host_free p) h).
Proof.
  intros Hh Hp. rewrite (host_free_live p n h Hh Hp). destruct Hh as [Hb Hbl Hap Hfr]. split; cbn; [done | ..].
  - intros q m. rewrite lookup_delete_Some. intros [? ?]. by apply Hbl.
  - intros q m r k. rewrite !lookup_delete_Some. intros [? ?] [? ?]. by apply Hap.
  - by constructor.
Qed.

Lemma host_free_dead p h : p <> NULL -> hh_blocks h !! p = None -> ~ heap_wf (final (host_free p) h).
Proof.
  intros Hn Hp [_ _ _ Hf]. unfold final, host_free, st_modify, is_live in Hf. cbn in Hf.
  destruct (Z.eqb_spec p NULL); [done |]. cbn in Hf. rewrite Hp in Hf. by apply Forall_cons in Hf as [? _].
Qed.

Lemma host_memcpy_wf d s n h : heap_wf h -> heap_wf (final (host_memcpy d s n) h).
Proof.
  intros [Hb Hbl Hap Hfr]. split; cbn; [| done ..].
  intros a. destruct (in_range d n a); apply Hb.
Qed.

Lemma store_wf p v h : heap_wf h -> heap_wf (final (store p v) h).
Proof.
  intros [Hb Hbl Hap Hfr]. split; cbn; [| done ..].
  intros a. unfold store_bytes. destruct (a =? p); [apply (wrap_range 8); lia | apply Hb].
Qed.

(** ** A bump allocator, the concrete instance of the witnesses *)

Definition block_end (acc : Z) (kv : Z * Z) : Z := Z.max acc (kv.1 + kv.2 + 1).

Definition bump_pick (h : HostHeap) (n : Z) : option Z :=
  let p := foldl block_end 0x100000 (map_to_list (hh_blocks h)) in
  if p + n <=? 2 ^ 64 then Some p else None.

Lemma foldl_block_end_acc l acc : acc <= foldl block_end acc l.
Proof.
  revert acc. induction l as [| [q m] l IH]; intros acc; cbn; [lia |].
  specialize (IH (block_end acc (q, m))). unfold block_end in *; cbn in *. lia.
Qed.

Lemma foldl_block_end_le l acc q m : (q, m) ∈ l -> q + m < foldl block_end acc l.
Proof.
  revert acc. induction l as [| [q' m'] l IH]; intros acc Hin; [by apply elem_of_nil in Hin |].
  cbn. apply elem_of_cons in Hin as [[= -> ->] | Hin]; [| by apply IH].
  pose proof (foldl_block_end_acc l (block_end acc (q', m'))). unfold block_end in *; cbn in *. lia.
Qed.

Module Bump.
#[export] Instance alloc : HostAlloc := bump_pick.

#[export] Instance laws : HostAllocLaws.
Proof.
  constructor. intros h n p Hwf Hp Hn. unfold ha_pick, alloc, bump_pick in Hp.
  destruct (Z.leb_spec (foldl block_end 0x100000 (map_to_list (hh_blocks h)) + n) (2 ^ 64)); [| done].
  injection Hp as <-. split_and!; [| done | |].
  - pose proof (foldl_block_end_acc (map_to_list (hh_blocks h)) 0x100000). lia.
  - destruct (hh_blocks h !! _) as [m |] eqn:Hm; [| done]. exfalso.
    pose proof Hm as Hm'. apply elem_of_map_to_list, (foldl_block_end_le _ 0x100000) in Hm'. pose proof (hw_block h Hwf _ _ Hm). lia.
  - intros q m Hq. right. apply Z.lt_le_incl, foldl_block_end_le. by apply elem_of_map_to_list.
Qed.

Definition empty_heap : HostHeap := mkHeap (fun _ => 0) ∅ [].

Lemma empty_heap_wf : heap_wf empty_heap.
Proof. split; cbn; [lia | intros *; by rewrite lookup_empty .. | done]. Qed.
End Bump.

(** ** Ownership

    [own] lists blocks, with their sizes, that some component will free; client memory is a range
    inside a live block nobody in [own] holds. *)

Definition blocks : Type := list (Z * Z).

Record owns (own : blocks) (h : HostHeap) : Prop := {
  ow_heap : heap_wf h;
  ow_distinct : NoDup (map fst own);
  ow_live : forall p n, (p, n) ∈ own -> hh_blocks h !! p = Some n;
}.

Definition client_range (own : blocks) (h : HostHeap) (d n : Z) : Prop :=
  exists q m, hh_blocks h !! q = Some m /\ (q ∉ map fst own) /\ q <= d /\ d + n <= q + m.

(** The range lies inside some live block. *)
Definition live_range (h : HostHeap) (d n : Z) : Prop :=
  exists q m, hh_blocks h !! q = Some m /\ q <= d /\ d + n <= q + m.

(** Every byte of a live block has the same value in [h']. *)
Definition keeps_live_bytes (h h' : HostHeap) : Prop :=
  forall d n a, live_range h d n -> d <= a < d + n -> hh_bytes h' a = hh_bytes h a.

Lemma owns_perm own own' h : own ≡ₚ own' -> owns own h -> owns own' h.
Proof.
  intros Hp [Hh Hd Hl]. split; [done | |].
  - by rewrite <- Hp.
  - intros p n Hin. apply Hl. by rewrite Hp.
Qed.

Lemma client_range_perm own own' h d n : own ≡ₚ own' -> client_range own h d n -> client_range own' h d n.
Proof.
  intros Hp (q & m & Hq & Hnin & Hr). exists q, m. split; [done |]. split; [| done]. by rewrite <- Hp.
Qed.

Lemma client_live own h d n : client_range own h d n -> live_range h d n.
Proof. intros (q & m & ? & ? & ?). by exists q, m. Qed.

Lemma owned_live own h p n : owns own h -> (p, n) ∈ own -> live_range h p n.
Proof. intros Ho Hin. exists p, n. split; [by apply Ho | lia]. Qed.

Lemma live_range_bounds h d n : heap_wf h -> live_range h d n -> 0 < n -> 0 < d /\ d + n <= 2 ^ 64.
Proof. intros Hh (q & m & Hq & ? & ?) ?. pose proof (hw_block h Hh q m Hq). lia. Qed.

Lemma live_sub h d n d' n' : live_range h d n -> d <= d' -> d' + n' <= d + n -> live_range h d' n'.
Proof. intros (q & m & ? & ? & ?) ? ?. exists q, m. split; [done | lia]. Qed.

Lemma owned_nonnull own h p n : owns own h -> (p, n) ∈ own -> p <> NULL.
Proof. intros Ho Hin. pose proof (hw_block h (ow_heap _ _ Ho) p n (ow_live _ _ Ho _ _ Hin)). unfold NULL. lia. Qed.

Lemma owns_free p n own h :
  owns ((p, n) :: own) h ->
  owns own (final (host_free p) h) /\ keeps_live_bytes h (final (host_free p) h) /\
  (forall d k, client_range ((p, n) :: own) h d k -> client_range own (final (host_free p) h) d k).
Proof.
  intros [Hh Hd Hl]. cbn in Hd. apply NoDup_cons in Hd as [Hnin Hd].
  assert (Hp : hh_blocks h !! p = Some n) by (apply Hl; left).
  pose proof (host_free_wf p n h Hh Hp) as Hw. rewrite (host_free_live p n h Hh Hp) in *. split_and!.
  - split; [done | done |]. intros q m Hq. cbn. rewrite lookup_delete_ne.
    + apply Hl. by right.
    + intros <-. apply Hnin. apply list_elem_of_fmap. by exists (p, m).
  - by intros d k a _ _.
  - intros d k (q & m & Hq & Hq' & Hr). cbn in Hq'. apply not_elem_of_cons in Hq' as [Hne Hq'].
    exists q, m. cbn. by rewrite lookup_delete_ne.
Qed.

Section own_alloc.
Context `{HostAllocLaws}.

Lemma owns_alloc size own h p h' :
  owns own h -> 0 <= size -> host_alloc_zeroed size h = (p, h') -> p <> NULL ->
  owns ((p, size) :: own) h' /\ keeps_live_bytes h h' /\ (p ∉ map fst own) /\
  hh_blocks h !! p = None /\ (forall a, p <= a < p + size -> hh_bytes h' a = 0) /\
  (forall d n, live_range h d n -> live_range h' d n) /\
  (forall d n, client_range own h d n -> client_range ((p, size) :: own) h' d n).
Proof.
  intros Ho Hs Ha Hp. pose proof Ho as [Hh Hd Hl].
  destruct (host_alloc_zeroed_ok size h p h' Hh Hs Ha Hp) as (Hfresh & Hb & Hp0 & Hpe & Hz & Hk).
  assert (p ∉ map fst own) as Hnin.
  { intros Hin. apply list_elem_of_fmap in Hin as ([q n] & -> & Hin). apply Hl in Hin. cbn in *. congruence. }
  assert (forall q m, hh_blocks h !! q = Some m -> hh_blocks h' !! q = Some m) as Hold.
  { intros q m Hq. rewrite Hb, lookup_insert_ne; [done | congruence]. }
  split_and!; try done.
  - split.
    + replace h' with (final (host_alloc_zeroed size) h) by (unfold final; by rewrite Ha).
      by apply host_alloc_zeroed_wf.
    + cbn. by constructor.
    + intros q n Hin. apply elem_of_cons in Hin as [[= -> ->] | Hin].
      * by rewrite Hb, lookup_insert_eq.
      * by apply Hold, Hl.
  - intros d n a (q & m & Hq & ? & ?) ?. apply (Hk q m); [done | lia].
  - intros d n (q & m & Hq & ?). exists q, m. split; [by apply Hold | done].
  - intros d n (q & m & Hq & Hq' & ?). exists q, m. split; [by apply Hold |]. split; [| done].
    cbn. apply not_elem_of_cons. split; [congruence | done].
Qed.

End own_alloc.

(** Writing inside an owned block keeps the bytes of every other block. *)
Lemma memcpy_fresh_keeps p n src size h h0 :
  heap_wf h -> hh_blocks h !! p = Some n -> size <= n -> hh_blocks h0 !! p = None ->
  (forall q m, hh_blocks h0 !! q = Some m -> hh_blocks h !! q = Some m) ->
  keeps_live_bytes h0 h -> keeps_live_bytes h0 (final (host_memcpy p src size) h).
Proof.
  intros Hh Hp Hn Hp0 Hsub Hk d k a (q & m & Hq & ? & ?) Ha. cbn.
  destruct (in_rangeP p size a); [| by apply (Hk d k); [exists q, m |]].
  assert (q <> p) by congruence.
  destruct (hw_apart h Hh q m p n (Hsub _ _ Hq) Hp); [done | lia ..].
Qed.
