(* ===== verification/RegionTable.v ===== *)
(** * memory/manager.hpp: the memory manager's state and its region table

    The manager keeps the mapped regions in an array sorted by base address and finds the region
    of an address by binary search.  [mm_regions] is the used prefix [regions[0 .. region_count)]
    of the array; the block the array itself occupies is [mm_regions_ptr], allocated and freed as
    the source does (and likewise for the patches).  [(size_t)-1], "not found", is [None].  This
    file holds the manager's data, the table's searches, the mapping operations, and the theorem
    that the binary searches implement a linear scan. *)

From Stdlib Require Import ZArith Bool List Lia Sorting.Sorted.
From stdpp Require Import base tactics list gmap.
From S2P Require Import Prelude HostMemory.

Definition CPUEAXH_PAGE_SIZE : Z := 0x1000.
Definition MM_PAGE_CACHE_SIZE : Z := 256.
Definition MM_PROT_READ : Z := 1.
Definition MM_PROT_WRITE : Z := 2.
Definition MM_PROT_EXEC : Z := 4.
Definition MM_CPU_ATTR_USER : Z := 1.

Inductive MM_ACCESS_STATUS := MM_ACCESS_OK | MM_ACCESS_UNMAPPED | MM_ACCESS_PROT.

Record MEMORY_REGION := mkRegion {
  r_base : Z;
  r_size : Z;
  r_data : Z;
  r_perms : Z;
  r_cpu_attrs : Z;
  r_external : bool;
}.

Definition zero_region : MEMORY_REGION := mkRegion 0 0 NULL 0 0 false.

Record MM_PAGE_CACHE_ENTRY := mkCacheEntry {
  ce_page_base : Z;
  ce_host_page : Z;
  ce_perms : Z;
  ce_cpu_attrs : Z;
  ce_valid : bool;
}.

Definition zero_cache_entry : MM_PAGE_CACHE_ENTRY := mkCacheEntry 0 NULL 0 0 false.

Record MM_PATCH_ENTRY := mkPatch {
  p_handle : Z;
  p_address : Z;
  p_size : Z;
  p_data : Z;
}.

Inductive MM_PATCH_STATUS := MM_PATCH_OK | MM_PATCH_ARG | MM_PATCH_NOMEM | MM_PATCH_CONFLICT | MM_PATCH_NOT_FOUND.

Record MEMORY_MANAGER := mkManager {
  mm_regions : list MEMORY_REGION;
  mm_regions_ptr : Z;
  mm_region_capacity : Z;
  mm_patches : list MM_PATCH_ENTRY;
  mm_patches_ptr : Z;
  mm_patch_capacity : Z;
  mm_patch_min_address : Z;
  mm_patch_max_address : Z;
  mm_next_patch_handle : Z;
  mm_host_read_passthrough : bool;
  mm_host_write_passthrough : bool;
  mm_host_exec_passthrough : bool;
  mm_page_cache : list MM_PAGE_CACHE_ENTRY;
  mm_code_version : Z;
}.

Definition set_mm_regions (v : list MEMORY_REGION) (r : MEMORY_MANAGER) : MEMORY_MANAGER :=
  mkManager v (mm_regions_ptr r) (mm_region_capacity r) (mm_patches r) (mm_patches_ptr r)
    (mm_patch_capacity r) (mm_patch_min_address r) (mm_patch_max_address r)
    (mm_next_patch_handle r) (mm_host_read_passthrough r) (mm_host_write_passthrough r)
    (mm_host_exec_passthrough r) (mm_page_cache r) (mm_code_version r).
Definition set_mm_regions_ptr (v : Z) (r : MEMORY_MANAGER) : MEMORY_MANAGER :=
  mkManager (mm_regions r) v (mm_region_capacity r) (mm_patches r) (mm_patches_ptr r)
    (mm_patch_capacity r) (mm_patch_min_address r) (mm_patch_max_address r)
    (mm_next_patch_handle r) (mm_host_read_passthrough r) (mm_host_write_passthrough r)
    (mm_host_exec_passthrough r) (mm_page_cache r) (mm_code_version r).
Definition set_mm_region_capacity (v : Z) (r : MEMORY_MANAGER) : MEMORY_MANAGER :=
  mkManager (mm_regions r) (mm_regions_ptr r) v (mm_patches r) (mm_patches_ptr r)
    (mm_patch_capacity r) (mm_patch_min_address r) (mm_patch_max_address r)
    (mm_next_patch_handle r) (mm_host_read_passthrough r) (mm_host_write_passthrough r)
    (mm_host_exec_passthrough r) (mm_page_cache r) (mm_code_version r).
Definition set_mm_patches (v : list MM_PATCH_ENTRY) (r : MEMORY_MANAGER) : MEMORY_MANAGER :=
  mkManager (mm_regions r) (mm_regions_ptr r) (mm_region_capacity r) v (mm_patches_ptr r)
    (mm_patch_capacity r) (mm_patch_min_address r) (mm_patch_max_address r)
    (mm_next_patch_handle r) (mm_host_read_passthrough r) (mm_host_write_passthrough r)
    (mm_host_exec_passthrough r) (mm_page_cache r) (mm_code_version r).
Definition set_mm_patches_ptr (v : Z) (r : MEMORY_MANAGER) : MEMORY_MANAGER :=
  mkManager (mm_regions r) (mm_regions_ptr r) (mm_region_capacity r) (mm_patches r) v
    (mm_patch_capacity r) (mm_patch_min_address r) (mm_patch_max_address r)
    (mm_next_patch_handle r) (mm_host_read_passthrough r) (mm_host_write_passthrough r)
    (mm_host_exec_passthrough r) (mm_page_cache r) (mm_code_version r).
Definition set_mm_patch_capacity (v : Z) (r : MEMORY_MANAGER) : MEMORY_MANAGER :=
  mkManager (mm_regions r) (mm_regions_ptr r) (mm_region_capacity r) (mm_patches r)
    (mm_patches_ptr r) v (mm_patch_min_address r) (mm_patch_max_address r)
    (mm_next_patch_handle r) (mm_host_read_passthrough r) (mm_host_write_passthrough r)
    (mm_host_exec_passthrough r) (mm_page_cache r) (mm_code_version r).
Definition set_mm_patch_min_address (v : Z) (r : MEMORY_MANAGER) : MEMORY_MANAGER :=
  mkManager (mm_regions r) (mm_regions_ptr r) (mm_region_capacity r) (mm_patches r)
    (mm_patches_ptr r) (mm_patch_capacity r) v (mm_patch_max_address r)
    (mm_next_patch_handle r) (mm_host_read_passthrough r) (mm_host_write_passthrough r)
    (mm_host_exec_passthrough r) (mm_page_cache r) (mm_code_version r).
Definition set_mm_patch_max_address (v : Z) (r : MEMORY_MANAGER) : MEMORY_MANAGER :=
  mkManager (mm_regions r) (mm_regions_ptr r) (mm_region_capacity r) (mm_patches r)
    (mm_patches_ptr r) (mm_patch_capacity r) (mm_patch_min_address r) v
    (mm_next_patch_handle r) (mm_host_read_passthrough r) (mm_host_write_passthrough r)
    (mm_host_exec_passthrough r) (mm_page_cache r) (mm_code_version r).
Definition set_mm_next_patch_handle (v : Z) (r : MEMORY_MANAGER) : MEMORY_MANAGER :=
  mkManager (mm_regions r) (mm_regions_ptr r) (mm_region_capacity r) (mm_patches r)
    (mm_patches_ptr r) (mm_patch_capacity r) (mm_patch_min_address r) (mm_patch_max_address r)
    v (mm_host_read_passthrough r) (mm_host_write_passthrough r) (mm_host_exec_passthrough r)
    (mm_page_cache r) (mm_code_version r).
Definition set_mm_host_read_passthrough (v : bool) (r : MEMORY_MANAGER) : MEMORY_MANAGER :=
  mkManager (mm_regions r) (mm_regions_ptr r) (mm_region_capacity r) (mm_patches r)
    (mm_patches_ptr r) (mm_patch_capacity r) (mm_patch_min_address r) (mm_patch_max_address r)
    (mm_next_patch_handle r) v (mm_host_write_passthrough r) (mm_host_exec_passthrough r)
    (mm_page_cache r) (mm_code_version r).
Definition set_mm_host_write_passthrough (v : bool) (r : MEMORY_MANAGER) : MEMORY_MANAGER :=
  mkManager (mm_regions r) (mm_regions_ptr r) (mm_region_capacity r) (mm_patches r)
    (mm_patches_ptr r) (mm_patch_capacity r) (mm_patch_min_address r) (mm_patch_max_address r)
    (mm_next_patch_handle r) (mm_host_read_passthrough r) v (mm_host_exec_passthrough r)
    (mm_page_cache r) (mm_code_version r).
Definition set_mm_host_exec_passthrough (v : bool) (r : MEMORY_MANAGER) : MEMORY_MANAGER :=
  mkManager (mm_regions r) (mm_regions_ptr r) (mm_region_capacity r) (mm_patches r)
    (mm_patches_ptr r) (mm_patch_capacity r) (mm_patch_min_address r) (mm_patch_max_address r)
    (mm_next_patch_handle r) (mm_host_read_passthrough r) (mm_host_write_passthrough r) v
    (mm_page_cache r) (mm_code_version r).
Definition set_mm_page_cache (v : list MM_PAGE_CACHE_ENTRY) (r : MEMORY_MANAGER) : MEMORY_MANAGER :=
  mkManager (mm_regions r) (mm_regions_ptr r) (mm_region_capacity r) (mm_patches r)
    (mm_patches_ptr r) (mm_patch_capacity r) (mm_patch_min_address r) (mm_patch_max_address r)
    (mm_next_patch_handle r) (mm_host_read_passthrough r) (mm_host_write_passthrough r)
    (mm_host_exec_passthrough r) v (mm_code_version r).
Definition set_mm_code_version (v : Z) (r : MEMORY_MANAGER) : MEMORY_MANAGER :=
  mkManager (mm_regions r) (mm_regions_ptr r) (mm_region_capacity r) (mm_patches r)
    (mm_patches_ptr r) (mm_patch_capacity r) (mm_patch_min_address r) (mm_patch_max_address r)
    (mm_next_patch_handle r) (mm_host_read_passthrough r) (mm_host_write_passthrough r)
    (mm_host_exec_passthrough r) (mm_page_cache r) v.

(** The manager with the host memory it points into. *)
Record MemState := mkMem { ms_mgr : MEMORY_MANAGER; ms_heap : HostHeap }.

Definition set_ms_mgr (v : MEMORY_MANAGER) (s : MemState) : MemState := mkMem v (ms_heap s).
Definition set_ms_heap (v : HostHeap) (s : MemState) : MemState := mkMem (ms_mgr s) v.

Definition on_heap {A} (c : ST HostHeap A) : ST MemState A := st_zoom ms_heap set_ms_heap c.
Definition mod_mgr (f : MEMORY_MANAGER -> MEMORY_MANAGER) : ST MemState unit :=
  st_modify (fun s => set_ms_mgr (f (ms_mgr s)) s).

#[export] Instance MEMORY_REGION_eq_dec : EqDecision MEMORY_REGION.
Proof. solve_decision. Defined.

Definition region_count (mgr : MEMORY_MANAGER) : Z := Z.of_nat (length (mm_regions mgr)).
Definition region_at (mgr : MEMORY_MANAGER) (index : Z) : MEMORY_REGION :=
  arr_get zero_region (mm_regions mgr) index.

(** [region->base + region->size], which is 0 for a region ending at 2^64. *)
Definition region_end (r : MEMORY_REGION) : Z := u64 (r_base r + r_size r).

Definition sizeof_MEMORY_REGION : Z := 40.
Definition sizeof_MM_PATCH_ENTRY : Z := 32.

(** ** Pages, ranges and flags *)

Definition align_up_page (size : Z) : Z := Z.ldiff (u64 (size + CPUEAXH_PAGE_SIZE - 1)) (CPUEAXH_PAGE_SIZE - 1).
Definition align_down_page (addr : Z) : Z := Z.ldiff addr (CPUEAXH_PAGE_SIZE - 1).
Definition mm_is_page_aligned (value : Z) : bool := Z.land value (CPUEAXH_PAGE_SIZE - 1) =? 0.
Definition mm_is_valid_perms (perms : Z) : bool := Z.ldiff perms 7 =? 0.
Definition mm_is_valid_cpu_attrs (attrs : Z) : bool := Z.ldiff attrs MM_CPU_ATTR_USER =? 0.
Definition mm_range_overflows (address size : Z) : bool :=
  negb (size =? 0) && (u64 (address + size - 1) <? address).

(** ** Initialisation and the code version *)

Definition empty_cache : list MM_PAGE_CACHE_ENTRY := replicate 256 zero_cache_entry.

Definition mm_init : MEMORY_MANAGER :=
  mkManager [] NULL 0 [] NULL 0 0 0 1 false false false empty_cache 1.

Definition mm_bump_code_version (mgr : MEMORY_MANAGER) : MEMORY_MANAGER :=
  let v := u64 (mm_code_version mgr + 1) in set_mm_code_version (if v =? 0 then 1 else v) mgr.

Definition mm_invalidate_cache (mgr : MEMORY_MANAGER) : MEMORY_MANAGER :=
  mm_bump_code_version (set_mm_page_cache empty_cache mgr).

(** ** Host passthrough *)

Definition mm_host_passthrough_perms (mgr : MEMORY_MANAGER) : Z :=
  let perms := 0 in
  let perms := if mm_host_read_passthrough mgr then Z.lor perms MM_PROT_READ else perms in
  let perms := if mm_host_write_passthrough mgr then Z.lor perms MM_PROT_WRITE else perms in
  if mm_host_exec_passthrough mgr then Z.lor perms MM_PROT_EXEC else perms.

Definition mm_has_host_passthrough (mgr : MEMORY_MANAGER) (perm : Z) : bool :=
  if perm =? MM_PROT_READ then mm_host_read_passthrough mgr
  else if perm =? MM_PROT_WRITE then mm_host_write_passthrough mgr
  else if perm =? MM_PROT_EXEC then mm_host_exec_passthrough mgr else false.

Definition mm_set_host_passthrough (perms : Z) (enabled : bool) (mgr : MEMORY_MANAGER) : MEMORY_MANAGER :=
  let mgr := set_mm_host_read_passthrough (enabled && has_bits perms MM_PROT_READ) mgr in
  let mgr := set_mm_host_write_passthrough (enabled && has_bits perms MM_PROT_WRITE) mgr in
  let mgr := set_mm_host_exec_passthrough (enabled && has_bits perms MM_PROT_EXEC) mgr in
  mm_invalidate_cache mgr.

(** ** The region array *)

(** The region struct is cleared too; no caller looks at it again. *)
Definition mm_release_region (region : MEMORY_REGION) : ST MemState unit :=
  if negb (r_external region) && negb (r_data region =? NULL) then on_heap (host_free (r_data region))
  else st_ret tt.

(** Doubles until it reaches [required]; 64 doublings exceed every [size_t]. *)
Fixpoint grow_capacity (fuel : nat) (capacity required : Z) : Z :=
  match fuel with
  | O => capacity
  | S fuel =>
      if capacity <? required then
        if 2 ^ 63 - 1 <? capacity then required else grow_capacity fuel (capacity * 2) required
      else capacity
  end.

Section manager.
Context `{HostAlloc}.

Definition mm_reserve_region_capacity (capacity : Z) : ST MemState bool :=
  let* mgr := st_gets ms_mgr in
  if capacity <=? mm_region_capacity mgr then st_ret true
  else
    let new_capacity :=
      grow_capacity 64 (if mm_region_capacity mgr =? 0 then 16 else mm_region_capacity mgr) capacity in
    let* new_regions := on_heap (host_alloc_zeroed (u64 (new_capacity * sizeof_MEMORY_REGION))) in
    if new_regions =? NULL then st_ret false
    else
      (if negb (mm_regions_ptr mgr =? NULL) && negb (region_count mgr =? 0)
       then on_heap (host_free (mm_regions_ptr mgr)) else st_ret tt) ;;;
      mod_mgr (fun mgr => set_mm_region_capacity new_capacity (set_mm_regions_ptr new_regions mgr)) ;;;
      st_ret true.

(** Both searches halve [right - left]; as many steps as there are regions are more than enough. *)
Fixpoint insertion_search (fuel : nat) (mgr : MEMORY_MANAGER) (base left right : Z) : Z :=
  match fuel with
  | O => left
  | S fuel =>
      if left <? right then
        let mid := left + (right - left) / 2 in
        if r_base (region_at mgr mid) <? base then insertion_search fuel mgr base (mid + 1) right
        else insertion_search fuel mgr base left mid
      else left
  end.

Definition mm_find_insertion_index (mgr : MEMORY_MANAGER) (base : Z) : Z :=
  insertion_search (S (length (mm_regions mgr))) mgr base 0 (region_count mgr).

Fixpoint region_search (fuel : nat) (mgr : MEMORY_MANAGER) (address left right : Z) : option Z :=
  match fuel with
  | O => None
  | S fuel =>
      if left <? right then
        let mid := left + (right - left) / 2 in
        let region := region_at mgr mid in
        if address <? r_base region then region_search fuel mgr address left mid
        else if region_end region <=? address then region_search fuel mgr address (mid + 1) right
        else Some mid
      else None
  end.

Definition mm_find_region_index (mgr : MEMORY_MANAGER) (address : Z) : option Z :=
  region_search (S (length (mm_regions mgr))) mgr address 0 (region_count mgr).

Definition mm_find_region (mgr : MEMORY_MANAGER) (address : Z) : option MEMORY_REGION :=
  match mm_find_region_index mgr address with Some index => Some (region_at mgr index) | None => None end.

Definition mm_has_overlap (mgr : MEMORY_MANAGER) (base size : Z) : bool :=
  if (size =? 0) || mm_range_overflows base size then true
  else
    let end_ := u64 (base + size) in
    let index := mm_find_insertion_index mgr base in
    if (0 <? index) && (base <? region_end (region_at mgr (index - 1))) then true
    else (index <? region_count mgr) && (r_base (region_at mgr index) <? end_).

Definition insert_at (l : list MEMORY_REGION) (index : Z) (r : MEMORY_REGION) : list MEMORY_REGION :=
  take (Z.to_nat index) l ++ r :: drop (Z.to_nat index) l.

Definition mm_insert_region (index : Z) (region : MEMORY_REGION) : ST MemState bool :=
  let* mgr := st_gets ms_mgr in
  let* ok := mm_reserve_region_capacity (region_count mgr + 1) in
  if ok then
    mod_mgr (fun mgr => set_mm_regions (insert_at (mm_regions mgr) index region) mgr) ;;; st_ret true
  else st_ret false.

(** The loop of [mm_check_range_mapped]; no region is visited twice. *)
Fixpoint check_range_loop (fuel : nat) (mgr : MEMORY_MANAGER) (current end_ : Z) : bool :=
  match fuel with
  | O => false
  | S fuel =>
      if current <? end_ then
        match mm_find_region_index mgr current with
        | None => false
        | Some index =>
            let region_end := region_end (region_at mgr index) in
            if region_end <=? current then false
            else check_range_loop fuel mgr (if region_end <? end_ then region_end else end_) end_
        end
      else true
  end.

Definition mm_check_range_mapped (mgr : MEMORY_MANAGER) (address size : Z) : bool :=
  if size =? 0 then true
  else if mm_range_overflows address size then false
  else check_range_loop (S (length (mm_regions mgr))) mgr address (u64 (address + size)).

Definition mm_map_internal (address size perms : Z) : ST MemState bool :=
  let* mgr := st_gets ms_mgr in
  if (size =? 0) || negb (mm_is_page_aligned address) || negb (mm_is_page_aligned size)
     || mm_range_overflows address size then st_ret false
  else if negb (mm_is_valid_perms perms) || mm_has_overlap mgr address size then st_ret false
  else
    let* data := on_heap (host_alloc_zeroed size) in
    let region := mkRegion address size data perms MM_CPU_ATTR_USER false in
    if data =? NULL then st_ret false
    else
      let* inserted := mm_insert_region (mm_find_insertion_index mgr address) region in
      if inserted then mod_mgr mm_invalidate_cache ;;; st_ret true
      else mm_release_region region ;;; st_ret false.

Definition mm_map_host (address size perms host_ptr : Z) : ST MemState bool :=
  let* mgr := st_gets ms_mgr in
  if (size =? 0) || (host_ptr =? NULL) || negb (mm_is_page_aligned address) || negb (mm_is_page_aligned size)
     || mm_range_overflows address size then st_ret false
  else if negb (mm_is_valid_perms perms) || mm_has_overlap mgr address size then st_ret false
  else
    let region := mkRegion address size host_ptr perms MM_CPU_ATTR_USER true in
    let* inserted := mm_insert_region (mm_find_insertion_index mgr address) region in
    if inserted then mod_mgr mm_invalidate_cache ;;; st_ret true else st_ret false.

Definition mm_alloc (address size : Z) : ST MemState bool :=
  mm_map_internal address size (Z.lor (Z.lor MM_PROT_READ MM_PROT_WRITE) MM_PROT_EXEC).

End manager.

(** ** The invariant of the table *)

Definition contains (address : Z) (r : MEMORY_REGION) : bool := in_range (r_base r) (r_size r) address.

(** Regions consist of pages and end below 2^64: the end of a region that reaches the top of the address space is
    computed as 0 and no search finds it (see [top_page_region_is_never_found]). *)
Record region_ok (r : MEMORY_REGION) : Prop := {
  ro_base : 0 <= r_base r;
  ro_size : 0 < r_size r;
  ro_end : r_base r + r_size r < 2 ^ 64;
  ro_pages : r_base r mod CPUEAXH_PAGE_SIZE = 0 /\ r_size r mod CPUEAXH_PAGE_SIZE = 0;
}.

Definition region_before (a b : MEMORY_REGION) : Prop := r_base a + r_size a <= r_base b.

Record table_wf (l : list MEMORY_REGION) : Prop := {
  tw_ok : Forall region_ok l;
  tw_sorted : StronglySorted region_before l;
}.

(** The reference lookup: the first region, in table order, that contains the address. *)
Definition find_linear (l : list MEMORY_REGION) (address : Z) : option MEMORY_REGION :=
  List.find (contains address) l.

Definition overlaps (base size : Z) (r : MEMORY_REGION) : bool :=
  (base <? r_base r + r_size r) && (r_base r <? base + size).

(** ** Lemmas *)

Lemma containsP a r : reflect (r_base r <= a < r_base r + r_size r) (contains a r).
Proof. apply in_rangeP. Qed.

Lemma region_end_ok r : region_ok r -> region_end r = r_base r + r_size r.
Proof. intros [? ? ? _]. apply wrap_small. split; lia. Qed.

Lemma region_at_lookup mgr i :
  0 <= i < region_count mgr -> mm_regions mgr !! Z.to_nat i = Some (region_at mgr i).
Proof.
  unfold region_count, region_at, arr_get. intros. rewrite nth_lookup.
  destruct (lookup_lt_is_Some_2 (mm_regions mgr) (Z.to_nat i)) as [r ->]; [lia | done].
Qed.

Lemma lookup_region_at mgr n r :
  mm_regions mgr !! n = Some r -> region_at mgr (Z.of_nat n) = r /\ Z.of_nat n < region_count mgr.
Proof.
  intros Hn. unfold region_at, arr_get, region_count. rewrite Nat2Z.id, nth_lookup, Hn. split; [done |].
  apply lookup_lt_Some in Hn. lia.
Qed.

Lemma sorted_lookup {A} (R : A -> A -> Prop) l i j a b :
  StronglySorted R l -> l !! i = Some a -> l !! j = Some b -> (i < j)%nat -> R a b.
Proof.
  intros Hs. revert i j. induction Hs as [| x l Hs IH Hx]; intros i j Hi Hj Hij; [done |].
  destruct j as [| j]; [lia |]. cbn in Hj. destruct i as [| i]; cbn in Hi.
  - injection Hi as <-. rewrite Forall_lookup in Hx. by eapply Hx.
  - eapply IH; [done | done | lia].
Qed.

Lemma table_ok_at l n r : table_wf l -> l !! n = Some r -> region_ok r.
Proof. intros [Hok _] Hr. rewrite Forall_lookup in Hok. by eapply Hok. Qed.

Section wf_table.
Context (mgr : MEMORY_MANAGER) (Hwf : table_wf (mm_regions mgr)).

Lemma region_at_ok i : 0 <= i < region_count mgr -> region_ok (region_at mgr i).
Proof. intros. by eapply table_ok_at, region_at_lookup. Qed.

Lemma region_at_before i j :
  0 <= i -> i < j -> j < region_count mgr ->
  r_base (region_at mgr i) + r_size (region_at mgr i) <= r_base (region_at mgr j).
Proof.
  intros. eapply (sorted_lookup region_before); [apply Hwf | apply region_at_lookup; lia ..|]. lia.
Qed.

Lemma region_at_base_mono i j :
  0 <= i -> i <= j -> j < region_count mgr -> r_base (region_at mgr i) <= r_base (region_at mgr j).
Proof.
  intros. destruct (decide (i = j)) as [-> | ?]; [lia |].
  pose proof (region_at_before i j). pose proof (region_at_ok i) as [? ? ? _]; lia.
Qed.

Lemma region_search_spec fuel a left right :
  right - left < Z.of_nat fuel -> 0 <= left -> right <= region_count mgr ->
  (forall i, 0 <= i < left -> i < region_count mgr -> r_base (region_at mgr i) + r_size (region_at mgr i) <= a) ->
  (forall i, right <= i < region_count mgr -> 0 <= i -> a < r_base (region_at mgr i)) ->
  match region_search fuel mgr a left right with
  | Some i => 0 <= i < region_count mgr /\ contains a (region_at mgr i) = true
  | None => forall i, 0 <= i < region_count mgr -> contains a (region_at mgr i) = false
  end.
Proof.
  revert left right. induction fuel as [| fuel IH]; intros left right Hf Hl Hr Hlo Hhi; cbn.
  { intros i Hi. destruct (containsP a (region_at mgr i)); [| done].
    destruct (Z.lt_ge_cases i left); [specialize (Hlo i) | specialize (Hhi i)]; lia. }
  destruct (Z.ltb_spec left right) as [Hlt | Hge].
  2: { intros i Hi. destruct (containsP a (region_at mgr i)); [| done].
       destruct (Z.lt_ge_cases i left); [specialize (Hlo i) | specialize (Hhi i)]; lia. }
  set (mid := left + (right - left) / 2).
  assert (left <= mid < right) as Hmid by (unfold mid; zdiv).
  pose proof (region_at_ok mid ltac:(lia)) as Hok. rewrite region_end_ok by done. destruct Hok.
  destruct (Z.ltb_spec a (r_base (region_at mgr mid))).
  - apply IH; [lia .. | done |]. intros i Hi ?. pose proof (region_at_base_mono mid i). lia.
  - destruct (Z.leb_spec (r_base (region_at mgr mid) + r_size (region_at mgr mid)) a).
    + apply IH; [lia .. | | done]. intros i Hi ?.
      destruct (decide (i = mid)) as [-> | ?]; [done |].
      pose proof (region_at_before i mid). lia.
    + split; [lia |]. destruct (containsP a (region_at mgr mid)); [done | lia].
Qed.

Lemma mm_find_region_index_spec a :
  match mm_find_region_index mgr a with
  | Some i => 0 <= i < region_count mgr /\ contains a (region_at mgr i) = true
  | None => forall i, 0 <= i < region_count mgr -> contains a (region_at mgr i) = false
  end.
Proof. apply region_search_spec; unfold region_count in *; lia. Qed.

Lemma contains_unique a i j :
  0 <= i < region_count mgr -> 0 <= j < region_count mgr ->
  contains a (region_at mgr i) = true -> contains a (region_at mgr j) = true -> i = j.
Proof.
  intros Hi Hj Hci Hcj.
  destruct (containsP a (region_at mgr i)), (containsP a (region_at mgr j)); try done.
  destruct (Z.lt_trichotomy i j) as [? | [? | ?]]; [| done |].
  - pose proof (region_at_before i j). lia.
  - pose proof (region_at_before j i). lia.
Qed.

Lemma mm_find_region_index_unique a i :
  0 <= i < region_count mgr -> contains a (region_at mgr i) = true -> mm_find_region_index mgr a = Some i.
Proof.
  intros Hi Hc. pose proof (mm_find_region_index_spec a) as Hs.
  destruct (mm_find_region_index mgr a) as [j |].
  - destruct Hs as [Hj Hcj]. f_equal. by apply (contains_unique a).
  - rewrite Hs in Hc by done. done.
Qed.

End wf_table.

Lemma find_linear_some l a r : find_linear l a = Some r -> r ∈ l /\ contains a r = true.
Proof. intros Hf. apply List.find_some in Hf. by rewrite list_elem_of_In. Qed.

Lemma find_linear_none l a r : find_linear l a = None -> r ∈ l -> contains a r = false.
Proof. intros Hf Hr. apply (List.find_none _ _ Hf). by apply list_elem_of_In. Qed.

(** The binary search is the linear scan. *)
Lemma mm_find_region_linear mgr a :
  table_wf (mm_regions mgr) -> mm_find_region mgr a = find_linear (mm_regions mgr) a.
Proof.
  intros Hwf. unfold mm_find_region.
  destruct (find_linear (mm_regions mgr) a) as [r |] eqn:Hl.
  - apply find_linear_some in Hl as [Hin Hc]. apply list_elem_of_lookup in Hin as [n Hn].
    apply lookup_region_at in Hn as [Hr Hlt]. subst r.
    rewrite (mm_find_region_index_unique mgr Hwf a (Z.of_nat n)) by (done || lia). done.
  - pose proof (mm_find_region_index_spec mgr Hwf a) as Hs.
    destruct (mm_find_region_index mgr a) as [i |]; [| done]. destruct Hs as [Hi Hc].
    rewrite (find_linear_none _ _ (region_at mgr i) Hl) in Hc; [done |].
    eapply list_elem_of_lookup_2, region_at_lookup. lia.
Qed.

Lemma mm_find_region_index_linear mgr a :
  table_wf (mm_regions mgr) ->
  match mm_find_region_index mgr a with
  | Some i => 0 <= i < region_count mgr /\ find_linear (mm_regions mgr) a = Some (region_at mgr i)
              /\ contains a (region_at mgr i) = true
  | None => find_linear (mm_regions mgr) a = None
  end.
Proof.
  intros Hwf. rewrite <- mm_find_region_linear by done. unfold mm_find_region.
  pose proof (mm_find_region_index_spec mgr Hwf a) as Hs.
  destruct (mm_find_region_index mgr a) as [i |]; [| done]. by destruct Hs.
Qed.

(** ** Insertion points and overlap *)

Lemma insertion_search_spec mgr base fuel left right :
  table_wf (mm_regions mgr) ->
  right - left < Z.of_nat fuel -> 0 <= left <= right -> right <= region_count mgr ->
  (forall i, 0 <= i < left -> r_base (region_at mgr i) < base) ->
  (forall i, right <= i < region_count mgr -> base <= r_base (region_at mgr i)) ->
  let k := insertion_search fuel mgr base left right in
  0 <= k <= region_count mgr /\
  (forall i, 0 <= i < k -> r_base (region_at mgr i) < base) /\
  (forall i, k <= i < region_count mgr -> base <= r_base (region_at mgr i)).
Proof.
  intros Hwf. revert left right. induction fuel as [| fuel IH]; intros left right Hf Hl Hr Hlo Hhi; [lia |].
  cbn. destruct (Z.ltb_spec left right).
  - set (mid := left + (right - left) / 2).
    assert (left <= mid < right) as Hmid by (unfold mid; zdiv).
    destruct (Z.ltb_spec (r_base (region_at mgr mid)) base).
    + apply IH; [lia .. | | done]. intros i Hi. pose proof (region_at_base_mono mgr Hwf i mid). lia.
    + apply IH; [lia .. | done |]. intros i Hi. pose proof (region_at_base_mono mgr Hwf mid i). lia.
  - split_and!; [lia | lia | done |]. intros i Hi. apply Hhi. lia.
Qed.

Lemma mm_find_insertion_index_spec mgr base :
  table_wf (mm_regions mgr) ->
  let k := mm_find_insertion_index mgr base in
  0 <= k <= region_count mgr /\
  (forall i, 0 <= i < k -> r_base (region_at mgr i) < base) /\
  (forall i, k <= i < region_count mgr -> base <= r_base (region_at mgr i)).
Proof. intros. apply insertion_search_spec; unfold region_count in *; try done; lia. Qed.

Lemma range_overflow_false a s : 0 <= a -> 0 < s -> a + s <= 2 ^ 64 -> mm_range_overflows a s = false.
Proof.
  intros. unfold mm_range_overflows. rewrite wrap_small by (split; lia).
  destruct (Z.eqb_spec s 0); [lia |]. destruct (Z.ltb_spec (a + s - 1) a); [lia | done].
Qed.

Lemma range_overflow_bound a s :
  in_word 64 a -> in_word 64 s -> mm_range_overflows a s = false -> a + s <= 2 ^ 64.
Proof.
  intros [? ?] [? ?]. unfold mm_range_overflows.
  destruct (Z.eqb_spec s 0); cbn; [lia |]. intros Hw.
  destruct (Z.le_gt_cases (a + s) (2 ^ 64)); [done |].
  rewrite wrap_once in Hw by lia. destruct (Z.ltb_spec (a + s - 1) (2 ^ 64)); [lia |].
  destruct (Z.ltb_spec (a + s - 1 - 2 ^ 64) a); [done | lia].
Qed.

Lemma page_aligned_mod z : mm_is_page_aligned z = true <-> z mod CPUEAXH_PAGE_SIZE = 0.
Proof.
  unfold mm_is_page_aligned, CPUEAXH_PAGE_SIZE. rewrite Z.eqb_eq.
  change (0x1000 - 1) with (Z.ones 12). by rewrite Z.land_ones by lia.
Qed.

Lemma paged_sub a b :
  a mod CPUEAXH_PAGE_SIZE = 0 -> b mod CPUEAXH_PAGE_SIZE = 0 -> (a - b) mod CPUEAXH_PAGE_SIZE = 0.
Proof. unfold CPUEAXH_PAGE_SIZE. intros. zdiv. Qed.

Lemma paged_add a b :
  a mod CPUEAXH_PAGE_SIZE = 0 -> b mod CPUEAXH_PAGE_SIZE = 0 -> (a + b) mod CPUEAXH_PAGE_SIZE = 0.
Proof. unfold CPUEAXH_PAGE_SIZE. intros. zdiv. Qed.

Lemma overlapsP b s r : reflect (b < r_base r + r_size r /\ r_base r < b + s) (overlaps b s r).
Proof.
  apply iff_reflect. unfold overlaps. rewrite andb_true_iff, !Z.ltb_lt. lia.
Qed.

(** [mm_has_overlap] looks at the two neighbours of the insertion point; that is enough. *)
Lemma mm_has_overlap_exists mgr base size :
  table_wf (mm_regions mgr) -> 0 <= base -> 0 < size -> base + size < 2 ^ 64 ->
  mm_has_overlap mgr base size = existsb (overlaps base size) (mm_regions mgr).
Proof.
  intros Hwf Hb Hs He. unfold mm_has_overlap.
  destruct (Z.eqb_spec size 0); [lia |]. rewrite range_overflow_false by lia. cbn [orb].
  rewrite (wrap_small 64 (base + size)) by (split; lia).
  destruct (mm_find_insertion_index_spec mgr base Hwf) as (Hk & Hlo & Hhi).
  set (k := mm_find_insertion_index mgr base) in *. clearbody k.
  apply eq_true_iff_eq. rewrite existsb_exists. split.
  - intros Hov. destruct (0 <? k) eqn:Hk0; cbn [andb] in Hov.
    + apply Z.ltb_lt in Hk0. pose proof (region_at_ok mgr Hwf (k - 1) ltac:(lia)) as Hok.
      rewrite region_end_ok in Hov by done. destruct Hok.
      destruct (Z.ltb_spec base (r_base (region_at mgr (k - 1)) + r_size (region_at mgr (k - 1)))).
      * exists (region_at mgr (k - 1)). split.
        { eapply list_elem_of_In, list_elem_of_lookup_2, region_at_lookup. lia. }
        specialize (Hlo (k - 1)). destruct (overlapsP base size (region_at mgr (k - 1))); [done | lia].
      * apply andb_true_iff in Hov as [? ?]. exists (region_at mgr k). split.
        { eapply list_elem_of_In, list_elem_of_lookup_2, region_at_lookup. lia. }
        specialize (Hhi k). pose proof (region_at_ok mgr Hwf k ltac:(lia)) as [? ? ? _].
        destruct (overlapsP base size (region_at mgr k)); [done | lia].
    + apply andb_true_iff in Hov as [? ?]. exists (region_at mgr k). split.
      { eapply list_elem_of_In, list_elem_of_lookup_2, region_at_lookup. lia. }
      specialize (Hhi k). pose proof (region_at_ok mgr Hwf k ltac:(lia)) as [? ? ? _].
      destruct (overlapsP base size (region_at mgr k)); [done | lia].
  - intros (r & Hin & Hov). apply list_elem_of_In, list_elem_of_lookup in Hin as [j Hj].
    apply lookup_region_at in Hj as [Hr Hj]. subst r. set (i := Z.of_nat j) in *.
    assert (0 <= i) by (unfold i; lia). clearbody i.
    destruct (overlapsP base size (region_at mgr i)) as [[Ho1 Ho2] |]; [clear Hov | done].
    destruct (Z.lt_ge_cases i k).
    + assert ((0 <? k) = true) as -> by lia. cbn [andb].
      pose proof (region_at_ok mgr Hwf (k - 1) ltac:(lia)) as Hok. rewrite region_end_ok by done.
      destruct Hok. destruct (Z.ltb_spec base (r_base (region_at mgr (k - 1)) + r_size (region_at mgr (k - 1)))); [done |].
      destruct (decide (i = k - 1)) as [-> | ?]; [lia |].
      pose proof (region_at_before mgr Hwf i (k - 1)). lia.
    + destruct (_ && _); [done |]. destruct (Z.ltb_spec k (region_count mgr)); [cbn | lia].
      pose proof (region_at_base_mono mgr Hwf k i). lia.
Qed.

Lemma sorted_app {A} (R : A -> A -> Prop) l1 l2 :
  StronglySorted R (l1 ++ l2) <->
  StronglySorted R l1 /\ StronglySorted R l2 /\ (forall a b, a ∈ l1 -> b ∈ l2 -> R a b).
Proof.
  induction l1 as [| x l1 IH]; cbn.
  { split; [| by intros (_ & ? & _)]. intros. split_and!; [constructor | done |].
    by intros a b ?%elem_of_nil. }
  split.
  - intros Hs. apply StronglySorted_inv in Hs as [Hs Hx]. apply IH in Hs as (H1 & H2 & H12).
    rewrite Forall_forall in Hx. split_and!; [constructor; [done |] | done |].
    + rewrite Forall_forall. intros y Hy. apply Hx, elem_of_app. by left.
    + intros a b Ha Hb. apply elem_of_cons in Ha as [-> | Ha]; [apply Hx, elem_of_app; by right | by apply H12].
  - intros (H1 & H2 & H12). apply StronglySorted_inv in H1 as [H1 Hx]. constructor.
    + apply IH. split_and!; [done.. |]. intros. apply H12; [by right | done].
    + rewrite Forall_app. split; [done |]. rewrite Forall_forall. intros b Hb. apply H12; [left | done].
Qed.

Lemma insert_at_wf mgr r :
  table_wf (mm_regions mgr) -> region_ok r ->
  existsb (overlaps (r_base r) (r_size r)) (mm_regions mgr) = false ->
  table_wf (insert_at (mm_regions mgr) (mm_find_insertion_index mgr (r_base r)) r).
Proof.
  intros Hwf Hr Hno. destruct (mm_find_insertion_index_spec mgr (r_base r) Hwf) as (Hk & Hlo & Hhi).
  set (k := mm_find_insertion_index mgr (r_base r)) in *. unfold insert_at.
  assert (forall n x, mm_regions mgr !! n = Some x -> region_ok x /\
            ((n < Z.to_nat k)%nat -> region_before x r) /\ ((Z.to_nat k <= n)%nat -> region_before r x)) as Hx.
  { intros n x Hn. pose proof (table_ok_at _ _ _ Hwf Hn) as Hok. split; [done |].
    assert (overlaps (r_base r) (r_size r) x = false) as Hov.
    { destruct (overlaps _ _ x) eqn:E; [| done].
      rewrite (proj2 (existsb_exists _ _)) in Hno; [done |]. exists x. split; [| done].
      by eapply list_elem_of_In, list_elem_of_lookup_2. }
    destruct (overlapsP (r_base r) (r_size r) x) as [| Hov']; [done |].
    apply lookup_region_at in Hn as [Hn Hlt]. subst x. destruct Hok, Hr. unfold region_before.
    split; intros; [specialize (Hlo (Z.of_nat n)) | specialize (Hhi (Z.of_nat n))]; lia. }
  destruct Hwf as [Hok Hsort].
  split.
  - rewrite Forall_app. split; [by apply Forall_take |]. constructor; [done | by apply Forall_drop].
  - rewrite <- (take_drop (Z.to_nat k) (mm_regions mgr)) in Hsort.
    apply sorted_app in Hsort as (H1 & H2 & H12). apply sorted_app. split_and!; [done | constructor; [done |] |].
    + rewrite Forall_lookup. intros n x. rewrite lookup_drop. intros Hn. apply (Hx _ _ Hn). lia.
    + intros a b Ha Hb. apply elem_of_cons in Hb as [-> | Hb]; [| by apply H12].
      apply list_elem_of_lookup in Ha as [n Hn]. apply lookup_take_Some in Hn as [Hn ?].
      apply (Hx _ _ Hn). lia.
Qed.

(** ** Mapped ranges *)

Definition mapped (l : list MEMORY_REGION) (address : Z) : bool :=
  match find_linear l address with Some _ => true | None => false end.

Definition regions_past (l : list MEMORY_REGION) (current : Z) : nat :=
  length (List.filter (fun r => current <? r_base r + r_size r) l).

Lemma regions_past_mono l c d : c <= d -> (regions_past l d <= regions_past l c)%nat.
Proof.
  intros. unfold regions_past. induction l as [| r l IH]; cbn; [lia |].
  destruct (Z.ltb_spec d (r_base r + r_size r)), (Z.ltb_spec c (r_base r + r_size r)); cbn; lia.
Qed.

Lemma regions_past_dec l c d r :
  r ∈ l -> c < r_base r + r_size r -> r_base r + r_size r <= d -> (regions_past l d < regions_past l c)%nat.
Proof.
  intros Hin Hc Hd. assert (c <= d) by lia. induction l as [| x l IH]; [by apply elem_of_nil in Hin |].
  pose proof (regions_past_mono l c d). unfold regions_past in *. cbn.
  apply elem_of_cons in Hin as [<- | Hin].
  - destruct (Z.ltb_spec d (r_base r + r_size r)), (Z.ltb_spec c (r_base r + r_size r)); cbn; lia.
  - specialize (IH Hin).
    destruct (Z.ltb_spec d (r_base x + r_size x)), (Z.ltb_spec c (r_base x + r_size x)); cbn; lia.
Qed.

Lemma regions_past_bound l c : (regions_past l c <= length l)%nat.
Proof. unfold regions_past. apply List.filter_length_le. Qed.

Lemma check_range_loop_spec mgr fuel current end_ :
  table_wf (mm_regions mgr) -> (regions_past (mm_regions mgr) current < fuel)%nat ->
  check_range_loop fuel mgr current end_ = true <->
  forall a, current <= a < end_ -> mapped (mm_regions mgr) a = true.
Proof.
  intros Hwf. revert current. induction fuel as [| fuel IH]; intros current Hf; [lia |].
  cbn [check_range_loop].
  destruct (Z.ltb_spec current end_); [| split; [intros; lia | done]].
  pose proof (mm_find_region_index_linear mgr current Hwf) as Hidx.
  destruct (mm_find_region_index mgr current) as [i |].
  2: { split; [done |]. intros Hall. specialize (Hall current ltac:(lia)).
       unfold mapped in Hall. by rewrite Hidx in Hall. }
  destruct Hidx as (Hi & Hl & Hc). pose proof (region_at_ok mgr Hwf i Hi) as Hok.
  rewrite region_end_ok by done. set (r := region_at mgr i) in *.
  destruct (containsP current r) as [Hc' |]; [| done].
  destruct (Z.leb_spec (r_base r + r_size r) current); [lia |].
  assert (r ∈ mm_regions mgr) as Hin by (eapply list_elem_of_lookup_2, region_at_lookup; done).
  assert (Hrest : forall a, current <= a < r_base r + r_size r -> mapped (mm_regions mgr) a = true).
  { intros a Ha. unfold mapped. rewrite <- mm_find_region_linear by done. unfold mm_find_region.
    rewrite (mm_find_region_index_unique mgr Hwf a i); [done | lia |].
    fold r. destruct (containsP a r); [done | lia]. }
  destruct (Z.ltb_spec (r_base r + r_size r) end_).
  - rewrite IH; [| pose proof (regions_past_dec (mm_regions mgr) current (r_base r + r_size r) r Hin); lia].
    split; [| intros Hall a Ha; apply Hall; lia]. intros Hall a Ha.
    destruct (Z.lt_ge_cases a (r_base r + r_size r)); [apply Hrest | apply Hall]; lia.
  - split; [intros _ a Ha; apply Hrest; lia |]. intros _.
    destruct fuel as [| fuel]; cbn [check_range_loop]; [| destruct (Z.ltb_spec end_ end_); [lia | done]].
    pose proof (regions_past_dec (mm_regions mgr) current (r_base r + r_size r) r Hin). lia.
Qed.

Lemma mm_check_range_mapped_spec mgr address size :
  table_wf (mm_regions mgr) -> 0 <= address -> 0 <= size -> address + size < 2 ^ 64 ->
  mm_check_range_mapped mgr address size = true <->
  forall a, address <= a < address + size -> mapped (mm_regions mgr) a = true.
Proof.
  intros Hwf Ha Hs He. unfold mm_check_range_mapped.
  destruct (Z.eqb_spec size 0); [split; [intros; lia | done] |].
  rewrite range_overflow_false by lia. rewrite (wrap_small 64) by (split; lia).
  apply check_range_loop_spec; [done |]. pose proof (regions_past_bound (mm_regions mgr) address). lia.
Qed.

(** ** The properties *)

(** On every sorted table of disjoint regions the table's binary searches agree with linear
    scans: [mm_find_region] returns the region that contains the address (or none),
    [mm_has_overlap] detects exactly the ranges that meet some region, and
    [mm_check_range_mapped] exactly the ranges whose every address is mapped. *)
Theorem region_searches_refine_scans mgr a base size
  (Hwf : table_wf (mm_regions mgr)) (Hb : 0 <= base) (Hs : 0 < size) (He : base + size < 2 ^ 64) :
  mm_find_region mgr a = find_linear (mm_regions mgr) a /\
  mm_has_overlap mgr base size = existsb (overlaps base size) (mm_regions mgr) /\
  (mm_check_range_mapped mgr base size = true <->
     forall a, base <= a < base + size -> mapped (mm_regions mgr) a = true).
Proof.
  split_and!; [by apply mm_find_region_linear | by apply mm_has_overlap_exists |].
  apply mm_check_range_mapped_spec; [done | lia..].
Qed.

Definition two_regions : MEMORY_MANAGER :=
  set_mm_regions [mkRegion 0x1000 0x1000 0x50000 3 1 false; mkRegion 0x3000 0x2000 0x60000 5 1 false] mm_init.

Lemma two_regions_wf : table_wf (mm_regions two_regions).
Proof. split; repeat constructor; cbn; try lia. unfold region_before. cbn. lia. Qed.

Lemma region_searches_refine_scans_witness :
  mm_find_region_index two_regions 0x4FFF = Some 1 /\ mm_find_region_index two_regions 0x2000 = None /\
  mm_has_overlap two_regions 0x2000 0x1000 = existsb (overlaps 0x2000 0x1000) (mm_regions two_regions).
Proof.
  split; [reflexivity |]. split; [reflexivity |].
  assert (H := region_searches_refine_scans two_regions 0x4FFF 0x2000 0x1000 two_regions_wf).
  discharge H. apply H.
Defined.
