(* ===== verification/RegionSplit.v ===== *)
(** * memory/manager.hpp: unmapping and changing the protection of ranges

    [mm_unmap], [mm_protect] and [mm_set_cpu_attrs] walk the range region by region; each region
    is replaced by up to three segments (before, inside and after the range), internal segments
    being copied to fresh blocks.  The three loops of the source are one loop here, parameterised
    by what becomes of the part inside the range.  The theorems relate the detailed state, with
    its host blocks, to the abstract guest memory: a map from addresses to a byte with its
    protection. *)

From Stdlib Require Import ZArith Bool List Lia Sorting.Sorted.
From stdpp Require Import base tactics list gmap.
From S2P Require Import Prelude HostMemory RegionTable.

Section split.
Context `{HostAlloc}.

(** Fills [out_region]; on failure the caller still releases it. *)
Definition mm_build_region_segment (source : MEMORY_REGION) (segment_base segment_size perms cpu_attrs : Z)
    : ST MemState (bool * MEMORY_REGION) :=
  if segment_size =? 0 then st_ret (false, zero_region)
  else
    let offset := u64 (segment_base - r_base source) in
    let out_region data := mkRegion segment_base segment_size data perms cpu_attrs (r_external source) in
    if r_external source then st_ret (true, out_region (ptr_add (r_data source) offset))
    else
      let* data := on_heap (host_alloc_zeroed segment_size) in
      if data =? NULL then st_ret (false, out_region NULL)
      else
        on_heap (host_memcpy data (ptr_add (r_data source) offset) segment_size) ;;;
        st_ret (true, out_region data).

Definition replace_at (l : list MEMORY_REGION) (index : Z) (rs : list MEMORY_REGION) : list MEMORY_REGION :=
  take (Z.to_nat index) l ++ rs ++ drop (S (Z.to_nat index)) l.

Definition mm_replace_region (index : Z) (replacements : list MEMORY_REGION) : ST MemState bool :=
  let* mgr := st_gets ms_mgr in
  if region_count mgr <=? index then st_ret false
  else
    let new_count := region_count mgr - 1 + Z.of_nat (length replacements) in
    let* ok := mm_reserve_region_capacity new_count in
    if ok then
      let original := region_at mgr index in
      mod_mgr (fun mgr => set_mm_regions (replace_at (mm_regions mgr) index replacements) mgr) ;;;
      mm_release_region original ;;;
      mod_mgr mm_invalidate_cache ;;;
      st_ret true
    else st_ret false.

Fixpoint release_all (regions : list MEMORY_REGION) : ST MemState unit :=
  match regions with
  | [] => st_ret tt
  | region :: regions => mm_release_region region ;;; release_all regions
  end.

(** A segment to build: base, size, perms and cpu_attrs. *)
Definition segment_request : Type := Z * Z * Z * Z.

Fixpoint build_segments (original : MEMORY_REGION) (requests : list segment_request) (replacements : list MEMORY_REGION)
    : ST MemState (option (list MEMORY_REGION)) :=
  match requests with
  | [] => st_ret (Some replacements)
  | (base, size, perms, attrs) :: requests =>
      let* (ok, region) := mm_build_region_segment original base size perms attrs in
      if ok : bool then build_segments original requests (replacements ++ [region])
      else release_all (replacements ++ [region]) ;;; st_ret None
  end.

(** What becomes of the part inside the range, given its perms and cpu_attrs: gone, or kept with
    new ones. *)
Definition middle_rule : Type := Z -> Z -> option (Z * Z).

Definition split_requests (middle : middle_rule) (original : MEMORY_REGION) (current chunk_end : Z)
    : list segment_request :=
  (if r_base original <? current
   then [(r_base original, u64 (current - r_base original), r_perms original, r_cpu_attrs original)] else []) ++
  (match middle (r_perms original) (r_cpu_attrs original) with
   | Some (perms, attrs) => [(current, u64 (chunk_end - current), perms, attrs)]
   | None => []
   end) ++
  (if chunk_end <? region_end original
   then [(chunk_end, u64 (region_end original - chunk_end), r_perms original, r_cpu_attrs original)] else []).

Fixpoint split_loop (fuel : nat) (middle : middle_rule) (current end_ : Z) : ST MemState bool :=
  match fuel with
  | O => st_ret false
  | S fuel =>
      if current <? end_ then
        let* mgr := st_gets ms_mgr in
        match mm_find_region_index mgr current with
        | None => st_ret false
        | Some index =>
            let original := region_at mgr index in
            let original_end := region_end original in
            let chunk_end := if original_end <? end_ then original_end else end_ in
            let* built := build_segments original (split_requests middle original current chunk_end) [] in
            match built with
            | None => st_ret false
            | Some replacements =>
                let* ok := mm_replace_region index replacements in
                if ok then split_loop fuel middle chunk_end end_
                else release_all replacements ;;; st_ret false
            end
        end
      else st_ret true
  end.

(** The checks and the loop the three operations share; [valid] is the check of the new value. *)
Definition mm_split_range (valid : bool) (middle : middle_rule) (address size : Z) : ST MemState bool :=
  let* mgr := st_gets ms_mgr in
  if size =? 0 then st_ret true
  else if negb (mm_is_page_aligned address) || negb (mm_is_page_aligned size) || mm_range_overflows address size
  then st_ret false
  else if negb valid || negb (mm_check_range_mapped mgr address size) then st_ret false
  else split_loop (S (length (mm_regions mgr))) middle address (u64 (address + size)).

Definition mm_unmap (address size : Z) : ST MemState bool :=
  mm_split_range true (fun _ _ => None) address size.

Definition mm_protect (address size perms : Z) : ST MemState bool :=
  mm_split_range (mm_is_valid_perms perms) (fun _ attrs => Some (perms, attrs)) address size.

Definition mm_set_cpu_attrs (address size cpu_attrs : Z) : ST MemState bool :=
  mm_split_range (mm_is_valid_cpu_attrs cpu_attrs) (fun perms _ => Some (perms, cpu_attrs)) address size.

End split.

Definition free_nonnull (p : Z) : ST MemState unit :=
  if negb (p =? NULL) then on_heap (host_free p) else st_ret tt.

Fixpoint release_patches (patches : list MM_PATCH_ENTRY) : ST MemState unit :=
  match patches with
  | [] => st_ret tt
  | p :: patches =>
      free_nonnull (p_data p) ;;; release_patches patches
  end.

(** Everything is zeroed at the end, the code version and the patch handle included. *)
Definition zero_manager : MEMORY_MANAGER :=
  mkManager [] NULL 0 [] NULL 0 0 0 0 false false false empty_cache 0.

Definition mm_destroy : ST MemState unit :=
  let* mgr := st_gets ms_mgr in
  release_all (mm_regions mgr) ;;;
  release_patches (mm_patches mgr) ;;;
  free_nonnull (mm_regions_ptr mgr) ;;;
  free_nonnull (mm_patches_ptr mgr) ;;;
  mod_mgr (fun _ => zero_manager).

(** ** The invariant: a sorted table whose regions are backed by host memory *)

Definition internal (r : MEMORY_REGION) : bool := negb (r_external r).

Definition region_blocks (l : list MEMORY_REGION) : blocks :=
  map (fun r => (r_data r, r_size r)) (List.filter internal l).

(** The blocks the manager owns besides its regions: its two arrays and the patch bytes. *)
Definition array_block (p n : Z) : blocks := if p =? NULL then [] else [(p, n)].

Definition manager_blocks (mgr : MEMORY_MANAGER) : blocks :=
  array_block (mm_regions_ptr mgr) (u64 (mm_region_capacity mgr * sizeof_MEMORY_REGION)) ++
  array_block (mm_patches_ptr mgr) (u64 (mm_patch_capacity mgr * sizeof_MM_PATCH_ENTRY)) ++
  map (fun p => (p_data p, p_size p)) (mm_patches mgr).

(** [L] are regions, [O] further blocks: everything is owned once, external regions point into
    client memory. *)
Record backed (O : blocks) (L : list MEMORY_REGION) (h : HostHeap) : Prop := {
  bk_owns : owns (O ++ region_blocks L) h;
  bk_client : forall r, r ∈ L -> r_external r = true -> client_range (O ++ region_blocks L) h (r_data r) (r_size r);
}.

Record mem_wf (s : MemState) : Prop := {
  mw_table : table_wf (mm_regions (ms_mgr s));
  mw_backed : backed (manager_blocks (ms_mgr s)) (mm_regions (ms_mgr s)) (ms_heap s);
}.

(** ** The abstract guest memory *)

Definition region_byte (h : HostHeap) (r : MEMORY_REGION) (address : Z) : Z :=
  hh_bytes h (r_data r + (address - r_base r)).

Definition guest_cell : Type := Z * Z * Z.

(** Byte, perms and cpu_attrs of a guest address; [None] when it is unmapped. *)
Definition guest_view (s : MemState) (address : Z) : option guest_cell :=
  match find_linear (mm_regions (ms_mgr s)) address with
  | Some r => Some (region_byte (ms_heap s) r address, r_perms r, r_cpu_attrs r)
  | None => None
  end.

Definition apply_rule (middle : middle_rule) (cell : option guest_cell) : option guest_cell :=
  match cell with
  | Some (b, perms, attrs) =>
      match middle perms attrs with Some (perms', attrs') => Some (b, perms', attrs') | None => None end
  | None => None
  end.

(** ** Backing *)

Lemma region_blocks_cons r l :
  region_blocks (r :: l) = (if internal r then [(r_data r, r_size r)] else []) ++ region_blocks l.
Proof. unfold region_blocks. cbn. by destruct (internal r). Qed.

Lemma region_blocks_app l k : region_blocks (l ++ k) = region_blocks l ++ region_blocks k.
Proof. unfold region_blocks. by rewrite List.filter_app, map_app. Qed.

Lemma region_blocks_perm l k : l ≡ₚ k -> region_blocks l ≡ₚ region_blocks k.
Proof.
  intros Hp. unfold region_blocks. apply Permutation_map.
  induction Hp; cbn; try destruct (internal _); try destruct (internal _); eauto using Permutation.
Qed.

Lemma backed_perm O L O' L' h : O ≡ₚ O' -> L ≡ₚ L' -> backed O L h -> backed O' L' h.
Proof.
  intros HO HL [Ho Hc]. assert (O ++ region_blocks L ≡ₚ O' ++ region_blocks L') as Hp.
  { by rewrite HO, (region_blocks_perm L L'). }
  split; [by eapply owns_perm |]. intros r Hr He. eapply client_range_perm; [done |]. apply Hc; [| done].
  by rewrite HL.
Qed.

Lemma backed_live O L h r : backed O L h -> r ∈ L -> live_range h (r_data r) (r_size r).
Proof.
  intros [Ho Hc] Hr. destruct (r_external r) eqn:E.
  - by eapply client_live, Hc.
  - eapply owned_live; [done |]. apply elem_of_app. right. unfold region_blocks.
    apply list_elem_of_fmap. exists r. split; [done |]. apply list_elem_of_In, List.filter_In.
    split; [by apply list_elem_of_In |]. unfold internal. by rewrite E.
Qed.

(** Regions of [L] keep their bytes when every live byte is kept. *)
Definition regions_keep (L : list MEMORY_REGION) (h h' : HostHeap) : Prop :=
  forall r a, r ∈ L -> contains a r = true -> region_byte h' r a = region_byte h r a.

Lemma regions_keep_refl L h : regions_keep L h h.
Proof. done. Qed.

Lemma regions_keep_trans L h h' h'' : regions_keep L h h' -> regions_keep L h' h'' -> regions_keep L h h''.
Proof. intros H1 H2 r a Hr Ha. by rewrite H2, H1. Qed.

Lemma regions_keep_sub L L' h h' : (forall r, r ∈ L' -> r ∈ L) -> regions_keep L h h' -> regions_keep L' h h'.
Proof. intros Hs H1 r a Hr Ha. apply H1; auto. Qed.

Lemma regions_keep_live O L h h' : backed O L h -> keeps_live_bytes h h' -> regions_keep L h h'.
Proof.
  intros Hb Hk r a Hr Ha. destruct (containsP a r); [| done].
  apply (Hk (r_data r) (r_size r)); [by eapply backed_live | lia].
Qed.

Lemma on_heap_free p s : on_heap (host_free p) s = (tt, mkMem (ms_mgr s) (final (host_free p) (ms_heap s))).
Proof. done. Qed.

(** Releasing a region drops it from what is backed; no byte changes. *)
Lemma release_region_spec O r L s s' :
  backed O (r :: L) (ms_heap s) -> mm_release_region r s = (tt, s') ->
  ms_mgr s' = ms_mgr s /\ backed O L (ms_heap s') /\ (forall a, hh_bytes (ms_heap s') a = hh_bytes (ms_heap s) a).
Proof.
  intros Hb Hr. unfold mm_release_region in Hr.
  destruct Hb as [Ho Hc]. rewrite region_blocks_cons in Ho, Hc. unfold internal in Ho, Hc.
  destruct (r_external r) eqn:E; cbn [negb andb] in Hr, Ho, Hc.
  { injection Hr as <-. split_and!; [done | | done]. split; [done |]. intros x Hx. apply Hc. by right. }
  assert (Hp : O ++ [(r_data r, r_size r)] ++ region_blocks L ≡ₚ (r_data r, r_size r) :: O ++ region_blocks L).
  { cbn. by rewrite Permutation_middle. }
  pose proof (owns_perm _ _ _ Hp Ho) as Ho'.
  pose proof (owned_nonnull _ _ (r_data r) (r_size r) Ho' ltac:(left)) as Hnn.
  destruct (Z.eqb_spec (r_data r) NULL); [done |]. cbn [negb] in Hr. rewrite on_heap_free in Hr. injection Hr as <-.
  destruct (owns_free _ _ _ _ Ho') as (Hof & _ & Hcf).
  split_and!; [done | | intros a; apply host_free_bytes]. split; [done |]. intros x Hx Hxe. apply Hcf.
  eapply client_range_perm; [exact Hp |]. apply Hc; [by right | done].
Qed.

(** Releasing the segments built so far. *)
Lemma release_all_spec O rs L s s' :
  backed O (rs ++ L) (ms_heap s) -> release_all rs s = (tt, s') ->
  ms_mgr s' = ms_mgr s /\ backed O L (ms_heap s') /\ (forall a, hh_bytes (ms_heap s') a = hh_bytes (ms_heap s) a).
Proof.
  revert s. induction rs as [| r rs IH]; intros s Hb Hr; cbn in Hr.
  { injection Hr as <-. done. }
  unfold st_bind in Hr. destruct (mm_release_region r s) as [[] s1] eqn:E1.
  destruct (release_region_spec O r (rs ++ L) s s1 Hb E1) as (Hm & Hb1 & Hk).
  destruct (IH s1 Hb1 Hr) as (Hm2 & Hb2 & Hk2). split_and!; [congruence | done |]. intros a. by rewrite Hk2, Hk.
Qed.

Lemma release_null r s : r_data r = NULL -> mm_release_region r s = (tt, s).
Proof. intros E. unfold mm_release_region. rewrite E. by rewrite andb_false_r. Qed.

(** ** Building segments *)

(** [seg] is the segment a request asks for, holding [source]'s bytes of heap [h0] in heap [h]. *)
Record segment_of (h0 h : HostHeap) (source : MEMORY_REGION) (req : segment_request) (seg : MEMORY_REGION) : Prop := {
  so_shape : req = (r_base seg, r_size seg, r_perms seg, r_cpu_attrs seg);
  so_bytes : forall a, contains a seg = true -> region_byte h seg a = region_byte h0 source a;
}.

Definition request_inside (source : MEMORY_REGION) (req : segment_request) : Prop :=
  let '(base, size, _, _) := req in
  0 < size /\ r_base source <= base /\ base + size <= r_base source + r_size source /\
  base mod CPUEAXH_PAGE_SIZE = 0 /\ size mod CPUEAXH_PAGE_SIZE = 0.

Section build.
Context `{HostAllocLaws}.

Lemma backed_alloc O L h size data h' r :
  backed O L h -> 0 <= size -> host_alloc_zeroed size h = (data, h') -> data <> NULL ->
  r_data r = data -> r_size r = size -> r_external r = false ->
  backed O (r :: L) h' /\ keeps_live_bytes h h'.
Proof.
  intros [Ho Hc] Hs Ha Hnn Hd Hsz He.
  destruct (owns_alloc size _ h data h' Ho Hs Ha Hnn) as (Ho' & Hk & _ & _ & _ & _ & Hcl).
  split; [| done].
  assert (Hp : (data, size) :: O ++ region_blocks L ≡ₚ O ++ region_blocks (r :: L)).
  { rewrite region_blocks_cons. unfold internal. rewrite He, Hd, Hsz. cbn. by rewrite Permutation_middle. }
  split; [by eapply owns_perm |]. intros x Hx Hxe. eapply client_range_perm; [exact Hp |].
  apply elem_of_cons in Hx as [-> | Hx]; [congruence |]. by apply Hcl, Hc.
Qed.

Lemma backed_blocks O L h h' :
  hh_blocks h' = hh_blocks h -> heap_wf h' -> backed O L h -> backed O L h'.
Proof.
  intros Hb Hwf [[Ho Hd Hl] Hc]. split.
  - split; [done .. |]. intros p n Hin. rewrite Hb. by apply Hl.
  - intros r Hr He. destruct (Hc r Hr He) as (q & m & Hq & ?). exists q, m. by rewrite Hb.
Qed.

Lemma build_segment_spec O L source base size perms attrs s ok seg s' :
  backed O L (ms_heap s) -> source ∈ L -> region_ok source ->
  request_inside source (base, size, perms, attrs) ->
  mm_build_region_segment source base size perms attrs s = ((ok, seg), s') ->
  ms_mgr s' = ms_mgr s /\ regions_keep L (ms_heap s) (ms_heap s') /\
  if ok then backed O (seg :: L) (ms_heap s')
             /\ segment_of (ms_heap s) (ms_heap s') source (base, size, perms, attrs) seg
  else s' = s /\ r_data seg = NULL.
Proof.
  intros Hb Hin Hok (Hs & Hlo & Hhi & _) Hbuild. unfold mm_build_region_segment in Hbuild.
  destruct (Z.eqb_spec size 0); [lia |].
  pose proof (backed_live O L _ source Hb Hin) as Hlive. destruct Hok.
  assert (heap_wf (ms_heap s)) as Hwf by apply Hb.
  pose proof (live_range_bounds _ _ _ Hwf Hlive ltac:(lia)) as [Hd0 Hd1].
  rewrite (wrap_small 64) in Hbuild by (split; lia). rewrite (ptr_add_small) in Hbuild by lia.
  destruct (r_external source) eqn:He.
  - injection Hbuild as <- <- <-. split; [done |]. split; [done |]. split.
    + destruct Hb as [Ho Hc]. split; rewrite region_blocks_cons; unfold internal; cbn; [done |].
      intros r Hr Hre. apply elem_of_cons in Hr as [-> | Hr]; [| by apply Hc]. cbn.
      destruct (Hc source Hin He) as (q & m & Hq & Hnin & ? & ?). exists q, m. split_and!; [done.. | lia | lia].
    + split; [done |]. intros a _. unfold region_byte. cbn. f_equal. lia.
  - unfold st_bind, on_heap, st_zoom in Hbuild.
    destruct (host_alloc_zeroed size (ms_heap s)) as [data h1] eqn:Ha.
    destruct (Z.eqb_spec data NULL) as [-> | Hnn].
    + apply host_alloc_zeroed_fail in Ha; [| done | lia]. subst h1.
      injection Hbuild as <- <- <-. destruct s; cbn. split_and!; done.
    + set (seg0 := mkRegion base size data perms attrs false) in *.
      destruct (backed_alloc O L _ size data h1 seg0 Hb ltac:(lia) Ha Hnn eq_refl eq_refl eq_refl) as [Hb1 Hk1].
      destruct (owns_alloc size _ _ data h1 (bk_owns _ _ _ Hb) ltac:(lia) Ha Hnn)
        as (Ho1 & _ & _ & Hnew & _ & Hlr & _).
      assert (hh_blocks h1 !! data = Some size) as Hdata by (apply Ho1; left).
      assert (Hk2 : keeps_live_bytes (ms_heap s) (final (host_memcpy data (r_data source + (base - r_base source)) size) h1)).
      { eapply memcpy_fresh_keeps; [apply Ho1 | done | lia | done | | done].
        intros q m Hq. destruct (host_alloc_zeroed_ok size _ data h1 Hwf ltac:(lia) Ha Hnn) as (_ & -> & _).
        rewrite lookup_insert_ne; [done | congruence]. }
      injection Hbuild as <- <- <-. cbn. split; [done |]. split; [by eapply regions_keep_live |]. split.
      * eapply backed_blocks; [| | exact Hb1]; [done |]. apply host_memcpy_wf, Ho1.
      * split; [done |]. intros a Ha'. destruct (containsP a seg0) as [Hrange |]; [| done]. cbn in Hrange.
        unfold region_byte. cbn. destruct (in_rangeP data size (data + (a - base))); [| lia].
        replace (r_data source + (base - r_base source) + (data + (a - base) - data))
          with (r_data source + (a - r_base source)) by lia.
        apply (Hk1 (r_data source) (r_size source)); [done | lia].
Qed.

(** The segments of a whole split: they match the requests and every region keeps its bytes. *)
Lemma build_segments_spec O T source reqs s0 :
  forall reps done_reqs s res s',
  backed O (reps ++ T) (ms_heap s) -> source ∈ T -> region_ok source ->
  Forall (request_inside source) reqs ->
  ms_mgr s = ms_mgr s0 -> regions_keep T (ms_heap s0) (ms_heap s) ->
  Forall2 (segment_of (ms_heap s0) (ms_heap s) source) done_reqs reps ->
  build_segments source reqs reps s = (res, s') ->
  ms_mgr s' = ms_mgr s0 /\ regions_keep T (ms_heap s0) (ms_heap s') /\
  match res with
  | Some reps' => backed O (reps' ++ T) (ms_heap s')
      /\ Forall2 (segment_of (ms_heap s0) (ms_heap s') source) (done_reqs ++ reqs) reps'
  | None => backed O T (ms_heap s')
  end.
Proof.
  induction reqs as [| [[[base size] perms] attrs] reqs IH];
    intros reps dr s res s' Hb Hin Hok Hreq Hm Hk Hseg Hrun; cbn [build_segments] in Hrun.
  { injection Hrun as <- <-. rewrite app_nil_r. done. }
  unfold st_bind in Hrun. apply Forall_cons in Hreq as [Hr Hreq].
  destruct (mm_build_region_segment source base size perms attrs s) as [[ok seg] s1] eqn:E1.
  destruct (build_segment_spec O (reps ++ T) source base size perms attrs s ok seg s1)
    as (Hm1 & Hk1 & Hrest); [done | apply elem_of_app; by right | done.. |].
  assert (Hk1T : regions_keep T (ms_heap s) (ms_heap s1)).
  { eapply regions_keep_sub; [| exact Hk1]. intros r ?. apply elem_of_app. by right. }
  destruct ok.
  - destruct Hrest as [Hb1 Hs1].
    rewrite (cons_middle (base, size, perms, attrs)), app_assoc.
    eapply (IH (reps ++ [seg]) (dr ++ [(base, size, perms, attrs)]) s1); try done.
    + eapply backed_perm; [reflexivity | | exact Hb1]. rewrite <- app_assoc. apply Permutation_middle.
    + congruence.
    + by eapply regions_keep_trans.
    + apply Forall2_app.
      * eapply Forall2_impl_in; [exact Hseg |]. intros req x Hx [Hsh Hby].
        split; [done |]. intros a Ha. rewrite <- Hby by done. apply Hk1; [| done].
        apply elem_of_app. by left.
      * constructor; [| constructor]. destruct Hs1 as [Hsh Hby]. split; [done |].
        intros a Ha. rewrite Hby by done. apply Hk; [done |].
        injection Hsh as -> -> _ _. destruct (containsP a seg) as [Hr' |]; [| done].
        destruct Hr as (? & ? & ? & _). destruct (containsP a source); [done | lia].
  - destruct Hrest as [-> Hnull].
    destruct (release_all (reps ++ [seg]) s) as [[] s2] eqn:E2. injection Hrun as <- <-.
    assert (release_all reps s = (tt, s2)) as E3.
    { revert E2. clear -Hnull. revert s. induction reps as [| r reps IH]; intros s; cbn; unfold st_bind.
      - by rewrite release_null.
      - destruct (mm_release_region r s) as [[] ?]. apply IH. }
    destruct (release_all_spec O reps T s s2 Hb E3) as (Hm2 & Hb2 & Hk2).
    split_and!; [congruence | | done]. intros r a Hr' Ha. unfold region_byte. rewrite Hk2. by apply Hk.
Qed.

End build.

(** ** The region array: growing it and replacing an entry *)

(** The part of the manager no region operation touches. *)
Definition frame_part (m : MEMORY_MANAGER) :=
  (mm_patches m, (mm_patches_ptr m, mm_patch_capacity m), (mm_patch_min_address m, mm_patch_max_address m),
   mm_next_patch_handle m, (mm_host_read_passthrough m, mm_host_write_passthrough m, mm_host_exec_passthrough m)).

(** Either the page cache was emptied or neither it nor the table changed. *)
Definition cache_safe (m m' : MEMORY_MANAGER) : Prop :=
  frame_part m' = frame_part m /\
  (mm_page_cache m' = empty_cache \/ mm_page_cache m' = mm_page_cache m /\ mm_regions m' = mm_regions m).

Lemma cache_safe_refl m : cache_safe m m.
Proof. split; [done | by right]. Qed.

Lemma cache_safe_trans m1 m2 m3 : cache_safe m1 m2 -> cache_safe m2 m3 -> cache_safe m1 m3.
Proof.
  intros [F1 C1] [F2 C2]. split; [congruence |].
  destruct C2 as [C2 | [C2 R2]]; [by left |]. rewrite C2, R2. destruct C1 as [C1 | [C1 R1]]; [by left | right].
  by rewrite C1, R1.
Qed.

Lemma owns_weaken own1 own2 h : owns (own1 ++ own2) h -> owns own2 h.
Proof.
  intros [Hh Hd Hl]. rewrite map_app in Hd. apply NoDup_app in Hd as (_ & _ & Hd). split; [done.. |].
  intros p n Hin. apply Hl. apply elem_of_app. by right.
Qed.

Lemma client_range_weaken own1 own2 h d n : client_range (own1 ++ own2) h d n -> client_range own2 h d n.
Proof.
  intros (q & m & Hq & Hnin & ?). exists q, m. split; [done |]. split; [| done].
  intros Hin. apply Hnin. rewrite map_app. apply elem_of_app. by right.
Qed.

Lemma backed_weaken O1 O2 L h : backed (O1 ++ O2) L h -> backed O2 L h.
Proof.
  intros [Ho Hc]. rewrite <- app_assoc in Ho, Hc. split; [by eapply owns_weaken |].
  intros r Hr He. by eapply client_range_weaken, Hc.
Qed.

(** Freeing an owned block that is not a region's. *)
Lemma backed_free p n O L h :
  backed ((p, n) :: O) L h -> backed O L (final (host_free p) h) /\ keeps_live_bytes h (final (host_free p) h).
Proof.
  intros [Ho Hc]. cbn in Ho, Hc. destruct (owns_free _ _ _ _ Ho) as (Hof & Hk & Hcf).
  split; [| done]. split; [done |]. intros r Hr He. by apply Hcf, Hc.
Qed.

Section replace.
Context `{HostAllocLaws}.

Lemma backed_alloc_block O L h size p h' :
  backed O L h -> 0 <= size -> host_alloc_zeroed size h = (p, h') -> p <> NULL ->
  backed ((p, size) :: O) L h' /\ keeps_live_bytes h h'.
Proof.
  intros [Ho Hc] Hs Ha Hnn. destruct (owns_alloc size _ h p h' Ho Hs Ha Hnn) as (Ho' & Hk & _ & _ & _ & _ & Hcl).
  split; [| done]. split; [done |]. intros r Hr He. by apply Hcl, Hc.
Qed.

Lemma reserve_region_spec L capacity s ok s' :
  backed (manager_blocks (ms_mgr s)) L (ms_heap s) ->
  mm_reserve_region_capacity capacity s = (ok, s') ->
  (exists p c, ms_mgr s' = set_mm_region_capacity c (set_mm_regions_ptr p (ms_mgr s))) /\
  backed (manager_blocks (ms_mgr s')) L (ms_heap s') /\ regions_keep L (ms_heap s) (ms_heap s').
Proof.
  intros Hb Hrun. unfold mm_reserve_region_capacity, st_bind, st_gets, on_heap, st_zoom in Hrun.
  assert (Heta : exists p c, ms_mgr s = set_mm_region_capacity c (set_mm_regions_ptr p (ms_mgr s))).
  { exists (mm_regions_ptr (ms_mgr s)), (mm_region_capacity (ms_mgr s)). by destruct (ms_mgr s). }
  destruct (capacity <=? mm_region_capacity (ms_mgr s)); [by injection Hrun as <- <- |].
  set (nc := grow_capacity 64 _ capacity) in Hrun. clearbody nc.
  destruct (host_alloc_zeroed (u64 (nc * sizeof_MEMORY_REGION)) (ms_heap s)) as [p h1] eqn:Ha.
  assert (0 <= u64 (nc * sizeof_MEMORY_REGION)) by (apply (wrap_range 64); lia).
  destruct (Z.eqb_spec p NULL) as [-> | Hnn].
  { apply host_alloc_zeroed_fail in Ha; [| apply Hb | done]. subst h1. injection Hrun as <- <-. by destruct s. }
  destruct (backed_alloc_block _ _ _ _ _ _ Hb ltac:(done) Ha Hnn) as [Hb1 Hk1].
  set (size := u64 (nc * sizeof_MEMORY_REGION)) in *.
  set (rest := array_block (mm_patches_ptr (ms_mgr s)) (u64 (mm_patch_capacity (ms_mgr s) * sizeof_MM_PATCH_ENTRY))
               ++ map (fun p => (p_data p, p_size p)) (mm_patches (ms_mgr s))).
  assert (Hmb : forall mgr', mm_regions_ptr mgr' = p -> mm_region_capacity mgr' = nc ->
            frame_part mgr' = frame_part (ms_mgr s) -> manager_blocks mgr' = (p, size) :: rest).
  { intros mgr' Hp Hc Hf. unfold frame_part in Hf. injection Hf as Hf1 Hf2 Hf3 _ _ _ _ _ _.
    unfold manager_blocks, array_block at 1. rewrite Hp, Hc, Hf1, Hf2, Hf3.
    destruct (Z.eqb_spec p NULL); done. }
  unfold manager_blocks in Hb1. fold rest in Hb1. unfold array_block at 1 in Hb1.
  destruct (Z.eqb_spec (mm_regions_ptr (ms_mgr s)) NULL) as [Hold | Hold]; cbn [negb andb] in Hrun.
  { injection Hrun as <- <-. cbn. split; [by exists p, nc |]. split; [by rewrite Hmb |].
    by eapply regions_keep_live. }
  set (old := (mm_regions_ptr (ms_mgr s), _)) in Hb1. cbn in Hb1.
  destruct (region_count (ms_mgr s) =? 0); cbn [negb] in Hrun.
  - injection Hrun as <- <-. cbn. split; [by exists p, nc |]. split; [| by eapply regions_keep_live].
    rewrite Hmb by done. apply (backed_weaken [old]). eapply backed_perm; [| reflexivity | exact Hb1].
    cbn. apply Permutation_swap.
  - injection Hrun as <- <-. cbn. split; [by exists p, nc |].
    assert (backed (old :: (p, size) :: rest) L h1) as Hb2.
    { eapply backed_perm; [| reflexivity | exact Hb1]. apply Permutation_swap. }
    destruct (backed_free _ _ _ _ _ Hb2) as [Hb3 Hk3].
    split; [by rewrite Hmb |]. eapply regions_keep_trans; by eapply regions_keep_live.
Qed.

Lemma replace_at_perm l i r rs :
  l !! Z.to_nat i = Some r -> rs ++ l ≡ₚ r :: replace_at l i rs.
Proof.
  intros Hl. unfold replace_at. rewrite <- (take_drop_middle l (Z.to_nat i) r Hl) at 1.
  rewrite <- (Permutation_middle (take (Z.to_nat i) l)), <- Permutation_middle. constructor.
  by rewrite !app_assoc, (Permutation_app_comm rs (take (Z.to_nat i) l)).
Qed.

Lemma replace_region_spec i reps s ok s' :
  backed (manager_blocks (ms_mgr s)) (reps ++ mm_regions (ms_mgr s)) (ms_heap s) ->
  0 <= i < region_count (ms_mgr s) ->
  mm_replace_region i reps s = (ok, s') ->
  regions_keep (reps ++ mm_regions (ms_mgr s)) (ms_heap s) (ms_heap s') /\
  cache_safe (ms_mgr s) (ms_mgr s') /\
  if ok then mm_regions (ms_mgr s') = replace_at (mm_regions (ms_mgr s)) i reps
             /\ backed (manager_blocks (ms_mgr s')) (mm_regions (ms_mgr s')) (ms_heap s')
  else mm_regions (ms_mgr s') = mm_regions (ms_mgr s)
       /\ backed (manager_blocks (ms_mgr s')) (reps ++ mm_regions (ms_mgr s)) (ms_heap s').
Proof.
  intros Hb Hi Hrun. unfold mm_replace_region, st_bind, st_gets in Hrun.
  destruct (Z.leb_spec (region_count (ms_mgr s)) i); [lia |].
  destruct (mm_reserve_region_capacity _ s) as [ok1 s1] eqn:E1.
  destruct (reserve_region_spec _ _ _ _ _ Hb E1) as ((p & c & Hm1) & Hb1 & Hk1).
  destruct ok1; cbn in Hrun.
  2: { injection Hrun as <- <-. rewrite Hm1. split_and!; [done | split; [done | by right] | done |].
       by rewrite Hm1 in Hb1. }
  set (s2 := set_ms_mgr (set_mm_regions (replace_at (mm_regions (ms_mgr s1)) i reps) (ms_mgr s1)) s1) in Hrun.
  destruct (mm_release_region (region_at (ms_mgr s) i) s2) as [[] s3] eqn:E3.
  injection Hrun as <- <-.
  assert (mm_regions (ms_mgr s1) = mm_regions (ms_mgr s)) as HT by (by rewrite Hm1).
  assert (backed (manager_blocks (ms_mgr s2)) (region_at (ms_mgr s) i :: mm_regions (ms_mgr s2)) (ms_heap s2)) as Hb2.
  { eapply backed_perm; [| | exact Hb1]; [done |]. cbn. rewrite HT.
    apply replace_at_perm. by apply region_at_lookup. }
  destruct (release_region_spec _ _ _ _ _ Hb2 E3) as (Hm3 & Hb3 & Hk3).
  assert (mm_regions (ms_mgr s3) = replace_at (mm_regions (ms_mgr s)) i reps) as HR.
  { rewrite Hm3. cbn. by rewrite HT. }
  cbn. split_and!.
  - intros r a Hr Ha. unfold region_byte. rewrite Hk3. by apply Hk1.
  - split; [| by left]. rewrite Hm3. cbn. by rewrite Hm1.
  - done.
  - rewrite HR, <- Hm3 in *. cbn in Hb3. rewrite Hm3 in Hb3 |- *. cbn in Hb3 |- *.
    by rewrite HT in Hb3.
Qed.

End replace.

(** ** The table after a split *)

Definition view_of (h : HostHeap) (l : list MEMORY_REGION) (address : Z) : option guest_cell :=
  match find_linear l address with
  | Some r => Some (region_byte h r address, r_perms r, r_cpu_attrs r)
  | None => None
  end.

Lemma view_of_cons h r l a :
  view_of h (r :: l) a = if contains a r then Some (region_byte h r a, r_perms r, r_cpu_attrs r) else view_of h l a.
Proof. unfold view_of, find_linear. cbn. by destruct (contains a r). Qed.

Lemma view_of_app_none h l k a : (forall r, r ∈ l -> contains a r = false) -> view_of h (l ++ k) a = view_of h k a.
Proof.
  intros Hn. induction l as [| r l IH]; [done |]. cbn [app]. rewrite view_of_cons, Hn by left.
  apply IH. intros x Hx. apply Hn. by right.
Qed.

Lemma view_of_none h l a : (forall r, r ∈ l -> contains a r = false) -> view_of h l a = None.
Proof. intros Hn. rewrite <- (app_nil_r l). by rewrite view_of_app_none. Qed.

(** Regions whose bytes are kept give the same view. *)
Lemma view_of_keep h h' l a : regions_keep l h h' -> view_of h' l a = view_of h l a.
Proof.
  intros Hk. unfold view_of. destruct (find_linear l a) as [r |] eqn:E; [| done].
  apply find_linear_some in E as [Hr Ha]. by rewrite Hk.
Qed.

Definition region_within (orig r : MEMORY_REGION) : Prop :=
  region_ok r /\ r_base orig <= r_base r /\ r_base r + r_size r <= r_base orig + r_size orig.

Section split_table.
Context (l : list MEMORY_REGION) (n : nat) (orig : MEMORY_REGION).
Context (Hwf : table_wf l) (Hn : l !! n = Some orig).

Lemma around_apart r :
  r ∈ take n l ++ drop (S n) l ->
  r_base r + r_size r <= r_base orig \/ r_base orig + r_size orig <= r_base r.
Proof.
  intros Hr. apply elem_of_app in Hr as [Hr | Hr]; apply list_elem_of_lookup in Hr as [k Hk].
  - apply lookup_take_Some in Hk as [Hk ?]. left.
    by apply (sorted_lookup region_before l k n); [apply Hwf | ..].
  - rewrite lookup_drop in Hk. right.
    apply (sorted_lookup region_before l n (S n + k)); [apply Hwf | done | done | lia].
Qed.

Lemma take_before r : r ∈ take n l -> region_before r orig.
Proof.
  intros Hr. apply list_elem_of_lookup in Hr as [k Hk]. apply lookup_take_Some in Hk as [Hk ?].
  by apply (sorted_lookup region_before l k n); [apply Hwf | ..].
Qed.

Lemma drop_after r : r ∈ drop (S n) l -> region_before orig r.
Proof.
  intros Hr. apply list_elem_of_lookup in Hr as [k Hk]. rewrite lookup_drop in Hk.
  apply (sorted_lookup region_before l n (S n + k)); [apply Hwf | done | done | lia].
Qed.

Lemma replace_at_wf segs :
  StronglySorted region_before segs -> Forall (region_within orig) segs ->
  table_wf (replace_at l (Z.of_nat n) segs).
Proof.
  intros Hs Hin. rewrite Forall_forall in Hin. unfold replace_at. rewrite Nat2Z.id.
  pose proof Hwf as [Hok Hsort]. rewrite <- (take_drop_middle l n orig Hn) in Hsort.
  apply sorted_app in Hsort as (H1 & H2 & H12). apply StronglySorted_inv in H2 as [H2 H2'].
  split.
  - rewrite !Forall_app. split; [by apply Forall_take |]. split; [| by apply Forall_drop].
    rewrite Forall_forall. intros r Hr. apply (Hin r Hr).
  - apply sorted_app. split_and!; [done | |].
    + apply sorted_app. split_and!; [done | done |]. intros a b Ha Hb.
      apply Hin in Ha as (_ & _ & ?). apply drop_after in Hb. unfold region_before in *. lia.
    + intros a b Ha Hb. apply elem_of_app in Hb as [Hb | Hb].
      * apply Hin in Hb as (_ & ? & _). apply take_before in Ha. unfold region_before in *. lia.
      * apply H12; [done | by right].
Qed.

Lemma view_of_replace_at h segs a :
  Forall (region_within orig) segs ->
  view_of h (replace_at l (Z.of_nat n) segs) a = if contains a orig then view_of h segs a else view_of h l a.
Proof.
  intros Hin. rewrite Forall_forall in Hin. unfold replace_at. rewrite Nat2Z.id.
  pose proof (take_drop_middle l n orig Hn) as Hl.
  destruct (containsP a orig) as [Ha | Ha].
  - assert (forall r, r ∈ take n l ++ drop (S n) l -> contains a r = false) as Hno.
    { intros r Hr. pose proof (around_apart r Hr). destruct (containsP a r); [lia | done]. }
    rewrite view_of_app_none by (intros r Hr; apply Hno, elem_of_app; by left).
    assert (Hd : view_of h (drop (S n) l) a = None).
    { apply view_of_none. intros r Hr. apply Hno, elem_of_app. by right. }
    clear Hin. induction segs as [| s segs IH]; [done |]. cbn [app]. rewrite !view_of_cons.
    destruct (contains a s); [done | apply IH].
  - assert (forall r, r ∈ segs -> contains a r = false) as Hno.
    { intros r Hr. apply Hin in Hr as (_ & ? & ?). destruct (containsP a r); [lia | done]. }
    assert (contains a orig = false) as Hao by (destruct (containsP a orig); [lia | done]).
    rewrite <- Hl at 3. clear Hl. induction (take n l) as [| r k IH].
    + cbn [app]. rewrite view_of_cons, Hao. by apply view_of_app_none.
    + cbn [app]. rewrite !view_of_cons. destruct (contains a r); [done | apply IH].
Qed.

End split_table.

(** ** One step of the loop *)

Section split_segments.
Context (middle : middle_rule) (orig : MEMORY_REGION) (current chunk_end : Z).
Context (Hok : region_ok orig) (Hc : r_base orig <= current) (Hlt : current < chunk_end)
  (Hend : chunk_end <= r_base orig + r_size orig)
  (Hcp : current mod CPUEAXH_PAGE_SIZE = 0) (Hep : chunk_end mod CPUEAXH_PAGE_SIZE = 0).

Lemma split_requests_inside : Forall (request_inside orig) (split_requests middle orig current chunk_end).
Proof.
  destruct Hok as [? ? ? [Hpb Hps]]. unfold split_requests.
  rewrite region_end_ok by done. rewrite !Forall_app.
  split_and!.
  - destruct (Z.ltb_spec (r_base orig) current); constructor; [| done].
    rewrite wrap_small by (split; lia). cbn. split_and!; [lia | lia | lia | done | auto using paged_sub, paged_add].
  - destruct (middle _ _) as [[? ?] |]; constructor; [| done]. rewrite wrap_small by (split; lia).
    cbn. split_and!; [lia | lia | lia | done | auto using paged_sub, paged_add].
  - destruct (Z.ltb_spec chunk_end (r_base orig + r_size orig)); constructor; [| done].
    rewrite wrap_small by (split; lia). cbn. split_and!; [lia | lia | lia | done | auto using paged_sub, paged_add].
Qed.

Lemma segments_within h0 h reqs segs :
  Forall (request_inside orig) reqs -> Forall2 (segment_of h0 h orig) reqs segs -> Forall (region_within orig) segs.
Proof.
  intros Hr Hs. revert Hr. induction Hs as [| req seg reqs segs [Hsh _] Hs IH]; intros Hr; [done |].
  apply Forall_cons in Hr as [Hr Hrs]. constructor; [| by apply IH]. subst req. destruct Hr as (? & ? & ? & ? & ?).
  destruct Hok. split_and!; [constructor | ..]; lia.
Qed.

(** What a cell becomes: the rule applies inside the chunk. *)
Definition chunk_rule (a : Z) (cell : option guest_cell) : option guest_cell :=
  if in_range current (chunk_end - current) a then apply_rule middle cell else cell.

Lemma split_segments_spec h0 h segs :
  Forall2 (segment_of h0 h orig) (split_requests middle orig current chunk_end) segs ->
  StronglySorted region_before segs /\
  forall a, contains a orig = true ->
    view_of h segs a = chunk_rule a (Some (region_byte h0 orig a, r_perms orig, r_cpu_attrs orig)).
Proof.
  destruct Hok as [? ? ? _]. unfold split_requests. rewrite region_end_ok by done.
  rewrite !wrap_small by (split; lia).
  intros Hs. apply Forall2_app_inv_l in Hs as (s1 & s23 & Hs1 & Hs23 & ->).
  apply Forall2_app_inv_l in Hs23 as (s2 & s3 & Hs2 & Hs3 & ->).
  assert (H1 : (s1 = [] /\ r_base orig = current) \/ (exists s, s1 = [s] /\ r_base orig < current /\
    segment_of h0 h orig (r_base orig, current - r_base orig, r_perms orig, r_cpu_attrs orig) s)).
  { destruct (Z.ltb_spec (r_base orig) current); inversion Hs1 as [| ? s ? ? Hss Hnil]; subst.
    - right. exists s. inversion Hnil. done.
    - left. split; [done | lia]. }
  assert (H2 : (s2 = [] /\ middle (r_perms orig) (r_cpu_attrs orig) = None) \/
    (exists s p t, s2 = [s] /\ middle (r_perms orig) (r_cpu_attrs orig) = Some (p, t) /\
       segment_of h0 h orig (current, chunk_end - current, p, t) s)).
  { destruct (middle _ _) as [[p t] |]; inversion Hs2 as [| ? s ? ? Hss Hnil]; subst.
    - right. exists s, p, t. inversion Hnil. done.
    - by left. }
  assert (H3 : (s3 = [] /\ chunk_end = r_base orig + r_size orig) \/
    (exists s, s3 = [s] /\ chunk_end < r_base orig + r_size orig /\
       segment_of h0 h orig (chunk_end, r_base orig + r_size orig - chunk_end, r_perms orig, r_cpu_attrs orig) s)).
  { destruct (Z.ltb_spec chunk_end (r_base orig + r_size orig)); inversion Hs3 as [| ? s ? ? Hss Hnil]; subst.
    - right. exists s. inversion Hnil. done.
    - left. split; [done | lia]. }
  clear Hs1 Hs2 Hs3.
  assert (Hpiece : forall b z p t s l a, segment_of h0 h orig (b, z, p, t) s ->
    view_of h (s :: l) a = if in_range b z a then Some (region_byte h0 orig a, p, t) else view_of h l a).
  { intros b z p t s l a [Hsh Hby]. injection Hsh as -> -> -> ->. rewrite view_of_cons.
    fold (contains a s). destruct (contains a s) eqn:E; [by rewrite Hby | done]. }
  assert (Hshape : forall b z p t s, segment_of h0 h orig (b, z, p, t) s -> r_base s = b /\ r_size s = z).
  { intros b z p t s [Hsh _]. by injection Hsh as -> -> -> ->. }
  split.
  - destruct H1 as [[-> ?] | (x & -> & ? & Hx)], H2 as [[-> ?] | (y & p & t & -> & ? & Hy)],
      H3 as [[-> ?] | (z & -> & ? & Hz)]; cbn [app];
      try (apply Hshape in Hx as [? ?]); try (apply Hshape in Hy as [? ?]); try (apply Hshape in Hz as [? ?]);
      repeat constructor; unfold region_before; lia.
  - intros a Ha. destruct (containsP a orig) as [Hr |]; [| done]. clear Ha. unfold chunk_rule, apply_rule.
    destruct H1 as [[-> ?] | (x & -> & ? & Hx)], H2 as [[-> Hm] | (y & p & t & -> & Hm & Hy)],
      H3 as [[-> ?] | (z & -> & ? & Hz)]; cbn [app]; rewrite Hm;
      rewrite ?(Hpiece _ _ _ _ _ _ _ Hx), ?(Hpiece _ _ _ _ _ _ _ Hy), ?(Hpiece _ _ _ _ _ _ _ Hz);
      repeat match goal with |- context [in_range ?b ?z a] => destruct (in_rangeP b z a) end;
      try done; lia.
Qed.

End split_segments.

(** ** The loop *)

Lemma guest_view_of s a : guest_view s a = view_of (ms_heap s) (mm_regions (ms_mgr s)) a.
Proof. done. Qed.

Lemma regions_past_app l k c : regions_past (l ++ k) c = (regions_past l c + regions_past k c)%nat.
Proof. unfold regions_past. by rewrite List.filter_app, length_app. Qed.

Lemma regions_past_zero l c : Forall (fun r => r_base r + r_size r <= c) l -> regions_past l c = 0%nat.
Proof.
  unfold regions_past. induction 1 as [| r l Hr Hl IH]; [done |]. cbn.
  destruct (Z.ltb_spec c (r_base r + r_size r)); [lia | done].
Qed.

(** The measure of the loop: the regions that end after [current]. *)
Lemma regions_past_replace l n orig segs current :
  l !! n = Some orig -> current < r_base orig + r_size orig -> Forall (region_within orig) segs ->
  (regions_past (replace_at l (Z.of_nat n) segs) (r_base orig + r_size orig) < regions_past l current)%nat.
Proof.
  intros Hn Hc Hs. set (e := r_base orig + r_size orig) in *.
  rewrite <- (take_drop_middle l n orig Hn) at 2. unfold replace_at. rewrite Nat2Z.id, !regions_past_app.
  rewrite (regions_past_zero segs) by (eapply Forall_impl; [exact Hs |]; intros r (_ & _ & ?); done).
  pose proof (regions_past_mono (take n l) current e ltac:(lia)).
  pose proof (regions_past_mono (drop (S n) l) current e ltac:(lia)).
  unfold regions_past at 4. cbn. fold e. destruct (Z.ltb_spec current e); [cbn | lia].
  unfold regions_past in *. lia.
Qed.

Section loop.
Context `{HostAllocLaws} (middle : middle_rule).

Definition chunk_end_of (original : MEMORY_REGION) (end_ : Z) : Z :=
  if region_end original <? end_ then region_end original else end_.

(** One iteration: the segments are built and the region is replaced, or nothing changes in the guest. *)
Lemma split_step_spec s current end_ i built s1 :
  mem_wf s -> 0 <= current < end_ -> end_ < 2 ^ 64 ->
  current mod CPUEAXH_PAGE_SIZE = 0 -> end_ mod CPUEAXH_PAGE_SIZE = 0 ->
  mm_find_region_index (ms_mgr s) current = Some i ->
  let original := region_at (ms_mgr s) i in
  let chunk_end := chunk_end_of original end_ in
  build_segments original (split_requests middle original current chunk_end) [] s = (built, s1) ->
  (current < chunk_end <= end_ /\ chunk_end mod CPUEAXH_PAGE_SIZE = 0) /\
  match built with
  | None => mem_wf s1 /\ ms_mgr s1 = ms_mgr s /\ forall a, guest_view s1 a = guest_view s a
  | Some reps =>
      forall ok s2, mm_replace_region i reps s1 = (ok, s2) ->
      cache_safe (ms_mgr s) (ms_mgr s2) /\
      if ok then
        mem_wf s2 /\
        (forall a, guest_view s2 a = chunk_rule middle current chunk_end a (guest_view s a)) /\
        (chunk_end = end_ \/
         (regions_past (mm_regions (ms_mgr s2)) chunk_end < regions_past (mm_regions (ms_mgr s)) current)%nat)
      else
        forall s3, release_all reps s2 = (tt, s3) ->
        mem_wf s3 /\ cache_safe (ms_mgr s) (ms_mgr s3) /\ forall a, guest_view s3 a = guest_view s a
  end.
Proof.
  intros [Hwf Hb] Hcur Hend Hcp Hep Hfind original chunk_end Hbuild.
  pose proof (mm_find_region_index_linear (ms_mgr s) current Hwf) as Hidx. rewrite Hfind in Hidx.
  destruct Hidx as (Hi & Hlin & Hcon). fold original in Hlin, Hcon.
  pose proof (region_at_lookup _ _ Hi) as Hn. fold original in Hn.
  pose proof (region_at_ok _ Hwf i Hi) as Hok. fold original in Hok.
  destruct (containsP current original) as [Hr |]; [| done]. clear Hcon.
  assert (chunk_end = Z.min (r_base original + r_size original) end_) as Hce.
  { unfold chunk_end, chunk_end_of. rewrite region_end_ok by done.
    destruct (Z.ltb_spec (r_base original + r_size original) end_); lia. }
  assert (Hin : original ∈ mm_regions (ms_mgr s)) by by eapply list_elem_of_lookup_2.
  assert (chunk_end mod CPUEAXH_PAGE_SIZE = 0) as Hchp.
  { rewrite Hce. destruct (ro_pages _ Hok) as [? ?]. 
    destruct (Z.min_spec (r_base original + r_size original) end_) as [[_ ->] | [_ ->]]; auto using paged_add. }
  split; [split; [lia | done] |].
  pose proof (split_requests_inside middle original current chunk_end Hok ltac:(lia) ltac:(lia) ltac:(lia) Hcp Hchp) as Hreq.
  destruct (build_segments_spec (manager_blocks (ms_mgr s)) (mm_regions (ms_mgr s)) original _ s
              [] [] s built s1 Hb Hin Hok Hreq eq_refl (regions_keep_refl _ _) ltac:(constructor) Hbuild)
    as (Hm1 & Hk1 & Hres).
  destruct built as [reps |].
  2: { split_and!; [split; rewrite Hm1; done | done |]. intros a.
       rewrite !guest_view_of, Hm1. by apply view_of_keep. }
  destruct Hres as [Hb1 Hseg]. cbn [app] in Hseg. intros ok s2 Hrep.
  rewrite <- Hm1 in Hb1 at 1. rewrite <- Hm1 in Hb1, Hi.
  destruct (replace_region_spec i reps s1 ok s2 Hb1 Hi Hrep) as (Hk2 & Hcs & Hres2). rewrite Hm1 in *.
  split; [done |].
  destruct ok.
  - destruct Hres2 as [HT Hb2].
    pose proof (segments_within original Hok _ _ _ _ Hreq Hseg) as Hwithin.
    destruct (split_segments_spec middle original current chunk_end Hok ltac:(lia) ltac:(lia) ltac:(lia)
                (ms_heap s) (ms_heap s1) reps Hseg) as [Hsorted Hview].
    rewrite <- (Z2Nat.id i) in HT by lia.
    split_and!.
    + split; [| done]. rewrite HT. by apply (replace_at_wf _ _ original).
    + intros a. rewrite !guest_view_of, HT.
      rewrite (view_of_keep (ms_heap s1)).
      2: { rewrite <- HT. eapply regions_keep_sub; [| exact Hk2]. rewrite HT. unfold replace_at.
           intros r. rewrite Nat2Z.id, !elem_of_app. intros [Hr' | [Hr' | Hr']]; [right | by left | right].
           - apply list_elem_of_lookup in Hr' as [k Hk]. apply lookup_take_Some in Hk as [Hk _].
             by eapply list_elem_of_lookup_2.
           - apply list_elem_of_lookup in Hr' as [k Hk]. rewrite lookup_drop in Hk.
             by eapply list_elem_of_lookup_2. }
      rewrite (view_of_replace_at _ _ original) by done.
      destruct (contains a original) eqn:Ha.
      * rewrite Hview by done. f_equal. unfold view_of.
        rewrite <- mm_find_region_linear by done. unfold mm_find_region.
        rewrite (mm_find_region_index_unique _ Hwf a i) by done. done.
      * rewrite (view_of_keep _ _ _ a Hk1). unfold chunk_rule.
        destruct (containsP a original), (in_rangeP current (chunk_end - current) a); try done; lia.
    + destruct (Z.le_gt_cases end_ (r_base original + r_size original)); [left; lia | right].
      rewrite HT, Hce, Z.min_l by lia. apply regions_past_replace; [done | lia | done].
  - destruct Hres2 as [HT Hb2]. intros s3 Hrel.
    rewrite <- HT in Hb2. destruct (release_all_spec _ _ _ _ _ Hb2 Hrel) as (Hm3 & Hb3 & Hk3).
    split_and!; [split | | ].
    + by rewrite Hm3, HT.
    + by rewrite Hm3.
    + by rewrite Hm3.
    + intros a. rewrite !guest_view_of, Hm3, HT. rewrite (view_of_keep (ms_heap s2)).
      * rewrite (view_of_keep (ms_heap s1)); [by apply view_of_keep |].
        eapply regions_keep_sub; [| exact Hk2]. intros r ?. apply elem_of_app. by right.
      * intros r b ? ?. unfold region_byte. by rewrite Hk3.
Qed.

Lemma chunk_rule_compose a current chunk_end stop cell :
  current <= chunk_end <= stop ->
  chunk_rule middle chunk_end stop a (chunk_rule middle current chunk_end a cell)
  = chunk_rule middle current stop a cell.
Proof.
  intros. unfold chunk_rule. repeat match goal with |- context [in_range ?b ?z a] => destruct (in_rangeP b z a) end;
    done || lia.
Qed.

Lemma chunk_rule_empty a current cell : chunk_rule middle current current a cell = cell.
Proof. unfold chunk_rule. destruct (in_rangeP current (current - current) a); [lia | done]. Qed.

Lemma split_loop_spec fuel current end_ s ok s' :
  mem_wf s -> 0 <= current <= end_ -> end_ < 2 ^ 64 ->
  current mod CPUEAXH_PAGE_SIZE = 0 -> end_ mod CPUEAXH_PAGE_SIZE = 0 ->
  split_loop fuel middle current end_ s = (ok, s') ->
  mem_wf s' /\ cache_safe (ms_mgr s) (ms_mgr s') /\
  exists stop, current <= stop <= end_ /\ (ok = true -> stop = end_) /\
    forall a, guest_view s' a = chunk_rule middle current stop a (guest_view s a).
Proof.
  revert current s. induction fuel as [| fuel IH]; intros current s Hwf Hcur Hend Hcp Hep Hrun;
    cbn [split_loop] in Hrun.
  { injection Hrun as <- <-. split_and!; [done | apply cache_safe_refl |]. exists current.
    split_and!; [lia | lia | done |]. intros a. by rewrite chunk_rule_empty. }
  destruct (Z.ltb_spec current end_).
  2: { injection Hrun as <- <-. split_and!; [done | apply cache_safe_refl |]. exists current.
       split_and!; [lia | lia | lia |]. intros a. by rewrite chunk_rule_empty. }
  unfold st_bind, st_gets in Hrun.
  destruct (mm_find_region_index (ms_mgr s) current) as [i |] eqn:Hfind.
  2: { injection Hrun as <- <-. split_and!; [done | apply cache_safe_refl |]. exists current.
       split_and!; [lia | lia | done |]. intros a. by rewrite chunk_rule_empty. }
  cbv zeta in Hrun. fold (chunk_end_of (region_at (ms_mgr s) i) end_) in Hrun.
  destruct (build_segments _ _ [] s) as [built s1] eqn:Hbuild.
  destruct (split_step_spec s current end_ i built s1 Hwf ltac:(lia) Hend Hcp Hep Hfind Hbuild) as [[Hce Hchp] Hstep].
  destruct built as [reps |].
  2: { injection Hrun as <- <-. destruct Hstep as (? & Hm & Hv). split_and!; [done | |].
       { rewrite Hm. apply cache_safe_refl. }
       exists current. split_and!; [lia | lia | done |]. intros a. by rewrite chunk_rule_empty. }
  destruct (mm_replace_region i reps s1) as [ok2 s2] eqn:Hrep.
  specialize (Hstep ok2 s2 eq_refl) as [Hcs2 Hstep].
  destruct ok2.
  - destruct Hstep as (Hwf2 & Hv2 & _).
    destruct (IH (chunk_end_of (region_at (ms_mgr s) i) end_) s2 Hwf2 ltac:(lia) Hend Hchp Hep Hrun) as (Hwf' & Hcs' & stop & Hstop & Hdone & Hv').
    split_and!; [done | by eapply cache_safe_trans |]. exists stop. split_and!; [lia | lia | done |].
    intros a. rewrite Hv', Hv2. apply chunk_rule_compose. lia.
  - destruct (release_all reps s2) as [[] s3] eqn:Hrel. injection Hrun as <- <-.
    destruct (Hstep s3 eq_refl) as (Hwf3 & Hcs3 & Hv3).
    split_and!; [done.. |]. exists current. split_and!; [lia | lia | done |].
    intros a. by rewrite chunk_rule_empty.
Qed.

(** The loop never runs out of fuel: more fuel gives the same run. *)
Lemma split_loop_fuel fuel fuel' current end_ s :
  mem_wf s -> 0 <= current <= end_ -> end_ < 2 ^ 64 ->
  current mod CPUEAXH_PAGE_SIZE = 0 -> end_ mod CPUEAXH_PAGE_SIZE = 0 ->
  (regions_past (mm_regions (ms_mgr s)) current < fuel)%nat ->
  (regions_past (mm_regions (ms_mgr s)) current < fuel')%nat ->
  split_loop fuel middle current end_ s = split_loop fuel' middle current end_ s.
Proof.
  revert fuel' current s. induction fuel as [| fuel IH]; intros [| fuel'] current s Hwf Hcur Hend Hcp Hep Hf Hf'; [lia.. |].
  cbn [split_loop]. destruct (Z.ltb_spec current end_); [| done].
  unfold st_bind, st_gets. destruct (mm_find_region_index (ms_mgr s) current) as [i |] eqn:Hfind; [| done].
  cbv zeta. fold (chunk_end_of (region_at (ms_mgr s) i) end_).
  destruct (build_segments _ _ [] s) as [built s1] eqn:Hbuild.
  destruct (split_step_spec s current end_ i built s1 Hwf ltac:(lia) Hend Hcp Hep Hfind Hbuild) as [[Hce Hchp] Hstep].
  destruct built as [reps |]; [| done].
  destruct (mm_replace_region i reps s1) as [ok2 s2] eqn:Hrep.
  specialize (Hstep ok2 s2 eq_refl) as [_ Hstep]. destruct ok2; [| done].
  destruct Hstep as (Hwf2 & _ & Hdec).
  assert (0 < regions_past (mm_regions (ms_mgr s)) current)%nat as Hpos.
  { pose proof (mm_find_region_index_linear _ current (mw_table _ Hwf)) as Hl. rewrite Hfind in Hl.
    destruct Hl as (Hi & _ & Hc). destruct (containsP current (region_at (ms_mgr s) i)); [| done].
    pose proof (regions_past_dec (mm_regions (ms_mgr s)) current
      (r_base (region_at (ms_mgr s) i) + r_size (region_at (ms_mgr s) i)) (region_at (ms_mgr s) i)
      ltac:(by eapply list_elem_of_lookup_2, region_at_lookup) ltac:(lia) ltac:(lia)). lia. }
  destruct Hdec as [Hdec | Hdec].
  - rewrite Hdec. destruct fuel, fuel'; [lia.. |]. cbn [split_loop].
    destruct (Z.ltb_spec end_ end_); [lia | done].
  - apply IH; [done | lia | done | done | done | lia | lia].
Qed.

End loop.

(** ** Mapping *)

Lemma view_of_insert h l k r a :
  (forall x, x ∈ l -> contains a r = true -> contains a x = false) ->
  view_of h (insert_at l k r) a
  = if contains a r then Some (region_byte h r a, r_perms r, r_cpu_attrs r) else view_of h l a.
Proof.
  intros Hno. unfold insert_at. rewrite <- (take_drop (Z.to_nat k) l) at 3.
  assert (forall x, x ∈ take (Z.to_nat k) l -> contains a r = true -> contains a x = false) as Ht.
  { intros x Hx. apply Hno. rewrite <- (take_drop (Z.to_nat k) l). apply elem_of_app. by left. }
  clear Hno. induction (take (Z.to_nat k) l) as [| x t IH]; cbn [app].
  - by rewrite view_of_cons.
  - rewrite !view_of_cons, IH by (intros y Hy; apply Ht; by right).
    specialize (Ht x ltac:(left)). destruct (contains a r), (contains a x); auto. by discriminate Ht.
Qed.

Lemma no_overlap_apart l r a :
  existsb (overlaps (r_base r) (r_size r)) l = false ->
  forall x, x ∈ l -> contains a r = true -> contains a x = false.
Proof.
  intros Hov x Hx Ha. destruct (containsP a x), (containsP a r); try done.
  assert (existsb (overlaps (r_base r) (r_size r)) l = true) as Hov'; [| congruence].
  apply existsb_exists. exists x. split; [by apply list_elem_of_In |].
  destruct (overlapsP (r_base r) (r_size r) x); [done | lia].
Qed.

Section mapping.
Context `{HostAllocLaws}.

Lemma insert_region_spec k r s ok s' :
  backed (manager_blocks (ms_mgr s)) (r :: mm_regions (ms_mgr s)) (ms_heap s) ->
  mm_insert_region k r s = (ok, s') ->
  regions_keep (r :: mm_regions (ms_mgr s)) (ms_heap s) (ms_heap s') /\
  frame_part (ms_mgr s') = frame_part (ms_mgr s) /\ mm_page_cache (ms_mgr s') = mm_page_cache (ms_mgr s) /\
  (if ok then mm_regions (ms_mgr s') = insert_at (mm_regions (ms_mgr s)) k r
   else mm_regions (ms_mgr s') = mm_regions (ms_mgr s)) /\
  backed (manager_blocks (ms_mgr s')) (r :: mm_regions (ms_mgr s)) (ms_heap s').
Proof.
  intros Hb Hrun. unfold mm_insert_region, st_bind, st_gets in Hrun.
  destruct (mm_reserve_region_capacity _ s) as [ok1 s1] eqn:E1.
  destruct (reserve_region_spec _ _ _ _ _ Hb E1) as ((p & c & Hm1) & Hb1 & Hk1).
  destruct ok1; injection Hrun as <- <-; cbn; rewrite ?Hm1 in *; by split_and!.
Qed.

Lemma insert_at_perm l k r : insert_at l k r ≡ₚ r :: l.
Proof. unfold insert_at. rewrite <- Permutation_middle. by rewrite take_drop. Qed.

(** Inserting a region that overlaps nothing. *)
Lemma insert_region_view r s ok s' :
  table_wf (mm_regions (ms_mgr s)) ->
  backed (manager_blocks (ms_mgr s)) (r :: mm_regions (ms_mgr s)) (ms_heap s) ->
  region_ok r -> mm_has_overlap (ms_mgr s) (r_base r) (r_size r) = false ->
  mm_insert_region (mm_find_insertion_index (ms_mgr s) (r_base r)) r s = (ok, s') ->
  frame_part (ms_mgr s') = frame_part (ms_mgr s) /\
  if ok then
    mem_wf s' /\
    (forall a, guest_view s' a = if contains a r then Some (region_byte (ms_heap s) r a, r_perms r, r_cpu_attrs r)
                                 else guest_view s a) /\
    (forall a, contains a r = true -> guest_view s a = None)
  else
    mm_page_cache (ms_mgr s') = mm_page_cache (ms_mgr s) /\ mm_regions (ms_mgr s') = mm_regions (ms_mgr s) /\
    backed (manager_blocks (ms_mgr s')) (r :: mm_regions (ms_mgr s)) (ms_heap s') /\
    (forall a, guest_view s' a = guest_view s a).
Proof.
  intros Hwf Hb Hok Hov Hrun. pose proof Hok as [? ? ? _].
  rewrite mm_has_overlap_exists in Hov by done.
  destruct (insert_region_spec _ _ _ _ _ Hb Hrun) as (Hk & Hf & Hc & HT & Hb').
  split; [done |]. destruct ok.
  - split_and!.
    + split; rewrite HT; [by apply insert_at_wf |].
      eapply backed_perm; [done | | exact Hb']. symmetry. apply insert_at_perm.
    + intros a. rewrite !guest_view_of, HT, view_of_insert by (by apply no_overlap_apart).
      destruct (contains a r) eqn:Ha.
      * rewrite Hk by (done || left). done.
      * apply view_of_keep. eapply regions_keep_sub; [| exact Hk]. intros x ?. by right.
    + intros a Ha. rewrite guest_view_of. apply view_of_none. intros x Hx.
      by eapply no_overlap_apart.
  - split_and!; [done.. |]. intros a. rewrite !guest_view_of, HT.
    apply view_of_keep. eapply regions_keep_sub; [| exact Hk]. intros x ?. by right.
Qed.

Lemma invalidate_wf m h : mem_wf (mkMem m h) -> mem_wf (mkMem (mm_invalidate_cache m) h).
Proof. by intros [? ?]. Qed.

Lemma mm_map_internal_ok address size perms s ok s' :
  mem_wf s -> 0 <= address -> 0 <= size -> address + size < 2 ^ 64 ->
  mm_map_internal address size perms s = (ok, s') ->
  mem_wf s' /\ frame_part (ms_mgr s') = frame_part (ms_mgr s) /\
  if ok then
    mm_page_cache (ms_mgr s') = empty_cache /\
    (forall a, in_range address size a = true -> guest_view s a = None) /\
    (forall a, guest_view s' a = if in_range address size a then Some (0, perms, MM_CPU_ATTR_USER) else guest_view s a)
  else
    mm_page_cache (ms_mgr s') = mm_page_cache (ms_mgr s) /\ mm_regions (ms_mgr s') = mm_regions (ms_mgr s) /\
    (forall a, guest_view s' a = guest_view s a).
Proof.
  intros Hs Ha Hsz He Hrun. pose proof Hs as [Hwf Hb]. unfold mm_map_internal, st_bind, st_gets in Hrun.
  destruct (_ || _) eqn:Hargs in Hrun; [by injection Hrun as <- <- |].
  destruct (_ || _) eqn:Hov in Hrun; [by injection Hrun as <- <- |].
  rewrite !orb_false_iff in Hargs. destruct Hargs as [[[Hsize Hpa] Hps] _].
  apply Z.eqb_neq in Hsize. apply negb_false_iff, page_aligned_mod in Hpa, Hps.
  apply orb_false_iff in Hov as [_ Hov].
  unfold on_heap, st_zoom in Hrun. destruct (host_alloc_zeroed size (ms_heap s)) as [data h1] eqn:Halloc.
  destruct (Z.eqb_spec data NULL) as [-> | Hnn].
  { apply host_alloc_zeroed_fail in Halloc; [| apply Hb | done]. subst h1. injection Hrun as <- <-. by destruct s. }
  set (r := mkRegion address size data perms MM_CPU_ATTR_USER false) in *.
  set (s1 := set_ms_heap h1 s) in *.
  assert (region_ok r) as Hok by (split; cbn; try lia; done).
  destruct (backed_alloc _ _ _ size data h1 r Hb Hsz Halloc Hnn eq_refl eq_refl eq_refl) as [Hb1 Hk1].
  assert (Hz : forall a, data <= a < data + size -> hh_bytes h1 a = 0).
  { by apply (host_alloc_zeroed_ok size (ms_heap s) data h1 (ow_heap _ _ (bk_owns _ _ _ Hb)) Hsz Halloc Hnn). }
  assert (Hv1 : forall a, guest_view s1 a = guest_view s a).
  { intros a. rewrite !guest_view_of. apply view_of_keep. by eapply regions_keep_live. }
  destruct (mm_insert_region _ r s1) as [ok2 s2] eqn:Hins.
  destruct (insert_region_view r s1 ok2 s2 Hwf Hb1 Hok Hov Hins) as (Hf & Hres).
  destruct ok2.
  - injection Hrun as <- <-. destruct Hres as (Hwf2 & Hv2 & Hnone). destruct s2 as [m2 h2].
    split_and!; [by apply invalidate_wf | done | done | |].
    + intros a Hin. rewrite <- Hv1. by apply Hnone.
    + intros a. transitivity (guest_view (mkMem m2 h2) a); [done |]. rewrite Hv2, Hv1.
      change (contains a r) with (in_range address size a).
      destruct (in_rangeP address size a); [| done]. unfold region_byte. cbn. by rewrite Hz by lia.
  - destruct Hres as (Hc2 & HT2 & Hb2 & Hv2).
    destruct (mm_release_region r s2) as [[] s3] eqn:Hrel. injection Hrun as <- <-.
    destruct (release_region_spec _ _ _ _ _ Hb2 Hrel) as (Hm3 & Hb3 & Hk3).
    split_and!; [split; rewrite Hm3, HT2; done | by rewrite Hm3 | by rewrite Hm3 | by rewrite Hm3 |].
    intros a. rewrite <- Hv1, <- Hv2, !guest_view_of, Hm3. apply view_of_keep.
    intros x b ? ?. unfold region_byte. by rewrite Hk3.
Qed.

Lemma mm_map_host_ok address size perms host_ptr s ok s' :
  mem_wf s -> 0 <= address -> 0 <= size -> address + size < 2 ^ 64 ->
  client_range (manager_blocks (ms_mgr s) ++ region_blocks (mm_regions (ms_mgr s))) (ms_heap s) host_ptr size ->
  mm_map_host address size perms host_ptr s = (ok, s') ->
  mem_wf s' /\ frame_part (ms_mgr s') = frame_part (ms_mgr s) /\
  if ok then
    mm_page_cache (ms_mgr s') = empty_cache /\
    (forall a, in_range address size a = true -> guest_view s a = None) /\
    (forall a, guest_view s' a =
       if in_range address size a then Some (hh_bytes (ms_heap s) (host_ptr + (a - address)), perms, MM_CPU_ATTR_USER)
       else guest_view s a)
  else
    mm_page_cache (ms_mgr s') = mm_page_cache (ms_mgr s) /\ mm_regions (ms_mgr s') = mm_regions (ms_mgr s) /\
    (forall a, guest_view s' a = guest_view s a).
Proof.
  intros Hs Ha Hsz He Hcl Hrun. pose proof Hs as [Hwf Hb]. unfold mm_map_host, st_bind, st_gets in Hrun.
  destruct (_ || _) eqn:Hargs in Hrun; [by injection Hrun as <- <- |].
  destruct (_ || _) eqn:Hov in Hrun; [by injection Hrun as <- <- |].
  rewrite !orb_false_iff in Hargs. destruct Hargs as [[[[Hsize _] Hpa] Hps] _].
  apply Z.eqb_neq in Hsize. apply negb_false_iff, page_aligned_mod in Hpa, Hps.
  apply orb_false_iff in Hov as [_ Hov].
  set (r := mkRegion address size host_ptr perms MM_CPU_ATTR_USER true) in *.
  assert (region_ok r) as Hok by (split; cbn; try lia; done).
  assert (backed (manager_blocks (ms_mgr s)) (r :: mm_regions (ms_mgr s)) (ms_heap s)) as Hb1.
  { destruct Hb as [Ho Hc]. split; [done |]. intros x Hx Hxe.
    apply elem_of_cons in Hx as [-> | Hx]; [done | by apply Hc]. }
  destruct (mm_insert_region _ r s) as [ok2 s2] eqn:Hins.
  destruct (insert_region_view r s ok2 s2 Hwf Hb1 Hok Hov Hins) as (Hf & Hres).
  destruct ok2; injection Hrun as <- <-.
  - destruct Hres as (Hwf2 & Hv2 & Hnone). destruct s2 as [m2 h2].
    split_and!; [by apply invalidate_wf | done | done | done | exact Hv2].
  - destruct Hres as (Hc2 & HT2 & Hb2 & Hv2). split_and!; [| done..].
    split; rewrite HT2; [done |]. destruct Hb2 as [Ho Hc]. split; [done |].
    intros x Hx. apply Hc. by right.
Qed.

End mapping.

(** ** Destruction *)

(** Exactly the blocks of [own] were freed, each once: the record of releases grew by one release of
    a live block for each of them. *)
Definition freed (own : blocks) (h h' : HostHeap) : Prop :=
  (forall a, hh_bytes h' a = hh_bytes h a) /\
  (forall p, hh_blocks h' !! p = if decide (p ∈ map fst own) then None else hh_blocks h !! p) /\
  hh_frees h' ≡ₚ map (fun b => (fst b, true)) own ++ hh_frees h.

Lemma freed_nil h : freed [] h h.
Proof. by split_and!. Qed.

Lemma freed_app own1 own2 h h1 h2 : freed own1 h h1 -> freed own2 h1 h2 -> freed (own1 ++ own2) h h2.
Proof.
  intros (Hb1 & H1 & Hf1) (Hb2 & H2 & Hf2). split_and!; [congruence | |].
  - intros p. rewrite H2, H1, map_app.
    destruct (decide (p ∈ map fst own1)), (decide (p ∈ map fst own2)), (decide _) as [Hd | Hd];
      rewrite elem_of_app in Hd; tauto.
  - rewrite Hf2, Hf1, map_app, !app_assoc. by rewrite (Permutation_app_comm (map _ own2)).
Qed.

Lemma freed_perm own own' h h' : own ≡ₚ own' -> freed own h h' -> freed own' h h'.
Proof.
  intros Hp (Hb & Hd & Hf). split_and!; [done | |].
  - intros p. rewrite Hd. apply decide_ext. by rewrite Hp.
  - by rewrite Hf, Hp.
Qed.

(** Releasing the first owned block. *)
Lemma freed_one p n O h :
  owns ((p, n) :: O) h -> freed [(p, n)] h (final (host_free p) h) /\ owns O (final (host_free p) h).
Proof.
  intros Ho. split; [| by apply (owns_free p n O h)].
  rewrite (host_free_live p n h (ow_heap _ _ Ho)) by (apply (ow_live _ _ Ho); left).
  split_and!; [done | | done]. intros q. cbn. destruct (decide _) as [Hq | Hq].
  - apply list_elem_of_singleton in Hq as ->. apply lookup_delete_eq.
  - apply lookup_delete_ne. intros <-. by apply Hq, list_elem_of_singleton.
Qed.

Lemma release_all_freed rs O s s' :
  owns (region_blocks rs ++ O) (ms_heap s) -> release_all rs s = (tt, s') ->
  freed (region_blocks rs) (ms_heap s) (ms_heap s') /\ owns O (ms_heap s').
Proof.
  revert s. induction rs as [| r rs IH]; intros s Ho Hrun; cbn in Hrun.
  { injection Hrun as <-. by split; [apply freed_nil |]. }
  unfold st_bind in Hrun. destruct (mm_release_region r s) as [[] s1] eqn:E1.
  rewrite region_blocks_cons in Ho |- *. rewrite <- app_assoc in Ho.
  unfold mm_release_region, internal in *. destruct (r_external r); cbn [negb andb app] in *.
  - injection E1 as <-. by apply IH.
  - destruct (freed_one _ _ _ _ Ho) as [Hf1 Ho1].
    pose proof (owned_nonnull _ _ _ _ Ho ltac:(left)) as Hn.
    destruct (Z.eqb_spec (r_data r) NULL) as [Hd |]; [done |]. cbn [negb] in E1. rewrite on_heap_free in E1. injection E1 as <-.
    destruct (IH (mkMem (ms_mgr s) _) Ho1 Hrun) as [Hf Hr]. split; [| done]. exact (freed_app [_] _ _ _ _ Hf1 Hf).
Qed.

Lemma free_nonnull_freed p n O s s' :
  owns (array_block p n ++ O) (ms_heap s) -> free_nonnull p s = (tt, s') ->
  freed (array_block p n) (ms_heap s) (ms_heap s') /\ owns O (ms_heap s').
Proof.
  unfold free_nonnull, array_block. destruct (Z.eqb_spec p NULL) as [-> |]; cbn [negb]; intros Ho.
  - intros [= <-]. by split; [apply freed_nil |].
  - rewrite on_heap_free. intros [= <-]. by apply freed_one.
Qed.

Lemma release_patches_freed ps O s s' :
  owns (map (fun p => (p_data p, p_size p)) ps ++ O) (ms_heap s) -> release_patches ps s = (tt, s') ->
  freed (map (fun p => (p_data p, p_size p)) ps) (ms_heap s) (ms_heap s') /\ owns O (ms_heap s').
Proof.
  revert s. induction ps as [| p ps IH]; intros s Ho Hrun; cbn [release_patches] in Hrun.
  { injection Hrun as <-. by split; [apply freed_nil |]. }
  unfold st_bind in Hrun. destruct (free_nonnull (p_data p) s) as [[] s1] eqn:E1.
  pose proof (owned_nonnull _ _ _ _ Ho ltac:(left)) as Hn.
  destruct (free_nonnull_freed (p_data p) (p_size p) (map (fun p => (p_data p, p_size p)) ps ++ O) s s1) as [Hf1 Ho1]; [| done |].
  { unfold array_block. by destruct (Z.eqb_spec (p_data p) NULL). }
  destruct (IH s1 Ho1 Hrun) as [Hf Hr]. split; [| done].
  unfold array_block in Hf1. destruct (Z.eqb_spec (p_data p) NULL); [done |]. exact (freed_app [_] _ _ _ _ Hf1 Hf).
Qed.

Lemma mm_destroy_freed s :
  owns (manager_blocks (ms_mgr s) ++ region_blocks (mm_regions (ms_mgr s))) (ms_heap s) ->
  ms_mgr (final mm_destroy s) = zero_manager /\
  freed (manager_blocks (ms_mgr s) ++ region_blocks (mm_regions (ms_mgr s))) (ms_heap s) (ms_heap (final mm_destroy s)) /\
  owns [] (ms_heap (final mm_destroy s)).
Proof.
  unfold manager_blocks. set (A := array_block (mm_regions_ptr _) _). set (B := array_block (mm_patches_ptr _) _).
  set (P := map _ (mm_patches _)). set (R := region_blocks _). intros Ho.
  assert (Hp : (A ++ B ++ P) ++ R ≡ₚ R ++ P ++ A ++ B ++ []) by (rewrite app_nil_r; clear; solve_Permutation).
  apply (owns_perm _ _ _ Hp) in Ho.
  unfold final, mm_destroy, st_bind, st_gets.
  destruct (release_all _ s) as [[] s1] eqn:E1. destruct (release_all_freed _ _ _ _ Ho E1) as [F1 O1].
  destruct (release_patches _ s1) as [[] s2] eqn:E2. destruct (release_patches_freed _ _ _ _ O1 E2) as [F2 O2].
  destruct (free_nonnull (mm_regions_ptr (ms_mgr s)) s2) as [[] s3] eqn:E3.
  destruct (free_nonnull_freed _ _ _ _ _ O2 E3) as [F3 O3].
  destruct (free_nonnull (mm_patches_ptr (ms_mgr s)) s3) as [[] s4] eqn:E4.
  destruct (free_nonnull_freed _ _ _ _ _ O3 E4) as [F4 O4].
  split_and!; [done | | exact O4]. symmetry in Hp. apply (freed_perm _ _ _ _ Hp). rewrite app_nil_r. cbn.
  eapply freed_app; [done |]. eapply freed_app; [done |]. by eapply freed_app.
Qed.

(** ** The three range operations *)

Section range_ops.
Context `{HostAllocLaws}.

(** The guest after a range operation that got as far as [stop]. *)
Definition range_done (middle : middle_rule) (address size : Z) (s : MemState) (res : bool * MemState) : Prop :=
  mem_wf (snd res) /\ cache_safe (ms_mgr s) (ms_mgr (snd res)) /\
  exists stop, address <= stop <= address + size /\ (fst res = true -> stop = address + size) /\
    forall a, guest_view (snd res) a = chunk_rule middle address stop a (guest_view s a).

Lemma mm_split_range_spec valid middle address size s :
  mem_wf s -> 0 <= address -> 0 <= size -> address + size < 2 ^ 64 ->
  range_done middle address size s (mm_split_range valid middle address size s).
Proof.
  intros Hs Ha Hsz He. unfold range_done.
  destruct (mm_split_range valid middle address size s) as [ok s'] eqn:Hrun. cbn [fst snd].
  unfold mm_split_range, st_bind, st_gets in Hrun.
  assert (Hstay : (ok = true -> size = 0) -> s' = s -> mem_wf s' /\ cache_safe (ms_mgr s) (ms_mgr s') /\
    exists stop, address <= stop <= address + size /\ (ok = true -> stop = address + size) /\
    forall a, guest_view s' a = chunk_rule middle address stop a (guest_view s a)).
  { intros Hok ->. split_and!; [done | apply cache_safe_refl |]. exists address.
    split_and!; [lia | lia | intros Hok'; specialize (Hok Hok'); lia |]. intros a. by rewrite chunk_rule_empty. }
  destruct (Z.eqb_spec size 0); [injection Hrun as <- <-; by apply Hstay |].
  destruct (_ || _) eqn:Hargs in Hrun; [injection Hrun as <- <-; by apply Hstay |].
  rewrite !orb_false_iff, !negb_false_iff, !page_aligned_mod in Hargs. destruct Hargs as [[Hpa Hps] _].
  destruct (_ || _) in Hrun; [injection Hrun as <- <-; by apply Hstay |].
  rewrite (wrap_small 64) in Hrun by (split; lia).
  apply (split_loop_spec middle (S (length (mm_regions (ms_mgr s)))) address (address + size) s ok s');
    [done | lia | done | done | auto using paged_add | done].
Qed.

(** When the checks pass, the run is the loop with as much fuel as one likes. *)
Lemma mm_split_range_fuel valid middle address size s fuel :
  mem_wf s -> 0 <= address -> 0 < size -> address + size < 2 ^ 64 ->
  mm_is_page_aligned address = true -> mm_is_page_aligned size = true -> valid = true ->
  mm_check_range_mapped (ms_mgr s) address size = true -> (length (mm_regions (ms_mgr s)) < fuel)%nat ->
  mm_split_range valid middle address size s = split_loop fuel middle address (address + size) s.
Proof.
  intros Hs Ha Hsz He Hpa Hps -> Hmap Hf. unfold mm_split_range, st_bind, st_gets.
  destruct (Z.eqb_spec size 0); [lia |]. rewrite Hpa, Hps, range_overflow_false, Hmap by lia. cbn [negb orb].
  rewrite (wrap_small 64) by (split; lia).
  pose proof (regions_past_bound (mm_regions (ms_mgr s)) address).
  apply page_aligned_mod in Hpa, Hps.
  apply split_loop_fuel; [done | lia | done | done | auto using paged_add | lia | lia].
Qed.

End range_ops.

(** ** The properties *)

Section properties.
Context `{HostAllocLaws}.

(** C1: [mm_unmap] refines removal from the guest's address map.  Whatever the table, the arguments
    and the allocator do, the invariant holds afterwards and there is a [stop] such that exactly
    the addresses from [address] to [stop] are unmapped and every other address keeps its byte, its
    perms and its cpu_attrs, although the partly covered regions moved to fresh host blocks;
    success means [stop] is the end of the range.  (A failing allocation can leave the front part
    unmapped, as in the source.) *)
Theorem mm_unmap_refines_guest_map address size s
  (Hwf : mem_wf s) (Ha : 0 <= address) (Hs : 0 <= size) (He : address + size < 2 ^ 64) :
  let '(ok, s') := mm_unmap address size s in
  mem_wf s' /\
  exists stop, address <= stop <= address + size /\ (ok = true -> stop = address + size) /\
    forall a, guest_view s' a = if in_range address (stop - address) a then None else guest_view s a.
Proof.
  pose proof (mm_split_range_spec true (fun _ _ => None) address size s Hwf Ha Hs He) as Hd.
  unfold mm_unmap. destruct (mm_split_range _ _ _ _ s) as [ok s'].
  unfold range_done in Hd; cbn [fst snd] in Hd. destruct Hd as (Hw & _ & stop & Hstop & Hok & Hv). split; [done |]. exists stop.
  split_and!; [apply Hstop.. | done |]. intros a. rewrite (Hv a). unfold chunk_rule, apply_rule.
  destruct (in_range _ _ a); [by destruct (guest_view s a) as [[[? ?] ?] |] | done].
Qed.

(** [mm_protect] and [mm_set_cpu_attrs] change the perms, respectively the cpu_attrs, of
    exactly the addresses from [address] to some [stop], which is the end of the range on success;
    bytes, the other attribute and all other addresses keep their values, whatever splitting and
    copying it took. *)
Theorem mm_protect_refines_guest_map address size perms attrs s
  (Hwf : mem_wf s) (Ha : 0 <= address) (Hs : 0 <= size) (He : address + size < 2 ^ 64) :
  (let '(ok, s') := mm_protect address size perms s in
   mem_wf s' /\
   exists stop, address <= stop <= address + size /\ (ok = true -> stop = address + size) /\
     forall a, guest_view s' a =
       match guest_view s a with
       | Some (b, p, t) => Some (b, if in_range address (stop - address) a then perms else p, t)
       | None => None
       end) /\
  (let '(ok, s') := mm_set_cpu_attrs address size attrs s in
   mem_wf s' /\
   exists stop, address <= stop <= address + size /\ (ok = true -> stop = address + size) /\
     forall a, guest_view s' a =
       match guest_view s a with
       | Some (b, p, t) => Some (b, p, if in_range address (stop - address) a then attrs else t)
       | None => None
       end).
Proof.
  split.
  - pose proof (mm_split_range_spec (mm_is_valid_perms perms) (fun _ t => Some (perms, t)) address size s Hwf Ha Hs He) as Hd.
    unfold mm_protect. destruct (mm_split_range _ _ _ _ s) as [ok s'].
    unfold range_done in Hd; cbn [fst snd] in Hd. destruct Hd as (Hw & _ & stop & Hstop & Hok & Hv). split; [done |]. exists stop.
    split_and!; [apply Hstop.. | done |]. intros a. rewrite (Hv a). unfold chunk_rule, apply_rule.
    by destruct (in_range _ _ a), (guest_view s a) as [[[? ?] ?] |].
  - pose proof (mm_split_range_spec (mm_is_valid_cpu_attrs attrs) (fun p _ => Some (p, attrs)) address size s Hwf Ha Hs He) as Hd.
    unfold mm_set_cpu_attrs. destruct (mm_split_range _ _ _ _ s) as [ok s'].
    unfold range_done in Hd; cbn [fst snd] in Hd. destruct Hd as (Hw & _ & stop & Hstop & Hok & Hv). split; [done |]. exists stop.
    split_and!; [apply Hstop.. | done |]. intros a. rewrite (Hv a). unfold chunk_rule, apply_rule.
    by destruct (in_range _ _ a), (guest_view s a) as [[[? ?] ?] |].
Qed.

(** The loops of [mm_unmap], [mm_protect] and [mm_set_cpu_attrs] terminate: after the checks,
    as many iterations as there are regions suffice, whatever is done to the middle and although
    the loop itself adds regions; any larger bound gives the same run. *)
Theorem range_loops_terminate middle address size s fuel
  (Hwf : mem_wf s) (Ha : 0 <= address) (Hs : 0 < size) (He : address + size < 2 ^ 64)
  (Hpa : mm_is_page_aligned address = true) (Hps : mm_is_page_aligned size = true)
  (Hmap : mm_check_range_mapped (ms_mgr s) address size = true)
  (Hf : (length (mm_regions (ms_mgr s)) < fuel)%nat) :
  mm_split_range true middle address size s = split_loop fuel middle address (address + size) s.
Proof. by apply mm_split_range_fuel. Qed.

(** Mapping.  A successful [mm_map_internal] makes exactly the range readable as zeroes with
    the given perms and user access, a successful [mm_map_host] exactly the range as the client's
    bytes; both only where nothing was mapped, leaving all other addresses as they were, keeping
    the invariant and dropping the page cache.  A failure changes nothing the guest can see. *)
Theorem mapping_refines_guest_map address size perms host_ptr s
  (Hwf : mem_wf s) (Ha : 0 <= address) (Hs : 0 <= size) (He : address + size < 2 ^ 64)
  (Hcl : client_range (manager_blocks (ms_mgr s) ++ region_blocks (mm_regions (ms_mgr s))) (ms_heap s) host_ptr size) :
  (let '(ok, s') := mm_map_internal address size perms s in
   mem_wf s' /\
   if ok then
     mm_page_cache (ms_mgr s') = empty_cache /\
     (forall a, in_range address size a = true -> guest_view s a = None) /\
     (forall a, guest_view s' a = if in_range address size a then Some (0, perms, MM_CPU_ATTR_USER) else guest_view s a)
   else forall a, guest_view s' a = guest_view s a) /\
  (let '(ok, s') := mm_map_host address size perms host_ptr s in
   mem_wf s' /\
   if ok then
     mm_page_cache (ms_mgr s') = empty_cache /\
     (forall a, in_range address size a = true -> guest_view s a = None) /\
     (forall a, guest_view s' a =
        if in_range address size a
        then Some (hh_bytes (ms_heap s) (host_ptr + (a - address)), perms, MM_CPU_ATTR_USER) else guest_view s a)
   else forall a, guest_view s' a = guest_view s a).
Proof.
  split.
  - destruct (mm_map_internal address size perms s) as [ok s'] eqn:Hrun.
    destruct (mm_map_internal_ok _ _ _ _ _ _ Hwf Ha Hs He Hrun) as (? & _ & Hres).
    split; [done |]. destruct ok; [done | apply Hres].
  - destruct (mm_map_host address size perms host_ptr s) as [ok s'] eqn:Hrun.
    destruct (mm_map_host_ok _ _ _ _ _ _ _ Hwf Ha Hs He Hcl Hrun) as (? & _ & Hres).
    split; [done |]. destruct ok; [done | apply Hres].
Qed.

(** C4: [mm_destroy] releases each block the manager owns - the internal regions, the patch bytes
    and the two arrays, which the invariant makes distinct live blocks - exactly once: the record of
    releases grows by one release of a live block for each of them and by nothing else, so no block
    is released twice and no pointer that is not a live block is released, here or by an operation
    before.  It frees no other block, in particular no client memory, and writes no byte. *)
Theorem mm_destroy_frees_owned_blocks s (Hwf : mem_wf s) :
  let own := manager_blocks (ms_mgr s) ++ region_blocks (mm_regions (ms_mgr s)) in
  let s' := final mm_destroy s in
  NoDup (map fst own) /\ (forall p n, (p, n) ∈ own -> hh_blocks (ms_heap s) !! p = Some n) /\
  hh_frees (ms_heap s') ≡ₚ map (fun b => (fst b, true)) own ++ hh_frees (ms_heap s) /\
  Forall (fun f => snd f = true) (hh_frees (ms_heap s')) /\
  (forall p, hh_blocks (ms_heap s') !! p = if decide (p ∈ map fst own) then None else hh_blocks (ms_heap s) !! p) /\
  (forall a, hh_bytes (ms_heap s') a = hh_bytes (ms_heap s) a) /\ ms_mgr s' = zero_manager.
Proof.
  destruct Hwf as [_ [Ho _]]. intros own s'.
  destruct (mm_destroy_freed s Ho) as [Hm [(Hb & Hbl & Hf) Hn]]. destruct Ho as [Hh Hd Hl].
  split_and!; try done. apply (hw_frees _ (ow_heap _ _ Hn)).
Qed.

End properties.

(** ** Witnesses: a manager with one region of three pages *)

Module Example3.
Import Bump.

Definition client_heap : HostHeap := mkHeap (fun a => if in_range 0x5000 0x1000 a then 0xAB else 0) {[ 0x5000 := 0x1000 ]} [].
Definition start : MemState := mkMem mm_init client_heap.
Definition mapped3 : MemState := final (mm_map_internal 0x1000 0x3000 7) start.

Lemma start_wf : mem_wf start.
Proof.
  split; [split; constructor |]. split; [split | by intros ? ?%elem_of_nil].
  - split; cbn.
    + intros a. destruct (in_range 0x5000 0x1000 a); lia.
    + intros p n [<- <-]%lookup_singleton_Some. lia.
    + intros p n q m [<- <-]%lookup_singleton_Some [<- <-]%lookup_singleton_Some. done.
    + done.
  - constructor.
  - by intros ? ? ?%elem_of_nil.
Qed.

Lemma start_client : client_range (manager_blocks (ms_mgr start) ++ region_blocks (mm_regions (ms_mgr start))) (ms_heap start) 0x5000 0x1000.
Proof.
  exists 0x5000, 0x1000. split; [done |]. split; [by intros ?%elem_of_nil | lia].
Qed.

Lemma mapped3_wf : mem_wf mapped3.
Proof.
  destruct (mm_map_internal 0x1000 0x3000 7 start) as [ok s'] eqn:E.
  assert (mapped3 = s') as -> by (unfold mapped3, final; by rewrite E).
  exact (proj1 (mm_map_internal_ok 0x1000 0x3000 7 start ok s' start_wf ltac:(zcompute) ltac:(zcompute) ltac:(zcompute) E)).
Qed.

Lemma mm_unmap_refines_guest_map_witness :
  fst (mm_unmap 0x2000 0x1000 mapped3) = true /\
  map (guest_view (final (mm_unmap 0x2000 0x1000) mapped3)) [0x1FFF; 0x2000; 0x2FFF; 0x3000]
    = [Some (0, 7, 1); None; None; Some (0, 7, 1)] /\
  let '(ok, s') := mm_unmap 0x2000 0x1000 mapped3 in
  mem_wf s' /\
  exists stop, 0x2000 <= stop <= 0x2000 + 0x1000 /\ (ok = true -> stop = 0x2000 + 0x1000) /\
    forall a, guest_view s' a = if in_range 0x2000 (stop - 0x2000) a then None else guest_view mapped3 a.
Proof.
  split; [vm_compute; reflexivity |]. split; [vm_compute; reflexivity |].
  assert (H := mm_unmap_refines_guest_map 0x2000 0x1000 mapped3 mapped3_wf). discharge H. exact H.
Defined.

Lemma mm_protect_refines_guest_map_witness :
  fst (mm_protect 0x2000 0x1000 1 mapped3) = true /\
  map (guest_view (final (mm_protect 0x2000 0x1000 1) mapped3)) [0x1FFF; 0x2000; 0x2FFF; 0x3000]
    = [Some (0, 7, 1); Some (0, 1, 1); Some (0, 1, 1); Some (0, 7, 1)] /\
  (let '(ok, s') := mm_protect 0x2000 0x1000 1 mapped3 in
   mem_wf s' /\
   exists stop, 0x2000 <= stop <= 0x2000 + 0x1000 /\ (ok = true -> stop = 0x2000 + 0x1000) /\
     forall a, guest_view s' a =
       match guest_view mapped3 a with
       | Some (b, p, t) => Some (b, if in_range 0x2000 (stop - 0x2000) a then 1 else p, t)
       | None => None
       end).
Proof.
  split; [vm_compute; reflexivity |]. split; [vm_compute; reflexivity |].
  assert (H := mm_protect_refines_guest_map 0x2000 0x1000 1 0 mapped3 mapped3_wf). discharge H. destruct H as [H _]. exact H.
Defined.

Lemma range_loops_terminate_witness :
  mm_split_range true (fun _ _ => None) 0x2000 0x1000 mapped3
  = split_loop 2 (fun _ _ => None) 0x2000 (0x2000 + 0x1000) mapped3.
Proof.
  assert (H := range_loops_terminate (fun _ _ => None) 0x2000 0x1000 mapped3 2 mapped3_wf).
  discharge H. apply H.
Defined.

Lemma mapping_refines_guest_map_witness :
  guest_view (final (mm_map_host 0x7000 0x1000 3 0x5000) start) 0x7010 = Some (0xAB, 3, 1) /\
  (let '(ok, s') := mm_map_internal 0x7000 0x1000 3 start in
   mem_wf s' /\
   if ok : bool then
     mm_page_cache (ms_mgr s') = empty_cache /\
     (forall a, in_range 0x7000 0x1000 a = true -> guest_view start a = None) /\
     (forall a, guest_view s' a = if in_range 0x7000 0x1000 a then Some (0, 3, MM_CPU_ATTR_USER) else guest_view start a)
   else forall a, guest_view s' a = guest_view start a).
Proof.
  split; [vm_compute; reflexivity |].
  assert (H := mapping_refines_guest_map 0x7000 0x1000 3 0x5000 start start_wf).
  assert (C := start_client). discharge H. specialize (H C). destruct H as [H _]. exact H.
Defined.

Lemma mm_destroy_frees_owned_blocks_witness :
  hh_blocks (ms_heap (final mm_destroy mapped3)) !! 0x5000 = Some 0x1000 /\
  length (hh_frees (ms_heap (final mm_destroy mapped3))) = 2%nat /\
  size (hh_blocks (ms_heap mapped3)) = 3%nat /\ size (hh_blocks (ms_heap (final mm_destroy mapped3))) = 1%nat /\
  ms_mgr (final mm_destroy mapped3) = zero_manager.
Proof.
  do 4 (split; [vm_compute; reflexivity |]).
  apply (proj2 (proj2 (proj2 (proj2 (proj2 (proj2 (mm_destroy_frees_owned_blocks mapped3 mapped3_wf))))))).
Defined.

End Example3.

(** ** The last page of the address space *)

Lemma top_region_invisible mgr r a :
  mm_regions mgr = [r] -> r_base r + r_size r = 2 ^ 64 -> 0 <= a -> mm_find_region_index mgr a = None.
Proof.
  intros Hm He Ha. unfold mm_find_region_index, region_count. rewrite Hm. cbn [length region_search].
  assert (region_at mgr 0 = r) as Hr by (unfold region_at; by rewrite Hm).
  change (0 + (Z.of_nat 1 - 0) / 2) with 0. rewrite Hr.
  unfold region_end. rewrite He. change (u64 (2 ^ 64)) with 0. cbn [Z.of_nat Z.ltb Z.compare].
  destruct (Z.ltb_spec a (r_base r)); [done |]. destruct (Z.leb_spec 0 a); [done | lia].
Qed.

(** A region that ends at 2^64 is accepted but lost.  With an empty table, mapping the last
    page succeeds and stores the region; afterwards no address is found in it, the overlap check
    lets the same page be mapped again, and [mm_unmap] and [mm_protect] of the page report success
    and do nothing: its end is computed as 0. *)
Theorem top_page_region_is_never_found `{HostAllocLaws} perms perms' s s'
  (Hwf : mem_wf s) (Hempty : mm_regions (ms_mgr s) = []) (Hperms : mm_is_valid_perms perms' = true)
  (Hmap : mm_map_internal (2 ^ 64 - 0x1000) 0x1000 perms s = (true, s')) :
  (exists r, mm_regions (ms_mgr s') = [r] /\ r_base r = 2 ^ 64 - 0x1000 /\ r_size r = 0x1000) /\
  (forall a, 0 <= a -> mm_find_region_index (ms_mgr s') a = None) /\
  mm_has_overlap (ms_mgr s') (2 ^ 64 - 0x1000) 0x1000 = false /\
  mm_unmap (2 ^ 64 - 0x1000) 0x1000 s' = (true, s') /\
  mm_protect (2 ^ 64 - 0x1000) 0x1000 perms' s' = (true, s').
Proof.
  destruct Hwf as [Hwf Hb].
  assert (exists r, mm_regions (ms_mgr s') = [r] /\ r_base r = 2 ^ 64 - 0x1000 /\ r_size r = 0x1000) as (r & Hr & Hrb & Hrs).
  { unfold mm_map_internal, st_bind, st_gets, on_heap, st_zoom in Hmap.
    destruct (_ || _) in Hmap; [done |]. destruct (_ || _) in Hmap; [done |].
    destruct (host_alloc_zeroed 0x1000 (ms_heap s)) as [data h1] eqn:Ha.
    destruct (Z.eqb_spec data NULL); [done |].
    set (r := mkRegion (2 ^ 64 - 0x1000) 0x1000 data perms MM_CPU_ATTR_USER false) in *.
    destruct (backed_alloc _ _ _ 0x1000 data h1 r Hb ltac:(lia) Ha ltac:(done) eq_refl eq_refl eq_refl) as [Hb1 _].
    destruct (mm_insert_region _ r _) as [ok2 s2] eqn:Hins.
    destruct (insert_region_spec _ _ (set_ms_heap h1 s) _ _ Hb1 Hins) as (_ & _ & _ & HT & _).
    destruct ok2; [| by destruct (mm_release_region r s2) as [? ?]].
    injection Hmap as <-. exists r. cbn in HT |- *. rewrite HT, Hempty. unfold insert_at.
    by rewrite take_nil, drop_nil. }
  split; [by exists r |]. split; [intros a Ha; apply (top_region_invisible _ r); [done | lia | done] |].
  assert (Hat : region_at (ms_mgr s') 0 = r) by (unfold region_at; by rewrite Hr).
  assert (Hins : mm_find_insertion_index (ms_mgr s') (2 ^ 64 - 0x1000) = 0).
  { unfold mm_find_insertion_index, region_count. rewrite Hr. cbn [length insertion_search].
    change (0 + (Z.of_nat 1 - 0) / 2) with 0. rewrite Hat, Hrb. done. }
  assert (Hchk : mm_check_range_mapped (ms_mgr s') (2 ^ 64 - 0x1000) 0x1000 = true).
  { unfold mm_check_range_mapped. rewrite Hr. done. }
  split_and!.
  - unfold mm_has_overlap. rewrite Hins. unfold region_count. by rewrite Hr, Hat, Hrb.
  - unfold mm_unmap, mm_split_range, st_bind, st_gets. rewrite Hchk. by rewrite Hr.
  - unfold mm_protect, mm_split_range, st_bind, st_gets. rewrite Hchk, Hperms. by rewrite Hr.
Qed.

Import Bump.

Lemma top_page_region_is_never_found_witness :
  fst (mm_map_internal (2 ^ 64 - 0x1000) 0x1000 7 Example3.start) = true /\
  forall a, 0 <= a ->
    mm_find_region_index (ms_mgr (final (mm_map_internal (2 ^ 64 - 0x1000) 0x1000 7) Example3.start)) a = None.
Proof.
  split; [vm_compute; reflexivity |].
  destruct (mm_map_internal (2 ^ 64 - 0x1000) 0x1000 7 Example3.start) as [ok s'] eqn:E.
  assert (ok = true) as -> by (apply (f_equal fst) in E; vm_compute in E; by rewrite <- E).
  assert (H := top_page_region_is_never_found 7 7 Example3.start s' Example3.start_wf eq_refl eq_refl E).
  unfold final. rewrite E. apply H.
Defined.
