(* ===== verification/Patches.v ===== *)
(** * memory/manager.hpp: code patches

    A patch overlays host memory with replacement bytes for a guest range.  Patches live in an
    unordered array with a quick-reject interval [patch_min_address, patch_max_address].  The
    theorems: the interval never hides a patch, patches never overlap, and adding or deleting one
    changes exactly its own addresses of the overlay. *)

From Stdlib Require Import ZArith Bool List Lia.
From stdpp Require Import base tactics list gmap.
From S2P Require Import Prelude HostMemory RegionTable RegionSplit.

Definition patch_count (mgr : MEMORY_MANAGER) : Z := Z.of_nat (length (mm_patches mgr)).

Definition mm_patch_bounds_may_contain (mgr : MEMORY_MANAGER) (address : Z) : bool :=
  negb (patch_count mgr =? 0) && (mm_patch_min_address mgr <=? address) && (address <=? mm_patch_max_address mgr).

(** [patch->address + patch->size - 1] *)
Definition patch_end (p : MM_PATCH_ENTRY) : Z := u64 (p_address p + p_size p - 1).

Fixpoint patch_bounds_loop (patches : list MM_PATCH_ENTRY) (min_address max_address : Z) : Z * Z :=
  match patches with
  | [] => (min_address, max_address)
  | patch :: patches =>
      if p_size patch =? 0 then patch_bounds_loop patches min_address max_address
      else
        patch_bounds_loop patches
          (if p_address patch <? min_address then p_address patch else min_address)
          (if max_address <? patch_end patch then patch_end patch else max_address)
  end.

Definition mm_rebuild_patch_bounds (mgr : MEMORY_MANAGER) : MEMORY_MANAGER :=
  if patch_count mgr =? 0 then set_mm_patch_max_address 0 (set_mm_patch_min_address 0 mgr)
  else
    let '(min_address, max_address) := patch_bounds_loop (mm_patches mgr) (2 ^ 64 - 1) 0 in
    set_mm_patch_max_address max_address
      (set_mm_patch_min_address (if min_address =? 2 ^ 64 - 1 then 0 else min_address) mgr).

Definition mm_patch_range_overlaps (left_address left_size right_address right_size : Z) : bool :=
  if (left_size =? 0) || (right_size =? 0) then false
  else
    let left_end := u64 (left_address + left_size - 1) in
    let right_end := u64 (right_address + right_size - 1) in
    negb ((left_end <? right_address) || (right_end <? left_address)).

Definition patch_hit (address : Z) (patch : MM_PATCH_ENTRY) : bool :=
  negb (p_size patch =? 0) && (p_address patch <=? address) && (address <=? patch_end patch).

Definition mm_find_patch (mgr : MEMORY_MANAGER) (address : Z) : option MM_PATCH_ENTRY :=
  if negb (mm_patch_bounds_may_contain mgr address) then None
  else List.find (patch_hit address) (mm_patches mgr).

Section patch_ops.
Context `{HostAlloc}.

Definition mm_reserve_patch_capacity (capacity : Z) : ST MemState bool :=
  let* mgr := st_gets ms_mgr in
  if capacity <=? mm_patch_capacity mgr then st_ret true
  else
    let new_capacity :=
      grow_capacity 64 (if mm_patch_capacity mgr =? 0 then 8 else mm_patch_capacity mgr) capacity in
    let* new_patches := on_heap (host_alloc_zeroed (u64 (new_capacity * sizeof_MM_PATCH_ENTRY))) in
    if new_patches =? NULL then st_ret false
    else
      (if negb (mm_patches_ptr mgr =? NULL) && negb (patch_count mgr =? 0)
       then on_heap (host_free (mm_patches_ptr mgr)) else st_ret tt) ;;;
      mod_mgr (fun mgr => set_mm_patch_capacity new_capacity (set_mm_patches_ptr new_patches mgr)) ;;;
      st_ret true.

(** The entry written into the array, with the interval widened around it. *)
Definition push_patch (patch : MM_PATCH_ENTRY) (mgr : MEMORY_MANAGER) : MEMORY_MANAGER :=
  let mgr := set_mm_patches (mm_patches mgr ++ [patch]) mgr in
  let mgr := set_mm_next_patch_handle (u64 (mm_next_patch_handle mgr + 1)) mgr in
  let mgr :=
    if (patch_count mgr =? 1) || (p_address patch <? mm_patch_min_address mgr)
    then set_mm_patch_min_address (p_address patch) mgr else mgr in
  if (patch_count mgr =? 1) || (mm_patch_max_address mgr <? patch_end patch)
  then set_mm_patch_max_address (patch_end patch) mgr else mgr.

(** Returns the status and, on success, the handle. *)
Definition mm_add_patch (address bytes size : Z) : ST MemState (MM_PATCH_STATUS * option Z) :=
  let* mgr := st_gets ms_mgr in
  if (bytes =? NULL) || (size =? 0) || mm_range_overflows address size then st_ret (MM_PATCH_ARG, None)
  else if existsb (fun patch => mm_patch_range_overlaps address size (p_address patch) (p_size patch)) (mm_patches mgr)
  then st_ret (MM_PATCH_CONFLICT, None)
  else
    let* ok := mm_reserve_patch_capacity (patch_count mgr + 1) in
    if negb ok then st_ret (MM_PATCH_NOMEM, None)
    else
      let* patch_bytes := on_heap (host_alloc_zeroed size) in
      if patch_bytes =? NULL then st_ret (MM_PATCH_NOMEM, None)
      else
        on_heap (host_memcpy patch_bytes bytes size) ;;;
        let* mgr := st_gets ms_mgr in
        let patch := mkPatch (mm_next_patch_handle mgr) address size patch_bytes in
        mod_mgr (push_patch patch) ;;;
        mod_mgr mm_bump_code_version ;;;
        st_ret (MM_PATCH_OK, Some (p_handle patch)).

(** The first entry with the handle, and the array without it. *)
Fixpoint remove_patch (handle : Z) (patches : list MM_PATCH_ENTRY) : option (MM_PATCH_ENTRY * list MM_PATCH_ENTRY) :=
  match patches with
  | [] => None
  | patch :: patches =>
      if negb (p_handle patch =? handle) then
        match remove_patch handle patches with
        | Some (found, rest) => Some (found, patch :: rest)
        | None => None
        end
      else Some (patch, patches)
  end.

Definition mm_del_patch (handle : Z) : ST MemState MM_PATCH_STATUS :=
  let* mgr := st_gets ms_mgr in
  if handle =? 0 then st_ret MM_PATCH_ARG
  else
    match remove_patch handle (mm_patches mgr) with
    | None => st_ret MM_PATCH_NOT_FOUND
    | Some (patch, rest) =>
        free_nonnull (p_data patch) ;;;
        mod_mgr (fun mgr => mm_rebuild_patch_bounds (set_mm_patches rest mgr)) ;;;
        mod_mgr mm_bump_code_version ;;;
        st_ret MM_PATCH_OK
    end.

End patch_ops.

(** ** The invariant *)

Record patch_ok (p : MM_PATCH_ENTRY) : Prop := {
  po_address : 0 <= p_address p;
  po_size : 0 < p_size p;
  po_end : p_address p + p_size p <= 2 ^ 64;
}.

Definition patches_apart (p q : MM_PATCH_ENTRY) : Prop :=
  p_address p + p_size p <= p_address q \/ p_address q + p_size q <= p_address p.

(** Entries are non-empty ranges, pairwise disjoint, with distinct handles, inside the interval. *)
Record patches_wf (mgr : MEMORY_MANAGER) : Prop := {
  pw_ok : Forall patch_ok (mm_patches mgr);
  pw_apart : ForallOrdPairs patches_apart (mm_patches mgr);
  pw_handles : NoDup (map p_handle (mm_patches mgr));
  pw_fresh : Forall (fun p => p_handle p < mm_next_patch_handle mgr) (mm_patches mgr);
  pw_bounds : Forall (fun p => mm_patch_min_address mgr <= p_address p /\ p_address p + p_size p - 1 <= mm_patch_max_address mgr)
                (mm_patches mgr);
}.

Definition patch_contains (address : Z) (p : MM_PATCH_ENTRY) : bool := in_range (p_address p) (p_size p) address.

(** The overlay: the replacement byte of an address, if it is patched. *)
Definition patch_view (s : MemState) (address : Z) : option Z :=
  match List.find (patch_contains address) (mm_patches (ms_mgr s)) with
  | Some p => Some (hh_bytes (ms_heap s) (p_data p + (address - p_address p)))
  | None => None
  end.

(** ** Lemmas *)

Lemma patch_end_ok p : patch_ok p -> patch_end p = p_address p + p_size p - 1.
Proof. intros [? ? ?]. apply wrap_small. split; lia. Qed.

Lemma patch_hit_contains a p : patch_ok p -> patch_hit a p = patch_contains a p.
Proof.
  intros Hp. unfold patch_hit, patch_contains. rewrite patch_end_ok by done. destruct Hp.
  apply eq_true_iff_eq. rewrite in_range_true, !andb_true_iff, negb_true_iff, Z.eqb_neq, !Z.leb_le. lia.
Qed.

Lemma find_hit_contains a l :
  Forall patch_ok l -> List.find (patch_hit a) l = List.find (patch_contains a) l.
Proof.
  induction 1 as [| p l Hp Hl IH]; [done |]. cbn. rewrite patch_hit_contains by done.
  by destruct (patch_contains a p).
Qed.

(** The quick reject never hides a patch. *)
Lemma mm_find_patch_linear mgr a :
  patches_wf mgr -> mm_find_patch mgr a = List.find (patch_contains a) (mm_patches mgr).
Proof.
  intros [Hok _ _ _ Hb]. unfold mm_find_patch. rewrite find_hit_contains by done.
  destruct (mm_patch_bounds_may_contain mgr a) eqn:E; [done |]. cbn [negb].
  destruct (List.find (patch_contains a) (mm_patches mgr)) as [p |] eqn:Hf; [| done]. exfalso.
  apply List.find_some in Hf as [Hin Hc]. apply list_elem_of_In in Hin.
  rewrite Forall_forall in Hb. specialize (Hb p Hin) as [Hb1 Hb2].
  apply in_range_true in Hc. unfold mm_patch_bounds_may_contain, patch_count in E.
  destruct (mm_patches mgr) as [| q l]; [by apply elem_of_nil in Hin |]. cbn [length] in E.
  destruct (Z.eqb_spec (Z.of_nat (S (length l))) 0); [lia |]. cbn [negb andb] in E.
  apply andb_false_iff in E as [E%Z.leb_gt | E%Z.leb_gt]; lia.
Qed.

Lemma range_overlaps_spec a s p :
  0 <= a -> 0 < s -> a + s <= 2 ^ 64 -> patch_ok p ->
  mm_patch_range_overlaps a s (p_address p) (p_size p)
  = (a <? p_address p + p_size p) && (p_address p <? a + s).
Proof.
  intros Ha Hs He [? ? ?]. unfold mm_patch_range_overlaps.
  destruct (Z.eqb_spec s 0), (Z.eqb_spec (p_size p) 0); try lia. cbn [orb].
  rewrite !wrap_small by (split; lia).
  apply eq_true_iff_eq. rewrite negb_true_iff, orb_false_iff, andb_true_iff, !Z.ltb_ge, !Z.ltb_lt. lia.
Qed.

Lemma find_app {A} (f : A -> bool) l k :
  List.find f (l ++ k) = match List.find f l with Some x => Some x | None => List.find f k end.
Proof. induction l as [| x l IH]; [done |]. cbn. by destruct (f x). Qed.

Lemma patch_bounds_loop_spec l lo hi lo' hi' :
  Forall patch_ok l -> patch_bounds_loop l lo hi = (lo', hi') ->
  lo' <= lo /\ hi <= hi' /\ Forall (fun p => lo' <= p_address p /\ p_address p + p_size p - 1 <= hi') l.
Proof.
  intros Hl. revert lo hi. induction Hl as [| p l Hp Hl IH]; intros lo hi Hrun; cbn in Hrun.
  { injection Hrun as <- <-. split_and!; [lia | lia | done]. }
  pose proof (patch_end_ok p Hp) as Hpe. rewrite Hpe in Hrun. destruct Hp.
  destruct (Z.eqb_spec (p_size p) 0); [lia |]. apply IH in Hrun as (H1 & H2 & H3).
  destruct (Z.ltb_spec (p_address p) lo), (Z.ltb_spec hi (p_address p + p_size p - 1));
    (split_and!; [lia | lia | constructor; [lia | done]]).
Qed.

Lemma rebuild_bounds_wf mgr :
  Forall patch_ok (mm_patches mgr) -> ForallOrdPairs patches_apart (mm_patches mgr) ->
  NoDup (map p_handle (mm_patches mgr)) ->
  Forall (fun p => p_handle p < mm_next_patch_handle mgr) (mm_patches mgr) ->
  patches_wf (mm_rebuild_patch_bounds mgr).
Proof.
  intros Hok Hap Hnd Hfr. unfold mm_rebuild_patch_bounds, patch_count.
  destruct (Z.eqb_spec (Z.of_nat (length (mm_patches mgr))) 0) as [Hz | Hz].
  - destruct (mm_patches mgr) as [| p l] eqn:E; [| cbn in Hz; lia].
    split; cbn; rewrite ?E; done.
  - destruct (patch_bounds_loop (mm_patches mgr) (2 ^ 64 - 1) 0) as [lo hi] eqn:Hl.
    apply patch_bounds_loop_spec in Hl as (? & ? & Hb); [| done]. split; cbn; try done.
    rewrite Forall_forall in Hb, Hok |- *. intros p Hp. specialize (Hb p Hp) as [? ?].
    specialize (Hok p Hp) as [? ? ?]. destruct (Z.eqb_spec lo (2 ^ 64 - 1)); lia.
Qed.

Lemma remove_patch_some h l p rest :
  remove_patch h l = Some (p, rest) ->
  p_handle p = h /\ p ∈ l /\ l ≡ₚ p :: rest /\ exists l1 l2, l = l1 ++ p :: l2 /\ rest = l1 ++ l2.
Proof.
  revert rest. induction l as [| q l IH]; intros rest Hr; cbn in Hr; [done |].
  destruct (Z.eqb_spec (p_handle q) h); cbn in Hr.
  - injection Hr as <- <-. split_and!; [done | left | done | by exists [], l].
  - destruct (remove_patch h l) as [[f r] |]; [| done]. injection Hr as -> <-.
    destruct (IH r eq_refl) as (Hh & Hin & Hp & l1 & l2 & -> & ->). split_and!; [done | by right | |].
    + rewrite Hp. apply Permutation_swap.
    + by exists (q :: l1), l2.
Qed.

Lemma remove_patch_none h l : remove_patch h l = None -> Forall (fun p => p_handle p <> h) l.
Proof.
  induction l as [| q l IH]; intros Hr; cbn in Hr; [done |].
  destruct (Z.eqb_spec (p_handle q) h); cbn in Hr; [done |].
  destruct (remove_patch h l) as [[? ?] |]; [done |]. constructor; auto.
Qed.

Lemma ord_pairs_app {A} (R : A -> A -> Prop) l k :
  ForallOrdPairs R (l ++ k) <->
  ForallOrdPairs R l /\ ForallOrdPairs R k /\ (forall a b, a ∈ l -> b ∈ k -> R a b).
Proof.
  induction l as [| x l IH]; cbn.
  { split; [| by intros (_ & ? & _)]. intros. split_and!; [constructor | done |]. by intros ? ? ?%elem_of_nil. }
  split.
  - intros Hs. inversion Hs as [| ? ? Hx Hs']; subst. apply IH in Hs' as (H1 & H2 & H12).
    rewrite Forall_app in Hx. destruct Hx as [Hx1 Hx2]. split_and!; [by constructor | done |].
    intros a b [-> | Ha]%elem_of_cons Hb; [| by apply H12]. rewrite Forall_forall in Hx2. by apply Hx2.
  - intros (H1 & H2 & H12). inversion H1 as [| ? ? Hx H1']; subst. constructor.
    + apply Forall_app. split; [done |]. rewrite Forall_forall. intros b Hb. apply H12; [left | done].
    + apply IH. split_and!; [done.. |]. intros a b Ha Hb. apply H12; [by right | done].
Qed.

Section patch_specs.
Context `{HostAllocLaws}.

Definition patch_blocks (mgr : MEMORY_MANAGER) : blocks := map (fun p => (p_data p, p_size p)) (mm_patches mgr).

(** Patch bytes are in owned, hence live, blocks. *)
Lemma patch_live s p : mem_wf s -> p ∈ mm_patches (ms_mgr s) -> live_range (ms_heap s) (p_data p) (p_size p).
Proof.
  intros [_ [Ho _]] Hp. eapply owned_live; [exact Ho |]. apply elem_of_app. left. unfold manager_blocks.
  rewrite !elem_of_app. right. right. apply list_elem_of_fmap. by exists p.
Qed.

Definition patches_keep (l : list MM_PATCH_ENTRY) (h h' : HostHeap) : Prop :=
  forall p a, p ∈ l -> patch_contains a p = true ->
    hh_bytes h' (p_data p + (a - p_address p)) = hh_bytes h (p_data p + (a - p_address p)).

Lemma patches_keep_live s h' : mem_wf s -> keeps_live_bytes (ms_heap s) h' -> patches_keep (mm_patches (ms_mgr s)) (ms_heap s) h'.
Proof.
  intros Hs Hk p a Hp Ha. apply in_range_true in Ha. apply (Hk (p_data p) (p_size p)); [by apply patch_live | lia].
Qed.

Lemma patch_view_keep s s' a :
  mm_patches (ms_mgr s') = mm_patches (ms_mgr s) -> patches_keep (mm_patches (ms_mgr s)) (ms_heap s) (ms_heap s') ->
  patch_view s' a = patch_view s a.
Proof.
  intros Hp Hk. unfold patch_view. rewrite Hp. destruct (List.find _ _) as [p |] eqn:E; [| done].
  apply List.find_some in E as [Hin Hc]. rewrite Hk; [done | by apply list_elem_of_In | done].
Qed.

Lemma array_block_nonnull p n : p <> NULL -> array_block p n = [(p, n)].
Proof. unfold array_block. by destruct (Z.eqb_spec p NULL). Qed.

Lemma reserve_patch_spec capacity s ok s' :
  mem_wf s -> mm_reserve_patch_capacity capacity s = (ok, s') ->
  (exists p c, ms_mgr s' = set_mm_patch_capacity c (set_mm_patches_ptr p (ms_mgr s))) /\
  mem_wf s' /\ keeps_live_bytes (ms_heap s) (ms_heap s') /\
  (forall d n, client_range (manager_blocks (ms_mgr s) ++ region_blocks (mm_regions (ms_mgr s))) (ms_heap s) d n ->
     client_range (manager_blocks (ms_mgr s') ++ region_blocks (mm_regions (ms_mgr s'))) (ms_heap s') d n).
Proof.
  intros [Hwf Hb] Hrun. unfold mm_reserve_patch_capacity, st_bind, st_gets, on_heap, st_zoom in Hrun.
  assert (Heta : exists p c, ms_mgr s = set_mm_patch_capacity c (set_mm_patches_ptr p (ms_mgr s))).
  { exists (mm_patches_ptr (ms_mgr s)), (mm_patch_capacity (ms_mgr s)). by destruct (ms_mgr s). }
  destruct (capacity <=? mm_patch_capacity (ms_mgr s)); [by injection Hrun as <- <- |].
  set (nc := grow_capacity 64 _ capacity) in Hrun. clearbody nc.
  destruct (host_alloc_zeroed (u64 (nc * sizeof_MM_PATCH_ENTRY)) (ms_heap s)) as [p h1] eqn:Ha.
  assert (0 <= u64 (nc * sizeof_MM_PATCH_ENTRY)) as Hsz by (apply (wrap_range 64); lia).
  destruct (Z.eqb_spec p NULL) as [-> | Hnn].
  { apply host_alloc_zeroed_fail in Ha; [| apply Hb | done]. subst h1. injection Hrun as <- <-. by destruct s. }
  set (size := u64 (nc * sizeof_MM_PATCH_ENTRY)) in *.
  destruct (backed_alloc_block _ _ _ _ _ _ Hb Hsz Ha Hnn) as [Hb1 Hk1].
  destruct (owns_alloc size _ _ p h1 (bk_owns _ _ _ Hb) Hsz Ha Hnn) as (_ & _ & _ & _ & _ & _ & Hcl).
  set (regs := array_block (mm_regions_ptr (ms_mgr s)) (u64 (mm_region_capacity (ms_mgr s) * sizeof_MEMORY_REGION))).
  set (old := array_block (mm_patches_ptr (ms_mgr s)) (u64 (mm_patch_capacity (ms_mgr s) * sizeof_MM_PATCH_ENTRY))).
  assert (Hnew : forall m, m = set_mm_patch_capacity nc (set_mm_patches_ptr p (ms_mgr s)) ->
            (p, size) :: regs ++ patch_blocks (ms_mgr s) ≡ₚ manager_blocks m).
  { intros m ->. unfold manager_blocks. cbn. fold regs. rewrite array_block_nonnull by done.
    apply Permutation_middle. }
  assert (Hsplit : manager_blocks (ms_mgr s) ≡ₚ old ++ regs ++ patch_blocks (ms_mgr s)).
  { unfold manager_blocks. fold regs old. apply Permutation_app_swap_app. }
  assert (Hweak : forall h m, m = set_mm_patch_capacity nc (set_mm_patches_ptr p (ms_mgr s)) ->
     backed ((p, size) :: manager_blocks (ms_mgr s)) (mm_regions (ms_mgr s)) h ->
     backed (manager_blocks m) (mm_regions m) h).
  { intros h m -> Hbh. apply (backed_weaken old). eapply backed_perm; [| reflexivity | exact Hbh].
    rewrite Hsplit, <- (Hnew _ eq_refl). by rewrite Permutation_middle. }
  assert (Hweakc : forall m d n, m = set_mm_patch_capacity nc (set_mm_patches_ptr p (ms_mgr s)) ->
     client_range (((p, size) :: manager_blocks (ms_mgr s)) ++ region_blocks (mm_regions (ms_mgr s))) h1 d n ->
     client_range (manager_blocks m ++ region_blocks (mm_regions m)) h1 d n).
  { intros m d n -> Hc. apply (client_range_weaken old). eapply client_range_perm; [| exact Hc].
    cbn [mm_regions set_mm_patch_capacity set_mm_patches_ptr]. rewrite app_assoc. apply Permutation_app_tail.
    rewrite Hsplit, <- (Hnew _ eq_refl). by rewrite Permutation_middle. }
  destruct (negb (mm_patches_ptr (ms_mgr s) =? NULL) && negb (patch_count (ms_mgr s) =? 0)) eqn:Hfree.
  - injection Hrun as <- <-. cbn.
    apply andb_true_iff in Hfree as [Hptr _]. apply negb_true_iff, Z.eqb_neq in Hptr.
    assert (Hold : old = [(mm_patches_ptr (ms_mgr s), u64 (mm_patch_capacity (ms_mgr s) * sizeof_MM_PATCH_ENTRY))])
      by by apply array_block_nonnull.
    set (on := (mm_patches_ptr (ms_mgr s), _)) in Hold.
    assert (Hpe : (p, size) :: manager_blocks (ms_mgr s)
                  ≡ₚ on :: manager_blocks (set_mm_patch_capacity nc (set_mm_patches_ptr p (ms_mgr s)))).
    { rewrite Hsplit, <- (Hnew _ eq_refl), Hold. cbn. apply Permutation_swap. }
    assert (Hb2 := backed_perm _ _ _ _ _ Hpe (reflexivity _) Hb1).
    destruct (backed_free _ _ _ _ _ Hb2) as [Hb3 Hk3]. split_and!.
    + by exists p, nc.
    + split; cbn; [done | exact Hb3].
    + intros d n a Hl Hin. rewrite <- (Hk1 d n a Hl Hin). apply host_free_bytes.
    + intros d n Hc. apply Hcl in Hc. destruct (owns_free (fst on) (snd on) _ _ (bk_owns _ _ _ Hb2)) as (_ & _ & Hcf).
      apply Hcf. eapply client_range_perm; [| exact Hc]. exact (Permutation_app_tail _ Hpe).
  - injection Hrun as <- <-. cbn. split_and!.
    + by exists p, nc.
    + split; [done |]. by eapply Hweak.
    + done.
    + intros d n Hc. apply Hcl in Hc. by eapply Hweakc.
Qed.


(** The state after a new entry was pushed. *)
Lemma push_patch_wf s p :
  mem_wf s -> patches_wf (ms_mgr s) -> patch_ok p -> Forall (patches_apart p) (mm_patches (ms_mgr s)) ->
  p_handle p = mm_next_patch_handle (ms_mgr s) -> p_handle p + 1 < 2 ^ 64 -> 0 <= p_handle p ->
  patches_wf (push_patch p (ms_mgr s)).
Proof.
  intros _ [Hok Hap Hnd Hfr Hb] Hp Hpa Hh Hh1 Hh0. pose proof (patch_end_ok p Hp) as Hpe.
  set (m := push_patch p (ms_mgr s)).
  assert (Hm : mm_patches m = mm_patches (ms_mgr s) ++ [p] /\ mm_next_patch_handle m = p_handle p + 1 /\
    (mm_patch_min_address m <= p_address p) /\ (patch_end p <= mm_patch_max_address m) /\
    (mm_patches (ms_mgr s) <> [] -> mm_patch_min_address m <= mm_patch_min_address (ms_mgr s) /\
                                    mm_patch_max_address (ms_mgr s) <= mm_patch_max_address m)).
  { unfold m, push_patch, patch_count. cbn. rewrite length_app, <- Hh. cbn.
    rewrite (wrap_small 64 (p_handle p + 1)) by (split; lia).
    destruct (mm_patches (ms_mgr s)) as [| q l]; cbn.
    - change (Z.of_nat 1 =? 1) with true. cbn. split_and!; try done; lia.
    - assert ((Z.of_nat (S (length l + 1)) =? 1) = false) as Hne by (apply Z.eqb_neq; lia).
      rewrite !Hne. cbn [orb].
      destruct (Z.ltb_spec (p_address p) (mm_patch_min_address (ms_mgr s))); cbn; rewrite ?length_app; cbn [length];
        rewrite ?Hne; cbn [orb];
        destruct (Z.ltb_spec (mm_patch_max_address (ms_mgr s)) (patch_end p)); cbn; split_and!; try done; lia. }
  destruct Hm as (Hm1 & Hm2 & Hm3 & Hm4 & Hm5).
  split; rewrite ?Hm1, ?Hm2.
  - apply Forall_app. split; [done | by constructor].
  - apply ord_pairs_app. split_and!; [done | repeat constructor |].
    intros a b Ha ->%list_elem_of_singleton. rewrite Forall_forall in Hpa. specialize (Hpa a Ha).
    unfold patches_apart in *. lia.
  - rewrite map_app. apply NoDup_app. split_and!; [done | | apply NoDup_singleton].
    intros h Hin Hh'. apply list_elem_of_fmap in Hin as (q & -> & Hq). apply list_elem_of_singleton in Hh'.
    rewrite Forall_forall in Hfr. specialize (Hfr q Hq). lia.
  - apply Forall_app. split; [| by repeat constructor; lia].
    eapply Forall_impl; [exact Hfr |]. intros q ?. cbn in *. lia.
  - apply Forall_app. split.
    + destruct (mm_patches (ms_mgr s)) as [| q l] eqn:E; [done |]. destruct (Hm5 ltac:(done)) as [? ?].
      eapply Forall_impl; [exact Hb |]. intros x [? ?]. lia.
    + repeat constructor; lia.
Qed.

(** The overlay and the guest's map after a successful or failed [mm_add_patch]. *)
Lemma mm_add_patch_spec address bytes size s st hd s' :
  mem_wf s -> patches_wf (ms_mgr s) -> in_word 64 address -> in_word 64 size ->
  (0 <= mm_next_patch_handle (ms_mgr s) < 2 ^ 64 - 1) ->
  client_range (manager_blocks (ms_mgr s) ++ region_blocks (mm_regions (ms_mgr s))) (ms_heap s) bytes size ->
  mm_add_patch address bytes size s = ((st, hd), s') ->
  mem_wf s' /\ patches_wf (ms_mgr s') /\ (forall a, guest_view s' a = guest_view s a) /\
  mm_page_cache (ms_mgr s') = mm_page_cache (ms_mgr s) /\
  match st with
  | MM_PATCH_OK =>
      hd = Some (mm_next_patch_handle (ms_mgr s)) /\
      (forall a, in_range address size a = true -> patch_view s a = None) /\
      (forall a, patch_view s' a = if in_range address size a
                                   then Some (hh_bytes (ms_heap s) (bytes + (a - address))) else patch_view s a)
  | _ => hd = None /\ forall a, patch_view s' a = patch_view s a
  end.
Proof.
  intros Hs Hpw Haddr Hsize Hnh Hclient Hrun. pose proof (client_live _ _ _ _ Hclient) as Hlive.
  unfold mm_add_patch, st_bind, st_gets in Hrun.
  destruct (_ || _) eqn:Hargs in Hrun; [by injection Hrun as <- <- <- |].
  rewrite !orb_false_iff in Hargs. destruct Hargs as [[_ Hsz0] Hof]. apply Z.eqb_neq in Hsz0.
  pose proof (range_overflow_bound _ _ Haddr Hsize Hof) as Hend. destruct Haddr as [Ha0 _], Hsize as [Hs0 _].
  destruct (existsb _ _) eqn:Hconf in Hrun; [by injection Hrun as <- <- <- |].
  destruct (mm_reserve_patch_capacity _ s) as [ok s1] eqn:E1.
  destruct (reserve_patch_spec _ _ _ _ Hs E1) as ((p1 & c1 & Hm1) & Hs1 & Hk1 & Hcl1).
  pose proof (client_live _ _ _ _ (Hcl1 _ _ Hclient)) as Hlive1'.
  assert (Hpw1 : patches_wf (ms_mgr s1)) by (rewrite Hm1; destruct Hpw; by split).
  assert (HP1 : mm_patches (ms_mgr s1) = mm_patches (ms_mgr s)) by (by rewrite Hm1).
  assert (HT1 : mm_regions (ms_mgr s1) = mm_regions (ms_mgr s)) by (by rewrite Hm1).
  assert (HC1 : mm_page_cache (ms_mgr s1) = mm_page_cache (ms_mgr s)) by (by rewrite Hm1).
  assert (HN1 : mm_next_patch_handle (ms_mgr s1) = mm_next_patch_handle (ms_mgr s)) by (by rewrite Hm1).
  assert (Hv1 : forall a, guest_view s1 a = guest_view s a).
  { intros a. rewrite !guest_view_of, HT1. apply view_of_keep. by eapply regions_keep_live; [apply Hs |]. }
  assert (Hpv1 : forall a, patch_view s1 a = patch_view s a).
  { intros a. apply patch_view_keep; [done |]. by apply patches_keep_live. }
  assert (Hlive1 : forall k, 0 <= k < size -> hh_bytes (ms_heap s1) (bytes + k) = hh_bytes (ms_heap s) (bytes + k)).
  { intros k Hk. apply (Hk1 bytes size); [done | lia]. }
  destruct ok; cbn [negb] in Hrun; [| by injection Hrun as <- <- <-].
  unfold on_heap, st_zoom in Hrun.
  destruct (host_alloc_zeroed size (ms_heap s1)) as [pb h2] eqn:Ha.
  destruct (Z.eqb_spec pb NULL) as [-> | Hnn].
  { apply host_alloc_zeroed_fail in Ha; [| apply Hs1 | done]. subst h2. injection Hrun as <- <- <-. by destruct s1. }
  pose proof (bk_owns _ _ _ (mw_backed _ Hs1)) as Ho1.
  destruct (owns_alloc size _ _ pb h2 Ho1 Hs0 Ha Hnn) as (Ho2 & Hk2 & _ & Hnew & _ & Hlr & Hcl).
  assert (hh_blocks h2 !! pb = Some size) as Hpb by (apply Ho2; left).
  assert (Hsub : forall q m, hh_blocks (ms_heap s1) !! q = Some m -> hh_blocks h2 !! q = Some m).
  { intros q m Hq. destruct (host_alloc_zeroed_ok size _ pb h2 (ow_heap _ _ Ho1) Hs0 Ha Hnn) as (_ & -> & _).
    rewrite lookup_insert_ne; [done | congruence]. }
  set (h3 := final (host_memcpy pb bytes size) h2).
  assert (Hk3 : keeps_live_bytes (ms_heap s1) h3).
  { eapply memcpy_fresh_keeps; [apply Ho2 | done | lia | done | done | done]. }
  set (p := mkPatch (mm_next_patch_handle (ms_mgr s1)) address size pb) in *.
  assert (patch_ok p) as Hp by (split; cbn; lia).
  assert (Hap : Forall (patches_apart p) (mm_patches (ms_mgr s1))).
  { rewrite HP1, Forall_forall. intros q Hq. destruct Hpw as [Hok _ _ _ _]. rewrite Forall_forall in Hok.
    assert (mm_patch_range_overlaps address size (p_address q) (p_size q) = false) as Hno.
    { destruct (mm_patch_range_overlaps _ _ _ _) eqn:E; [| done].
      rewrite (proj2 (existsb_exists _ _)) in Hconf; [done |]. exists q. by rewrite <- list_elem_of_In. }
    rewrite range_overlaps_spec in Hno by (by auto || lia).
    apply andb_false_iff in Hno as [?%Z.ltb_ge | ?%Z.ltb_ge]; unfold patches_apart; cbn; lia. }
  injection Hrun as <- <- <-. cbn [fst snd].
  assert (Hmp : mm_patches (push_patch p (ms_mgr s1)) = mm_patches (ms_mgr s1) ++ [p] /\
                mm_regions (push_patch p (ms_mgr s1)) = mm_regions (ms_mgr s1) /\
                mm_page_cache (push_patch p (ms_mgr s1)) = mm_page_cache (ms_mgr s1) /\
                manager_blocks (push_patch p (ms_mgr s1)) = manager_blocks (ms_mgr s1) ++ [(pb, size)]).
  { unfold push_patch, manager_blocks. cbn. repeat destruct (_ || _); cbn; rewrite ?map_app, ?app_assoc; done. }
  destruct Hmp as (Hmp & Hmr & Hmc & Hmb).
  pose proof (push_patch_wf s1 p Hs1 Hpw1 Hp Hap eq_refl) as Hw.
  change (p_handle p) with (mm_next_patch_handle (ms_mgr s1)) in Hw |- *.
  change (push_patch (mkPatch _ _ _ _)) with (push_patch p).
  match goal with |- mem_wf ?T /\ _ => change T with (mkMem (mm_bump_code_version (push_patch p (ms_mgr s1))) h3) end.
  set (m' := push_patch p (ms_mgr s1)) in *. clearbody m'.
  assert (Hb3 : forall k, 0 <= k < size -> hh_bytes h3 (pb + k) = hh_bytes (ms_heap s) (bytes + k)).
  { intros k Hk. unfold h3. cbn. destruct (in_rangeP pb size (pb + k)); [| lia].
    rewrite <- Hlive1 by lia. replace (bytes + (pb + k - pb)) with (bytes + k) by lia.
    apply (Hk2 bytes size); [done | lia]. }
  assert (Hwf3 : heap_wf h3) by apply host_memcpy_wf, Ho2.
  assert (Hbl3 : hh_blocks h3 = hh_blocks h2) by done. clearbody h3.
  split_and!.
  - split; cbn; rewrite Hmr; [apply Hs1 |].
    change (manager_blocks (mm_bump_code_version m')) with (manager_blocks m').
    apply (backed_blocks _ _ h2); [done | done |].
    rewrite Hmb. destruct Hs1 as [_ Hb1].
    eapply (backed_perm ((pb, size) :: manager_blocks (ms_mgr s1))); [| reflexivity |].
    { by rewrite Permutation_app_comm. }
    by eapply backed_alloc_block.
  - rewrite HN1 in Hw. destruct (Hw ltac:(lia) ltac:(lia)). by split.
  - intros a. rewrite <- Hv1, !guest_view_of. cbn. rewrite Hmr. apply view_of_keep.
    by eapply regions_keep_live; [apply Hs1 |].
  - cbn. by rewrite Hmc.
  - cbn. by rewrite HN1.
  - intros a Ha'. rewrite <- Hpv1. unfold patch_view. destruct (List.find _ _) as [q |] eqn:E; [| done].
    apply List.find_some in E as [Hq Hc]. rewrite Forall_forall in Hap.
    apply list_elem_of_In, Hap in Hq. apply in_range_true in Hc, Ha'. unfold patches_apart in Hq. cbn in Hq. lia.
  - intros a. unfold patch_view at 1. cbn. rewrite Hmp, find_app.
    pose proof (patches_keep_live s1 h3 Hs1 Hk3) as Hkp.
    pose proof (Hpv1 a) as Hpva. unfold patch_view at 1 in Hpva.
    destruct (List.find (patch_contains a) (mm_patches (ms_mgr s1))) as [q |] eqn:E.
    + apply List.find_some in E as [Hq Hc]. apply list_elem_of_In in Hq.
      rewrite <- Hpva, (Hkp q a Hq Hc).
      rewrite Forall_forall in Hap. apply Hap in Hq. apply in_range_true in Hc.
      unfold patches_apart in Hq. cbn in Hq. destruct (in_rangeP address size a); [lia | done].
    + cbn. change (patch_contains a p) with (in_range address size a).
      destruct (in_rangeP address size a); [| done]. f_equal. apply Hb3. lia.
Qed.

End patch_specs.

Lemma find_none_apart a p l :
  patch_contains a p = true -> Forall (patches_apart p) l -> List.find (patch_contains a) l = None.
Proof.
  intros Hc Hl. destruct (List.find _ l) as [q |] eqn:E; [| done].
  apply List.find_some in E as [Hq Hqc]. rewrite Forall_forall in Hl. apply list_elem_of_In, Hl in Hq.
  apply in_range_true in Hc, Hqc. unfold patches_apart in Hq. lia.
Qed.

Lemma mm_del_patch_spec handle s st s' :
  mem_wf s -> patches_wf (ms_mgr s) -> mm_del_patch handle s = (st, s') ->
  mem_wf s' /\ patches_wf (ms_mgr s') /\ (forall a, guest_view s' a = guest_view s a) /\
  mm_page_cache (ms_mgr s') = mm_page_cache (ms_mgr s) /\
  match st with
  | MM_PATCH_OK =>
      exists p, p ∈ mm_patches (ms_mgr s) /\ p_handle p = handle /\
        (forall a, patch_view s' a = if patch_contains a p then None else patch_view s a) /\
        Forall (fun q => p_handle q <> handle) (mm_patches (ms_mgr s'))
  | MM_PATCH_NOT_FOUND => s' = s /\ Forall (fun q => p_handle q <> handle) (mm_patches (ms_mgr s))
  | _ => s' = s /\ handle = 0
  end.
Proof.
  intros Hs Hpw Hrun. unfold mm_del_patch, st_bind, st_gets in Hrun.
  destruct (Z.eqb_spec handle 0); [by injection Hrun as <- <- |].
  destruct (remove_patch handle (mm_patches (ms_mgr s))) as [[p rest] |] eqn:Hrem.
  2: { injection Hrun as <- <-. split_and!; try done. by apply remove_patch_none. }
  destruct (remove_patch_some _ _ _ _ Hrem) as (Hh & Hin & Hperm & l1 & l2 & Hl & Hrest).
  set (m' := mm_rebuild_patch_bounds (set_mm_patches rest (ms_mgr s))).
  assert (Hm : mm_patches m' = rest /\ mm_regions m' = mm_regions (ms_mgr s) /\
    mm_page_cache m' = mm_page_cache (ms_mgr s) /\
    mm_next_patch_handle m' = mm_next_patch_handle (ms_mgr s) /\
    manager_blocks (ms_mgr s) ≡ₚ (p_data p, p_size p) :: manager_blocks m').
  { assert (Hmb : forall lo hi, manager_blocks (ms_mgr s) ≡ₚ (p_data p, p_size p) ::
        manager_blocks (set_mm_patch_max_address hi (set_mm_patch_min_address lo (set_mm_patches rest (ms_mgr s))))).
    { intros lo hi. unfold manager_blocks. cbn. rewrite Hperm. cbn. rewrite !app_assoc.
      by rewrite <- Permutation_middle. }
    unfold m', mm_rebuild_patch_bounds. destruct (_ =? 0); [by split_and! |].
    destruct (patch_bounds_loop _ _ _) as [lo hi]. by split_and!. }
  assert (Hpw' : patches_wf m').
  { destruct Hpw as [Hok Hap Hnd Hfr _]. apply rebuild_bounds_wf; cbn.
    - rewrite Hperm in Hok. by apply Forall_cons in Hok as [_ ?].
    - rewrite Hl in Hap. rewrite Hrest. apply ord_pairs_app in Hap as (H1 & H2 & H12).
      inversion H2; subst. apply ord_pairs_app. split_and!; [done.. |]. intros a b Ha Hb. apply H12; [done | by right].
    - rewrite Hperm in Hnd. cbn in Hnd. by apply NoDup_cons in Hnd as [_ ?].
    - rewrite Hperm in Hfr. by apply Forall_cons in Hfr as [_ ?]. }
  destruct Hm as (Hmp & Hmr & Hmc & Hmn & Hmb).
  destruct Hs as [Hwf Hb].
  pose proof (backed_perm _ _ _ _ _ Hmb (reflexivity _) Hb) as Hb'.
  destruct (backed_free _ _ _ _ _ Hb') as [Hbf Hkf].
  pose proof (owned_nonnull _ _ (p_data p) (p_size p) (bk_owns _ _ _ Hb') ltac:(left)) as Hnn.
  unfold free_nonnull in Hrun. destruct (Z.eqb_spec (p_data p) NULL); [done |]. cbn [negb] in Hrun.
  assert (s' = mkMem (mm_bump_code_version m') (final (host_free (p_data p)) (ms_heap s)) /\ st = MM_PATCH_OK) as [-> ->].
  { injection Hrun as <- <-. done. }
  clear Hrun. clearbody m'.
  split_and!.
  - split; cbn [ms_mgr ms_heap].
    + change (mm_regions (mm_bump_code_version m')) with (mm_regions m'). by rewrite Hmr.
    + change (mm_regions (mm_bump_code_version m')) with (mm_regions m'). rewrite Hmr. exact Hbf.
  - destruct Hpw'. by split.
  - intros a. rewrite !guest_view_of. cbn [ms_mgr ms_heap].
    change (mm_regions (mm_bump_code_version m')) with (mm_regions m'). rewrite Hmr.
    unfold view_of, region_byte. destruct (find_linear _ a); [by rewrite host_free_bytes | done].
  - done.
  - exists p. split_and!; [done | done | |].
    + intros a. unfold patch_view. cbn [ms_mgr ms_heap].
      change (mm_patches (mm_bump_code_version m')) with (mm_patches m'). rewrite Hmp, Hl, Hrest, !find_app.
      pose proof (pw_apart _ Hpw) as Hap. rewrite Hl in Hap. apply ord_pairs_app in Hap as (_ & H2 & H12).
      inversion H2 as [| ? ? Hp2 _]; subst. cbn [List.find].
      destruct (patch_contains a p) eqn:Hc.
      * rewrite (find_none_apart a p) by (done || (rewrite Forall_forall; intros q Hq;
          specialize (H12 q p Hq ltac:(left)); unfold patches_apart in *; lia)).
        by rewrite (find_none_apart a p).
      * destruct (List.find _ l1); [by rewrite host_free_bytes |].
        destruct (List.find _ l2); [by rewrite host_free_bytes | done].
    + change (Forall (fun q => p_handle q <> handle) (mm_patches m')). rewrite Hmp.
      pose proof (pw_handles _ Hpw) as Hnd. rewrite Hperm in Hnd. cbn in Hnd. apply NoDup_cons in Hnd as [Hni _].
      rewrite Forall_forall. intros q Hq Hqh. apply Hni. rewrite Hh, <- Hqh. apply list_elem_of_fmap. by exists q.
Qed.

(** ** The properties *)

(** C3: the patch overlay.  Whatever was added and deleted before, the lookup with its quick-reject
    interval finds exactly the entry whose range holds the address; a successful [mm_add_patch]
    touches only unpatched addresses, overlays exactly the requested range with the client's bytes
    and returns a fresh handle; a successful [mm_del_patch] removes exactly the overlay of that
    handle, which is then unknown; every other outcome leaves the overlay as it was.  Guest memory,
    the invariants and the page cache survive all of them. *)
Theorem patch_overlay_correct `{HostAllocLaws} address bytes size handle s
  (Hwf : mem_wf s) (Hpw : patches_wf (ms_mgr s)) (Ha : in_word 64 address) (Hs : in_word 64 size)
  (Hnh : 0 <= mm_next_patch_handle (ms_mgr s) < 2 ^ 64 - 1)
  (Hcl : client_range (manager_blocks (ms_mgr s) ++ region_blocks (mm_regions (ms_mgr s))) (ms_heap s) bytes size) :
  (forall a, mm_find_patch (ms_mgr s) a = List.find (patch_contains a) (mm_patches (ms_mgr s))) /\
  (let '(st, hd, s') := mm_add_patch address bytes size s in
   mem_wf s' /\ patches_wf (ms_mgr s') /\ (forall a, guest_view s' a = guest_view s a) /\
   match st with
   | MM_PATCH_OK =>
       hd = Some (mm_next_patch_handle (ms_mgr s)) /\
       forall a, patch_view s' a = if in_range address size a
                                   then Some (hh_bytes (ms_heap s) (bytes + (a - address))) else patch_view s a
   | _ => hd = None /\ forall a, patch_view s' a = patch_view s a
   end) /\
  (let '(st, s') := mm_del_patch handle s in
   mem_wf s' /\ patches_wf (ms_mgr s') /\ (forall a, guest_view s' a = guest_view s a) /\
   match st with
   | MM_PATCH_OK =>
       exists p, p ∈ mm_patches (ms_mgr s) /\ p_handle p = handle /\
         (forall a, patch_view s' a = if patch_contains a p then None else patch_view s a) /\
         Forall (fun q => p_handle q <> handle) (mm_patches (ms_mgr s'))
   | _ => s' = s
   end).
Proof.
  split_and!.
  - intros a. by apply mm_find_patch_linear.
  - destruct (mm_add_patch address bytes size s) as [[st hd] s'] eqn:E.
    destruct (mm_add_patch_spec _ _ _ _ _ _ _ Hwf Hpw Ha Hs Hnh Hcl E) as (? & ? & ? & _ & Hres).
    split_and!; [done.. |]. destruct st; [| done..]. by destruct Hres as (? & _ & ?).
  - destruct (mm_del_patch handle s) as [st s'] eqn:E.
    destruct (mm_del_patch_spec _ _ _ _ Hwf Hpw E) as (? & ? & ? & _ & Hres).
    split_and!; [done.. |]. by destruct st; try apply Hres.
Qed.

Module PatchExample.
Import Bump.

Lemma start_patches_wf : patches_wf (ms_mgr Example3.start).
Proof. split; constructor. Qed.

Lemma patch_overlay_correct_witness :
  map (patch_view (final (mm_add_patch 0x401000 0x5000 4) Example3.start)) [0x400FFF; 0x401000; 0x401003; 0x401004]
    = [None; Some 0xAB; Some 0xAB; None] /\
  let '(st, hd, s') := mm_add_patch 0x401000 0x5000 0x1000 Example3.start in
  mem_wf s' /\ patches_wf (ms_mgr s').
Proof.
  split; [vm_compute; reflexivity |].
  assert (H := patch_overlay_correct 0x401000 0x5000 0x1000 1 Example3.start Example3.start_wf start_patches_wf).
  assert (C := Example3.start_client). discharge H. specialize (H C). destruct H as (_ & H & _).
  destruct (mm_add_patch 0x401000 0x5000 0x1000 Example3.start) as [[st hd] s'].
  destruct H as (H1 & H2 & _). exact (conj H1 H2).
Defined.

End PatchExample.
