(* ===== verification/PageCache.v ===== *)
(** * memory/manager.hpp: address lookup through the page cache, and byte access

    [mm_query] translates a guest address with a direct-mapped cache of 256 pages in front of the
    region table and host passthrough.  The theorems: on every manager whose cache is coherent the
    cached lookup returns what the uncached one would, and keeps the cache coherent; every
    operation that changes the table or the passthrough mode leaves a coherent cache; the checked
    byte accesses read and write exactly the guest's map, with the right status. *)

From Stdlib Require Import ZArith Bool List Lia.
From stdpp Require Import base tactics list gmap.
From S2P Require Import Prelude HostMemory RegionTable RegionSplit Patches.

Record MM_ACCESS_INFO := mkInfo {
  ai_ptr : Z;
  ai_perms : Z;
  ai_cpu_attrs : Z;
  ai_mapped : bool;
}.

Definition mm_cache_slot (address : Z) : Z := Z.land (Z.shiftr address 12) (MM_PAGE_CACHE_SIZE - 1).

Definition cache_entry_at (mgr : MEMORY_MANAGER) (slot : Z) : MM_PAGE_CACHE_ENTRY :=
  arr_get zero_cache_entry (mm_page_cache mgr) slot.

(** What a valid entry says about an address of its page. *)
Definition entry_info (e : MM_PAGE_CACHE_ENTRY) (address : Z) : MM_ACCESS_INFO :=
  mkInfo (ptr_add (ce_host_page e) (u64 (address - ce_page_base e))) (ce_perms e) (ce_cpu_attrs e) true.

(** Always succeeds; the manager changes in its cache only. *)
Definition mm_query (address : Z) : ST MEMORY_MANAGER MM_ACCESS_INFO := fun mgr =>
  let page_base := align_down_page address in
  let slot := mm_cache_slot address in
  let cache_entry := cache_entry_at mgr slot in
  let fill e := (entry_info e address, set_mm_page_cache (arr_set (mm_page_cache mgr) slot e) mgr) in
  if ce_valid cache_entry && (ce_page_base cache_entry =? page_base) then (entry_info cache_entry address, mgr)
  else
    match mm_find_region_index mgr address with
    | Some index =>
        let region := region_at mgr index in
        fill (mkCacheEntry page_base (ptr_add (r_data region) (u64 (page_base - r_base region)))
                (r_perms region) (r_cpu_attrs region) true)
    | None =>
        let host_perms := mm_host_passthrough_perms mgr in
        if negb (host_perms =? 0) then fill (mkCacheEntry page_base page_base host_perms MM_CPU_ATTR_USER true)
        else (mkInfo NULL 0 0 false, mgr)
    end.

(** The status with [*out_ptr] and [*out_cpu_attrs]. *)
Definition mm_get_ptr_checked (address perm : Z) : ST MemState (MM_ACCESS_STATUS * Z * Z) :=
  let* info := st_zoom ms_mgr set_ms_mgr (mm_query address) in
  if negb (ai_mapped info) then st_ret (MM_ACCESS_UNMAPPED, NULL, 0)
  else if Z.land (ai_perms info) perm =? 0 then st_ret (MM_ACCESS_PROT, NULL, ai_cpu_attrs info)
  else
    let* mgr := st_gets ms_mgr in
    let patch :=
      if negb (patch_count mgr =? 0) && negb (mm_host_passthrough_perms mgr =? 0) && mm_patch_bounds_may_contain mgr address
      then mm_find_patch mgr address else None in
    let ptr := match patch with
               | Some patch => ptr_add (p_data patch) (u64 (address - p_address patch))
               | None => ai_ptr info
               end in
    st_ret (MM_ACCESS_OK, ptr, ai_cpu_attrs info).

(** [*out] is [None] when it was not written. *)
Definition mm_read_byte_checked (address perm : Z) : ST MemState (MM_ACCESS_STATUS * option Z * Z) :=
  let* (status, ptr, attrs) := mm_get_ptr_checked address perm in
  match status with
  | MM_ACCESS_OK => let* s := st_get in st_ret (MM_ACCESS_OK, Some (load ptr (ms_heap s)), attrs)
  | _ => st_ret (status, None, attrs)
  end.

Definition mm_write_byte_checked (address value : Z) : ST MemState (MM_ACCESS_STATUS * Z) :=
  let* (status, ptr, attrs) := mm_get_ptr_checked address MM_PROT_WRITE in
  match status with
  | MM_ACCESS_OK => on_heap (store ptr value) ;;; st_ret (MM_ACCESS_OK, attrs)
  | _ => st_ret (status, attrs)
  end.

Definition mm_translate (address : Z) : ST MemState Z :=
  let* info := st_zoom ms_mgr set_ms_mgr (mm_query address) in
  st_ret (if negb (ai_mapped info) then NULL else ai_ptr info).

Definition status_ok (status : MM_ACCESS_STATUS) : bool :=
  match status with MM_ACCESS_OK => true | _ => false end.

Definition mm_read_byte_with_perm (address perm : Z) : ST MemState (bool * option Z) :=
  let* (status, out, _) := mm_read_byte_checked address perm in st_ret (status_ok status, out).
Definition mm_read_byte (address : Z) := mm_read_byte_with_perm address MM_PROT_READ.
Definition mm_read_exec_byte (address : Z) := mm_read_byte_with_perm address MM_PROT_EXEC.
Definition mm_write_byte (address value : Z) : ST MemState bool :=
  let* (status, _) := mm_write_byte_checked address value in st_ret (status_ok status).
Definition mm_get_ptr_with_perm (address perm : Z) : ST MemState Z :=
  let* (status, ptr, _) := mm_get_ptr_checked address perm in
  st_ret (match status with MM_ACCESS_OK => ptr | _ => NULL end).

(** ** The uncached lookup and the coherence invariant *)

Definition lookup_info (mgr : MEMORY_MANAGER) (address : Z) : MM_ACCESS_INFO :=
  match find_linear (mm_regions mgr) address with
  | Some r => mkInfo (ptr_add (r_data r) (address - r_base r)) (r_perms r) (r_cpu_attrs r) true
  | None =>
      if mm_host_passthrough_perms mgr =? 0 then mkInfo NULL 0 0 false
      else mkInfo address (mm_host_passthrough_perms mgr) MM_CPU_ATTR_USER true
  end.

Record cache_ok (mgr : MEMORY_MANAGER) : Prop := {
  co_size : length (mm_page_cache mgr) = 256%nat;
  co_entry : forall a, in_word 64 a ->
    let e := cache_entry_at mgr (mm_cache_slot a) in
    ce_valid e = true -> ce_page_base e = align_down_page a -> entry_info e a = lookup_info mgr a;
}.

(** ** Lemmas *)

Lemma align_down_eq a : align_down_page a = CPUEAXH_PAGE_SIZE * (a / CPUEAXH_PAGE_SIZE).
Proof.
  unfold align_down_page, CPUEAXH_PAGE_SIZE. change (0x1000 - 1) with (Z.ones 12).
  rewrite Z.ldiff_ones_r by lia. rewrite Z.shiftr_div_pow2, Z.shiftl_mul_pow2 by lia. apply Z.mul_comm.
Qed.

Lemma contains_page r a b :
  region_ok r -> align_down_page a = align_down_page b -> contains a r = contains b r.
Proof.
  intros [? ? ? [Hb Hs]]. rewrite !align_down_eq. unfold CPUEAXH_PAGE_SIZE in *. intros Hab.
  apply eq_true_iff_eq. unfold contains. rewrite !in_range_true. zdiv.
Qed.

Lemma find_linear_page l a b :
  Forall region_ok l -> align_down_page a = align_down_page b -> find_linear l a = find_linear l b.
Proof.
  intros Hl Hab. induction Hl as [| r l Hr Hl IH]; [done |]. unfold find_linear in *. cbn.
  by rewrite (contains_page r a b), IH.
Qed.

Lemma slot_page a b : align_down_page a = align_down_page b -> mm_cache_slot a = mm_cache_slot b.
Proof.
  rewrite !align_down_eq. unfold mm_cache_slot. rewrite !Z.shiftr_div_pow2 by lia.
  change (2 ^ 12) with CPUEAXH_PAGE_SIZE. intros. f_equal. unfold CPUEAXH_PAGE_SIZE in *. lia.
Qed.

Lemma slot_range a : 0 <= mm_cache_slot a < 256.
Proof.
  unfold mm_cache_slot, MM_PAGE_CACHE_SIZE. change (256 - 1) with (Z.ones 8). rewrite Z.land_ones by lia.
  apply Z.mod_pos_bound. lia.
Qed.

Lemma ptr_add_compose p x y : ptr_add (ptr_add p (u64 x)) (u64 y) = ptr_add p (x + y).
Proof.
  unfold ptr_add. rewrite wrap_add_l, wrap_add_r by lia.
  replace (p + u64 x + y) with (p + y + u64 x) by lia. rewrite wrap_add_r by lia. f_equal. lia.
Qed.

Lemma empty_cache_ok mgr : mm_page_cache mgr = empty_cache -> cache_ok mgr.
Proof.
  intros He. split; [by rewrite He |]. intros a Ha e. unfold e, cache_entry_at, arr_get. rewrite He.
  rewrite nth_lookup. unfold empty_cache. pose proof (slot_range a).
  by rewrite lookup_replicate_2 by lia.
Qed.

(** Filling the slot of [address] with an entry that agrees with the lookup on its whole page. *)
Lemma fill_cache_ok mgr address e :
  cache_ok mgr -> in_word 64 address -> ce_page_base e = align_down_page address ->
  (forall a, in_word 64 a -> align_down_page a = align_down_page address -> entry_info e a = lookup_info mgr a) ->
  cache_ok (set_mm_page_cache (arr_set (mm_page_cache mgr) (mm_cache_slot address) e) mgr).
Proof.
  intros [Hs Hc] Haddr Hp He. pose proof (slot_range address). split.
  - cbn. by rewrite arr_set_length.
  - intros a Ha. unfold cache_entry_at. cbn [mm_page_cache set_mm_page_cache]. pose proof (slot_range a).
    destruct (decide (mm_cache_slot a = mm_cache_slot address)) as [Heq | Hne].
    + rewrite Heq, arr_get_set_eq by (rewrite Hs; lia). intros _ Hpb. apply He; [done | congruence].
    + rewrite arr_get_set_ne by (lia || congruence). apply (Hc a Ha).
Qed.

(** The cached lookup is the uncached one. *)
Lemma mm_query_spec mgr address :
  cache_ok mgr -> table_wf (mm_regions mgr) -> in_word 64 address ->
  exists cache, mm_query address mgr = (lookup_info mgr address, set_mm_page_cache cache mgr)
                /\ cache_ok (set_mm_page_cache cache mgr).
Proof.
  intros Hc Hwf Ha. unfold mm_query.
  assert (Hself : mgr = set_mm_page_cache (mm_page_cache mgr) mgr) by by destruct mgr.
  destruct (ce_valid _ && _) eqn:Hhit.
  { apply andb_true_iff in Hhit as [Hv Hp%Z.eqb_eq].
    exists (mm_page_cache mgr). rewrite <- Hself. split; [| done]. f_equal. by apply Hc. }
  clear Hhit. pose proof (mm_find_region_index_linear mgr address Hwf) as Hidx.
  destruct (mm_find_region_index mgr address) as [i |].
  - destruct Hidx as (Hi & Hl & Hcon).
    set (e := mkCacheEntry _ _ _ _ _).
    assert (He : forall a, in_word 64 a -> align_down_page a = align_down_page address -> entry_info e a = lookup_info mgr a).
    { intros a Ha' Hpa. unfold lookup_info. rewrite (find_linear_page _ a address), Hl by (apply Hwf || done).
      unfold entry_info, e. cbn. rewrite ptr_add_compose. do 2 f_equal. lia. }
    eexists. split; [by rewrite He |]. by apply fill_cache_ok.
  - destruct (Z.eqb_spec (mm_host_passthrough_perms mgr) 0) as [Hz | Hz]; cbn [negb].
    + exists (mm_page_cache mgr). rewrite <- Hself. split; [| done]. unfold lookup_info. by rewrite Hidx, Hz.
    + set (e := mkCacheEntry _ _ _ _ _).
      assert (He : forall a, in_word 64 a -> align_down_page a = align_down_page address -> entry_info e a = lookup_info mgr a).
      { intros a Ha' Hpa. unfold lookup_info. rewrite (find_linear_page _ a address), Hidx by (apply Hwf || done).
        destruct (Z.eqb_spec (mm_host_passthrough_perms mgr) 0); [done |].
        unfold entry_info, e, ptr_add. cbn. f_equal. rewrite wrap_add_r by lia.
        replace (align_down_page address + (a - align_down_page address)) with a by lia. by apply wrap_small. }
      eexists. split; [by rewrite He |]. by apply fill_cache_ok.
Qed.

(** Coherence depends on the table, the passthrough flags and the cache only. *)
Lemma cache_ok_same m m' :
  mm_regions m' = mm_regions m -> mm_page_cache m' = mm_page_cache m ->
  mm_host_passthrough_perms m' = mm_host_passthrough_perms m -> cache_ok m -> cache_ok m'.
Proof.
  intros Hr Hc Hp [Hs He]. split; [by rewrite Hc |]. intros a Ha e Hv Hpb.
  unfold e, cache_entry_at in *. rewrite Hc in *. unfold lookup_info. rewrite Hr, Hp. by apply He.
Qed.

Lemma frame_passthrough m m' : frame_part m' = frame_part m -> mm_host_passthrough_perms m' = mm_host_passthrough_perms m.
Proof. intros Hf. unfold frame_part in Hf. unfold mm_host_passthrough_perms. by injection Hf as _ _ _ _ _ _ -> -> ->. Qed.

Lemma cache_safe_ok m m' : cache_safe m m' -> cache_ok m -> cache_ok m'.
Proof.
  intros [Hf [He | [He Hr]]] Hc; [by apply empty_cache_ok |].
  eapply cache_ok_same; [exact Hr | exact He | by apply frame_passthrough | done].
Qed.

(** ** What an access sees *)

(** Byte, perms and cpu_attrs an access to [address] meets: the guest's map, the host's memory
    where passthrough applies, and the patch overlay on top while any passthrough is on. *)
Definition access_view (s : MemState) (address : Z) : option guest_cell :=
  let host_perms := mm_host_passthrough_perms (ms_mgr s) in
  let cell := match guest_view s address with
              | Some c => Some c
              | None => if host_perms =? 0 then None else Some (hh_bytes (ms_heap s) address, host_perms, MM_CPU_ATTR_USER)
              end in
  match cell with
  | Some (b, p, t) =>
      Some (match (if host_perms =? 0 then None else patch_view s address) with Some pb => pb | None => b end, p, t)
  | None => None
  end.

(** The status an access with [perm] gets. *)
Definition access_status (s : MemState) (address perm : Z) : MM_ACCESS_STATUS :=
  match access_view s address with
  | None => MM_ACCESS_UNMAPPED
  | Some (_, p, _) => if Z.land p perm =? 0 then MM_ACCESS_PROT else MM_ACCESS_OK
  end.

(** The host address behind a guest address. *)
Definition host_address (s : MemState) (address : Z) : Z :=
  match (if mm_host_passthrough_perms (ms_mgr s) =? 0 then None
         else List.find (patch_contains address) (mm_patches (ms_mgr s))) with
  | Some p => p_data p + (address - p_address p)
  | None =>
      match find_linear (mm_regions (ms_mgr s)) address with
      | Some r => r_data r + (address - r_base r)
      | None => address
      end
  end.

(** Equal but for the page cache. *)
Definition same_but_cache (s s' : MemState) : Prop :=
  ms_heap s' = ms_heap s /\ exists cache, ms_mgr s' = set_mm_page_cache cache (ms_mgr s).

(** The full invariant of the manager. *)
Record manager_wf (s : MemState) : Prop := {
  mgw_mem : mem_wf s;
  mgw_patches : patches_wf (ms_mgr s);
  mgw_cache : cache_ok (ms_mgr s);
}.

Lemma same_but_cache_view s s' a : same_but_cache s s' -> access_view s' a = access_view s a.
Proof.
  intros [Hh (c & Hm)]. unfold access_view, guest_view, patch_view. by rewrite Hh, Hm.
Qed.

Lemma same_but_cache_host s s' a : same_but_cache s s' -> host_address s' a = host_address s a.
Proof. intros [Hh (c & Hm)]. unfold host_address. by rewrite Hm. Qed.

Lemma same_but_cache_mem s s' : same_but_cache s s' -> mem_wf s -> mem_wf s'.
Proof. intros [Hh (c & Hm)] [Ht Hb]. split; rewrite Hm, ?Hh; done. Qed.

Lemma same_but_cache_patches s s' : same_but_cache s s' -> patches_wf (ms_mgr s) -> patches_wf (ms_mgr s').
Proof. intros [Hh (c & Hm)] []. rewrite Hm. by split. Qed.

Lemma same_but_cache_refl s : same_but_cache s s.
Proof. split; [done |]. exists (mm_page_cache (ms_mgr s)). by destruct (ms_mgr s). Qed.

Lemma same_but_cache_trans s1 s2 s3 : same_but_cache s1 s2 -> same_but_cache s2 s3 -> same_but_cache s1 s3.
Proof. intros [H1 (c1 & M1)] [H2 (c2 & M2)]. split; [congruence |]. exists c2. by rewrite M2, M1. Qed.

(** The host byte behind a mapped address is the byte an access sees. *)
Lemma access_view_host s a b p t :
  access_view s a = Some (b, p, t) -> hh_bytes (ms_heap s) (host_address s a) = b.
Proof.
  unfold access_view, host_address, guest_view, patch_view, region_byte.
  destruct (mm_host_passthrough_perms (ms_mgr s) =? 0).
  - destruct (find_linear _ a); [| done]. by intros ?; simplify_eq.
  - destruct (find_linear _ a), (List.find _ _); by intros ?; simplify_eq.
Qed.

Lemma region_ptr s r a :
  mem_wf s -> find_linear (mm_regions (ms_mgr s)) a = Some r ->
  ptr_add (r_data r) (a - r_base r) = r_data r + (a - r_base r).
Proof.
  intros [Hwf Hb] Hf. apply find_linear_some in Hf as [Hin Hc].
  pose proof (backed_live _ _ _ r Hb Hin) as Hl.
  pose proof (tw_ok _ Hwf) as Hok. rewrite Forall_forall in Hok. destruct (Hok r Hin) as [? ? ? _].
  destruct (live_range_bounds _ _ _ (ow_heap _ _ (bk_owns _ _ _ Hb)) Hl ltac:(done)).
  apply in_range_true in Hc. apply ptr_add_small; lia.
Qed.

Lemma patch_ptr s p a :
  mem_wf s -> patches_wf (ms_mgr s) -> List.find (patch_contains a) (mm_patches (ms_mgr s)) = Some p ->
  ptr_add (p_data p) (u64 (a - p_address p)) = p_data p + (a - p_address p).
Proof.
  intros Hs Hpw Hf. apply List.find_some in Hf as [Hin Hc]. apply list_elem_of_In in Hin.
  pose proof (pw_ok _ Hpw) as Hok. rewrite Forall_forall in Hok. destruct (Hok p Hin) as [? ? ?].
  pose proof (patch_live s p Hs Hin) as Hl.
  destruct (live_range_bounds _ _ _ (ow_heap _ _ (bk_owns _ _ _ (mw_backed _ Hs))) Hl ltac:(done)).
  apply in_range_true in Hc. unfold ptr_add. rewrite wrap_add_r by lia. apply wrap_small. split; lia.
Qed.

(** The patch an access takes: the overlay's, when any passthrough is on. *)
Lemma patch_choice mgr a :
  patches_wf mgr ->
  (if negb (patch_count mgr =? 0) && negb (mm_host_passthrough_perms mgr =? 0) && mm_patch_bounds_may_contain mgr a
   then mm_find_patch mgr a else None)
  = if mm_host_passthrough_perms mgr =? 0 then None else List.find (patch_contains a) (mm_patches mgr).
Proof.
  intros Hpw. destruct (mm_host_passthrough_perms mgr =? 0); [by rewrite andb_false_r |].
  rewrite andb_true_r. cbn [negb]. rewrite <- mm_find_patch_linear by done. unfold mm_find_patch.
  destruct (mm_patch_bounds_may_contain mgr a) eqn:Hb; cbn [negb]; [| by destruct (_ && _)].
  unfold mm_patch_bounds_may_contain in Hb. apply andb_true_iff in Hb as [[-> _]%andb_true_iff _]. done.
Qed.

Lemma mm_get_ptr_checked_spec a perm s st ptr attrs s' :
  manager_wf s -> in_word 64 a ->
  mm_get_ptr_checked a perm s = ((st, ptr, attrs), s') ->
  same_but_cache s s' /\ manager_wf s' /\ st = access_status s a perm /\
  match access_view s a with
  | None => ptr = NULL /\ attrs = 0
  | Some (_, _, t) => attrs = t /\ (st = MM_ACCESS_OK -> ptr = host_address s a)
  end.
Proof.
  intros [Hs Hpw Hc] Ha Hrun. unfold mm_get_ptr_checked, st_bind, st_zoom, st_gets in Hrun.
  destruct (mm_query_spec (ms_mgr s) a Hc (mw_table _ Hs) Ha) as (cache & Hq & Hc'). rewrite Hq in Hrun.
  set (s1 := set_ms_mgr (set_mm_page_cache cache (ms_mgr s)) s) in *.
  assert (Hsc : same_but_cache s s1) by (split; [done | by exists cache]).
  assert (Hm1 : manager_wf s1).
  { split; [by eapply same_but_cache_mem | by eapply same_but_cache_patches | done]. }
  unfold access_status, access_view, guest_view, host_address, lookup_info in *.
  destruct (find_linear (mm_regions (ms_mgr s)) a) as [r |] eqn:Hl.
  - cbn [ai_mapped ai_perms ai_cpu_attrs ai_ptr negb] in Hrun. rewrite (region_ptr s r a Hs Hl) in Hrun.
    destruct (Z.land (r_perms r) perm =? 0); [injection Hrun as <- <- <- <-; by split_and! |].
    rewrite (patch_choice _ a (mgw_patches _ Hm1)) in Hrun.
    injection Hrun as <- <- <- <-. split_and!; [done.. | intros _]. cbn.
    change (mm_host_passthrough_perms (set_mm_page_cache cache (ms_mgr s))) with (mm_host_passthrough_perms (ms_mgr s)).
    destruct (_ =? 0); [done |].
    destruct (List.find _ _) as [q |] eqn:Hq'; [by apply (patch_ptr s) | done].
  - destruct (Z.eqb_spec (mm_host_passthrough_perms (ms_mgr s)) 0) as [Hz | Hz]; cbn [ai_mapped negb] in Hrun.
    { injection Hrun as <- <- <- <-. by split_and!. }
    cbn [ai_perms ai_cpu_attrs ai_ptr] in Hrun.
    destruct (Z.land _ perm =? 0); [injection Hrun as <- <- <- <-; by split_and! |].
    rewrite (patch_choice _ a (mgw_patches _ Hm1)) in Hrun.
    injection Hrun as <- <- <- <-. split_and!; [done.. | intros _]. cbn.
    change (mm_host_passthrough_perms (set_mm_page_cache cache (ms_mgr s))) with (mm_host_passthrough_perms (ms_mgr s)).
    apply Z.eqb_neq in Hz. rewrite Hz.
    destruct (List.find _ _) as [q |] eqn:Hq'; [by apply (patch_ptr s) | done].
Qed.

(** A store through a host pointer changes the bytes of the addresses it is behind. *)
Lemma store_access_view s loc v a :
  access_view (set_ms_heap (final (store loc v) (ms_heap s)) s) a =
  match access_view s a with
  | Some (b, p, t) => Some (if host_address s a =? loc then u8 v else b, p, t)
  | None => None
  end.
Proof.
  unfold access_view, guest_view, patch_view, region_byte, host_address. cbn. unfold store_bytes.
  destruct (_ =? 0), (find_linear _ a); try done;
    destruct (List.find (patch_contains a) (mm_patches (ms_mgr s))); done.
Qed.

Lemma store_mem_wf s loc v : manager_wf s -> manager_wf (set_ms_heap (final (store loc v) (ms_heap s)) s).
Proof.
  intros [[Ht Hb] Hp Hc]. split; [split | done | done]; cbn [ms_mgr ms_heap set_ms_heap]; [done |].
  eapply backed_blocks; [| | exact Hb]; [done |]. apply store_wf, Hb.
Qed.

Lemma mm_read_byte_checked_spec a perm s st out attrs s' :
  manager_wf s -> in_word 64 a ->
  mm_read_byte_checked a perm s = ((st, out, attrs), s') ->
  same_but_cache s s' /\ manager_wf s' /\ st = access_status s a perm /\
  out = match st, access_view s a with MM_ACCESS_OK, Some (b, _, _) => Some b | _, _ => None end /\
  attrs = match access_view s a with Some (_, _, t) => t | None => 0 end.
Proof.
  intros Hs Ha Hrun. unfold mm_read_byte_checked, st_bind in Hrun.
  destruct (mm_get_ptr_checked a perm s) as [[[st1 ptr] at1] s1] eqn:E.
  destruct (mm_get_ptr_checked_spec _ _ _ _ _ _ _ Hs Ha E) as (Hsc & Hs1 & Hst & Hres).
  destruct (access_view s a) as [[[b p] t] |] eqn:Hv.
  - destruct Hres as [-> Hptr].
    destruct st1; injection Hrun as <- <- <- <-; split_and!; try done.
    rewrite Hptr by done. unfold load. destruct Hsc as [-> _]. f_equal. by eapply access_view_host.
  - destruct Hres as [-> ->]. unfold access_status in *. rewrite Hv in *. subst st1. by injection Hrun as <- <- <- <-.
Qed.

Lemma mm_write_byte_checked_spec a v s st attrs s' :
  manager_wf s -> in_word 64 a ->
  mm_write_byte_checked a v s = ((st, attrs), s') ->
  manager_wf s' /\ st = access_status s a MM_PROT_WRITE /\
  attrs = match access_view s a with Some (_, _, t) => t | None => 0 end /\
  (forall c, host_address s' c = host_address s c) /\
  forall c, access_view s' c =
    match access_view s c with
    | Some (b, p, t) =>
        Some (if status_ok st && (host_address s c =? host_address s a) then u8 v else b, p, t)
    | None => None
    end.
Proof.
  intros Hs Ha Hrun. unfold mm_write_byte_checked, st_bind in Hrun.
  destruct (mm_get_ptr_checked a MM_PROT_WRITE s) as [[[st1 ptr] at1] s1] eqn:E.
  destruct (mm_get_ptr_checked_spec _ _ _ _ _ _ _ Hs Ha E) as (Hsc & Hs1 & Hst & Hres).
  assert (Hat : at1 = match access_view s a with Some (_, _, t) => t | None => 0 end).
  { destruct (access_view s a) as [[[b p] t] |]; by destruct Hres. }
  assert (Hsame : forall c, access_view s1 c = match access_view s c with Some (b, p, t) => Some (b, p, t) | None => None end).
  { intros c. rewrite (same_but_cache_view _ _ _ Hsc). by destruct (access_view s c) as [[[? ?] ?] |]. }
  destruct st1.
  2,3: injection Hrun as <- <- <-; split_and!; try done; intros c; by apply same_but_cache_host.
  unfold access_status in Hst. destruct (access_view s a) as [[[b p] t] |] eqn:Hv; [| done].
  destruct Hres as [_ Hptr]. specialize (Hptr eq_refl). subst ptr.
  injection Hrun as <- <- <-. split_and!.
  - by apply store_mem_wf.
  - unfold access_status. by rewrite Hv.
  - done.
  - intros c. transitivity (host_address s1 c); [done | by apply same_but_cache_host].
  - intros c. transitivity (access_view (set_ms_heap (final (store (host_address s a) v) (ms_heap s1)) s1) c); [done |].
    rewrite store_access_view, (same_but_cache_view _ _ _ Hsc), (same_but_cache_host _ _ _ Hsc). done.
Qed.

(** ** What the table operations do to the cache *)

(** Either the cache was emptied, or it and all a lookup depends on are as they were. *)
Definition cache_kept (m m' : MEMORY_MANAGER) : Prop :=
  mm_page_cache m' = empty_cache \/
  mm_page_cache m' = mm_page_cache m /\ mm_regions m' = mm_regions m /\
  mm_host_passthrough_perms m' = mm_host_passthrough_perms m.

Lemma cache_kept_ok m m' : cache_ok m -> cache_kept m m' -> cache_ok m'.
Proof. intros Hc [He | (He & Hr & Hp)]; [by apply empty_cache_ok | by apply (cache_ok_same m)]. Qed.

Lemma mm_destroy_mgr s : mm_page_cache (ms_mgr (final mm_destroy s)) = empty_cache.
Proof.
  unfold final, mm_destroy, st_bind, st_gets. destruct (release_all _ s) as [[] s1].
  destruct (release_patches _ s1) as [[] s2]. destruct (free_nonnull _ s2) as [[] s3]. by destruct (free_nonnull _ s3) as [[] s4].
Qed.

Section table_operations.
Context `{HostAllocLaws}.

(** A range that reaches the end of the address space or passes it is left alone. *)
Lemma split_range_past valid middle address size s :
  in_word 64 address -> in_word 64 size -> 2 ^ 64 <= address + size ->
  snd (mm_split_range valid middle address size s) = s.
Proof.
  intros [? ?] [? ?] Hp. unfold mm_split_range, st_bind, st_gets.
  destruct (Z.eqb_spec size 0); [done |]. destruct (_ || mm_range_overflows address size) eqn:Ho; [done |].
  destruct (negb valid || _); [done |]. apply orb_false_iff in Ho as [_ Ho].
  apply range_overflow_bound in Ho; [| by split..]. replace (address + size) with (2 ^ 64) by lia.
  change (u64 (2 ^ 64)) with 0. cbn [split_loop]. by destruct (Z.ltb_spec address 0); [lia |].
Qed.

Lemma split_range_cache valid middle address size s :
  mem_wf s -> cache_ok (ms_mgr s) -> in_word 64 address -> in_word 64 size ->
  cache_ok (ms_mgr (final (mm_split_range valid middle address size) s)).
Proof.
  intros Hm Hc Ha Hsz. unfold final. destruct (Z.lt_ge_cases (address + size) (2 ^ 64)) as [He | He].
  - pose proof (mm_split_range_spec valid middle address size s Hm (proj1 Ha) (proj1 Hsz) He) as (_ & Hcs & _).
    by eapply cache_safe_ok.
  - by rewrite split_range_past.
Qed.

Lemma reserve_region_mgr capacity s ok s' :
  mm_reserve_region_capacity capacity s = (ok, s') ->
  mm_page_cache (ms_mgr s') = mm_page_cache (ms_mgr s) /\ mm_regions (ms_mgr s') = mm_regions (ms_mgr s) /\
  mm_host_passthrough_perms (ms_mgr s') = mm_host_passthrough_perms (ms_mgr s).
Proof.
  unfold mm_reserve_region_capacity, st_bind, st_gets, on_heap, st_zoom. destruct (capacity <=? _); [by intros [= <- <-] |].
  set (nc := grow_capacity 64 _ _). clearbody nc. cbv beta zeta. destruct (host_alloc_zeroed _ _) as [p h]. destruct (p =? NULL); [by intros [= <- <-] |].
  destruct (_ && _); by intros [= <- <-].
Qed.

Lemma reserve_patch_mgr capacity s ok s' :
  mm_reserve_patch_capacity capacity s = (ok, s') ->
  mm_page_cache (ms_mgr s') = mm_page_cache (ms_mgr s) /\ mm_regions (ms_mgr s') = mm_regions (ms_mgr s) /\
  mm_host_passthrough_perms (ms_mgr s') = mm_host_passthrough_perms (ms_mgr s).
Proof.
  unfold mm_reserve_patch_capacity, st_bind, st_gets, on_heap, st_zoom. destruct (capacity <=? _); [by intros [= <- <-] |].
  set (nc := grow_capacity 64 _ _). clearbody nc. cbv beta zeta. destruct (host_alloc_zeroed _ _) as [p h]. destruct (p =? NULL); [by intros [= <- <-] |].
  destruct (_ && _); by intros [= <- <-].
Qed.

(** A failed insertion changes neither the table nor the cache. *)
Lemma insert_region_mgr i r s s' :
  mm_insert_region i r s = (false, s') ->
  mm_page_cache (ms_mgr s') = mm_page_cache (ms_mgr s) /\ mm_regions (ms_mgr s') = mm_regions (ms_mgr s) /\
  mm_host_passthrough_perms (ms_mgr s') = mm_host_passthrough_perms (ms_mgr s).
Proof.
  unfold mm_insert_region, st_bind, st_gets. destruct (mm_reserve_region_capacity _ s) as [ok s1] eqn:E.
  intros Hrun. destruct ok; [done |]. injection Hrun as <-. by eapply reserve_region_mgr.
Qed.

Lemma release_region_mgr r s : ms_mgr (snd (mm_release_region r s)) = ms_mgr s.
Proof. unfold mm_release_region. by destruct (_ && _). Qed.

Lemma map_internal_cache address size perms s :
  cache_kept (ms_mgr s) (ms_mgr (final (mm_map_internal address size perms) s)).
Proof.
  unfold final, mm_map_internal, st_bind, st_gets, on_heap, st_zoom.
  destruct (_ || mm_range_overflows address size); [by right |]. destruct (_ || _); [by right |].
  destruct (host_alloc_zeroed size (ms_heap s)) as [data h]. destruct (data =? NULL); [by right |].
  destruct (mm_insert_region _ _ _) as [[|] s1] eqn:E; [by left |].
  apply insert_region_mgr in E. right.
  match goal with |- context [mm_release_region ?r s1] => pose proof (release_region_mgr r s1) as Hr; destruct (mm_release_region r s1) as [[] s2] end.
  cbn [snd st_ret] in *. by rewrite Hr.
Qed.

Lemma map_host_cache address size perms host_ptr s :
  cache_kept (ms_mgr s) (ms_mgr (final (mm_map_host address size perms host_ptr) s)).
Proof.
  unfold final, mm_map_host, st_bind, st_gets.
  destruct (_ || mm_range_overflows address size); [by right |]. destruct (_ || _); [by right |].
  destruct (mm_insert_region _ _ _) as [[|] s1] eqn:E; [by left |]. apply insert_region_mgr in E. by right.
Qed.

Lemma add_patch_cache address bytes size s :
  cache_kept (ms_mgr s) (ms_mgr (final (mm_add_patch address bytes size) s)).
Proof.
  unfold final, mm_add_patch, st_bind, st_gets, on_heap, st_zoom.
  destruct (_ || mm_range_overflows address size); [by right |]. destruct (existsb _ _); [by right |].
  destruct (mm_reserve_patch_capacity _ s) as [ok s1] eqn:E. apply reserve_patch_mgr in E. right.
  destruct ok; cbn [negb]; [| exact E].
  destruct (host_alloc_zeroed size (ms_heap s1)) as [p h]. destruct (p =? NULL); [exact E |].
  cbn. unfold push_patch. repeat case_match; exact E.
Qed.

Lemma del_patch_cache handle s : cache_kept (ms_mgr s) (ms_mgr (final (mm_del_patch handle) s)).
Proof.
  unfold final, mm_del_patch, st_bind, st_gets. right. destruct (handle =? 0); [done |].
  destruct (remove_patch handle _) as [[p rest] |]; [| done].
  assert (Hm : ms_mgr (snd (free_nonnull (p_data p) s)) = ms_mgr s) by (unfold free_nonnull; by destruct (negb _)).
  destruct (free_nonnull (p_data p) s) as [[] s1]. cbn [snd] in Hm. rewrite <- Hm.
  cbn -[mm_rebuild_patch_bounds]. set (m := set_mm_patches rest (ms_mgr s1)). unfold mm_rebuild_patch_bounds.
  destruct (patch_count m =? 0); [done |]. by destruct (patch_bounds_loop _ _ _).
Qed.

End table_operations.

(** ** The properties *)

(** C2: the page cache is transparent.  On a coherent cache the lookup answers what scanning the
    table and the passthrough flags would, hit or miss, for every address, changing nothing but the
    cache and keeping it coherent; and every operation that changes the table, the flags or the
    patches - [mm_unmap], [mm_protect], [mm_set_cpu_attrs], [mm_map_internal], [mm_map_host],
    [mm_add_patch], [mm_del_patch], the passthrough switch and [mm_destroy] - leaves a coherent cache,
    for every range and every host pointer, also when it fails half-way. *)
Theorem page_cache_transparent `{HostAllocLaws} a address size x host_ptr s
  (Hs : manager_wf s) (Hw : in_word 64 a) (Ha : in_word 64 address) (Hsz : in_word 64 size) :
  (exists cache, mm_query a (ms_mgr s) = (lookup_info (ms_mgr s) a, set_mm_page_cache cache (ms_mgr s))
                 /\ cache_ok (set_mm_page_cache cache (ms_mgr s))) /\
  cache_ok (ms_mgr (final (mm_unmap address size) s)) /\
  cache_ok (ms_mgr (final (mm_protect address size x) s)) /\
  cache_ok (ms_mgr (final (mm_set_cpu_attrs address size x) s)) /\
  cache_ok (ms_mgr (final (mm_map_internal address size x) s)) /\
  cache_ok (ms_mgr (final (mm_map_host address size x host_ptr) s)) /\
  cache_ok (ms_mgr (final (mm_add_patch address host_ptr size) s)) /\
  cache_ok (ms_mgr (final (mm_del_patch x) s)) /\
  (forall on, cache_ok (mm_set_host_passthrough x on (ms_mgr s))) /\
  cache_ok (ms_mgr (final mm_destroy s)).
Proof.
  destruct Hs as [Hm Hp Hc].
  split_and!; [apply mm_query_spec; [done | apply Hm | done] | by apply split_range_cache.. | | | | |
               intros on; by apply empty_cache_ok | apply empty_cache_ok, mm_destroy_mgr].
  - by eapply cache_kept_ok, map_internal_cache.
  - by eapply cache_kept_ok, map_host_cache.
  - by eapply cache_kept_ok, add_patch_cache.
  - by eapply cache_kept_ok, del_patch_cache.
Qed.

(** Checked byte access.  Reading and writing a byte get UNMAPPED, PROT or OK exactly as the
    guest's map, the passthrough flags and the patch overlay say; a read returns the byte seen
    there; a write that is OK changes exactly the addresses with the same host byte behind them
    (aliases of a host mapping included), truncated to 8 bits, and a refused write changes
    nothing; the invariant is kept. *)
Theorem byte_access_correct a perm v s (Hs : manager_wf s) (Hw : in_word 64 a) :
  (let '(st, out, attrs, s') := mm_read_byte_checked a perm s in
   st = access_status s a perm /\
   out = match st, access_view s a with MM_ACCESS_OK, Some (b, _, _) => Some b | _, _ => None end /\
   manager_wf s' /\ ms_heap s' = ms_heap s /\ forall c, access_view s' c = access_view s c) /\
  (let '(st, attrs, s') := mm_write_byte_checked a v s in
   st = access_status s a MM_PROT_WRITE /\ manager_wf s' /\
   forall c, access_view s' c =
     match access_view s c with
     | Some (b, p, t) => Some (if status_ok st && (host_address s c =? host_address s a) then u8 v else b, p, t)
     | None => None
     end).
Proof.
  split.
  - destruct (mm_read_byte_checked a perm s) as [[[st out] attrs] s'] eqn:E.
    destruct (mm_read_byte_checked_spec _ _ _ _ _ _ _ Hs Hw E) as (Hsc & ? & ? & ? & _).
    split_and!; [done.. | apply Hsc |]. intros c. by apply same_but_cache_view.
  - destruct (mm_write_byte_checked a v s) as [[st attrs] s'] eqn:E.
    destruct (mm_write_byte_checked_spec _ _ _ _ _ _ Hs Hw E) as (? & ? & _ & _ & ?). done.
Qed.

Module CacheExample.
Import Bump.

Lemma mapped3_manager_wf : manager_wf Example3.mapped3.
Proof.
  split; [apply Example3.mapped3_wf | | apply empty_cache_ok; vm_compute; reflexivity].
  assert (mm_patches (ms_mgr Example3.mapped3) = []) as E by (vm_compute; reflexivity).
  split; rewrite E; constructor.
Qed.

Lemma page_cache_transparent_witness :
  fst (mm_query 0x2345 (ms_mgr Example3.mapped3)) = fst (mm_query 0x2345 (snd (mm_query 0x2345 (ms_mgr Example3.mapped3)))) /\
  cache_ok (ms_mgr (final (mm_unmap 0x2000 0x1000) Example3.mapped3)).
Proof.
  split; [vm_compute; reflexivity |].
  assert (H := page_cache_transparent 0x2345 0x2000 0x1000 1 0x5000 Example3.mapped3 mapped3_manager_wf).
  discharge H. destruct H as (_ & H & _). exact H.
Defined.

Lemma byte_access_correct_witness :
  fst (mm_read_byte_checked 0x2345 1 (final (mm_write_byte_checked 0x2345 0x1FE) Example3.mapped3))
    = (MM_ACCESS_OK, Some 0xFE, 1) /\
  fst (mm_write_byte_checked 0x4000 1 Example3.mapped3) = (MM_ACCESS_UNMAPPED, 0) /\
  let '(st, attrs, s') := mm_write_byte_checked 0x2345 0x1FE Example3.mapped3 in
  st = access_status Example3.mapped3 0x2345 MM_PROT_WRITE.
Proof.
  split; [vm_compute; reflexivity |]. split; [vm_compute; reflexivity |].
  assert (H := byte_access_correct 0x2345 1 0x1FE Example3.mapped3 mapped3_manager_wf). discharge H.
  destruct H as [_ H]. destruct (mm_write_byte_checked 0x2345 0x1FE Example3.mapped3) as [[st attrs] s'].
  destruct H as [H _]. exact H.
Defined.

End CacheExample.
