(* ===== verification/InstCache.v ===== *)
(** * cpu/decoded.hpp and cpu/inst_cache.hpp: pre-decoded instructions and their cache

    A decoded instruction records the handler the decoder selected with the instruction's bytes
    and prefix state.  The cache is a direct-mapped array of 2^15 of them, a slot valid for one
    address, one version of the code and one CPU mode.  A function pointer is the name of the
    function it points at; the slots are a finite map in which an absent slot is the zeroed one
    [calloc] gives.  The theorems: the cache implements the history of its commits and of the
    version bumps, and the mode bits it is keyed by determine everything the decoder may ask the
    context. *)

From Stdlib Require Import ZArith Bool List Lia String.
From stdpp Require Import base tactics list gmap.
From S2P Require Import Prelude CpuDef HostMemory RegionTable.

Definition DECODED_INST_MAX_BYTES : Z := 15.

Definition DecodedExecuteFn : Type := string.
Definition DecodedFastFn : Type := string.

Record DecodedPrefixState := mkPrefix {
  pre_rex_present : bool;
  pre_rex_w : bool;
  pre_rex_r : bool;
  pre_rex_x : bool;
  pre_rex_b : bool;
  pre_operand_size_override : bool;
  pre_address_size_override : bool;
}.

Definition DECODED_FLAG_BRANCH : Z := Z.shiftl 1 0.
Definition DECODED_FLAG_TOUCHES_VECTOR : Z := Z.shiftl 1 1.
Definition DECODED_FLAG_INLINE_RET : Z := Z.shiftl 1 2.
Definition DECODED_FLAG_UD : Z := Z.shiftl 1 3.
Definition DECODED_FLAG_BP : Z := Z.shiftl 1 4.
Definition DECODED_FLAG_NO_FAULT : Z := Z.shiftl 1 5.
Definition DECODED_FLAG_KNOWN_NOT_ESCAPE : Z := Z.shiftl 1 6.
Definition DECODED_FLAG_PARTIAL_PROGRESS : Z := Z.shiftl 1 7.
Definition DECODED_FLAG_DB : Z := Z.shiftl 1 8.

Definition DECODED_INLINE_NONE : Z := 0.
Definition DECODED_INLINE_RET_NEAR_NO_IMM : Z := 1.
Definition DECODED_INLINE_RET_NEAR_IMM16 : Z := 2.
Definition DECODED_INLINE_JCC_SHORT_LONGMODE : Z := 3.
Definition DECODED_INLINE_JCC_NEAR_LONGMODE : Z := 4.

Record DecodedInst := mkDecoded {
  d_handler : option DecodedExecuteFn;
  d_fast_handler : option DecodedFastFn;
  d_flags : Z;
  d_length : Z;
  d_inline_kind : Z;
  d_bytes : list Z;
  d_byte_count : Z;
  d_inline_imm16 : Z;
  d_near_ret_prefix_len : Z;
  d_near_ret_op_size : Z;
  d_segment_override : Z;
  d_inline_jcc_disp : Z;
  d_inline_jcc_cond : Z;
  d_inline_jcc_disp32 : Z;
  d_cached : DecodedInstruction;
  d_prefix : DecodedPrefixState;
}.

Definition set_d_handler (v : option DecodedExecuteFn) (r : DecodedInst) : DecodedInst :=
  mkDecoded v (d_fast_handler r) (d_flags r) (d_length r) (d_inline_kind r) (d_bytes r)
    (d_byte_count r) (d_inline_imm16 r) (d_near_ret_prefix_len r) (d_near_ret_op_size r)
    (d_segment_override r) (d_inline_jcc_disp r) (d_inline_jcc_cond r) (d_inline_jcc_disp32 r)
    (d_cached r) (d_prefix r).
Definition set_d_fast_handler (v : option DecodedFastFn) (r : DecodedInst) : DecodedInst :=
  mkDecoded (d_handler r) v (d_flags r) (d_length r) (d_inline_kind r) (d_bytes r)
    (d_byte_count r) (d_inline_imm16 r) (d_near_ret_prefix_len r) (d_near_ret_op_size r)
    (d_segment_override r) (d_inline_jcc_disp r) (d_inline_jcc_cond r) (d_inline_jcc_disp32 r)
    (d_cached r) (d_prefix r).
Definition set_d_flags (v : Z) (r : DecodedInst) : DecodedInst :=
  mkDecoded (d_handler r) (d_fast_handler r) v (d_length r) (d_inline_kind r) (d_bytes r)
    (d_byte_count r) (d_inline_imm16 r) (d_near_ret_prefix_len r) (d_near_ret_op_size r)
    (d_segment_override r) (d_inline_jcc_disp r) (d_inline_jcc_cond r) (d_inline_jcc_disp32 r)
    (d_cached r) (d_prefix r).
Definition set_d_length (v : Z) (r : DecodedInst) : DecodedInst :=
  mkDecoded (d_handler r) (d_fast_handler r) (d_flags r) v (d_inline_kind r) (d_bytes r)
    (d_byte_count r) (d_inline_imm16 r) (d_near_ret_prefix_len r) (d_near_ret_op_size r)
    (d_segment_override r) (d_inline_jcc_disp r) (d_inline_jcc_cond r) (d_inline_jcc_disp32 r)
    (d_cached r) (d_prefix r).
Definition set_d_inline_kind (v : Z) (r : DecodedInst) : DecodedInst :=
  mkDecoded (d_handler r) (d_fast_handler r) (d_flags r) (d_length r) v (d_bytes r)
    (d_byte_count r) (d_inline_imm16 r) (d_near_ret_prefix_len r) (d_near_ret_op_size r)
    (d_segment_override r) (d_inline_jcc_disp r) (d_inline_jcc_cond r) (d_inline_jcc_disp32 r)
    (d_cached r) (d_prefix r).
Definition set_d_bytes (v : list Z) (r : DecodedInst) : DecodedInst :=
  mkDecoded (d_handler r) (d_fast_handler r) (d_flags r) (d_length r) (d_inline_kind r) v
    (d_byte_count r) (d_inline_imm16 r) (d_near_ret_prefix_len r) (d_near_ret_op_size r)
    (d_segment_override r) (d_inline_jcc_disp r) (d_inline_jcc_cond r) (d_inline_jcc_disp32 r)
    (d_cached r) (d_prefix r).
Definition set_d_byte_count (v : Z) (r : DecodedInst) : DecodedInst :=
  mkDecoded (d_handler r) (d_fast_handler r) (d_flags r) (d_length r) (d_inline_kind r)
    (d_bytes r) v (d_inline_imm16 r) (d_near_ret_prefix_len r) (d_near_ret_op_size r)
    (d_segment_override r) (d_inline_jcc_disp r) (d_inline_jcc_cond r) (d_inline_jcc_disp32 r)
    (d_cached r) (d_prefix r).
Definition set_d_inline_imm16 (v : Z) (r : DecodedInst) : DecodedInst :=
  mkDecoded (d_handler r) (d_fast_handler r) (d_flags r) (d_length r) (d_inline_kind r)
    (d_bytes r) (d_byte_count r) v (d_near_ret_prefix_len r) (d_near_ret_op_size r)
    (d_segment_override r) (d_inline_jcc_disp r) (d_inline_jcc_cond r) (d_inline_jcc_disp32 r)
    (d_cached r) (d_prefix r).
Definition set_d_near_ret_prefix_len (v : Z) (r : DecodedInst) : DecodedInst :=
  mkDecoded (d_handler r) (d_fast_handler r) (d_flags r) (d_length r) (d_inline_kind r)
    (d_bytes r) (d_byte_count r) (d_inline_imm16 r) v (d_near_ret_op_size r)
    (d_segment_override r) (d_inline_jcc_disp r) (d_inline_jcc_cond r) (d_inline_jcc_disp32 r)
    (d_cached r) (d_prefix r).
Definition set_d_near_ret_op_size (v : Z) (r : DecodedInst) : DecodedInst :=
  mkDecoded (d_handler r) (d_fast_handler r) (d_flags r) (d_length r) (d_inline_kind r)
    (d_bytes r) (d_byte_count r) (d_inline_imm16 r) (d_near_ret_prefix_len r) v
    (d_segment_override r) (d_inline_jcc_disp r) (d_inline_jcc_cond r) (d_inline_jcc_disp32 r)
    (d_cached r) (d_prefix r).
Definition set_d_segment_override (v : Z) (r : DecodedInst) : DecodedInst :=
  mkDecoded (d_handler r) (d_fast_handler r) (d_flags r) (d_length r) (d_inline_kind r)
    (d_bytes r) (d_byte_count r) (d_inline_imm16 r) (d_near_ret_prefix_len r)
    (d_near_ret_op_size r) v (d_inline_jcc_disp r) (d_inline_jcc_cond r)
    (d_inline_jcc_disp32 r) (d_cached r) (d_prefix r).
Definition set_d_inline_jcc_disp (v : Z) (r : DecodedInst) : DecodedInst :=
  mkDecoded (d_handler r) (d_fast_handler r) (d_flags r) (d_length r) (d_inline_kind r)
    (d_bytes r) (d_byte_count r) (d_inline_imm16 r) (d_near_ret_prefix_len r)
    (d_near_ret_op_size r) (d_segment_override r) v (d_inline_jcc_cond r)
    (d_inline_jcc_disp32 r) (d_cached r) (d_prefix r).
Definition set_d_inline_jcc_cond (v : Z) (r : DecodedInst) : DecodedInst :=
  mkDecoded (d_handler r) (d_fast_handler r) (d_flags r) (d_length r) (d_inline_kind r)
    (d_bytes r) (d_byte_count r) (d_inline_imm16 r) (d_near_ret_prefix_len r)
    (d_near_ret_op_size r) (d_segment_override r) (d_inline_jcc_disp r) v
    (d_inline_jcc_disp32 r) (d_cached r) (d_prefix r).
Definition set_d_inline_jcc_disp32 (v : Z) (r : DecodedInst) : DecodedInst :=
  mkDecoded (d_handler r) (d_fast_handler r) (d_flags r) (d_length r) (d_inline_kind r)
    (d_bytes r) (d_byte_count r) (d_inline_imm16 r) (d_near_ret_prefix_len r)
    (d_near_ret_op_size r) (d_segment_override r) (d_inline_jcc_disp r) (d_inline_jcc_cond r) v
    (d_cached r) (d_prefix r).
Definition set_d_cached (v : DecodedInstruction) (r : DecodedInst) : DecodedInst :=
  mkDecoded (d_handler r) (d_fast_handler r) (d_flags r) (d_length r) (d_inline_kind r)
    (d_bytes r) (d_byte_count r) (d_inline_imm16 r) (d_near_ret_prefix_len r)
    (d_near_ret_op_size r) (d_segment_override r) (d_inline_jcc_disp r) (d_inline_jcc_cond r)
    (d_inline_jcc_disp32 r) v (d_prefix r).
Definition set_d_prefix (v : DecodedPrefixState) (r : DecodedInst) : DecodedInst :=
  mkDecoded (d_handler r) (d_fast_handler r) (d_flags r) (d_length r) (d_inline_kind r)
    (d_bytes r) (d_byte_count r) (d_inline_imm16 r) (d_near_ret_prefix_len r)
    (d_near_ret_op_size r) (d_segment_override r) (d_inline_jcc_disp r) (d_inline_jcc_cond r)
    (d_inline_jcc_disp32 r) (d_cached r) v.

Definition zero_prefix : DecodedPrefixState := mkPrefix false false false false false false false.

(** [memset(dec, 0, sizeof *dec)]. *)
Definition decoded_inst_clear : DecodedInst :=
  mkDecoded None None 0 0 0 (repeat 0 15) 0 0 0 0 0 0 0 0 zero_inst zero_prefix.

Definition decoded_inst_apply_prefix (dec : DecodedInst) (ctx : CPU_CONTEXT) : CPU_CONTEXT :=
  let p := d_prefix dec in
  set_c_address_size_override (pre_address_size_override p)
    (set_c_operand_size_override (pre_operand_size_override p)
       (set_c_rex_b (pre_rex_b p) (set_c_rex_x (pre_rex_x p) (set_c_rex_r (pre_rex_r p)
          (set_c_rex_w (pre_rex_w p) (set_c_rex_present (pre_rex_present p) ctx)))))).

Definition decoded_inst_capture_prefix_from_ctx (ctx : CPU_CONTEXT) (dec : DecodedInst) : DecodedInst :=
  set_d_prefix
    (mkPrefix (c_rex_present ctx) (c_rex_w ctx) (c_rex_r ctx) (c_rex_x ctx) (c_rex_b ctx)
       (c_operand_size_override ctx) (c_address_size_override ctx)) dec.

Definition decoded_inst_needs_mem_recompute (cached : DecodedInstruction) : bool :=
  i_has_modrm cached && negb (Z.land (Z.shiftr (i_modrm cached) 6) 0x03 =? 3).

Record DecoderCtxScratch := mkScratch {
  sc_rex_present : bool;
  sc_rex_w : bool;
  sc_rex_r : bool;
  sc_rex_x : bool;
  sc_rex_b : bool;
  sc_operand_size_override : bool;
  sc_address_size_override : bool;
  sc_segment_override : Z;
  sc_last_inst_size : Z;
  sc_exception : CPU_EXCEPTION_STATE;
}.

Definition decoder_save_ctx_scratch (ctx : CPU_CONTEXT) : DecoderCtxScratch :=
  mkScratch (c_rex_present ctx) (c_rex_w ctx) (c_rex_r ctx) (c_rex_x ctx) (c_rex_b ctx)
    (c_operand_size_override ctx) (c_address_size_override ctx) (c_segment_override ctx)
    (c_last_inst_size ctx) (c_exception ctx).

Definition decoder_restore_ctx_scratch (saved : DecoderCtxScratch) (ctx : CPU_CONTEXT) : CPU_CONTEXT :=
  set_c_exception (sc_exception saved)
    (set_c_last_inst_size (sc_last_inst_size saved)
       (set_c_segment_override (sc_segment_override saved)
          (set_c_address_size_override (sc_address_size_override saved)
             (set_c_operand_size_override (sc_operand_size_override saved)
                (set_c_rex_b (sc_rex_b saved) (set_c_rex_x (sc_rex_x saved) (set_c_rex_r (sc_rex_r saved)
                   (set_c_rex_w (sc_rex_w saved) (set_c_rex_present (sc_rex_present saved) ctx))))))))).

(** ** inst_cache.hpp *)

Definition CPU_INST_CACHE_BITS : Z := 15.
Definition CPU_INST_CACHE_SIZE : Z := Z.shiftl 1 CPU_INST_CACHE_BITS.
Definition CPU_INST_CACHE_MASK : Z := CPU_INST_CACHE_SIZE - 1.

Definition INST_CACHE_MODE_LONG_MODE_ACTIVE : Z := 0x1.
Definition INST_CACHE_MODE_CS_LONG_MODE : Z := 0x2.
Definition INST_CACHE_MODE_CS_DB : Z := 0x4.

Definition cpu_inst_cache_compute_mode_key_bits (ctx : CPU_CONTEXT) : Z :=
  let bits := 0 in
  let bits := if c_long_mode_active ctx then Z.lor bits INST_CACHE_MODE_LONG_MODE_ACTIVE else bits in
  let bits := if cs_long_mode ctx then Z.lor bits INST_CACHE_MODE_CS_LONG_MODE else bits in
  if cs_db ctx then Z.lor bits INST_CACHE_MODE_CS_DB else bits.

(** The key's bits; the context caches them. *)
Definition cpu_inst_cache_mode_key : ST CPU_CONTEXT Z := fun ctx =>
  if c_cached_mode_key_valid ctx then (c_cached_mode_key_bits ctx, ctx)
  else
    let bits := cpu_inst_cache_compute_mode_key_bits ctx in
    (bits, set_c_cached_mode_key_valid true (set_c_cached_mode_key_bits bits ctx)).

Definition cpu_inst_cache_mode_key_const (ctx : CPU_CONTEXT) : Z := cpu_inst_cache_compute_mode_key_bits ctx.

Definition cpu_invalidate_mode_key_cache (ctx : CPU_CONTEXT) : CPU_CONTEXT := set_c_cached_mode_key_valid false ctx.

Record InstCacheEntry := mkIcEntry {
  ic_tag : Z;
  ic_version : Z;
  ic_mode : Z;
  ic_decoded : DecodedInst;
}.

Definition zero_ic_entry : InstCacheEntry := mkIcEntry 0 0 0 decoded_inst_clear.

(** [slots[0 .. CPU_INST_CACHE_SIZE)]. *)
Definition InstCache : Type := gmap Z InstCacheEntry.

Definition slot_at (cache : InstCache) (index : Z) : InstCacheEntry := default zero_ic_entry (cache !! index).

Definition cpu_inst_cache_index (rip : Z) : Z :=
  let mixed := Z.lxor (Z.lxor rip (Z.shiftr rip 13)) (Z.shiftr rip 27) in
  u32 (Z.land mixed CPU_INST_CACHE_MASK).

Definition cpu_inst_cache_flush (cache : InstCache) : InstCache := ∅.

(** The hit test: the slot answers for this address, this code version and this mode. *)
Definition cache_hit (slot : InstCacheEntry) (version rip mode : Z) : bool :=
  (ic_tag slot =? rip) && (ic_version slot =? version) && (ic_mode slot =? mode).

Definition cpu_inst_cache_lookup (cache : InstCache) (mgr : MEMORY_MANAGER) (rip mode : Z) : option InstCacheEntry :=
  let slot := slot_at cache (cpu_inst_cache_index rip) in
  if negb (cache_hit slot (mm_code_version mgr) rip mode) then None else Some slot.

(** [cpu_inst_cache_reserve], the decoded instruction stored, [cpu_inst_cache_commit]. *)
Definition cpu_inst_cache_commit (mgr : MEMORY_MANAGER) (rip mode : Z) (decoded : DecodedInst) (cache : InstCache) : InstCache :=
  <[cpu_inst_cache_index rip := mkIcEntry rip (mm_code_version mgr) mode decoded]> cache.

(** ** The cache as a history of commits and version bumps *)

Inductive cache_event :=
| Commit (rip mode : Z) (decoded : DecodedInst)
| Bump.

Definition cache_event_run (e : cache_event) (st : InstCache * MEMORY_MANAGER) : InstCache * MEMORY_MANAGER :=
  let '(cache, mgr) := st in
  match e with
  | Commit rip mode decoded => (cpu_inst_cache_commit mgr rip mode decoded cache, mgr)
  | Bump => (cache, mm_bump_code_version mgr)
  end.

(** The latest event comes first. *)
Definition run_history (history : list cache_event) (st : InstCache * MEMORY_MANAGER) : InstCache * MEMORY_MANAGER :=
  fold_right cache_event_run st history.

(** What the cache promises: the instruction of the latest commit to the slot since the last
    bump, when it was made for this address and mode. *)
Fixpoint cached_decode (history : list cache_event) (rip mode : Z) : option DecodedInst :=
  match history with
  | [] => None
  | Bump :: _ => None
  | Commit r m d :: history =>
      if cpu_inst_cache_index r =? cpu_inst_cache_index rip
      then (if (r =? rip) && (m =? mode) then Some d else None)
      else cached_decode history rip mode
  end.

Fixpoint bumps (history : list cache_event) : Z :=
  match history with
  | [] => 0
  | e :: history => (match e with Bump => 1 | Commit _ _ _ => 0 end) + bumps history
  end.

Lemma bumps_nonneg h : 0 <= bumps h.
Proof. induction h as [| [] h IH]; cbn; lia. Qed.

Lemma bump_version mgr : 0 <= mm_code_version mgr < 2 ^ 64 - 1 -> mm_code_version (mm_bump_code_version mgr) = mm_code_version mgr + 1.
Proof.
  intros. unfold mm_bump_code_version. rewrite wrap_small by (split; lia).
  destruct (Z.eqb_spec (mm_code_version mgr + 1) 0); [lia | done].
Qed.

Lemma slot_at_empty i : slot_at ∅ i = zero_ic_entry.
Proof. exact (f_equal (default zero_ic_entry) (lookup_empty (M:=gmap Z) i)). Qed.

Lemma slot_at_insert_eq (cache : InstCache) i e : slot_at (<[i := e]> cache) i = e.
Proof. exact (f_equal (default zero_ic_entry) (lookup_insert_eq (M:=gmap Z) cache i e)). Qed.

Lemma slot_at_insert_ne (cache : InstCache) i j e : i <> j -> slot_at (<[i := e]> cache) j = slot_at cache j.
Proof. intros Hne. exact (f_equal (default zero_ic_entry) (lookup_insert_ne (M:=gmap Z) cache i j e Hne)). Qed.

(** The version after a history and the bound on the versions in the slots. *)
Lemma run_history_version h mgr :
  1 <= mm_code_version mgr -> mm_code_version mgr + bumps h < 2 ^ 64 ->
  mm_code_version (snd (run_history h (∅, mgr))) = mm_code_version mgr + bumps h /\
  forall i, ic_version (slot_at (fst (run_history h (∅, mgr))) i) <= mm_code_version mgr + bumps h.
Proof.
  intros Hv. induction h as [| e h IH]; intros Hb.
  - split; [cbn; lia |]. intros i. cbn [run_history fold_right fst]. rewrite slot_at_empty. cbn. lia.
  - cbn [bumps] in *. pose proof (bumps_nonneg h). destruct IH as [IHv IHs]; [destruct e; lia |].
    cbn [run_history fold_right] in *. fold (run_history h (∅, mgr)). destruct (run_history h (∅, mgr)) as [cache m].
    cbn [fst snd] in *. destruct e as [rip mode d |]; cbn [cache_event_run fst snd].
    + split; [lia |]. intros i. unfold cpu_inst_cache_commit.
      destruct (decide (cpu_inst_cache_index rip = i)) as [<- | Hne].
      * rewrite slot_at_insert_eq. cbn. lia.
      * rewrite slot_at_insert_ne by done. specialize (IHs i). lia.
    + split; [rewrite bump_version; lia |]. intros i. specialize (IHs i). lia.
Qed.

Lemma lookup_commit mgr r m d cache rip mode :
  option_map ic_decoded (cpu_inst_cache_lookup (cpu_inst_cache_commit mgr r m d cache) mgr rip mode) =
  if cpu_inst_cache_index r =? cpu_inst_cache_index rip
  then (if (r =? rip) && (m =? mode) then Some d else None)
  else option_map ic_decoded (cpu_inst_cache_lookup cache mgr rip mode).
Proof.
  unfold cpu_inst_cache_lookup, cpu_inst_cache_commit.
  destruct (Z.eqb_spec (cpu_inst_cache_index r) (cpu_inst_cache_index rip)) as [-> | Hne].
  - rewrite slot_at_insert_eq. unfold cache_hit. cbn. rewrite Z.eqb_refl, andb_true_r.
    by destruct (_ && _).
  - by rewrite slot_at_insert_ne.
Qed.

(** A version no slot carries misses everywhere. *)
Lemma lookup_newer cache mgr rip mode :
  (forall i, ic_version (slot_at cache i) < mm_code_version mgr) -> cpu_inst_cache_lookup cache mgr rip mode = None.
Proof.
  intros Hs. unfold cpu_inst_cache_lookup, cache_hit. specialize (Hs (cpu_inst_cache_index rip)).
  destruct (Z.eqb_spec (ic_version (slot_at cache (cpu_inst_cache_index rip))) (mm_code_version mgr)); [lia |].
  by rewrite andb_false_r.
Qed.

(** C7: the instruction cache implements its history.  Starting from the zeroed slots [calloc]
    gives, after any interleaving of commits and code-version bumps short of 2^64 of them, a
    lookup answers exactly the instruction of the latest commit to the slot since the last bump
    when that was for this address and mode, and misses otherwise: a zeroed slot never answers,
    a bump invalidates every entry at once, and two addresses that share a slot never answer for
    each other. *)
Theorem inst_cache_refines_history history mgr rip mode
  (Hv : 1 <= mm_code_version mgr) (Hb : mm_code_version mgr + bumps history < 2 ^ 64) :
  let '(cache, mgr') := run_history history (∅, mgr) in
  option_map ic_decoded (cpu_inst_cache_lookup cache mgr' rip mode) = cached_decode history rip mode.
Proof.
  induction history as [| e h IH].
  - cbn [run_history fold_right]. unfold cpu_inst_cache_lookup, cache_hit. rewrite slot_at_empty.
    cbn [ic_version zero_ic_entry].
    destruct (Z.eqb_spec 0 (mm_code_version mgr)); [lia |]. by rewrite andb_false_r.
  - cbn [bumps] in Hb. pose proof (bumps_nonneg h).
    destruct (run_history_version h mgr Hv) as [Hver Hslots]; [destruct e; lia |].
    cbn [run_history fold_right] in *. fold (run_history h (∅, mgr)) in *.
    destruct (run_history h (∅, mgr)) as [cache m]. cbn [fst snd] in *.
    destruct e as [r mo d |]; cbn [cache_event_run cached_decode].
    + rewrite lookup_commit. destruct (_ =? _); [done |]. apply IH. lia.
    + rewrite lookup_newer; [done |]. intros i. specialize (Hslots i). rewrite bump_version; lia.
Qed.

Lemma inst_cache_refines_history_witness :
  let '(cache, mgr') := run_history [Commit 0x2000 3 decoded_inst_clear; Bump; Commit 0x1000 3 decoded_inst_clear] (∅, mm_init) in
  option_map ic_decoded (cpu_inst_cache_lookup cache mgr' 0x2000 3) = Some decoded_inst_clear /\
  option_map ic_decoded (cpu_inst_cache_lookup cache mgr' 0x1000 3) = None.
Proof.
  pose (h := [Commit 0x2000 3 decoded_inst_clear; Bump; Commit 0x1000 3 decoded_inst_clear]).
  assert (H1 := inst_cache_refines_history h mm_init 0x2000 3).
  assert (H2 := inst_cache_refines_history h mm_init 0x1000 3).
  discharge H1. discharge H2. subst h.
  destruct (run_history _ _) as [cache mgr']. split; [exact H1 | exact H2].
Defined.

(** ** The mode key *)

Definition mode_key_ok (ctx : CPU_CONTEXT) : Prop :=
  c_cached_mode_key_valid ctx = true -> c_cached_mode_key_bits ctx = cpu_inst_cache_compute_mode_key_bits ctx.

Lemma mode_key_fresh ctx :
  mode_key_ok ctx ->
  result cpu_inst_cache_mode_key ctx = cpu_inst_cache_compute_mode_key_bits ctx /\
  mode_key_ok (final cpu_inst_cache_mode_key ctx).
Proof.
  intros Hok. unfold result, final, cpu_inst_cache_mode_key.
  destruct (c_cached_mode_key_valid ctx) eqn:E; cbn; [by split; [apply Hok |] |]. done.
Qed.

Lemma mode_bits_inj a b :
  cpu_inst_cache_compute_mode_key_bits a = cpu_inst_cache_compute_mode_key_bits b ->
  c_long_mode_active a = c_long_mode_active b /\ cs_long_mode a = cs_long_mode b /\ cs_db a = cs_db b.
Proof.
  unfold cpu_inst_cache_compute_mode_key_bits.
  destruct (c_long_mode_active a), (c_long_mode_active b), (cs_long_mode a), (cs_long_mode b), (cs_db a), (cs_db b); done.
Qed.

(** A mode key stands for the decoding mode.  While the cached key is coherent (unset or
    computed from the current mode) the accessor returns the key of the current mode and keeps it
    coherent; invalidating it makes it coherent whatever was changed; and two contexts with the
    same key answer alike to every mode question the decoder may ask: 64-bit or compatibility
    code, REX prefixes, default operand and address sizes, canonical checks, flat segments. *)
Theorem mode_key_determines_decoding_mode a b (Ha : mode_key_ok a) (Hb : mode_key_ok b)
  (Hkey : result cpu_inst_cache_mode_key a = result cpu_inst_cache_mode_key b) :
  (cpu_is_64bit_code a = cpu_is_64bit_code b /\ cpu_is_compatibility_code a = cpu_is_compatibility_code b /\
   cpu_is_compat32_code a = cpu_is_compat32_code b /\ cpu_allows_rex_prefix a = cpu_allows_rex_prefix b /\
   cpu_default_operand_size a = cpu_default_operand_size b /\ cpu_default_address_size a = cpu_default_address_size b /\
   cpu_uses_canonical_addresses a = cpu_uses_canonical_addresses b /\
   cpu_uses_flat_segment_bases a = cpu_uses_flat_segment_bases b) /\
  result cpu_inst_cache_mode_key a = cpu_inst_cache_mode_key_const a /\
  mode_key_ok (final cpu_inst_cache_mode_key a) /\
  forall ctx, mode_key_ok (cpu_invalidate_mode_key_cache ctx).
Proof.
  destruct (mode_key_fresh a Ha) as [Ea Fa], (mode_key_fresh b Hb) as [Eb _].
  rewrite Ea, Eb in Hkey. apply mode_bits_inj in Hkey as (E1 & E2 & E3).
  unfold cpu_is_64bit_code, cpu_is_compatibility_code, cpu_is_compat32_code, cpu_allows_rex_prefix,
    cpu_default_operand_size, cpu_default_address_size, cpu_uses_canonical_addresses, cpu_uses_flat_segment_bases,
    cpu_is_64bit_code, cpu_is_compatibility_code, cpu_long_mode_active.
  rewrite E1, E2, E3. split_and!; done.
Qed.

Lemma mode_key_determines_decoding_mode_witness :
  cpu_is_64bit_code (init_cpu_context false) = cpu_is_64bit_code (set_c_rip 0x1000 (init_cpu_context false)).
Proof.
  assert (Ka : mode_key_ok (init_cpu_context false)) by (intros E; discriminate E).
  assert (Kb : mode_key_ok (set_c_rip 0x1000 (init_cpu_context false))) by (intros E; discriminate E).
  assert (H := mode_key_determines_decoding_mode _ _ Ka Kb).
  discharge H. destruct H as [[H _] _]. exact H.
Defined.

(** ** Probing without side effects *)

(** The part of the context a decoder may write. *)
Definition decode_frame (ctx : CPU_CONTEXT) : CPU_CONTEXT :=
  decoder_restore_ctx_scratch (decoder_save_ctx_scratch (init_cpu_context false)) ctx.

(** Probing a decoder leaves no trace.  Restoring the scratch saved before undoes any change
    of the fields a decoder writes (prefix bits, segment override, size, exception), and stamping
    captured prefix bits gives a context with the prefix bits they were captured from and all
    else unchanged. *)
Theorem decoder_probe_leaves_no_trace ctx ctx' dec (Hframe : decode_frame ctx' = decode_frame ctx) :
  decoder_restore_ctx_scratch (decoder_save_ctx_scratch ctx) ctx' = ctx /\
  decoded_inst_apply_prefix (decoded_inst_capture_prefix_from_ctx ctx dec) ctx = ctx /\
  decoded_inst_apply_prefix (decoded_inst_capture_prefix_from_ctx ctx dec) ctx'
  = decoder_restore_ctx_scratch
      (mkScratch (c_rex_present ctx) (c_rex_w ctx) (c_rex_r ctx) (c_rex_x ctx) (c_rex_b ctx)
         (c_operand_size_override ctx) (c_address_size_override ctx) (c_segment_override ctx')
         (c_last_inst_size ctx') (c_exception ctx')) ctx.
Proof.
  destruct ctx, ctx'. unfold decode_frame, decoder_restore_ctx_scratch in *. cbn in Hframe. simplify_eq.
  split_and!; reflexivity.
Qed.

Lemma decoder_probe_leaves_no_trace_witness :
  let ctx := init_cpu_context false in
  decoder_restore_ctx_scratch (decoder_save_ctx_scratch ctx) (raise_ud_ctx (set_c_rex_w true ctx)) = ctx.
Proof.
  intros ctx.
  assert (E : decode_frame (raise_ud_ctx (set_c_rex_w true ctx)) = decode_frame ctx) by (vm_compute; reflexivity).
  exact (proj1 (decoder_probe_leaves_no_trace ctx (raise_ud_ctx (set_c_rex_w true ctx)) decoded_inst_clear E)).
Defined.
