(* ===== verification/Machine.v ===== *)
(** * cpueaxh.cpp: the engine, its hooks and its escapes

    [cpueaxh_engine] is the state every later component works on: the memory manager with the host
    memory, the CPU context, the instruction cache, the 64 hook slots with a count per hook type,
    and the escape entries with an index per instruction.  Callbacks are code of the embedding
    program: a callback pointer is a [Z] ([NULL] = 0) and what the function behind it does to the
    engine is the parameter [Callbacks].  The table of escapes is [escapes[0 .. escape_count)]; the
    block the array occupies is [en_escapes_ptr].  The theorems: adding and deleting hooks keeps the
    counts equal to the number of used slots of each type, so that the count test and the early exit
    of the dispatch loops lose no hook, and the escape index finds exactly the registered entries. *)

From Stdlib Require Import ZArith Bool List Lia.
From stdpp Require Import base tactics list gmap.
From S2P Require Import Prelude CpuDef HostMemory RegionTable InstCache.

Definition CPUEAXH_MAX_HOOKS : Z := 64.
Definition CPUEAXH_ESCAPE_INSN_NONE : Z := 0.
Definition CPUEAXH_ESCAPE_INSN_MAX : Z := 19.

Definition CPUEAXH_ERR_OK : Z := 0.
Definition CPUEAXH_ERR_NOMEM : Z := 1.
Definition CPUEAXH_ERR_ARG : Z := 2.
Definition CPUEAXH_ERR_HOOK : Z := 10.

Record CPUEAXH_HOOK_ENTRY := mkHook {
  h_used : bool;
  h_handle : Z;
  h_type : Z;
  h_code_callback : Z;
  h_mem_callback : Z;
  h_invalid_mem_callback : Z;
  h_user_data : Z;
  h_begin : Z;
  h_end : Z;
}.

Definition zero_hook : CPUEAXH_HOOK_ENTRY := mkHook false 0 0 0 0 0 0 0 0.

Record CPUEAXH_ESCAPE_ENTRY := mkEscape {
  esc_handle : Z;
  esc_instruction_id : Z;
  esc_callback : Z;
  esc_user_data : Z;
  esc_begin : Z;
  esc_end : Z;
}.

Definition zero_escape : CPUEAXH_ESCAPE_ENTRY := mkEscape 0 0 0 0 0 0.
Definition sizeof_CPUEAXH_ESCAPE_ENTRY : Z := 48.

Record cpueaxh_engine := mkEngine {
  en_mem : MemState;
  en_context : CPU_CONTEXT;
  en_inst_cache : InstCache;
  en_hooks : list CPUEAXH_HOOK_ENTRY;
  en_hook_type_counts : list Z;
  en_escape_index_by_id : list Z;
  en_escapes : list CPUEAXH_ESCAPE_ENTRY;
  en_escapes_ptr : Z;
  en_escape_capacity : Z;
  en_next_hook : Z;
  en_memory_mode : Z;
  en_stop_requested : bool;
  en_last_error : Z;
}.

Definition set_en_mem (v : MemState) (r : cpueaxh_engine) : cpueaxh_engine :=
  mkEngine v (en_context r) (en_inst_cache r) (en_hooks r) (en_hook_type_counts r)
    (en_escape_index_by_id r) (en_escapes r) (en_escapes_ptr r) (en_escape_capacity r)
    (en_next_hook r) (en_memory_mode r) (en_stop_requested r) (en_last_error r).
Definition set_en_context (v : CPU_CONTEXT) (r : cpueaxh_engine) : cpueaxh_engine :=
  mkEngine (en_mem r) v (en_inst_cache r) (en_hooks r) (en_hook_type_counts r)
    (en_escape_index_by_id r) (en_escapes r) (en_escapes_ptr r) (en_escape_capacity r)
    (en_next_hook r) (en_memory_mode r) (en_stop_requested r) (en_last_error r).
Definition set_en_inst_cache (v : InstCache) (r : cpueaxh_engine) : cpueaxh_engine :=
  mkEngine (en_mem r) (en_context r) v (en_hooks r) (en_hook_type_counts r)
    (en_escape_index_by_id r) (en_escapes r) (en_escapes_ptr r) (en_escape_capacity r)
    (en_next_hook r) (en_memory_mode r) (en_stop_requested r) (en_last_error r).
Definition set_en_hooks (v : list CPUEAXH_HOOK_ENTRY) (r : cpueaxh_engine) : cpueaxh_engine :=
  mkEngine (en_mem r) (en_context r) (en_inst_cache r) v (en_hook_type_counts r)
    (en_escape_index_by_id r) (en_escapes r) (en_escapes_ptr r) (en_escape_capacity r)
    (en_next_hook r) (en_memory_mode r) (en_stop_requested r) (en_last_error r).
Definition set_en_hook_type_counts (v : list Z) (r : cpueaxh_engine) : cpueaxh_engine :=
  mkEngine (en_mem r) (en_context r) (en_inst_cache r) (en_hooks r) v (en_escape_index_by_id r)
    (en_escapes r) (en_escapes_ptr r) (en_escape_capacity r) (en_next_hook r)
    (en_memory_mode r) (en_stop_requested r) (en_last_error r).
Definition set_en_escape_index_by_id (v : list Z) (r : cpueaxh_engine) : cpueaxh_engine :=
  mkEngine (en_mem r) (en_context r) (en_inst_cache r) (en_hooks r) (en_hook_type_counts r) v
    (en_escapes r) (en_escapes_ptr r) (en_escape_capacity r) (en_next_hook r)
    (en_memory_mode r) (en_stop_requested r) (en_last_error r).
Definition set_en_escapes (v : list CPUEAXH_ESCAPE_ENTRY) (r : cpueaxh_engine) : cpueaxh_engine :=
  mkEngine (en_mem r) (en_context r) (en_inst_cache r) (en_hooks r) (en_hook_type_counts r)
    (en_escape_index_by_id r) v (en_escapes_ptr r) (en_escape_capacity r) (en_next_hook r)
    (en_memory_mode r) (en_stop_requested r) (en_last_error r).
Definition set_en_escapes_ptr (v : Z) (r : cpueaxh_engine) : cpueaxh_engine :=
  mkEngine (en_mem r) (en_context r) (en_inst_cache r) (en_hooks r) (en_hook_type_counts r)
    (en_escape_index_by_id r) (en_escapes r) v (en_escape_capacity r) (en_next_hook r)
    (en_memory_mode r) (en_stop_requested r) (en_last_error r).
Definition set_en_escape_capacity (v : Z) (r : cpueaxh_engine) : cpueaxh_engine :=
  mkEngine (en_mem r) (en_context r) (en_inst_cache r) (en_hooks r) (en_hook_type_counts r)
    (en_escape_index_by_id r) (en_escapes r) (en_escapes_ptr r) v (en_next_hook r)
    (en_memory_mode r) (en_stop_requested r) (en_last_error r).
Definition set_en_next_hook (v : Z) (r : cpueaxh_engine) : cpueaxh_engine :=
  mkEngine (en_mem r) (en_context r) (en_inst_cache r) (en_hooks r) (en_hook_type_counts r)
    (en_escape_index_by_id r) (en_escapes r) (en_escapes_ptr r) (en_escape_capacity r) v
    (en_memory_mode r) (en_stop_requested r) (en_last_error r).
Definition set_en_memory_mode (v : Z) (r : cpueaxh_engine) : cpueaxh_engine :=
  mkEngine (en_mem r) (en_context r) (en_inst_cache r) (en_hooks r) (en_hook_type_counts r)
    (en_escape_index_by_id r) (en_escapes r) (en_escapes_ptr r) (en_escape_capacity r)
    (en_next_hook r) v (en_stop_requested r) (en_last_error r).
Definition set_en_stop_requested (v : bool) (r : cpueaxh_engine) : cpueaxh_engine :=
  mkEngine (en_mem r) (en_context r) (en_inst_cache r) (en_hooks r) (en_hook_type_counts r)
    (en_escape_index_by_id r) (en_escapes r) (en_escapes_ptr r) (en_escape_capacity r)
    (en_next_hook r) (en_memory_mode r) v (en_last_error r).
Definition set_en_last_error (v : Z) (r : cpueaxh_engine) : cpueaxh_engine :=
  mkEngine (en_mem r) (en_context r) (en_inst_cache r) (en_hooks r) (en_hook_type_counts r)
    (en_escape_index_by_id r) (en_escapes r) (en_escapes_ptr r) (en_escape_capacity r)
    (en_next_hook r) (en_memory_mode r) (en_stop_requested r) v.

(** ** The engine as the state of a computation *)

Definition on_ctx {A} (c : ST CPU_CONTEXT A) : ST cpueaxh_engine A := st_zoom en_context set_en_context c.
Definition on_mem {A} (c : ST MemState A) : ST cpueaxh_engine A := st_zoom en_mem set_en_mem c.
Definition mod_ctx (f : CPU_CONTEXT -> CPU_CONTEXT) : ST cpueaxh_engine unit :=
  st_modify (fun e => set_en_context (f (en_context e)) e).
Definition get_ctx {A} (f : CPU_CONTEXT -> A) : ST cpueaxh_engine A := st_gets (fun e => f (en_context e)).
Definition mod_engine (f : cpueaxh_engine -> cpueaxh_engine) : ST cpueaxh_engine unit := st_modify f.

(** The functions of the embedding program behind the callback pointers.  Each may do anything to
    the engine it is given: call back into the API, change registers or memory, add hooks. *)
Class Callbacks := {
  cb_hookcode : forall (callback address user_data : Z), ST cpueaxh_engine unit;
  cb_hookmem : forall (callback type address size value user_data : Z), ST cpueaxh_engine unit;
  cb_hookmem_invalid : forall (callback type address size value user_data : Z), ST cpueaxh_engine Z;
}.

Definition hook_at (engine : cpueaxh_engine) (index : Z) : CPUEAXH_HOOK_ENTRY := arr_get zero_hook (en_hooks engine) index.
Definition count_at (engine : cpueaxh_engine) (type : Z) : Z := arr_get 0 (en_hook_type_counts engine) type.

(** [0, 1, ..., CPUEAXH_MAX_HOOKS - 1]. *)
Definition hook_slots : list Z := seqZ 0 CPUEAXH_MAX_HOOKS.

Definition cpueaxh_range_contains (begin end_ address : Z) : bool :=
  if (begin =? 0) && (end_ =? 0) then true
  else if end_ =? 0 then begin <=? address
  else (begin <=? address) && (address <=? end_).

Definition cpueaxh_is_code_hook_type (type : Z) : bool :=
  (type =? CPUEAXH_HOOK_CODE_PRE) || (type =? CPUEAXH_HOOK_CODE_POST).

Definition cpueaxh_is_invalid_memory_hook_type (type : Z) : bool :=
  (type =? CPUEAXH_HOOK_MEM_READ_UNMAPPED) || (type =? CPUEAXH_HOOK_MEM_WRITE_UNMAPPED)
  || (type =? CPUEAXH_HOOK_MEM_FETCH_UNMAPPED) || (type =? CPUEAXH_HOOK_MEM_READ_PROT)
  || (type =? CPUEAXH_HOOK_MEM_WRITE_PROT) || (type =? CPUEAXH_HOOK_MEM_FETCH_PROT).

Definition cpueaxh_is_supported_hook_type (type : Z) : bool :=
  cpueaxh_is_code_hook_type type || (type =? CPUEAXH_HOOK_MEM_READ) || (type =? CPUEAXH_HOOK_MEM_WRITE)
  || (type =? CPUEAXH_HOOK_MEM_FETCH) || cpueaxh_is_invalid_memory_hook_type type.

(** [type] is unsigned. *)
Definition cpueaxh_is_hook_type_index_valid (type : Z) : bool := type <=? CPUEAXH_HOOK_MEM_FETCH_PROT.

Definition cpueaxh_is_escape_index_valid (instruction_id : Z) : bool :=
  (CPUEAXH_ESCAPE_INSN_NONE <? instruction_id) && (instruction_id <=? CPUEAXH_ESCAPE_INSN_MAX).

Definition escape_count (engine : cpueaxh_engine) : Z := Z.of_nat (length (en_escapes engine)).
Definition escape_at (engine : cpueaxh_engine) (index : Z) : CPUEAXH_ESCAPE_ENTRY := arr_get zero_escape (en_escapes engine) index.

(** The loop of [cpueaxh_rebuild_escape_index] from [index] on. *)
Fixpoint escape_index_loop (escapes : list CPUEAXH_ESCAPE_ENTRY) (index : Z) (table : list Z) : list Z :=
  match escapes with
  | [] => table
  | escape :: escapes =>
      let instruction_id := esc_instruction_id escape in
      escape_index_loop escapes (index + 1)
        (if cpueaxh_is_escape_index_valid instruction_id && (index <? 0xFF)
         then arr_set table instruction_id (u8 (index + 1)) else table)
  end.

Definition cpueaxh_rebuild_escape_index (engine : cpueaxh_engine) : cpueaxh_engine :=
  set_en_escape_index_by_id
    (escape_index_loop (en_escapes engine) 0 (repeat 0 (Z.to_nat (CPUEAXH_ESCAPE_INSN_MAX + 1)))) engine.

Definition cpueaxh_lookup_escape_entry (engine : cpueaxh_engine) (instruction_id : Z) : option CPUEAXH_ESCAPE_ENTRY :=
  if negb (cpueaxh_is_escape_index_valid instruction_id) then None
  else
    let encoded_index := arr_get 0 (en_escape_index_by_id engine) instruction_id in
    if encoded_index =? 0 then None
    else
      let index := encoded_index - 1 in
      if escape_count engine <=? index then None
      else
        let escape := escape_at engine index in
        if esc_instruction_id escape =? instruction_id then Some escape else None.

Definition cpueaxh_adjust_hook_type_count (type delta : Z) (engine : cpueaxh_engine) : cpueaxh_engine :=
  if negb (cpueaxh_is_hook_type_index_valid type) || (delta =? 0) then engine
  else
    let count := count_at engine type in
    let count' := if 0 <? delta then u16 (count + u16 delta)
                  else let amount := u16 (- delta) in if amount <? count then u16 (count - amount) else 0 in
    set_en_hook_type_counts (arr_set (en_hook_type_counts engine) type count') engine.

Definition cpu_has_hook_type (engine : cpueaxh_engine) (type : Z) : bool :=
  if negb (c_owner_engine (en_context engine)) || negb (cpueaxh_is_hook_type_index_valid type) then false
  else negb (count_at engine type =? 0).

Section dispatch.
Context `{Callbacks}.

(** The loop over the slots reads each slot when it comes to it: an earlier callback may have changed it. *)
Fixpoint notify_loop (slots : list Z) (type address size value : Z) : ST cpueaxh_engine unit :=
  match slots with
  | [] => st_ret tt
  | index :: slots =>
      let* hook := st_gets (fun e => hook_at e index) in
      (if negb (h_used hook) || negb (h_type hook =? type) || (h_mem_callback hook =? 0) then st_ret tt
       else if negb (cpueaxh_range_contains (h_begin hook) (h_end hook) address) then st_ret tt
       else cb_hookmem (h_mem_callback hook) type address size value (h_user_data hook)) ;;;
      notify_loop slots type address size value
  end.

Definition cpu_notify_memory_hook (type address size value : Z) : ST cpueaxh_engine unit :=
  let* has := st_gets (fun e => cpu_has_hook_type e type) in
  if negb has then st_ret tt else notify_loop hook_slots type address size value.

Fixpoint notify_invalid_loop (slots : list Z) (handled : bool) (type address size value : Z) : ST cpueaxh_engine bool :=
  match slots with
  | [] => st_ret handled
  | index :: slots =>
      let* hook := st_gets (fun e => hook_at e index) in
      let* handled :=
        (if negb (h_used hook) || negb (h_type hook =? type) || (h_invalid_mem_callback hook =? 0) then st_ret handled
         else if negb (cpueaxh_range_contains (h_begin hook) (h_end hook) address) then st_ret handled
         else
           let* r := cb_hookmem_invalid (h_invalid_mem_callback hook) type address size value (h_user_data hook) in
           st_ret (if negb (r =? 0) then true else handled)) in
      notify_invalid_loop slots handled type address size value
  end.

Definition cpu_notify_invalid_memory_hook (type address size value : Z) : ST cpueaxh_engine bool :=
  let* has := st_gets (fun e => cpu_has_hook_type e type) in
  if negb has then st_ret false else notify_invalid_loop hook_slots false type address size value.

Fixpoint code_hook_loop (slots : list Z) (remaining type address : Z) : ST cpueaxh_engine unit :=
  match slots with
  | [] => st_ret tt
  | index :: slots =>
      if remaining =? 0 then st_ret tt
      else
        let* hook := st_gets (fun e => hook_at e index) in
        if negb (h_used hook) || negb (h_type hook =? type) then code_hook_loop slots remaining type address
        else
          (if h_code_callback hook =? 0 then st_ret tt
           else if negb (cpueaxh_range_contains (h_begin hook) (h_end hook) address) then st_ret tt
           else cb_hookcode (h_code_callback hook) address (h_user_data hook)) ;;;
          code_hook_loop slots (remaining - 1) type address
  end.

Definition cpueaxh_dispatch_code_hooks (type address : Z) : ST cpueaxh_engine unit :=
  let* engine := st_get in
  if negb (cpueaxh_is_hook_type_index_valid type) || (count_at engine type =? 0) then st_ret tt
  else code_hook_loop hook_slots (count_at engine type) type address.

End dispatch.

(** ** Adding and deleting hooks and escapes *)

Definition first_free_hook (engine : cpueaxh_engine) : option Z :=
  List.find (fun index => negb (h_used (hook_at engine index))) hook_slots.

(** The slot a new hook is written to: its callback goes to the field of its type. *)
Definition hook_entry (handle type callback user_data begin end_ : Z) : CPUEAXH_HOOK_ENTRY :=
  if cpueaxh_is_code_hook_type type then mkHook true handle type callback 0 0 user_data begin end_
  else if cpueaxh_is_invalid_memory_hook_type type then mkHook true handle type 0 0 callback user_data begin end_
  else mkHook true handle type 0 callback 0 user_data begin end_.

(** The status with [*out_hook] when it is written. *)
Definition cpueaxh_hook_add (type callback user_data begin end_ : Z) : ST cpueaxh_engine (Z * option Z) := fun engine =>
  if callback =? 0 then ((CPUEAXH_ERR_ARG, None), engine)
  else if negb (cpueaxh_is_supported_hook_type type) then ((CPUEAXH_ERR_HOOK, None), engine)
  else
    match first_free_hook engine with
    | None => ((CPUEAXH_ERR_HOOK, None), engine)
    | Some index =>
        let handle := en_next_hook engine in
        let entry := hook_entry handle type callback user_data begin end_ in
        let engine := set_en_next_hook (u64 (handle + 1)) engine in
        let engine := set_en_hooks (arr_set (en_hooks engine) index entry) engine in
        ((CPUEAXH_ERR_OK, Some handle), cpueaxh_adjust_hook_type_count type 1 engine)
    end.

Definition cpueaxh_hook_add_address (type callback user_data address : Z) : ST cpueaxh_engine (Z * option Z) :=
  cpueaxh_hook_add type callback user_data address address.

Fixpoint find_escape_index (escapes : list CPUEAXH_ESCAPE_ENTRY) (handle : Z) : option nat :=
  match escapes with
  | [] => None
  | escape :: escapes =>
      if esc_handle escape =? handle then Some O else option_map S (find_escape_index escapes handle)
  end.

Definition cpueaxh_hook_del (hook : Z) : ST cpueaxh_engine Z := fun engine =>
  match List.find (fun index => h_used (hook_at engine index) && (h_handle (hook_at engine index) =? hook)) hook_slots with
  | Some index =>
      let engine := cpueaxh_adjust_hook_type_count (h_type (hook_at engine index)) (-1) engine in
      (CPUEAXH_ERR_OK, set_en_hooks (arr_set (en_hooks engine) index zero_hook) engine)
  | None =>
      match find_escape_index (en_escapes engine) hook with
      | Some index =>
          (CPUEAXH_ERR_OK, cpueaxh_rebuild_escape_index (set_en_escapes (list_delete index (en_escapes engine)) engine))
      | None => (CPUEAXH_ERR_HOOK, engine)
      end
  end.

(** [while (new_capacity < required_count) new_capacity *= 2]: 64 doublings pass every [size_t]. *)
Fixpoint double_until (fuel : nat) (capacity required : Z) : Z :=
  match fuel with
  | O => capacity
  | S fuel => if capacity <? required then double_until fuel (u64 (capacity * 2)) required else capacity
  end.

Definition cpueaxh_ensure_escape_capacity `{HostAlloc} (required_count : Z) : ST cpueaxh_engine Z :=
  let* engine := st_get in
  if required_count <=? en_escape_capacity engine then st_ret CPUEAXH_ERR_OK
  else
    let new_capacity := double_until 64 (if en_escape_capacity engine =? 0 then 8 else en_escape_capacity engine) required_count in
    let* new_entries := on_mem (on_heap (host_alloc_zeroed (u64 (new_capacity * sizeof_CPUEAXH_ESCAPE_ENTRY)))) in
    if new_entries =? NULL then st_ret CPUEAXH_ERR_NOMEM
    else
      (if negb (en_escapes_ptr engine =? NULL) && negb (escape_count engine =? 0)
       then on_mem (on_heap (host_free (en_escapes_ptr engine))) else st_ret tt) ;;;
      mod_engine (fun e => set_en_escape_capacity new_capacity (set_en_escapes_ptr new_entries e)) ;;;
      st_ret CPUEAXH_ERR_OK.

Definition cpueaxh_escape_add `{HostAlloc} (instruction_id callback user_data begin end_ : Z) : ST cpueaxh_engine (Z * option Z) :=
  if (callback =? 0) || (instruction_id =? CPUEAXH_ESCAPE_INSN_NONE) then st_ret (CPUEAXH_ERR_ARG, None)
  else
    let* engine := st_get in
    match cpueaxh_lookup_escape_entry engine instruction_id with
    | Some _ => st_ret (CPUEAXH_ERR_HOOK, None)
    | None =>
        let* error := cpueaxh_ensure_escape_capacity (escape_count engine + 1) in
        if negb (error =? CPUEAXH_ERR_OK) then st_ret (error, None)
        else
          let handle := en_next_hook engine in
          let escape := mkEscape handle instruction_id callback user_data begin end_ in
          mod_engine (fun e => set_en_next_hook (u64 (handle + 1)) (set_en_escapes (en_escapes e ++ [escape]) e)) ;;;
          mod_engine cpueaxh_rebuild_escape_index ;;;
          st_ret (CPUEAXH_ERR_OK, Some handle)
    end.

Definition cpueaxh_escape_del (hook : Z) : ST cpueaxh_engine Z := cpueaxh_hook_del hook.

(** ** The counts and the slots *)

Definition of_type (type : Z) (h : CPUEAXH_HOOK_ENTRY) : bool := h_used h && (h_type h =? type).

Fixpoint used_count (type : Z) (hooks : list CPUEAXH_HOOK_ENTRY) : Z :=
  match hooks with
  | [] => 0
  | h :: hooks => b2z (of_type type h) + used_count type hooks
  end.

(** A used slot holds its callback in the field its type selects. *)
Definition hook_entry_ok (h : CPUEAXH_HOOK_ENTRY) : Prop :=
  h_used h = true ->
  cpueaxh_is_supported_hook_type (h_type h) = true /\
  (negb (h_code_callback h =? 0) = cpueaxh_is_code_hook_type (h_type h)) /\
  (negb (h_invalid_mem_callback h =? 0) = cpueaxh_is_invalid_memory_hook_type (h_type h)) /\
  (negb (h_mem_callback h =? 0)
   = negb (cpueaxh_is_code_hook_type (h_type h)) && negb (cpueaxh_is_invalid_memory_hook_type (h_type h))).

Definition used_handles (e : cpueaxh_engine) : list Z :=
  map h_handle (List.filter h_used (en_hooks e)) ++ map esc_handle (en_escapes e).

Record hooks_wf (e : cpueaxh_engine) : Prop := {
  hk_slots : length (en_hooks e) = Z.to_nat CPUEAXH_MAX_HOOKS;
  hk_types : length (en_hook_type_counts e) = Z.to_nat (CPUEAXH_HOOK_MEM_FETCH_PROT + 1);
  hk_count : forall type, 0 <= type <= CPUEAXH_HOOK_MEM_FETCH_PROT -> count_at e type = used_count type (en_hooks e);
  hk_entry : Forall hook_entry_ok (en_hooks e);
  hk_handles : NoDup (used_handles e);
  hk_fresh : 0 < en_next_hook e;
  hk_next : Forall (fun h => 0 < h < en_next_hook e) (used_handles e);
}.

Lemma used_count_bounds type l : 0 <= used_count type l <= Z.of_nat (length l).
Proof. induction l as [| h l IH]; cbn; [lia |]. unfold b2z. destruct (of_type type h); lia. Qed.

Lemma used_count_insert type l i x d :
  (i < length l)%nat ->
  used_count type (<[i := x]> l) = used_count type l - b2z (of_type type (nth i l d)) + b2z (of_type type x).
Proof.
  revert i. induction l as [| h l IH]; intros i Hi; [cbn in Hi; lia |].
  destruct i as [| i]; cbn; [lia |]. rewrite IH by (cbn in Hi; lia). lia.
Qed.

Lemma used_count_pos type l : 0 < used_count type l <-> exists h, h ∈ l /\ of_type type h = true.
Proof.
  induction l as [| h l IH]; cbn.
  - split; [lia |]. intros (h & Hin & _). by apply not_elem_of_nil in Hin.
  - pose proof (used_count_bounds type l). unfold b2z. destruct (of_type type h) eqn:E.
    + split; [| lia]. intros _. exists h. split; [left | done].
    + rewrite Z.add_0_l, IH. split; intros (g & Hin & Hg); exists g; (split; [| done]).
      * by right.
      * apply elem_of_cons in Hin as [-> | Hin]; [congruence | done].
Qed.

Lemma supported_range type : cpueaxh_is_supported_hook_type type = true -> 1 <= type <= CPUEAXH_HOOK_MEM_FETCH_PROT.
Proof.
  unfold cpueaxh_is_supported_hook_type, cpueaxh_is_code_hook_type, cpueaxh_is_invalid_memory_hook_type.
  rewrite !orb_true_iff, !Z.eqb_eq. unfold CPUEAXH_HOOK_MEM_FETCH_PROT, CPUEAXH_HOOK_CODE_PRE, CPUEAXH_HOOK_CODE_POST,
    CPUEAXH_HOOK_MEM_READ, CPUEAXH_HOOK_MEM_WRITE, CPUEAXH_HOOK_MEM_FETCH, CPUEAXH_HOOK_MEM_READ_UNMAPPED,
    CPUEAXH_HOOK_MEM_WRITE_UNMAPPED, CPUEAXH_HOOK_MEM_FETCH_UNMAPPED, CPUEAXH_HOOK_MEM_READ_PROT,
    CPUEAXH_HOOK_MEM_WRITE_PROT. lia.
Qed.

(** The count test never hides a hook. *)
Lemma has_hook_type_iff e type :
  hooks_wf e -> 0 <= type ->
  cpu_has_hook_type e type = true <->
  c_owner_engine (en_context e) = true /\ exists h, h ∈ en_hooks e /\ of_type type h = true.
Proof.
  intros Hwf Ht. rewrite <- used_count_pos. unfold cpu_has_hook_type, cpueaxh_is_hook_type_index_valid.
  destruct (c_owner_engine (en_context e)); cbn [negb orb]; [| by split; [| intros [? _]]].
  destruct (Z.leb_spec type CPUEAXH_HOOK_MEM_FETCH_PROT) as [Hle | Hgt]; cbn [negb].
  - rewrite (hk_count _ Hwf) by done. pose proof (used_count_bounds type (en_hooks e)).
    rewrite negb_true_iff, Z.eqb_neq. split; [intros; split; [done | lia] | intros [_ ?]; lia].
  - split; [done |]. intros [_ (h & Hin & Hh)%used_count_pos].
    apply andb_true_iff in Hh as [Hu Hty%Z.eqb_eq].
    pose proof (hk_entry _ Hwf) as He. rewrite Forall_forall in He.
    destruct (He h Hin Hu) as [Hs _]. apply supported_range in Hs. lia.
Qed.

(** ** Dispatch *)

Lemma hook_at_app e l1 h l2 : en_hooks e = l1 ++ h :: l2 -> hook_at e (Z.of_nat (length l1)) = h.
Proof. intros He. unfold hook_at, arr_get. rewrite He, Nat2Z.id. by rewrite nth_middle. Qed.

Lemma slots_cons {A} (x : A) l1 l2 :
  seqZ (Z.of_nat (length l1)) (Z.of_nat (length (x :: l2))) =
  Z.of_nat (length l1) :: seqZ (Z.of_nat (length (l1 ++ [x]))) (Z.of_nat (length l2)).
Proof. rewrite seqZ_cons by (cbn; lia). f_equal. rewrite length_app. cbn. f_equal; lia. Qed.

Definition fires (field : CPUEAXH_HOOK_ENTRY -> Z) (type address : Z) (h : CPUEAXH_HOOK_ENTRY) : bool :=
  of_type type h && negb (field h =? 0) && cpueaxh_range_contains (h_begin h) (h_end h) address.

Lemma count_zero_no_fire field type address l : used_count type l = 0 -> List.filter (fires field type address) l = [].
Proof.
  induction l as [| h l IH]; [done |]. cbn. pose proof (used_count_bounds type l). unfold fires at 1, b2z.
  destruct (of_type type h); cbn; [lia | exact IH].
Qed.

Section dispatch_theorems.
Context `{Callbacks}.

(** The callbacks leave the hook slots alone (they may do anything else). *)
Definition callbacks_keep_hooks : Prop :=
  (forall (cb address user : Z) e, en_hooks (final (cb_hookcode cb address user) e) = en_hooks e) /\
  (forall (cb type address size value user : Z) e, en_hooks (final (cb_hookmem cb type address size value user) e) = en_hooks e) /\
  (forall (cb type address size value user : Z) e, en_hooks (final (cb_hookmem_invalid cb type address size value user) e) = en_hooks e).

Hypothesis Hkeep : callbacks_keep_hooks.

Lemma notify_loop_spec type address size value l2 : forall l1 e,
  en_hooks e = l1 ++ l2 ->
  notify_loop (seqZ (Z.of_nat (length l1)) (Z.of_nat (length l2))) type address size value e =
  st_for (List.filter (fires h_mem_callback type address) l2)
    (fun h => cb_hookmem (h_mem_callback h) type address size value (h_user_data h)) e.
Proof.
  induction l2 as [| h l2 IH]; intros l1 e He; [done |].
  rewrite slots_cons. cbn [notify_loop List.filter]. unfold st_bind, st_gets, st_ret at 1.
  rewrite (hook_at_app _ _ _ _ He). unfold fires at 1, of_type.
  assert (Happ : forall e', en_hooks e' = en_hooks e -> en_hooks e' = (l1 ++ [h]) ++ l2) by (intros e' ->; by rewrite He, <- app_assoc).
  destruct (h_used h), (h_type h =? type), (h_mem_callback h =? 0), (cpueaxh_range_contains _ _ address);
    cbn [negb andb orb]; try by apply IH, Happ.
  cbn [st_for]. pose proof (proj1 (proj2 Hkeep) (h_mem_callback h) type address size value (h_user_data h) e) as Hk.
  unfold final in Hk. destruct (cb_hookmem _ _ _ _ _ _ e) as [u e']. cbn [snd] in *. by apply IH, Happ.
Qed.

Lemma code_hook_loop_spec type address l2 : forall l1 e,
  en_hooks e = l1 ++ l2 ->
  code_hook_loop (seqZ (Z.of_nat (length l1)) (Z.of_nat (length l2))) (used_count type l2) type address e =
  st_for (List.filter (fires h_code_callback type address) l2)
    (fun h => cb_hookcode (h_code_callback h) address (h_user_data h)) e.
Proof.
  induction l2 as [| h l2 IH]; intros l1 e He; [done |].
  rewrite slots_cons. cbn [code_hook_loop List.filter used_count]. pose proof (used_count_bounds type l2).
  assert (Happ : forall e', en_hooks e' = en_hooks e -> en_hooks e' = (l1 ++ [h]) ++ l2) by (intros e' ->; by rewrite He, <- app_assoc).
  destruct (Z.eqb_spec (b2z (of_type type h) + used_count type l2) 0) as [Hz | Hz].
  - assert (Hof : of_type type h = false) by (unfold b2z in Hz; destruct (of_type type h); [lia | done]).
    unfold fires at 1. rewrite Hof in *. cbn [andb]. by rewrite count_zero_no_fire by (cbn in Hz; lia).
  - unfold st_bind, st_gets, st_ret at 1. rewrite (hook_at_app _ _ _ _ He). unfold fires at 1.
    replace (negb (h_used h) || negb (h_type h =? type)) with (negb (of_type type h))
      by (unfold of_type; by rewrite negb_andb).
    destruct (of_type type h); cbn [negb andb b2z].
    + replace (1 + used_count type l2 - 1) with (used_count type l2) by lia.
      destruct (h_code_callback h =? 0); cbn [negb andb]; [by apply IH, Happ |].
      destruct (cpueaxh_range_contains _ _ address); cbn [negb]; [| by apply IH, Happ].
      cbn [st_for]. pose proof (proj1 Hkeep (h_code_callback h) address (h_user_data h) e) as Hk.
      unfold final in Hk. destruct (cb_hookcode _ _ _ e) as [u e']. cbn [snd] in *. by apply IH, Happ.
    + rewrite Z.add_0_l. by apply IH, Happ.
Qed.

(** Calls every hook of the list and says whether one of them returned non-zero. *)
Fixpoint ask_all (hooks : list CPUEAXH_HOOK_ENTRY) (type address size value : Z) : ST cpueaxh_engine bool :=
  match hooks with
  | [] => st_ret false
  | h :: hooks =>
      let* r := cb_hookmem_invalid (h_invalid_mem_callback h) type address size value (h_user_data h) in
      let* rest := ask_all hooks type address size value in
      st_ret (negb (r =? 0) || rest)
  end.

Lemma notify_invalid_loop_spec type address size value l2 : forall l1 e handled,
  en_hooks e = l1 ++ l2 ->
  notify_invalid_loop (seqZ (Z.of_nat (length l1)) (Z.of_nat (length l2))) handled type address size value e =
  (let '(r, e') := ask_all (List.filter (fires h_invalid_mem_callback type address) l2) type address size value e in
   (handled || r, e')).
Proof.
  induction l2 as [| h l2 IH]; intros l1 e handled He; [cbn; by rewrite orb_false_r |].
  rewrite slots_cons. cbn [notify_invalid_loop List.filter]. unfold st_bind, st_gets, st_ret.
  rewrite (hook_at_app _ _ _ _ He). unfold fires at 1, of_type.
  assert (Happ : forall e', en_hooks e' = en_hooks e -> en_hooks e' = (l1 ++ [h]) ++ l2) by (intros e' ->; by rewrite He, <- app_assoc).
  destruct (h_used h), (h_type h =? type), (h_invalid_mem_callback h =? 0), (cpueaxh_range_contains _ _ address);
    cbn [negb andb orb]; try by apply IH, Happ.
  cbn [ask_all]. pose proof (proj2 (proj2 Hkeep) (h_invalid_mem_callback h) type address size value (h_user_data h) e) as Hk.
  unfold final in Hk. unfold st_bind. destruct (cb_hookmem_invalid _ _ _ _ _ _ e) as [r e']. cbn [snd] in *.
  rewrite (IH (l1 ++ [h]) e') by by apply Happ.
  destruct (ask_all _ _ _ _ _ e') as [rest e'']. unfold st_ret. f_equal. by destruct (r =? 0), handled.
Qed.

End dispatch_theorems.

Lemma hook_slots_eq e : hooks_wf e -> hook_slots = seqZ (Z.of_nat 0) (Z.of_nat (length (en_hooks e))).
Proof. intros Hwf. by rewrite (hk_slots _ Hwf). Qed.

(** Dispatch calls every registered hook, and only those.  With counts that agree with the
    slots, the three dispatchers - the count test in front and, for code hooks, the early exit
    after as many slots as the count says included - call exactly the used hooks of the type
    whose range contains the address, in slot order, each once; an invalid-access notification
    says "handled" exactly when one of the callbacks returned non-zero. *)
Theorem hook_dispatch_complete `{Callbacks} type address size value e
  (Hwf : hooks_wf e) (Hkeep : callbacks_keep_hooks) (Ht : 0 <= type) (Ho : c_owner_engine (en_context e) = true) :
  cpu_notify_memory_hook type address size value e =
    st_for (List.filter (fires h_mem_callback type address) (en_hooks e))
      (fun h => cb_hookmem (h_mem_callback h) type address size value (h_user_data h)) e /\
  cpueaxh_dispatch_code_hooks type address e =
    st_for (List.filter (fires h_code_callback type address) (en_hooks e))
      (fun h => cb_hookcode (h_code_callback h) address (h_user_data h)) e /\
  cpu_notify_invalid_memory_hook type address size value e =
    ask_all (List.filter (fires h_invalid_mem_callback type address) (en_hooks e)) type address size value e.
Proof.
  assert (Hno : forall field, cpu_has_hook_type e type = false -> List.filter (fires field type address) (en_hooks e) = []).
  { intros field Hf. apply count_zero_no_fire. pose proof (used_count_bounds type (en_hooks e)).
    destruct (Z.eq_dec (used_count type (en_hooks e)) 0) as [? | Hnz]; [done |].
    assert (cpu_has_hook_type e type = true) as Hh; [| congruence].
    apply has_hook_type_iff; [done.. |]. split; [done |]. apply used_count_pos. lia. }
  unfold cpu_notify_memory_hook, cpueaxh_dispatch_code_hooks, cpu_notify_invalid_memory_hook.
  unfold st_bind, st_gets, st_get. rewrite (hook_slots_eq e Hwf). split_and!.
  - destruct (cpu_has_hook_type e type) eqn:E; cbn [negb]; [by apply (notify_loop_spec Hkeep) with (l1 := []) | by rewrite Hno].
  - assert (Ec : cpu_has_hook_type e type = negb (negb (cpueaxh_is_hook_type_index_valid type) || (count_at e type =? 0))).
    { unfold cpu_has_hook_type. rewrite Ho. cbn [negb orb]. by destruct (cpueaxh_is_hook_type_index_valid type). }
    destruct (_ || _) eqn:E; [by rewrite Hno |].
    apply orb_false_iff in E as [E%negb_false_iff _]. rewrite (hk_count _ Hwf) by (apply Z.leb_le in E; done).
    by apply (code_hook_loop_spec Hkeep) with (l1 := []).
  - destruct (cpu_has_hook_type e type) eqn:E; cbn [negb]; [| by rewrite Hno].
    rewrite (notify_invalid_loop_spec Hkeep _ _ _ _ _ []) by done. cbn [orb]. by destruct (ask_all _ _ _ _ _ e).
Qed.

(** ** The hook table as a finite map from handles *)

Definition hook_by_handle (e : cpueaxh_engine) (handle : Z) : option CPUEAXH_HOOK_ENTRY :=
  List.find (fun h => h_used h && (h_handle h =? handle)) (en_hooks e).

Definition escape_by_handle (e : cpueaxh_engine) (handle : Z) : option CPUEAXH_ESCAPE_ENTRY :=
  List.find (fun x => esc_handle x =? handle) (en_escapes e).

(** A search over the slots finds the first one, with what is in front of it and behind it. *)
Lemma find_slot_aux e (P : CPUEAXH_HOOK_ENTRY -> bool) l2 : forall l1, en_hooks e = l1 ++ l2 ->
  match List.find (fun i => P (hook_at e i)) (seqZ (Z.of_nat (length l1)) (Z.of_nat (length l2))) with
  | Some i => exists k1 h k2, l2 = k1 ++ h :: k2 /\ i = Z.of_nat (length (l1 ++ k1)) /\ P h = true
  | None => Forall (fun h => P h = false) l2
  end.
Proof.
  induction l2 as [| h l2 IH]; intros l1 He; [constructor |].
  rewrite slots_cons. cbn [List.find]. rewrite (hook_at_app _ _ _ _ He).
  destruct (P h) eqn:Hp.
  { exists [], h, l2. rewrite app_nil_r. by split_and!. }
  specialize (IH (l1 ++ [h])). rewrite <- app_assoc in IH. specialize (IH He).
  destruct (List.find _ _); [| by constructor].
  destruct IH as (k1 & g & k2 & -> & -> & Hg). exists (h :: k1), g, k2. by rewrite <- app_assoc.
Qed.

Lemma find_slot e (P : CPUEAXH_HOOK_ENTRY -> bool) : hooks_wf e ->
  match List.find (fun i => P (hook_at e i)) hook_slots with
  | Some i => exists k1 h k2, en_hooks e = k1 ++ h :: k2 /\ i = Z.of_nat (length k1) /\ P h = true
  | None => Forall (fun h => P h = false) (en_hooks e)
  end.
Proof. intros Hwf. rewrite (hook_slots_eq e Hwf). by apply (find_slot_aux e P (en_hooks e) []). Qed.

Lemma handles_unique l x y :
  NoDup (map h_handle (List.filter h_used l)) -> x ∈ l -> y ∈ l -> h_used x = true -> h_used y = true ->
  h_handle x = h_handle y -> x = y.
Proof.
  intros Hnd Hx Hy Ux Uy Heq.
  assert (Hx' : x ∈ List.filter h_used l) by (apply list_elem_of_In, filter_In; split; [by apply list_elem_of_In | done]).
  assert (Hy' : y ∈ List.filter h_used l) by (apply list_elem_of_In, filter_In; split; [by apply list_elem_of_In | done]).
  apply list_elem_of_lookup in Hx' as [i Hi], Hy' as [j Hj].
  assert (i = j) as ->; [| congruence].
  eapply NoDup_lookup; [exact Hnd | |]; rewrite list_lookup_fmap; [by rewrite Hi | rewrite Hj; cbn; by rewrite Heq].
Qed.

Lemma hook_by_handle_iff e handle h :
  NoDup (used_handles e) ->
  hook_by_handle e handle = Some h <-> h ∈ en_hooks e /\ h_used h = true /\ h_handle h = handle.
Proof.
  intros Hnd. unfold used_handles in Hnd. apply NoDup_app in Hnd as (Hnd & _ & _). unfold hook_by_handle. split.
  - intros [Hin [Hu Hh%Z.eqb_eq]%andb_true_iff]%List.find_some. by apply list_elem_of_In in Hin.
  - intros (Hin & Hu & Hh). destruct (List.find _ _) as [g |] eqn:E.
    + apply List.find_some in E as [Hg [Hgu Hgh%Z.eqb_eq]%andb_true_iff]. apply list_elem_of_In in Hg. f_equal.
      apply (handles_unique (en_hooks e)); [done.. | congruence].
    + apply list_elem_of_In in Hin. pose proof (List.find_none _ _ E h Hin) as Hn. cbn in Hn.
      by rewrite Hu, Hh, Z.eqb_refl in Hn.
Qed.

Lemma used_handles_app l1 h l2 :
  map h_handle (List.filter h_used (l1 ++ h :: l2)) =
  map h_handle (List.filter h_used l1) ++ (if h_used h then [h_handle h] else []) ++ map h_handle (List.filter h_used l2).
Proof. rewrite List.filter_app, map_app. cbn. by destruct (h_used h). Qed.

Lemma insert_middle {A} (l1 : list A) x y l2 : <[length l1 := y]> (l1 ++ x :: l2) = l1 ++ y :: l2.
Proof. rewrite insert_app_r_alt, Nat.sub_diag by lia. done. Qed.

Lemma used_count_middle type l1 h l2 :
  used_count type (l1 ++ h :: l2) = used_count type (l1 ++ l2) + b2z (of_type type h).
Proof. induction l1 as [| g l1 IH]; cbn; [lia |]. rewrite IH. lia. Qed.

(** Changing a count by one, within the 64 slots a count can reach. *)
Lemma count_after type delta e t :
  length (en_hook_type_counts e) = Z.to_nat (CPUEAXH_HOOK_MEM_FETCH_PROT + 1) ->
  0 <= type <= CPUEAXH_HOOK_MEM_FETCH_PROT -> 0 <= t <= CPUEAXH_HOOK_MEM_FETCH_PROT ->
  0 <= count_at e type <= 64 -> (delta = 1 \/ (delta = -1 /\ 0 < count_at e type)) ->
  count_at (cpueaxh_adjust_hook_type_count type delta e) t = count_at e t + (if type =? t then delta else 0).
Proof.
  intros Hl Hty Ht Hc Hd. unfold cpueaxh_adjust_hook_type_count, cpueaxh_is_hook_type_index_valid.
  destruct (Z.leb_spec type CPUEAXH_HOOK_MEM_FETCH_PROT); [| lia].
  destruct (Z.eqb_spec delta 0); [lia |]. cbn [negb orb]. unfold count_at at 1. cbn [en_hook_type_counts set_en_hook_type_counts].
  unfold CPUEAXH_HOOK_MEM_FETCH_PROT in *.
  destruct (Z.eqb_spec type t) as [<- | Hne].
  - rewrite arr_get_set_eq by (rewrite Hl; lia). destruct Hd as [-> | [-> Hpos]].
    + change (0 <? 1) with true. cbn iota. change (u16 1) with 1. apply wrap_small. split; lia.
    + change (0 <? -1) with false. cbn iota. change (u16 (- -1)) with 1.
      destruct (Z.ltb_spec 1 (count_at e type)); [rewrite wrap_small; [lia | split; lia] | lia].
  - rewrite arr_get_set_ne by lia. unfold count_at. lia.
Qed.

Lemma forall_middle {A} (P : A -> Prop) l1 x l2 : Forall P (l1 ++ x :: l2) <-> Forall P (l1 ++ l2) /\ P x.
Proof. rewrite !Forall_app, Forall_cons. tauto. Qed.

Lemma elem_middle {A} (y : A) l1 x l2 : y ∈ l1 ++ x :: l2 <-> y = x \/ y ∈ l1 ++ l2.
Proof. rewrite !elem_of_app, elem_of_cons. tauto. Qed.

Lemma handles_middle l1 h l2 rest :
  map h_handle (List.filter h_used (l1 ++ h :: l2)) ++ rest ≡ₚ
  (if h_used h then [h_handle h] else []) ++ map h_handle (List.filter h_used (l1 ++ l2)) ++ rest.
Proof.
  rewrite used_handles_app, List.filter_app, map_app. destruct (h_used h); cbn; [| done].
  by rewrite <- Permutation_middle.
Qed.

(** Swapping one slot's content keeps the table well-formed, once the handle and count agree. *)
Lemma hooks_wf_swap e e' k1 g x k2 :
  hooks_wf e -> en_hooks e = k1 ++ g :: k2 -> en_hooks e' = k1 ++ x :: k2 -> en_escapes e' = en_escapes e ->
  length (en_hook_type_counts e') = length (en_hook_type_counts e) ->
  (forall t, 0 <= t <= CPUEAXH_HOOK_MEM_FETCH_PROT ->
     count_at e' t = count_at e t + b2z (of_type t x) - b2z (of_type t g)) ->
  hook_entry_ok x -> en_next_hook e <= en_next_hook e' ->
  (h_used x = true -> en_next_hook e <= h_handle x < en_next_hook e') ->
  hooks_wf e'.
Proof.
  intros Hwf He He' Hesc Hlen Hcnt Hx Hn Hxh. destruct Hwf as [Hs Ht Hc Hok Hnd Hf Hnx].
  assert (Hp : used_handles e ≡ₚ (if h_used g then [h_handle g] else []) ++
                 (map h_handle (List.filter h_used (k1 ++ k2)) ++ map esc_handle (en_escapes e))).
  { unfold used_handles. rewrite He. by rewrite handles_middle, <- ?app_assoc. }
  assert (Hp' : used_handles e' ≡ₚ (if h_used x then [h_handle x] else []) ++
                 (map h_handle (List.filter h_used (k1 ++ k2)) ++ map esc_handle (en_escapes e))).
  { unfold used_handles. rewrite He', Hesc. by rewrite handles_middle, <- ?app_assoc. }
  set (rest := map h_handle (List.filter h_used (k1 ++ k2)) ++ map esc_handle (en_escapes e)) in *.
  rewrite Hp in Hnd, Hnx. apply NoDup_app in Hnd as (_ & _ & Hnd). apply Forall_app in Hnx as [_ Hnx].
  split.
  - rewrite He', <- Hs, He, !length_app. done.
  - congruence.
  - intros t Htt. rewrite Hcnt, Hc, He, He', !used_count_middle by done. lia.
  - rewrite He in Hok. rewrite He'. apply forall_middle in Hok as [Hok _]. by apply forall_middle.
  - rewrite Hp'. destruct (h_used x); cbn; [| done]. apply NoDup_cons. split; [| done].
    intros Hin. rewrite Forall_forall in Hnx. specialize (Hnx _ Hin). specialize (Hxh eq_refl). cbn in Hnx. lia.
  - lia.
  - rewrite Hp'. apply Forall_app. split.
    + destruct (h_used x); constructor; [| done]. specialize (Hxh eq_refl). lia.
    + eapply Forall_impl; [exact Hnx |]. cbn. intros; lia.
Qed.

Lemma used_count_slots type e : hooks_wf e -> 0 <= used_count type (en_hooks e) <= 64.
Proof. intros Hwf. pose proof (used_count_bounds type (en_hooks e)) as Hb. rewrite (hk_slots _ Hwf) in Hb. exact Hb. Qed.

Lemma option_ext {A} (o o' : option A) : (forall x, o = Some x <-> o' = Some x) -> o = o'.
Proof. intros H. by apply option_eq. Qed.

Lemma hook_entry_props handle type callback user_data begin end_ :
  callback <> 0 -> cpueaxh_is_supported_hook_type type = true ->
  let x := hook_entry handle type callback user_data begin end_ in
  hook_entry_ok x /\ h_used x = true /\ h_handle x = handle /\ h_type x = type.
Proof.
  intros Hc Hs. unfold hook_entry. apply Z.eqb_neq in Hc.
  destruct (cpueaxh_is_code_hook_type type) eqn:E1.
  - assert (E2 : cpueaxh_is_invalid_memory_hook_type type = false).
    { unfold cpueaxh_is_code_hook_type in E1. apply orb_true_iff in E1 as [->%Z.eqb_eq | ->%Z.eqb_eq]; done. }
    split; [| done]. intros _. cbn. by rewrite E1, E2, Hc.
  - destruct (cpueaxh_is_invalid_memory_hook_type type) eqn:E2; (split; [| done]); intros _; cbn; by rewrite ?E1, ?E2, ?Hc.
Qed.

Lemma adjust_frame type delta e :
  let e' := cpueaxh_adjust_hook_type_count type delta e in
  en_hooks e' = en_hooks e /\ en_escapes e' = en_escapes e /\ en_next_hook e' = en_next_hook e /\
  length (en_hook_type_counts e') = length (en_hook_type_counts e) /\
  en_mem e' = en_mem e /\ en_context e' = en_context e /\ en_escape_index_by_id e' = en_escape_index_by_id e.
Proof.
  unfold cpueaxh_adjust_hook_type_count. destruct (_ || _); [done |]. cbn. by rewrite arr_set_length.
Qed.

Lemma cpueaxh_hook_add_spec type callback user_data begin end_ e :
  hooks_wf e -> en_next_hook e < 2 ^ 64 - 1 ->
  let '(st, out, e') := cpueaxh_hook_add type callback user_data begin end_ e in
  hooks_wf e' /\
  match out with
  | Some handle =>
      st = CPUEAXH_ERR_OK /\ handle = en_next_hook e /\ en_escapes e' = en_escapes e /\
      en_escape_index_by_id e' = en_escape_index_by_id e /\
      en_mem e' = en_mem e /\ en_context e' = en_context e /\
      forall k, hook_by_handle e' k =
        if k =? handle then Some (hook_entry handle type callback user_data begin end_) else hook_by_handle e k
  | None =>
      e' = e /\ st = (if callback =? 0 then CPUEAXH_ERR_ARG else CPUEAXH_ERR_HOOK) /\
      (callback = 0 \/ cpueaxh_is_supported_hook_type type = false \/ Forall (fun h => h_used h = true) (en_hooks e))
  end.
Proof.
  intros Hwf Hn. unfold cpueaxh_hook_add.
  destruct (Z.eqb_spec callback 0) as [Hc | Hc]; [split_and!; by try left |].
  destruct (cpueaxh_is_supported_hook_type type) eqn:Hs; cbn [negb]; [| split_and!; by try (right; left)].
  pose proof (find_slot e (fun h => negb (h_used h)) Hwf) as Hfree. unfold first_free_hook.
  destruct (List.find _ hook_slots) as [i |].
  2: { split_and!; [done.. |]. right. right. eapply Forall_impl; [exact Hfree |]. cbn. intros h ?%negb_false_iff. done. }
  destruct Hfree as (k1 & g & k2 & He & -> & Hg%negb_true_iff).
  pose proof (hk_fresh _ Hwf) as Hpos. rewrite (wrap_small 64 (en_next_hook e + 1)) by (split; lia).
  destruct (hook_entry_props (en_next_hook e) type callback user_data begin end_ Hc Hs) as (Hok & Hu & Hh & Hty).
  set (x := hook_entry _ _ _ _ _ _) in *.
  set (e1 := set_en_hooks _ _).
  assert (He1 : en_hooks e1 = k1 ++ x :: k2).
  { cbn. unfold arr_set. rewrite Nat2Z.id, He. apply insert_middle. }
  destruct (adjust_frame type 1 e1) as (F1 & F2 & F3 & F4 & F5 & F6 & F7).
  pose proof (supported_range _ Hs) as Hrange.
  set (e2 := cpueaxh_adjust_hook_type_count type 1 e1) in *.
  assert (Hwf2 : hooks_wf e2).
  { apply (hooks_wf_swap e e2 k1 g x k2 Hwf He); [congruence | by rewrite F2 | by rewrite F4 | | done | rewrite F3; cbn; lia |].
    - intros t Ht. unfold e2. rewrite count_after; [| apply Hwf | lia | done | | by left].
      + change (count_at e1 t) with (count_at e t). unfold of_type at 1 2. rewrite Hu, Hty, Hg. cbn.
        destruct (type =? t); cbn; lia.
      + change (count_at e1 type) with (count_at e type). rewrite (hk_count _ Hwf) by lia.
        pose proof (used_count_slots type e Hwf). lia.
    - intros _. rewrite Hh, F3. cbn. lia. }
  split; [done |]. split_and!; try done. intros k. apply option_ext. intros h.
  rewrite hook_by_handle_iff by apply Hwf2. rewrite F1, He1, elem_middle.
  pose proof (hk_next _ Hwf) as Hnx. rewrite Forall_forall in Hnx.
  destruct (Z.eqb_spec k (en_next_hook e)) as [-> | Hne].
  - split; [| intros [= <-]; by split; [left |]]. intros ([-> | Hin] & Hhu & Hhh); [done |]. exfalso.
    assert (Hin' : h_handle h ∈ used_handles e).
    { unfold used_handles. apply elem_of_app. left. apply list_elem_of_fmap. exists h. split; [done |].
      apply list_elem_of_In, filter_In. split; [| done]. apply list_elem_of_In. rewrite He. apply elem_middle. by right. }
    specialize (Hnx _ Hin'). cbn in Hnx. lia.
  - rewrite hook_by_handle_iff by apply Hwf. rewrite He, elem_middle. split.
    + intros ([-> | Hin] & Hhu & Hhh); [congruence | by split; [right |]].
    + intros ([-> | Hin] & Hhu & Hhh); [congruence | by split; [right |]].
Qed.

Lemma find_escape_index_spec l handle :
  match find_escape_index l handle with
  | Some i => exists x1 x x2, l = x1 ++ x :: x2 /\ i = length x1 /\ esc_handle x = handle
  | None => handle ∉ map esc_handle l
  end.
Proof.
  induction l as [| x l IH]; cbn; [apply not_elem_of_nil |].
  destruct (Z.eqb_spec (esc_handle x) handle) as [Hx | Hx]; [by exists [], x, l |].
  destruct (find_escape_index l handle) as [i |]; cbn.
  - destruct IH as (x1 & y & x2 & -> & -> & Hy). by exists (x :: x1), y, x2.
  - apply not_elem_of_cons. by split.
Qed.

Lemma escape_by_handle_iff e handle x :
  NoDup (used_handles e) ->
  escape_by_handle e handle = Some x <-> x ∈ en_escapes e /\ esc_handle x = handle.
Proof.
  intros Hnd. unfold used_handles in Hnd. apply NoDup_app in Hnd as (_ & _ & Hnd). unfold escape_by_handle. split.
  - intros [Hin Hh%Z.eqb_eq]%List.find_some. by apply list_elem_of_In in Hin.
  - intros [Hin Hh]. destruct (List.find _ _) as [y |] eqn:E.
    + apply List.find_some in E as [Hy Hyh%Z.eqb_eq]. apply list_elem_of_In in Hy. f_equal.
      apply list_elem_of_lookup in Hy as [i Hi], Hin as [j Hj].
      assert (i = j) as ->; [| congruence].
      eapply NoDup_lookup; [exact Hnd | |]; rewrite list_lookup_fmap; [by rewrite Hi | rewrite Hj; cbn; by rewrite Hyh, Hh].
    + apply list_elem_of_In in Hin. pose proof (List.find_none _ _ E x Hin) as Hn. cbn in Hn. by rewrite Hh, Z.eqb_refl in Hn.
Qed.

Lemma used_handle_in e h : h ∈ en_hooks e -> h_used h = true -> h_handle h ∈ used_handles e.
Proof.
  intros Hin Hu. unfold used_handles. apply elem_of_app. left. apply list_elem_of_fmap. exists h. split; [done |].
  apply list_elem_of_In, filter_In. split; [by apply list_elem_of_In | done].
Qed.

(** A handle belongs to a hook or to an escape, never to both. *)
Lemma handle_classes_apart e h x :
  NoDup (used_handles e) -> h ∈ en_hooks e -> h_used h = true -> x ∈ en_escapes e -> h_handle h <> esc_handle x.
Proof.
  intros Hnd Hh Hu Hx Heq. apply NoDup_app in Hnd as (_ & Hd & _).
  apply (Hd (h_handle h)).
  - apply list_elem_of_fmap. exists h. split; [done |]. apply list_elem_of_In, filter_In. split; [by apply list_elem_of_In | done].
  - apply list_elem_of_fmap. by exists x.
Qed.

Lemma zero_hook_ok : hook_entry_ok zero_hook.
Proof. intros [=]. Qed.

Lemma delete_middle {A} (l1 : list A) x l2 : list_delete (length l1) (l1 ++ x :: l2) = l1 ++ l2.
Proof. induction l1 as [| y l1 IH]; [done |]. cbn. by f_equal. Qed.

(** Deleting one escape keeps the handles of the others. *)
Lemma hooks_wf_escapes e e' x1 x x2 :
  hooks_wf e -> en_escapes e = x1 ++ x :: x2 -> en_escapes e' = x1 ++ x2 -> en_hooks e' = en_hooks e ->
  en_hook_type_counts e' = en_hook_type_counts e -> en_next_hook e' = en_next_hook e -> hooks_wf e'.
Proof.
  intros [Hs Ht Hc Hok Hnd Hf Hnx] He He' Hh Hcn Hn.
  assert (Hp : used_handles e ≡ₚ esc_handle x :: used_handles e').
  { unfold used_handles. rewrite He, He', Hh, !map_app. cbn. by rewrite <- !Permutation_middle. }
  rewrite Hp in Hnd, Hnx. apply NoDup_cons in Hnd as [_ Hnd]. apply Forall_cons in Hnx as [_ Hnx].
  split; rewrite ?Hh, ?Hcn, ?Hn; try done. intros t Htt. unfold count_at. rewrite Hcn. by apply Hc.
Qed.

Definition registered (e : cpueaxh_engine) (handle : Z) : bool :=
  match hook_by_handle e handle, escape_by_handle e handle with None, None => false | _, _ => true end.

Lemma del_hook_slot e k1 g k2 :
  hooks_wf e -> en_hooks e = k1 ++ g :: k2 -> h_used g = true ->
  let e1 := cpueaxh_adjust_hook_type_count (h_type g) (-1) e in
  let e' := set_en_hooks (arr_set (en_hooks e1) (Z.of_nat (length k1)) zero_hook) e1 in
  hooks_wf e' /\ en_escapes e' = en_escapes e /\ en_escape_index_by_id e' = en_escape_index_by_id e /\
  forall k, hook_by_handle e' k = if k =? h_handle g then None else hook_by_handle e k.
Proof.
  intros Hwf He Hg e1 e'. destruct (adjust_frame (h_type g) (-1) e) as (F1 & F2 & F3 & F4 & F5 & F6 & F7). fold e1 in F1, F2, F3, F4, F7.
  assert (Hgin : g ∈ en_hooks e) by (rewrite He; apply elem_middle; by left).
  assert (He' : en_hooks e' = k1 ++ zero_hook :: k2).
  { cbn. unfold arr_set. rewrite Nat2Z.id, F1, He. apply insert_middle. }
  pose proof (hk_entry _ Hwf) as Hent. rewrite Forall_forall in Hent.
  destruct (Hent g Hgin Hg) as [Hsup%supported_range _].
  assert (Hwf' : hooks_wf e').
  { apply (hooks_wf_swap e e' k1 g zero_hook k2 Hwf He He'); [done.. | | apply zero_hook_ok | cbn; lia | intros [=]].
    intros t Htt. change (count_at e' t) with (count_at e1 t). unfold e1. rewrite count_after; [| apply Hwf | lia | done | |].
    - unfold of_type. rewrite Hg. cbn. destruct (h_type g =? t); cbn; lia.
    - rewrite (hk_count _ Hwf) by lia. by apply used_count_slots.
    - right. split; [done |]. rewrite (hk_count _ Hwf) by lia. apply used_count_pos. exists g. split; [done |].
      unfold of_type. by rewrite Hg, Z.eqb_refl. }
  split_and!; [done.. |]. intros k. apply option_ext. intros h.
  rewrite hook_by_handle_iff by apply Hwf'. rewrite He', elem_middle.
  destruct (Z.eqb_spec k (h_handle g)) as [-> | Hne].
  - split; [| done]. intros ([-> | Hin] & Hhu & Hhh); [done |]. exfalso.
    pose proof (hk_handles _ Hwf) as Hnd. unfold used_handles in Hnd. rewrite He, handles_middle, Hg in Hnd.
    cbn in Hnd. apply NoDup_cons in Hnd as [Hnin _]. apply Hnin. rewrite <- Hhh. apply elem_of_app. left.
    apply list_elem_of_fmap. exists h. split; [done |]. apply list_elem_of_In, filter_In. split; [by apply list_elem_of_In | done].
  - rewrite hook_by_handle_iff by apply Hwf. rewrite He, elem_middle. split.
    + intros ([-> | Hin] & Hhu & Hhh); [done | by split; [right |]].
    + intros ([-> | Hin] & Hhu & Hhh); [congruence | by split; [right |]].
Qed.

Lemma cpueaxh_hook_del_spec hook e :
  hooks_wf e ->
  let '(st, e') := cpueaxh_hook_del hook e in
  hooks_wf e' /\ st = (if registered e hook then CPUEAXH_ERR_OK else CPUEAXH_ERR_HOOK) /\
  (forall k, hook_by_handle e' k = if k =? hook then None else hook_by_handle e k) /\
  (forall k, escape_by_handle e' k = if k =? hook then None else escape_by_handle e k).
Proof.
  intros Hwf. pose proof (hk_handles _ Hwf) as Hnd. unfold cpueaxh_hook_del, registered.
  pose proof (find_slot e (fun h => h_used h && (h_handle h =? hook)) Hwf) as Hs.
  destruct (List.find _ hook_slots) as [i |].
  - destruct Hs as (k1 & g & k2 & He & -> & [Hg Hgh%Z.eqb_eq]%andb_true_iff).
    assert (Hgin : g ∈ en_hooks e) by (rewrite He; apply elem_middle; by left).
    rewrite (hook_at_app _ _ _ _ He).
    destruct (del_hook_slot e k1 g k2 Hwf He Hg) as (Hwf' & Hesc & _ & Hh). rewrite Hgh in Hh.
    assert (Hreg : hook_by_handle e hook = Some g) by by apply hook_by_handle_iff. rewrite Hreg.
    split_and!; [done.. |]. intros k. unfold escape_by_handle. rewrite Hesc.
    destruct (Z.eqb_spec k hook) as [-> |]; [| done].
    destruct (List.find _ _) as [x |] eqn:E; [| done]. apply List.find_some in E as [Hx Hxh%Z.eqb_eq].
    apply list_elem_of_In in Hx. by destruct (handle_classes_apart e g x Hnd Hgin Hg Hx); congruence.
  - assert (Hnone : hook_by_handle e hook = None).
    { destruct (hook_by_handle e hook) as [h |] eqn:E; [| done]. apply hook_by_handle_iff in E as (Hin & Hu & Hh); [| done].
      rewrite Forall_forall in Hs. specialize (Hs h Hin). cbn in Hs. by rewrite Hu, Hh, Z.eqb_refl in Hs. }
    rewrite Hnone. pose proof (find_escape_index_spec (en_escapes e) hook) as Hx.
    destruct (find_escape_index _ _) as [i |].
    + destruct Hx as (x1 & x & x2 & He & -> & Hxh).
      assert (Hxin : x ∈ en_escapes e) by (rewrite He; apply elem_middle; by left).
      set (e' := cpueaxh_rebuild_escape_index _).
      assert (He' : en_escapes e' = x1 ++ x2) by (cbn; rewrite He; apply delete_middle).
      assert (Hwf' : hooks_wf e') by by apply (hooks_wf_escapes e e' x1 x x2).
      assert (Hreg : escape_by_handle e hook = Some x) by by apply escape_by_handle_iff. rewrite Hreg.
      split_and!; [done.. | |].
      * intros k. change (hook_by_handle e' k) with (hook_by_handle e k). by destruct (Z.eqb_spec k hook) as [-> |].
      * intros k. apply option_ext. intros y. rewrite escape_by_handle_iff by apply Hwf'. rewrite He'.
        destruct (Z.eqb_spec k hook) as [-> | Hne].
        -- split; [| done]. intros [Hin Hy]. exfalso. unfold used_handles in Hnd. apply NoDup_app in Hnd as (_ & _ & Hnd).
           rewrite He, map_app in Hnd. cbn in Hnd. rewrite <- Permutation_middle in Hnd. apply NoDup_cons in Hnd as [Hn _].
           apply Hn. rewrite <- map_app, Hxh, <- Hy. apply list_elem_of_fmap. by exists y.
        -- rewrite escape_by_handle_iff by apply Hwf. rewrite He, elem_middle. split.
           ++ intros [Hin Hy]. by split; [right |].
           ++ intros [[-> | Hin] Hy]; [congruence | done].
    + assert (Hne : escape_by_handle e hook = None).
      { destruct (escape_by_handle e hook) as [y |] eqn:E; [| done]. apply escape_by_handle_iff in E as [Hin Hy]; [| done].
        destruct Hx. rewrite <- Hy. apply list_elem_of_fmap. by exists y. }
      rewrite Hne. split_and!; [done.. | |]; intros k; by destruct (Z.eqb_spec k hook) as [-> |].
Qed.

(** ** The escape index *)

Definition escape_by_id (e : cpueaxh_engine) (id : Z) : option CPUEAXH_ESCAPE_ENTRY :=
  List.find (fun x => esc_instruction_id x =? id) (en_escapes e).

(** One entry per instruction, each with a known instruction, and the index built from them. *)
Record escapes_wf (e : cpueaxh_engine) : Prop := {
  ew_valid : Forall (fun x => cpueaxh_is_escape_index_valid (esc_instruction_id x) = true) (en_escapes e);
  ew_unique : NoDup (map esc_instruction_id (en_escapes e));
  ew_index : en_escape_index_by_id e = en_escape_index_by_id (cpueaxh_rebuild_escape_index e);
}.

Lemma escape_valid_range id : cpueaxh_is_escape_index_valid id = true <-> 0 < id <= 19.
Proof.
  unfold cpueaxh_is_escape_index_valid, CPUEAXH_ESCAPE_INSN_NONE, CPUEAXH_ESCAPE_INSN_MAX.
  rewrite andb_true_iff, Z.ltb_lt, Z.leb_le. done.
Qed.

Lemma escape_count_bound l :
  Forall (fun x => cpueaxh_is_escape_index_valid (esc_instruction_id x) = true) l ->
  NoDup (map esc_instruction_id l) -> (length l <= 19)%nat.
Proof.
  intros Hv Hnd. rewrite <- (length_map esc_instruction_id l).
  change 19%nat with (length (seqZ 1 19)). apply submseteq_length, NoDup_submseteq; [done |].
  intros id (x & -> & Hx)%list_elem_of_fmap. rewrite Forall_forall in Hv. specialize (Hv x Hx).
  apply escape_valid_range in Hv. apply elem_of_seqZ. lia.
Qed.

(** What the index built from [l] says of an instruction. *)
Lemma escape_index_loop_get l : forall i table id,
  length table = 20%nat -> 0 <= i -> i + Z.of_nat (length l) <= 255 -> 0 < id <= 19 ->
  Forall (fun x => cpueaxh_is_escape_index_valid (esc_instruction_id x) = true) l -> NoDup (map esc_instruction_id l) ->
  match List.find (fun x => esc_instruction_id x =? id) l with
  | Some x => exists x1 x2, l = x1 ++ x :: x2 /\
                arr_get 0 (escape_index_loop l i table) id = i + Z.of_nat (length x1) + 1
  | None => arr_get 0 (escape_index_loop l i table) id = arr_get 0 table id
  end.
Proof.
  induction l as [| x l IH]; intros i table id Ht Hi Hl Hid Hv Hnd; [done |].
  apply Forall_cons in Hv as [Hx Hv]. cbn [map] in Hnd. apply NoDup_cons in Hnd as [Hn Hnd].
  cbn [length] in Hl. cbn [escape_index_loop List.find]. rewrite Hx. apply escape_valid_range in Hx.
  destruct (Z.ltb_spec i 0xFF); [| lia]. cbn [andb].
  specialize (IH (i + 1) (arr_set table (esc_instruction_id x) (u8 (i + 1))) id).
  rewrite arr_set_length in IH. specialize (IH Ht ltac:(lia) ltac:(lia) Hid Hv Hnd).
  destruct (Z.eqb_spec (esc_instruction_id x) id) as [<- | Hne].
  - exists [], l. split; [done |]. cbn [length]. rewrite Z.add_0_r.
    destruct (List.find _ l) as [y |] eqn:E.
    + apply List.find_some in E as [Hin Hy%Z.eqb_eq]. destruct Hn. rewrite <- Hy.
      apply list_elem_of_fmap. exists y. split; [done | by apply list_elem_of_In].
    + rewrite IH, arr_get_set_eq by (rewrite Ht; lia). apply wrap_small. split; lia.
  - destruct (List.find _ l) as [y |].
    + destruct IH as (x1 & x2 & -> & IH). exists (x :: x1), x2. split; [done |]. rewrite IH. cbn [length]. lia.
    + rewrite IH. apply arr_get_set_ne; lia.
Qed.

Lemma lookup_escape_spec e id : escapes_wf e -> cpueaxh_lookup_escape_entry e id = escape_by_id e id.
Proof.
  intros [Hv Hu Hi]. unfold cpueaxh_lookup_escape_entry, escape_by_id.
  destruct (cpueaxh_is_escape_index_valid id) eqn:Hid; cbn [negb].
  2: { destruct (List.find _ _) as [x |] eqn:E; [| done]. apply List.find_some in E as [Hin Hx%Z.eqb_eq].
       apply list_elem_of_In in Hin. rewrite Forall_forall in Hv. specialize (Hv x Hin). cbn in Hv. congruence. }
  pose proof (escape_count_bound _ Hv Hu) as Hb. apply escape_valid_range in Hid.
  pose proof (escape_index_loop_get (en_escapes e) 0 (repeat 0 20) id eq_refl ltac:(lia) ltac:(lia) Hid Hv Hu) as Hg.
  rewrite Hi. cbn [en_escape_index_by_id cpueaxh_rebuild_escape_index set_en_escape_index_by_id].
  change (Z.to_nat (CPUEAXH_ESCAPE_INSN_MAX + 1)) with 20%nat.
  destruct (List.find _ _) as [x |] eqn:E.
  - destruct Hg as (x1 & x2 & He & ->). rewrite Z.add_0_l.
    destruct (Z.eqb_spec (Z.of_nat (length x1) + 1) 0); [lia |]. rewrite Z.add_simpl_r. unfold escape_count. rewrite He, length_app. cbn [length].
    destruct (Z.leb_spec (Z.of_nat (length x1 + S (length x2))) (Z.of_nat (length x1))); [lia |].
    unfold escape_at, arr_get. rewrite He, Nat2Z.id, nth_middle.
    apply List.find_some in E as [_ ->]. done.
  - rewrite Hg. unfold arr_get.
    assert (nth (Z.to_nat id) (repeat 0 20) 0 = 0) as ->; [| done].
    destruct (nth_in_or_default (Z.to_nat id) (repeat 0 20) 0) as [Hin | ->]; [| done]. by apply repeat_spec in Hin.
Qed.

(** The part of the engine the hook and escape tables are. *)
Definition same_tables (e e' : cpueaxh_engine) : Prop :=
  en_hooks e' = en_hooks e /\ en_hook_type_counts e' = en_hook_type_counts e /\
  en_escapes e' = en_escapes e /\ en_escape_index_by_id e' = en_escape_index_by_id e /\
  en_next_hook e' = en_next_hook e.

Lemma same_tables_hooks_wf e e' : same_tables e e' -> hooks_wf e -> hooks_wf e'.
Proof.
  intros (H1 & H2 & H3 & H4 & H5) [Hs Ht Hc Hok Hnd Hf Hnx].
  split; unfold used_handles, count_at in *; rewrite ?H1, ?H2, ?H3, ?H5; done.
Qed.

Lemma same_tables_escapes_wf e e' : same_tables e e' -> escapes_wf e -> escapes_wf e'.
Proof.
  intros (H1 & H2 & H3 & H4 & H5) [Hv Hu Hi].
  split; unfold cpueaxh_rebuild_escape_index in *; cbn [en_escape_index_by_id set_en_escape_index_by_id] in *; rewrite ?H3, ?H4; done.
Qed.

(** Appending an entry of a new instruction. *)
Lemma escapes_wf_push e e' x :
  escapes_wf e -> en_escapes e' = en_escapes e ++ [x] -> cpueaxh_is_escape_index_valid (esc_instruction_id x) = true ->
  escape_by_id e (esc_instruction_id x) = None -> escapes_wf (cpueaxh_rebuild_escape_index e').
Proof.
  intros [Hv Hu _] He Hx Hno. split; cbn [en_escapes cpueaxh_rebuild_escape_index set_en_escape_index_by_id]; rewrite ?He; [| | done].
  - apply Forall_app. split; [done |]. by constructor.
  - rewrite map_app. apply NoDup_app. split_and!; [done | | by apply NoDup_singleton].
    intros id (y & -> & Hy)%list_elem_of_fmap Heq. cbn in Heq. apply list_elem_of_singleton in Heq.
    apply list_elem_of_In in Hy. pose proof (List.find_none _ _ Hno y Hy) as Hf. cbn in Hf. by rewrite Heq, Z.eqb_refl in Hf.
Qed.

Lemma escapes_wf_delete e e' x1 x x2 :
  escapes_wf e -> en_escapes e = x1 ++ x :: x2 -> en_escapes e' = x1 ++ x2 -> escapes_wf (cpueaxh_rebuild_escape_index e').
Proof.
  intros [Hv Hu _] He He'. split; cbn [en_escapes cpueaxh_rebuild_escape_index set_en_escape_index_by_id]; rewrite ?He'; [| | done].
  - rewrite He in Hv. by apply forall_middle in Hv as [Hv _].
  - rewrite He in Hu. rewrite map_app in *. cbn [map] in Hu. rewrite <- Permutation_middle in Hu. by apply NoDup_cons in Hu as [_ Hu].
Qed.

Lemma hooks_wf_push e e' x :
  hooks_wf e -> en_escapes e' = en_escapes e ++ [x] -> en_hooks e' = en_hooks e ->
  en_hook_type_counts e' = en_hook_type_counts e -> esc_handle x = en_next_hook e -> en_next_hook e' = en_next_hook e + 1 ->
  hooks_wf e'.
Proof.
  intros [Hs Ht Hc Hok Hnd Hf Hnx] He Hh Hcn Hx Hn.
  assert (Hp : used_handles e' ≡ₚ en_next_hook e :: used_handles e).
  { unfold used_handles. rewrite He, Hh, map_app. cbn [map]. rewrite Hx, app_assoc. by rewrite <- Permutation_cons_append. }
  split; rewrite ?Hh, ?Hcn, ?Hn; try done; [| | lia |].
  - intros t Htt. unfold count_at. rewrite Hcn. by apply Hc.
  - rewrite Hp. apply NoDup_cons. split; [| done]. intros Hin. rewrite Forall_forall in Hnx. specialize (Hnx _ Hin). cbn in Hnx. lia.
  - rewrite Hp. constructor; [lia |]. eapply Forall_impl; [exact Hnx |]. cbn. intros; lia.
Qed.

Lemma cpueaxh_hook_del_escapes_wf hook e :
  hooks_wf e -> escapes_wf e -> escapes_wf (final (cpueaxh_hook_del hook) e).
Proof.
  intros Hwf Hew. unfold final, cpueaxh_hook_del.
  destruct (List.find _ hook_slots) as [i |]; cbn [snd].
  - destruct (adjust_frame (h_type (hook_at e i)) (-1) e) as (_ & F2 & _ & _ & _ & _ & F7).
    destruct Hew as [Hv Hu Hi]. split; unfold cpueaxh_rebuild_escape_index in *;
      cbn [en_escapes en_escape_index_by_id set_en_hooks set_en_escape_index_by_id] in *; rewrite ?F2, ?F7; done.
  - pose proof (find_escape_index_spec (en_escapes e) hook) as Hx.
    destruct (find_escape_index _ _) as [i |]; cbn [snd]; [| done].
    destruct Hx as (x1 & x & x2 & He & -> & _). eapply escapes_wf_delete; [done | exact He |].
    cbn [en_escapes set_en_escapes]. rewrite He. apply delete_middle.
Qed.

Section escapes.
Context `{HostAlloc}.

Lemma ensure_escape_capacity_frame n e :
  let '(st, e') := cpueaxh_ensure_escape_capacity n e in
  (st = CPUEAXH_ERR_OK \/ st = CPUEAXH_ERR_NOMEM) /\ same_tables e e'.
Proof.
  unfold cpueaxh_ensure_escape_capacity, st_bind, st_get. destruct (n <=? en_escape_capacity e); [by split; [left |] |].
  unfold on_mem, on_heap, st_zoom, host_alloc_zeroed.
  set (size := u64 _).
  destruct (ha_pick (ms_heap (en_mem e)) size) as [p |]; [| by split; [right |]].
  destruct (p =? NULL); [by split; [right |] |].
  destruct (_ && _); by (split; [left |]).
Qed.

Lemma cpueaxh_escape_add_spec id callback user_data begin end_ e :
  hooks_wf e -> escapes_wf e -> en_next_hook e < 2 ^ 64 - 1 -> cpueaxh_is_escape_index_valid id = true ->
  let '(st, out, e') := cpueaxh_escape_add id callback user_data begin end_ e in
  hooks_wf e' /\ escapes_wf e' /\
  match out with
  | Some handle =>
      st = CPUEAXH_ERR_OK /\ handle = en_next_hook e /\ escape_by_id e id = None /\
      forall k, escape_by_id e' k =
        if k =? id then Some (mkEscape handle id callback user_data begin end_) else escape_by_id e k
  | None =>
      same_tables e e' /\
      if callback =? 0 then st = CPUEAXH_ERR_ARG
      else match escape_by_id e id with Some _ => st = CPUEAXH_ERR_HOOK | None => st = CPUEAXH_ERR_NOMEM end
  end.
Proof.
  intros Hwf Hew Hn Hid. unfold cpueaxh_escape_add.
  assert (Hnz : (id =? CPUEAXH_ESCAPE_INSN_NONE) = false).
  { apply escape_valid_range in Hid. unfold CPUEAXH_ESCAPE_INSN_NONE. lia. }
  rewrite Hnz, orb_false_r. destruct (callback =? 0) eqn:Hcb; [done |].
  unfold st_bind, st_get. rewrite (lookup_escape_spec e id Hew).
  destruct (escape_by_id e id) as [x |] eqn:Hno; [done |].
  pose proof (ensure_escape_capacity_frame (escape_count e + 1) e) as Hf.
  destruct (cpueaxh_ensure_escape_capacity _ e) as [st e1]. destruct Hf as [[-> | ->] Hsame].
  2: { cbn. split_and!; [by eapply same_tables_hooks_wf | by eapply same_tables_escapes_wf | done..]. }
  change (negb (CPUEAXH_ERR_OK =? CPUEAXH_ERR_OK)) with false. cbn iota.
  unfold mod_engine, st_modify, st_ret. set (x := mkEscape _ _ _ _ _ _).
  pose proof (hk_fresh _ Hwf). rewrite (wrap_small 64) by (split; lia).
  set (e2 := set_en_next_hook _ _).
  destruct Hsame as (H1 & H2 & H3 & H4 & H5).
  assert (He2 : en_escapes e2 = en_escapes e ++ [x]) by (cbn; by rewrite H3).
  split_and!; [| | done.. |].
  - apply (hooks_wf_push e _ x); [done | done | exact H1 | exact H2 | done | done].
  - by apply (escapes_wf_push e e2 x).
  - intros k. unfold escape_by_id in *. change (en_escapes (cpueaxh_rebuild_escape_index e2)) with (en_escapes e2).
    rewrite He2. clear -Hno. induction (en_escapes e) as [| y l IH]; cbn.
    + rewrite (Z.eqb_sym id k). by destruct (k =? id).
    + cbn in Hno. destruct (Z.eqb_spec (esc_instruction_id y) id) as [| Hy]; [done |]. specialize (IH Hno).
      destruct (Z.eqb_spec (esc_instruction_id y) k) as [<- |]; [| exact IH]. by destruct (Z.eqb_spec (esc_instruction_id y) id).
Qed.

End escapes.

(** ** The properties *)

(** The hook table is a finite map from handles to hooks.  [cpueaxh_hook_add] binds a fresh
    handle to the entry it was given when a slot is free, the callback is not null and the type is
    supported, and changes nothing otherwise; [cpueaxh_hook_del] removes exactly the hook or
    escape with the handle and reports whether there was one.  Both keep the tables well-formed:
    one count per type equal to its used slots, unique handles, a usable callback in each slot,
    the escape index in step. *)
Theorem hook_table_refines_map type callback user_data begin end_ hook e
  (Hwf : hooks_wf e) (Hew : escapes_wf e) (Hn : en_next_hook e < 2 ^ 64 - 1) :
  (let '(st, out, e') := cpueaxh_hook_add type callback user_data begin end_ e in
   hooks_wf e' /\ escapes_wf e' /\
   match out with
   | Some handle =>
       st = CPUEAXH_ERR_OK /\ hook_by_handle e handle = None /\ escape_by_handle e handle = None /\
       forall k, hook_by_handle e' k =
         if k =? handle then Some (hook_entry handle type callback user_data begin end_) else hook_by_handle e k
   | None =>
       e' = e /\ st = (if callback =? 0 then CPUEAXH_ERR_ARG else CPUEAXH_ERR_HOOK) /\
       (callback = 0 \/ cpueaxh_is_supported_hook_type type = false \/ Forall (fun h => h_used h = true) (en_hooks e))
   end) /\
  (let '(st, e') := cpueaxh_hook_del hook e in
   hooks_wf e' /\ escapes_wf e' /\ st = (if registered e hook then CPUEAXH_ERR_OK else CPUEAXH_ERR_HOOK) /\
   (forall k, hook_by_handle e' k = if k =? hook then None else hook_by_handle e k) /\
   (forall k, escape_by_handle e' k = if k =? hook then None else escape_by_handle e k)).
Proof.
  split.
  - pose proof (cpueaxh_hook_add_spec type callback user_data begin end_ e Hwf Hn) as H.
    pose proof (hk_handles _ Hwf) as Hnd. pose proof (hk_next _ Hwf) as Hnx. rewrite Forall_forall in Hnx.
    destruct (cpueaxh_hook_add _ _ _ _ _ e) as [[st out] e']. destruct H as [Hwf' H].
    split; [done |]. destruct out as [handle |]; [| by destruct H as (-> & ?)].
    destruct H as (Hst & -> & He & Hi & _ & _ & Hk). split.
    { destruct Hew as [Hv Hu Hx]. split; unfold cpueaxh_rebuild_escape_index in *;
        cbn [en_escape_index_by_id set_en_escape_index_by_id] in *; rewrite ?He, ?Hi; done. }
    split_and!; [done | | | done].
    + destruct (hook_by_handle e (en_next_hook e)) as [h |] eqn:E; [| done].
      apply hook_by_handle_iff in E as (Hin & Hu & Hh); [| done].
      specialize (Hnx _ (used_handle_in e h Hin Hu)). cbn in Hnx. lia.
    + destruct (escape_by_handle e (en_next_hook e)) as [x |] eqn:E; [| done].
      apply escape_by_handle_iff in E as [Hin Hx]; [| done].
      assert (Hin' : esc_handle x ∈ used_handles e).
      { unfold used_handles. apply elem_of_app. right. apply list_elem_of_fmap. by exists x. }
      specialize (Hnx _ Hin'). cbn in Hnx. lia.
  - pose proof (cpueaxh_hook_del_spec hook e Hwf) as H. pose proof (cpueaxh_hook_del_escapes_wf hook e Hwf Hew) as H'.
    unfold final in H'. destruct (cpueaxh_hook_del hook e) as [st e']. cbn [snd] in H'. by destruct H.
Qed.

(** The escape table is a finite map from instructions to entries.  The lookup through the
    per-instruction index answers what scanning the entries would; adding an entry for a known
    instruction binds it, refuses a second one for the same instruction, and otherwise fails only
    for want of memory, leaving the tables as they were. *)
Theorem escape_table_refines_map `{HostAlloc} id id' callback user_data begin end_ e
  (Hwf : hooks_wf e) (Hew : escapes_wf e) (Hn : en_next_hook e < 2 ^ 64 - 1)
  (Hid : cpueaxh_is_escape_index_valid id = true) :
  cpueaxh_lookup_escape_entry e id' = escape_by_id e id' /\
  let '(st, out, e') := cpueaxh_escape_add id callback user_data begin end_ e in
  hooks_wf e' /\ escapes_wf e' /\
  match out with
  | Some handle =>
      st = CPUEAXH_ERR_OK /\ escape_by_id e id = None /\
      forall k, cpueaxh_lookup_escape_entry e' k =
        if k =? id then Some (mkEscape handle id callback user_data begin end_) else cpueaxh_lookup_escape_entry e k
  | None =>
      (forall k, cpueaxh_lookup_escape_entry e' k = cpueaxh_lookup_escape_entry e k) /\
      if callback =? 0 then st = CPUEAXH_ERR_ARG
      else match escape_by_id e id with Some _ => st = CPUEAXH_ERR_HOOK | None => st = CPUEAXH_ERR_NOMEM end
  end.
Proof.
  split; [by apply lookup_escape_spec |].
  pose proof (cpueaxh_escape_add_spec id callback user_data begin end_ e Hwf Hew Hn Hid) as H'.
  destruct (cpueaxh_escape_add _ _ _ _ _ e) as [[st out] e']. destruct H' as (Hwf' & Hew' & H').
  split_and!; [done.. |]. destruct out as [handle |].
  - destruct H' as (Hst & -> & Hno & Hk). split_and!; [done.. |]. intros k.
    rewrite (lookup_escape_spec e'), (lookup_escape_spec e) by done. apply Hk.
  - destruct H' as [Hs Hst]. split; [| done]. intros k. rewrite (lookup_escape_spec e'), (lookup_escape_spec e) by done.
    unfold escape_by_id. by destruct Hs as (_ & _ & -> & _).
Qed.

(** An escape for an unknown instruction is accepted and never found.  [cpueaxh_escape_add]
    takes any non-zero id; one above [CPUEAXH_ESCAPE_INSN_MAX] is stored and reported as a
    success, though no lookup can return it, and adding it again succeeds again. *)
Theorem unknown_escape_is_never_found `{HostAlloc} id callback user_data begin end_ e
  (Hid : CPUEAXH_ESCAPE_INSN_MAX < id) (Hcb : callback <> 0) (Hcap : escape_count e < en_escape_capacity e) :
  let '(st, out, e') := cpueaxh_escape_add id callback user_data begin end_ e in
  st = CPUEAXH_ERR_OK /\ escape_count e' = escape_count e + 1 /\ cpueaxh_lookup_escape_entry e' id = None.
Proof.
  assert (Hinv : cpueaxh_is_escape_index_valid id = false).
  { destruct (cpueaxh_is_escape_index_valid id) eqn:E; [| done]. apply escape_valid_range in E. unfold CPUEAXH_ESCAPE_INSN_MAX in *. lia. }
  assert (Hl : forall e, cpueaxh_lookup_escape_entry e id = None) by (intros ?; unfold cpueaxh_lookup_escape_entry; by rewrite Hinv).
  unfold cpueaxh_escape_add. apply Z.eqb_neq in Hcb. rewrite Hcb.
  destruct (Z.eqb_spec id CPUEAXH_ESCAPE_INSN_NONE) as [-> |]; [done |]. cbn [orb].
  unfold st_bind at 1, st_get. rewrite Hl. unfold cpueaxh_ensure_escape_capacity, st_bind, st_get.
  destruct (Z.leb_spec (escape_count e + 1) (en_escape_capacity e)); [| lia].
  cbn. split_and!; [done | | apply Hl]. unfold escape_count. cbn. rewrite length_app. cbn. lia.
Qed.

(** ** A concrete engine *)

Module EngineExample.
Import Bump.

(** As [cpueaxh_open] leaves it, with an empty host. *)
Definition engine : cpueaxh_engine :=
  mkEngine (mkMem mm_init empty_heap)
    (set_c_owner_engine true (set_c_inst_cache true (init_cpu_context false))) ∅
    (repeat zero_hook 64) (repeat 0 12) (repeat 0 20) [] NULL 0 1 0 false 0.

(** Callbacks that leave a trace in the processor id; invalid accesses are handled when the user data is not 0. *)
#[export] Instance trace_callbacks : Callbacks := {
  cb_hookcode cb address user := mod_ctx (fun c => set_c_processor_id (10 * c_processor_id c + cb) c);
  cb_hookmem cb type address size value user := mod_ctx (fun c => set_c_processor_id (10 * c_processor_id c + cb) c);
  cb_hookmem_invalid cb type address size value user :=
    mod_ctx (fun c => set_c_processor_id (10 * c_processor_id c + cb) c) ;;; st_ret user;
}.

Lemma trace_keeps : callbacks_keep_hooks.
Proof. split_and!; done. Qed.

Lemma repeat_unused n : Forall hook_entry_ok (repeat zero_hook n).
Proof. induction n; constructor; [apply zero_hook_ok | done]. Qed.

Lemma engine_hooks_wf : hooks_wf engine.
Proof.
  split; [done | done | | apply (repeat_unused 64) | constructor | done | constructor].
  intros t Ht. transitivity 0; [| vm_compute; reflexivity].
  change (arr_get 0 (repeat 0 12) t = 0). unfold arr_get.
  destruct (nth_in_or_default (Z.to_nat t) (repeat 0 12) 0) as [Hin | Hd]; [by apply repeat_spec in Hin | exact Hd].
Qed.

Lemma engine_escapes_wf : escapes_wf engine.
Proof. split; [constructor | constructor | vm_compute; reflexivity]. Qed.

(** Two write hooks, the second over one page, then a read hook. *)
Definition hooked : cpueaxh_engine :=
  final (cpueaxh_hook_add 4 7 0 0 0 ;;; cpueaxh_hook_add 4 8 0 0x1000 0x1FFF ;;; cpueaxh_hook_add 3 9 0 0 0) engine.

Lemma final_bind {S A B} (c : ST S A) (k : A -> ST S B) s : final (st_bind c k) s = final (k (result c s)) (final c s).
Proof. unfold final, st_bind, result. by destruct (c s). Qed.

Lemma hooked_wf : hooks_wf hooked.
Proof.
  assert (Hadd : forall ty cb ud b n e, hooks_wf e -> en_next_hook e < 100 ->
            hooks_wf (final (cpueaxh_hook_add ty cb ud b n) e)).
  { intros ty cb ud b n e He Hn. pose proof (cpueaxh_hook_add_spec ty cb ud b n e He) as H. unfold final.
    destruct (cpueaxh_hook_add ty cb ud b n e) as [[st out] e']. cbn [snd]. apply H. lia. }
  unfold hooked. rewrite !final_bind.
  apply Hadd; [apply Hadd; [apply Hadd; [apply engine_hooks_wf |] |] |]; zcompute.
Qed.

Lemma hook_dispatch_complete_witness :
  c_processor_id (en_context (final (cpu_notify_memory_hook 4 0x1234 1 0) hooked)) = 78 /\
  c_processor_id (en_context (final (cpu_notify_memory_hook 4 0x2234 1 0) hooked)) = 7 /\
  cpueaxh_dispatch_code_hooks 1 0x1000 hooked =
    st_for (List.filter (fires h_code_callback 1 0x1000) (en_hooks hooked))
      (fun h => cb_hookcode (h_code_callback h) 0x1000 (h_user_data h)) hooked.
Proof.
  split; [vm_compute; reflexivity |]. split; [vm_compute; reflexivity |].
  assert (H := hook_dispatch_complete 1 0x1000 1 0 hooked hooked_wf trace_keeps). discharge H.
  destruct H as (_ & H & _). exact H.
Defined.

Lemma hook_table_refines_map_witness :
  hook_by_handle (final (cpueaxh_hook_del 1) (final (cpueaxh_hook_add 4 7 0 0 0) engine)) 1 = None /\
  let '(st, e') := cpueaxh_hook_del 5 engine in st = CPUEAXH_ERR_HOOK.
Proof.
  split; [vm_compute; reflexivity |].
  assert (H := hook_table_refines_map 4 7 0 0 0 5 engine engine_hooks_wf engine_escapes_wf). discharge H.
  destruct H as [_ H]. destruct (cpueaxh_hook_del 5 engine) as [st e']. destruct H as (_ & _ & H & _). exact H.
Defined.

Lemma escape_table_refines_map_witness :
  option_map esc_callback (cpueaxh_lookup_escape_entry (final (cpueaxh_escape_add 5 77 0 0 0) engine) 5) = Some 77 /\
  cpueaxh_lookup_escape_entry engine 5 = escape_by_id engine 5.
Proof.
  split; [vm_compute; reflexivity |].
  assert (H := escape_table_refines_map 5 5 77 0 0 0 engine engine_hooks_wf engine_escapes_wf). discharge H.
  destruct H as [H _]. exact H.
Defined.

Lemma unknown_escape_is_never_found_witness :
  let '(st, out, e') := cpueaxh_escape_add 40 77 0 0 0 (set_en_escape_capacity 8 engine) in
  st = CPUEAXH_ERR_OK /\ escape_count e' = 1 /\ cpueaxh_lookup_escape_entry e' 40 = None.
Proof.
  assert (H := unknown_escape_is_never_found 40 77 0 0 0 (set_en_escape_capacity 8 engine)).
  assert (77 <> 0) as Hcb by discriminate.
  assert (CPUEAXH_ESCAPE_INSN_MAX < 40) as Hid by zcompute. specialize (H Hid Hcb). discharge H.
  destruct (cpueaxh_escape_add _ _ _ _ _ _) as [[st out] e']. exact H.
Defined.

End EngineExample.
