(* ===== verification/CpuMemory.v ===== *)
(** * cpu/memory.hpp: the CPU's access to guest memory

    Every load and store of an instruction goes through [cpu_resolve_memory_access], which checks
    canonicality, mapping, permission and user access, offers a failing access to the
    invalid-memory hooks up to four times and raises the fault otherwise.  Multi-byte accesses try
    one host pointer for all bytes (page by page while no patch exists, byte by byte otherwise) and
    fall back to a pointer per byte.  [*out_ptr] is returned next to the status.  Locked
    operations are compare-and-exchange loops; one thread runs the engine, so the platform's
    interlocked intrinsics are a load, a comparison and a store.

    The theorems are about an engine without memory hooks: which fault is raised, with which error
    code and address; that a read returns the little-endian value of the bytes the guest sees; that
    a write changes all of its bytes or none; that locked operations are their operation; and that
    no CPU access changes the code version. *)

From Stdlib Require Import ZArith Bool List Lia.
From stdpp Require Import base tactics list gmap.
From S2P Require Import Prelude CpuDef HostMemory RegionTable RegionSplit Patches PageCache InstCache Machine.

Definition cpu_make_page_fault_error (ctx : CPU_CONTEXT) (access : Z) (protection_violation : bool) : Z :=
  let error_code := if protection_violation then 0x1 else 0x0 in
  let error_code := if access =? MM_PROT_WRITE then Z.lor error_code 0x2 else error_code in
  let error_code := if c_cpl ctx =? 3 then Z.lor error_code 0x4 else error_code in
  if access =? MM_PROT_EXEC then Z.lor error_code 0x10 else error_code.

Definition cpu_raise_page_fault (fault_address access : Z) (protection_violation : bool) (ctx : CPU_CONTEXT) : CPU_CONTEXT :=
  let ctx := set_c_control_regs (arr_set (c_control_regs ctx) REG_CR2 fault_address) ctx in
  cpu_raise_exception CPU_EXCEPTION_PF (cpu_make_page_fault_error ctx access protection_violation) ctx.

Definition cpu_get_invalid_memory_hook_type (access : Z) (protection_violation : bool) : Z :=
  if protection_violation then
    if access =? MM_PROT_WRITE then CPUEAXH_HOOK_MEM_WRITE_PROT
    else if access =? MM_PROT_EXEC then CPUEAXH_HOOK_MEM_FETCH_PROT
    else CPUEAXH_HOOK_MEM_READ_PROT
  else if access =? MM_PROT_WRITE then CPUEAXH_HOOK_MEM_WRITE_UNMAPPED
  else if access =? MM_PROT_EXEC then CPUEAXH_HOOK_MEM_FETCH_UNMAPPED
  else CPUEAXH_HOOK_MEM_READ_UNMAPPED.

Definition cpu_page_bytes_remaining (address : Z) : Z :=
  CPUEAXH_PAGE_SIZE - Z.land address (CPUEAXH_PAGE_SIZE - 1).

Definition cpu_can_use_page_fast_path (e : cpueaxh_engine) : bool := patch_count (ms_mgr (en_mem e)) =? 0.

Definition cpu_has_invalid_memory_hooks_for_access (e : cpueaxh_engine) (access : Z) : bool :=
  cpu_has_hook_type e (cpu_get_invalid_memory_hook_type access false)
  || cpu_has_hook_type e (cpu_get_invalid_memory_hook_type access true).

Definition cpu_is_host_write_passthrough (e : cpueaxh_engine) : bool :=
  mm_has_host_passthrough (ms_mgr (en_mem e)) MM_PROT_WRITE.

Section memory.
Context `{Callbacks}.

Definition cpu_try_handle_invalid_memory_access (address access : Z) (protection_violation : bool) (size value : Z)
  : ST cpueaxh_engine bool :=
  cpu_notify_invalid_memory_hook (cpu_get_invalid_memory_hook_type access protection_violation) address size value.

(** What one look at the manager says: accessible at a host pointer, or a fault with its [P] bit. *)
Definition resolve_once (address access : Z) : ST cpueaxh_engine (MM_ACCESS_STATUS * Z * bool) :=
  let* (status, ptr, cpu_attrs) := on_mem (mm_get_ptr_checked address access) in
  let* cpl := get_ctx c_cpl in
  match status with
  | MM_ACCESS_UNMAPPED => st_ret (MM_ACCESS_UNMAPPED, NULL, false)
  | MM_ACCESS_PROT => st_ret (MM_ACCESS_PROT, NULL, true)
  | MM_ACCESS_OK =>
      if (cpl =? 3) && (Z.land cpu_attrs MM_CPU_ATTR_USER =? 0) then st_ret (MM_ACCESS_PROT, NULL, true)
      else st_ret (MM_ACCESS_OK, ptr, false)
  end.

(** The attempts left of the four: each failing one asks the hooks first. *)
Fixpoint resolve_attempts (attempts : nat) (address access reported_address reported_size reported_value : Z)
  : ST cpueaxh_engine (MM_ACCESS_STATUS * Z) :=
  match attempts with
  | O =>
      mod_ctx (cpu_raise_page_fault address access true) ;;; st_ret (MM_ACCESS_PROT, NULL)
  | S attempts =>
      let* (status, ptr, violation) := resolve_once address access in
      match status with
      | MM_ACCESS_OK => st_ret (MM_ACCESS_OK, ptr)
      | _ =>
          let* handled := cpu_try_handle_invalid_memory_access reported_address access violation reported_size reported_value in
          if handled then resolve_attempts attempts address access reported_address reported_size reported_value
          else mod_ctx (cpu_raise_page_fault address access violation) ;;; st_ret (status, NULL)
      end
  end.

Definition cpu_resolve_memory_access (address access reported_address reported_size reported_value : Z)
  : ST cpueaxh_engine (MM_ACCESS_STATUS * Z) :=
  let* pending := get_ctx cpu_has_exception in
  if pending then st_ret (MM_ACCESS_UNMAPPED, NULL)
  else
    let reported_address := if reported_address =? 0 then address else reported_address in
    let* ok := on_ctx (cpu_validate_linear_address address SEG_DS) in
    if negb ok then st_ret (MM_ACCESS_PROT, NULL)
    else
      let* hooks := st_gets (fun e => cpu_has_invalid_memory_hooks_for_access e access) in
      if negb hooks then
        let* (status, ptr, violation) := resolve_once address access in
        match status with
        | MM_ACCESS_OK => st_ret (MM_ACCESS_OK, ptr)
        | _ => mod_ctx (cpu_raise_page_fault address access violation) ;;; st_ret (status, NULL)
        end
      else resolve_attempts 4 address access reported_address reported_size reported_value.

(** [if (cpu_has_hook_type(...)) cpu_notify_memory_hook(...)]. *)
Definition notify_if_hooked (type address size value : Z) : ST cpueaxh_engine unit :=
  let* has := st_gets (fun e => cpu_has_hook_type e type) in
  if has then cpu_notify_memory_hook type address size value else st_ret tt.

(** [*ptr], [*ptr = value]. *)
Definition load_host (ptr : Z) : ST cpueaxh_engine Z := st_gets (fun e => load ptr (ms_heap (en_mem e))).
Definition store_host (ptr value : Z) : ST cpueaxh_engine unit := on_mem (on_heap (store ptr value)).

Definition read_memory_byte (address : Z) : ST cpueaxh_engine Z :=
  let* (status, ptr) := cpu_resolve_memory_access address MM_PROT_READ address 1 0 in
  match status with
  | MM_ACCESS_OK =>
      let* value := load_host ptr in
      notify_if_hooked CPUEAXH_HOOK_MEM_READ address 1 value ;;; st_ret value
  | _ => st_ret 0
  end.

(** The hook runs between the resolution and the store. *)
Definition write_memory_byte (address value : Z) : ST cpueaxh_engine unit :=
  let* (status, ptr) := cpu_resolve_memory_access address MM_PROT_WRITE address 1 value in
  match status with
  | MM_ACCESS_OK =>
      notify_if_hooked CPUEAXH_HOOK_MEM_WRITE address 1 value ;;; store_host ptr value
  | _ => st_ret tt
  end.

(** ** One host pointer for several bytes *)

(** A scan finds the pointer, fails on an access, or meets a host address out of line. *)
Inductive scan := Found (ptr : Z) | Failed | Split (current_address : Z).

(** The page loop.  Every iteration moves [offset] on, so [size] of them are enough. *)
Fixpoint page_scan (fuel : nat) (address size access value base_ptr offset : Z) : ST cpueaxh_engine scan :=
  match fuel with
  | O => st_ret (Found base_ptr)
  | S fuel =>
      if offset <? size then
        let current_address := u64 (address + offset) in
        let* (status, page_ptr) := cpu_resolve_memory_access current_address access address size value in
        match status with
        | MM_ACCESS_OK =>
            let chunk := cpu_page_bytes_remaining current_address in
            let step := if chunk <? size - offset then chunk else size - offset in
            if base_ptr =? NULL then page_scan fuel address size access value page_ptr (offset + step)
            else if negb (page_ptr =? ptr_add base_ptr offset) then st_ret (Split current_address)
            else page_scan fuel address size access value base_ptr (offset + step)
        | _ => st_ret Failed
        end
      else st_ret (Found base_ptr)
  end.

(** The byte loop over the offsets that are left. *)
Fixpoint byte_scan (offsets : list Z) (address size access value base_ptr : Z) : ST cpueaxh_engine scan :=
  match offsets with
  | [] => st_ret (Found base_ptr)
  | offset :: offsets =>
      let* (status, next_ptr) := cpu_resolve_memory_access (u64 (address + offset)) access address size value in
      match status with
      | MM_ACCESS_OK =>
          if negb (next_ptr =? ptr_add base_ptr offset) then st_ret (Split (u64 (address + offset)))
          else byte_scan offsets address size access value base_ptr
      | _ => st_ret Failed
      end
  end.

(** [1, ..., n - 1] and [0, ..., n - 1]. *)
Definition offsets_from (first n : Z) : list Z := seqZ first (n - first).

Definition contiguous_scan (address size access value : Z) : ST cpueaxh_engine scan :=
  let* fast := st_gets cpu_can_use_page_fast_path in
  if fast then
    if size <=? cpu_page_bytes_remaining address then
      let* (status, base_ptr) := cpu_resolve_memory_access address access address size value in
      st_ret (match status with MM_ACCESS_OK => Found base_ptr | _ => Failed end)
    else page_scan (Z.to_nat size) address size access value NULL 0
  else
    let* (status, base_ptr) := cpu_resolve_memory_access address access address size value in
    match status with
    | MM_ACCESS_OK => byte_scan (offsets_from 1 size) address size access value base_ptr
    | _ => st_ret Failed
    end.

(** [cpu_get_contiguous_ptr_impl]: on a split access whose fault a hook handles it starts over, as
    often as the hooks say so; [None] when it still has not returned after [fuel] rounds. *)
Fixpoint cpu_get_contiguous_ptr_impl (fuel : nat) (address size access value : Z) (fault_on_split : bool)
  : ST cpueaxh_engine (option Z) :=
  match fuel with
  | O => st_ret None
  | S fuel =>
      let* pending := get_ctx cpu_has_exception in
      if (size =? 0) || pending then st_ret (Some NULL)
      else
        let* found := contiguous_scan address size access value in
        match found with
        | Found ptr => st_ret (Some ptr)
        | Failed => st_ret (Some NULL)
        | Split current_address =>
            if fault_on_split then
              let* handled := cpu_try_handle_invalid_memory_access address access true size value in
              if handled then cpu_get_contiguous_ptr_impl fuel address size access value true
              else mod_ctx (cpu_raise_page_fault current_address access true) ;;; st_ret (Some NULL)
            else st_ret (Some NULL)
        end
  end.

Definition cpu_get_contiguous_ptr (fuel : nat) (address size access value : Z) : ST cpueaxh_engine (option Z) :=
  cpu_get_contiguous_ptr_impl fuel address size access value true.

(** Never starts over: one round is enough. *)
Definition cpu_try_get_contiguous_ptr (address size access value : Z) : ST cpueaxh_engine Z :=
  let* ptr := cpu_get_contiguous_ptr_impl 1 address size access value false in st_ret (default NULL ptr).

Definition get_memory_write_ptr (fuel : nat) (address size value : Z) : ST cpueaxh_engine (option Z) :=
  cpu_get_contiguous_ptr fuel address size MM_PROT_WRITE value.

(** ** Words, doublewords, quadwords *)

(** [ptr[0] | ptr[1] << 8 | ...]. *)
Fixpoint load_le (n : nat) (ptr : Z) (h : HostHeap) : Z :=
  match n with
  | O => 0
  | S n => Z.lor (load ptr h) (Z.shiftl (load_le n (ptr_add ptr 1) h) 8)
  end.

(** The byte-by-byte fallback: [None] when an access failed. *)
Fixpoint read_bytes (offsets : list Z) (address size : Z) : ST cpueaxh_engine (option Z) :=
  match offsets with
  | [] => st_ret (Some 0)
  | offset :: offsets =>
      let* (status, byte_ptr) := cpu_resolve_memory_access (u64 (address + offset)) MM_PROT_READ address size 0 in
      match status with
      | MM_ACCESS_OK =>
          let* byte := load_host byte_ptr in
          let* rest := read_bytes offsets address size in
          st_ret (option_map (fun rest => Z.lor (Z.shiftl byte (offset * 8)) rest) rest)
      | _ => st_ret None
      end
  end.

(** [read_memory_word], [_dword] and [_qword] are this at 2, 4 and 8 bytes. *)
Definition read_memory_scalar (size address : Z) : ST cpueaxh_engine Z :=
  let* pending := get_ctx cpu_has_exception in
  if pending then st_ret 0
  else
    let* ptr := cpu_try_get_contiguous_ptr address size MM_PROT_READ 0 in
    let* value :=
      (if negb (ptr =? NULL) then st_gets (fun e => Some (load_le (Z.to_nat size) ptr (ms_heap (en_mem e))))
       else read_bytes (offsets_from 0 size) address size) in
    match value with
    | None => st_ret 0
    | Some value => notify_if_hooked CPUEAXH_HOOK_MEM_READ address size value ;;; st_ret value
    end.

Definition read_memory_word := read_memory_scalar 2.
Definition read_memory_dword := read_memory_scalar 4.
Definition read_memory_qword := read_memory_scalar 8.

Fixpoint byte_pointers (offsets : list Z) (address size value : Z) : ST cpueaxh_engine (option (list Z)) :=
  match offsets with
  | [] => st_ret (Some [])
  | offset :: offsets =>
      let* (status, byte_ptr) := cpu_resolve_memory_access (u64 (address + offset)) MM_PROT_WRITE address size value in
      match status with
      | MM_ACCESS_OK =>
          let* rest := byte_pointers offsets address size value in
          st_ret (option_map (cons byte_ptr) rest)
      | _ => st_ret None
      end
  end.

(** [byte_ptrs[i][0] = (value >> 8 * i) & 0xFF], in order. *)
Fixpoint store_le (ptrs : list Z) (value : Z) : ST cpueaxh_engine unit :=
  match ptrs with
  | [] => st_ret tt
  | ptr :: ptrs => store_host ptr (Z.land value 0xFF) ;;; store_le ptrs (Z.shiftr value 8)
  end.

Definition write_memory_scalar (size address value : Z) : ST cpueaxh_engine unit :=
  let* pending := get_ctx cpu_has_exception in
  if pending then st_ret tt
  else
    let* ptr := cpu_try_get_contiguous_ptr address size MM_PROT_WRITE value in
    let* ptrs :=
      (if negb (ptr =? NULL) then st_ret (Some (map (ptr_add ptr) (offsets_from 0 size)))
       else byte_pointers (offsets_from 0 size) address size value) in
    match ptrs with
    | None => st_ret tt
    | Some ptrs => notify_if_hooked CPUEAXH_HOOK_MEM_WRITE address size value ;;; store_le ptrs value
    end.

Definition write_memory_word := write_memory_scalar 2.
Definition write_memory_dword := write_memory_scalar 4.
Definition write_memory_qword := write_memory_scalar 8.

(** ** Checked reads and operands by size *)

Record CpuReadResult := mkRead { rr_ok : bool; rr_value : Z }.

Definition checked (read : ST cpueaxh_engine Z) : ST cpueaxh_engine CpuReadResult :=
  let* pending := get_ctx cpu_has_exception in
  if pending then st_ret (mkRead false 0)
  else
    let* value := read in
    let* faulted := get_ctx cpu_has_exception in
    st_ret (mkRead (negb faulted) value).

Definition read_memory_byte_checked (address : Z) := checked (read_memory_byte address).
Definition read_memory_word_checked (address : Z) := checked (read_memory_word address).
Definition read_memory_dword_checked (address : Z) := checked (read_memory_dword address).
Definition read_memory_qword_checked (address : Z) := checked (read_memory_qword address).

Definition cpu_memory_operand_mask (operand_size : Z) : ST cpueaxh_engine Z :=
  if operand_size =? 8 then st_ret 0xFF
  else if operand_size =? 16 then st_ret 0xFFFF
  else if operand_size =? 32 then st_ret 0xFFFFFFFF
  else if operand_size =? 64 then st_ret 0xFFFFFFFFFFFFFFFF
  else mod_ctx raise_ud_ctx ;;; st_ret 0.

Definition read_memory_operand (address operand_size : Z) : ST cpueaxh_engine Z :=
  if operand_size =? 8 then read_memory_byte address
  else if operand_size =? 16 then read_memory_word address
  else if operand_size =? 32 then read_memory_dword address
  else if operand_size =? 64 then read_memory_qword address
  else mod_ctx raise_ud_ctx ;;; st_ret 0.

Definition read_memory_operand_checked (address operand_size : Z) : ST cpueaxh_engine CpuReadResult :=
  if operand_size =? 8 then read_memory_byte_checked address
  else if operand_size =? 16 then read_memory_word_checked address
  else if operand_size =? 32 then read_memory_dword_checked address
  else if operand_size =? 64 then read_memory_qword_checked address
  else mod_ctx raise_ud_ctx ;;; st_ret (mkRead false 0).

Definition write_memory_operand (address operand_size value : Z) : ST cpueaxh_engine unit :=
  if operand_size =? 8 then write_memory_byte address (u8 value)
  else if operand_size =? 16 then write_memory_word address (u16 value)
  else if operand_size =? 32 then write_memory_dword address (u32 value)
  else if operand_size =? 64 then write_memory_qword address value
  else mod_ctx raise_ud_ctx.

(** ** Locked operations *)

(** [_InterlockedCompareExchange] on [n] bytes at a host pointer: the previous value. *)
Definition interlocked_compare_exchange (n : nat) (ptr desired expected : Z) : ST cpueaxh_engine Z :=
  let* old := st_gets (fun e => load_le n ptr (ms_heap (en_mem e))) in
  (if old =? wrap (8 * Z.of_nat n) expected
   then store_le (map (ptr_add ptr) (offsets_from 0 (Z.of_nat n))) desired else st_ret tt) ;;;
  st_ret old.

(** Whether the exchange happened with [*previous_value] when it was written; [None]: not returned. *)
Definition cpu_atomic_compare_exchange_memory (fuel : nat) (address operand_size expected_value desired_value : Z)
  : ST cpueaxh_engine (option (bool * option Z)) :=
  let* ptr := get_memory_write_ptr fuel address (operand_size / 8) 0 in
  match ptr with
  | None => st_ret None
  | Some ptr =>
      if ptr =? NULL then st_ret (Some (false, None))
      else if (operand_size =? 8) || (operand_size =? 16) || (operand_size =? 32) || (operand_size =? 64) then
        let* old_value := interlocked_compare_exchange (Z.to_nat (operand_size / 8)) ptr desired_value expected_value in
        let* mask := cpu_memory_operand_mask operand_size in
        let old_value := Z.land old_value mask in
        let* mask := cpu_memory_operand_mask operand_size in
        st_ret (Some (old_value =? Z.land expected_value mask, Some old_value))
      else mod_ctx raise_ud_ctx ;;; st_ret (Some (false, None))
  end.

(** The loop of [cpu_atomic_rmw_memory]; the result is whether it succeeded, with the old and the new value. *)
Fixpoint rmw_loop (fuel : nat) (address operand_size mask : Z) (callback : Z -> Z) (current_value : Z)
  : ST cpueaxh_engine (option (bool * Z * Z)) :=
  match fuel with
  | O => st_ret None
  | S fuel' =>
      let desired_value := Z.land (callback current_value) mask in
      let* exchanged := cpu_atomic_compare_exchange_memory fuel address operand_size current_value desired_value in
      match exchanged with
      | None => st_ret None
      | Some (true, _) => st_ret (Some (true, current_value, desired_value))
      | Some (false, observed_value) =>
          let* faulted := get_ctx cpu_has_exception in
          if faulted then st_ret (Some (false, 0, 0))
          else rmw_loop fuel' address operand_size mask callback (Z.land (default 0 observed_value) mask)
      end
  end.

Definition cpu_atomic_rmw_memory (fuel : nat) (address operand_size : Z) (callback : Z -> Z)
  : ST cpueaxh_engine (option (bool * Z * Z)) :=
  let* mask := cpu_memory_operand_mask operand_size in
  let* read_result := read_memory_operand_checked address operand_size in
  if negb (rr_ok read_result) then st_ret (Some (false, 0, 0))
  else rmw_loop fuel address operand_size mask callback (Z.land (rr_value read_result) mask).

Definition cpu_atomic_add_callback (operand current_value : Z) : Z := u64 (current_value + operand).
Definition cpu_atomic_sub_callback (operand current_value : Z) : Z := u64 (current_value - operand).
Definition cpu_atomic_and_callback (operand current_value : Z) : Z := Z.land current_value operand.
Definition cpu_atomic_or_callback (operand current_value : Z) : Z := Z.lor current_value operand.
Definition cpu_atomic_xor_callback (operand current_value : Z) : Z := Z.lxor current_value operand.
Definition cpu_atomic_exchange_callback (operand current_value : Z) : Z := operand.

Definition cpu_atomic_add_memory (fuel : nat) (address operand_size operand : Z) :=
  cpu_atomic_rmw_memory fuel address operand_size (cpu_atomic_add_callback operand).
Definition cpu_atomic_sub_memory (fuel : nat) (address operand_size operand : Z) :=
  cpu_atomic_rmw_memory fuel address operand_size (cpu_atomic_sub_callback operand).
Definition cpu_atomic_and_memory (fuel : nat) (address operand_size operand : Z) :=
  cpu_atomic_rmw_memory fuel address operand_size (cpu_atomic_and_callback operand).
Definition cpu_atomic_or_memory (fuel : nat) (address operand_size operand : Z) :=
  cpu_atomic_rmw_memory fuel address operand_size (cpu_atomic_or_callback operand).
Definition cpu_atomic_xor_memory (fuel : nat) (address operand_size operand : Z) :=
  cpu_atomic_rmw_memory fuel address operand_size (cpu_atomic_xor_callback operand).
Definition cpu_atomic_exchange_memory (fuel : nat) (address operand_size desired_value : Z) :=
  cpu_atomic_rmw_memory fuel address operand_size (cpu_atomic_exchange_callback desired_value).

End memory.

(** ** What an access meets *)

Inductive verdict := V_OK | V_GP | V_UNMAPPED | V_PROT.

(** Canonical, mapped, permitted, and for a user-mode CPU marked as user memory. *)
Definition cpu_access (e : cpueaxh_engine) (address access : Z) : verdict :=
  if cpu_uses_canonical_addresses (en_context e) && negb (cpu_is_canonical_address address) then V_GP
  else match access_view (en_mem e) address with
       | None => V_UNMAPPED
       | Some (_, perms, attrs) =>
           if Z.land perms access =? 0 then V_PROT
           else if (c_cpl (en_context e) =? 3) && (Z.land attrs MM_CPU_ATTR_USER =? 0) then V_PROT
           else V_OK
       end.

(** The architectural page-fault error code: present, write, user, fetch. *)
Definition page_fault_code (present write user fetch : bool) : Z :=
  b2z present + 2 * b2z write + 4 * b2z user + 16 * b2z fetch.

(** The context after the fault of a verdict. *)
Definition raise_verdict (v : verdict) (address access : Z) (ctx : CPU_CONTEXT) : CPU_CONTEXT :=
  let page_fault present :=
    cpu_raise_exception CPU_EXCEPTION_PF
      (page_fault_code present (access =? MM_PROT_WRITE) (c_cpl ctx =? 3) (access =? MM_PROT_EXEC))
      (set_c_control_regs (arr_set (c_control_regs ctx) REG_CR2 address) ctx) in
  match v with
  | V_OK => ctx
  | V_GP => raise_gp_ctx 0 ctx
  | V_UNMAPPED => page_fault false
  | V_PROT => page_fault true
  end.

(** No hook of any type. *)
Definition quiet (e : cpueaxh_engine) : Prop := forall type, cpu_has_hook_type e type = false.

Definition cpu_ready (e : cpueaxh_engine) : Prop :=
  manager_wf (en_mem e) /\ quiet e /\ cpu_has_exception (en_context e) = false.

(** Equal but for the page cache. *)
Definition same_cpu (e e' : cpueaxh_engine) : Prop :=
  exists m, e' = set_en_mem m e /\ same_but_cache (en_mem e) m /\ manager_wf m.

(** The fault was raised and nothing else happened. *)
Definition faults (e : cpueaxh_engine) (v : verdict) (address access : Z) (e' : cpueaxh_engine) : Prop :=
  exists e1, same_cpu e e1 /\ e' = set_en_context (raise_verdict v address access (en_context e)) e1.

Lemma page_fault_error_bits ctx access present :
  cpu_make_page_fault_error ctx access present =
  page_fault_code present (access =? MM_PROT_WRITE) (c_cpl ctx =? 3) (access =? MM_PROT_EXEC).
Proof.
  unfold cpu_make_page_fault_error, page_fault_code.
  destruct present, (access =? MM_PROT_WRITE), (c_cpl ctx =? 3), (access =? MM_PROT_EXEC); reflexivity.
Qed.

Lemma raise_page_fault_eq v address access ctx :
  v = V_UNMAPPED \/ v = V_PROT ->
  cpu_raise_page_fault address access (match v with V_PROT => true | _ => false end) ctx = raise_verdict v address access ctx.
Proof.
  intros Hv. unfold cpu_raise_page_fault. rewrite page_fault_error_bits. by destruct Hv as [-> | ->].
Qed.

Lemma raise_exception_pending code ec ctx :
  (code =? CPU_EXCEPTION_NONE) = false -> cpu_has_exception (cpu_raise_exception code ec ctx) = true.
Proof.
  intros Hc. unfold cpu_raise_exception. destruct (cpu_has_exception ctx) eqn:E; [done |].
  unfold cpu_has_exception. cbn. by rewrite Hc.
Qed.

Lemma raise_verdict_pending v a acc ctx : v <> V_OK -> cpu_has_exception (raise_verdict v a acc ctx) = true.
Proof.
  intros Hv. destruct v; [congruence | unfold raise_verdict; apply raise_exception_pending; reflexivity ..].
Qed.

Lemma same_cpu_refl e : manager_wf (en_mem e) -> same_cpu e e.
Proof. intros Hm. exists (en_mem e). split_and!; [by destruct e | apply same_but_cache_refl | done]. Qed.

Lemma same_cpu_trans e1 e2 e3 : same_cpu e1 e2 -> same_cpu e2 e3 -> same_cpu e1 e3.
Proof.
  intros (m & -> & Hm & _) (m' & -> & Hm' & Hw). exists m'. split_and!; [done | | done]. by eapply same_but_cache_trans.
Qed.

Lemma same_cpu_context e e' : same_cpu e e' -> en_context e' = en_context e.
Proof. by intros (m & -> & _). Qed.

Lemma same_cpu_has_hook e e' t : same_cpu e e' -> cpu_has_hook_type e' t = cpu_has_hook_type e t.
Proof. by intros (m & -> & _). Qed.

Lemma same_cpu_ready e e' : same_cpu e e' -> cpu_ready e -> cpu_ready e'.
Proof. intros (m & -> & _ & Hm) (_ & Hq & Hx). by split_and!. Qed.

(** A context of the same engine without exception keeps the engine ready. *)
Lemma context_ready e c :
  cpu_ready e -> c_owner_engine c = c_owner_engine (en_context e) -> cpu_has_exception c = false -> cpu_ready (set_en_context c e).
Proof.
  intros (Hm & Hq & _) Ho Hx. split; [exact Hm | split; [| exact Hx]].
  intros t. rewrite <- (Hq t). unfold cpu_has_hook_type. cbn [en_context set_en_context]. by rewrite Ho.
Qed.

Lemma same_cpu_access e e' a acc : same_cpu e e' -> cpu_access e' a acc = cpu_access e a acc.
Proof. intros (m & -> & Hm & _). unfold cpu_access. cbn [en_context en_mem set_en_mem]. by rewrite (same_but_cache_view _ _ _ Hm). Qed.

Lemma same_cpu_host e e' a : same_cpu e e' -> host_address (en_mem e') a = host_address (en_mem e) a.
Proof. intros (m & -> & Hm & _). by apply same_but_cache_host. Qed.

Lemma same_cpu_view e e' a : same_cpu e e' -> access_view (en_mem e') a = access_view (en_mem e) a.
Proof. intros (m & -> & Hm & _). by apply same_but_cache_view. Qed.

Lemma same_cpu_heap e e' : same_cpu e e' -> ms_heap (en_mem e') = ms_heap (en_mem e).
Proof. by intros (m & -> & [Hh _] & _). Qed.

Lemma same_cpu_fast e e' : same_cpu e e' -> cpu_can_use_page_fast_path e' = cpu_can_use_page_fast_path e.
Proof. intros (m & -> & [_ (c & Hc)] & _). unfold cpu_can_use_page_fast_path. cbn [en_mem set_en_mem]. by rewrite Hc. Qed.

Lemma faults_trans e e1 v a acc e2 : same_cpu e e1 -> faults e1 v a acc e2 -> faults e v a acc e2.
Proof.
  intros Hs (e3 & Hs3 & ->). exists e3. split; [by eapply same_cpu_trans |]. by rewrite (same_cpu_context _ _ Hs).
Qed.

Lemma faults_pending e v a acc e' : v <> V_OK -> faults e v a acc e' -> cpu_has_exception (en_context e') = true.
Proof. intros Hv (e1 & _ & ->). by apply raise_verdict_pending. Qed.

Lemma quiet_no_invalid_hooks e access : quiet e -> cpu_has_invalid_memory_hooks_for_access e access = false.
Proof. intros Hq. unfold cpu_has_invalid_memory_hooks_for_access. by rewrite !Hq. Qed.

Section accesses.
Context `{Callbacks}.

Lemma resolve_once_spec e a access :
  cpu_ready e -> in_word 64 a -> cpu_uses_canonical_addresses (en_context e) && negb (cpu_is_canonical_address a) = false ->
  exists e', same_cpu e e' /\
  resolve_once a access e =
    (match cpu_access e a access with
     | V_OK => (MM_ACCESS_OK, host_address (en_mem e) a, false)
     | V_PROT => (MM_ACCESS_PROT, NULL, true)
     | _ => (MM_ACCESS_UNMAPPED, NULL, false)
     end, e').
Proof.
  intros (Hm & Hq & Hx) Ha Hcan. unfold resolve_once, st_bind, on_mem, st_zoom, get_ctx, st_gets.
  destruct (mm_get_ptr_checked a access (en_mem e)) as [[[st ptr] attrs] m] eqn:E.
  destruct (mm_get_ptr_checked_spec _ _ _ _ _ _ _ Hm Ha E) as (Hsc & Hm' & Hst & Hres).
  exists (set_en_mem m e). split; [by exists m |]. unfold cpu_access. rewrite Hcan.
  unfold access_status in Hst. cbn [en_context set_en_mem].
  destruct (access_view (en_mem e) a) as [[[b p] t] |]; [| by subst st].
  destruct Hres as [-> Hptr]. destruct (Z.land p access =? 0); subst st; [done |]. rewrite Hptr by done.
  destruct ((c_cpl (en_context e) =? 3) && (Z.land t MM_CPU_ATTR_USER =? 0)); reflexivity.
Qed.

Lemma validate_spec e a :
  on_ctx (cpu_validate_linear_address a SEG_DS) e =
  let bad := cpu_uses_canonical_addresses (en_context e) && negb (cpu_is_canonical_address a) in
  (negb bad, if bad then set_en_context (raise_gp_ctx 0 (en_context e)) e else e).
Proof.
  unfold on_ctx, st_zoom, cpu_validate_linear_address.
  assert (Heta : set_en_context (en_context e) e = e) by by destruct e.
  destruct (cpu_uses_canonical_addresses (en_context e)), (cpu_is_canonical_address a); cbn [negb andb]; by rewrite ?Heta.
Qed.

Lemma resolve_spec e a access ra rs rv :
  cpu_ready e -> in_word 64 a ->
  exists e1, same_cpu e e1 /\
  cpu_resolve_memory_access a access ra rs rv e =
    match cpu_access e a access with
    | V_OK => ((MM_ACCESS_OK, host_address (en_mem e) a), e1)
    | V_UNMAPPED => ((MM_ACCESS_UNMAPPED, NULL), set_en_context (raise_verdict V_UNMAPPED a access (en_context e)) e1)
    | v => ((MM_ACCESS_PROT, NULL), set_en_context (raise_verdict v a access (en_context e)) e1)
    end.
Proof.
  intros Hr Ha. pose proof Hr as (Hm & Hq & Hx).
  unfold cpu_resolve_memory_access, st_bind at 1, get_ctx, st_gets. rewrite Hx.
  unfold st_bind at 1. rewrite validate_spec. cbn zeta.
  destruct (cpu_uses_canonical_addresses (en_context e) && negb (cpu_is_canonical_address a)) eqn:Hcan; cbn [negb].
  { exists e. split; [by apply same_cpu_refl |]. unfold cpu_access. by rewrite Hcan. }
  unfold st_bind at 1. rewrite (quiet_no_invalid_hooks e access Hq). cbn [negb].
  destruct (resolve_once_spec e a access Hr Ha Hcan) as (e' & Hs & Hrun).
  exists e'. split; [done |]. unfold st_bind at 1. rewrite Hrun.
  assert (Hgp : cpu_access e a access <> V_GP).
  { unfold cpu_access. rewrite Hcan. destruct (access_view _ _) as [[[? p] t] |]; [| done].
    destruct (Z.land p access =? 0); [done |].
    by destruct ((c_cpl (en_context e) =? 3) && (Z.land t MM_CPU_ATTR_USER =? 0)). }
  destruct (cpu_access e a access); [done | done | |]; unfold st_bind, mod_ctx, st_modify, st_ret;
    rewrite (same_cpu_context _ _ Hs).
  - by rewrite (raise_page_fault_eq V_UNMAPPED) by by left.
  - by rewrite (raise_page_fault_eq V_PROT) by by right.
Qed.

End accesses.

(** ** Pages *)

(** The address [offset] bytes further on, in 64-bit arithmetic. *)
Definition at_off (address offset : Z) : Z := u64 (address + offset).

Definition same_page (a b : Z) : Prop := align_down_page a = align_down_page b.

Lemma at_off_word a o : in_word 64 (at_off a o).
Proof. apply wrap_range. lia. Qed.

Lemma at_off_0 a : in_word 64 a -> at_off a 0 = a.
Proof. intros. unfold at_off. rewrite Z.add_0_r. by apply wrap_small. Qed.

Lemma at_off_add a o j : at_off a (o + j) = u64 (at_off a o + j).
Proof. unfold at_off. rewrite wrap_add_l by lia. f_equal. lia. Qed.

Lemma remaining_eq a : cpu_page_bytes_remaining a = 4096 - a mod 4096.
Proof.
  unfold cpu_page_bytes_remaining, CPUEAXH_PAGE_SIZE. change (0x1000 - 1) with (Z.ones 12).
  by rewrite Z.land_ones by lia.
Qed.

Lemma remaining_bounds a : 0 < cpu_page_bytes_remaining a <= 4096.
Proof. rewrite remaining_eq. zdiv. Qed.

(** Within the page of an address: no wrap-around, same page. *)
Lemma within_page a o j :
  0 <= j < cpu_page_bytes_remaining (at_off a o) ->
  at_off a (o + j) = at_off a o + j /\ same_page (at_off a (o + j)) (at_off a o).
Proof.
  rewrite remaining_eq. intros Hj. pose proof (at_off_word a o) as [Hlo Hhi]. rewrite at_off_add.
  assert (Hs : at_off a o + j < 2 ^ 64).
  { change (2 ^ 64) with (4096 * 2 ^ 52) in *. Z.div_mod_to_equations. nia. }
  rewrite wrap_small by (split; lia). split; [done |]. unfold same_page. rewrite !align_down_eq. unfold CPUEAXH_PAGE_SIZE.
  f_equal. zdiv.
Qed.

Lemma next_page_aligned a o :
  cpu_page_bytes_remaining (at_off a (o + cpu_page_bytes_remaining (at_off a o))) = 4096.
Proof.
  rewrite at_off_add, !remaining_eq. unfold wrap. change (2 ^ 64) with (4096 * 2 ^ 52).
  assert (Hm : forall x, (x mod (4096 * 2 ^ 52)) mod 4096 = x mod 4096).
  { intros x. rewrite Z.rem_mul_r by lia. rewrite (Z.mul_comm 4096), Z.mod_add by lia. apply Z.mod_mod. lia. }
  rewrite Hm. zdiv.
Qed.

Lemma canonical_page a b : same_page a b -> cpu_is_canonical_address a = cpu_is_canonical_address b.
Proof.
  unfold same_page. rewrite !align_down_eq. unfold CPUEAXH_PAGE_SIZE. intros Hab.
  assert (Hs : forall k, 0 <= k -> Z.shiftr a (12 + k) = Z.shiftr b (12 + k)).
  { intros k Hk. rewrite <- !(Z.shiftr_shiftr _ 12 k) by done. f_equal. rewrite !Z.shiftr_div_pow2 by lia.
    change (2 ^ 12) with 4096. lia. }
  unfold cpu_is_canonical_address. change 47 with (12 + 35). change 48 with (12 + 36). by rewrite !Hs by lia.
Qed.

Lemma view_page s a b :
  mem_wf s -> same_page a b ->
  match access_view s a, access_view s b with
  | Some (_, p, t), Some (_, p', t') => p = p' /\ t = t'
  | None, None => True
  | _, _ => False
  end.
Proof.
  intros Hs Hab. unfold access_view, guest_view.
  rewrite (find_linear_page _ a b) by (apply (tw_ok _ (mw_table _ Hs)) || done).
  destruct (find_linear _ b); [done |]. by destruct (_ =? 0).
Qed.

Lemma access_page e a b acc :
  mem_wf (en_mem e) -> same_page a b -> cpu_access e a acc = cpu_access e b acc.
Proof.
  intros Hs Hab. unfold cpu_access. rewrite (canonical_page a b Hab). destruct (_ && _); [done |].
  pose proof (view_page _ a b Hs Hab) as Hv.
  destruct (access_view (en_mem e) a) as [[[? p] t] |], (access_view (en_mem e) b) as [[[? p'] t'] |]; try done.
  by destruct Hv as [-> ->].
Qed.

(** Without patches a page is contiguous host memory. *)
Lemma host_page s a b :
  mem_wf s -> mm_patches (ms_mgr s) = [] -> same_page a b -> host_address s b = host_address s a + (b - a).
Proof.
  intros Hs Hp Hab. unfold host_address. rewrite Hp. cbn [List.find].
  assert (Hn : forall (A : Type) (c : bool), (if c then None else @None A) = None) by by intros ? [].
  rewrite Hn. rewrite (find_linear_page _ a b) by (apply (tw_ok _ (mw_table _ Hs)) || done).
  destruct (find_linear _ b); lia.
Qed.

(** Host addresses are 64-bit, and 0 only for guest address 0 under passthrough. *)
Lemma host_word s a :
  manager_wf s -> in_word 64 a -> in_word 64 (host_address s a) /\ (host_address s a = NULL -> a = 0).
Proof.
  intros [Hs Hpw _] [Ha1 Ha2]. pose proof (ow_heap _ _ (bk_owns _ _ _ (mw_backed _ Hs))) as Hheap. unfold in_word, NULL.
  assert (Hbase : let h := match find_linear (mm_regions (ms_mgr s)) a with Some r => r_data r + (a - r_base r) | None => a end in
                  0 <= h < 2 ^ 64 /\ (h = 0 -> a = 0)).
  { destruct (find_linear (mm_regions (ms_mgr s)) a) as [r |] eqn:Hf; [| cbn; lia].
    apply find_linear_some in Hf as [Hin Hc].
    pose proof (backed_live _ _ _ r (mw_backed _ Hs) Hin) as Hl.
    pose proof (tw_ok _ (mw_table _ Hs)) as Hok. rewrite Forall_forall in Hok. destruct (Hok r Hin).
    pose proof (live_range_bounds _ _ _ Hheap Hl ltac:(done)). apply in_range_true in Hc. cbn zeta. lia. }
  unfold host_address. destruct (_ =? 0); [exact Hbase |].
  destruct (List.find _ _) as [p |] eqn:Hf; [| exact Hbase]. apply List.find_some in Hf as [Hin Hc]. apply list_elem_of_In in Hin.
  pose proof (pw_ok _ Hpw) as Hok. rewrite Forall_forall in Hok. destruct (Hok p Hin) as [? ? ?].
  pose proof (live_range_bounds _ _ _ Hheap (patch_live s p Hs Hin) ltac:(done)). apply in_range_true in Hc. lia.
Qed.

(** ** The first byte of an access that faults *)

Fixpoint first_fault_in (e : cpueaxh_engine) (offsets : list Z) (address access : Z) : option (Z * verdict) :=
  match offsets with
  | [] => None
  | offset :: offsets =>
      match cpu_access e (at_off address offset) access with
      | V_OK => first_fault_in e offsets address access
      | v => Some (at_off address offset, v)
      end
  end.

Definition first_fault (e : cpueaxh_engine) (address size access : Z) : option (Z * verdict) :=
  first_fault_in e (offsets_from 0 size) address access.

Lemma first_fault_same e e' offsets a acc :
  same_cpu e e' -> first_fault_in e' offsets a acc = first_fault_in e offsets a acc.
Proof.
  intros Hs. induction offsets as [| o os IH]; [done |]. cbn. by rewrite (same_cpu_access _ _ _ _ Hs), IH.
Qed.

Lemma first_fault_app e l1 l2 a acc :
  first_fault_in e (l1 ++ l2) a acc =
  match first_fault_in e l1 a acc with Some f => Some f | None => first_fault_in e l2 a acc end.
Proof. induction l1 as [| o l1 IH]; [done |]. cbn. by destruct (cpu_access e (at_off a o) acc). Qed.

Lemma first_fault_none e offsets a acc :
  first_fault_in e offsets a acc = None <-> Forall (fun o => cpu_access e (at_off a o) acc = V_OK) offsets.
Proof.
  induction offsets as [| o os IH]; cbn; [by split |]. rewrite Forall_cons.
  destruct (cpu_access e (at_off a o) acc); rewrite IH || (split; [done | by intros [? _]]). tauto.
Qed.

Lemma first_fault_not_ok e offsets a acc ad v : first_fault_in e offsets a acc = Some (ad, v) -> v <> V_OK.
Proof.
  induction offsets as [| o os IH]; [done |]. cbn. destruct (cpu_access e (at_off a o) acc); [exact IH | ..]; congruence.
Qed.

Lemma seqZ_split (k n : Z) (m : Z) : 0 <= k <= n -> seqZ m n = seqZ m k ++ seqZ (m + k) (n - k).
Proof. intros. replace n with (k + (n - k)) at 1 by lia. apply seqZ_app; lia. Qed.

(** ** Scans *)

(** The bytes up to [k] are accessible and in line from [p] on. *)
Definition in_line (e : cpueaxh_engine) (a acc p k : Z) : Prop :=
  first_fault_in e (seqZ 0 k) a acc = None /\
  forall i, 0 <= i < k -> host_address (en_mem e) (at_off a i) = ptr_add p i.

Lemma offsets_0 n : offsets_from 0 n = seqZ 0 n.
Proof. unfold offsets_from. by rewrite Z.sub_0_r. Qed.

Lemma in_line_0 e a acc p : in_line e a acc p 0.
Proof. split; [done |]. intros; lia. Qed.

(** A page, or the part of it up to the end of the access, extends the line. *)
Lemma in_line_page e a acc p k step :
  cpu_ready e -> mm_patches (ms_mgr (en_mem e)) = [] -> in_line e a acc p k -> 0 <= k ->
  0 <= step <= cpu_page_bytes_remaining (at_off a k) ->
  cpu_access e (at_off a k) acc = V_OK -> host_address (en_mem e) (at_off a k) = ptr_add p k ->
  in_line e a acc p (k + step).
Proof.
  intros (Hm & _ & _) Hp [Hf Hl] Hk Hst Hok Hh.
  assert (Hin : forall j, 0 <= j < step -> cpu_access e (at_off a (k + j)) acc = V_OK /\
                  host_address (en_mem e) (at_off a (k + j)) = ptr_add p (k + j)).
  { intros j Hj. destruct (within_page a k j ltac:(lia)) as [Heq Hpg]. split.
    - by rewrite (access_page _ _ _ _ (mgw_mem _ Hm) Hpg).
    - rewrite (host_page _ (at_off a k) _ (mgw_mem _ Hm) Hp) by done.
      pose proof (host_word _ _ Hm (at_off_word a (k + j))) as [Hw _].
      rewrite (host_page _ (at_off a k) _ (mgw_mem _ Hm) Hp) in Hw by done.
      rewrite Heq, Hh in Hw |- *. replace (at_off a k + j - at_off a k) with j in * by lia.
      unfold ptr_add in *. rewrite <- (wrap_small 64 _ Hw), wrap_add_l by lia. f_equal. lia. }
  split.
  - rewrite (seqZ_split k (k + step)), first_fault_app, Hf by lia. apply first_fault_none, Forall_forall.
    intros o Ho%elem_of_seqZ. replace o with (k + (o - k)) by lia. apply Hin. lia.
  - intros i Hi. destruct (Z.lt_ge_cases i k); [apply Hl; lia |]. replace i with (k + (i - k)) by lia. apply Hin. lia.
Qed.

Lemma in_line_byte e a acc p k :
  in_line e a acc p k -> 0 <= k -> cpu_access e (at_off a k) acc = V_OK ->
  host_address (en_mem e) (at_off a k) = ptr_add p k -> in_line e a acc p (k + 1).
Proof.
  intros [Hf Hl] Hk Hok Hh. split.
  - rewrite (seqZ_split k (k + 1)), first_fault_app, Hf by lia. apply first_fault_none, Forall_forall.
    intros o Ho%elem_of_seqZ. by replace o with k by lia.
  - intros i Hi. destruct (Z.eq_dec i k) as [-> |]; [done | apply Hl; lia].
Qed.

(** The fault behind a line is the first one of the access. *)
Lemma in_line_fault e a acc p k n :
  in_line e a acc p k -> 0 <= k < n -> cpu_access e (at_off a k) acc <> V_OK ->
  first_fault e a n acc = Some (at_off a k, cpu_access e (at_off a k) acc).
Proof.
  intros [Hf _] Hk Hno. unfold first_fault. rewrite offsets_0, (seqZ_split k n), first_fault_app, Hf by lia.
  rewrite seqZ_cons by lia. cbn [first_fault_in]. replace (0 + k) with k by lia. by destruct (cpu_access e (at_off a k) acc).
Qed.

(** All bytes of the access lie in one line of host memory. *)
Definition one_line (e : cpueaxh_engine) (a n : Z) : Prop :=
  forall i, 0 <= i < n -> host_address (en_mem e) (at_off a i) = ptr_add (host_address (en_mem e) a) i.

Lemma in_line_start e a acc p k : in_word 64 a -> in_word 64 p -> 0 < k -> in_line e a acc p k -> p = host_address (en_mem e) a.
Proof.
  intros Ha Hp Hk [_ Hl]. rewrite <- (at_off_0 a Ha), Hl by lia. unfold ptr_add. rewrite Z.add_0_r. symmetry. by apply wrap_small.
Qed.

Definition scan_post (e : cpueaxh_engine) (a n acc : Z) (r : scan) (e' : cpueaxh_engine) : Prop :=
  match r with
  | Found p => same_cpu e e' /\ in_line e a acc p n /\ in_word 64 p
  | Failed => exists ad v, first_fault e a n acc = Some (ad, v) /\ faults e v ad acc e'
  | Split _ => same_cpu e e' /\ ~ one_line e a n
  end.

Lemma scan_split e a n acc p k c e' :
  in_word 64 a -> in_word 64 p -> 0 < k < n -> in_line e a acc p k -> same_cpu e e' ->
  host_address (en_mem e) (at_off a k) <> ptr_add p k -> scan_post e a n acc (Split c) e'.
Proof.
  intros Ha Hp Hk Hl Hs Hne. split; [done |]. intros Hone. apply Hne. rewrite Hone by lia.
  by rewrite (in_line_start e a acc p k Ha Hp) by (lia || done).
Qed.

Lemma scan_failed e a n acc p k e' :
  in_line e a acc p k -> 0 <= k < n ->
  cpu_access e (at_off a k) acc <> V_OK /\ faults e (cpu_access e (at_off a k) acc) (at_off a k) acc e' ->
  scan_post e a n acc Failed e'.
Proof. intros Hl Hk [Hno Hf]. do 2 eexists. split; [by eapply in_line_fault | done]. Qed.

Lemma scan_failed_0 e a n acc e' :
  in_word 64 a -> 0 < n -> cpu_access e a acc <> V_OK /\ faults e (cpu_access e a acc) a acc e' ->
  scan_post e a n acc Failed e'.
Proof.
  intros Ha Hn Hf. rewrite <- (at_off_0 a) in Hf by done. eapply (scan_failed _ _ _ _ 0 0); [apply in_line_0 | lia | done].
Qed.

Section scans.
Context `{Callbacks}.

(** The outcome of one resolution, from a state that differs in the page cache only. *)
Lemma resolve_at e e1 a acc ra rs rv :
  cpu_ready e -> same_cpu e e1 -> in_word 64 a ->
  let '(st, ptr, e2) := cpu_resolve_memory_access a acc ra rs rv e1 in
  match st with
  | MM_ACCESS_OK => cpu_access e a acc = V_OK /\ ptr = host_address (en_mem e) a /\ same_cpu e e2
  | _ => cpu_access e a acc <> V_OK /\ faults e (cpu_access e a acc) a acc e2
  end.
Proof.
  intros Hr Hs Ha. destruct (resolve_spec e1 a acc ra rs rv (same_cpu_ready _ _ Hs Hr) Ha) as (e2 & Hs2 & ->).
  rewrite (same_cpu_access _ _ _ _ Hs), (same_cpu_host _ _ _ Hs), (same_cpu_context _ _ Hs).
  assert (Hs3 : same_cpu e e2) by by eapply same_cpu_trans.
  destruct (cpu_access e a acc); [by split_and! | ..]; (split; [done |]); by exists e2.
Qed.

Lemma byte_scan_spec e a n acc value p m : forall k e1,
  cpu_ready e -> same_cpu e e1 -> in_word 64 a -> in_word 64 p -> 0 < k -> n = k + Z.of_nat m -> in_line e a acc p k ->
  let '(r, e') := byte_scan (seqZ k (Z.of_nat m)) a n acc value p e1 in scan_post e a n acc r e'.
Proof.
  induction m as [| m IH]; intros k e1 Hr Hs Ha Hw Hk -> Hl.
  { change (seqZ k (Z.of_nat 0)) with (@nil Z). cbn [byte_scan]. cbn. by rewrite Z.add_0_r. }
  rewrite seqZ_cons by lia. cbn [byte_scan]. unfold st_bind at 1. fold (at_off a k).
  pose proof (resolve_at e e1 (at_off a k) acc a (k + Z.of_nat (S m)) value Hr Hs (at_off_word a k)) as Hres.
  destruct (cpu_resolve_memory_access _ _ _ _ _ e1) as [[st ptr] e2].
  destruct st.
  - destruct Hres as (Hok & -> & Hs2). destruct (Z.eqb_spec (host_address (en_mem e) (at_off a k)) (ptr_add p k)) as [Hh |]; cbn [negb]; [| apply (scan_split e a _ acc p k); (done || lia)].
    replace (Z.succ k) with (k + 1) by lia. replace (Z.pred (Z.of_nat (S m))) with (Z.of_nat m) by lia.
    apply IH; [done.. | lia | lia | apply in_line_byte; (done || lia)].
  - eapply scan_failed; [done | lia | done].
  - eapply scan_failed; [done | lia | done].
Qed.

Lemma page_scan_spec e a n acc value p fuel : forall k e1,
  cpu_ready e -> mm_patches (ms_mgr (en_mem e)) = [] -> same_cpu e e1 -> in_word 64 a -> in_word 64 p -> p <> NULL -> 0 < k <= n ->
  n - k <= Z.of_nat fuel -> in_line e a acc p k ->
  let '(r, e') := page_scan fuel a n acc value p k e1 in scan_post e a n acc r e'.
Proof.
  induction fuel as [| fuel IH]; intros k e1 Hr Hp Hs Ha Hw Hnn Hk Hfuel Hl.
  { cbn. by replace n with k by lia. }
  cbn [page_scan]. destruct (Z.ltb_spec k n) as [Hlt | Hge]; [| cbn; by replace n with k by lia].
  unfold st_bind at 1. fold (at_off a k).
  pose proof (resolve_at e e1 (at_off a k) acc a n value Hr Hs (at_off_word a k)) as Hres.
  destruct (cpu_resolve_memory_access _ _ _ _ _ e1) as [[st ptr] e2]. destruct st.
  - destruct Hres as (Hok & -> & Hs2). destruct (Z.eqb_spec p NULL); [done |].
    destruct (Z.eqb_spec (host_address (en_mem e) (at_off a k)) (ptr_add p k)) as [Hh |]; cbn [negb]; [| apply (scan_split e a _ acc p k); (done || lia)].
    pose proof (remaining_bounds (at_off a k)).
    set (step := if _ <? _ then _ else _).
    assert (Hst : 0 < step <= cpu_page_bytes_remaining (at_off a k) /\ step <= n - k) by (unfold step; destruct (Z.ltb_spec (cpu_page_bytes_remaining (at_off a k)) (n - k)); lia).
    apply IH; [done.. | lia | lia |]. apply in_line_page; (done || lia).
  - eapply scan_failed; [done | lia | done].
  - eapply scan_failed; [done | lia | done].
Qed.

Lemma contiguous_scan_spec e a n acc value :
  cpu_ready e -> in_word 64 a -> 0 < n <= 4096 ->
  let '(r, e') := contiguous_scan a n acc value e in scan_post e a n acc r e'.
Proof.
  intros Hr Ha Hn. pose proof Hr as (Hm & _ & _). pose proof (same_cpu_refl e Hm) as Hs0.
  pose proof (proj1 (host_word _ _ Hm Ha)) as Hhw.
  assert (Hh0 : host_address (en_mem e) (at_off a 0) = ptr_add (host_address (en_mem e) a) 0).
  { rewrite at_off_0 by done. unfold ptr_add. rewrite Z.add_0_r. symmetry. apply wrap_small, host_word; done. }
  unfold contiguous_scan, st_bind at 1, st_gets, cpu_can_use_page_fast_path, patch_count.
  pose proof (resolve_at e e a acc a n value Hr Hs0 Ha) as Hres.
  destruct (Z.eqb_spec (Z.of_nat (length (mm_patches (ms_mgr (en_mem e))))) 0) as [Hp | Hp].
  - assert (Hpn : mm_patches (ms_mgr (en_mem e)) = []) by (destruct (mm_patches _); [done | cbn in Hp; lia]).
    destruct (Z.leb_spec n (cpu_page_bytes_remaining a)) as [Hin | Hout].
    + unfold st_bind. destruct (cpu_resolve_memory_access _ _ _ _ _ e) as [[st ptr] e2]. destruct st; cbn [scan_post st_ret].
      * destruct Hres as (Hok & -> & Hs2). split_and!; [done | | done]. replace n with (0 + n) by lia.
        apply in_line_page; rewrite ?at_off_0 in * by done; try (done || lia). apply in_line_0.
      * by apply scan_failed_0; [| lia |].
      * by apply scan_failed_0; [| lia |].
    + destruct (Z.to_nat n) as [| fuel] eqn:Hfuel; [lia |]. cbn [page_scan].
      destruct (Z.ltb_spec 0 n); [| lia]. fold (at_off a 0). rewrite at_off_0 by done.
      unfold st_bind at 1. destruct (cpu_resolve_memory_access _ _ _ _ _ e) as [[st ptr] e2]. destruct st.
      * destruct Hres as (Hok & -> & Hs2). change (NULL =? NULL) with true. cbn iota.
        pose proof (remaining_bounds a). rewrite Z.sub_0_r, Z.add_0_l.
        destruct (Z.ltb_spec (cpu_page_bytes_remaining a) n); [| lia].
        apply page_scan_spec; try (done || lia).
        -- intros Hz. apply host_word in Hz; [| done..]. subst a. change (cpu_page_bytes_remaining 0) with 4096 in *. lia.
        -- replace (cpu_page_bytes_remaining a) with (0 + cpu_page_bytes_remaining a) by lia.
           apply in_line_page; rewrite ?at_off_0 in * by done; try (done || lia). apply in_line_0.
      * by apply scan_failed_0; [| lia |].
      * by apply scan_failed_0; [| lia |].
  - unfold st_bind at 1. destruct (cpu_resolve_memory_access _ _ _ _ _ e) as [[st ptr] e2]. destruct st.
    + destruct Hres as (Hok & -> & Hs2). unfold offsets_from.
      replace (n - 1) with (Z.of_nat (Z.to_nat (n - 1))) by lia. apply byte_scan_spec; [done.. | lia | lia |].
      change 1 with (0 + 1). apply in_line_byte; [apply in_line_0 | lia | by rewrite at_off_0 | done].
    + by apply scan_failed_0; [| lia |].
    + by apply scan_failed_0; [| lia |].
Qed.

End scans.

(** ** Little-endian values *)

(** The byte a guest address shows. *)
Definition guest_byte (e : cpueaxh_engine) (address : Z) : Z :=
  match access_view (en_mem e) address with Some (b, _, _) => b | None => 0 end.

Definition guest_value (e : cpueaxh_engine) (address size : Z) : Z :=
  le_combine (map (fun o => guest_byte e (at_off address o)) (offsets_from 0 size)).

Lemma lor_shift b x : 0 <= b < 256 -> 0 <= x -> Z.lor b (Z.shiftl x 8) = b + 256 * x.
Proof.
  intros Hb Hx. rewrite Z.shiftl_mul_pow2 by lia. change (2 ^ 8) with 256. rewrite Z.mul_comm.
  rewrite <- Z.lxor_lor, <- Z.add_nocarry_lxor; [done | |];
    (apply Z.bits_inj'; intros i Hi; rewrite Z.land_spec, Z.bits_0; change 256 with (2 ^ 8);
     rewrite Z.mul_comm, Z.mul_pow2_bits by lia;
     destruct (Z.ltb_spec i 8);
       [rewrite (Z.testbit_neg_r x) by lia; apply andb_false_r | by rewrite (testbit_high 8 b) by (done || lia)]).
Qed.

Lemma le_combine_bound l : Forall (fun b => 0 <= b < 256) l -> 0 <= le_combine l < 256 ^ Z.of_nat (length l).
Proof.
  induction 1 as [| b l Hb Hl IH]; [done |]. cbn [le_combine length].
  rewrite Nat2Z.inj_succ, Z.pow_succ_r by lia. lia.
Qed.

Lemma heap_byte s a : manager_wf s -> 0 <= hh_bytes (ms_heap s) a < 256.
Proof. intros [Hs _ _]. apply (ow_heap _ _ (bk_owns _ _ _ (mw_backed _ Hs))). Qed.

Lemma cpu_access_ok_view e a acc : cpu_access e a acc = V_OK -> exists b p t, access_view (en_mem e) a = Some (b, p, t).
Proof. unfold cpu_access. destruct (_ && _); [done |]. destruct (access_view (en_mem e) a) as [[[b p] t] |]; [by exists b, p, t | done]. Qed.

(** The byte behind an accessible address. *)
Lemma guest_byte_host e a acc :
  cpu_access e a acc = V_OK -> guest_byte e a = hh_bytes (ms_heap (en_mem e)) (host_address (en_mem e) a).
Proof.
  intros (b & p & t & Hv)%cpu_access_ok_view. unfold guest_byte. rewrite Hv. symmetry. by eapply access_view_host.
Qed.

Lemma guest_bytes_ok e a acc offsets :
  manager_wf (en_mem e) -> first_fault_in e offsets a acc = None ->
  Forall (fun b => 0 <= b < 256) (map (fun o => guest_byte e (at_off a o)) offsets).
Proof.
  intros Hm Hf%first_fault_none. apply Forall_fmap. eapply Forall_impl; [exact Hf |]. cbn. intros o Hok.
  rewrite (guest_byte_host e _ acc Hok). by apply heap_byte.
Qed.

(** Loading from a line of bytes. *)
Lemma load_le_line h : forall n p bytes,
  length bytes = n -> (forall i, (i < n)%nat -> hh_bytes h (ptr_add p (Z.of_nat i)) = nth i bytes 0) ->
  Forall (fun b => 0 <= b < 256) bytes -> in_word 64 p ->
  load_le n p h = le_combine bytes.
Proof.
  induction n as [| n IH]; intros p bytes Hlen Hb Hok Hp; destruct bytes as [| b bytes]; try done.
  cbn [load_le le_combine]. injection Hlen as Hlen. apply Forall_cons in Hok as [Hb0 Hok].
  rewrite (IH (ptr_add p 1) bytes); [| done | | done | apply wrap_range; lia].
  - pose proof (Hb 0%nat ltac:(lia)) as H0. cbn in H0. unfold ptr_add in H0. rewrite Z.add_0_r, wrap_small in H0 by done.
    unfold load. rewrite H0. apply lor_shift; [done |]. by apply le_combine_bound.
  - intros i Hi. specialize (Hb (S i) ltac:(lia)). cbn [nth] in Hb. rewrite <- Hb. f_equal.
    unfold ptr_add. rewrite wrap_add_l by lia. f_equal. lia.
Qed.

Lemma offsets_length n : length (offsets_from 0 n) = Z.to_nat n.
Proof. rewrite offsets_0. apply length_seqZ. Qed.

Lemma nth_offsets {A} (f : Z -> A) n i d : (i < Z.to_nat n)%nat -> nth i (map f (offsets_from 0 n)) d = f (Z.of_nat i).
Proof.
  intros Hi. rewrite offsets_0, nth_lookup, list_lookup_fmap.
  assert (Hl : seqZ 0 n !! i = Some (Z.of_nat i)) by (apply lookup_seqZ; lia). by rewrite Hl.
Qed.

Lemma load_in_line e a acc p n :
  manager_wf (en_mem e) -> in_word 64 p -> 0 <= n -> in_line e a acc p n ->
  load_le (Z.to_nat n) p (ms_heap (en_mem e)) = guest_value e a n.
Proof.
  intros Hm Hp Hn [Hf Hl]. apply load_le_line; [| | | done].
  - rewrite length_map. apply offsets_length.
  - intros i Hi. rewrite nth_offsets, <- Hl by lia. symmetry. apply (guest_byte_host e _ acc).
    apply first_fault_none in Hf. rewrite Forall_forall in Hf. apply Hf, elem_of_seqZ. lia.
  - rewrite offsets_0. by eapply guest_bytes_ok.
Qed.

Section reads.
Context `{Callbacks}.

Lemma notify_quiet t a n v e : quiet e -> notify_if_hooked t a n v e = (tt, e).
Proof. intros Hq. unfold notify_if_hooked, st_bind, st_gets. by rewrite Hq. Qed.

Lemma quiet_same e e' : same_cpu e e' -> quiet e -> quiet e'.
Proof. intros (m & -> & _) Hq. exact Hq. Qed.

(** Once a fault is pending every resolution fails. *)
Lemma resolve_pending a acc ra rs rv e :
  cpu_has_exception (en_context e) = true -> cpu_resolve_memory_access a acc ra rs rv e = ((MM_ACCESS_UNMAPPED, NULL), e).
Proof. intros Hx. unfold cpu_resolve_memory_access, st_bind, get_ctx, st_gets. by rewrite Hx. Qed.

Lemma read_bytes_spec e a n m : forall k e1,
  cpu_ready e -> same_cpu e e1 -> 0 <= k ->
  match first_fault_in e (seqZ k (Z.of_nat m)) a MM_PROT_READ with
  | None => exists e', same_cpu e e' /\
      read_bytes (seqZ k (Z.of_nat m)) a n e1 =
        (Some (Z.shiftl (le_combine (map (fun o => guest_byte e (at_off a o)) (seqZ k (Z.of_nat m)))) (8 * k)), e')
  | Some (ad, v) => exists e', faults e v ad MM_PROT_READ e' /\ read_bytes (seqZ k (Z.of_nat m)) a n e1 = (None, e')
  end.
Proof.
  induction m as [| m IH]; intros k e1 Hr Hs Hk.
  { change (seqZ k (Z.of_nat 0)) with (@nil Z). cbn. exists e1. by rewrite Z.shiftl_0_l. }
  rewrite seqZ_cons by lia. cbn [read_bytes first_fault_in map le_combine]. unfold st_bind. fold (at_off a k).
  pose proof (resolve_at e e1 (at_off a k) MM_PROT_READ a n 0 Hr Hs (at_off_word a k)) as Hres.
  destruct (cpu_resolve_memory_access _ _ _ _ _ e1) as [[st ptr] e2].
  replace (Z.succ k) with (k + 1) by lia. replace (Z.pred (Z.of_nat (S m))) with (Z.of_nat m) by lia.
  pose proof Hr as (Hm & _ & _).
  destruct st.
  2,3: destruct Hres as [Hno Hf]; destruct (cpu_access e (at_off a k) MM_PROT_READ); [done | by exists e2..].
  destruct Hres as (Hok & -> & Hs2). rewrite Hok. unfold load_host, st_gets.
  rewrite (same_cpu_heap _ _ Hs2). unfold load. rewrite <- (guest_byte_host e (at_off a k) MM_PROT_READ Hok).
  specialize (IH (k + 1) e2 Hr Hs2 ltac:(lia)).
  destruct (first_fault_in e (seqZ (k + 1) (Z.of_nat m)) a MM_PROT_READ) as [[ad v] |] eqn:Hff.
  - destruct IH as (e' & Hf & Hrun). exists e'. split; [done |].
    destruct (read_bytes _ a n e2) as [r e3]. by injection Hrun as -> ->.
  - destruct IH as (e' & Hs' & Hrun). exists e'. split; [done |].
    destruct (read_bytes _ a n e2) as [r e3]. injection Hrun as -> ->. unfold st_ret, option_map. do 2 f_equal.
    set (rest := le_combine _).
    assert (Hb : 0 <= guest_byte e (at_off a k) < 256) by (rewrite (guest_byte_host e _ _ Hok); by apply heap_byte).
    assert (Hrest : 0 <= rest) by (apply le_combine_bound, (guest_bytes_ok e a MM_PROT_READ); done).
    rewrite <- lor_shift by done. rewrite Z.shiftl_lor, Z.shiftl_shiftl by lia.
    replace (8 * (k + 1)) with (8 + 8 * k) by lia. by replace (k * 8) with (8 * k) by lia.
Qed.

(** The single-pointer attempt: the host pointer when it found one, else NULL, with the fault raised when it met one. *)
Lemma try_contiguous_spec e a n acc value :
  cpu_ready e -> in_word 64 a -> 0 < n <= 4096 ->
  let '(p, e') := cpu_try_get_contiguous_ptr a n acc value e in
  (same_cpu e e' /\ (p <> NULL -> in_line e a acc p n /\ in_word 64 p)) \/
  (p = NULL /\ exists ad v, first_fault e a n acc = Some (ad, v) /\ faults e v ad acc e').
Proof.
  intros Hr Ha Hn. pose proof Hr as (Hm & _ & Hx).
  unfold cpu_try_get_contiguous_ptr, cpu_get_contiguous_ptr_impl, st_bind, get_ctx, st_gets. rewrite Hx.
  destruct (Z.eqb_spec n 0); [lia |]. cbn [orb].
  pose proof (contiguous_scan_spec e a n acc value Hr Ha Hn) as Hsc.
  destruct (contiguous_scan a n acc value e) as [[p | | c] e'] eqn:Hscan; cbn [st_ret default].
  - left. destruct Hsc. by split.
  - right. done.
  - left. destruct Hsc as [Hsc _]. split; [exact Hsc | done].
Qed.

(** Any faulting access leaves its fault pending. *)
Lemma first_fault_same_cpu e e1 a n acc : same_cpu e e1 -> first_fault e1 a n acc = first_fault e a n acc.
Proof. intros Hs. unfold first_fault. by apply first_fault_same. Qed.

Lemma first_fault_pending e a n acc ad v e' :
  first_fault e a n acc = Some (ad, v) -> faults e v ad acc e' -> cpu_has_exception (en_context e') = true.
Proof. intros Hff Hf. eapply faults_pending; [by eapply first_fault_not_ok | done]. Qed.

End reads.

(** ** Reading *)

Section values.
Context `{Callbacks}.

Lemma read_memory_scalar_spec e a n :
  cpu_ready e -> in_word 64 a -> 0 < n <= 4096 ->
  match first_fault e a n MM_PROT_READ with
  | None => exists e', same_cpu e e' /\ read_memory_scalar n a e = (guest_value e a n, e')
  | Some (ad, v) => exists e', faults e v ad MM_PROT_READ e' /\ read_memory_scalar n a e = (0, e')
  end.
Proof.
  intros Hr Ha Hn. pose proof Hr as (Hm & Hq & Hx).
  unfold read_memory_scalar, st_bind, get_ctx, st_gets. rewrite Hx.
  pose proof (try_contiguous_spec e a n MM_PROT_READ 0 Hr Ha Hn) as Htry.
  destruct (cpu_try_get_contiguous_ptr a n MM_PROT_READ 0 e) as [p e1].
  destruct Htry as [[Hs Hl] | (-> & ad & v & Hff & Hf)].
  - destruct (Z.eqb_spec p NULL) as [-> | Hp]; cbn [negb].
    + pose proof (read_bytes_spec e a n (Z.to_nat n) 0 e1 Hr Hs ltac:(lia)) as Hb.
      rewrite Z2Nat.id in Hb by lia. unfold first_fault. rewrite !offsets_0.
      destruct (first_fault_in e (seqZ 0 n) a MM_PROT_READ) as [[ad v] |].
      * destruct Hb as (e' & Hf & ->). by exists e'.
      * destruct Hb as (e' & Hs' & ->). rewrite Z.mul_0_r, Z.shiftl_0_r, notify_quiet by by eapply quiet_same.
        exists e'. split; [done |]. unfold guest_value. by rewrite offsets_0.
    + destruct (Hl Hp) as [[Hf Hh] Hw]. unfold first_fault. rewrite offsets_0, Hf.
      rewrite (same_cpu_heap _ _ Hs), (load_in_line e a MM_PROT_READ p n Hm Hw) by (lia || by split).
      rewrite notify_quiet by by eapply quiet_same. by exists e1.
  - rewrite Hff. change (negb (NULL =? NULL)) with false. cbn iota.
    pose proof (first_fault_pending _ _ _ _ _ _ _ Hff Hf) as Hpend.
    exists e1. split; [done |]. rewrite offsets_0, seqZ_cons by lia. cbn [read_bytes]. unfold st_bind.
    by rewrite resolve_pending.
Qed.

Lemma guest_value_1 e a : in_word 64 a -> guest_value e a 1 = guest_byte e a.
Proof.
  intros. unfold guest_value. change (offsets_from 0 1) with [0]. cbn [map le_combine]. rewrite at_off_0 by done. lia.
Qed.

Lemma first_fault_1 e a acc :
  in_word 64 a -> first_fault e a 1 acc = match cpu_access e a acc with V_OK => None | v => Some (a, v) end.
Proof.
  intros. unfold first_fault. change (offsets_from 0 1) with [0]. cbn [first_fault_in]. by rewrite at_off_0.
Qed.

Lemma read_memory_byte_spec e a :
  cpu_ready e -> in_word 64 a ->
  match first_fault e a 1 MM_PROT_READ with
  | None => exists e', same_cpu e e' /\ read_memory_byte a e = (guest_value e a 1, e')
  | Some (ad, v) => exists e', faults e v ad MM_PROT_READ e' /\ read_memory_byte a e = (0, e')
  end.
Proof.
  intros Hr Ha. pose proof Hr as (Hm & Hq & _). unfold read_memory_byte, st_bind.
  pose proof (resolve_at e e a MM_PROT_READ a 1 0 Hr (same_cpu_refl e Hm) Ha) as Hres.
  destruct (cpu_resolve_memory_access _ _ _ _ _ e) as [[st ptr] e1]. rewrite first_fault_1, guest_value_1 by done. destruct st.
  - destruct Hres as (Hok & -> & Hs). rewrite Hok. unfold load_host, st_gets. rewrite notify_quiet by by eapply quiet_same.
    exists e1. split; [done |]. rewrite (same_cpu_heap _ _ Hs). unfold load, st_ret. by rewrite <- (guest_byte_host e a MM_PROT_READ).
  - destruct Hres as [Hno Hf]. destruct (cpu_access e a MM_PROT_READ); [done | by exists e1..].
  - destruct Hres as [Hno Hf]. destruct (cpu_access e a MM_PROT_READ); [done | by exists e1..].
Qed.

End values.

(** ** Writing *)

(** What a host byte [b] at [h] becomes when the bytes of [value] are stored at [hosts], in order. *)
Fixpoint overwrite (hosts : list Z) (value h b : Z) : Z :=
  match hosts with
  | [] => b
  | host :: hosts => overwrite hosts (Z.shiftr value 8) h (if h =? host then Z.land value 0xFF else b)
  end.

(** The bytes of [value] were stored at [hosts] and nothing else changed. *)
Definition stored (e : cpueaxh_engine) (hosts : list Z) (value : Z) (e' : cpueaxh_engine) : Prop :=
  exists m, e' = set_en_mem m e /\ manager_wf m /\
    (exists cache, ms_mgr m = set_mm_page_cache cache (ms_mgr (en_mem e))) /\
    (forall c, host_address m c = host_address (en_mem e) c) /\
    forall c, access_view m c =
      match access_view (en_mem e) c with
      | Some (b, p, t) => Some (overwrite hosts value (host_address (en_mem e) c) b, p, t)
      | None => None
      end.

Lemma same_cpu_stored e e1 hosts value e' : same_cpu e e1 -> stored e1 hosts value e' -> stored e hosts value e'.
Proof.
  intros (m1 & -> & Hsc & _) (m & -> & Hm & (c & Hc) & Hh & Hv). exists m. split_and!; [done | done | | |].
  - destruct Hsc as [_ (c1 & Hc1)]. exists c. cbn [en_mem set_en_mem] in Hc. by rewrite Hc, Hc1.
  - intros x. rewrite Hh. cbn [en_mem set_en_mem]. by apply same_but_cache_host.
  - intros x. rewrite Hv. cbn [en_mem set_en_mem]. by rewrite (same_but_cache_view _ _ _ Hsc), (same_but_cache_host _ _ _ Hsc).
Qed.

Lemma wrap_land_255 v : u8 (Z.land v 0xFF) = Z.land v 0xFF.
Proof. change 0xFF with (Z.ones 8). rewrite Z.land_ones by lia. by apply wrap_wrap. Qed.

Lemma store_le_spec ptrs : forall value e, manager_wf (en_mem e) -> stored e ptrs value (final (store_le ptrs value) e).
Proof.
  unfold final. induction ptrs as [| p ptrs IH]; intros value e Hm.
  - exists (en_mem e). cbn [store_le st_ret snd overwrite]. split_and!; [by destruct e | done | | done |].
    + exists (mm_page_cache (ms_mgr (en_mem e))). by destruct (ms_mgr (en_mem e)).
    + intros c. by destruct (access_view (en_mem e) c) as [[[? ?] ?] |].
  - cbn [store_le]. unfold st_bind at 1, store_host, on_mem, on_heap, st_zoom at 1.
    set (m1 := set_ms_heap (final (store p (Z.land value 0xFF)) (ms_heap (en_mem e))) (en_mem e)).
    assert (Hm1 : manager_wf m1) by by apply store_mem_wf.
    change (stored e (p :: ptrs) value (snd (store_le ptrs (Z.shiftr value 8) (set_en_mem m1 e)))).
    destruct (IH (Z.shiftr value 8) (set_en_mem m1 e) Hm1) as (m & -> & Hm' & Hc & Hh & Hv).
    exists m. split_and!; [done | done | exact Hc | exact Hh |]. intros c. rewrite Hv. cbn [en_mem set_en_mem overwrite].
    unfold m1 at 1. rewrite store_access_view, wrap_land_255. change (host_address m1 c) with (host_address (en_mem e) c).
    by destruct (access_view (en_mem e) c) as [[[? ?] ?] |].
Qed.

Section writes.
Context `{Callbacks}.

(** The host addresses of an access. *)
Definition hosts_of (e : cpueaxh_engine) (a n : Z) : list Z :=
  map (fun o => host_address (en_mem e) (at_off a o)) (offsets_from 0 n).

Lemma byte_pointers_spec e a n value offsets : forall e1,
  cpu_ready e -> same_cpu e e1 ->
  match first_fault_in e offsets a MM_PROT_WRITE with
  | None => exists e', same_cpu e e' /\
      byte_pointers offsets a n value e1 = (Some (map (fun o => host_address (en_mem e) (at_off a o)) offsets), e')
  | Some (ad, v) => exists e', faults e v ad MM_PROT_WRITE e' /\ byte_pointers offsets a n value e1 = (None, e')
  end.
Proof.
  induction offsets as [| k offsets IH]; intros e1 Hr Hs; [by exists e1 |].
  cbn [byte_pointers first_fault_in map]. unfold st_bind. fold (at_off a k).
  pose proof (resolve_at e e1 (at_off a k) MM_PROT_WRITE a n value Hr Hs (at_off_word a k)) as Hres.
  destruct (cpu_resolve_memory_access _ _ _ _ _ e1) as [[st ptr] e2]. destruct st.
  2,3: destruct Hres as [Hno Hf]; destruct (cpu_access e (at_off a k) MM_PROT_WRITE); [done | by exists e2..].
  destruct Hres as (Hok & -> & Hs2). rewrite Hok. specialize (IH e2 Hr Hs2).
  destruct (first_fault_in e offsets a MM_PROT_WRITE) as [[ad v] |].
  - destruct IH as (e' & Hf & ->). by exists e'.
  - destruct IH as (e' & Hs' & ->). by exists e'.
Qed.

Lemma write_memory_scalar_spec e a n value :
  cpu_ready e -> in_word 64 a -> 0 < n <= 4096 ->
  match first_fault e a n MM_PROT_WRITE with
  | None => stored e (hosts_of e a n) value (final (write_memory_scalar n a value) e)
  | Some (ad, v) => faults e v ad MM_PROT_WRITE (final (write_memory_scalar n a value) e)
  end.
Proof.
  intros Hr Ha Hn. pose proof Hr as (Hm & Hq & Hx).
  unfold final, write_memory_scalar, st_bind, get_ctx, st_gets. rewrite Hx.
  pose proof (try_contiguous_spec e a n MM_PROT_WRITE value Hr Ha Hn) as Htry.
  destruct (cpu_try_get_contiguous_ptr a n MM_PROT_WRITE value e) as [p e1].
  assert (Hdone : forall e', same_cpu e e' ->
            stored e (hosts_of e a n) value (snd (let '(_, s) := notify_if_hooked CPUEAXH_HOOK_MEM_WRITE a n value e' in
                                                  store_le (hosts_of e a n) value s))).
  { intros e' Hs'. rewrite notify_quiet by by eapply quiet_same. eapply same_cpu_stored; [exact Hs' |].
    apply store_le_spec. by destruct Hs' as (m' & -> & _ & Hm'). }
  destruct Htry as [[Hs Hl] | (-> & ad & v & Hff & Hf)].
  - destruct (Z.eqb_spec p NULL) as [-> | Hp]; cbn [negb].
    + pose proof (byte_pointers_spec e a n value (offsets_from 0 n) e1 Hr Hs) as Hb. unfold first_fault.
      destruct (first_fault_in e (offsets_from 0 n) a MM_PROT_WRITE) as [[ad v] |].
      * destruct Hb as (e' & Hf & ->). done.
      * destruct Hb as (e' & Hs' & ->). by apply Hdone.
    + destruct (Hl Hp) as [[Hf Hh] Hw]. unfold first_fault. rewrite offsets_0, Hf.
      assert (map (ptr_add p) (seqZ 0 n) = hosts_of e a n) as ->; [| by apply Hdone].
      unfold hosts_of. rewrite offsets_0. apply map_ext_in. intros i Hi%list_elem_of_In%elem_of_seqZ. symmetry. apply Hh. lia.
  - rewrite Hff. change (negb (NULL =? NULL)) with false. cbn iota.
    pose proof (first_fault_pending _ _ _ _ _ _ _ Hff Hf) as Hpend.
    rewrite offsets_0, seqZ_cons by lia. cbn [byte_pointers]. unfold st_bind. by rewrite resolve_pending.
Qed.

Lemma write_memory_byte_spec e a value :
  cpu_ready e -> in_word 64 a ->
  match first_fault e a 1 MM_PROT_WRITE with
  | None => stored e (hosts_of e a 1) value (final (write_memory_byte a value) e)
  | Some (ad, v) => faults e v ad MM_PROT_WRITE (final (write_memory_byte a value) e)
  end.
Proof.
  intros Hr Ha. pose proof Hr as (Hm & Hq & _). unfold final, write_memory_byte, st_bind.
  pose proof (resolve_at e e a MM_PROT_WRITE a 1 value Hr (same_cpu_refl e Hm) Ha) as Hres.
  destruct (cpu_resolve_memory_access _ _ _ _ _ e) as [[st ptr] e1]. rewrite first_fault_1 by done. destruct st.
  - destruct Hres as (Hok & -> & Hs). rewrite Hok. rewrite notify_quiet by by eapply quiet_same.
    eapply same_cpu_stored; [exact Hs |]. unfold hosts_of. change (offsets_from 0 1) with [0]. cbn [map]. rewrite at_off_0 by done.
    assert (Hm1 : manager_wf (en_mem e1)) by (destruct Hs as (m & -> & _ & ?); done).
    pose proof (store_le_spec [host_address (en_mem e) a] value e1 Hm1) as Hst. unfold final in Hst.
    cbn [store_le] in Hst. unfold st_bind, st_ret in Hst.
    assert (Heq : store_host (host_address (en_mem e) a) (Z.land value 0xFF) = store_host (host_address (en_mem e) a) value).
    { unfold store_host, store. rewrite wrap_land_255. unfold u8. change 0xFF with (Z.ones 8). by rewrite Z.land_ones by lia. }
    rewrite Heq in Hst. by destruct (store_host (host_address (en_mem e) a) value e1).
  - destruct Hres as [Hno Hf]. destruct (cpu_access e a MM_PROT_WRITE); done.
  - destruct Hres as [Hno Hf]. destruct (cpu_access e a MM_PROT_WRITE); done.
Qed.

End writes.

(** ** Values through memory *)

Lemma overwrite_wrap hosts : forall value h b w,
  8 * Z.of_nat (length hosts) <= w -> overwrite hosts (wrap w value) h b = overwrite hosts value h b.
Proof.
  induction hosts as [| p hosts IH]; intros value h b w Hw; [done |]. cbn [overwrite length] in *.
  assert (Hlow : Z.land (wrap w value) 0xFF = Z.land value 0xFF).
  { change 0xFF with (Z.ones 8). rewrite !Z.land_ones by lia. apply (wrap_wrap_le 8 w). lia. }
  assert (Hsh : Z.shiftr (wrap w value) 8 = wrap (w - 8) (Z.shiftr value 8)).
  { bitwise. destruct (Z.ltb_spec (i + 8) w), (Z.ltb_spec i (w - 8)); (done || lia). }
  rewrite Hlow, Hsh. apply IH. lia.
Qed.

Lemma overwrite_nodup hosts : forall value b i h,
  NoDup hosts -> hosts !! i = Some h -> overwrite hosts value h b = Z.land (Z.shiftr value (8 * Z.of_nat i)) 0xFF.
Proof.
  induction hosts as [| p hosts IH]; intros value b i h Hnd Hi; [done |]. apply NoDup_cons in Hnd as [Hp Hnd].
  cbn [overwrite]. destruct i as [| i]; cbn in Hi.
  - injection Hi as ->. rewrite Z.eqb_refl, Z.mul_0_r, Z.shiftr_0_r.
    assert (Hk : forall l v x, h ∉ l -> overwrite l v h x = x); [| by apply Hk].
    clear. induction l as [| q l IH]; intros v x Hn; [done |]. apply not_elem_of_cons in Hn as [Hq Hn]. cbn.
    destruct (Z.eqb_spec h q); [done |]. by apply IH.
  - rewrite (IH _ _ i h Hnd Hi), Z.shiftr_shiftr by lia. do 2 f_equal. lia.
Qed.

Lemma le_combine_bytes n : forall v, le_combine (map (fun o => Z.land (Z.shiftr v (8 * o)) 0xFF) (seqZ 0 (Z.of_nat n))) = wrap (8 * Z.of_nat n) v.
Proof.
  assert (Hgen : forall n v k, 0 <= k ->
    le_combine (map (fun o => Z.land (Z.shiftr v (8 * o)) 0xFF) (seqZ k (Z.of_nat n))) = wrap (8 * Z.of_nat n) (Z.shiftr v (8 * k))).
  { clear. induction n as [| n IH]; intros v k Hk.
    - change (seqZ k (Z.of_nat 0)) with (@nil Z). cbn. unfold wrap. by rewrite Z.mod_1_r.
    - rewrite seqZ_cons by lia. cbn [map le_combine]. replace (Z.pred (Z.of_nat (S n))) with (Z.of_nat n) by lia.
      rewrite IH by lia. change 0xFF with (Z.ones 8). rewrite Z.land_ones by lia.
      replace (8 * Z.succ k) with (8 * k + 8) by lia. rewrite <- Z.shiftr_shiftr by lia.
      set (x := Z.shiftr v (8 * k)). replace (8 * Z.of_nat (S n)) with (8 + 8 * Z.of_nat n) by lia.
      unfold wrap. rewrite Z.pow_add_r, Z.rem_mul_r by lia. rewrite Z.shiftr_div_pow2 by lia. done. }
  intros v. rewrite Hgen by lia. by rewrite Z.mul_0_r, Z.shiftr_0_r.
Qed.

Lemma stored_host e hosts v e' c : stored e hosts v e' -> host_address (en_mem e') c = host_address (en_mem e) c.
Proof. intros (m & -> & _ & _ & Hh & _). apply Hh. Qed.

Lemma stored_access e hosts v e' a acc : stored e hosts v e' -> cpu_access e' a acc = cpu_access e a acc.
Proof.
  intros (m & -> & _ & _ & _ & Hv). unfold cpu_access. cbn [en_mem en_context set_en_mem]. rewrite Hv.
  by destruct (access_view (en_mem e) a) as [[[? ?] ?] |].
Qed.

Lemma stored_first_fault e hosts v e' a n acc : stored e hosts v e' -> first_fault e' a n acc = first_fault e a n acc.
Proof.
  intros Hst. unfold first_fault. induction (offsets_from 0 n) as [| o os IH]; [done |]. cbn.
  by rewrite (stored_access _ _ _ _ _ _ Hst), IH.
Qed.

Lemma stored_ready e hosts v e' : stored e hosts v e' -> cpu_ready e -> cpu_ready e'.
Proof. intros (m & -> & Hm & _) (_ & Hq & Hx). by split_and!. Qed.

Lemma stored_value e a n v e' acc :
  stored e (hosts_of e a n) v e' -> first_fault e a n acc = None -> NoDup (hosts_of e a n) -> 0 <= n ->
  guest_value e' a n = wrap (8 * n) v.
Proof.
  intros Hst Hf Hnd Hn. replace n with (Z.of_nat (Z.to_nat n)) at 2 by lia. rewrite <- le_combine_bytes.
  unfold guest_value. rewrite offsets_0, Z2Nat.id by lia. f_equal. apply map_ext_in. intros o Ho%list_elem_of_In%elem_of_seqZ.
  unfold first_fault in Hf. rewrite offsets_0 in Hf. apply first_fault_none in Hf. rewrite Forall_forall in Hf.
  destruct (cpu_access_ok_view _ _ _ (Hf o ltac:(apply elem_of_seqZ; lia))) as (b & p & t & Hv).
  destruct Hst as (m & -> & _ & _ & _ & Hview). unfold guest_byte. cbn [en_mem set_en_mem]. rewrite Hview, Hv.
  rewrite (overwrite_nodup _ _ _ (Z.to_nat o) _ Hnd); [by rewrite Z2Nat.id by lia |].
  unfold hosts_of. rewrite offsets_0, list_lookup_fmap.
  assert (seqZ 0 n !! Z.to_nat o = Some o) as ->; [| done]. apply lookup_seqZ. lia.
Qed.

(** ** Operands by size *)

Definition operand_size_ok (os : Z) : Prop := os = 8 \/ os = 16 \/ os = 32 \/ os = 64.

Section operands.
Context `{Callbacks}.

Lemma read_operand_spec e a os :
  cpu_ready e -> in_word 64 a -> operand_size_ok os ->
  match first_fault e a (os / 8) MM_PROT_READ with
  | None => exists e', same_cpu e e' /\ read_memory_operand a os e = (guest_value e a (os / 8), e')
  | Some (ad, v) => exists e', faults e v ad MM_PROT_READ e' /\ read_memory_operand a os e = (0, e')
  end.
Proof.
  intros Hr Ha Hos. unfold read_memory_operand, read_memory_word, read_memory_dword, read_memory_qword.
  destruct Hos as [-> | [-> | [-> | ->]]].
  - closed_ops. by apply read_memory_byte_spec.
  - closed_ops.
    apply read_memory_scalar_spec; [done.. | lia].
  - closed_ops.
    apply read_memory_scalar_spec; [done.. | lia].
  - closed_ops. apply read_memory_scalar_spec; [done.. | lia].
Qed.

Lemma stored_wrap e hosts v e' w : 8 * Z.of_nat (length hosts) <= w -> stored e hosts (wrap w v) e' -> stored e hosts v e'.
Proof.
  intros Hw (m & -> & Hm & Hc & Hh & Hv). exists m. split_and!; [done.. |]. intros c. rewrite Hv.
  destruct (access_view (en_mem e) c) as [[[? ?] ?] |]; [| done]. by rewrite overwrite_wrap.
Qed.

Lemma hosts_length e a n : length (hosts_of e a n) = Z.to_nat n.
Proof. unfold hosts_of. rewrite length_map. apply offsets_length. Qed.

Lemma write_operand_spec e a os value :
  cpu_ready e -> in_word 64 a -> operand_size_ok os ->
  match first_fault e a (os / 8) MM_PROT_WRITE with
  | None => stored e (hosts_of e a (os / 8)) value (final (write_memory_operand a os value) e)
  | Some (ad, v) => faults e v ad MM_PROT_WRITE (final (write_memory_operand a os value) e)
  end.
Proof.
  intros Hr Ha Hos. unfold write_memory_operand.
  assert (Hgen : forall n w c, 0 < n <= 8 -> 8 * n <= w ->
    (match first_fault e a n MM_PROT_WRITE with
     | None => stored e (hosts_of e a n) (wrap w value) (final c e)
     | Some (ad, v) => faults e v ad MM_PROT_WRITE (final (A:=unit) c e) end) ->
    match first_fault e a n MM_PROT_WRITE with
    | None => stored e (hosts_of e a n) value (final c e)
    | Some (ad, v) => faults e v ad MM_PROT_WRITE (final c e) end).
  { intros n w c Hn Hw Hc. destruct (first_fault e a n MM_PROT_WRITE) as [[ad v] |]; [exact Hc |].
    eapply stored_wrap; [| exact Hc]. rewrite hosts_length. lia. }
  unfold write_memory_word, write_memory_dword, write_memory_qword.
  destruct Hos as [-> | [-> | [-> | ->]]].
  - closed_ops. apply (Hgen 1 8); [lia.. |]. by apply write_memory_byte_spec.
  - closed_ops.
    apply (Hgen 2 16); [lia.. |]. apply write_memory_scalar_spec; [done.. | lia].
  - closed_ops.
    apply (Hgen 4 32); [lia.. |]. apply write_memory_scalar_spec; [done.. | lia].
  - closed_ops. apply write_memory_scalar_spec; [done.. | lia].
Qed.

Lemma operand_mask_eq os e : operand_size_ok os -> cpu_memory_operand_mask os e = (Z.ones os, e).
Proof. by intros [-> | [-> | [-> | ->]]]. Qed.

End operands.

(** ** Locked operations *)

Section locked.
Context `{Callbacks}.

Lemma read_operand_checked_spec e a os :
  cpu_ready e -> in_word 64 a -> operand_size_ok os ->
  match first_fault e a (os / 8) MM_PROT_READ with
  | None => exists e', same_cpu e e' /\ read_memory_operand_checked a os e = (mkRead true (guest_value e a (os / 8)), e')
  | Some (ad, v) => exists e', faults e v ad MM_PROT_READ e' /\ read_memory_operand_checked a os e = (mkRead false 0, e')
  end.
Proof.
  intros Hr Ha Hos. pose proof (read_operand_spec e a os Hr Ha Hos) as Hs. pose proof Hr as (_ & _ & Hx).
  assert (Heq : read_memory_operand_checked a os = checked (read_memory_operand a os)).
  { unfold read_memory_operand_checked, read_memory_operand. destruct Hos as [-> | [-> | [-> | ->]]]; by closed_ops. }
  rewrite Heq. unfold checked, st_bind, get_ctx, st_gets. rewrite Hx.
  destruct (first_fault e a (os / 8) MM_PROT_READ) as [[ad v] |] eqn:Hff.
  - destruct Hs as (e' & Hf & ->). exists e'. split; [done |]. by rewrite (first_fault_pending _ _ _ _ _ _ _ Hff Hf).
  - destruct Hs as (e' & Hs & ->). exists e'. split; [done |]. by rewrite (same_cpu_context _ _ Hs), Hx.
Qed.

(** The pointer for a locked access, or a pending page fault. *)
Lemma write_ptr_spec fuel e a n value :
  cpu_ready e -> in_word 64 a -> a <> 0 -> 0 < n <= 4096 ->
  let '(r, e') := get_memory_write_ptr (S fuel) a n value e in
  (r = Some (host_address (en_mem e) a) /\ host_address (en_mem e) a <> NULL /\ same_cpu e e' /\
   in_line e a MM_PROT_WRITE (host_address (en_mem e) a) n) \/
  (r = Some NULL /\ (exists v ad, v <> V_OK /\ faults e v ad MM_PROT_WRITE e') /\
   ~ (first_fault e a n MM_PROT_WRITE = None /\ one_line e a n)).
Proof.
  intros Hr Ha Hnz Hn. pose proof Hr as (Hm & Hq & Hx).
  unfold get_memory_write_ptr, cpu_get_contiguous_ptr. cbn [cpu_get_contiguous_ptr_impl].
  unfold st_bind, get_ctx, st_gets. rewrite Hx. destruct (Z.eqb_spec n 0); [lia |]. cbn [orb].
  pose proof (contiguous_scan_spec e a n MM_PROT_WRITE value Hr Ha Hn) as Hsc.
  destruct (contiguous_scan a n MM_PROT_WRITE value e) as [[p | | c] e1]; cbn [scan_post] in Hsc.
  - destruct Hsc as (Hs & Hl & Hw). left. rewrite <- (in_line_start e a MM_PROT_WRITE p n) by (done || lia).
    split_and!; [done | | done | done]. rewrite (in_line_start e a MM_PROT_WRITE p n) by (done || lia).
    intros Hz. by apply Hnz, (host_word (en_mem e) a).
  - destruct Hsc as (ad & v & Hff & Hf). right. split_and!; [done | | intros [Hno _]; congruence].
    exists v, ad. split; [by eapply first_fault_not_ok | done].
  - destruct Hsc as [Hs Hno]. unfold cpu_try_handle_invalid_memory_access, cpu_notify_invalid_memory_hook, st_bind, st_gets.
    rewrite (quiet_same _ _ Hs Hq). cbn [negb st_ret]. right. split_and!; [done | | by intros [_ ?]].
    exists V_PROT, c. split; [done |]. exists e1. split; [done |]. unfold mod_ctx, st_modify. cbn [snd].
    by rewrite (same_cpu_context _ _ Hs), (raise_page_fault_eq V_PROT) by by right.
Qed.

Lemma wrap_ones os z : 0 <= os -> Z.land z (Z.ones os) = wrap os z.
Proof. intros. by rewrite Z.land_ones. Qed.

Lemma guest_value_wrap e a os acc :
  manager_wf (en_mem e) -> operand_size_ok os -> first_fault e a (os / 8) acc = None ->
  wrap os (guest_value e a (os / 8)) = guest_value e a (os / 8).
Proof.
  intros Hm Hos Hf. apply wrap_small. unfold first_fault in Hf.
  assert (Hb := le_combine_bound _ (guest_bytes_ok e a acc _ Hm Hf)). rewrite length_map, offsets_length in Hb.
  unfold guest_value. destruct Hos as [-> | [-> | [-> | ->]]]; exact Hb.
Qed.

(** One compare-and-exchange: done on the bytes of the access, or refused with its fault pending. *)
Lemma cas_spec fuel e a os expected desired :
  cpu_ready e -> in_word 64 a -> a <> 0 -> operand_size_ok os ->
  let '(r, e') := cpu_atomic_compare_exchange_memory (S fuel) a os expected desired e in
  let n := os / 8 in
  (first_fault e a n MM_PROT_WRITE = None /\ one_line e a n /\
   r = Some (guest_value e a n =? wrap os expected, Some (guest_value e a n)) /\
   (if guest_value e a n =? wrap os expected then stored e (hosts_of e a n) desired e' else same_cpu e e')) \/
  (~ (first_fault e a n MM_PROT_WRITE = None /\ one_line e a n) /\
   r = Some (false, None) /\ exists v ad, v <> V_OK /\ faults e v ad MM_PROT_WRITE e').
Proof.
  intros Hr Ha Hnz Hos. pose proof Hr as (Hm & Hq & Hx). cbn zeta.
  assert (Hn : 0 < os / 8 <= 8 /\ 8 * (os / 8) = os) by (destruct Hos as [-> | [-> | [-> | ->]]]; closed_ops; lia).
  destruct Hn as [Hn Hn8]. unfold cpu_atomic_compare_exchange_memory, st_bind at 1.
  pose proof (write_ptr_spec fuel e a (os / 8) 0 Hr Ha Hnz ltac:(lia)) as Hp.
  destruct (get_memory_write_ptr (S fuel) a (os / 8) 0 e) as [r e1].
  destruct Hp as [(-> & Hnn & Hs & Hl) | (-> & Hf & Hno)].
  2: { change (NULL =? NULL) with true. cbn iota. right. by split_and!. }
  destruct (Z.eqb_spec (host_address (en_mem e) a) NULL); [done |].
  destruct Hl as [Hff Hline]. unfold first_fault. rewrite offsets_0.
  assert (Hif : ((os =? 8) || (os =? 16) || (os =? 32) || (os =? 64)) = true) by (destruct Hos as [-> | [-> | [-> | ->]]]; reflexivity).
  rewrite Hif. unfold interlocked_compare_exchange, st_bind, st_gets, st_ret.
  pose proof (host_word _ _ Hm Ha) as [Hw _].
  assert (Hload : load_le (Z.to_nat (os / 8)) (host_address (en_mem e) a) (ms_heap (en_mem e1)) = guest_value e a (os / 8)).
  { rewrite (same_cpu_heap _ _ Hs). apply (load_in_line e a MM_PROT_WRITE); [done.. | lia | by split]. }
  rewrite Hload. rewrite Z2Nat.id, Hn8 by lia.
  assert (Hgw : wrap os (guest_value e a (os / 8)) = guest_value e a (os / 8)).
  { apply (guest_value_wrap e a os MM_PROT_WRITE); [done.. |]. unfold first_fault. by rewrite offsets_0. }
  assert (Hhosts : map (ptr_add (host_address (en_mem e) a)) (offsets_from 0 (os / 8)) = hosts_of e a (os / 8)).
  { unfold hosts_of. apply map_ext_in. intros i Hi. rewrite offsets_0 in Hi. apply list_elem_of_In, elem_of_seqZ in Hi. symmetry. apply Hline. lia. }
  rewrite Hhosts. destruct (Z.eqb_spec (guest_value e a (os / 8)) (wrap os expected)) as [Heq | Hne].
  - assert (Hm1 : manager_wf (en_mem e1)) by (destruct Hs as (m & -> & _ & ?); done).
    pose proof (store_le_spec (hosts_of e a (os / 8)) desired e1 Hm1) as Hst. unfold final in Hst.
    destruct (store_le (hosts_of e a (os / 8)) desired e1) as [u e2]. cbn [snd] in Hst.
    rewrite !operand_mask_eq by done. rewrite !wrap_ones, Hgw, <- Heq, Z.eqb_refl by lia. left. split_and!; [done.. |]. by eapply same_cpu_stored.
  - rewrite !operand_mask_eq by done. rewrite !wrap_ones, Hgw by lia.
    left. destruct (Z.eqb_spec (guest_value e a (os / 8)) (wrap os expected)); [done |]. by split_and!.
Qed.

Lemma same_cpu_guest_value e e' a n : same_cpu e e' -> guest_value e' a n = guest_value e a n.
Proof.
  intros Hs. unfold guest_value. f_equal. apply map_ext. intros o. unfold guest_byte. by rewrite (same_cpu_view _ _ _ Hs).
Qed.

Lemma same_cpu_one_line e e' a n : same_cpu e e' -> one_line e' a n <-> one_line e a n.
Proof.
  intros Hs. unfold one_line. split; intros Hl i Hi; specialize (Hl i Hi); by rewrite !(same_cpu_host _ _ _ Hs) in *.
Qed.

Lemma same_cpu_hosts e e' a n : same_cpu e e' -> hosts_of e' a n = hosts_of e a n.
Proof. intros Hs. unfold hosts_of. apply map_ext. intros o. by apply same_cpu_host. Qed.

(** A locked operation on readable memory: the operation, or a pending fault and nothing stored. *)
Lemma rmw_spec fuel e a os callback :
  cpu_ready e -> in_word 64 a -> a <> 0 -> operand_size_ok os -> first_fault e a (os / 8) MM_PROT_READ = None ->
  let '(r, e') := cpu_atomic_rmw_memory (S fuel) a os callback e in
  let n := os / 8 in
  let old := guest_value e a n in
  (first_fault e a n MM_PROT_WRITE = None /\ one_line e a n /\
   r = Some (true, old, wrap os (callback old)) /\ stored e (hosts_of e a n) (wrap os (callback old)) e') \/
  (~ (first_fault e a n MM_PROT_WRITE = None /\ one_line e a n) /\
   r = Some (false, 0, 0) /\ exists v ad, v <> V_OK /\ faults e v ad MM_PROT_WRITE e').
Proof.
  intros Hr Ha Hnz Hos Hrd. pose proof Hr as (Hm & Hq & Hx). cbn zeta.
  assert (Hos0 : 0 <= os) by (destruct Hos as [-> | [-> | [-> | ->]]]; lia).
  unfold cpu_atomic_rmw_memory, st_bind. rewrite operand_mask_eq by done.
  pose proof (read_operand_checked_spec e a os Hr Ha Hos) as Hread. rewrite Hrd in Hread.
  destruct Hread as (e1 & Hs & ->). cbn [rr_ok rr_value negb rmw_loop]. rewrite !wrap_ones by done.
  assert (Hgw := guest_value_wrap e a os MM_PROT_READ Hm Hos Hrd).
  rewrite Hgw. unfold st_bind. set (old := guest_value e a (os / 8)) in *. set (new := wrap os (callback old)).
  pose proof (cas_spec fuel e1 a os old new (same_cpu_ready _ _ Hs Hr) Ha Hnz Hos) as Hcas.
  destruct (cpu_atomic_compare_exchange_memory (S fuel) a os old new e1) as [r e2]. cbn zeta in Hcas.
  rewrite (same_cpu_guest_value _ _ _ _ Hs), (same_cpu_hosts _ _ _ _ Hs), (same_cpu_one_line _ _ _ _ Hs) in Hcas.
  unfold first_fault in Hcas. rewrite (first_fault_same _ _ _ _ _ Hs) in Hcas. fold (first_fault e a (os / 8) MM_PROT_WRITE) in Hcas.
  fold old in Hcas. rewrite Hgw, Z.eqb_refl in Hcas.
  destruct Hcas as [(Hff & Hl & -> & Hst) | (Hno & -> & v & ad & Hv & Hf)].
  - left. split_and!; [done.. |]. by eapply same_cpu_stored.
  - unfold get_ctx, st_gets. rewrite (faults_pending _ _ _ _ _ Hv Hf). right. split_and!; [done.. |].
    exists v, ad. split; [done |]. by eapply faults_trans.
Qed.

Lemma rmw_read_fault fuel e a os callback ad v :
  cpu_ready e -> in_word 64 a -> operand_size_ok os -> first_fault e a (os / 8) MM_PROT_READ = Some (ad, v) ->
  let '(r, e') := cpu_atomic_rmw_memory (S fuel) a os callback e in r = Some (false, 0, 0) /\ faults e v ad MM_PROT_READ e'.
Proof.
  intros Hr Ha Hos Hrd. unfold cpu_atomic_rmw_memory, st_bind. rewrite operand_mask_eq by done.
  pose proof (read_operand_checked_spec e a os Hr Ha Hos) as Hread. rewrite Hrd in Hread.
  by destruct Hread as (e1 & Hf & ->).
Qed.

(** One round of the loop, from whatever value the last look at the memory gave: the exchange when
    that value is still there, and otherwise a new round from the value that is. *)
Lemma rmw_round fuel e a os callback current :
  cpu_ready e -> in_word 64 a -> a <> 0 -> operand_size_ok os -> in_word os current ->
  first_fault e a (os / 8) MM_PROT_WRITE = None -> one_line e a (os / 8) ->
  exists e', rmw_loop (S fuel) a os (Z.ones os) callback current e =
      (if guest_value e a (os / 8) =? current then (Some (true, current, wrap os (callback current)), e')
       else rmw_loop fuel a os (Z.ones os) callback (guest_value e a (os / 8)) e') /\
    if guest_value e a (os / 8) =? current then stored e (hosts_of e a (os / 8)) (wrap os (callback current)) e'
    else same_cpu e e'.
Proof.
  intros Hr Ha Hnz Hos Hc Hff Hl. pose proof Hr as (Hm & Hq & Hx).
  assert (Hos0 : 0 <= os) by (destruct Hos as [-> | [-> | [-> | ->]]]; lia).
  cbn [rmw_loop]. rewrite wrap_ones by done. unfold st_bind.
  pose proof (cas_spec fuel e a os current (wrap os (callback current)) Hr Ha Hnz Hos) as Hcas.
  destruct (cpu_atomic_compare_exchange_memory (S fuel) a os current _ e) as [r e1]. cbn zeta in Hcas.
  destruct Hcas as [(_ & _ & -> & Hst) | (Hno & _)]; [| by destruct Hno].
  rewrite (wrap_small os current) in * by exact Hc. exists e1.
  destruct (guest_value e a (os / 8) =? current); [done |]. split; [| exact Hst].
  unfold get_ctx, st_gets. rewrite (same_cpu_context _ _ Hst), Hx. cbn [default from_option id].
  rewrite wrap_ones by done. by rewrite (guest_value_wrap e a os MM_PROT_WRITE).
Qed.

(** Two rounds are enough when nobody interferes any more: the first may find another processor's
    value, the second applies the operation to it. *)
Lemma rmw_settles fuel e a os callback current :
  cpu_ready e -> in_word 64 a -> a <> 0 -> operand_size_ok os -> in_word os current ->
  first_fault e a (os / 8) MM_PROT_WRITE = None -> one_line e a (os / 8) ->
  let old := guest_value e a (os / 8) in
  exists e', rmw_loop (S (S fuel)) a os (Z.ones os) callback current e = (Some (true, old, wrap os (callback old)), e') /\
    stored e (hosts_of e a (os / 8)) (wrap os (callback old)) e'.
Proof.
  intros Hr Ha Hnz Hos Hc Hff Hl old. pose proof Hr as (Hm & _).
  destruct (rmw_round (S fuel) e a os callback current Hr Ha Hnz Hos Hc Hff Hl) as (e1 & Hrun & Hst). fold old in Hrun, Hst.
  destruct (Z.eqb_spec old current) as [<- | _]; [by exists e1 |].
  assert (Hf1 : first_fault e1 a (os / 8) MM_PROT_WRITE = None).
  { unfold first_fault. by rewrite (first_fault_same _ _ _ _ _ Hst). }
  assert (Hold : in_word os old).
  { unfold old. rewrite <- (guest_value_wrap e a os MM_PROT_WRITE Hm Hos Hff). apply (wrap_range os). destruct Hos as [-> | [-> | [-> | ->]]]; lia. }
  destruct (rmw_round fuel e1 a os callback old (same_cpu_ready _ _ Hst Hr) Ha Hnz Hos Hold Hf1) as (e2 & Hrun2 & Hst2).
  { by apply (same_cpu_one_line _ _ _ _ Hst). }
  rewrite (same_cpu_guest_value _ _ _ _ Hst), (same_cpu_hosts _ _ _ _ Hst) in *. fold old in Hrun2, Hst2.
  rewrite Z.eqb_refl in *. exists e2. split; [congruence | by eapply same_cpu_stored].
Qed.

End locked.

(** ** The properties *)

Section properties.
Context `{Callbacks}.

(** A CPU read returns what the guest sees, or faults exactly.  Without memory hooks, a read of
    1, 2, 4 or 8 bytes - through one host pointer or byte by byte, across pages, regions, patches
    and the 64-bit wrap-around - returns the little-endian value of the bytes of the guest's map and
    changes nothing but the page cache when every byte is canonical, mapped, readable and, in user
    mode, user memory; otherwise it returns 0 with the fault of the first byte that is not: #GP, or
    #PF with CR2 and the error code's present, write, user and fetch bits. *)
Theorem cpu_read_correct e a os (Hr : cpu_ready e) (Ha : in_word 64 a) (Hos : operand_size_ok os) :
  let '(value, e') := read_memory_operand a os e in
  match first_fault e a (os / 8) MM_PROT_READ with
  | None => value = guest_value e a (os / 8) /\ same_cpu e e'
  | Some (ad, v) => value = 0 /\ v <> V_OK /\ v = cpu_access e ad MM_PROT_READ /\ faults e v ad MM_PROT_READ e'
  end.
Proof.
  pose proof (read_operand_spec e a os Hr Ha Hos) as Hs.
  destruct (first_fault e a (os / 8) MM_PROT_READ) as [[ad v] |] eqn:Hff; destruct Hs as (e' & Hs & ->); [| done].
  split_and!; [done | by eapply first_fault_not_ok | | done]. unfold first_fault in Hff.
  induction (offsets_from 0 (os / 8)) as [| o l IH]; [done |]. cbn [first_fault_in] in Hff.
  destruct (cpu_access e (at_off a o) MM_PROT_READ) eqn:E; [by apply IH | congruence ..].
Qed.

(** C5: a CPU write changes all of its bytes or none.  Without memory hooks, when every byte of
    the access is writable the write stores the value's bytes at the host bytes behind them, and
    what any guest address shows changes exactly as those stores say (aliases included); otherwise
    it raises the fault of the first byte that is not writable and no byte of memory changes. *)
Theorem cpu_write_all_or_nothing e a os value (Hr : cpu_ready e) (Ha : in_word 64 a) (Hos : operand_size_ok os) :
  let e' := final (write_memory_operand a os value) e in
  match first_fault e a (os / 8) MM_PROT_WRITE with
  | None =>
      en_context e' = en_context e /\ manager_wf (en_mem e') /\
      forall c, access_view (en_mem e') c =
        match access_view (en_mem e) c with
        | Some (b, p, t) => Some (overwrite (hosts_of e a (os / 8)) value (host_address (en_mem e) c) b, p, t)
        | None => None
        end
  | Some (ad, v) =>
      faults e v ad MM_PROT_WRITE e' /\ ms_heap (en_mem e') = ms_heap (en_mem e) /\
      forall c, access_view (en_mem e') c = access_view (en_mem e) c
  end.
Proof.
  cbn zeta. pose proof (write_operand_spec e a os value Hr Ha Hos) as Hs.
  destruct (first_fault e a (os / 8) MM_PROT_WRITE) as [[ad v] |].
  - split; [done |]. destruct Hs as (e1 & Hs & ->). split; [exact (same_cpu_heap _ _ Hs) |]. intros c. exact (same_cpu_view _ _ c Hs).
  - destruct Hs as (m & -> & Hm & _ & _ & Hv). by split_and!.
Qed.

(** What was written is read back.  After a write that does not fault, to bytes that do not
    share host bytes, a readable access of the same size at the same address returns the value
    truncated to the operand size. *)
Theorem cpu_write_then_read e a os value (Hr : cpu_ready e) (Ha : in_word 64 a) (Hos : operand_size_ok os)
  (Hw : first_fault e a (os / 8) MM_PROT_WRITE = None) (Hrd : first_fault e a (os / 8) MM_PROT_READ = None)
  (Hnd : NoDup (hosts_of e a (os / 8))) :
  result (read_memory_operand a os) (final (write_memory_operand a os value) e) = wrap os value.
Proof.
  pose proof (write_operand_spec e a os value Hr Ha Hos) as Hs. rewrite Hw in Hs.
  set (e' := final _ e) in *.
  pose proof (read_operand_spec e' a os (stored_ready _ _ _ _ Hs Hr) Ha Hos) as Hs'.
  rewrite (stored_first_fault _ _ _ _ _ _ _ Hs), Hrd in Hs'. destruct Hs' as (e2 & _ & Hrun). unfold result. rewrite Hrun. cbn [fst].
  assert (Hn : 0 <= os / 8 /\ 8 * (os / 8) = os) by (destruct Hos as [-> | [-> | [-> | ->]]]; closed_ops; lia).
  rewrite (stored_value _ _ _ _ _ _ Hs Hw Hnd) by apply Hn. f_equal. apply Hn.
Qed.

(** C6: a locked operation is its operation.  On readable memory, LOCK ADD, SUB, AND, OR, XOR and
    XCHG end, when the access is writable and one line of host memory, with the old value returned
    and the result stored truncated to the operand size; otherwise a fault is pending and nothing is
    stored.  Unreadable memory raises the read fault.  Where nobody interferes the first round ends
    it.  The retries are specified too: whatever value [current] the loop goes on from - one another
    processor has overwritten since the read, say - a round stores the operation's result only if
    that value is still in memory, and otherwise stores nothing and goes on from the value found
    there; so the operation is always applied to the value the memory holds when it is stored, and
    two rounds without interference end it.  The address is not 0: there the host pointer under
    passthrough is NULL, which the code takes for a failed lookup. *)
Theorem locked_operations_correct fuel e a os operand callback operation
  (Hr : cpu_ready e) (Ha : in_word 64 a) (Hnz : a <> 0) (Hos : operand_size_ok os)
  (Hop : (callback, operation) ∈
    [(cpu_atomic_add_callback operand, fun x => x + operand); (cpu_atomic_sub_callback operand, fun x => x - operand);
     (cpu_atomic_and_callback operand, fun x => Z.land x operand); (cpu_atomic_or_callback operand, fun x => Z.lor x operand);
     (cpu_atomic_xor_callback operand, fun x => Z.lxor x operand); (cpu_atomic_exchange_callback operand, fun _ => operand)]) :
  let old := guest_value e a (os / 8) in
  (let '(r, e') := cpu_atomic_rmw_memory (S fuel) a os callback e in
   match first_fault e a (os / 8) MM_PROT_READ with
   | None =>
       (first_fault e a (os / 8) MM_PROT_WRITE = None /\ one_line e a (os / 8) /\
        r = Some (true, old, wrap os (operation old)) /\ stored e (hosts_of e a (os / 8)) (operation old) e') \/
       (~ (first_fault e a (os / 8) MM_PROT_WRITE = None /\ one_line e a (os / 8)) /\
        r = Some (false, 0, 0) /\ exists v ad, v <> V_OK /\ faults e v ad MM_PROT_WRITE e')
   | Some (ad, v) => r = Some (false, 0, 0) /\ faults e v ad MM_PROT_READ e'
   end) /\
  (forall current, in_word os current -> first_fault e a (os / 8) MM_PROT_WRITE = None -> one_line e a (os / 8) ->
    (exists e', rmw_loop (S fuel) a os (Z.ones os) callback current e =
        (if old =? current then (Some (true, old, wrap os (operation old)), e')
         else rmw_loop fuel a os (Z.ones os) callback old e') /\
      if old =? current then stored e (hosts_of e a (os / 8)) (operation old) e' else same_cpu e e') /\
    exists e', rmw_loop (S (S fuel)) a os (Z.ones os) callback current e = (Some (true, old, wrap os (operation old)), e') /\
      stored e (hosts_of e a (os / 8)) (operation old) e').
Proof.
  intros old.
  assert (Hn : 8 * Z.of_nat (length (hosts_of e a (os / 8))) <= os /\ 0 <= os <= 64).
  { rewrite hosts_length. destruct Hos as [-> | [-> | [-> | ->]]]; closed_ops; lia. }
  assert (Hcb : forall x, wrap os (callback x) = wrap os (operation x)).
  { intros x. rewrite !elem_of_cons, elem_of_nil in Hop.
    destruct Hop as [[= -> ->] | [[= -> ->] | [[= -> ->] | [[= -> ->] | [[= -> ->] | [[= -> ->] | []]]]]]]; try done;
      apply wrap_wrap_le; lia. }
  assert (Hsw : forall v e', stored e (hosts_of e a (os / 8)) (wrap os v) e' -> stored e (hosts_of e a (os / 8)) v e')
    by (intros v e' Hst; eapply stored_wrap; [apply Hn | exact Hst]).
  split.
  - destruct (first_fault e a (os / 8) MM_PROT_READ) as [[ad v] |] eqn:Hrd.
    { pose proof (rmw_read_fault fuel e a os callback ad v Hr Ha Hos Hrd) as Hf.
      by destruct (cpu_atomic_rmw_memory (S fuel) a os callback e). }
    pose proof (rmw_spec fuel e a os callback Hr Ha Hnz Hos Hrd) as Hs.
    destruct (cpu_atomic_rmw_memory (S fuel) a os callback e) as [r e']. cbn zeta in Hs |- *.
    destruct Hs as [(Hw & Hl & -> & Hst) | Hs]; [left | right; exact Hs].
    fold old in Hst |- *. rewrite Hcb in *. split_and!; [done.. |]. by apply Hsw.
  - intros current Hc Hff Hl. rewrite <- Hcb. split.
    + destruct (rmw_round fuel e a os callback current Hr Ha Hnz Hos Hc Hff Hl) as (e' & Hrun & Hst). exists e'. fold old in Hrun, Hst.
      destruct (Z.eqb_spec old current) as [<- | _]; [| done]. split; [done |]. rewrite Hcb in Hst. by apply Hsw.
    + destruct (rmw_settles fuel e a os callback current Hr Ha Hnz Hos Hc Hff Hl) as (e' & Hrun & Hst). exists e'. fold old in Hrun, Hst.
      split; [done |]. rewrite Hcb in Hst. by apply Hsw.
Qed.

(** CPU stores never change the code version.  Whatever an instruction stores - code included -
    the version the instruction cache is checked against stays as it was, so a cached instruction
    whose bytes were overwritten still hits and the old instruction is executed. *)
Theorem cpu_writes_keep_cached_code e a os value rip mode (Hr : cpu_ready e) (Ha : in_word 64 a) (Hos : operand_size_ok os) :
  let e' := final (write_memory_operand a os value) e in
  mm_code_version (ms_mgr (en_mem e')) = mm_code_version (ms_mgr (en_mem e)) /\
  cpu_inst_cache_lookup (en_inst_cache e') (ms_mgr (en_mem e')) rip mode
  = cpu_inst_cache_lookup (en_inst_cache e) (ms_mgr (en_mem e)) rip mode.
Proof.
  cbn zeta. pose proof (write_operand_spec e a os value Hr Ha Hos) as Hs.
  assert (Hkey : en_inst_cache (final (write_memory_operand a os value) e) = en_inst_cache e /\
            exists cache, ms_mgr (en_mem (final (write_memory_operand a os value) e)) = set_mm_page_cache cache (ms_mgr (en_mem e))).
  { destruct (first_fault e a (os / 8) MM_PROT_WRITE) as [[ad v] |].
    - destruct Hs as (e1 & (m & -> & [_ (c & Hc)] & _) & ->). split; [done |]. by exists c.
    - destruct Hs as (m & -> & _ & (c & Hc) & _). split; [done |]. by exists c. }
  destruct Hkey as (-> & c & ->). done.
Qed.

End properties.

(** ** What no access touches *)

(** What a snapshot does not cover: the CPU's identity and its pointers. *)
Definition same_cpu_identity (ctx ctx' : CPU_CONTEXT) : Prop :=
  c_processor_id ctx' = c_processor_id ctx /\ c_owner_engine ctx' = c_owner_engine ctx /\ c_inst_cache ctx' = c_inst_cache ctx.

Definition same_vectors (ctx ctx' : CPU_CONTEXT) : Prop := cpu_capture_vector_snapshot ctx' = cpu_capture_vector_snapshot ctx.

(** At most registers, RIP, flags and the exception differ. *)
Definition keeps_context (e e' : cpueaxh_engine) : Prop :=
  same_cpu_identity (en_context e) (en_context e') /\ same_vectors (en_context e) (en_context e') /\
  en_inst_cache e' = en_inst_cache e.

Lemma keeps_context_refl e : keeps_context e e.
Proof. repeat split. Qed.

Lemma keeps_context_trans e1 e2 e3 : keeps_context e1 e2 -> keeps_context e2 e3 -> keeps_context e1 e3.
Proof. intros ((? & ? & ?) & ? & ?) ((? & ? & ?) & ? & ?). unfold same_vectors in *. repeat split; congruence. Qed.

Lemma same_cpu_keeps e e' : same_cpu e e' -> keeps_context e e'.
Proof. intros (m & -> & _). repeat split. Qed.

Lemma set_context_keeps e c :
  same_cpu_identity (en_context e) c -> same_vectors (en_context e) c -> keeps_context e (set_en_context c e).
Proof. intros ? ?. repeat split; apply H || apply H0. Qed.

Lemma raise_keeps_identity code ec ctx : same_cpu_identity ctx (cpu_raise_exception code ec ctx).
Proof. unfold cpu_raise_exception. by destruct (cpu_has_exception ctx). Qed.

Lemma raise_keeps_vectors code ec ctx : same_vectors ctx (cpu_raise_exception code ec ctx).
Proof. unfold cpu_raise_exception. by destruct (cpu_has_exception ctx). Qed.

Lemma faults_keeps e v ad acc e' : faults e v ad acc e' -> keeps_context e e'.
Proof.
  intros (e1 & Hs & ->). pose proof (same_cpu_keeps _ _ Hs) as Hk. apply (keeps_context_trans _ e1); [done |].
  apply set_context_keeps; rewrite (same_cpu_context _ _ Hs); destruct v; try done.
  - apply raise_keeps_identity.
  - exact (raise_keeps_identity _ _ (set_c_control_regs _ _)).
  - exact (raise_keeps_identity _ _ (set_c_control_regs _ _)).
  - apply raise_keeps_vectors.
  - exact (raise_keeps_vectors _ _ (set_c_control_regs _ _)).
  - exact (raise_keeps_vectors _ _ (set_c_control_regs _ _)).
Qed.

Lemma mod_ctx_keeps f e :
  same_cpu_identity (en_context e) (f (en_context e)) -> same_vectors (en_context e) (f (en_context e)) ->
  keeps_context e (final (mod_ctx f) e).
Proof. intros. unfold final, mod_ctx, st_modify. cbn [snd]. by apply set_context_keeps. Qed.

Module MemoryExample.
Import Bump EngineExample.

(** Three mapped pages at 0x1000, supervisor mode, 64-bit code. *)
Definition machine : cpueaxh_engine := set_en_mem Example3.mapped3 engine.

Lemma engine_quiet e : en_hook_type_counts e = repeat 0 12 -> quiet e.
Proof.
  intros He type. unfold cpu_has_hook_type, count_at, arr_get. rewrite He.
  destruct (_ || _); [done |].
  destruct (nth_in_or_default (Z.to_nat type) (repeat 0 12) 0) as [Hin | Hd]; [apply repeat_spec in Hin; by rewrite Hin | by rewrite Hd].
Qed.

Lemma machine_ready : cpu_ready machine.
Proof. split_and!; [exact CacheExample.mapped3_manager_wf | by apply engine_quiet | reflexivity]. Qed.

Lemma cache_ready e c : cpu_ready e -> cpu_ready (set_en_inst_cache c e).
Proof. intros (Hm & Hq & Hx). split_and!; [exact Hm | exact Hq | exact Hx]. Qed.

Lemma size_32 : operand_size_ok 32.
Proof. right. right. by left. Qed.

Lemma cpu_read_correct_witness :
  fst (read_memory_operand 0x1FFE 32 machine) = 0 /\
  (let '(value, e') := read_memory_operand 0x3FFE 32 machine in
   c_exception (en_context e') = mkExc CPU_EXCEPTION_PF 0 /\ arr_get 0 (c_control_regs (en_context e')) REG_CR2 = 0x4000) /\
  let '(value, e') := read_memory_operand 0x1FFE 32 machine in value = guest_value machine 0x1FFE 4 /\ same_cpu machine e'.
Proof.
  split; [vm_compute; reflexivity |]. split; [vm_compute; split; reflexivity |].
  assert (Ha : in_word 64 0x1FFE) by zcompute.
  assert (H := cpu_read_correct machine 0x1FFE 32 machine_ready Ha size_32).
  assert (first_fault machine 0x1FFE (32 / 8) MM_PROT_READ = None) as E by (vm_compute; reflexivity).
  rewrite E in H. exact H.
Defined.

Lemma cpu_write_all_or_nothing_witness :
  map (fun c => option_map (fun '(b, _, _) => b) (access_view (en_mem (final (write_memory_operand 0x1FFE 32 0x11223344) machine)) c))
    [0x1FFD; 0x1FFE; 0x1FFF; 0x2000; 0x2001; 0x2002] = [Some 0; Some 0x44; Some 0x33; Some 0x22; Some 0x11; Some 0] /\
  ms_heap (en_mem (final (write_memory_operand 0x3FFE 32 0x11223344) machine)) = ms_heap (en_mem machine).
Proof.
  split; [vm_compute; reflexivity |].
  assert (Ha : in_word 64 0x3FFE) by zcompute.
  assert (H := cpu_write_all_or_nothing machine 0x3FFE 32 0x11223344 machine_ready Ha size_32). cbn zeta in H.
  assert (first_fault machine 0x3FFE (32 / 8) MM_PROT_WRITE = Some (0x4000, V_UNMAPPED)) as E by (vm_compute; reflexivity).
  rewrite E in H. destruct H as (_ & H & _). exact H.
Defined.

Lemma cpu_write_then_read_witness :
  result (read_memory_operand 0x1FFE 32) (final (write_memory_operand 0x1FFE 32 0x1122334455) machine) = 0x22334455.
Proof.
  assert (Ha : in_word 64 0x1FFE) by zcompute.
  assert (first_fault machine 0x1FFE (32 / 8) MM_PROT_WRITE = None) as E1 by (vm_compute; reflexivity).
  assert (first_fault machine 0x1FFE (32 / 8) MM_PROT_READ = None) as E2 by (vm_compute; reflexivity).
  assert (NoDup (hosts_of machine 0x1FFE (32 / 8))) as E3 by (apply (bool_decide_unpack _); vm_compute; exact I).
  assert (H := cpu_write_then_read machine 0x1FFE 32 0x1122334455 machine_ready Ha size_32 E1 E2 E3). assert (wrap 32 0x1122334455 = 0x22334455) as <- by (vm_compute; reflexivity). exact H.
Defined.

Lemma locked_operations_correct_witness :
  fst (cpu_atomic_add_memory 1 0x2000 32 0x1FFFFFFFF machine) = Some (true, 0, 0xFFFFFFFF) /\
  (let '(r, e') := cpu_atomic_rmw_memory 1 0x5000 32 (cpu_atomic_add_callback 5) machine in r = Some (false, 0, 0)) /\
  exists e', rmw_loop 2 0x2000 32 (Z.ones 32) (cpu_atomic_add_callback 5) 0x77 machine = (Some (true, 0, 5), e') /\
    stored machine (hosts_of machine 0x2000 4) 5 e'.
Proof.
  split; [vm_compute; reflexivity |]. split.
  - assert (Ha : in_word 64 0x5000) by zcompute. assert (0x5000 <> 0) as Hnz by discriminate.
    assert (H := locked_operations_correct 0 machine 0x5000 32 5 (cpu_atomic_add_callback 5) (fun x => x + 5)
      machine_ready Ha Hnz size_32 (list_elem_of_here _ _)). cbv zeta in H. destruct H as [H _].
    destruct (cpu_atomic_rmw_memory 1 0x5000 32 (cpu_atomic_add_callback 5) machine) as [r e'].
    assert (first_fault machine 0x5000 (32 / 8) MM_PROT_READ = Some (0x5000, V_UNMAPPED)) as E by (vm_compute; reflexivity).
    rewrite E in H. destruct H as [H _]. exact H.
  - assert (Ha : in_word 64 0x2000) by zcompute. assert (0x2000 <> 0) as Hnz by discriminate.
    assert (H := locked_operations_correct 0 machine 0x2000 32 5 (cpu_atomic_add_callback 5) (fun x => x + 5)
      machine_ready Ha Hnz size_32 (list_elem_of_here _ _)). cbv zeta in H. destruct H as [_ H].
    assert (Hc : in_word 32 0x77) by zcompute. specialize (H 0x77 Hc).
    change (32 / 8) with 4 in H.
    assert (guest_value machine 0x2000 4 = 0) as E by (vm_compute; reflexivity). rewrite E in H.
    assert (E2 : first_fault machine 0x2000 4 MM_PROT_WRITE = None) by (vm_compute; reflexivity). specialize (H E2).
    assert (E3 : one_line machine 0x2000 4).
    { intros i Hi. assert (i = 0 \/ i = 1 \/ i = 2 \/ i = 3) as Hc' by lia. repeat destruct Hc' as [-> | Hc']; subst; vm_compute; reflexivity. }
    specialize (H E3). destruct H as [_ H]. exact H.
Defined.

Lemma cpu_writes_keep_cached_code_witness :
  let cached := set_en_inst_cache (cpu_inst_cache_commit (ms_mgr (en_mem machine)) 0x2000 3 decoded_inst_clear ∅) machine in
  mm_code_version (ms_mgr (en_mem (final (write_memory_operand 0x2000 32 0x90909090) cached))) = mm_code_version (ms_mgr (en_mem cached)) /\
  cpu_inst_cache_lookup (en_inst_cache cached) (ms_mgr (en_mem cached)) 0x2000 3 <> None.
Proof.
  intros cached. split; [| vm_compute; discriminate].
  assert (Hr : cpu_ready cached) by (apply cache_ready, machine_ready).
  assert (Ha : in_word 64 0x2000) by zcompute.
  assert (H := cpu_writes_keep_cached_code cached 0x2000 32 0x90909090 0x2000 3 Hr Ha size_32). cbn zeta in H. destruct H as [H _]. exact H.
Defined.

End MemoryExample.
