(* ===== verification/Registers.v ===== *)
(** * cpu/helper.hpp: registers, control registers and addressing

    The accessors of the general registers at each width (with the high-byte registers of
    instructions without a REX prefix), of the vector, mask and control registers, the prefix
    state, and the effective address of a ModRM/SIB operand.  A C reference to an array element is
    the element's index.  The theorems: every write is read back, leaves the rest of the register
    as the architecture says and every other register alone; and the effective offset is base plus
    scaled index plus displacement at the address size. *)

From Stdlib Require Import ZArith Bool List Lia.
From stdpp Require Import base tactics list.
From S2P Require Import Prelude CpuDef.

(** ** Segments and prefixes *)

Definition is_null_selector (selector : Z) : bool := Z.land selector 0xFFFC =? 0.
Definition is_data_segment (type : Z) : bool := Z.land type 0x08 =? 0.
Definition is_writable_data_segment (type : Z) : bool := is_data_segment type && has_bits type 0x02.
Definition is_code_segment (type : Z) : bool := has_bits type 0x08.
Definition is_readable_code_segment (type : Z) : bool := is_code_segment type && has_bits type 0x02.
Definition is_conforming_code_segment (type : Z) : bool := is_code_segment type && has_bits type 0x04.

Definition cpu_reset_prefix_state (ctx : CPU_CONTEXT) : CPU_CONTEXT :=
  set_c_address_size_override false
    (set_c_operand_size_override false
       (set_c_rex_b false (set_c_rex_x false (set_c_rex_r false (set_c_rex_w false (set_c_rex_present false ctx)))))).

Definition cpu_try_apply_rex_prefix (prefix : Z) (ctx : CPU_CONTEXT) : bool * CPU_CONTEXT :=
  if negb (cpu_allows_rex_prefix ctx) || (prefix <? 0x40) || (0x4F <? prefix) then (false, ctx)
  else
    (true,
     set_c_rex_b (negb (Z.land prefix 1 =? 0))
       (set_c_rex_x (negb (Z.land (Z.shiftr prefix 1) 1 =? 0))
          (set_c_rex_r (negb (Z.land (Z.shiftr prefix 2) 1 =? 0))
             (set_c_rex_w (negb (Z.land (Z.shiftr prefix 3) 1 =? 0)) (set_c_rex_present true ctx))))).

Definition set_segment_register (index : Z) (seg : SegmentRegister) (ctx : CPU_CONTEXT) : CPU_CONTEXT :=
  if index =? SEG_ES then set_c_es seg ctx
  else if index =? SEG_CS then set_c_cs seg ctx
  else if index =? SEG_SS then set_c_ss seg ctx
  else if index =? SEG_DS then set_c_ds seg ctx
  else if index =? SEG_FS then set_c_fs seg ctx
  else if index =? SEG_GS then set_c_gs seg ctx
  else ctx.

(** ** Control registers *)

Definition is_valid_control_register (index : Z) : bool :=
  (index =? REG_CR0) || (index =? REG_CR2) || (index =? REG_CR3) || (index =? REG_CR4) || (index =? REG_CR8).

Definition get_control_register (index : Z) (ctx : CPU_CONTEXT) : Z * CPU_CONTEXT :=
  if negb (is_valid_control_register index) then (0, raise_ud_ctx ctx)
  else (arr_get 0 (c_control_regs ctx) index, ctx).

Definition set_control_register (index value : Z) (ctx : CPU_CONTEXT) : CPU_CONTEXT :=
  if negb (is_valid_control_register index) then raise_ud_ctx ctx
  else set_c_control_regs (arr_set (c_control_regs ctx) index value) ctx.

(** ** General registers *)

Definition reg_at (ctx : CPU_CONTEXT) (reg : Z) : Z := arr_get 0 (c_regs ctx) reg.
Definition set_reg_at (reg value : Z) (ctx : CPU_CONTEXT) : CPU_CONTEXT := set_c_regs (arr_set (c_regs ctx) reg value) ctx.

Definition get_reg8 (ctx : CPU_CONTEXT) (reg : Z) : Z :=
  if c_rex_present ctx then Z.land (reg_at ctx reg) 0xFF
  else if reg <? 4 then Z.land (reg_at ctx reg) 0xFF
  else Z.land (Z.shiftr (reg_at ctx (reg - 4)) 8) 0xFF.

Definition set_reg8 (reg value : Z) (ctx : CPU_CONTEXT) : CPU_CONTEXT :=
  if c_rex_present ctx then set_reg_at reg (Z.lor (Z.ldiff (reg_at ctx reg) 0xFF) value) ctx
  else if reg <? 4 then set_reg_at reg (Z.lor (Z.ldiff (reg_at ctx reg) 0xFF) value) ctx
  else set_reg_at (reg - 4) (Z.lor (Z.ldiff (reg_at ctx (reg - 4)) 0xFF00) (Z.shiftl value 8)) ctx.

Definition get_reg16 (ctx : CPU_CONTEXT) (reg : Z) : Z := Z.land (reg_at ctx reg) 0xFFFF.
Definition set_reg16 (reg value : Z) (ctx : CPU_CONTEXT) : CPU_CONTEXT :=
  set_reg_at reg (Z.lor (Z.ldiff (reg_at ctx reg) 0xFFFF) value) ctx.
Definition get_reg32 (ctx : CPU_CONTEXT) (reg : Z) : Z := Z.land (reg_at ctx reg) 0xFFFFFFFF.
Definition set_reg32 (reg value : Z) (ctx : CPU_CONTEXT) : CPU_CONTEXT := set_reg_at reg value ctx.
Definition get_reg64 (ctx : CPU_CONTEXT) (reg : Z) : Z := reg_at ctx reg.
Definition set_reg64 (reg value : Z) (ctx : CPU_CONTEXT) : CPU_CONTEXT := set_reg_at reg value ctx.

(** ** Vector, mask and MMX registers *)

Definition xmm_at (ctx : CPU_CONTEXT) (reg : Z) : XMMRegister := arr_get zero_xmm (c_xmm ctx) reg.
Definition ymm_upper_at (ctx : CPU_CONTEXT) (reg : Z) : XMMRegister := arr_get zero_xmm (c_ymm_upper ctx) reg.
Definition zmm_upper_at (ctx : CPU_CONTEXT) (reg : Z) : ZMMUpperRegister := arr_get zero_zmmu (c_zmm_upper ctx) reg.

Definition get_xmm128 := xmm_at.
Definition set_xmm128 (reg : Z) (value : XMMRegister) (ctx : CPU_CONTEXT) : CPU_CONTEXT :=
  set_c_xmm (arr_set (c_xmm ctx) reg value) ctx.
Definition set_xmm128_parts (reg low high : Z) (ctx : CPU_CONTEXT) : CPU_CONTEXT := set_xmm128 reg (mkXmm low high) ctx.
Definition get_ymm_upper128 := ymm_upper_at.
Definition set_ymm_upper128 (reg : Z) (value : XMMRegister) (ctx : CPU_CONTEXT) : CPU_CONTEXT :=
  set_c_ymm_upper (arr_set (c_ymm_upper ctx) reg value) ctx.
Definition set_ymm_upper128_parts (reg low high : Z) (ctx : CPU_CONTEXT) : CPU_CONTEXT := set_ymm_upper128 reg (mkXmm low high) ctx.
Definition get_zmm_upper256 := zmm_upper_at.
Definition set_zmm_upper256 (reg : Z) (value : ZMMUpperRegister) (ctx : CPU_CONTEXT) : CPU_CONTEXT :=
  set_c_zmm_upper (arr_set (c_zmm_upper ctx) reg value) ctx.
Definition clear_zmm_upper256 (reg : Z) (ctx : CPU_CONTEXT) : CPU_CONTEXT := set_zmm_upper256 reg zero_zmmu ctx.
Definition clear_all_zmm_upper256 (ctx : CPU_CONTEXT) : CPU_CONTEXT :=
  set_c_zmm_upper (map (fun _ => zero_zmmu) (c_zmm_upper ctx)) ctx.
Definition clear_ymm_upper128 (reg : Z) (ctx : CPU_CONTEXT) : CPU_CONTEXT :=
  clear_zmm_upper256 reg (set_ymm_upper128 reg zero_xmm ctx).
Definition clear_all_ymm_upper128 (ctx : CPU_CONTEXT) : CPU_CONTEXT :=
  clear_all_zmm_upper256 (set_c_ymm_upper (map (fun _ => zero_xmm) (c_ymm_upper ctx)) ctx).

Definition get_zmm512 (ctx : CPU_CONTEXT) (reg : Z) : ZMMRegister :=
  mkZmm (xmm_at ctx reg) (ymm_upper_at ctx reg) (zmmu_lower (zmm_upper_at ctx reg)) (zmmu_upper (zmm_upper_at ctx reg)).
Definition set_zmm512 (reg : Z) (value : ZMMRegister) (ctx : CPU_CONTEXT) : CPU_CONTEXT :=
  set_zmm_upper256 reg (mkZmmU (zmm_xmm2 value) (zmm_xmm3 value))
    (set_ymm_upper128 reg (zmm_xmm1 value) (set_xmm128 reg (zmm_xmm0 value) ctx)).
Definition clear_zmm_above_128 (reg : Z) (ctx : CPU_CONTEXT) : CPU_CONTEXT := clear_zmm_upper256 reg (clear_ymm_upper128 reg ctx).
Definition clear_zmm_above_256 (reg : Z) (ctx : CPU_CONTEXT) : CPU_CONTEXT := clear_zmm_upper256 reg ctx.

Definition get_opmask64 (ctx : CPU_CONTEXT) (reg : Z) : Z := arr_get 0 (c_opmask ctx) (Z.land reg 0x07).
Definition set_opmask64 (reg value : Z) (ctx : CPU_CONTEXT) : CPU_CONTEXT :=
  set_c_opmask (arr_set (c_opmask ctx) (Z.land reg 0x07) value) ctx.
Definition get_mm64 (ctx : CPU_CONTEXT) (reg : Z) : Z := arr_get 0 (c_mm ctx) (Z.land reg 0x07).
Definition set_mm64 (reg value : Z) (ctx : CPU_CONTEXT) : CPU_CONTEXT :=
  set_c_mm (arr_set (c_mm ctx) (Z.land reg 0x07) value) ctx.

(** ** Effective addresses *)

Definition cpu_memory_base_register_uses_ss (reg : Z) : bool := (reg =? REG_RSP) || (reg =? REG_RBP) || (reg =? REG_R13).

Definition modrm_mod (modrm : Z) : Z := Z.land (Z.shiftr modrm 6) 0x03.
Definition modrm_rm (modrm : Z) : Z := Z.land modrm 0x07.

(** The field with the REX bit as its fourth bit. *)
Definition rex_extend (extend : bool) (field : Z) : Z := if extend then Z.lor field 0x08 else field.

Definition cpu_default_segment_for_memory_operand (ctx : CPU_CONTEXT) (modrm : Z) (has_sib : bool) (sib addr_size : Z) : Z :=
  let mod_ := modrm_mod modrm in
  let rm := modrm_rm modrm in
  if mod_ =? 3 then SEG_DS
  else if negb (addr_size =? 16) then
    let extend := c_rex_b ctx && cpu_allows_rex_prefix ctx in
    if (Z.land rm 0x07 =? 4) && has_sib then
      let base := rex_extend extend (Z.land sib 0x07) in
      if negb ((base =? 5) && (mod_ =? 0)) && cpu_memory_base_register_uses_ss base then SEG_SS else SEG_DS
    else
      let decoded_rm := rex_extend extend rm in
      if negb ((mod_ =? 0) && (Z.land rm 0x07 =? 5)) && cpu_memory_base_register_uses_ss decoded_rm then SEG_SS else SEG_DS
  else if (rm =? 2) || (rm =? 3) || ((rm =? 6) && negb (mod_ =? 0)) then SEG_SS
  else SEG_DS.

(** [sib] and [disp] are the values behind the pointers; [disp] is an [int32_t]. *)
Definition get_effective_offset (ctx : CPU_CONTEXT) (modrm sib disp addr_size inst_size : Z) : Z :=
  let mod_ := modrm_mod modrm in
  let long_mode := cpu_allows_rex_prefix ctx in
  let rm := rex_extend (c_rex_b ctx && long_mode) (modrm_rm modrm) in
  if (addr_size =? 32) || (addr_size =? 64) then
    if mod_ =? 3 then 0
    else
      let addr :=
        if Z.land rm 0x07 =? 4 then
          let scale := Z.land (Z.shiftr sib 6) 0x03 in
          let raw_index := Z.land (Z.shiftr sib 3) 0x07 in
          let raw_base := Z.land sib 0x07 in
          let index := rex_extend (c_rex_x ctx && long_mode) raw_index in
          let base := rex_extend (c_rex_b ctx && long_mode) raw_base in
          let has_index := negb ((raw_index =? 4) && negb (long_mode && c_rex_x ctx)) in
          let no_base := (mod_ =? 0) && (raw_base =? 5) in
          let addr := if no_base then u32 disp else reg_at ctx base in
          if has_index then u64 (addr + u64 (Z.shiftl (reg_at ctx index) scale)) else addr
        else if (Z.land rm 0x07 =? 5) && (mod_ =? 0) then
          if addr_size =? 64 then u64 (c_rip ctx + u64 inst_size + disp) else u32 disp
        else reg_at ctx rm in
      let addr :=
        if mod_ =? 1 then u64 (addr + sext 8 (Z.land disp 0xFF))
        else if mod_ =? 2 then u64 (addr + disp) else addr in
      if addr_size =? 32 then Z.land addr 0xFFFFFFFF else addr
  else if mod_ =? 3 then 0
  else
    let reg := reg_at ctx in
    let addr :=
      if rm =? 0 then Z.land (u64 (reg REG_RBX + reg REG_RSI)) 0xFFFF
      else if rm =? 1 then Z.land (u64 (reg REG_RBX + reg REG_RDI)) 0xFFFF
      else if rm =? 2 then Z.land (u64 (reg REG_RBP + reg REG_RSI)) 0xFFFF
      else if rm =? 3 then Z.land (u64 (reg REG_RBP + reg REG_RDI)) 0xFFFF
      else if rm =? 4 then Z.land (reg REG_RSI) 0xFFFF
      else if rm =? 5 then Z.land (reg REG_RDI) 0xFFFF
      else if rm =? 6 then (if mod_ =? 0 then Z.land disp 0xFFFF else Z.land (reg REG_RBP) 0xFFFF)
      else if rm =? 7 then Z.land (reg REG_RBX) 0xFFFF
      else 0 in
    if mod_ =? 1 then Z.land (u64 (addr + sext 8 (Z.land disp 0xFF))) 0xFFFF
    else if mod_ =? 2 then Z.land (u64 (addr + Z.land disp 0xFFFF)) 0xFFFF
    else addr.

(** Every caller passes the instruction's SIB byte, so [has_sib] is true. *)
Definition get_effective_address (modrm sib disp addr_size inst_size : Z) (ctx : CPU_CONTEXT) : Z * CPU_CONTEXT :=
  let addr := get_effective_offset ctx modrm sib disp addr_size inst_size in
  if modrm_mod modrm =? 3 then (addr, ctx)
  else
    let default_segment := cpu_default_segment_for_memory_operand ctx modrm true sib addr_size in
    let segment_index := cpu_effective_segment_override_or_default ctx default_segment in
    let addr := u64 (addr + cpu_segment_base_for_addressing ctx segment_index) in
    (addr, snd (cpu_validate_linear_address addr segment_index ctx)).

Definition finalize_rip_relative_address (inst_size : Z) (inst : DecodedInstruction) (ctx : CPU_CONTEXT)
  : DecodedInstruction * CPU_CONTEXT :=
  if negb (i_has_modrm inst) then (inst, ctx)
  else if (modrm_mod (i_modrm inst) =? 3) || negb (i_address_size inst =? 64) then (inst, ctx)
  else
    let rm := rex_extend (c_rex_b ctx) (modrm_rm (i_modrm inst)) in
    let rip_relative :=
      if negb (Z.land rm 0x07 =? 4) || negb (i_has_sib inst)
      then (Z.land rm 0x07 =? 5) && (modrm_mod (i_modrm inst) =? 0) else false in
    if rip_relative then
      let '(address, ctx) := get_effective_address (i_modrm inst) (i_sib inst) (i_displacement inst) (i_address_size inst) inst_size ctx in
      (set_i_mem_address address inst, ctx)
    else (inst, ctx).


(** ** Laws of the general registers *)

(** Sixteen 64-bit registers. *)
Definition regs_wf (ctx : CPU_CONTEXT) : Prop :=
  length (c_regs ctx) = 16%nat /\ Forall (in_word 64) (c_regs ctx).

(** The register that holds operand [reg] of [w] bits, and the position of its lowest bit there. *)
Definition slice_register (rex : bool) (w reg : Z) : Z := if (w =? 8) && negb rex && (4 <=? reg) then reg - 4 else reg.
Definition slice_offset (rex : bool) (w reg : Z) : Z := if (w =? 8) && negb rex && (4 <=? reg) then 8 else 0.

(** The operand numbers an encoding can express: 8 byte registers without a REX prefix, else 16. *)
Definition reg_operand_ok (rex : bool) (w reg : Z) : Prop :=
  0 <= reg < (if (w =? 8) && negb rex then 8 else 16).

Definition get_reg (w : Z) (ctx : CPU_CONTEXT) (reg : Z) : Z :=
  if w =? 8 then get_reg8 ctx reg
  else if w =? 16 then get_reg16 ctx reg
  else if w =? 32 then get_reg32 ctx reg
  else get_reg64 ctx reg.

Definition set_reg (w reg value : Z) (ctx : CPU_CONTEXT) : CPU_CONTEXT :=
  if w =? 8 then set_reg8 reg value ctx
  else if w =? 16 then set_reg16 reg value ctx
  else if w =? 32 then set_reg32 reg value ctx
  else set_reg64 reg value ctx.

Definition reg_width (w : Z) : Prop := w = 8 \/ w = 16 \/ w = 32 \/ w = 64.

(** The new contents of the register: the operand's bits are the value's; a 32-bit write clears
    the upper half; every other bit stays. *)
Definition merged (w offset old value : Z) : Z :=
  if w =? 32 then value
  else Z.lor (Z.ldiff old (Z.shiftl (Z.ones w) offset)) (Z.shiftl value offset).

Lemma reg_at_in_word ctx r : regs_wf ctx -> in_word 64 (reg_at ctx r).
Proof.
  intros [_ H]. unfold reg_at, arr_get. rewrite nth_lookup.
  destruct (c_regs ctx !! Z.to_nat r) as [x |] eqn:E; simpl.
  - by eapply (proj1 (Forall_lookup _ _)) in H.
  - split; lia.
Qed.

Lemma set_reg_at_regs r v ctx : c_regs (set_reg_at r v ctx) = arr_set (c_regs ctx) r v.
Proof. done. Qed.

Lemma set_reg_at_wf r v ctx : in_word 64 v -> regs_wf ctx -> regs_wf (set_reg_at r v ctx).
Proof.
  intros Hv [Hl Hf]. unfold regs_wf. rewrite set_reg_at_regs. split.
  - by rewrite arr_set_length.
  - by apply Forall_insert.
Qed.

Lemma reg_at_set_reg_at r v r' ctx :
  regs_wf ctx -> 0 <= r < 16 -> 0 <= r' -> reg_at (set_reg_at r v ctx) r' = if r' =? r then v else reg_at ctx r'.
Proof.
  intros [Hl _] Hr Hr'. unfold reg_at. rewrite set_reg_at_regs. destruct (Z.eqb_spec r' r) as [-> | ?].
  - apply arr_get_set_eq. lia.
  - apply arr_get_set_ne; lia.
Qed.

(** Every setter writes [merged] to the operand's register and nothing else. *)
Lemma set_reg_merged w reg value ctx :
  reg_width w -> regs_wf ctx -> reg_operand_ok (c_rex_present ctx) w reg -> in_word w value ->
  set_reg w reg value ctx =
  set_reg_at (slice_register (c_rex_present ctx) w reg)
    (merged w (slice_offset (c_rex_present ctx) w reg)
       (reg_at ctx (slice_register (c_rex_present ctx) w reg)) value) ctx.
Proof.
  intros Hw Hwf Hreg Hv. unfold set_reg, slice_register, slice_offset, merged, set_reg8, set_reg16, set_reg32, set_reg64.
  destruct Hw as [-> | [-> | [-> | ->]]]; cbn [Z.eqb Pos.eqb andb].
  - destruct (c_rex_present ctx); cbn [negb andb].
    { by rewrite !Z.shiftl_0_r. }
    destruct (Z.ltb_spec reg 4), (Z.leb_spec 4 reg); try lia; by rewrite ?Z.shiftl_0_r.
  - by rewrite !Z.shiftl_0_r.
  - done.
  - rewrite !Z.shiftl_0_r. f_equal. pose proof (reg_at_in_word ctx reg Hwf) as Ho.
    bitwise. destruct (Z.ltb_spec i 64).
    + replace (0 <=? i) with true by lia. by rewrite andb_false_r.
    + by rewrite (testbit_high 64 _ i Ho), (testbit_high 64 _ i Hv).
Qed.

Lemma get_reg_slice w ctx reg :
  reg_width w -> regs_wf ctx ->
  get_reg w ctx reg =
  wrap w (Z.shiftr (reg_at ctx (slice_register (c_rex_present ctx) w reg)) (slice_offset (c_rex_present ctx) w reg)).
Proof.
  intros Hw Hwf. unfold get_reg, slice_register, slice_offset, get_reg8, get_reg16, get_reg32, get_reg64, wrap.
  assert (Hm : forall v x, 0 <= v -> Z.land x (Z.ones v) = x mod 2 ^ v) by (intros; by apply Z.land_ones).
  destruct Hw as [-> | [-> | [-> | ->]]]; cbn [Z.eqb Pos.eqb andb].
  - change 0xFF with (Z.ones 8). rewrite !Hm by lia.
    destruct (c_rex_present ctx); cbn [negb andb]; [by rewrite Z.shiftr_0_r |].
    destruct (Z.ltb_spec reg 4), (Z.leb_spec 4 reg); try lia; by rewrite ?Z.shiftr_0_r.
  - change 0xFFFF with (Z.ones 16). by rewrite Hm, Z.shiftr_0_r by lia.
  - change 0xFFFFFFFF with (Z.ones 32). by rewrite Hm, Z.shiftr_0_r by lia.
  - rewrite Z.shiftr_0_r. symmetry. apply (wrap_small 64). by apply reg_at_in_word.
Qed.

Lemma merged_bit w offset old value i :
  reg_width w -> 0 <= offset -> in_word w value -> 0 <= i ->
  Z.testbit (merged w offset old value) i =
  if (offset <=? i) && (i <? offset + w) then (if (w =? 32) then Z.testbit value i else Z.testbit value (i - offset))
  else if w =? 32 then Z.testbit value i else Z.testbit old i.
Proof.
  intros Hw Ho Hv Hi. unfold merged. destruct (w =? 32); [by destruct (_ && _) |].
  assert (0 < w) by (destruct Hw as [-> | [-> | [-> | ->]]]; lia).
  rewrite Z.lor_spec, Z.ldiff_spec, !Z.shiftl_spec by done.
  destruct (Z.leb_spec offset i); cbn [andb].
  - rewrite Z.testbit_ones by lia. destruct (Z.ltb_spec i (offset + w)).
    + replace ((0 <=? i - offset) && (i - offset <? w)) with true by lia. by rewrite andb_false_r.
    + replace ((0 <=? i - offset) && (i - offset <? w)) with false by lia.
      rewrite (testbit_high w value) by (done || lia). by rewrite andb_true_r, orb_false_r.
  - rewrite !(Z.testbit_neg_r _ (i - offset)) by lia. by rewrite andb_true_r, orb_false_r.
Qed.

Lemma merged_in_word w offset old value :
  reg_width w -> 0 <= offset -> offset + w <= 64 -> in_word 64 old -> in_word w value -> in_word 64 (merged w offset old value).
Proof.
  intros Hw Ho Hs Hold Hv.
  assert (0 < w) by (destruct Hw as [-> | [-> | [-> | ->]]]; lia).
  replace (merged w offset old value) with (wrap 64 (merged w offset old value)); [by apply wrap_range |].
  apply Z.bits_inj'. intros i Hi. rewrite testbit_wrap by lia.
  destruct (Z.ltb_spec i 64); [done |]. rewrite merged_bit by done.
  replace (i <? offset + w) with false by lia. rewrite andb_false_r, (testbit_high 64 old i) by done.
  destruct (w =? 32); [| done]. symmetry. apply (testbit_high w); [done | lia].
Qed.

Lemma slice_bounds rex w reg :
  reg_width w -> reg_operand_ok rex w reg ->
  0 <= slice_register rex w reg < 16 /\ 0 <= slice_offset rex w reg /\ slice_offset rex w reg + w <= 64.
Proof.
  unfold reg_operand_ok, slice_register, slice_offset.
  intros [-> | [-> | [-> | ->]]]; cbn [Z.eqb Pos.eqb andb]; destruct rex; cbn [negb andb]; try lia.
  destruct (Z.leb_spec 4 reg); lia.
Qed.

(** Two operands that share no bit of the register file; a 32-bit write owns the whole register. *)
Definition slices_disjoint (rex : bool) (w reg w' reg' : Z) : Prop :=
  slice_register rex w reg <> slice_register rex w' reg' \/
  (w <> 32 /\
   (slice_offset rex w reg + w <= slice_offset rex w' reg' \/ slice_offset rex w' reg' + w' <= slice_offset rex w reg)).

(** A write to a general register of 8, 16, 32 or 64 bits, the high-byte registers of code
    without REX prefix included, is read back; it keeps the register file well formed, clears bits
    63-32 exactly when 32 bits wide, keeps every operand it does not overlap, and changes nothing
    but the register file. *)
Theorem register_accessors_correct (ctx : CPU_CONTEXT) (w reg value : Z) :
  reg_width w -> regs_wf ctx -> reg_operand_ok (c_rex_present ctx) w reg -> in_word w value ->
  let ctx' := set_reg w reg value ctx in
  regs_wf ctx' /\
  get_reg w ctx' reg = value /\
  ctx' = set_c_regs (c_regs ctx') ctx /\
  (w = 32 -> get_reg 64 ctx' reg = value) /\
  (w < 32 -> Z.shiftr (get_reg 64 ctx' (slice_register (c_rex_present ctx) w reg)) 16 =
             Z.shiftr (get_reg 64 ctx (slice_register (c_rex_present ctx) w reg)) 16) /\
  (forall w' reg', reg_width w' -> reg_operand_ok (c_rex_present ctx) w' reg' ->
     slices_disjoint (c_rex_present ctx) w reg w' reg' -> get_reg w' ctx' reg' = get_reg w' ctx reg').
Proof.
  intros Hw Hwf Hreg Hv. cbv zeta.
  destruct (slice_bounds _ _ _ Hw Hreg) as (Hr & Ho & Hs).
  rewrite (set_reg_merged w reg value ctx) by done.
  assert (Hb := fun old => merged_bit w (slice_offset (c_rex_present ctx) w reg) old value).
  assert (Hrex : forall r v, c_rex_present (set_reg_at r v ctx) = c_rex_present ctx) by done.
  set (r := slice_register (c_rex_present ctx) w reg) in *. set (o := slice_offset (c_rex_present ctx) w reg) in *.
  set (v := merged w o (reg_at ctx r) value) in *.
  assert (Hv64 : in_word 64 v) by (apply merged_in_word; try done; by apply reg_at_in_word).
  assert (Hwf' : regs_wf (set_reg_at r v ctx)) by by apply set_reg_at_wf.
  assert (Hw0 : 0 < w) by (destruct Hw as [-> | [-> | [-> | ->]]]; lia).
  split; [done |]. split; [| split; [done | split; [| split]]].
  - rewrite get_reg_slice, Hrex by done. fold r o. rewrite reg_at_set_reg_at, Z.eqb_refl by (done || lia).
    apply Z.bits_inj'. intros i Hi. rewrite testbit_wrap by lia.
    destruct (Z.ltb_spec i w); [| symmetry; by apply (testbit_high w)].
    rewrite Z.shiftr_spec by done. unfold v. rewrite Hb by (done || lia).
    replace ((o <=? i + o) && (i + o <? o + w)) with true by lia. cbn [andb].
    destruct (Z.eqb_spec w 32) as [E |]; [| f_equal; lia].
    subst w. unfold o, slice_offset. cbn [Z.eqb Pos.eqb andb]. f_equal. lia.
  - intros ->. unfold get_reg, get_reg64. cbn [Z.eqb Pos.eqb].
    assert (r = reg) as -> by done. rewrite reg_at_set_reg_at, Z.eqb_refl by (done || lia). done.
  - intros Hlt. unfold get_reg, get_reg64. cbn [Z.eqb Pos.eqb].
    rewrite reg_at_set_reg_at, Z.eqb_refl by (done || lia).
    apply Z.bits_inj'. intros i Hi. rewrite !Z.shiftr_spec by done. unfold v. rewrite Hb by (done || lia).
    assert (o + w <= 16) by (unfold o, slice_offset; destruct Hw as [-> | [-> | [-> | ->]]]; cbn [Z.eqb Pos.eqb andb]; try lia;
      destruct (negb _ && _); lia).
    replace (i + 16 <? o + w) with false by lia. rewrite andb_false_r.
    by replace (w =? 32) with false by lia.
  - intros w' reg' Hw' Hreg' Hd. destruct (slice_bounds _ _ _ Hw' Hreg') as (Hr' & Ho' & Hs').
    rewrite !get_reg_slice, Hrex by done.
    unfold slices_disjoint in Hd. fold r o in Hd.
    set (r' := slice_register (c_rex_present ctx) w' reg') in *. set (o' := slice_offset (c_rex_present ctx) w' reg') in *.
    rewrite reg_at_set_reg_at by (done || lia). destruct (Z.eqb_spec r' r) as [E |]; [| done].
    rewrite E in *. destruct Hd as [? | [H32 Hd]]; [done |].
    assert (0 < w') by (destruct Hw' as [-> | [-> | [-> | ->]]]; lia).
    apply Z.bits_inj'. intros i Hi. rewrite !testbit_wrap by lia. destruct (Z.ltb_spec i w'); [| done].
    rewrite !Z.shiftr_spec by done. unfold v. rewrite Hb by (done || lia).
    replace ((o <=? i + o') && (i + o' <? o + w)) with false by lia.
    by replace (w =? 32) with false by lia.
Qed.

(** ** Effective addresses *)

(** A memory operand as the architecture's tables describe it: an optional base register, an
    optional index register with its scale, whether the next instruction's address is added, and
    the sign-extended displacement. *)
Record operand_form := mkForm {
  of_base : option Z; of_index : option (Z * Z); of_rip : bool; of_disp : Z }.

Definition form_disp (mod_ disp : Z) : Z :=
  if mod_ =? 1 then sext 8 disp else if mod_ =? 2 then disp else 0.

(** The 16-bit forms: table 2-1 of the Intel manual, volume 2. *)
Definition form16 (mod_ rm disp : Z) : operand_form :=
  let d := form_disp mod_ disp in
  if rm =? 0 then mkForm (Some REG_RBX) (Some (REG_RSI, 1)) false d
  else if rm =? 1 then mkForm (Some REG_RBX) (Some (REG_RDI, 1)) false d
  else if rm =? 2 then mkForm (Some REG_RBP) (Some (REG_RSI, 1)) false d
  else if rm =? 3 then mkForm (Some REG_RBP) (Some (REG_RDI, 1)) false d
  else if rm =? 4 then mkForm (Some REG_RSI) None false d
  else if rm =? 5 then mkForm (Some REG_RDI) None false d
  else if rm =? 6 then (if mod_ =? 0 then mkForm None None false disp else mkForm (Some REG_RBP) None false d)
  else mkForm (Some REG_RBX) None false d.

(** The SIB forms (table 2-3): index 4 is none, base 5 under mod 0 is a bare 32-bit displacement. *)
Definition form_sib (rex_x rex_b : bool) (mod_ sib disp : Z) : operand_form :=
  let index := rex_extend rex_x (Z.land (Z.shiftr sib 3) 7) in
  let base := Z.land sib 7 in
  let indexed := if index =? 4 then None else Some (index, 2 ^ Z.land (Z.shiftr sib 6) 3) in
  if (mod_ =? 0) && (base =? 5) then mkForm None indexed false disp
  else mkForm (Some (rex_extend rex_b base)) indexed false (form_disp mod_ disp).

(** The 32- and 64-bit forms (table 2-2); mod 0 with rm 5 is relative to the next instruction in
    64-bit code and absolute elsewhere. *)
Definition form_of (long_mode rex_x rex_b : bool) (addr_size modrm sib disp : Z) : operand_form :=
  let mod_ := modrm_mod modrm in
  let rm := modrm_rm modrm in
  if addr_size =? 16 then form16 mod_ rm disp
  else if rm =? 4 then form_sib rex_x rex_b mod_ sib disp
  else if (rm =? 5) && (mod_ =? 0) then mkForm None None long_mode disp
  else mkForm (Some (rex_extend rex_b rm)) None false (form_disp mod_ disp).

Definition form_value (regs : Z -> Z) (next addr_size : Z) (f : operand_form) : Z :=
  wrap addr_size
    (match of_base f with Some r => regs r | None => 0 end +
     match of_index f with Some (r, s) => regs r * s | None => 0 end +
     (if of_rip f then next else 0) + of_disp f).

(** The architecture's offset of the operand of an instruction that ends at [next]. *)
Definition architectural_offset (ctx : CPU_CONTEXT) (modrm sib disp addr_size next : Z) : Z :=
  let long_mode := cpu_allows_rex_prefix ctx in
  form_value (reg_at ctx) next addr_size
    (form_of long_mode (c_rex_x ctx && long_mode) (c_rex_b ctx && long_mode) addr_size modrm sib disp).

(** The address sizes of the two kinds of code. *)
Definition address_size_ok (ctx : CPU_CONTEXT) (addr_size : Z) : Prop :=
  if cpu_allows_rex_prefix ctx then addr_size = 64 \/ addr_size = 32 else addr_size = 32 \/ addr_size = 16.

Definition is_byte (x : Z) : Prop := in_word 8 x.
Definition is_disp (d : Z) : Prop := - 2 ^ 31 <= d < 2 ^ 31.

(** The two displacement-only forms on which the code departs from the architecture. *)
Definition bare_sib_disp (modrm sib : Z) : bool :=
  (modrm_mod modrm =? 0) && (modrm_rm modrm =? 4) && (Z.land sib 7 =? 5).
Definition rip_form (modrm : Z) : bool := (modrm_mod modrm =? 0) && (modrm_rm modrm =? 5).

Lemma land_range_bits (k x : Z) : 0 <= k -> 0 <= Z.land x (Z.ones k) < 2 ^ k.
Proof. intros. rewrite Z.land_ones by done. apply Z.mod_pos_bound. by apply pow2_pos. Qed.

Lemma modrm_mod_range modrm : 0 <= modrm_mod modrm < 4.
Proof. apply (land_range_bits 2). lia. Qed.

Lemma modrm_rm_range modrm : 0 <= modrm_rm modrm < 8.
Proof. apply (land_range_bits 3). lia. Qed.

Lemma rex_extend_low3 b x : 0 <= x < 8 -> Z.land (rex_extend b x) 7 = x.
Proof.
  intros. destruct b; unfold rex_extend.
  - assert (x = 0 \/ x = 1 \/ x = 2 \/ x = 3 \/ x = 4 \/ x = 5 \/ x = 6 \/ x = 7) as H' by lia.
    by repeat destruct H' as [-> | H']; subst.
  - change 7 with (Z.ones 3). rewrite Z.land_ones by lia. apply Z.mod_small. lia.
Qed.

Lemma rex_extend_eq4 b x : 0 <= x < 8 -> (rex_extend b x =? 4) = (x =? 4) && negb b.
Proof.
  intros. destruct b; unfold rex_extend; [| by rewrite andb_true_r].
  assert (x = 0 \/ x = 1 \/ x = 2 \/ x = 3 \/ x = 4 \/ x = 5 \/ x = 6 \/ x = 7) as H' by lia.
  by repeat destruct H' as [-> | H']; subst.
Qed.

Lemma sext_low_byte d : sext 8 (Z.land d 0xFF) = sext 8 d.
Proof.
  unfold sext. change 0xFF with (Z.ones 8). rewrite Z.land_ones by lia.
  change (d mod 2 ^ 8) with (wrap 8 d). by rewrite wrap_wrap by lia.
Qed.

(** Sums modulo 2^64 and then modulo the address size. *)
Lemma offset_sum s a b : s = 32 \/ s = 64 -> (if s =? 32 then Z.land (u64 (a + b)) 0xFFFFFFFF else u64 (a + b)) = wrap s (a + b).
Proof.
  intros [-> | ->]; cbn [Z.eqb Pos.eqb]; [| done].
  change 0xFFFFFFFF with (Z.ones 32). rewrite Z.land_ones by lia. apply wrap_wrap_le. lia.
Qed.

(** What the code computes, as an operand form: the bare SIB displacement is zero-extended, and
    mod 0 with rm 5 is relative to the next instruction only with 64-bit addresses. *)
Definition code_form (long_mode rex_x rex_b : bool) (addr_size modrm sib disp : Z) : operand_form :=
  let mod_ := modrm_mod modrm in
  let rm := modrm_rm modrm in
  if rm =? 4 then form_sib rex_x rex_b mod_ sib (if bare_sib_disp modrm sib then u32 disp else disp)
  else if (rm =? 5) && (mod_ =? 0) then mkForm None None (addr_size =? 64) (if addr_size =? 64 then disp else u32 disp)
  else mkForm (Some (rex_extend rex_b rm)) None false (form_disp mod_ disp).

Lemma u64_reg ctx r : regs_wf ctx -> reg_at ctx r = u64 (reg_at ctx r).
Proof. intros. symmetry. apply wrap_small. by apply reg_at_in_word. Qed.

Lemma u64_u32 x : u32 x = u64 (u32 x).
Proof. symmetry. apply wrap_small. pose proof (wrap_range 32 x). unfold in_word in *. lia. Qed.

(** Adding the displacement of mod 1 or 2 to an address already reduced modulo 2^64. *)
Lemma add_disp mod_ disp t :
  (if mod_ =? 1 then u64 (u64 t + sext 8 (Z.land disp 0xFF)) else if mod_ =? 2 then u64 (u64 t + disp) else u64 t) =
  u64 (t + form_disp mod_ disp).
Proof.
  unfold form_disp. rewrite sext_low_byte, !wrap_add_l by lia.
  destruct (mod_ =? 1); [done |]. destruct (mod_ =? 2); [done |]. by rewrite Z.add_0_r.
Qed.

Lemma truncate_sum s t : s = 32 \/ s = 64 -> (if s =? 32 then Z.land (u64 t) 0xFFFFFFFF else u64 t) = wrap s t.
Proof. intros. rewrite <- (Z.add_0_r t). by apply offset_sum. Qed.

Lemma form_disp_mod0 d : form_disp 0 d = 0.
Proof. done. Qed.

(** The SIB address before the displacement of mod 1 and 2. *)
Lemma sib_address ctx sib disp mod_ rx rb :
  regs_wf ctx -> 0 <= sib ->
  let index := rex_extend rx (Z.land (Z.shiftr sib 3) 7) in
  let addr := if (mod_ =? 0) && (Z.land sib 7 =? 5) then u32 disp else reg_at ctx (rex_extend rb (Z.land sib 7)) in
  let f := form_sib rx rb mod_ sib (if (mod_ =? 0) && (Z.land sib 7 =? 5) then u32 disp else disp) in
  (if negb ((Z.land (Z.shiftr sib 3) 7 =? 4) && negb rx)
   then u64 (addr + u64 (Z.shiftl (reg_at ctx index) (Z.land (Z.shiftr sib 6) 3))) else addr) =
  u64 (match of_base f with Some r => reg_at ctx r | None => 0 end +
       match of_index f with Some (r, s) => reg_at ctx r * s | None => 0 end +
       (if (mod_ =? 0) && (Z.land sib 7 =? 5) then of_disp f else 0)).
Proof.
  intros Hwf Hsib. cbv zeta.
  assert (Hidx : 0 <= Z.land (Z.shiftr sib 3) 7 < 8) by apply (land_range_bits 3 (Z.shiftr sib 3)), Z.le_0_2.
  unfold form_sib. rewrite rex_extend_eq4 by done.
  assert (Hsc : 0 <= Z.land (Z.shiftr sib 6) 3) by (apply Z.land_nonneg; lia).
  rewrite Z.shiftl_mul_pow2 by done.
  destruct ((mod_ =? 0) && (Z.land sib 7 =? 5)); cbn [of_base of_index of_disp];
    destruct ((Z.land (Z.shiftr sib 3) 7 =? 4) && negb rx); cbn [negb].
  - by rewrite !Z.add_0_l, <- u64_u32.
  - rewrite wrap_add_r by lia. f_equal. lia.
  - rewrite !Z.add_0_r. by apply u64_reg.
  - rewrite wrap_add_r by lia. f_equal. lia.
Qed.

Lemma form_sib_disp rx rb mod_ sib d : of_disp (form_sib rx rb mod_ sib d) =
  if (mod_ =? 0) && (Z.land sib 7 =? 5) then d else form_disp mod_ d.
Proof. unfold form_sib. by destruct (_ && _). Qed.

Lemma form_sib_rip rx rb mod_ sib d : of_rip (form_sib rx rb mod_ sib d) = false.
Proof. unfold form_sib. by destruct (_ && _). Qed.

Lemma wide_offset_form ctx modrm sib disp s inst_size :
  regs_wf ctx -> 0 <= sib -> s = 32 \/ s = 64 -> modrm_mod modrm <> 3 ->
  get_effective_offset ctx modrm sib disp s inst_size =
  form_value (reg_at ctx) (c_rip ctx + inst_size) s
    (code_form (cpu_allows_rex_prefix ctx) (c_rex_x ctx && cpu_allows_rex_prefix ctx)
       (c_rex_b ctx && cpu_allows_rex_prefix ctx) s modrm sib disp).
Proof.
  intros Hwf Hsib Hs H3. unfold get_effective_offset, code_form, bare_sib_disp.
  pose proof (modrm_rm_range modrm) as Hrm.
  rewrite rex_extend_low3 by done.
  replace ((s =? 32) || (s =? 64)) with true by (destruct Hs as [-> | ->]; done).
  replace (modrm_mod modrm =? 3) with false by lia.
  set (rx := c_rex_x ctx && _). set (rb := c_rex_b ctx && _).
  rewrite (andb_comm (cpu_allows_rex_prefix ctx)). fold rx.
  destruct (Z.eqb_spec (modrm_rm modrm) 4) as [E4 |].
  - rewrite ?andb_true_r. cbn iota.
    pose proof (sib_address ctx sib disp (modrm_mod modrm) rx rb Hwf Hsib) as H. cbv zeta in H. rewrite H.
    rewrite add_disp, truncate_sum by done. unfold form_value. rewrite form_sib_rip, form_sib_disp.
    f_equal. destruct ((modrm_mod modrm =? 0) && (Z.land sib 7 =? 5)) eqn:E; [| lia].
    apply andb_true_iff in E as [->%Z.eqb_eq _]. rewrite form_disp_mod0. lia.
  - destruct ((modrm_rm modrm =? 5) && (modrm_mod modrm =? 0)) eqn:E5.
    + apply andb_true_iff in E5 as [_ E0]. apply Z.eqb_eq in E0. rewrite E0. cbn [Z.eqb].
      unfold form_value. cbn [of_base of_index of_rip of_disp].
      destruct Hs as [-> | ->]; cbn [Z.eqb Pos.eqb].
      * rewrite !Z.add_0_l. change 0xFFFFFFFF with (Z.ones 32). by rewrite Z.land_ones by lia.
      * replace (c_rip ctx + u64 inst_size + disp) with (c_rip ctx + disp + u64 inst_size) by lia.
        rewrite wrap_add_r by lia. f_equal. lia.
    + rewrite (u64_reg ctx _ Hwf), add_disp, truncate_sum by done.
      unfold form_value. cbn [of_base of_index of_rip of_disp]. f_equal. lia.
Qed.

(** 16-bit sums. *)
Lemma u16_sum t : Z.land (u64 t) 0xFFFF = wrap 16 t.
Proof. change 0xFFFF with (Z.ones 16). rewrite Z.land_ones by lia. apply wrap_wrap_le. lia. Qed.

Lemma u16_reg t : Z.land t 0xFFFF = wrap 16 t.
Proof. change 0xFFFF with (Z.ones 16). by rewrite Z.land_ones by lia. Qed.

Lemma narrow_offset_form ctx modrm sib disp inst_size :
  cpu_allows_rex_prefix ctx = false -> modrm_mod modrm <> 3 ->
  get_effective_offset ctx modrm sib disp 16 inst_size =
  form_value (reg_at ctx) (c_rip ctx + inst_size) 16 (form16 (modrm_mod modrm) (modrm_rm modrm) disp).
Proof.
  intros Hl H3. unfold get_effective_offset. rewrite Hl, andb_false_r. cbn [Z.eqb Pos.eqb orb rex_extend].
  replace (modrm_mod modrm =? 3) with false by lia.
  rewrite !u16_sum, !u16_reg, sext_low_byte, wrap_add_r by lia.
  pose proof (modrm_rm_range modrm) as Hrm. pose proof (modrm_mod_range modrm) as Hm.
  unfold form16, form_disp. set (reg := reg_at ctx).
  assert (H : forall t d, (if modrm_mod modrm =? 1 then wrap 16 (wrap 16 t + sext 8 d)
      else if modrm_mod modrm =? 2 then wrap 16 (wrap 16 t + d) else wrap 16 t) =
      wrap 16 (t + (if modrm_mod modrm =? 1 then sext 8 d else if modrm_mod modrm =? 2 then d else 0))).
  { intros. rewrite !wrap_add_l by lia. destruct (_ =? 1); [done |]. destruct (_ =? 2); [done | by rewrite Z.add_0_r]. }
  unfold form_value.
  repeat match goal with |- context [modrm_rm modrm =? ?k] =>
    destruct (Z.eqb_spec (modrm_rm modrm) k); [| try (exfalso; lia)] end;
  try (rewrite H; cbn [of_base of_index of_rip of_disp]; f_equal; lia).
  destruct (Z.eqb_spec (modrm_mod modrm) 0) as [-> |].
  - by cbn.
  - rewrite H. cbn [of_base of_index of_rip of_disp]. f_equal. lia.
Qed.

(** C8: The offset [get_effective_offset] computes for a memory operand is the architecture's
    (base plus scaled index plus sign-extended displacement at the address size, relative to the
    next instruction for the RIP form), at every address size and for every ModRM and SIB byte but
    the two displacement-only forms that [displacement_only_forms_differ] describes. *)
Theorem effective_offset_is_architectural (ctx : CPU_CONTEXT) (modrm sib disp addr_size inst_size : Z) :
  regs_wf ctx -> is_byte modrm -> is_byte sib -> is_disp disp -> address_size_ok ctx addr_size ->
  modrm_mod modrm <> 3 ->
  ~ (addr_size = 64 /\ bare_sib_disp modrm sib = true /\ disp < 0) ->
  ~ (cpu_allows_rex_prefix ctx = true /\ addr_size = 32 /\ rip_form modrm = true) ->
  get_effective_offset ctx modrm sib disp addr_size inst_size =
  architectural_offset ctx modrm sib disp addr_size (c_rip ctx + inst_size).
Proof.
  intros Hwf _ [Hsib _] Hd Hs H3 Hbare Hrip. unfold architectural_offset, form_of. unfold address_size_ok in Hs.
  destruct (Z.eqb_spec addr_size 16) as [-> | H16].
  { destruct (cpu_allows_rex_prefix ctx) eqn:El; [lia |]. by apply narrow_offset_form. }
  assert (Hs' : addr_size = 32 \/ addr_size = 64) by (destruct (cpu_allows_rex_prefix ctx); lia).
  rewrite (wide_offset_form ctx) by done. unfold code_form.
  set (rx := c_rex_x ctx && _). set (rb := c_rex_b ctx && _).
  destruct (Z.eqb_spec (modrm_rm modrm) 4) as [E4 |].
  - destruct (bare_sib_disp modrm sib) eqn:Eb; [| done].
    unfold bare_sib_disp in Eb. rewrite E4 in Eb. apply andb_true_iff in Eb as [[Em _]%andb_true_iff E5].
    unfold form_sib. rewrite Em, E5. cbn [andb]. unfold form_value. cbn [of_base of_index of_rip of_disp].
    destruct Hs' as [-> | ->].
    + apply wrap_add_r. lia.
    + rewrite (wrap_small 32 disp); [done |]. unfold is_disp, in_word in *. destruct (Z.ltb_spec disp 0); [| lia].
      destruct Hbare. split; done.
  - destruct ((modrm_rm modrm =? 5) && (modrm_mod modrm =? 0)) eqn:E5; [| done].
    destruct (cpu_allows_rex_prefix ctx); destruct Hs' as [-> | ->]; cbn [Z.eqb Pos.eqb]; try done; try lia.
    + destruct Hrip. unfold rip_form. rewrite andb_comm, E5. done.
    + unfold form_value. cbn [of_base of_index of_rip of_disp]. by rewrite wrap_add_r by lia.
Qed.

(** The code departs from the architecture on two displacement-only forms of 64-bit code.  A
    SIB operand without base register zero-extends its 32-bit displacement, so a negative one
    addresses 2^32 higher than the architecture does; and mod 0 rm 5 under an address-size prefix
    is the bare displacement instead of being relative to the next instruction. *)
Theorem displacement_only_forms_differ (ctx : CPU_CONTEXT) (modrm sib disp inst_size : Z) :
  regs_wf ctx -> is_byte modrm -> is_byte sib -> is_disp disp -> cpu_allows_rex_prefix ctx = true ->
  (bare_sib_disp modrm sib = true -> disp < 0 ->
     get_effective_offset ctx modrm sib disp 64 inst_size =
     u64 (architectural_offset ctx modrm sib disp 64 (c_rip ctx + inst_size) + 2 ^ 32)) /\
  (rip_form modrm = true ->
     get_effective_offset ctx modrm sib disp 32 inst_size = u32 disp /\
     architectural_offset ctx modrm sib disp 32 (c_rip ctx + inst_size) = u32 (c_rip ctx + inst_size + disp)).
Proof.
  intros Hwf _ [Hsib _] Hd Hl. split.
  - intros Hb Hneg. pose proof Hb as Hb'. unfold bare_sib_disp in Hb'.
    apply andb_true_iff in Hb' as [[Em E4]%andb_true_iff E5].
    rewrite wide_offset_form by (try apply Z.eqb_eq in Em; auto; lia).
    unfold architectural_offset, form_of, code_form. rewrite Hb, E4. cbn [Z.eqb Pos.eqb].
    unfold form_sib. rewrite Em, E5. cbn [andb]. unfold form_value. cbn [of_base of_index of_rip of_disp].
    rewrite wrap_add_l by lia.
    replace (u32 disp) with (disp + 2 ^ 32); [f_equal; lia |].
    unfold is_disp in Hd. rewrite wrap_once_neg by lia. by replace (disp <? 0) with true by lia.
  - intros Hr. unfold rip_form in Hr. apply andb_true_iff in Hr as [Em E5]. apply Z.eqb_eq in E5.
    split.
    + rewrite wide_offset_form by (try apply Z.eqb_eq in Em; auto; lia).
      unfold code_form. rewrite E5, Em. cbn [Z.eqb Pos.eqb andb]. unfold form_value. cbn [of_base of_index of_rip of_disp].
      rewrite !Z.add_0_l. apply wrap_wrap. lia.
    + unfold architectural_offset, form_of. rewrite E5, Em, Hl. cbn [Z.eqb Pos.eqb andb]. unfold form_value.
      cbn [of_base of_index of_rip of_disp]. by f_equal.
Qed.

(** ** A 64-bit context with [rip] 0x1000, rbx = 0x1122334455667788, rsi = 0x10. *)
Module RegisterExample.

Definition regs : list Z := [0; 0; 0; 0x1122334455667788; 0x7000; 0; 0x10; 0; 0; 0; 0; 0; 0; 0; 0; 0].
Definition ctx : CPU_CONTEXT := set_c_rip 0x1000 (set_c_regs regs (init_cpu_context false)).

Lemma ctx_regs : regs_wf ctx.
Proof. split; [done |]. by repeat constructor. Qed.

(** [BH] is byte operand 7 without a REX prefix. *)
Lemma register_accessors_correct_witness : get_reg 8 (set_reg 8 7 0xAB ctx) 7 = 0xAB.
Proof.
  assert (Hw : reg_width 8) by (left; reflexivity).
  assert (Ho : reg_operand_ok (c_rex_present ctx) 8 7) by zcompute.
  assert (Hv : in_word 8 0xAB) by zcompute.
  assert (H := register_accessors_correct ctx 8 7 0xAB Hw ctx_regs Ho Hv).
  exact (proj1 (proj2 H)).
Defined.

(** [rbx + rsi * 8 + 0x20]: ModRM 0x84, SIB 0xF3. *)
Lemma effective_offset_is_architectural_witness :
  get_effective_offset ctx 0x84 0xF3 0x20 64 8 = architectural_offset ctx 0x84 0xF3 0x20 64 (c_rip ctx + 8) /\
  architectural_offset ctx 0x84 0xF3 0x20 64 (c_rip ctx + 8) = 0x1122334455667828.
Proof.
  split; [| vm_compute; reflexivity].
  assert (Hm : is_byte 0x84) by zcompute. assert (Hs : is_byte 0xF3) by zcompute. assert (Hd : is_disp 0x20) by zcompute.
  assert (Ha : address_size_ok ctx 64) by (left; reflexivity).
  assert (H3 : modrm_mod 0x84 <> 3) by (vm_compute; discriminate).
  assert (Hb : ~ (64 = 64 /\ bare_sib_disp 0x84 0xF3 = true /\ 0x20 < 0)) by (intros (_ & H & _); vm_compute in H; discriminate).
  assert (Hr : ~ (cpu_allows_rex_prefix ctx = true /\ 64 = 32 /\ rip_form 0x84 = true)) by (intros (_ & H & _); discriminate).
  exact (effective_offset_is_architectural ctx 0x84 0xF3 0x20 64 8 ctx_regs Hm Hs Hd Ha H3 Hb Hr).
Defined.

(** [ds:[-16]] with ModRM 0x04, SIB 0x25. *)
Lemma displacement_only_forms_differ_witness :
  get_effective_offset ctx 0x04 0x25 (-16) 64 8 = 0xFFFFFFF0 /\
  architectural_offset ctx 0x04 0x25 (-16) 64 (c_rip ctx + 8) = 0xFFFFFFFFFFFFFFF0.
Proof.
  assert (Hm : is_byte 0x04) by zcompute. assert (Hs : is_byte 0x25) by zcompute.
  assert (Hd : is_disp (-16)) by (split; [discriminate | reflexivity]).
  assert (Hl : cpu_allows_rex_prefix ctx = true) by (vm_compute; reflexivity).
  assert (H := displacement_only_forms_differ ctx 0x04 0x25 (-16) 8 ctx_regs Hm Hs Hd Hl).
  assert (Hb : bare_sib_disp 0x04 0x25 = true) by (vm_compute; reflexivity).
  assert (Hn : -16 < 0) by reflexivity.
  split; [| vm_compute; reflexivity].
  rewrite (proj1 H Hb Hn). vm_compute. reflexivity.
Defined.

End RegisterExample.
