(* ===== verification/DispatchHelpers.v ===== *)
(** * cpu/dispatch_helpers.hpp: looking at instruction bytes

    What the decoder asks of the fetched bytes before it chooses a handler: where the prefixes end
    and which opcode follows, which prefixes there are, the fields of the byte after the opcode,
    whether the opcode branches or may touch vector registers; and the two decoding loops the
    instruction files share, for legacy prefixes and for ModRM, SIB and displacement.  A buffer is
    the list of its fetched bytes.  What these functions compute is stated where they are used, in
    Decoder.v and AluDecode.v. *)

From Stdlib Require Import ZArith Bool List Lia.
From stdpp Require Import base tactics list.
From S2P Require Import Prelude CpuDef InstCache Registers.

(** [buf[i]] and the number of bytes. *)
Definition byte_at (buf : list Z) (i : Z) : Z := arr_get 0 buf i.
Definition size_of (buf : list Z) : Z := Z.of_nat (length buf).

(** The byte groups the scans test. *)
Definition is_segment_prefix (b : Z) : bool :=
  (b =? 0x26) || (b =? 0x2E) || (b =? 0x36) || (b =? 0x3E) || (b =? 0x64) || (b =? 0x65).
Definition is_legacy_prefix (b : Z) : bool :=
  is_segment_prefix b || (b =? 0x66) || (b =? 0x67) || (b =? 0xF0) || (b =? 0xF2) || (b =? 0xF3).
Definition is_rex_byte (b : Z) : bool := (0x40 <=? b) && (b <=? 0x4F).

(** [while (i < len && is_prefix(buf[i])) i++]. *)
Fixpoint prefix_run (is_prefix : Z -> bool) (buf : list Z) : Z :=
  match buf with
  | [] => 0
  | b :: buf => if is_prefix b then 1 + prefix_run is_prefix buf else 0
  end.

Definition is_prefix_of_mode (ctx : CPU_CONTEXT) (b : Z) : bool :=
  is_legacy_prefix b || (cpu_allows_rex_prefix ctx && is_rex_byte b).

(** The opcode, a two-byte one as [0x0Fxx], and the number of prefix bytes before it. *)
Definition peek_opcode (ctx : CPU_CONTEXT) (buf : list Z) : Z * Z :=
  let i := prefix_run (is_prefix_of_mode ctx) buf in
  if size_of buf <=? i then (0xFFFF, i)
  else
    let opc := byte_at buf i in
    if (opc =? 0x0F) && (i + 1 <? size_of buf) then (Z.lor 0x0F00 (byte_at buf (i + 1)), i) else (opc, i).

(** The last of the first [prefix_len] bytes that satisfies a test, or [none]. *)
Definition last_prefix (test : Z -> bool) (none : Z) (buf : list Z) (prefix_len : Z) : Z :=
  fold_left (fun found b => if test b then b else found) (firstn (Z.to_nat prefix_len) buf) none.
Definition any_prefix (test : Z -> bool) (buf : list Z) (prefix_len : Z) : bool :=
  existsb test (firstn (Z.to_nat prefix_len) buf).

Definition peek_repeat_prefix (buf : list Z) (prefix_len : Z) : Z :=
  last_prefix (fun b => (b =? 0xF2) || (b =? 0xF3)) 0 buf prefix_len.
Definition peek_mandatory_prefix (buf : list Z) (prefix_len : Z) : Z :=
  last_prefix (fun b => (b =? 0x66) || (b =? 0xF2) || (b =? 0xF3)) 0 buf prefix_len.

Record InstructionPrefixPresence := mkPresence {
  pp_has_66 : bool;
  pp_has_f2 : bool;
  pp_has_f3 : bool;
  pp_has_lock : bool;
}.

Definition peek_instruction_prefix_presence (buf : list Z) (prefix_len : Z) : InstructionPrefixPresence :=
  mkPresence (any_prefix (fun b => b =? 0x66) buf prefix_len) (any_prefix (fun b => b =? 0xF2) buf prefix_len)
    (any_prefix (fun b => b =? 0xF3) buf prefix_len) (any_prefix (fun b => b =? 0xF0) buf prefix_len).

Record LegacyPrefixState := mkLegacy {
  lp_has_66 : bool;
  lp_has_67 : bool;
  lp_has_f2 : bool;
  lp_has_f3 : bool;
  lp_has_lock : bool;
}.
Definition zero_legacy : LegacyPrefixState := mkLegacy false false false false false.

(** The loop over the bytes from [offset] on. *)
Fixpoint legacy_prefix_loop (code : list Z) (offset : Z) (p : LegacyPrefixState) : ST CPU_CONTEXT (LegacyPrefixState * Z) :=
  match code with
  | [] => st_ret (p, offset)
  | prefix :: code =>
      if prefix =? 0x66 then
        st_modify (set_c_operand_size_override true) ;;;
        legacy_prefix_loop code (offset + 1) (mkLegacy true (lp_has_67 p) (lp_has_f2 p) (lp_has_f3 p) (lp_has_lock p))
      else if prefix =? 0x67 then
        st_modify (set_c_address_size_override true) ;;;
        legacy_prefix_loop code (offset + 1) (mkLegacy (lp_has_66 p) true (lp_has_f2 p) (lp_has_f3 p) (lp_has_lock p))
      else if prefix =? 0xF2 then
        legacy_prefix_loop code (offset + 1) (mkLegacy (lp_has_66 p) (lp_has_67 p) true (lp_has_f3 p) (lp_has_lock p))
      else if prefix =? 0xF3 then
        legacy_prefix_loop code (offset + 1) (mkLegacy (lp_has_66 p) (lp_has_67 p) (lp_has_f2 p) true (lp_has_lock p))
      else
        let* rex := cpu_try_apply_rex_prefix prefix in
        if rex then legacy_prefix_loop code (offset + 1) p
        else if prefix =? 0xF0 then
          legacy_prefix_loop code (offset + 1) (mkLegacy (lp_has_66 p) (lp_has_67 p) (lp_has_f2 p) (lp_has_f3 p) true)
        else if is_segment_prefix prefix then legacy_prefix_loop code (offset + 1) p
        else st_ret (p, offset)
  end.

Definition decode_legacy_prefixes (code : list Z) (offset : Z) : ST CPU_CONTEXT (LegacyPrefixState * Z) :=
  st_modify cpu_reset_prefix_state ;;; legacy_prefix_loop (skipn (Z.to_nat offset) code) offset zero_legacy.

(** ** ModRM, SIB and displacement *)

(** [value |= byte << (8 * i)] over the bytes of a field. *)
Definition field_value (code : list Z) (offset n : Z) : Z := le_combine (map (byte_at code) (seqZ offset n)).

Definition disp_size_of (inst : DecodedInstruction) (mod_ rm : Z) : Z :=
  let wide := if i_address_size inst =? 16 then 2 else 4 in
  if (mod_ =? 0) && (rm =? 5) then wide
  else if (mod_ =? 0) && i_has_sib inst && (Z.land (i_sib inst) 0x07 =? 5) then 4
  else if mod_ =? 1 then 1
  else if mod_ =? 2 then wide
  else i_disp_size inst.

(** The displacement's bytes as an [int32_t], sign-extended from its size. *)
Definition displacement_value (code : list Z) (offset disp_size : Z) : Z :=
  let value := sext 32 (field_value code offset disp_size) in
  if disp_size =? 1 then sext 8 value else if disp_size =? 2 then sext 16 value else value.

(** After the ModRM byte: SIB, displacement and effective address.  The second component is the
    offset behind what was read; [true] says that the function went on to its end. *)
Definition decode_sib_disp (code : list Z) (inst : DecodedInstruction) (offset : Z)
  : ST CPU_CONTEXT (DecodedInstruction * Z * bool) :=
  let mod_ := modrm_mod (i_modrm inst) in
  let rm := modrm_rm (i_modrm inst) in
  let wants_sib := negb (mod_ =? 3) && (rm =? 4) && negb (i_address_size inst =? 16) in
  if wants_sib && (size_of code <=? offset) then st_modify (raise_gp_ctx 0) ;;; st_ret (inst, offset, false)
  else
    let '(inst, offset) :=
      if wants_sib then (set_i_sib (byte_at code offset) (set_i_has_sib true inst), offset + 1) else (inst, offset) in
    let disp_size := disp_size_of inst mod_ rm in
    let inst := set_i_disp_size disp_size inst in
    if (0 <? disp_size) && (size_of code <? offset + disp_size) then st_modify (raise_gp_ctx 0) ;;; st_ret (inst, offset, false)
    else
      let '(inst, offset) :=
        if 0 <? disp_size then (set_i_displacement (displacement_value code offset disp_size) inst, offset + disp_size)
        else (inst, offset) in
      if negb (mod_ =? 3) then
        let* address := get_effective_address (i_modrm inst) (i_sib inst) (i_displacement inst) (i_address_size inst) 0 in
        st_ret (set_i_mem_address address inst, offset, true)
      else st_ret (inst, offset, true).

Definition decode_modrm_common (code : list Z) (inst : DecodedInstruction) (offset : Z) (allow_register_form : bool)
  : ST CPU_CONTEXT (DecodedInstruction * Z) :=
  if size_of code <=? offset then st_modify (raise_gp_ctx 0) ;;; st_ret (inst, offset)
  else
    let inst := set_i_modrm (byte_at code offset) (set_i_has_modrm true inst) in
    let offset := offset + 1 in
    if (modrm_mod (i_modrm inst) =? 3) && negb allow_register_form then st_modify raise_ud_ctx ;;; st_ret (inst, offset)
    else let* (inst, offset, _) := decode_sib_disp code inst offset in st_ret (inst, offset).

(** ** Classifying opcodes *)

Definition peek_segment_override (buf : list Z) (prefix_len : Z) : Z :=
  fold_left (fun segment b => if 0 <=? cpu_decode_segment_override b then cpu_decode_segment_override b else segment)
    (firstn (Z.to_nat prefix_len) buf) (-1).

Definition is_branch_opcode (opc : Z) : bool :=
  if between 0x0F80 0x0F8F opc then true
  else if 0x00FF <? opc then false
  else between 0x70 0x7F opc || between 0xE0 0xE3 opc ||
       one_of opc [0xEB; 0xE9; 0xEA; 0xE8; 0x9A; 0xC2; 0xC3; 0xCA; 0xCB; 0xCF; 0xFF].

Definition peek_modrm_reg_field (buf : list Z) (prefix_len opc_offset : Z) : Z :=
  let pos := prefix_len + opc_offset in
  if pos <? size_of buf then Z.land (Z.shiftr (byte_at buf pos) 3) 0x07 else 0xFF.
Definition peek_modrm_mod_field (buf : list Z) (prefix_len opc_offset : Z) : Z :=
  let pos := prefix_len + opc_offset in
  if pos <? size_of buf then Z.land (Z.shiftr (byte_at buf pos) 6) 0x03 else 0xFF.

(** The operand size of a near return and the number of its prefixes. *)
Definition decode_near_ret_operand_size (ctx : CPU_CONTEXT) (buf : list Z) : Z * Z :=
  let prefix_len := prefix_run (is_prefix_of_mode ctx) buf in
  let operand_size_override := any_prefix (fun b => b =? 0x66) buf prefix_len in
  (if cpu_is_64bit_code ctx then (if operand_size_override then 16 else 64) else if operand_size_override then 16 else 32,
   prefix_len).

(** Two-byte opcodes that touch no vector register. *)
Definition scalar_two_byte_opcode (opc : Z) : bool :=
  between 0x0F40 0x0F4F opc || between 0x0F80 0x0F8F opc || between 0x0F90 0x0F9F opc ||
  one_of opc [0x0FA0; 0x0FA1; 0x0FA2; 0x0FA8; 0x0FA9; 0x0FAF; 0x0FB0; 0x0FB1; 0x0FB6; 0x0FB7; 0x0FBC; 0x0FBD;
              0x0FBE; 0x0FBF; 0x0FA3; 0x0FAB; 0x0FB3; 0x0FBB; 0x0FBA; 0x0FC0; 0x0FC1] ||
  between 0x0FC8 0x0FCF opc ||
  one_of opc [0x0F00; 0x0F01; 0x0F05; 0x0F20; 0x0F22; 0x0F31; 0x0F33; 0x0F34; 0x0F1F].

Definition cpu_step_may_touch_vector_state (buf : list Z) (opc mandatory_prefix : Z) : bool :=
  if size_of buf <=? 0 then false
  else if (byte_at buf 0 =? 0xC5) || (byte_at buf 0 =? 0xC4) then true
  else if opc <=? 0x00FF then false
  else if scalar_two_byte_opcode opc then false
  else if (opc =? 0x0FC7) || (opc =? 0x0F1E) then false
  else if (opc =? 0x0F0D) || (opc =? 0x0F18) || ((opc =? 0x0F2B) && (mandatory_prefix =? 0x00)) then opc =? 0x0F2B
  else true.
