(* ===== verification/WideMemory.v ===== *)
(** * cpu/helper.hpp: accesses wider than a register

    The vector, x87 and compare-and-exchange-16 instructions read and write up to 64 bytes (512 for
    the state images) through a byte buffer, here the list of its bytes.  A read or write goes to
    contiguous host memory when there is any and else byte by byte, all pointers resolved before the
    first byte moves; a masked write resolves and stores the selected elements only.  The theorems:
    a wide access is all or nothing, like a scalar one, and a masked store neither touches nor asks
    for any byte outside the selected elements. *)

From Stdlib Require Import ZArith Bool List Lia.
From stdpp Require Import base tactics list.
From S2P Require Import Prelude CpuDef HostMemory RegionTable RegionSplit Patches PageCache InstCache Machine CpuMemory DispatchHelpers.

(** ** Little-endian buffers *)

Fixpoint load_bytes_le (bytes : list Z) : Z :=
  match bytes with [] => 0 | byte :: bytes => Z.lor byte (Z.shiftl (load_bytes_le bytes) 8) end.
Definition store_bytes_le (n : nat) (value : Z) : list Z := map (fun index => u8 (Z.land (Z.shiftr value (index * 8)) 0xFF)) (seqZ 0 (Z.of_nat n)).

Definition cpu_load_u16_le (bytes : list Z) : Z := load_bytes_le (take 2 bytes).
Definition cpu_load_u32_le (bytes : list Z) : Z := load_bytes_le (take 4 bytes).
Definition cpu_load_u64_le (bytes : list Z) : Z := load_bytes_le (take 8 bytes).
Definition cpu_store_u16_le (value : Z) : list Z := store_bytes_le 2 value.
Definition cpu_store_u32_le (value : Z) : list Z := store_bytes_le 4 value.
Definition cpu_store_u64_le (value : Z) : list Z := store_bytes_le 8 value.

(** [CPUEAXH_MEMCPY] from and to host memory, and the copy loops over pointers. *)
Definition load_pointers (ptrs : list Z) : ST cpueaxh_engine (list Z) :=
  st_gets (fun e => map (fun ptr => load ptr (ms_heap (en_mem e))) ptrs).
Definition pointers_at (ptr size : Z) : list Z := map (ptr_add ptr) (offsets_from 0 size).

(** [cpu_commit_linear_write_bytes]: [*byte_ptrs[offset] = bytes[offset]]. *)
Fixpoint cpu_commit_linear_write_bytes (bytes byte_ptrs : list Z) : ST cpueaxh_engine unit :=
  match bytes, byte_ptrs with
  | byte :: bytes, ptr :: byte_ptrs => store_host ptr byte ;;; cpu_commit_linear_write_bytes bytes byte_ptrs
  | _, _ => st_ret tt
  end.

Section memory.
Context `{Callbacks}.

(** [cpu_resolve_memory_access] at each offset: [None] when an access failed. *)
Fixpoint resolve_pointers (offsets : list Z) (address access reported_address reported_size reported_value : Z) : ST cpueaxh_engine (option (list Z)) :=
  match offsets with
  | [] => st_ret (Some [])
  | offset :: offsets =>
      let* (status, byte_ptr) := cpu_resolve_memory_access (u64 (address + offset)) access reported_address reported_size reported_value in
      match status with
      | MM_ACCESS_OK =>
          let* rest := resolve_pointers offsets address access reported_address reported_size reported_value in
          st_ret (option_map (cons byte_ptr) rest)
      | _ => st_ret None
      end
  end.

(** [size > limit], a pending exception and an empty buffer are refused. *)
Definition buffer_refused (limit size : Z) : ST cpueaxh_engine bool :=
  let* pending := get_ctx cpu_has_exception in st_ret ((size =? 0) || (limit <? size) || pending).

Definition read_linear_bytes (limit address size : Z) : ST cpueaxh_engine (option (list Z)) :=
  let* refused := buffer_refused limit size in
  if refused then st_ret None
  else
    let* contiguous := cpu_try_get_contiguous_ptr address size MM_PROT_READ 0 in
    if negb (contiguous =? NULL) then let* bytes := load_pointers (pointers_at contiguous size) in st_ret (Some bytes)
    else
      let* faulted := get_ctx cpu_has_exception in
      if faulted then st_ret None
      else
        let* byte_ptrs := resolve_pointers (offsets_from 0 size) address MM_PROT_READ address size 0 in
        match byte_ptrs with
        | None => st_ret None
        | Some byte_ptrs => let* bytes := load_pointers byte_ptrs in st_ret (Some bytes)
        end.
Definition cpu_read_linear_bytes := read_linear_bytes 64.
Definition cpu_read_linear_bytes_large := read_linear_bytes 512.

Definition cpu_write_linear_bytes (address : Z) (bytes : list Z) (reported_value : Z) : ST cpueaxh_engine bool :=
  let size := size_of bytes in
  let* refused := buffer_refused 64 size in
  if refused then st_ret false
  else
    let* contiguous := cpu_try_get_contiguous_ptr address size MM_PROT_WRITE reported_value in
    if negb (contiguous =? NULL) then cpu_commit_linear_write_bytes bytes (pointers_at contiguous size) ;;; st_ret true
    else
      let* faulted := get_ctx cpu_has_exception in
      if faulted then st_ret false
      else
        let* byte_ptrs := resolve_pointers (offsets_from 0 size) address MM_PROT_WRITE address size reported_value in
        match byte_ptrs with
        | None => st_ret false
        | Some byte_ptrs => cpu_commit_linear_write_bytes bytes byte_ptrs ;;; st_ret true
        end.

Definition cpu_resolve_linear_write_byte_ptrs (address size reported_value : Z) : ST cpueaxh_engine (option (list Z)) :=
  let* refused := buffer_refused 512 size in
  if refused then st_ret None else resolve_pointers (offsets_from 0 size) address MM_PROT_WRITE address size reported_value.

(** The selected elements, in order: element [i] is [element_size] bytes at [i * element_size].  An
    element that is not selected keeps null pointers, here none. *)
Fixpoint masked_pointers (elements : list (bool * Z)) (element_address element_size : Z) : ST cpueaxh_engine (option (list (list Z))) :=
  match elements with
  | [] => st_ret (Some [])
  | (selected, reported_value) :: elements =>
      let* ptrs :=
        (if selected then resolve_pointers (offsets_from 0 element_size) element_address MM_PROT_WRITE element_address element_size reported_value
         else st_ret (Some [])) in
      match ptrs with
      | None => st_ret None
      | Some ptrs =>
          let* rest := masked_pointers elements (u64 (element_address + element_size)) element_size in
          st_ret (option_map (cons ptrs) rest)
      end
  end.
Definition cpu_resolve_masked_write_element_ptrs (address : Z) (elements : list (bool * Z)) (element_size : Z) : ST cpueaxh_engine (option (list (list Z))) :=
  let count := Z.of_nat (length elements) in
  let* pending := get_ctx cpu_has_exception in
  if (count =? 0) || (element_size =? 0) || (64 <? count * element_size) || pending then st_ret None
  else masked_pointers elements address element_size.

Fixpoint cpu_commit_masked_write_elements (bytes : list Z) (elements : list (bool * Z)) (element_size : nat) (byte_ptrs : list (list Z)) : ST cpueaxh_engine unit :=
  match elements, byte_ptrs with
  | (selected, _) :: elements, ptrs :: byte_ptrs =>
      (if (selected : bool) then cpu_commit_linear_write_bytes (take element_size bytes) ptrs else st_ret tt) ;;;
      cpu_commit_masked_write_elements (drop element_size bytes) elements element_size byte_ptrs
  | _, _ => st_ret tt
  end.

(** One notification for every eight bytes. *)
Fixpoint notify_qwords (offsets : list Z) (hook_type address : Z) (bytes : list Z) : ST cpueaxh_engine unit :=
  match offsets with
  | [] => st_ret tt
  | offset :: offsets =>
      cpu_notify_memory_hook hook_type (u64 (address + offset)) 8 (cpu_load_u64_le (drop (Z.to_nat offset) bytes)) ;;;
      notify_qwords offsets hook_type address bytes
  end.
Definition cpu_notify_qword_memory_hooks (hook_type address : Z) (bytes : list Z) : ST cpueaxh_engine unit :=
  let* has := st_gets (fun e => cpu_has_hook_type e hook_type) in
  if has then notify_qwords (map (Z.mul 8) (seqZ 0 ((size_of bytes + 7) / 8))) hook_type address bytes else st_ret tt.

(** ** Vector registers in memory *)

Definition read_wide (size address : Z) : ST cpueaxh_engine (option (list Z)) :=
  let* read := cpu_read_linear_bytes address size in
  match read with
  | None => st_ret None
  | Some bytes => cpu_notify_qword_memory_hooks CPUEAXH_HOOK_MEM_READ address bytes ;;; st_ret (Some bytes)
  end.
Definition write_wide (address : Z) (bytes : list Z) (reported_value : Z) : ST cpueaxh_engine unit :=
  let* pending := get_ctx cpu_has_exception in
  if pending then st_ret tt
  else
    let* contiguous := cpu_try_get_contiguous_ptr address (size_of bytes) MM_PROT_WRITE reported_value in
    let* faulted := get_ctx cpu_has_exception in
    if (contiguous =? NULL) && faulted then st_ret tt
    else
      cpu_notify_qword_memory_hooks CPUEAXH_HOOK_MEM_WRITE address bytes ;;;
      if negb (contiguous =? NULL) then cpu_commit_linear_write_bytes bytes (pointers_at contiguous (size_of bytes))
      else let* _ := cpu_write_linear_bytes address bytes reported_value in st_ret tt.

Definition xmm_of_bytes (bytes : list Z) : XMMRegister := mkXmm (cpu_load_u64_le bytes) (cpu_load_u64_le (drop 8 bytes)).
Definition bytes_of_xmm (value : XMMRegister) : list Z := cpu_store_u64_le (xmm_low value) ++ cpu_store_u64_le (xmm_high value).

Definition read_xmm_memory (address : Z) : ST cpueaxh_engine XMMRegister :=
  let* read := read_wide 16 address in
  st_ret (match read with Some bytes => xmm_of_bytes bytes | None => zero_xmm end).
Definition write_xmm_memory (address : Z) (value : XMMRegister) : ST cpueaxh_engine unit :=
  write_wide address (bytes_of_xmm value) (xmm_low value).

Definition read_zmm_upper_memory (address : Z) : ST cpueaxh_engine ZMMUpperRegister :=
  let* read := read_wide 32 address in
  st_ret (match read with Some bytes => mkZmmU (xmm_of_bytes bytes) (xmm_of_bytes (drop 16 bytes)) | None => mkZmmU zero_xmm zero_xmm end).
Definition write_zmm_upper_memory (address : Z) (value : ZMMUpperRegister) : ST cpueaxh_engine unit :=
  write_wide address (bytes_of_xmm (zmmu_lower value) ++ bytes_of_xmm (zmmu_upper value)) (xmm_low (zmmu_lower value)).

Definition read_zmm_memory (address : Z) : ST cpueaxh_engine ZMMRegister :=
  let* read := read_wide 64 address in
  st_ret (match read with
          | Some bytes => mkZmm (xmm_of_bytes bytes) (xmm_of_bytes (drop 16 bytes)) (xmm_of_bytes (drop 32 bytes)) (xmm_of_bytes (drop 48 bytes))
          | None => mkZmm zero_xmm zero_xmm zero_xmm zero_xmm
          end).
Definition write_zmm_memory (address : Z) (value : ZMMRegister) : ST cpueaxh_engine unit :=
  write_wide address
    (bytes_of_xmm (zmm_xmm0 value) ++ bytes_of_xmm (zmm_xmm1 value) ++ bytes_of_xmm (zmm_xmm2 value) ++ bytes_of_xmm (zmm_xmm3 value))
    (xmm_low (zmm_xmm0 value)).

End memory.

(** ** Buffers and numbers *)

Definition bytes_ok (bytes : list Z) : Prop := Forall (fun b => 0 <= b < 256) bytes.

Lemma load_bytes_value bytes : bytes_ok bytes -> load_bytes_le bytes = le_combine bytes.
Proof.
  induction 1 as [| b bytes Hb Hok IH]; [done |]. cbn [load_bytes_le le_combine]. rewrite IH. apply lor_shift; [done |]. by apply le_combine_bound.
Qed.

Lemma store_bytes_value n value : le_combine (store_bytes_le n value) = wrap (8 * Z.of_nat n) value.
Proof.
  rewrite <- le_combine_bytes. f_equal. apply map_ext. intros o. rewrite wrap_land_255. do 2 f_equal. lia.
Qed.

Lemma store_bytes_ok n value : bytes_ok (store_bytes_le n value).
Proof. apply Forall_map, Forall_forall. intros o _. cbn. apply (wrap_range 8). lia. Qed.

Lemma store_bytes_length n value : length (store_bytes_le n value) = n.
Proof. unfold store_bytes_le. rewrite length_map, length_seqZ. lia. Qed.

Lemma le_combine_app l1 l2 : le_combine (l1 ++ l2) = le_combine l1 + 256 ^ Z.of_nat (length l1) * le_combine l2.
Proof.
  induction l1 as [| b l1 IH]; cbn [app le_combine length]; [change (256 ^ Z.of_nat 0) with 1; lia |].
  rewrite IH, Nat2Z.inj_succ, Z.pow_succ_r by lia. ring.
Qed.

Section specs.
Context `{Callbacks}.

Definition guest_bytes (e : cpueaxh_engine) (a n : Z) : list Z := map (fun o => guest_byte e (at_off a o)) (offsets_from 0 n).

Lemma guest_bytes_value e a n : guest_value e a n = le_combine (guest_bytes e a n).
Proof. done. Qed.

Lemma guest_bytes_range e a n acc : manager_wf (en_mem e) -> first_fault e a n acc = None -> bytes_ok (guest_bytes e a n).
Proof. intros Hm Hf. by apply (guest_bytes_ok e a acc). Qed.

Lemma resolve_pointers_spec e a acc ra rs rv offsets : forall e1,
  cpu_ready e -> same_cpu e e1 ->
  match first_fault_in e offsets a acc with
  | None => exists e', same_cpu e e' /\
      resolve_pointers offsets a acc ra rs rv e1 = (Some (map (fun o => host_address (en_mem e) (at_off a o)) offsets), e')
  | Some (ad, v) => exists e', faults e v ad acc e' /\ resolve_pointers offsets a acc ra rs rv e1 = (None, e')
  end.
Proof.
  induction offsets as [| k offsets IH]; intros e1 Hr Hs; [by exists e1 |].
  cbn [resolve_pointers first_fault_in map]. unfold st_bind. fold (at_off a k).
  pose proof (resolve_at e e1 (at_off a k) acc ra rs rv Hr Hs (at_off_word a k)) as Hres.
  destruct (cpu_resolve_memory_access _ _ _ _ _ e1) as [[st ptr] e2]. destruct st.
  2,3: destruct Hres as [Hno Hf]; destruct (cpu_access e (at_off a k) acc); [done | by exists e2..].
  destruct Hres as (Hok & -> & Hs2). rewrite Hok. specialize (IH e2 Hr Hs2).
  destruct (first_fault_in e offsets a acc) as [[ad v] |].
  - destruct IH as (e' & Hf & ->). by exists e'.
  - destruct IH as (e' & Hs' & ->). by exists e'.
Qed.

Lemma commit_is_store bytes : forall ptrs, length ptrs = length bytes -> bytes_ok bytes ->
  forall e, cpu_commit_linear_write_bytes bytes ptrs e = store_le ptrs (le_combine bytes) e.
Proof.
  induction bytes as [| b bytes IH]; intros [| p ptrs] Hlen Hok e; try done. apply Forall_cons in Hok as [Hb Hok]. injection Hlen as Hlen.
  cbn [cpu_commit_linear_write_bytes store_le le_combine].
  assert (Hland : Z.land (b + 256 * le_combine bytes) 0xFF = b).
  { change 0xFF with (Z.ones 8). rewrite Z.land_ones by lia. change (2 ^ 8) with 256. rewrite Z.mul_comm, Z.mod_add, Z.mod_small by lia. done. }
  assert (Hshift : Z.shiftr (b + 256 * le_combine bytes) 8 = le_combine bytes).
  { rewrite Z.shiftr_div_pow2 by lia. change (2 ^ 8) with 256. rewrite Z.mul_comm, Z.div_add, Z.div_small by lia. done. }
  rewrite Hland, Hshift. unfold st_bind. destruct (store_host p b e) as [u e1]. by apply IH.
Qed.

(** Contiguous host memory holds the bytes of the access in order. *)
Lemma line_pointers e a acc p n : in_line e a acc p n -> pointers_at p n = hosts_of e a n.
Proof.
  intros [_ Hl]. unfold pointers_at, hosts_of. rewrite offsets_0. apply map_ext_in. intros i Hi%list_elem_of_In%elem_of_seqZ. symmetry. apply Hl. lia.
Qed.

Lemma load_hosts e a acc n : first_fault e a n acc = None -> map (fun ptr => load ptr (ms_heap (en_mem e))) (hosts_of e a n) = guest_bytes e a n.
Proof.
  unfold first_fault, hosts_of, guest_bytes. rewrite map_map. intros Hf. revert Hf. induction (offsets_from 0 n) as [| o l IH]; [done |].
  cbn [first_fault_in map]. destruct (cpu_access e (at_off a o) acc) eqn:Ea; try done. intros Hf. rewrite (IH Hf). f_equal.
  symmetry. exact (guest_byte_host e _ acc Ea).
Qed.

Lemma buffer_accepted limit n e : cpu_has_exception (en_context e) = false -> 0 < n <= limit -> buffer_refused limit n e = (false, e).
Proof.
  intros Hx Hn. unfold buffer_refused, st_bind, get_ctx, st_gets. rewrite Hx. replace (n =? 0) with false by lia. by replace (limit <? n) with false by lia.
Qed.

Lemma read_linear_spec limit e a n : cpu_ready e -> in_word 64 a -> 0 < n <= limit -> limit <= 4096 ->
  match first_fault e a n MM_PROT_READ with
  | None => exists e', same_cpu e e' /\ read_linear_bytes limit a n e = (Some (guest_bytes e a n), e')
  | Some (ad, v) => exists e', faults e v ad MM_PROT_READ e' /\ read_linear_bytes limit a n e = (None, e')
  end.
Proof.
  intros Hr Ha Hn Hlim. pose proof Hr as (Hm & Hq & Hx).
  pose proof (try_contiguous_spec e a n MM_PROT_READ 0 Hr Ha ltac:(lia)) as Htry.
  destruct (cpu_try_get_contiguous_ptr a n MM_PROT_READ 0 e) as [p e1] eqn:Ep.
  assert (Hrun : read_linear_bytes limit a n e =
    (if negb (p =? NULL) then let* bytes := load_pointers (pointers_at p n) in st_ret (Some bytes)
     else if cpu_has_exception (en_context e1) then st_ret None
     else let* byte_ptrs := resolve_pointers (offsets_from 0 n) a MM_PROT_READ a n 0 in
          match byte_ptrs with None => st_ret None | Some byte_ptrs => let* bytes := load_pointers byte_ptrs in st_ret (Some bytes) end) e1).
  { unfold read_linear_bytes. rewrite (bind_run _ _ _ _ _ (buffer_accepted limit n e Hx Hn)), (bind_run _ _ _ _ _ Ep).
    destruct (negb (p =? NULL)); [done |]. rewrite (bind_run (get_ctx cpu_has_exception) _ e1 _ e1 eq_refl). by destruct (cpu_has_exception (en_context e1)). }
  rewrite Hrun. clear Hrun. destruct Htry as [[Hs Hl] | (-> & ad & v & Hff & Hf)].
  - destruct (Z.eqb_spec p NULL) as [-> | Hp]; cbn [negb].
    + assert (Hx1 : cpu_has_exception (en_context e1) = false) by (by rewrite (same_cpu_context _ _ Hs)). rewrite Hx1.
      pose proof (resolve_pointers_spec e a MM_PROT_READ a n 0 (offsets_from 0 n) e1 Hr Hs) as Hb. fold (first_fault e a n MM_PROT_READ) in Hb.
      destruct (first_fault e a n MM_PROT_READ) as [[ad v] |] eqn:Hff; destruct Hb as (e' & He & Hb); rewrite (bind_run _ _ _ _ _ Hb); [by exists e' |]. exists e'. split; [done |].
      unfold st_bind, load_pointers, st_gets. rewrite (same_cpu_heap _ _ He). fold (hosts_of e a n). by rewrite (load_hosts e a MM_PROT_READ).
    + destruct (Hl Hp) as [Hline Hw]. assert (Hff : first_fault e a n MM_PROT_READ = None) by (unfold first_fault; rewrite offsets_0; apply Hline).
      rewrite Hff. exists e1. split; [done |]. unfold st_bind, load_pointers, st_gets. rewrite (line_pointers e a MM_PROT_READ p n Hline), (same_cpu_heap _ _ Hs).
      by rewrite (load_hosts e a MM_PROT_READ).
  - rewrite Hff. change (negb (NULL =? NULL)) with false. cbn iota. rewrite (first_fault_pending _ _ _ _ _ _ _ Hff Hf). by exists e1.
Qed.

Lemma commit_spec e e1 a bytes : same_cpu e e1 -> bytes_ok bytes ->
  stored e (hosts_of e a (size_of bytes)) (le_combine bytes) (final (cpu_commit_linear_write_bytes bytes (hosts_of e a (size_of bytes))) e1).
Proof.
  intros Hs Hok. unfold final. rewrite commit_is_store; [| | done].
  - apply (same_cpu_stored _ e1); [done |]. apply store_le_spec. by destruct Hs as (m & -> & _ & Hm).
  - rewrite hosts_length. unfold size_of. apply Nat2Z.id.
Qed.

End specs.

(** ** Wide accesses *)

Section wide.
Context `{Callbacks}.

(** The write once a contiguous pointer was looked for: to it, or through resolved pointers. *)
Lemma write_linear_spec e e1 a bytes rv : cpu_ready e -> same_cpu e e1 -> in_word 64 a -> bytes_ok bytes -> 0 < size_of bytes <= 64 ->
  match first_fault e a (size_of bytes) MM_PROT_WRITE with
  | None => stored e (hosts_of e a (size_of bytes)) (le_combine bytes) (final (cpu_write_linear_bytes a bytes rv) e1)
  | Some (ad, v) => faults e v ad MM_PROT_WRITE (final (cpu_write_linear_bytes a bytes rv) e1)
  end.
Proof.
  intros Hr Hs1 Ha Hok Hn. pose proof (same_cpu_ready _ _ Hs1 Hr) as Hr1. pose proof Hr1 as (Hm & Hq & Hx). set (n := size_of bytes) in *.
  pose proof (try_contiguous_spec e1 a n MM_PROT_WRITE rv Hr1 Ha ltac:(lia)) as Htry. rewrite (first_fault_same_cpu _ _ _ _ _ Hs1) in Htry.
  destruct (cpu_try_get_contiguous_ptr a n MM_PROT_WRITE rv e1) as [p e2] eqn:Ep.
  assert (Hrun : final (cpu_write_linear_bytes a bytes rv) e1 =
    final (if negb (p =? NULL) then cpu_commit_linear_write_bytes bytes (pointers_at p n)
     else if cpu_has_exception (en_context e2) then st_ret tt
     else let* byte_ptrs := resolve_pointers (offsets_from 0 n) a MM_PROT_WRITE a n rv in
          match byte_ptrs with None => st_ret tt | Some byte_ptrs => cpu_commit_linear_write_bytes bytes byte_ptrs end) e2).
  { unfold cpu_write_linear_bytes, final. fold n. cbv zeta. rewrite (bind_run _ _ _ _ _ (buffer_accepted 64 n e1 Hx Hn)), (bind_run _ _ _ _ _ Ep).
    destruct (negb (p =? NULL)); [unfold st_bind; by destruct (cpu_commit_linear_write_bytes _ _ e2) |].
    rewrite (bind_run (get_ctx cpu_has_exception) _ e2 _ e2 eq_refl). destruct (cpu_has_exception (en_context e2)); [done |].
    unfold st_bind. destruct (resolve_pointers _ _ _ _ _ _ e2) as [[ptrs |] e3]; [| done]. by destruct (cpu_commit_linear_write_bytes _ _ e3). }
  rewrite Hrun. clear Hrun. destruct Htry as [[Hs Hl] | (-> & ad & v & Hff & Hf)].
  - pose proof (same_cpu_trans _ _ _ Hs1 Hs) as Hs2. destruct (Z.eqb_spec p NULL) as [-> | Hp]; cbn [negb].
    + assert (Hx2 : cpu_has_exception (en_context e2) = false) by (by rewrite (same_cpu_context _ _ Hs)). rewrite Hx2.
      pose proof (resolve_pointers_spec e a MM_PROT_WRITE a n rv (offsets_from 0 n) e2 Hr Hs2) as Hb. fold (first_fault e a n MM_PROT_WRITE) in Hb. unfold final.
      destruct (first_fault e a n MM_PROT_WRITE) as [[ad v] |]; destruct Hb as (e' & He & Hb); rewrite (bind_run _ _ _ _ _ Hb); [done |].
      exact (commit_spec e e' a bytes He Hok).
    + destruct (Hl Hp) as [Hline Hw]. pose proof (line_pointers e1 a MM_PROT_WRITE p n Hline) as Hps. rewrite (same_cpu_hosts _ _ _ _ Hs1) in Hps.
      assert (Hff : first_fault e a n MM_PROT_WRITE = None) by (rewrite <- (first_fault_same_cpu _ _ _ _ _ Hs1); unfold first_fault; rewrite offsets_0; apply Hline).
      rewrite Hff, Hps. exact (commit_spec e e2 a bytes Hs2 Hok).
  - rewrite Hff. change (negb (NULL =? NULL)) with false. cbn iota. pose proof (faults_trans _ _ _ _ _ _ Hs1 Hf) as Hf2.
    by rewrite (first_fault_pending _ _ _ _ _ _ _ Hff Hf2).
Qed.

Lemma notify_qword_quiet t a bytes e : quiet e -> cpu_notify_qword_memory_hooks t a bytes e = (tt, e).
Proof. intros Hq. unfold cpu_notify_qword_memory_hooks, st_bind, st_gets. by rewrite Hq. Qed.

Lemma read_wide_spec e a n : cpu_ready e -> in_word 64 a -> 0 < n <= 64 ->
  match first_fault e a n MM_PROT_READ with
  | None => exists e', same_cpu e e' /\ read_wide n a e = (Some (guest_bytes e a n), e')
  | Some (ad, v) => exists e', faults e v ad MM_PROT_READ e' /\ read_wide n a e = (None, e')
  end.
Proof.
  intros Hr Ha Hn. pose proof (read_linear_spec 64 e a n Hr Ha Hn ltac:(lia)) as Hread. unfold read_wide, cpu_read_linear_bytes.
  destruct (first_fault e a n MM_PROT_READ) as [[ad v] |]; destruct Hread as (e' & He & Hrun); rewrite (bind_run _ _ _ _ _ Hrun); exists e'; (split; [done |]); [done |].
  by rewrite (bind_run _ _ _ _ _ (notify_qword_quiet _ _ _ _ (quiet_same _ _ He (proj1 (proj2 Hr))))).
Qed.

Lemma write_wide_spec e a bytes rv : cpu_ready e -> in_word 64 a -> bytes_ok bytes -> 0 < size_of bytes <= 64 ->
  match first_fault e a (size_of bytes) MM_PROT_WRITE with
  | None => stored e (hosts_of e a (size_of bytes)) (le_combine bytes) (final (write_wide a bytes rv) e)
  | Some (ad, v) => faults e v ad MM_PROT_WRITE (final (write_wide a bytes rv) e)
  end.
Proof.
  intros Hr Ha Hok Hn. pose proof Hr as (Hm & Hq & Hx).
  pose proof (try_contiguous_spec e a (size_of bytes) MM_PROT_WRITE rv Hr Ha ltac:(lia)) as Htry.
  destruct (cpu_try_get_contiguous_ptr a (size_of bytes) MM_PROT_WRITE rv e) as [p e1] eqn:Ep. unfold final, write_wide.
  rewrite (bind_run (get_ctx cpu_has_exception) _ e _ e eq_refl), Hx, (bind_run _ _ _ _ _ Ep), (bind_run (get_ctx cpu_has_exception) _ e1 _ e1 eq_refl).
  destruct Htry as [[Hs Hl] | (-> & ad & v & Hff & Hf)].
  - assert (Hx1 : cpu_has_exception (en_context e1) = false) by (by rewrite (same_cpu_context _ _ Hs)). rewrite Hx1, andb_false_r.
    rewrite (bind_run _ _ _ _ _ (notify_qword_quiet _ a bytes _ (quiet_same _ _ Hs Hq))).
    destruct (Z.eqb_spec p NULL) as [-> | Hp]; cbn [negb].
    + pose proof (write_linear_spec e e1 a bytes rv Hr Hs Ha Hok Hn) as Hw. unfold final in Hw. unfold st_bind. by destruct (cpu_write_linear_bytes a bytes rv e1).
    + destruct (Hl Hp) as [Hline Hw]. rewrite (line_pointers e a MM_PROT_WRITE p _ Hline).
      assert (Hff : first_fault e a (size_of bytes) MM_PROT_WRITE = None) by (unfold first_fault; rewrite offsets_0; apply Hline).
      rewrite Hff. exact (commit_spec e e1 a bytes Hs Hok).
  - rewrite Hff. rewrite (first_fault_pending _ _ _ _ _ _ _ Hff Hf). change (NULL =? NULL) with true. exact Hf.
Qed.

(** *** XMM *)

Definition xmm_ok (v : XMMRegister) : Prop := in_word 64 (xmm_low v) /\ in_word 64 (xmm_high v).

(** The 128-bit number of a register, the 16 bytes at an address as a register. *)
Definition xmm_value (v : XMMRegister) : Z := xmm_low v + 2 ^ 64 * xmm_high v.
Definition guest_xmm (e : cpueaxh_engine) (a : Z) : XMMRegister := mkXmm (guest_value e a 8) (guest_value e (at_off a 8) 8).

Lemma bytes_of_xmm_props v : xmm_ok v -> bytes_ok (bytes_of_xmm v) /\ size_of (bytes_of_xmm v) = 16 /\ le_combine (bytes_of_xmm v) = xmm_value v.
Proof.
  intros [Hl Hh]. unfold bytes_of_xmm, size_of, cpu_store_u64_le. split_and!.
  - apply Forall_app. split; apply store_bytes_ok.
  - rewrite length_app, !store_bytes_length. done.
  - rewrite le_combine_app, !store_bytes_value, store_bytes_length. unfold xmm_value. rewrite !wrap_small by done. done.
Qed.

Lemma guest_bytes_split e a : guest_bytes e a 16 = guest_bytes e a 8 ++ guest_bytes e (at_off a 8) 8.
Proof.
  unfold guest_bytes. change (offsets_from 0 16) with (offsets_from 0 8 ++ map (Z.add 8) (offsets_from 0 8)).
  rewrite map_app, map_map. f_equal. apply map_ext. intros o. f_equal. unfold at_off. rewrite wrap_add_l by lia. f_equal. lia.
Qed.

Lemma guest_bytes_length e a n : length (guest_bytes e a n) = Z.to_nat n.
Proof. unfold guest_bytes. rewrite length_map. apply offsets_length. Qed.

Lemma xmm_of_guest_bytes e a : bytes_ok (guest_bytes e a 16) -> xmm_of_bytes (guest_bytes e a 16) = guest_xmm e a.
Proof.
  rewrite guest_bytes_split. intros Hok. apply Forall_app in Hok as [H1 H2]. unfold xmm_of_bytes, cpu_load_u64_le, guest_xmm.
  pose proof (guest_bytes_length e a 8) as L1. pose proof (guest_bytes_length e (at_off a 8) 8) as L2. change (Z.to_nat 8) with 8%nat in *.
  rewrite take_app_length', drop_app_length' by done. rewrite take_ge by lia.
  f_equal; rewrite load_bytes_value by done; done.
Qed.

Lemma read_xmm_spec e a : cpu_ready e -> in_word 64 a ->
  match first_fault e a 16 MM_PROT_READ with
  | None => exists e', same_cpu e e' /\ read_xmm_memory a e = (guest_xmm e a, e')
  | Some (ad, v) => exists e', faults e v ad MM_PROT_READ e' /\ read_xmm_memory a e = (zero_xmm, e')
  end.
Proof.
  intros Hr Ha. pose proof (read_wide_spec e a 16 Hr Ha ltac:(lia)) as Hread. unfold read_xmm_memory.
  destruct (first_fault e a 16 MM_PROT_READ) as [[ad v] |] eqn:Hf; destruct Hread as (e' & He & Hrun); rewrite (bind_run _ _ _ _ _ Hrun); exists e'; (split; [done |]); [done |].
  unfold st_ret. rewrite xmm_of_guest_bytes; [done |]. by apply (guest_bytes_range e a 16 MM_PROT_READ (proj1 Hr)).
Qed.

Lemma write_xmm_spec e a v : cpu_ready e -> in_word 64 a -> xmm_ok v ->
  match first_fault e a 16 MM_PROT_WRITE with
  | None => stored e (hosts_of e a 16) (xmm_value v) (final (write_xmm_memory a v) e)
  | Some (ad, vd) => faults e vd ad MM_PROT_WRITE (final (write_xmm_memory a v) e)
  end.
Proof.
  intros Hr Ha Hv. destruct (bytes_of_xmm_props v Hv) as (Hok & Hlen & Hval).
  pose proof (write_wide_spec e a (bytes_of_xmm v) (xmm_low v) Hr Ha Hok) as Hw. rewrite Hlen, Hval in Hw. apply Hw. lia.
Qed.

End wide.

(** ** Masked stores *)

Lemma overwrite_elsewhere hosts : forall value h b, h ∉ hosts -> overwrite hosts value h b = b.
Proof.
  induction hosts as [| host hosts IH]; intros value h b Hh; [done |]. cbn [overwrite].
  apply not_elem_of_cons in Hh as [Hne Hh]. destruct (Z.eqb_spec h host); [done |]. by apply IH.
Qed.

(** A value whose host bytes a store does not touch. *)
Lemma stored_elsewhere e hosts v e' a n :
  stored e hosts v e' -> hosts_of e a n ## hosts -> guest_value e' a n = guest_value e a n.
Proof.
  intros (m & -> & _ & _ & _ & Hv) Hd. unfold guest_value. f_equal. apply map_ext_in. intros o Ho%list_elem_of_In.
  unfold guest_byte. cbn [en_mem set_en_mem]. rewrite Hv. destruct (access_view (en_mem e) (at_off a o)) as [[[b p] t] |]; [| done].
  rewrite overwrite_elsewhere; [done |]. intros Hin. apply (Hd (host_address (en_mem e) (at_off a o))); [| done].
  unfold hosts_of. apply list_elem_of_fmap. by exists o.
Qed.

Lemma stored_hosts e hosts v e' a n : stored e hosts v e' -> hosts_of e' a n = hosts_of e a n.
Proof. intros Hs. unfold hosts_of. apply map_ext. intros o. by apply (stored_host e hosts v). Qed.

Section masked.
Context `{Callbacks}.

(** [avx_write_masked_dwords] and [avx_write_masked_qwords] (avx_vex_ops.hpp): lanes of 4 or 8 bytes,
    each with its mask bit. *)
Fixpoint notify_masked (elements : list (bool * Z)) (address element_size : Z) : ST cpueaxh_engine unit :=
  match elements with
  | [] => st_ret tt
  | (selected, value) :: elements =>
      (if selected then cpu_notify_memory_hook CPUEAXH_HOOK_MEM_WRITE address element_size value else st_ret tt) ;;;
      notify_masked elements (u64 (address + element_size)) element_size
  end.
Definition write_masked (element_size : Z) (address : Z) (elements : list (bool * Z)) : ST cpueaxh_engine unit :=
  let bytes := flat_map (fun element => store_bytes_le (Z.to_nat element_size) (snd element)) elements in
  let* byte_ptrs := cpu_resolve_masked_write_element_ptrs address elements element_size in
  match byte_ptrs with
  | None => st_ret tt
  | Some byte_ptrs =>
      let* has := st_gets (fun e => cpu_has_hook_type e CPUEAXH_HOOK_MEM_WRITE) in
      (if has then notify_masked elements address element_size else st_ret tt) ;;;
      cpu_commit_masked_write_elements bytes elements (Z.to_nat element_size) byte_ptrs
  end.
Definition avx_write_masked_dwords := write_masked 4.
Definition avx_write_masked_qwords := write_masked 8.

(** The offsets and the bytes of the selected elements, from offset [k] on. *)
Fixpoint selected_offsets (elements : list (bool * Z)) (k size : Z) : list Z :=
  match elements with
  | [] => []
  | (selected, _) :: elements => (if (selected : bool) then map (Z.add k) (offsets_from 0 size) else []) ++ selected_offsets elements (k + size) size
  end.
Definition selected_bytes (size : nat) (elements : list (bool * Z)) : list Z :=
  flat_map (fun element => if (fst element : bool) then store_bytes_le size (snd element) else []) elements.
Definition selected_hosts (e : cpueaxh_engine) (a : Z) (elements : list (bool * Z)) (size : Z) : list Z :=
  map (fun o => host_address (en_mem e) (at_off a o)) (selected_offsets elements 0 size).

Lemma at_off_at_off a i j : at_off (at_off a i) j = at_off a (i + j).
Proof. unfold at_off. rewrite wrap_add_l by lia. f_equal. lia. Qed.

Lemma first_fault_shift e k offsets a acc :
  first_fault_in e (map (Z.add k) offsets) a acc = first_fault_in e offsets (at_off a k) acc.
Proof.
  induction offsets as [| o offsets IH]; [done |]. cbn [map first_fault_in]. by rewrite at_off_at_off, IH.
Qed.

(** One list of pointers for each element, empty where it is not selected. *)
Fixpoint pointers_fit (elements : list (bool * Z)) (size : nat) (ptrs : list (list Z)) : Prop :=
  match elements, ptrs with
  | [], [] => True
  | (selected, _) :: elements, p :: ptrs => length p = (if (selected : bool) then size else 0)%nat /\ pointers_fit elements size ptrs
  | _, _ => False
  end.

Lemma masked_pointers_spec e a size elements : 0 <= size -> forall k e1, cpu_ready e -> same_cpu e e1 ->
  match first_fault_in e (selected_offsets elements k size) a MM_PROT_WRITE with
  | None => exists ptrs e', same_cpu e e' /\ masked_pointers elements (at_off a k) size e1 = (Some ptrs, e') /\
      concat ptrs = map (fun o => host_address (en_mem e) (at_off a o)) (selected_offsets elements k size) /\ pointers_fit elements (Z.to_nat size) ptrs
  | Some (ad, v) => exists e', faults e v ad MM_PROT_WRITE e' /\ masked_pointers elements (at_off a k) size e1 = (None, e')
  end.
Proof.
  intros Hsize. induction elements as [| [selected rv] elements IH]; intros k e1 Hr Hs; cbn [selected_offsets first_fault_in masked_pointers].
  { exists [], e1. by split_and!. }
  assert (Hnext : u64 (at_off a k + size) = at_off a (k + size)) by exact (at_off_at_off a k size).
  assert (Hone : match first_fault_in e (if selected then map (Z.add k) (offsets_from 0 size) else []) a MM_PROT_WRITE with
    | None => exists e', same_cpu e e' /\
        (if selected then resolve_pointers (offsets_from 0 size) (at_off a k) MM_PROT_WRITE (at_off a k) size rv else st_ret (Some [])) e1 =
        (Some (map (fun o => host_address (en_mem e) (at_off a o)) (if selected then map (Z.add k) (offsets_from 0 size) else [])), e')
    | Some (ad, v) => exists e', faults e v ad MM_PROT_WRITE e' /\
        (if selected then resolve_pointers (offsets_from 0 size) (at_off a k) MM_PROT_WRITE (at_off a k) size rv else st_ret (Some [])) e1 = (None, e')
    end).
  { destruct selected; [| by exists e1].
    pose proof (resolve_pointers_spec e (at_off a k) MM_PROT_WRITE (at_off a k) size rv (offsets_from 0 size) e1 Hr Hs) as Hp.
    rewrite <- first_fault_shift in Hp. destruct (first_fault_in e (map _ _) a MM_PROT_WRITE) as [[ad v] |]; [exact Hp |].
    destruct Hp as (e' & He & Hrun). exists e'. split; [done |]. rewrite Hrun, map_map. do 2 f_equal. apply map_ext. intros o. by rewrite at_off_at_off. }
  rewrite first_fault_app. set (these := if selected then map (Z.add k) (offsets_from 0 size) else []) in *.
  destruct (first_fault_in e these a MM_PROT_WRITE) as [[ad v] |].
  { destruct Hone as (e' & Hf & Hrun). exists e'. split; [done |]. by rewrite (bind_run _ _ _ _ _ Hrun). }
  destruct Hone as (e2 & Hs2 & Hrun). rewrite (bind_run _ _ _ _ _ Hrun). specialize (IH (k + size) e2 Hr Hs2). rewrite Hnext.
  destruct (first_fault_in e (selected_offsets elements (k + size) size) a MM_PROT_WRITE) as [[ad v] |].
  - destruct IH as (e' & Hf & Hrest). exists e'. split; [done |]. by rewrite (bind_run _ _ _ _ _ Hrest).
  - destruct IH as (ptrs & e' & He & Hrest & Hcat & Hfit). rewrite (bind_run _ _ _ _ _ Hrest). exists (map (fun o => host_address (en_mem e) (at_off a o)) these :: ptrs), e'.
    split; [done |]. split; [done |]. split; [cbn [concat]; by rewrite Hcat, map_app |]. cbn [pointers_fit]. split; [| done].
    rewrite length_map. unfold these. destruct selected; [by rewrite length_map, offsets_length | done].
Qed.

Lemma commit_app b1 : forall p1 b2 p2 e, length p1 = length b1 ->
  cpu_commit_linear_write_bytes (b1 ++ b2) (p1 ++ p2) e = (cpu_commit_linear_write_bytes b1 p1 ;;; cpu_commit_linear_write_bytes b2 p2) e.
Proof.
  induction b1 as [| b b1 IH]; intros [| p p1] b2 p2 e Hlen; try done. injection Hlen as Hlen. cbn [app cpu_commit_linear_write_bytes].
  unfold st_bind. destruct (store_host p b e) as [u e1]. rewrite (IH p1 b2 p2 e1 Hlen). reflexivity.
Qed.

Lemma masked_commit elements size : forall ptrs e, pointers_fit elements size ptrs ->
  cpu_commit_masked_write_elements (flat_map (fun element => store_bytes_le size (snd element)) elements) elements size ptrs e =
  cpu_commit_linear_write_bytes (selected_bytes size elements) (concat ptrs) e.
Proof.
  induction elements as [| [selected value] elements IH]; intros [| p ptrs] e Hfit; try done. destruct Hfit as [Hlen Hfit].
  cbn [flat_map cpu_commit_masked_write_elements concat snd fst selected_bytes]. fold (selected_bytes size elements).
  pose proof (store_bytes_length size value) as Hn. rewrite take_app_length', drop_app_length' by done. destruct selected.
  - rewrite commit_app by (by rewrite Hlen). unfold st_bind. destruct (cpu_commit_linear_write_bytes _ p e) as [u e1]. by apply IH.
  - destruct p; [| done]. unfold st_bind, st_ret. cbn [app]. by apply IH.
Qed.

Lemma selected_bytes_ok size elements : bytes_ok (selected_bytes size elements).
Proof.
  induction elements as [| [selected value] elements IH]; [by apply Forall_nil |]. cbn [selected_bytes flat_map fst snd]. apply Forall_app. split; [| exact IH].
  destruct selected; [apply store_bytes_ok | by apply Forall_nil].
Qed.

Lemma selected_length size elements : forall k, 0 <= size -> length (selected_bytes (Z.to_nat size) elements) = length (selected_offsets elements k size).
Proof.
  induction elements as [| [selected value] elements IH]; intros k Hs; [done |]. cbn [selected_bytes flat_map selected_offsets fst snd].
  rewrite !length_app. f_equal; [| by apply IH]. destruct selected; [by rewrite store_bytes_length, length_map, offsets_length | done].
Qed.

(** C10: a masked vector store is all or nothing and touches the selected lanes only.  For up to 64
    bytes of lanes: when a byte of a selected lane cannot be written, the first such byte's fault is
    pending and nothing is stored; otherwise exactly the bytes of the selected lanes are stored.
    Bytes of the other lanes need not be writable, or even mapped, and every value in memory that
    shares no byte with a selected lane is as before. *)
Theorem masked_store_correct e a size elements :
  cpu_ready e -> in_word 64 a -> 0 < size -> elements <> [] -> Z.of_nat (length elements) * size <= 64 ->
  let e' := final (write_masked size a elements) e in
  match first_fault_in e (selected_offsets elements 0 size) a MM_PROT_WRITE with
  | Some (ad, v) => faults e v ad MM_PROT_WRITE e'
  | None =>
      stored e (selected_hosts e a elements size) (le_combine (selected_bytes (Z.to_nat size) elements)) e' /\
      forall b n, hosts_of e b n ## selected_hosts e a elements size -> guest_value e' b n = guest_value e b n
  end.
Proof.
  intros Hr Ha Hsize Hne Hcount. cbv zeta. pose proof Hr as (Hm & Hq & Hx).
  pose proof (masked_pointers_spec e a size elements ltac:(lia) 0 e Hr (same_cpu_refl e Hm)) as Hp. rewrite at_off_0 in Hp by done.
  assert (Hgo : cpu_resolve_masked_write_element_ptrs a elements size e = masked_pointers elements a size e).
  { unfold cpu_resolve_masked_write_element_ptrs. cbv zeta. rewrite (bind_run (get_ctx cpu_has_exception) _ e _ e eq_refl), Hx.
    assert (Hlen : Z.of_nat (length elements) <> 0) by (destruct elements; [done | discriminate]). replace (Z.of_nat (length elements) =? 0) with false by lia.
    replace (size =? 0) with false by lia. by replace (64 <? Z.of_nat (length elements) * size) with false by lia. }
  unfold final, write_masked. cbv zeta.
  destruct (first_fault_in e (selected_offsets elements 0 size) a MM_PROT_WRITE) as [[ad v] |].
  - destruct Hp as (e1 & Hf & Hrun). rewrite Hrun in Hgo. by rewrite (bind_run _ _ _ _ _ Hgo).
  - destruct Hp as (ptrs & e1 & Hs & Hrun & Hcat & Hfit). rewrite Hrun in Hgo. rewrite (bind_run _ _ _ _ _ Hgo).
    assert (Hquiet : cpu_has_hook_type e1 CPUEAXH_HOOK_MEM_WRITE = false) by apply (quiet_same _ _ Hs Hq).
    rewrite (bind_run (st_gets _) _ e1 _ e1 eq_refl), Hquiet. rewrite (bind_run (st_ret tt) _ e1 tt e1 eq_refl), masked_commit by done.
    rewrite Hcat, commit_is_store; [| by rewrite length_map, (selected_length size elements 0) by lia | apply selected_bytes_ok].
    assert (Hst : stored e (selected_hosts e a elements size) (le_combine (selected_bytes (Z.to_nat size) elements))
      (final (store_le (selected_hosts e a elements size) (le_combine (selected_bytes (Z.to_nat size) elements))) e1)).
    { apply (same_cpu_stored _ e1); [done |]. apply store_le_spec. by destruct Hs as (m & -> & _ & ?). }
    split; [exact Hst |]. intros b n Hd. exact (stored_elsewhere _ _ _ _ _ _ Hst Hd).
Qed.

(** A wide read or write is all or nothing.  For an XMM register's 16 bytes: a read returns the
    register memory spells, or zero with the first unreadable byte's fault pending; a write stores
    all 16 bytes or leaves the fault of the first byte that cannot be written and changes nothing;
    what was written is read back where the bytes do not share host bytes. *)
Theorem xmm_memory_round_trip e a v :
  cpu_ready e -> in_word 64 a -> xmm_ok v ->
  match first_fault e a 16 MM_PROT_READ with
  | None => exists e', same_cpu e e' /\ read_xmm_memory a e = (guest_xmm e a, e')
  | Some (ad, vd) => exists e', faults e vd ad MM_PROT_READ e' /\ read_xmm_memory a e = (zero_xmm, e')
  end /\
  let e' := final (write_xmm_memory a v) e in
  match first_fault e a 16 MM_PROT_WRITE with
  | Some (ad, vd) => faults e vd ad MM_PROT_WRITE e'
  | None =>
      stored e (hosts_of e a 16) (xmm_value v) e' /\
      (NoDup (hosts_of e a 16) -> first_fault e a 16 MM_PROT_READ = None -> result (read_xmm_memory a) e' = v)
  end.
Proof.
  intros Hr Ha Hv. split; [by apply read_xmm_spec |]. cbv zeta. pose proof (write_xmm_spec e a v Hr Ha Hv) as Hw.
  destruct (first_fault e a 16 MM_PROT_WRITE) as [[ad vd] |] eqn:Ef; [exact Hw |]. split; [exact Hw |]. intros Hnd Hrd.
  set (e' := final _ e) in *. pose proof (read_xmm_spec e' a (stored_ready _ _ _ _ Hw Hr) Ha) as Hread.
  rewrite (stored_first_fault _ _ _ _ _ _ _ Hw), Hrd in Hread. destruct Hread as (e2 & _ & Hrun). unfold result. rewrite Hrun. cbn [fst].
  pose proof (stored_value _ _ _ _ _ _ Hw Ef Hnd ltac:(lia)) as Hval. rewrite guest_bytes_value, guest_bytes_split, le_combine_app, guest_bytes_length in Hval.
  rewrite <- !guest_bytes_value in Hval. change (256 ^ Z.of_nat (Z.to_nat 8)) with (2 ^ 64) in Hval. destruct Hv as [Hlo Hhi]. unfold xmm_value in Hval.
  assert (Hm' : manager_wf (en_mem e')) by (destruct Hw as (m & -> & ? & _); done).
  assert (Hword : forall b, in_word 64 b -> first_fault e' b 8 MM_PROT_READ = None -> in_word 64 (guest_value e' b 8)).
  { intros b Hb Hf. pose proof (guest_value_wrap e' b 64 MM_PROT_READ Hm' ltac:(by right; right; right) Hf) as Hgw. change (64 / 8) with 8 in Hgw. rewrite <- Hgw. by apply wrap_range. }
  assert (H16 : first_fault e' a 16 MM_PROT_READ = None) by (by rewrite (stored_first_fault _ _ _ _ _ _ _ Hw)).
  unfold first_fault in H16. change (offsets_from 0 16) with (offsets_from 0 8 ++ map (Z.add 8) (offsets_from 0 8)) in H16.
  rewrite first_fault_app in H16. destruct (first_fault_in e' (offsets_from 0 8) a MM_PROT_READ) as [? |] eqn:E1; [done |]. rewrite first_fault_shift in H16.
  pose proof (Hword a Ha E1) as W1. pose proof (Hword (at_off a 8) (at_off_word a 8) H16) as W2.
  rewrite wrap_small in Hval by (unfold in_word in *; change (2 ^ (8 * 16)) with (2 ^ 64 * 2 ^ 64); nia).
  unfold guest_xmm. destruct v as [lo hi]. cbn [xmm_low xmm_high] in *. unfold in_word in *. f_equal; nia.
Qed.

End masked.

(** ** Across a page, and up to the end of the mapped ones *)

Module WideExample.
Import Bump EngineExample MemoryExample.

Definition pattern : XMMRegister := mkXmm 0x1122334455667788 0x99AABBCCDDEEFF00.

Lemma pattern_ok : xmm_ok pattern.
Proof. split; zcompute. Qed.

Lemma xmm_memory_round_trip_witness :
  result (read_xmm_memory 0x1FF8) (final (write_xmm_memory 0x1FF8 pattern) machine) = pattern /\
  cpu_has_exception (en_context (final (write_xmm_memory 0x3FF8 pattern) machine)) = true.
Proof.
  assert (H1 : in_word 64 0x1FF8) by zcompute. assert (H2 : in_word 64 0x3FF8) by zcompute.
  assert (Hw : first_fault machine 0x1FF8 16 MM_PROT_WRITE = None) by (vm_compute; reflexivity).
  assert (Hr : first_fault machine 0x1FF8 16 MM_PROT_READ = None) by (vm_compute; reflexivity).
  assert (Hf : first_fault machine 0x3FF8 16 MM_PROT_WRITE = Some (0x4000, V_UNMAPPED)) by (vm_compute; reflexivity).
  assert (Hnd : NoDup (hosts_of machine 0x1FF8 16)) by (apply (bool_decide_unpack _); vm_compute; exact I).
  split.
  - destruct (xmm_memory_round_trip machine 0x1FF8 pattern machine_ready H1 pattern_ok) as [_ H]. cbv zeta in H. rewrite Hw in H. exact (proj2 H Hnd Hr).
  - destruct (xmm_memory_round_trip machine 0x3FF8 pattern machine_ready H2 pattern_ok) as [_ H]. cbv zeta in H. rewrite Hf in H.
    exact (first_fault_pending _ _ _ _ _ _ _ Hf H).
Defined.

(** Four lanes at 0x3FF8, the upper two behind the last page and not selected. *)
Definition lanes : list (bool * Z) := [(true, 0x11111111); (true, 0x22222222); (false, 0x33333333); (false, 0x44444444)].

Lemma masked_store_correct_witness :
  stored machine (selected_hosts machine 0x3FF8 lanes 4) 0x2222222211111111 (final (avx_write_masked_dwords 0x3FF8 lanes) machine) /\
  guest_value (final (avx_write_masked_dwords 0x3FF8 lanes) machine) 0x3FF0 8 = guest_value machine 0x3FF0 8.
Proof.
  assert (Ha : in_word 64 0x3FF8) by zcompute. assert (Hsize : 0 < 4) by reflexivity. assert (Hne : lanes <> []) by discriminate.
  assert (Hc : Z.of_nat (length lanes) * 4 <= 64) by discriminate.
  assert (Hf : first_fault_in machine (selected_offsets lanes 0 4) 0x3FF8 MM_PROT_WRITE = None) by (vm_compute; reflexivity).
  assert (Hv : le_combine (selected_bytes (Z.to_nat 4) lanes) = 0x2222222211111111) by (vm_compute; reflexivity).
  assert (Hd : hosts_of machine 0x3FF0 8 ## selected_hosts machine 0x3FF8 lanes 4).
  { assert (Ht : forallb (fun x => negb (existsb (Z.eqb x) (selected_hosts machine 0x3FF8 lanes 4))) (hosts_of machine 0x3FF0 8) = true) by (vm_compute; reflexivity).
    intros x Hx Hy. rewrite forallb_forall in Ht. apply list_elem_of_In in Hx. specialize (Ht x Hx). apply negb_true_iff, not_true_iff_false in Ht.
    apply Ht, existsb_exists. exists x. split; [by apply list_elem_of_In | apply Z.eqb_refl]. }
  pose proof (masked_store_correct machine 0x3FF8 4 lanes machine_ready Ha Hsize Hne Hc) as H. cbv zeta in H. rewrite Hf, Hv in H.
  split; [exact (proj1 H) | exact (proj2 H _ _ Hd)].
Defined.

End WideExample.
