(* ===== verification/Stack.v ===== *)
(** * cpu/helper.hpp: the stack

    Pushes and pops at the three stack address sizes, the two-slot push of CALL FAR, ENTER and the
    like, which resolves every byte before it stores any, and the look at several stack slots that
    RET FAR and IRET take before they commit.  The theorems: a push stores below the stack pointer
    and moves it, or faults and moves nothing; a pop undoes a push exactly; the two-slot push is the
    two pushes or nothing; a look at the stack is the values it would pop. *)

From Stdlib Require Import ZArith Bool List Lia.
From stdpp Require Import base tactics list gmap.
From S2P Require Import Prelude CpuDef HostMemory RegionTable RegionSplit Patches PageCache InstCache Machine CpuMemory Registers.

Definition get_stack_addr_size := cpu_stack_address_size.

(** ** The stack pointer at its address size *)

Definition cpu_get_stack_pointer_value (stack_addr_size : Z) (ctx : CPU_CONTEXT) : Z :=
  if stack_addr_size =? 64 then reg_at ctx REG_RSP
  else if stack_addr_size =? 32 then u32 (Z.land (reg_at ctx REG_RSP) 0xFFFFFFFF)
  else u16 (Z.land (reg_at ctx REG_RSP) 0xFFFF).

Definition cpu_stack_pointer_add (stack_addr_size value delta : Z) : Z :=
  if stack_addr_size =? 64 then u64 (value + delta)
  else if stack_addr_size =? 32 then u32 (u32 value + u32 delta)
  else u16 (u16 value + u16 delta).

Definition cpu_set_stack_pointer_value (stack_addr_size value : Z) (ctx : CPU_CONTEXT) : CPU_CONTEXT :=
  if stack_addr_size =? 64 then set_reg_at REG_RSP value ctx
  else if stack_addr_size =? 32
       then set_reg_at REG_RSP (Z.lor (Z.ldiff (reg_at ctx REG_RSP) 0xFFFFFFFF) (u32 value)) ctx
  else set_reg_at REG_RSP (Z.lor (Z.ldiff (reg_at ctx REG_RSP) 0xFFFF) (u16 value)) ctx.

(** [new_rsp], [esp] or [sp] after [-= size]. *)
Definition stack_pointer_sub (stack_addr_size value size : Z) : Z :=
  if stack_addr_size =? 64 then u64 (value - size)
  else if stack_addr_size =? 32 then u32 (value - size)
  else u16 (value - size).

Section stack.
Context `{Callbacks}.

(** [push_value16], [push_value32] and [push_value64] are this at 2, 4 and 8 bytes, the last
    except with a 16-bit stack. *)
Definition push_value (size value : Z) : ST cpueaxh_engine unit :=
  let* pending := get_ctx cpu_has_exception in
  if pending then st_ret tt
  else
    let* stack_addr_size := get_ctx get_stack_addr_size in
    if (stack_addr_size =? 16) && (size =? 8) then mod_ctx (raise_gp_ctx 0)
    else
      let* sp := get_ctx (cpu_get_stack_pointer_value stack_addr_size) in
      let new_sp := stack_pointer_sub stack_addr_size sp size in
      write_memory_scalar size new_sp value ;;;
      let* faulted := get_ctx cpu_has_exception in
      if negb faulted then mod_ctx (cpu_set_stack_pointer_value stack_addr_size new_sp) else st_ret tt.

Definition push_value16 (value : Z) := push_value 2 (u16 value).
Definition push_value32 (value : Z) := push_value 4 (u32 value).
Definition push_value64 (value : Z) := push_value 8 value.

(** [pop_value16], [pop_value32] and [pop_value64], in the same way. *)
Definition pop_value (size : Z) : ST cpueaxh_engine Z :=
  let* stack_addr_size := get_ctx get_stack_addr_size in
  if (stack_addr_size =? 16) && (size =? 8) then mod_ctx (raise_gp_ctx 0) ;;; st_ret 0
  else
    let* sp := get_ctx (cpu_get_stack_pointer_value stack_addr_size) in
    let* value := read_memory_scalar size sp in
    let* faulted := get_ctx cpu_has_exception in
    if faulted then st_ret 0
    else mod_ctx (cpu_set_stack_pointer_value stack_addr_size (cpu_stack_pointer_add stack_addr_size sp size)) ;;; st_ret value.

Definition pop_value16 := pop_value 2.
Definition pop_value32 := pop_value 4.
Definition pop_value64 := pop_value 8.

(** ** Two slots at once *)

(** The pointers to the bytes of a slot, or [None] when one of them faults. *)
Definition cpu_resolve_stack_slot_write (address size value : Z) : ST cpueaxh_engine (option (list Z)) :=
  byte_pointers (offsets_from 0 size) address size value.

(** [cpu_store_stack_value_le] fills [bytes] with the low bytes of [value]; [*byte_ptrs[i] = bytes[i]]. *)
Definition cpu_commit_stack_slot_write (address size value : Z) (byte_ptrs : list Z) : ST cpueaxh_engine unit :=
  notify_if_hooked CPUEAXH_HOOK_MEM_WRITE address size value ;;; store_le byte_ptrs value.

Definition push_two_stack_values (first_value second_value value_size : Z) : ST cpueaxh_engine unit :=
  let* pending := get_ctx cpu_has_exception in
  if pending then st_ret tt
  else if negb (value_size =? 2) && negb (value_size =? 4) && negb (value_size =? 8) then mod_ctx (raise_gp_ctx 0)
  else
    let* stack_addr_size := get_ctx get_stack_addr_size in
    if (stack_addr_size =? 16) && (value_size =? 8) then mod_ctx (raise_gp_ctx 0)
    else
      let* sp := get_ctx (cpu_get_stack_pointer_value stack_addr_size) in
      let first_address := stack_pointer_sub stack_addr_size sp value_size in
      let second_address := stack_pointer_sub stack_addr_size first_address value_size in
      let* first_ptrs := cpu_resolve_stack_slot_write first_address value_size first_value in
      match first_ptrs with
      | None => st_ret tt
      | Some first_ptrs =>
          let* second_ptrs := cpu_resolve_stack_slot_write second_address value_size second_value in
          match second_ptrs with
          | None => st_ret tt
          | Some second_ptrs =>
              cpu_commit_stack_slot_write first_address value_size first_value first_ptrs ;;;
              cpu_commit_stack_slot_write second_address value_size second_value second_ptrs ;;;
              mod_ctx (cpu_set_stack_pointer_value stack_addr_size second_address)
          end
      end.

(** ** Looking at the stack *)

(** [for (index = 0; index < count; ++index)]; [None] once a read faults. *)
Fixpoint peek_loop (indices : list Z) (stack_addr_size base_sp value_size : Z) : ST cpueaxh_engine (option (list Z)) :=
  match indices with
  | [] => st_ret (Some [])
  | index :: indices =>
      let* value := read_memory_scalar value_size (cpu_stack_pointer_add stack_addr_size base_sp (index * value_size)) in
      let* faulted := get_ctx cpu_has_exception in
      if faulted then st_ret None
      else
        let* values := peek_loop indices stack_addr_size base_sp value_size in
        st_ret (option_map (cons value) values)
  end.

(** [values] and [*final_sp] on success. *)
Definition peek_stack_values (value_size count : Z) : ST cpueaxh_engine (option (list Z * Z)) :=
  let* pending := get_ctx cpu_has_exception in
  if pending then st_ret None
  else if negb (value_size =? 2) && negb (value_size =? 4) && negb (value_size =? 8)
       then mod_ctx (raise_gp_ctx 0) ;;; st_ret None
  else
    let* stack_addr_size := get_ctx get_stack_addr_size in
    if (stack_addr_size =? 16) && (value_size =? 8) then mod_ctx (raise_gp_ctx 0) ;;; st_ret None
    else
      let* base_sp := get_ctx (cpu_get_stack_pointer_value stack_addr_size) in
      let* values := peek_loop (offsets_from 0 count) stack_addr_size base_sp value_size in
      match values with
      | None => st_ret None
      | Some values => st_ret (Some (values, cpu_stack_pointer_add stack_addr_size base_sp (count * value_size)))
      end.

End stack.

(** ** Stack pointer arithmetic *)

Definition stack_size_ok (s : Z) : Prop := s = 16 \/ s = 32 \/ s = 64.

Lemma stack_addr_size_ok ctx : stack_size_ok (get_stack_addr_size ctx).
Proof.
  unfold get_stack_addr_size, cpu_stack_address_size, stack_size_ok.
  destruct (cpu_is_64bit_code ctx); [auto |]. destruct (sd_db _); auto.
Qed.

(** [old] with its low [s] bits replaced. *)
Definition with_low (s old v : Z) : Z := old / 2 ^ s * 2 ^ s + v.

Lemma lor_ldiff_ones s old v : 0 <= s -> in_word s v -> Z.lor (Z.ldiff old (Z.ones s)) v = with_low s old v.
Proof.
  intros Hs Hv. unfold with_low.
  rewrite Z.ldiff_ones_r by done. rewrite Z.shiftr_div_pow2, Z.shiftl_mul_pow2 by done.
  rewrite <- Z.lxor_lor, <- Z.add_nocarry_lxor; [done | |];
    (apply Z.bits_inj'; intros i Hi; rewrite Z.land_spec, Z.bits_0, <- Z.shiftl_mul_pow2 by done;
     rewrite Z.shiftl_spec by done; destruct (Z.ltb_spec i s);
     [by rewrite Z.testbit_neg_r by lia | by rewrite (testbit_high s v), andb_false_r by done]).
Qed.

Lemma wrap_with_low s old v : 0 <= s -> in_word s v -> wrap s (with_low s old v) = v.
Proof.
  intros Hs Hv. unfold wrap, with_low. pose proof (pow2_pos s Hs).
  rewrite Z.add_comm, Z_mod_plus_full. by apply Z.mod_small.
Qed.

Lemma with_low_twice s old v v' : 0 <= s -> in_word s v -> with_low s (with_low s old v) v' = with_low s old v'.
Proof.
  intros Hs Hv. unfold with_low at 1 3. f_equal. f_equal. unfold with_low. pose proof (pow2_pos s Hs).
  rewrite Z.div_add_l by lia. rewrite (Z.div_small v) by done. lia.
Qed.

Lemma with_low_self s old : 0 <= s -> with_low s old (wrap s old) = old.
Proof. intros Hs. unfold with_low, wrap. pose proof (pow2_pos s Hs). pose proof (Z.div_mod old (2 ^ s)). lia. Qed.

Lemma with_low_in_word s old v : stack_size_ok s -> in_word 64 old -> in_word s v -> in_word 64 (with_low s old v).
Proof.
  intros Hs Ho Hv. rewrite <- lor_ldiff_ones by (done || destruct Hs as [-> | [-> | ->]]; lia).
  apply lor_in_word; [lia | by apply ldiff_in_word |].
  destruct Hs as [-> | [-> | ->]]; unfold in_word in *; lia.
Qed.

Lemma get_sp_wrap s ctx : stack_size_ok s -> regs_wf ctx -> cpu_get_stack_pointer_value s ctx = wrap s (reg_at ctx REG_RSP).
Proof.
  intros Hs Hwf. unfold cpu_get_stack_pointer_value. destruct Hs as [-> | [-> | ->]]; cbn [Z.eqb Pos.eqb].
  - change 0xFFFF with (Z.ones 16). rewrite Z.land_ones by lia. apply (wrap_wrap 16). lia.
  - change 0xFFFFFFFF with (Z.ones 32). rewrite Z.land_ones by lia. apply (wrap_wrap 32). lia.
  - by apply u64_reg.
Qed.

Lemma sp_sub_wrap s v n : stack_size_ok s -> stack_pointer_sub s v n = wrap s (v - n).
Proof. by intros [-> | [-> | ->]]. Qed.

Lemma sp_add_wrap s v n : stack_size_ok s -> cpu_stack_pointer_add s v n = wrap s (v + n).
Proof.
  intros [-> | [-> | ->]]; unfold cpu_stack_pointer_add; cbn [Z.eqb Pos.eqb]; [| | done];
    by rewrite wrap_add_l, wrap_add_r by lia.
Qed.

Lemma set_sp_with_low s v ctx :
  stack_size_ok s -> regs_wf ctx -> in_word s v ->
  cpu_set_stack_pointer_value s v ctx = set_reg_at REG_RSP (with_low s (reg_at ctx REG_RSP) v) ctx.
Proof.
  intros Hs Hwf Hv. unfold cpu_set_stack_pointer_value. destruct Hs as [-> | [-> | ->]]; cbn [Z.eqb Pos.eqb].
  - change 0xFFFF with (Z.ones 16). by rewrite (wrap_small 16), lor_ldiff_ones by (done || lia).
  - change 0xFFFFFFFF with (Z.ones 32). by rewrite (wrap_small 32), lor_ldiff_ones by (done || lia).
  - unfold with_low. rewrite Z.div_small; [done |]. by apply reg_at_in_word.
Qed.

Lemma stack_word s v : stack_size_ok s -> in_word s v -> in_word 64 v.
Proof. intros [-> | [-> | ->]]; unfold in_word; lia. Qed.

Lemma set_c_regs_self ctx : set_c_regs (c_regs ctx) ctx = ctx.
Proof. by destruct ctx. Qed.

Lemma set_c_regs_twice r r' ctx : set_c_regs r (set_c_regs r' ctx) = set_c_regs r ctx.
Proof. by destruct ctx. Qed.

(** Moving the stack pointer away and back restores the context. *)
Lemma sp_restore s v ctx :
  stack_size_ok s -> regs_wf ctx -> in_word s v ->
  cpu_set_stack_pointer_value s (wrap s (reg_at ctx REG_RSP)) (cpu_set_stack_pointer_value s v ctx) = ctx.
Proof.
  intros Hs Hwf Hv. assert (H0 : 0 <= s) by (destruct Hs as [-> | [-> | ->]]; lia).
  assert (Hi : in_word 64 (with_low s (reg_at ctx REG_RSP) v)) by (apply with_low_in_word; try done; by apply reg_at_in_word).
  rewrite (set_sp_with_low s v ctx) by done.
  rewrite set_sp_with_low; [| done | by apply set_reg_at_wf | by apply wrap_range].
  rewrite reg_at_set_reg_at, Z.eqb_refl by (done || (split; [discriminate | reflexivity]) || discriminate).
  rewrite with_low_twice, with_low_self by done.
  unfold set_reg_at. rewrite set_c_regs_twice. cbn [c_regs set_c_regs].
  replace (arr_set (arr_set (c_regs ctx) REG_RSP (with_low s (reg_at ctx REG_RSP) v)) REG_RSP (reg_at ctx REG_RSP))
    with (c_regs ctx); [apply set_c_regs_self |].
  unfold arr_set. rewrite list_insert_insert_eq. symmetry. apply list_insert_id.
  unfold reg_at, arr_get. rewrite nth_lookup. destruct Hwf as [Hl _].
  destruct (lookup_lt_is_Some_2 (c_regs ctx) (Z.to_nat REG_RSP)) as [x Hx]; [rewrite Hl; unfold REG_RSP; lia |].
  by rewrite Hx.
Qed.

(** ** Single slots *)

Definition stack_size (e : cpueaxh_engine) : Z := get_stack_addr_size (en_context e).
Definition stack_top (e : cpueaxh_engine) : Z := wrap (stack_size e) (reg_at (en_context e) REG_RSP).

(** The address [k] bytes above the top of the stack, in the stack's address size. *)
Definition stack_at (e : cpueaxh_engine) (k : Z) : Z := wrap (stack_size e) (stack_top e + k).

Definition slot_ok (e : cpueaxh_engine) (n : Z) : Prop :=
  (n = 2 \/ n = 4 \/ n = 8) /\ ~ (stack_size e = 16 /\ n = 8).

(** The engine with the stack pointer moved to [stack_at e k]. *)
Definition with_sp (e : cpueaxh_engine) (k : Z) (e1 : cpueaxh_engine) : cpueaxh_engine :=
  set_en_context (cpu_set_stack_pointer_value (stack_size e) (stack_at e k) (en_context e)) e1.

Lemma stack_size_ok_e e : stack_size_ok (stack_size e).
Proof. apply stack_addr_size_ok. Qed.

Lemma stack_size_nonneg e : 0 <= stack_size e.
Proof. destruct (stack_size_ok_e e) as [-> | [-> | ->]]; lia. Qed.

Lemma stack_at_word e k : in_word (stack_size e) (stack_at e k).
Proof. apply wrap_range, stack_size_nonneg. Qed.

Lemma stack_at_word64 e k : in_word 64 (stack_at e k).
Proof. eapply stack_word; [apply stack_size_ok_e | apply stack_at_word]. Qed.

Lemma stack_at_0 e : stack_at e 0 = stack_top e.
Proof. unfold stack_at. rewrite Z.add_0_r. apply wrap_wrap, stack_size_nonneg. Qed.

Lemma stack_at_add e k j : wrap (stack_size e) (stack_at e k + j) = stack_at e (k + j).
Proof. unfold stack_at. rewrite wrap_add_l by apply stack_size_nonneg. f_equal. lia. Qed.

Lemma stack_at_sub e k j : wrap (stack_size e) (stack_at e k - j) = stack_at e (k - j).
Proof. unfold stack_at. rewrite wrap_sub_l by apply stack_size_nonneg. f_equal. lia. Qed.

Lemma slot_not_gp e n : slot_ok e n -> (stack_size e =? 16) && (n =? 8) = false.
Proof. intros [_ H]. destruct (Z.eqb_spec (stack_size e) 16), (Z.eqb_spec n 8); tauto. Qed.

Lemma slot_bounds e n : slot_ok e n -> 0 < n <= 4096.
Proof. intros [H _]. lia. Qed.

Lemma raise_exception_regs code ec ctx : c_regs (cpu_raise_exception code ec ctx) = c_regs ctx.
Proof. unfold cpu_raise_exception. by destruct (cpu_has_exception ctx). Qed.

Lemma faults_regs e v ad acc e' : faults e v ad acc e' -> c_regs (en_context e') = c_regs (en_context e).
Proof.
  intros (e1 & _ & ->). cbn [en_context set_en_context].
  destruct v; [done | apply raise_exception_regs | |]; exact (raise_exception_regs _ _ (set_c_control_regs _ _)).
Qed.

Lemma stored_context e hosts v e' : stored e hosts v e' -> en_context e' = en_context e.
Proof. by intros (m & -> & _). Qed.

Section slots.
Context `{Callbacks}.

Lemma push_spec e n v :
  cpu_ready e -> regs_wf (en_context e) -> slot_ok e n ->
  match first_fault e (stack_at e (- n)) n MM_PROT_WRITE with
  | None => exists e1, stored e (hosts_of e (stack_at e (- n)) n) v e1 /\ final (push_value n v) e = with_sp e (- n) e1
  | Some (ad, vd) => faults e vd ad MM_PROT_WRITE (final (push_value n v) e)
  end.
Proof.
  intros Hr Hwf Hn. pose proof (write_memory_scalar_spec e (stack_at e (- n)) n v Hr (stack_at_word64 _ _) (slot_bounds _ _ Hn)) as Hw.
  assert (Heq : final (push_value n v) e =
    (let e1 := final (write_memory_scalar n (stack_at e (- n)) v) e in
     if cpu_has_exception (en_context e1) then e1
     else set_en_context (cpu_set_stack_pointer_value (stack_size e) (stack_at e (- n)) (en_context e1)) e1)).
  { unfold push_value, final, st_bind, get_ctx, st_gets, mod_ctx, st_modify, st_ret. cbn [fst snd].
    destruct Hr as (_ & _ & ->). fold (stack_size e). rewrite slot_not_gp by done.
    rewrite get_sp_wrap, sp_sub_wrap by (done || apply stack_size_ok_e). fold (stack_top e).
    change (wrap (stack_size e) (stack_top e - n)) with (stack_at e (- n)).
    destruct (write_memory_scalar n (stack_at e (- n)) v e) as [u e1]. cbn [fst snd].
    by destruct (cpu_has_exception (en_context e1)). }
  rewrite Heq. cbv zeta. destruct (first_fault e (stack_at e (- n)) n MM_PROT_WRITE) as [[ad vd] |] eqn:Ef.
  - by rewrite (first_fault_pending _ _ _ _ _ _ _ Ef Hw).
  - pose proof (stored_context _ _ _ _ Hw) as Hc. rewrite Hc. destruct Hr as (_ & _ & ->). by eexists.
Qed.

Lemma pop_spec e n :
  cpu_ready e -> regs_wf (en_context e) -> slot_ok e n ->
  match first_fault e (stack_top e) n MM_PROT_READ with
  | None => exists e1, same_cpu e e1 /\ pop_value n e = (guest_value e (stack_top e) n, with_sp e n e1)
  | Some (ad, vd) => exists e1, faults e vd ad MM_PROT_READ e1 /\ pop_value n e = (0, e1)
  end.
Proof.
  intros Hr Hwf Hn. rewrite <- stack_at_0.
  pose proof (read_memory_scalar_spec e (stack_at e 0) n Hr (stack_at_word64 _ _) (slot_bounds _ _ Hn)) as Hw.
  assert (Heq : pop_value n e =
    (let '(v, e1) := read_memory_scalar n (stack_at e 0) e in
     if cpu_has_exception (en_context e1) then (0, e1)
     else (v, set_en_context (cpu_set_stack_pointer_value (stack_size e) (stack_at e n) (en_context e1)) e1))).
  { unfold pop_value, st_bind, get_ctx, st_gets, mod_ctx, st_modify, st_ret.
    fold (stack_size e). rewrite slot_not_gp by done.
    rewrite get_sp_wrap, sp_add_wrap by (done || apply stack_size_ok_e). fold (stack_top e).
    rewrite <- stack_at_0, (stack_at_add e 0 n), Z.add_0_l.
    destruct (read_memory_scalar n (stack_at e 0) e) as [u e1].
    by destruct (cpu_has_exception (en_context e1)). }
  rewrite Heq. destruct (first_fault e (stack_at e 0) n MM_PROT_READ) as [[ad vd] |] eqn:Ef; destruct Hw as (e1 & Hs & ->).
  - rewrite (first_fault_pending _ _ _ _ _ _ _ Ef Hs). by exists e1.
  - pose proof (same_cpu_context _ _ Hs) as Hc. rewrite Hc. destruct Hr as (_ & _ & ->). by eexists.
Qed.

(** ** Two slots *)

Lemma commit_slot_spec a n v ptrs e :
  quiet e -> cpu_commit_stack_slot_write a n v ptrs e = store_le ptrs v e.
Proof. intros Hq. unfold cpu_commit_stack_slot_write, st_bind. by rewrite notify_quiet. Qed.

Lemma resolve_slot_spec e e1 a n v :
  cpu_ready e -> same_cpu e e1 ->
  match first_fault e a n MM_PROT_WRITE with
  | None => exists e', same_cpu e e' /\ cpu_resolve_stack_slot_write a n v e1 = (Some (hosts_of e a n), e')
  | Some (ad, vd) => exists e', faults e vd ad MM_PROT_WRITE e' /\ cpu_resolve_stack_slot_write a n v e1 = (None, e')
  end.
Proof. intros Hr Hs. exact (byte_pointers_spec e a n v (offsets_from 0 n) e1 Hr Hs). Qed.

Lemma push_two_spec e n v1 v2 :
  cpu_ready e -> regs_wf (en_context e) -> slot_ok e n ->
  let a1 := stack_at e (- n) in let a2 := stack_at e (- n - n) in
  let e' := final (push_two_stack_values v1 v2 n) e in
  match first_fault e a1 n MM_PROT_WRITE with
  | Some (ad, vd) => faults e vd ad MM_PROT_WRITE e'
  | None =>
      match first_fault e a2 n MM_PROT_WRITE with
      | Some (ad, vd) => faults e vd ad MM_PROT_WRITE e'
      | None => exists e1 e2, stored e (hosts_of e a1 n) v1 e1 /\ stored e1 (hosts_of e a2 n) v2 e2 /\ e' = with_sp e (- n - n) e2
      end
  end.
Proof.
  intros Hr Hwf Hn. cbv zeta. unfold final, push_two_stack_values, st_bind, get_ctx, st_gets, mod_ctx, st_modify, st_ret.
  pose proof Hr as (_ & Hq & ->).
  replace (negb (n =? 2) && negb (n =? 4) && negb (n =? 8)) with false by (destruct Hn as [[-> | [-> | ->]] _]; done).
  cbn beta iota. fold (stack_size e). rewrite slot_not_gp by done.
  rewrite get_sp_wrap, !sp_sub_wrap by (done || apply stack_size_ok_e). fold (stack_top e).
  change (wrap (stack_size e) (stack_top e - n)) with (stack_at e (- n)).
  rewrite (stack_at_sub e (- n) n).
  pose proof (resolve_slot_spec e e (stack_at e (- n)) n v1 Hr (same_cpu_refl _ (proj1 Hr))) as H1.
  destruct (first_fault e (stack_at e (- n)) n MM_PROT_WRITE) as [[ad vd] |]; destruct H1 as (e1 & Hs1 & ->); [done |].
  pose proof (resolve_slot_spec e e1 (stack_at e (- n - n)) n v2 Hr Hs1) as H2.
  destruct (first_fault e (stack_at e (- n - n)) n MM_PROT_WRITE) as [[ad vd] |]; destruct H2 as (e2 & Hs2 & ->); [done |].
  pose proof (same_cpu_ready _ _ Hs2 Hr) as Hr2.
  rewrite commit_slot_spec by apply Hr2.
  pose proof (store_le_spec (hosts_of e (stack_at e (- n)) n) v1 e2 (proj1 Hr2)) as Hst1.
  unfold final in Hst1. destruct (store_le _ v1 e2) as [u e3]. cbn [snd] in Hst1.
  pose proof (stored_ready _ _ _ _ Hst1 Hr2) as Hr3.
  rewrite commit_slot_spec by apply Hr3.
  pose proof (store_le_spec (hosts_of e (stack_at e (- n - n)) n) v2 e3 (proj1 Hr3)) as Hst2.
  unfold final in Hst2. destruct (store_le _ v2 e3) as [u' e4]. cbn [snd] in *.
  exists e3, e4. split; [by eapply same_cpu_stored |]. split; [done |].
  unfold with_sp. by rewrite (stored_context _ _ _ _ Hst2), (stored_context _ _ _ _ Hst1), (same_cpu_context _ _ Hs2).
Qed.

(** ** Looking *)

(** The values of [count] slots of [n] bytes from the top on. *)
Definition stack_values (e : cpueaxh_engine) (n : Z) (indices : list Z) : list Z :=
  map (fun k => guest_value e (stack_at e (k * n)) n) indices.

Fixpoint stack_fault (e : cpueaxh_engine) (n : Z) (indices : list Z) : option (Z * verdict) :=
  match indices with
  | [] => None
  | k :: indices =>
      match first_fault e (stack_at e (k * n)) n MM_PROT_READ with
      | Some f => Some f
      | None => stack_fault e n indices
      end
  end.

Lemma peek_loop_spec e n indices : forall e1,
  cpu_ready e -> regs_wf (en_context e) -> slot_ok e n -> same_cpu e e1 ->
  match stack_fault e n indices with
  | None => exists e', same_cpu e e' /\
      peek_loop indices (stack_size e) (stack_top e) n e1 = (Some (stack_values e n indices), e')
  | Some (ad, vd) => exists e', faults e vd ad MM_PROT_READ e' /\
      peek_loop indices (stack_size e) (stack_top e) n e1 = (None, e')
  end.
Proof.
  induction indices as [| k indices IH]; intros e1 Hr Hwf Hn Hs; cbn [stack_fault peek_loop stack_values map].
  { exists e1. done. }
  unfold st_bind, get_ctx, st_gets. rewrite sp_add_wrap by apply stack_size_ok_e. fold (stack_at e (k * n)).
  pose proof (read_memory_scalar_spec e1 (stack_at e (k * n)) n (same_cpu_ready _ _ Hs Hr) (stack_at_word64 _ _) (slot_bounds _ _ Hn)) as H1.
  unfold first_fault in *. rewrite (first_fault_same _ _ _ _ _ Hs) in H1.
  destruct (first_fault_in e (offsets_from 0 n) (stack_at e (k * n)) MM_PROT_READ) as [[ad vd] |] eqn:Ef;
    destruct H1 as (e2 & Hs2 & ->).
  - exists e2. pose proof (faults_trans _ _ _ _ _ _ Hs Hs2) as Hf. split; [done |].
    by rewrite (first_fault_pending e _ _ _ _ _ _ Ef Hf).
  - pose proof (same_cpu_trans _ _ _ Hs Hs2) as Hs3. rewrite (same_cpu_context _ _ Hs3).
    pose proof Hr as (_ & _ & ->).
    specialize (IH e2 Hr Hwf Hn Hs3). rewrite (same_cpu_guest_value _ _ _ _ Hs).
    destruct (stack_fault e n indices) as [[ad vd] |]; destruct IH as (e3 & Hs4 & ->); by exists e3.
Qed.

End slots.

(** ** Pushing and popping back *)

Lemma with_sp_size e k e1 : stack_size (with_sp e k e1) = stack_size e.
Proof.
  unfold stack_size, with_sp, get_stack_addr_size, cpu_set_stack_pointer_value. cbn [en_context set_en_context].
  by destruct (stack_size e =? 64), (stack_size e =? 32).
Qed.

Lemma reg_at_with_sp e k e1 :
  regs_wf (en_context e) -> regs_wf (en_context (with_sp e k e1)) /\ stack_top (with_sp e k e1) = stack_at e k.
Proof.
  intros Hwf. pose proof (stack_size_ok_e e) as Hs.
  assert (H0 : 0 <= stack_size e) by apply stack_size_nonneg.
  unfold with_sp. rewrite set_sp_with_low by (done || apply stack_at_word).
  split.
  - apply set_reg_at_wf; [| done]. apply with_low_in_word; [done | by apply reg_at_in_word | apply stack_at_word].
  - unfold stack_top, stack_size, get_stack_addr_size. cbn [en_context set_en_context].
    change (cpu_stack_address_size (set_reg_at ?r ?v ?c)) with (cpu_stack_address_size c).
    cbn [en_context set_en_context].
    rewrite reg_at_set_reg_at, Z.eqb_refl by (done || (split; [discriminate | reflexivity]) || discriminate).
    apply wrap_with_low; [done | apply stack_at_word].
Qed.

(** The state of the memory alone decides what an access meets. *)
Lemma with_sp_ready e k e1 : cpu_ready e1 -> en_context e1 = en_context e -> cpu_ready (with_sp e k e1).
Proof.
  intros Hr Hc. pose proof Hr as (_ & _ & Hx). rewrite Hc in Hx. apply context_ready; [done | |];
    rewrite ?Hc; unfold cpu_set_stack_pointer_value; by destruct (stack_size e =? 64), (stack_size e =? 32).
Qed.

Lemma with_sp_access e k e1 a acc : en_context e1 = en_context e -> cpu_access (with_sp e k e1) a acc = cpu_access e1 a acc.
Proof.
  intros Hc. unfold cpu_access. change (en_mem (with_sp e k e1)) with (en_mem e1). rewrite Hc.
  unfold with_sp, cpu_set_stack_pointer_value. cbn [en_context set_en_context].
  by destruct (stack_size e =? 64), (stack_size e =? 32).
Qed.

Lemma with_sp_first_fault e k e1 offsets a acc :
  en_context e1 = en_context e -> first_fault_in (with_sp e k e1) offsets a acc = first_fault_in e1 offsets a acc.
Proof.
  intros Hc. induction offsets as [| o offsets IH]; [done |]. cbn [first_fault_in].
  by rewrite with_sp_access, IH by done.
Qed.

Section stack_properties.
Context `{Callbacks}.

(** A push stores or changes nothing.  Without memory hooks, a push of 2, 4 or 8 bytes at any
    stack address size stores the value just below the stack pointer and moves the pointer there,
    the bits above the address size untouched; when a byte of the slot is not writable it raises
    that byte's fault and neither the registers nor memory change. *)
Theorem stack_push_correct e n v (Hr : cpu_ready e) (Hwf : regs_wf (en_context e)) (Hn : slot_ok e n) :
  let e' := final (push_value n v) e in
  let a := stack_at e (- n) in
  match first_fault e a n MM_PROT_WRITE with
  | None =>
      stack_top e' = a /\ regs_wf (en_context e') /\
      reg_at (en_context e') REG_RSP / 2 ^ stack_size e = reg_at (en_context e) REG_RSP / 2 ^ stack_size e /\
      (exists e1, stored e (hosts_of e a n) v e1 /\ en_mem e' = en_mem e1) /\
      (forall r, 0 <= r -> r <> REG_RSP -> reg_at (en_context e') r = reg_at (en_context e) r)
  | Some (ad, vd) =>
      faults e vd ad MM_PROT_WRITE e' /\ c_regs (en_context e') = c_regs (en_context e) /\
      ms_heap (en_mem e') = ms_heap (en_mem e)
  end.
Proof.
  cbv zeta. pose proof (push_spec e n v Hr Hwf Hn) as Hp.
  destruct (first_fault e (stack_at e (- n)) n MM_PROT_WRITE) as [[ad vd] |].
  - split; [done |]. split; [by eapply faults_regs |].
    destruct Hp as (e1 & Hs & ->). exact (same_cpu_heap _ _ Hs).
  - destruct Hp as (e1 & Hs & ->). destruct (reg_at_with_sp e (- n) e1 Hwf) as [Hwf' Ht].
    split; [done |]. split; [done |].
    assert (H0 := stack_size_nonneg e). assert (Hsz := stack_size_ok_e e). pose proof (pow2_pos _ H0).
    unfold with_sp. rewrite set_sp_with_low by (done || apply stack_at_word). cbn [en_context set_en_context].
    split; [| split; [by exists e1 |]].
    + rewrite reg_at_set_reg_at, Z.eqb_refl by (done || (split; [discriminate | reflexivity]) || discriminate).
      unfold with_low. rewrite Z.div_add_l by lia.
      rewrite (Z.div_small (stack_at _ _)) by apply stack_at_word. lia.
    + intros r Hr0 Hne. rewrite reg_at_set_reg_at by (done || (split; [discriminate | reflexivity])).
      by destruct (Z.eqb_spec r REG_RSP).
Qed.

(** A pop undoes a push.  When the slot below the stack pointer is writable and readable and
    its bytes do not share host bytes, pushing a value and popping it returns the value truncated
    to the slot and the CPU context exactly as it was, at every stack address size and with the
    pointer wrapping around. *)
Theorem stack_push_pop e n v (Hr : cpu_ready e) (Hwf : regs_wf (en_context e)) (Hn : slot_ok e n)
  (Hw : first_fault e (stack_at e (- n)) n MM_PROT_WRITE = None)
  (Hrd : first_fault e (stack_at e (- n)) n MM_PROT_READ = None)
  (Hnd : NoDup (hosts_of e (stack_at e (- n)) n)) :
  let '(value, e') := pop_value n (final (push_value n v) e) in
  value = wrap (8 * n) v /\ en_context e' = en_context e.
Proof.
  pose proof (push_spec e n v Hr Hwf Hn) as Hp. rewrite Hw in Hp. destruct Hp as (e1 & Hs & ->).
  destruct (reg_at_with_sp e (- n) e1 Hwf) as [Hwf' Ht].
  pose proof (stored_context _ _ _ _ Hs) as Hc.
  assert (Hr' : cpu_ready (with_sp e (- n) e1)) by (apply with_sp_ready; [by eapply stored_ready | done]).
  pose proof (with_sp_size e (- n) e1) as Hsz.
  assert (Hn' : slot_ok (with_sp e (- n) e1) n) by (unfold slot_ok; rewrite Hsz; exact Hn).
  pose proof (pop_spec (with_sp e (- n) e1) n Hr' Hwf' Hn') as Hpop. rewrite Ht in Hpop.
  unfold first_fault in Hpop. rewrite with_sp_first_fault in Hpop by done.
  fold (first_fault e1 (stack_at e (- n)) n MM_PROT_READ) in Hpop. rewrite (stored_first_fault _ _ _ _ _ _ _ Hs), Hrd in Hpop.
  destruct Hpop as (e2 & Hs2 & ->). split.
  - change (guest_value (with_sp e (- n) e1) (stack_at e (- n)) n) with (guest_value e1 (stack_at e (- n)) n).
    apply (stored_value e (stack_at e (- n)) n v e1 MM_PROT_WRITE Hs Hw Hnd). destruct (slot_bounds _ _ Hn). lia.
  - unfold with_sp at 1. cbn [en_context set_en_context]. rewrite Hsz.
    replace (stack_at (with_sp e (- n) e1) n) with (wrap (stack_size e) (reg_at (en_context e) REG_RSP)).
    + unfold with_sp. cbn [en_context set_en_context].
      apply sp_restore; [apply stack_size_ok_e | done | apply stack_at_word].
    + unfold stack_at at 1. rewrite Ht, Hsz. rewrite (stack_at_add e (- n) n).
      replace (- n + n) with 0 by lia. symmetry. apply stack_at_0.
Qed.

(** The two-slot push is both pushes or nothing.  When every byte of both slots is writable it
    stores both values, the first above the second, and moves the stack pointer below them;
    otherwise it raises the fault of the first byte that is not, in the order of the pushes, and
    stores nothing, unlike two single pushes. *)
Theorem push_two_all_or_nothing e n v1 v2 (Hr : cpu_ready e) (Hwf : regs_wf (en_context e)) (Hn : slot_ok e n) :
  let e' := final (push_two_stack_values v1 v2 n) e in
  let a1 := stack_at e (- n) in
  let a2 := stack_at e (- n - n) in
  match first_fault e a1 n MM_PROT_WRITE, first_fault e a2 n MM_PROT_WRITE with
  | None, None =>
      stack_top e' = a2 /\
      exists e1 e2, stored e (hosts_of e a1 n) v1 e1 /\ stored e1 (hosts_of e a2 n) v2 e2 /\ en_mem e' = en_mem e2
  | Some (ad, vd), _ | None, Some (ad, vd) =>
      faults e vd ad MM_PROT_WRITE e' /\ c_regs (en_context e') = c_regs (en_context e) /\
      ms_heap (en_mem e') = ms_heap (en_mem e)
  end.
Proof.
  cbv zeta. pose proof (push_two_spec e n v1 v2 Hr Hwf Hn) as Hp. cbv zeta in Hp.
  assert (Hf : forall ad vd e', faults e vd ad MM_PROT_WRITE e' -> faults e vd ad MM_PROT_WRITE e' /\
    c_regs (en_context e') = c_regs (en_context e) /\ ms_heap (en_mem e') = ms_heap (en_mem e)).
  { intros ad vd e' Hf. split; [done |]. split; [by eapply faults_regs |].
    destruct Hf as (e1 & Hs & ->). exact (same_cpu_heap _ _ Hs). }
  destruct (first_fault e (stack_at e (- n)) n MM_PROT_WRITE) as [[ad vd] |]; [by apply Hf |].
  destruct (first_fault e (stack_at e (- n - n)) n MM_PROT_WRITE) as [[ad vd] |]; [by apply Hf |].
  destruct Hp as (e1 & e2 & H1 & H2 & ->). split; [by apply reg_at_with_sp |]. by exists e1, e2.
Qed.

(** Looking at the stack reads what popping would and commits nothing.  The values are those of
    the slots from the top on and the final pointer is the one after popping them all; a slot that
    is not readable raises its fault; the registers stay as they are in either case. *)
Theorem peek_stack_correct e n count (Hr : cpu_ready e) (Hwf : regs_wf (en_context e)) (Hn : slot_ok e n) :
  let '(r, e') := peek_stack_values n count e in
  c_regs (en_context e') = c_regs (en_context e) /\
  match stack_fault e n (offsets_from 0 count) with
  | None => r = Some (stack_values e n (offsets_from 0 count), stack_at e (count * n)) /\ same_cpu e e'
  | Some (ad, vd) => r = None /\ faults e vd ad MM_PROT_READ e'
  end.
Proof.
  unfold peek_stack_values, st_bind, get_ctx, st_gets, mod_ctx, st_modify, st_ret.
  pose proof Hr as (Hm & _ & ->).
  replace (negb (n =? 2) && negb (n =? 4) && negb (n =? 8)) with false by (destruct Hn as [[-> | [-> | ->]] _]; done).
  cbn beta iota. fold (stack_size e). rewrite slot_not_gp by done.
  rewrite get_sp_wrap by (done || apply stack_size_ok_e). fold (stack_top e).
  pose proof (peek_loop_spec e n (offsets_from 0 count) e Hr Hwf Hn (same_cpu_refl _ Hm)) as Hp.
  destruct (stack_fault e n (offsets_from 0 count)) as [[ad vd] |]; destruct Hp as (e' & Hs & ->).
  - split; [by eapply faults_regs | done].
  - rewrite sp_add_wrap by apply stack_size_ok_e. split; [by rewrite (same_cpu_context _ _ Hs) | done].
Qed.

End stack_properties.

(** ** The three-page machine with a stack pointer of 0x1004, four bytes above the first page's start *)
Module StackExample.
Import Bump EngineExample MemoryExample.

Definition sp_at (v : Z) : list Z := [0; 0; 0; 0; v; 0; 0; 0; 0; 0; 0; 0; 0; 0; 0; 0].
Definition stacked (v : Z) : cpueaxh_engine := set_en_context (set_c_regs (sp_at v) (en_context machine)) machine.

Lemma regs_ready e l : cpu_ready e -> cpu_ready (set_en_context (set_c_regs l (en_context e)) e).
Proof. intros Hr. apply context_ready; [exact Hr | reflexivity | exact (proj2 (proj2 Hr))]. Qed.

Lemma stacked_ready v : cpu_ready (stacked v).
Proof. apply regs_ready, machine_ready. Qed.

Lemma stacked_regs v : in_word 64 v -> regs_wf (en_context (stacked v)).
Proof. intros. split; [done |]. change (c_regs (en_context (stacked v))) with (sp_at v). repeat (apply Forall_cons; split; [first [done | by zcompute] |]). by apply Forall_nil. Qed.

Lemma slot_4 v : slot_ok (stacked v) 4.
Proof. split; [by right; left |]. by intros [_ H]. Qed.

(** A push at 0x1004 stores; one at 0x1002 runs into the unmapped page. *)
Lemma stack_push_correct_witness :
  stack_top (final (push_value 4 0x11223344) (stacked 0x1004)) = 0x1000 /\
  c_regs (en_context (final (push_value 4 0x11223344) (stacked 0x1002))) = sp_at 0x1002.
Proof.
  assert (H1 : in_word 64 0x1004) by zcompute. assert (H2 : in_word 64 0x1002) by zcompute.
  split.
  - assert (H := stack_push_correct (stacked 0x1004) 4 0x11223344 (stacked_ready _) (stacked_regs _ H1) (slot_4 _)).
    assert (first_fault (stacked 0x1004) (stack_at (stacked 0x1004) (Z.opp 4)) 4 MM_PROT_WRITE = None) as E by (vm_compute; reflexivity).
    assert (stack_at (stacked 0x1004) (Z.opp 4) = 0x1000) as Ea by (vm_compute; reflexivity).
    cbn zeta in H. rewrite E in H. destruct H as [H _]. rewrite Ea in H. exact H.
  - assert (H := stack_push_correct (stacked 0x1002) 4 0x11223344 (stacked_ready _) (stacked_regs _ H2) (slot_4 _)).
    assert (first_fault (stacked 0x1002) (stack_at (stacked 0x1002) (Z.opp 4)) 4 MM_PROT_WRITE = Some (0xFFE, V_UNMAPPED)) as E by (vm_compute; reflexivity).
    cbn zeta in H. rewrite E in H. destruct H as (_ & H & _). exact H.
Defined.

Lemma stack_push_pop_witness :
  let '(value, e') := pop_value 4 (final (push_value 4 0x1122334455) (stacked 0x2002)) in
  value = 0x22334455 /\ en_context e' = en_context (stacked 0x2002).
Proof.
  assert (Hv : in_word 64 0x2002) by zcompute.
  assert (first_fault (stacked 0x2002) (stack_at (stacked 0x2002) (Z.opp 4)) 4 MM_PROT_WRITE = None) as E1 by (vm_compute; reflexivity).
  assert (first_fault (stacked 0x2002) (stack_at (stacked 0x2002) (Z.opp 4)) 4 MM_PROT_READ = None) as E2 by (vm_compute; reflexivity).
  assert (NoDup (hosts_of (stacked 0x2002) (stack_at (stacked 0x2002) (Z.opp 4)) 4)) as E3 by (apply (bool_decide_unpack _); vm_compute; exact I).
  assert (H := stack_push_pop (stacked 0x2002) 4 0x1122334455 (stacked_ready _) (stacked_regs _ Hv) (slot_4 _) E1 E2 E3).
  destruct (pop_value 4 (final (push_value 4 0x1122334455) (stacked 0x2002))) as [value e'].
  assert (wrap (8 * 4) 0x1122334455 = 0x22334455) as Ew by (vm_compute; reflexivity). rewrite Ew in H. exact H.
Defined.

(** The second slot faults: the first one is not stored either. *)
Lemma push_two_all_or_nothing_witness :
  let e' := final (push_two_stack_values 1 2 4) (stacked 0x1006) in
  c_regs (en_context e') = c_regs (en_context (stacked 0x1006)) /\ ms_heap (en_mem e') = ms_heap (en_mem (stacked 0x1006)).
Proof.
  intros e'. assert (Hv : in_word 64 0x1006) by zcompute.
  assert (H := push_two_all_or_nothing (stacked 0x1006) 4 1 2 (stacked_ready _) (stacked_regs _ Hv) (slot_4 _)).
  assert (first_fault (stacked 0x1006) (stack_at (stacked 0x1006) (Z.opp 4)) 4 MM_PROT_WRITE = None) as E1 by (vm_compute; reflexivity).
  assert (first_fault (stacked 0x1006) (stack_at (stacked 0x1006) (Z.opp 4 - 4)) 4 MM_PROT_WRITE = Some (0xFFE, V_UNMAPPED)) as E2 by (vm_compute; reflexivity).
  cbn zeta in H. rewrite E1, E2 in H. destruct H as [_ H]. exact H.
Defined.

Lemma peek_stack_correct_witness :
  let '(r, e') := peek_stack_values 4 2 (stacked 0x1000) in r = Some ([0; 0], 0x1008).
Proof.
  assert (Hv : in_word 64 0x1000) by zcompute.
  assert (H := peek_stack_correct (stacked 0x1000) 4 2 (stacked_ready _) (stacked_regs _ Hv) (slot_4 _)).
  destruct (peek_stack_values 4 2 (stacked 0x1000)) as [r e']. destruct H as [_ H].
  assert (stack_fault (stacked 0x1000) 4 (offsets_from 0 2) = None) as E by (vm_compute; reflexivity).
  assert (stack_values (stacked 0x1000) 4 (offsets_from 0 2) = [0; 0]) as E2 by (vm_compute; reflexivity).
  assert (stack_at (stacked 0x1000) (2 * 4) = 0x1008) as E3 by (vm_compute; reflexivity).
  rewrite E, E2, E3 in H. exact (proj1 H).
Defined.

End StackExample.
