(* ===== verification/Segments.v ===== *)
(** * cpu/helper.hpp: descriptor tables and segment registers

    [load_descriptor_from_table] reads the two doublewords of a descriptor from guest memory, and
    [load_segment_register] is the privilege and type checks of MOV to a segment register and POP of
    one.  The theorems: the descriptor read is the architecture's layout of the eight bytes in
    guest memory; a load succeeds exactly when the selector and its descriptor pass the checks and
    then changes that segment register only; a refused load leaves every segment register as it was. *)

From Stdlib Require Import ZArith Bool List Lia.
From stdpp Require Import base tactics list gmap.
From S2P Require Import Prelude CpuDef HostMemory RegionTable RegionSplit Patches PageCache InstCache Machine CpuMemory Registers WideMemory Stack.

(** The fields of the descriptor with doublewords [low] and [high]. *)
Definition parse_descriptor (low high : Z) : SegmentDescriptor :=
  let limit := Z.lor (Z.land low 0xFFFF) (Z.land high 0x000F0000) in
  let granularity := negb (Z.land (Z.shiftr high 23) 0x01 =? 0) in
  mkDesc
    (Z.lor (Z.lor (Z.shiftr low 16) (u32 (Z.shiftl (Z.land high 0xFF) 16))) (u32 (Z.shiftl (Z.shiftr high 24) 24)))
    (if granularity then Z.lor (u32 (Z.shiftl limit 12)) 0xFFF else limit)
    (Z.land (Z.shiftr high 8) 0x0F)
    (Z.land (Z.shiftr high 13) 0x03)
    (negb (Z.land (Z.shiftr high 15) 0x01 =? 0))
    granularity
    (negb (Z.land (Z.shiftr high 22) 0x01 =? 0))
    (negb (Z.land (Z.shiftr high 21) 0x01 =? 0)).

(** [selector]'s table: the LDT when its TI bit is set. *)
Definition selector_table (selector : Z) (ctx : CPU_CONTEXT) : Z * Z :=
  if negb (Z.land (Z.shiftr selector 2) 1 =? 0) then (c_ldtr_base ctx, c_ldtr_limit ctx)
  else (c_gdtr_base ctx, c_gdtr_limit ctx).

Section segments.
Context `{Callbacks}.

Definition load_descriptor_from_table (selector : Z) : ST cpueaxh_engine SegmentDescriptor :=
  let index := Z.shiftr selector 3 in
  let* (table_base, table_limit) := get_ctx (selector_table selector) in
  let desc_offset := index * 8 in
  if table_limit <? desc_offset + 7 then
    mod_ctx (raise_gp_ctx (Z.land selector 0xFFFC)) ;;; st_ret zero_desc
  else
    let desc_addr := u64 (table_base + desc_offset) in
    let* low := read_memory_dword desc_addr in
    let* high := read_memory_dword (u64 (desc_addr + 4)) in
    st_ret (parse_descriptor low high).

(** [get_segment_register]'s [default] case raises #GP and yields a dummy register, which
    [set_segment_register] leaves alone. *)
Definition select_segment_register (seg_index : Z) : ST cpueaxh_engine unit :=
  if (seg_index =? SEG_ES) || (seg_index =? SEG_CS) || (seg_index =? SEG_SS) || (seg_index =? SEG_DS)
     || (seg_index =? SEG_FS) || (seg_index =? SEG_GS)
  then st_ret tt else mod_ctx (raise_gp_ctx 0).

Definition load_segment_register (seg_index selector : Z) : ST cpueaxh_engine unit :=
  if seg_index =? SEG_CS then mod_ctx raise_ud_ctx
  else
    let rpl := Z.land selector 0x03 in
    let* cpl := get_ctx c_cpl in
    if seg_index =? SEG_SS then
      if is_null_selector selector then mod_ctx (raise_gp_ctx 0)
      else
        let* desc := load_descriptor_from_table selector in
        let* faulted := get_ctx cpu_has_exception in
        if faulted then st_ret tt
        else if negb (rpl =? cpl) then mod_ctx (raise_gp_ctx (Z.land selector 0xFFFC))
        else if negb (is_writable_data_segment (sd_type desc)) then mod_ctx (raise_gp_ctx (Z.land selector 0xFFFC))
        else if negb (sd_dpl desc =? cpl) then mod_ctx (raise_gp_ctx (Z.land selector 0xFFFC))
        else if negb (sd_present desc) then mod_ctx (raise_ss_ctx (Z.land selector 0xFFFC))
        else mod_ctx (set_segment_register SEG_SS (mkSeg selector desc))
    else
      select_segment_register seg_index ;;;
      if is_null_selector selector then mod_ctx (set_segment_register seg_index (mkSeg selector zero_desc))
      else
        let* desc := load_descriptor_from_table selector in
        let* faulted := get_ctx cpu_has_exception in
        if faulted then st_ret tt
        else if negb (is_data_segment (sd_type desc)) && negb (is_readable_code_segment (sd_type desc))
        then mod_ctx (raise_gp_ctx (Z.land selector 0xFFFC))
        else if (is_data_segment (sd_type desc) || negb (is_conforming_code_segment (sd_type desc)))
                && ((sd_dpl desc <? rpl) || (sd_dpl desc <? cpl))
        then mod_ctx (raise_gp_ctx (Z.land selector 0xFFFC))
        else if negb (sd_present desc) then mod_ctx (raise_np_ctx (Z.land selector 0xFFFC))
        else mod_ctx (set_segment_register seg_index (mkSeg selector desc)).

End segments.

(** ** The layout of a descriptor *)

(** Bits [i] to [i + n - 1]. *)
Definition field (raw i n : Z) : Z := raw / 2 ^ i mod 2 ^ n.
Definition flag (raw i : Z) : bool := field raw i 1 =? 1.

(** The architecture's layout of the 64-bit descriptor: base at 16-39 and 56-63, limit at 0-15 and
    48-51 in bytes or, with G, in pages. *)
Definition architectural_descriptor (raw : Z) : SegmentDescriptor :=
  let limit := field raw 0 16 + 2 ^ 16 * field raw 48 4 in
  mkDesc (field raw 16 24 + 2 ^ 24 * field raw 56 8)
    (if flag raw 55 then 4096 * limit + 4095 else limit)
    (field raw 40 4) (field raw 45 2) (flag raw 47) (flag raw 55) (flag raw 54) (flag raw 53).

Lemma field_land x i n : 0 <= i -> 0 <= n -> Z.land (Z.shiftr x i) (Z.ones n) = field x i n.
Proof. intros. unfold field. by rewrite Z.land_ones, Z.shiftr_div_pow2. Qed.

Lemma flag_land x i : 0 <= i -> negb (Z.land (Z.shiftr x i) 1 =? 0) = flag x i.
Proof.
  intros. change 1 with (Z.ones 1) at 1. rewrite field_land by lia. unfold flag.
  assert (0 <= field x i 1 < 2) by (unfold field; apply Z.mod_pos_bound; lia). lia.
Qed.

(** Fields of the high doubleword. *)
Lemma field_high low high i n :
  0 <= low < 2 ^ 32 -> 0 <= i -> field (low + 2 ^ 32 * high) (32 + i) n = field high i n.
Proof.
  intros Hl Hi. unfold field. rewrite Z.pow_add_r, <- Z.div_div by (try apply Z.pow_nonzero; try apply Z.pow_pos_nonneg; lia).
  f_equal. f_equal. symmetry. apply Z.div_unique with (r := low); lia.
Qed.

Lemma field_low low high i n :
  0 <= low < 2 ^ 32 -> 0 <= i -> 0 <= n -> i + n <= 32 -> field (low + 2 ^ 32 * high) i n = field low i n.
Proof.
  intros Hl Hi Hn Hin. unfold field.
  replace (low + 2 ^ 32 * high) with (2 ^ (32 - i) * high * 2 ^ i + low).
  - rewrite Z.div_add_l by (apply Z.pow_nonzero; lia).
    replace (2 ^ (32 - i)) with (2 ^ (32 - i - n) * 2 ^ n) by (rewrite <- Z.pow_add_r by lia; f_equal; lia).
    replace (2 ^ (32 - i - n) * 2 ^ n * high + low / 2 ^ i) with (low / 2 ^ i + 2 ^ (32 - i - n) * high * 2 ^ n) by lia.
    apply Z_mod_plus_full.
  - replace (2 ^ (32 - i) * high * 2 ^ i) with (2 ^ (32 - i) * 2 ^ i * high) by lia.
    rewrite <- Z.pow_add_r by lia. replace (32 - i + i) with 32 by lia. lia.
Qed.

Lemma field_split x i n m : 0 <= i -> 0 <= n -> 0 <= m -> field x i (n + m) = field x i n + 2 ^ n * field x (i + n) m.
Proof.
  intros. unfold field. rewrite !Z.pow_add_r by done. rewrite <- Z.div_div by (try apply Z.pow_nonzero; try apply Z.pow_pos_nonneg; lia).
  apply Z.rem_mul_r; [apply Z.pow_nonzero; lia | by apply pow2_pos].
Qed.

Lemma flag_high low high i : 0 <= low < 2 ^ 32 -> 0 <= i -> flag (low + 2 ^ 32 * high) (32 + i) = flag high i.
Proof. intros. unfold flag. by rewrite field_high. Qed.

Lemma lor_disjoint a b k : 0 <= k -> 0 <= a < 2 ^ k -> Z.lor a (Z.shiftl b k) = a + 2 ^ k * b.
Proof.
  intros Hk Ha. rewrite <- Z.lxor_lor, <- Z.add_nocarry_lxor; [rewrite Z.shiftl_mul_pow2 by done; lia | |];
    (apply Z.bits_inj'; intros i Hi; rewrite Z.land_spec, Z.bits_0; rewrite Z.shiftl_spec by done;
     destruct (Z.ltb_spec i k); [by rewrite (Z.testbit_neg_r b), andb_false_r by lia | by rewrite (testbit_high k a) by done]).
Qed.

Lemma parse_is_architectural low high :
  in_word 32 low -> in_word 32 high -> parse_descriptor low high = architectural_descriptor (low + 2 ^ 32 * high).
Proof.
  intros Hl Hh. unfold parse_descriptor, architectural_descriptor.
  assert (Hlim : Z.lor (Z.land low 0xFFFF) (Z.land high 0x000F0000) = field low 0 16 + 2 ^ 16 * field high 16 4).
  { rewrite <- lor_disjoint by (try lia; unfold field; apply Z.mod_pos_bound; lia). f_equal.
    - unfold field. change 0xFFFF with (Z.ones 16). rewrite Z.land_ones by lia. by rewrite Z.div_1_r.
    - rewrite <- field_land by lia. apply Z.bits_inj'. intros i Hi.
      rewrite Z.shiftl_spec by done. change 0x000F0000 with (Z.shiftl (Z.ones 4) 16).
      rewrite Z.land_spec, Z.shiftl_spec by done.
      destruct (Z.ltb_spec i 16); [by rewrite !(Z.testbit_neg_r _ (i - 16)), andb_false_r by lia |].
      rewrite Z.land_spec, Z.shiftr_spec by lia. f_equal. f_equal. lia. }
  assert (Hb : Z.lor (Z.lor (Z.shiftr low 16) (u32 (Z.shiftl (Z.land high 0xFF) 16))) (u32 (Z.shiftl (Z.shiftr high 24) 24)) =
    field low 16 16 + 2 ^ 16 * field high 0 8 + 2 ^ 24 * field high 24 8).
  { assert (H16 : Z.shiftr low 16 = field low 16 16).
    { unfold field. rewrite Z.shiftr_div_pow2 by lia. symmetry. apply Z.mod_small. unfold in_word in Hl.
      split; [apply Z.div_pos; lia | apply Z.div_lt_upper_bound; lia]. }
    assert (H0 : Z.land high 0xFF = field high 0 8) by (rewrite <- field_land, Z.shiftr_0_r by lia; done).
    assert (H24 : Z.shiftr high 24 = field high 24 8).
    { unfold field. rewrite Z.shiftr_div_pow2 by lia. symmetry. apply Z.mod_small. unfold in_word in Hh.
      split; [apply Z.div_pos; lia | apply Z.div_lt_upper_bound; lia]. }
    rewrite H16, H0, H24.
    assert (Hr : forall x i n, 0 <= n -> 0 <= field x i n < 2 ^ n) by (intros; apply Z.mod_pos_bound, pow2_pos; done).
    pose proof (Hr low 16 16 ltac:(lia)). pose proof (Hr high 0 8 ltac:(lia)). pose proof (Hr high 24 8 ltac:(lia)).
    rewrite !(wrap_small 32) by (unfold in_word; rewrite Z.shiftl_mul_pow2 by lia; lia).
    rewrite (lor_disjoint (field low 16 16)) by lia. rewrite lor_disjoint by lia. lia. }
  rewrite Hb, Hlim, !flag_land by lia.
  change 0x0F with (Z.ones 4). change 0x03 with (Z.ones 2). rewrite !field_land by lia.
  change 55 with (32 + 23). change 54 with (32 + 22). change 53 with (32 + 21). change 47 with (32 + 15).
  change 45 with (32 + 13). change 40 with (32 + 8). change 48 with (32 + 16). change 56 with (32 + 24).
  rewrite !flag_high, !field_high by (done || lia).
  assert (Hx : field (low + 2 ^ 32 * high) 16 24 = field low 16 16 + 2 ^ 16 * field high 0 8).
  { change 24 with (16 + 8) at 1. rewrite field_split, field_low by (done || lia).
    change (16 + 16) with (32 + 0). by rewrite field_high by (done || lia). }
  rewrite Hx, (field_low low high 0 16) by (done || lia).
  f_equal. destruct (flag high 23); [| done].
  assert (Hr : forall x i n, 0 <= n -> 0 <= field x i n < 2 ^ n) by (intros; apply Z.mod_pos_bound, pow2_pos; done).
  pose proof (Hr low 0 16 ltac:(lia)). pose proof (Hr high 16 4 ltac:(lia)).
  rewrite (wrap_small 32) by (unfold in_word; rewrite Z.shiftl_mul_pow2 by lia; lia).
  rewrite Z.lor_comm, lor_disjoint by lia. lia.
Qed.

(** ** Loading a descriptor *)

Definition descriptor_address (e : cpueaxh_engine) (selector : Z) : Z :=
  u64 (fst (selector_table selector (en_context e)) + selector / 8 * 8).

Definition descriptor_in_table (e : cpueaxh_engine) (selector : Z) : bool :=
  selector / 8 * 8 + 7 <=? snd (selector_table selector (en_context e)).

(** The descriptor the guest's memory holds for a selector. *)
Definition guest_descriptor (e : cpueaxh_engine) (selector : Z) : SegmentDescriptor :=
  architectural_descriptor (guest_value e (descriptor_address e selector) 8).

(** An 8-byte value is two doublewords, and faults where the first of them does. *)
Lemma guest_value_halves e a : guest_value e a 8 = guest_value e a 4 + 2 ^ 32 * guest_value e (at_off a 4) 4.
Proof.
  unfold guest_value. change (offsets_from 0 8) with (offsets_from 0 4 ++ map (Z.add 4) (offsets_from 0 4)).
  rewrite map_app, map_map, le_combine_app. f_equal. f_equal. f_equal. apply map_ext.
  intros o. by rewrite at_off_at_off.
Qed.

Lemma first_fault_halves e a acc :
  first_fault e a 8 acc = match first_fault e a 4 acc with Some f => Some f | None => first_fault e (at_off a 4) 4 acc end.
Proof.
  unfold first_fault. change (offsets_from 0 8) with (offsets_from 0 4 ++ map (Z.add 4) (offsets_from 0 4)).
  by rewrite first_fault_app, first_fault_shift.
Qed.

Lemma guest_dword_range e a acc : manager_wf (en_mem e) -> first_fault e a 4 acc = None -> in_word 32 (guest_value e a 4).
Proof.
  intros Hm Hf. exact (le_combine_bound _ (guest_bytes_ok e a acc (offsets_from 0 4) Hm Hf)).
Qed.

Section loads.
Context `{Callbacks}.

(** A pending fault makes further reads return 0 and change nothing. *)
Lemma read_scalar_pending n a e : cpu_has_exception (en_context e) = true -> read_memory_scalar n a e = (0, e).
Proof. intros Hp. unfold read_memory_scalar, st_bind, get_ctx, st_gets. by rewrite Hp. Qed.

Lemma load_descriptor_spec e selector :
  cpu_ready e -> in_word 16 selector ->
  if descriptor_in_table e selector then
    match first_fault e (descriptor_address e selector) 8 MM_PROT_READ with
    | None => exists e', same_cpu e e' /\ load_descriptor_from_table selector e = (guest_descriptor e selector, e')
    | Some (ad, v) => exists d e', faults e v ad MM_PROT_READ e' /\ load_descriptor_from_table selector e = (d, e')
    end
  else load_descriptor_from_table selector e =
         (zero_desc, set_en_context (raise_gp_ctx (Z.land selector 0xFFFC) (en_context e)) e).
Proof.
  intros Hr Hsel. unfold load_descriptor_from_table, descriptor_in_table, guest_descriptor.
  assert (Hd : descriptor_address e selector = u64 (fst (selector_table selector (en_context e)) + Z.shiftr selector 3 * 8))
    by (unfold descriptor_address; by rewrite Z.shiftr_div_pow2 by lia).
  replace (selector / 8) with (Z.shiftr selector 3) by (by rewrite Z.shiftr_div_pow2 by lia).
  unfold st_bind, get_ctx, st_gets, mod_ctx, st_modify, st_ret.
  destruct (selector_table selector (en_context e)) as [base limit]. cbn [fst snd] in *.
  destruct (Z.leb_spec (Z.shiftr selector 3 * 8 + 7) limit), (Z.ltb_spec limit (Z.shiftr selector 3 * 8 + 7)); try lia; [| done].
  rewrite <- Hd. set (a := descriptor_address e selector).
  assert (Ha : in_word 64 a) by (unfold a; rewrite Hd; apply wrap_range; lia).
  assert (H4 : 0 < 4 <= 4096) by lia.
  rewrite first_fault_halves, guest_value_halves.
  pose proof (read_memory_scalar_spec e a 4 Hr Ha H4) as Hlo. unfold read_memory_dword.
  destruct (first_fault e a 4 MM_PROT_READ) as [[ad v] |] eqn:Ef; destruct Hlo as (e1 & Hs1 & ->).
  { rewrite read_scalar_pending by (by eapply first_fault_pending). by eexists _, e1. }
  change (u64 (a + 4)) with (at_off a 4).
  pose proof (read_memory_scalar_spec e1 (at_off a 4) 4 (same_cpu_ready _ _ Hs1 Hr) (at_off_word _ _) H4) as Hhi.
  unfold first_fault in Hhi. rewrite (first_fault_same _ _ _ _ _ Hs1) in Hhi. fold (first_fault e (at_off a 4) 4 MM_PROT_READ) in Hhi.
  destruct (first_fault e (at_off a 4) 4 MM_PROT_READ) as [[ad v] |] eqn:Ef2; destruct Hhi as (e2 & Hs2 & ->).
  { exists (parse_descriptor (guest_value e a 4) 0), e2. split; [by eapply faults_trans | done]. }
  exists e2. split; [by eapply same_cpu_trans |]. rewrite (same_cpu_guest_value _ _ _ _ Hs1).
  rewrite parse_is_architectural; [done | |]; (eapply guest_dword_range; [apply Hr | done]).
Qed.

End loads.

(** ** Which loads succeed *)

(** The rules the code checks, over the 16 descriptor types: 2, 3, 6, 7 are writable data, 0-7 data,
    10, 11, 14, 15 readable code, the last two conforming.  They are the architecture's for MOV Sreg
    (volume 2) but for the two cases [segment_loadable] adds. *)
Definition segment_checked (e : cpueaxh_engine) (seg_index selector : Z) : bool :=
  let d := guest_descriptor e selector in
  let null := selector <? 4 in
  let rpl := selector mod 4 in
  let cpl := c_cpl (en_context e) in
  let readable := descriptor_in_table e selector &&
    match first_fault e (descriptor_address e selector) 8 MM_PROT_READ with None => true | Some _ => false end in
  if seg_index =? SEG_CS then false
  else if seg_index =? SEG_SS then
    negb null && readable && (rpl =? cpl) && one_of (sd_type d) [2; 3; 6; 7] && (sd_dpl d =? cpl) && sd_present d
  else
    null || (readable && one_of (sd_type d) [0; 1; 2; 3; 4; 5; 6; 7; 10; 11; 14; 15] &&
             (one_of (sd_type d) [14; 15] || ((rpl <=? sd_dpl d) && (cpl <=? sd_dpl d))) && sd_present d).

(** Bit 44 of the descriptor: a data or code segment, not a system descriptor (an LDT, a TSS, a gate). *)
Definition code_or_data (e : cpueaxh_engine) (selector : Z) : bool :=
  flag (guest_value e (descriptor_address e selector) 8) 44.

(** A null selector for SS in 64-bit code: the architecture loads it below CPL 3 with RPL = CPL. *)
Definition null_stack_selector (e : cpueaxh_engine) (seg_index selector : Z) : bool :=
  (seg_index =? SEG_SS) && (selector <? 4) && cpu_is_64bit_code (en_context e) && (c_cpl (en_context e) <? 3) &&
  (selector mod 4 =? c_cpl (en_context e)).

(** What the architecture allows. *)
Definition segment_loadable (e : cpueaxh_engine) (seg_index selector : Z) : bool :=
  null_stack_selector e seg_index selector ||
  (segment_checked e seg_index selector && ((selector <? 4) || code_or_data e selector)).

(** A system descriptor whose type, read as that of a segment, passes the other rules. *)
Definition system_descriptor_taken (e : cpueaxh_engine) (seg_index selector : Z) : bool :=
  segment_checked e seg_index selector && negb (selector <? 4) && negb (code_or_data e selector).

Definition segment_registers (ctx : CPU_CONTEXT) : list SegmentRegister :=
  [c_es ctx; c_cs ctx; c_ss ctx; c_ds ctx; c_fs ctx; c_gs ctx].

Lemma null_selector_eq selector : in_word 16 selector -> is_null_selector selector = (selector <? 4).
Proof.
  intros Hs. unfold is_null_selector. change 0xFFFC with (Z.shiftl (Z.ones 14) 2).
  replace (Z.land selector (Z.shiftl (Z.ones 14) 2)) with (Z.shiftl (Z.shiftr selector 2) 2).
  - rewrite Z.shiftl_mul_pow2, Z.shiftr_div_pow2 by lia. unfold in_word in Hs.
    destruct (Z.ltb_spec selector 4); [| Z.div_mod_to_equations; lia].
    by rewrite Z.div_small by lia.
  - apply Z.bits_inj'. intros i Hi. rewrite Z.land_spec, !Z.shiftl_spec by done.
    destruct (Z.ltb_spec i 2); [by rewrite !(Z.testbit_neg_r _ (i - 2)), andb_false_r by lia |].
    rewrite Z.shiftr_spec, Z.testbit_ones by lia. replace (i - 2 + 2) with i by lia.
    destruct (Z.ltb_spec (i - 2) 14).
    + replace (0 <=? i - 2) with true by lia. by rewrite andb_true_r.
    + by rewrite (testbit_high 16 selector) by (done || lia).
Qed.

Lemma guest_type_range e selector : 0 <= sd_type (guest_descriptor e selector) < 16.
Proof. unfold guest_descriptor, architectural_descriptor. cbn [sd_type]. apply (Z.mod_pos_bound _ (2 ^ 4)). lia. Qed.

(** The type tests of the code over the 16 types. *)
Lemma type_tests t : 0 <= t < 16 ->
  is_writable_data_segment t = one_of t [2; 3; 6; 7] /\
  negb (is_data_segment t) && negb (is_readable_code_segment t) = negb (one_of t [0; 1; 2; 3; 4; 5; 6; 7; 10; 11; 14; 15]) /\
  (one_of t [0; 1; 2; 3; 4; 5; 6; 7; 10; 11; 14; 15] = true ->
   is_data_segment t || negb (is_conforming_code_segment t) = negb (one_of t [14; 15])).
Proof.
  intros Ht. assert (H : forallb (fun t => 
    eqb (is_writable_data_segment t) (one_of t [2; 3; 6; 7]) &&
    eqb (negb (is_data_segment t) && negb (is_readable_code_segment t)) (negb (one_of t [0; 1; 2; 3; 4; 5; 6; 7; 10; 11; 14; 15])) &&
    implb (one_of t [0; 1; 2; 3; 4; 5; 6; 7; 10; 11; 14; 15])
      (eqb (is_data_segment t || negb (is_conforming_code_segment t)) (negb (one_of t [14; 15])))) (seqZ 0 16) = true) by (vm_compute; reflexivity).
  rewrite forallb_forall in H. specialize (H t). cbv beta in H.
  rewrite !andb_true_iff, !eqb_true_iff, implb_true_iff, eqb_true_iff in H.
  destruct H as [[H1 H2] H3]; [apply list_elem_of_In, elem_of_seqZ; lia | done].
Qed.

(** ** The outcome *)

(** The load was refused: an exception is pending and no register changed, of segments or others. *)
Definition refused (e e' : cpueaxh_engine) : Prop :=
  cpu_has_exception (en_context e') = true /\ segment_registers (en_context e') = segment_registers (en_context e) /\
  c_regs (en_context e') = c_regs (en_context e).

Definition segment_set (e : cpueaxh_engine) (seg_index : Z) (seg : SegmentRegister) (e' : cpueaxh_engine) : Prop :=
  exists e1, same_cpu e e1 /\ e' = set_en_context (set_segment_register seg_index seg (en_context e)) e1.

Lemma raise_refused code ec e e1 :
  (code =? CPU_EXCEPTION_NONE) = false -> same_cpu e e1 ->
  refused e (set_en_context (cpu_raise_exception code ec (en_context e1)) e1).
Proof.
  intros Hc Hs. unfold refused. cbn [en_context set_en_context]. split; [by apply raise_exception_pending |].
  rewrite (same_cpu_context _ _ Hs). split; [| apply raise_exception_regs]. unfold cpu_raise_exception. by destruct (cpu_has_exception (en_context e)).
Qed.

Lemma faults_refused e v ad acc e' : v <> V_OK -> faults e v ad acc e' -> refused e e'.
Proof.
  intros Hv Hf. split; [by eapply faults_pending |]. split; [| by eapply faults_regs]. destruct Hf as (e1 & _ & ->). cbn [en_context set_en_context].
  destruct v; [done | | |]; unfold raise_verdict, raise_gp_ctx, cpu_raise_exception;
    [by destruct (cpu_has_exception (en_context e)) | |];
    by destruct (cpu_has_exception (set_c_control_regs (arr_set (c_control_regs (en_context e)) REG_CR2 ad) (en_context e))).
Qed.

(** The checks after the descriptor was read: the first failing one raises its exception. *)
Lemma checks_refused e e1 (b : bool) code ec seg_index seg (k : ST cpueaxh_engine unit) :
  (code =? CPU_EXCEPTION_NONE) = false -> same_cpu e e1 ->
  forall ok : bool, (if ok then segment_set e seg_index seg (final k e1) else refused e (final k e1)) ->
  if negb b && ok then segment_set e seg_index seg (final (if b then mod_ctx (cpu_raise_exception code ec) else k) e1)
  else refused e (final (if b then mod_ctx (cpu_raise_exception code ec) else k) e1).
Proof. intros Hc Hs ok Hk. destruct b; cbn [negb andb]; [by apply raise_refused | done]. Qed.

Lemma checks_required e e1 (c : bool) code ec seg_index seg (k : ST cpueaxh_engine unit) :
  (code =? CPU_EXCEPTION_NONE) = false -> same_cpu e e1 ->
  forall ok : bool, (if ok then segment_set e seg_index seg (final k e1) else refused e (final k e1)) ->
  if c && ok then segment_set e seg_index seg (final (if negb c then mod_ctx (cpu_raise_exception code ec) else k) e1)
  else refused e (final (if negb c then mod_ctx (cpu_raise_exception code ec) else k) e1).
Proof. intros Hc Hs ok Hk. destruct c; cbn [negb andb]; [done | by apply raise_refused]. Qed.

Lemma set_segment_done (e e1 : cpueaxh_engine) (seg_index : Z) (seg : SegmentRegister) :
  same_cpu e e1 -> segment_set e seg_index seg (final (mod_ctx (set_segment_register seg_index seg)) e1).
Proof. intros Hs. exists e1. split; [done |]. unfold final, mod_ctx, st_modify. cbn. by rewrite (same_cpu_context _ _ Hs). Qed.

Section outcome.
Context `{Callbacks}.

(** Reading the descriptor: it is there, or the load is refused before any check. *)
Lemma descriptor_outcome e selector (ok : bool) seg_index seg (k : SegmentDescriptor -> ST cpueaxh_engine unit) :
  cpu_ready e -> in_word 16 selector ->
  (forall e1, same_cpu e e1 ->
     if ok then segment_set e seg_index seg (final (k (guest_descriptor e selector)) e1)
     else refused e (final (k (guest_descriptor e selector)) e1)) ->
  let c := (let* desc := load_descriptor_from_table selector in
            let* faulted := get_ctx cpu_has_exception in
            if faulted then st_ret tt else k desc) in
  let readable := descriptor_in_table e selector &&
    match first_fault e (descriptor_address e selector) 8 MM_PROT_READ with None => true | Some _ => false end in
  if readable && ok then segment_set e seg_index seg (final c e) else refused e (final c e).
Proof.
  intros Hr Hsel Hk. cbv zeta. pose proof (load_descriptor_spec e selector Hr Hsel) as Hl.
  unfold final, st_bind, get_ctx, st_gets. destruct (descriptor_in_table e selector); cbn [andb].
  - destruct (first_fault e (descriptor_address e selector) 8 MM_PROT_READ) as [[ad v] |] eqn:Ef; cbn [andb].
    + destruct Hl as (d & e1 & Hf & ->). rewrite (first_fault_pending _ _ _ _ _ _ _ Ef Hf). cbn [st_ret snd].
      apply (faults_refused e v ad MM_PROT_READ); [by eapply first_fault_not_ok | done].
    + destruct Hl as (e1 & Hs & ->). pose proof Hr as (_ & _ & Hx). rewrite (same_cpu_context _ _ Hs), Hx.
      apply Hk. done.
  - rewrite Hl. cbn [en_context set_en_context]. unfold raise_gp_ctx. rewrite raise_exception_pending by done. cbn [st_ret snd].
    apply (raise_refused CPU_EXCEPTION_GP _ e e); [done |]. apply same_cpu_refl, Hr.
Qed.

(** The load succeeds exactly when the checks pass. *)
Lemma segment_load_spec e seg_index selector
  (Hr : cpu_ready e) (Hidx : 0 <= seg_index < 6) (Hsel : in_word 16 selector) :
  let e' := final (load_segment_register seg_index selector) e in
  if segment_checked e seg_index selector
  then segment_set e seg_index
         (mkSeg selector (if selector <? 4 then zero_desc else guest_descriptor e selector)) e'
  else refused e e'.
Proof.
  cbv zeta. pose proof Hr as (Hm & _ & Hx). pose proof (same_cpu_refl e Hm) as Hrefl.
  unfold segment_checked, load_segment_register.
  destruct (Z.eqb_spec seg_index SEG_CS) as [-> | Hcs].
  { by apply (raise_refused CPU_EXCEPTION_UD). }
  destruct (type_tests (sd_type (guest_descriptor e selector)) (guest_type_range e selector)) as (Tw & Tr & Tc).
  assert (Hrpl : Z.land selector 0x03 = selector mod 4) by (change 0x03 with (Z.ones 2); by rewrite Z.land_ones by lia).
  rewrite Hrpl. rewrite null_selector_eq by done.
  assert (Hget : forall k : Z -> ST cpueaxh_engine unit, final (let* cpl := get_ctx c_cpl in k cpl) e = final (k (c_cpl (en_context e))) e) by done.
  rewrite !Hget.
  destruct (Z.eqb_spec seg_index SEG_SS) as [-> | Hss].
  - destruct (selector <? 4); cbn [negb andb]; [by apply (raise_refused CPU_EXCEPTION_GP) |].
    rewrite <- !andb_assoc. rewrite (andb_assoc (descriptor_in_table e selector)).
    apply (descriptor_outcome e selector); [done | done |].
    intros e1 Hs.
    rewrite <- Tw. apply checks_required; [done | done |]. apply checks_required; [done | done |].
    apply checks_required; [done | done |].
    destruct (sd_present _); cbn [negb]; [by apply set_segment_done | by apply (raise_refused CPU_EXCEPTION_SS)].
  - assert (Hsel0 : select_segment_register seg_index e = (tt, e)).
    { unfold select_segment_register.
      assert (seg_index = 0 \/ seg_index = 2 \/ seg_index = 3 \/ seg_index = 4 \/ seg_index = 5 \/ seg_index = 1) as Hi by lia.
      by repeat destruct Hi as [-> | Hi]; subst. }
    assert (Hsel1 : forall k : ST cpueaxh_engine unit, final (select_segment_register seg_index ;;; k) e = final k e)
      by (intros k; unfold final, st_bind; by rewrite Hsel0).
    rewrite !Hsel1.
    destruct (selector <? 4); cbn [orb]; [by apply set_segment_done |].
    rewrite <- !andb_assoc. rewrite (andb_assoc (descriptor_in_table e selector)).
    apply (descriptor_outcome e selector); [done | done |].
    intros e1 Hs. rewrite Tr.
    destruct (one_of (sd_type (guest_descriptor e selector)) [0; 1; 2; 3; 4; 5; 6; 7; 10; 11; 14; 15]) eqn:Et;
      cbn [negb andb]; [| by apply (raise_refused CPU_EXCEPTION_GP)].
    rewrite Tc by done. set (d := guest_descriptor e selector).
    replace (one_of (sd_type d) [14; 15] || ((selector mod 4 <=? sd_dpl d) && (c_cpl (en_context e) <=? sd_dpl d)))
      with (negb (negb (one_of (sd_type d) [14; 15]) && ((sd_dpl d <? selector mod 4) || (sd_dpl d <? c_cpl (en_context e)))))
      by (rewrite negb_andb, negb_involutive, negb_orb, !Z.leb_antisym; done).
    apply checks_refused; [done | done |].
    destruct (sd_present d); cbn [negb]; [by apply set_segment_done | by apply (raise_refused CPU_EXCEPTION_NP)].
Qed.

(** C9: a segment register load follows the architecture but for two cases, which the statement
    names.  For any selector and register: when the selector is in its table's limit, its descriptor
    readable, a data or code segment (the S bit) of a type the register takes, with the privilege the
    register asks for, and present - or the selector null where that is allowed - the register gets
    the selector and the descriptor in guest memory and nothing else changes; otherwise an exception
    is pending and every segment register is as it was, the general registers too.  The two
    exceptions are the code's departures from the architecture: a system descriptor whose type would
    do for a segment is loaded, since the S bit is not looked at, and a null selector is refused for
    SS in 64-bit code where the architecture loads it. *)
Theorem segment_load_correct e seg_index selector
  (Hr : cpu_ready e) (Hidx : 0 <= seg_index < 6) (Hsel : in_word 16 selector) :
  let e' := final (load_segment_register seg_index selector) e in
  let loaded :=
    segment_set e seg_index (mkSeg selector (if selector <? 4 then zero_desc else guest_descriptor e selector)) e' in
  if system_descriptor_taken e seg_index selector then loaded
  else if null_stack_selector e seg_index selector then refused e e'
  else if segment_loadable e seg_index selector then loaded
  else refused e e'.
Proof.
  cbv zeta. pose proof (segment_load_spec e seg_index selector Hr Hidx Hsel) as Hs. cbv zeta in Hs.
  unfold system_descriptor_taken, segment_loadable.
  destruct (null_stack_selector e seg_index selector) eqn:En.
  - assert (Hn : segment_checked e seg_index selector = false).
    { unfold null_stack_selector in En. rewrite !andb_true_iff in En. destruct En as [[[[->%Z.eqb_eq En] _] _] _].
      unfold segment_checked. by rewrite En. }
    rewrite Hn in *. exact Hs.
  - destruct (segment_checked e seg_index selector); cbn [andb orb]; [| exact Hs].
    destruct (selector <? 4), (code_or_data e selector); exact Hs.
Qed.

End outcome.

(** ** A descriptor table at 0x1000 with a flat writable data segment in slot 1 *)
Module SegmentExample.
Import Bump EngineExample MemoryExample.

Definition gdt_context : CPU_CONTEXT := set_c_gdtr_limit 0x1F (set_c_gdtr_base 0x1000 (en_context machine)).
Definition gdt : cpueaxh_engine := set_en_context gdt_context machine.

Lemma gdt_ready : cpu_ready gdt.
Proof.
  assert (Ho : c_owner_engine gdt_context = c_owner_engine (en_context machine)) by (vm_compute; reflexivity).
  assert (Hx : cpu_has_exception gdt_context = false) by (vm_compute; reflexivity).
  exact (context_ready machine gdt_context machine_ready Ho Hx).
Qed.

Definition with_descriptor : cpueaxh_engine := final (write_memory_operand 0x1008 64 0x00CF93000000FFFF) gdt.

Lemma with_descriptor_ready : cpu_ready with_descriptor.
Proof.
  assert (Ha : in_word 64 0x1008) by zcompute. assert (Hos : operand_size_ok 64) by (by right; right; right).
  assert (H := write_operand_spec gdt 0x1008 64 0x00CF93000000FFFF gdt_ready Ha Hos).
  assert (first_fault gdt 0x1008 (64 / 8) MM_PROT_WRITE = None) as E by (vm_compute; reflexivity).
  rewrite E in H. exact (stored_ready _ _ _ _ H gdt_ready).
Qed.

(** SS takes selector 8; selector 0x20 is beyond the limit. *)
Lemma segment_load_correct_witness :
  segment_set with_descriptor SEG_SS (mkSeg 8 (mkDesc 0 0xFFFFFFFF 3 0 true true true false))
    (final (load_segment_register SEG_SS 8) with_descriptor) /\
  refused with_descriptor (final (load_segment_register SEG_DS 0x20) with_descriptor).
Proof.
  assert (Hss : 0 <= SEG_SS < 6) by zcompute. assert (Hds : 0 <= SEG_DS < 6) by zcompute.
  assert (H8 : in_word 16 8) by zcompute. assert (H20 : in_word 16 0x20) by zcompute.
  split.
  - assert (H := segment_load_correct with_descriptor SEG_SS 8 with_descriptor_ready Hss H8).
    assert (segment_loadable with_descriptor SEG_SS 8 = true) as E by (vm_compute; reflexivity).
    assert (system_descriptor_taken with_descriptor SEG_SS 8 = false) as E1 by (vm_compute; reflexivity).
    assert (null_stack_selector with_descriptor SEG_SS 8 = false) as E2 by (vm_compute; reflexivity).
    assert (guest_descriptor with_descriptor 8 = mkDesc 0 0xFFFFFFFF 3 0 true true true false) as Ed by (vm_compute; reflexivity).
    cbn zeta in H. rewrite E, E1, E2 in H. assert ((8 <? 4) = false) as E4 by reflexivity. rewrite E4, Ed in H. exact H.
  - assert (H := segment_load_correct with_descriptor SEG_DS 0x20 with_descriptor_ready Hds H20).
    assert (segment_loadable with_descriptor SEG_DS 0x20 = false) as E by (vm_compute; reflexivity).
    assert (system_descriptor_taken with_descriptor SEG_DS 0x20 = false) as E1 by (vm_compute; reflexivity).
    assert (null_stack_selector with_descriptor SEG_DS 0x20 = false) as E2 by (vm_compute; reflexivity).
    cbn zeta in H. rewrite E, E1, E2 in H. exact H.
Defined.

End SegmentExample.
