(* ===== verification/Alu.v ===== *)
(** * instructions/add, or, adc, sbb, and, sub, xor, cmp.hpp: the arithmetic and logic group

    Eight instruction files with one decoder up to the opcode, the ModRM group number and the
    treatment of LOCK: [decode_alu_instruction] is that decoder, applied to the eight families.
    The functions for one operand form at 8, 16, 32 and 64 bits (add_rm8_imm8, add_rm16_imm16, ...)
    are one definition over the width.  A memory operand is a guest address the decoder or the
    cached form's replay computed.  [rounds] bounds the retry loop of the locked forms.

    The theorems: every form of the eight instructions at every width computes the architecture's
    result and flags from its operands, in registers or memory, or leaves a fault pending. *)

From Stdlib Require Import ZArith Bool List Lia.
From stdpp Require Import base tactics list gmap.
From S2P Require Import Prelude CpuDef Flags HostMemory RegionTable RegionSplit Patches PageCache InstCache Machine CpuMemory Registers DispatchHelpers Stack.

(** ** Decoding *)

(** The opcode of the first form, the group number of the immediate forms, whether LOCK is an
    error as such (CMP), and whether the decoded instruction records it (OR, XOR). *)
Record AluFamily := mkFamily {
  af_base : Z;
  af_group : Z;
  af_lock_is_ud : bool;
  af_keeps_lock : bool;
}.

Definition add_family : AluFamily := mkFamily 0x00 0 false false.
Definition or_family : AluFamily := mkFamily 0x08 1 false true.
Definition adc_family : AluFamily := mkFamily 0x10 2 false false.
Definition sbb_family : AluFamily := mkFamily 0x18 3 false false.
Definition and_family : AluFamily := mkFamily 0x20 4 false false.
Definition sub_family : AluFamily := mkFamily 0x28 5 false false.
Definition xor_family : AluFamily := mkFamily 0x30 6 false true.
Definition cmp_family : AluFamily := mkFamily 0x38 7 true false.

Definition decode_modrm_alu (f : AluFamily) (code : list Z) (inst : DecodedInstruction) (offset : Z) (has_lock_prefix : bool)
  : ST CPU_CONTEXT (DecodedInstruction * Z) :=
  if size_of code <=? offset then st_modify (raise_gp_ctx 0) ;;; st_ret (inst, offset)
  else
    let inst := set_i_modrm (byte_at code offset) (set_i_has_modrm true inst) in
    let* (inst, offset, completed) := decode_sib_disp code inst (offset + 1) in
    (if completed && negb (af_lock_is_ud f) && has_lock_prefix && (modrm_mod (i_modrm inst) =? 3)
     then st_modify raise_ud_ctx else st_ret tt) ;;;
    st_ret (inst, offset).

Definition set_rex (prefix : Z) (ctx : CPU_CONTEXT) : CPU_CONTEXT :=
  set_c_rex_b (Z.testbit prefix 0) (set_c_rex_x (Z.testbit prefix 1)
    (set_c_rex_r (Z.testbit prefix 2) (set_c_rex_w (Z.testbit prefix 3) (set_c_rex_present true ctx)))).

(** The prefix loop over the bytes from [offset] on: where it stops and whether it met LOCK. *)
Fixpoint alu_prefix_loop (f : AluFamily) (code : list Z) (offset : Z) (lock : bool) : ST CPU_CONTEXT (Z * bool) :=
  match code with
  | [] => st_ret (offset, lock)
  | prefix :: code =>
      if prefix =? 0x66 then st_modify (set_c_operand_size_override true) ;;; alu_prefix_loop f code (offset + 1) lock
      else if prefix =? 0x67 then st_modify (set_c_address_size_override true) ;;; alu_prefix_loop f code (offset + 1) lock
      else if is_rex_byte prefix then st_modify (set_rex prefix) ;;; alu_prefix_loop f code (offset + 1) lock
      else if prefix =? 0xF0 then
        (if af_lock_is_ud f then st_modify raise_ud_ctx else st_ret tt) ;;;
        alu_prefix_loop f code (offset + 1) (lock || negb (af_lock_is_ud f))
      else if is_segment_prefix prefix || (prefix =? 0xF2) || (prefix =? 0xF3) then alu_prefix_loop f code (offset + 1) lock
      else st_ret (offset, lock)
  end.

(** [inst.imm_size] bytes at [offset]; [None] when they are not there. *)
Definition decode_alu_immediate (code : list Z) (inst : DecodedInstruction) (offset imm_size : Z)
  : ST CPU_CONTEXT (DecodedInstruction * Z * bool) :=
  let inst := set_i_imm_size imm_size inst in
  if size_of code <? offset + imm_size then st_modify (raise_gp_ctx 0) ;;; st_ret (inst, offset, false)
  else st_ret (set_i_immediate (field_value code offset imm_size) inst, offset + imm_size, true).

Definition wide_imm_size (ctx : CPU_CONTEXT) : Z :=
  if c_rex_w ctx then 4 else if c_operand_size_override ctx then 2 else 4.

Definition ud_if (b : bool) : ST CPU_CONTEXT unit := if b then st_modify raise_ud_ctx else st_ret tt.

(** [switch (inst.opcode)]; the flag is false on the early returns. *)
Definition decode_alu_operands (f : AluFamily) (code : list Z) (inst : DecodedInstruction) (offset : Z) (lock : bool)
  : ST CPU_CONTEXT (DecodedInstruction * Z * bool) :=
  let opcode := i_opcode inst in
  let base := af_base f in
  let byte_form := set_i_operand_size 8 inst in
  let modrm inst := let* (inst, offset) := decode_modrm_alu f code inst offset lock in st_ret (inst, offset, true) in
  let group inst imm_size :=
    let* (inst, offset) := decode_modrm_alu f code inst offset lock in
    ud_if (negb (Z.land (Z.shiftr (i_modrm inst) 3) 0x07 =? af_group f)) ;;;
    decode_alu_immediate code inst offset imm_size in
  let* wide := st_gets wide_imm_size in
  if opcode =? base + 4 then ud_if lock ;;; decode_alu_immediate code byte_form offset 1
  else if opcode =? base + 5 then ud_if lock ;;; decode_alu_immediate code inst offset wide
  else if opcode =? 0x80 then group byte_form 1
  else if opcode =? 0x81 then group inst wide
  else if opcode =? 0x83 then group inst 1
  else if opcode =? base then modrm byte_form
  else if opcode =? base + 1 then modrm inst
  else if opcode =? base + 2 then ud_if lock ;;; modrm byte_form
  else if opcode =? base + 3 then ud_if lock ;;; modrm inst
  else st_modify raise_ud_ctx ;;; st_ret (inst, offset, true).

Definition decode_alu_instruction (f : AluFamily) (code : list Z) : ST CPU_CONTEXT DecodedInstruction :=
  st_modify cpu_reset_prefix_state ;;;
  let* (offset, lock) := alu_prefix_loop f code 0 false in
  if size_of code <=? offset then st_modify (raise_gp_ctx 0) ;;; st_ret zero_inst
  else
    let* ctx := st_get in
    let operand_size := if c_rex_w ctx then 64 else if c_operand_size_override ctx then 16 else 32 in
    let address_size :=
      if cs_long_mode ctx then (if c_address_size_override ctx then 32 else 64)
      else if c_address_size_override ctx then 16 else 32 in
    let inst := set_i_address_size address_size (set_i_operand_size operand_size (set_i_opcode (byte_at code offset) zero_inst)) in
    let inst := if af_keeps_lock f then set_i_has_lock_prefix lock inst else inst in
    let* (inst, offset, completed) := decode_alu_operands f code inst (offset + 1) lock in
    if negb completed then st_ret inst
    else
      let* inst := finalize_rip_relative_address offset inst in
      st_modify (set_c_last_inst_size offset) ;;; st_ret inst.

Definition decode_modrm_add := decode_modrm_alu add_family.
Definition decode_modrm_or := decode_modrm_alu or_family.
Definition decode_modrm_adc := decode_modrm_alu adc_family.
Definition decode_modrm_sbb := decode_modrm_alu sbb_family.
Definition decode_modrm_and := decode_modrm_alu and_family.
Definition decode_modrm_sub := decode_modrm_alu sub_family.
Definition decode_modrm_xor := decode_modrm_alu xor_family.
Definition decode_modrm_cmp := decode_modrm_alu cmp_family.

Definition decode_add_operands := decode_alu_operands add_family.
Definition decode_or_operands := decode_alu_operands or_family.
Definition decode_adc_operands := decode_alu_operands adc_family.
Definition decode_sbb_operands := decode_alu_operands sbb_family.
Definition decode_and_operands := decode_alu_operands and_family.
Definition decode_sub_operands := decode_alu_operands sub_family.
Definition decode_xor_operands := decode_alu_operands xor_family.
Definition decode_cmp_operands := decode_alu_operands cmp_family.

Definition decode_add_instruction := decode_alu_instruction add_family.
Definition decode_or_instruction := decode_alu_instruction or_family.
Definition decode_adc_instruction := decode_alu_instruction adc_family.
Definition decode_sbb_instruction := decode_alu_instruction sbb_family.
Definition decode_and_instruction := decode_alu_instruction and_family.
Definition decode_sub_instruction := decode_alu_instruction sub_family.
Definition decode_xor_instruction := decode_alu_instruction xor_family.
Definition decode_cmp_instruction := decode_alu_instruction cmp_family.

(** ** Executing *)

(** The flag functions by width; the raw result has twice the width, 64 bits at most. *)
Definition raw_width (w : Z) : Z := if w =? 64 then 64 else 2 * w.
Definition update_flags_add_at (w dst src res : Z) : CPU_CONTEXT -> CPU_CONTEXT :=
  if w =? 8 then update_flags_add8 dst src res else if w =? 16 then update_flags_add16 dst src res
  else if w =? 32 then update_flags_add32 dst src res else update_flags_add64 dst src res.
Definition update_flags_sub_at (w dst src res : Z) : CPU_CONTEXT -> CPU_CONTEXT :=
  if w =? 8 then update_flags_sub8 dst src res else if w =? 16 then update_flags_sub16 dst src res
  else if w =? 32 then update_flags_sub32 dst src res else update_flags_sub64 dst src res.
Definition update_flags_adc_at (w dst src carry_in res : Z) : CPU_CONTEXT -> CPU_CONTEXT :=
  if w =? 8 then update_flags_adc8 dst src carry_in res else if w =? 16 then update_flags_adc16 dst src carry_in res
  else if w =? 32 then update_flags_adc32 dst src carry_in res else update_flags_adc64 dst src carry_in res.
Definition update_flags_sbb_at (w dst src borrow_in res : Z) : CPU_CONTEXT -> CPU_CONTEXT :=
  if w =? 8 then update_flags_sbb8 dst src borrow_in res else if w =? 16 then update_flags_sbb16 dst src borrow_in res
  else if w =? 32 then update_flags_sbb32 dst src borrow_in res else update_flags_sbb64 dst src borrow_in res.
Definition update_flags_and_at (w res : Z) : CPU_CONTEXT -> CPU_CONTEXT :=
  if w =? 8 then update_flags_and8 res else if w =? 16 then update_flags_and16 res
  else if w =? 32 then update_flags_and32 res else update_flags_and64 res.
Definition update_or_logic_flags (w res : Z) : CPU_CONTEXT -> CPU_CONTEXT :=
  if w =? 8 then update_flags_or8 (u8 res) else if w =? 16 then update_flags_or16 (u16 res)
  else if w =? 32 then update_flags_or32 (u32 res) else if w =? 64 then update_flags_or64 res else raise_ud_ctx.
Definition update_xor_logic_flags (w res : Z) : CPU_CONTEXT -> CPU_CONTEXT :=
  if w =? 8 then update_flags_xor8 (u8 res) else if w =? 16 then update_flags_xor16 (u16 res)
  else if w =? 32 then update_flags_xor32 (u32 res) else if w =? 64 then update_flags_xor64 res else raise_ud_ctx.

Section execute.
Context `{Callbacks}.

(** The register numbers of the ModRM fields. *)
Definition rm_index (modrm : Z) (ctx : CPU_CONTEXT) : Z := rex_extend (c_rex_b ctx) (modrm_rm modrm).
Definition reg_index (modrm : Z) (ctx : CPU_CONTEXT) : Z := rex_extend (c_rex_r ctx) (Z.land (Z.shiftr modrm 3) 0x07).

Definition read_rm (w modrm mem_addr : Z) : ST cpueaxh_engine Z :=
  if modrm_mod modrm =? 3 then get_ctx (fun ctx => get_reg w ctx (rm_index modrm ctx)) else read_memory_operand mem_addr w.
Definition write_rm (w modrm mem_addr value : Z) : ST cpueaxh_engine unit :=
  if modrm_mod modrm =? 3 then mod_ctx (fun ctx => set_reg w (rm_index modrm ctx) value ctx)
  else write_memory_operand mem_addr w value.
Definition read_reg (w modrm : Z) : ST cpueaxh_engine Z := get_ctx (fun ctx => get_reg w ctx (reg_index modrm ctx)).
Definition write_reg (w modrm value : Z) : ST cpueaxh_engine unit := mod_ctx (fun ctx => set_reg w (reg_index modrm ctx) value ctx).

(** [ctx->regs[REG_RAX]] masked to the width, and merged with a result. *)
Definition read_acc (w : Z) : ST cpueaxh_engine Z :=
  get_ctx (fun ctx => if w =? 64 then reg_at ctx REG_RAX else Z.land (reg_at ctx REG_RAX) (Z.ones w)).
Definition write_acc (w value : Z) : ST cpueaxh_engine unit :=
  mod_ctx (fun ctx =>
    set_reg_at REG_RAX (if w <=? 16 then Z.lor (Z.ldiff (reg_at ctx REG_RAX) (Z.ones w)) value else value) ctx).

Definition carry_flag (ctx : CPU_CONTEXT) : Z := if has_bits (c_rflags ctx) RFLAGS_CF then 1 else 0.

(** The arithmetic between reading the operands and storing the result. *)
Definition add_value (w dst src : Z) : ST cpueaxh_engine Z :=
  let result := wrap (raw_width w) (dst + src) in mod_ctx (update_flags_add_at w dst src result) ;;; st_ret (wrap w result).
Definition sub_value (w dst src : Z) : ST cpueaxh_engine Z :=
  let result := wrap (raw_width w) (dst - src) in mod_ctx (update_flags_sub_at w dst src result) ;;; st_ret (wrap w result).
Definition and_value (w dst src : Z) : ST cpueaxh_engine Z :=
  let result := Z.land dst src in mod_ctx (update_flags_and_at w result) ;;; st_ret result.
Definition adc_value (w dst src : Z) : ST cpueaxh_engine Z :=
  let* carry_in := get_ctx carry_flag in
  let result := wrap (raw_width w) (dst + src + carry_in) in
  mod_ctx (update_flags_adc_at w dst src carry_in result) ;;; st_ret (wrap w result).
Definition sbb_value (w dst src : Z) : ST cpueaxh_engine Z :=
  let* borrow_in := get_ctx carry_flag in
  let result := wrap (raw_width w) (dst - src - borrow_in) in
  mod_ctx (update_flags_sbb_at w dst src borrow_in result) ;;; st_ret (wrap w result).
Definition or_value (w dst src : Z) : ST cpueaxh_engine Z :=
  let result := Z.lor dst src in mod_ctx (update_or_logic_flags w result) ;;; st_ret result.
Definition xor_value (w dst src : Z) : ST cpueaxh_engine Z :=
  let result := Z.lxor dst src in mod_ctx (update_xor_logic_flags w result) ;;; st_ret result.

(** The shapes of the operand forms. *)
Definition acc_form (w : Z) (value : Z -> Z -> ST cpueaxh_engine Z) (imm : Z) : ST cpueaxh_engine unit :=
  let* dst := read_acc w in let* result := value dst imm in write_acc w result.
Definition rm_form (w : Z) (value : Z -> Z -> ST cpueaxh_engine Z) (modrm mem_addr src : Z) : ST cpueaxh_engine unit :=
  let* dst := read_rm w modrm mem_addr in let* result := value dst src in write_rm w modrm mem_addr result.
Definition rm_r_form (w : Z) (value : Z -> Z -> ST cpueaxh_engine Z) (modrm mem_addr : Z) : ST cpueaxh_engine unit :=
  let* src := read_reg w modrm in rm_form w value modrm mem_addr src.
Definition r_rm_form (w : Z) (value : Z -> Z -> ST cpueaxh_engine Z) (modrm mem_addr : Z) : ST cpueaxh_engine unit :=
  let* reg := get_ctx (reg_index modrm) in
  let* dst := read_reg w modrm in let* src := read_rm w modrm mem_addr in
  let* result := value dst src in mod_ctx (set_reg w reg result).

(** The files with operand helpers look the register number up again, and ADC and SBB read the
    destination first. *)
Definition rm_r_form_dst_first (w : Z) (value : Z -> Z -> ST cpueaxh_engine Z) (modrm mem_addr : Z) : ST cpueaxh_engine unit :=
  let* dst := read_rm w modrm mem_addr in let* src := read_reg w modrm in
  let* result := value dst src in write_rm w modrm mem_addr result.
Definition r_rm_form_by_helpers (w : Z) (value : Z -> Z -> ST cpueaxh_engine Z) (modrm mem_addr : Z) : ST cpueaxh_engine unit :=
  let* dst := read_reg w modrm in let* src := read_rm w modrm mem_addr in
  let* result := value dst src in write_reg w modrm result.

(** ADD, SUB, AND. *)
Definition add_acc_imm (w imm : Z) := acc_form w (add_value w) imm.
Definition add_rm_imm (w modrm mem_addr imm : Z) := rm_form w (add_value w) modrm mem_addr imm.
Definition add_rm_imm8 (w modrm mem_addr imm : Z) := rm_form w (add_value w) modrm mem_addr (wrap w imm).
Definition add_rm_r (w modrm mem_addr : Z) := rm_r_form w (add_value w) modrm mem_addr.
Definition add_r_rm (w modrm mem_addr : Z) := r_rm_form w (add_value w) modrm mem_addr.

Definition sub_acc_imm (w imm : Z) := acc_form w (sub_value w) imm.
Definition sub_rm_imm (w modrm mem_addr imm : Z) := rm_form w (sub_value w) modrm mem_addr imm.
Definition sub_rm_imm8 (w modrm mem_addr imm : Z) := rm_form w (sub_value w) modrm mem_addr (wrap w imm).
Definition sub_rm_r (w modrm mem_addr : Z) := rm_r_form w (sub_value w) modrm mem_addr.
Definition sub_r_rm (w modrm mem_addr : Z) := r_rm_form w (sub_value w) modrm mem_addr.

Definition and_acc_imm (w imm : Z) := acc_form w (and_value w) imm.
Definition and_rm_imm (w modrm mem_addr imm : Z) := rm_form w (and_value w) modrm mem_addr imm.
Definition and_rm_imm8 (w modrm mem_addr imm : Z) := rm_form w (and_value w) modrm mem_addr (wrap w imm).
Definition and_rm_r (w modrm mem_addr : Z) := rm_r_form w (and_value w) modrm mem_addr.
Definition and_r_rm (w modrm mem_addr : Z) := r_rm_form w (and_value w) modrm mem_addr.

(** CMP subtracts and stores nothing. *)
Definition cmp_values (w dst src : Z) : ST cpueaxh_engine unit :=
  mod_ctx (update_flags_sub_at w dst src (wrap (raw_width w) (dst - src))).
Definition cmp_acc_imm (w imm : Z) := let* dst := read_acc w in cmp_values w dst imm.
Definition cmp_rm_imm (w modrm mem_addr imm : Z) := let* dst := read_rm w modrm mem_addr in cmp_values w dst imm.
Definition cmp_rm_imm8 (w modrm mem_addr imm : Z) := let* dst := read_rm w modrm mem_addr in cmp_values w dst (wrap w imm).
Definition cmp_rm_r (w modrm mem_addr : Z) :=
  let* src := read_reg w modrm in let* dst := read_rm w modrm mem_addr in cmp_values w dst src.
Definition cmp_r_rm (w modrm mem_addr : Z) :=
  let* dst := read_reg w modrm in let* src := read_rm w modrm mem_addr in cmp_values w dst src.

(** ADC and SBB. *)
Definition adc_acc_imm (w imm : Z) := acc_form w (adc_value w) imm.
Definition adc_rm_imm (w modrm mem_addr imm : Z) := rm_form w (adc_value w) modrm mem_addr imm.
Definition adc_rm_imm8 (w modrm mem_addr imm : Z) := rm_form w (adc_value w) modrm mem_addr (wrap w imm).
Definition adc_rm_r (w modrm mem_addr : Z) := rm_r_form_dst_first w (adc_value w) modrm mem_addr.
Definition adc_r_rm (w modrm mem_addr : Z) := r_rm_form_by_helpers w (adc_value w) modrm mem_addr.

Definition sbb_acc_imm (w imm : Z) := acc_form w (sbb_value w) imm.
Definition sbb_rm_imm (w modrm mem_addr imm : Z) := rm_form w (sbb_value w) modrm mem_addr imm.
Definition sbb_rm_imm8 (w modrm mem_addr imm : Z) := rm_form w (sbb_value w) modrm mem_addr (wrap w imm).
Definition sbb_rm_r (w modrm mem_addr : Z) := rm_r_form_dst_first w (sbb_value w) modrm mem_addr.
Definition sbb_r_rm (w modrm mem_addr : Z) := r_rm_form_by_helpers w (sbb_value w) modrm mem_addr.

(** OR and XOR: the accumulator through the register accessors, LOCK through the atomic
    operations. *)
Definition or_acc_imm (w imm : Z) : ST cpueaxh_engine unit :=
  let* dst := get_ctx (fun ctx => get_reg w ctx REG_RAX) in
  let result := Z.lor dst imm in mod_ctx (update_or_logic_flags w result) ;;; mod_ctx (set_reg w REG_RAX result).
Definition xor_acc_imm (w imm : Z) : ST cpueaxh_engine unit :=
  let* dst := get_ctx (fun ctx => get_reg w ctx REG_RAX) in
  let result := Z.lxor dst imm in mod_ctx (update_xor_logic_flags w result) ;;; mod_ctx (set_reg w REG_RAX result).

Variable rounds : nat.

Definition locked_form (atomic : ST cpueaxh_engine (option (bool * Z * Z))) (flags : Z -> CPU_CONTEXT -> CPU_CONTEXT)
  : ST cpueaxh_engine unit :=
  let* done := atomic in
  match done with Some (true, _, new_value) => mod_ctx (flags new_value) | _ => st_ret tt end.

Definition or_rm_imm (w modrm mem_addr imm : Z) (lock : bool) : ST cpueaxh_engine unit :=
  if lock && negb (modrm_mod modrm =? 3)
  then locked_form (cpu_atomic_or_memory rounds mem_addr w imm) (update_or_logic_flags w)
  else rm_form w (or_value w) modrm mem_addr imm.
Definition or_rm_r (w modrm mem_addr : Z) (lock : bool) : ST cpueaxh_engine unit :=
  let* src := read_reg w modrm in or_rm_imm w modrm mem_addr src lock.
Definition or_r_rm (w modrm mem_addr : Z) := r_rm_form_by_helpers w (or_value w) modrm mem_addr.

Definition xor_rm_imm (w modrm mem_addr imm : Z) (lock : bool) : ST cpueaxh_engine unit :=
  if lock && negb (modrm_mod modrm =? 3)
  then locked_form (cpu_atomic_xor_memory rounds mem_addr w imm) (update_xor_logic_flags w)
  else rm_form w (xor_value w) modrm mem_addr imm.
Definition xor_rm_r (w modrm mem_addr : Z) (lock : bool) : ST cpueaxh_engine unit :=
  let* src := read_reg w modrm in xor_rm_imm w modrm mem_addr src lock.
Definition xor_r_rm (w modrm mem_addr : Z) := r_rm_form_by_helpers w (xor_value w) modrm mem_addr.

(** ** Dispatch on the opcode *)

(** The operand sizes of the wide forms: from the prefix state, or from the decoded instruction. *)
Definition prefix_width (ctx : CPU_CONTEXT) : Z := if c_rex_w ctx then 64 else if c_operand_size_override ctx then 16 else 32.
Definition size_width (inst : DecodedInstruction) : Z :=
  if i_operand_size inst =? 64 then 64 else if i_operand_size inst =? 16 then 16 else 32.

(** [(int32_t)immediate] extended to 64 bits, [(uint16_t)], [(uint32_t)]. *)
Definition wide_immediate (w imm : Z) : Z := if w =? 64 then u64 (sext 32 imm) else wrap w imm.

(** The switch the eight executors share, over their five forms. *)
Definition alu_switch (base : Z) (inst : DecodedInstruction) (w : Z) (otherwise : ST cpueaxh_engine unit)
  (acc_imm : Z -> Z -> ST cpueaxh_engine unit) (rm_imm rm_imm8 : Z -> Z -> Z -> Z -> ST cpueaxh_engine unit)
  (rm_r r_rm : Z -> Z -> Z -> ST cpueaxh_engine unit) : ST cpueaxh_engine unit :=
  let opcode := i_opcode inst in
  let modrm := i_modrm inst in
  let mem := i_mem_address inst in
  let imm := i_immediate inst in
  if opcode =? base + 4 then acc_imm 8 (u8 imm)
  else if opcode =? base + 5 then acc_imm w (wide_immediate w imm)
  else if opcode =? 0x80 then rm_imm 8 modrm mem (u8 imm)
  else if opcode =? 0x81 then rm_imm w modrm mem (wide_immediate w imm)
  else if opcode =? 0x83 then rm_imm8 w modrm mem (sext 8 imm)
  else if opcode =? base then rm_r 8 modrm mem
  else if opcode =? base + 1 then rm_r w modrm mem
  else if opcode =? base + 2 then r_rm 8 modrm mem
  else if opcode =? base + 3 then r_rm w modrm mem
  else otherwise.

Definition execute_add_with_decoded (inst : DecodedInstruction) : ST cpueaxh_engine unit :=
  let* w := get_ctx prefix_width in
  alu_switch 0x00 inst w (st_ret tt) add_acc_imm add_rm_imm add_rm_imm8 add_rm_r add_r_rm.
Definition execute_sub_with_decoded (inst : DecodedInstruction) : ST cpueaxh_engine unit :=
  let* w := get_ctx prefix_width in
  alu_switch 0x28 inst w (st_ret tt) sub_acc_imm sub_rm_imm sub_rm_imm8 sub_rm_r sub_r_rm.
Definition execute_and_with_decoded (inst : DecodedInstruction) : ST cpueaxh_engine unit :=
  let* w := get_ctx prefix_width in
  alu_switch 0x20 inst w (st_ret tt) and_acc_imm and_rm_imm and_rm_imm8 and_rm_r and_r_rm.
Definition execute_cmp_with_decoded (inst : DecodedInstruction) : ST cpueaxh_engine unit :=
  let* w := get_ctx prefix_width in
  alu_switch 0x38 inst w (st_ret tt) cmp_acc_imm cmp_rm_imm cmp_rm_imm8 cmp_rm_r cmp_r_rm.
Definition execute_adc_with_decoded (inst : DecodedInstruction) : ST cpueaxh_engine unit :=
  alu_switch 0x10 inst (size_width inst) (mod_ctx raise_ud_ctx) adc_acc_imm adc_rm_imm adc_rm_imm8 adc_rm_r adc_r_rm.
Definition execute_sbb_with_decoded (inst : DecodedInstruction) : ST cpueaxh_engine unit :=
  alu_switch 0x18 inst (size_width inst) (mod_ctx raise_ud_ctx) sbb_acc_imm sbb_rm_imm sbb_rm_imm8 sbb_rm_r sbb_r_rm.
Definition execute_or_with_decoded (inst : DecodedInstruction) : ST cpueaxh_engine unit :=
  let* w := get_ctx prefix_width in
  let lock := i_has_lock_prefix inst in
  alu_switch 0x08 inst w (st_ret tt) or_acc_imm (fun w m a i => or_rm_imm w m a i lock)
    (fun w m a i => or_rm_imm w m a (wrap w i) lock) (fun w m a => or_rm_r w m a lock) or_r_rm.
Definition execute_xor_with_decoded (inst : DecodedInstruction) : ST cpueaxh_engine unit :=
  let* w := get_ctx prefix_width in
  let lock := i_has_lock_prefix inst in
  alu_switch 0x30 inst w (st_ret tt) xor_acc_imm (fun w m a i => xor_rm_imm w m a i lock)
    (fun w m a i => xor_rm_imm w m a (wrap w i) lock) (fun w m a => xor_rm_r w m a lock) xor_r_rm.

(** [execute_*(ctx, code, code_size)]: decode, then execute unless decoding raised. *)
Definition execute_decoded (decode : list Z -> ST CPU_CONTEXT DecodedInstruction)
  (execute : DecodedInstruction -> ST cpueaxh_engine unit) (code : list Z) : ST cpueaxh_engine unit :=
  let* inst := on_ctx (decode code) in
  let* faulted := get_ctx cpu_has_exception in
  if faulted then st_ret tt else execute inst.

(** [execute_*_fast(ctx, dec)]: the cached instruction, its address computed again for memory. *)
Definition replay_prefix (dec : DecodedInst) : ST cpueaxh_engine unit :=
  mod_ctx (decoded_inst_apply_prefix dec) ;;; mod_ctx (set_c_last_inst_size (d_length dec)).
Definition execute_cached (execute : DecodedInstruction -> ST cpueaxh_engine unit) (dec : DecodedInst) : ST cpueaxh_engine unit :=
  replay_prefix dec ;;;
  let cached := d_cached dec in
  if negb (decoded_inst_needs_mem_recompute cached) then execute cached
  else
    let* address := on_ctx (get_effective_address (i_modrm cached) (i_sib cached) (i_displacement cached)
                              (i_address_size cached) (d_length dec)) in
    execute (set_i_mem_address address cached).
Definition execute_as_cached (execute : DecodedInstruction -> ST cpueaxh_engine unit) (dec : DecodedInst) : ST cpueaxh_engine unit :=
  replay_prefix dec ;;; execute (d_cached dec).

Definition execute_add := execute_decoded decode_add_instruction execute_add_with_decoded.
Definition execute_or := execute_decoded decode_or_instruction execute_or_with_decoded.
Definition execute_adc := execute_decoded decode_adc_instruction execute_adc_with_decoded.
Definition execute_sbb := execute_decoded decode_sbb_instruction execute_sbb_with_decoded.
Definition execute_and := execute_decoded decode_and_instruction execute_and_with_decoded.
Definition execute_sub := execute_decoded decode_sub_instruction execute_sub_with_decoded.
Definition execute_xor := execute_decoded decode_xor_instruction execute_xor_with_decoded.
Definition execute_cmp := execute_decoded decode_cmp_instruction execute_cmp_with_decoded.

Definition execute_add_fast := execute_cached execute_add_with_decoded.
Definition execute_or_fast := execute_cached execute_or_with_decoded.
Definition execute_adc_fast := execute_as_cached execute_adc_with_decoded.
Definition execute_sbb_fast := execute_as_cached execute_sbb_with_decoded.
Definition execute_and_fast := execute_cached execute_and_with_decoded.
Definition execute_sub_fast := execute_cached execute_sub_with_decoded.
Definition execute_xor_fast := execute_cached execute_xor_with_decoded.
Definition execute_cmp_fast := execute_cached execute_cmp_with_decoded.

End execute.

(** ** What the instructions compute *)

Inductive alu_op := ADD | OR | ADC | SBB | AND | SUB | XOR | CMP.

Definition family_of (op : alu_op) : AluFamily :=
  match op with
  | ADD => add_family | OR => or_family | ADC => adc_family | SBB => sbb_family
  | AND => and_family | SUB => sub_family | XOR => xor_family | CMP => cmp_family
  end.

Definition alu_writes (op : alu_op) : bool := match op with CMP => false | _ => true end.

(** The exact result before it is truncated, with the carry flag [c] as 0 or 1. *)
Definition alu_exact (op : alu_op) (c d s : Z) : Z :=
  match op with
  | ADD => d + s | ADC => d + s + c | SUB | CMP => d - s | SBB => d - s - c
  | AND => Z.land d s | OR => Z.lor d s | XOR => Z.lxor d s
  end.

(** The six arithmetic flags; the logical instructions leave AF as it was. *)
Definition alu_flags (op : alu_op) (w c : Z) (af : bool) (d s : Z) : arith_flags :=
  match op with
  | ADD => add_spec w d s 0 | ADC => add_spec w d s c
  | SUB | CMP => sub_spec w d s 0 | SBB => sub_spec w d s c
  | AND | OR | XOR => logic_spec w (alu_exact op c d s) af
  end.

(** [ctx'] is [ctx] with the flags of an operation. *)
Definition alu_context (op : alu_op) (w d s : Z) (ctx ctx' : CPU_CONTEXT) : Prop :=
  ctx_flags_written (alu_flags op w (carry_flag ctx) (Z.testbit (c_rflags ctx) 4) d s) ctx ctx'.

Lemma reg_width_bounds w : reg_width w -> 8 <= w <= 64 /\ operand_size_ok w.
Proof. intros [-> | [-> | [-> | ->]]]; unfold operand_size_ok; lia. Qed.

Lemma carry_flag_bit ctx : 0 <= carry_flag ctx <= 1.
Proof. unfold carry_flag. destruct (has_bits _ _); lia. Qed.

Lemma raw_wrap w x : reg_width w -> wrap w (wrap (raw_width w) x) = wrap w x.
Proof. intros [-> | [-> | [-> | ->]]]; apply wrap_wrap_le; cbn; lia. Qed.

Lemma lxor_in_word (w a b : Z) : 0 <= w -> in_word w a -> in_word w b -> in_word w (Z.lxor a b).
Proof.
  intros Hw Ha Hb. replace (Z.lxor a b) with (wrap w (Z.lxor a b)); [by apply wrap_range|].
  bitwise. destruct (Z.ltb_spec i w); [done|]. by rewrite (testbit_high w a), (testbit_high w b) by (done || lia).
Qed.

(** Each flag function at each width writes the flags of its operation. *)
Ltac at_width narrow wide :=
  intros [-> | [-> | [-> | ->]]]; intros;
  unfold update_flags_add_at, update_flags_sub_at, update_flags_adc_at, update_flags_sbb_at, raw_width; cbn [Z.eqb Pos.eqb Z.mul Pos.mul];
  [by apply (narrow 8) | by apply (narrow 16) | by apply (narrow 32) | by apply wide].

Lemma add_at_written w d s ctx :
  reg_width w -> in_word w d -> in_word w s -> cpu_has_exception ctx = false ->
  ctx_flags_written (add_spec w d s 0) ctx (update_flags_add_at w d s (wrap (raw_width w) (d + s)) ctx).
Proof. at_width add_flags_written add64_narrow. Qed.

Lemma sub_at_written w d s ctx :
  reg_width w -> in_word w d -> in_word w s -> cpu_has_exception ctx = false ->
  ctx_flags_written (sub_spec w d s 0) ctx (update_flags_sub_at w d s (wrap (raw_width w) (d - s)) ctx).
Proof. at_width sub_flags_written sub64_flags_written. Qed.

Lemma adc_at_written w d s c ctx :
  reg_width w -> in_word w d -> in_word w s -> 0 <= c <= 1 -> cpu_has_exception ctx = false ->
  ctx_flags_written (add_spec w d s c) ctx (update_flags_adc_at w d s c (wrap (raw_width w) (d + s + c)) ctx).
Proof. at_width adc_flags_written adc64_narrow. Qed.

Lemma sbb_at_written w d s c ctx :
  reg_width w -> in_word w d -> in_word w s -> 0 <= c <= 1 -> cpu_has_exception ctx = false ->
  ctx_flags_written (sub_spec w d s c) ctx (update_flags_sbb_at w d s c (wrap (raw_width w) (d - s - c)) ctx).
Proof. at_width sbb_flags_written sbb64_flags_written. Qed.

(** The logical flag functions are one function at every width. *)
Lemma logic_at w r : reg_width w -> in_word w r ->
  update_flags_and_at w r = update_flags_logic w r /\ update_or_logic_flags w r = update_flags_logic w r /\
  update_xor_logic_flags w r = update_flags_logic w r.
Proof.
  intros [-> | [-> | [-> | ->]]] Hr; unfold update_flags_and_at, update_or_logic_flags, update_xor_logic_flags; cbn [Z.eqb Pos.eqb];
    rewrite ?(wrap_small _ r Hr); done.
Qed.

Lemma exact_logic_word op w c d s :
  op = AND \/ op = OR \/ op = XOR -> reg_width w -> in_word w d -> in_word w s -> in_word w (alu_exact op c d s).
Proof.
  intros Hop Hw Hd Hs. destruct (reg_width_bounds w Hw) as [? _].
  destruct Hop as [-> | [-> | ->]]; cbn; [apply land_in_word; [lia | done | apply Hs] | apply lor_in_word | apply lxor_in_word]; done || lia.
Qed.

Section values.
Context `{Callbacks}.

(** The arithmetic of each instruction. *)
Definition alu_value (op : alu_op) (w d s : Z) : ST cpueaxh_engine Z :=
  match op with
  | ADD => add_value w d s | OR => or_value w d s | ADC => adc_value w d s | SBB => sbb_value w d s
  | AND => and_value w d s | SUB => sub_value w d s | XOR => xor_value w d s
  | CMP => cmp_values w d s ;;; st_ret 0
  end.

Lemma value_spec op w d s e :
  reg_width w -> in_word w d -> in_word w s -> cpu_has_exception (en_context e) = false ->
  exists r ctx', alu_value op w d s e = (r, set_en_context ctx' e) /\ alu_context op w d s (en_context e) ctx' /\
    (alu_writes op = true -> r = wrap w (alu_exact op (carry_flag (en_context e)) d s)).
Proof.
  intros Hw Hd Hs Hx. pose proof (carry_flag_bit (en_context e)) as Hc.
  pose proof (fun op Hop => exact_logic_word op w 0 d s Hop Hw Hd Hs) as Hlog.
  destruct op; unfold alu_value, add_value, sub_value, and_value, or_value, xor_value, adc_value, sbb_value, cmp_values,
    st_bind, mod_ctx, st_modify, get_ctx, st_gets, st_ret; (eexists _, _; split; [reflexivity | split]);
    unfold alu_context; cbn [alu_flags alu_writes alu_exact].
  - by apply add_at_written.
  - intros _. by rewrite raw_wrap.
  - pose proof (Hlog OR (or_intror (or_introl eq_refl))) as Hl. cbn [alu_exact] in Hl. destruct (logic_at w _ Hw Hl) as (_ & -> & _).
    apply logic_flags_written; [destruct (reg_width_bounds w Hw); lia | done | done].
  - intros _. symmetry. apply wrap_small, (Hlog OR (or_intror (or_introl eq_refl))).
  - by apply adc_at_written.
  - intros _. by rewrite raw_wrap.
  - by apply sbb_at_written.
  - intros _. by rewrite raw_wrap.
  - pose proof (Hlog AND (or_introl eq_refl)) as Hl. cbn [alu_exact] in Hl. destruct (logic_at w _ Hw Hl) as (-> & _).
    apply logic_flags_written; [destruct (reg_width_bounds w Hw); lia | done | done].
  - intros _. symmetry. apply wrap_small, (Hlog AND (or_introl eq_refl)).
  - by apply sub_at_written.
  - intros _. by rewrite raw_wrap.
  - pose proof (Hlog XOR (or_intror (or_intror eq_refl))) as Hl. cbn [alu_exact] in Hl. destruct (logic_at w _ Hw Hl) as (_ & _ & ->).
    apply logic_flags_written; [destruct (reg_width_bounds w Hw); lia | done | done].
  - intros _. symmetry. apply wrap_small, (Hlog XOR (or_intror (or_intror eq_refl))).
  - by apply sub_at_written.
  - done.
Qed.

(** With an exception pending nothing is computed: the flags stay. *)
Lemma value_pending op w d s e :
  cpu_has_exception (en_context e) = true -> snd (alu_value op w d s e) = e.
Proof.
  intros Hx. assert (Hset : forall e', e' = set_en_context (en_context e) e -> e' = e) by (intros ? ->; by destruct e).
  destruct op; unfold alu_value, add_value, sub_value, and_value, or_value, xor_value, adc_value, sbb_value, cmp_values,
    st_bind, mod_ctx, st_modify, get_ctx, st_gets, st_ret; cbn [snd]; apply Hset; f_equal;
    unfold update_flags_add_at, update_flags_sub_at, update_flags_adc_at, update_flags_sbb_at, update_flags_and_at,
      update_or_logic_flags, update_xor_logic_flags;
    repeat match goal with |- context [if ?b then _ else _] => destruct b end;
    unfold update_flags_add8, update_flags_add16, update_flags_add32, update_flags_add_narrow, update_flags_add64,
      update_flags_sub8, update_flags_sub16, update_flags_sub32, update_flags_sub_narrow, update_flags_sub64,
      update_flags_adc8, update_flags_adc16, update_flags_adc32, update_flags_adc_narrow, update_flags_adc64,
      update_flags_sbb8, update_flags_sbb16, update_flags_sbb32, update_flags_sbb_narrow, update_flags_sbb64,
      update_flags_or8, update_flags_or16, update_flags_or32, update_flags_or64, update_flags_xor8, update_flags_xor16,
      update_flags_xor32, update_flags_xor64, update_flags_and8, update_flags_and16, update_flags_and32, update_flags_and64,
      update_flags_logic, set_sf_zf; cbv zeta;
    rewrite ?set_flag_pending by (rewrite ?set_flag_has_exception; exact Hx);
    unfold raise_ud_ctx, cpu_raise_exception; rewrite ?Hx; reflexivity.
Qed.

End values.

(** ** Operands *)

Inductive operand := Reg (reg : Z) | Mem (address : Z) | Imm (value : Z).

Definition operand_value (e : cpueaxh_engine) (w : Z) (o : operand) : Z :=
  match o with
  | Reg reg => get_reg w (en_context e) reg
  | Mem address => guest_value e address (w / 8)
  | Imm value => value
  end.

Definition operand_fault (e : cpueaxh_engine) (w access : Z) (o : operand) : option (Z * verdict) :=
  match o with Mem address => first_fault e address (w / 8) access | _ => None end.

Definition operand_ok (w : Z) (o : operand) : Prop :=
  match o with Reg _ => True | Mem address => in_word 64 address | Imm value => in_word w value end.

(** The fault is pending; no memory and nothing but general registers, flags and CR2 may differ. *)
Definition abandoned (e : cpueaxh_engine) (access : Z) (v : verdict) (address : Z) (e' : cpueaxh_engine) : Prop :=
  v <> V_OK /\ c_exception (en_context e') = c_exception (raise_verdict v address access (en_context e)) /\
  cpu_has_exception (en_context e') = true /\ keeps_context e e' /\
  ms_heap (en_mem e') = ms_heap (en_mem e) /\ forall a, access_view (en_mem e') a = access_view (en_mem e) a.

(** The effect of [dst := op dst src] on operands of [w] bits: the fault of an operand that cannot
    be read, or of a destination that cannot be written; else the flags and the result. *)
Definition alu_effect (op : alu_op) (w : Z) (dst src : operand) (e e' : cpueaxh_engine) : Prop :=
  match operand_fault e w MM_PROT_READ dst, operand_fault e w MM_PROT_READ src with
  | Some (ad, v), _ | None, Some (ad, v) => abandoned e MM_PROT_READ v ad e'
  | None, None =>
      let d := operand_value e w dst in
      let s := operand_value e w src in
      let r := wrap w (alu_exact op (carry_flag (en_context e)) d s) in
      match (if alu_writes op then operand_fault e w MM_PROT_WRITE dst else None) with
      | Some (ad, v) => abandoned e MM_PROT_WRITE v ad e'
      | None =>
          exists ctx', alu_context op w d s (en_context e) ctx' /\
            if alu_writes op then
              match dst with
              | Reg reg => same_cpu (set_en_context (set_reg w reg r ctx') e) e'
              | Mem address => stored (set_en_context ctx' e) (hosts_of e address (w / 8)) r e'
              | Imm _ => True
              end
            else same_cpu (set_en_context ctx' e) e'
      end
  end.

Lemma get_reg_in_word w ctx reg : reg_width w -> regs_wf ctx -> in_word w (get_reg w ctx reg).
Proof.
  intros Hw Hwf. rewrite (get_reg_slice w ctx reg) by done. apply wrap_range. destruct (reg_width_bounds w Hw); lia.
Qed.

Lemma operand_in_word e w o :
  cpu_ready e -> regs_wf (en_context e) -> reg_width w -> operand_ok w o -> operand_fault e w MM_PROT_READ o = None ->
  in_word w (operand_value e w o).
Proof.
  intros Hr Hwf Hw Ho Hf. destruct (reg_width_bounds w Hw) as [Hb Hos]. destruct o; cbn in *.
  - by apply get_reg_in_word.
  - rewrite <- (guest_value_wrap e address w MM_PROT_READ (proj1 Hr) Hos Hf). apply wrap_range. lia.
  - done.
Qed.

(** ** The forms read, compute and store *)

Ltac unfold_flag_functions :=
  unfold update_flags_add_at, update_flags_sub_at, update_flags_adc_at, update_flags_sbb_at, update_flags_and_at,
    update_or_logic_flags, update_xor_logic_flags;
  repeat match goal with |- context [if ?b then _ else _] => destruct b end;
  unfold update_flags_add8, update_flags_add16, update_flags_add32, update_flags_add_narrow, update_flags_add64,
    update_flags_sub8, update_flags_sub16, update_flags_sub32, update_flags_sub_narrow, update_flags_sub64,
    update_flags_adc8, update_flags_adc16, update_flags_adc32, update_flags_adc_narrow, update_flags_adc64,
    update_flags_sbb8, update_flags_sbb16, update_flags_sbb32, update_flags_sbb_narrow, update_flags_sbb64,
    update_flags_or8, update_flags_or16, update_flags_or32, update_flags_or64, update_flags_xor8, update_flags_xor16,
    update_flags_xor32, update_flags_xor64, update_flags_and8, update_flags_and16, update_flags_and32, update_flags_and64,
    update_flags_logic, set_sf_zf; cbv zeta.

(** The REX bits that number registers. *)
Definition rex_bits (e : cpueaxh_engine) : bool * bool := (c_rex_r (en_context e), c_rex_b (en_context e)).

Lemma set_flag_rex_r flag v ctx : c_rex_r (set_flag flag v ctx) = c_rex_r ctx.
Proof. unfold set_flag. by destruct (cpu_has_exception ctx). Qed.
Lemma set_flag_rex_b flag v ctx : c_rex_b (set_flag flag v ctx) = c_rex_b ctx.
Proof. unfold set_flag. by destruct (cpu_has_exception ctx). Qed.
Lemma raise_rex_r code ec ctx : c_rex_r (cpu_raise_exception code ec ctx) = c_rex_r ctx.
Proof. unfold cpu_raise_exception. by destruct (cpu_has_exception ctx). Qed.
Lemma raise_rex_b code ec ctx : c_rex_b (cpu_raise_exception code ec ctx) = c_rex_b ctx.
Proof. unfold cpu_raise_exception. by destruct (cpu_has_exception ctx). Qed.

Section forms.
Context `{Callbacks}.

Definition read_at (w : Z) (o : operand) : ST cpueaxh_engine Z :=
  match o with
  | Reg reg => get_ctx (fun ctx => get_reg w ctx reg)
  | Mem address => read_memory_operand address w
  | Imm value => st_ret value
  end.
Definition write_at (w : Z) (o : operand) (value : Z) : ST cpueaxh_engine unit :=
  match o with
  | Reg reg => mod_ctx (set_reg w reg value)
  | Mem address => write_memory_operand address w value
  | Imm _ => st_ret tt
  end.

(** Both reads in either order, the arithmetic, the store. *)
Definition alu_run (src_first : bool) (op : alu_op) (w : Z) (dst src : operand) : ST cpueaxh_engine unit :=
  let* (d, s) :=
    (if src_first then let* s := read_at w src in let* d := read_at w dst in st_ret (d, s)
     else let* d := read_at w dst in let* s := read_at w src in st_ret (d, s)) in
  let* r := alu_value op w d s in
  if alu_writes op then write_at w dst r else st_ret tt.

Lemma value_rex op w d s e : rex_bits (snd (alu_value op w d s e)) = rex_bits e.
Proof.
  unfold rex_bits. destruct op; unfold alu_value, add_value, sub_value, and_value, or_value, xor_value, adc_value, sbb_value, cmp_values,
    st_bind, mod_ctx, st_modify, get_ctx, st_gets, st_ret; cbn [snd en_context set_en_context]; unfold_flag_functions;
    unfold raise_ud_ctx; rewrite ?set_flag_rex_r, ?set_flag_rex_b, ?raise_rex_r, ?raise_rex_b;
    reflexivity.
Qed.

Lemma read_at_spec e e0 w o :
  cpu_ready e -> same_cpu e e0 -> reg_width w -> operand_ok w o ->
  exists e1, match operand_fault e w MM_PROT_READ o with
    | None => same_cpu e e1 /\ read_at w o e0 = (operand_value e w o, e1)
    | Some (ad, v) => v <> V_OK /\ faults e v ad MM_PROT_READ e1 /\ read_at w o e0 = (0, e1)
    end.
Proof.
  intros Hr Hs Hw Ho. destruct (reg_width_bounds w Hw) as [_ Hos]. destruct o; cbn in *.
  - exists e0. split; [done |]. unfold get_ctx, st_gets. by rewrite (same_cpu_context _ _ Hs).
  - pose proof (read_operand_spec e0 address w (same_cpu_ready _ _ Hs Hr) Ho Hos) as Hread.
    unfold first_fault in *. rewrite (first_fault_same _ _ _ _ _ Hs) in Hread. fold (first_fault e address (w / 8) MM_PROT_READ) in *.
    destruct (first_fault e address (w / 8) MM_PROT_READ) as [[ad v] |] eqn:Hff; destruct Hread as (e1 & H1 & H2); exists e1.
    + split; [by eapply first_fault_not_ok |]. split; [by eapply faults_trans | done].
    + split; [by eapply same_cpu_trans |]. by rewrite H2, (same_cpu_guest_value _ _ _ _ Hs).
  - by exists e0.
Qed.

Lemma read_at_pending e w o : cpu_has_exception (en_context e) = true -> reg_width w -> snd (read_at w o e) = e.
Proof.
  intros Hx Hw. destruct o; cbn; [done | | done]. unfold read_memory_operand, read_memory_word, read_memory_dword, read_memory_qword.
  destruct Hw as [-> | [-> | [-> | ->]]]; cbn [Z.eqb Pos.eqb];
    unfold read_memory_byte, read_memory_scalar, st_bind; rewrite ?resolve_pending by done; [done | ..];
    unfold get_ctx, st_gets; by rewrite Hx.
Qed.

Lemma write_memory_pending e a w v : cpu_has_exception (en_context e) = true -> reg_width w -> snd (write_memory_operand a w v e) = e.
Proof.
  intros Hx Hw. unfold write_memory_operand, write_memory_word, write_memory_dword, write_memory_qword.
  destruct Hw as [-> | [-> | [-> | ->]]]; cbn [Z.eqb Pos.eqb];
    unfold write_memory_byte, write_memory_scalar, st_bind; rewrite ?resolve_pending by done; [done | ..];
    unfold get_ctx, st_gets; by rewrite Hx.
Qed.

Lemma faults_abandoned e v ad acc e1 : v <> V_OK -> faults e v ad acc e1 -> abandoned e acc v ad e1.
Proof.
  intros Hv Hf. pose proof Hf as (e2 & Hs & ->). split_and!; [done | done | by apply raise_verdict_pending | by eapply faults_keeps | |].
  - exact (same_cpu_heap _ _ Hs).
  - intros a. exact (same_cpu_view _ _ a Hs).
Qed.

Lemma set_reg_frame w reg value ctx :
  c_exception (set_reg w reg value ctx) = c_exception ctx /\ same_cpu_identity ctx (set_reg w reg value ctx) /\
  same_vectors ctx (set_reg w reg value ctx).
Proof. unfold set_reg, set_reg8. repeat match goal with |- context [if ?b then _ else _] => destruct b end; done. Qed.

Lemma abandoned_write e acc v ad e1 w o value :
  abandoned e acc v ad e1 -> reg_width w -> abandoned e acc v ad (final (write_at w o value) e1).
Proof.
  intros (Hv & Hx & Hp & Hk & Hh & Hvw) Hw. destruct o; unfold final; cbn [write_at].
  - unfold mod_ctx, st_modify. cbn [snd]. destruct (set_reg_frame w reg value (en_context e1)) as (Hex & Hid & Hve).
    split_and!; [done | by rewrite <- Hx, <- Hex | | | done | done].
    + unfold cpu_has_exception in *. cbn [en_context set_en_context]. by rewrite Hex.
    + apply (keeps_context_trans _ e1); [done | by apply set_context_keeps].
  - rewrite write_memory_pending by done. by split_and!.
  - by split_and!.
Qed.

End forms.

Section effects.
Context `{Callbacks}.

(** A fault while reading leaves the rest without effect. *)
Lemma run_after_fault op w dst d s e acc v ad e1 :
  abandoned e acc v ad e1 -> reg_width w ->
  abandoned e acc v ad (final (let* r := alu_value op w d s in if alu_writes op then write_at w dst r else st_ret tt) e1).
Proof.
  intros Ha Hw. pose proof Ha as (_ & _ & Hp & _). unfold final, st_bind.
  pose proof (value_pending op w d s e1 Hp) as Hv. destruct (alu_value op w d s e1) as [r e2]. cbn [snd] in Hv. subst e2.
  destruct (alu_writes op); [by apply abandoned_write | done].
Qed.

Lemma set_flags_ready e ctx ctx' f :
  cpu_ready e -> en_context e = ctx -> ctx_flags_written f ctx ctx' -> cpu_ready (set_en_context ctx' e).
Proof. intros Hr <- [-> _]. apply context_ready; [done | done | apply Hr]. Qed.

Lemma set_context_fault e ctx' f a n acc :
  ctx_flags_written f (en_context e) ctx' -> first_fault (set_en_context ctx' e) a n acc = first_fault e a n acc.
Proof.
  intros [-> _]. unfold first_fault. induction (offsets_from 0 n) as [| o l IH]; [done |]. cbn [first_fault_in].
  change (cpu_access (set_en_context (set_c_rflags (c_rflags ctx') (en_context e)) e) (at_off a o) acc) with (cpu_access e (at_off a o) acc).
  by rewrite IH.
Qed.

Lemma raise_verdict_flags v a acc ctx ctx' f :
  ctx_flags_written f ctx ctx' -> c_exception (raise_verdict v a acc ctx') = c_exception (raise_verdict v a acc ctx).
Proof.
  intros [-> _]. destruct v; [done | ..]; unfold raise_verdict, raise_gp_ctx, cpu_raise_exception;
    (destruct (cpu_has_exception ctx) eqn:Hx; unfold cpu_has_exception in *; cbn [c_exception set_c_rflags set_c_control_regs]; by rewrite Hx).
Qed.

Lemma flags_keep e ctx' f : ctx_flags_written f (en_context e) ctx' -> keeps_context e (set_en_context ctx' e).
Proof. intros [-> _]. by apply set_context_keeps. Qed.

Lemma same_cpu_set_context e e1 c : same_cpu e e1 -> same_cpu (set_en_context c e) (set_en_context c e1).
Proof. intros (m & -> & Hm & Hw). by exists m. Qed.

(** Computing and storing after both operands were read. *)
Lemma run_after_reads op w dst src e e1 :
  cpu_ready e -> regs_wf (en_context e) -> reg_width w -> operand_ok w dst -> operand_ok w src -> same_cpu e e1 ->
  operand_fault e w MM_PROT_READ dst = None -> operand_fault e w MM_PROT_READ src = None ->
  alu_effect op w dst src e
    (final (let* r := alu_value op w (operand_value e w dst) (operand_value e w src) in
            if alu_writes op then write_at w dst r else st_ret tt) e1).
Proof.
  intros Hr Hwf Hw Hd Hs Hsame Hfd Hfs. pose proof Hr as (Hm & Hq & Hx).
  pose proof (operand_in_word e w dst Hr Hwf Hw Hd Hfd) as Hdw. pose proof (operand_in_word e w src Hr Hwf Hw Hs Hfs) as Hsw.
  unfold alu_effect. rewrite Hfd, Hfs. cbv zeta. pose proof (same_cpu_context _ _ Hsame) as Hctx.
  destruct (value_spec op w (operand_value e w dst) (operand_value e w src) e1 Hw Hdw Hsw ltac:(by rewrite Hctx)) as (r & ctx' & Hv & Hc & Hres).
  unfold final, st_bind. rewrite Hv, Hctx in *. set (d := operand_value e w dst) in *. set (s := operand_value e w src) in *.
  destruct (alu_writes op) eqn:Hwr.
  2: { exists ctx'. split; [exact Hc |]. by apply same_cpu_set_context. }
  rewrite (Hres eq_refl). clear Hres. destruct dst as [reg | address | value]; cbn [operand_fault write_at].
  - exists ctx'. split; [exact Hc |]. unfold mod_ctx, st_modify. cbn [snd en_context set_en_context].
    destruct Hsame as (m & -> & Hsb & Hmw). by exists m.
  - destruct (reg_width_bounds w Hw) as [_ Hos].
    assert (Hctx1 : ctx_flags_written (alu_flags op w (carry_flag (en_context e)) (Z.testbit (c_rflags (en_context e)) 4) d s) (en_context e1) ctx')
      by (rewrite Hctx; exact Hc).
    pose proof (write_operand_spec (set_en_context ctx' e1) address w (wrap w (alu_exact op (carry_flag (en_context e)) d s))
      (set_flags_ready e1 _ ctx' _ (same_cpu_ready _ _ Hsame Hr) eq_refl Hctx1) Hd Hos) as Hwr1.
    rewrite (set_context_fault e1 ctx' _ _ _ _ Hctx1) in Hwr1. unfold first_fault in Hwr1. rewrite (first_fault_same _ _ _ _ _ Hsame) in Hwr1.
    fold (first_fault e address (w / 8) MM_PROT_WRITE) in Hwr1. unfold final in Hwr1.
    destruct (first_fault e address (w / 8) MM_PROT_WRITE) as [[ad v] |] eqn:Hff.
    + pose proof (faults_abandoned _ _ _ _ _ (first_fault_not_ok _ _ _ _ _ _ Hff) Hwr1) as (Hv' & Hex & Hp & Hk & Hh & Hview).
      cbn [en_context set_en_context en_mem] in Hex, Hh, Hview.
      split_and!; [done | by rewrite Hex, (raise_verdict_flags _ _ _ _ _ _ Hc) | done | | by rewrite Hh, (same_cpu_heap _ _ Hsame) |].
      * apply (keeps_context_trans _ e1); [by apply same_cpu_keeps |]. apply (keeps_context_trans _ (set_en_context ctx' e1)); [by eapply flags_keep | done].
      * intros a. by rewrite Hview, (same_cpu_view _ _ a Hsame).
    + exists ctx'. split; [exact Hc |]. apply (same_cpu_stored _ (set_en_context ctx' e1)); [by apply same_cpu_set_context |].
      change (hosts_of (set_en_context ctx' e1) address (w / 8)) with (hosts_of e1 address (w / 8)) in Hwr1. by rewrite (same_cpu_hosts _ _ _ _ Hsame) in Hwr1.
  - exists ctx'. by split.
Qed.

Lemma alu_run_effect b op w dst src e :
  cpu_ready e -> regs_wf (en_context e) -> reg_width w -> operand_ok w dst -> operand_ok w src ->
  operand_fault e w MM_PROT_READ dst = None \/ operand_fault e w MM_PROT_READ src = None ->
  alu_effect op w dst src e (final (alu_run b op w dst src) e).
Proof.
  intros Hr Hwf Hw Hd Hs Hor. pose proof (same_cpu_refl e (proj1 Hr)) as Hsr.
  assert (Hbad : forall o1 o2 e1 x ad v, abandoned e MM_PROT_READ v ad e1 -> read_at w o1 e = (x, e1) ->
    forall f : Z -> Z -> Z * Z, abandoned e MM_PROT_READ v ad
      (final (let* (d, s) := (let* a := read_at w o1 in let* b := read_at w o2 in st_ret (f a b)) in
              let* r := alu_value op w d s in if alu_writes op then write_at w dst r else st_ret tt) e)).
  { intros o1 o2 e1 x ad v Hab He1 f. unfold final. unfold st_bind at 1 2. rewrite He1. unfold st_bind at 1.
    pose proof Hab as (_ & _ & Hp & _). pose proof (read_at_pending e1 w o2 Hp Hw) as Hr2. destruct (read_at w o2 e1) as [y e2]. cbn [snd] in Hr2. subst e2.
    cbn [st_ret]. destruct (f x y) as [d s]. by apply (run_after_fault op w dst d s e MM_PROT_READ v ad e1). }
  assert (Hbad2 : forall o1 o2 e1 e2 x y ad v, abandoned e MM_PROT_READ v ad e2 -> read_at w o1 e = (x, e1) -> read_at w o2 e1 = (y, e2) ->
    forall f : Z -> Z -> Z * Z, abandoned e MM_PROT_READ v ad
      (final (let* (d, s) := (let* a := read_at w o1 in let* b := read_at w o2 in st_ret (f a b)) in
              let* r := alu_value op w d s in if alu_writes op then write_at w dst r else st_ret tt) e)).
  { intros o1 o2 e1 e2 x y ad v Hab He1 He2 f. unfold final. unfold st_bind at 1 2. rewrite He1. unfold st_bind at 1. rewrite He2.
    cbn [st_ret]. destruct (f x y) as [d s]. by apply (run_after_fault op w dst d s e MM_PROT_READ v ad e2). }
  destruct (read_at_spec e e w dst Hr Hsr Hw Hd) as (ed & Hrd). destruct (read_at_spec e e w src Hr Hsr Hw Hs) as (es & Hrs).
  unfold alu_run. destruct (operand_fault e w MM_PROT_READ dst) as [[ad v] |] eqn:Hfd.
  - destruct Hor as [? | Hfs]; [done |]. rewrite Hfs in Hrs. destruct Hrd as (Hv & Hf & Hrd), Hrs as (Hss & Hrs).
    unfold alu_effect. rewrite Hfd. destruct b.
    + destruct (read_at_spec e es w dst Hr Hss Hw Hd) as (e2 & Hrd2). rewrite Hfd in Hrd2. destruct Hrd2 as (_ & Hf2 & Hrd2).
      exact (Hbad2 src dst es e2 _ _ ad v (faults_abandoned _ _ _ _ _ Hv Hf2) Hrs Hrd2 (fun s d => (d, s))).
    + exact (Hbad dst src ed _ ad v (faults_abandoned _ _ _ _ _ Hv Hf) Hrd (fun d s => (d, s))).
  - destruct Hrd as (Hsd & Hrd). destruct (operand_fault e w MM_PROT_READ src) as [[ad v] |] eqn:Hfs.
    + destruct Hrs as (Hv & Hf & Hrs). unfold alu_effect. rewrite Hfd, Hfs. destruct b.
      * exact (Hbad src dst es _ ad v (faults_abandoned _ _ _ _ _ Hv Hf) Hrs (fun s d => (d, s))).
      * destruct (read_at_spec e ed w src Hr Hsd Hw Hs) as (e2 & Hrs2). rewrite Hfs in Hrs2. destruct Hrs2 as (_ & Hf2 & Hrs2).
        exact (Hbad2 dst src ed e2 _ _ ad v (faults_abandoned _ _ _ _ _ Hv Hf2) Hrd Hrs2 (fun d s => (d, s))).
    + destruct Hrs as (Hss & Hrs). unfold final. destruct b; unfold st_bind at 1 2.
      * rewrite Hrs. unfold st_bind at 1. destruct (read_at_spec e es w dst Hr Hss Hw Hd) as (e2 & Hrd2). rewrite Hfd in Hrd2.
        destruct Hrd2 as (Hs2 & ->). by apply run_after_reads.
      * rewrite Hrd. unfold st_bind at 1. destruct (read_at_spec e ed w src Hr Hsd Hw Hs) as (e2 & Hrs2). rewrite Hfs in Hrs2.
        destruct Hrs2 as (Hs2 & ->). by apply run_after_reads.
Qed.

End effects.

(** ** Each form is such a run *)

Definition rm_operand (modrm mem_addr : Z) (ctx : CPU_CONTEXT) : operand :=
  if modrm_mod modrm =? 3 then Reg (rm_index modrm ctx) else Mem mem_addr.

Section shapes.
Context `{Callbacks}.

Lemma read_rm_at w modrm mem e : read_rm w modrm mem e = read_at w (rm_operand modrm mem (en_context e)) e.
Proof. unfold read_rm, rm_operand. by destruct (modrm_mod modrm =? 3). Qed.

Lemma write_rm_at w modrm mem v e e1 :
  rex_bits e1 = rex_bits e -> write_rm w modrm mem v e1 = write_at w (rm_operand modrm mem (en_context e)) v e1.
Proof.
  intros [= _ Hb]. unfold write_rm, rm_operand. destruct (modrm_mod modrm =? 3); [| done].
  unfold mod_ctx, st_modify, rm_index. cbn [write_at]. unfold mod_ctx, st_modify. by rewrite Hb.
Qed.

Lemma write_reg_at w modrm v e e1 :
  rex_bits e1 = rex_bits e -> write_reg w modrm v e1 = write_at w (Reg (reg_index modrm (en_context e))) v e1.
Proof. intros [= Hb _]. unfold write_reg, reg_index. cbn [write_at]. unfold mod_ctx, st_modify. by rewrite Hb. Qed.

Lemma raise_verdict_rex v a acc ctx :
  c_rex_r (raise_verdict v a acc ctx) = c_rex_r ctx /\ c_rex_b (raise_verdict v a acc ctx) = c_rex_b ctx.
Proof. destruct v; [done | ..]; unfold raise_verdict, raise_gp_ctx; by rewrite raise_rex_r, raise_rex_b. Qed.

Lemma read_at_rex e w o : cpu_ready e -> reg_width w -> operand_ok w o -> rex_bits (snd (read_at w o e)) = rex_bits e.
Proof.
  intros Hr Hw Ho. destruct (read_at_spec e e w o Hr (same_cpu_refl e (proj1 Hr)) Hw Ho) as (e1 & Hs). unfold rex_bits.
  destruct (operand_fault e w MM_PROT_READ o) as [[ad v] |].
  - destruct Hs as (_ & (e2 & Hs & ->) & ->). cbn [snd en_context set_en_context]. by destruct (raise_verdict_rex v ad MM_PROT_READ (en_context e)) as [-> ->].
  - destruct Hs as (Hs & ->). cbn [snd]. by rewrite (same_cpu_context _ _ Hs).
Qed.

Lemma rm_operand_ok w modrm mem ctx : in_word 64 mem -> operand_ok w (rm_operand modrm mem ctx).
Proof. intros. unfold rm_operand. by destruct (modrm_mod modrm =? 3). Qed.

Variables (e : cpueaxh_engine) (w modrm mem : Z).
Hypotheses (Hr : cpu_ready e) (Hw : reg_width w) (Hmem : in_word 64 mem).
Let rm := rm_operand modrm mem (en_context e).
Let reg := Reg (reg_index modrm (en_context e)).

(** Value and store, from a state with the REX bits of [e]. *)
Lemma store_rm op d s e1 :
  alu_writes op = true -> rex_bits e1 = rex_bits e ->
  (let* r := alu_value op w d s in write_rm w modrm mem r) e1 =
  (let* r := alu_value op w d s in if alu_writes op then write_at w rm r else st_ret tt) e1.
Proof.
  intros Hwr Hrex. unfold st_bind. pose proof (value_rex op w d s e1) as Hv. destruct (alu_value op w d s e1) as [r e2].
  cbn [snd] in Hv. rewrite Hwr. apply write_rm_at. congruence.
Qed.

Lemma store_reg op d s e1 :
  alu_writes op = true -> rex_bits e1 = rex_bits e ->
  (let* r := alu_value op w d s in write_reg w modrm r) e1 =
  (let* r := alu_value op w d s in if alu_writes op then write_at w reg r else st_ret tt) e1.
Proof.
  intros Hwr Hrex. unfold st_bind. pose proof (value_rex op w d s e1) as Hv. destruct (alu_value op w d s e1) as [r e2].
  cbn [snd] in Hv. rewrite Hwr. apply write_reg_at. congruence.
Qed.

Lemma read_rm_step : exists x e1, read_rm w modrm mem e = (x, e1) /\ read_at w rm e = (x, e1) /\ rex_bits e1 = rex_bits e.
Proof.
  pose proof (read_at_rex e w rm Hr Hw (rm_operand_ok w modrm mem _ Hmem)) as Hrex. rewrite read_rm_at. fold rm.
  destruct (read_at w rm e) as [x e1]. by exists x, e1.
Qed.

Lemma rm_form_run op s :
  alu_writes op = true -> rm_form w (alu_value op w) modrm mem s e = alu_run false op w rm (Imm s) e.
Proof.
  intros Hwr. unfold rm_form, alu_run. unfold st_bind at 1 3 4 5. destruct read_rm_step as (x & e1 & -> & -> & Hrex).
  cbn [read_at st_ret]. unfold st_ret at 1. by apply store_rm.
Qed.

Lemma rm_r_form_run op :
  alu_writes op = true -> rm_r_form w (alu_value op w) modrm mem e = alu_run true op w rm reg e.
Proof.
  intros Hwr. unfold rm_r_form, rm_form, alu_run, read_reg, get_ctx, st_gets. cbn [read_at]. unfold reg. cbn [read_at]. unfold get_ctx, st_gets.
  unfold st_bind at 1 2 4 5 6. destruct read_rm_step as (x & e1 & -> & -> & Hrex). unfold st_ret at 1. by apply store_rm.
Qed.

(** A read of the register operand leaves the state. *)
Lemma rm_r_dst_first_run op :
  alu_writes op = true -> rm_r_form_dst_first w (alu_value op w) modrm mem e = alu_run false op w rm reg e.
Proof.
  intros Hwr. unfold rm_r_form_dst_first, alu_run, read_reg, get_ctx, st_gets, reg. cbn [read_at]. unfold get_ctx, st_gets.
  unfold st_bind at 1 2 4 5 6. destruct read_rm_step as (x & e1 & -> & -> & Hrex). unfold st_ret at 1.
  assert (Hx : reg_index modrm (en_context e1) = reg_index modrm (en_context e)) by (unfold reg_index; injection Hrex as -> _; done).
  rewrite Hx. by apply store_rm.
Qed.

Lemma r_rm_form_run op :
  alu_writes op = true -> r_rm_form w (alu_value op w) modrm mem e = alu_run false op w reg rm e.
Proof.
  intros Hwr. unfold r_rm_form, alu_run, read_reg, reg. cbn [read_at]. unfold get_ctx, st_gets.
  unfold st_bind at 1 2 3 5 6 7. destruct read_rm_step as (x & e1 & -> & -> & Hrex). unfold st_ret at 1.
  unfold st_bind. destruct (alu_value op w _ x e1) as [r e2]. by rewrite Hwr.
Qed.

Lemma r_rm_by_helpers_run op :
  alu_writes op = true -> r_rm_form_by_helpers w (alu_value op w) modrm mem e = alu_run false op w reg rm e.
Proof.
  intros Hwr. unfold r_rm_form_by_helpers, alu_run, read_reg, reg. cbn [read_at]. unfold get_ctx, st_gets.
  unfold st_bind at 1 2 4 5 6. destruct read_rm_step as (x & e1 & -> & -> & Hrex). unfold st_ret at 1. by apply store_reg.
Qed.

Lemma acc_read_write : read_acc w e = read_at w (Reg REG_RAX) e /\ forall v e1, write_acc w v e1 = write_at w (Reg REG_RAX) v e1.
Proof.
  unfold read_acc, write_acc, read_at, write_at, get_ctx, mod_ctx, st_gets, st_modify.
  destruct Hw as [-> | [-> | [-> | ->]]]; (split; [| intros v e1]); cbn [Z.eqb Pos.eqb Z.leb Z.compare Pos.compare Pos.compare_cont];
    unfold get_reg, set_reg, get_reg8, set_reg8; cbn [Z.eqb Pos.eqb]; try done; by destruct (c_rex_present _).
Qed.

Lemma acc_form_run op s :
  alu_writes op = true -> acc_form w (alu_value op w) s e = alu_run false op w (Reg REG_RAX) (Imm s) e.
Proof.
  intros Hwr. destruct acc_read_write as [Hrd Hst]. unfold acc_form, alu_run. unfold st_bind at 1 3 4 5. rewrite Hrd.
  destruct (read_at w (Reg REG_RAX) e) as [x e1]. cbn [read_at]. unfold st_ret at 1 2. unfold st_bind.
  destruct (alu_value op w x s e1) as [r e2]. rewrite Hwr. apply Hst.
Qed.

Lemma or_acc_run s : or_acc_imm w s e = alu_run false OR w (Reg REG_RAX) (Imm s) e.
Proof. done. Qed.
Lemma xor_acc_run s : xor_acc_imm w s e = alu_run false XOR w (Reg REG_RAX) (Imm s) e.
Proof. done. Qed.

(** CMP. *)
Lemma cmp_rm_imm_run s : cmp_rm_imm w modrm mem s e = alu_run false CMP w rm (Imm s) e.
Proof.
  unfold cmp_rm_imm, alu_run. unfold st_bind at 1 2 3 4. destruct read_rm_step as (x & e1 & -> & -> & _). done.
Qed.
Lemma cmp_acc_run s : cmp_acc_imm w s e = alu_run false CMP w (Reg REG_RAX) (Imm s) e.
Proof.
  destruct acc_read_write as [Hrd _]. unfold cmp_acc_imm, alu_run. unfold st_bind at 1 2 3 4. rewrite Hrd.
  by destruct (read_at w (Reg REG_RAX) e).
Qed.
Lemma cmp_rm_r_run : cmp_rm_r w modrm mem e = alu_run true CMP w rm reg e.
Proof.
  unfold cmp_rm_r, alu_run, read_reg, reg. cbn [read_at]. unfold get_ctx, st_gets.
  unfold st_bind at 1 2 3 4 5. destruct read_rm_step as (x & e1 & -> & -> & _). done.
Qed.
Lemma cmp_r_rm_run : cmp_r_rm w modrm mem e = alu_run false CMP w reg rm e.
Proof.
  unfold cmp_r_rm, alu_run, read_reg, reg. cbn [read_at]. unfold get_ctx, st_gets.
  unfold st_bind at 1 2 3 4 5. destruct read_rm_step as (x & e1 & -> & -> & _). done.
Qed.

End shapes.

(** ** The instructions *)

(** The operands a decoded instruction names; [w0] is the width of its wide forms. *)
Definition alu_operands (op : alu_op) (w0 : Z) (inst : DecodedInstruction) (ctx : CPU_CONTEXT) : option (Z * operand * operand) :=
  let base := af_base (family_of op) in
  let opcode := i_opcode inst in
  let imm := i_immediate inst in
  let rm := rm_operand (i_modrm inst) (i_mem_address inst) ctx in
  let reg := Reg (reg_index (i_modrm inst) ctx) in
  if opcode =? base + 4 then Some (8, Reg REG_RAX, Imm (u8 imm))
  else if opcode =? base + 5 then Some (w0, Reg REG_RAX, Imm (wide_immediate w0 imm))
  else if opcode =? 0x80 then Some (8, rm, Imm (u8 imm))
  else if opcode =? 0x81 then Some (w0, rm, Imm (wide_immediate w0 imm))
  else if opcode =? 0x83 then Some (w0, rm, Imm (wrap w0 (sext 8 imm)))
  else if opcode =? base then Some (8, rm, reg)
  else if opcode =? base + 1 then Some (w0, rm, reg)
  else if opcode =? base + 2 then Some (8, reg, rm)
  else if opcode =? base + 3 then Some (w0, reg, rm)
  else None.

Definition alu_width (op : alu_op) (inst : DecodedInstruction) (ctx : CPU_CONTEXT) : Z :=
  match op with ADC | SBB => size_width inst | _ => prefix_width ctx end.

Definition execute_alu `{Callbacks} (rounds : nat) (op : alu_op) (inst : DecodedInstruction) : ST cpueaxh_engine unit :=
  match op with
  | ADD => execute_add_with_decoded inst | OR => execute_or_with_decoded rounds inst
  | ADC => execute_adc_with_decoded inst | SBB => execute_sbb_with_decoded inst
  | AND => execute_and_with_decoded inst | SUB => execute_sub_with_decoded inst
  | XOR => execute_xor_with_decoded rounds inst | CMP => execute_cmp_with_decoded inst
  end.

(** OR and XOR on memory with LOCK. *)
Definition alu_locked (op : alu_op) (inst : DecodedInstruction) : bool :=
  match op with OR | XOR => i_has_lock_prefix inst && negb (modrm_mod (i_modrm inst) =? 3) | _ => false end.

(** A locked operation fails on memory it can read when that memory cannot be written or does not
    lie in one line of host memory. *)
Definition lock_refused (e : cpueaxh_engine) (w : Z) (dst : operand) (e' : cpueaxh_engine) : Prop :=
  exists a v ad, dst = Mem a /\ ~ (first_fault e a (w / 8) MM_PROT_WRITE = None /\ one_line e a (w / 8)) /\ abandoned e MM_PROT_WRITE v ad e'.

Lemma prefix_width_ok ctx : reg_width (prefix_width ctx).
Proof. unfold prefix_width, reg_width. destruct (c_rex_w ctx); [lia |]. destruct (c_operand_size_override ctx); lia. Qed.

Lemma size_width_ok inst : reg_width (size_width inst).
Proof. unfold size_width, reg_width. destruct (_ =? 64); [lia |]. destruct (_ =? 16); lia. Qed.

Lemma wide_immediate_word w imm : reg_width w -> in_word w (wide_immediate w imm).
Proof. intros Hw. destruct (reg_width_bounds w Hw). unfold wide_immediate. destruct (Z.eqb_spec w 64); subst; apply wrap_range; lia. Qed.

Section instructions.
Context `{Callbacks}.

Lemma locked_flags_effect op a w s callback e rounds :
  op = OR \/ op = XOR -> cpu_ready e -> regs_wf (en_context e) -> reg_width w -> in_word 64 a -> a <> 0 -> in_word w s ->
  (forall x, callback x = alu_exact op 0 x s) ->
  let e' := final (locked_form (cpu_atomic_rmw_memory (S rounds) a w callback)
    (if op is OR then update_or_logic_flags w else update_xor_logic_flags w)) e in
  alu_effect op w (Mem a) (Imm s) e e' \/ lock_refused e w (Mem a) e'.
Proof.
  intros Hop Hr Hwf Hw Ha Hnz Hs Hcb. cbv zeta. destruct (reg_width_bounds w Hw) as [Hb Hos].
  assert (Hwr : alu_writes op = true) by (by destruct Hop as [-> | ->]).
  unfold locked_form, final, alu_effect. cbn [operand_fault operand_value]. rewrite Hwr. unfold st_bind.
  destruct (first_fault e a (w / 8) MM_PROT_READ) as [[ad v] |] eqn:Hrd.
  { left. pose proof (rmw_read_fault rounds e a w callback ad v Hr Ha Hos Hrd) as Hf.
    destruct (cpu_atomic_rmw_memory (S rounds) a w callback e) as [r e1]. destruct Hf as [-> Hf].
    apply faults_abandoned; [by eapply first_fault_not_ok | done]. }
  pose proof (rmw_spec rounds e a w callback Hr Ha Hnz Hos Hrd) as Hrmw.
  destruct (cpu_atomic_rmw_memory (S rounds) a w callback e) as [r e1]. cbn zeta in Hrmw.
  destruct Hrmw as [(Hwf1 & Hl & -> & Hst) | (Hno & -> & v & ad & Hv & Hf)].
  2: { right. exists a, v, ad. split_and!; [done | done | by apply faults_abandoned]. }
  left. rewrite Hwf1. pose proof (guest_value_wrap e a w MM_PROT_READ (proj1 Hr) Hos Hrd) as Hgw.
  set (d := guest_value e a (w / 8)) in *. assert (Hd : in_word w d) by (rewrite <- Hgw; apply wrap_range; lia).
  assert (Hx : alu_exact op 0 d s = alu_exact op (carry_flag (en_context e)) d s) by (by destruct Hop as [-> | ->]).
  assert (Hin : in_word w (alu_exact op 0 d s)) by (apply exact_logic_word; [by right | done ..]).
  rewrite Hcb in Hst |- *. rewrite (wrap_small w _ Hin) in Hst |- *. rewrite <- Hx, (wrap_small w _ Hin).
  destruct Hst as (m & -> & Hm & Hmgr & Hh & Hview).
  exists ((if op is OR then update_or_logic_flags w else update_xor_logic_flags w) (alu_exact op 0 d s) (en_context e)). split.
  - unfold alu_context. destruct (logic_at w _ Hw Hin) as (_ & Ho & Hxo).
    destruct Hop as [-> | ->]; cbn [alu_flags]; rewrite <- Hx, ?Ho, ?Hxo; (apply logic_flags_written; [lia | done | apply Hr]).
  - exists m. split_and!; done.
Qed.

Lemma or_rm_imm_effect op (lock : bool) w modrm mem s e rounds :
  op = OR \/ op = XOR -> cpu_ready e -> regs_wf (en_context e) -> reg_width w -> in_word 64 mem -> in_word w s ->
  (lock && negb (modrm_mod modrm =? 3) = true -> mem <> 0) ->
  let dst := rm_operand modrm mem (en_context e) in
  let e' := final ((if op is OR then or_rm_imm else xor_rm_imm) (S rounds) w modrm mem s lock) e in
  alu_effect op w dst (Imm s) e e' \/ (lock && negb (modrm_mod modrm =? 3) = true /\ lock_refused e w dst e').
Proof.
  intros Hop Hr Hwf Hw Hm Hs Hnz. cbv zeta. destruct (lock && negb (modrm_mod modrm =? 3)) eqn:Hl.
  - assert (Hdst : rm_operand modrm mem (en_context e) = Mem mem).
    { unfold rm_operand. destruct (modrm_mod modrm =? 3); [by rewrite andb_false_r in Hl | done]. }
    rewrite Hdst. destruct Hop as [-> | ->]; unfold or_rm_imm, xor_rm_imm; rewrite Hl.
    + destruct (locked_flags_effect OR mem w s (cpu_atomic_or_callback s) e rounds) as [? | ?]; auto.
    + destruct (locked_flags_effect XOR mem w s (cpu_atomic_xor_callback s) e rounds) as [? | ?]; auto.
  - left. destruct Hop as [-> | ->]; unfold or_rm_imm, xor_rm_imm; rewrite Hl; unfold final;
      [change (or_value w) with (alu_value OR w) | change (xor_value w) with (alu_value XOR w)];
      rewrite rm_form_run by done; (apply alu_run_effect; [done | done | done | by apply rm_operand_ok | done | by right]).
Qed.

(** The switch, over five forms that have a property for all widths and operands. *)
Lemma switch_effect op (P : Z -> operand -> operand -> cpueaxh_engine -> Prop) inst e w0 otherwise acc rm_imm rm_imm8 rm_r r_rm w dst src :
  let modrm := i_modrm inst in
  let mem := i_mem_address inst in
  let rm := rm_operand modrm mem (en_context e) in
  let reg := Reg (reg_index modrm (en_context e)) in
  (forall w imm, reg_width w -> in_word w imm -> P w (Reg REG_RAX) (Imm imm) (final (acc w imm) e)) ->
  (forall w imm, reg_width w -> in_word w imm -> P w rm (Imm imm) (final (rm_imm w modrm mem imm) e)) ->
  (forall w imm, reg_width w -> P w rm (Imm (wrap w imm)) (final (rm_imm8 w modrm mem imm) e)) ->
  (forall w, reg_width w -> P w rm reg (final (rm_r w modrm mem) e)) ->
  (forall w, reg_width w -> P w reg rm (final (r_rm w modrm mem) e)) ->
  reg_width w0 -> alu_operands op w0 inst (en_context e) = Some (w, dst, src) ->
  P w dst src (final (alu_switch (af_base (family_of op)) inst w0 otherwise acc rm_imm rm_imm8 rm_r r_rm) e).
Proof.
  cbv zeta. intros Hacc Hri Hri8 Hrr Hrm Hw0 Hops. unfold alu_operands in Hops. unfold alu_switch.
  assert (H8 : reg_width 8) by by left. assert (Hb : in_word 8 (u8 (i_immediate inst))) by (apply wrap_range; lia).
  pose proof (wide_immediate_word w0 (i_immediate inst) Hw0) as Hwi.
  repeat match type of Hops with (if ?b then _ else _) = _ => destruct b; [injection Hops as <- <- <-; auto |] end. done.
Qed.

End instructions.

Section theorem.
Context `{Callbacks}.

(** What an instruction may end with. *)
Definition alu_outcome (op : alu_op) (inst : DecodedInstruction) (e : cpueaxh_engine) (w : Z) (dst src : operand) (e' : cpueaxh_engine) : Prop :=
  alu_effect op w dst src e e' \/ (alu_locked op inst = true /\ lock_refused e w dst e').

Variables (rounds : nat) (op : alu_op) (inst : DecodedInstruction) (e : cpueaxh_engine).
Hypotheses (Hr : cpu_ready e) (Hwf : regs_wf (en_context e)) (Hm : in_word 64 (i_mem_address inst))
  (Hl : alu_locked op inst = true -> i_mem_address inst <> 0).
Let rm := rm_operand (i_modrm inst) (i_mem_address inst) (en_context e).
Let reg := Reg (reg_index (i_modrm inst) (en_context e)).

Lemma run_outcome b w dst src c :
  reg_width w -> operand_ok w dst -> operand_ok w src ->
  operand_fault e w MM_PROT_READ dst = None \/ operand_fault e w MM_PROT_READ src = None ->
  c e = alu_run b op w dst src e -> alu_outcome op inst e w dst src (final c e).
Proof. intros Hw Hd Hs Hor Hc. left. unfold final. rewrite Hc. by apply alu_run_effect. Qed.

Lemma rm_ok w : operand_ok w rm.
Proof. by apply rm_operand_ok. Qed.

Lemma wrap_width_ok w i : reg_width w -> in_word w (wrap w i).
Proof. intros Hw. destruct (reg_width_bounds _ Hw). apply wrap_range. lia. Qed.

(** A register and its value are the same source. *)
Lemma reg_value_source w dst e' :
  alu_outcome op inst e w dst (Imm (get_reg w (en_context e) (reg_index (i_modrm inst) (en_context e)))) e' ->
  alu_outcome op inst e w dst reg e'.
Proof. done. Qed.

Hypothesis Hlock : op = OR \/ op = XOR.
Lemma locked_outcome w s :
  reg_width w -> in_word w s ->
  alu_outcome op inst e w rm (Imm s)
    (final ((if op is OR then or_rm_imm else xor_rm_imm) (S rounds) w (i_modrm inst) (i_mem_address inst) s (i_has_lock_prefix inst)) e).
Proof.
  intros Hw Hs. assert (Ha : alu_locked op inst = i_has_lock_prefix inst && negb (modrm_mod (i_modrm inst) =? 3))
    by (by destruct Hlock as [E | E]; rewrite E).
  unfold alu_outcome. rewrite Ha. rewrite Ha in Hl. by apply or_rm_imm_effect.
Qed.

Lemma locked_outcome_r w :
  reg_width w ->
  alu_outcome op inst e w rm reg
    (final ((if op is OR then or_rm_r else xor_rm_r) (S rounds) w (i_modrm inst) (i_mem_address inst) (i_has_lock_prefix inst)) e).
Proof.
  intros Hw. apply reg_value_source.
  pose proof (locked_outcome w _ Hw (get_reg_in_word w (en_context e) (reg_index (i_modrm inst) (en_context e)) Hw Hwf)) as Ho.
  by destruct Hlock as [E | E]; rewrite E in Ho |- *.
Qed.
End theorem.

Section correct.
Context `{Callbacks}.

(** The instructions whose five forms are runs. *)
Lemma runs_outcome (b : bool) op inst e w0 otherwise acc rm_imm rm_imm8 rm_r r_rm w dst src :
  let modrm := i_modrm inst in
  let mem := i_mem_address inst in
  let rm := rm_operand modrm mem (en_context e) in
  let reg := Reg (reg_index modrm (en_context e)) in
  cpu_ready e -> regs_wf (en_context e) -> in_word 64 mem -> reg_width w0 ->
  (forall w imm, reg_width w -> acc w imm e = alu_run false op w (Reg REG_RAX) (Imm imm) e) ->
  (forall w imm, reg_width w -> rm_imm w modrm mem imm e = alu_run false op w rm (Imm imm) e) ->
  (forall w imm, reg_width w -> rm_imm8 w modrm mem imm e = alu_run false op w rm (Imm (wrap w imm)) e) ->
  (forall w, reg_width w -> rm_r w modrm mem e = alu_run b op w rm reg e) ->
  (forall w, reg_width w -> r_rm w modrm mem e = alu_run false op w reg rm e) ->
  alu_operands op w0 inst (en_context e) = Some (w, dst, src) ->
  alu_outcome op inst e w dst src (final (alu_switch (af_base (family_of op)) inst w0 otherwise acc rm_imm rm_imm8 rm_r r_rm) e).
Proof.
  cbv zeta. intros Hr Hwf Hm Hw0 Hacc Hri Hri8 Hrr Hrm.
  assert (Hrmok : forall w, operand_ok w (rm_operand (i_modrm inst) (i_mem_address inst) (en_context e))) by (intros; by apply rm_operand_ok).
  apply (switch_effect op (alu_outcome op inst e)); [intros w1 imm Hw Hi | intros w1 imm Hw Hi | intros w1 imm Hw | intros w1 Hw | intros w1 Hw | done].
  - apply (run_outcome op inst e Hr Hwf false); auto. exact I.
  - apply (run_outcome op inst e Hr Hwf false); auto.
  - apply (run_outcome op inst e Hr Hwf false); auto. by apply wrap_width_ok.
  - apply (run_outcome op inst e Hr Hwf b); auto. exact I.
  - apply (run_outcome op inst e Hr Hwf false); auto. exact I.
Qed.

(** C13: the eight instructions compute what the architecture says.  Without hooks, ADD, OR, ADC,
    SBB, AND, SUB, XOR and CMP, in each of their nine operand forms and at every width, on registers
    (high bytes and REX numbers included), immediates (sign-extended as the form asks) and memory:
    a memory operand that cannot be read raises the fault of its first bad byte, and a memory
    destination that cannot be written its own, with no byte of memory changed; otherwise CF, PF,
    AF, ZF, SF and OF are those of the exact result, every other flag stays, the destination holds
    the truncated result (CMP stores nothing) and nothing else changes.  With LOCK, OR and XOR on
    memory that is not one line of host memory end with a fault pending and memory unchanged. *)
Theorem alu_instructions_correct (rounds : nat) op inst e w dst src
  (Hr : cpu_ready e) (Hwf : regs_wf (en_context e)) (Hm : in_word 64 (i_mem_address inst))
  (Hl : alu_locked op inst = true -> i_mem_address inst <> 0)
  (Hops : alu_operands op (alu_width op inst (en_context e)) inst (en_context e) = Some (w, dst, src)) :
  alu_outcome op inst e w dst src (final (execute_alu (S rounds) op inst) e).
Proof.
  pose proof (prefix_width_ok (en_context e)) as Hpw. pose proof (size_width_ok inst) as Hsz.
  destruct op; cbn [execute_alu alu_width] in *.
  - refine (runs_outcome true ADD inst e _ _ add_acc_imm add_rm_imm add_rm_imm8 add_rm_r add_r_rm w dst src Hr Hwf Hm Hpw _ _ _ _ _ Hops); intros w1.
    + intros i Hw. exact (acc_form_run e w1 Hw ADD i eq_refl).
    + intros i Hw. exact ((fun i => rm_form_run e w1 _ _ Hr Hw Hm ADD i eq_refl) i).
    + intros i Hw. exact ((fun i => rm_form_run e w1 _ _ Hr Hw Hm ADD i eq_refl) (wrap w1 i)).
    + intros Hw. exact (rm_r_form_run e w1 _ _ Hr Hw Hm ADD eq_refl).
    + intros Hw. exact (r_rm_form_run e w1 _ _ Hr Hw Hm ADD eq_refl).
  - refine (switch_effect OR (alu_outcome OR inst e) inst e _ (st_ret tt) or_acc_imm _ _ _ or_r_rm w dst src _ _ _ _ _ Hpw Hops); intros w1.
    + intros i Hw Hi. exact (run_outcome OR inst e Hr Hwf false w1 (Reg REG_RAX) (Imm i) _ Hw I Hi (or_introl eq_refl) (or_acc_run e w1 i)).
    + intros i Hw Hi. exact (locked_outcome rounds OR inst e Hr Hwf Hm Hl (or_introl eq_refl) w1 i Hw Hi).
    + intros i Hw. exact (locked_outcome rounds OR inst e Hr Hwf Hm Hl (or_introl eq_refl) w1 _ Hw (wrap_width_ok w1 i Hw)).
    + intros Hw. exact (locked_outcome_r rounds OR inst e Hr Hwf Hm Hl (or_introl eq_refl) w1 Hw).
    + intros Hw. exact (run_outcome OR inst e Hr Hwf false w1 (Reg (reg_index (i_modrm inst) (en_context e))) _ _ Hw I (rm_operand_ok _ _ _ _ Hm) (or_introl eq_refl) (r_rm_by_helpers_run e w1 _ _ Hr Hw Hm OR eq_refl)).
  - refine (runs_outcome false ADC inst e _ _ adc_acc_imm adc_rm_imm adc_rm_imm8 adc_rm_r adc_r_rm w dst src Hr Hwf Hm Hsz _ _ _ _ _ Hops); intros w1.
    + intros i Hw. exact (acc_form_run e w1 Hw ADC i eq_refl).
    + intros i Hw. exact ((fun i => rm_form_run e w1 _ _ Hr Hw Hm ADC i eq_refl) i).
    + intros i Hw. exact ((fun i => rm_form_run e w1 _ _ Hr Hw Hm ADC i eq_refl) (wrap w1 i)).
    + intros Hw. exact (rm_r_dst_first_run e w1 _ _ Hr Hw Hm ADC eq_refl).
    + intros Hw. exact (r_rm_by_helpers_run e w1 _ _ Hr Hw Hm ADC eq_refl).
  - refine (runs_outcome false SBB inst e _ _ sbb_acc_imm sbb_rm_imm sbb_rm_imm8 sbb_rm_r sbb_r_rm w dst src Hr Hwf Hm Hsz _ _ _ _ _ Hops); intros w1.
    + intros i Hw. exact (acc_form_run e w1 Hw SBB i eq_refl).
    + intros i Hw. exact ((fun i => rm_form_run e w1 _ _ Hr Hw Hm SBB i eq_refl) i).
    + intros i Hw. exact ((fun i => rm_form_run e w1 _ _ Hr Hw Hm SBB i eq_refl) (wrap w1 i)).
    + intros Hw. exact (rm_r_dst_first_run e w1 _ _ Hr Hw Hm SBB eq_refl).
    + intros Hw. exact (r_rm_by_helpers_run e w1 _ _ Hr Hw Hm SBB eq_refl).
  - refine (runs_outcome true AND inst e _ _ and_acc_imm and_rm_imm and_rm_imm8 and_rm_r and_r_rm w dst src Hr Hwf Hm Hpw _ _ _ _ _ Hops); intros w1.
    + intros i Hw. exact (acc_form_run e w1 Hw AND i eq_refl).
    + intros i Hw. exact ((fun i => rm_form_run e w1 _ _ Hr Hw Hm AND i eq_refl) i).
    + intros i Hw. exact ((fun i => rm_form_run e w1 _ _ Hr Hw Hm AND i eq_refl) (wrap w1 i)).
    + intros Hw. exact (rm_r_form_run e w1 _ _ Hr Hw Hm AND eq_refl).
    + intros Hw. exact (r_rm_form_run e w1 _ _ Hr Hw Hm AND eq_refl).
  - refine (runs_outcome true SUB inst e _ _ sub_acc_imm sub_rm_imm sub_rm_imm8 sub_rm_r sub_r_rm w dst src Hr Hwf Hm Hpw _ _ _ _ _ Hops); intros w1.
    + intros i Hw. exact (acc_form_run e w1 Hw SUB i eq_refl).
    + intros i Hw. exact ((fun i => rm_form_run e w1 _ _ Hr Hw Hm SUB i eq_refl) i).
    + intros i Hw. exact ((fun i => rm_form_run e w1 _ _ Hr Hw Hm SUB i eq_refl) (wrap w1 i)).
    + intros Hw. exact (rm_r_form_run e w1 _ _ Hr Hw Hm SUB eq_refl).
    + intros Hw. exact (r_rm_form_run e w1 _ _ Hr Hw Hm SUB eq_refl).
  - refine (switch_effect XOR (alu_outcome XOR inst e) inst e _ (st_ret tt) xor_acc_imm _ _ _ xor_r_rm w dst src _ _ _ _ _ Hpw Hops); intros w1.
    + intros i Hw Hi. exact (run_outcome XOR inst e Hr Hwf false w1 (Reg REG_RAX) (Imm i) _ Hw I Hi (or_introl eq_refl) (xor_acc_run e w1 i)).
    + intros i Hw Hi. exact (locked_outcome rounds XOR inst e Hr Hwf Hm Hl (or_intror eq_refl) w1 i Hw Hi).
    + intros i Hw. exact (locked_outcome rounds XOR inst e Hr Hwf Hm Hl (or_intror eq_refl) w1 _ Hw (wrap_width_ok w1 i Hw)).
    + intros Hw. exact (locked_outcome_r rounds XOR inst e Hr Hwf Hm Hl (or_intror eq_refl) w1 Hw).
    + intros Hw. exact (run_outcome XOR inst e Hr Hwf false w1 (Reg (reg_index (i_modrm inst) (en_context e))) _ _ Hw I (rm_operand_ok _ _ _ _ Hm) (or_introl eq_refl) (r_rm_by_helpers_run e w1 _ _ Hr Hw Hm XOR eq_refl)).
  - refine (runs_outcome true CMP inst e _ _ cmp_acc_imm cmp_rm_imm cmp_rm_imm8 cmp_rm_r cmp_r_rm w dst src Hr Hwf Hm Hpw _ _ _ _ _ Hops); intros w1.
    + intros i Hw. exact (cmp_acc_run e w1 Hw i).
    + intros i Hw. exact (cmp_rm_imm_run e w1 _ _ Hr Hw Hm i).
    + intros i Hw. exact (cmp_rm_imm_run e w1 _ _ Hr Hw Hm (wrap w1 i)).
    + intros Hw. exact (cmp_rm_r_run e w1 _ _ Hr Hw Hm).
    + intros Hw. exact (cmp_r_rm_run e w1 _ _ Hr Hw Hm).
Qed.
End correct.

Module AluExample.
Import Bump EngineExample MemoryExample StackExample.

(** [add esp, -8] and [xor byte [0xFFE], 1]. *)
Definition add_esp : DecodedInstruction := set_i_immediate 0xF8 (set_i_modrm 0xC4 (set_i_opcode 0x83 zero_inst)).
Definition xor_unmapped : DecodedInstruction :=
  set_i_mem_address 0xFFE (set_i_immediate 1 (set_i_modrm 0x34 (set_i_opcode 0x80 zero_inst))).

Lemma outcome_abandoned op inst e w dst src e' ad v :
  alu_outcome op inst e w dst src e' -> alu_locked op inst = false -> operand_fault e w MM_PROT_READ dst = Some (ad, v) ->
  abandoned e MM_PROT_READ v ad e'.
Proof. intros [H | [H _]] Hl Hf; [| congruence]. unfold alu_effect in H. by rewrite Hf in H. Qed.

Lemma outcome_reg op inst e w reg src e' :
  alu_outcome op inst e w (Reg reg) src e' -> alu_locked op inst = false -> alu_writes op = true ->
  operand_fault e w MM_PROT_READ src = None ->
  exists rf, flags_written (alu_flags op w (carry_flag (en_context e)) (Z.testbit (c_rflags (en_context e)) 4)
      (operand_value e w (Reg reg)) (operand_value e w src)) (c_rflags (en_context e)) rf /\
    en_context e' = set_reg w reg (wrap w (alu_exact op (carry_flag (en_context e)) (operand_value e w (Reg reg)) (operand_value e w src)))
      (set_c_rflags rf (en_context e)).
Proof.
  intros [H | [H _]] Hl Hw Hf; [| congruence]. unfold alu_effect in H. rewrite Hf, Hw in H. cbn [operand_fault] in H.
  destruct H as (ctx' & [Hc Hfl] & Hs). exists (c_rflags ctx'). split; [done |]. rewrite (same_cpu_context _ _ Hs), <- Hc. done.
Qed.

Lemma alu_instructions_correct_witness :
  (let e' := final (execute_alu 1 ADD add_esp) (stacked 0x1004) in
   get_reg 32 (en_context e') 4 = 0xFFC /\ Z.testbit (c_rflags (en_context e')) 0 = true) /\
  let e' := final (execute_alu 1 XOR xor_unmapped) (stacked 0x1004) in
  c_exception (en_context e') = mkExc CPU_EXCEPTION_PF 0 /\ ms_heap (en_mem e') = ms_heap (en_mem (stacked 0x1004)).
Proof.
  assert (Hv : in_word 64 0x1004) by zcompute. split; intros e'.
  - assert (Hm : in_word 64 (i_mem_address add_esp)) by zcompute.
    assert (Hops : alu_operands ADD (alu_width ADD add_esp (en_context (stacked 0x1004))) add_esp (en_context (stacked 0x1004)) =
      Some (32, Reg 4, Imm 0xFFFFFFF8)) by (vm_compute; reflexivity).
    assert (H := alu_instructions_correct 0 ADD add_esp (stacked 0x1004) 32 (Reg 4) (Imm 0xFFFFFFF8)
      (stacked_ready _) (stacked_regs _ Hv) Hm ltac:(discriminate) Hops).
    destruct (outcome_reg ADD add_esp (stacked 0x1004) 32 4 (Imm 0xFFFFFFF8) e' H ltac:(reflexivity) ltac:(reflexivity) ltac:(reflexivity)) as (rf & Hf & Hc).
    specialize (Hf 0 ltac:(lia)). assert (wrap 32 (alu_exact ADD (carry_flag (en_context (stacked 0x1004))) (operand_value (stacked 0x1004) 32 (Reg 4)) (operand_value (stacked 0x1004) 32 (Imm 0xFFFFFFF8))) = 0xFFC) as Er by (vm_compute; reflexivity).
    rewrite Er in Hc. clearbody e'. rewrite Hc. split; [reflexivity |]. change (Z.testbit rf 0 = true). rewrite Hf. vm_compute. reflexivity.
  - assert (Hm : in_word 64 (i_mem_address xor_unmapped)) by zcompute.
    assert (Hops : alu_operands XOR (alu_width XOR xor_unmapped (en_context (stacked 0x1004))) xor_unmapped (en_context (stacked 0x1004)) =
      Some (8, Mem 0xFFE, Imm 1)) by (vm_compute; reflexivity).
    assert (H := alu_instructions_correct 0 XOR xor_unmapped (stacked 0x1004) 8 (Mem 0xFFE) (Imm 1)
      (stacked_ready _) (stacked_regs _ Hv) Hm ltac:(discriminate) Hops).
    assert (operand_fault (stacked 0x1004) 8 MM_PROT_READ (Mem 0xFFE) = Some (0xFFE, V_UNMAPPED)) as E by (vm_compute; reflexivity).
    destruct (outcome_abandoned XOR xor_unmapped (stacked 0x1004) 8 (Mem 0xFFE) (Imm 1) e' 0xFFE V_UNMAPPED H ltac:(reflexivity) E) as (_ & Hx & _ & _ & Hh & _).
    clearbody e'. split; [rewrite Hx; vm_compute; reflexivity | exact Hh].
Defined.

End AluExample.
