(* ===== verification/Executor.v ===== *)
(** * cpu/executor.hpp: fetch, decode, dispatch

    One step fetches up to 15 bytes, asks the cache or the decoder for the decoded instruction,
    saves the registers the instruction may have to give back, runs its handler and either moves
    RIP on or, when an exception is pending, puts the saved registers back.  The decoder and the
    instruction handlers are interfaces: [Decoder] is implemented by Decoder.v, [InstructionSet]
    stands for the execute_* functions, of which Alu.v models a family.  A decoded instruction is
    handed around by reference, as the code does: the executor reads its fields again after
    callbacks and handlers ran, and a reference into the cache sees what they left there. *)

From Stdlib Require Import ZArith Bool List Lia String.
From stdpp Require Import base tactics list gmap.
From S2P Require Import Prelude CpuDef Flags HostMemory RegionTable RegionSplit Patches PageCache InstCache Machine CpuMemory Registers Stack DispatchHelpers Alu.

Definition MAX_INST_FETCH : Z := 15.
Definition CPU_STEP_OK : Z := 0.
Definition CPU_STEP_HALT : Z := 1.
Definition CPU_STEP_FETCH_ERR : Z := 2.
Definition CPU_STEP_UD : Z := 3.
Definition CPU_STEP_EXCEPTION : Z := 4.

(** [handler(ctx, bytes, size)] and [fast_handler(ctx, decoded)], for the handlers the decoder
    installs. *)
Class InstructionSet := {
  execute : DecodedExecuteFn -> list Z -> Z -> ST cpueaxh_engine unit;
  execute_fast : DecodedFastFn -> DecodedInst -> ST cpueaxh_engine unit;
}.

(** [cpu_decode_instruction(ctx, buf, fetched, &decoded)] on [fetched] bytes. *)
Class Decoder := {
  cpu_decode : list Z -> ST cpueaxh_engine DecodedInst;
}.

(** A [DecodedInst*]: a slot of the cache or a local variable. *)
Inductive DecodedRef := InCache (index : Z) | OnStack (dec : DecodedInst).

Definition deref (r : DecodedRef) : ST cpueaxh_engine DecodedInst :=
  match r with
  | InCache index => st_gets (fun e => ic_decoded (slot_at (en_inst_cache e) index))
  | OnStack dec => st_ret dec
  end.

(** Reads the condition codes out of RFLAGS; the [default] case is unreachable. *)
Definition cpu_executor_eval_jcc_condition (flags cond : Z) : bool :=
  let cf := has_bits flags RFLAGS_CF in
  let zf := has_bits flags RFLAGS_ZF in
  let sf := has_bits flags RFLAGS_SF in
  let o := has_bits flags RFLAGS_OF in
  let pf := has_bits flags RFLAGS_PF in
  if cond =? 0x0 then o
  else if cond =? 0x1 then negb o
  else if cond =? 0x2 then cf
  else if cond =? 0x3 then negb cf
  else if cond =? 0x4 then zf
  else if cond =? 0x5 then negb zf
  else if cond =? 0x6 then cf || zf
  else if cond =? 0x7 then negb cf && negb zf
  else if cond =? 0x8 then sf
  else if cond =? 0x9 then negb sf
  else if cond =? 0xA then pf
  else if cond =? 0xB then negb pf
  else if cond =? 0xC then negb (eqb sf o)
  else if cond =? 0xD then eqb sf o
  else if cond =? 0xE then zf || negb (eqb sf o)
  else if cond =? 0xF then negb zf && eqb sf o
  else false.

Section executor.
Context `{Callbacks}.

(** ** Fetching *)

(** [n] bytes from a host pointer on. *)
Definition load_bytes (ptr n : Z) : ST cpueaxh_engine (list Z) :=
  st_gets (fun e => map (fun i => load (ptr_add ptr i) (ms_heap (en_mem e))) (offsets_from 0 n)).

(** The page loop; the buffer holds the [n] bytes read so far.  Each round reads at least one. *)
Fixpoint fetch_pages (fuel : nat) (addr : Z) (buf : list Z) : ST cpueaxh_engine (list Z) :=
  match fuel with
  | O => st_ret buf
  | S fuel =>
      let n := Z.of_nat (length buf) in
      if n <? MAX_INST_FETCH then
        let current_address := u64 (addr + n) in
        let* (status, ptr) := cpu_resolve_memory_access current_address MM_PROT_EXEC current_address 1 0 in
        match status with
        | MM_ACCESS_OK =>
            let chunk := cpu_page_bytes_remaining current_address in
            let remaining := MAX_INST_FETCH - n in
            let chunk := if remaining <? chunk then remaining else chunk in
            let* bytes := load_bytes ptr chunk in
            fetch_pages fuel addr (buf ++ bytes)
        | _ => st_ret buf
        end
      else st_ret buf
  end.

(** The byte loop over the offsets that are left. *)
Fixpoint fetch_bytes (offsets : list Z) (addr : Z) (buf : list Z) : ST cpueaxh_engine (list Z) :=
  match offsets with
  | [] => st_ret buf
  | i :: offsets =>
      let* (status, ptr) := cpu_resolve_memory_access (u64 (addr + i)) MM_PROT_EXEC (u64 (addr + i)) 1 0 in
      match status with
      | MM_ACCESS_OK =>
          let* byte := load_host ptr in
          fetch_bytes offsets addr (buf ++ [byte])
      | _ => st_ret buf
      end
  end.

(** The bytes read; the source returns their number. *)
Definition fetch_instruction_bytes (addr : Z) : ST cpueaxh_engine (list Z) :=
  let* pending := get_ctx cpu_has_exception in
  if pending then st_ret []
  else
    let* fast := st_gets cpu_can_use_page_fast_path in
    if fast then fetch_pages 15 addr []
    else fetch_bytes (offsets_from 0 MAX_INST_FETCH) addr [].

(** [CPUEAXH_STRICT_INTERNAL] is 1: an instruction decoded without a length is #UD. *)
Definition cpu_executor_notify_fetched_bytes (rip : Z) (decoded : DecodedRef) : ST cpueaxh_engine unit :=
  let* hooked := st_gets (fun e => cpu_has_hook_type e CPUEAXH_HOOK_MEM_FETCH) in
  if negb hooked then st_ret tt
  else
    let* dec := deref decoded in
    let count := d_length dec in
    if count <=? 0 then mod_ctx raise_ud_ctx
    else
      let count := if d_byte_count dec <? count then d_byte_count dec else count in
      st_for (offsets_from 0 count) (fun i =>
        let* dec := deref decoded in
        cpu_notify_memory_hook CPUEAXH_HOOK_MEM_FETCH (u64 (rip + i)) 1 (arr_get 0 (d_bytes dec) i)).

(** ** Inline forms *)

(** [pop_value*] of the operand size and the checked jump; whether the jump was made. *)
Definition pop_rip (operand_size : Z) : ST cpueaxh_engine bool :=
  let* target :=
    (if operand_size =? 16 then pop_value16 else if operand_size =? 32 then pop_value32 else pop_value64) in
  let* faulted := get_ctx cpu_has_exception in
  if faulted then st_ret false
  else
    on_ctx (cpu_assign_rip_checked target (if operand_size =? 16 then 16 else if operand_size =? 32 then 32 else 64)) ;;;
    st_ret true.

Definition cpu_executor_inline_ret_no_imm (decoded : DecodedRef) : ST cpueaxh_engine unit :=
  let* dec := deref decoded in
  mod_ctx (set_c_last_inst_size (d_near_ret_prefix_len dec + 1)) ;;;
  pop_rip (d_near_ret_op_size dec) ;;; st_ret tt.

(** With 16- and 32-bit operands the stack is released even when the jump raised. *)
Definition cpu_executor_inline_ret_imm16 (decoded : DecodedRef) : ST cpueaxh_engine unit :=
  let* dec := deref decoded in
  let operand_size := d_near_ret_op_size dec in
  let imm16 := d_inline_imm16 dec in
  mod_ctx (set_c_last_inst_size (d_near_ret_prefix_len dec + 3)) ;;;
  let* popped := pop_rip operand_size in
  let* faulted := get_ctx cpu_has_exception in
  if negb popped || (negb (operand_size =? 16) && negb (operand_size =? 32) && faulted) then st_ret tt
  else
    let* stack_addr_size := get_ctx get_stack_addr_size in
    let* sp := get_ctx (cpu_get_stack_pointer_value stack_addr_size) in
    mod_ctx (cpu_set_stack_pointer_value stack_addr_size (cpu_stack_pointer_add stack_addr_size sp imm16)).

(** [next_rip] plus the displacement when the condition holds. *)
Definition inline_jcc (size disp : Z) (cond : Z) : ST cpueaxh_engine unit :=
  let* rip := get_ctx c_rip in
  let* flags := get_ctx c_rflags in
  let next_rip := u64 (rip + size) in
  on_ctx (cpu_assign_rip_checked
            (if cpu_executor_eval_jcc_condition flags cond then u64 (next_rip + disp) else next_rip) 64) ;;;
  mod_ctx (set_c_last_inst_size size).

Definition cpu_executor_inline_jcc_short_longmode (decoded : DecodedRef) : ST cpueaxh_engine unit :=
  let* dec := deref decoded in inline_jcc 2 (d_inline_jcc_disp dec) (d_inline_jcc_cond dec).
Definition cpu_executor_inline_jcc_near_longmode (decoded : DecodedRef) : ST cpueaxh_engine unit :=
  let* dec := deref decoded in inline_jcc 6 (d_inline_jcc_disp32 dec) (d_inline_jcc_cond dec).

(** ** One step *)

Context `{InstructionSet}.

(** The label [cpu_step_finish]: on a pending exception the saved registers come back, all but
    the exception and CR2; after partial progress (REP) only the decoding state. *)
Definition cpu_step_finish (decoded : DecodedRef) (scalar : option CPU_SCALAR_SNAPSHOT) (vector : option CPU_VECTOR_SNAPSHOT)
  (result_code : Z) : ST cpueaxh_engine Z :=
  let* pending := get_ctx cpu_has_exception in
  if pending then
    let* exception_state := get_ctx c_exception in
    let* saved_cr2 := get_ctx (fun ctx => arr_get 0 (c_control_regs ctx) REG_CR2) in
    (match scalar with
     | None => st_ret tt
     | Some scalar =>
         let* dec := deref decoded in
         if has_bits (d_flags dec) DECODED_FLAG_PARTIAL_PROGRESS
         then mod_ctx (cpu_restore_decode_transient_snapshot scalar)
         else
           mod_ctx (cpu_restore_scalar_snapshot scalar) ;;;
           match vector with None => st_ret tt | Some vector => mod_ctx (cpu_restore_vector_snapshot vector) end
     end) ;;;
    mod_ctx (set_c_exception exception_state) ;;;
    mod_ctx (fun ctx => set_c_control_regs (arr_set (c_control_regs ctx) REG_CR2 saved_cr2) ctx) ;;;
    mod_ctx (set_c_segment_override (-1)) ;;; st_ret CPU_STEP_EXCEPTION
  else mod_ctx (set_c_segment_override (-1)) ;;; st_ret result_code.

(** The call through the handler pointers; without either the instruction does nothing. *)
Definition run_handler (decoded : DecodedRef) : ST cpueaxh_engine unit :=
  let* dec := deref decoded in
  match d_fast_handler dec with
  | Some fast => execute_fast fast dec
  | None =>
      match d_handler dec with
      | Some handler => execute handler (d_bytes dec) (d_byte_count dec)
      | None => st_ret tt
      end
  end.

(** After a handler: RIP moves past the instruction unless the handler moved it. *)
Definition advance_rip (decoded : DecodedRef) (rip_pre : Z) : ST cpueaxh_engine unit :=
  let* faulted := get_ctx cpu_has_exception in
  if faulted then st_ret tt
  else
    let* dec := deref decoded in
    if negb (has_bits (d_flags dec) DECODED_FLAG_BRANCH)
    then mod_ctx (fun ctx => set_c_rip (u64 (rip_pre + u64 (c_last_inst_size ctx))) ctx) else st_ret tt.

(** The inline forms or the handler, whichever the decoder chose. *)
Definition run_decoded (decoded : DecodedRef) (rip_pre : Z) : ST cpueaxh_engine unit :=
  let* dec := deref decoded in
  if has_bits (d_flags dec) DECODED_FLAG_INLINE_RET then
    if d_inline_kind dec =? DECODED_INLINE_RET_NEAR_NO_IMM then cpu_executor_inline_ret_no_imm decoded
    else if d_inline_kind dec =? DECODED_INLINE_RET_NEAR_IMM16 then cpu_executor_inline_ret_imm16 decoded
    else st_ret tt
  else if d_inline_kind dec =? DECODED_INLINE_JCC_SHORT_LONGMODE then cpu_executor_inline_jcc_short_longmode decoded
  else if d_inline_kind dec =? DECODED_INLINE_JCC_NEAR_LONGMODE then cpu_executor_inline_jcc_near_longmode decoded
  else run_handler decoded ;;; advance_rip decoded rip_pre.

Definition cpu_step_dispatch_decoded (decoded : DecodedRef) (rip_pre : Z) : ST cpueaxh_engine Z :=
  cpu_executor_notify_fetched_bytes rip_pre decoded ;;;
  let* dec := deref decoded in
  mod_ctx (set_c_segment_override (d_segment_override dec)) ;;;
  if has_bits (d_flags dec) DECODED_FLAG_UD then
    mod_ctx raise_ud_ctx ;;; cpu_step_finish decoded None None CPU_STEP_UD
  else if has_bits (d_flags dec) DECODED_FLAG_BP then
    mod_ctx raise_bp_ctx ;;; cpu_step_finish decoded None None CPU_STEP_EXCEPTION
  else if has_bits (d_flags dec) DECODED_FLAG_DB then
    mod_ctx raise_db_ctx ;;; cpu_step_finish decoded None None CPU_STEP_EXCEPTION
  else
    let* ctx := get_ctx id in
    let scalar := if has_bits (d_flags dec) DECODED_FLAG_NO_FAULT then None else Some (cpu_capture_scalar_snapshot ctx) in
    let vector := if has_bits (d_flags dec) DECODED_FLAG_TOUCHES_VECTOR then Some (cpu_capture_vector_snapshot ctx) else None in
    run_decoded decoded rip_pre ;;;
    cpu_step_finish decoded scalar vector CPU_STEP_OK.

Context `{Decoder}.

(** The label's early form: no instruction, no handler. *)
Definition no_instruction : ST cpueaxh_engine Z :=
  mod_ctx (set_c_segment_override (-1)) ;;;
  let* faulted := get_ctx cpu_has_exception in
  st_ret (if faulted then CPU_STEP_EXCEPTION else CPU_STEP_FETCH_ERR).

(** [prefetched] is empty when the caller passed no bytes. *)
Definition cpu_step_with_prefetch (prefetched : list Z) : ST cpueaxh_engine Z :=
  let* pending := get_ctx cpu_has_exception in
  if pending then st_ret CPU_STEP_EXCEPTION
  else
    let* rip_pre := get_ctx c_rip in
    let* cache := get_ctx c_inst_cache in
    let* mode_key := on_ctx cpu_inst_cache_mode_key in
    let* hit := st_gets (fun e =>
      cache && cache_hit (slot_at (en_inst_cache e) (cpu_inst_cache_index rip_pre))
                 (mm_code_version (ms_mgr (en_mem e))) rip_pre mode_key) in
    let* decoded :=
      (if hit then st_ret (Some (InCache (cpu_inst_cache_index rip_pre)))
       else
         let* bytes :=
           (match prefetched with
            | [] => fetch_instruction_bytes rip_pre
            | _ => st_ret (firstn 15 prefetched)
            end) in
         match bytes with
         | [] => st_ret None
         | _ =>
             let* dec := cpu_decode bytes in
             if cache && negb (d_byte_count dec =? 0) then
               mod_engine (fun e =>
                 set_en_inst_cache (cpu_inst_cache_commit (ms_mgr (en_mem e)) rip_pre mode_key dec (en_inst_cache e)) e) ;;;
               st_ret (Some (InCache (cpu_inst_cache_index rip_pre)))
             else st_ret (Some (OnStack dec))
         end) in
    match decoded with
    | None => no_instruction
    | Some decoded =>
        let* dec := deref decoded in
        if d_byte_count dec =? 0 then no_instruction else cpu_step_dispatch_decoded decoded rip_pre
    end.

Definition cpu_step_decoded (slot : Z) : ST cpueaxh_engine Z :=
  let* pending := get_ctx cpu_has_exception in
  if pending then st_ret CPU_STEP_EXCEPTION
  else let* rip := get_ctx c_rip in cpu_step_dispatch_decoded (InCache slot) rip.

Definition cpu_step : ST cpueaxh_engine Z := cpu_step_with_prefetch [].

(** [cpu_run]: the number of steps that ended well; [None] when it has not returned after [fuel]
    rounds.  [max_steps = 0] means no limit. *)
Fixpoint cpu_run_loop (fuel : nat) (max_steps count : Z) : ST cpueaxh_engine (option Z) :=
  match fuel with
  | O => st_ret None
  | S fuel =>
      if negb (max_steps =? 0) && (max_steps <=? count) then st_ret (Some count)
      else
        let* result := cpu_step_with_prefetch [] in
        if result =? CPU_STEP_HALT then st_ret (Some count)
        else if negb (result =? CPU_STEP_OK) then st_ret (Some count)
        else cpu_run_loop fuel max_steps (u64 (count + 1))
  end.

Definition cpu_run (fuel : nat) (max_steps : Z) : ST cpueaxh_engine (option Z) := cpu_run_loop fuel max_steps 0.

End executor.

(** ** Fetching reads what the guest sees *)

(** The bytes up to the first one that cannot be executed. *)
Fixpoint fetchable (e : cpueaxh_engine) (addr : Z) (offsets : list Z) : list Z :=
  match offsets with
  | [] => []
  | i :: offsets =>
      match cpu_access e (at_off addr i) MM_PROT_EXEC with
      | V_OK => guest_byte e (at_off addr i) :: fetchable e addr offsets
      | _ => []
      end
  end.

Definition fetch_post (e : cpueaxh_engine) (addr : Z) (offsets : list Z) (buf : list Z) (r : list Z * cpueaxh_engine) : Prop :=
  fst r = buf ++ fetchable e addr offsets /\
  match first_fault_in e offsets addr MM_PROT_EXEC with
  | None => same_cpu e (snd r)
  | Some (ad, v) => faults e v ad MM_PROT_EXEC (snd r)
  end.

Lemma fetchable_app e addr l l' :
  first_fault_in e l addr MM_PROT_EXEC = None ->
  fetchable e addr (l ++ l') = map (fun i => guest_byte e (at_off addr i)) l ++ fetchable e addr l'.
Proof.
  induction l as [| i l IH]; [done |]. cbn [first_fault_in fetchable app map].
  destruct (cpu_access e (at_off addr i) MM_PROT_EXEC); try done. intros. cbn [app]. by rewrite IH.
Qed.

(** Within a page without patches, one pointer reaches every byte. *)
Lemma page_reach e a k step acc :
  cpu_ready e -> mm_patches (ms_mgr (en_mem e)) = [] -> cpu_access e (at_off a k) acc = V_OK ->
  0 <= step <= cpu_page_bytes_remaining (at_off a k) ->
  forall j, 0 <= j < step ->
    cpu_access e (at_off a (k + j)) acc = V_OK /\
    load (ptr_add (host_address (en_mem e) (at_off a k)) j) (ms_heap (en_mem e)) = guest_byte e (at_off a (k + j)).
Proof.
  intros (Hm & _ & _) Hp Hok Hst j Hj. destruct (within_page a k j ltac:(lia)) as [Heq Hpg].
  assert (Hok' : cpu_access e (at_off a (k + j)) acc = V_OK) by by rewrite (access_page _ _ _ _ (mgw_mem _ Hm) Hpg).
  split; [done |]. rewrite (guest_byte_host _ _ _ Hok'). unfold load. f_equal.
  pose proof (host_word _ _ Hm (at_off_word a (k + j))) as [Hw _].
  rewrite (host_page _ (at_off a k) (at_off a (k + j)) (mgw_mem _ Hm) Hp) in Hw |- * by done.
  rewrite Heq in *. replace (at_off a k + j - at_off a k) with j in * by lia. by apply wrap_small.
Qed.

Section fetching.
Context `{Callbacks}.

Lemma fetch_pages_spec e addr fuel : forall buf e1,
  cpu_ready e -> mm_patches (ms_mgr (en_mem e)) = [] -> same_cpu e e1 ->
  Z.of_nat (length buf) <= 15 -> 15 - Z.of_nat (length buf) <= Z.of_nat fuel ->
  fetch_post e addr (seqZ (Z.of_nat (length buf)) (15 - Z.of_nat (length buf))) buf (fetch_pages fuel addr buf e1).
Proof.
  induction fuel as [| fuel IH]; intros buf e1 Hr Hp Hs Hle Hfuel; cbn [fetch_pages].
  { replace (15 - Z.of_nat (length buf)) with 0 by lia. change (seqZ _ 0) with (@nil Z).
    split; [by rewrite app_nil_r | done]. }
  unfold MAX_INST_FETCH. set (n := Z.of_nat (length buf)) in *.
  destruct (Z.ltb_spec n 15).
  2: { replace (15 - n) with 0 by lia. change (seqZ _ 0) with (@nil Z). split; [by rewrite app_nil_r | done]. }
  fold (at_off addr n). unfold st_bind at 1.
  pose proof (resolve_at e e1 (at_off addr n) MM_PROT_EXEC (at_off addr n) 1 0 Hr Hs (at_off_word _ _)) as Hres.
  destruct (cpu_resolve_memory_access _ _ _ _ _ e1) as [[st ptr] e2].
  assert (Hsplit1 : seqZ n (15 - n) = n :: seqZ (n + 1) (14 - n)) by (rewrite seqZ_cons by lia; f_equal; f_equal; lia).
  destruct st.
  2, 3: unfold fetch_post; cbn [st_ret fst snd]; rewrite Hsplit1; cbn [fetchable first_fault_in];
    destruct Hres as [Hno Hf]; destruct (cpu_access e (at_off addr n) MM_PROT_EXEC);
    [done | ..]; (split; [by rewrite app_nil_r | done]).
  destruct Hres as (Hok & -> & Hs2). pose proof (remaining_bounds (at_off addr n)).
  set (chunk := if 15 - n <? cpu_page_bytes_remaining (at_off addr n) then 15 - n else cpu_page_bytes_remaining (at_off addr n)).
  assert (Hc : 0 < chunk <= 15 - n /\ chunk <= cpu_page_bytes_remaining (at_off addr n)).
  { unfold chunk. destruct (Z.ltb_spec (15 - n) (cpu_page_bytes_remaining (at_off addr n))); lia. }
  unfold st_bind, load_bytes, st_gets. rewrite (same_cpu_heap _ _ Hs2).
  pose proof (page_reach e addr n chunk MM_PROT_EXEC Hr Hp Hok ltac:(lia)) as Hreach.
  assert (Hmap : map (fun i => load (ptr_add (host_address (en_mem e) (at_off addr n)) i) (ms_heap (en_mem e))) (offsets_from 0 chunk) =
                 map (fun i => guest_byte e (at_off addr i)) (seqZ n chunk)).
  { rewrite offsets_0. replace (seqZ n chunk) with (map (Z.add n) (seqZ 0 chunk)) by (change (Z.add n <$> seqZ 0 chunk = seqZ n chunk); by rewrite fmap_add_seqZ, Z.add_0_r).
    rewrite map_map. apply map_ext_in. intros i Hi%list_elem_of_In%elem_of_seqZ. apply Hreach. lia. }
  assert (Hnone : first_fault_in e (seqZ n chunk) addr MM_PROT_EXEC = None).
  { apply first_fault_none, Forall_forall. intros o Ho%elem_of_seqZ. replace o with (n + (o - n)) by lia. apply Hreach. lia. }
  rewrite Hmap. assert (Hl : Z.of_nat (length (buf ++ map (fun i => guest_byte e (at_off addr i)) (seqZ n chunk))) = n + chunk).
  { rewrite length_app, length_map, length_seqZ. unfold n. lia. }
  specialize (IH (buf ++ map (fun i => guest_byte e (at_off addr i)) (seqZ n chunk)) e2 Hr Hp Hs2).
  rewrite Hl in IH. specialize (IH ltac:(lia) ltac:(lia)). destruct IH as [IH1 IH2].
  rewrite (seqZ_split chunk (15 - n)) by lia. unfold fetch_post.
  rewrite fetchable_app, first_fault_app, Hnone by done.
  replace (15 - n - chunk) with (15 - (n + chunk)) by lia. split; [| exact IH2]. by rewrite IH1, <- app_assoc.
Qed.

Lemma fetch_bytes_spec e addr offsets : forall buf e1,
  cpu_ready e -> same_cpu e e1 -> fetch_post e addr offsets buf (fetch_bytes offsets addr buf e1).
Proof.
  induction offsets as [| i offsets IH]; intros buf e1 Hr Hs; cbn [fetch_bytes].
  { split; [by rewrite app_nil_r | done]. }
  unfold st_bind. fold (at_off addr i).
  pose proof (resolve_at e e1 (at_off addr i) MM_PROT_EXEC (at_off addr i) 1 0 Hr Hs (at_off_word _ _)) as Hres.
  destruct (cpu_resolve_memory_access _ _ _ _ _ e1) as [[st ptr] e2]. unfold fetch_post. cbn [fetchable first_fault_in].
  destruct st.
  2, 3: cbn [st_ret fst snd]; destruct Hres as [Hno Hf]; destruct (cpu_access e (at_off addr i) MM_PROT_EXEC);
    [done | ..]; (split; [by rewrite app_nil_r | done]).
  destruct Hres as (Hok & -> & Hs2). rewrite Hok. unfold load_host, st_gets. rewrite (same_cpu_heap _ _ Hs2).
  unfold load. rewrite <- (guest_byte_host _ _ _ Hok).
  destruct (IH (buf ++ [guest_byte e (at_off addr i)]) e2 Hr Hs2) as [IH1 IH2]. split; [| exact IH2].
  by rewrite IH1, <- app_assoc.
Qed.

Lemma fetch_spec e addr :
  cpu_ready e -> fetch_post e addr (seqZ 0 15) [] (fetch_instruction_bytes addr e).
Proof.
  intros Hr. pose proof Hr as (Hm & _ & Hx). unfold fetch_instruction_bytes, st_bind, get_ctx, st_gets. rewrite Hx.
  unfold cpu_can_use_page_fast_path, patch_count.
  destruct (Z.eqb_spec (Z.of_nat (length (mm_patches (ms_mgr (en_mem e))))) 0) as [Hp | Hp].
  - assert (Hpn : mm_patches (ms_mgr (en_mem e)) = []) by (destruct (mm_patches _); [done | cbn in Hp; lia]).
    apply (fetch_pages_spec e addr 15 [] e); cbn; try lia; try done. by apply same_cpu_refl.
  - unfold MAX_INST_FETCH. rewrite offsets_0. apply fetch_bytes_spec; [done | by apply same_cpu_refl].
Qed.

End fetching.

(** ** Comparing and branching *)

(** What each condition code asks of the operands of the comparison before it. *)
Definition compare_meaning (w d s cond : Z) : bool :=
  if cond =? 0x0 then out_of_signed_range w (sext w d - sext w s)
  else if cond =? 0x1 then negb (out_of_signed_range w (sext w d - sext w s))
  else if cond =? 0x2 then d <? s
  else if cond =? 0x3 then s <=? d
  else if cond =? 0x4 then d =? s
  else if cond =? 0x5 then negb (d =? s)
  else if cond =? 0x6 then d <=? s
  else if cond =? 0x7 then s <? d
  else if cond =? 0x8 then sext w (d - s) <? 0
  else if cond =? 0x9 then 0 <=? sext w (d - s)
  else if cond =? 0xA then even_parity (wrap w (d - s))
  else if cond =? 0xB then negb (even_parity (wrap w (d - s)))
  else if cond =? 0xC then sext w d <? sext w s
  else if cond =? 0xD then sext w s <=? sext w d
  else if cond =? 0xE then sext w d <=? sext w s
  else sext w s <? sext w d.

(** The flags of CMP and SUB at a width. *)
Definition compare_flags (w d s : Z) : CPU_CONTEXT -> CPU_CONTEXT := update_flags_sub_at w d s (wrap (raw_width w) (d - s)).

(** SF differs from OF exactly when the comparison is signed less. *)
Lemma signed_less w d s :
  0 < w -> in_word w d -> in_word w s ->
  negb (eqb (sext w (d - s) <? 0) (out_of_signed_range w (sext w d - sext w s))) = (sext w d <? sext w s).
Proof.
  intros Hw Hd Hs. unfold out_of_signed_range, sext.
  rewrite (wrap_small w d), (wrap_small w s) by done. destruct Hd, Hs.
  rewrite wrap_once_neg by lia. rewrite (pow2_double w) in * by done.
  pose proof (pow2_pos (w - 1)). set (M := 2 ^ (w - 1)) in *.
  destruct (Z.ltb_spec d M), (Z.ltb_spec s M), (Z.ltb_spec (d - s) 0),
    (Z.ltb_spec (d - s + 2 * M) M), (Z.ltb_spec (d - s) M);
  repeat match goal with |- context [?a <? ?b] => destruct (Z.ltb_spec a b) end;
  repeat match goal with |- context [?a <=? ?b] => destruct (Z.leb_spec a b) end; cbn; lia.
Qed.

Lemma equal_difference w d s : 0 < w -> in_word w d -> in_word w s -> (wrap w (d - s) =? 0) = (d =? s).
Proof.
  intros Hw [? ?] [? ?]. rewrite wrap_once_neg by lia. destruct (Z.ltb_spec (d - s) 0); lia.
Qed.

Lemma sext_eq w d s : 0 < w -> in_word w d -> in_word w s -> (sext w d =? sext w s) = (d =? s).
Proof.
  intros Hw Hd Hs. unfold sext. rewrite (wrap_small w d), (wrap_small w s) by done. destruct Hd, Hs.
  rewrite (pow2_double w) in * by done. pose proof (pow2_pos (w - 1)).
  repeat match goal with |- context [?a <? ?b] => destruct (Z.ltb_spec a b) end; lia.
Qed.

Lemma eval_condition_flags f r r' cond :
  flags_written f r r' -> 0 <= cond < 16 ->
  cpu_executor_eval_jcc_condition r' cond =
    nth (Z.to_nat cond)
      [f_of f; negb (f_of f); f_cf f; negb (f_cf f); f_zf f; negb (f_zf f); f_cf f || f_zf f; negb (f_cf f || f_zf f);
       f_sf f; negb (f_sf f); f_pf f; negb (f_pf f); negb (eqb (f_sf f) (f_of f)); eqb (f_sf f) (f_of f);
       f_zf f || negb (eqb (f_sf f) (f_of f)); negb (f_zf f) && eqb (f_sf f) (f_of f)] false.
Proof.
  intros Hf Hc. unfold cpu_executor_eval_jcc_condition, RFLAGS_CF, RFLAGS_ZF, RFLAGS_SF, RFLAGS_OF, RFLAGS_PF.
  rewrite !has_bits_pow2 by lia. rewrite !Hf by lia. cbn [Z.eqb Pos.eqb].
  assert (H : cond = 0 \/ cond = 1 \/ cond = 2 \/ cond = 3 \/ cond = 4 \/ cond = 5 \/ cond = 6 \/ cond = 7 \/ cond = 8 \/
    cond = 9 \/ cond = 10 \/ cond = 11 \/ cond = 12 \/ cond = 13 \/ cond = 14 \/ cond = 15) by lia.
  repeat destruct H as [-> | H]; subst; try reflexivity. symmetry. apply negb_orb.
Qed.

Lemma eval_condition_compare w d s ctx cond :
  reg_width w -> in_word w d -> in_word w s -> cpu_has_exception ctx = false -> 0 <= cond < 16 ->
  cpu_executor_eval_jcc_condition (c_rflags (compare_flags w d s ctx)) cond = compare_meaning w d s cond.
Proof.
  intros Hw Hd Hs Hx Hc. destruct (sub_at_written w d s ctx Hw Hd Hs Hx) as [_ Hf]. fold (compare_flags w d s) in Hf.
  rewrite (eval_condition_flags _ _ _ _ Hf Hc). unfold sub_spec. cbn [f_of f_cf f_zf f_sf f_pf].
  rewrite !Z.sub_0_r. assert (Hw0 : 0 < w) by (destruct Hw as [-> | [-> | [-> | ->]]]; lia).
  rewrite (equal_difference w d s) by done. pose proof (signed_less w d s Hw0 Hd Hs) as Hl.
  pose proof (sext_eq w d s Hw0 Hd Hs) as He.
  assert (Hl' : eqb (sext w (d - s) <? 0) (out_of_signed_range w (sext w d - sext w s)) = negb (sext w d <? sext w s))
    by (rewrite <- Hl; by rewrite negb_involutive).
  rewrite Hl', negb_involutive. rewrite <- He. clear Hl Hl'.
  assert (H : cond = 0 \/ cond = 1 \/ cond = 2 \/ cond = 3 \/ cond = 4 \/ cond = 5 \/ cond = 6 \/ cond = 7 \/ cond = 8 \/
    cond = 9 \/ cond = 10 \/ cond = 11 \/ cond = 12 \/ cond = 13 \/ cond = 14 \/ cond = 15) by lia.
  repeat destruct H as [-> | H]; subst;
    match goal with |- nth (Z.to_nat ?k) _ _ = _ => let n := eval vm_compute in (Z.to_nat k) in change (Z.to_nat k) with n end;
    unfold compare_meaning; cbn [nth Z.eqb Pos.eqb]; first [reflexivity | lia].
Qed.

Section jumps.
Context `{Callbacks}.

(** A conditional jump after a comparison branches on what it says.  After CMP or SUB of any
    two operands at any width, each of the sixteen condition codes is the comparison it stands for:
    overflow, unsigned below and above, equality, sign, parity, signed less and greater; and the
    inline Jcc forms move RIP to the displaced address exactly when it holds. *)
Theorem cmp_then_jcc_correct w d s ctx cond
  (Hw : reg_width w) (Hd : in_word w d) (Hs : in_word w s) (Hx : cpu_has_exception ctx = false) (Hc : 0 <= cond < 16) :
  cpu_executor_eval_jcc_condition (c_rflags (compare_flags w d s ctx)) cond = compare_meaning w d s cond /\
  forall e size disp, en_context e = compare_flags w d s ctx ->
    let target := u64 (c_rip ctx + size + (if compare_meaning w d s cond then disp else 0)) in
    cpu_is_canonical_address target = true ->
    c_rip (en_context (final (inline_jcc size disp cond) e)) = target.
Proof.
  pose proof (eval_condition_compare w d s ctx cond Hw Hd Hs Hx Hc) as Heq.
  split; [exact Heq |]. intros e size disp He. cbv zeta. intros Hcan.
  destruct (sub_at_written w d s ctx Hw Hd Hs Hx) as [Hctx _]. fold (compare_flags w d s) in Hctx.
  assert (Hrip : c_rip (en_context e) = c_rip ctx) by (rewrite He, Hctx; done).
  unfold inline_jcc, final, st_bind, get_ctx, st_gets, on_ctx, st_zoom, mod_ctx, st_modify.
  rewrite Hrip, He, Heq.
  replace (if compare_meaning w d s cond then u64 (u64 (c_rip ctx + size) + disp) else u64 (c_rip ctx + size))
    with (u64 (c_rip ctx + size + (if compare_meaning w d s cond then disp else 0))).
  - unfold cpu_assign_rip_checked, cpu_validate_code_offset, cpu_mask_code_offset. cbn [Z.eqb Pos.eqb].
    rewrite Hcan, andb_false_r. cbn [fst snd en_context set_en_context]. done.
  - destruct (compare_meaning w d s cond); [by rewrite wrap_add_l by lia | by rewrite Z.add_0_r].
Qed.

End jumps.

(** ** Precise exceptions *)

(** The context of a faulted instruction: the one before it with the exception, CR2, no segment
    override and a stale mode key. *)
Definition fault_context (ctx : CPU_CONTEXT) (exception : CPU_EXCEPTION_STATE) (cr2 mode_key_bits : Z) : CPU_CONTEXT :=
  set_c_cached_mode_key_valid false (set_c_cached_mode_key_bits mode_key_bits (set_c_segment_override (-1)
    (set_c_control_regs (arr_set (c_control_regs ctx) REG_CR2 cr2) (set_c_exception exception ctx)))).

(** A handler of [dec] keeps the CPU's identity and the decoded instruction, and the vector
    registers unless the instruction is flagged as touching them. *)
Definition keeps (r : DecodedRef) (dec : DecodedInst) (e e' : cpueaxh_engine) : Prop :=
  same_cpu_identity (en_context e) (en_context e') /\ deref r e' = (dec, e') /\
  (has_bits (d_flags dec) DECODED_FLAG_TOUCHES_VECTOR = false -> same_vectors (en_context e) (en_context e')).

Lemma deref_context r dec e c : deref r e = (dec, e) -> deref r (set_en_context c e) = (dec, set_en_context c e).
Proof. destruct r; cbn; unfold st_gets, st_ret; cbn; congruence. Qed.

Section finish.
Context `{Callbacks}.

Lemma finish_restores r dec ctx0 e2 code :
  deref r e2 = (dec, e2) -> has_bits (d_flags dec) DECODED_FLAG_PARTIAL_PROGRESS = false ->
  cpu_has_exception (en_context e2) = true -> same_cpu_identity ctx0 (en_context e2) ->
  (has_bits (d_flags dec) DECODED_FLAG_TOUCHES_VECTOR = false -> same_vectors ctx0 (en_context e2)) ->
  cpu_step_finish r (Some (cpu_capture_scalar_snapshot ctx0))
    (if has_bits (d_flags dec) DECODED_FLAG_TOUCHES_VECTOR then Some (cpu_capture_vector_snapshot ctx0) else None) code e2 =
  (CPU_STEP_EXCEPTION,
   set_en_context (fault_context ctx0 (c_exception (en_context e2)) (arr_get 0 (c_control_regs (en_context e2)) REG_CR2)
                     (c_cached_mode_key_bits (en_context e2))) e2).
Proof.
  intros Hd Hp Hx (Hid & Ho & Hc) Hv. unfold cpu_step_finish, st_bind, get_ctx, st_gets, mod_ctx, st_modify, st_ret.
  rewrite Hx, Hd, Hp. cbn beta iota. destruct (has_bits (d_flags dec) DECODED_FLAG_TOUCHES_VECTOR).
  - f_equal. unfold set_en_context. cbn [en_context en_mem en_inst_cache]. f_equal.
    destruct e2 as [? ctx2]. cbn [en_context] in *. destruct ctx0, ctx2. cbn in Hid, Ho, Hc. subst. reflexivity.
  - specialize (Hv eq_refl). unfold same_vectors, cpu_capture_vector_snapshot in Hv. injection Hv as H1 H2 H3 H4 H5 H6.
    f_equal. unfold set_en_context. cbn [en_context en_mem en_inst_cache]. f_equal.
    destruct e2 as [? ctx2]. cbn [en_context] in *. destruct ctx0, ctx2. cbn in Hid, Ho, Hc, H1, H2, H3, H4, H5, H6. subst. reflexivity.
Qed.

End finish.

Lemma set_sp_keeps s v ctx :
  same_cpu_identity ctx (cpu_set_stack_pointer_value s v ctx) /\ same_vectors ctx (cpu_set_stack_pointer_value s v ctx).
Proof. unfold cpu_set_stack_pointer_value. by destruct (s =? 64), (s =? 32). Qed.

Section inline.
Context `{Callbacks}.

Lemma pop_keeps n e :
  cpu_ready e -> regs_wf (en_context e) -> n = 2 \/ n = 4 \/ n = 8 -> keeps_context e (snd (pop_value n e)).
Proof.
  intros Hr Hwf Hn. destruct (decide (stack_size e = 16 /\ n = 8)) as [[Hs ->] | Hok].
  - unfold pop_value, st_bind, get_ctx, st_gets, mod_ctx, st_modify, st_ret. fold (stack_size e). rewrite Hs. cbn [Z.eqb Pos.eqb andb snd].
    apply set_context_keeps; [apply raise_keeps_identity | apply raise_keeps_vectors].
  - pose proof (pop_spec e n Hr Hwf (conj Hn Hok)) as Hp.
    destruct (first_fault e (stack_top e) n MM_PROT_READ) as [[ad v] |]; destruct Hp as (e1 & He1 & ->); cbn [snd].
    + by eapply faults_keeps.
    + apply (keeps_context_trans _ e1); [by apply same_cpu_keeps |]. unfold with_sp.
      destruct (set_sp_keeps (stack_size e) (stack_at e n) (en_context e)) as [Hi Hv].
      apply set_context_keeps; by rewrite (same_cpu_context _ _ He1).
Qed.

Lemma assign_rip_keeps target os e :
  keeps_context e (snd (on_ctx (cpu_assign_rip_checked target os) e)).
Proof.
  unfold on_ctx, st_zoom, cpu_assign_rip_checked, cpu_validate_code_offset.
  destruct (cpu_uses_canonical_addresses (en_context e) && _); cbn [snd].
  - apply set_context_keeps; [apply raise_keeps_identity | apply raise_keeps_vectors].
  - by apply set_context_keeps.
Qed.

Lemma pop_rip_keeps os e :
  cpu_ready e -> regs_wf (en_context e) -> keeps_context e (snd (pop_rip os e)).
Proof.
  intros Hr Hwf. unfold pop_rip, st_bind, get_ctx, st_gets.
  assert (Hp : forall c : ST cpueaxh_engine Z, c = pop_value 2 \/ c = pop_value 4 \/ c = pop_value 8 -> keeps_context e (snd (c e)))
    by (intros c [-> | [-> | ->]]; apply pop_keeps; auto).
  specialize (Hp (if os =? 16 then pop_value16 else if os =? 32 then pop_value32 else pop_value64)).
  destruct ((if os =? 16 then pop_value16 else if os =? 32 then pop_value32 else pop_value64) e) as [t e1].
  cbn [snd] in Hp. destruct (cpu_has_exception (en_context e1)); cbn [st_ret snd].
  - apply Hp. destruct (os =? 16), (os =? 32); auto.
  - match goal with |- keeps_context e (snd (let '(_, s) := ?x in _)) => destruct x as [b e2] eqn:E end. cbn [st_ret snd].
    apply (keeps_context_trans _ e1); [apply Hp; destruct (os =? 16), (os =? 32); auto |].
    pose proof (assign_rip_keeps t (if os =? 16 then 16 else if os =? 32 then 32 else 64) e1) as Ha. by rewrite E in Ha.
Qed.

Lemma inline_jcc_keeps size disp cond e : keeps_context e (final (inline_jcc size disp cond) e).
Proof.
  unfold inline_jcc, final, st_bind, get_ctx, st_gets.
  match goal with |- keeps_context e (snd (let '(_, s) := ?x in _)) => destruct x as [b e2] eqn:E end.
  match type of E with on_ctx (cpu_assign_rip_checked ?t ?o) e = _ => pose proof (assign_rip_keeps t o e) as Ha end.
  rewrite E in Ha. apply (keeps_context_trans _ e2); [exact Ha |]. by apply mod_ctx_keeps.
Qed.

Lemma last_size_ready n e : cpu_ready e -> cpu_ready (set_en_context (set_c_last_inst_size n (en_context e)) e).
Proof. intros Hr. apply context_ready; [done | done | apply Hr]. Qed.

Lemma inline_ret_keeps r dec e :
  cpu_ready e -> regs_wf (en_context e) -> deref r e = (dec, e) ->
  keeps_context e (final (cpu_executor_inline_ret_no_imm r) e) /\ keeps_context e (final (cpu_executor_inline_ret_imm16 r) e).
Proof.
  intros Hr Hwf Hd.
  assert (Hpop : forall n, keeps_context e (snd (pop_rip (d_near_ret_op_size dec) (set_en_context (set_c_last_inst_size n (en_context e)) e)))).
  { intros n. eapply keeps_context_trans; [| apply pop_rip_keeps; [by apply last_size_ready | done]]. by apply set_context_keeps. }
  unfold cpu_executor_inline_ret_no_imm, cpu_executor_inline_ret_imm16, final.
  split; unfold st_bind at 1; rewrite Hd; unfold st_bind, mod_ctx, st_modify, get_ctx, st_gets.
  - specialize (Hpop (d_near_ret_prefix_len dec + 1)).
    destruct (pop_rip (d_near_ret_op_size dec) _) as [b e2]. exact Hpop.
  - specialize (Hpop (d_near_ret_prefix_len dec + 3)).
    destruct (pop_rip (d_near_ret_op_size dec) _) as [b e2]. cbn [snd] in Hpop.
    destruct (negb b || _); [exact Hpop |]. cbn [snd]. apply (keeps_context_trans _ e2); [exact Hpop |].
    apply set_context_keeps; apply set_sp_keeps.
Qed.

End inline.

(** ** The step *)

Definition stops_at_decode (dec : DecodedInst) : bool :=
  has_bits (d_flags dec) DECODED_FLAG_UD || has_bits (d_flags dec) DECODED_FLAG_BP || has_bits (d_flags dec) DECODED_FLAG_DB.

Lemma keeps_context_keeps r dec e e' : deref r e = (dec, e) -> keeps_context e e' -> keeps r dec e e'.
Proof.
  intros Hd (Hi & Hv & Hc). repeat split; try apply Hi; [| done].
  destruct r; cbn in *; unfold st_gets, st_ret in *; [rewrite Hc |]; congruence.
Qed.

Lemma no_fetch_hook `{Callbacks} rip r e : quiet e -> cpu_executor_notify_fetched_bytes rip r e = (tt, e).
Proof. intros Hq. unfold cpu_executor_notify_fetched_bytes, st_bind, st_gets. by rewrite Hq. Qed.

Lemma keeps_trans r dec e1 e2 e3 : keeps r dec e1 e2 -> keeps_context e2 e3 -> keeps r dec e1 e3.
Proof.
  intros ((? & ? & ?) & Hd & Hv) ((? & ? & ?) & Hv' & Hc).
  repeat split; try congruence.
  - destruct r; cbn in *; unfold st_gets, st_ret in *; [rewrite Hc |]; congruence.
  - intros Ht. specialize (Hv Ht). unfold same_vectors in *. congruence.
Qed.

Section step.
Context `{Callbacks} `{InstructionSet}.

(** Whatever the decoder chose keeps the decoded instruction, the CPU's identity and unflagged
    vector registers, when the handlers do. *)
Lemma run_decoded_keeps r dec rip e :
  cpu_ready e -> regs_wf (en_context e) -> deref r e = (dec, e) ->
  keeps r dec e (final (run_handler r) e) -> keeps r dec e (final (run_decoded r rip) e).
Proof.
  intros Hr Hwf Hd Hh. destruct (inline_ret_keeps r dec e Hr Hwf Hd) as [H1 H2].
  unfold run_decoded, final. unfold st_bind at 1. rewrite Hd.
  destruct (has_bits (d_flags dec) DECODED_FLAG_INLINE_RET).
  { destruct (d_inline_kind dec =? DECODED_INLINE_RET_NEAR_NO_IMM); [by apply keeps_context_keeps |].
    destruct (d_inline_kind dec =? DECODED_INLINE_RET_NEAR_IMM16); [by apply keeps_context_keeps |].
    apply keeps_context_keeps; [done | apply keeps_context_refl]. }
  assert (Hj : forall size disp cond, keeps r dec e (snd (inline_jcc size disp cond e)))
    by (intros; apply keeps_context_keeps; [done | apply inline_jcc_keeps]).
  destruct (d_inline_kind dec =? DECODED_INLINE_JCC_SHORT_LONGMODE).
  { unfold cpu_executor_inline_jcc_short_longmode, st_bind. rewrite Hd. apply Hj. }
  destruct (d_inline_kind dec =? DECODED_INLINE_JCC_NEAR_LONGMODE).
  { unfold cpu_executor_inline_jcc_near_longmode, st_bind. rewrite Hd. apply Hj. }
  unfold st_bind. unfold final in Hh. destruct (run_handler r e) as [u e2]. cbn [snd] in Hh.
  apply (keeps_trans r dec e e2); [done |]. destruct Hh as (_ & Hd2 & _).
  unfold advance_rip, st_bind, get_ctx, st_gets. destruct (cpu_has_exception (en_context e2)); [apply keeps_context_refl |].
  rewrite Hd2. destruct (negb _); [by apply mod_ctx_keeps | apply keeps_context_refl].
Qed.

(** The context after a step that faulted: that before the step, apart from the exception, CR2, the
    segment override and the cached mode key. *)
Definition rolled_back (ctx ctx' : CPU_CONTEXT) : Prop :=
  exists exception cr2 bits valid, exc_code exception <> CPU_EXCEPTION_NONE /\
    ctx' = set_c_cached_mode_key_valid valid (set_c_cached_mode_key_bits bits (set_c_segment_override (-1)
             (set_c_control_regs (arr_set (c_control_regs ctx) REG_CR2 cr2) (set_c_exception exception ctx)))).

Lemma pending_code ctx : cpu_has_exception ctx = true -> exc_code (c_exception ctx) <> CPU_EXCEPTION_NONE.
Proof. unfold cpu_has_exception. intros H1%negb_true_iff%Z.eqb_neq. done. Qed.

(** The exits at decode time raise without a snapshot and change nothing else. *)
Lemma decode_exit_rolls_back r o code ec result e :
  (code =? CPU_EXCEPTION_NONE) = false -> cpu_has_exception (en_context e) = false ->
  let c := set_c_segment_override o (en_context e) in
  let '(rc, e') := cpu_step_finish r None None result (set_en_context (cpu_raise_exception code ec c) (set_en_context c e)) in
  rc = CPU_STEP_EXCEPTION /\ rolled_back (en_context e) (en_context e').
Proof.
  intros Hc Hx. cbv zeta. unfold cpu_step_finish, st_bind, get_ctx, st_gets, mod_ctx, st_modify, st_ret.
  cbn [en_context set_en_context]. rewrite raise_exception_pending by done. split; [done |].
  cbn [en_context set_en_context]. unfold cpu_raise_exception. change (cpu_has_exception (set_c_segment_override o (en_context e))) with (cpu_has_exception (en_context e)).
  rewrite Hx. exists (mkExc code ec), (arr_get 0 (c_control_regs (en_context e)) REG_CR2), (c_cached_mode_key_bits (en_context e)), (c_cached_mode_key_valid (en_context e)).
  split; [apply Z.eqb_neq, Hc |]. by destruct (en_context e).
Qed.

(** C11: where a snapshot is kept, exceptions are precise.  Without hooks, a step of a decoded
    instruction that is not promised not to fault (NO_FAULT) and makes no partial progress - so that
    the step takes a snapshot - and whose handler keeps the decoded instruction, the CPU's identity
    and, unless the instruction is flagged as touching them, the vector registers, either succeeds
    without a pending exception or returns CPU_STEP_EXCEPTION with every register of the CPU,
    general, control, segment, flag, vector and decoding state, exactly as before the step, whatever
    the handler had changed; only the exception, CR2, the segment override and the mode key's cache
    differ.  Instructions wrongly promised not to fault are outside: XADD on memory is one (see the
    findings), and leaves its register and flags changed when its store faults. *)
Theorem step_rolls_back_faults r dec rip e
  (Hr : cpu_ready e) (Hwf : regs_wf (en_context e)) (Hd : deref r e = (dec, e))
  (Hnf : has_bits (d_flags dec) DECODED_FLAG_NO_FAULT = false)
  (Hpp : has_bits (d_flags dec) DECODED_FLAG_PARTIAL_PROGRESS = false)
  (Hh : forall e1, deref r e1 = (dec, e1) -> keeps r dec e1 (final (run_handler r) e1)) :
  let '(code, e') := cpu_step_dispatch_decoded r rip e in
  (code = CPU_STEP_OK /\ cpu_has_exception (en_context e') = false) \/
  (code = CPU_STEP_EXCEPTION /\ rolled_back (en_context e) (en_context e')).
Proof.
  pose proof Hr as (_ & Hq & Hx). unfold cpu_step_dispatch_decoded.
  unfold st_bind at 1. rewrite no_fetch_hook by done. unfold st_bind at 1. rewrite Hd.
  unfold st_bind, mod_ctx at 1, st_modify at 1.
  set (e1 := set_en_context (set_c_segment_override (d_segment_override dec) (en_context e)) e).
  assert (Hexit : forall code ec result, (code =? CPU_EXCEPTION_NONE) = false ->
    let '(c, e') := (let '(_, s) := mod_ctx (cpu_raise_exception code ec) e1 in cpu_step_finish r None None result s) in
    (c = CPU_STEP_OK /\ cpu_has_exception (en_context e') = false) \/
    (c = CPU_STEP_EXCEPTION /\ rolled_back (en_context e) (en_context e'))).
  { intros code ec result Hc. pose proof (decode_exit_rolls_back r (d_segment_override dec) code ec result e Hc Hx) as He.
    cbv zeta in He. revert He. unfold mod_ctx, st_modify. cbn beta iota.
    change (en_context e1) with (set_c_segment_override (d_segment_override dec) (en_context e)). fold e1.
    destruct (cpu_step_finish r None None result _) as [c e']. by right. }
  destruct (has_bits (d_flags dec) DECODED_FLAG_UD); [by apply Hexit |].
  destruct (has_bits (d_flags dec) DECODED_FLAG_BP); [by apply Hexit |].
  destruct (has_bits (d_flags dec) DECODED_FLAG_DB); [by apply Hexit |].
  unfold get_ctx, st_gets, id. rewrite Hnf.
  assert (Hr1 : cpu_ready e1) by (apply context_ready; done).
  pose proof (run_decoded_keeps r dec rip e1 Hr1 Hwf (deref_context r dec e _ Hd) (Hh e1 (deref_context r dec e _ Hd))) as Hk.
  unfold final in Hk. destruct (run_decoded r rip e1) as [u e2]. cbn [snd] in Hk. destruct Hk as (Hi & Hd2 & Hv).
  destruct (cpu_has_exception (en_context e2)) eqn:Hx2.
  - pose proof (finish_restores r dec (en_context e1) e2 CPU_STEP_OK Hd2 Hpp Hx2 Hi Hv) as Hf. rewrite Hf.
    right. split; [done |]. cbn [en_context set_en_context].
    exists (c_exception (en_context e2)), (arr_get 0 (c_control_regs (en_context e2)) REG_CR2), (c_cached_mode_key_bits (en_context e2)), false.
    split; [by apply pending_code |]. unfold fault_context, e1. cbn [en_context set_en_context]. by destruct (en_context e).
  - unfold cpu_step_finish, st_bind, get_ctx, st_gets, mod_ctx, st_modify, st_ret. rewrite Hx2. by left.
Qed.

End step.

(** ** The cache and the step *)

(** The engine with the mode key of its context computed, as every step leaves it. *)
Definition with_mode_key (e : cpueaxh_engine) : cpueaxh_engine :=
  set_en_context (snd (cpu_inst_cache_mode_key (en_context e))) e.
Definition mode_key_of (e : cpueaxh_engine) : Z := fst (cpu_inst_cache_mode_key (en_context e)).

Definition slot_of (e : cpueaxh_engine) : Z := cpu_inst_cache_index (c_rip (en_context e)).

(** The slot of RIP answers for the current address, code version and mode. *)
Definition step_hits (e : cpueaxh_engine) : bool :=
  c_inst_cache (en_context e) &&
  cache_hit (slot_at (en_inst_cache e) (slot_of e)) (mm_code_version (ms_mgr (en_mem e))) (c_rip (en_context e)) (mode_key_of e).

(** [e] with [dec] committed for its RIP and mode. *)
Definition committed (dec : DecodedInst) (rip key : Z) (e : cpueaxh_engine) : cpueaxh_engine :=
  set_en_inst_cache (cpu_inst_cache_commit (ms_mgr (en_mem e)) rip key dec (en_inst_cache e)) e.

Lemma mode_key_idempotent ctx :
  cpu_inst_cache_mode_key (snd (cpu_inst_cache_mode_key ctx)) =
  (fst (cpu_inst_cache_mode_key ctx), snd (cpu_inst_cache_mode_key ctx)).
Proof. unfold cpu_inst_cache_mode_key. by destruct (c_cached_mode_key_valid ctx) eqn:E; cbn; rewrite ?E. Qed.

Lemma mode_key_context ctx :
  exists bits valid, snd (cpu_inst_cache_mode_key ctx) = set_c_cached_mode_key_valid valid (set_c_cached_mode_key_bits bits ctx).
Proof.
  unfold cpu_inst_cache_mode_key. destruct (c_cached_mode_key_valid ctx) eqn:E.
  - exists (c_cached_mode_key_bits ctx), true. rewrite <- E. by destruct ctx.
  - by eexists _, true.
Qed.

Lemma with_mode_key_ready e : cpu_ready e -> cpu_ready (with_mode_key e).
Proof.
  intros Hr. unfold with_mode_key. destruct (mode_key_context (en_context e)) as (b & v & ->).
  apply context_ready; [done | done | apply Hr].
Qed.

Lemma with_mode_key_fields e :
  c_rip (en_context (with_mode_key e)) = c_rip (en_context e) /\ c_inst_cache (en_context (with_mode_key e)) = c_inst_cache (en_context e) /\
  cpu_has_exception (en_context (with_mode_key e)) = cpu_has_exception (en_context e) /\ c_regs (en_context (with_mode_key e)) = c_regs (en_context e).
Proof. unfold with_mode_key. by destruct (mode_key_context (en_context e)) as (b & v & ->). Qed.

Lemma with_mode_key_context_eq e : en_context (with_mode_key e) = snd (cpu_inst_cache_mode_key (en_context e)).
Proof. done. Qed.

Section caching.
Context `{Callbacks} `{InstructionSet} `{Decoder}.

Lemma step_on_hit prefetched e :
  cpu_has_exception (en_context e) = false -> step_hits e = true ->
  d_byte_count (ic_decoded (slot_at (en_inst_cache e) (slot_of e))) <> 0 ->
  cpu_step_with_prefetch prefetched e =
  cpu_step_dispatch_decoded (InCache (slot_of e)) (c_rip (en_context e)) (with_mode_key e).
Proof.
  intros Hx Hh Hb. unfold cpu_step_with_prefetch, st_bind, get_ctx, st_gets, on_ctx, st_zoom. rewrite Hx.
  fold (slot_of e). unfold step_hits, mode_key_of in Hh.
  destruct (cpu_inst_cache_mode_key (en_context e)) as [key c] eqn:Ek. cbn [fst] in Hh.
  cbn [en_inst_cache en_mem set_en_context]. rewrite Hh. cbn [st_ret deref st_gets].
  unfold st_gets. cbn [en_inst_cache set_en_context].
  destruct (Z.eqb_spec (d_byte_count (ic_decoded (slot_at (en_inst_cache e) (slot_of e)))) 0); [done |].
  unfold with_mode_key. by rewrite Ek.
Qed.

(** The step after the fetch: decode, commit, dispatch. *)
Lemma step_on_miss e bytes e1 dec :
  cpu_has_exception (en_context e) = false -> c_inst_cache (en_context e) = true -> step_hits e = false ->
  fetch_instruction_bytes (c_rip (en_context e)) (with_mode_key e) = (bytes, e1) -> bytes <> [] ->
  cpu_decode bytes e1 = (dec, e1) -> d_byte_count dec <> 0 ->
  cpu_step e =
  cpu_step_dispatch_decoded (InCache (slot_of e)) (c_rip (en_context e)) (committed dec (c_rip (en_context e)) (mode_key_of e) e1).
Proof.
  intros Hx Hic Hh Hf Hne Hdec Hb. unfold cpu_step, cpu_step_with_prefetch, st_bind, get_ctx, st_gets, on_ctx, st_zoom. rewrite Hx.
  fold (slot_of e). unfold step_hits, mode_key_of, with_mode_key in *.
  destruct (cpu_inst_cache_mode_key (en_context e)) as [key c] eqn:Ek. cbn [fst snd] in *.
  cbn [en_inst_cache en_mem set_en_context]. rewrite Hh.
  fold (set_en_context c e). rewrite Hf. destruct bytes as [| b bytes]; [done |].
  rewrite Hdec. rewrite Hic. destruct (Z.eqb_spec (d_byte_count dec) 0); [done |]. cbn [andb negb].
  unfold mod_engine, st_modify, st_ret, deref, st_gets. unfold committed. cbn [en_inst_cache set_en_inst_cache].
  unfold slot_of, cpu_inst_cache_commit. rewrite slot_at_insert_eq. cbn [ic_decoded].
  by destruct (Z.eqb_spec (d_byte_count dec) 0).
Qed.

(** A miss does what a hit would from the state with the instruction it commits. *)
Lemma miss_is_hit e bytes e1 dec
  (Hx : cpu_has_exception (en_context e) = false) (Hic : c_inst_cache (en_context e) = true) (Hh : step_hits e = false)
  (Hf : fetch_instruction_bytes (c_rip (en_context e)) (with_mode_key e) = (bytes, e1)) (Hne : bytes <> [])
  (Hdec : cpu_decode bytes e1 = (dec, e1)) (Hb : d_byte_count dec <> 0) (Hs : same_cpu (with_mode_key e) e1) :
  cpu_step e = cpu_step (committed dec (c_rip (en_context e)) (mode_key_of e) e1).
Proof.
  rewrite (step_on_miss e bytes e1 dec) by done.
  set (ec := committed dec (c_rip (en_context e)) (mode_key_of e) e1).
  assert (Hctx : en_context ec = en_context (with_mode_key e)) by (unfold ec; exact (same_cpu_context _ _ Hs)).
  destruct (with_mode_key_fields e) as (Hrip & Hcache & Hexc & _).
  assert (Hkey : cpu_inst_cache_mode_key (en_context ec) = (mode_key_of e, en_context ec))
    by (rewrite Hctx, with_mode_key_context_eq; apply mode_key_idempotent).
  assert (Hmk : mode_key_of ec = mode_key_of e) by (unfold mode_key_of at 1; by rewrite Hkey).
  assert (Hslot : slot_of ec = slot_of e) by (unfold slot_of; by rewrite Hctx, Hrip).
  assert (Hent : slot_at (en_inst_cache ec) (slot_of e) =
    mkIcEntry (c_rip (en_context e)) (mm_code_version (ms_mgr (en_mem e1))) (mode_key_of e) dec).
  { unfold ec, committed, cpu_inst_cache_commit, slot_of. cbn [en_inst_cache set_en_inst_cache]. apply slot_at_insert_eq. }
  assert (Hwk : with_mode_key ec = ec) by (unfold with_mode_key; rewrite Hkey; cbn [snd]; by destruct ec).
  unfold cpu_step. rewrite (step_on_hit [] ec).
  - by rewrite Hslot, Hctx, Hrip, Hwk.
  - by rewrite Hctx, Hexc.
  - unfold step_hits. rewrite Hmk, Hslot, Hent, Hctx, Hcache, Hic, Hrip. cbn [andb].
    unfold cache_hit. cbn [ic_tag ic_version ic_mode]. change (ms_mgr (en_mem ec)) with (ms_mgr (en_mem e1)). by rewrite !Z.eqb_refl.
  - by rewrite Hslot, Hent.
Qed.

(** The entry of a slot that hits. *)
Lemma hit_entry e : step_hits e = true ->
  slot_at (en_inst_cache e) (slot_of e) =
  mkIcEntry (c_rip (en_context e)) (mm_code_version (ms_mgr (en_mem e))) (mode_key_of e) (ic_decoded (slot_at (en_inst_cache e) (slot_of e))).
Proof.
  unfold step_hits, cache_hit. destruct (slot_at _ _) as [tag version mode dec]. cbn [ic_tag ic_version ic_mode ic_decoded].
  rewrite !andb_true_iff, !Z.eqb_eq. by intros (_ & (-> & ->) & ->).
Qed.

(** A hit at any time against the step that decodes afresh: [cache0] is the cache without the entry. *)
Lemma hit_is_fresh e cache0 bytes e1 :
  let dec := ic_decoded (slot_at (en_inst_cache e) (slot_of e)) in
  let e0 := set_en_inst_cache cache0 e in
  cpu_has_exception (en_context e) = false -> c_inst_cache (en_context e) = true -> step_hits e = true -> step_hits e0 = false ->
  en_inst_cache e = <[slot_of e := slot_at (en_inst_cache e) (slot_of e)]> cache0 ->
  fetch_instruction_bytes (c_rip (en_context e)) (with_mode_key e0) = (bytes, e1) -> bytes <> [] ->
  cpu_decode bytes e1 = (dec, e1) -> d_byte_count dec <> 0 -> same_cpu (with_mode_key e0) e1 ->
  cpu_step e0 = cpu_step (set_en_mem (en_mem e1) e).
Proof.
  intros dec e0 Hx Hic Hh Hm Hc Hf Hne Hdec Hb Hs. rewrite (step_on_miss e0 bytes e1 dec) by done.
  set (e2 := set_en_mem (en_mem e1) e). pose proof Hs as (m & -> & [_ (pc & Hpc)] & _). cbn [en_mem set_en_mem] in *.
  assert (Hv : mm_code_version (ms_mgr m) = mm_code_version (ms_mgr (en_mem e))) by (by rewrite Hpc).
  assert (Hh2 : step_hits e2 = true) by (unfold step_hits, e2; cbn [en_mem set_en_mem]; by rewrite Hv).
  unfold cpu_step. rewrite (step_on_hit [] e2) by done. change (slot_of e2) with (slot_of e). change (slot_of e0) with (slot_of e).
  f_equal. pose proof (hit_entry e Hh) as He. fold dec in He. rewrite He in Hc. unfold slot_of in Hc.
  assert (Hic2 : en_inst_cache e2 = cpu_inst_cache_commit (ms_mgr m) (c_rip (en_context e)) (mode_key_of e) dec cache0).
  { unfold cpu_inst_cache_commit. rewrite Hv. exact Hc. }
  unfold committed, with_mode_key. cbn [en_mem set_en_mem en_inst_cache set_en_context].
  change (mode_key_of e0) with (mode_key_of e). change (en_inst_cache e0) with cache0. change (c_rip (en_context e0)) with (c_rip (en_context e)).
  rewrite <- Hic2. unfold e2, e0. by destruct e.
Qed.


End caching.

(** ** Result codes and the run loop *)

Section results.
Context `{Callbacks} `{InstructionSet}.

Lemma raise_pending code ec ctx : cpu_has_exception ctx = true -> cpu_raise_exception code ec ctx = ctx.
Proof. intros Hx. unfold cpu_raise_exception. by rewrite Hx. Qed.

(** The finish reports the exception that is pending and keeps it. *)
Lemma finish_code r scalar vector rc e :
  exists e', cpu_step_finish r scalar vector rc e = (if cpu_has_exception (en_context e) then CPU_STEP_EXCEPTION else rc, e') /\
    c_exception (en_context e') = c_exception (en_context e).
Proof.
  unfold cpu_step_finish. unfold st_bind at 1. unfold get_ctx at 1, st_gets at 1.
  destruct (cpu_has_exception (en_context e)) eqn:Hx; [| eexists; split; [reflexivity | done]].
  unfold st_bind, get_ctx, st_gets, mod_ctx, st_modify, st_ret.
  destruct scalar as [scalar |]; [| eexists; split; [reflexivity | done]].
  destruct (deref r e) as [dec e1]. cbn beta iota.
  destruct (has_bits (d_flags dec) DECODED_FLAG_PARTIAL_PROGRESS); [| destruct vector]; (eexists; split; [reflexivity | done]).
Qed.

(** The code of a step and the pending exception of the state it leaves. *)
Definition code_ok (r : Z * cpueaxh_engine) : Prop :=
  if cpu_has_exception (en_context (snd r)) then fst r = CPU_STEP_EXCEPTION
  else fst r = CPU_STEP_OK \/ fst r = CPU_STEP_FETCH_ERR.

Lemma finish_code_ok r scalar vector rc e :
  cpu_has_exception (en_context e) = true \/ rc = CPU_STEP_OK -> code_ok (cpu_step_finish r scalar vector rc e).
Proof.
  intros Hor. destruct (finish_code r scalar vector rc e) as (e' & -> & Hx). unfold code_ok. cbn [fst snd].
  assert (Heq : cpu_has_exception (en_context e') = cpu_has_exception (en_context e)) by (unfold cpu_has_exception; by rewrite Hx).
  rewrite Heq. destruct (cpu_has_exception (en_context e)); [done |]. destruct Hor; [done | by left].
Qed.

Lemma raised_pending code ec e :
  (code =? CPU_EXCEPTION_NONE) = false -> cpu_has_exception (cpu_raise_exception code ec (en_context e)) = true.
Proof.
  intros Hc. unfold cpu_raise_exception. destruct (cpu_has_exception (en_context e)) eqn:Hx; [done |].
  unfold cpu_has_exception. cbn [c_exception set_c_exception exc_code]. by rewrite Hc.
Qed.

Lemma dispatch_code_ok r rip e : code_ok (cpu_step_dispatch_decoded r rip e).
Proof.
  unfold cpu_step_dispatch_decoded, st_bind, mod_ctx, st_modify, get_ctx, st_gets.
  destruct (cpu_executor_notify_fetched_bytes rip r e) as [u1 e1]. destruct (deref r e1) as [dec e2].
  cbn beta iota. destruct (has_bits _ DECODED_FLAG_UD); [apply finish_code_ok; left; by apply raised_pending |].
  destruct (has_bits _ DECODED_FLAG_BP); [apply finish_code_ok; left; by apply raised_pending |].
  destruct (has_bits _ DECODED_FLAG_DB); [apply finish_code_ok; left; by apply raised_pending |].
  destruct (run_decoded _ _ _) as [u3 e3]. apply finish_code_ok. by right.
Qed.

Context `{Decoder}.

Lemma no_instruction_code_ok e : code_ok (no_instruction e).
Proof.
  unfold no_instruction, code_ok, st_bind, mod_ctx, st_modify, get_ctx, st_gets, st_ret. cbn [fst snd en_context set_en_context].
  change (cpu_has_exception (set_c_segment_override (-1) (en_context e))) with (cpu_has_exception (en_context e)).
  destruct (cpu_has_exception (en_context e)); [done | by right].
Qed.

Lemma step_code_ok prefetched e : code_ok (cpu_step_with_prefetch prefetched e).
Proof.
  unfold cpu_step_with_prefetch. unfold st_bind at 1. unfold get_ctx at 1, st_gets at 1.
  destruct (cpu_has_exception (en_context e)) eqn:Hx; [unfold code_ok; cbn [st_ret snd fst]; by rewrite Hx |].
  unfold st_bind at 1 2 3 4 5.
  destruct (get_ctx c_rip e) as [rip e1], (get_ctx c_inst_cache e1) as [cache e2], (on_ctx cpu_inst_cache_mode_key e2) as [key e3].
  unfold st_gets at 1. match goal with |- code_ok (let '(_, _) := ?c e3 in _) => destruct (c e3) as [d e4] end.
  destruct d as [d |]; [| apply no_instruction_code_ok].
  unfold st_bind. destruct (deref d e4) as [dec e5]. destruct (d_byte_count dec =? 0); [apply no_instruction_code_ok | apply dispatch_code_ok].
Qed.

(** [n] successful steps lead from one state to another. *)
Inductive ok_steps : nat -> cpueaxh_engine -> cpueaxh_engine -> Prop :=
  | ok_steps_refl e : ok_steps 0 e e
  | ok_steps_step n e e1 e2 : cpu_step e = (CPU_STEP_OK, e1) -> ok_steps n e1 e2 -> ok_steps (S n) e e2.

Lemma run_loop_spec max fuel : forall count e,
  0 < max < 2 ^ 64 -> 0 <= count <= max -> max - count < Z.of_nat fuel ->
  exists n e1 e', cpu_run_loop fuel max count e = (Some (count + Z.of_nat n), e') /\ count + Z.of_nat n <= max /\
    ok_steps n e e1 /\
    (count + Z.of_nat n = max /\ e' = e1 \/
     count + Z.of_nat n < max /\ exists code, cpu_step e1 = (code, e') /\ code <> CPU_STEP_OK).
Proof.
  induction fuel as [| fuel IH]; intros count e Hm Hc Hf; [lia |]. cbn [cpu_run_loop].
  destruct (Z.eqb_spec max 0) as [| _]; [lia |]. cbn [negb andb].
  destruct (Z.leb_spec max count).
  { exists 0%nat, e, e. rewrite Z.add_0_r. split_and!; [done | lia | constructor | left; split; [lia | done]]. }
  unfold st_bind. fold cpu_step. destruct (cpu_step e) as [code e1] eqn:Hs.
  destruct (Z.eqb_spec code CPU_STEP_HALT) as [-> | Hh].
  { exists 0%nat, e, e1. rewrite Z.add_0_r. split_and!; [done | lia | constructor | right; split; [lia |]]. by exists CPU_STEP_HALT. }
  destruct (Z.eqb_spec code CPU_STEP_OK) as [-> | Hk]; cbn [negb].
  2: { exists 0%nat, e, e1. rewrite Z.add_0_r. split_and!; [done | lia | constructor | right; split; [lia |]]. by exists code. }
  rewrite (wrap_small 64 (count + 1)) by (split; lia).
  destruct (IH (count + 1) e1 Hm ltac:(lia) ltac:(lia)) as (n & e2 & e' & Hr & Hle & Hok & Hend).
  exists (S n), e2, e'. replace (count + Z.of_nat (S n)) with (count + 1 + Z.of_nat n) by lia.
  split_and!; [done | done | by econstructor | done].
Qed.

(** Every step says what happened, and a bounded run ends.  A step, prefetched or not, returns
    CPU_STEP_EXCEPTION exactly when an exception is pending afterwards, and otherwise CPU_STEP_OK or
    CPU_STEP_FETCH_ERR - never the codes HALT and UD; and cpu_run with a limit of [max] steps
    returns after at most [max + 1] rounds, having made exactly the successful steps it counts, and
    it stops short of the limit only at a step that did not succeed. *)
Theorem run_is_bounded_and_counts max e (Hm : 0 < max < 2 ^ 64) :
  (forall prefetched e0, code_ok (cpu_step_with_prefetch prefetched e0)) /\
  exists n e1 e', cpu_run (S (Z.to_nat max)) max e = (Some (Z.of_nat n), e') /\ Z.of_nat n <= max /\
    ok_steps n e e1 /\
    (Z.of_nat n = max /\ e' = e1 \/
     Z.of_nat n < max /\ exists code, cpu_step e1 = (code, e') /\ code_ok (code, e') /\ code <> CPU_STEP_OK).
Proof.
  split; [intros; apply step_code_ok |]. unfold cpu_run.
  destruct (run_loop_spec max (S (Z.to_nat max)) 0 e Hm ltac:(lia) ltac:(lia)) as (n & e1 & e' & Hr & Hle & Hok & Hend).
  exists n, e1, e'. rewrite Z.add_0_l in *. split_and!; [done | done | done |].
  destruct Hend as [Hend | (Hlt & code & Hs & Hk)]; [by left | right; split; [done |]].
  exists code. split_and!; [done | | done]. rewrite <- Hs. apply step_code_ok.
Qed.

End results.

(** ** An exception that was pending before the handler *)

Section pending.
Context `{Callbacks} `{InstructionSet}.

(** A handler leaves a pending exception as it is: [cpu_raise_exception] does, and nothing clears one. *)
Definition keeps_exception (r : DecodedRef) : Prop :=
  forall e, cpu_has_exception (en_context e) = true ->
    c_exception (en_context (final (run_handler r) e)) = c_exception (en_context e).

Definition not_inline (dec : DecodedInst) : Prop :=
  has_bits (d_flags dec) DECODED_FLAG_INLINE_RET = false /\ d_inline_kind dec = DECODED_INLINE_NONE.

Lemma run_decoded_pending r dec rip e :
  deref r e = (dec, e) -> not_inline dec -> keeps_exception r -> cpu_has_exception (en_context e) = true ->
  c_exception (en_context (final (run_decoded r rip) e)) = c_exception (en_context e).
Proof.
  intros Hd [Hr Hk] Hkeep Hx. unfold run_decoded, final. unfold st_bind at 1. rewrite Hd, Hr, Hk.
  cbn [Z.eqb DECODED_INLINE_NONE DECODED_INLINE_JCC_SHORT_LONGMODE DECODED_INLINE_JCC_NEAR_LONGMODE Pos.eqb].
  unfold st_bind. pose proof (Hkeep e Hx) as Hke. unfold final in Hke. destruct (run_handler r e) as [u e1]. cbn [snd] in Hke.
  unfold advance_rip, st_bind, get_ctx, st_gets.
  assert (cpu_has_exception (en_context e1) = true) as -> by (unfold cpu_has_exception in *; by rewrite Hke). exact Hke.
Qed.

Lemma dispatch_pending r dec rip e e0 :
  cpu_executor_notify_fetched_bytes rip r e = (tt, e0) -> deref r e0 = (dec, e0) ->
  cpu_has_exception (en_context e0) = true -> not_inline dec -> keeps_exception r ->
  exists e', cpu_step_dispatch_decoded r rip e = (CPU_STEP_EXCEPTION, e') /\ c_exception (en_context e') = c_exception (en_context e0).
Proof.
  intros Hn Hd Hx Hi Hk. unfold cpu_step_dispatch_decoded, st_bind, mod_ctx, st_modify, get_ctx, st_gets.
  rewrite Hn. cbn beta iota. rewrite Hd. cbn beta iota.
  set (e1 := set_en_context (set_c_segment_override (d_segment_override dec) (en_context e0)) e0).
  assert (Hx1 : cpu_has_exception (en_context e1) = true) by exact Hx.
  assert (Hexit : forall code ec rc, exists e',
    cpu_step_finish r None None rc (set_en_context (cpu_raise_exception code ec (en_context e1)) e1) = (CPU_STEP_EXCEPTION, e') /\
    c_exception (en_context e') = c_exception (en_context e0)).
  { intros code ec rc. rewrite raise_pending by done.
    destruct (finish_code r None None rc (set_en_context (en_context e1) e1)) as (e' & -> & He).
    cbn [en_context set_en_context]. rewrite Hx1. by exists e'. }
  destruct (has_bits _ DECODED_FLAG_UD); [apply Hexit |]. destruct (has_bits _ DECODED_FLAG_BP); [apply Hexit |].
  destruct (has_bits _ DECODED_FLAG_DB); [apply Hexit |].
  pose proof (run_decoded_pending r dec rip e1 (deref_context r dec e0 _ Hd) Hi Hk Hx1) as Hrun.
  unfold final in Hrun. destruct (run_decoded r rip e1) as [u e2]. cbn [snd] in Hrun.
  match goal with |- context [cpu_step_finish r ?s ?v ?rc e2] => destruct (finish_code r s v rc e2) as (e' & -> & He) end.
  assert (cpu_has_exception (en_context e2) = true) as -> by (unfold cpu_has_exception in *; by rewrite Hrun).
  exists e'. split; [done |]. by rewrite He.
Qed.

(** With a MEM_FETCH hook, an instruction decoded without a length is an invalid opcode.
    Whenever any hook wants fetches and the decoder recorded no length - as it does for every VEX
    and EVEX form, for INT3 and INT1, and for each handler without a fast form - the step runs to
    CPU_STEP_EXCEPTION with #UD, whatever the instruction is and whatever its handler does. *)
Theorem fetch_hook_makes_ud r dec rip e
  (Hh : cpu_has_hook_type e CPUEAXH_HOOK_MEM_FETCH = true) (Hd : deref r e = (dec, e)) (Hl : d_length dec <= 0)
  (Hx : cpu_has_exception (en_context e) = false) (Hi : not_inline dec) (Hk : keeps_exception r) :
  exists e', cpu_step_dispatch_decoded r rip e = (CPU_STEP_EXCEPTION, e') /\
    c_exception (en_context e') = mkExc CPU_EXCEPTION_UD 0.
Proof.
  assert (Hu : raise_ud_ctx (en_context e) = set_c_exception (mkExc CPU_EXCEPTION_UD 0) (en_context e))
    by (unfold raise_ud_ctx, cpu_raise_exception; by rewrite Hx).
  apply (dispatch_pending r dec rip e (set_en_context (set_c_exception (mkExc CPU_EXCEPTION_UD 0) (en_context e)) e)); [| by apply deref_context | done | done | done].
  unfold cpu_executor_notify_fetched_bytes, st_bind, st_gets. rewrite Hh. cbn [negb]. rewrite Hd.
  destruct (Z.leb_spec (d_length dec) 0); [| lia]. unfold mod_ctx, st_modify. by rewrite Hu.
Qed.

Context `{Decoder}.

Lemma with_mode_key_access e a acc : cpu_access (with_mode_key e) a acc = cpu_access e a acc.
Proof. unfold with_mode_key. by destruct (mode_key_context (en_context e)) as (b & v & ->). Qed.

Lemma with_mode_key_fetch e addr offsets :
  fetchable (with_mode_key e) addr offsets = fetchable e addr offsets /\
  first_fault_in (with_mode_key e) offsets addr MM_PROT_EXEC = first_fault_in e offsets addr MM_PROT_EXEC.
Proof.
  induction offsets as [| i offsets [IH1 IH2]]; [done |]. cbn [fetchable first_fault_in].
  rewrite !with_mode_key_access. destruct (cpu_access e (at_off addr i) MM_PROT_EXEC); [| done ..]. by rewrite IH1, IH2.
Qed.

Lemma raise_verdict_exception v a acc ctx b k :
  c_exception (raise_verdict v a acc (set_c_cached_mode_key_valid k (set_c_cached_mode_key_bits b ctx))) = c_exception (raise_verdict v a acc ctx).
Proof.
  destruct v; [done | ..]; unfold raise_verdict, raise_gp_ctx, cpu_raise_exception; (destruct (cpu_has_exception ctx) eqn:Hx;
    unfold cpu_has_exception in *; cbn [c_exception set_c_cached_mode_key_valid set_c_cached_mode_key_bits set_c_control_regs]; by rewrite Hx).
Qed.

Lemma quiet_counts e e' :
  c_owner_engine (en_context e') = c_owner_engine (en_context e) -> en_hook_type_counts e' = en_hook_type_counts e ->
  quiet e -> quiet e'.
Proof. intros Ho Hc Hq t. specialize (Hq t). unfold cpu_has_hook_type, count_at in *. by rewrite Ho, Hc. Qed.

Lemma raise_verdict_owner v a acc ctx : c_owner_engine (raise_verdict v a acc ctx) = c_owner_engine ctx.
Proof. destruct v; [done | ..]; cbn; unfold raise_gp_ctx, cpu_raise_exception; by destruct (cpu_has_exception _). Qed.

(** The first fetch fault is at the byte after those fetched. *)
Lemma fetch_fault_address e addr n : forall k ad v,
  first_fault_in e (seqZ k n) addr MM_PROT_EXEC = Some (ad, v) ->
  ad = at_off addr (k + Z.of_nat (length (fetchable e addr (seqZ k n)))).
Proof.
  intros k ad v. remember (Z.to_nat n) as m eqn:Em. revert n k Em.
  induction m as [| m IH]; intros n k Em Hf.
  { rewrite seqZ_nil in Hf by lia. done. }
  rewrite (seqZ_cons k n) in Hf |- * by lia. cbn [first_fault_in fetchable] in *.
  destruct (cpu_access e (at_off addr k) MM_PROT_EXEC); cbn [length] in *.
  2, 3, 4: rewrite Z.add_0_r; congruence.
  rewrite (IH (Z.pred n) (Z.succ k) ltac:(lia) Hf). f_equal. lia.
Qed.

(** A step fails when the fetch of bytes the instruction does not have faults.  The fetch
    always asks for fifteen bytes; when one of them cannot be executed, the fault of the first such
    byte - the one after the bytes that were fetched, beyond the end of an instruction that fits in
    them - stays pending while the complete instruction is decoded, cached and run, and the step
    ends in CPU_STEP_EXCEPTION with that fault. *)
Theorem prefetch_fault_fails_step e dec ad v
  (Hr : cpu_ready e) (Hic : c_inst_cache (en_context e) = true) (Hh : step_hits e = false)
  (Hff : first_fault_in e (seqZ 0 15) (c_rip (en_context e)) MM_PROT_EXEC = Some (ad, v))
  (Hne : fetchable e (c_rip (en_context e)) (seqZ 0 15) <> [])
  (Hdec : forall e1, cpu_decode (fetchable e (c_rip (en_context e)) (seqZ 0 15)) e1 = (dec, e1))
  (Hb : d_byte_count dec <> 0) (Hi : not_inline dec) (Hk : keeps_exception (InCache (slot_of e))) :
  ad = at_off (c_rip (en_context e)) (Z.of_nat (length (fetchable e (c_rip (en_context e)) (seqZ 0 15)))) /\
  exists e', cpu_step e = (CPU_STEP_EXCEPTION, e') /\
    c_exception (en_context e') = c_exception (raise_verdict v ad MM_PROT_EXEC (en_context e)).
Proof.
  split; [by rewrite (fetch_fault_address e _ 15 0 ad v Hff) at 1 |].
  destruct (with_mode_key_fetch e (c_rip (en_context e)) (seqZ 0 15)) as [Hf1 Hf2].
  pose proof (fetch_spec (with_mode_key e) (c_rip (en_context e)) (with_mode_key_ready e Hr)) as [Hp1 Hp2].
  rewrite Hf1 in Hp1. rewrite Hf2, Hff in Hp2. cbn [app] in Hp1.
  destruct (fetch_instruction_bytes (c_rip (en_context e)) (with_mode_key e)) as [bytes e1] eqn:Ef. cbn [fst snd] in Hp1, Hp2. subst bytes.
  pose proof Hr as (_ & Hq & Hx).
  rewrite (step_on_miss e _ e1 dec Hx Hic Hh Ef Hne (Hdec e1) Hb).
  destruct Hp2 as (e2 & Hs & ->). destruct (mode_key_context (en_context e)) as (b & k & Hmk).
  assert (Hexc : forall m, c_exception (en_context (committed dec (c_rip (en_context e)) m
      (set_en_context (raise_verdict v ad MM_PROT_EXEC (en_context (with_mode_key e))) e2))) =
    c_exception (raise_verdict v ad MM_PROT_EXEC (en_context e))).
  { intros m. cbn [committed en_context set_en_context set_en_inst_cache]. rewrite with_mode_key_context_eq, Hmk. apply raise_verdict_exception. }
  set (ec := committed dec _ _ _) in *. specialize (Hexc (mode_key_of e)). fold ec in Hexc.
  pose proof (dispatch_pending (InCache (slot_of e)) dec (c_rip (en_context e)) ec ec) as Hdp. rewrite <- Hexc. apply Hdp; [| | | done | done].
  - apply no_fetch_hook. apply (quiet_counts e); [| by destruct Hs as (m & -> & _) | done].
    unfold ec, committed. cbn [en_context set_en_inst_cache set_en_context]. by rewrite raise_verdict_owner, with_mode_key_context_eq, Hmk.
  - unfold deref, st_gets, ec, committed, cpu_inst_cache_commit, slot_of. cbn [en_inst_cache set_en_inst_cache]. by rewrite slot_at_insert_eq.
  - unfold cpu_has_exception. rewrite Hexc. pose proof (first_fault_not_ok _ _ _ _ _ _ Hff) as Hv.
    destruct v; [done | ..]; unfold raise_verdict, raise_gp_ctx, cpu_raise_exception; change (cpu_has_exception (set_c_control_regs ?r ?c)) with (cpu_has_exception c); rewrite Hx; done.
Qed.

End pending.

Module ExecutorExample.
Import Bump EngineExample MemoryExample.

(** Every instruction is one byte long and increments RAX; the handler "fault" raises #GP after that. *)
Definition increment (ctx : CPU_CONTEXT) : CPU_CONTEXT :=
  set_c_last_inst_size 1 (set_c_regs (arr_set (c_regs ctx) 0 (u64 (arr_get 0 (c_regs ctx) 0 + 1))) ctx).

Definition one_byte (handler : string) (length : Z) (bytes : list Z) : DecodedInst :=
  mkDecoded (Some handler) None 0 length DECODED_INLINE_NONE bytes 15 0 0 0 (-1) 0 0 0 zero_inst zero_prefix.

#[export] Instance increment_set : InstructionSet := {
  execute handler _ _ := mod_ctx (fun ctx => if String.eqb handler "fault"%string then raise_gp_ctx 0 (increment ctx) else increment ctx);
  execute_fast _ _ := st_ret tt;
}.
#[export] Instance increment_decoder : Decoder := { cpu_decode bytes := st_ret (one_byte "inc"%string 1 bytes) }.

Definition at_rip (v : Z) : cpueaxh_engine := set_en_context (set_c_rip v (en_context machine)) machine.

Lemma rip_ready e v : cpu_ready e -> cpu_ready (set_en_context (set_c_rip v (en_context e)) e).
Proof. intros Hr. apply context_ready; [exact Hr | reflexivity | exact (proj2 (proj2 Hr))]. Qed.

Lemma at_rip_ready v : cpu_ready (at_rip v).
Proof. apply rip_ready, machine_ready. Qed.

Lemma at_rip_regs v : regs_wf (en_context (at_rip v)).
Proof. split; [done |]. change (c_regs (en_context (at_rip v))) with (repeat 0 16). by apply Forall_forall; intros x ->%list_elem_of_In%repeat_spec. Qed.

Lemma increment_keeps_exception r : keeps_exception r.
Proof.
  intros e Hx. unfold run_handler, final, st_bind. destruct (deref r e) as [dec e1] eqn:Ed.
  assert (He : e1 = e) by (destruct r; cbn in Ed; unfold st_gets, st_ret in Ed; congruence). subst e1.
  destruct (d_fast_handler dec); [done |]. destruct (d_handler dec) as [h |]; [| done].
  cbn [execute increment_set]. unfold mod_ctx, st_modify. cbn [snd en_context set_en_context].
  destruct (String.eqb h "fault"); [| done]. unfold raise_gp_ctx. by rewrite raise_pending.
Qed.

(** 3 < 5 without sign, and -1 < 1 with it. *)
Lemma cmp_then_jcc_correct_witness :
  cpu_executor_eval_jcc_condition (c_rflags (compare_flags 8 3 5 (en_context machine))) 2 = true /\
  cpu_executor_eval_jcc_condition (c_rflags (compare_flags 8 0xFF 1 (en_context machine))) 0xC = compare_meaning 8 0xFF 1 0xC.
Proof.
  split; [vm_compute; reflexivity |].
  assert (Hw : reg_width 8) by (left; reflexivity).
  assert (Hd : in_word 8 0xFF) by zcompute. assert (Hs : in_word 8 1) by zcompute. assert (Hc : 0 <= 0xC < 16) by zcompute.
  assert (H := cmp_then_jcc_correct 8 0xFF 1 (en_context machine) 0xC Hw Hd Hs (proj2 (proj2 machine_ready)) Hc).
  destruct H as [H _]. exact H.
Defined.

Definition faulting : DecodedRef := OnStack (one_byte "fault"%string 1 []).

Lemma faulting_keeps e1 : deref faulting e1 = (one_byte "fault"%string 1 [], e1) -> keeps faulting (one_byte "fault"%string 1 []) e1 (final (run_handler faulting) e1).
Proof.
  intros _. unfold final, run_handler, st_bind, deref, faulting, st_ret. cbn [d_fast_handler d_handler one_byte execute increment_set String.eqb Ascii.eqb Bool.eqb].
  unfold mod_ctx, st_modify. cbn [snd]. apply keeps_context_keeps; [done |].
  apply set_context_keeps; [apply (raise_keeps_identity _ _ (increment (en_context e1))) | apply (raise_keeps_vectors _ _ (increment (en_context e1)))].
Qed.

Lemma step_rolls_back_faults_witness :
  fst (cpu_step_dispatch_decoded faulting 0x1000 (at_rip 0x1000)) = CPU_STEP_EXCEPTION /\
  let '(code, e') := cpu_step_dispatch_decoded faulting 0x1000 (at_rip 0x1000) in
  (code = CPU_STEP_OK /\ cpu_has_exception (en_context e') = false) \/
  (code = CPU_STEP_EXCEPTION /\ rolled_back (en_context (at_rip 0x1000)) (en_context e')).
Proof.
  split; [vm_compute; reflexivity |].
  exact (step_rolls_back_faults faulting (one_byte "fault"%string 1 []) 0x1000 (at_rip 0x1000) (at_rip_ready _) (at_rip_regs _)
    eq_refl eq_refl eq_refl faulting_keeps).
Defined.

(** The instruction at 0x1000, fifteen zero bytes decoded, in its slot. *)
Definition zeroes : list Z := repeat 0 15.
Definition replayed : cpueaxh_engine :=
  committed (one_byte "inc"%string 1 zeroes) 0x1000 (mode_key_of (at_rip 0x1000)) (at_rip 0x1000).

Lemma replayed_ready : cpu_ready replayed.
Proof. apply cache_ready, at_rip_ready. Qed.


Lemma run_is_bounded_and_counts_witness :
  fst (cpu_run 4 3 (at_rip 0x1000)) = Some 3 /\
  exists n e', cpu_run (S (Z.to_nat 3)) 3 (at_rip 0x1000) = (Some (Z.of_nat n), e') /\ Z.of_nat n <= 3.
Proof.
  split; [vm_compute; reflexivity |]. assert (Hm : 0 < 3 < 2 ^ 64) by lia.
  destruct (run_is_bounded_and_counts 3 (at_rip 0x1000) Hm) as [_ (n & e1 & e' & H1 & H2 & _)].
  exists n, e'. exact (conj H1 H2).
Defined.

(** A fetch hook, and an instruction whose decoder records no length. *)
Definition fetch_hooked : cpueaxh_engine := final (cpueaxh_hook_add CPUEAXH_HOOK_MEM_FETCH 7 0 0 0) machine.
Definition no_length : DecodedRef := OnStack (one_byte "inc"%string 0 []).

Lemma fetch_hook_makes_ud_witness :
  exists e', cpu_step_dispatch_decoded no_length 0x1000 fetch_hooked = (CPU_STEP_EXCEPTION, e') /\
    c_exception (en_context e') = mkExc CPU_EXCEPTION_UD 0.
Proof.
  assert (Hh : cpu_has_hook_type fetch_hooked CPUEAXH_HOOK_MEM_FETCH = true) by (vm_compute; reflexivity).
  assert (Hl : d_length (one_byte "inc"%string 0 []) <= 0) by zcompute.
  assert (Hx : cpu_has_exception (en_context fetch_hooked) = false) by (vm_compute; reflexivity).
  assert (Hk : keeps_exception no_length) by exact (increment_keeps_exception _).
  exact (fetch_hook_makes_ud no_length (one_byte "inc"%string 0 []) 0x1000 fetch_hooked Hh eq_refl Hl Hx (conj eq_refl eq_refl) Hk).
Defined.

Lemma decodes bytes e1 : cpu_decode bytes e1 = (one_byte "inc"%string 1 bytes, e1).
Proof. reflexivity. Qed.

Lemma fifteen : 15 <> 0.
Proof. discriminate. Qed.

(** The last byte of the mapping. *)
Lemma prefetch_fault_fails_step_witness :
  fst (cpu_step (at_rip 0x3FF0)) = CPU_STEP_OK /\
  exists e', cpu_step (at_rip 0x3FFF) = (CPU_STEP_EXCEPTION, e') /\
    c_exception (en_context e') = c_exception (raise_verdict V_UNMAPPED 0x4000 MM_PROT_EXEC (en_context (at_rip 0x3FFF))).
Proof.
  split; [vm_compute; reflexivity |].
  assert (Hic : c_inst_cache (en_context (at_rip 0x3FFF)) = true) by reflexivity.
  assert (Hh : step_hits (at_rip 0x3FFF) = false) by (vm_compute; reflexivity).
  assert (Hff : first_fault_in (at_rip 0x3FFF) (seqZ 0 15) (c_rip (en_context (at_rip 0x3FFF))) MM_PROT_EXEC = Some (0x4000, V_UNMAPPED)) by (vm_compute; reflexivity).
  assert (Hne : fetchable (at_rip 0x3FFF) (c_rip (en_context (at_rip 0x3FFF))) (seqZ 0 15) <> []) by (vm_compute; discriminate).
  assert (Hk : keeps_exception (InCache (slot_of (at_rip 0x3FFF)))) by exact (increment_keeps_exception _).
  destruct (prefetch_fault_fails_step (at_rip 0x3FFF) (one_byte "inc"%string 1 (fetchable (at_rip 0x3FFF) (c_rip (en_context (at_rip 0x3FFF))) (seqZ 0 15))) 0x4000 V_UNMAPPED
    (at_rip_ready _) Hic Hh Hff Hne (decodes _) fifteen (conj eq_refl eq_refl) Hk) as [_ H]. exact H.
Defined.

End ExecutorExample.
