(* ===== verification/Decoder.v ===== *)
(** * cpu/decoder.hpp: from bytes to a decoded instruction

    [cpu_decode_instruction] looks at the fetched bytes and at the CPU mode, chooses the handler
    that will execute the instruction, and where the instruction is one the executor runs itself
    (near returns, conditional jumps) fills the inline fields instead.  For most handlers it then
    runs the instruction file's own decoder once, on a context it restores, and keeps the result
    for the handler's fast form.  Handlers are named by their functions.  The decoders the probe
    calls are the interface [ProbeDecoders].

    The theorems: the one-byte opcode map; what may be promised not to fault; that decoding leaves
    no trace; that the decoded instruction is well formed and depends on bytes and mode alone. *)

From Stdlib Require Import ZArith Bool List Lia String.
From stdpp Require Import base tactics list.
From S2P Require Import Prelude CpuDef HostMemory InstCache Machine CpuMemory Registers DispatchHelpers Alu Executor.

(** [decode_*_instruction(ctx, code, code_size)], by name. *)
Class ProbeDecoders := {
  probe_decode : string -> list Z -> ST CPU_CONTEXT DecodedInstruction;
}.

(** ** Recognising instructions by their bytes *)

(** [extra] bytes must follow index [prefix_len]; then the bytes there are these. *)
Definition opcode_at (buf : list Z) (prefix_len extra : Z) (opcode : list Z) : bool :=
  (prefix_len + extra <? size_of buf) &&
  forallb (fun '(i, b) => byte_at buf (prefix_len + i) =? b) (zip (seqZ 0 (Z.of_nat (List.length opcode))) opcode).

Definition is_palignr_instruction (buf : list Z) (prefix_len : Z) := opcode_at buf prefix_len 4 [0x0F; 0x3A; 0x0F].
Definition is_pinsr_instruction (buf : list Z) (prefix_len : Z) :=
  opcode_at buf prefix_len 4 [0x0F; 0x3A; 0x20] || opcode_at buf prefix_len 4 [0x0F; 0x3A; 0x22].
Definition is_pextr_instruction (buf : list Z) (prefix_len : Z) :=
  opcode_at buf prefix_len 4 [0x0F; 0x3A; 0x14] || opcode_at buf prefix_len 4 [0x0F; 0x3A; 0x16].
Definition is_pblendw_instruction (buf : list Z) (prefix_len : Z) := opcode_at buf prefix_len 4 [0x0F; 0x3A; 0x0E].
Definition is_aeskeygenassist_instruction (buf : list Z) (prefix_len : Z) := opcode_at buf prefix_len 4 [0x0F; 0x3A; 0xDF].
Definition is_roundss_instruction (buf : list Z) (prefix_len : Z) := opcode_at buf prefix_len 4 [0x0F; 0x3A; 0x0A].
Definition is_roundsd_instruction (buf : list Z) (prefix_len : Z) := opcode_at buf prefix_len 4 [0x0F; 0x3A; 0x0B].
Definition is_pcmpestrm_instruction (buf : list Z) (prefix_len : Z) := opcode_at buf prefix_len 3 [0x0F; 0x3A; 0x60].
Definition is_pcmpestri_instruction (buf : list Z) (prefix_len : Z) := opcode_at buf prefix_len 3 [0x0F; 0x3A; 0x61].
Definition is_pcmpistrm_instruction (buf : list Z) (prefix_len : Z) := opcode_at buf prefix_len 3 [0x0F; 0x3A; 0x62].
Definition is_pcmpistri_instruction (buf : list Z) (prefix_len : Z) := opcode_at buf prefix_len 3 [0x0F; 0x3A; 0x63].
Definition is_pshufb_instruction (buf : list Z) (prefix_len : Z) := opcode_at buf prefix_len 3 [0x0F; 0x38; 0x00].
Definition is_crc32_instruction (buf : list Z) (prefix_len : Z) :=
  opcode_at buf prefix_len 3 [0x0F; 0x38; 0xF0] || opcode_at buf prefix_len 3 [0x0F; 0x38; 0xF1].
Definition is_movbe_instruction (buf : list Z) (prefix_len : Z) :=
  opcode_at buf prefix_len 3 [0x0F; 0x38; 0xF0] || opcode_at buf prefix_len 3 [0x0F; 0x38; 0xF1].
Definition is_sha256rnds2_instruction (buf : list Z) (prefix_len : Z) := opcode_at buf prefix_len 3 [0x0F; 0x38; 0xCB].
Definition is_sha256msg1_instruction (buf : list Z) (prefix_len : Z) := opcode_at buf prefix_len 3 [0x0F; 0x38; 0xCC].
Definition is_sha256msg2_instruction (buf : list Z) (prefix_len : Z) := opcode_at buf prefix_len 3 [0x0F; 0x38; 0xCD].
Definition is_aesimc_instruction (buf : list Z) (prefix_len : Z) := opcode_at buf prefix_len 3 [0x0F; 0x38; 0xDB].
Definition is_aesenc_instruction (buf : list Z) (prefix_len : Z) := opcode_at buf prefix_len 3 [0x0F; 0x38; 0xDC].
Definition is_aesenclast_instruction (buf : list Z) (prefix_len : Z) := opcode_at buf prefix_len 3 [0x0F; 0x38; 0xDD].
Definition is_aesdec_instruction (buf : list Z) (prefix_len : Z) := opcode_at buf prefix_len 3 [0x0F; 0x38; 0xDE].
Definition is_aesdeclast_instruction (buf : list Z) (prefix_len : Z) := opcode_at buf prefix_len 3 [0x0F; 0x38; 0xDF].
Definition is_serialize_instruction (buf : list Z) (prefix_len : Z) :=
  (prefix_len + 3 <=? size_of buf) && opcode_at buf prefix_len 2 [0x0F; 0x01; 0xE8].

(** The ModRM byte [modrm] has register form and this reg field. *)
Definition register_form_of (modrm reg : Z) : bool := (Z.land (Z.shiftr modrm 3) 0x07 =? reg) && (modrm_mod modrm =? 3).

Definition rdpid_has_required_prefix (buf : list Z) (prefix_len : Z) : bool := any_prefix (fun b => b =? 0xF3) buf prefix_len.
Definition is_rdpid_instruction (buf : list Z) (prefix_len : Z) : bool :=
  (prefix_len + 3 <=? size_of buf) && rdpid_has_required_prefix buf prefix_len && opcode_at buf prefix_len 1 [0x0F; 0xC7] &&
  register_form_of (byte_at buf (prefix_len + 2)) 7.

(** These look for their prefixes themselves, REX bytes in every mode. *)
Definition is_any_prefix_byte (b : Z) : bool := is_legacy_prefix b || is_rex_byte b.
Definition own_prefix_len (buf : list Z) : Z := prefix_run is_any_prefix_byte buf.

Definition is_rdseed_instruction (buf : list Z) : bool :=
  let offset := own_prefix_len buf in
  (offset + 3 <=? size_of buf) && opcode_at buf offset 1 [0x0F; 0xC7] && register_form_of (byte_at buf (offset + 2)) 7.
Definition is_rdrand_instruction (buf : list Z) : bool :=
  let offset := own_prefix_len buf in
  (offset + 3 <=? size_of buf) && opcode_at buf offset 1 [0x0F; 0xC7] && register_form_of (byte_at buf (offset + 2)) 6.

Definition probe_endbr_instruction (buf : list Z) : bool :=
  let offset := own_prefix_len buf in
  let has_lock_prefix := any_prefix (fun b => b =? 0xF0) buf offset in
  let has_f3_prefix := any_prefix (fun b => b =? 0xF3) buf offset in
  (offset + 3 <=? size_of buf) && negb has_lock_prefix && has_f3_prefix && opcode_at buf offset 1 [0x0F; 0x1E] &&
  ((byte_at buf (offset + 2) =? 0xFA) || (byte_at buf (offset + 2) =? 0xFB)).
Definition is_endbr_instruction := probe_endbr_instruction.

Definition probe_rdssp_instruction (buf : list Z) : bool :=
  let offset := own_prefix_len buf in
  let has_lock_prefix := any_prefix (fun b => b =? 0xF0) buf offset in
  let has_f3_prefix := any_prefix (fun b => b =? 0xF3) buf offset in
  (offset + 3 <=? size_of buf) && negb has_lock_prefix && has_f3_prefix && opcode_at buf offset 1 [0x0F; 0x1E] &&
  register_form_of (byte_at buf (offset + 2)) 1.
Definition is_rdssp_instruction := probe_rdssp_instruction.

(** EVEX forms: the escape byte first, the opcode at index 4, seven bytes at least. *)
Definition is_evex_form (opcodes : list Z) (buf : list Z) : bool :=
  (7 <=? size_of buf) && (byte_at buf 0 =? 0x62) && one_of (byte_at buf 4) opcodes.
Definition is_evex_palignr_instruction := is_evex_form [0x0F].
Definition is_evex_pinsrw_instruction := is_evex_form [0xC4].
Definition is_evex_pinsr_instruction := is_evex_form [0x20; 0x22].
Definition is_evex_pextr_instruction := is_evex_form [0x14; 0x16].

(** ** Instructions that cannot fault *)

(** [peek_modrm_mod_field(...) == 3] for a ModRM byte [at_] bytes behind the prefixes. *)
Definition is_register_form (buf : list Z) (prefix_len at_ : Z) : bool := peek_modrm_mod_field buf prefix_len at_ =? 3.

(** The conditions after the prefix loop. *)
Definition no_fault_opcode (buf : list Z) (prefix_len opc group_reg group3_reg fe_reg ff_reg group2_reg : Z) : bool :=
  let reg_form := is_register_form buf prefix_len 1 in
  let reg_form2 := is_register_form buf prefix_len 2 in
  let raw_opc := u8 opc in
  let lo := Z.land raw_opc 0x07 in
  if between 0x0040 0x004F opc then true
  else if between 0x00B0 0x00BF opc then true
  else if one_of opc [0x0080; 0x0081; 0x0083] && negb (group_reg =? 0xFF) && reg_form then true
  else if (raw_opc <=? 0x3F) && (Z.land raw_opc 0x06 <=? 0x05) && one_of lo [0x04; 0x05] then true
  else if (raw_opc <=? 0x3F) && (Z.land raw_opc 0x06 <=? 0x05) && one_of lo [0x00; 0x01; 0x02; 0x03] && reg_form then true
  else if one_of raw_opc [0x88; 0x89; 0x8A; 0x8B] && reg_form then true
  else if raw_opc =? 0x8D then true
  else if one_of raw_opc [0x84; 0x85; 0x86; 0x87] && reg_form then true
  else if one_of raw_opc [0xC6; 0xC7] && (group_reg =? 0) && reg_form then true
  else if one_of raw_opc [0xC0; 0xC1; 0xD0; 0xD1; 0xD2; 0xD3] && negb (group2_reg =? 0xFF) && reg_form then true
  else if one_of raw_opc [0xF6; 0xF7] && negb (group3_reg =? 0xFF) && (group3_reg <=? 5) && reg_form then true
  else if (raw_opc =? 0xFE) && (fe_reg <=? 1) && reg_form then true
  else if (raw_opc =? 0xFF) && one_of ff_reg [0; 1] && reg_form then true
  else if one_of opc [0x0F1E; 0x0F1F] then true
  else if between 0x0F40 0x0F4F opc && reg_form2 then true
  else if between 0x0F90 0x0F9F opc && reg_form2 then true
  else if one_of opc [0x0FB6; 0x0FB7; 0x0FBE; 0x0FBF] && reg_form2 then true
  else if one_of opc [0x0FBC; 0x0FBD; 0x0FB8] && reg_form2 then true
  else if between 0x0FC8 0x0FCF opc then true
  else one_of opc [0x0090; 0x00F5; 0x00F8; 0x00F9; 0x00FC; 0x00FD].

Definition cpu_decoder_classify_no_fault (buf : list Z) (prefix_len opc group_reg group3_reg fe_reg ff_reg group2_reg : Z) : bool :=
  if (prefix_len <? 0) || (size_of buf <=? prefix_len) then false
  else if any_prefix (fun b => (b =? 0xF0) || ((b =? 0x66) && ((opc =? 0x00E9) || between 0x0F80 0x0F8F opc))) buf prefix_len
  then false
  else no_fault_opcode buf prefix_len opc group_reg group3_reg fe_reg ff_reg group2_reg.

(** ** Classification of opcodes *)

Definition add_flags (flags : Z) (dec : DecodedInst) : DecodedInst := set_d_flags (Z.lor (d_flags dec) flags) dec.

Definition cpu_decoder_set_inline_ret (prefix_len operand_size imm16 : Z) (has_imm : bool) (dec : DecodedInst) : DecodedInst :=
  add_flags (Z.lor DECODED_FLAG_BRANCH DECODED_FLAG_INLINE_RET)
    (set_d_length (u8 (prefix_len + (if has_imm then 3 else 1)))
      (set_d_inline_imm16 imm16 (set_d_near_ret_op_size operand_size (set_d_near_ret_prefix_len prefix_len
        (set_d_inline_kind (if has_imm then DECODED_INLINE_RET_NEAR_IMM16 else DECODED_INLINE_RET_NEAR_NO_IMM) dec))))).

Definition cpu_decoder_is_escape_owned_ud (opc : Z) : bool :=
  one_of opc [0x00CD; 0x0F0B; 0x00E4; 0x00E5; 0x00E6; 0x00E7; 0x00EC; 0x00ED; 0x00EE; 0x00EF; 0x0F05; 0x0F34; 0x00F4; 0x0FA2; 0x0F20; 0x0F22].

Definition cpu_decoder_is_escape_candidate_opc (opc : Z) : bool :=
  one_of opc [0x00CC; 0x00CD; 0x00F1; 0x00F4; 0x0F0B;
              0x00E4; 0x00E5; 0x00E6; 0x00E7; 0x00EC; 0x00ED; 0x00EE; 0x00EF; 0x006C; 0x006D;
              0x0F05; 0x0F34; 0x0FA2; 0x0F31; 0x0F01; 0x0FC7; 0x0F20; 0x0F22; 0x0F1E].

(** [*out_xgetbv] and [*out_rdtscp]. *)
Definition cpu_decoder_classify_xgetbv_rdtscp (buf : list Z) (prefix_len opc : Z) : bool * bool :=
  if negb (opc =? 0x0F01) || (size_of buf <=? prefix_len + 2) then (false, false)
  else (byte_at buf (prefix_len + 2) =? 0xD0, byte_at buf (prefix_len + 2) =? 0xF9).

(** What a resolver found: a handler, [*out_ud], or neither. *)
Inductive resolution := Handler (name : DecodedExecuteFn) | Undefined | NoCandidate.

Local Open Scope string_scope.
Local Open Scope Z_scope.

Definition cpu_decoder_resolve_two_byte_misc (buf : list Z) (prefix_len opc mandatory_prefix : Z) : resolution :=
  let has_modrm := prefix_len + 2 <? size_of buf in
  let modrm := byte_at buf (prefix_len + 2) in
  if between 0x0F80 0x0F8F opc then Handler "execute_jcc"
  else if between 0x0F90 0x0F9F opc then Handler "execute_setcc"
  else if one_of opc [0x0FA0; 0x0FA8] then Handler "execute_push"
  else if one_of opc [0x0FA1; 0x0FA9] then Handler "execute_pop"
  else if opc =? 0x0F77 then Handler "execute_emms"
  else if (opc =? 0x0F01) && is_serialize_instruction buf prefix_len then Handler "execute_serialize"
  else if one_of opc [0x0F0D; 0x0F18] || ((opc =? 0x0F2B) && (mandatory_prefix =? 0x00)) then Handler "execute_sse_misc"
  else if ((opc =? 0x0F2B) && (mandatory_prefix =? 0x66)) || ((opc =? 0x0FE7) && (mandatory_prefix =? 0x66)) || (opc =? 0x0FC3)
  then Handler "execute_sse2_store_misc"
  else if (opc =? 0x0FAE) && (mandatory_prefix =? 0xF3) && has_modrm then
    if (Z.land (Z.shiftr modrm 6) 0x03 =? 3) && (Z.land (Z.shiftr modrm 3) 0x07 <=? 1) then Handler "execute_fsgsbase" else Undefined
  else if opc =? 0x0FAE then Handler "execute_sse_state"
  else if opc =? 0x0FAF then Handler "execute_imul"
  else if one_of opc [0x0FA4; 0x0FA5] then Handler "execute_shld"
  else if one_of opc [0x0FAC; 0x0FAD] then Handler "execute_shrd"
  else if one_of opc [0x0FBE; 0x0FBF] then Handler "execute_movsx"
  else if one_of opc [0x0FB6; 0x0FB7] then Handler "execute_movzx"
  else if one_of opc [0x0FA3; 0x0FAB; 0x0FB3; 0x0FBB; 0x0FBA] then Handler "execute_bt"
  else if one_of opc [0x0FBC; 0x0FBD] then Handler "execute_bsf"
  else if opc =? 0x0FB8 then Handler "execute_popcnt"
  else if between 0x0FC8 0x0FCF opc then Handler "execute_bswap"
  else if opc =? 0x0F31 then Undefined
  else if one_of opc [0x0FC0; 0x0FC1] then Handler "execute_xadd"
  else if one_of opc [0x0FB0; 0x0FB1] then Handler "execute_cmpxchg"
  else if opc =? 0x0F33 then Handler "execute_rdpmc"
  else if (opc =? 0x0FC7) && is_rdpid_instruction buf prefix_len then Handler "execute_rdpid"
  else if (opc =? 0x0FC7) && is_rdseed_instruction buf then Handler "execute_rdseed"
  else if (opc =? 0x0FC7) && has_modrm && register_form_of modrm 7 then Undefined
  else if opc =? 0x0FC7 then if is_rdrand_instruction buf then Undefined else Handler "execute_cmpxchg8b16b"
  else NoCandidate.

Definition cpu_decoder_resolve_0f3a_66 (buf : list Z) (prefix_len : Z) : resolution :=
  if is_pinsr_instruction buf prefix_len then Handler "execute_pinsr"
  else if is_pextr_instruction buf prefix_len then Handler "execute_pextr"
  else if is_pblendw_instruction buf prefix_len then Handler "execute_pblendw"
  else if is_aeskeygenassist_instruction buf prefix_len then Handler "execute_aeskeygenassist"
  else if is_roundss_instruction buf prefix_len then Handler "execute_roundss"
  else if is_roundsd_instruction buf prefix_len then Handler "execute_roundsd"
  else if is_pcmpestrm_instruction buf prefix_len then Handler "execute_pcmpestrm"
  else if is_pcmpestri_instruction buf prefix_len then Handler "execute_pcmpestri"
  else if is_pcmpistrm_instruction buf prefix_len then Handler "execute_pcmpistrm"
  else if is_pcmpistri_instruction buf prefix_len then Handler "execute_pcmpistri"
  else Undefined.

Definition cpu_decoder_resolve_x87 (buf : list Z) (raw_opc prefix_len : Z) : option DecodedExecuteFn :=
  let wait_then b := (raw_opc =? 0x9B) && (prefix_len + 1 <? size_of buf) && (byte_at buf (prefix_len + 1) =? b) in
  if size_of buf =? 0 then None
  else if (raw_opc =? 0xD9) || wait_then 0xD9 then
    let d9_opcode_offset := if raw_opc =? 0x9B then 1 else 0 in
    let at_ := prefix_len + d9_opcode_offset + 1 in
    let d9_modrm := if at_ <? size_of buf then byte_at buf at_ else 0xFF in
    Some (if one_of (Z.land (Z.shiftr d9_modrm 3) 0x07) [4; 6] then "execute_x87_env" else "execute_x87_control")
  else if (raw_opc =? 0xDB) || wait_then 0xDB then Some "execute_x87_init"
  else if one_of raw_opc [0xDD; 0xDF] || wait_then 0xDD || wait_then 0xDF then Some "execute_x87_status"
  else None.

(** ** The dispatch ladder *)

Section ladder.
Variables (ctx : CPU_CONTEXT) (buf : list Z) (prefix_len opc : Z).
Let raw_opc := u8 opc.
Let mandatory_prefix := peek_mandatory_prefix buf prefix_len.
Let repeat_prefix := peek_repeat_prefix buf prefix_len.
Let prefix_presence := peek_instruction_prefix_presence buf prefix_len.
Let p66 := mandatory_prefix =? 0x66.
Let pf2 := mandatory_prefix =? 0xF2.
Let pf3 := mandatory_prefix =? 0xF3.

(** REX.B of the last REX byte. *)
Definition rex_b_of_prefixes : bool :=
  Z.testbit (last_prefix (fun b => cpu_allows_rex_prefix ctx && is_rex_byte b) 0 buf prefix_len) 0.

(** The group fields: 0xFF where the opcode is not in the group or the byte is missing. *)
Definition group_field (opcodes : list Z) : Z :=
  if one_of raw_opc opcodes then peek_modrm_reg_field buf prefix_len 1 else 0xFF.
Definition group_reg : Z := group_field [0x80; 0x81; 0x83].
Definition group3_reg : Z := group_field [0xF6; 0xF7].
Definition fe_reg : Z := group_field [0xFE].
Definition ff_reg : Z := group_field [0xFF].
Definition group2_reg : Z := group_field [0xD0; 0xD1; 0xD2; 0xD3; 0xC0; 0xC1].

(** The ladder up to the miscellaneous two-byte opcodes. *)
Definition vector_ladder : resolution :=
  if one_of opc [0x00CB; 0x00CA] then Handler "execute_ret"
  else if opc =? 0x00CF then Handler "execute_iret"
  else if between 0x0F40 0x0F4F opc then Handler "execute_cmovcc"
  else if one_of opc [0x0F10; 0x0F11] && pf3 then Handler "execute_movss"
  else if one_of opc [0x0F10; 0x0F11] && (p66 || pf2) then Handler "execute_sse2_mov_pd"
  else if one_of opc [0x0F10; 0x0F11] then Handler "execute_movups"
  else if one_of opc [0x0F28; 0x0F29] && p66 then Handler "execute_sse2_mov_pd"
  else if one_of opc [0x0F28; 0x0F29] then Handler "execute_movaps"
  else if one_of opc [0x0F60; 0x0F61; 0x0F62; 0x0F63; 0x0F67; 0x0F68; 0x0F69; 0x0F6A; 0x0F6B; 0x0F6C; 0x0F6D] && p66
  then Handler "execute_sse2_pack"
  else if one_of opc [0x0F64; 0x0F65; 0x0F66; 0x0F74; 0x0F75; 0x0F76] && p66 then Handler "execute_sse2_int_cmp"
  else if one_of opc [0x0FDB; 0x0FDF; 0x0FEB; 0x0FEF] && p66 then Handler "execute_sse2_int_logic"
  else if (opc =? 0x0F38) && is_pshufb_instruction buf prefix_len then Handler "execute_pshufb"
  else if (opc =? 0x0F38) && pp_has_f2 prefix_presence && negb (pp_has_f3 prefix_presence) && is_crc32_instruction buf prefix_len
  then Handler "execute_crc32"
  else if (opc =? 0x0F38) && negb (pp_has_f2 prefix_presence) && negb (pp_has_f3 prefix_presence) && is_movbe_instruction buf prefix_len
  then Handler "execute_movbe"
  else if (opc =? 0x0F38) && (mandatory_prefix =? 0) then
    if is_sha256rnds2_instruction buf prefix_len then Handler "execute_sha256rnds2"
    else if is_sha256msg1_instruction buf prefix_len then Handler "execute_sha256msg1"
    else if is_sha256msg2_instruction buf prefix_len then Handler "execute_sha256msg2"
    else Undefined
  else if (opc =? 0x0F38) && p66 && is_aesimc_instruction buf prefix_len then Handler "execute_aesimc"
  else if (opc =? 0x0F38) && p66 && is_aesenc_instruction buf prefix_len then Handler "execute_aesenc"
  else if (opc =? 0x0F38) && p66 && is_aesenclast_instruction buf prefix_len then Handler "execute_aesenclast"
  else if (opc =? 0x0F38) && p66 && is_aesdec_instruction buf prefix_len then Handler "execute_aesdec"
  else if (opc =? 0x0F38) && p66 && is_aesdeclast_instruction buf prefix_len then Handler "execute_aesdeclast"
  else if one_of opc [0x0F71; 0x0F72; 0x0F73; 0x0FD1; 0x0FD2; 0x0FD3; 0x0FE1; 0x0FE2; 0x0FF1; 0x0FF2; 0x0FF3] && p66
  then Handler "execute_sse2_shift"
  else if one_of opc [0x0FD4; 0x0FD5; 0x0FD8; 0x0FD9; 0x0FDA; 0x0FDC; 0x0FDD; 0x0FDE; 0x0FE0; 0x0FE3; 0x0FE4; 0x0FE5; 0x0FE8; 0x0FE9;
                      0x0FEA; 0x0FEC; 0x0FED; 0x0FEE; 0x0FF4; 0x0FF5; 0x0FF6; 0x0FF8; 0x0FF9; 0x0FFA; 0x0FFB; 0x0FFC; 0x0FFD; 0x0FFE] && p66
  then Handler "execute_sse2_int_arith"
  else if one_of opc [0x0F6E; 0x0F7E; 0x0FD6] then Handler "execute_movdq"
  else if one_of opc [0x0F6F; 0x0F7F; 0x0FD7] && (p66 || pf3) then Handler "execute_sse2_mov_int"
  else if one_of opc [0x0FF0; 0x0FF7] then Handler "execute_sse2_misc"
  else if one_of opc [0x0F12; 0x0F13; 0x0F16; 0x0F17; 0x0F50] && p66 then Handler "execute_sse2_mov_pd"
  else if one_of opc [0x0F12; 0x0F13; 0x0F16; 0x0F17; 0x0F50] then Handler "execute_sse_mov_misc"
  else if (one_of opc [0x0F14; 0x0F15; 0x0FC5; 0x0FC6] && p66) || ((opc =? 0x0F70) && (p66 || pf2 || pf3))
  then Handler "execute_sse2_shuffle"
  else if opc =? 0x0FC4 then Handler "execute_pinsrw"
  else if one_of opc [0x0F14; 0x0F15; 0x0FC6] then Handler "execute_sse_shuffle"
  else if one_of opc [0x0F54; 0x0F55; 0x0F56] && p66 then Handler "execute_sse2_logic_pd"
  else if one_of opc [0x0F54; 0x0F55; 0x0F56; 0x0F57] then Handler "execute_sse_logic"
  else if one_of opc [0x0F58; 0x0F59; 0x0F5C; 0x0F5E] && (p66 || pf2) then Handler "execute_sse2_arith_pd"
  else if one_of opc [0x0F58; 0x0F59; 0x0F5C; 0x0F5E] then Handler "execute_sse_arith"
  else if one_of opc [0x0F51; 0x0F5D; 0x0F5F] && (p66 || pf2) then Handler "execute_sse2_math_pd"
  else if one_of opc [0x0F51; 0x0F52; 0x0F53; 0x0F5D; 0x0F5F] then Handler "execute_sse_math"
  else if (opc =? 0x0F5A) && (pf2 || pf3) then Handler "execute_sse2_scalar_convert"
  else if one_of opc [0x0F5A; 0x0F5B; 0x0FE6] then Handler "execute_sse2_convert"
  else if one_of opc [0x0F2A; 0x0F2C; 0x0F2D] && (pf2 || p66) then Handler "execute_sse2_scalar_convert"
  else if one_of opc [0x0F2A; 0x0F2C; 0x0F2D] then Handler "execute_sse_convert"
  else if ((opc =? 0x0FC2) && (p66 || pf2)) || (one_of opc [0x0F2E; 0x0F2F] && p66) then Handler "execute_sse2_cmp_pd"
  else if one_of opc [0x0FC2; 0x0F2E; 0x0F2F] then Handler "execute_sse_cmp"
  else NoCandidate.

Definition group1_handler (reg : Z) : resolution :=
  if reg =? 0 then Handler "execute_add" else if reg =? 1 then Handler "execute_or" else if reg =? 2 then Handler "execute_adc"
  else if reg =? 3 then Handler "execute_sbb" else if reg =? 4 then Handler "execute_and" else if reg =? 5 then Handler "execute_sub"
  else if reg =? 6 then Handler "execute_xor" else if reg =? 7 then Handler "execute_cmp" else Undefined.

Definition group_ff_handler (reg : Z) : resolution :=
  if reg =? 0 then Handler "execute_inc" else if reg =? 1 then Handler "execute_dec" else if one_of reg [2; 3] then Handler "execute_call"
  else if one_of reg [4; 5] then Handler "execute_jmp" else if reg =? 6 then Handler "execute_push" else Undefined.

(** From the arithmetic group on. *)
Definition group_ladder : resolution :=
  let shift_group := one_of raw_opc [0xD0; 0xD1; 0xD2; 0xD3; 0xC0; 0xC1] in
  let group3 := one_of raw_opc [0xF6; 0xF7] in
  if one_of raw_opc [0x80; 0x81; 0x83] && negb (group_reg =? 0xFF) then group1_handler group_reg
  else if shift_group && (group2_reg =? 1) then Handler "execute_ror"
  else if shift_group && (group2_reg =? 2) then Handler "execute_rcl"
  else if shift_group && (group2_reg =? 3) then Handler "execute_rcr"
  else if shift_group && (group2_reg =? 0) then Handler "execute_rol"
  else if shift_group && (group2_reg =? 4) then Handler "execute_shl"
  else if shift_group && (group2_reg =? 5) then Handler "execute_shr"
  else if shift_group && (group2_reg =? 7) then Handler "execute_sar"
  else if one_of raw_opc [0xA8; 0xA9; 0x84; 0x85] || (group3 && (group3_reg =? 0)) then Handler "execute_test"
  else if group3 && (group3_reg =? 2) then Handler "execute_not"
  else if group3 && (group3_reg =? 3) then Handler "execute_neg"
  else if group3 && (group3_reg =? 4) then Handler "execute_mul"
  else if group3 && (group3_reg =? 5) then Handler "execute_imul"
  else if group3 && (group3_reg =? 6) then Handler "execute_div"
  else if group3 && (group3_reg =? 7) then Handler "execute_idiv"
  else if negb (cpu_is_64bit_code ctx) && between 0x40 0x47 raw_opc then Handler "execute_inc"
  else if negb (cpu_is_64bit_code ctx) && between 0x48 0x4F raw_opc then Handler "execute_dec"
  else if (raw_opc =? 0xFE) && (fe_reg =? 0) then Handler "execute_inc"
  else if (raw_opc =? 0xFE) && (fe_reg =? 1) then Handler "execute_dec"
  else if one_of raw_opc [0x24; 0x25] then Handler "execute_and"
  else if one_of raw_opc [0x68; 0x6A] then Handler "execute_push"
  else if one_of raw_opc [0x69; 0x6B] then Handler "execute_imul"
  else if one_of raw_opc [0xE8; 0x9A] then Handler "execute_call"
  else if between 0xE0 0xE3 raw_opc then Handler "execute_jcc"
  else if one_of raw_opc [0xEB; 0xE9; 0xEA] then Handler "execute_jmp"
  else if raw_opc =? 0x8F then Handler "execute_pop"
  else if (raw_opc =? 0xFF) && negb (ff_reg =? 0xFF) then group_ff_handler ff_reg
  else Undefined.

(** From the one-byte opcodes on, by the low byte of the opcode. *)
Definition one_byte_ladder : resolution :=
  if raw_opc =? 0x99 then Handler "execute_cdq"
  else if raw_opc =? 0x98 then Handler "execute_cbw"
  else if raw_opc =? 0xC8 then Handler "execute_enter"
  else if raw_opc =? 0xC9 then Handler "execute_leave"
  else if (raw_opc =? 0x90) && (repeat_prefix =? 0xF3) && negb rex_b_of_prefixes then Handler "execute_pause"
  else if opc =? 0x0F1F then Handler "execute_nop"
  else if (raw_opc =? 0x90) && (repeat_prefix =? 0x00) && negb rex_b_of_prefixes then Handler "execute_nop"
  else if between 0x90 0x97 raw_opc || one_of raw_opc [0x86; 0x87] then Handler "execute_xchg"
  else if raw_opc =? 0x63 then Handler "execute_movsxd"
  else if raw_opc =? 0x8D then Handler "execute_lea"
  else if between 0x88 0x8C raw_opc || (raw_opc =? 0x8E) || between 0xA0 0xA3 raw_opc || between 0xB0 0xBF raw_opc || one_of raw_opc [0xC6; 0xC7]
  then Handler "execute_mov"
  else if negb (repeat_prefix =? 0) && (between 0xA4 0xA7 raw_opc || between 0xAA 0xAF raw_opc) then Handler "execute_rep"
  else if one_of raw_opc [0xA4; 0xA5] then Handler "execute_movs"
  else if one_of raw_opc [0xA6; 0xA7] then Handler "execute_cmps"
  else if one_of raw_opc [0xAA; 0xAB] then Handler "execute_stos"
  else if one_of raw_opc [0xAC; 0xAD] then Handler "execute_lods"
  else if one_of raw_opc [0xAE; 0xAF] then Handler "execute_scas"
  else if raw_opc =? 0xD7 then Handler "execute_xlat"
  else
    match cpu_decoder_resolve_x87 buf raw_opc prefix_len with
    | Some handler => Handler handler
    | None =>
        if one_of raw_opc [0xF5; 0xF8; 0xF9; 0xFC; 0xFD] then Handler "execute_flags"
        else if one_of raw_opc [0x9C; 0x9D] then Handler "execute_pushf"
        else if one_of raw_opc [0x9E; 0x9F] then Handler "execute_lahf"
        else if between 0x50 0x57 raw_opc then Handler "execute_push"
        else if between 0x58 0x5F raw_opc then Handler "execute_pop"
        else if between 0x00 0x05 raw_opc then Handler "execute_add"
        else if between 0x08 0x0D raw_opc then Handler "execute_or"
        else if between 0x10 0x15 raw_opc then Handler "execute_adc"
        else if one_of raw_opc [0x06; 0x0E; 0x16; 0x1E] then Handler "execute_push"
        else if one_of raw_opc [0x07; 0x17; 0x1F] then Handler "execute_pop"
        else if between 0x20 0x25 raw_opc then Handler "execute_and"
        else if between 0x18 0x1D raw_opc then Handler "execute_sbb"
        else if between 0x28 0x2D raw_opc then Handler "execute_sub"
        else if between 0x30 0x35 raw_opc then Handler "execute_xor"
        else if between 0x38 0x3D raw_opc then Handler "execute_cmp"
        else if between 0x70 0x7F raw_opc then Handler "execute_jcc"
        else group_ladder
    end.

(** The NOP-like form of 0F 1E has no handler: [NoCandidate]. *)
Definition misc_ladder : resolution :=
  let '(is_xgetbv, is_rdtscp) := cpu_decoder_classify_xgetbv_rdtscp buf prefix_len opc in
  match cpu_decoder_resolve_two_byte_misc buf prefix_len opc mandatory_prefix with
  | Handler handler => Handler handler
  | Undefined => Undefined
  | NoCandidate =>
      if (opc =? 0x0F3A) && is_palignr_instruction buf prefix_len then Handler "execute_palignr"
      else if (opc =? 0x0F3A) && p66 then cpu_decoder_resolve_0f3a_66 buf prefix_len
      else if is_xgetbv then Undefined
      else if is_rdtscp then Undefined
      else if is_endbr_instruction buf then Handler "execute_endbr"
      else if is_rdssp_instruction buf then Handler "execute_rdssp"
      else if (opc =? 0x0F1E) && (prefix_len + 2 <? size_of buf) then
        let opcode3 := byte_at buf (prefix_len + 2) in
        if (opcode3 =? 0xFA) || (opcode3 =? 0xFB) || (Z.land (Z.shiftr opcode3 3) 0x07 =? 1) then Undefined else NoCandidate
      else one_byte_ladder
  end.

Definition dispatch_ladder : resolution :=
  match vector_ladder with NoCandidate => misc_ladder | found => found end.

End ladder.

(** ** Fast forms *)

(** Which instructions a fast form may replay: those without a memory operand, or every one because
    the fast form computes the address again. *)
Inductive attach_kind := AttachOne | AttachRecomputeAddr.

Definition cpu_decoder_dec_inst_safe_to_replay (d : DecodedInstruction) : bool :=
  if negb (i_has_modrm d) then true else Z.land (Z.shiftr (i_modrm d) 6) 0x03 =? 3.

(** The handlers with a fast form, in the order of the tests. *)
Definition fast_forms : list (DecodedExecuteFn * (attach_kind * string * DecodedFastFn)) :=
  let plain name := (("execute_" ++ name)%string, (AttachOne, ("decode_" ++ name ++ "_instruction")%string, ("execute_" ++ name ++ "_fast")%string)) in
  let addr name := (("execute_" ++ name)%string, (AttachRecomputeAddr, ("decode_" ++ name ++ "_instruction")%string, ("execute_" ++ name ++ "_fast")%string)) in
  let no_aux name := (("execute_" ++ name)%string, (AttachOne, ("decode_" ++ name ++ "_instruction_no_aux")%string, ("execute_" ++ name ++ "_fast")%string)) in
  (map addr ["mov"; "add"; "sub"; "cmp"; "test"; "and"; "or"; "xor"] ++
  map plain ["inc"; "dec"; "push"; "pop"; "jmp"; "call"; "shl"; "shr"] ++
  map addr ["shld"; "shrd"] ++
  map plain ["sar"; "rol"; "ror"; "rcl"; "rcr"; "adc"; "sbb"; "neg"; "not"] ++
  map addr ["xchg"; "movsx"; "movzx"; "movsxd"; "cmovcc"] ++
  map plain ["nop"; "mul"; "imul"; "div"; "idiv"; "setcc"; "cdq"; "cbw"; "leave"; "lahf"; "flags"; "bswap"; "pushf";
             "movs"; "cmps"; "stos"; "lods"; "scas"; "xlat"; "pause"; "bt"; "bsf"] ++
  map addr ["xadd"; "cmpxchg"] ++
  map plain ["cpuid"; "rdtsc"; "rdtscp"; "rdpmc"; "rdseed"; "xgetbv"; "rdpid"; "fsgsbase"; "serialize"; "popcnt"; "endbr"; "xorps";
             "movaps"; "movups"] ++
  map no_aux ["movdq"] ++ map plain ["movss"; "enter"] ++
  [("execute_rep", (AttachOne, "decode_rep_for_fast", "execute_rep_fast"))] ++
  map no_aux ["sse2_int_logic"; "sse2_mov_int"; "sse2_mov_pd"; "sse2_int_arith"; "sse2_int_cmp"; "pshufb"; "sse2_shuffle"; "sse_shuffle";
              "sse_logic"; "sse_arith"; "sse2_arith_pd"; "sse2_logic_pd"; "sse_cmp"; "sse2_cmp_pd"; "sse2_pack"; "sse2_shift"; "sse_math";
              "sse2_math_pd"; "sse_convert"; "sse2_convert"; "sse2_scalar_convert"] ++
  map plain ["sse_mov_misc"])%list.

Definition fast_form (handler : DecodedExecuteFn) : option (attach_kind * string * DecodedFastFn) :=
  option_map snd (List.find (fun entry => String.eqb (fst entry) handler) fast_forms).

Section decode.
Context `{ProbeDecoders}.

(** The probe's instruction, prefix state and length, unless it raised. *)
Definition cpu_decoder_probe_with_helper (decoder : list Z -> ST CPU_CONTEXT DecodedInstruction) (code : list Z)
  : ST CPU_CONTEXT (option (DecodedInstruction * DecodedPrefixState * Z)) :=
  let* saved := st_gets decoder_save_ctx_scratch in
  let* probe := decoder code in
  let* ctx := st_get in
  let len := c_last_inst_size ctx in
  let out :=
    if cpu_has_exception ctx then None
    else Some (probe,
      mkPrefix (c_rex_present ctx) (c_rex_w ctx) (c_rex_r ctx) (c_rex_x ctx) (c_rex_b ctx)
        (c_operand_size_override ctx) (c_address_size_override ctx),
      if (0 <? len) && (len <=? DECODED_INST_MAX_BYTES) then len else 0) in
  st_modify (decoder_restore_ctx_scratch saved) ;;; st_ret out.

Definition attach (kind : attach_kind) (decode_fn : string) (fast_fn : DecodedFastFn) (dec : DecodedInst) : ST CPU_CONTEXT DecodedInst :=
  let* probe := cpu_decoder_probe_with_helper (probe_decode decode_fn) (firstn (Z.to_nat (d_byte_count dec)) (d_bytes dec)) in
  match probe with
  | Some (probe, probe_prefix, probe_length) =>
      let safe := match kind with AttachOne => cpu_decoder_dec_inst_safe_to_replay probe | AttachRecomputeAddr => true end in
      if (0 <? probe_length) && safe
      then st_ret (set_d_fast_handler (Some fast_fn) (set_d_length probe_length (set_d_prefix probe_prefix (set_d_cached probe dec))))
      else st_ret dec
  | None => st_ret dec
  end.

Definition cpu_decoder_try_attach_fast_handler (dec : DecodedInst) : ST CPU_CONTEXT DecodedInst :=
  if negb (d_inline_kind dec =? DECODED_INLINE_NONE) then st_ret dec
  else if has_bits (d_flags dec) (Z.lor (Z.lor DECODED_FLAG_UD DECODED_FLAG_BP) (Z.lor DECODED_FLAG_DB DECODED_FLAG_INLINE_RET)) then st_ret dec
  else
    match d_handler dec with
    | None => st_ret dec
    | Some handler =>
        if d_byte_count dec =? 0 then st_ret dec
        else
          match fast_form handler with
          | Some (kind, decode_fn, fast_fn) => attach kind decode_fn fast_fn dec
          | None => st_ret dec
          end
    end.

(** ** Decoding *)

(** The forms recognised by their first byte. *)
Definition vector_form (buf : list Z) : option DecodedExecuteFn :=
  if (byte_at buf 0 =? 0x62) && is_evex_palignr_instruction buf then Some "execute_evex_palignr"
  else if (byte_at buf 0 =? 0x62) && is_evex_pinsrw_instruction buf then Some "execute_evex_pinsrw"
  else if (byte_at buf 0 =? 0x62) && is_evex_pinsr_instruction buf then Some "execute_evex_pinsr"
  else if (byte_at buf 0 =? 0x62) && is_evex_pextr_instruction buf then Some "execute_evex_pextr"
  else if (byte_at buf 0 =? 0xC5) || (byte_at buf 0 =? 0xC4) then Some "execute_avx_vex"
  else None.

(** The entry with the bytes copied. *)
Definition decoded_bytes (buf : list Z) : DecodedInst :=
  let copy_len := Z.min (size_of buf) DECODED_INST_MAX_BYTES in
  set_d_segment_override (-1)
    (set_d_byte_count copy_len
      (set_d_bytes (take (Z.to_nat copy_len) buf ++ drop (Z.to_nat copy_len) (d_bytes decoded_inst_clear))%list decoded_inst_clear)).

(** The flags every opcode gets. *)
Definition opcode_flags (buf : list Z) (prefix_len opc : Z) : Z :=
  Z.lor (Z.lor (if cpu_step_may_touch_vector_state buf opc (peek_mandatory_prefix buf prefix_len) then DECODED_FLAG_TOUCHES_VECTOR else 0)
           (if is_branch_opcode opc then DECODED_FLAG_BRANCH else 0))
    (if negb (cpu_decoder_is_escape_candidate_opc opc) then DECODED_FLAG_KNOWN_NOT_ESCAPE else 0).

(** The returns before the group fields: undefined and trap opcodes, the inline forms. *)
Definition early_form (ctx : CPU_CONTEXT) (buf : list Z) (prefix_len opc : Z) (dec : DecodedInst) : option DecodedInst :=
  if opc =? 0x00F4 then Some (add_flags DECODED_FLAG_UD dec)
  else if opc =? 0x00CC then Some (add_flags DECODED_FLAG_BP dec)
  else if opc =? 0x00F1 then Some (add_flags DECODED_FLAG_DB dec)
  else if opc =? 0x0F0B then Some (add_flags DECODED_FLAG_UD dec)
  else if cpu_decoder_is_escape_owned_ud opc then Some (add_flags DECODED_FLAG_UD dec)
  else if opc =? 0x00C3 then
    let '(operand_size, near_ret_prefix_len) := decode_near_ret_operand_size ctx buf in
    Some (cpu_decoder_set_inline_ret (u8 near_ret_prefix_len) operand_size 0 false dec)
  else if opc =? 0x00C2 then
    let '(operand_size, near_ret_prefix_len) := decode_near_ret_operand_size ctx buf in
    if size_of buf <? near_ret_prefix_len + 3 then Some (add_flags DECODED_FLAG_UD dec)
    else Some (cpu_decoder_set_inline_ret (u8 near_ret_prefix_len) operand_size (field_value buf (near_ret_prefix_len + 1) 2) true dec)
  else if (prefix_len =? 0) && between 0x0070 0x007F opc && cs_long_mode ctx && (2 <=? size_of buf) then
    Some (add_flags DECODED_FLAG_BRANCH
      (set_d_length 2 (set_d_inline_jcc_disp (sext 8 (byte_at buf 1)) (set_d_inline_jcc_cond (Z.land opc 0x0F)
        (set_d_inline_kind DECODED_INLINE_JCC_SHORT_LONGMODE dec)))))
  else if (prefix_len =? 0) && between 0x0F80 0x0F8F opc && cs_long_mode ctx && (6 <=? size_of buf) then
    Some (add_flags DECODED_FLAG_BRANCH
      (set_d_length 6 (set_d_inline_jcc_disp32 (sext 32 (field_value buf 2 4)) (set_d_inline_jcc_cond (Z.land opc 0x0F)
        (set_d_inline_kind DECODED_INLINE_JCC_NEAR_LONGMODE dec)))))
  else None.

(** Opcode FF branches only in its call and jump forms. *)
Definition ff_branch_flag (buf : list Z) (prefix_len opc : Z) (dec : DecodedInst) : DecodedInst :=
  if u8 opc =? 0xFF then
    if one_of (ff_reg buf prefix_len opc) [2; 3; 4; 5] then add_flags DECODED_FLAG_BRANCH dec
    else set_d_flags (Z.ldiff (d_flags dec) DECODED_FLAG_BRANCH) dec
  else dec.

(** [dec->handler = handler] and the flags that follow from it. *)
Definition install_handler (buf : list Z) (prefix_len opc : Z) (handler : option DecodedExecuteFn) (dec : DecodedInst) : DecodedInst :=
  let partial := match handler with Some name => String.eqb name "execute_rep" | None => false end in
  let dec := if partial then add_flags DECODED_FLAG_PARTIAL_PROGRESS dec else dec in
  let dec := set_d_handler handler dec in
  if negb (has_bits (d_flags dec) (Z.lor (Z.lor (Z.lor DECODED_FLAG_UD DECODED_FLAG_BP) (Z.lor DECODED_FLAG_DB DECODED_FLAG_TOUCHES_VECTOR)) DECODED_FLAG_INLINE_RET))
     && cpu_decoder_classify_no_fault buf prefix_len opc (group_reg buf prefix_len opc) (group3_reg buf prefix_len opc)
          (fe_reg buf prefix_len opc) (ff_reg buf prefix_len opc) (group2_reg buf prefix_len opc)
  then add_flags DECODED_FLAG_NO_FAULT dec else dec.

Definition cpu_decode_instruction (buf : list Z) : ST CPU_CONTEXT DecodedInst :=
  if size_of buf <=? 0 then st_ret decoded_inst_clear
  else
    let dec := decoded_bytes buf in
    match vector_form buf with
    | Some handler => st_ret (add_flags DECODED_FLAG_TOUCHES_VECTOR (set_d_handler (Some handler) dec))
    | None =>
        let* ctx := st_get in
        let '(opc, prefix_len) := peek_opcode ctx buf in
        if opc =? 0xFFFF then st_ret (set_d_byte_count 0 dec)
        else
          let dec := add_flags (opcode_flags buf prefix_len opc) (set_d_segment_override (peek_segment_override buf prefix_len) dec) in
          match early_form ctx buf prefix_len opc dec with
          | Some dec => st_ret dec
          | None =>
              let dec := ff_branch_flag buf prefix_len opc dec in
              match dispatch_ladder ctx buf prefix_len opc with
              | Undefined => st_ret (add_flags DECODED_FLAG_UD dec)
              | Handler handler => cpu_decoder_try_attach_fast_handler (install_handler buf prefix_len opc (Some handler) dec)
              | NoCandidate => cpu_decoder_try_attach_fast_handler (install_handler buf prefix_len opc None dec)
              end
          end
    end.

End decode.

(** The executor's decoder. *)
#[export] Instance decoder `{ProbeDecoders} : Decoder := { cpu_decode bytes := on_ctx (cpu_decode_instruction bytes) }.

(** ** Decoders write nothing but the scratch fields *)

Definition framed {A} (c : ST CPU_CONTEXT A) : Prop := forall ctx, decode_frame (snd (c ctx)) = decode_frame ctx.

(** What the decoder may rely on about the instruction files' decoders. *)
Class ProbesFramed `{ProbeDecoders} : Prop := probe_framed name code : framed (probe_decode name code).

Create Rewrite HintDb frame.
Create HintDb framed discriminated.
#[export] Hint Constants Opaque : framed.

Lemma framed_ret {A} (a : A) : framed (st_ret a).
Proof. by intros ctx. Qed.
Lemma framed_get : framed st_get.
Proof. by intros ctx. Qed.
Lemma framed_gets {A} (f : CPU_CONTEXT -> A) : framed (st_gets f).
Proof. by intros ctx. Qed.
Lemma framed_bind {A B} (c : ST CPU_CONTEXT A) (k : A -> ST CPU_CONTEXT B) : framed c -> (forall a, framed (k a)) -> framed (st_bind c k).
Proof. intros Hc Hk ctx. unfold st_bind. specialize (Hc ctx). destruct (c ctx) as [a ctx']. cbn in Hc. by rewrite Hk. Qed.
Lemma framed_modify f : (forall ctx, decode_frame (f ctx) = decode_frame ctx) -> framed (st_modify f).
Proof. done. Qed.
Lemma framed_if {A} (b : bool) (c1 c2 : ST CPU_CONTEXT A) : framed c1 -> framed c2 -> framed (if b then c1 else c2).
Proof. by destruct b. Qed.

Lemma frame_exception v ctx : decode_frame (set_c_exception v ctx) = decode_frame ctx.
Proof. by destruct ctx; vm_compute. Qed.
Lemma frame_operand_size v ctx : decode_frame (set_c_operand_size_override v ctx) = decode_frame ctx.
Proof. by destruct ctx; vm_compute. Qed.
Lemma frame_address_size v ctx : decode_frame (set_c_address_size_override v ctx) = decode_frame ctx.
Proof. by destruct ctx; vm_compute. Qed.
Lemma frame_segment v ctx : decode_frame (set_c_segment_override v ctx) = decode_frame ctx.
Proof. by destruct ctx; vm_compute. Qed.
Lemma frame_last_inst_size v ctx : decode_frame (set_c_last_inst_size v ctx) = decode_frame ctx.
Proof. by destruct ctx; vm_compute. Qed.
Lemma frame_rex v ctx : decode_frame (set_rex v ctx) = decode_frame ctx.
Proof. by destruct ctx; vm_compute. Qed.
Lemma frame_reset ctx : decode_frame (cpu_reset_prefix_state ctx) = decode_frame ctx.
Proof. by destruct ctx; vm_compute. Qed.
Lemma frame_raise code ec ctx : decode_frame (cpu_raise_exception code ec ctx) = decode_frame ctx.
Proof. unfold cpu_raise_exception. destruct (cpu_has_exception ctx); [done | apply frame_exception]. Qed.
Lemma frame_raise_ud ctx : decode_frame (raise_ud_ctx ctx) = decode_frame ctx.
Proof. apply frame_raise. Qed.
Lemma frame_raise_gp v ctx : decode_frame (raise_gp_ctx v ctx) = decode_frame ctx.
Proof. apply frame_raise. Qed.
Lemma frame_raise_ss v ctx : decode_frame (raise_ss_ctx v ctx) = decode_frame ctx.
Proof. apply frame_raise. Qed.
#[export] Hint Rewrite frame_operand_size frame_address_size frame_segment frame_last_inst_size frame_rex frame_reset
  frame_raise_ud frame_raise_gp frame_raise_ss : frame.

Lemma framed_address modrm sib disp addr_size inst_size : framed (get_effective_address modrm sib disp addr_size inst_size).
Proof.
  intros ctx. unfold get_effective_address. destruct (modrm_mod modrm =? 3); [done |]. cbn [snd].
  unfold cpu_validate_linear_address, cpu_raise_noncanonical_address.
  repeat case_match; cbn [snd]; autorewrite with frame; reflexivity.
Qed.

Lemma framed_finalize size inst : framed (finalize_rip_relative_address size inst).
Proof.
  intros ctx. unfold finalize_rip_relative_address. cbv zeta.
  pose proof (framed_address (i_modrm inst) (i_sib inst) (i_displacement inst) (i_address_size inst) size ctx) as Ha.
  destruct (get_effective_address _ _ _ _ _ ctx). by repeat case_match.
Qed.

#[export] Hint Resolve framed_ret framed_get framed_gets framed_address framed_finalize : framed.

(** Walks through a decoder; the pieces are in the hint database. *)
Ltac framed_steps :=
  repeat match goal with
  | |- framed (st_bind _ _) => apply framed_bind; [| intros]
  | |- framed (st_modify _) => apply framed_modify; intros; autorewrite with frame; reflexivity
  | |- framed (st_ret _) => apply framed_ret
  | |- framed (if _ then _ else _) => apply framed_if
  | |- framed (match ?x with _ => _ end) => destruct x
  | |- framed (let x := ?v in @?b x) => change (framed (b v)); generalize v; intros; cbv beta
  | |- _ => solve [auto with framed]
  end.

Lemma framed_sib_disp code inst offset : framed (decode_sib_disp code inst offset).
Proof. unfold decode_sib_disp. framed_steps. Qed.
#[export] Hint Resolve framed_sib_disp : framed.

Lemma framed_modrm_alu f code inst offset lock : framed (decode_modrm_alu f code inst offset lock).
Proof. unfold decode_modrm_alu. framed_steps. Qed.

Lemma framed_alu_prefix f code : forall offset lock, framed (alu_prefix_loop f code offset lock).
Proof. induction code as [| b code IH]; intros; cbn [alu_prefix_loop]; framed_steps; apply IH. Qed.

Lemma framed_alu_immediate code inst offset n : framed (decode_alu_immediate code inst offset n).
Proof. unfold decode_alu_immediate. framed_steps. Qed.

Lemma framed_ud_if b : framed (ud_if b).
Proof. unfold ud_if. framed_steps. Qed.
#[export] Hint Resolve framed_modrm_alu framed_alu_prefix framed_alu_immediate framed_ud_if : framed.

Lemma framed_alu_operands f code inst offset lock : framed (decode_alu_operands f code inst offset lock).
Proof.
  unfold decode_alu_operands. framed_steps.
Qed.
#[export] Hint Resolve framed_alu_operands : framed.

Lemma framed_alu_instruction f code : framed (decode_alu_instruction f code).
Proof.
  unfold decode_alu_instruction. framed_steps.
Qed.

Section no_trace.
Context `{ProbesFramed}.

Lemma probe_restores decoder code ctx : framed (decoder code) -> snd (cpu_decoder_probe_with_helper decoder code ctx) = ctx.
Proof.
  intros Hd. unfold cpu_decoder_probe_with_helper, st_bind, st_gets, st_get, st_modify, st_ret. specialize (Hd ctx).
  destruct (decoder code ctx) as [probe ctx']. cbn [snd] in *.
  destruct ctx, ctx'. unfold decode_frame, decoder_restore_ctx_scratch in *. cbn in Hd. simplify_eq. reflexivity.
Qed.

(** What [attach] fills in; all else of the entry stays. *)
Definition with_fast (cached : DecodedInstruction) (prefix : DecodedPrefixState) (length : Z) (fast : DecodedFastFn) (dec : DecodedInst) : DecodedInst :=
  set_d_fast_handler (Some fast) (set_d_length length (set_d_prefix prefix (set_d_cached cached dec))).

Lemma try_attach_spec dec ctx :
  exists dec', cpu_decoder_try_attach_fast_handler dec ctx = (dec', ctx) /\
    (dec' = dec \/
     exists handler kind decode_fn fast cached prefix length,
       d_handler dec = Some handler /\ fast_form handler = Some (kind, decode_fn, fast) /\
       d_inline_kind dec = DECODED_INLINE_NONE /\ d_byte_count dec <> 0 /\ 0 < length <= DECODED_INST_MAX_BYTES /\
       (kind = AttachOne -> cpu_decoder_dec_inst_safe_to_replay cached = true) /\
       cpu_decoder_probe_with_helper (probe_decode decode_fn) (firstn (Z.to_nat (d_byte_count dec)) (d_bytes dec)) ctx = (Some (cached, prefix, length), ctx) /\
       dec' = with_fast cached prefix length fast dec).
Proof.
  unfold cpu_decoder_try_attach_fast_handler. destruct (Z.eqb_spec (d_inline_kind dec) DECODED_INLINE_NONE) as [Hk |]; cbn [negb]; [| eauto].
  destruct (has_bits _ _); [eauto |]. destruct (d_handler dec) as [handler |]; [| eauto].
  destruct (Z.eqb_spec (d_byte_count dec) 0); [eauto |]. destruct (fast_form handler) as [[[kind decode_fn] fast] |] eqn:Hf; [| eauto].
  unfold attach, st_bind. set (code := firstn _ _). pose proof (probe_restores (probe_decode decode_fn) code ctx (probe_framed decode_fn code)) as Hp.
  destruct (cpu_decoder_probe_with_helper _ code ctx) as [out ctx'] eqn:Hout. cbn [snd] in Hp. subst ctx'.
  destruct out as [[[cached prefix] length] |]; [| eauto]. unfold st_ret. destruct (_ && _) eqn:Hsafe; [| eauto].
  apply andb_true_iff in Hsafe as [Hl Hsafe]. apply Z.ltb_lt in Hl. eexists. split; [done |]. right.
  exists handler, kind, decode_fn, fast, cached, prefix, length. split_and!; try done.
  - unfold cpu_decoder_probe_with_helper, st_bind, st_gets, st_get, st_modify, st_ret in Hout.
    destruct (probe_decode decode_fn code ctx) as [pr c1]. destruct (cpu_has_exception c1); [done |]. injection Hout as <- <- <- _.
    destruct (Z.leb_spec (c_last_inst_size c1) DECODED_INST_MAX_BYTES); destruct (0 <? c_last_inst_size c1); cbn [andb] in *; lia.
  - intros ->. done.
Qed.

End no_trace.

(** ** The decision before the fast form *)

(** The entry, and whether a fast form is looked for. *)
Definition decode_entry (ctx : CPU_CONTEXT) (buf : list Z) : DecodedInst * bool :=
  if size_of buf <=? 0 then (decoded_inst_clear, false)
  else
    let dec := decoded_bytes buf in
    match vector_form buf with
    | Some handler => (add_flags DECODED_FLAG_TOUCHES_VECTOR (set_d_handler (Some handler) dec), false)
    | None =>
        let '(opc, prefix_len) := peek_opcode ctx buf in
        if opc =? 0xFFFF then (set_d_byte_count 0 dec, false)
        else
          let dec := add_flags (opcode_flags buf prefix_len opc) (set_d_segment_override (peek_segment_override buf prefix_len) dec) in
          match early_form ctx buf prefix_len opc dec with
          | Some dec => (dec, false)
          | None =>
              let dec := ff_branch_flag buf prefix_len opc dec in
              match dispatch_ladder ctx buf prefix_len opc with
              | Undefined => (add_flags DECODED_FLAG_UD dec, false)
              | Handler handler => (install_handler buf prefix_len opc (Some handler) dec, true)
              | NoCandidate => (install_handler buf prefix_len opc None dec, true)
              end
          end
    end.

Section entry.
Context `{ProbeDecoders}.

Lemma decode_by_entry buf ctx :
  cpu_decode_instruction buf ctx =
  let '(dec, more) := decode_entry ctx buf in if more then cpu_decoder_try_attach_fast_handler dec ctx else (dec, ctx).
Proof.
  unfold cpu_decode_instruction, decode_entry. destruct (size_of buf <=? 0); [done |]. cbv zeta.
  destruct (vector_form buf); [done |]. unfold st_bind, st_get. destruct (peek_opcode ctx buf) as [opc prefix_len].
  destruct (opc =? 0xFFFF); [done |]. destruct (early_form _ _ _ _ _); [done |]. by destruct (dispatch_ladder _ _ _ _).
Qed.

End entry.

(** The entry depends on the context through these two questions. *)
Lemma entry_mode ctx1 ctx2 buf :
  cpu_is_64bit_code ctx1 = cpu_is_64bit_code ctx2 -> cs_long_mode ctx1 = cs_long_mode ctx2 -> decode_entry ctx1 buf = decode_entry ctx2 buf.
Proof.
  intros H64 Hlm. assert (Hpk : peek_opcode ctx1 buf = peek_opcode ctx2 buf).
  { unfold peek_opcode, is_prefix_of_mode, cpu_allows_rex_prefix. by rewrite H64. }
  assert (Hearly : forall p o d, early_form ctx1 buf p o d = early_form ctx2 buf p o d).
  { intros. unfold early_form, decode_near_ret_operand_size, is_prefix_of_mode, cpu_allows_rex_prefix. by rewrite H64, Hlm. }
  assert (Hrex : forall p, rex_b_of_prefixes ctx1 buf p = rex_b_of_prefixes ctx2 buf p).
  { intros. unfold rex_b_of_prefixes, cpu_allows_rex_prefix. by rewrite H64. }
  assert (Hlad : forall p o, dispatch_ladder ctx1 buf p o = dispatch_ladder ctx2 buf p o).
  { intros. unfold dispatch_ladder, misc_ladder, one_byte_ladder, group_ladder. by rewrite Hrex, H64. }
  unfold decode_entry. rewrite Hpk. destruct (peek_opcode ctx2 buf) as [o p]. by rewrite Hearly, Hlad.
Qed.

(** ** Well-formed entries *)

Definition trap_mask : Z := Z.lor (Z.lor DECODED_FLAG_UD DECODED_FLAG_BP) DECODED_FLAG_DB.

Record decoded_wf (dec : DecodedInst) : Prop := {
  dw_bytes : List.length (d_bytes dec) = 15%nat;
  dw_count : 0 <= d_byte_count dec <= DECODED_INST_MAX_BYTES;
  dw_length : 0 <= d_length dec <= DECODED_INST_MAX_BYTES;
  (* an instruction the executor runs itself has a length, no handler and no trap *)
  dw_inline : d_inline_kind dec <> DECODED_INLINE_NONE ->
    d_handler dec = None /\ d_fast_handler dec = None /\ has_bits (d_flags dec) trap_mask = false /\
    has_bits (d_flags dec) DECODED_FLAG_BRANCH = true /\ 0 < d_length dec;
  (* an undefined instruction or a trap has no handler *)
  dw_trap : has_bits (d_flags dec) trap_mask = true -> d_handler dec = None /\ d_fast_handler dec = None;
  (* a fast form belongs to the handler, has a length and, when it keeps the probe's address, none *)
  dw_fast : forall fast, d_fast_handler dec = Some fast ->
    exists handler kind decode_fn, d_handler dec = Some handler /\ fast_form handler = Some (kind, decode_fn, fast) /\
      0 < d_length dec /\ (kind = AttachOne -> cpu_decoder_dec_inst_safe_to_replay (d_cached dec) = true);
  (* no promise for instructions that trap, return or touch vector registers *)
  dw_no_fault : has_bits (d_flags dec) DECODED_FLAG_NO_FAULT = true ->
    has_bits (d_flags dec) trap_mask = false /\ has_bits (d_flags dec) DECODED_FLAG_TOUCHES_VECTOR = false /\
    has_bits (d_flags dec) DECODED_FLAG_INLINE_RET = false;
}.

Lemma lor_eq_0 a b : (Z.lor a b =? 0) = (a =? 0) && (b =? 0).
Proof.
  destruct (Z.eqb_spec (Z.lor a b) 0) as [E | E].
  - apply Z.lor_eq_0_iff in E as [-> ->]. done.
  - destruct (Z.eqb_spec a 0), (Z.eqb_spec b 0); subst; done.
Qed.

Lemma has_bits_lor f g m : has_bits (Z.lor f g) m = has_bits f m || has_bits g m.
Proof. unfold has_bits. rewrite Z.land_lor_distr_l, lor_eq_0. by rewrite negb_andb. Qed.

Lemma has_bits_mask f m n : has_bits f (Z.lor m n) = has_bits f m || has_bits f n.
Proof. unfold has_bits. rewrite Z.land_lor_distr_r, lor_eq_0. by rewrite negb_andb. Qed.

Lemma has_bits_ldiff f g m : Z.land g m = 0 -> has_bits (Z.ldiff f g) m = has_bits f m.
Proof.
  intros Hd. unfold has_bits. do 2 f_equal. apply Z.bits_inj'. intros n _. rewrite !Z.land_spec, Z.ldiff_spec.
  pose proof (f_equal (fun z => Z.testbit z n) Hd) as Hn. cbn beta in Hn. rewrite Z.land_spec, Z.bits_0 in Hn.
  destruct (Z.testbit f n), (Z.testbit g n), (Z.testbit m n); done.
Qed.

(** The flags of [opcode_flags] hold no trap, promise or inline return. *)
Lemma opcode_flags_clean buf p o m : m = trap_mask \/ m = DECODED_FLAG_NO_FAULT \/ m = DECODED_FLAG_INLINE_RET ->
  has_bits (opcode_flags buf p o) m = false.
Proof.
  unfold opcode_flags. intros Hm. rewrite !has_bits_lor.
  destruct (cpu_step_may_touch_vector_state _ _ _), (is_branch_opcode o), (negb _), Hm as [-> | [-> | ->]]; done.
Qed.

Section bytes.
Variable buf : list Z.
Hypothesis Hne : 0 < size_of buf.

Lemma decoded_bytes_wf dec :
  d_bytes dec = d_bytes (decoded_bytes buf) -> d_byte_count dec = d_byte_count (decoded_bytes buf) \/ d_byte_count dec = 0 ->
  List.length (d_bytes dec) = 15%nat /\ 0 <= d_byte_count dec <= DECODED_INST_MAX_BYTES.
Proof.
  unfold decoded_bytes, DECODED_INST_MAX_BYTES, size_of in *. intros -> Hc. cbn [d_bytes d_byte_count set_d_segment_override set_d_byte_count set_d_bytes] in *.
  split.
  - rewrite length_app, length_take, length_drop. change (List.length (d_bytes decoded_inst_clear)) with 15%nat. lia.
  - destruct Hc as [-> | ->]; lia.
Qed.
End bytes.

(** The parts of an entry the decision sets after the bytes. *)
Definition fresh (buf : list Z) (dec : DecodedInst) : Prop :=
  d_bytes dec = d_bytes (decoded_bytes buf) /\ d_byte_count dec = d_byte_count (decoded_bytes buf) /\ d_length dec = 0 /\
  d_handler dec = None /\ d_fast_handler dec = None /\ d_inline_kind dec = DECODED_INLINE_NONE /\
  has_bits (d_flags dec) trap_mask = false /\ has_bits (d_flags dec) DECODED_FLAG_NO_FAULT = false /\
  has_bits (d_flags dec) DECODED_FLAG_INLINE_RET = false.

Lemma prefix_run_bounds test buf : 0 <= prefix_run test buf <= size_of buf.
Proof. unfold size_of. induction buf as [| b buf IH]; cbn [prefix_run List.length]; [done |]. destruct (test b); lia. Qed.

Lemma trap_wf buf flags dec :
  0 < size_of buf -> fresh buf dec -> (has_bits flags DECODED_FLAG_NO_FAULT = false) -> decoded_wf (add_flags flags dec).
Proof.
  intros Hne (Hb & Hc & Hl & Hh & Hf & Hk & Ht & Hn & Hi) Hfl.
  destruct (decoded_bytes_wf buf Hne (add_flags flags dec) Hb (or_introl Hc)) as [? ?].
  split; cbn [add_flags d_flags set_d_flags d_handler d_fast_handler d_inline_kind d_length d_bytes d_byte_count d_cached]; try done.
  - rewrite Hl. done.
  - intros fast. by rewrite Hf.
  - rewrite has_bits_lor, Hn, Hfl. done.
Qed.

Lemma inline_wf buf dec dec' :
  0 < size_of buf -> fresh buf dec ->
  d_bytes dec' = d_bytes dec -> d_byte_count dec' = d_byte_count dec -> d_handler dec' = d_handler dec -> d_fast_handler dec' = d_fast_handler dec ->
  (exists flags, d_flags dec' = Z.lor (d_flags dec) flags /\ has_bits flags trap_mask = false /\ has_bits flags DECODED_FLAG_NO_FAULT = false /\
    has_bits flags DECODED_FLAG_BRANCH = true) ->
  0 < d_length dec' <= DECODED_INST_MAX_BYTES -> decoded_wf dec'.
Proof.
  intros Hne (Hb & Hc & Hl & Hh & Hf & Hk & Ht & Hn & Hi) Eb Ec Eh Ef (fl & Efl & Ft & Fn & Fb) Hlen. rewrite <- Eb in Hb. rewrite <- Ec in Hc.
  destruct (decoded_bytes_wf buf Hne dec' Hb (or_introl Hc)) as [? ?].
  split; rewrite ?Efl, ?has_bits_lor, ?Ft, ?Fb, ?Fn, ?Ht, ?Hn, ?Eh, ?Ef, ?Hh, ?Hf, ?orb_true_r; try done; try lia.
  intros _. split_and!; done || lia.
Qed.

Lemma ret_wf buf prefix_len operand_size imm16 has_imm dec :
  fresh buf dec -> 0 <= prefix_len -> prefix_len + (if has_imm : bool then 3 else 1) <= size_of buf <= DECODED_INST_MAX_BYTES ->
  decoded_wf (cpu_decoder_set_inline_ret (u8 prefix_len) operand_size imm16 has_imm dec).
Proof.
  intros Hfr Hp Hs. assert (Hne : 0 < size_of buf) by (destruct has_imm; lia). unfold DECODED_INST_MAX_BYTES in *.
  assert (Hu : u8 prefix_len = prefix_len) by (apply wrap_small; split; [lia | change (2 ^ 8) with 256; destruct has_imm; lia]).
  assert (Hu3 : forall k, 0 <= k -> prefix_len + k <= 15 -> u8 (u8 prefix_len + k) = prefix_len + k)
    by (intros; rewrite Hu; apply wrap_small; split; [lia | change (2 ^ 8) with 256; lia]).
  unfold cpu_decoder_set_inline_ret. apply (inline_wf buf dec); try done.
  - eexists. split; [reflexivity |]. done.
  - cbn [d_length add_flags set_d_flags set_d_length]. unfold DECODED_INST_MAX_BYTES. destruct has_imm; rewrite Hu3; lia.
Qed.

Lemma jcc_wf buf dec f (n : Z) :
  fresh buf dec -> 0 < size_of buf -> 0 < n <= DECODED_INST_MAX_BYTES ->
  (forall d, d_bytes (f d) = d_bytes d /\ d_byte_count (f d) = d_byte_count d /\ d_handler (f d) = d_handler d /\
     d_fast_handler (f d) = d_fast_handler d /\ d_flags (f d) = d_flags d) ->
  decoded_wf (add_flags DECODED_FLAG_BRANCH (set_d_length n (f dec))).
Proof.
  intros Hfr Hne Hn Hf. destruct (Hf dec) as (? & ? & ? & ? & Hfl). apply (inline_wf buf dec); try done.
  exists DECODED_FLAG_BRANCH. split; [|done]. cbn [add_flags d_flags set_d_flags set_d_length]. by rewrite Hfl.
Qed.

Lemma early_form_wf ctx buf prefix_len opc dec dec' :
  0 < size_of buf <= DECODED_INST_MAX_BYTES -> fresh buf dec -> fst (peek_opcode ctx buf) <> 0xFFFF ->
  early_form ctx buf prefix_len opc dec = Some dec' -> decoded_wf dec'.
Proof.
  intros Hne Hfr Hpk. assert (Hne' : 0 < size_of buf) by lia.
  assert (Hrun : 0 <= prefix_run (is_prefix_of_mode ctx) buf < size_of buf).
  { pose proof (prefix_run_bounds (is_prefix_of_mode ctx) buf). unfold peek_opcode in Hpk. cbv zeta in Hpk.
    destruct (Z.leb_spec (size_of buf) (prefix_run (is_prefix_of_mode ctx) buf)); [done | lia]. }
  unfold early_form, decode_near_ret_operand_size.
  repeat match goal with |- (if ?b then Some (add_flags _ dec) else _) = Some _ -> _ => destruct b; [intros [= <-]; by apply (trap_wf buf) |] end.
  destruct (opc =? 0x00C3). { intros [= <-]. apply (ret_wf buf); [done | lia | unfold DECODED_INST_MAX_BYTES in *; lia]. }
  destruct (opc =? 0x00C2).
  { destruct (Z.ltb_spec (size_of buf) (prefix_run (is_prefix_of_mode ctx) buf + 3)); intros [= <-]; [by apply (trap_wf buf) |].
    apply (ret_wf buf); [done | lia | unfold DECODED_INST_MAX_BYTES in *; lia]. }
  destruct (_ && _). { intros [= <-]. by apply (jcc_wf buf dec (fun d => set_d_inline_jcc_disp _ (set_d_inline_jcc_cond _ (set_d_inline_kind _ d)))). }
  destruct (_ && _); [| done]. intros [= <-]. by apply (jcc_wf buf dec (fun d => set_d_inline_jcc_disp32 _ (set_d_inline_jcc_cond _ (set_d_inline_kind _ d)))).
Qed.

(** An entry whose fast form is looked for. *)
Lemma installed_wf buf prefix_len opc handler dec :
  0 < size_of buf -> fresh buf dec ->
  decoded_wf (install_handler buf prefix_len opc handler dec) /\
  d_fast_handler (install_handler buf prefix_len opc handler dec) = None /\
  has_bits (d_flags (install_handler buf prefix_len opc handler dec)) trap_mask = false.
Proof.
  intros Hne (Hb & Hc & Hl & Hh & Hf & Hk & Ht & Hn & Hi). unfold install_handler.
  set (dec1 := set_d_handler handler _).
  assert (H1 : d_bytes dec1 = d_bytes dec /\ d_byte_count dec1 = d_byte_count dec /\ d_length dec1 = 0 /\ d_fast_handler dec1 = None /\
    d_inline_kind dec1 = DECODED_INLINE_NONE /\ has_bits (d_flags dec1) trap_mask = false /\ has_bits (d_flags dec1) DECODED_FLAG_NO_FAULT = false).
  { unfold dec1. destruct (match handler with Some _ => _ | None => _ end); cbn [d_flags set_d_handler add_flags set_d_flags d_bytes d_byte_count d_length d_fast_handler d_inline_kind];
      rewrite ?has_bits_lor, ?Ht, ?Hn; split_and!; done. }
  clearbody dec1. destruct H1 as (Eb & Ec & El & Ef & Ek & Et & En). rewrite <- Eb in Hb. rewrite <- Ec in Hc.
  destruct (decoded_bytes_wf buf Hne dec1 Hb (or_introl Hc)) as [? ?]. unfold DECODED_INST_MAX_BYTES in *.
  destruct (negb (has_bits _ _) && _) eqn:Hp.
  - apply andb_true_iff in Hp as [Hp _]. apply negb_true_iff in Hp. rewrite !has_bits_mask in Hp.
    repeat match goal with H : _ || _ = false |- _ => apply orb_false_iff in H as [? ?] end.
    assert (Ht' : has_bits (Z.lor (d_flags dec1) DECODED_FLAG_NO_FAULT) trap_mask = false) by (rewrite has_bits_lor, Et; done).
    split_and!; [split | done | done]; cbn [add_flags d_flags set_d_flags d_handler d_fast_handler d_inline_kind d_length d_bytes d_byte_count d_cached];
      rewrite ?El, ?Ef, ?Ek, ?Ht'; try done.
    intros _. rewrite !has_bits_lor. by repeat match goal with H : has_bits (d_flags dec1) _ = false |- _ => rewrite H; clear H end.
  - split_and!; [split | done | done]; unfold DECODED_INST_MAX_BYTES; rewrite ?El, ?Ef, ?Ek, ?Et, ?En; done || lia.
Qed.

Lemma entry_wf ctx buf :
  size_of buf <= DECODED_INST_MAX_BYTES ->
  let '(dec, more) := decode_entry ctx buf in
  decoded_wf dec /\ (more = true -> d_fast_handler dec = None /\ has_bits (d_flags dec) trap_mask = false).
Proof.
  intros Hs. unfold decode_entry. destruct (Z.leb_spec (size_of buf) 0) as [| Hne]; [split; [by split | done] |].
  assert (Hfr : fresh buf (decoded_bytes buf)) by done. cbv zeta.
  destruct (vector_form buf) as [handler |].
  { split; [| done]. destruct (decoded_bytes_wf buf Hne (decoded_bytes buf) eq_refl (or_introl eq_refl)) as [? ?]. split; done. }
  destruct (peek_opcode ctx buf) as [opc prefix_len] eqn:Hpk. destruct (Z.eqb_spec opc 0xFFFF) as [| Hopc].
  { split; [| done]. destruct (decoded_bytes_wf buf Hne (set_d_byte_count 0 (decoded_bytes buf)) eq_refl (or_intror eq_refl)) as [? ?]. split; done. }
  set (dec := add_flags _ (set_d_segment_override _ _)).
  assert (Hd : fresh buf dec).
  { unfold fresh, dec. cbn [d_flags add_flags set_d_flags set_d_segment_override]. rewrite !has_bits_lor, !opcode_flags_clean by auto. done. }
  clearbody dec. destruct (early_form ctx buf prefix_len opc dec) as [dec' |] eqn:He.
  { split; [| done]. apply (early_form_wf ctx buf prefix_len opc dec); [done | done | by rewrite Hpk | done]. }
  assert (Hd' : fresh buf (ff_branch_flag buf prefix_len opc dec)).
  { unfold ff_branch_flag. destruct (u8 opc =? 0xFF); [| done]. destruct Hd as (? & ? & ? & ? & ? & ? & Ht & Hn & Hi).
    destruct (one_of _ _); unfold fresh; cbn [d_flags add_flags set_d_flags]; rewrite ?has_bits_lor, ?has_bits_ldiff, ?Ht, ?Hn, ?Hi by done; done. }
  destruct (dispatch_ladder ctx buf prefix_len opc).
  - edestruct installed_wf as (? & ? & ?); [done | exact Hd' |]. done.
  - split; [| done]. by apply (trap_wf buf).
  - edestruct installed_wf as (? & ? & ?); [done | exact Hd' |]. done.
Qed.

(** Every slot of the cache holds a well-formed entry. *)
Definition cache_decoded_wf (cache : InstCache) : Prop := forall i, decoded_wf (ic_decoded (slot_at cache i)).

(** An entry without what the probe filled in. *)
Definition erase_fast (dec : DecodedInst) : DecodedInst :=
  match d_handler dec with
  | Some _ => set_d_fast_handler None (set_d_length 0 (set_d_prefix zero_prefix (set_d_cached zero_inst dec)))
  | None => dec
  end.

Section properties.
Context `{ProbesFramed}.

Lemma decode_spec buf ctx :
  exists dec, cpu_decode_instruction buf ctx = (dec, ctx) /\ erase_fast dec = erase_fast (fst (decode_entry ctx buf)) /\
    (size_of buf <= DECODED_INST_MAX_BYTES -> decoded_wf dec).
Proof.
  rewrite decode_by_entry. pose proof (entry_wf ctx buf) as Hwf. destruct (decode_entry ctx buf) as [dec more]. cbn [fst].
  destruct more; [| exists dec; split_and!; [done | done | by apply Hwf]].
  destruct (try_attach_spec dec ctx) as (dec' & -> & Hd). exists dec'. split; [done |].
  destruct Hd as [-> | (handler & kind & fn & fast & cached & prefix & len & Hh & Hff & Hk & Hc & Hl & Hsafe & _ & ->)].
  { split; [done | by apply Hwf]. }
  split.
  { unfold erase_fast, with_fast. cbn [d_handler set_d_fast_handler set_d_length set_d_prefix set_d_cached]. by rewrite Hh. }
  intros Hs. destruct (Hwf Hs) as [[] Hno]. destruct (Hno eq_refl) as [_ Ht].
  unfold with_fast. split; cbn [d_handler d_fast_handler d_flags d_length d_inline_kind d_bytes d_byte_count d_cached set_d_fast_handler set_d_length set_d_prefix set_d_cached];
    try done; [lia | by rewrite Ht |].
  intros f [= <-]. exists handler, kind, fn. split_and!; try done. lia.
Qed.

(** C14: decoding is a function of the bytes and the mode.  Decoding never changes the context, and
    two contexts with the same mode key get the same entry from the same bytes: handler, flags,
    inline form and its length, bytes, segment override.  Only what the probe of the handler's own
    decoder fills in (fast form, its decoded instruction, prefix state and length) may differ. *)
Theorem decoding_depends_on_bytes_and_mode buf a b (Ha : mode_key_ok a) (Hb : mode_key_ok b)
  (Hkey : result cpu_inst_cache_mode_key a = result cpu_inst_cache_mode_key b) :
  final (cpu_decode_instruction buf) a = a /\
  erase_fast (result (cpu_decode_instruction buf) a) = erase_fast (result (cpu_decode_instruction buf) b).
Proof.
  destruct (decode_spec buf a) as (da & Ea & Fa & _), (decode_spec buf b) as (db & Eb & Fb & _).
  unfold final, result. rewrite Ea, Eb. split; [done |]. cbn [fst]. rewrite Fa, Fb.
  destruct (mode_key_fresh a Ha) as [Ka _], (mode_key_fresh b Hb) as [Kb _]. rewrite Ka, Kb in Hkey. apply mode_bits_inj in Hkey as (E1 & E2 & E3).
  assert (E64 : cpu_is_64bit_code a = cpu_is_64bit_code b) by (unfold cpu_is_64bit_code, cpu_long_mode_active; by rewrite E1, E2).
  rewrite (entry_mode a b buf E64 E2). reflexivity.
Qed.

(** C15: every entry the decoder makes is well formed, and a cache of well-formed entries stays one
    when such an entry is committed or the cache flushed: lengths and byte counts are at most 15;
    an instruction the executor runs itself has a length, branches and has neither handler nor
    trap; an undefined instruction or a trap has no handler; a fast form belongs to the entry's
    handler, comes with a length, and keeps an address of the probe only for register operands; and
    no entry that traps, returns or touches vector registers is promised not to fault. *)
Theorem decoded_entries_are_well_formed buf ctx mgr rip mode cache (Hs : size_of buf <= DECODED_INST_MAX_BYTES) (Hc : cache_decoded_wf cache) :
  let dec := result (cpu_decode_instruction buf) ctx in
  decoded_wf dec /\ cache_decoded_wf (cpu_inst_cache_commit mgr rip mode dec cache) /\ cache_decoded_wf (cpu_inst_cache_flush cache).
Proof.
  cbv zeta. unfold result. destruct (decode_spec buf ctx) as (dec & -> & _ & Hwf). specialize (Hwf Hs). cbn [fst]. split_and!.
  - done.
  - intros i. unfold cpu_inst_cache_commit. destruct (decide (i = cpu_inst_cache_index rip)) as [-> | Hne].
    + by rewrite slot_at_insert_eq.
    + rewrite slot_at_insert_ne by congruence. apply Hc.
  - intros i. unfold cpu_inst_cache_flush. rewrite slot_at_empty. by split.
Qed.

End properties.

(** ** The one-byte opcode map *)

(** The architecture's map of 64-bit mode (volume 2, table A-2) in rows of sixteen: the mnemonic of
    each opcode, the groups (table A-6) whose reg field chooses it, the opcodes without one.
    Prefixes and escapes are left undefined here. *)
Inductive map_cell := Op (mnemonic : string) | Grp (mnemonics : list string) | Undef.

Definition group1 : list string := ["add"; "or"; "adc"; "sbb"; "and"; "sub"; "xor"; "cmp"].
Definition group1A : list string := ["pop"].
Definition group2 : list string := ["rol"; "ror"; "rcl"; "rcr"; "shl"; "shr"; ""; "sar"].
Definition group3 : list string := ["test"; ""; "not"; "neg"; "mul"; "imul"; "div"; "idiv"].
Definition group4 : list string := ["inc"; "dec"].
Definition group5 : list string := ["inc"; "dec"; "call"; "call"; "jmp"; "jmp"; "push"].
Definition group11 : list string := ["mov"].

Definition ops (n : nat) (mnemonic : string) : list map_cell := repeat (Op mnemonic) n.
Definition undef (n : nat) : list map_cell := repeat Undef n.

Definition architecture_map : list map_cell :=
  ( (* 00 *) ops 6 "add" ++ undef 2 ++ ops 6 "or" ++ undef 2 ++
   (* 10 *) ops 6 "adc" ++ undef 2 ++ ops 6 "sbb" ++ undef 2 ++
   (* 20 *) ops 6 "and" ++ undef 2 ++ ops 6 "sub" ++ undef 2 ++
   (* 30 *) ops 6 "xor" ++ undef 2 ++ ops 6 "cmp" ++ undef 2 ++
   (* 40 *) undef 16 ++
   (* 50 *) ops 8 "push" ++ ops 8 "pop" ++
   (* 60 *) undef 3 ++ [Op "movsxd"] ++ undef 4 ++ [Op "push"; Op "imul"; Op "push"; Op "imul"] ++ ops 2 "ins" ++ ops 2 "outs" ++
   (* 70 *) ops 16 "jcc" ++
   (* 80 *) [Grp group1; Grp group1; Undef; Grp group1] ++ ops 2 "test" ++ ops 2 "xchg" ++ ops 5 "mov" ++ [Op "lea"; Op "mov"; Grp group1A] ++
   (* 90 *) ops 8 "xchg" ++ [Op "cbw"; Op "cwd"; Undef; Op "fwait"; Op "pushf"; Op "popf"; Op "sahf"; Op "lahf"] ++
   (* A0 *) ops 4 "mov" ++ ops 2 "movs" ++ ops 2 "cmps" ++ ops 2 "test" ++ ops 2 "stos" ++ ops 2 "lods" ++ ops 2 "scas" ++
   (* B0 *) ops 16 "mov" ++
   (* C0 *) [Grp group2; Grp group2] ++ ops 2 "ret" ++ undef 2 ++ [Grp group11; Grp group11] ++
            [Op "enter"; Op "leave"] ++ ops 2 "retf" ++ [Op "int3"; Op "int"; Undef; Op "iret"] ++
   (* D0 *) repeat (Grp group2) 4 ++ undef 3 ++ [Op "xlat"] ++ ops 8 "x87" ++
   (* E0 *) ops 3 "loop" ++ [Op "jcxz"] ++ ops 2 "in" ++ ops 2 "out" ++ [Op "call"; Op "jmp"; Undef; Op "jmp"] ++ ops 2 "in" ++ ops 2 "out" ++
   (* F0 *) [Undef; Op "int1"; Undef; Undef; Op "hlt"; Op "cmc"; Grp group3; Grp group3] ++
            [Op "clc"; Op "stc"; Op "cli"; Op "sti"; Op "cld"; Op "std"; Grp group4; Grp group5])%list.

(** The emulator's handler of a mnemonic: usually its own, some share one, and some have none. *)
Definition shared_handlers : list (string * string) :=
  [("loop", "jcc"); ("jcxz", "jcc"); ("retf", "ret"); ("cwd", "cdq"); ("popf", "pushf"); ("sahf", "lahf");
   ("cmc", "flags"); ("clc", "flags"); ("stc", "flags"); ("cld", "flags"); ("std", "flags")].
Definition not_implemented : list string := ["ins"; "outs"; "fwait"; "x87"; "int3"; "int"; "int1"; "in"; "out"; "hlt"; "cli"; "sti"].

Definition handler_of (mnemonic : string) : option string :=
  if String.eqb mnemonic "" || existsb (String.eqb mnemonic) not_implemented then None
  else
    let name := match List.find (fun p => String.eqb mnemonic (fst p)) shared_handlers with Some (_, name) => name | None => mnemonic end in
    Some ("execute_" ++ name)%string.

Definition is_string_opcode (op : Z) : bool := one_of op [0xA4; 0xA5; 0xA6; 0xA7; 0xAA; 0xAB; 0xAC; 0xAD; 0xAE; 0xAF].

(** The handler of the architecture's instruction; with the REX.B bit, the last repeat prefix and the
    reg field of the next byte.  Repeated string instructions have a handler of their own. *)
Definition architecture_handler (op reg rep : Z) (rex_b : bool) : option string :=
  if is_string_opcode op && negb (rep =? 0) then handler_of "rep"
  else if (op =? 0x90) && negb rex_b && (rep =? 0) then handler_of "nop"
  else if (op =? 0x90) && negb rex_b && (rep =? 0xF3) then handler_of "pause"
  else
    match nth (Z.to_nat op) architecture_map Undef with
    | Op mnemonic => handler_of mnemonic
    | Grp mnemonics => handler_of (nth (Z.to_nat reg) mnemonics "")
    | Undef => None
    end.

(** Where this decoder departs from the map: it has a handler where 32-bit code has an instruction, for
    the opcodes that push and pop segment registers and the far CALL and JMP with an immediate
    pointer, and it does not look at the reg field of the groups 1A and 11.  Refusing these is left to
    the handlers, whose own decoders raise #UD. *)
Definition departure (op reg : Z) : option string :=
  if one_of op [0x06; 0x0E; 0x16; 0x1E] then Some "execute_push"
  else if one_of op [0x07; 0x17; 0x1F] then Some "execute_pop"
  else if op =? 0x9A then Some "execute_call"
  else if op =? 0xEA then Some "execute_jmp"
  else if (op =? 0x8F) && negb (reg =? 0) then Some "execute_pop"
  else if one_of op [0xC6; 0xC7] && negb (reg =? 0) then Some "execute_mov"
  else None.

Definition opcode_map64 (op reg rep : Z) (rex_b : bool) : option string :=
  match departure op reg with Some name => Some name | None => architecture_handler op reg rep rex_b end.

Definition resolved (r : resolution) : option string := match r with Handler name => Some name | _ => None end.

(** The ladder of the one-byte opcodes looks at these parts of the buffer only. *)
Lemma one_byte_congruence ctx1 ctx2 buf1 buf2 p1 p2 opc :
  peek_repeat_prefix buf1 p1 = peek_repeat_prefix buf2 p2 -> rex_b_of_prefixes ctx1 buf1 p1 = rex_b_of_prefixes ctx2 buf2 p2 ->
  peek_modrm_reg_field buf1 p1 1 = peek_modrm_reg_field buf2 p2 1 -> cpu_is_64bit_code ctx1 = cpu_is_64bit_code ctx2 ->
  cpu_decoder_resolve_x87 buf1 (u8 opc) p1 = cpu_decoder_resolve_x87 buf2 (u8 opc) p2 ->
  one_byte_ladder ctx1 buf1 p1 opc = one_byte_ladder ctx2 buf2 p2 opc.
Proof.
  intros Hr Hb Hg H64 Hx. unfold one_byte_ladder, group_ladder, group_reg, group2_reg, group3_reg, fe_reg, ff_reg, group_field.
  by rewrite Hr, Hb, Hg, H64, Hx.
Qed.

Lemma repeat_prefix_values buf p : In (peek_repeat_prefix buf p) [0; 0xF2; 0xF3].
Proof.
  unfold peek_repeat_prefix, last_prefix. set (l := firstn _ buf).
  assert (Hgen : forall l a, In a [0; 0xF2; 0xF3] -> In (fold_left (fun found b => if (b =? 0xF2) || (b =? 0xF3) then b else found) l a) [0; 0xF2; 0xF3]).
  { clear. induction l as [| b l IH]; intros a Ha; [done |]. cbn [fold_left]. apply IH.
    destruct (Z.eqb_spec b 0xF2), (Z.eqb_spec b 0xF3); subst; cbn [orb]; [by right; left | by right; left | by right; right; left | done]. }
  apply Hgen. by left.
Qed.

Lemma reg_field_values buf p n : In (peek_modrm_reg_field buf p n) [0; 1; 2; 3; 4; 5; 6; 7; 0xFF].
Proof.
  unfold peek_modrm_reg_field. destruct (_ <? _); [| cbn [In]; tauto].
  change 0x07 with (Z.ones 3). rewrite Z.land_ones by lia. set (x := Z.shiftr _ 3).
  pose proof (Z.mod_pos_bound x (2 ^ 3) ltac:(lia)) as Hx. change (2 ^ 3) with 8 in *.
  assert (Hc : x mod 8 = 0 \/ x mod 8 = 1 \/ x mod 8 = 2 \/ x mod 8 = 3 \/ x mod 8 = 4 \/ x mod 8 = 5 \/ x mod 8 = 6 \/ x mod 8 = 7) by lia.
  cbn [In]. intuition.
Qed.

(** A buffer with a given repeat prefix, REX byte, opcode and reg field. *)
Definition sample (rep : Z) (rex_b : bool) (op reg : Z) : list Z * Z :=
  let prefixes := ((if rep =? 0 then [] else [rep]) ++ (if rex_b then [0x41] else []))%list in
  ((prefixes ++ op :: (if reg =? 0xFF then [] else [Z.shiftl reg 3]))%list, size_of prefixes).

Definition x87_opcodes : list Z := [0x9B; 0xD9; 0xDB; 0xDD; 0xDF].
(** The opcodes that end before the ladder. *)
Definition early_opcodes : list Z := [0xF4; 0xCC; 0xF1; 0xCD; 0xE4; 0xE5; 0xE6; 0xE7; 0xEC; 0xED; 0xEE; 0xEF; 0xC2; 0xC3].
Definition mode64 : CPU_CONTEXT := init_cpu_context false.

Definition bytes256 : list Z := map Z.of_nat (List.seq 0 256).

Lemma bytes256_in op : 0 <= op < 256 -> In op bytes256.
Proof. intros Hop. unfold bytes256. apply in_map_iff. exists (Z.to_nat op). split; [lia |]. apply in_seq. lia. Qed.

Lemma one_of_in x l : one_of x l = true <-> In x l.
Proof.
  unfold one_of. rewrite existsb_exists. split; [intros (y & Hy & E); by apply Z.eqb_eq in E as -> | intros Hx; exists x; by rewrite Z.eqb_refl].
Qed.

Definition map_exceptions : list Z := (x87_opcodes ++ [0xC2; 0xC3; 0xCA; 0xCB; 0xCF])%list.

Definition same_resolution (r : resolution) (m : option string) : bool :=
  match r, m with Handler x, Some y => String.eqb x y | Undefined, None => true | _, _ => false end.

(** The ladder and the map agree on every opcode, prefix state and reg field. *)
Lemma one_byte_samples op rep rex_b reg :
  In op bytes256 -> In rep [0; 0xF2; 0xF3] -> In reg [0; 1; 2; 3; 4; 5; 6; 7; 0xFF] -> one_of op map_exceptions = false ->
  same_resolution (one_byte_ladder mode64 (fst (sample rep rex_b op reg)) (snd (sample rep rex_b op reg)) op) (opcode_map64 op reg rep rex_b) = true.
Proof.
  assert (Hall : forallb (fun op => one_of op map_exceptions || forallb (fun rep => forallb (fun rex_b => forallb (fun reg =>
      same_resolution (one_byte_ladder mode64 (fst (sample rep rex_b op reg)) (snd (sample rep rex_b op reg)) op) (opcode_map64 op reg rep rex_b))
      [0; 1; 2; 3; 4; 5; 6; 7; 0xFF]) [true; false]) [0; 0xF2; 0xF3]) bytes256 = true) by (vm_compute; reflexivity).
  intros Hop Hrep Hreg Hne. rewrite forallb_forall in Hall. specialize (Hall op Hop). rewrite Hne in Hall. cbn [orb] in Hall.
  rewrite forallb_forall in Hall. specialize (Hall rep Hrep). rewrite forallb_forall in Hall.
  specialize (Hall rex_b ltac:(destruct rex_b; cbn [In]; tauto)). rewrite forallb_forall in Hall. exact (Hall reg Hreg).
Qed.

(** What a sample shows to the ladder. *)
Lemma sample_parts op rep rex_b reg :
  In op bytes256 -> In rep [0; 0xF2; 0xF3] -> In reg [0; 1; 2; 3; 4; 5; 6; 7; 0xFF] ->
  let '(buf, p) := sample rep rex_b op reg in
  peek_repeat_prefix buf p = rep /\ rex_b_of_prefixes mode64 buf p = rex_b /\ peek_modrm_reg_field buf p 1 = reg.
Proof.
  intros _ Hrep Hreg. cbn [In] in Hrep, Hreg. unfold sample.
  destruct Hrep as [<- | [<- | [<- | []]]], rex_b, Hreg as [<- | [<- | [<- | [<- | [<- | [<- | [<- | [<- | [<- | []]]]]]]]]]; split_and!; reflexivity.
Qed.

(** Outside the exceptions the ladder of any 64-bit buffer is the map. *)
Lemma one_byte_ladder_map ctx buf p op :
  cpu_is_64bit_code ctx = true -> 0 <= op < 256 -> one_of op map_exceptions = false ->
  same_resolution (one_byte_ladder ctx buf p op)
    (opcode_map64 op (peek_modrm_reg_field buf p 1) (peek_repeat_prefix buf p) (rex_b_of_prefixes ctx buf p)) = true.
Proof.
  intros H64 Hop Hne. pose proof (repeat_prefix_values buf p) as Hrep. pose proof (reg_field_values buf p 1) as Hreg.
  pose proof (bytes256_in op Hop) as Hin. set (rep := peek_repeat_prefix buf p) in *. set (reg := peek_modrm_reg_field buf p 1) in *.
  set (rex_b := rex_b_of_prefixes ctx buf p). pose proof (sample_parts op rep rex_b reg Hin Hrep Hreg) as Hs.
  pose proof (one_byte_samples op rep rex_b reg Hin Hrep Hreg Hne) as Hmap. destruct (sample rep rex_b op reg) as [buf' p']. cbn [fst snd] in Hmap.
  destruct Hs as (E1 & E2 & E3). assert (Hx : one_of (u8 op) x87_opcodes = false).
  { rewrite wrap_small by done. destruct (one_of op x87_opcodes) eqn:Hx; [| done]. apply one_of_in in Hx.
    assert (Hin' : In op map_exceptions) by (apply in_or_app; by left). apply one_of_in in Hin'. congruence. }
  unfold x87_opcodes, one_of in Hx. cbn [existsb] in Hx. repeat (apply orb_false_iff in Hx as [? Hx]).
  assert (Hx87 : forall b q, cpu_decoder_resolve_x87 b (u8 op) q = None).
  { intros. unfold cpu_decoder_resolve_x87. cbn [one_of existsb].
    repeat match goal with H : (u8 op =? _) = false |- _ => rewrite H; clear H end. cbn [andb orb one_of existsb]. by destruct (size_of b =? 0). }
  assert (E64 : cpu_is_64bit_code ctx = cpu_is_64bit_code mode64) by (rewrite H64; reflexivity).
  rewrite (one_byte_congruence ctx mode64 buf buf' p p' op (eq_sym E1) (eq_sym E2) (eq_sym E3) E64); [exact Hmap |].
  rewrite !Hx87. reflexivity.
Qed.

(** Below 256 no two-byte test holds. *)
Lemma one_of_two_byte opc l : opc < 256 -> forallb (fun x => 256 <=? x) l = true -> one_of opc l = false.
Proof.
  intros Ho Hl. destruct (one_of opc l) eqn:E; [| done]. apply one_of_in in E. rewrite forallb_forall in Hl. specialize (Hl _ E). lia.
Qed.

Lemma eqb_two_byte opc x : opc < 256 -> (256 <=? x) = true -> (opc =? x) = false.
Proof. intros. apply Z.eqb_neq. lia. Qed.

Lemma between_two_byte opc lo hi : opc < 256 -> (256 <=? lo) = true -> between lo hi opc = false.
Proof. intros. unfold between. destruct (Z.leb_spec lo opc); [lia | done]. Qed.

Ltac two_byte_false Ho :=
  rewrite ?(one_of_two_byte _ _ Ho) by reflexivity; rewrite ?(eqb_two_byte _ _ Ho) by reflexivity;
  rewrite ?(between_two_byte _ _ _ Ho) by reflexivity; cbn [andb orb].

Lemma vector_ladder_one_byte buf p op :
  op < 256 -> vector_ladder buf p op =
    if one_of op [0x00CB; 0x00CA] then Handler "execute_ret" else if op =? 0x00CF then Handler "execute_iret" else NoCandidate.
Proof.
  intros Ho. unfold vector_ladder. set (ret := one_of op [0x00CB; 0x00CA]). set (iret := op =? 0x00CF).
  two_byte_false Ho. reflexivity.
Qed.

Lemma misc_ladder_one_byte ctx buf p op :
  op < 256 -> is_endbr_instruction buf = false -> is_rdssp_instruction buf = false -> misc_ladder ctx buf p op = one_byte_ladder ctx buf p op.
Proof.
  intros Ho He Hr. unfold misc_ladder, cpu_decoder_classify_xgetbv_rdtscp, cpu_decoder_resolve_two_byte_misc. two_byte_false Ho.
  cbn [negb orb]. rewrite He, Hr. done.
Qed.

(** Bytes behind a string of prefixes. *)
Lemma prefix_run_app test prefixes op rest :
  Forall (fun b => test b = true) prefixes -> test op = false -> prefix_run test (prefixes ++ op :: rest)%list = size_of prefixes.
Proof.
  intros Hp Hop. unfold size_of. induction Hp as [| b prefixes Hb Hp IH]; cbn [app prefix_run List.length]; [by rewrite Hop |].
  rewrite Hb, IH. lia.
Qed.

Lemma byte_at_app prefixes l i : 0 <= i -> byte_at (prefixes ++ l)%list (size_of prefixes + i) = byte_at l i.
Proof.
  intros Hi. unfold byte_at, arr_get, size_of. rewrite app_nth2 by lia. f_equal. lia.
Qed.

Lemma size_app a b : size_of (a ++ b)%list = size_of a + size_of b.
Proof. unfold size_of. rewrite length_app. lia. Qed.

Lemma any_prefix_bytes ctx b : cpu_is_64bit_code ctx = true -> is_any_prefix_byte b = is_prefix_of_mode ctx b.
Proof. intros H64. unfold is_any_prefix_byte, is_prefix_of_mode, cpu_allows_rex_prefix. by rewrite H64. Qed.

Section opcode.
Variables (ctx : CPU_CONTEXT) (prefixes rest : list Z) (op : Z).
Hypotheses (H64 : cpu_is_64bit_code ctx = true) (Hp : Forall (fun b => is_prefix_of_mode ctx b = true) prefixes)
  (Hop : 0 <= op < 256) (Hnp : is_prefix_of_mode ctx op = false) (Hesc : one_of op [0x0F; 0x62; 0xC4; 0xC5] = false).
Let buf := (prefixes ++ op :: rest)%list.

Lemma opcode_size : size_of buf = size_of prefixes + 1 + size_of rest /\ 0 <= size_of rest /\ 0 <= size_of prefixes.
Proof. unfold buf. rewrite size_app. unfold size_of. cbn [List.length]. lia. Qed.

Lemma opcode_byte : byte_at buf (size_of prefixes) = op.
Proof. unfold buf. rewrite <- (Z.add_0_r (size_of prefixes)). by rewrite byte_at_app. Qed.

Lemma opcode_peek : peek_opcode ctx buf = (op, size_of prefixes).
Proof.
  unfold peek_opcode. unfold buf. rewrite prefix_run_app by done. fold buf. cbv zeta. destruct opcode_size as (Hs & ? & ?).
  destruct (Z.leb_spec (size_of buf) (size_of prefixes)); [lia |].
  rewrite opcode_byte. destruct (op =? 0x0F) eqn:E; [| done]. apply Z.eqb_eq in E. rewrite E in Hesc. discriminate Hesc.
Qed.

(** The first byte is a prefix or the opcode, and neither starts a vector form. *)
Lemma opcode_vector_form : vector_form buf = None.
Proof.
  assert (Hb : one_of (byte_at buf 0) [0x62; 0xC4; 0xC5] = false).
  { unfold buf. destruct prefixes as [| b l]; cbn [app].
    - change (byte_at (op :: rest) 0) with op. unfold one_of in *. cbn [existsb] in *. apply orb_false_iff in Hesc. apply Hesc.
    - change (byte_at (b :: (l ++ op :: rest)) 0) with b. apply Forall_inv in Hp.
      destruct (one_of b [0x62; 0xC4; 0xC5]) eqn:E; [| done]. apply one_of_in in E. cbn [In] in E.
      exfalso. destruct E as [<- | [<- | [<- | []]]]; unfold is_prefix_of_mode, cpu_allows_rex_prefix in Hp; rewrite H64 in Hp; discriminate Hp. }
  unfold one_of in Hb. cbn [existsb] in Hb. apply orb_false_iff in Hb as [E1 Hb]. apply orb_false_iff in Hb as [E2 Hb]. apply orb_false_iff in Hb as [E3 _].
  unfold vector_form. rewrite E1, E2, E3. done.
Qed.

Lemma opcode_own_prefixes : own_prefix_len buf = size_of prefixes.
Proof.
  unfold own_prefix_len, buf. apply prefix_run_app.
  - eapply Forall_impl; [exact Hp |]. intros b Hb. by rewrite (any_prefix_bytes ctx).
  - by rewrite (any_prefix_bytes ctx).
Qed.

Lemma opcode_not_0f extra second : opcode_at buf (size_of prefixes) extra [0x0F; second] = false.
Proof.
  unfold opcode_at. change (seqZ 0 (Z.of_nat (List.length [0x0F; second]))) with [0; 1]. cbn [zip zip_with forallb].
  rewrite Z.add_0_r, opcode_byte.
  unfold one_of in Hesc. cbn [existsb] in Hesc. apply orb_false_iff in Hesc as [-> _]. by rewrite andb_false_r.
Qed.

Lemma opcode_not_endbr : is_endbr_instruction buf = false /\ is_rdssp_instruction buf = false.
Proof.
  unfold is_endbr_instruction, is_rdssp_instruction, probe_endbr_instruction, probe_rdssp_instruction. cbv zeta.
  rewrite opcode_own_prefixes, opcode_not_0f. by rewrite !andb_false_r.
Qed.

Lemma opcode_ladder :
  one_of op [0x9B; 0xD9; 0xDB; 0xDD; 0xDF; 0xC2; 0xC3] = false ->
  same_resolution (dispatch_ladder ctx buf (size_of prefixes) op)
    (opcode_map64 op (peek_modrm_reg_field buf (size_of prefixes) 1) (peek_repeat_prefix buf (size_of prefixes))
      (rex_b_of_prefixes ctx buf (size_of prefixes))) = true.
Proof.
  intros Hx. destruct opcode_not_endbr as [He Hr]. unfold dispatch_ladder. rewrite vector_ladder_one_byte by lia.
  destruct (one_of op [0x00CB; 0x00CA]) eqn:Hret.
  { apply one_of_in in Hret. destruct Hret as [<- | [<- | []]]; reflexivity. }
  destruct (Z.eqb_spec op 0x00CF) as [-> | Hne]; [reflexivity |].
  rewrite misc_ladder_one_byte by (done || lia). apply one_byte_ladder_map; [done | done |].
  destruct (one_of op map_exceptions) eqn:E; [| done]. exfalso. apply one_of_in in E. unfold map_exceptions, x87_opcodes in E. cbn [app In] in E.
  assert (Hx' : ~ In op [0x9B; 0xD9; 0xDB; 0xDD; 0xDF; 0xC2; 0xC3]) by (intros H; apply one_of_in in H; congruence).
  assert (Hret' : ~ In op [0xCB; 0xCA]) by (intros H; apply one_of_in in H; congruence).
  cbn [In] in *. lia.
Qed.

End opcode.

(** Traps the map has no instruction for. *)
Definition trap_opcodes : list Z := [0xF4; 0xCC; 0xF1; 0xCD; 0xE4; 0xE5; 0xE6; 0xE7; 0xEC; 0xED; 0xEE; 0xEF].

Lemma erase_fast_same a b :
  erase_fast a = erase_fast b ->
  d_handler a = d_handler b /\ d_flags a = d_flags b /\ d_inline_kind a = d_inline_kind b /\ d_inline_jcc_cond a = d_inline_jcc_cond b.
Proof.
  intros E. assert (Hh : forall d, d_handler (erase_fast d) = d_handler d /\ d_flags (erase_fast d) = d_flags d /\
    d_inline_kind (erase_fast d) = d_inline_kind d /\ d_inline_jcc_cond (erase_fast d) = d_inline_jcc_cond d).
  { intros d. unfold erase_fast. destruct (d_handler d) eqn:Hd; by rewrite ?Hd. }
  destruct (Hh a) as (<- & <- & <- & <-), (Hh b) as (<- & <- & <- & <-). by rewrite E.
Qed.

Lemma install_handler_parts buf p o h dec :
  let dec' := install_handler buf p o h dec in
  d_handler dec' = h /\ d_inline_kind dec' = d_inline_kind dec /\ has_bits (d_flags dec') trap_mask = has_bits (d_flags dec) trap_mask.
Proof.
  unfold install_handler. cbv zeta. set (d1 := set_d_handler h _).
  assert (Hd1 : d_handler d1 = h /\ d_inline_kind d1 = d_inline_kind dec /\ has_bits (d_flags d1) trap_mask = has_bits (d_flags dec) trap_mask).
  { unfold d1. destruct (match h with Some _ => _ | None => _ end); cbn [d_handler d_inline_kind d_flags add_flags set_d_flags set_d_handler];
      rewrite ?has_bits_lor, ?orb_false_r; done. }
  clearbody d1. destruct (negb _ && _); [| done]. cbn [d_handler d_inline_kind d_flags add_flags set_d_flags].
  rewrite has_bits_lor. change (has_bits DECODED_FLAG_NO_FAULT trap_mask) with false. by rewrite orb_false_r.
Qed.

Lemma ff_branch_flag_parts buf p o dec :
  let dec' := ff_branch_flag buf p o dec in
  d_handler dec' = d_handler dec /\ d_inline_kind dec' = d_inline_kind dec /\ has_bits (d_flags dec') trap_mask = has_bits (d_flags dec) trap_mask.
Proof.
  unfold ff_branch_flag. cbv zeta. destruct (u8 o =? 0xFF); [| done]. destruct (one_of _ _); split_and!; try done; cbn [d_flags add_flags set_d_flags].
  - rewrite has_bits_lor. change (has_bits DECODED_FLAG_BRANCH trap_mask) with false. by rewrite orb_false_r.
  - by apply has_bits_ldiff.
Qed.

Section map_theorem.
Context `{ProbesFramed}.

Lemma early_form_cases ctx buf p op dec :
  0 <= op < 256 -> one_of op [0xC2; 0xC3] = false ->
  (one_of op trap_opcodes = true /\ exists m, early_form ctx buf p op dec = Some (add_flags m dec) /\ has_bits m trap_mask = true) \/
  (between 0x70 0x7F op = true /\ p = 0 /\ 2 <= size_of buf /\ exists dec', early_form ctx buf p op dec = Some dec' /\
     d_inline_kind dec' = DECODED_INLINE_JCC_SHORT_LONGMODE /\ d_inline_jcc_cond dec' = op - 0x70 /\ d_handler dec' = d_handler dec) \/
  (one_of op trap_opcodes = false /\ early_form ctx buf p op dec = None).
Proof.
  intros Hop Hret. unfold early_form.
  assert (Hud : cpu_decoder_is_escape_owned_ud op = one_of op [0xCD; 0xE4; 0xE5; 0xE6; 0xE7; 0xEC; 0xED; 0xEE; 0xEF; 0xF4]).
  { destruct (cpu_decoder_is_escape_owned_ud op) eqn:E; symmetry.
    - apply one_of_in in E. apply one_of_in. cbn [In] in *. lia.
    - apply not_true_is_false. intros E2. apply one_of_in in E2. apply not_true_iff_false in E. apply E, one_of_in. cbn [In] in *. lia. }
  unfold one_of in Hret. cbn [existsb] in Hret. apply orb_false_iff in Hret as [H2 Hret]. apply orb_false_iff in Hret as [H3 _].
  assert (Hand : between 0x70 0x7F op = true -> Z.land op 0x0F = op - 0x70).
  { unfold between. intros Hb. apply andb_true_iff in Hb as [? ?]. change 0x0F with (Z.ones 4). rewrite Z.land_ones by lia. change (2 ^ 4) with 16. zdiv. }
  destruct (Z.eqb_spec op 0x00F4) as [-> |]; [left; eauto |]. destruct (Z.eqb_spec op 0x00CC) as [-> |]; [left; eauto |].
  destruct (Z.eqb_spec op 0x00F1) as [-> |]; [left; eauto |]. rewrite (eqb_two_byte op 0x0F0B) by (done || lia). rewrite Hud.
  destruct (one_of op [0xCD; 0xE4; 0xE5; 0xE6; 0xE7; 0xEC; 0xED; 0xEE; 0xEF; 0xF4]) eqn:Ho.
  { left. split; [| eauto]. apply one_of_in in Ho. apply one_of_in. unfold trap_opcodes. cbn [In] in *. lia. }
  rewrite H2, H3, (between_two_byte op 0x0F80 0x0F8F) by (done || lia). rewrite andb_false_r. cbn [andb]. right.
  destruct (Z.eqb_spec p 0), (between 0x0070 0x007F op) eqn:Hb, (cs_long_mode ctx), (Z.leb_spec 2 (size_of buf)); cbn [andb].
  1: left; split_and!; try done; eexists; split; [reflexivity |]; split_and!; [done | by apply Hand | done].
  all: right; split; [| done]; destruct (one_of op trap_opcodes) eqn:E; [| done]; apply one_of_in in E;
    assert (Ho' : ~ In op [0xCD; 0xE4; 0xE5; 0xE6; 0xE7; 0xEC; 0xED; 0xEE; 0xEF; 0xF4]) by (intros Hin; apply one_of_in in Hin; congruence);
    unfold trap_opcodes in E; cbn [In] in *; lia.
Qed.

Lemma entry_of_opcode ctx buf op p :
  0 < size_of buf -> vector_form buf = None -> peek_opcode ctx buf = (op, p) -> op <> 0xFFFF ->
  decode_entry ctx buf =
    let dec := add_flags (opcode_flags buf p op) (set_d_segment_override (peek_segment_override buf p) (decoded_bytes buf)) in
    match early_form ctx buf p op dec with
    | Some dec => (dec, false)
    | None =>
        let dec := ff_branch_flag buf p op dec in
        match dispatch_ladder ctx buf p op with
        | Undefined => (add_flags DECODED_FLAG_UD dec, false)
        | Handler handler => (install_handler buf p op (Some handler) dec, true)
        | NoCandidate => (install_handler buf p op None dec, true)
        end
    end.
Proof.
  intros Hs Hv Hpk Hop. unfold decode_entry. rewrite Hv, Hpk. destruct (Z.leb_spec (size_of buf) 0); [lia |].
  by destruct (Z.eqb_spec op 0xFFFF).
Qed.

Lemma trap_map op reg rep rex_b : one_of op trap_opcodes = true -> opcode_map64 op reg rep rex_b = None.
Proof. intros E. apply one_of_in in E. cbn [trap_opcodes In] in E. repeat destruct E as [<- | E]; done. Qed.

Lemma jcc_map op reg rep rex_b : between 0x70 0x7F op = true -> opcode_map64 op reg rep rex_b = Some "execute_jcc".
Proof.
  intros Hb. assert (Hl : forallb (fun op => negb (between 0x70 0x7F op) ||
    (negb (is_string_opcode op) && negb (op =? 0x90) && negb (one_of op [0x06; 0x0E; 0x16; 0x1E; 0x07; 0x17; 0x1F; 0x9A; 0xEA; 0x8F; 0xC6; 0xC7]) &&
     match nth (Z.to_nat op) architecture_map Undef with Op name => String.eqb name "jcc" | _ => false end)) bytes256 = true)
    by (vm_compute; reflexivity).
  assert (Hin : In op bytes256) by (apply bytes256_in; unfold between in Hb; lia).
  rewrite forallb_forall in Hl. specialize (Hl op Hin). rewrite Hb in Hl. cbn [negb orb] in Hl. apply andb_true_iff in Hl as [Hl Hn].
  apply andb_true_iff in Hl as [Hl Hd]. apply andb_true_iff in Hl as [Hs H9]. apply negb_true_iff in Hs, H9, Hd.
  assert (departure op reg = None) as E.
  { unfold departure, one_of in *. cbn [existsb] in *. rewrite !orb_false_iff in Hd. by destruct Hd as (-> & -> & -> & -> & -> & -> & -> & -> & -> & -> & -> & -> & _). }
  unfold opcode_map64, architecture_handler. rewrite E, Hs, H9. cbn [andb].
  destruct (nth _ _ _); try done. apply String.eqb_eq in Hn as ->. done.
Qed.

(** C16: in 64-bit code the decoder implements the architecture's one-byte opcode map, but for the
    departures the statement names.  Behind any string of legacy and REX prefixes, every opcode
    outside the FPU opcodes the emulator decodes, the VEX and EVEX escapes and the near returns gets
    the handler of the instruction in the map: the row's, the group member the reg field chooses,
    the repeated form of a string instruction, NOP or PAUSE for 90 without REX.B; an opcode or group
    member the map leaves empty or the emulator does not implement ([not_implemented]: the port
    instructions, INT, HLT, CLI, STI, the other FPU opcodes), or whose ModRM byte is missing, is
    undefined or a trap and has no handler.  [departure] lists the rest: 06, 07, 0E, 16, 17, 1E, 1F,
    9A and EA, which the map leaves empty in 64-bit mode, get the handler of their 32-bit
    instruction, and 8F, C6 and C7 that of POP and MOV whatever their reg field; refusing them is
    left to those handlers.  Conditional short jumps without prefix have no
    handler: the executor runs them itself, with their condition. *)
Theorem one_byte_opcode_map ctx prefixes op rest
  (H64 : cpu_is_64bit_code ctx = true) (Hp : Forall (fun b => is_prefix_of_mode ctx b = true) prefixes)
  (Hop : 0 <= op < 256) (Hnp : is_prefix_of_mode ctx op = false)
  (Hesc : one_of op [0x0F; 0x62; 0xC4; 0xC5; 0x9B; 0xD9; 0xDB; 0xDD; 0xDF; 0xC2; 0xC3] = false) :
  let buf := (prefixes ++ op :: rest)%list in
  let p := size_of prefixes in
  let dec := result (cpu_decode_instruction buf) ctx in
  let reg := peek_modrm_reg_field buf p 1 in
  match match departure op reg with
        | Some name => Some name
        | None => architecture_handler op reg (peek_repeat_prefix buf p) (rex_b_of_prefixes ctx buf p)
        end with
  | Some name =>
      (d_handler dec = Some name /\ d_inline_kind dec = DECODED_INLINE_NONE /\ has_bits (d_flags dec) trap_mask = false) \/
      (0x70 <= op <= 0x7F /\ prefixes = [] /\ d_handler dec = None /\
       d_inline_kind dec = DECODED_INLINE_JCC_SHORT_LONGMODE /\ d_inline_jcc_cond dec = op - 0x70)
  | None => d_handler dec = None /\ d_inline_kind dec = DECODED_INLINE_NONE /\ has_bits (d_flags dec) trap_mask = true
  end.
Proof.
  intros buf p dec reg. fold (opcode_map64 op reg (peek_repeat_prefix buf p) (rex_b_of_prefixes ctx buf p)). unfold reg. clear reg. assert (Hesc1 : one_of op [0x0F; 0x62; 0xC4; 0xC5] = false /\ one_of op [0x9B; 0xD9; 0xDB; 0xDD; 0xDF; 0xC2; 0xC3] = false /\ one_of op [0xC2; 0xC3] = false).
  { unfold one_of in *. cbn [existsb] in *. destruct (op =? 0x0F), (op =? 0x62), (op =? 0xC4), (op =? 0xC5), (op =? 0x9B), (op =? 0xD9), (op =? 0xDB), (op =? 0xDD), (op =? 0xDF), (op =? 0xC2), (op =? 0xC3); done. }
  destruct Hesc1 as (He4 & Hx & Hret). clear Hesc.
  unfold dec, result. destruct (decode_spec buf ctx) as (dc & -> & Her & _). cbn [fst]. clear dec.
  apply erase_fast_same in Her as (-> & -> & -> & ->).
  pose proof (opcode_ladder ctx prefixes rest op H64 Hp Hop Hnp He4 Hx) as Hlad. fold buf p in Hlad.
  destruct (opcode_size prefixes rest op) as (Hsz & Hr0 & Hp0). fold buf p in Hsz.
  set (m := opcode_map64 _ _ _ _) in *. assert (Htm : one_of op trap_opcodes = true -> m = None) by apply trap_map.
  assert (Hjm : between 0x70 0x7F op = true -> m = Some "execute_jcc") by apply jcc_map. clearbody m.
  pose proof (opcode_vector_form ctx prefixes rest op H64 Hp He4 : vector_form buf = None) as Hv.
  pose proof (opcode_peek ctx prefixes rest op Hp Hnp He4 : peek_opcode ctx buf = (op, p)) as Hpk.
  rewrite (entry_of_opcode ctx buf op p) by (done || lia). cbv zeta.
  set (d0 := add_flags (opcode_flags buf p op) _).
  assert (Hd0 : d_handler d0 = None /\ d_inline_kind d0 = DECODED_INLINE_NONE /\ has_bits (d_flags d0) trap_mask = false).
  { unfold d0. cbn [d_flags add_flags set_d_flags set_d_segment_override]. rewrite has_bits_lor, opcode_flags_clean by auto. done. }
  clearbody d0. destruct Hd0 as (Hh0 & Hk0 & Ht0).
  destruct (early_form_cases ctx buf p op d0 Hop Hret) as [(Ht & mk & -> & Hmk) | [(Hb & Hp00 & Hs2 & d' & -> & Hk & Hcond & Hh) | (Ht & ->)]]; cbn [fst].
  - rewrite (Htm Ht). cbn [d_flags d_handler d_inline_kind add_flags set_d_flags]. rewrite has_bits_lor, Hmk, orb_true_r. done.
  - rewrite (Hjm Hb). right. unfold between in Hb. split_and!; [lia | lia | | congruence | done | done].
    unfold p, size_of in Hp00. destruct prefixes; [done | cbn [List.length] in Hp00; lia].
  - set (d1 := ff_branch_flag buf p op d0).
    assert (Hd1 : d_handler d1 = None /\ d_inline_kind d1 = DECODED_INLINE_NONE /\ has_bits (d_flags d1) trap_mask = false).
    { unfold d1. destruct (ff_branch_flag_parts buf p op d0) as (-> & -> & ->). done. }
    clearbody d1. destruct Hd1 as (Hh1 & Hk1 & Ht1). destruct (dispatch_ladder ctx buf p op) as [name | |]; [| | done]; cbn [fst].
    + destruct m as [m |]; [| done]. apply String.eqb_eq in Hlad as <-. left.
      destruct (install_handler_parts buf p op (Some name) d1) as (-> & -> & ->). done.
    + destruct m as [m |]; [discriminate Hlad |]. cbn [fst d_flags d_handler d_inline_kind add_flags set_d_flags]. rewrite has_bits_lor, Ht1. done.
Qed.

End map_theorem.

Section endbr.
Context `{ProbesFramed}.

(** Outside 64-bit code an INC or DEC of a register directly before an ENDBR is lost.  The test
    for ENDBR skips REX bytes in every mode, so the bytes 40 to 4F, which are INC and DEC there,
    count as prefixes of the ENDBR behind them: the entry at the INC's address has the handler
    of ENDBR instead of the handler of INC or DEC. *)
Theorem inc_before_endbr_is_lost ctx op last rest
  (H32 : cpu_is_64bit_code ctx = false) (Hop : 0x40 <= op <= 0x4F) (Hlast : last = 0xFA \/ last = 0xFB) :
  d_handler (result (cpu_decode_instruction (op :: 0xF3 :: 0x0F :: 0x1E :: last :: rest)) ctx) = Some "execute_endbr" /\
  resolved (one_byte_ladder ctx (op :: 0xF3 :: 0x0F :: 0x1E :: last :: rest) 0 op) =
    Some (if op <=? 0x47 then "execute_inc" else "execute_dec").
Proof.
  set (buf := op :: 0xF3 :: 0x0F :: 0x1E :: last :: rest).
  assert (Hsz : 5 <= size_of buf) by (unfold buf, size_of; cbn [List.length]; lia).
  assert (Hin : In op [0x40; 0x41; 0x42; 0x43; 0x44; 0x45; 0x46; 0x47; 0x48; 0x49; 0x4A; 0x4B; 0x4C; 0x4D; 0x4E; 0x4F]) by (cbn [In]; lia).
  assert (Hnp : is_prefix_of_mode ctx op = false).
  { unfold is_prefix_of_mode, cpu_allows_rex_prefix. rewrite H32. cbn [andb]. cbn [In] in Hin. repeat destruct Hin as [<- | Hin]; done. }
  assert (Hpk : peek_opcode ctx buf = (op, 0)).
  { unfold peek_opcode, buf. cbn [prefix_run]. rewrite Hnp. fold buf. cbv zeta. destruct (Z.leb_spec (size_of buf) 0); [lia |].
    change (byte_at buf 0) with op. cbn [In] in Hin. repeat destruct Hin as [<- | Hin]; done. }
  assert (Hv : vector_form buf = None).
  { unfold vector_form. change (byte_at buf 0) with op. cbn [In] in Hin. repeat destruct Hin as [<- | Hin]; done. }
  assert (Hown : own_prefix_len buf = 2).
  { unfold own_prefix_len, buf. cbn [prefix_run].
    assert (Hany : is_any_prefix_byte op = true) by (cbn [In] in Hin; repeat destruct Hin as [<- | Hin]; done). rewrite Hany. done. }
  assert (Hendbr : is_endbr_instruction buf = true).
  { unfold is_endbr_instruction, probe_endbr_instruction, opcode_at. rewrite Hown.
    assert (Hl0 : any_prefix (fun b => b =? 0xF0) buf 2 = false) by (cbn [In] in Hin; repeat destruct Hin as [<- | Hin]; done).
    assert (Hf3 : any_prefix (fun b => b =? 0xF3) buf 2 = true) by (cbn [In] in Hin; repeat destruct Hin as [<- | Hin]; done).
    rewrite Hl0, Hf3. destruct (Z.leb_spec (2 + 3) (size_of buf)), (Z.ltb_spec (2 + 1) (size_of buf)); try lia.
    by destruct Hlast as [-> | ->]. }
  assert (Hop8 : u8 op = op) by (cbn [In] in Hin; repeat destruct Hin as [<- | Hin]; done).
  split.
  - unfold result. destruct (decode_spec buf ctx) as (dc & -> & Her & _). cbn [fst]. apply erase_fast_same in Her as (-> & _).
    rewrite (entry_of_opcode ctx buf op 0) by (done || lia). cbv zeta. set (d0 := add_flags (opcode_flags buf 0 op) _).
    destruct (early_form_cases ctx buf 0 op d0 ltac:(lia)) as [(Ht & _) | [(Hb & _) | (_ & ->)]].
    + cbn [In] in Hin. repeat destruct Hin as [<- | Hin]; done.
    + cbn [In] in Hin. repeat destruct Hin as [<- | Hin]; done.
    + unfold between in Hb. lia.
    + clearbody d0. assert (Hlad : dispatch_ladder ctx buf 0 op = Handler "execute_endbr").
      { unfold dispatch_ladder. rewrite vector_ladder_one_byte by lia.
        assert (Hret : one_of op [0xCB; 0xCA] = false) by (cbn [In] in Hin; repeat destruct Hin as [<- | Hin]; done). rewrite Hret.
        destruct (Z.eqb_spec op 0x00CF); [lia |].
        unfold misc_ladder, cpu_decoder_classify_xgetbv_rdtscp, cpu_decoder_resolve_two_byte_misc. assert (Ho : op < 256) by lia.
        two_byte_false Ho. cbn [negb orb]. by rewrite Hendbr. }
      rewrite Hlad. cbn [fst]. exact (proj1 (install_handler_parts buf 0 op (Some "execute_endbr") (ff_branch_flag buf 0 op d0))).
  - assert (Hreg : forall l, group_field buf 0 op l = if one_of op l then peek_modrm_reg_field buf 0 1 else 0xFF) by (intros; unfold group_field; by rewrite Hop8).
    unfold one_byte_ladder, group_ladder, cpu_decoder_resolve_x87. cbv zeta. rewrite Hop8, H32. clearbody buf.
    destruct (size_of buf =? 0); cbn [In] in Hin; repeat destruct Hin as [<- | Hin]; done.
Qed.

End endbr.

Module DecoderExample.

(** The decoders of the arithmetic and logic group, and none for the other handlers. *)
Definition no_decoder : ST CPU_CONTEXT DecodedInstruction := st_modify raise_ud_ctx ;;; st_ret zero_inst.
#[export] Instance alu_probes : ProbeDecoders := {
  probe_decode name code :=
    if String.eqb name "decode_add_instruction" then decode_add_instruction code
    else if String.eqb name "decode_or_instruction" then decode_or_instruction code
    else if String.eqb name "decode_adc_instruction" then decode_adc_instruction code
    else if String.eqb name "decode_sbb_instruction" then decode_sbb_instruction code
    else if String.eqb name "decode_and_instruction" then decode_and_instruction code
    else if String.eqb name "decode_sub_instruction" then decode_sub_instruction code
    else if String.eqb name "decode_xor_instruction" then decode_xor_instruction code
    else if String.eqb name "decode_cmp_instruction" then decode_cmp_instruction code
    else no_decoder;
}.

#[export] Instance alu_probes_framed : ProbesFramed.
Proof.
  intros name code. unfold probe_decode, alu_probes, no_decoder, decode_add_instruction, decode_or_instruction, decode_adc_instruction,
    decode_sbb_instruction, decode_and_instruction, decode_sub_instruction, decode_xor_instruction, decode_cmp_instruction.
  repeat match goal with |- framed (if _ then _ else _) => apply framed_if; [apply framed_alu_instruction |] end. framed_steps.
Qed.

Definition ctx64 : CPU_CONTEXT := init_cpu_context false.
Definition ctx32 : CPU_CONTEXT := init_cpu_context true.

(** [lock add dword [rax], 5]: the entry does not depend on RAX, its fast form does. *)
Lemma decoding_depends_on_bytes_and_mode_witness :
  let code := [0xF0; 0x83; 0x00; 0x05] in
  let far := set_c_regs (arr_set (c_regs ctx64) 0 (2 ^ 63)) ctx64 in
  erase_fast (result (cpu_decode_instruction code) ctx64) = erase_fast (result (cpu_decode_instruction code) far) /\
  d_fast_handler (result (cpu_decode_instruction code) ctx64) = Some "execute_add_fast" /\
  d_fast_handler (result (cpu_decode_instruction code) far) = None.
Proof.
  intros code far. split; [| split; vm_compute; reflexivity].
  assert (Ka : mode_key_ok ctx64) by (intros E; discriminate E). assert (Kb : mode_key_ok far) by (intros E; discriminate E).
  assert (Hk : result cpu_inst_cache_mode_key ctx64 = result cpu_inst_cache_mode_key far) by (vm_compute; reflexivity).
  exact (proj2 (decoding_depends_on_bytes_and_mode code ctx64 far Ka Kb Hk)).
Defined.

Lemma decoded_entries_are_well_formed_witness :
  decoded_wf (result (cpu_decode_instruction [0x01; 0xC8]) ctx64) /\ d_length (result (cpu_decode_instruction [0x01; 0xC8]) ctx64) = 2.
Proof.
  split; [| vm_compute; reflexivity].
  assert (Hs : size_of [0x01; 0xC8] <= DECODED_INST_MAX_BYTES) by zcompute.
  assert (Hc : cache_decoded_wf (∅ : InstCache)) by (intros i; rewrite slot_at_empty; by split).
  exact (proj1 (decoded_entries_are_well_formed [0x01; 0xC8] ctx64 RegionSplit.zero_manager 0x1000 3 ∅ Hs Hc)).
Defined.

(** [rex.w sub rcx, imm8]; [jne] without prefix; an opcode the map leaves empty. *)
Lemma one_byte_opcode_map_witness :
  d_handler (result (cpu_decode_instruction [0x48; 0x83; 0xE9; 0x10]) ctx64) = Some "execute_sub" /\
  d_inline_jcc_cond (result (cpu_decode_instruction [0x75; 0x10]) ctx64) = 5 /\
  d_handler (result (cpu_decode_instruction [0x48; 0x83; 0xE9; 0x10]) ctx64) =
    opcode_map64 0x83 5 0 false.
Proof.
  assert (H64 : cpu_is_64bit_code ctx64 = true) by (vm_compute; reflexivity).
  assert (Hp : Forall (fun b => is_prefix_of_mode ctx64 b = true) [0x48]) by (apply Forall_cons; split; [vm_compute; reflexivity | by apply Forall_nil]).
  assert (Hop : 0 <= 0x83 < 256) by lia. assert (Hnp : is_prefix_of_mode ctx64 0x83 = false) by (vm_compute; reflexivity).
  assert (Hesc : one_of 0x83 [0x0F; 0x62; 0xC4; 0xC5; 0x9B; 0xD9; 0xDB; 0xDD; 0xDF; 0xC2; 0xC3] = false) by (vm_compute; reflexivity).
  assert (H := one_byte_opcode_map ctx64 [0x48] 0x83 [0xE9; 0x10] H64 Hp Hop Hnp Hesc). cbv zeta in H.
  assert (opcode_map64 0x83 (peek_modrm_reg_field ([0x48] ++ 0x83 :: [0xE9; 0x10])%list (size_of [0x48]) 1)
    (peek_repeat_prefix ([0x48] ++ 0x83 :: [0xE9; 0x10])%list (size_of [0x48])) (rex_b_of_prefixes ctx64 ([0x48] ++ 0x83 :: [0xE9; 0x10])%list (size_of [0x48])) =
    Some "execute_sub") as E by (vm_compute; reflexivity).
  unfold opcode_map64 in E. rewrite E in H. destruct H as [(H & _) | (Hno & _)]; [| lia].
  split; [exact H |]. split; [vm_compute; reflexivity | exact H].
Defined.

(** [inc eax] before [endbr32]. *)
Lemma inc_before_endbr_is_lost_witness :
  d_handler (result (cpu_decode_instruction [0x40; 0xF3; 0x0F; 0x1E; 0xFB]) ctx32) = Some "execute_endbr".
Proof.
  assert (H32 : cpu_is_64bit_code ctx32 = false) by (vm_compute; reflexivity). assert (Hop : 0x40 <= 0x40 <= 0x4F) by lia.
  exact (proj1 (inc_before_endbr_is_lost ctx32 0x40 0xFB [] H32 Hop (or_intror eq_refl))).
Defined.

End DecoderExample.
