(* ===== verification/AluDecode.v ===== *)
(** * Decoding and replaying the arithmetic and logic group

    The decoder of the group, cut into the part that depends on the bytes and the mode and the part
    that reads registers: a pure parser [alu_parse] and the effective address.  The theorems: when
    decoding raises nothing it is the parser's result with the address of the current registers;
    so a fast form replaying an entry that was probed under other register values does exactly
    what decoding the bytes again would do. *)

From Stdlib Require Import ZArith Bool List Lia String.
From stdpp Require Import base tactics list.
From S2P Require Import Prelude CpuDef HostMemory InstCache Machine CpuMemory Registers DispatchHelpers Stack Alu Executor Decoder.

Local Open Scope Z_scope.

(** ** The pure parser *)

Definition no_exception (ctx : CPU_CONTEXT) : Prop := cpu_has_exception ctx = false.

(** A context with these prefix bits. *)
Definition stamp (p : DecodedPrefixState) (ctx : CPU_CONTEXT) : CPU_CONTEXT :=
  decoded_inst_apply_prefix (set_d_prefix p decoded_inst_clear) ctx.

Fixpoint alu_prefixes (f : AluFamily) (code : list Z) (offset : Z) (lock : bool) (p : DecodedPrefixState) : DecodedPrefixState * Z * bool :=
  match code with
  | [] => (p, offset, lock)
  | b :: code =>
      if b =? 0x66 then alu_prefixes f code (offset + 1) lock
        (mkPrefix (pre_rex_present p) (pre_rex_w p) (pre_rex_r p) (pre_rex_x p) (pre_rex_b p) true (pre_address_size_override p))
      else if b =? 0x67 then alu_prefixes f code (offset + 1) lock
        (mkPrefix (pre_rex_present p) (pre_rex_w p) (pre_rex_r p) (pre_rex_x p) (pre_rex_b p) (pre_operand_size_override p) true)
      else if is_rex_byte b then alu_prefixes f code (offset + 1) lock
        (mkPrefix true (Z.testbit b 3) (Z.testbit b 2) (Z.testbit b 1) (Z.testbit b 0) (pre_operand_size_override p) (pre_address_size_override p))
      else if b =? 0xF0 then alu_prefixes f code (offset + 1) (lock || negb (af_lock_is_ud f)) p
      else if is_segment_prefix b || (b =? 0xF2) || (b =? 0xF3) then alu_prefixes f code (offset + 1) lock p
      else (p, offset, lock)
  end.

(** After the ModRM byte. *)
Definition sib_disp_parse (code : list Z) (inst : DecodedInstruction) (offset : Z) : option (DecodedInstruction * Z) :=
  let mod_ := modrm_mod (i_modrm inst) in
  let rm := modrm_rm (i_modrm inst) in
  let wants_sib := negb (mod_ =? 3) && (rm =? 4) && negb (i_address_size inst =? 16) in
  if wants_sib && (size_of code <=? offset) then None
  else
    let '(inst, offset) :=
      if wants_sib then (set_i_sib (byte_at code offset) (set_i_has_sib true inst), offset + 1) else (inst, offset) in
    let disp_size := disp_size_of inst mod_ rm in
    let inst := set_i_disp_size disp_size inst in
    if (0 <? disp_size) && (size_of code <? offset + disp_size) then None
    else
      Some (if 0 <? disp_size then (set_i_displacement (displacement_value code offset disp_size) inst, offset + disp_size)
            else (inst, offset)).

Definition modrm_parse (code : list Z) (inst : DecodedInstruction) (offset : Z) : option (DecodedInstruction * Z) :=
  if size_of code <=? offset then None
  else sib_disp_parse code (set_i_modrm (byte_at code offset) (set_i_has_modrm true inst)) (offset + 1).

Definition immediate_parse (code : list Z) (inst : DecodedInstruction) (offset imm_size : Z) : option (DecodedInstruction * Z) :=
  if size_of code <? offset + imm_size then None
  else Some (set_i_immediate (field_value code offset imm_size) (set_i_imm_size imm_size inst), offset + imm_size).

Definition operands_parse (f : AluFamily) (code : list Z) (inst : DecodedInstruction) (offset wide : Z) : option (DecodedInstruction * Z) :=
  let opcode := i_opcode inst in
  let base := af_base f in
  let byte_form := set_i_operand_size 8 inst in
  let group inst imm_size :=
    match modrm_parse code inst offset with
    | Some (inst, offset) => immediate_parse code inst offset imm_size
    | None => None
    end in
  if opcode =? base + 4 then immediate_parse code byte_form offset 1
  else if opcode =? base + 5 then immediate_parse code inst offset wide
  else if opcode =? 0x80 then group byte_form 1
  else if opcode =? 0x81 then group inst wide
  else if opcode =? 0x83 then group inst 1
  else if opcode =? base then modrm_parse code byte_form offset
  else if opcode =? base + 1 then modrm_parse code inst offset
  else if opcode =? base + 2 then modrm_parse code byte_form offset
  else if opcode =? base + 3 then modrm_parse code inst offset
  else None.

(** The instruction without its address, the prefix bits and the length. *)
Definition alu_parse (f : AluFamily) (code : list Z) (long_mode : bool) : option (DecodedInstruction * DecodedPrefixState * Z) :=
  let '(p, offset, lock) := alu_prefixes f code 0 false zero_prefix in
  if size_of code <=? offset then None
  else
    let operand_size := if pre_rex_w p then 64 else if pre_operand_size_override p then 16 else 32 in
    let address_size :=
      if long_mode then (if pre_address_size_override p then 32 else 64) else if pre_address_size_override p then 16 else 32 in
    let inst := set_i_address_size address_size (set_i_operand_size operand_size (set_i_opcode (byte_at code offset) zero_inst)) in
    let inst := if af_keeps_lock f then set_i_has_lock_prefix lock inst else inst in
    match operands_parse f code inst (offset + 1) (if pre_rex_w p then 4 else if pre_operand_size_override p then 2 else 4) with
    | Some (inst, offset) => Some (inst, p, offset)
    | None => None
    end.

(** The address of a memory operand in a context. *)
Definition address_in (inst : DecodedInstruction) (length : Z) (ctx : CPU_CONTEXT) : Z * CPU_CONTEXT :=
  get_effective_address (i_modrm inst) (i_sib inst) (i_displacement inst) (i_address_size inst) length ctx.

Definition with_address (inst : DecodedInstruction) (length : Z) (ctx : CPU_CONTEXT) : DecodedInstruction :=
  if decoded_inst_needs_mem_recompute inst then set_i_mem_address (fst (address_in inst length ctx)) inst else inst.

(** ** Raising is forever *)

(** The address of a memory operand raises nothing. *)
Definition address_ok (inst : DecodedInstruction) (length : Z) (ctx : CPU_CONTEXT) : Prop :=
  decoded_inst_needs_mem_recompute inst = true -> no_exception (snd (address_in inst length ctx)).

Definition sticky {A} (c : ST CPU_CONTEXT A) : Prop := forall ctx, no_exception (snd (c ctx)) -> no_exception ctx.

Lemma sticky_ret {A} (a : A) : sticky (st_ret a).
Proof. by intros ctx. Qed.
Lemma sticky_gets {A} (f : CPU_CONTEXT -> A) : sticky (st_gets f).
Proof. by intros ctx. Qed.
Lemma sticky_get : sticky st_get.
Proof. by intros ctx. Qed.
Lemma sticky_bind {A B} (c : ST CPU_CONTEXT A) (k : A -> ST CPU_CONTEXT B) : sticky c -> (forall a, sticky (k a)) -> sticky (st_bind c k).
Proof. intros Hc Hk ctx. unfold st_bind. specialize (Hc ctx). destruct (c ctx) as [a ctx']. cbn [snd] in Hc. intros Hn. by apply Hc, (Hk a ctx'). Qed.

(** What a clean run of a bind is. *)
Lemma clean_bind {A B} (c : ST CPU_CONTEXT A) (k : A -> ST CPU_CONTEXT B) ctx :
  (forall a, sticky (k a)) -> no_exception (snd (st_bind c k ctx)) -> no_exception (snd (c ctx)).
Proof. intros Hk. unfold st_bind. destruct (c ctx) as [a ctx']. intros Hn. by apply (Hk a ctx'). Qed.

Lemma raise_not_clean code ec ctx : code <> CPU_EXCEPTION_NONE -> ~ no_exception (cpu_raise_exception code ec ctx).
Proof.
  intros Hc. unfold no_exception, cpu_raise_exception. destruct (cpu_has_exception ctx) eqn:E; [congruence |].
  unfold cpu_has_exception. cbn. by apply Z.eqb_neq in Hc as ->.
Qed.
Lemma ud_not_clean ctx : ~ no_exception (raise_ud_ctx ctx).
Proof. by apply raise_not_clean. Qed.
Lemma gp_not_clean ec ctx : ~ no_exception (raise_gp_ctx ec ctx).
Proof. by apply raise_not_clean. Qed.

(** A modification that raises, and one that does not touch the exception. *)
Lemma sticky_raise f : (forall ctx, ~ no_exception (f ctx)) -> sticky (st_modify f).
Proof. intros Hf ctx Hn. by apply Hf in Hn. Qed.
Lemma sticky_keep f : (forall ctx, c_exception (f ctx) = c_exception ctx) -> sticky (st_modify f).
Proof. intros Hf ctx. unfold no_exception, cpu_has_exception. cbn [snd st_modify]. by rewrite Hf. Qed.

Lemma sticky_if {A} (b : bool) (c1 c2 : ST CPU_CONTEXT A) : sticky c1 -> sticky c2 -> sticky (if b then c1 else c2).
Proof. by destruct b. Qed.

(** The address is read from the context, which changes only by raising. *)
Lemma address_clean modrm sib disp size len ctx :
  no_exception (snd (get_effective_address modrm sib disp size len ctx)) -> snd (get_effective_address modrm sib disp size len ctx) = ctx.
Proof.
  unfold get_effective_address. destruct (modrm_mod modrm =? 3); [done |]. cbn [snd].
  unfold cpu_validate_linear_address, cpu_raise_noncanonical_address. repeat case_match; cbn [snd]; try done; intros Hn; by apply raise_not_clean in Hn.
Qed.

Lemma sticky_address modrm sib disp size len : sticky (get_effective_address modrm sib disp size len).
Proof. intros ctx Hn. by rewrite address_clean in Hn. Qed.

Lemma sticky_finalize len inst : sticky (finalize_rip_relative_address len inst).
Proof.
  intros ctx. unfold finalize_rip_relative_address. cbv zeta.
  pose proof (sticky_address (i_modrm inst) (i_sib inst) (i_displacement inst) (i_address_size inst) len ctx) as Ha.
  destruct (get_effective_address _ _ _ _ _ ctx). cbn [snd] in Ha. by repeat case_match.
Qed.

Create HintDb sticky discriminated.
#[export] Hint Constants Opaque : sticky.
#[export] Hint Resolve sticky_ret sticky_gets sticky_get sticky_address sticky_finalize : sticky.

Ltac sticky_steps :=
  repeat match goal with
  | |- sticky (st_bind _ _) => apply sticky_bind; [| intros]
  | |- sticky (st_modify raise_ud_ctx) => apply sticky_raise; intros; apply ud_not_clean
  | |- sticky (st_modify (raise_gp_ctx _)) => apply sticky_raise; intros; apply gp_not_clean
  | |- sticky (st_modify _) => apply sticky_keep; reflexivity
  | |- sticky (if _ then _ else _) => apply sticky_if
  | |- sticky (match ?x with _ => _ end) => destruct x
  | |- sticky (let x := ?v in @?b x) => change (sticky (b v)); generalize v; intros; cbv beta
  | |- _ => solve [auto with sticky]
  end.

Lemma sticky_sib_disp code inst offset : sticky (decode_sib_disp code inst offset).
Proof. unfold decode_sib_disp. sticky_steps. Qed.
#[export] Hint Resolve sticky_sib_disp : sticky.
Lemma sticky_modrm f code inst offset lock : sticky (decode_modrm_alu f code inst offset lock).
Proof. unfold decode_modrm_alu. sticky_steps. Qed.
Lemma sticky_prefixes f code : forall offset lock, sticky (alu_prefix_loop f code offset lock).
Proof. induction code as [| b code IH]; intros; cbn [alu_prefix_loop]; sticky_steps; apply IH. Qed.
Lemma sticky_immediate code inst offset n : sticky (decode_alu_immediate code inst offset n).
Proof. unfold decode_alu_immediate. sticky_steps. Qed.
Lemma sticky_ud_if b : sticky (ud_if b).
Proof. unfold ud_if. sticky_steps. Qed.
#[export] Hint Resolve sticky_modrm sticky_prefixes sticky_immediate sticky_ud_if : sticky.
Lemma sticky_operands f code inst offset lock : sticky (decode_alu_operands f code inst offset lock).
Proof. unfold decode_alu_operands. sticky_steps. Qed.
#[export] Hint Resolve sticky_operands : sticky.

(** ** A clean run is the parser's *)

Lemma clean_if_raise {A} (b : bool) f (k : ST CPU_CONTEXT A) ctx :
  (forall ctx, ~ no_exception (f ctx)) -> (forall ctx, no_exception (snd (k ctx)) -> no_exception ctx) ->
  no_exception (snd (st_bind (if b then st_modify f else st_ret tt) (fun _ => k) ctx)) ->
  b = false /\ st_bind (if b then st_modify f else st_ret tt) (fun _ => k) ctx = k ctx.
Proof.
  intros Hf Hk. unfold st_bind, st_modify, st_ret. destruct b; [| done]. cbn. intros Hn. by apply Hk, Hf in Hn.
Qed.

Lemma stamp_operand_size p ctx :
  set_c_operand_size_override true (stamp p ctx) =
  stamp (mkPrefix (pre_rex_present p) (pre_rex_w p) (pre_rex_r p) (pre_rex_x p) (pre_rex_b p) true (pre_address_size_override p)) ctx.
Proof. by destruct ctx, p; vm_compute. Qed.
Lemma stamp_address_size p ctx :
  set_c_address_size_override true (stamp p ctx) =
  stamp (mkPrefix (pre_rex_present p) (pre_rex_w p) (pre_rex_r p) (pre_rex_x p) (pre_rex_b p) (pre_operand_size_override p) true) ctx.
Proof. by destruct ctx, p; vm_compute. Qed.
Lemma stamp_rex b p ctx :
  set_rex b (stamp p ctx) =
  stamp (mkPrefix true (Z.testbit b 3) (Z.testbit b 2) (Z.testbit b 1) (Z.testbit b 0) (pre_operand_size_override p) (pre_address_size_override p)) ctx.
Proof. by destruct ctx, p; vm_compute. Qed.
Lemma stamp_reset ctx : cpu_reset_prefix_state ctx = stamp zero_prefix ctx.
Proof. by destruct ctx; vm_compute. Qed.

Lemma prefixes_clean f code : forall offset lock p ctx,
  no_exception (snd (alu_prefix_loop f code offset lock (stamp p ctx))) ->
  let '(p', offset', lock') := alu_prefixes f code offset lock p in
  alu_prefix_loop f code offset lock (stamp p ctx) = ((offset', lock'), stamp p' ctx).
Proof.
  induction code as [| b code IH]; intros offset lock p ctx; cbn [alu_prefix_loop alu_prefixes]; [done |].
  destruct (b =? 0x66). { unfold st_bind at 1 2. cbn [st_modify]. unfold st_modify. rewrite stamp_operand_size. apply IH. }
  destruct (b =? 0x67). { unfold st_bind at 1 2. cbn [st_modify]. unfold st_modify. rewrite stamp_address_size. apply IH. }
  destruct (is_rex_byte b). { unfold st_bind at 1 2. cbn [st_modify]. unfold st_modify. rewrite stamp_rex. apply IH. }
  destruct (b =? 0xF0).
  { intros Hn. apply clean_if_raise in Hn as Hc; [| apply ud_not_clean | apply sticky_prefixes]. destruct Hc as [_ Hc]. rewrite Hc in Hn |- *. by apply IH. }
  destruct (_ || _); [apply IH | done].
Qed.

(** The decoded instruction and its address. *)
Lemma with_address_none inst len ctx : i_has_modrm inst = false -> with_address inst len ctx = inst.
Proof. unfold with_address, decoded_inst_needs_mem_recompute. by intros ->. Qed.

Lemma needs_address inst : i_has_modrm inst = true -> decoded_inst_needs_mem_recompute inst = negb (modrm_mod (i_modrm inst) =? 3).
Proof. unfold decoded_inst_needs_mem_recompute. by intros ->. Qed.

Lemma sib_disp_clean code inst offset ctx :
  i_has_modrm inst = true -> no_exception (snd (decode_sib_disp code inst offset ctx)) ->
  exists inst1 offset1, sib_disp_parse code inst offset = Some (inst1, offset1) /\
    decode_sib_disp code inst offset ctx = ((with_address inst1 0 ctx, offset1, true), ctx) /\
    i_has_modrm inst1 = true /\ address_ok inst1 0 ctx.
Proof.
  intros Hm. unfold decode_sib_disp, sib_disp_parse. cbv zeta.
  set (wants := negb (modrm_mod (i_modrm inst) =? 3) && _ && _).
  destruct (wants && (size_of code <=? offset)); [intros Hn; by apply gp_not_clean in Hn |].
  set (io := if wants then _ else _). assert (Hio : i_has_modrm (fst io) = true /\ i_modrm (fst io) = i_modrm inst) by (unfold io; by destruct wants).
  clearbody io. destruct io as [inst1 offset1]. cbn [fst] in Hio. destruct Hio as [Hm1 Hmod1].
  set (dsz := disp_size_of inst1 _ _). clearbody dsz.
  destruct ((0 <? dsz) && (size_of code <? offset1 + dsz)); [intros Hn; by apply gp_not_clean in Hn |].
  set (io2 := if 0 <? dsz then _ else _).
  assert (Hio2 : i_has_modrm (fst io2) = true /\ i_modrm (fst io2) = i_modrm inst) by (unfold io2; by destruct (0 <? dsz)).
  clearbody io2. destruct io2 as [inst2 offset2]. cbn [fst] in Hio2. destruct Hio2 as [Hm2 Hmod2]. rewrite <- Hmod2.
  intros Hn. exists inst2, offset2. split; [done |]. unfold with_address, address_ok. rewrite needs_address by done.
  destruct (negb (modrm_mod (i_modrm inst2) =? 3)); [| done]. unfold st_bind in Hn |- *. unfold address_in.
  pose proof (address_clean (i_modrm inst2) (i_sib inst2) (i_displacement inst2) (i_address_size inst2) 0 ctx) as Ha.
  destruct (get_effective_address _ _ _ _ _ ctx) as [address ctx']. cbn [snd fst st_ret] in Ha, Hn |- *. pose proof (Ha Hn) as ->. done.
Qed.

Lemma modrm_clean f code inst offset lock ctx :
  no_exception (snd (decode_modrm_alu f code inst offset lock ctx)) ->
  exists inst1 offset1, modrm_parse code inst offset = Some (inst1, offset1) /\
    decode_modrm_alu f code inst offset lock ctx = ((with_address inst1 0 ctx, offset1), ctx) /\ i_has_modrm inst1 = true /\ address_ok inst1 0 ctx.
Proof.
  unfold decode_modrm_alu, modrm_parse. destruct (size_of code <=? offset); [intros Hn; by apply gp_not_clean in Hn |]. cbv zeta.
  set (inst0 := set_i_modrm _ _). intros Hn. apply clean_bind in Hn as Hc; [| intros; sticky_steps].
  destruct (sib_disp_clean code inst0 (offset + 1) ctx eq_refl Hc) as (inst1 & offset1 & Hp & Hd & Hm1 & Hok).
  exists inst1, offset1. split; [done |]. split; [| done]. revert Hn. unfold st_bind at 1 3. rewrite Hd. intros Hn.
  apply clean_if_raise in Hn as [_ Hn']; [| apply ud_not_clean | done]. exact Hn'.
Qed.

Lemma with_address_immediate inst n v ctx :
  set_i_immediate v (set_i_imm_size n (with_address inst 0 ctx)) = with_address (set_i_immediate v (set_i_imm_size n inst)) 0 ctx.
Proof. unfold with_address, decoded_inst_needs_mem_recompute. cbn [i_has_modrm i_modrm set_i_immediate set_i_imm_size]. by destruct (_ && _). Qed.

Lemma immediate_clean code inst offset n ctx ctx0 :
  address_ok inst 0 ctx0 -> no_exception (snd (decode_alu_immediate code (with_address inst 0 ctx0) offset n ctx)) ->
  exists inst1 offset1, immediate_parse code inst offset n = Some (inst1, offset1) /\
    decode_alu_immediate code (with_address inst 0 ctx0) offset n ctx = ((with_address inst1 0 ctx0, offset1, true), ctx) /\
    address_ok inst1 0 ctx0.
Proof.
  intros Hok. unfold decode_alu_immediate, immediate_parse. cbv zeta. destruct (size_of code <? offset + n); [intros Hn; by apply gp_not_clean in Hn |].
  intros _. eexists _, _. split; [done |]. rewrite with_address_immediate. split; [done |].
  exact Hok.
Qed.

Section operands.
Variables (f : AluFamily) (code : list Z) (ctx : CPU_CONTEXT).

(** A clean operand decoding: the parsed instruction with its address, the context untouched. *)
Definition parsed_as (c : ST CPU_CONTEXT (DecodedInstruction * Z * bool)) (parse : option (DecodedInstruction * Z)) : Prop :=
  no_exception (snd (c ctx)) ->
  exists inst offset, parse = Some (inst, offset) /\ c ctx = ((with_address inst 0 ctx, offset, true), ctx) /\ address_ok inst 0 ctx.

Lemma parsed_ud (b : bool) c parse : sticky c -> parsed_as c parse -> parsed_as (ud_if b ;;; c) parse.
Proof.
  intros Hs Hc Hn. unfold ud_if in Hn |- *. apply clean_if_raise in Hn as H'; [| apply ud_not_clean | exact Hs].
  destruct H' as [_ E]. rewrite E in Hn |- *. by apply Hc.
Qed.

Lemma parsed_immediate inst offset n : i_has_modrm inst = false -> parsed_as (decode_alu_immediate code inst offset n) (immediate_parse code inst offset n).
Proof.
  intros Hm Hn. pose proof (with_address_none inst 0 ctx Hm) as E.
  assert (Hok : address_ok inst 0 ctx) by (unfold address_ok, decoded_inst_needs_mem_recompute; by rewrite Hm).
  destruct (immediate_clean code inst offset n ctx ctx Hok) as (i & o & Hp & Hd & Hi); [by rewrite E |]. rewrite E in Hd. by exists i, o.
Qed.

Lemma parsed_modrm inst offset lock :
  parsed_as (let* (inst, offset) := decode_modrm_alu f code inst offset lock in st_ret (inst, offset, true)) (modrm_parse code inst offset).
Proof.
  intros Hn. apply clean_bind in Hn as Hc; [| intros [? ?]; sticky_steps].
  destruct (modrm_clean f code inst offset lock ctx Hc) as (i & o & Hp & Hd & _ & Hok). exists i, o. split; [done |]. unfold st_bind. by rewrite Hd.
Qed.

Lemma parsed_group inst offset lock n :
  parsed_as (let* (inst, offset) := decode_modrm_alu f code inst offset lock in
             ud_if (negb (Z.land (Z.shiftr (i_modrm inst) 3) 0x07 =? af_group f)) ;;; decode_alu_immediate code inst offset n)
    (match modrm_parse code inst offset with Some (inst, offset) => immediate_parse code inst offset n | None => None end).
Proof.
  intros Hn. apply clean_bind in Hn as Hc; [| intros [? ?]; sticky_steps].
  destruct (modrm_clean f code inst offset lock ctx Hc) as (i & o & Hp & Hd & _ & Hok). rewrite Hp. revert Hn. unfold st_bind at 1 3. rewrite Hd. intros Hn.
  unfold ud_if in Hn |- *. apply clean_if_raise in Hn as H'; [| apply ud_not_clean | apply sticky_immediate]. destruct H' as [_ E]. rewrite E in Hn |- *.
  by apply immediate_clean.
Qed.

Lemma parsed_if (b : bool) c1 c2 p1 p2 : parsed_as c1 p1 -> parsed_as c2 p2 -> parsed_as (if b then c1 else c2) (if b then p1 else p2).
Proof. by destruct b. Qed.

Lemma operands_clean inst offset lock :
  i_has_modrm inst = false -> parsed_as (decode_alu_operands f code inst offset lock) (operands_parse f code inst offset (wide_imm_size ctx)).
Proof.
  intros Hm. unfold decode_alu_operands, operands_parse. cbv zeta.
  match goal with |- parsed_as (st_bind (st_gets wide_imm_size) ?k) ?p => change (parsed_as (k (wide_imm_size ctx)) p); cbv beta end.
  apply parsed_if; [apply parsed_ud; [apply sticky_immediate | by apply parsed_immediate] |].
  apply parsed_if; [apply parsed_ud; [apply sticky_immediate | by apply parsed_immediate] |].
  do 3 (apply parsed_if; [apply parsed_group |]). do 2 (apply parsed_if; [apply parsed_modrm |]).
  do 2 (apply parsed_if; [apply parsed_ud; [sticky_steps | apply parsed_modrm] |]).
  intros Hn. by apply ud_not_clean in Hn.
Qed.
End operands.

(** ** The address of RIP-relative operands *)

Lemma rex_extend_low b modrm : Z.land (rex_extend b (modrm_rm modrm)) 0x07 = modrm_rm modrm.
Proof.
  unfold rex_extend, modrm_rm. destruct b; rewrite ?Z.land_lor_distr_l, <- ?Z.land_assoc; cbn [Z.land Pos.land]; [apply Z.lor_0_r | done].
Qed.

(** Only a RIP-relative operand depends on the instruction's length. *)
Lemma address_length modrm sib disp size len1 len2 ctx :
  (modrm_rm modrm =? 5) && (modrm_mod modrm =? 0) && (size =? 64) = false ->
  get_effective_address modrm sib disp size len1 ctx = get_effective_address modrm sib disp size len2 ctx.
Proof.
  intros Hrip. unfold get_effective_address.
  assert (E : get_effective_offset ctx modrm sib disp size len1 = get_effective_offset ctx modrm sib disp size len2); [| by rewrite E].
  unfold get_effective_offset. cbv zeta. rewrite rex_extend_low.
  destruct ((modrm_rm modrm =? 5) && (modrm_mod modrm =? 0)); [| done]. cbn [andb] in Hrip. by rewrite Hrip.
Qed.

Lemma address_last_inst_size inst len n ctx :
  fst (address_in inst len (set_c_last_inst_size n ctx)) = fst (address_in inst len ctx).
Proof. unfold address_in, get_effective_address. by destruct (modrm_mod _ =? 3). Qed.

Lemma finalize_clean inst len ctx :
  address_ok inst 0 ctx -> no_exception (snd (finalize_rip_relative_address len (with_address inst 0 ctx) ctx)) ->
  finalize_rip_relative_address len (with_address inst 0 ctx) ctx = (with_address inst len ctx, ctx) /\ address_ok inst len ctx.
Proof.
  unfold finalize_rip_relative_address, with_address, address_ok. destruct (decoded_inst_needs_mem_recompute inst) eqn:Hneed.
  2: { intros _. unfold decoded_inst_needs_mem_recompute in Hneed. unfold modrm_mod. destruct (i_has_modrm inst); [| done]. cbn [andb negb] in *.
       apply negb_false_iff in Hneed. by rewrite Hneed. }
  intros Hok. specialize (Hok eq_refl).
  assert (Hm : i_has_modrm inst = true) by (unfold decoded_inst_needs_mem_recompute in Hneed; by destruct (i_has_modrm inst)).
  rewrite (needs_address _ Hm) in Hneed. apply negb_true_iff in Hneed. cbn [i_has_modrm set_i_mem_address i_modrm i_address_size i_sib i_displacement i_has_sib].
  rewrite Hm, Hneed. cbn [negb orb]. rewrite rex_extend_low.
  assert (Hlen : (modrm_rm (i_modrm inst) =? 5) && (modrm_mod (i_modrm inst) =? 0) && (i_address_size inst =? 64) = false ->
    address_in inst len ctx = address_in inst 0 ctx)
    by (intros E; unfold address_in; apply (address_length _ _ _ _ len 0 _ E)).
  destruct (i_address_size inst =? 64); cbn [negb]; [| rewrite Hlen by (by rewrite andb_false_r); done].
  rewrite andb_true_r in Hlen.
  destruct (Z.eqb_spec (modrm_rm (i_modrm inst)) 5) as [E5 |]; cbn [andb] in Hlen.
  - rewrite E5. cbn [Z.eqb Pos.eqb negb orb andb]. destruct (modrm_mod (i_modrm inst) =? 0); [| rewrite Hlen by done; done].
    pose proof (address_clean (i_modrm inst) (i_sib inst) (i_displacement inst) (i_address_size inst) len ctx) as Ha. unfold address_in.
    destruct (get_effective_address _ _ _ _ len ctx) as [a c]. cbn [snd fst] in *. intros Hn. by pose proof (Ha Hn) as ->.
  - rewrite Hlen by done. by destruct (negb (modrm_rm (i_modrm inst) =? 4) || negb (i_has_sib inst)).
Qed.

(** ** The whole decoder *)

Lemma stamp_facts p ctx :
  wide_imm_size (stamp p ctx) = (if pre_rex_w p then 4 else if pre_operand_size_override p then 2 else 4) /\
  c_rex_w (stamp p ctx) = pre_rex_w p /\ c_operand_size_override (stamp p ctx) = pre_operand_size_override p /\
  c_address_size_override (stamp p ctx) = pre_address_size_override p /\ cs_long_mode (stamp p ctx) = cs_long_mode ctx.
Proof. by destruct ctx, p; vm_compute. Qed.

(** The decoder behind its prefix loop. *)
Definition decode_tail (f : AluFamily) (code : list Z) (offset : Z) (lock : bool) : ST CPU_CONTEXT DecodedInstruction :=
  if size_of code <=? offset then st_modify (raise_gp_ctx 0) ;;; st_ret zero_inst
  else
    let* ctx := st_get in
    let operand_size := if c_rex_w ctx then 64 else if c_operand_size_override ctx then 16 else 32 in
    let address_size :=
      if cs_long_mode ctx then (if c_address_size_override ctx then 32 else 64)
      else if c_address_size_override ctx then 16 else 32 in
    let inst := set_i_address_size address_size (set_i_operand_size operand_size (set_i_opcode (byte_at code offset) zero_inst)) in
    let inst := if af_keeps_lock f then set_i_has_lock_prefix lock inst else inst in
    let* (inst, offset, completed) := decode_alu_operands f code inst (offset + 1) lock in
    if negb completed then st_ret inst
    else
      let* inst := finalize_rip_relative_address offset inst in
      st_modify (set_c_last_inst_size offset) ;;; st_ret inst.

Lemma decode_by_tail f code :
  decode_alu_instruction f code =
  (st_modify cpu_reset_prefix_state ;;; let* (offset, lock) := alu_prefix_loop f code 0 false in decode_tail f code offset lock).
Proof. reflexivity. Qed.

Lemma sticky_tail f code offset lock : sticky (decode_tail f code offset lock).
Proof. unfold decode_tail. sticky_steps. Qed.

Lemma tail_clean f code offset lock ctx :
  no_exception (snd (decode_tail f code offset lock ctx)) ->
  exists inst len,
    (if size_of code <=? offset then None
     else
       let inst := set_i_address_size
         (if cs_long_mode ctx then (if c_address_size_override ctx then 32 else 64) else if c_address_size_override ctx then 16 else 32)
         (set_i_operand_size (if c_rex_w ctx then 64 else if c_operand_size_override ctx then 16 else 32)
           (set_i_opcode (byte_at code offset) zero_inst)) in
       let inst := if af_keeps_lock f then set_i_has_lock_prefix lock inst else inst in
       operands_parse f code inst (offset + 1) (wide_imm_size ctx)) = Some (inst, len) /\
    decode_tail f code offset lock ctx = (with_address inst len ctx, set_c_last_inst_size len ctx) /\ address_ok inst len ctx.
Proof.
  unfold decode_tail. destruct (size_of code <=? offset); [intros Hn; by apply gp_not_clean in Hn |].
  rewrite (bind_run st_get _ ctx ctx ctx eq_refl). cbv zeta.
  set (inst0 := if af_keeps_lock f then _ else _). assert (Hm0 : i_has_modrm inst0 = false) by (unfold inst0; by destruct (af_keeps_lock f)).
  clearbody inst0. intros Hn. apply clean_bind in Hn as Hc2; [| intros [[i o] b]; sticky_steps].
  destruct (operands_clean f code ctx inst0 (offset + 1) lock Hm0 Hc2) as (inst & len & Hp & Hd & Hok). exists inst, len.
  split; [exact Hp |]. revert Hn. rewrite (bind_run _ _ _ _ _ Hd). cbn [negb]. intros Hn.
  apply clean_bind in Hn as Hc3; [| intros; sticky_steps].
  destruct (finalize_clean inst len ctx Hok Hc3) as [Hf Hok']. rewrite (bind_run _ _ _ _ _ Hf). split; [reflexivity | exact Hok'].
Qed.

Lemma alu_decode_clean f code ctx :
  no_exception (snd (decode_alu_instruction f code ctx)) ->
  exists inst p len, alu_parse f code (cs_long_mode ctx) = Some (inst, p, len) /\
    decode_alu_instruction f code ctx = (with_address inst len (stamp p ctx), set_c_last_inst_size len (stamp p ctx)) /\
    address_ok inst len (stamp p ctx).
Proof.
  rewrite decode_by_tail. rewrite (bind_run (st_modify cpu_reset_prefix_state) _ ctx tt (cpu_reset_prefix_state ctx) eq_refl), stamp_reset.
  intros Hn. apply clean_bind in Hn as Hc; [| intros [offset lock]; apply sticky_tail].
  pose proof (prefixes_clean f code 0 false zero_prefix ctx Hc) as Hpre. unfold alu_parse.
  destruct (alu_prefixes f code 0 false zero_prefix) as [[p offset] lock].
  revert Hn. rewrite (bind_run _ _ _ _ _ Hpre). intros Hn. destruct (tail_clean f code offset lock (stamp p ctx) Hn) as (inst & len & Hp & Hd).
  exists inst, p, len. split; [| exact Hd]. destruct (stamp_facts p ctx) as (Hw & E1 & E2 & E3 & E4). rewrite Hw, E1, E2, E3, E4 in Hp.
  destruct (size_of code <=? offset); [discriminate Hp |]. cbv zeta in Hp |- *. rewrite Hp. reflexivity.
Qed.

(** ** Replaying an entry *)

(** The length field plays no part in an address. *)
Lemma address_clean_last modrm sib disp size len n ctx :
  no_exception (snd (get_effective_address modrm sib disp size len ctx)) ->
  no_exception (snd (get_effective_address modrm sib disp size len (set_c_last_inst_size n ctx))).
Proof.
  unfold get_effective_address. destruct (modrm_mod modrm =? 3); [done |]. cbn [snd].
  change (get_effective_offset (set_c_last_inst_size n ctx)) with (get_effective_offset ctx).
  change (cpu_default_segment_for_memory_operand (set_c_last_inst_size n ctx)) with (cpu_default_segment_for_memory_operand ctx).
  change (cpu_effective_segment_override_or_default (set_c_last_inst_size n ctx)) with (cpu_effective_segment_override_or_default ctx).
  change (cpu_segment_base_for_addressing (set_c_last_inst_size n ctx)) with (cpu_segment_base_for_addressing ctx).
  unfold cpu_validate_linear_address, cpu_raise_noncanonical_address.
  change (cpu_uses_canonical_addresses (set_c_last_inst_size n ctx)) with (cpu_uses_canonical_addresses ctx).
  repeat case_match; cbn [snd]; try done; intros Hn; by apply raise_not_clean in Hn.
Qed.

Section replay.
Context `{Callbacks}.

(** [execute_*] on bytes and [execute_*_fast] on an entry, of an operation. *)
Definition execute_alu_bytes (rounds : nat) (op : alu_op) : list Z -> ST cpueaxh_engine unit :=
  match op with
  | ADD => execute_add | OR => execute_or rounds | ADC => execute_adc | SBB => execute_sbb
  | AND => execute_and | SUB => execute_sub | XOR => execute_xor rounds | CMP => execute_cmp
  end.
Definition execute_alu_fast (rounds : nat) (op : alu_op) : DecodedInst -> ST cpueaxh_engine unit :=
  match op with
  | ADD => execute_add_fast | OR => execute_or_fast rounds | ADC => execute_adc_fast | SBB => execute_sbb_fast
  | AND => execute_and_fast | SUB => execute_sub_fast | XOR => execute_xor_fast rounds | CMP => execute_cmp_fast
  end.

(** ADC and SBB replay without looking at the address again. *)
Definition keeps_address (op : alu_op) : bool := match op with ADC | SBB => true | _ => false end.

Lemma execute_alu_bytes_eq rounds op code :
  execute_alu_bytes rounds op code = execute_decoded (decode_alu_instruction (family_of op)) (execute_alu rounds op) code.
Proof. by destruct op. Qed.

Lemma execute_alu_fast_eq rounds op dec :
  execute_alu_fast rounds op dec = (if keeps_address op then execute_as_cached (execute_alu rounds op) dec else execute_cached (execute_alu rounds op) dec).
Proof. by destruct op. Qed.

Lemma stamped_prefix n p ctx :
  let ctx' := set_c_last_inst_size n (stamp p ctx) in
  mkPrefix (c_rex_present ctx') (c_rex_w ctx') (c_rex_r ctx') (c_rex_x ctx') (c_rex_b ctx') (c_operand_size_override ctx') (c_address_size_override ctx') = p.
Proof. by destruct p, ctx; vm_compute. Qed.

Lemma probe_clean f code ctx cached prefix len :
  fst (cpu_decoder_probe_with_helper (decode_alu_instruction f) code ctx) = Some (cached, prefix, len) -> 0 < len ->
  exists inst, alu_parse f code (cs_long_mode ctx) = Some (inst, prefix, len) /\ cached = with_address inst len (stamp prefix ctx).
Proof.
  unfold cpu_decoder_probe_with_helper. rewrite (bind_run (st_gets decoder_save_ctx_scratch) _ ctx _ _ eq_refl).
  destruct (decode_alu_instruction f code ctx) as [probe ctx'] eqn:Hd. rewrite (bind_run _ _ _ _ _ Hd).
  rewrite (bind_run st_get _ ctx' _ _ eq_refl). rewrite (bind_run (st_modify _) _ ctx' tt _ eq_refl). cbn [fst st_ret].
  destruct (cpu_has_exception ctx') eqn:Hx; [done |]. intros [= -> <- Hlen] Hpos.
  destruct (alu_decode_clean f code ctx) as (inst & p & n & Hp & Hd' & _); [by rewrite Hd |]. rewrite Hd in Hd'. injection Hd' as -> ->.
  change (c_last_inst_size (set_c_last_inst_size n (stamp p ctx))) with n in Hlen.
  assert (n = len) as <- by (destruct ((0 <? n) && (n <=? DECODED_INST_MAX_BYTES)); lia).
  exists inst. rewrite stamped_prefix. done.
Qed.

(** Recomputing the address of a probed instruction gives the instruction with that address. *)
Lemma with_address_again inst len ctx0 ctx :
  decoded_inst_needs_mem_recompute (with_address inst len ctx0) = decoded_inst_needs_mem_recompute inst /\
  (decoded_inst_needs_mem_recompute inst = true ->
   set_i_mem_address (fst (address_in (with_address inst len ctx0) len ctx)) (with_address inst len ctx0) = with_address inst len ctx) /\
  (decoded_inst_needs_mem_recompute inst = false -> with_address inst len ctx0 = with_address inst len ctx).
Proof. unfold with_address. destruct (decoded_inst_needs_mem_recompute inst) eqn:E; by rewrite ?E. Qed.

(** An entry replayed equals the bytes decoded again.  Let the probe of one of the eight decoders
    at any context succeed with a length (for ADC and SBB also without memory operand, as the
    decoder demands), and let an engine in the same mode be in a state where decoding the bytes
    raises nothing.  Then the fast form run on the entry, under whatever registers, flags, memory
    and hooks the engine has by then, does exactly what the handler does that decodes the bytes. *)
Theorem fast_form_replays_decoding (rounds : nat) op code ctx0 e base fast cached prefix len
  (Hprobe : fst (cpu_decoder_probe_with_helper (decode_alu_instruction (family_of op)) code ctx0) = Some (cached, prefix, len))
  (Hlen : 0 < len) (Hsafe : keeps_address op = true -> cpu_decoder_dec_inst_safe_to_replay cached = true)
  (Hmode : cs_long_mode ctx0 = cs_long_mode (en_context e))
  (Hclean : no_exception (snd (decode_alu_instruction (family_of op) code (en_context e)))) :
  execute_alu_fast rounds op (with_fast cached prefix len fast base) e = execute_alu_bytes rounds op code e.
Proof.
  destruct (probe_clean _ _ _ _ _ _ Hprobe Hlen) as (inst & Hp & ->).
  destruct (alu_decode_clean _ _ _ Hclean) as (inst' & p' & len' & Hp' & Hd & Hok). rewrite <- Hmode, Hp in Hp'. injection Hp' as <- <- <-.
  rewrite Hd in Hclean. cbn [snd] in Hclean. rewrite execute_alu_bytes_eq, execute_alu_fast_eq.
  set (ctx1 := set_c_last_inst_size len (stamp prefix (en_context e))) in *.
  assert (Hdirect : execute_decoded (decode_alu_instruction (family_of op)) (execute_alu rounds op) code e =
    execute_alu rounds op (with_address inst len (stamp prefix (en_context e))) (set_en_context ctx1 e)).
  { unfold execute_decoded. rewrite (bind_run _ _ _ (with_address inst len (stamp prefix (en_context e))) (set_en_context ctx1 e)).
    - rewrite (bind_run (get_ctx cpu_has_exception) _ (set_en_context ctx1 e) (cpu_has_exception ctx1) _ eq_refl). by rewrite Hclean.
    - unfold on_ctx, st_zoom. by rewrite Hd. }
  rewrite Hdirect. destruct (with_address_again inst len (stamp prefix ctx0) (stamp prefix (en_context e))) as (Hneed & Hyes & Hno).
  set (dec := with_fast _ _ _ _ _).
  assert (Hreplay : replay_prefix dec e = (tt, set_en_context ctx1 e)) by done.
  destruct (keeps_address op) eqn:Hk.
  - unfold execute_as_cached. rewrite (bind_run _ _ _ _ _ Hreplay). change (d_cached dec) with (with_address inst len (stamp prefix ctx0)).
    rewrite Hno; [done |]. specialize (Hsafe eq_refl). rewrite <- Hneed. unfold cpu_decoder_dec_inst_safe_to_replay in Hsafe.
    unfold decoded_inst_needs_mem_recompute. destruct (i_has_modrm _); [| done]. cbn [negb andb] in *. by rewrite Hsafe.
  - unfold execute_cached. rewrite (bind_run _ _ _ _ _ Hreplay). cbv zeta. change (d_cached dec) with (with_address inst len (stamp prefix ctx0)).
    rewrite Hneed. destruct (decoded_inst_needs_mem_recompute inst) eqn:E; cbn [negb]; [| by rewrite Hno].
    change (d_length dec) with len. specialize (Hok E).
    set (again := with_address inst len (stamp prefix ctx0)) in *.
    assert (Haddr : get_effective_address (i_modrm again) (i_sib again) (i_displacement again) (i_address_size again) len ctx1 =
      (fst (address_in again len (stamp prefix (en_context e))), ctx1)).
    { assert (Hsame : forall c, get_effective_address (i_modrm again) (i_sib again) (i_displacement again) (i_address_size again) len c = address_in inst len c)
        by (intros; unfold again, with_address; rewrite E; done).
      unfold address_in at 1. rewrite !Hsame. rewrite (surjective_pairing (address_in inst len ctx1)). unfold ctx1 at 1. rewrite address_last_inst_size. f_equal.
      unfold address_in. apply address_clean. unfold ctx1. apply address_clean_last. exact Hok. }
    rewrite (bind_run _ _ _ (fst (address_in again len (stamp prefix (en_context e)))) (set_en_context ctx1 e)); [by rewrite (Hyes eq_refl) |].
    unfold on_ctx, st_zoom. change (en_context (set_en_context ctx1 e)) with ctx1. rewrite Haddr. done.
Qed.
End replay.

Module ReplayExample.
Import Bump EngineExample MemoryExample StackExample.

(** [add dword [rsp], 5], probed when RSP was 0 and replayed when it is 0x1004. *)
Definition code : list Z := [0x83; 0x04; 0x24; 0x05].
Definition probed : DecodedInstruction :=
  match fst (cpu_decoder_probe_with_helper (decode_alu_instruction add_family) code (en_context (stacked 0))) with
  | Some (cached, _, _) => cached | None => zero_inst
  end.

Lemma fast_form_replays_decoding_witness :
  i_mem_address probed = 0 /\
  execute_alu_fast 1 ADD (with_fast probed zero_prefix 4 "execute_add_fast"%string decoded_inst_clear) (stacked 0x1004) =
  execute_alu_bytes 1 ADD code (stacked 0x1004).
Proof.
  split; [vm_compute; reflexivity |].
  assert (Hp : fst (cpu_decoder_probe_with_helper (decode_alu_instruction (family_of ADD)) code (en_context (stacked 0))) = Some (probed, zero_prefix, 4))
    by (vm_compute; reflexivity).
  assert (Hl : 0 < 4) by lia. assert (Hs : keeps_address ADD = true -> cpu_decoder_dec_inst_safe_to_replay probed = true) by discriminate.
  assert (Hm : cs_long_mode (en_context (stacked 0)) = cs_long_mode (en_context (stacked 0x1004))) by (vm_compute; reflexivity).
  assert (Hc : no_exception (snd (decode_alu_instruction (family_of ADD) code (en_context (stacked 0x1004))))) by (vm_compute; reflexivity).
  exact (fast_form_replays_decoding 1 ADD code (en_context (stacked 0)) (stacked 0x1004) decoded_inst_clear "execute_add_fast"%string probed zero_prefix 4 Hp Hl Hs Hm Hc).
Defined.

End ReplayExample.
