(* ===== verification/InstDecode.v ===== *)
(** * The decoders of the instruction files

    Each file of instructions/ carries its own copy of one decoder: reset the prefix state, eat
    prefixes, read the opcode, derive the operand and address size, read the operands, finish a
    RIP-relative address and note the length.  The copies differ in how a REX byte is recognised,
    when LOCK is an error, whether the instruction records it, how the address size is chosen, and
    of course in the opcodes: [DecoderRules] lists what differs and [decode_by] is the decoder.
    A buffer is the list of its bytes.  The decoders of the groups F6/F7, FE/FF and C0/C1/D0-D3
    are here; the other files define theirs where their instructions are. *)

From Stdlib Require Import ZArith Bool List Lia.
From stdpp Require Import base tactics list.
From S2P Require Import Prelude CpuDef HostMemory InstCache Machine Registers DispatchHelpers Alu.

(** ** The shared decoder *)

Record DecoderRules := mkRules {
  dr_rex_checked : bool;      (* cpu_try_apply_rex_prefix, or any byte 40-4F *)
  dr_lock_raises : bool;      (* the prefix loop raises #UD on LOCK *)
  dr_keeps_lock : bool;       (* inst.has_lock_prefix *)
  dr_default_address : bool;  (* cpu_default_address_size, or CS.L *)
  dr_opcode : list Z -> Z -> ST CPU_CONTEXT (Z * Z * bool);
  dr_operands : list Z -> DecodedInstruction -> Z -> bool -> ST CPU_CONTEXT (DecodedInstruction * Z * bool);
}.

Definition take_rex (checked : bool) (prefix : Z) : ST CPU_CONTEXT bool :=
  if checked then cpu_try_apply_rex_prefix prefix
  else if is_rex_byte prefix then st_modify (set_rex prefix) ;;; st_ret true else st_ret false.

(** The prefix loop over the bytes from [offset] on: where it stops and whether it met LOCK. *)
Fixpoint inst_prefix_loop (r : DecoderRules) (code : list Z) (offset : Z) (lock : bool) : ST CPU_CONTEXT (Z * bool) :=
  match code with
  | [] => st_ret (offset, lock)
  | prefix :: code =>
      if prefix =? 0x66 then st_modify (set_c_operand_size_override true) ;;; inst_prefix_loop r code (offset + 1) lock
      else if prefix =? 0x67 then st_modify (set_c_address_size_override true) ;;; inst_prefix_loop r code (offset + 1) lock
      else
        let* rex := take_rex (dr_rex_checked r) prefix in
        if rex then inst_prefix_loop r code (offset + 1) lock
        else if prefix =? 0xF0 then ud_if (dr_lock_raises r) ;;; inst_prefix_loop r code (offset + 1) true
        else if is_segment_prefix prefix || (prefix =? 0xF2) || (prefix =? 0xF3) then inst_prefix_loop r code (offset + 1) lock
        else st_ret (offset, lock)
  end.

Definition decoded_operand_size (ctx : CPU_CONTEXT) : Z := if c_rex_w ctx then 64 else if c_operand_size_override ctx then 16 else 32.
Definition decoded_address_size (by_default : bool) (ctx : CPU_CONTEXT) : Z :=
  if by_default then
    if c_address_size_override ctx then (if cpu_default_address_size ctx =? 64 then 32 else 16) else cpu_default_address_size ctx
  else if cs_long_mode ctx then (if c_address_size_override ctx then 32 else 64)
  else if c_address_size_override ctx then 16 else 32.

(** The third component of a stage is false where it returned early. *)
Definition decode_by (r : DecoderRules) (code : list Z) : ST CPU_CONTEXT DecodedInstruction :=
  st_modify cpu_reset_prefix_state ;;;
  let* (offset, lock) := inst_prefix_loop r code 0 false in
  if size_of code <=? offset then st_modify (raise_gp_ctx 0) ;;; st_ret zero_inst
  else
    let* (opcode, offset, completed) := dr_opcode r code offset in
    let inst := set_i_opcode opcode zero_inst in
    if negb completed then st_ret inst
    else
      let* operand_size := st_gets decoded_operand_size in
      let* address_size := st_gets (decoded_address_size (dr_default_address r)) in
      let inst := set_i_address_size address_size (set_i_operand_size operand_size inst) in
      let inst := if dr_keeps_lock r then set_i_has_lock_prefix lock inst else inst in
      let* (inst, offset, completed) := dr_operands r code inst offset lock in
      if negb completed then st_ret inst
      else
        let* inst := finalize_rip_relative_address offset inst in
        st_modify (set_c_last_inst_size offset) ;;; st_ret inst.

(** [inst.opcode = code[offset++]]. *)
Definition one_byte_opcode (code : list Z) (offset : Z) : ST CPU_CONTEXT (Z * Z * bool) :=
  st_ret (byte_at code offset, offset + 1, true).

(** 0F and one of [opcodes]; anything else raises #UD and decoding goes on. *)
Definition two_byte_opcode (opcodes : Z -> bool) (code : list Z) (offset : Z) : ST CPU_CONTEXT (Z * Z * bool) :=
  ud_if (negb (byte_at code offset =? 0x0F)) ;;;
  if size_of code <=? offset + 1 then st_modify (raise_gp_ctx 0) ;;; st_ret (byte_at code offset, offset + 1, false)
  else
    let opcode := byte_at code (offset + 1) in
    ud_if (negb (opcodes opcode)) ;;; st_ret (opcode, offset + 2, true).

(** When LOCK is an error behind a ModRM byte. *)
Inductive lock_rule := LockIgnored | LockOnMemory | LockNever.

Definition lock_is_ud (rule : lock_rule) (modrm : Z) : bool :=
  match rule with LockIgnored => false | LockOnMemory => modrm_mod modrm =? 3 | LockNever => true end.

Definition decode_modrm_by (rule : lock_rule) (code : list Z) (inst : DecodedInstruction) (offset : Z) (has_lock_prefix : bool)
  : ST CPU_CONTEXT (DecodedInstruction * Z) :=
  if size_of code <=? offset then st_modify (raise_gp_ctx 0) ;;; st_ret (inst, offset)
  else
    let inst := set_i_modrm (byte_at code offset) (set_i_has_modrm true inst) in
    let* (inst, offset, completed) := decode_sib_disp code inst (offset + 1) in
    ud_if (completed && has_lock_prefix && lock_is_ud rule (i_modrm inst)) ;;; st_ret (inst, offset).

(** The ModRM byte as the last thing of an instruction. *)
Definition modrm_operands (rule : lock_rule) (code : list Z) (inst : DecodedInstruction) (offset : Z) (lock : bool)
  : ST CPU_CONTEXT (DecodedInstruction * Z * bool) :=
  let* (inst, offset) := decode_modrm_by rule code inst offset lock in st_ret (inst, offset, true).

Definition modrm_digit (inst : DecodedInstruction) : Z := Z.land (Z.shiftr (i_modrm inst) 3) 0x07.

(** ** The opcode groups *)

(** A form of a group: the byte operand size, the digit in the ModRM byte, a count byte behind. *)
Record GroupForm := mkForm { gf_byte : bool; gf_digit : Z; gf_count : bool }.

(** [inst.immediate = code[offset++]; inst.imm_size = 1]. *)
Definition decode_count (code : list Z) (inst : DecodedInstruction) (offset : Z) : ST CPU_CONTEXT (DecodedInstruction * Z * bool) :=
  if size_of code <=? offset then st_modify (raise_gp_ctx 0) ;;; st_ret (inst, offset, false)
  else st_ret (set_i_imm_size 1 (set_i_immediate (byte_at code offset) inst), offset + 1, true).

Definition group_operands (rule : lock_rule) (form : Z -> option GroupForm) (code : list Z) (inst : DecodedInstruction) (offset : Z) (lock : bool)
  : ST CPU_CONTEXT (DecodedInstruction * Z * bool) :=
  match form (i_opcode inst) with
  | Some f =>
      let inst := if gf_byte f then set_i_operand_size 8 inst else inst in
      let* (inst, offset) := decode_modrm_by rule code inst offset lock in
      ud_if (negb (modrm_digit inst =? gf_digit f)) ;;;
      if gf_count f then decode_count code inst offset else st_ret (inst, offset, true)
  | None => st_modify raise_ud_ctx ;;; st_ret (inst, offset, true)
  end.

(** INC and DEC also have one opcode per register, which 64-bit code does not. *)
Definition incdec_operands (base digit : Z) (code : list Z) (inst : DecodedInstruction) (offset : Z) (lock : bool)
  : ST CPU_CONTEXT (DecodedInstruction * Z * bool) :=
  if between base (base + 7) (i_opcode inst) then
    let* long := st_gets cpu_is_64bit_code in
    ud_if long ;;; st_ret (inst, offset, true)
  else
    group_operands LockOnMemory
      (fun opcode => if opcode =? 0xFE then Some (mkForm true digit false) else if opcode =? 0xFF then Some (mkForm false digit false) else None)
      code inst offset lock.

Definition f6_form (digit opcode : Z) : option GroupForm :=
  if opcode =? 0xF6 then Some (mkForm true digit false) else if opcode =? 0xF7 then Some (mkForm false digit false) else None.
Definition shift_form (digit opcode : Z) : option GroupForm :=
  if one_of opcode [0xD0; 0xD2] then Some (mkForm true digit false)
  else if opcode =? 0xC0 then Some (mkForm true digit true)
  else if one_of opcode [0xD1; 0xD3] then Some (mkForm false digit false)
  else if opcode =? 0xC1 then Some (mkForm false digit true)
  else None.

Definition incdec_rules (base digit : Z) : DecoderRules := mkRules true false true true one_byte_opcode (incdec_operands base digit).
Definition f6_rules (digit : Z) (rule : lock_rule) (keeps_lock : bool) : DecoderRules :=
  mkRules false false keeps_lock false one_byte_opcode (group_operands rule (f6_form digit)).
Definition shift_rules (digit : Z) : DecoderRules :=
  mkRules false false false false one_byte_opcode (group_operands LockOnMemory (shift_form digit)).

Definition inc_rules := incdec_rules 0x40 0.
Definition dec_rules := incdec_rules 0x48 1.
Definition not_rules := f6_rules 2 LockOnMemory true.
Definition neg_rules := f6_rules 3 LockOnMemory true.
Definition mul_rules := f6_rules 4 LockNever false.
Definition div_rules := f6_rules 6 LockNever false.
Definition idiv_rules := f6_rules 7 LockNever false.
Definition rol_rules := shift_rules 0.
Definition ror_rules := shift_rules 1.
Definition rcl_rules := shift_rules 2.
Definition rcr_rules := shift_rules 3.
Definition shl_rules := shift_rules 4.
Definition shr_rules := shift_rules 5.
Definition sar_rules := shift_rules 7.

Definition decode_modrm_inc := decode_modrm_by LockOnMemory.
Definition decode_modrm_dec := decode_modrm_by LockOnMemory.
Definition decode_modrm_not := decode_modrm_by LockOnMemory.
Definition decode_modrm_neg := decode_modrm_by LockOnMemory.
Definition decode_modrm_mul := decode_modrm_by LockNever.
Definition decode_modrm_div := decode_modrm_by LockNever.
Definition decode_modrm_idiv := decode_modrm_by LockNever.
Definition decode_modrm_rol := decode_modrm_by LockOnMemory.
Definition decode_modrm_ror := decode_modrm_by LockOnMemory.
Definition decode_modrm_shl := decode_modrm_by LockOnMemory.
Definition decode_modrm_shr := decode_modrm_by LockOnMemory.
Definition decode_modrm_sar := decode_modrm_by LockOnMemory.

Definition decode_inc_instruction := decode_by inc_rules.
Definition decode_dec_instruction := decode_by dec_rules.
Definition decode_not_instruction := decode_by not_rules.
Definition decode_neg_instruction := decode_by neg_rules.
Definition decode_mul_instruction := decode_by mul_rules.
Definition decode_div_instruction := decode_by div_rules.
Definition decode_idiv_instruction := decode_by idiv_rules.
Definition decode_rol_instruction := decode_by rol_rules.
Definition decode_ror_instruction := decode_by ror_rules.
Definition decode_rcl_instruction := decode_by rcl_rules.
Definition decode_rcr_instruction := decode_by rcr_rules.
Definition decode_shl_instruction := decode_by shl_rules.
Definition decode_shr_instruction := decode_by shr_rules.
Definition decode_sar_instruction := decode_by sar_rules.

