(* ===== verification/Operands.v ===== *)
(** * Reading, computing, storing: what the body of an instruction amounts to

    The instruction files after the arithmetic group are built from the same steps: read operands,
    compute on the context, store a result.  Here are the laws of those steps, once.  A body is on
    track while no exception is pending: the engine is the one it started from, but for the page
    cache, registers and flags ([on_track]).  From the first fault on it is abandoned, and every
    further step of a body is [inert]: it neither touches memory nor the pending exception. *)

From Stdlib Require Import ZArith Bool List Lia.
From stdpp Require Import base tactics list.
From S2P Require Import Prelude CpuDef Flags HostMemory RegionTable RegionSplit Patches PageCache InstCache Machine CpuMemory Registers DispatchHelpers Stack Alu.

(** ** After a fault *)

Section inert.
Context `{Callbacks}.

Definition inert {A} (c : ST cpueaxh_engine A) : Prop :=
  forall e acc v ad e1, abandoned e acc v ad e1 -> abandoned e acc v ad (snd (c e1)).

Lemma inert_ret {A} (a : A) : inert (st_ret a).
Proof. by intros ?. Qed.
Lemma inert_get_ctx {A} (f : CPU_CONTEXT -> A) : inert (get_ctx f).
Proof. by intros ?. Qed.
Lemma inert_bind {A B} (c : ST cpueaxh_engine A) (k : A -> ST cpueaxh_engine B) : inert c -> (forall a, inert (k a)) -> inert (st_bind c k).
Proof.
  intros Hc Hk e acc v ad e1 Ha. unfold st_bind. specialize (Hc e acc v ad e1 Ha). destruct (c e1) as [a e2].
  exact (Hk a e acc v ad e2 Hc).
Qed.
Lemma inert_if {A} (b : bool) (c1 c2 : ST cpueaxh_engine A) : inert c1 -> inert c2 -> inert (if b then c1 else c2).
Proof. by destruct b. Qed.

(** The exception pending decides: whatever follows a test for it is not run. *)
Lemma inert_checked {A} (c1 c2 : ST cpueaxh_engine A) : inert c1 -> inert (let* faulted := get_ctx cpu_has_exception in if faulted then c1 else c2).
Proof.
  intros Hc e acc v ad e1 Ha. unfold st_bind, get_ctx, st_gets. pose proof Ha as (_ & _ & Hp & _). rewrite Hp. exact (Hc e acc v ad e1 Ha).
Qed.

(** A change of the context that keeps the exception once one is pending. *)
Definition keeps_fault (f : CPU_CONTEXT -> CPU_CONTEXT) : Prop :=
  forall ctx, cpu_has_exception ctx = true ->
    c_exception (f ctx) = c_exception ctx /\ same_cpu_identity ctx (f ctx) /\ same_vectors ctx (f ctx).

Lemma inert_mod f : keeps_fault f -> inert (mod_ctx f).
Proof.
  intros Hf e acc v ad e1 (Hv & Hx & Hp & Hk & Hh & Hvw). destruct (Hf _ Hp) as (Hex & Hid & Hve).
  unfold mod_ctx, st_modify. cbn [snd]. split_and!; [done | by rewrite <- Hx, <- Hex | | | done | done].
  - unfold cpu_has_exception in *. cbn [en_context set_en_context]. by rewrite Hex.
  - apply (keeps_context_trans _ e1); [done | by apply set_context_keeps].
Qed.

Lemma keeps_fault_id f : (forall ctx, cpu_has_exception ctx = true -> f ctx = ctx) -> keeps_fault f.
Proof. intros Hf ctx Hp. by rewrite Hf. Qed.
Lemma keeps_fault_set_flag flag v : keeps_fault (set_flag flag v).
Proof. apply keeps_fault_id. intros. by apply set_flag_pending. Qed.
Lemma keeps_fault_raise code ec : keeps_fault (cpu_raise_exception code ec).
Proof. apply keeps_fault_id. intros ctx Hp. unfold cpu_raise_exception. by rewrite Hp. Qed.
Lemma keeps_fault_set_reg w reg v : keeps_fault (set_reg w reg v).
Proof. intros ctx _. destruct (set_reg_frame w reg v ctx) as (? & ? & ?). by split_and!. Qed.
Lemma keeps_fault_set_reg_at reg v : keeps_fault (set_reg_at reg v).
Proof. by intros ctx. Qed.
Lemma keeps_fault_compose f g : keeps_fault f -> keeps_fault g -> keeps_fault (fun ctx => f (g ctx)).
Proof.
  intros Hf Hg ctx Hp. destruct (Hg ctx Hp) as (Hx & (? & ? & ?) & Hv).
  destruct (Hf (g ctx)) as (Hx' & (? & ? & ?) & Hv'); [unfold cpu_has_exception in *; by rewrite Hx |].
  unfold same_vectors in *. split_and!; [congruence | repeat split; congruence | congruence].
Qed.
Lemma keeps_fault_if (b : bool) f g : keeps_fault f -> keeps_fault g -> keeps_fault (if b then f else g).
Proof. by destruct b. Qed.

Lemma inert_read_at w o : reg_width w -> inert (read_at w o).
Proof. intros Hw e acc v ad e1 Ha. pose proof Ha as (_ & _ & Hp & _). by rewrite (read_at_pending e1 w o Hp Hw). Qed.
Lemma inert_write_at w o value : reg_width w -> inert (write_at w o value).
Proof. intros Hw e acc v ad e1 Ha. by apply abandoned_write. Qed.
Lemma inert_read_rm w modrm mem : reg_width w -> inert (read_rm w modrm mem).
Proof. intros Hw e acc v ad e1 Ha. rewrite read_rm_at. by apply inert_read_at. Qed.
Lemma inert_write_rm w modrm mem value : reg_width w -> inert (write_rm w modrm mem value).
Proof. intros Hw e acc v ad e1 Ha. rewrite (write_rm_at w modrm mem value e1 e1 eq_refl). by apply inert_write_at. Qed.
Lemma inert_read_reg w modrm : inert (read_reg w modrm).
Proof. by intros ?. Qed.
Lemma inert_write_reg w modrm value : inert (write_reg w modrm value).
Proof. apply inert_mod. intros ctx Hp. exact (keeps_fault_set_reg w (reg_index modrm ctx) value ctx Hp). Qed.

End inert.

Create HintDb inert discriminated.
#[export] Hint Constants Opaque : inert.
#[export] Hint Resolve inert_ret inert_get_ctx inert_read_at inert_write_at inert_read_rm inert_write_rm inert_read_reg inert_write_reg : inert.
#[export] Hint Resolve keeps_fault_set_flag keeps_fault_raise keeps_fault_set_reg keeps_fault_set_reg_at : inert.

(** Takes a body apart into its steps. *)
Ltac inert_steps :=
  repeat match goal with
  | |- inert (st_bind (get_ctx cpu_has_exception) _) => apply inert_checked
  | |- inert (st_bind _ _) => apply inert_bind; [| intros]
  | |- inert (if _ then _ else _) => apply inert_if
  | |- inert (mod_ctx _) => apply inert_mod
  | |- inert (match ?x with _ => _ end) => destruct x
  | |- keeps_fault (if _ then _ else _) => apply keeps_fault_if
  | |- keeps_fault (fun ctx => ?f (@?g ctx)) => apply (keeps_fault_compose f g)
  | |- _ => solve [auto with inert]
  end.

(** ** On track *)

(** Other general registers, RIP and flags. *)
Definition plain (ctx ctx' : CPU_CONTEXT) : Prop :=
  ctx' = set_c_regs (c_regs ctx') (set_c_rip (c_rip ctx') (set_c_rflags (c_rflags ctx') ctx)).

Lemma plain_refl ctx : plain ctx ctx.
Proof. by destruct ctx. Qed.
Lemma plain_trans c1 c2 c3 : plain c1 c2 -> plain c2 c3 -> plain c1 c3.
Proof. unfold plain. intros H12 H23. rewrite H23, H12. reflexivity. Qed.
Lemma plain_set_reg_at reg v ctx : plain ctx (set_reg_at reg v ctx).
Proof. by destruct ctx. Qed.
Lemma plain_set_rip v ctx : plain ctx (set_c_rip v ctx).
Proof. by destruct ctx. Qed.
Lemma plain_set_rflags v ctx : plain ctx (set_c_rflags v ctx).
Proof. by destruct ctx. Qed.
Lemma plain_set_flag flag v ctx : plain ctx (set_flag flag v ctx).
Proof. unfold set_flag. destruct (cpu_has_exception ctx); [apply plain_refl | apply plain_set_rflags]. Qed.
Lemma plain_set_reg w reg v ctx : plain ctx (set_reg w reg v ctx).
Proof.
  unfold set_reg, set_reg8, set_reg16, set_reg32, set_reg64.
  repeat match goal with |- context [if ?b then _ else _] => destruct b end; apply plain_set_reg_at || apply plain_refl.
Qed.
Lemma plain_flags_written f ctx ctx' : ctx_flags_written f ctx ctx' -> plain ctx ctx'.
Proof. intros [-> _]. apply plain_set_rflags. Qed.
Lemma plain_exception ctx ctx' : plain ctx ctx' -> c_exception ctx' = c_exception ctx.
Proof. by intros ->. Qed.
Lemma plain_has_exception ctx ctx' : plain ctx ctx' -> cpu_has_exception ctx' = cpu_has_exception ctx.
Proof. intros Hp. unfold cpu_has_exception. by rewrite (plain_exception _ _ Hp). Qed.
Lemma plain_raise v a acc ctx ctx' : plain ctx ctx' -> c_exception (raise_verdict v a acc ctx') = c_exception (raise_verdict v a acc ctx).
Proof.
  intros ->. destruct v; [done | ..]; unfold raise_verdict, raise_gp_ctx, cpu_raise_exception;
    (destruct (cpu_has_exception ctx) eqn:Hx; unfold cpu_has_exception in *; cbn [c_exception set_c_rflags set_c_regs set_c_rip set_c_control_regs]; by rewrite Hx).
Qed.
Lemma plain_rex ctx ctx' : plain ctx ctx' ->
  c_rex_r ctx' = c_rex_r ctx /\ c_rex_b ctx' = c_rex_b ctx /\ c_rex_w ctx' = c_rex_w ctx /\ c_rex_present ctx' = c_rex_present ctx /\
  c_operand_size_override ctx' = c_operand_size_override ctx.
Proof. by intros ->. Qed.

Create HintDb plain discriminated.
#[export] Hint Constants Opaque : plain.
#[export] Hint Resolve plain_refl plain_set_reg_at plain_set_rip plain_set_rflags plain_set_flag plain_set_reg plain_flags_written : plain.

Section track.
Context `{Callbacks}.

(** The engine [e] with the context [ctx], but for the page cache. *)
Definition on_track (e : cpueaxh_engine) (ctx : CPU_CONTEXT) (e1 : cpueaxh_engine) : Prop := same_cpu (set_en_context ctx e) e1.

Lemma set_own_context e : set_en_context (en_context e) e = e.
Proof. by destruct e. Qed.

Lemma track_start e : cpu_ready e -> on_track e (en_context e) e.
Proof. intros (Hm & _). unfold on_track. rewrite set_own_context. by apply same_cpu_refl. Qed.

Lemma track_same e e1 : cpu_ready e -> same_cpu e e1 <-> on_track e (en_context e) e1.
Proof. intros _. unfold on_track. by rewrite set_own_context. Qed.

Lemma track_context e ctx e1 : on_track e ctx e1 -> en_context e1 = ctx.
Proof. intros Ht. by rewrite (same_cpu_context _ _ Ht). Qed.

Lemma track_set e ctx ctx' e1 : on_track e ctx e1 -> on_track e ctx' (set_en_context ctx' e1).
Proof. intros Ht. apply (same_cpu_set_context _ _ ctx') in Ht. exact Ht. Qed.

Lemma track_mod e ctx e1 f : on_track e ctx e1 -> on_track e (f ctx) (snd (mod_ctx f e1)).
Proof. intros Ht. unfold mod_ctx, st_modify. cbn [snd]. rewrite (track_context _ _ _ Ht). by eapply track_set. Qed.

Lemma track_get {A} e ctx e1 (f : CPU_CONTEXT -> A) : on_track e ctx e1 -> get_ctx f e1 = (f ctx, e1).
Proof. intros Ht. unfold get_ctx, st_gets. by rewrite (track_context _ _ _ Ht). Qed.

Lemma track_ready e ctx e1 : cpu_ready e -> plain (en_context e) ctx -> on_track e ctx e1 -> cpu_ready e1.
Proof.
  intros Hr Hp Ht. apply (same_cpu_ready _ _ Ht). apply context_ready; [done | by rewrite Hp |].
  rewrite (plain_has_exception _ _ Hp). apply Hr.
Qed.

Lemma plain_access e ctx a acc : plain (en_context e) ctx -> cpu_access (set_en_context ctx e) a acc = cpu_access e a acc.
Proof. intros Hp. unfold cpu_access. cbn [en_context en_mem set_en_context]. rewrite Hp. reflexivity. Qed.

Lemma plain_first_fault e ctx a n acc : plain (en_context e) ctx -> first_fault (set_en_context ctx e) a n acc = first_fault e a n acc.
Proof.
  intros Hp. unfold first_fault. induction (offsets_from 0 n) as [| o l IH]; [done |]. cbn [first_fault_in].
  by rewrite (plain_access e ctx _ _ Hp), IH.
Qed.

Lemma track_first_fault e ctx e1 a n acc : plain (en_context e) ctx -> on_track e ctx e1 -> first_fault e1 a n acc = first_fault e a n acc.
Proof. intros Hp Ht. rewrite <- (plain_first_fault e ctx) by done. unfold first_fault. by apply first_fault_same. Qed.

(** Abandoned relative to a state on track is abandoned relative to its start. *)
Lemma track_abandoned e ctx e1 acc v ad e2 :
  plain (en_context e) ctx -> on_track e ctx e1 -> abandoned e1 acc v ad e2 -> abandoned e acc v ad e2.
Proof.
  intros Hp Ht (Hv & Hx & Hpend & Hk & Hh & Hvw). pose proof (track_context _ _ _ Ht) as Hc.
  split_and!; [done | | done | | |].
  - rewrite Hx, Hc. by apply plain_raise.
  - apply (keeps_context_trans _ (set_en_context ctx e)); [by apply set_context_keeps; rewrite Hp |].
    apply (keeps_context_trans _ e1); [by apply same_cpu_keeps | done].
  - rewrite Hh. exact (same_cpu_heap _ _ Ht).
  - intros a. rewrite Hvw. exact (same_cpu_view _ _ a Ht).
Qed.

(** The value an operand has in a context on track. *)
Definition value_in (e : cpueaxh_engine) (ctx : CPU_CONTEXT) (w : Z) (o : operand) : Z :=
  operand_value (set_en_context ctx e) w o.

Lemma track_read e ctx e1 w o :
  cpu_ready e -> plain (en_context e) ctx -> on_track e ctx e1 -> reg_width w -> operand_ok w o ->
  match operand_fault e w MM_PROT_READ o with
  | None => exists e2, read_at w o e1 = (value_in e ctx w o, e2) /\ on_track e ctx e2
  | Some (ad, v) => exists e2, read_at w o e1 = (0, e2) /\ abandoned e MM_PROT_READ v ad e2
  end.
Proof.
  intros Hr Hp Ht Hw Ho. pose proof (track_ready _ _ _ Hr Hp Ht) as Hr1.
  assert (Hf : operand_fault e1 w MM_PROT_READ o = operand_fault e w MM_PROT_READ o)
    by (destruct o; cbn; [done | by apply (track_first_fault e ctx) | done]).
  destruct (read_at_spec e1 e1 w o Hr1 (same_cpu_refl _ (proj1 Hr1)) Hw Ho) as (e2 & Hs). rewrite Hf in Hs.
  destruct (operand_fault e w MM_PROT_READ o) as [[ad v] |]; exists e2.
  - destruct Hs as (Hv & Hfa & ->). split; [done |]. eapply track_abandoned; [done | done |]. by apply faults_abandoned.
  - destruct Hs as (Hs & ->). split; [| exact (same_cpu_trans _ _ _ Ht Hs)]. f_equal. unfold value_in.
    destruct o; cbn; [by rewrite (track_context _ _ _ Ht) | exact (same_cpu_guest_value _ _ _ _ Ht) | done].
Qed.

(** What storing [r] into an operand leaves. *)
Definition result_in (e : cpueaxh_engine) (ctx : CPU_CONTEXT) (w : Z) (dst : operand) (r : Z) (e' : cpueaxh_engine) : Prop :=
  match dst with
  | Reg reg => on_track e (set_reg w reg r ctx) e'
  | Mem address => stored (set_en_context ctx e) (hosts_of e address (w / 8)) r e'
  | Imm _ => on_track e ctx e'
  end.

Lemma track_write e ctx e1 w dst r :
  cpu_ready e -> plain (en_context e) ctx -> on_track e ctx e1 -> reg_width w -> operand_ok w dst ->
  match operand_fault e w MM_PROT_WRITE dst with
  | None => result_in e ctx w dst r (snd (write_at w dst r e1))
  | Some (ad, v) => abandoned e MM_PROT_WRITE v ad (snd (write_at w dst r e1))
  end.
Proof.
  intros Hr Hp Ht Hw Hd. destruct dst as [reg | address | value]; cbn [operand_fault write_at result_in].
  - by apply track_mod.
  - destruct (reg_width_bounds w Hw) as [_ Hos]. pose proof (track_ready _ _ _ Hr Hp Ht) as Hr1.
    pose proof (write_operand_spec e1 address w r Hr1 Hd Hos) as Hwr. rewrite (track_first_fault e ctx e1 _ _ _ Hp Ht) in Hwr. unfold final in Hwr.
    destruct (first_fault e address (w / 8) MM_PROT_WRITE) as [[ad v] |] eqn:Hff.
    + eapply track_abandoned; [done | done |]. apply faults_abandoned; [by eapply first_fault_not_ok | done].
    + apply (same_cpu_stored _ e1); [exact Ht |]. pose proof (same_cpu_hosts _ _ address (w / 8) Ht) as Hh. change (hosts_of (set_en_context ctx e)) with (hosts_of e) in Hh. rewrite <- Hh. exact Hwr.
  - done.
Qed.

(** Setting flags or registers after the store. *)
Lemma stored_set_context e ctx ctx' hosts r e' : stored (set_en_context ctx e) hosts r e' -> stored (set_en_context ctx' e) hosts r (set_en_context ctx' e').
Proof. intros (m & -> & Hm & Hmgr & Hh & Hv). exists m. split_and!; done. Qed.


End track.

(** ** Read-modify-write *)

Section rmw.
Context `{Callbacks}.

(** An operand is read, a result and new flags are computed from it, the result is stored: the
    fault of an operand that cannot be read or, else, cannot be written; otherwise the result and
    the flags, and nothing else. *)
Definition rmw_effect (e : cpueaxh_engine) (w : Z) (dst : operand) (spec : Z -> Z -> Z -> Prop) (e' : cpueaxh_engine) : Prop :=
  match operand_fault e w MM_PROT_READ dst, operand_fault e w MM_PROT_WRITE dst with
  | Some (ad, v), _ => abandoned e MM_PROT_READ v ad e'
  | None, Some (ad, v) => abandoned e MM_PROT_WRITE v ad e'
  | None, None => exists r rf, spec (operand_value e w dst) r rf /\ result_in e (set_c_rflags rf (en_context e)) w dst r e'
  end.

(** The body of such an instruction over a function that sets the flags. *)
Definition rmw_body (w modrm mem : Z) (flags : Z -> CPU_CONTEXT -> CPU_CONTEXT) (value : Z -> Z) : ST cpueaxh_engine unit :=
  let* src := read_rm w modrm mem in
  mod_ctx (flags src) ;;; write_rm w modrm mem (value src).

Lemma rmw_body_effect w modrm mem flags value (spec : Z -> Z -> Z -> Prop) e :
  cpu_ready e -> regs_wf (en_context e) -> reg_width w -> in_word 64 mem ->
  (forall d, keeps_fault (flags d)) ->
  (forall d, in_word w d -> exists rf, flags d (en_context e) = set_c_rflags rf (en_context e) /\ spec d (value d) rf) ->
  rmw_effect e w (rm_operand modrm mem (en_context e)) spec (final (rmw_body w modrm mem flags value) e).
Proof.
  intros Hr Hwf Hw Hm Hk Hspec. set (dst := rm_operand modrm mem (en_context e)).
  assert (Hd : operand_ok w dst) by (by apply rm_operand_ok).
  pose proof (track_start e Hr) as Ht. pose proof (track_read e _ e w dst Hr (plain_refl _) Ht Hw Hd) as Hread.
  assert (Hrun : final (rmw_body w modrm mem flags value) e =
    let '(src, e2) := read_at w dst e in snd ((mod_ctx (flags src) ;;; write_rm w modrm mem (value src)) e2)).
  { unfold final, rmw_body. unfold st_bind at 1. rewrite read_rm_at. fold dst. by destruct (read_at w dst e). }
  rewrite Hrun. clear Hrun. unfold rmw_effect.
  destruct (operand_fault e w MM_PROT_READ dst) as [[ad v] |] eqn:Hfr.
  - destruct Hread as (e2 & -> & Ha).
    assert (Hi : inert (mod_ctx (flags 0) ;;; write_rm w modrm mem (value 0))).
    { apply inert_bind; [by apply inert_mod | intros; by apply inert_write_rm]. }
    exact (Hi _ _ _ _ _ Ha).
  - destruct Hread as (e2 & -> & Ht2). assert (Hv : value_in e (en_context e) w dst = operand_value e w dst)
      by (unfold value_in; by rewrite set_own_context). rewrite Hv. clear Hv.
    pose proof (operand_in_word e w dst Hr Hwf Hw Hd Hfr) as Hdw.
    destruct (Hspec _ Hdw) as (rf & Hf & Hs). set (d := operand_value e w dst) in *.
    pose proof (track_mod e _ e2 (flags d) Ht2) as Ht3. rewrite Hf in Ht3. unfold st_bind.
    change (mod_ctx (flags d) e2) with (tt, snd (mod_ctx (flags d) e2)). cbn iota beta.
    set (e3 := snd (mod_ctx (flags d) e2)) in *.
    assert (Hrex : rex_bits e3 = rex_bits e) by (unfold rex_bits; rewrite (track_context _ _ _ Ht3); reflexivity).
    rewrite (write_rm_at w modrm mem _ e e3 Hrex). fold dst.
    pose proof (track_write e _ e3 w dst (value d) Hr (plain_set_rflags rf _) Ht3 Hw Hd) as Hwr.
    destruct (operand_fault e w MM_PROT_WRITE dst) as [[ad v] |]; [exact Hwr |]. by exists (value d), rf.
Qed.

(** The exchange loop of a locked form, and a change of the context after it: an operand that cannot
    be read faults; on memory that is not one line of host memory a fault is left pending. *)
Lemma rmw_locked_after rounds a w callback (after : Z -> Z -> CPU_CONTEXT -> CPU_CONTEXT) e :
  cpu_ready e -> reg_width w -> in_word 64 a -> a <> 0 ->
  let e' := final (let* done := cpu_atomic_rmw_memory (S rounds) a w callback in
                   match done with Some (true, old, new) => mod_ctx (after old new) | _ => st_ret tt end) e in
  let d := guest_value e a (w / 8) in
  match first_fault e a (w / 8) MM_PROT_READ with
  | Some (ad, v) => abandoned e MM_PROT_READ v ad e'
  | None =>
      lock_refused e w (Mem a) e' \/
      in_word w d /\ first_fault e a (w / 8) MM_PROT_WRITE = None /\
        result_in e (after d (wrap w (callback d)) (en_context e)) w (Mem a) (wrap w (callback d)) e'
  end.
Proof.
  intros Hr Hw Ha Hnz. cbv zeta. destruct (reg_width_bounds w Hw) as [Hb Hos]. unfold final, st_bind.
  destruct (first_fault e a (w / 8) MM_PROT_READ) as [[ad v] |] eqn:Hrd.
  { pose proof (rmw_read_fault rounds e a w callback ad v Hr Ha Hos Hrd) as Hf.
    destruct (cpu_atomic_rmw_memory (S rounds) a w callback e) as [r e1]. destruct Hf as [-> Hf].
    apply faults_abandoned; [by eapply first_fault_not_ok | done]. }
  pose proof (rmw_spec rounds e a w callback Hr Ha Hnz Hos Hrd) as Hrmw.
  destruct (cpu_atomic_rmw_memory (S rounds) a w callback e) as [r e1]. cbn zeta in Hrmw.
  destruct Hrmw as [(Hwf1 & Hl & -> & Hst) | (Hno & -> & v & ad & Hv & Hf)].
  2: { left. exists a, v, ad. split_and!; [done | done | by apply faults_abandoned]. }
  right. pose proof (guest_value_wrap e a w MM_PROT_READ (proj1 Hr) Hos Hrd) as Hgw.
  split; [rewrite <- Hgw; apply wrap_range; lia |]. split; [exact Hwf1 |]. cbn [result_in].
  unfold mod_ctx, st_modify. cbn [snd]. rewrite (stored_context _ _ _ _ Hst).
  rewrite <- (set_own_context e) in Hst at 1. exact (stored_set_context _ _ _ _ _ _ Hst).
Qed.

(** The read-modify-write behind the loop. *)
Lemma rmw_locked_effect rounds a w callback (flags : Z -> Z -> CPU_CONTEXT -> CPU_CONTEXT) (spec : Z -> Z -> Z -> Prop) e :
  cpu_ready e -> reg_width w -> in_word 64 a -> a <> 0 ->
  (forall d, in_word w d -> exists rf,
     flags d (wrap w (callback d)) (en_context e) = set_c_rflags rf (en_context e) /\ spec d (wrap w (callback d)) rf) ->
  let e' := final (let* done := cpu_atomic_rmw_memory (S rounds) a w callback in
                   match done with Some (true, old, new) => mod_ctx (flags old new) | _ => st_ret tt end) e in
  rmw_effect e w (Mem a) spec e' \/ lock_refused e w (Mem a) e'.
Proof.
  intros Hr Hw Ha Hnz Hspec. cbv zeta. pose proof (rmw_locked_after rounds a w callback flags e Hr Hw Ha Hnz) as Haf. cbv zeta in Haf.
  unfold rmw_effect. cbn [operand_fault operand_value].
  destruct (first_fault e a (w / 8) MM_PROT_READ) as [[ad v] |]; [by left |]. destruct Haf as [Href | (Hd & -> & Hres)]; [by right |]. left.
  destruct (Hspec _ Hd) as (rf & Hf & Hs). rewrite Hf in Hres. by eexists _, rf.
Qed.

End rmw.

(** The effect on a register. *)
Lemma rmw_register `{Callbacks} e w reg spec e' : rmw_effect e w (Reg reg) spec e' ->
  exists r rf, spec (get_reg w (en_context e) reg) r rf /\ en_context e' = set_reg w reg r (set_c_rflags rf (en_context e)).
Proof. intros (r & rf & Hs & Ht). exists r, rf. split; [exact Hs |]. exact (track_context _ _ _ Ht). Qed.

(** ** Storing, then setting flags *)

(** A change of the flags that looks at nothing but the flags. *)
Definition sets_flags (f : CPU_CONTEXT -> CPU_CONTEXT) (F : Z -> Z) : Prop :=
  forall ctx, cpu_has_exception ctx = false -> f ctx = set_c_rflags (F (c_rflags ctx)) ctx.

Lemma sets_flags_id : sets_flags (fun ctx => ctx) (fun rf => rf).
Proof. by intros []. Qed.
Lemma sets_flags_put k v f F : sets_flags f F -> sets_flags (fun ctx => set_flag (2 ^ k) v (f ctx)) (fun rf => put_bit k v (F rf)).
Proof.
  intros Hf ctx Hx. pose proof (Hf ctx Hx) as E. rewrite set_flag_put; [by rewrite E |]. rewrite E. exact Hx.
Qed.
Lemma sets_flags_if (b : bool) f F : sets_flags f F -> sets_flags (fun ctx => if b then f ctx else ctx) (fun rf => if b then F rf else rf).
Proof. intros Hf ctx Hx. destruct b; [by apply Hf | by apply sets_flags_id]. Qed.

Lemma set_reg_rflags w reg v rf ctx : set_c_rflags rf (set_reg w reg v ctx) = set_reg w reg v (set_c_rflags rf ctx).
Proof.
  unfold set_reg, set_reg8, set_reg16, set_reg32, set_reg64, set_reg_at. cbn [c_rex_present c_regs set_c_rflags].
  by repeat match goal with |- context [if ?b then _ else _] => destruct b end.
Qed.

Lemma set_reg_keeps_rflags w reg v ctx : c_rflags (set_reg w reg v ctx) = c_rflags ctx.
Proof.
  unfold set_reg, set_reg8, set_reg16, set_reg32, set_reg64, set_reg_at.
  by repeat match goal with |- context [if ?b then _ else _] => destruct b end.
Qed.

Section store_flags.
Context `{Callbacks}.

Lemma result_flags e ctx w dst r e1 f F :
  cpu_has_exception ctx = false -> sets_flags f F -> result_in e ctx w dst r e1 ->
  result_in e (set_c_rflags (F (c_rflags ctx)) ctx) w dst r (snd (mod_ctx f e1)).
Proof.
  intros Hx Hf Hres. destruct dst as [reg | address | value]; cbn [result_in] in *.
  - apply (track_mod _ _ _ f) in Hres. rewrite Hf in Hres.
    + by rewrite set_reg_keeps_rflags, set_reg_rflags in Hres.
    + by rewrite (plain_has_exception ctx) by apply plain_set_reg.
  - pose proof (stored_context _ _ _ _ Hres) as Hc. cbn [en_context set_en_context] in Hc.
    apply (stored_set_context _ _ (f ctx)) in Hres. unfold mod_ctx, st_modify. cbn [snd]. by rewrite Hc, Hf in *.
  - apply (track_mod _ _ _ f) in Hres. by rewrite Hf in Hres.
Qed.

(** [write_rm] and then flags, on track. *)
Lemma write_then_flags e ctx e1 w modrm mem r f F :
  cpu_ready e -> plain (en_context e) ctx -> on_track e ctx e1 -> reg_width w -> in_word 64 mem -> keeps_fault f -> sets_flags f F ->
  let dst := rm_operand modrm mem (en_context e) in
  let e' := snd ((write_rm w modrm mem r ;;; mod_ctx f) e1) in
  match operand_fault e w MM_PROT_WRITE dst with
  | None => result_in e (set_c_rflags (F (c_rflags ctx)) ctx) w dst r e'
  | Some (ad, v) => abandoned e MM_PROT_WRITE v ad e'
  end.
Proof.
  intros Hr Hp Ht Hw Hm Hk Hf dst. cbv zeta. unfold st_bind.
  assert (Hrex : rex_bits e1 = rex_bits e) by (unfold rex_bits; rewrite (track_context _ _ _ Ht); destruct (plain_rex _ _ Hp) as (-> & -> & _); done).
  rewrite (write_rm_at w modrm mem r e e1 Hrex). fold dst.
  pose proof (track_write e ctx e1 w dst r Hr Hp Ht Hw (rm_operand_ok _ _ _ _ Hm)) as Hwr.
  destruct (write_at w dst r e1) as [u e2]. cbn [snd] in Hwr.
  destruct (operand_fault e w MM_PROT_WRITE dst) as [[ad v] |].
  - exact (inert_mod f Hk _ _ _ _ _ Hwr).
  - apply result_flags; [| done | done]. rewrite (plain_has_exception _ _ Hp). apply Hr.
Qed.

(** Reading the operand, then [k] unless it faulted: the shape of most bodies. *)
Lemma read_rm_then e w modrm mem (k : Z -> ST cpueaxh_engine unit) (P : cpueaxh_engine -> Prop) :
  cpu_ready e -> regs_wf (en_context e) -> reg_width w -> in_word 64 mem ->
  let src := rm_operand modrm mem (en_context e) in
  (forall ad v e1, operand_fault e w MM_PROT_READ src = Some (ad, v) -> abandoned e MM_PROT_READ v ad e1 -> P e1) ->
  (forall d e1, operand_fault e w MM_PROT_READ src = None -> in_word w d -> d = operand_value e w src -> on_track e (en_context e) e1 ->
     P (final (k d) e1)) ->
  P (final (let* value := read_rm w modrm mem in let* faulted := get_ctx cpu_has_exception in if faulted then st_ret tt else k value) e).
Proof.
  intros Hr Hwf Hw Hm src Hfault Hok. assert (Hs : operand_ok w src) by (by apply rm_operand_ok).
  pose proof (track_read e _ e w src Hr (plain_refl _) (track_start e Hr) Hw Hs) as Hread.
  unfold final. unfold st_bind at 1. rewrite read_rm_at. fold src.
  destruct (operand_fault e w MM_PROT_READ src) as [[ad v] |] eqn:Hf.
  - destruct Hread as (e1 & -> & Ha). unfold st_bind, get_ctx, st_gets. pose proof Ha as (_ & _ & Hp & _). rewrite Hp. by eapply Hfault.
  - destruct Hread as (e1 & -> & Ht). unfold st_bind, get_ctx, st_gets. rewrite (track_context _ _ _ Ht), (proj2 (proj2 Hr)).
    unfold value_in. rewrite set_own_context. apply Hok; [done | by apply operand_in_word | done | done].
Qed.

End store_flags.
