(* ===== verification/Unary.v ===== *)
(** * instructions/inc, dec, neg, not.hpp: INC, DEC, NEG and NOT

    One operand, read, changed and stored; under LOCK the change is made by a compare-and-exchange
    loop, whose retries [rounds] bounds.  The files' functions for 8, 16, 32 and 64 bits are one
    definition over the width.  The theorem: each instruction computes its result and its flags,
    locked or not, or leaves the fault of its operand pending. *)

From Stdlib Require Import ZArith Bool List Lia.
From stdpp Require Import base tactics list.
From S2P Require Import Prelude CpuDef Flags HostMemory RegionTable RegionSplit Patches PageCache InstCache Machine CpuMemory Registers DispatchHelpers Stack Alu InstDecode Operands.

(** ** Definitions *)

Definition update_flags_inc_at (w dst res : Z) : CPU_CONTEXT -> CPU_CONTEXT :=
  if w =? 8 then update_flags_inc8 dst res else if w =? 16 then update_flags_inc16 dst res
  else if w =? 32 then update_flags_inc32 dst res else update_flags_inc64 dst res.
Definition update_flags_dec_at (w dst res : Z) : CPU_CONTEXT -> CPU_CONTEXT :=
  if w =? 8 then update_flags_dec8 dst res else if w =? 16 then update_flags_dec16 dst res
  else if w =? 32 then update_flags_dec32 dst res else update_flags_dec64 dst res.

(** [_InterlockedXor] on [n] bytes at a host pointer, its result dropped. *)
Definition interlocked_xor (n : nat) (ptr value : Z) : ST cpueaxh_engine unit :=
  let* old := st_gets (fun e => load_le n ptr (ms_heap (en_mem e))) in
  store_le (map (ptr_add ptr) (offsets_from 0 (Z.of_nat n))) (Z.lxor old value).

Section execute.
Context `{Callbacks}.
Variable rounds : nat.

(** The retry loop of NEG and NOT: the old and the new value once the exchange succeeded, [None]
    when it ended with an exception. *)
Fixpoint exchange_loop (fuel : nat) (mem_addr operand_size : Z) (value : Z -> Z) (current_value : Z) : ST cpueaxh_engine (option (Z * Z)) :=
  match fuel with
  | O => st_ret None
  | S fuel' =>
      let* mask := cpu_memory_operand_mask operand_size in
      let new_value := Z.land (value current_value) mask in
      let* exchanged := cpu_atomic_compare_exchange_memory fuel mem_addr operand_size current_value new_value in
      match exchanged with
      | Some (true, _) => st_ret (Some (current_value, new_value))
      | Some (false, observed_value) =>
          let* faulted := get_ctx cpu_has_exception in
          if faulted then st_ret None
          else
            let* mask := cpu_memory_operand_mask operand_size in
            exchange_loop fuel' mem_addr operand_size value (Z.land (default 0 observed_value) mask)
      | None => st_ret None
      end
  end.

Definition exchange_with (mem_addr operand_size : Z) (value : Z -> Z) : ST cpueaxh_engine (option (Z * Z)) :=
  let* read_result := read_memory_operand_checked mem_addr operand_size in
  if negb (rr_ok read_result) then st_ret None
  else
    let* mask := cpu_memory_operand_mask operand_size in
    exchange_loop rounds mem_addr operand_size value (Z.land (rr_value read_result) mask).

(** [*_rm_atomic]: false for a register operand, which the caller handles. *)
Definition incdec_rm_atomic (atomic : ST cpueaxh_engine (option (bool * Z * Z))) (flags : Z -> Z -> CPU_CONTEXT -> CPU_CONTEXT) (modrm : Z)
  : ST cpueaxh_engine bool :=
  if modrm_mod modrm =? 3 then st_ret false
  else
    let* done := atomic in
    match done with
    | Some (true, old_value, new_value) => mod_ctx (flags old_value new_value) ;;; st_ret true
    | _ => st_ret true
    end.
Definition inc_rm_atomic (w modrm mem_addr : Z) := incdec_rm_atomic (cpu_atomic_add_memory rounds mem_addr w 1) (update_flags_inc_at w) modrm.
Definition dec_rm_atomic (w modrm mem_addr : Z) := incdec_rm_atomic (cpu_atomic_sub_memory rounds mem_addr w 1) (update_flags_dec_at w) modrm.

Definition neg_rm_atomic (w modrm mem_addr : Z) : ST cpueaxh_engine bool :=
  if modrm_mod modrm =? 3 then st_ret false
  else
    let* done := exchange_with mem_addr w (fun current_value => u64 (0 - current_value)) in
    match done with
    | Some (current_value, new_value) => mod_ctx (update_flags_sub_at w 0 current_value new_value) ;;; st_ret true
    | None => st_ret true
    end.

Definition not_rm_atomic (w modrm mem_addr : Z) : ST cpueaxh_engine bool :=
  if modrm_mod modrm =? 3 then st_ret false
  else
    let* passthrough := st_gets cpu_is_host_write_passthrough in
    if passthrough then
      let* ptr := get_memory_write_ptr rounds mem_addr (w / 8) 0 in
      match ptr with
      | None => st_ret true
      | Some ptr =>
          if ptr =? NULL then st_ret true
          else interlocked_xor (Z.to_nat (w / 8)) ptr (Z.ones w) ;;; st_ret true
      end
    else
      let* done := exchange_with mem_addr w (fun current_value => u64 (Z.lnot current_value)) in
      st_ret true.

(** [if (has_lock_prefix && atomic(...)) return; body]. *)
Definition locked_or (has_lock_prefix : bool) (atomic : ST cpueaxh_engine bool) (body : ST cpueaxh_engine unit) : ST cpueaxh_engine unit :=
  if has_lock_prefix then let* done := atomic in if done then st_ret tt else body else body.

Definition inc_rm (w modrm mem_addr : Z) (lock : bool) : ST cpueaxh_engine unit :=
  locked_or lock (inc_rm_atomic w modrm mem_addr)
    (let* src := read_rm w modrm mem_addr in
     let result := wrap w (src + 1) in
     mod_ctx (update_flags_inc_at w src result) ;;; write_rm w modrm mem_addr result).
Definition dec_rm (w modrm mem_addr : Z) (lock : bool) : ST cpueaxh_engine unit :=
  locked_or lock (dec_rm_atomic w modrm mem_addr)
    (let* src := read_rm w modrm mem_addr in
     let result := wrap w (src - 1) in
     mod_ctx (update_flags_dec_at w src result) ;;; write_rm w modrm mem_addr result).
(** Where [0 - src] is computed: bytes and words as [int], converted to the next wider type; a doubleword
    as [uint32_t], where it wraps. *)
Definition neg_width (w : Z) : Z := if w =? 32 then 32 else raw_width w.

Definition neg_rm (w modrm mem_addr : Z) (lock : bool) : ST cpueaxh_engine unit :=
  locked_or lock (neg_rm_atomic w modrm mem_addr)
    (let* src := read_rm w modrm mem_addr in
     let result := wrap (neg_width w) (0 - src) in
     mod_ctx (update_flags_sub_at w 0 src result) ;;; write_rm w modrm mem_addr (wrap w result)).
Definition not_rm (w modrm mem_addr : Z) (lock : bool) : ST cpueaxh_engine unit :=
  locked_or lock (not_rm_atomic w modrm mem_addr)
    (let* src := read_rm w modrm mem_addr in write_rm w modrm mem_addr (wrap w (Z.lnot src))).

(** The switch over the byte and the wide opcode. *)
Definition unary_switch (byte wide : Z) (rm : Z -> Z -> Z -> bool -> ST cpueaxh_engine unit) (inst : DecodedInstruction) : ST cpueaxh_engine unit :=
  let opcode := i_opcode inst in
  if opcode =? byte then rm 8 (i_modrm inst) (i_mem_address inst) (i_has_lock_prefix inst)
  else if opcode =? wide then
    let* w := get_ctx prefix_width in rm w (i_modrm inst) (i_mem_address inst) (i_has_lock_prefix inst)
  else st_ret tt.

(** The one-byte forms of INC and DEC name their register like a ModRM byte would. *)
Definition incdec_switch (base reg_modrm : Z) (rm : Z -> Z -> Z -> bool -> ST cpueaxh_engine unit) (inst : DecodedInstruction) : ST cpueaxh_engine unit :=
  if between base (base + 7) (i_opcode inst) then
    let modrm := Z.lor reg_modrm (i_opcode inst - base) in
    let* narrow := get_ctx c_operand_size_override in
    rm (if narrow then 16 else 32) modrm 0 false
  else unary_switch 0xFE 0xFF rm inst.

Definition execute_inc_with_decoded := incdec_switch 0x40 0xC0 inc_rm.
Definition execute_dec_with_decoded := incdec_switch 0x48 0xC8 dec_rm.
Definition execute_neg_with_decoded := unary_switch 0xF6 0xF7 neg_rm.
Definition execute_not_with_decoded := unary_switch 0xF6 0xF7 not_rm.

Definition execute_inc := execute_decoded decode_inc_instruction execute_inc_with_decoded.
Definition execute_dec := execute_decoded decode_dec_instruction execute_dec_with_decoded.
Definition execute_neg := execute_decoded decode_neg_instruction execute_neg_with_decoded.
Definition execute_not := execute_decoded decode_not_instruction execute_not_with_decoded.

Definition execute_inc_fast := execute_as_cached execute_inc_with_decoded.
Definition execute_dec_fast := execute_as_cached execute_dec_with_decoded.
Definition execute_neg_fast := execute_as_cached execute_neg_with_decoded.
Definition execute_not_fast := execute_as_cached execute_not_with_decoded.

End execute.

(** ** What the instructions compute *)

Inductive unary_op := INC | DEC | NEG | NOT.

(** The result [r] and the flags [rf] of an operand [d] of [w] bits under the flags [rf0]. *)
Definition unary_spec (op : unary_op) (w rf0 d r rf : Z) : Prop :=
  let cf := Z.testbit rf0 0 in
  match op with
  | INC => r = wrap w (d + 1) /\ flags_written (with_cf cf (add_spec w d 1 0)) rf0 rf
  | DEC => r = wrap w (d - 1) /\ flags_written (with_cf cf (sub_spec w d 1 0)) rf0 rf
  | NEG => r = wrap w (- d) /\ flags_written (sub_spec w 0 d 0) rf0 rf
  | NOT => r = 2 ^ w - 1 - d /\ rf = rf0
  end.

Definition unary_operand (op : unary_op) (inst : DecodedInstruction) (ctx : CPU_CONTEXT) : option (Z * operand) :=
  let opcode := i_opcode inst in
  let rm := rm_operand (i_modrm inst) (i_mem_address inst) ctx in
  let base := match op with INC => 0x40 | _ => 0x48 end in
  match op with
  | INC | DEC =>
      if between base (base + 7) opcode
      then Some (if c_operand_size_override ctx then 16 else 32, Reg (rex_extend (c_rex_b ctx) (opcode - base)))
      else if opcode =? 0xFE then Some (8, rm) else if opcode =? 0xFF then Some (prefix_width ctx, rm) else None
  | NEG | NOT => if opcode =? 0xF6 then Some (8, rm) else if opcode =? 0xF7 then Some (prefix_width ctx, rm) else None
  end.

Definition execute_unary `{Callbacks} (rounds : nat) (op : unary_op) : DecodedInstruction -> ST cpueaxh_engine unit :=
  match op with
  | INC => execute_inc_with_decoded rounds | DEC => execute_dec_with_decoded rounds
  | NEG => execute_neg_with_decoded rounds | NOT => execute_not_with_decoded rounds
  end.

(** ** The flags *)

Lemma inc_at_written w d ctx : reg_width w -> in_word w d -> cpu_has_exception ctx = false ->
  ctx_flags_written (with_cf (Z.testbit (c_rflags ctx) 0) (add_spec w d 1 0)) ctx (update_flags_inc_at w d (wrap w (d + 1)) ctx).
Proof.
  intros [-> | [-> | [-> | ->]]] Hd Hx; unfold update_flags_inc_at; cbn [Z.eqb Pos.eqb];
    [by apply (inc_flags_written 8) | by apply (inc_flags_written 16) | by apply (inc_flags_written 32) | by apply inc64_flags_written].
Qed.

Lemma dec_at_written w d ctx : reg_width w -> in_word w d -> cpu_has_exception ctx = false ->
  ctx_flags_written (with_cf (Z.testbit (c_rflags ctx) 0) (sub_spec w d 1 0)) ctx (update_flags_dec_at w d (wrap w (d - 1)) ctx).
Proof.
  intros [-> | [-> | [-> | ->]]] Hd Hx; unfold update_flags_dec_at; cbn [Z.eqb Pos.eqb];
    [by apply (dec_flags_written 8) | by apply (dec_flags_written 16) | by apply (dec_flags_written 32) | by apply dec64_flags_written].
Qed.

(** NEG passes the difference truncated to the operand under LOCK, to twice its size otherwise. *)
Lemma neg_at_written w d res ctx : reg_width w -> in_word w d -> wrap w res = wrap w (0 - d) -> (w = 64 -> in_word 64 res) ->
  cpu_has_exception ctx = false -> ctx_flags_written (sub_spec w 0 d 0) ctx (update_flags_sub_at w 0 d res ctx).
Proof.
  intros Hw Hd Hres H64 Hx. assert (H0 : in_word w 0) by (destruct (reg_width_bounds w Hw); split; [lia | apply pow2_pos; lia]).
  destruct Hw as [-> | [-> | [-> | ->]]]; unfold update_flags_sub_at; cbn [Z.eqb Pos.eqb];
    [by apply (sub_narrow_written 8) | by apply (sub_narrow_written 16) | by apply (sub_narrow_written 32) |].
  rewrite sub64_is_narrow by (by apply H64). by apply (sub_narrow_written 64).
Qed.

Lemma lnot_word w d : 0 <= w -> in_word w d -> wrap w (Z.lnot d) = 2 ^ w - 1 - d.
Proof.
  intros Hw Hd. unfold Z.lnot, in_word in *. rewrite wrap_once_neg by lia. destruct (Z.ltb_spec (Z.pred (- d)) 0); lia.
Qed.

Lemma lxor_ones w d : 0 <= w -> in_word w d -> Z.lxor d (Z.ones w) = 2 ^ w - 1 - d.
Proof.
  intros Hw Hd. rewrite <- (lnot_word w d) by done. bitwise. rewrite Z.lnot_spec by lia. replace (0 <=? i) with true by lia.
  destruct (Z.ltb_spec i w); [by destruct (Z.testbit d i) |]. by rewrite (testbit_high w d) by (done || lia).
Qed.

Ltac unfold_unary_flags :=
  unfold update_flags_inc_at, update_flags_dec_at, update_flags_sub_at;
  repeat match goal with |- context [if ?b then _ else _] => destruct b end;
  unfold update_flags_inc8, update_flags_inc16, update_flags_inc32, update_flags_inc64, update_flags_dec8, update_flags_dec16,
    update_flags_dec32, update_flags_dec64, keeping_carry, update_flags_add8, update_flags_add16, update_flags_add32, update_flags_add_narrow,
    update_flags_add64, update_flags_sub8, update_flags_sub16, update_flags_sub32, update_flags_sub_narrow, update_flags_sub64, set_sf_zf;
  cbv zeta.

Lemma unary_flags_pending w d s r :
  keeps_fault (update_flags_inc_at w d r) /\ keeps_fault (update_flags_dec_at w d r) /\ keeps_fault (update_flags_sub_at w s d r).
Proof. split_and!; apply keeps_fault_id; intros ctx Hx; unfold_unary_flags;
    rewrite ?set_flag_pending by (rewrite ?set_flag_has_exception; exact Hx); reflexivity. Qed.

(** ** The locked loop is the one of the other locked operations *)

Section locked.
Context `{Callbacks}.

Lemma exchange_loop_is_rmw w value a : operand_size_ok w -> forall fuel current e,
  exchange_loop fuel a w value current e =
  (let '(r, e') := rmw_loop fuel a w (Z.ones w) value current e in
   (match r with Some (true, old, new) => Some (old, new) | _ => None end, e')).
Proof.
  intros Hos. induction fuel as [| fuel IH]; intros current e; [done |]. cbn [exchange_loop rmw_loop].
  unfold st_bind, get_ctx, st_gets. rewrite operand_mask_eq by done.
  destruct (cpu_atomic_compare_exchange_memory _ _ _ _ _ e) as [[[[] observed] |] e1]; [done | | done]. destruct (cpu_has_exception (en_context e1)); [done |]. rewrite operand_mask_eq by done. apply IH.
Qed.

Lemma exchange_is_rmw rounds w value a e : operand_size_ok w ->
  exchange_with rounds a w value e =
  (let '(r, e') := cpu_atomic_rmw_memory rounds a w value e in
   (match r with Some (true, old, new) => Some (old, new) | _ => None end, e')).
Proof.
  intros Hos. unfold exchange_with, cpu_atomic_rmw_memory, st_bind. rewrite operand_mask_eq by done.
  destruct (read_memory_operand_checked a w e) as [[[] v] e1]; cbn [rr_ok rr_value negb]; [| done].
  rewrite operand_mask_eq by done. by apply exchange_loop_is_rmw.
Qed.

(** The locked body of [locked_or] on memory. *)
Lemma locked_or_run w modrm mem value flags body e rounds :
  (modrm_mod modrm =? 3) = false -> operand_size_ok w ->
  forall atomic, 
  atomic e = (let* done := cpu_atomic_rmw_memory rounds mem w value in
              match done with Some (true, old, new) => mod_ctx (flags old new) ;;; st_ret true | _ => st_ret true end) e ->
  final (locked_or true atomic body) e =
  final (let* done := cpu_atomic_rmw_memory rounds mem w value in
         match done with Some (true, old, new) => mod_ctx (flags old new) | _ => st_ret tt end) e.
Proof.
  intros Hmod Hos atomic Ha. unfold locked_or, final, st_bind in *. rewrite Ha.
  by destruct (cpu_atomic_rmw_memory rounds mem w value e) as [[[[[] old] new] |] e1].
Qed.

End locked.

(** ** The instructions *)

Section correct.
Context `{Callbacks}.

(** What an instruction may end with.  [locked]: LOCK on a memory operand. *)
Definition unary_outcome (op : unary_op) (locked : bool) (e : cpueaxh_engine) (w : Z) (dst : operand) (e' : cpueaxh_engine) : Prop :=
  rmw_effect e w dst (unary_spec op w (c_rflags (en_context e))) e' \/
  locked = true /\
    (lock_refused e w dst e' \/
     op = NOT /\ cpu_is_host_write_passthrough e = true /\ operand_fault e w MM_PROT_READ dst <> None /\
       result_in e (en_context e) w dst (2 ^ w - 1 - operand_value e w dst) e').

Definition rm_of (rounds : nat) (op : unary_op) : Z -> Z -> Z -> bool -> ST cpueaxh_engine unit :=
  match op with INC => inc_rm rounds | DEC => dec_rm rounds | NEG => neg_rm rounds | NOT => not_rm rounds end.

(** The flags and the result of an operand, and the callback of the locked loop. *)
Definition unary_flags (op : unary_op) (w d r : Z) (ctx : CPU_CONTEXT) : CPU_CONTEXT :=
  match op with
  | INC => update_flags_inc_at w d r ctx | DEC => update_flags_dec_at w d r ctx
  | NEG => update_flags_sub_at w 0 d r ctx | NOT => ctx
  end.
Definition unary_result (op : unary_op) (w d : Z) : Z :=
  match op with INC => wrap w (d + 1) | DEC => wrap w (d - 1) | NEG => wrap (neg_width w) (0 - d) | NOT => wrap w (Z.lnot d) end.
Definition unary_callback (op : unary_op) (d : Z) : Z :=
  match op with
  | INC => cpu_atomic_add_callback 1 d | DEC => cpu_atomic_sub_callback 1 d | NEG => u64 (0 - d) | NOT => u64 (Z.lnot d)
  end.

Lemma flags_written_rflags f ctx ctx' : ctx_flags_written f ctx ctx' ->
  ctx' = set_c_rflags (c_rflags ctx') ctx /\ flags_written f (c_rflags ctx) (c_rflags ctx').
Proof. done. Qed.

Lemma neg_wrap w x : reg_width w -> wrap w (wrap (neg_width w) x) = wrap w x.
Proof.
  intros Hw. unfold neg_width. destruct (Z.eqb_spec w 32) as [-> |]; [by apply wrap_wrap | by apply raw_wrap].
Qed.

Lemma unary_flags_spec op w d r ctx :
  reg_width w -> in_word w d -> cpu_has_exception ctx = false ->
  r = unary_result op w d \/ r = wrap w (unary_callback op d) ->
  exists rf, unary_flags op w d r ctx = set_c_rflags rf ctx /\ unary_spec op w (c_rflags ctx) d (wrap w r) rf.
Proof.
  intros Hw Hd Hx Hr. destruct (reg_width_bounds w Hw) as [Hb _].
  assert (Hu : forall x, wrap w (u64 x) = wrap w x) by (intros; apply wrap_wrap_le; lia).
  assert (Hww : forall x, wrap w (wrap w x) = wrap w x) by (intros; apply wrap_wrap; lia).
  destruct op; cbn [unary_result unary_callback unary_flags unary_spec] in *; unfold cpu_atomic_add_callback, cpu_atomic_sub_callback in Hr; rewrite ?Hu in Hr.
  - assert (r = wrap w (d + 1)) as -> by (by destruct Hr). destruct (flags_written_rflags _ _ _ (inc_at_written w d ctx Hw Hd Hx)) as [Hc Hf].
    eexists. split; [exact Hc |]. split; [by rewrite Hww | exact Hf].
  - assert (r = wrap w (d - 1)) as -> by (by destruct Hr). destruct (flags_written_rflags _ _ _ (dec_at_written w d ctx Hw Hd Hx)) as [Hc Hf].
    eexists. split; [exact Hc |]. split; [by rewrite Hww | exact Hf].
  - assert (Hr1 : wrap w r = wrap w (0 - d)) by (destruct Hr as [-> | ->]; [by apply neg_wrap | apply Hww]).
    assert (H64 : w = 64 -> in_word 64 r) by (intros ->; destruct Hr as [-> | ->]; apply (wrap_range 64); lia).
    destruct (flags_written_rflags _ _ _ (neg_at_written w d r ctx Hw Hd Hr1 H64 Hx)) as [Hc Hf].
    eexists. split; [exact Hc |]. split; [by rewrite Hr1 | exact Hf].
  - exists (c_rflags ctx). split; [by destruct ctx |]. split; [| done].
    assert (r = wrap w (Z.lnot d)) as -> by (by destruct Hr). rewrite Hww. apply lnot_word; [lia | done].
Qed.

Lemma unary_flags_keep op w d r : keeps_fault (unary_flags op w d r).
Proof. destruct (unary_flags_pending w d 0 r) as (? & ? & ?). destruct op; [done | done | done | by apply keeps_fault_id]. Qed.

Variables (rounds : nat) (e : cpueaxh_engine) (w modrm mem : Z).
Hypotheses (Hr : cpu_ready e) (Hwf : regs_wf (en_context e)) (Hw : reg_width w) (Hm : in_word 64 mem).

(** Without LOCK, or on a register. *)
Lemma unlocked_effect op :
  rmw_effect e w (rm_operand modrm mem (en_context e)) (unary_spec op w (c_rflags (en_context e))) (final (rm_of rounds op w modrm mem false) e).
Proof.
  assert (Hrun : final (rm_of rounds op w modrm mem false) e =
    final (rmw_body w modrm mem (fun d => unary_flags op w d (unary_result op w d)) (fun d => wrap w (unary_result op w d))) e).
  { destruct (reg_width_bounds w Hw) as [Hb _].
    assert (Hww : forall x, wrap w (wrap w x) = wrap w x) by (intros; apply wrap_wrap; lia).
    destruct op; unfold rm_of, inc_rm, dec_rm, neg_rm, not_rm, locked_or, final, rmw_body, st_bind; destruct (read_rm w modrm mem e) as [src e1];
      unfold unary_flags, unary_result; rewrite ?Hww; [done.. |]. unfold mod_ctx, st_modify. by rewrite set_own_context. }
  rewrite Hrun. apply rmw_body_effect; [done.. | |].
  - intros d. apply unary_flags_keep.
  - intros d Hd. apply unary_flags_spec; [done.. | apply Hr | by left].
Qed.

(** With LOCK on memory, where the exchange loop runs. *)
Lemma loop_effect op :
  (modrm_mod modrm =? 3) = false -> mem <> 0 -> op <> NOT \/ cpu_is_host_write_passthrough e = false ->
  unary_outcome op true e w (Mem mem) (final (rm_of (S rounds) op w modrm mem true) e).
Proof.
  intros Hmod Hnz Hop. destruct (reg_width_bounds w Hw) as [_ Hos].
  assert (Hrun : final (rm_of (S rounds) op w modrm mem true) e =
    final (let* done := cpu_atomic_rmw_memory (S rounds) mem w (unary_callback op) in
           match done with Some (true, old, new) => mod_ctx (unary_flags op w old new) | _ => st_ret tt end) e).
  { destruct op; cbn [rm_of]; unfold inc_rm, dec_rm, neg_rm, not_rm;
      apply (locked_or_run w modrm mem); [done | done | | done | done | | done | done | | done | done |];
      unfold inc_rm_atomic, dec_rm_atomic, incdec_rm_atomic, neg_rm_atomic, not_rm_atomic; rewrite Hmod; [done | done | ..].
    - unfold st_bind. rewrite exchange_is_rmw by done. unfold unary_callback. by destruct (cpu_atomic_rmw_memory _ _ _ _ e) as [[[[[] old] new] |] e1].
    - destruct Hop as [? | Hp]; [done |]. unfold st_bind, st_gets. rewrite Hp, exchange_is_rmw by done. unfold unary_callback.
      destruct (cpu_atomic_rmw_memory _ _ _ _ e) as [[[[[] old] new] |] e1]; [| done | done].
      unfold mod_ctx, st_modify, unary_flags. by rewrite set_own_context. }
  rewrite Hrun.
  destruct (rmw_locked_effect rounds mem w (unary_callback op) (unary_flags op w) (unary_spec op w (c_rflags (en_context e))) e Hr Hw Hm Hnz) as [Heff | Href].
  - intros d Hd. assert (Hww : forall x, wrap w (wrap w x) = wrap w x) by (intros; apply wrap_wrap; destruct (reg_width_bounds w Hw); lia).
    destruct (unary_flags_spec op w d (wrap w (unary_callback op d)) (en_context e) Hw Hd (proj2 (proj2 Hr)) (or_intror eq_refl)) as (rf & Hf & Hs).
    rewrite Hww in Hs. by exists rf.
  - by left.
  - right. split; [done |]. by left.
Qed.

End correct.

Section theorem.
Context `{Callbacks}.

(** Locked NOT under host passthrough asks only for write permission. *)
Lemma passthrough_not_effect rounds e w modrm mem :
  cpu_ready e -> reg_width w -> in_word 64 mem -> mem <> 0 ->
  (modrm_mod modrm =? 3) = false -> cpu_is_host_write_passthrough e = true ->
  unary_outcome NOT true e w (Mem mem) (final (not_rm (S rounds) w modrm mem true) e).
Proof.
  intros Hr Hw Hm Hnz Hmod Hp. destruct (reg_width_bounds w Hw) as [Hb Hos].
  assert (Hn : 0 < w / 8 <= 8) by (destruct Hw as [-> | [-> | [-> | ->]]]; closed_ops; lia).
  unfold not_rm, locked_or, not_rm_atomic, final, st_bind, st_gets. rewrite Hmod, Hp.
  pose proof (write_ptr_spec rounds e mem (w / 8) 0 Hr Hm Hnz ltac:(lia)) as Hptr.
  destruct (get_memory_write_ptr (S rounds) mem (w / 8) 0 e) as [r e1].
  destruct Hptr as [(-> & Hnn & Hs & Hl) | (-> & (v & ad & Hv & Hf) & Hno)].
  2: { right. split; [done |]. left. exists mem, v, ad. split_and!; [done | done | by apply faults_abandoned]. }
  destruct (Z.eqb_spec (host_address (en_mem e) mem) NULL); [done |].
  pose proof Hl as [Hff Hline]. pose proof (host_word _ _ (proj1 Hr) Hm) as [Hhw _].
  unfold interlocked_xor, st_bind, st_gets. rewrite Z2Nat.id by lia. rewrite (same_cpu_heap _ _ Hs).
  rewrite (load_in_line e mem MM_PROT_WRITE) by (done || lia || apply Hr).
  assert (Hfw : first_fault e mem (w / 8) MM_PROT_WRITE = None) by (unfold first_fault; by rewrite offsets_0).
  pose proof (guest_value_wrap e mem w MM_PROT_WRITE (proj1 Hr) Hos Hfw) as Hgw. set (d := guest_value e mem (w / 8)) in *.
  assert (Hd : in_word w d) by (rewrite <- Hgw; apply wrap_range; lia). rewrite lxor_ones by (done || lia).
  assert (Hhosts : map (ptr_add (host_address (en_mem e) mem)) (offsets_from 0 (w / 8)) = hosts_of e mem (w / 8)).
  { unfold hosts_of. apply map_ext_in. intros i Hi. rewrite offsets_0 in Hi. apply list_elem_of_In, elem_of_seqZ in Hi. symmetry. apply Hline. lia. }
  rewrite Hhosts. assert (Hm1 : manager_wf (en_mem e1)) by (destruct Hs as (m & -> & _ & ?); done).
  pose proof (store_le_spec (hosts_of e mem (w / 8)) (2 ^ w - 1 - d) e1 Hm1) as Hst. unfold final in Hst.
  destruct (store_le (hosts_of e mem (w / 8)) (2 ^ w - 1 - d) e1) as [u e2]. cbn [snd] in Hst |- *.
  pose proof (same_cpu_stored _ _ _ _ _ Hs Hst) as Hst2. rewrite <- (set_own_context e) in Hst2 at 1.
  destruct (first_fault e mem (w / 8) MM_PROT_READ) as [[ad v] |] eqn:Hfr.
  - right. split; [done |]. right. split_and!; [done | done | cbn; by rewrite Hfr | exact Hst2].
  - left. unfold rmw_effect. cbn [operand_fault operand_value]. rewrite Hfr, Hfw. fold d.
    exists (2 ^ w - 1 - d), (c_rflags (en_context e)). split; [done |]. cbn [result_in].
    replace (set_c_rflags (c_rflags (en_context e)) (en_context e)) with (en_context e) by (by destruct (en_context e)). exact Hst2.
Qed.

(** One operand at one width. *)
Lemma rm_outcome rounds op (lock : bool) e w modrm mem :
  cpu_ready e -> regs_wf (en_context e) -> reg_width w -> in_word 64 mem ->
  (lock && negb (modrm_mod modrm =? 3) = true -> mem <> 0) ->
  unary_outcome op (lock && negb (modrm_mod modrm =? 3)) e w (rm_operand modrm mem (en_context e)) (final (rm_of (S rounds) op w modrm mem lock) e).
Proof.
  intros Hr Hwf Hw Hm Hnz. destruct (lock && negb (modrm_mod modrm =? 3)) eqn:Hl.
  - apply andb_true_iff in Hl as [-> Hmod%negb_true_iff]. specialize (Hnz eq_refl).
    assert (Hdst : rm_operand modrm mem (en_context e) = Mem mem) by (unfold rm_operand; by rewrite Hmod). rewrite Hdst.
    destruct (cpu_is_host_write_passthrough e) eqn:Hp; [| by apply loop_effect; [.. | right]].
    destruct op; [by apply loop_effect; [.. | left] | by apply loop_effect; [.. | left] | by apply loop_effect; [.. | left] |].
    by apply passthrough_not_effect.
  - left. assert (Hrun : final (rm_of (S rounds) op w modrm mem lock) e = final (rm_of (S rounds) op w modrm mem false) e).
    { destruct lock; [| done]. apply negb_false_iff in Hl.
      destruct op; unfold rm_of, inc_rm, dec_rm, neg_rm, not_rm, inc_rm_atomic, dec_rm_atomic, incdec_rm_atomic, neg_rm_atomic, not_rm_atomic;
        by rewrite Hl. }
    rewrite Hrun. by apply unlocked_effect.
Qed.

(** LOCK on the memory operand of the ModRM byte. *)
Definition unary_locked (op : unary_op) (inst : DecodedInstruction) : bool :=
  match op with
  | INC => negb (between 0x40 0x47 (i_opcode inst)) | DEC => negb (between 0x48 0x4F (i_opcode inst)) | _ => true
  end && i_has_lock_prefix inst && negb (modrm_mod (i_modrm inst) =? 3).

Lemma incdec_register base k digit ctx :
  base = 0x40 \/ base = 0x48 -> between base (base + 7) k = true -> digit = 0xC0 \/ digit = 0xC8 ->
  rm_operand (Z.lor digit (k - base)) 0 ctx = Reg (rex_extend (c_rex_b ctx) (k - base)) /\ (modrm_mod (Z.lor digit (k - base)) =? 3) = true.
Proof.
  intros Hbase Hk Hd. unfold between in Hk. assert (Hr : k - base = 0 \/ k - base = 1 \/ k - base = 2 \/ k - base = 3 \/
    k - base = 4 \/ k - base = 5 \/ k - base = 6 \/ k - base = 7) by lia.
  unfold rm_operand, rm_index. generalize dependent (k - base). intros x [-> | [-> | [-> | [-> | [-> | [-> | [-> | ->]]]]]]];
    by destruct Hd as [-> | ->].
Qed.

(** C25: INC, DEC, NEG and NOT compute what the architecture says.  Without hooks, on every form of
    their operand, register or memory, and at every width: an operand that cannot be read, or else
    cannot be written, leaves its own fault pending with no byte of memory changed; otherwise the
    operand becomes its value plus one, minus one, negated or complemented, truncated to the width,
    INC and DEC set five flags and keep CF, NEG sets six (CF unless the operand is zero), NOT none,
    and nothing else changes.  With LOCK the same happens in one round of the exchange loop, or, on
    memory that is not one writable line of host memory, a fault is pending and memory unchanged;
    under host passthrough locked NOT does not ask whether the memory can be read. *)
Theorem unary_instructions_correct (rounds : nat) op inst e w dst
  (Hr : cpu_ready e) (Hwf : regs_wf (en_context e)) (Hm : in_word 64 (i_mem_address inst))
  (Hl : unary_locked op inst = true -> i_mem_address inst <> 0)
  (Hop : unary_operand op inst (en_context e) = Some (w, dst)) :
  unary_outcome op (unary_locked op inst) e w dst (final (execute_unary (S rounds) op inst) e).
Proof.
  assert (H8 : reg_width 8) by by left. pose proof (prefix_width_ok (en_context e)) as Hpw.
  assert (Hnarrow : reg_width (if c_operand_size_override (en_context e) then 16 else 32))
    by (unfold reg_width; destruct (c_operand_size_override _); lia).
  unfold unary_locked in *. unfold unary_operand in Hop.
  assert (Hreg : forall base digit, base = 0x40 \/ base = 0x48 -> digit = 0xC0 \/ digit = 0xC8 -> between base (base + 7) (i_opcode inst) = true ->
    forall w0, reg_width w0 -> unary_outcome op false e w0 (Reg (rex_extend (c_rex_b (en_context e)) (i_opcode inst - base)))
      (final (rm_of (S rounds) op w0 (Z.lor digit (i_opcode inst - base)) 0 false) e)).
  { intros base digit Hbase Hdigit Hb w0 Hw0. destruct (incdec_register base (i_opcode inst) digit (en_context e) Hbase Hb Hdigit) as [<- _].
    apply (rm_outcome rounds op false e w0); [done | done | done | zcompute | done]. }
  destruct op; cbn [execute_unary];
    unfold execute_inc_with_decoded, execute_dec_with_decoded, execute_neg_with_decoded, execute_not_with_decoded, incdec_switch, unary_switch.
  - change (0x40 + 7) with 0x47 in *. destruct (between 0x40 0x47 (i_opcode inst)) eqn:Hb.
    + injection Hop as <- <-. exact (Hreg 0x40 0xC0 (or_introl eq_refl) (or_introl eq_refl) Hb _ Hnarrow).
    + destruct (i_opcode inst =? 0xFE); [| destruct (i_opcode inst =? 0xFF); [| done]]; injection Hop as <- <-;
        apply (rm_outcome rounds INC (i_has_lock_prefix inst)); assumption.
  - change (0x48 + 7) with 0x4F in *. destruct (between 0x48 0x4F (i_opcode inst)) eqn:Hb.
    + injection Hop as <- <-. exact (Hreg 0x48 0xC8 (or_intror eq_refl) (or_intror eq_refl) Hb _ Hnarrow).
    + destruct (i_opcode inst =? 0xFE); [| destruct (i_opcode inst =? 0xFF); [| done]]; injection Hop as <- <-;
        apply (rm_outcome rounds DEC (i_has_lock_prefix inst)); assumption.
  - destruct (i_opcode inst =? 0xF6); [| destruct (i_opcode inst =? 0xF7); [| done]]; injection Hop as <- <-;
      apply (rm_outcome rounds NEG (i_has_lock_prefix inst)); assumption.
  - destruct (i_opcode inst =? 0xF6); [| destruct (i_opcode inst =? 0xF7); [| done]]; injection Hop as <- <-;
      apply (rm_outcome rounds NOT (i_has_lock_prefix inst)); assumption.
Qed.
End theorem.

Module UnaryExample.
Import Bump EngineExample MemoryExample StackExample.

(** [neg esp] and [lock dec dword [0x1000]]. *)
Definition neg_esp : DecodedInstruction := set_i_modrm 0xDC (set_i_opcode 0xF7 zero_inst).
Definition lock_dec : DecodedInstruction :=
  set_i_has_lock_prefix true (set_i_mem_address 0x1000 (set_i_modrm 0x0D (set_i_opcode 0xFF zero_inst))).

Lemma unary_instructions_correct_witness :
  get_reg 32 (en_context (final (execute_unary 1 NEG neg_esp) (stacked 0x1004))) 4 = 0xFFFFEFFC /\
  guest_value (final (execute_unary 1 DEC lock_dec) (stacked 0x1004)) 0x1000 4 =
    wrap 32 (guest_value (stacked 0x1004) 0x1000 4 - 1).
Proof.
  split; [| vm_compute; reflexivity]. assert (Hv : in_word 64 0x1004) by zcompute.
  assert (Hm : in_word 64 (i_mem_address neg_esp)) by zcompute.
  assert (Hl : unary_locked NEG neg_esp = true -> i_mem_address neg_esp <> 0) by discriminate.
  assert (Hop : unary_operand NEG neg_esp (en_context (stacked 0x1004)) = Some (32, Reg 4)) by (vm_compute; reflexivity).
  destruct (unary_instructions_correct 0 NEG neg_esp (stacked 0x1004) 32 (Reg 4) (stacked_ready _) (stacked_regs _ Hv) Hm Hl Hop) as [H | [H _]].
  2: discriminate H.
  apply rmw_register in H. destruct H as (r & rf & [Hr _] & Hc).
  set (e' := final _ _) in *. clearbody e'. rewrite Hc.
  assert (get_reg 32 (en_context (stacked 0x1004)) 4 = 0x1004) as Eg by (vm_compute; reflexivity). rewrite Eg in Hr.
  assert (wrap 32 (Z.opp 0x1004) = 0xFFFFEFFC) as Ew by (vm_compute; reflexivity). rewrite Hr. change (wrap 32 (Z.opp 0x1004)) with (u32 (-4100)) in *.
  rewrite Ew. reflexivity.
Defined.

End UnaryExample.
