(* ===== verification/Shifts.v ===== *)
(** * instructions/shl, shr, sar, rol, ror, rcl, rcr.hpp: shifts and rotates

    The seven files are copies of one another but for the step of their loop, the flags behind it
    and, for the rotates, how the count is reduced; the loops go bit by bit, as many rounds as the
    masked count.  The theorem gives the loops in closed form: the shifted or rotated operand and
    the last bit shifted out, with the flags of the architecture. *)

From Stdlib Require Import ZArith Bool List Lia.
From stdpp Require Import base tactics list.
From S2P Require Import Prelude CpuDef Flags HostMemory RegionTable RegionSplit Patches PageCache InstCache Machine CpuMemory Registers DispatchHelpers Stack Segments Alu InstDecode Operands.

(** ** Definitions *)

(** [get_*_count_mask]. *)
Definition count_mask (operand_size : Z) : Z := if operand_size =? 64 then 0x3F else 0x1F.

(** One round: the value and the bit it shifts out. *)
Definition shl_step (w result : Z) : Z * bool := (Z.land (Z.shiftl result 1) (Z.ones w), has_bits result (sign_mask w)).
Definition shr_step (result : Z) : Z * bool := (Z.shiftr result 1, has_bits result 1).
Definition sar_step (w result : Z) : Z * bool :=
  let sign := has_bits result (sign_mask w) in
  let carry_out := has_bits result 1 in
  let result := Z.shiftr result 1 in
  let result := if sign then Z.lor result (sign_mask w) else result in
  (Z.land result (Z.ones w), carry_out).
Definition rol_step (w result : Z) : Z * bool :=
  let carry_out := has_bits result (sign_mask w) in
  (Z.land (Z.lor (Z.shiftl result 1) (b2z carry_out)) (Z.ones w), carry_out).
Definition ror_step (w result : Z) : Z * bool :=
  let carry_out := has_bits result 1 in
  (Z.land (Z.lor (Z.shiftr result 1) (if carry_out then sign_mask w else 0)) (Z.ones w), carry_out).

(** RCL and RCR: with the carry flag coming in. *)
Definition rcl_step (w : Z) (carry_in : bool) (result : Z) : Z * bool :=
  let carry_out := has_bits result (sign_mask w) in
  (Z.land (Z.lor (Z.shiftl result 1) (b2z carry_in)) (Z.ones w), carry_out).
Definition rcr_step (w : Z) (carry_in : bool) (result : Z) : Z * bool :=
  let carry_out := has_bits result 1 in
  (Z.land (Z.lor (Z.shiftr result 1) (if carry_in then sign_mask w else 0)) (Z.ones w), carry_out).

(** [for (i = 0; i < count; i++)] over the value and [carry_out]. *)
Fixpoint shift_loop (step : Z -> Z * bool) (count : nat) (result : Z) (carry_out : bool) : Z * bool :=
  match count with
  | O => (result, carry_out)
  | S count => let '(result, carry_out) := step result in shift_loop step count result carry_out
  end.

(** The flags behind the loops; a count of 0 has returned before, and the sizes the sign masks
    refuse were refused with the operand mask. *)
Definition update_flags_shl (result operand_size count : Z) (carry_out : bool) (ctx : CPU_CONTEXT) : CPU_CONTEXT :=
  if count =? 0 then ctx
  else
    let msb := has_bits result (sign_mask operand_size) in
    let ctx := set_flag RFLAGS_CF carry_out ctx in
    let ctx := if count =? 1 then set_flag RFLAGS_OF (xorb msb carry_out) ctx else ctx in
    let ctx := set_flag RFLAGS_SF msb ctx in
    let ctx := set_flag RFLAGS_ZF (result =? 0) ctx in
    set_flag RFLAGS_PF (calc_parity (u8 result)) ctx.
Definition update_flags_shr (original result operand_size count : Z) (carry_out : bool) (ctx : CPU_CONTEXT) : CPU_CONTEXT :=
  if count =? 0 then ctx
  else
    let ctx := set_flag RFLAGS_CF carry_out ctx in
    let ctx := if count =? 1 then set_flag RFLAGS_OF (has_bits original (sign_mask operand_size)) ctx else ctx in
    let ctx := set_flag RFLAGS_SF (has_bits result (sign_mask operand_size)) ctx in
    let ctx := set_flag RFLAGS_ZF (result =? 0) ctx in
    set_flag RFLAGS_PF (calc_parity (u8 result)) ctx.
Definition update_flags_sar (result operand_size count : Z) (carry_out : bool) (ctx : CPU_CONTEXT) : CPU_CONTEXT :=
  if count =? 0 then ctx
  else
    let ctx := set_flag RFLAGS_CF carry_out ctx in
    let ctx := if count =? 1 then set_flag RFLAGS_OF false ctx else ctx in
    let ctx := set_flag RFLAGS_SF (has_bits result (sign_mask operand_size)) ctx in
    let ctx := set_flag RFLAGS_ZF (result =? 0) ctx in
    set_flag RFLAGS_PF (calc_parity (u8 result)) ctx.
Definition update_flags_rol (result operand_size count : Z) (carry_out : bool) (ctx : CPU_CONTEXT) : CPU_CONTEXT :=
  if count =? 0 then ctx
  else
    let ctx := set_flag RFLAGS_CF carry_out ctx in
    if count =? 1 then set_flag RFLAGS_OF (xorb (has_bits result (sign_mask operand_size)) carry_out) ctx else ctx.
Definition update_flags_ror (result operand_size count : Z) (carry_out : bool) (ctx : CPU_CONTEXT) : CPU_CONTEXT :=
  if count =? 0 then ctx
  else
    let ctx := set_flag RFLAGS_CF carry_out ctx in
    if count =? 1 then
      set_flag RFLAGS_OF (xorb (has_bits result (sign_mask operand_size)) (has_bits result (Z.shiftr (sign_mask operand_size) 1))) ctx
    else ctx.
Definition update_flags_rcl := update_flags_rol.
Definition update_flags_rcr := update_flags_ror.

Section execute.
Context `{Callbacks}.

Definition known_size (operand_size : Z) : bool := one_of operand_size [8; 16; 32; 64].

(** [get_*_operand_mask], and the operand helpers with the sizes they refuse. *)
Definition get_operand_mask (operand_size : Z) : ST cpueaxh_engine Z :=
  if known_size operand_size then st_ret (Z.ones operand_size) else mod_ctx raise_ud_ctx ;;; st_ret 0.
Definition read_sized_rm (operand_size modrm mem_addr : Z) : ST cpueaxh_engine Z :=
  if known_size operand_size then read_rm operand_size modrm mem_addr else mod_ctx raise_ud_ctx ;;; st_ret 0.
Definition write_sized_rm (operand_size modrm mem_addr value : Z) : ST cpueaxh_engine unit :=
  if known_size operand_size then write_rm operand_size modrm mem_addr value else mod_ctx raise_ud_ctx.

(** [decode_*_count]. *)
Definition decode_shift_count (inst : DecodedInstruction) : ST cpueaxh_engine Z :=
  let opcode := i_opcode inst in
  if one_of opcode [0xD0; 0xD1] then st_ret 1
  else if one_of opcode [0xD2; 0xD3] then get_ctx (fun ctx => get_reg8 ctx REG_RCX)
  else if one_of opcode [0xC0; 0xC1] then st_ret (u8 (i_immediate inst))
  else mod_ctx raise_ud_ctx ;;; st_ret 0.

(** The body around a loop: the source is read, an exception or a count of 0 ends it. *)
Definition shift_body (operand_size count modrm mem_addr : Z) (loop : nat -> Z -> Z * bool) (flags : Z -> Z -> bool -> CPU_CONTEXT -> CPU_CONTEXT)
  : ST cpueaxh_engine unit :=
  let* mask := get_operand_mask operand_size in
  let* src := read_sized_rm operand_size modrm mem_addr in
  let src := Z.land src mask in
  let* faulted := get_ctx cpu_has_exception in
  if faulted then st_ret tt
  else if count =? 0 then st_ret tt
  else
    let '(result, carry_out) := loop (Z.to_nat count) src in
    write_sized_rm operand_size modrm mem_addr result ;;; mod_ctx (flags src result carry_out).

Definition shl_rm (modrm mem_addr operand_size raw_count : Z) : ST cpueaxh_engine unit :=
  let count := Z.land raw_count (count_mask operand_size) in
  shift_body operand_size count modrm mem_addr (fun n src => shift_loop (shl_step operand_size) n src false)
    (fun _ result carry_out => update_flags_shl result operand_size count carry_out).
Definition shr_rm (modrm mem_addr operand_size raw_count : Z) : ST cpueaxh_engine unit :=
  let count := Z.land raw_count (count_mask operand_size) in
  shift_body operand_size count modrm mem_addr
    (fun n src => let '(result, carry_out) := shift_loop shr_step n src false in (Z.land result (Z.ones operand_size), carry_out))
    (fun original result carry_out => update_flags_shr original result operand_size count carry_out).
Definition sar_rm (modrm mem_addr operand_size raw_count : Z) : ST cpueaxh_engine unit :=
  let count := Z.land raw_count (count_mask operand_size) in
  shift_body operand_size count modrm mem_addr (fun n src => shift_loop (sar_step operand_size) n src false)
    (fun _ result carry_out => update_flags_sar result operand_size count carry_out).

(** The rotates reduce the masked count by the operand size. *)
Definition rotate_count (operand_size raw_count : Z) : Z :=
  let count := Z.land raw_count (count_mask operand_size) in
  if operand_size =? 0 then count else Z.rem count operand_size.
Definition rol_rm (modrm mem_addr operand_size raw_count : Z) : ST cpueaxh_engine unit :=
  let count := rotate_count operand_size raw_count in
  shift_body operand_size count modrm mem_addr (fun n src => shift_loop (rol_step operand_size) n src false)
    (fun _ result carry_out => update_flags_rol result operand_size count carry_out).
Definition ror_rm (modrm mem_addr operand_size raw_count : Z) : ST cpueaxh_engine unit :=
  let count := rotate_count operand_size raw_count in
  shift_body operand_size count modrm mem_addr (fun n src => shift_loop (ror_step operand_size) n src false)
    (fun _ result carry_out => update_flags_ror result operand_size count carry_out).

Definition get_rcl_count (operand_size raw_count : Z) : ST cpueaxh_engine Z :=
  let count := Z.land raw_count (count_mask operand_size) in
  if operand_size =? 8 then st_ret (count mod 9)
  else if operand_size =? 16 then st_ret (count mod 17)
  else if one_of operand_size [32; 64] then st_ret count
  else mod_ctx raise_ud_ctx ;;; st_ret 0.

(** The loop through the carry flag of the context. *)
Fixpoint carry_loop (step : bool -> Z -> Z * bool) (count : nat) (result : Z) (carry_out : bool) : ST cpueaxh_engine (Z * bool) :=
  match count with
  | O => st_ret (result, carry_out)
  | S count =>
      let* carry_in := get_ctx (fun ctx => has_bits (c_rflags ctx) RFLAGS_CF) in
      let '(result, carry_out) := step carry_in result in
      mod_ctx (set_flag RFLAGS_CF carry_out) ;;; carry_loop step count result carry_out
  end.

Definition rotate_carry_body (step : bool -> Z -> Z * bool) (flags : Z -> Z -> Z -> bool -> CPU_CONTEXT -> CPU_CONTEXT)
  (modrm mem_addr operand_size raw_count : Z) : ST cpueaxh_engine unit :=
  let* mask := get_operand_mask operand_size in
  let* count := get_rcl_count operand_size raw_count in
  let* faulted := get_ctx cpu_has_exception in
  if faulted then st_ret tt
  else
    let* src := read_sized_rm operand_size modrm mem_addr in
    let* faulted := get_ctx cpu_has_exception in
    if faulted then st_ret tt
    else if count =? 0 then st_ret tt
    else
      let* (result, carry_out) := carry_loop step (Z.to_nat count) (Z.land src mask) false in
      write_sized_rm operand_size modrm mem_addr result ;;; mod_ctx (flags result operand_size count carry_out).

Definition rcl_rm (modrm mem_addr operand_size raw_count : Z) := rotate_carry_body (rcl_step operand_size) update_flags_rcl modrm mem_addr operand_size raw_count.
Definition rcr_rm (modrm mem_addr operand_size raw_count : Z) := rotate_carry_body (rcr_step operand_size) update_flags_rcr modrm mem_addr operand_size raw_count.

(** [execute_*_with_decoded]. *)
Definition execute_shift (rm : Z -> Z -> Z -> Z -> ST cpueaxh_engine unit) (inst : DecodedInstruction) : ST cpueaxh_engine unit :=
  let* count := decode_shift_count inst in rm (i_modrm inst) (i_mem_address inst) (i_operand_size inst) count.

Definition execute_shl_with_decoded := execute_shift shl_rm.
Definition execute_shr_with_decoded := execute_shift shr_rm.
Definition execute_sar_with_decoded := execute_shift sar_rm.
Definition execute_rol_with_decoded := execute_shift rol_rm.
Definition execute_ror_with_decoded := execute_shift ror_rm.
Definition execute_rcl_with_decoded := execute_shift rcl_rm.
Definition execute_rcr_with_decoded := execute_shift rcr_rm.

Definition execute_shl := execute_decoded decode_shl_instruction execute_shl_with_decoded.
Definition execute_shr := execute_decoded decode_shr_instruction execute_shr_with_decoded.
Definition execute_sar := execute_decoded decode_sar_instruction execute_sar_with_decoded.
Definition execute_rol := execute_decoded decode_rol_instruction execute_rol_with_decoded.
Definition execute_ror := execute_decoded decode_ror_instruction execute_ror_with_decoded.
Definition execute_rcl := execute_decoded decode_rcl_instruction execute_rcl_with_decoded.
Definition execute_rcr := execute_decoded decode_rcr_instruction execute_rcr_with_decoded.

Definition execute_shl_fast := execute_as_cached execute_shl_with_decoded.
Definition execute_shr_fast := execute_as_cached execute_shr_with_decoded.
Definition execute_sar_fast := execute_as_cached execute_sar_with_decoded.
Definition execute_rol_fast := execute_as_cached execute_rol_with_decoded.
Definition execute_ror_fast := execute_as_cached execute_ror_with_decoded.
Definition execute_rcl_fast := execute_as_cached execute_rcl_with_decoded.
Definition execute_rcr_fast := execute_as_cached execute_rcr_with_decoded.

End execute.

(** ** The loops in closed form *)

(** [d] rotated by [n] within [w] bits. *)
Definition rotl (w d n : Z) : Z := Z.lor (wrap w (Z.shiftl d n)) (Z.shiftr d (w - n)).
Definition rotr (w d n : Z) : Z := Z.lor (Z.shiftr d n) (wrap w (Z.shiftl d (w - n))).

Lemma rotl_bits w d n i : in_word w d -> 0 <= n <= w -> 0 <= i ->
  Z.testbit (rotl w d n) i = (i <? w) && (if i <? n then Z.testbit d (i + (w - n)) else Z.testbit d (i - n)).
Proof.
  intros Hd Hn Hi. unfold rotl. rewrite Z.lor_spec, testbit_wrap, Z.shiftl_spec, Z.shiftr_spec by lia.
  destruct (Z.ltb_spec i w); cbn [andb orb].
  - destruct (Z.ltb_spec i n); [by rewrite (Z.testbit_neg_r d (i - n)) by lia |].
    by rewrite (testbit_high w d (i + (w - n))), orb_false_r by (done || lia).
  - by rewrite (testbit_high w d (i + (w - n))) by (done || lia).
Qed.

Lemma rotr_bits w d n i : in_word w d -> 0 <= n <= w -> 0 <= i ->
  Z.testbit (rotr w d n) i = (i <? w) && (if i <? w - n then Z.testbit d (i + n) else Z.testbit d (i - (w - n))).
Proof.
  intros Hd Hn Hi. unfold rotr. rewrite Z.lor_spec, testbit_wrap, Z.shiftl_spec, Z.shiftr_spec by lia.
  destruct (Z.ltb_spec i w); cbn [andb orb].
  - destruct (Z.ltb_spec i (w - n)); [by rewrite (Z.testbit_neg_r d (i - (w - n))), orb_false_r by lia |].
    by rewrite (testbit_high w d (i + n)) by (done || lia).
  - by rewrite (testbit_high w d (i + n)) by (done || lia).
Qed.

(** A word from its bits. *)
Lemma word_of_bits w x : 0 <= w -> (forall i, w <= i -> Z.testbit x i = false) -> in_word w x.
Proof.
  intros Hw Hx. replace x with (wrap w x); [by apply wrap_range |]. bitwise. destruct (Z.ltb_spec i w); [done |]. by rewrite Hx.
Qed.

Lemma rotl_word w d n : in_word w d -> 0 <= n <= w -> in_word w (rotl w d n).
Proof. intros Hd Hn. apply word_of_bits; [lia |]. intros i Hi. rewrite rotl_bits by (done || lia). by destruct (Z.ltb_spec i w); [lia |]. Qed.
Lemma rotr_word w d n : in_word w d -> 0 <= n <= w -> in_word w (rotr w d n).
Proof. intros Hd Hn. apply word_of_bits; [lia |]. intros i Hi. rewrite rotr_bits by (done || lia). by destruct (Z.ltb_spec i w); [lia |]. Qed.

Ltac bit_cases :=
  repeat match goal with
  | |- context [?a <? ?b] => destruct (Z.ltb_spec a b); try lia; cbn [andb orb negb]
  | |- context [?a =? ?b] => destruct (Z.eqb_spec a b); try lia; cbn [andb orb negb]
  end.

Lemma rotl_rotl w d n : in_word w d -> 0 <= n < w -> rotl w (rotl w d 1) n = rotl w d (n + 1).
Proof.
  intros Hd Hn. pose proof (rotl_word w d 1 Hd ltac:(lia)). apply Z.bits_inj'. intros i Hi. rewrite !rotl_bits by (done || lia).
  bit_cases; rewrite ?rotl_bits by (done || lia); bit_cases; try done; f_equal; lia.
Qed.
Lemma rotr_rotr w d n : in_word w d -> 0 <= n < w -> rotr w (rotr w d 1) n = rotr w d (n + 1).
Proof.
  intros Hd Hn. pose proof (rotr_word w d 1 Hd ltac:(lia)). apply Z.bits_inj'. intros i Hi. rewrite !rotr_bits by (done || lia).
  bit_cases; rewrite ?rotr_bits by (done || lia); bit_cases; try done; f_equal; lia.
Qed.

Lemma rotl_0 w d : in_word w d -> 0 <= w -> rotl w d 0 = d.
Proof.
  intros Hd Hw. apply Z.bits_inj'. intros i Hi. rewrite rotl_bits by (done || lia). bit_cases; [f_equal; lia |]. by rewrite (testbit_high w d).
Qed.
Lemma rotr_0 w d : in_word w d -> 0 <= w -> rotr w d 0 = d.
Proof.
  intros Hd Hw. apply Z.bits_inj'. intros i Hi. rewrite rotr_bits by (done || lia). bit_cases; [f_equal; lia |]. by rewrite (testbit_high w d).
Qed.

Lemma sign_bit_of w x : 0 < w -> has_bits x (sign_mask w) = Z.testbit x (w - 1).
Proof. intros. unfold sign_mask. apply has_bits_pow2. lia. Qed.
Lemma low_bit_of x : has_bits x 1 = Z.testbit x 0.
Proof. apply (has_bits_pow2 x 0). lia. Qed.

Lemma shl_loop w n : forall r c, 0 < w -> in_word w r ->
  shift_loop (shl_step w) n r c = (wrap w (Z.shiftl r (Z.of_nat n)), if Z.of_nat n =? 0 then c else Z.testbit r (w - Z.of_nat n)).
Proof.
  induction n as [| n IH]; intros r c Hw Hr; cbn [shift_loop]; [by rewrite Z.shiftl_0_r, wrap_small |].
  unfold shl_step. rewrite sign_bit_of, wrap_ones by lia. cbv zeta. rewrite IH by (try lia; apply wrap_range; lia).
  f_equal.
  - apply Z.bits_inj'. intros i Hi. rewrite !(testbit_wrap w (Z.shiftl _ _)), !Z.shiftl_spec by lia. bit_cases; try done. destruct (Z.ltb_spec i (Z.of_nat n)).
    { by rewrite !Z.testbit_neg_r by lia. }
    rewrite testbit_wrap, Z.shiftl_spec by lia. bit_cases; f_equal; lia.
  - bit_cases; [f_equal; lia |]. destruct (Z.ltb_spec (w - Z.of_nat n) 0); [by rewrite !Z.testbit_neg_r by lia |].
    rewrite testbit_wrap, Z.shiftl_spec by lia. bit_cases; f_equal; lia.
Qed.

Lemma shr_loop n : forall r c,
  shift_loop shr_step n r c = (Z.shiftr r (Z.of_nat n), if Z.of_nat n =? 0 then c else Z.testbit r (Z.of_nat n - 1)).
Proof.
  induction n as [| n IH]; intros r c; cbn [shift_loop]; [done |].
  unfold shr_step. rewrite low_bit_of. cbv zeta. rewrite IH, Z.shiftr_shiftr by lia. f_equal; [f_equal; lia |].
  bit_cases; [f_equal; lia |]. rewrite Z.shiftr_spec by lia. f_equal. lia.
Qed.

(** SAR shifts the signed value. *)
Lemma testbit_sext w x i : 0 < w -> in_word w x -> 0 <= i -> Z.testbit (sext w x) i = Z.testbit x (Z.min i (w - 1)).
Proof.
  intros Hw Hx Hi. unfold sext. rewrite (wrap_small w x Hx).
  destruct (Z.ltb_spec x (2 ^ (w - 1))).
  - destruct (Z.ltb_spec i (w - 1)); [by rewrite Z.min_l by lia |]. rewrite Z.min_r by lia.
    rewrite !(testbit_high (w - 1) x) by (unfold in_word in *; lia || done). done.
  - replace (x - 2 ^ w) with (Z.lor x (Z.shiftl (-1) w)).
    + rewrite Z.lor_spec, Z.shiftl_spec by lia. destruct (Z.ltb_spec i w).
      * rewrite (Z.testbit_neg_r (-1)), orb_false_r by lia. f_equal. lia.
      * rewrite Z.bits_m1, orb_true_r by lia. rewrite Z.min_r, testbit_sign by (done || lia). symmetry. apply Z.leb_le. lia.
    + rewrite lor_disjoint by (done || lia). lia.
Qed.

Lemma sar_step_bits w x : 0 < w -> in_word w x -> sar_step w x = (wrap w (Z.shiftr (sext w x) 1), Z.testbit x 0).
Proof.
  intros Hw Hx. unfold sar_step. rewrite low_bit_of, sign_bit_of by lia. cbv zeta. rewrite wrap_ones by lia. f_equal.
  apply Z.bits_inj'. intros i Hi. rewrite !testbit_wrap, (Z.shiftr_spec (sext w x)), testbit_sext by (done || lia). bit_cases; try done. destruct (Z.testbit x (w - 1)) eqn:Es.
  - rewrite Z.lor_spec, Z.shiftr_spec by lia. unfold sign_mask. rewrite Z.pow2_bits_eqb by lia. bit_cases.
    + rewrite orb_true_r. symmetry. rewrite <- Es. f_equal. lia.
    + rewrite orb_false_r. f_equal. lia.
  - rewrite Z.shiftr_spec by lia. destruct (Z.eqb_spec i (w - 1)) as [-> |].
    + replace (Z.min _ _) with (w - 1) by lia. rewrite Es. apply (testbit_high w); [done | lia].
    + f_equal. lia.
Qed.

Lemma sext_range w x : 0 < w -> in_word w x -> - 2 ^ (w - 1) <= sext w x < 2 ^ (w - 1).
Proof.
  intros Hw Hx. unfold sext. rewrite (wrap_small w x Hx). unfold in_word in Hx. pose proof (pow2_double w Hw). destruct (Z.ltb_spec x (2 ^ (w - 1))); lia.
Qed.

Lemma sext_wrap w t : 0 < w -> - 2 ^ (w - 1) <= t < 2 ^ (w - 1) -> sext w (wrap w t) = t.
Proof.
  intros Hw Ht. pose proof (pow2_double w Hw). unfold sext. rewrite wrap_wrap, wrap_once_neg by lia.
  destruct (Z.ltb_spec t 0); [destruct (Z.ltb_spec (t + 2 ^ w) (2 ^ (w - 1))) | destruct (Z.ltb_spec t (2 ^ (w - 1)))]; lia.
Qed.

Lemma shiftr_range b t n : 0 <= n -> - b <= t < b -> - b <= Z.shiftr t n < b.
Proof.
  intros Hn Ht. rewrite Z.shiftr_div_pow2 by lia. pose proof (pow2_pos n Hn).
  split; [apply Z.div_le_lower_bound | apply Z.div_lt_upper_bound]; nia.
Qed.

Lemma sar_loop w n : forall x c, 0 < w -> in_word w x ->
  shift_loop (sar_step w) n x c =
  (wrap w (Z.shiftr (sext w x) (Z.of_nat n)), if Z.of_nat n =? 0 then c else Z.testbit (sext w x) (Z.of_nat n - 1)).
Proof.
  induction n as [| n IH]; intros x c Hw Hx; cbn [shift_loop].
  { rewrite Z.shiftr_0_r. f_equal. unfold sext. rewrite (wrap_small w x Hx). destruct (Z.ltb_spec x (2 ^ (w - 1))); [by rewrite wrap_small |].
    unfold in_word in *. rewrite wrap_once_neg by lia. destruct (Z.ltb_spec (x - 2 ^ w) 0); lia. }
  pose proof (sext_range w x Hw Hx) as Hs. rewrite sar_step_bits by done. rewrite IH by (try lia; apply wrap_range; lia).
  rewrite sext_wrap by (try lia; apply shiftr_range; lia). rewrite Z.shiftr_shiftr by lia. f_equal; [do 2 f_equal; lia |].
  bit_cases; [replace (Z.of_nat (S n) - 1) with 0 by lia; rewrite testbit_sext by (done || lia); f_equal; lia |].
  rewrite Z.shiftr_spec by lia. f_equal. lia.
Qed.

(** The rotates. *)
Lemma rol_step_bits w x : 0 < w -> in_word w x -> rol_step w x = (rotl w x 1, Z.testbit (rotl w x 1) 0).
Proof.
  intros Hw Hx. unfold rol_step. rewrite sign_bit_of by lia. cbv zeta. rewrite wrap_ones by lia. f_equal.
  - apply Z.bits_inj'. intros i Hi. rewrite rotl_bits, testbit_wrap, Z.lor_spec, Z.shiftl_spec by (done || lia). bit_cases; try done.
    + replace i with 0 by lia. rewrite Z.testbit_neg_r by lia. destruct (Z.testbit x _); done.
    + destruct (Z.testbit x (w - 1)); cbn [b2z]; rewrite ?Z.bits_0, ?orb_false_r; [| done].
      change 1 with (2 ^ 0) at 2. rewrite Z.pow2_bits_false by lia. by rewrite ?orb_false_r.
  - rewrite rotl_bits by (done || lia). bit_cases; f_equal; lia.
Qed.

Lemma ror_step_bits w x : 0 < w -> in_word w x -> ror_step w x = (rotr w x 1, Z.testbit (rotr w x 1) (w - 1)).
Proof.
  intros Hw Hx. unfold ror_step. rewrite low_bit_of. cbv zeta. rewrite wrap_ones by lia. f_equal.
  - apply Z.bits_inj'. intros i Hi. rewrite rotr_bits, testbit_wrap, Z.lor_spec, Z.shiftr_spec by (done || lia). unfold sign_mask.
    destruct (Z.testbit x 0) eqn:E0; rewrite ?Z.pow2_bits_eqb, ?Z.bits_0, ?orb_false_r by lia; bit_cases; try done; rewrite ?orb_false_r; try done.
    + rewrite orb_true_r. symmetry. replace (i - _) with 0 by lia. exact E0.
    + replace (i - _) with 0 by lia. rewrite E0. apply (testbit_high w); [done | lia].
  - rewrite rotr_bits by (done || lia). bit_cases; f_equal; lia.
Qed.

Lemma rol_loop w n : forall x c, Z.of_nat n <= w -> 0 < w -> in_word w x ->
  shift_loop (rol_step w) n x c = (rotl w x (Z.of_nat n), if Z.of_nat n =? 0 then c else Z.testbit (rotl w x (Z.of_nat n)) 0).
Proof.
  induction n as [| n IH]; intros x c Hn Hw Hx; cbn [shift_loop]; [by rewrite rotl_0 by (done || lia) |].
  rewrite rol_step_bits by done. rewrite IH by (try lia; apply rotl_word; done || lia). rewrite rotl_rotl by (done || lia).
  replace (Z.of_nat n + 1) with (Z.of_nat (S n)) by lia. f_equal. bit_cases; try done. by replace (Z.of_nat (S n)) with 1 by lia.
Qed.
Lemma ror_loop w n : forall x c, Z.of_nat n <= w -> 0 < w -> in_word w x ->
  shift_loop (ror_step w) n x c = (rotr w x (Z.of_nat n), if Z.of_nat n =? 0 then c else Z.testbit (rotr w x (Z.of_nat n)) (w - 1)).
Proof.
  induction n as [| n IH]; intros x c Hn Hw Hx; cbn [shift_loop]; [by rewrite rotr_0 by (done || lia) |].
  rewrite ror_step_bits by done. rewrite IH by (try lia; apply rotr_word; done || lia). rewrite rotr_rotr by (done || lia).
  replace (Z.of_nat n + 1) with (Z.of_nat (S n)) by lia. f_equal. bit_cases; try done. by replace (Z.of_nat (S n)) with 1 by lia.
Qed.

(** ** Rotating through the carry flag *)

(** The carry flag on top of the operand. *)
Definition packed (w : Z) (cf : bool) (x : Z) : Z := Z.lor x (Z.shiftl (b2z cf) w).

Lemma packed_bits w cf x i : 0 < w -> in_word w x -> 0 <= i ->
  Z.testbit (packed w cf x) i = if i <? w then Z.testbit x i else (i =? w) && cf.
Proof.
  intros Hw Hx Hi. unfold packed. rewrite Z.lor_spec, Z.shiftl_spec by lia. bit_cases.
  - by rewrite (Z.testbit_neg_r (b2z cf)), orb_false_r by lia.
  - subst i. rewrite (testbit_high w x), Z.sub_diag by (done || lia). by destruct cf.
  - rewrite (testbit_high w x) by (done || lia). destruct cf; cbn [b2z orb]; [| by rewrite Z.bits_0].
    change 1 with (2 ^ 0). rewrite Z.pow2_bits_false; [done | lia].
Qed.

Lemma packed_word w cf x : 0 < w -> in_word w x -> in_word (w + 1) (packed w cf x).
Proof. intros Hw Hx. apply word_of_bits; [lia |]. intros i Hi. rewrite packed_bits by (done || lia). bit_cases; done. Qed.

Lemma packed_split w v : 0 < w -> in_word (w + 1) v -> packed w (Z.testbit v w) (wrap w v) = v.
Proof.
  intros Hw Hv. apply Z.bits_inj'. intros i Hi. rewrite packed_bits, testbit_wrap by (try lia; apply wrap_range; lia).
  bit_cases; [done | by subst i | by rewrite (testbit_high (w + 1) v) by (done || lia)].
Qed.

Lemma rcl_step_bits w cf x : 0 < w -> in_word w x ->
  rcl_step w cf x = (wrap w (rotl (w + 1) (packed w cf x) 1), Z.testbit (rotl (w + 1) (packed w cf x) 1) w).
Proof.
  intros Hw Hx. pose proof (packed_word w cf x Hw Hx) as Hp. unfold rcl_step. rewrite sign_bit_of by lia. cbv zeta. rewrite wrap_ones by lia. f_equal.
  - apply Z.bits_inj'. intros i Hi. rewrite !testbit_wrap, rotl_bits, Z.lor_spec, Z.shiftl_spec by (done || lia).
    destruct (Z.eqb_spec i 0) as [-> |].
    + rewrite Z.testbit_neg_r by lia. bit_cases. rewrite packed_bits by (done || lia). bit_cases. by destruct cf.
    + bit_cases; try done. rewrite packed_bits by (done || lia). bit_cases.
      destruct cf; cbn [b2z]; rewrite ?Z.bits_0, ?orb_false_r; [| done]. change 1 with (2 ^ 0) at 2. rewrite Z.pow2_bits_false by lia. apply orb_false_r.
  - rewrite rotl_bits by (done || lia). bit_cases. rewrite packed_bits by (done || lia). bit_cases; done.
Qed.

Lemma rcr_step_bits w cf x : 0 < w -> in_word w x ->
  rcr_step w cf x = (wrap w (rotr (w + 1) (packed w cf x) 1), Z.testbit (rotr (w + 1) (packed w cf x) 1) w).
Proof.
  intros Hw Hx. pose proof (packed_word w cf x Hw Hx) as Hp. unfold rcr_step. rewrite low_bit_of. cbv zeta. rewrite wrap_ones by lia. f_equal.
  - apply Z.bits_inj'. intros i Hi. rewrite !testbit_wrap, rotr_bits, Z.lor_spec, Z.shiftr_spec by (done || lia). unfold sign_mask.
    bit_cases; try done. rewrite packed_bits by (done || lia).
    destruct cf; rewrite ?Z.pow2_bits_eqb, ?Z.bits_0 by lia; bit_cases; rewrite ?orb_false_r, ?orb_true_r; try done; apply (testbit_high w); (done || lia).
  - rewrite rotr_bits by (done || lia). bit_cases. rewrite packed_bits by (done || lia). bit_cases. f_equal. lia.
Qed.

(** The loop without the engine. *)
Fixpoint carry_iter (step : bool -> Z -> Z * bool) (count : nat) (cf : bool) (result : Z) : Z * bool :=
  match count with
  | O => (result, cf)
  | S count => let '(result, cf) := step cf result in carry_iter step count cf result
  end.

Lemma carry_iter_rotates w step rot n : 0 < w ->
  (forall v, in_word (w + 1) v -> rot v 0 = v) ->
  (forall v, in_word (w + 1) v -> in_word (w + 1) (rot v 1)) ->
  (forall v m, in_word (w + 1) v -> 0 <= m < w + 1 -> rot (rot v 1) m = rot v (m + 1)) ->
  (forall cf x, in_word w x -> step cf x = (wrap w (rot (packed w cf x) 1), Z.testbit (rot (packed w cf x) 1) w)) ->
  forall cf x, Z.of_nat n <= w -> in_word w x ->
  carry_iter step n cf x = (wrap w (rot (packed w cf x) (Z.of_nat n)), Z.testbit (rot (packed w cf x) (Z.of_nat n)) w).
Proof.
  intros Hw H0 H1 Hadd Hstep. induction n as [| n IH]; intros cf x Hn Hx; cbn [carry_iter].
  - pose proof (packed_word w cf x Hw Hx). rewrite H0 by done. f_equal.
    + apply Z.bits_inj'. intros i Hi. rewrite testbit_wrap, packed_bits by (done || lia). bit_cases; [done |]. by rewrite (testbit_high w x).
    + rewrite packed_bits by (done || lia). by bit_cases.
  - pose proof (packed_word w cf x Hw Hx) as Hp. rewrite Hstep by done. rewrite IH by (try lia; apply wrap_range; lia).
    rewrite packed_split by (try lia; by apply H1). rewrite Hadd by (done || lia). by replace (Z.of_nat n + 1) with (Z.of_nat (S n)) by lia.
Qed.

Section loop.
Context `{Callbacks}.

Lemma carry_loop_track e step n : forall ctx e1 x c, on_track e ctx e1 -> cpu_has_exception ctx = false ->
  exists rf e2,
    carry_loop step n x c e1 =
      ((fst (carry_iter step n (Z.testbit (c_rflags ctx) 0) x),
        if Z.of_nat n =? 0 then c else snd (carry_iter step n (Z.testbit (c_rflags ctx) 0) x)), e2) /\
    on_track e (set_c_rflags rf ctx) e2 /\ forall i, 0 < i -> Z.testbit rf i = Z.testbit (c_rflags ctx) i.
Proof.
  induction n as [| n IH]; intros ctx e1 x c Ht Hx; cbn [carry_loop carry_iter].
  { exists (c_rflags ctx), e1. split_and!; [done | | done]. by replace (set_c_rflags (c_rflags ctx) ctx) with ctx by (by destruct ctx). }
  rewrite (bind_run _ _ _ _ _ (track_get e ctx e1 _ Ht)). change RFLAGS_CF with (2 ^ 0). rewrite has_bits_pow2 by lia.
  destruct (step (Z.testbit (c_rflags ctx) 0) x) as [x1 c1]. pose proof (track_mod e ctx e1 (set_flag (2 ^ 0) c1) Ht) as Ht1.
  unfold st_bind. destruct (mod_ctx (set_flag (2 ^ 0) c1) e1) as [[] e2]. cbn [snd] in Ht1. rewrite set_flag_put in Ht1 by done.
  destruct (IH _ e2 x1 c1 Ht1 Hx) as (rf & e3 & Hrun & Ht3 & Hrf). cbn [c_rflags set_c_rflags] in *.
  rewrite testbit_put_bit in Hrun by lia. cbn [Z.eqb] in Hrun. exists rf, e3. split_and!; [| exact Ht3 |].
  - rewrite Hrun. do 2 f_equal. destruct n; [done |]. by bit_cases.
  - intros i Hi. rewrite Hrf, testbit_put_bit by lia. by bit_cases.
Qed.

End loop.

(** ** What the instructions compute *)

Inductive shift_op := SHL | SHR | SAR | ROL | ROR | RCL | RCR.

(** The number of positions: five bits of the count, six for 64-bit operands, for the rotates
    modulo their period. *)
Definition shift_count (op : shift_op) (w raw : Z) : Z :=
  let n := raw mod (if w =? 64 then 64 else 32) in
  match op with ROL | ROR => n mod w | RCL | RCR => n mod (w + 1) | _ => n end.

Definition shift_result (op : shift_op) (w : Z) (cf : bool) (d n : Z) : Z :=
  match op with
  | SHL => wrap w (Z.shiftl d n)
  | SHR => Z.shiftr d n
  | SAR => wrap w (Z.shiftr (sext w d) n)
  | ROL => rotl w d n
  | ROR => rotr w d n
  | RCL => wrap w (rotl (w + 1) (packed w cf d) n)
  | RCR => wrap w (rotr (w + 1) (packed w cf d) n)
  end.

(** The last bit that left the operand. *)
Definition shift_carry (op : shift_op) (w : Z) (cf : bool) (d n : Z) : bool :=
  match op with
  | SHL => Z.testbit d (w - n)
  | SHR => Z.testbit d (n - 1)
  | SAR => Z.testbit (sext w d) (n - 1)
  | ROL => Z.testbit (rotl w d n) 0
  | ROR => Z.testbit (rotr w d n) (w - 1)
  | RCL => Z.testbit (rotl (w + 1) (packed w cf d) n) w
  | RCR => Z.testbit (rotr (w + 1) (packed w cf d) n) w
  end.

Definition is_rotate (op : shift_op) : bool := match op with SHL | SHR | SAR => false | _ => true end.

(** The result and the flags of a count that is not 0: OF tells for a count of 1 whether the sign
    changed, and the rotates leave all flags but CF and OF. *)
Definition shift_spec (op : shift_op) (w n rf0 d r rf : Z) : Prop :=
  let cf := Z.testbit rf0 0 in
  r = shift_result op w cf d n /\
  forall i, 0 <= i ->
    Z.testbit rf i =
      (if i =? 0 then shift_carry op w cf d n
       else if (i =? 11) && (n =? 1) then xorb (Z.testbit d (w - 1)) (Z.testbit r (w - 1))
       else if is_rotate op then Z.testbit rf0 i
       else if i =? 7 then Z.testbit r (w - 1) else if i =? 6 then r =? 0 else if i =? 2 then even_parity r
       else Z.testbit rf0 i).

(** Where the count is. *)
Definition shift_raw (inst : DecodedInstruction) (ctx : CPU_CONTEXT) : option Z :=
  let opcode := i_opcode inst in
  if one_of opcode [0xD0; 0xD1] then Some 1
  else if one_of opcode [0xD2; 0xD3] then Some (get_reg 8 ctx REG_RCX)
  else if one_of opcode [0xC0; 0xC1] then Some (u8 (i_immediate inst))
  else None.

(** ** The flags *)

(** The flags of a shift as a function of the flags before. *)
Definition shifted_flags (op : shift_op) (n : Z) (cf sf zf pf overflow : bool) (rf : Z) : Z :=
  let rf := put_bit 0 cf rf in
  let rf := if n =? 1 then put_bit 11 overflow rf else rf in
  if is_rotate op then rf else put_bit 2 pf (put_bit 6 zf (put_bit 7 sf rf)).

Lemma shifted_flags_bits op n cf sf zf pf overflow rf i : 0 <= i ->
  Z.testbit (shifted_flags op n cf sf zf pf overflow rf) i =
    (if i =? 0 then cf
     else if (i =? 11) && (n =? 1) then overflow
     else if is_rotate op then Z.testbit rf i
     else if i =? 7 then sf else if i =? 6 then zf else if i =? 2 then pf else Z.testbit rf i).
Proof.
  intros Hi. unfold shifted_flags. destruct (n =? 1), (is_rotate op); rewrite !testbit_put_bit by lia; rewrite ?andb_true_r, ?andb_false_r;
    bit_cases; done.
Qed.

(** What each file computes the overflow flag from. *)
Definition overflow_of (op : shift_op) (w d r : Z) (cf : bool) : bool :=
  match op with
  | SHL | ROL | RCL => xorb (has_bits r (sign_mask w)) cf
  | SHR => has_bits d (sign_mask w)
  | SAR => false
  | ROR | RCR => xorb (has_bits r (sign_mask w)) (has_bits r (Z.shiftr (sign_mask w) 1))
  end.

Definition shift_flags (op : shift_op) (w n d r : Z) (cf : bool) : CPU_CONTEXT -> CPU_CONTEXT :=
  match op with
  | SHL => update_flags_shl r w n cf
  | SHR => update_flags_shr d r w n cf
  | SAR => update_flags_sar r w n cf
  | ROL => update_flags_rol r w n cf
  | ROR => update_flags_ror r w n cf
  | RCL => update_flags_rcl r w n cf
  | RCR => update_flags_rcr r w n cf
  end.

Ltac unfold_shift_flags :=
  unfold shift_flags, update_flags_rcl, update_flags_rcr, update_flags_shl, update_flags_shr, update_flags_sar, update_flags_rol, update_flags_ror;
  cbv zeta.

Lemma shift_flags_keep op w n d r cf : keeps_fault (shift_flags op w n d r cf).
Proof.
  apply keeps_fault_id. intros ctx Hx. destruct op; unfold_shift_flags; destruct (n =? 0), (n =? 1); try done;
    rewrite !set_flag_pending by (rewrite ?set_flag_has_exception; exact Hx); reflexivity.
Qed.

Lemma shift_flags_sets op w n d r cf : n <> 0 ->
  sets_flags (shift_flags op w n d r cf)
    (shifted_flags op n cf (has_bits r (sign_mask w)) (r =? 0) (calc_parity (u8 r)) (overflow_of op w d r cf)).
Proof.
  intros Hn ctx Hx. unfold shifted_flags. replace (n =? 0) with false by lia.
  destruct op; unfold_shift_flags; replace (n =? 0) with false by lia; destruct (n =? 1); cbn [is_rotate overflow_of];
    change RFLAGS_CF with (2 ^ 0); change RFLAGS_PF with (2 ^ 2); change RFLAGS_ZF with (2 ^ 6);
    change RFLAGS_SF with (2 ^ 7); change RFLAGS_OF with (2 ^ 11);
    repeat (rewrite set_flag_put by (rewrite ?set_flag_has_exception; exact Hx)); reflexivity.
Qed.

(** The overflow flag says whether the sign changed. *)
Lemma overflow_is_sign_change op w cf d : 8 <= w -> in_word w d ->
  overflow_of op w d (shift_result op w cf d 1) (shift_carry op w cf d 1) =
  xorb (Z.testbit d (w - 1)) (Z.testbit (shift_result op w cf d 1) (w - 1)).
Proof.
  intros Hw Hd. pose proof (packed_word w cf d ltac:(lia) Hd) as Hp.
  assert (Hs1 : Z.shiftr (sign_mask w) 1 = 2 ^ (w - 2)).
  { unfold sign_mask. rewrite Z.shiftr_div_pow2 by lia. change (2 ^ 1) with 2. rewrite (pow2_double (w - 1)) by lia.
    rewrite Z.mul_comm, Z.div_mul by lia. f_equal. lia. }
  destruct op; cbn [overflow_of shift_result shift_carry]; rewrite ?sign_bit_of, ?Hs1, ?has_bits_pow2 by lia.
  - apply xorb_comm.
  - rewrite Z.shiftr_spec by lia. replace (w - 1 + 1) with w by lia. by rewrite (testbit_high w d w), xorb_false_r by (done || lia).
  - rewrite testbit_wrap, Z.shiftr_spec, testbit_sext by (done || lia). bit_cases. replace (Z.min _ _) with (w - 1) by lia. by rewrite xorb_nilpotent.
  - rewrite !rotl_bits by (done || lia). bit_cases. replace (0 + (w - 1)) with (w - 1) by lia. apply xorb_comm.
  - rewrite !rotr_bits by (done || lia). bit_cases. replace (w - 2 + 1) with (w - 1) by lia. apply xorb_comm.
  - rewrite !testbit_wrap, !rotl_bits by (done || lia). bit_cases. rewrite !packed_bits by (done || lia). bit_cases. apply xorb_comm.
  - rewrite !testbit_wrap, !rotr_bits by (done || lia). bit_cases. rewrite !packed_bits by (done || lia). bit_cases; try done;
      replace (w - 2 + 1) with (w - 1) by lia; apply xorb_comm.
Qed.

(** The specification from the loop's result. *)
Lemma shift_spec_holds op w n rf0 d : 8 <= w -> in_word w d -> n <> 0 ->
  let cf := Z.testbit rf0 0 in
  let r := shift_result op w cf d n in
  in_word w r ->
  forall rf, (forall i, 0 < i -> Z.testbit rf i = Z.testbit rf0 i) ->
  shift_spec op w n rf0 d r
    (shifted_flags op n (shift_carry op w cf d n) (has_bits r (sign_mask w)) (r =? 0) (calc_parity (u8 r))
       (overflow_of op w d r (shift_carry op w cf d n)) rf).
Proof.
  intros Hw Hd Hn cf r Hr rf Hrf. split; [done |]. intros i Hi. rewrite shifted_flags_bits by done. fold cf.
  rewrite sign_bit_of, calc_parity_u8 by lia. destruct (Z.eqb_spec i 0); [done |].
  destruct (Z.eqb_spec n 1) as [-> |]; [unfold r; rewrite overflow_is_sign_change by done |]; rewrite ?andb_true_r, ?andb_false_r, !Hrf by lia; done.
Qed.

Lemma shift_count_range op w raw : reg_width w -> 0 <= shift_count op w raw < 64 /\ (is_rotate op = true -> shift_count op w raw <= w).
Proof.
  intros Hw. unfold shift_count. assert (H : 0 <= raw mod (if w =? 64 then 64 else 32) < 64) by (destruct (w =? 64); zdiv).
  destruct op; cbn [is_rotate]; (split; [| discriminate || intros _]); try lia; destruct Hw as [-> | [-> | [-> | ->]]]; zdiv.
Qed.

Lemma shift_result_word op w cf d n : 8 <= w -> in_word w d -> 0 <= n -> (is_rotate op = true -> n <= w) -> in_word w (shift_result op w cf d n).
Proof.
  intros Hw Hd Hn Hle. destruct op; cbn [shift_result is_rotate] in *;
    try (apply wrap_range; lia); [| apply rotl_word; [done | lia] | apply rotr_word; [done | lia]].
  apply word_of_bits; [lia |]. intros i Hi. rewrite Z.shiftr_spec by lia. apply (testbit_high w); [done | lia].
Qed.

(** The loops of the five that leave the flags alone until they end. *)
Definition plain_loop (op : shift_op) (w : Z) (n : nat) (src : Z) : Z * bool :=
  match op with
  | SHL => shift_loop (shl_step w) n src false
  | SHR => let '(result, carry_out) := shift_loop shr_step n src false in (Z.land result (Z.ones w), carry_out)
  | SAR => shift_loop (sar_step w) n src false
  | ROL => shift_loop (rol_step w) n src false
  | _ => shift_loop (ror_step w) n src false
  end.

Lemma plain_loop_result op w cf d n :
  match op with RCL | RCR => False | _ => True end -> 8 <= w -> in_word w d -> 0 < n -> (is_rotate op = true -> n <= w) ->
  plain_loop op w (Z.to_nat n) d = (shift_result op w cf d n, shift_carry op w cf d n).
Proof.
  intros Hop Hw Hd Hn Hle. pose proof (shift_result_word op w cf d n Hw Hd ltac:(lia) Hle) as Hr.
  destruct op; try done; cbn [plain_loop shift_result shift_carry is_rotate] in *;
    rewrite ?shl_loop, ?shr_loop, ?sar_loop, ?rol_loop, ?ror_loop by (done || lia); rewrite Z2Nat.id by lia; replace (n =? 0) with false by lia; try done.
  by rewrite wrap_ones, wrap_small by (done || lia).
Qed.

Section body.
Context `{Callbacks}.
Variables (e : cpueaxh_engine) (w modrm mem : Z).
Hypotheses (Hr : cpu_ready e) (Hwf : regs_wf (en_context e)) (Hw : reg_width w) (Hm : in_word 64 mem).

Let dst := rm_operand modrm mem (en_context e).

(** A count of 0 still reads the operand. *)
Definition shift_outcome (op : shift_op) (w n : Z) (dst : operand) (e' : cpueaxh_engine) : Prop :=
  if n =? 0 then
    match operand_fault e w MM_PROT_READ dst with
    | Some (ad, v) => abandoned e MM_PROT_READ v ad e'
    | None => same_cpu e e'
    end
  else rmw_effect e w dst (shift_spec op w n (c_rflags (en_context e))) e'.

Lemma known_width : known_size w = true.
Proof. by destruct Hw as [-> | [-> | [-> | ->]]]. Qed.


Lemma shift_body_effect op n :
  match op with RCL | RCR => False | _ => True end -> 0 <= n -> (is_rotate op = true -> n <= w) ->
  shift_outcome op w n dst (final (shift_body w n modrm mem (plain_loop op w) (shift_flags op w n)) e).
Proof.
  intros Hop Hn Hle. destruct (reg_width_bounds w Hw) as [Hb _]. unfold shift_body, get_operand_mask. rewrite known_width.
  unfold read_sized_rm. rewrite known_width. change (final _ e) with (final (let* src := read_rm w modrm mem in let* faulted := get_ctx cpu_has_exception in if faulted then st_ret tt else
    if n =? 0 then st_ret tt else let '(result, carry_out) := plain_loop op w (Z.to_nat n) (Z.land src (Z.ones w)) in
      write_sized_rm w modrm mem result ;;; mod_ctx (shift_flags op w n (Z.land src (Z.ones w)) result carry_out)) e).
  apply read_rm_then; [done.. | |]; fold dst.
  { intros ad v e1 Hf Ha. unfold shift_outcome, rmw_effect. rewrite Hf. by destruct (n =? 0). }
  intros d e1 Hf Hd Hv Ht. unfold shift_outcome, rmw_effect. rewrite Hf. destruct (Z.eqb_spec n 0) as [-> | Hn0].
  { by apply track_same. }
  rewrite wrap_ones, wrap_small by (done || lia). set (cf := Z.testbit (c_rflags (en_context e)) 0).
  rewrite (plain_loop_result op w cf d n) by (done || lia). unfold write_sized_rm. rewrite known_width.
  pose proof (write_then_flags e (en_context e) e1 w modrm mem (shift_result op w cf d n) _ _ Hr (plain_refl _) Ht Hw Hm
    (shift_flags_keep op w n d (shift_result op w cf d n) (shift_carry op w cf d n)) (shift_flags_sets op w n d _ _ Hn0)) as Hwr.
  cbv zeta in Hwr. fold dst in Hwr. destruct (operand_fault e w MM_PROT_WRITE dst) as [[ad v] |]; [exact Hwr |].
  eexists _, _. split; [| exact Hwr]. rewrite <- Hv. apply shift_spec_holds; [lia | done | done | | done]. apply shift_result_word; [lia | done | lia | done].
Qed.

End body.

Section carry.
Context `{Callbacks}.
Variables (e : cpueaxh_engine) (w modrm mem : Z).
Hypotheses (Hr : cpu_ready e) (Hwf : regs_wf (en_context e)) (Hw : reg_width w) (Hm : in_word 64 mem).

Let dst := rm_operand modrm mem (en_context e).

Definition carry_step (op : shift_op) (w : Z) : bool -> Z -> Z * bool := match op with RCL => rcl_step w | _ => rcr_step w end.

Lemma carry_iter_result op cf d n :
  op = RCL \/ op = RCR -> in_word w d -> 0 <= n <= w ->
  carry_iter (carry_step op w) (Z.to_nat n) cf d = (shift_result op w cf d n, shift_carry op w cf d n).
Proof.
  intros Hop Hd Hn. destruct (reg_width_bounds w Hw) as [Hb _].
  destruct Hop as [-> | ->]; cbn [carry_step shift_result shift_carry].
  - rewrite (carry_iter_rotates w _ (rotl (w + 1))); rewrite ?Z2Nat.id; try lia; try done; intros.
    + apply rotl_0; [done | lia].
    + apply rotl_word; [done | lia].
    + apply rotl_rotl; [done | lia].
    + apply rcl_step_bits; [lia | done].
  - rewrite (carry_iter_rotates w _ (rotr (w + 1))); rewrite ?Z2Nat.id; try lia; try done; intros.
    + apply rotr_0; [done | lia].
    + apply rotr_word; [done | lia].
    + apply rotr_rotr; [done | lia].
    + apply rcr_step_bits; [lia | done].
Qed.

Lemma carry_count op raw e1 : op = RCL \/ op = RCR -> get_rcl_count w raw e1 = (shift_count op w raw, e1).
Proof.
  intros Hop. unfold get_rcl_count, shift_count, count_mask. destruct Hop as [-> | ->];
    (destruct Hw as [-> | [-> | [-> | ->]]]; cbn [Z.eqb Pos.eqb one_of existsb orb];
     [change 0x1F with (Z.ones 5) | change 0x1F with (Z.ones 5) | change 0x1F with (Z.ones 5) | change 0x3F with (Z.ones 6)];
     rewrite Z.land_ones by lia; unfold st_ret; f_equal; change (2 ^ 5) with 32; change (2 ^ 6) with 64; zdiv).
Qed.

(** The loop of RCL and RCR, the store and the flags. *)
Lemma carry_tail_effect op n d e1 :
  op = RCL \/ op = RCR -> 0 < n <= w -> in_word w d -> on_track e (en_context e) e1 ->
  let e' := final (let* (result, carry_out) := carry_loop (carry_step op w) (Z.to_nat n) d false in
                   write_sized_rm w modrm mem result ;;; mod_ctx (shift_flags op w n d result carry_out)) e1 in
  match operand_fault e w MM_PROT_WRITE dst with
  | Some (ad, v) => abandoned e MM_PROT_WRITE v ad e'
  | None => exists r rf, shift_spec op w n (c_rflags (en_context e)) d r rf /\ result_in e (set_c_rflags rf (en_context e)) w dst r e'
  end.
Proof.
  intros Hop Hn Hd Ht e'. destruct (reg_width_bounds w Hw) as [Hb _].
  destruct (carry_loop_track e (carry_step op w) (Z.to_nat n) _ e1 d false Ht (proj2 (proj2 Hr))) as (rf & e2 & Hrun & Ht2 & Hrf).
  rewrite (carry_iter_result op _ d n Hop Hd) in Hrun by lia. rewrite Z2Nat.id in Hrun by lia. replace (n =? 0) with false in Hrun by lia.
  cbn [fst snd] in Hrun. subst e'. unfold final. rewrite (bind_run _ _ _ _ _ Hrun). unfold write_sized_rm. rewrite (known_width w Hw).
  set (cf := Z.testbit (c_rflags (en_context e)) 0) in *.
  pose proof (write_then_flags e _ e2 w modrm mem (shift_result op w cf d n) _ _ Hr (plain_set_rflags rf _) Ht2 Hw Hm
    (shift_flags_keep op w n d (shift_result op w cf d n) (shift_carry op w cf d n)) (shift_flags_sets op w n d _ _ ltac:(lia))) as Hwr.
  cbv zeta in Hwr. fold dst in Hwr. destruct (operand_fault e w MM_PROT_WRITE dst) as [[ad v] |]; [exact Hwr |].
  eexists _, _. split; [| exact Hwr]. apply shift_spec_holds; [lia | done | lia | | exact Hrf]. apply shift_result_word; [lia | done | lia | lia].
Qed.

Lemma rotate_carry_effect op raw :
  op = RCL \/ op = RCR -> let n := shift_count op w raw in
  shift_outcome e op w n dst
    (final (rotate_carry_body (carry_step op w) (fun result operand_size count => shift_flags op operand_size count 0 result) modrm mem w raw) e).
Proof.
  intros Hop n. destruct (reg_width_bounds w Hw) as [Hb _]. destruct (shift_count_range op w raw Hw) as [Hn Hle].
  specialize (Hle ltac:(by destruct Hop as [-> | ->])). fold n in Hn, Hle.
  assert (Hrun : final (rotate_carry_body (carry_step op w) (fun result operand_size count => shift_flags op operand_size count 0 result) modrm mem w raw) e =
    final (let* src := read_rm w modrm mem in let* faulted := get_ctx cpu_has_exception in if faulted then st_ret tt else
      if n =? 0 then st_ret tt else
        let* (result, carry_out) := carry_loop (carry_step op w) (Z.to_nat n) (Z.land src (Z.ones w)) false in
        write_sized_rm w modrm mem result ;;; mod_ctx (shift_flags op w n 0 result carry_out)) e).
  { unfold final, rotate_carry_body, get_operand_mask, read_sized_rm. rewrite (known_width w Hw). rewrite (bind_run _ _ e (Z.ones w) e eq_refl).
    rewrite (bind_run _ _ e _ _ (carry_count op raw e Hop)). rewrite (bind_run (get_ctx cpu_has_exception) _ e false e); [done |].
    unfold get_ctx, st_gets. f_equal. apply Hr. }
  rewrite Hrun. apply read_rm_then; [done.. | |]; fold dst.
  { intros ad v e1 Hf Ha. unfold shift_outcome, rmw_effect. rewrite Hf. by destruct (n =? 0). }
  intros d e1 Hf Hd Hv Ht. unfold shift_outcome, rmw_effect. rewrite Hf. destruct (Z.eqb_spec n 0) as [Hn0 |].
  { by apply track_same. }
  rewrite wrap_ones, wrap_small by (done || lia). rewrite <- Hv.
  pose proof (carry_tail_effect op n d e1 Hop ltac:(lia) Hd Ht) as Htail. cbv zeta in Htail.
  replace (fun result carry_out => shift_flags op w n d result carry_out) with (shift_flags op w n d) in Htail by done.
  assert (Hsame : shift_flags op w n 0 = shift_flags op w n d) by (by destruct Hop as [-> | ->]). rewrite Hsame. exact Htail.
Qed.

End carry.

Definition execute_shift_op `{Callbacks} (op : shift_op) : DecodedInstruction -> ST cpueaxh_engine unit :=
  match op with
  | SHL => execute_shl_with_decoded | SHR => execute_shr_with_decoded | SAR => execute_sar_with_decoded
  | ROL => execute_rol_with_decoded | ROR => execute_ror_with_decoded
  | RCL => execute_rcl_with_decoded | RCR => execute_rcr_with_decoded
  end.

Section theorem.
Context `{Callbacks}.

Lemma shift_count_run inst e raw : shift_raw inst (en_context e) = Some raw -> decode_shift_count inst e = (raw, e).
Proof.
  unfold shift_raw, decode_shift_count. destruct (one_of _ [0xD0; 0xD1]); [by intros [= ->] |].
  destruct (one_of _ [0xD2; 0xD3]); [by intros [= <-] |]. destruct (one_of _ [0xC0; 0xC1]); [by intros [= ->] | done].
Qed.

Lemma masked_count op w raw : reg_width w -> match op with SHL | SHR | SAR => True | _ => False end ->
  Z.land raw (count_mask w) = shift_count op w raw.
Proof.
  intros Hw Hop. unfold count_mask, shift_count.
  assert (E : Z.land raw (if w =? 64 then 0x3F else 0x1F) = raw mod (if w =? 64 then 64 else 32)).
  { destruct (w =? 64); [change 0x3F with (Z.ones 6) | change 0x1F with (Z.ones 5)]; by rewrite Z.land_ones by lia. }
  rewrite E. by destruct op.
Qed.

Lemma rotated_count op w raw : reg_width w -> match op with ROL | ROR => True | _ => False end -> rotate_count w raw = shift_count op w raw.
Proof.
  intros Hw Hop. unfold rotate_count. rewrite (masked_count SHL) by done. unfold shift_count.
  assert (Hn : 0 <= raw mod (if w =? 64 then 64 else 32)) by (apply Z.mod_pos_bound; destruct (w =? 64); lia).
  replace (w =? 0) with false by (destruct (reg_width_bounds w Hw); lia). rewrite Z.rem_mod_nonneg by (destruct (reg_width_bounds w Hw); lia). by destruct op.
Qed.

(** Every form in terms of the reduced count. *)
Lemma shift_instructions_spec op inst e raw
  (Hr : cpu_ready e) (Hwf : regs_wf (en_context e)) (Hw : reg_width (i_operand_size inst)) (Hm : in_word 64 (i_mem_address inst))
  (Hraw : shift_raw inst (en_context e) = Some raw) :
  let w := i_operand_size inst in
  shift_outcome e op w (shift_count op w raw) (rm_operand (i_modrm inst) (i_mem_address inst) (en_context e))
    (final (execute_shift_op op inst) e).
Proof.
  intros w. assert (Hrun : forall rm, final (execute_shift rm inst) e = final (rm (i_modrm inst) (i_mem_address inst) w raw) e)
    by (intros rm; unfold final, execute_shift; by rewrite (bind_run _ _ _ _ _ (shift_count_run inst e raw Hraw))).
  assert (Hplain : match op with RCL | RCR => False | _ => True end ->
    shift_outcome e op w (shift_count op w raw) (rm_operand (i_modrm inst) (i_mem_address inst) (en_context e))
      (final (shift_body w (shift_count op w raw) (i_modrm inst) (i_mem_address inst) (plain_loop op w) (shift_flags op w (shift_count op w raw))) e)).
  { intros Hop. destruct (shift_count_range op w raw Hw) as [Hn Hle]. by apply shift_body_effect; [done.. | lia | apply Hle]. }
  destruct op; cbn [execute_shift_op];
    unfold execute_shl_with_decoded, execute_shr_with_decoded, execute_sar_with_decoded, execute_rol_with_decoded, execute_ror_with_decoded,
      execute_rcl_with_decoded, execute_rcr_with_decoded; rewrite Hrun.
  - unfold shl_rm. rewrite (masked_count SHL) by done. exact (Hplain I).
  - unfold shr_rm. rewrite (masked_count SHR) by done. exact (Hplain I).
  - unfold sar_rm. rewrite (masked_count SAR) by done. exact (Hplain I).
  - unfold rol_rm. rewrite (rotated_count ROL) by done. exact (Hplain I).
  - unfold ror_rm. rewrite (rotated_count ROR) by done. exact (Hplain I).
  - exact (rotate_carry_effect e w _ _ Hr Hwf Hw Hm RCL raw (or_introl eq_refl)).
  - exact (rotate_carry_effect e w _ _ Hr Hwf Hw Hm RCR raw (or_intror eq_refl)).
Qed.

(** ROL or ROR by a count that is not 0 but a multiple of the width: the operand is unchanged, and the
    architecture sets CF to its low bit (ROL) or high bit (ROR). *)
Definition full_turn (op : shift_op) (w raw : Z) : bool :=
  match op with
  | ROL | ROR => negb (raw mod (if w =? 64 then 64 else 32) =? 0) && (shift_count op w raw =? 0)
  | _ => false
  end.

(** What the code does then: it reads the operand and stops; CF stays as it was. *)
Definition turn_skipped (e : cpueaxh_engine) (w : Z) (dst : operand) (e' : cpueaxh_engine) : Prop :=
  match operand_fault e w MM_PROT_READ dst with
  | Some (ad, v) => abandoned e MM_PROT_READ v ad e'
  | None => same_cpu e e'
  end.

(** C26: the shifts and rotates compute what the architecture says, but for one case of ROL and ROR,
    which the statement names.  Without hooks, with an operand in a register or memory of any width,
    and a count of 1, in CL or in the instruction: the count is taken modulo 32 (64 for 64-bit
    operands), for the rotates modulo their period; with a count of 0 the operand is read, so that
    it may fault, and nothing changes (a 32-bit register is not zero-extended either).  Otherwise
    an operand that cannot be read or else written leaves its fault pending with memory unchanged, and else SHL, SHR and SAR multiply or divide by
    a power of two, ROL and ROR rotate within the operand, RCL and RCR through the carry flag on
    top of it; CF is the last bit moved out, OF for a count of 1 whether the sign changed, the
    shifts set SF, ZF and PF of the result, and no other flag, register or byte changes.  The
    exception is [full_turn]: a byte or word rotated by a count of 8, 16 or 24 that is not 0 after
    the masking but is a multiple of the width.  The architecture sets CF to the bit that ends up
    next to the carry; the code takes the count for 0 and leaves CF alone. *)
Theorem shift_instructions_correct op inst e raw
  (Hr : cpu_ready e) (Hwf : regs_wf (en_context e)) (Hw : reg_width (i_operand_size inst)) (Hm : in_word 64 (i_mem_address inst))
  (Hraw : shift_raw inst (en_context e) = Some raw) :
  let w := i_operand_size inst in
  let dst := rm_operand (i_modrm inst) (i_mem_address inst) (en_context e) in
  let e' := final (execute_shift_op op inst) e in
  if full_turn op w raw then turn_skipped e w dst e'
  else shift_outcome e op w (shift_count op w raw) dst e'.
Proof.
  cbv zeta. pose proof (shift_instructions_spec op inst e raw Hr Hwf Hw Hm Hraw) as Hs. cbv zeta in Hs.
  destruct (full_turn op _ raw) eqn:Ht; [| exact Hs].
  assert (Hz : (shift_count op (i_operand_size inst) raw =? 0) = true)
    by (destruct op; try discriminate Ht; by apply andb_true_iff in Ht as [_ Ht]).
  unfold shift_outcome in Hs. rewrite Hz in Hs. exact Hs.
Qed.

End theorem.

Module ShiftExample.
Import Bump EngineExample MemoryExample StackExample.

(** [rcr esp, 3]. *)
Definition rcr_esp : DecodedInstruction := set_i_operand_size 32 (set_i_immediate 3 (set_i_modrm 0xDC (set_i_opcode 0xC1 zero_inst))).

Lemma shift_instructions_correct_witness :
  get_reg 32 (en_context (final (execute_shift_op RCR rcr_esp) (stacked 0x1004))) 4 = 0x200.
Proof.
  assert (Hv : in_word 64 0x1004) by zcompute. assert (Hm : in_word 64 (i_mem_address rcr_esp)) by zcompute.
  assert (Hw : reg_width (i_operand_size rcr_esp)) by (right; right; by left).
  assert (Hraw : shift_raw rcr_esp (en_context (stacked 0x1004)) = Some 3) by (vm_compute; reflexivity).
  pose proof (shift_instructions_correct RCR rcr_esp (stacked 0x1004) 3 (stacked_ready _) (stacked_regs _ Hv) Hw Hm Hraw) as H. cbv zeta in H.
  change (i_operand_size rcr_esp) with 32 in H. change (shift_count RCR 32 3) with 3 in H. change (full_turn RCR 32 3) with false in H. cbn iota in H. unfold shift_outcome in H. cbn [Z.eqb] in H.
  assert (Ho : rm_operand (i_modrm rcr_esp) (i_mem_address rcr_esp) (en_context (stacked 0x1004)) = Reg 4) by (vm_compute; reflexivity). rewrite Ho in H.
  apply rmw_register in H. destruct H as (r & rf & [Hr _] & Hc). set (e' := final _ _) in *. clearbody e'. rewrite Hc, Hr.
  vm_compute. reflexivity.
Defined.

End ShiftExample.
