(* ===== verification/Replay.v ===== *)
(** * Replaying a decoded instruction

    What AluDecode.v shows of the arithmetic group, for every decoder built from the shared one of
    InstDecode.v.  The class [Replayable] asks two things of a decoder's own stages: that raising
    is final, and that two clean runs on the same bytes in the same mode and with the same prefixes
    agree but for the address of the memory operand.  The theorem: the fast form run on an entry
    that was probed under other register values does what decoding the bytes again would do. *)

From Stdlib Require Import ZArith Bool List Lia String.
From stdpp Require Import base tactics list.
From S2P Require Import Prelude CpuDef HostMemory InstCache Machine CpuMemory Registers DispatchHelpers Stack Alu Executor Decoder AluDecode InstDecode Unary.

Local Open Scope Z_scope.

(** ** Stages that depend on bytes, prefixes and mode *)

(** What decoding asks of the mode. *)
Definition code_mode (ctx : CPU_CONTEXT) : bool * bool * bool := (c_long_mode_active ctx, cs_long_mode ctx, cs_db ctx).
Definition prefix_of (ctx : CPU_CONTEXT) : DecodedPrefixState :=
  mkPrefix (c_rex_present ctx) (c_rex_w ctx) (c_rex_r ctx) (c_rex_x ctx) (c_rex_b ctx) (c_operand_size_override ctx) (c_address_size_override ctx).
Definition same_decoding (c1 c2 : CPU_CONTEXT) : Prop := code_mode c1 = code_mode c2 /\ prefix_of c1 = prefix_of c2.

#[export] Instance same_decoding_sym : Symmetric same_decoding.
Proof. intros ? ? [? ?]. by split. Qed.

Definition clean {A} (c : ST CPU_CONTEXT A) (ctx : CPU_CONTEXT) : Prop := no_exception (snd (c ctx)).

(** Two clean runs of [k], continuing from the instruction [inst0] with its address in either
    context, end with one instruction but for its address, at one offset, the contexts untouched. *)
Definition uniform_on (inst0 : DecodedInstruction) (k : DecodedInstruction -> ST CPU_CONTEXT (DecodedInstruction * Z * bool)) : Prop :=
  forall c1 c2, same_decoding c1 c2 -> address_ok inst0 0 c1 -> address_ok inst0 0 c2 ->
    clean (k (with_address inst0 0 c1)) c1 -> clean (k (with_address inst0 0 c2)) c2 ->
    exists inst offset,
      (k (with_address inst0 0 c1) c1 = ((with_address inst 0 c1, offset, true), c1) /\ address_ok inst 0 c1) /\
      (k (with_address inst0 0 c2) c2 = ((with_address inst 0 c2, offset, true), c2) /\ address_ok inst 0 c2).

Definition uniform (c : ST CPU_CONTEXT (DecodedInstruction * Z * bool)) : Prop := uniform_on zero_inst (fun _ => c).

Lemma address_ok_none inst len ctx : i_has_modrm inst = false -> address_ok inst len ctx.
Proof. intros Hm. unfold address_ok, decoded_inst_needs_mem_recompute. by rewrite Hm. Qed.

Lemma uniform_plain (c : ST CPU_CONTEXT (DecodedInstruction * Z * bool)) inst k :
  i_has_modrm inst = false -> uniform_on inst k -> (forall ctx, k (with_address inst 0 ctx) = c) -> uniform c.
Proof.
  intros Hm Hu Hk c1 c2 Hs _ _ H1 H2. cbv beta in H1, H2. rewrite <- (Hk c1) in H1. rewrite <- (Hk c2) in H2.
  destruct (Hu c1 c2 Hs (address_ok_none _ _ _ Hm) (address_ok_none _ _ _ Hm) H1 H2) as (i & o & R1 & R2).
  rewrite Hk in R1, R2. by exists i, o.
Qed.

Lemma uniform_raise inst k f : (forall ctx, ~ no_exception (f ctx)) -> (forall i ctx, snd (k i ctx) = f ctx) -> uniform_on inst k.
Proof. intros Hf Hk c1 c2 _ _ _ H1. unfold clean in H1. rewrite Hk in H1. by apply Hf in H1. Qed.

Lemma uniform_if inst (b : bool) k1 k2 : uniform_on inst k1 -> uniform_on inst k2 -> uniform_on inst (fun i => if b then k1 i else k2 i).
Proof. by destruct b. Qed.

(** A test that raises, and one of the context's mode or prefixes. *)
Lemma uniform_ud inst (b : DecodedInstruction -> bool) k :
  (forall i, sticky (k i)) -> (forall ctx, b (with_address inst 0 ctx) = b inst) ->
  uniform_on inst k -> uniform_on inst (fun i => ud_if (b i) ;;; k i).
Proof.
  intros Hst Hb Hu c1 c2 Hs O1 O2 H1 H2. unfold clean in *. cbv beta in *. rewrite Hb in H1, H2. setoid_rewrite Hb. unfold ud_if in *.
  destruct (clean_if_raise _ _ _ _ ud_not_clean (Hst _) H1) as [E R1]. destruct (clean_if_raise _ _ _ _ ud_not_clean (Hst _) H2) as [_ R2].
  rewrite R1 in H1. rewrite R2 in H2. destruct (Hu c1 c2 Hs O1 O2 H1 H2) as (i & o & Q1 & Q2). exists i, o. by rewrite R1, R2.
Qed.

Lemma uniform_gets {A} inst (f : CPU_CONTEXT -> A) k :
  (forall c1 c2, same_decoding c1 c2 -> f c1 = f c2) -> (forall a, uniform_on inst (fun i => k i a)) ->
  uniform_on inst (fun i => let* a := st_gets f in k i a).
Proof.
  intros Hf Hk c1 c2 Hs O1 O2 H1 H2. unfold clean in *. cbv beta in *. unfold st_bind, st_gets in *. rewrite <- (Hf _ _ Hs) in H2 |- *.
  exact (Hk (f c1) c1 c2 Hs O1 O2 H1 H2).
Qed.

(** The end of a stage. *)
Lemma uniform_ret inst (g : DecodedInstruction -> DecodedInstruction) offset :
  (forall ctx, g (with_address inst 0 ctx) = with_address (g inst) 0 ctx) -> (forall ctx, address_ok inst 0 ctx -> address_ok (g inst) 0 ctx) ->
  uniform_on inst (fun i => st_ret (g i, offset, true)).
Proof.
  intros Hg Ha c1 c2 _ O1 O2 _ _. exists (g inst), offset. unfold st_ret. rewrite !Hg. split; (split; [done | by apply Ha]).
Qed.

Lemma uniform_done inst offset : uniform_on inst (fun i => st_ret (i, offset, true)).
Proof. by apply (uniform_ret inst (fun i => i)). Qed.

Lemma with_address_fields inst ctx :
  i_modrm (with_address inst 0 ctx) = i_modrm inst /\ i_opcode (with_address inst 0 ctx) = i_opcode inst /\
  i_operand_size (with_address inst 0 ctx) = i_operand_size inst /\ i_imm_size (with_address inst 0 ctx) = i_imm_size inst.
Proof. unfold with_address. by destruct (decoded_inst_needs_mem_recompute inst). Qed.

Lemma with_address_set inst n v s ctx :
  set_i_imm_size n (set_i_immediate v (with_address inst 0 ctx)) = with_address (set_i_imm_size n (set_i_immediate v inst)) 0 ctx /\
  set_i_operand_size s (with_address inst 0 ctx) = with_address (set_i_operand_size s inst) 0 ctx.
Proof.
  unfold with_address, decoded_inst_needs_mem_recompute. cbn [i_has_modrm i_modrm set_i_immediate set_i_imm_size set_i_operand_size].
  by destruct (_ && _).
Qed.

(** ** The shared pieces are uniform *)

Lemma sticky_modrm_by rule code inst offset lock : sticky (decode_modrm_by rule code inst offset lock).
Proof. unfold decode_modrm_by. sticky_steps. Qed.
#[export] Hint Resolve sticky_modrm_by : sticky.

Lemma modrm_by_clean rule code inst offset lock ctx :
  clean (decode_modrm_by rule code inst offset lock) ctx ->
  exists inst1 offset1, modrm_parse code inst offset = Some (inst1, offset1) /\
    decode_modrm_by rule code inst offset lock ctx = ((with_address inst1 0 ctx, offset1), ctx) /\ i_has_modrm inst1 = true /\ address_ok inst1 0 ctx.
Proof.
  unfold clean, decode_modrm_by, modrm_parse. destruct (size_of code <=? offset); [intros Hn; by apply gp_not_clean in Hn |]. cbv zeta.
  set (inst0 := set_i_modrm _ _). intros Hn. apply clean_bind in Hn as Hc; [| intros [[? ?] ?]; sticky_steps].
  destruct (sib_disp_clean code inst0 (offset + 1) ctx eq_refl Hc) as (inst1 & offset1 & Hp & Hd & Hm1 & Hok).
  exists inst1, offset1. split; [done |]. split; [| done]. revert Hn. rewrite !(bind_run _ _ _ _ _ Hd). intros Hn.
  unfold ud_if in *. apply clean_if_raise in Hn as [_ Hn']; [| apply ud_not_clean | done]. exact Hn'.
Qed.

(** A ModRM byte and what follows it. *)
Lemma uniform_modrm rule code inst offset lock (k : DecodedInstruction -> Z -> ST CPU_CONTEXT (DecodedInstruction * Z * bool)) :
  (forall i o, sticky (k i o)) -> (forall i o, uniform_on i (fun i => k i o)) ->
  uniform (let* (i, o) := decode_modrm_by rule code inst offset lock in k i o).
Proof.
  intros Hst Hk c1 c2 Hs _ _ H1 H2. cbv beta in *. unfold clean in *.
  apply clean_bind in H1 as C1; [| intros [? ?]; apply Hst]. apply clean_bind in H2 as C2; [| intros [? ?]; apply Hst].
  destruct (modrm_by_clean _ _ _ _ _ _ C1) as (i1 & o1 & P1 & R1 & _ & O1). destruct (modrm_by_clean _ _ _ _ _ _ C2) as (i2 & o2 & P2 & R2 & _ & O2).
  rewrite P1 in P2. injection P2 as <- <-. rewrite (bind_run _ _ _ _ _ R1) in H1 |- *. rewrite (bind_run _ _ _ _ _ R2) in H2 |- *.
  exact (Hk i1 o1 c1 c2 Hs O1 O2 H1 H2).
Qed.

Lemma sticky_count code inst offset : sticky (decode_count code inst offset).
Proof. unfold decode_count. sticky_steps. Qed.
#[export] Hint Resolve sticky_count : sticky.

Lemma uniform_count code inst offset : uniform_on inst (fun i => decode_count code i offset).
Proof.
  unfold decode_count. destruct (size_of code <=? offset).
  - apply (uniform_raise _ _ (raise_gp_ctx 0)); [apply gp_not_clean | done].
  - apply (uniform_ret inst (fun i => set_i_imm_size 1 (set_i_immediate (byte_at code offset) i))).
    + intros ctx. apply (with_address_set inst 1 (byte_at code offset) 0 ctx).
    + done.
Qed.

Lemma uniform_immediate code inst offset n : uniform_on inst (fun i => decode_alu_immediate code i offset n).
Proof.
  unfold decode_alu_immediate. cbv zeta. destruct (size_of code <? offset + n).
  - apply (uniform_raise _ _ (raise_gp_ctx 0)); [apply gp_not_clean | done].
  - apply (uniform_ret inst (fun i => set_i_immediate (field_value code offset n) (set_i_imm_size n i))).
    + intros ctx. apply with_address_immediate.
    + done.
Qed.

Lemma uniform_modrm_operands rule code inst offset lock : uniform (modrm_operands rule code inst offset lock).
Proof. unfold modrm_operands. apply uniform_modrm; [intros; sticky_steps | intros; apply uniform_done]. Qed.

Lemma uniform_group rule form code inst offset lock : uniform (group_operands rule form code inst offset lock).
Proof.
  unfold group_operands. destruct (form (i_opcode inst)) as [f |].
  - apply uniform_modrm; [intros; sticky_steps |]. intros i o. apply uniform_ud.
    + intros; sticky_steps.
    + intros ctx. unfold modrm_digit. by destruct (with_address_fields i ctx) as (-> & _).
    + destruct (gf_count f); [apply uniform_count | apply uniform_done].
  - apply (uniform_raise _ _ raise_ud_ctx); [apply ud_not_clean | done].
Qed.

Lemma sticky_modrm_operands rule code inst offset lock : sticky (modrm_operands rule code inst offset lock).
Proof. unfold modrm_operands. sticky_steps. Qed.
Lemma sticky_group rule form code inst offset lock : sticky (group_operands rule form code inst offset lock).
Proof. unfold group_operands. sticky_steps. Qed.
#[export] Hint Resolve sticky_modrm_operands sticky_group : sticky.

Lemma same_decoding_64 c1 c2 : same_decoding c1 c2 -> cpu_is_64bit_code c1 = cpu_is_64bit_code c2.
Proof. intros [[= H1 H2 _] _]. unfold cpu_is_64bit_code, cpu_long_mode_active. by rewrite H1, H2. Qed.

Lemma uniform_ud_plain (b : bool) inst k : sticky k -> uniform_on inst (fun _ => k) -> uniform_on inst (fun _ => ud_if b ;;; k).
Proof. intros Hk Hu. exact (uniform_ud inst (fun _ => b) (fun _ => k) (fun _ => Hk) (fun _ => eq_refl) Hu). Qed.

(** An instruction that has no ModRM byte yet is its own under any address. *)
Lemma uniform_here inst offset : i_has_modrm inst = false -> uniform (st_ret (inst, offset, true)).
Proof.
  intros Hm c1 c2 _ _ _ _ _. exists inst, offset. rewrite !(with_address_none inst) by done.
  split; (split; [done | by apply address_ok_none]).
Qed.

Lemma uniform_incdec base digit code inst offset lock : i_has_modrm inst = false -> uniform (incdec_operands base digit code inst offset lock).
Proof.
  intros Hm. unfold incdec_operands. destruct (between base (base + 7) (i_opcode inst)); [| apply uniform_group].
  apply (uniform_gets zero_inst cpu_is_64bit_code (fun _ long => ud_if long ;;; st_ret (inst, offset, true))); [apply same_decoding_64 |].
  intros long. apply uniform_ud_plain; [apply sticky_ret | by apply uniform_here].
Qed.

Lemma sticky_incdec base digit code inst offset lock : sticky (incdec_operands base digit code inst offset lock).
Proof. unfold incdec_operands. sticky_steps. Qed.
#[export] Hint Resolve sticky_incdec : sticky.

(** ** The interface of a decoder *)

(** What an opcode stage read, when it raised nothing: the same for any two contexts. *)
Definition opcode_stage (c : ST CPU_CONTEXT (Z * Z * bool)) : Prop :=
  sticky c /\ forall c1 c2, clean c c1 -> clean c c2 ->
    exists opcode offset, c c1 = ((opcode, offset, true), c1) /\ c c2 = ((opcode, offset, true), c2).

Class Replayable (r : DecoderRules) : Prop := {
  rp_opcode : forall code offset, opcode_stage (dr_opcode r code offset);
  rp_sticky : forall code inst offset lock, sticky (dr_operands r code inst offset lock);
  rp_operands : forall code inst offset lock, i_has_modrm inst = false -> uniform (dr_operands r code inst offset lock);
}.

Lemma one_byte_stage code offset : opcode_stage (one_byte_opcode code offset).
Proof. split; [apply sticky_ret |]. intros c1 c2 _ _. by eexists _, _. Qed.

Lemma two_byte_stage opcodes code offset : opcode_stage (two_byte_opcode opcodes code offset).
Proof.
  split; [unfold two_byte_opcode; sticky_steps |].
  assert (Hone : forall ctx, clean (two_byte_opcode opcodes code offset) ctx ->
    two_byte_opcode opcodes code offset ctx = ((byte_at code (offset + 1), offset + 2, true), ctx)).
  { intros ctx Hn. unfold clean, two_byte_opcode, ud_if in *. apply clean_if_raise in Hn as H1;
      [| apply ud_not_clean | match goal with |- forall ctx, no_exception (snd (?k ctx)) -> _ => change (sticky k) end; sticky_steps].
    destruct H1 as [_ E1]. rewrite E1 in Hn |- *. destruct (size_of code <=? offset + 1); [by apply gp_not_clean in Hn |]. cbv zeta in *.
    apply clean_if_raise in Hn as H2; [| apply ud_not_clean | done]. destruct H2 as [_ ->]. done. }
  intros c1 c2 H1 H2. eexists _, _. split; by apply Hone.
Qed.

#[export] Instance group_replayable checked rule keeps default form :
  Replayable (mkRules checked false keeps default one_byte_opcode (group_operands rule form)).
Proof. split; intros; cbn; [apply one_byte_stage | auto with sticky | apply uniform_group]. Qed.

#[export] Instance incdec_replayable base digit : Replayable (incdec_rules base digit).
Proof. split; intros; cbn; [apply one_byte_stage | auto with sticky | by apply uniform_incdec]. Qed.

(** ** The prefix loop *)

(** The loop without the context, in a mode where REX bytes are prefixes when [rex] says so. *)
Fixpoint inst_prefixes (rex : Z -> bool) (code : list Z) (offset : Z) (lock : bool) (p : DecodedPrefixState) : DecodedPrefixState * Z * bool :=
  match code with
  | [] => (p, offset, lock)
  | b :: code =>
      if b =? 0x66 then inst_prefixes rex code (offset + 1) lock
        (mkPrefix (pre_rex_present p) (pre_rex_w p) (pre_rex_r p) (pre_rex_x p) (pre_rex_b p) true (pre_address_size_override p))
      else if b =? 0x67 then inst_prefixes rex code (offset + 1) lock
        (mkPrefix (pre_rex_present p) (pre_rex_w p) (pre_rex_r p) (pre_rex_x p) (pre_rex_b p) (pre_operand_size_override p) true)
      else if rex b then inst_prefixes rex code (offset + 1) lock
        (mkPrefix true (Z.testbit b 3) (Z.testbit b 2) (Z.testbit b 1) (Z.testbit b 0) (pre_operand_size_override p) (pre_address_size_override p))
      else if b =? 0xF0 then inst_prefixes rex code (offset + 1) true p
      else if is_segment_prefix b || (b =? 0xF2) || (b =? 0xF3) then inst_prefixes rex code (offset + 1) lock p
      else (p, offset, lock)
  end.

Definition rex_taken (checked : bool) (ctx : CPU_CONTEXT) (b : Z) : bool := (negb checked || cpu_is_64bit_code ctx) && is_rex_byte b.

Lemma land_1_odd x : negb (Z.land x 1 =? 0) = Z.odd x.
Proof. assert (E : Z.land x 1 = x mod 2) by (apply (Z.land_ones x 1); lia). rewrite E, Zmod_odd. by destruct (Z.odd x). Qed.

Lemma take_rex_run checked b ctx : take_rex checked b ctx = (rex_taken checked ctx b, if rex_taken checked ctx b then set_rex b ctx else ctx).
Proof.
  unfold take_rex, rex_taken. destruct checked; cbn [negb orb andb].
  - unfold cpu_try_apply_rex_prefix, is_rex_byte, cpu_allows_rex_prefix. destruct (cpu_is_64bit_code ctx); [| done]. cbn [negb orb andb].
    destruct (Z.ltb_spec b 0x40), (Z.leb_spec 0x40 b); [lia | done | | lia]. destruct (Z.ltb_spec 0x4F b), (Z.leb_spec b 0x4F); [lia | done | | lia].
    unfold set_rex. cbn [orb andb]. rewrite !Z.testbit_odd, !land_1_odd, Z.shiftr_0_r. done.
  - unfold st_bind, st_modify. by destruct (is_rex_byte b).
Qed.

Lemma stamp_mode p ctx : code_mode (stamp p ctx) = code_mode ctx /\ prefix_of (stamp p ctx) = p /\ rex_taken true (stamp p ctx) = rex_taken true ctx.
Proof. destruct p. by destruct ctx. Qed.

Lemma rex_taken_stamp checked p ctx : rex_taken checked (stamp p ctx) = rex_taken checked ctx.
Proof. destruct checked; [apply (stamp_mode p ctx) | done]. Qed.

Lemma sticky_take_rex checked b : sticky (take_rex checked b).
Proof.
  intros ctx. rewrite take_rex_run. cbn [snd]. destruct (rex_taken checked ctx b); [| done]. done.
Qed.

Lemma sticky_inst_prefixes r code : forall offset lock, sticky (inst_prefix_loop r code offset lock).
Proof.
  induction code as [| b code IH]; intros; cbn [inst_prefix_loop]; [apply sticky_ret |].
  repeat (apply sticky_if; [apply sticky_bind; [by apply sticky_keep | intros; apply IH] |]).
  apply sticky_bind; [apply sticky_take_rex |]. intros rex. apply sticky_if; [apply IH |].
  apply sticky_if; [apply sticky_bind; [auto with sticky | intros; apply IH] |]. apply sticky_if; [apply IH | apply sticky_ret].
Qed.

Lemma inst_prefixes_clean r code : forall offset lock p ctx,
  clean (inst_prefix_loop r code offset lock) (stamp p ctx) ->
  let '(p', offset', lock') := inst_prefixes (rex_taken (dr_rex_checked r) ctx) code offset lock p in
  inst_prefix_loop r code offset lock (stamp p ctx) = ((offset', lock'), stamp p' ctx).
Proof.
  unfold clean. induction code as [| b code IH]; intros offset lock p ctx; cbn [inst_prefix_loop inst_prefixes]; [done |].
  destruct (b =? 0x66). { rewrite !(bind_run (st_modify _) _ (stamp p ctx) tt _ eq_refl), stamp_operand_size. apply IH. }
  destruct (b =? 0x67). { rewrite !(bind_run (st_modify _) _ (stamp p ctx) tt _ eq_refl), stamp_address_size. apply IH. }
  rewrite !(bind_run _ _ _ _ _ (take_rex_run (dr_rex_checked r) b (stamp p ctx))), rex_taken_stamp.
  destruct (rex_taken (dr_rex_checked r) ctx b). { rewrite stamp_rex. apply IH. }
  destruct (b =? 0xF0).
  { intros Hn. unfold ud_if in *. apply clean_if_raise in Hn as Hc; [| apply ud_not_clean | apply sticky_inst_prefixes].
    destruct Hc as [_ Hc]. rewrite Hc in Hn |- *. by apply IH. }
  destruct (_ || _); [apply IH | done].
Qed.

Lemma mode_sizes c1 c2 default : same_decoding c1 c2 ->
  decoded_operand_size c1 = decoded_operand_size c2 /\ decoded_address_size default c1 = decoded_address_size default c2 /\
  rex_taken true c1 = rex_taken true c2.
Proof.
  intros [[= H1 H2 H3] [= _ H4 _ _ _ H5 H6]]. unfold decoded_operand_size, decoded_address_size, cpu_default_address_size, rex_taken, cpu_is_64bit_code, cpu_long_mode_active.
  by rewrite H1, H2, H3, H4, H5, H6.
Qed.

(** ** The whole decoder *)

Section decoder.
Context (r : DecoderRules) `{!Replayable r}.

(** Behind the prefix loop, and behind the opcode. *)
Definition decode_operand_tail (code : list Z) (opcode offset : Z) (lock : bool) : ST CPU_CONTEXT DecodedInstruction :=
  let* operand_size := st_gets decoded_operand_size in
  let* address_size := st_gets (decoded_address_size (dr_default_address r)) in
  let inst := set_i_address_size address_size (set_i_operand_size operand_size (set_i_opcode opcode zero_inst)) in
  let inst := if dr_keeps_lock r then set_i_has_lock_prefix lock inst else inst in
  let* (inst, offset, completed) := dr_operands r code inst offset lock in
  if negb completed then st_ret inst
  else
    let* inst := finalize_rip_relative_address offset inst in
    st_modify (set_c_last_inst_size offset) ;;; st_ret inst.

Definition decode_opcode_tail (code : list Z) (offset : Z) (lock : bool) : ST CPU_CONTEXT DecodedInstruction :=
  if size_of code <=? offset then st_modify (raise_gp_ctx 0) ;;; st_ret zero_inst
  else
    let* (opcode, offset, completed) := dr_opcode r code offset in
    if negb completed then st_ret (set_i_opcode opcode zero_inst) else decode_operand_tail code opcode offset lock.

Lemma decode_by_tails code :
  decode_by r code = (st_modify cpu_reset_prefix_state ;;; let* (offset, lock) := inst_prefix_loop r code 0 false in decode_opcode_tail code offset lock).
Proof. reflexivity. Qed.

Lemma sticky_operand_tail code opcode offset lock : sticky (decode_operand_tail code opcode offset lock).
Proof.
  unfold decode_operand_tail. do 2 (apply sticky_bind; [apply sticky_gets | intros]). apply sticky_bind; [apply rp_sticky |]. intros [[? ?] ?]. sticky_steps.
Qed.
Lemma sticky_opcode_tail code offset lock : sticky (decode_opcode_tail code offset lock).
Proof.
  unfold decode_opcode_tail. apply sticky_if; [sticky_steps |]. apply sticky_bind; [apply (rp_opcode code offset) |].
  intros [[? ?] ?]. apply sticky_if; [apply sticky_ret | apply sticky_operand_tail].
Qed.

Lemma finalize_len inst len ctx : address_ok inst 0 ctx -> clean (finalize_rip_relative_address len (with_address inst 0 ctx)) ctx ->
  finalize_rip_relative_address len (with_address inst 0 ctx) ctx = (with_address inst len ctx, ctx) /\ address_ok inst len ctx.
Proof. apply finalize_clean. Qed.

Lemma operand_tail_uniform code opcode offset lock c1 c2 :
  same_decoding c1 c2 -> clean (decode_operand_tail code opcode offset lock) c1 -> clean (decode_operand_tail code opcode offset lock) c2 ->
  exists inst len,
    (decode_operand_tail code opcode offset lock c1 = (with_address inst len c1, set_c_last_inst_size len c1) /\ address_ok inst len c1) /\
    (decode_operand_tail code opcode offset lock c2 = (with_address inst len c2, set_c_last_inst_size len c2) /\ address_ok inst len c2).
Proof.
  intros Hs H1 H2. unfold clean, decode_operand_tail in *. destruct (mode_sizes c1 c2 (dr_default_address r) Hs) as (E1 & E2 & _).
  rewrite !(bind_run (st_gets _) _ c1 _ _ eq_refl) in *. rewrite !(bind_run (st_gets _) _ c2 _ _ eq_refl) in *. rewrite <- E1, <- E2 in *. cbv zeta in *.
  set (inst0 := if dr_keeps_lock r then _ else _) in *. assert (Hm0 : i_has_modrm inst0 = false) by (unfold inst0; by destruct (dr_keeps_lock r)).
  clearbody inst0. apply clean_bind in H1 as C1; [| intros [[? ?] ?]; sticky_steps]. apply clean_bind in H2 as C2; [| intros [[? ?] ?]; sticky_steps].
  destruct (rp_operands code inst0 offset lock Hm0 c1 c2 Hs (address_ok_none zero_inst 0 c1 eq_refl) (address_ok_none zero_inst 0 c2 eq_refl) C1 C2)
    as (inst & len & (R1 & O1) & (R2 & O2)).
  exists inst, len. rewrite (bind_run _ _ _ _ _ R1) in H1 |- *. rewrite (bind_run _ _ _ _ _ R2) in H2 |- *. cbn [negb] in *.
  apply clean_bind in H1 as F1; [| intros; sticky_steps]. apply clean_bind in H2 as F2; [| intros; sticky_steps].
  destruct (finalize_len inst len c1 O1 F1) as [Q1 P1]. destruct (finalize_len inst len c2 O2 F2) as [Q2 P2].
  by rewrite (bind_run _ _ _ _ _ Q1), (bind_run _ _ _ _ _ Q2).
Qed.

Lemma decode_from_stamp code ctx :
  decode_by r code ctx = (let* (offset, lock) := inst_prefix_loop r code 0 false in decode_opcode_tail code offset lock) (stamp zero_prefix ctx).
Proof. rewrite decode_by_tails, (bind_run (st_modify cpu_reset_prefix_state) _ ctx tt (cpu_reset_prefix_state ctx) eq_refl), stamp_reset. reflexivity. Qed.

Lemma same_stamps p c1 c2 : code_mode c1 = code_mode c2 -> same_decoding (stamp p c1) (stamp p c2).
Proof. intros Hm. destruct (stamp_mode p c1) as (M1 & P1 & _), (stamp_mode p c2) as (M2 & P2 & _). split; congruence. Qed.

Lemma same_rex checked c1 c2 : code_mode c1 = code_mode c2 -> rex_taken checked c2 = rex_taken checked c1.
Proof.
  intros Hm. destruct checked; [| done]. injection Hm as E1 E2 _. unfold rex_taken, cpu_is_64bit_code, cpu_long_mode_active. by rewrite E1, E2.
Qed.

(** From the opcode on. *)
Lemma opcode_tail_uniform code offset lock c1 c2 :
  same_decoding c1 c2 -> clean (decode_opcode_tail code offset lock) c1 -> clean (decode_opcode_tail code offset lock) c2 ->
  exists inst len,
    (decode_opcode_tail code offset lock c1 = (with_address inst len c1, set_c_last_inst_size len c1) /\ address_ok inst len c1) /\
    (decode_opcode_tail code offset lock c2 = (with_address inst len c2, set_c_last_inst_size len c2) /\ address_ok inst len c2).
Proof.
  intros Hs H1 H2. unfold clean, decode_opcode_tail in *. destruct (size_of code <=? offset); [by apply gp_not_clean in H1 |].
  apply clean_bind in H1 as C1; [| intros [[? ?] ?]; apply sticky_if; [apply sticky_ret | apply sticky_operand_tail]].
  apply clean_bind in H2 as C2; [| intros [[? ?] ?]; apply sticky_if; [apply sticky_ret | apply sticky_operand_tail]].
  destruct (proj2 (rp_opcode code offset) _ _ C1 C2) as (opcode & offset1 & R1 & R2).
  rewrite (bind_run _ _ _ _ _ R1) in H1 |- *. rewrite (bind_run _ _ _ _ _ R2) in H2 |- *. cbn [negb] in *.
  exact (operand_tail_uniform code opcode offset1 lock _ _ Hs H1 H2).
Qed.

(** Two clean decodings of the same bytes in the same mode. *)
Lemma decode_uniform code c1 c2 :
  code_mode c1 = code_mode c2 -> clean (decode_by r code) c1 -> clean (decode_by r code) c2 ->
  exists inst p len,
    (decode_by r code c1 = (with_address inst len (stamp p c1), set_c_last_inst_size len (stamp p c1)) /\ address_ok inst len (stamp p c1)) /\
    (decode_by r code c2 = (with_address inst len (stamp p c2), set_c_last_inst_size len (stamp p c2)) /\ address_ok inst len (stamp p c2)).
Proof.
  intros Hm. unfold clean. rewrite (decode_from_stamp code c1), (decode_from_stamp code c2). intros H1 H2.
  apply clean_bind in H1 as C1; [| intros [? ?]; apply sticky_opcode_tail]. apply clean_bind in H2 as C2; [| intros [? ?]; apply sticky_opcode_tail].
  pose proof (inst_prefixes_clean r code 0 false zero_prefix c1 C1) as R1. pose proof (inst_prefixes_clean r code 0 false zero_prefix c2 C2) as R2.
  rewrite (same_rex _ c1 c2 Hm) in R2. destruct (inst_prefixes _ code 0 false zero_prefix) as [[p offset] lock].
  rewrite (bind_run _ _ _ _ _ R1) in H1 |- *. rewrite (bind_run _ _ _ _ _ R2) in H2 |- *.
  destruct (opcode_tail_uniform code offset lock _ _ (same_stamps p c1 c2 Hm) H1 H2) as (inst & len & T1 & T2). exists inst, p, len. by split.
Qed.

End decoder.

(** ** Replaying an entry *)

Section replay.
Context `{Callbacks} (r : DecoderRules) `{!Replayable r} (execute : DecodedInstruction -> ST cpueaxh_engine unit).

(** The fast form: with the address computed again, or with the entry as it is. *)
Definition execute_entry (keeps_address : bool) (dec : DecodedInst) : ST cpueaxh_engine unit :=
  if keeps_address then execute_as_cached execute dec else execute_cached execute dec.

Lemma probe_uniform code ctx0 ctx cached prefix len :
  fst (cpu_decoder_probe_with_helper (decode_by r) code ctx0) = Some (cached, prefix, len) -> 0 < len ->
  code_mode ctx0 = code_mode ctx -> clean (decode_by r code) ctx ->
  exists inst, cached = with_address inst len (stamp prefix ctx0) /\ address_ok inst len (stamp prefix ctx) /\
    decode_by r code ctx = (with_address inst len (stamp prefix ctx), set_c_last_inst_size len (stamp prefix ctx)).
Proof.
  unfold cpu_decoder_probe_with_helper. rewrite (bind_run (st_gets decoder_save_ctx_scratch) _ ctx0 _ _ eq_refl).
  destruct (decode_by r code ctx0) as [probe ctx'] eqn:Hd. rewrite (bind_run _ _ _ _ _ Hd).
  rewrite (bind_run st_get _ ctx' _ _ eq_refl). rewrite (bind_run (st_modify _) _ ctx' tt _ eq_refl). cbn [fst st_ret].
  destruct (cpu_has_exception ctx') eqn:Hx; [done |]. intros [= -> Hpre Hlen] Hpos Hmode Hclean.
  assert (Hc0 : clean (decode_by r code) ctx0) by (unfold clean; by rewrite Hd).
  destruct (decode_uniform r code ctx0 ctx Hmode Hc0 Hclean) as (inst & p & n & (R0 & _) & R1 & O1).
  rewrite Hd in R0. injection R0 as -> ->. rewrite stamped_prefix in Hpre. subst p.
  change (c_last_inst_size (set_c_last_inst_size n (stamp prefix ctx0))) with n in Hlen.
  assert (n = len) as -> by (destruct ((0 <? n) && (n <=? DECODED_INST_MAX_BYTES)); lia). by exists inst.
Qed.

(** Executing from the bytes, when decoding them raises nothing. *)
Lemma execute_decoded_clean code e inst len p :
  clean (decode_by r code) (en_context e) ->
  decode_by r code (en_context e) = (with_address inst len (stamp p (en_context e)), set_c_last_inst_size len (stamp p (en_context e))) ->
  execute_decoded (decode_by r) execute code e =
  execute (with_address inst len (stamp p (en_context e))) (set_en_context (set_c_last_inst_size len (stamp p (en_context e))) e).
Proof.
  intros Hclean Hd. unfold clean in Hclean. rewrite Hd in Hclean. cbn [snd] in Hclean. set (ctx1 := set_c_last_inst_size len _) in *.
  unfold execute_decoded. rewrite (bind_run _ _ _ (with_address inst len (stamp p (en_context e))) (set_en_context ctx1 e)).
  - rewrite (bind_run (get_ctx cpu_has_exception) _ (set_en_context ctx1 e) (cpu_has_exception ctx1) _ eq_refl). by rewrite Hclean.
  - unfold on_ctx, st_zoom. by rewrite Hd.
Qed.

(** The address the fast form computes again. *)
Lemma again_address inst len p0 p ctx0 ctx :
  let again := with_address inst len (stamp p0 ctx0) in
  let ctx1 := set_c_last_inst_size len (stamp p ctx) in
  decoded_inst_needs_mem_recompute inst = true -> address_ok inst len (stamp p ctx) ->
  get_effective_address (i_modrm again) (i_sib again) (i_displacement again) (i_address_size again) len ctx1 =
  (fst (address_in again len (stamp p ctx)), ctx1).
Proof.
  cbv zeta. intros E Hok. specialize (Hok E). set (again := with_address inst len (stamp p0 ctx0)) in *.
  assert (Hsame : forall c, get_effective_address (i_modrm again) (i_sib again) (i_displacement again) (i_address_size again) len c = address_in inst len c)
    by (intros; unfold again, with_address; rewrite E; done).
  unfold address_in at 1. rewrite !Hsame. rewrite (surjective_pairing (address_in inst len _)). rewrite address_last_inst_size. f_equal.
  unfold address_in. apply address_clean. apply address_clean_last. exact Hok.
Qed.

(** C27: an entry of any decoder of this shape, replayed, equals the bytes decoded again.  Let the
    probe of such a decoder succeed at any context with a length, for a fast form that keeps the
    entry's address only for instructions without a memory operand (what the instruction cache's
    decoder demands), and let an engine in the same mode (long mode, CS.L and CS.D) be in a state
    where decoding the bytes raises nothing.  Then the fast form run on the entry, under whatever
    registers, flags, memory and hooks the engine has by then, does exactly what the handler does
    that decodes the bytes.  INC, DEC, NOT, NEG, MUL, DIV, IDIV, the shifts and the rotates are
    such decoders; so is every one for which a later file gives an instance of [Replayable]. *)
Theorem entry_replays_decoding (keeps_address : bool) code ctx0 e base fast cached prefix len
  (Hprobe : fst (cpu_decoder_probe_with_helper (decode_by r) code ctx0) = Some (cached, prefix, len))
  (Hlen : 0 < len) (Hsafe : keeps_address = true -> cpu_decoder_dec_inst_safe_to_replay cached = true)
  (Hmode : code_mode ctx0 = code_mode (en_context e)) (Hclean : clean (decode_by r code) (en_context e)) :
  execute_entry keeps_address (with_fast cached prefix len fast base) e = execute_decoded (decode_by r) execute code e.
Proof.
  destruct (probe_uniform _ _ _ _ _ _ Hprobe Hlen Hmode Hclean) as (inst & -> & Hok & Hd).
  rewrite (execute_decoded_clean code e inst len prefix Hclean Hd).
  set (ctx1 := set_c_last_inst_size len (stamp prefix (en_context e))) in *.
  destruct (with_address_again inst len (stamp prefix ctx0) (stamp prefix (en_context e))) as (Hneed & Hyes & Hno).
  set (dec := with_fast _ _ _ _ _). assert (Hreplay : replay_prefix dec e = (tt, set_en_context ctx1 e)) by done.
  unfold execute_entry. destruct keeps_address.
  - unfold execute_as_cached. rewrite (bind_run _ _ _ _ _ Hreplay). change (d_cached dec) with (with_address inst len (stamp prefix ctx0)).
    rewrite Hno; [done |]. specialize (Hsafe eq_refl). rewrite <- Hneed. unfold cpu_decoder_dec_inst_safe_to_replay in Hsafe.
    unfold decoded_inst_needs_mem_recompute. destruct (i_has_modrm _); [| done]. cbn [negb andb] in *. by rewrite Hsafe.
  - unfold execute_cached. rewrite (bind_run _ _ _ _ _ Hreplay). cbv zeta. change (d_cached dec) with (with_address inst len (stamp prefix ctx0)).
    rewrite Hneed. destruct (decoded_inst_needs_mem_recompute inst) eqn:E; cbn [negb]; [| by rewrite Hno].
    change (d_length dec) with len. pose proof (again_address inst len prefix prefix ctx0 (en_context e) E Hok) as Haddr. cbv zeta in Haddr. fold ctx1 in Haddr.
    set (again := with_address inst len (stamp prefix ctx0)) in *.
    rewrite (bind_run _ _ _ (fst (address_in again len (stamp prefix (en_context e)))) (set_en_context ctx1 e)); [by rewrite (Hyes eq_refl) |].
    unfold on_ctx, st_zoom. change (en_context (set_en_context ctx1 e)) with ctx1. rewrite Haddr. done.
Qed.
End replay.

Module EntryExample.
Import Bump EngineExample MemoryExample StackExample.

(** [dec esp], probed when RSP was 0 and replayed when it is 0x1004. *)
Definition code : list Z := [0xFF; 0xCC].
Definition probed : DecodedInstruction :=
  match fst (cpu_decoder_probe_with_helper decode_dec_instruction code (en_context (stacked 0))) with
  | Some (cached, _, _) => cached | None => zero_inst
  end.

Lemma dec_entry rounds dec : execute_dec_fast rounds dec = execute_entry (execute_dec_with_decoded rounds) true dec.
Proof. reflexivity. Qed.
Lemma dec_bytes rounds bytes : execute_dec rounds bytes = execute_decoded (decode_by dec_rules) (execute_dec_with_decoded rounds) bytes.
Proof. reflexivity. Qed.

Lemma entry_replays_decoding_witness :
  get_reg 32 (en_context (snd (execute_dec 1 code (stacked 0x1004)))) 4 = 0x1003 /\
  execute_dec_fast 1 (with_fast probed zero_prefix 2 "execute_dec_fast"%string decoded_inst_clear) (stacked 0x1004) =
  execute_dec 1 code (stacked 0x1004).
Proof.
  split; [vm_compute; reflexivity |].
  assert (Hp : fst (cpu_decoder_probe_with_helper (decode_by dec_rules) code (en_context (stacked 0))) = Some (probed, zero_prefix, 2))
    by (vm_compute; reflexivity).
  assert (Hl : 0 < 2) by lia. assert (Hs : true = true -> cpu_decoder_dec_inst_safe_to_replay probed = true) by (intros _; vm_compute; reflexivity).
  assert (Hm : code_mode (en_context (stacked 0)) = code_mode (en_context (stacked 0x1004))) by (vm_compute; reflexivity).
  assert (Hc : clean (decode_by dec_rules code) (en_context (stacked 0x1004))) by (vm_compute; reflexivity).
  rewrite dec_entry, dec_bytes.
  exact (entry_replays_decoding dec_rules (execute_dec_with_decoded 1) true code (en_context (stacked 0)) (stacked 0x1004)
    decoded_inst_clear "execute_dec_fast"%string probed zero_prefix 2 Hp Hl Hs Hm Hc).
Defined.

End EntryExample.
