(* ===== verification/MulDiv.v ===== *)
(** * instructions/mul, imul, div, idiv.hpp: multiplication and division

    The accumulator forms take their second operand and half of their result in RDX (AH for
    bytes); IMUL also has a form with a destination register and one with an immediate besides.
    128-bit division is _udiv128 in 64-bit user builds and a loop of the file cpueaxh_platform.hpp
    elsewhere: [udiv] is either.  The theorems: products and their overflow flags, quotients and
    remainders, #DE exactly when there is none or it does not fit; and for which divisors the loop
    is the division. *)

From Stdlib Require Import ZArith Bool List Lia.
From stdpp Require Import base tactics list.
From S2P Require Import Prelude CpuDef Flags HostMemory RegionTable RegionSplit Patches PageCache InstCache Machine CpuMemory Registers DispatchHelpers Stack Segments Alu Executor Decoder AluDecode InstDecode Operands Shifts Replay.

(** ** Definitions *)

(** The decoder of IMUL; 0F is read after the sizes, with the operands. *)
Definition imul_operands (code : list Z) (inst : DecodedInstruction) (offset : Z) (lock : bool) : ST CPU_CONTEXT (DecodedInstruction * Z * bool) :=
  let opcode := i_opcode inst in
  if opcode =? 0x0F then
    if size_of code <=? offset then st_modify (raise_gp_ctx 0) ;;; st_ret (inst, offset, false)
    else
      let inst := set_i_opcode (byte_at code offset) inst in
      ud_if (negb (i_opcode inst =? 0xAF)) ;;; modrm_operands LockNever code inst (offset + 1) lock
  else if one_of opcode [0xF6; 0xF7] then group_operands LockNever (f6_form 5) code inst offset lock
  else if opcode =? 0x6B then
    let* (inst, offset) := decode_modrm_by LockNever code inst offset lock in decode_alu_immediate code inst offset 1
  else if opcode =? 0x69 then
    let* (inst, offset) := decode_modrm_by LockNever code inst offset lock in
    let* wide := st_gets wide_imm_size in
    decode_alu_immediate code inst offset wide
  else st_modify raise_ud_ctx ;;; st_ret (inst, offset, true).

Definition imul_rules : DecoderRules := mkRules false false false false one_byte_opcode imul_operands.
Definition decode_modrm_imul := decode_modrm_by LockNever.
Definition decode_imul_instruction := decode_by imul_rules.

(** [update_flags_mul], [update_flags_imul]. *)
Definition update_flags_mul (overflow : bool) (ctx : CPU_CONTEXT) : CPU_CONTEXT :=
  set_flag RFLAGS_OF overflow (set_flag RFLAGS_CF overflow ctx).

(** The product of twice the width goes to AX or rDX:rAX. *)
Definition set_product (w result : Z) (ctx : CPU_CONTEXT) : CPU_CONTEXT :=
  if w =? 8 then set_reg 16 REG_RAX (u16 result) ctx
  else set_reg w REG_RDX (wrap w (Z.shiftr result w)) (set_reg w REG_RAX (wrap w result) ctx).

(** The quotient and the remainder: AL and AH, or rAX and rDX. *)
Definition set_quotient (w quotient remainder : Z) (ctx : CPU_CONTEXT) : CPU_CONTEXT :=
  if w =? 8 then set_reg 16 REG_RAX (Z.lor (Z.shiftl remainder 8) quotient) ctx
  else set_reg w REG_RDX remainder (set_reg w REG_RAX quotient ctx).

(** The dividend of the widths below 64, of twice the width. *)
Definition dividend_of (w : Z) (ctx : CPU_CONTEXT) : Z :=
  if w =? 8 then get_reg 16 ctx REG_RAX
  else Z.lor (Z.shiftl (get_reg w ctx REG_RDX) w) (get_reg w ctx REG_RAX).

(** [result != (int)result] one width narrower; for 64 bits from the halves of _mul128. *)
Definition imul_overflows (w result : Z) : bool :=
  if w =? 64 then
    let high := Z.shiftr result 64 in
    let low := sext 64 result in
    negb (high =? (if low <? 0 then -1 else 0))
  else negb (result =? sext w result).

Definition div_quotient_overflows (quotient bits : Z) : bool := if bits =? 64 then false else 2 ^ bits - 1 <? quotient.
Definition idiv_quotient_overflows (abs_quotient : Z) (negative : bool) (bits : Z) : bool :=
  let max_negative := 2 ^ (bits - 1) in
  let max_positive := max_negative - 1 in
  if negative then max_negative <? abs_quotient else max_positive <? abs_quotient.
Definition pack_signed_value (abs_value : Z) (negative : bool) (bits : Z) : Z :=
  let mask := Z.ones bits in
  if negb negative || (abs_value =? 0) then Z.land abs_value mask else Z.land (u64 (u64 (Z.lnot abs_value) + 1)) mask.
Definition negate_u128 (high low : Z) : Z * Z :=
  let neg_low := u64 (u64 (Z.lnot low) + 1) in
  let neg_high := u64 (u64 (Z.lnot high) + (if neg_low =? 0 then 1 else 0)) in
  (neg_high, neg_low).

(** [cpueaxh_udiv128_fallback]: the loop from bit [n - 1] down, over quotient and remainder. *)
Fixpoint udiv128_loop (n : nat) (low divisor quotient rem : Z) : Z * Z :=
  match n with
  | O => (quotient, rem)
  | S bit =>
      let rem := Z.lor (u64 (Z.shiftl rem 1)) (Z.land (Z.shiftr low (Z.of_nat bit)) 1) in
      if divisor <=? rem then udiv128_loop bit low divisor (Z.lor quotient (Z.shiftl 1 (Z.of_nat bit))) (rem - divisor)
      else udiv128_loop bit low divisor quotient rem
  end.
Definition cpueaxh_udiv128_fallback (high low divisor : Z) : Z * Z := udiv128_loop 64 low divisor 0 high.

(** _udiv128, whose quotient the caller has made sure to fit. *)
Definition udiv128_intrinsic (high low divisor : Z) : Z * Z :=
  let dividend := high * 2 ^ 64 + low in (dividend / divisor, dividend mod divisor).
Definition cpueaxh_udiv128 (intrinsic : bool) : Z -> Z -> Z -> Z * Z := if intrinsic then udiv128_intrinsic else cpueaxh_udiv128_fallback.

Section execute.
Context `{Callbacks}.
Variable intrinsic : bool.

(** The r/m operand is read, and unless it faulted the rest runs on it. *)
Definition with_rm (w modrm mem_addr : Z) (k : Z -> ST cpueaxh_engine unit) : ST cpueaxh_engine unit :=
  let* value := read_rm w modrm mem_addr in
  let* faulted := get_ctx cpu_has_exception in
  if faulted then st_ret tt else k value.

Definition mul_rm (w modrm mem_addr : Z) : ST cpueaxh_engine unit :=
  let* lhs := get_ctx (fun ctx => get_reg w ctx REG_RAX) in
  with_rm w modrm mem_addr (fun rhs =>
    let result := wrap (2 * w) (lhs * rhs) in
    mod_ctx (set_product w result) ;;; mod_ctx (update_flags_mul (negb (Z.shiftr result w =? 0)))).

Definition imul_rm (w modrm mem_addr : Z) : ST cpueaxh_engine unit :=
  let* lhs := get_ctx (fun ctx => sext w (get_reg w ctx REG_RAX)) in
  with_rm w modrm mem_addr (fun rhs =>
    let result := lhs * sext w rhs in
    mod_ctx (set_product w result) ;;; mod_ctx (update_flags_mul (imul_overflows w result))).

Definition imul_r_rm (w modrm mem_addr : Z) : ST cpueaxh_engine unit :=
  let* lhs := read_reg w modrm in
  with_rm w modrm mem_addr (fun rhs =>
    let result := sext w lhs * sext w rhs in
    write_reg w modrm (wrap w result) ;;; mod_ctx (update_flags_mul (imul_overflows w result))).

Definition imul_r_rm_imm (w modrm mem_addr factor : Z) : ST cpueaxh_engine unit :=
  with_rm w modrm mem_addr (fun src =>
    let result := sext w src * factor in
    write_reg w modrm (wrap w result) ;;; mod_ctx (update_flags_mul (imul_overflows w result))).

(** DIV: 64-bit operands are divided by [cpueaxh_udiv128]. *)
Definition div_rm (w modrm mem_addr : Z) : ST cpueaxh_engine unit :=
  with_rm w modrm mem_addr (fun divisor =>
    if divisor =? 0 then mod_ctx raise_de_ctx
    else if w =? 64 then
      let* dividend_low := get_ctx (fun ctx => get_reg 64 ctx REG_RAX) in
      let* dividend_high := get_ctx (fun ctx => get_reg 64 ctx REG_RDX) in
      if divisor <=? dividend_high then mod_ctx raise_de_ctx
      else
        let '(quotient, remainder) := cpueaxh_udiv128 intrinsic dividend_high dividend_low divisor in
        mod_ctx (set_quotient 64 quotient remainder)
    else
      let* dividend := get_ctx (dividend_of w) in
      let quotient := Z.quot dividend divisor in
      let remainder := wrap w (Z.rem dividend divisor) in
      if div_quotient_overflows quotient w then mod_ctx raise_de_ctx
      else mod_ctx (set_quotient w (wrap w quotient) remainder)).

Definition idiv_rm (w modrm mem_addr : Z) : ST cpueaxh_engine unit :=
  with_rm w modrm mem_addr (fun divisor_bits =>
    if divisor_bits =? 0 then mod_ctx raise_de_ctx
    else
      let divisor_negative := sext w divisor_bits <? 0 in
      let abs_divisor := if divisor_negative then wrap w (Z.lnot divisor_bits + 1) else divisor_bits in
      let finish (dividend_negative : bool) (abs_quotient abs_remainder : Z) :=
        let quotient_negative := xorb dividend_negative divisor_negative in
        if idiv_quotient_overflows abs_quotient quotient_negative w then mod_ctx raise_de_ctx
        else mod_ctx (set_quotient w (wrap w (pack_signed_value abs_quotient quotient_negative w))
                                     (wrap w (pack_signed_value abs_remainder dividend_negative w))) in
      if w =? 64 then
        let* dividend_low := get_ctx (fun ctx => get_reg 64 ctx REG_RAX) in
        let* dividend_high := get_ctx (fun ctx => get_reg 64 ctx REG_RDX) in
        let dividend_negative := sext 64 dividend_high <? 0 in
        let '(abs_dividend_high, abs_dividend_low) :=
          if dividend_negative then negate_u128 dividend_high dividend_low else (dividend_high, dividend_low) in
        if abs_divisor <=? abs_dividend_high then mod_ctx raise_de_ctx
        else
          let '(abs_quotient, abs_remainder) := cpueaxh_udiv128 intrinsic abs_dividend_high abs_dividend_low abs_divisor in
          finish dividend_negative abs_quotient abs_remainder
      else
        let* dividend_bits := get_ctx (dividend_of w) in
        let dividend_negative := sext (2 * w) dividend_bits <? 0 in
        let abs_dividend := if dividend_negative then wrap (2 * w) (Z.lnot dividend_bits + 1) else dividend_bits in
        let abs_quotient := Z.quot abs_dividend abs_divisor in
        let abs_remainder := wrap w (Z.rem abs_dividend abs_divisor) in
        finish dividend_negative abs_quotient abs_remainder).

(** The switch of MUL, DIV and IDIV. *)
Definition f6_switch (rm : Z -> Z -> Z -> ST cpueaxh_engine unit) (inst : DecodedInstruction) : ST cpueaxh_engine unit :=
  let opcode := i_opcode inst in
  if opcode =? 0xF6 then rm 8 (i_modrm inst) (i_mem_address inst)
  else if opcode =? 0xF7 then let* w := get_ctx prefix_width in rm w (i_modrm inst) (i_mem_address inst)
  else st_ret tt.

Definition execute_mul_with_decoded := f6_switch mul_rm.
Definition execute_div_with_decoded := f6_switch div_rm.
Definition execute_idiv_with_decoded := f6_switch idiv_rm.
Definition execute_imul_with_decoded (inst : DecodedInstruction) : ST cpueaxh_engine unit :=
  let opcode := i_opcode inst in
  let modrm := i_modrm inst in
  let mem_addr := i_mem_address inst in
  if opcode =? 0xF6 then imul_rm 8 modrm mem_addr
  else
    let* w := get_ctx prefix_width in
    if opcode =? 0xF7 then imul_rm w modrm mem_addr
    else if opcode =? 0xAF then imul_r_rm w modrm mem_addr
    else if opcode =? 0x6B then imul_r_rm_imm w modrm mem_addr (sext 8 (i_immediate inst))
    else if opcode =? 0x69 then imul_r_rm_imm w modrm mem_addr (sext (if w =? 16 then 16 else 32) (i_immediate inst))
    else st_ret tt.

Definition execute_mul := execute_decoded decode_mul_instruction execute_mul_with_decoded.
Definition execute_div := execute_decoded decode_div_instruction execute_div_with_decoded.
Definition execute_idiv := execute_decoded decode_idiv_instruction execute_idiv_with_decoded.
Definition execute_imul := execute_decoded decode_imul_instruction execute_imul_with_decoded.

Definition execute_mul_fast := execute_as_cached execute_mul_with_decoded.
Definition execute_div_fast := execute_as_cached execute_div_with_decoded.
Definition execute_idiv_fast := execute_as_cached execute_idiv_with_decoded.
Definition execute_imul_fast := execute_as_cached execute_imul_with_decoded.

End execute.

(** ** The division loop *)

(** For divisors up to 2^63 the shifted remainder never leaves its 64 bits. *)
Lemma udiv128_loop_divides n : forall low divisor k rem,
  0 <= low -> 0 < divisor <= 2 ^ 63 -> 0 <= rem < divisor ->
  let dividend := rem * 2 ^ Z.of_nat n + low mod 2 ^ Z.of_nat n in
  udiv128_loop n low divisor (k * 2 ^ Z.of_nat n) rem = (k * 2 ^ Z.of_nat n + dividend / divisor, dividend mod divisor).
Proof.
  induction n as [| n IH]; intros low divisor k rem Hl Hd Hr; cbv zeta; cbn [udiv128_loop].
  { change (2 ^ Z.of_nat 0) with 1. rewrite Z.mod_1_r, !Z.mul_1_r, !Z.add_0_r, Z.div_small, Z.mod_small, Z.add_0_r by lia. done. }
  set (m := Z.of_nat n) in *. assert (Hm : 0 <= m) by lia. pose proof (pow2_pos m Hm) as Hp.
  replace (Z.of_nat (S n)) with (m + 1) by lia. rewrite Z.pow_add_r by lia. change (2 ^ 1) with 2.
  set (bit := Z.land (Z.shiftr low m) 1).
  assert (Hbit : bit = low / 2 ^ m mod 2) by (unfold bit; change 1 with (Z.ones 1); rewrite Z.land_ones, Z.shiftr_div_pow2 by lia; done).
  assert (Hb : 0 <= bit < 2) by (rewrite Hbit; apply Z.mod_pos_bound; lia).
  assert (Hlow : low mod (2 ^ m * 2) = bit * 2 ^ m + low mod 2 ^ m) by (rewrite Z.rem_mul_r, <- Hbit by lia; lia).
  assert (H63 : 2 ^ 64 = 2 * 2 ^ 63) by done.
  assert (Hrem : Z.lor (u64 (Z.shiftl rem 1)) bit = 2 * rem + bit).
  { rewrite Z.shiftl_mul_pow2 by lia. change (2 ^ 1) with 2. rewrite (wrap_small 64) by (split; lia).
    replace (rem * 2) with (Z.shiftl rem 1) by (rewrite Z.shiftl_mul_pow2 by lia; lia).
    rewrite Z.lor_comm, (lor_disjoint bit rem 1) by (change (2 ^ 1) with 2; lia). lia. }
  rewrite Hrem, Hlow. clearbody bit. destruct (Z.leb_spec divisor (2 * rem + bit)) as [Hge | Hlt].
  - assert (Hq : Z.lor (k * (2 ^ m * 2)) (Z.shiftl 1 m) = (2 * k + 1) * 2 ^ m).
    { replace (k * (2 ^ m * 2)) with (Z.shiftl k (m + 1)) by (rewrite Z.shiftl_mul_pow2, Z.pow_add_r by lia; lia).
      rewrite Z.lor_comm. assert (H1 : 0 <= Z.shiftl 1 m < 2 ^ (m + 1)) by (rewrite Z.shiftl_mul_pow2, Z.pow_add_r by lia; lia).
      rewrite lor_disjoint by lia. rewrite Z.shiftl_mul_pow2, Z.pow_add_r by lia. lia. }
    rewrite Hq, IH by lia. cbv zeta. fold m.
    replace (rem * (2 ^ m * 2) + (bit * 2 ^ m + low mod 2 ^ m)) with ((2 * rem + bit - divisor) * 2 ^ m + low mod 2 ^ m + 2 ^ m * divisor) by lia.
    rewrite Z.div_add, Z.mod_add by lia. f_equal. lia.
  - replace (k * (2 ^ m * 2)) with (2 * k * 2 ^ m) by lia. rewrite IH by lia. cbv zeta. fold m.
    replace (rem * (2 ^ m * 2) + (bit * 2 ^ m + low mod 2 ^ m)) with ((2 * rem + bit) * 2 ^ m + low mod 2 ^ m) by lia. done.
Qed.

Lemma udiv128_fallback_divides high low divisor :
  in_word 64 low -> 0 < divisor <= 2 ^ 63 -> 0 <= high < divisor -> cpueaxh_udiv128_fallback high low divisor = udiv128_intrinsic high low divisor.
Proof.
  intros Hl Hd Hh. unfold cpueaxh_udiv128_fallback, udiv128_intrinsic.
  pose proof (udiv128_loop_divides 64 low divisor 0 high (proj1 Hl) Hd Hh) as E. cbv zeta in E. change (Z.of_nat 64) with 64 in E.
  unfold in_word in Hl. rewrite (Z.mod_small low) in E by exact Hl. exact E.
Qed.

(** Beyond, the shift loses the top bit of the remainder. *)
Lemma udiv128_fallback_loses_bits :
  cpueaxh_udiv128_fallback (2 ^ 63) 0 (2 ^ 63 + 1) = (0, 0) /\ fst (udiv128_intrinsic (2 ^ 63) 0 (2 ^ 63 + 1)) = 2 ^ 64 - 2.
Proof. split; vm_compute; reflexivity. Qed.

(** ** Products *)

Lemma sext_fixed w t : 0 < w -> (t =? sext w t) = negb (out_of_signed_range w t).
Proof.
  intros Hw. unfold out_of_signed_range. destruct (Z.eqb_spec t (sext w t)) as [E | Hne].
  - assert (Hr : - 2 ^ (w - 1) <= sext w t < 2 ^ (w - 1)).
    { unfold sext. pose proof (wrap_range w t ltac:(lia)) as Hrange. unfold in_word in Hrange. pose proof (pow2_double w Hw).
      destruct (Z.ltb_spec (wrap w t) (2 ^ (w - 1))); lia. }
    rewrite <- E in Hr. destruct (Z.ltb_spec t (- 2 ^ (w - 1))), (Z.leb_spec (2 ^ (w - 1)) t); (lia || done).
  - destruct (Z.ltb_spec t (- 2 ^ (w - 1))); [done |]. destruct (Z.leb_spec (2 ^ (w - 1)) t); [done |]. exfalso. apply Hne.
    rewrite <- (sext_wrap w t) at 1 by lia. unfold sext. by rewrite wrap_wrap by lia.
Qed.

Lemma imul_overflows_spec w p : 0 < w -> imul_overflows w p = out_of_signed_range w p.
Proof.
  intros Hw. unfold imul_overflows. destruct (Z.eqb_spec w 64) as [-> |]; [| by rewrite sext_fixed, negb_involutive by lia].
  cbv zeta. transitivity (negb (p =? sext 64 p)); [f_equal | by rewrite sext_fixed, negb_involutive by lia].
  rewrite Z.shiftr_div_pow2 by lia. unfold sext, wrap. pose proof (Z.div_mod p (2 ^ 64) ltac:(lia)) as Hdm.
  pose proof (Z.mod_pos_bound p (2 ^ 64) ltac:(lia)) as Hb. change (2 ^ (64 - 1)) with (2 ^ 63). assert (2 ^ 64 = 2 * 2 ^ 63) by done.
  destruct (Z.ltb_spec (p mod 2 ^ 64) (2 ^ 63)).
  - replace (p mod 2 ^ 64 <? 0) with false by lia. destruct (Z.eqb_spec (p / 2 ^ 64) 0), (Z.eqb_spec p (p mod 2 ^ 64)); nia || done.
  - replace (p mod 2 ^ 64 - 2 ^ 64 <? 0) with true by lia. destruct (Z.eqb_spec (p / 2 ^ 64) (-1)), (Z.eqb_spec p (p mod 2 ^ 64 - 2 ^ 64)); nia || done.
Qed.

(** ** Quotients *)

(** The accumulator of twice the width. *)
Definition wide_acc (w : Z) (ctx : CPU_CONTEXT) : Z :=
  if w =? 8 then get_reg 16 ctx REG_RAX else get_reg w ctx REG_RDX * 2 ^ w + get_reg w ctx REG_RAX.

Lemma wide_acc_word w ctx : reg_width w -> regs_wf ctx -> in_word (2 * w) (wide_acc w ctx).
Proof.
  intros Hw Hwf. unfold wide_acc. destruct (Z.eqb_spec w 8) as [-> |].
  - apply (get_reg_in_word 16); [by right; left | done].
  - destruct (reg_width_bounds w Hw) as [Hb _]. pose proof (get_reg_in_word w ctx REG_RDX Hw Hwf) as Hd. pose proof (get_reg_in_word w ctx REG_RAX Hw Hwf) as Ha.
    unfold in_word in *. replace (2 * w) with (w + w) by lia. rewrite Z.pow_add_r by lia. nia.
Qed.

Lemma dividend_wide w ctx : reg_width w -> regs_wf ctx -> dividend_of w ctx = wide_acc w ctx.
Proof.
  intros Hw Hwf. unfold dividend_of, wide_acc. destruct (w =? 8); [done |]. destruct (reg_width_bounds w Hw) as [Hb _].
  pose proof (get_reg_in_word w ctx REG_RAX Hw Hwf) as Ha. unfold in_word in Ha. rewrite Z.lor_comm, lor_disjoint by lia. lia.
Qed.

Lemma quotient_overflows_spec w q : 0 < w < 64 -> div_quotient_overflows q w = (2 ^ w <=? q).
Proof. intros Hw. unfold div_quotient_overflows. replace (w =? 64) with false by lia. destruct (Z.ltb_spec (2 ^ w - 1) q), (Z.leb_spec (2 ^ w) q); lia || done. Qed.

Definition signed (negative : bool) (abs : Z) : Z := if negative then - abs else abs.

Lemma idiv_overflows_spec w negative a : 0 < w -> 0 <= a -> idiv_quotient_overflows a negative w = out_of_signed_range w (signed negative a).
Proof.
  intros Hw Ha. unfold idiv_quotient_overflows, out_of_signed_range, signed. pose proof (pow2_pos (w - 1) ltac:(lia)).
  destruct negative; repeat match goal with
    | |- context [?x <? ?y] => destruct (Z.ltb_spec x y)
    | |- context [?x <=? ?y] => destruct (Z.leb_spec x y)
    end; lia || done.
Qed.

Lemma twos_complement w x : 0 <= w -> wrap w (Z.lnot x + 1) = wrap w (- x).
Proof. intros Hw. f_equal. unfold Z.lnot. lia. Qed.

Lemma pack_signed_spec w negative a : 0 < w <= 64 -> pack_signed_value a negative w = wrap w (signed negative a).
Proof.
  intros Hw. unfold pack_signed_value, signed. rewrite !wrap_ones by lia. destruct negative; cbn [negb orb]; [| done].
  destruct (Z.eqb_spec a 0) as [-> |]; [done |]. rewrite wrap_add_l, twos_complement by lia. apply wrap_wrap_le. lia.
Qed.

(** The sign and the absolute value of a pattern. *)
Lemma abs_of_pattern w x : 0 < w -> in_word w x ->
  (if sext w x <? 0 then wrap w (Z.lnot x + 1) else x) = Z.abs (sext w x) /\ sext w x = signed (sext w x <? 0) (Z.abs (sext w x)).
Proof.
  intros Hw Hx. pose proof (sext_range w x Hw Hx) as Hr. pose proof (pow2_double w Hw) as Hp. split.
  - rewrite twos_complement by lia. unfold sext in *. rewrite (wrap_small w x Hx) in *. unfold in_word in Hx.
    destruct (Z.ltb_spec x (2 ^ (w - 1))).
    + replace (x <? 0) with false by lia. lia.
    + replace (x - 2 ^ w <? 0) with true by lia. rewrite wrap_once_neg by lia. destruct (Z.ltb_spec (- x) 0); lia.
  - unfold signed. destruct (Z.ltb_spec (sext w x) 0); lia.
Qed.

Lemma quot_signed n d : d <> 0 ->
  Z.quot n d = signed (xorb (n <? 0) (d <? 0)) (Z.quot (Z.abs n) (Z.abs d)) /\ Z.rem n d = signed (n <? 0) (Z.rem (Z.abs n) (Z.abs d)).
Proof.
  intros Hd. unfold signed. destruct (Z.ltb_spec n 0), (Z.ltb_spec d 0); cbn [xorb];
    rewrite ?(Z.abs_neq n), ?(Z.abs_neq d), ?(Z.abs_eq n), ?(Z.abs_eq d) by lia;
    rewrite ?Z.quot_opp_opp, ?Z.quot_opp_l, ?Z.quot_opp_r, ?Z.rem_opp_r, ?Z.rem_opp_l by lia; split; lia.
Qed.

(** A nonzero word negated in two halves. *)
Lemma negate_u128_spec high low : in_word 64 high -> in_word 64 low -> 0 < high ->
  let '(h, l) := negate_u128 high low in
  in_word 64 h /\ in_word 64 l /\ h * 2 ^ 64 + l = 2 ^ 128 - (high * 2 ^ 64 + low).
Proof.
  intros Hh Hl Hp. unfold negate_u128. rewrite (wrap_add_l 64 (Z.lnot low)), twos_complement, (wrap_add_l 64 (Z.lnot high)) by lia. unfold in_word in *.
  assert (E : 2 ^ 128 = 2 ^ 64 * 2 ^ 64) by done.
  rewrite (wrap_once_neg 64 (- low)) by lia. unfold Z.lnot. destruct (Z.ltb_spec (- low) 0).
  - replace (- low + 2 ^ 64 =? 0) with false by lia. rewrite wrap_once_neg by lia. destruct (Z.ltb_spec (Z.pred (- high) + 0) 0); lia.
  - replace (- low =? 0) with true by lia. rewrite wrap_once_neg by lia. destruct (Z.ltb_spec (Z.pred (- high) + 1) 0); lia.
Qed.

(** A quotient of a dividend in two halves fits when the high half is below the divisor. *)
Lemma high_half_fits high low d : 0 < d -> 0 <= high -> in_word 64 low -> (d <=? high) = (2 ^ 64 <=? (high * 2 ^ 64 + low) / d).
Proof.
  intros Hd Hh Hl. unfold in_word in Hl. destruct (Z.leb_spec d high) as [Hge | Hlt].
  - symmetry. apply Z.leb_le. apply Z.div_le_lower_bound; nia.
  - symmetry. apply Z.leb_gt. apply Z.div_lt_upper_bound; nia.
Qed.

(** ** What the instructions compute *)

Inductive muldiv_op := MUL | IMUL | DIV | IDIV.

(** CF and OF both tell that the product does not fit. *)
Definition product_flags (overflow : bool) (rf : Z) : Z := put_bit 11 overflow (put_bit 0 overflow rf).

(** Low and high half: AX, or rAX and rDX. *)
Definition set_wide (w low high : Z) (ctx : CPU_CONTEXT) : CPU_CONTEXT :=
  if w =? 8 then set_reg 16 REG_RAX (high * 2 ^ 8 + low) ctx else set_reg w REG_RDX high (set_reg w REG_RAX low ctx).

(** The context after the accumulator form with the operand [d]. *)
Definition muldiv_result (op : muldiv_op) (w : Z) (ctx : CPU_CONTEXT) (d : Z) : CPU_CONTEXT :=
  match op with
  | MUL =>
      let p := get_reg w ctx REG_RAX * d in
      set_c_rflags (product_flags (2 ^ w <=? p) (c_rflags ctx)) (set_wide w (wrap w p) (wrap w (p / 2 ^ w)) ctx)
  | IMUL =>
      let p := sext w (get_reg w ctx REG_RAX) * sext w d in
      set_c_rflags (product_flags (out_of_signed_range w p) (c_rflags ctx)) (set_wide w (wrap w p) (wrap w (p / 2 ^ w)) ctx)
  | DIV =>
      let n := wide_acc w ctx in
      if (d =? 0) || (2 ^ w <=? n / d) then raise_de_ctx ctx else set_wide w (n / d) (n mod d) ctx
  | IDIV =>
      let n := sext (2 * w) (wide_acc w ctx) in
      let d := sext w d in
      if (d =? 0) || out_of_signed_range w (Z.quot n d) then raise_de_ctx ctx
      else set_wide w (wrap w (Z.quot n d)) (wrap w (Z.rem n d)) ctx
  end.

(** IMUL into a register. *)
Definition product_into (w reg factor : Z) (ctx : CPU_CONTEXT) (d : Z) : CPU_CONTEXT :=
  let p := sext w d * factor in
  set_c_rflags (product_flags (out_of_signed_range w p) (c_rflags ctx)) (set_reg w reg (wrap w p) ctx).

(** The width and the result of a form, in terms of its r/m operand. *)
Definition muldiv_plan (op : muldiv_op) (inst : DecodedInstruction) (ctx : CPU_CONTEXT) : option (Z * (Z -> CPU_CONTEXT)) :=
  let opcode := i_opcode inst in
  let w := prefix_width ctx in
  let reg := reg_index (i_modrm inst) ctx in
  if opcode =? 0xF6 then Some (8, muldiv_result op 8 ctx)
  else if opcode =? 0xF7 then Some (w, muldiv_result op w ctx)
  else match op with
       | IMUL =>
           if opcode =? 0xAF then Some (w, product_into w reg (sext w (get_reg w ctx reg)) ctx)
           else if opcode =? 0x6B then Some (w, product_into w reg (sext 8 (i_immediate inst)) ctx)
           else if opcode =? 0x69 then Some (w, product_into w reg (sext (if w =? 16 then 16 else 32) (i_immediate inst)) ctx)
           else None
       | _ => None
       end.

Definition execute_muldiv `{Callbacks} (intrinsic : bool) (op : muldiv_op) : DecodedInstruction -> ST cpueaxh_engine unit :=
  match op with
  | MUL => execute_mul_with_decoded | IMUL => execute_imul_with_decoded
  | DIV => execute_div_with_decoded intrinsic | IDIV => execute_idiv_with_decoded intrinsic
  end.

(** An operand is read, and unless that faults the context becomes what [result] says. *)
Definition read_outcome `{Callbacks} (e : cpueaxh_engine) (w : Z) (src : operand) (result : Z -> CPU_CONTEXT) (e' : cpueaxh_engine) : Prop :=
  match operand_fault e w MM_PROT_READ src with
  | Some (ad, v) => abandoned e MM_PROT_READ v ad e'
  | None => on_track e (result (operand_value e w src)) e'
  end.

(** ** The stores *)

Lemma set_product_wide w p ctx : 8 <= w -> set_product w p ctx = set_wide w (wrap w p) (wrap w (p / 2 ^ w)) ctx.
Proof.
  intros Hw. unfold set_product, set_wide. destruct (Z.eqb_spec w 8) as [-> |]; [| by rewrite Z.shiftr_div_pow2 by lia].
  f_equal. unfold wrap. change (2 ^ 16) with (2 ^ 8 * 2 ^ 8). rewrite Z.rem_mul_r by lia. lia.
Qed.

Lemma set_quotient_wide w q r ctx : in_word w q -> 0 <= r -> set_quotient w q r ctx = set_wide w q r ctx.
Proof.
  intros Hq Hr. unfold set_quotient, set_wide. destruct (Z.eqb_spec w 8) as [-> |]; [| done]. f_equal.
  unfold in_word in Hq. rewrite Z.lor_comm, lor_disjoint by lia. lia.
Qed.

Lemma set_wide_plain w low high ctx : plain ctx (set_wide w low high ctx) /\ c_rflags (set_wide w low high ctx) = c_rflags ctx.
Proof.
  unfold set_wide. destruct (w =? 8); [split; [apply plain_set_reg | apply set_reg_keeps_rflags] |].
  split; [eapply plain_trans; apply plain_set_reg |]. by rewrite !set_reg_keeps_rflags.
Qed.

Lemma mul_flags_sets overflow : sets_flags (update_flags_mul overflow) (product_flags overflow).
Proof. exact (sets_flags_put 11 overflow _ _ (sets_flags_put 0 overflow _ _ sets_flags_id)). Qed.

Section track.
Context `{Callbacks}.

(** Registers and then the flags of a product. *)
Lemma product_track e ctx ctx1 e1 overflow f :
  cpu_has_exception ctx = false -> on_track e ctx e1 -> f ctx = ctx1 -> plain ctx ctx1 /\ c_rflags ctx1 = c_rflags ctx ->
  on_track e (set_c_rflags (product_flags overflow (c_rflags ctx)) ctx1) (snd ((mod_ctx f ;;; mod_ctx (update_flags_mul overflow)) e1)).
Proof.
  intros Hx Ht <- [Hp Hrf]. unfold st_bind. pose proof (track_mod e ctx e1 f Ht) as Ht1. destruct (mod_ctx f e1) as [u e2]. cbn [snd] in Ht1.
  pose proof (track_mod e _ e2 (update_flags_mul overflow) Ht1) as Ht2. rewrite mul_flags_sets, Hrf in Ht2; [exact Ht2 |].
  by rewrite (plain_has_exception _ _ Hp).
Qed.

Variables (e : cpueaxh_engine) (w modrm mem : Z).
Hypotheses (Hr : cpu_ready e) (Hwf : regs_wf (en_context e)) (Hw : reg_width w) (Hm : in_word 64 mem).
Let ctx := en_context e.
Let src := rm_operand modrm mem ctx.

Lemma with_rm_outcome k result :
  (forall d e1, operand_fault e w MM_PROT_READ src = None -> in_word w d -> d = operand_value e w src -> on_track e ctx e1 ->
     on_track e (result d) (final (k d) e1)) ->
  read_outcome e w src result (final (with_rm w modrm mem k) e).
Proof.
  intros Hk. unfold with_rm. apply read_rm_then; [done.. | |]; fold ctx src.
  - intros ad v e1 Hf Ha. unfold read_outcome. by rewrite Hf.
  - intros d e1 Hf Hd Hv Ht. unfold read_outcome. rewrite Hf, <- Hv. by apply Hk.
Qed.

Lemma no_fault : cpu_has_exception ctx = false.
Proof. apply Hr. Qed.

Lemma mul_outcome : read_outcome e w src (muldiv_result MUL w ctx) (final (mul_rm w modrm mem) e).
Proof.
  destruct (reg_width_bounds w Hw) as [Hb _]. unfold mul_rm, final. rewrite (bind_run (get_ctx _) _ e _ e eq_refl). fold ctx.
  apply with_rm_outcome. intros d e1 _ Hd _ Ht. pose proof (get_reg_in_word w ctx REG_RAX Hw Hwf) as Ha. unfold in_word in Hd, Ha.
  set (a := get_reg w ctx REG_RAX) in *. cbn [muldiv_result]. fold a.
  assert (Hp : 0 <= a * d < 2 ^ (2 * w)) by (replace (2 * w) with (w + w) by lia; rewrite Z.pow_add_r by lia; nia).
  rewrite (wrap_small (2 * w)) by exact Hp. rewrite Z.shiftr_div_pow2 by lia.
  assert (Ho : negb (a * d / 2 ^ w =? 0) = (2 ^ w <=? a * d)).
  { pose proof (pow2_pos w ltac:(lia)). destruct (Z.eqb_spec (a * d / 2 ^ w) 0) as [E | Hne].
    - symmetry. apply Z.leb_gt. apply Z.div_small_iff in E; lia.
    - symmetry. apply Z.leb_le. destruct (Z.ltb_spec (a * d) (2 ^ w)); [| lia]. rewrite Z.div_small in Hne by lia. lia. }
  rewrite Ho. apply product_track; [apply no_fault | exact Ht | apply set_product_wide; lia | apply set_wide_plain].
Qed.

Lemma imul_outcome : read_outcome e w src (muldiv_result IMUL w ctx) (final (imul_rm w modrm mem) e).
Proof.
  destruct (reg_width_bounds w Hw) as [Hb _]. unfold imul_rm, final. rewrite (bind_run (get_ctx _) _ e _ e eq_refl). fold ctx.
  apply with_rm_outcome. intros d e1 _ Hd _ Ht. cbn [muldiv_result]. rewrite imul_overflows_spec by lia.
  apply product_track; [apply no_fault | exact Ht | apply set_product_wide; lia | apply set_wide_plain].
Qed.

(** IMUL with a destination register: [write_reg] is a change of the context. *)
Lemma imul_into_track factor d e1 : on_track e ctx e1 ->
  on_track e (product_into w (reg_index modrm ctx) factor ctx d)
    (final (let result := sext w d * factor in write_reg w modrm (wrap w result) ;;; mod_ctx (update_flags_mul (imul_overflows w result))) e1).
Proof.
  intros Ht. destruct (reg_width_bounds w Hw) as [Hb _]. cbv zeta. rewrite imul_overflows_spec by lia. unfold write_reg, product_into. cbv zeta.
  apply product_track; [apply no_fault | exact Ht | done |]. split; [apply plain_set_reg | apply set_reg_keeps_rflags].
Qed.

End track.

Section divide.
Context `{Callbacks}.
Variables (e : cpueaxh_engine) (intrinsic : bool).
Let ctx := en_context e.

(** The 128-bit division the build has is exact for this divisor. *)
Definition division_exact (d : Z) : Prop := intrinsic = true \/ d <= 2 ^ 63.

Lemma udiv128_exact high low d : division_exact d -> in_word 64 low -> 0 < d -> 0 <= high < d ->
  cpueaxh_udiv128 intrinsic high low d = ((high * 2 ^ 64 + low) / d, (high * 2 ^ 64 + low) mod d).
Proof.
  unfold division_exact, cpueaxh_udiv128. intros Hx Hl Hd Hh. destruct intrinsic; [done |]. destruct Hx as [? | Hx]; [done |].
  by rewrite udiv128_fallback_divides by (done || lia).
Qed.

Lemma get_track {A} (f : CPU_CONTEXT -> A) (k : A -> ST cpueaxh_engine unit) e1 : on_track e ctx e1 ->
  final (let* a := get_ctx f in k a) e1 = final (k (f ctx)) e1.
Proof. intros Ht. unfold final. by rewrite (bind_run _ _ _ _ _ (track_get e ctx e1 f Ht)). Qed.

(** A quotient that fits is stored, one that does not raises #DE. *)
Lemma quotient_track w (b b' : bool) q r q' r' e1 : on_track e ctx e1 -> b = b' ->
  (b = false -> q = q' /\ r = r' /\ in_word w q' /\ 0 <= r') ->
  on_track e (if b' then raise_de_ctx ctx else set_wide w q' r' ctx)
    (final (if b then mod_ctx raise_de_ctx else mod_ctx (set_quotient w q r)) e1).
Proof.
  intros Ht <- Hq. destruct b.
  - exact (track_mod e ctx e1 raise_de_ctx Ht).
  - destruct (Hq eq_refl) as (-> & -> & Hqw & Hr0). rewrite <- set_quotient_wide by done.
    exact (track_mod e ctx e1 (set_quotient w q' r') Ht).
Qed.

End divide.

Lemma quotient_bounds w n d : 0 < d -> 0 <= n -> (2 ^ w <=? n / d) = false -> in_word w (n / d) /\ 0 <= n mod d < d.
Proof.
  intros Hd Hn Hle. split; [split; [apply Z.div_pos; lia | lia] | apply Z.mod_pos_bound; lia].
Qed.

Section outcomes.
Context `{Callbacks}.
Variables (e : cpueaxh_engine) (w modrm mem : Z) (intrinsic : bool).
Hypotheses (Hr : cpu_ready e) (Hwf : regs_wf (en_context e)) (Hw : reg_width w) (Hm : in_word 64 mem).
Let ctx := en_context e.
Let src := rm_operand modrm mem ctx.

Lemma div_outcome : (w = 64 -> division_exact intrinsic (operand_value e w src)) ->
  read_outcome e w src (muldiv_result DIV w ctx) (final (div_rm intrinsic w modrm mem) e).
Proof.
  intros Hx. destruct (reg_width_bounds w Hw) as [Hb _]. apply with_rm_outcome; [done.. |]. intros d e1 _ Hd Hv Ht.
  pose proof (wide_acc_word w ctx Hw Hwf) as Hn. cbn [muldiv_result]. destruct (Z.eqb_spec d 0) as [-> | Hdz].
  { exact (track_mod e ctx e1 raise_de_ctx Ht). }
  cbn [orb]. unfold in_word in Hd, Hn. assert (Hd0 : 0 < d) by lia. destruct (Z.eqb_spec w 64) as [E64 | H64].
  - clear Hb. subst w. rewrite !(get_track e) by exact Ht. fold ctx. change (wide_acc 64 ctx) with (get_reg 64 ctx REG_RDX * 2 ^ 64 + get_reg 64 ctx REG_RAX) in *.
    pose proof (get_reg_in_word 64 ctx REG_RAX Hw Hwf) as Hlow. pose proof (get_reg_in_word 64 ctx REG_RDX Hw Hwf) as Hhigh.
    set (low := get_reg 64 ctx REG_RAX) in *. set (high := get_reg 64 ctx REG_RDX) in *. unfold in_word in Hhigh.
    rewrite <- (high_half_fits high low d) by (done || lia). pose proof (high_half_fits high low d Hd0 (proj1 Hhigh) Hlow) as Hfit.
    destruct (Z.leb_spec d high); [exact (track_mod e ctx e1 raise_de_ctx Ht) |].
    rewrite udiv128_exact by (try done; try lia; rewrite Hv; by apply Hx).
    apply (quotient_track e 64 false false); [done | done |]. intros _.
    destruct (quotient_bounds 64 (high * 2 ^ 64 + low) d) as [? ?]; [done | lia | done |]. split_and!; (done || lia).
  - rewrite (get_track e) by exact Ht. fold ctx. rewrite (dividend_wide w ctx) by done. set (n := wide_acc w ctx) in *.
    rewrite Z.quot_div_nonneg, Z.rem_mod_nonneg by lia. apply quotient_track; [done | apply quotient_overflows_spec; lia |]. intros Hfit.
    rewrite quotient_overflows_spec in Hfit by lia. destruct (quotient_bounds w n d) as [Hq Hrem]; [done | lia | done |].
    rewrite (wrap_small w (n / d)), (wrap_small w (n mod d)) by (done || (split; lia)). split_and!; (done || lia).
Qed.

End outcomes.

(** The end of IDIV from the absolute values. *)
Lemma signed_quotient_track `{Callbacks} e w n d aq ar e1 :
  let ctx := en_context e in
  reg_width w -> on_track e ctx e1 -> d <> 0 -> aq = Z.quot (Z.abs n) (Z.abs d) -> ar = Z.rem (Z.abs n) (Z.abs d) ->
  on_track e (if out_of_signed_range w (Z.quot n d) then raise_de_ctx ctx else set_wide w (wrap w (Z.quot n d)) (wrap w (Z.rem n d)) ctx)
    (final (let quotient_negative := xorb (n <? 0) (d <? 0) in
            if idiv_quotient_overflows aq quotient_negative w then mod_ctx raise_de_ctx
            else mod_ctx (set_quotient w (wrap w (pack_signed_value aq quotient_negative w)) (wrap w (pack_signed_value ar (n <? 0) w)))) e1).
Proof.
  intros ctx Hw Ht Hd -> ->. destruct (reg_width_bounds w Hw) as [Hb _]. destruct (quot_signed n d Hd) as [Hq Hrem].
  assert (Ha : 0 <= Z.quot (Z.abs n) (Z.abs d)) by (apply Z.quot_pos; lia). cbv zeta. rewrite Hq, Hrem.
  apply quotient_track; [done | apply idiv_overflows_spec; lia |]. intros _.
  rewrite !pack_signed_spec, !wrap_wrap by lia. split_and!; try done; [apply wrap_range; lia |]. apply wrap_range. lia.
Qed.

(** The absolute value of a 128-bit dividend. *)
Lemma abs_halves high low : in_word 64 high -> in_word 64 low ->
  let n := sext 128 (high * 2 ^ 64 + low) in
  (sext 64 high <? 0) = (n <? 0) /\
  let '(h, l) := if sext 64 high <? 0 then negate_u128 high low else (high, low) in
  in_word 64 h /\ in_word 64 l /\ h * 2 ^ 64 + l = Z.abs n.
Proof.
  intros Hh Hl n. assert (Hw128 : in_word 128 (high * 2 ^ 64 + low)) by (unfold in_word in *; change (2 ^ 128) with (2 ^ 64 * 2 ^ 64); nia).
  assert (E127 : 2 ^ (128 - 1) = 2 ^ 63 * 2 ^ 64) by done. assert (E64 : 2 ^ 64 = 2 * 2 ^ 63) by done. assert (E128 : 2 ^ 128 = 2 ^ 64 * 2 ^ 64) by done.
  assert (Hsign : (sext 64 high <? 0) = (n <? 0)).
  { unfold n. rewrite !sext_neg by (done || lia). change (2 ^ (64 - 1)) with (2 ^ 63). rewrite E127. unfold in_word in *.
    destruct (Z.leb_spec (2 ^ 63) high), (Z.leb_spec (2 ^ 63 * 2 ^ 64) (high * 2 ^ 64 + low)); nia || done. }
  split; [done |]. rewrite Hsign. unfold n in *. rewrite sext_neg in * by (done || lia). unfold sext. rewrite (wrap_small 128) by done.
  rewrite E127 in *. destruct (Z.leb_spec (2 ^ 63 * 2 ^ 64) (high * 2 ^ 64 + low)).
  - replace (high * 2 ^ 64 + low <? 2 ^ 63 * 2 ^ 64) with false by lia. assert (Hpos : 0 < high) by (unfold in_word in *; nia).
    pose proof (negate_u128_spec high low Hh Hl Hpos) as Hneg. destruct (negate_u128 high low) as [h l]. destruct Hneg as (? & ? & E).
    split_and!; [done | done |]. rewrite E. unfold in_word in *. lia.
  - replace (high * 2 ^ 64 + low <? 2 ^ 63 * 2 ^ 64) with true by lia. split_and!; [done | done |]. unfold in_word in *. lia.
Qed.

Lemma sext_zero w d : reg_width w -> in_word w d -> (sext w d =? 0) = (d =? 0).
Proof.
  intros Hw Hd. destruct (reg_width_bounds w Hw) as [Hb _]. unfold sext. rewrite (wrap_small w d Hd). unfold in_word in Hd.
  pose proof (pow2_pos (w - 1) ltac:(lia)). destruct (Z.ltb_spec d (2 ^ (w - 1))); [done |]. lia.
Qed.

(** A quotient of absolute values that takes more than the width is out of the signed range. *)
Lemma large_quotient w n d q : reg_width w -> d <> 0 -> q = Z.quot (Z.abs n) (Z.abs d) -> 2 ^ w <= q -> out_of_signed_range w (Z.quot n d) = true.
Proof.
  intros Hw Hd -> Hq. destruct (quot_signed n d Hd) as [-> _]. destruct (reg_width_bounds w Hw) as [Hb _]. pose proof (pow2_double w ltac:(lia)) as Hp.
  pose proof (pow2_pos (w - 1) ltac:(lia)) as Hp1. rewrite <- idiv_overflows_spec by lia. unfold idiv_quotient_overflows.
  destruct (xorb _ _); apply Z.ltb_lt; lia.
Qed.

Section idiv.
Context `{Callbacks}.
Variables (e : cpueaxh_engine) (w modrm mem : Z) (intrinsic : bool).
Hypotheses (Hr : cpu_ready e) (Hwf : regs_wf (en_context e)) (Hw : reg_width w) (Hm : in_word 64 mem).
Let ctx := en_context e.
Let src := rm_operand modrm mem ctx.

Lemma idiv_outcome : read_outcome e w src (muldiv_result IDIV w ctx) (final (idiv_rm intrinsic w modrm mem) e).
Proof.
  destruct (reg_width_bounds w Hw) as [Hb _]. apply with_rm_outcome; [done.. |]. intros d e1 _ Hd Hv Ht. fold ctx in Ht.
  pose proof (wide_acc_word w ctx Hw Hwf) as Hn. cbn [muldiv_result]. rewrite (sext_zero w d Hw Hd).
  destruct (Z.eqb_spec d 0) as [Hd0 | Hd0]; [exact (track_mod e ctx e1 raise_de_ctx Ht) |]. cbn [orb].
  assert (Hz : sext w d <> 0) by (pose proof (sext_zero w d Hw Hd); lia).
  destruct (abs_of_pattern w d ltac:(lia) Hd) as [Habs _]. rewrite Habs. pose proof (sext_range w d ltac:(lia) Hd) as Hrange. set (D := sext w d) in *. clear Habs.
  destruct (Z.eqb_spec w 64) as [E64 | H64].
  - clear Hb. revert D Hz Hrange. subst w. intros D Hz Hrange. rewrite !(get_track e) by exact Ht. fold ctx. change (wide_acc 64 ctx) with (get_reg 64 ctx REG_RDX * 2 ^ 64 + get_reg 64 ctx REG_RAX) in *.
    pose proof (get_reg_in_word 64 ctx REG_RAX Hw Hwf) as Hlow. pose proof (get_reg_in_word 64 ctx REG_RDX Hw Hwf) as Hhigh.
    set (low := get_reg 64 ctx REG_RAX) in *. set (high := get_reg 64 ctx REG_RDX) in *.
    destruct (abs_halves high low Hhigh Hlow) as [Hsign Hhalves]. change (2 * 64) with 128. set (n := sext 128 (high * 2 ^ 64 + low)) in *.
    cbv zeta in Hsign, Hhalves. cbv zeta. destruct (if sext 64 high <? 0 then negate_u128 high low else (high, low)) as [h l].
    destruct Hhalves as (Hh & Hl & Hnl). rewrite Hsign. unfold in_word in Hh. change (2 ^ (64 - 1)) with (2 ^ 63) in Hrange.
    pose proof (high_half_fits h l (Z.abs D) ltac:(lia) (proj1 Hh) Hl) as Hfit. rewrite Hnl in Hfit. destruct (Z.leb_spec (Z.abs D) h) as [Hle | Hlt].
    + rewrite (large_quotient 64 n D _ Hw Hz eq_refl) by (rewrite Z.quot_div_nonneg by lia; lia). exact (track_mod e ctx e1 raise_de_ctx Ht).
    + rewrite udiv128_exact by (try done; try lia; right; lia). rewrite Hnl. apply (signed_quotient_track e 64); [done | done | done | |]; 
        [by rewrite Z.quot_div_nonneg by lia | by rewrite Z.rem_mod_nonneg by lia].
  - rewrite (get_track e) by exact Ht. fold ctx. rewrite (dividend_wide w ctx) by done. set (n := wide_acc w ctx) in *. cbv zeta.
    destruct (abs_of_pattern (2 * w) n ltac:(lia) Hn) as [HabsN _]. rewrite HabsN. set (N := sext (2 * w) n) in *.
    apply (signed_quotient_track e w); [done | done | done | done |]. apply wrap_small. rewrite Z.rem_mod_nonneg by lia.
    pose proof (Z.mod_pos_bound (Z.abs N) (Z.abs D) ltac:(lia)). pose proof (pow2_double w ltac:(lia)). split; lia.
Qed.

End idiv.

Section theorem.
Context `{Callbacks}.

Lemma accumulator_outcome intrinsic op e w modrm mem :
  cpu_ready e -> regs_wf (en_context e) -> reg_width w -> in_word 64 mem ->
  let src := rm_operand modrm mem (en_context e) in
  (op = DIV -> w = 64 -> division_exact intrinsic (operand_value e w src)) ->
  read_outcome e w src (muldiv_result op w (en_context e))
    (final (match op with MUL => mul_rm w modrm mem | IMUL => imul_rm w modrm mem
                        | DIV => div_rm intrinsic w modrm mem | IDIV => idiv_rm intrinsic w modrm mem end) e).
Proof.
  intros Hr Hwf Hw Hm src Hx. destruct op.
  - by apply mul_outcome.
  - by apply imul_outcome.
  - apply div_outcome; auto.
  - by apply idiv_outcome.
Qed.

Lemma imul_r_rm_run e w modrm mem :
  final (imul_r_rm w modrm mem) e =
  final (imul_r_rm_imm w modrm mem (sext w (get_reg w (en_context e) (reg_index modrm (en_context e))))) e.
Proof.
  unfold final, imul_r_rm, imul_r_rm_imm, read_reg. rewrite (bind_run (get_ctx _) _ e _ e eq_refl). unfold with_rm, st_bind.
  destruct (read_rm w modrm mem e) as [v e1]. unfold get_ctx, st_gets. destruct (cpu_has_exception (en_context e1)); [done |]. by rewrite Z.mul_comm.
Qed.

(** C28: multiplication and division compute what the architecture says.  Without hooks, for every
    form, width and operand in a register or in memory: an operand that cannot be read leaves its
    fault pending and everything else as it was.  Otherwise MUL and IMUL put the exact unsigned or
    signed product of twice the width into AX or rDX:rAX, the other forms of IMUL its low half into
    the destination, CF and OF telling whether more than the low half was needed; DIV and IDIV
    raise #DE exactly when the divisor is zero or the quotient does not fit, and else store the
    quotient (of IDIV rounded towards zero) and the remainder.  A 64-bit DIV in builds without the
    division intrinsic is asked only for divisors up to 2^63. *)
Theorem muldiv_instructions_correct (intrinsic : bool) op inst e w result
  (Hr : cpu_ready e) (Hwf : regs_wf (en_context e)) (Hm : in_word 64 (i_mem_address inst))
  (Hplan : muldiv_plan op inst (en_context e) = Some (w, result))
  (Hx : op = DIV -> w = 64 -> division_exact intrinsic (operand_value e w (rm_operand (i_modrm inst) (i_mem_address inst) (en_context e)))) :
  read_outcome e w (rm_operand (i_modrm inst) (i_mem_address inst) (en_context e)) result (final (execute_muldiv intrinsic op inst) e).
Proof.
  pose proof (prefix_width_ok (en_context e)) as Hpw. assert (H8 : reg_width 8) by by left. unfold muldiv_plan in Hplan.
  assert (Hacc : reg_width w -> _) by (intros Hw; exact (accumulator_outcome intrinsic op e w _ _ Hr Hwf Hw Hm Hx)). cbv zeta in Hacc.
  assert (Hwidth : forall (k : Z -> ST cpueaxh_engine unit), final (let* w := get_ctx prefix_width in k w) e = final (k (prefix_width (en_context e))) e) by done.
  assert (Hinto : forall w reg factor, prefix_width (en_context e) = w -> reg = reg_index (i_modrm inst) (en_context e) ->
    read_outcome e w (rm_operand (i_modrm inst) (i_mem_address inst) (en_context e)) (product_into w reg factor (en_context e))
      (final (imul_r_rm_imm w (i_modrm inst) (i_mem_address inst) factor) e)).
  { intros w0 reg factor <- ->. apply with_rm_outcome; [done.. |]. intros d e1 _ _ _ Ht. by apply imul_into_track. }
  destruct (i_opcode inst =? 0xF6) eqn:E6; [| destruct (i_opcode inst =? 0xF7) eqn:E7].
  - injection Hplan as <- <-. specialize (Hacc H8). destruct op; cbn [execute_muldiv];
      unfold execute_mul_with_decoded, execute_imul_with_decoded, execute_div_with_decoded, execute_idiv_with_decoded, f6_switch; cbv zeta; rewrite E6; exact Hacc.
  - injection Hplan as <- <-. specialize (Hacc Hpw). destruct op; cbn [execute_muldiv];
      unfold execute_mul_with_decoded, execute_imul_with_decoded, execute_div_with_decoded, execute_idiv_with_decoded, f6_switch; cbv zeta; rewrite E6, ?Hwidth, E7; exact Hacc.
  - destruct op; try done. cbn [execute_muldiv]. unfold execute_imul_with_decoded. cbv zeta. rewrite E6, Hwidth, E7.
    destruct (i_opcode inst =? 0xAF); [| destruct (i_opcode inst =? 0x6B); [| destruct (i_opcode inst =? 0x69); [| done]]]; injection Hplan as <- <-.
    + rewrite imul_r_rm_run. exact (Hinto _ _ _ eq_refl eq_refl).
    + exact (Hinto _ _ _ eq_refl eq_refl).
    + exact (Hinto _ _ _ eq_refl eq_refl).
Qed.

End theorem.

(** ** Replay *)

Lemma uniform_imul code inst offset lock : i_has_modrm inst = false -> uniform (imul_operands code inst offset lock).
Proof.
  intros Hm. unfold imul_operands. cbv zeta. destruct (i_opcode inst =? 0x0F).
  { destruct (size_of code <=? offset); [apply (uniform_raise _ _ (raise_gp_ctx 0)); [apply gp_not_clean | done] |].
    apply uniform_ud_plain; [auto with sticky | apply uniform_modrm_operands]. }
  destruct (one_of _ _); [apply uniform_group |]. destruct (_ =? 0x6B).
  { apply uniform_modrm; [intros; sticky_steps | intros; apply uniform_immediate]. }
  destruct (_ =? 0x69); [| apply (uniform_raise _ _ raise_ud_ctx); [apply ud_not_clean | done]].
  apply uniform_modrm; [intros; sticky_steps |]. intros i o. apply (uniform_gets i wide_imm_size (fun i wide => decode_alu_immediate code i o wide)).
  - intros c1 c2 [_ Hp]. injection Hp as _ Ew _ _ _ Eo _. unfold wide_imm_size. by rewrite Ew, Eo.
  - intros. apply uniform_immediate.
Qed.

#[export] Instance imul_replayable : Replayable imul_rules.
Proof. split; intros; cbn; [apply one_byte_stage | unfold imul_operands; cbv zeta; sticky_steps | by apply uniform_imul]. Qed.

Module MulDivExample.
Import Bump EngineExample MemoryExample StackExample.

(** [idiv esp] with RSP = 0x1004 and RAX = RDX = 0, and [div r/m64] at the loop's limit. *)
Definition idiv_esp : DecodedInstruction := set_i_modrm 0xFC (set_i_opcode 0xF7 zero_inst).

Lemma plan_f7 op inst ctx w : i_opcode inst = 0xF7 -> prefix_width ctx = w -> muldiv_plan op inst ctx = Some (w, muldiv_result op w ctx).
Proof. intros Hop <-. unfold muldiv_plan. by rewrite Hop. Qed.

Lemma muldiv_instructions_correct_witness :
  en_context (final (execute_muldiv false IDIV idiv_esp) (stacked 0x1004)) =
  muldiv_result IDIV 32 (en_context (stacked 0x1004)) 0x1004.
Proof.
  assert (Hv : in_word 64 0x1004) by zcompute. assert (Hm : in_word 64 (i_mem_address idiv_esp)) by zcompute.
  assert (Hop : i_opcode idiv_esp = 0xF7) by reflexivity. assert (Hw : prefix_width (en_context (stacked 0x1004)) = 32) by (vm_compute; reflexivity).
  assert (Hplan : muldiv_plan IDIV idiv_esp (en_context (stacked 0x1004)) = Some (32, muldiv_result IDIV 32 (en_context (stacked 0x1004))))
    by exact (plan_f7 IDIV idiv_esp _ 32 Hop Hw).
  pose proof (muldiv_instructions_correct false IDIV idiv_esp (stacked 0x1004) 32 _ (stacked_ready _) (stacked_regs _ Hv) Hm Hplan ltac:(discriminate)) as H.
  assert (Ho : rm_operand (i_modrm idiv_esp) (i_mem_address idiv_esp) (en_context (stacked 0x1004)) = Reg 4) by (vm_compute; reflexivity).
  rewrite Ho in H. apply track_context in H. rewrite H. reflexivity.
Defined.

End MulDivExample.
