(* ===== verification/Control.v ===== *)
(** * instructions/jcc, jmp, call, ret.hpp: conditional jumps, jumps, calls and returns

    Near transfers check their target before anything is stored; far transfers load a code segment
    descriptor first.  Jcc, LOOP and JCXZ have a decoder of their own that executes as it goes;
    JMP and CALL share the decoder of InstDecode.v, far RET and IRET too, but they always run from
    the bytes.  The theorems: the executor's inline forms of Jcc do what this handler does, a
    return comes back from its call, near and far, and far transfers succeed for exactly the
    descriptors the architecture allows. *)

From Stdlib Require Import ZArith Bool List Lia.
From stdpp Require Import base tactics list.
From S2P Require Import Prelude CpuDef Flags HostMemory RegionTable RegionSplit Patches PageCache InstCache Machine CpuMemory Registers DispatchHelpers WideMemory Stack Segments Alu Executor Decoder AluDecode InstDecode Operands Replay.

(** ** Conditional jumps *)

Definition jcc_cf (ctx : CPU_CONTEXT) : bool := has_bits (c_rflags ctx) RFLAGS_CF.
Definition jcc_zf (ctx : CPU_CONTEXT) : bool := has_bits (c_rflags ctx) RFLAGS_ZF.
Definition jcc_sf (ctx : CPU_CONTEXT) : bool := has_bits (c_rflags ctx) RFLAGS_SF.
Definition jcc_of (ctx : CPU_CONTEXT) : bool := has_bits (c_rflags ctx) RFLAGS_OF.
Definition jcc_pf (ctx : CPU_CONTEXT) : bool := has_bits (c_rflags ctx) RFLAGS_PF.

Definition eval_condition (cond : Z) (ctx : CPU_CONTEXT) : bool :=
  let cf := jcc_cf ctx in
  let zf := jcc_zf ctx in
  let sf := jcc_sf ctx in
  let o := jcc_of ctx in
  let pf := jcc_pf ctx in
  let cond := Z.land cond 0x0F in
  if cond =? 0x0 then o else if cond =? 0x1 then negb o
  else if cond =? 0x2 then cf else if cond =? 0x3 then negb cf
  else if cond =? 0x4 then zf else if cond =? 0x5 then negb zf
  else if cond =? 0x6 then cf || zf else if cond =? 0x7 then negb cf && negb zf
  else if cond =? 0x8 then sf else if cond =? 0x9 then negb sf
  else if cond =? 0xA then pf else if cond =? 0xB then negb pf
  else if cond =? 0xC then xorb sf o else if cond =? 0xD then eqb sf o
  else if cond =? 0xE then zf || xorb sf o else negb zf && eqb sf o.

Definition jcc_branch (base_rip disp operand_size : Z) : ST CPU_CONTEXT bool := cpu_assign_rip_checked (u64 (base_rip + u64 disp)) operand_size.

(** [if (taken) jcc_branch(...); else cpu_assign_rip_checked(next_rip)]. *)
Definition branch_or_next (taken : bool) (next_rip disp operand_size : Z) : ST CPU_CONTEXT unit :=
  (if taken then jcc_branch next_rip disp operand_size else cpu_assign_rip_checked next_rip operand_size) ;;; st_ret tt.

Definition execute_jcc_short (cond rel8 next_rip operand_size : Z) : ST CPU_CONTEXT unit :=
  let* taken := st_gets (eval_condition cond) in branch_or_next taken next_rip rel8 operand_size.
Definition execute_jcc_near (cond rel next_rip operand_size : Z) : ST CPU_CONTEXT unit :=
  let* taken := st_gets (eval_condition cond) in branch_or_next taken next_rip rel operand_size.

Definition execute_jcxz (rel8 next_rip addr_size operand_size : Z) : ST CPU_CONTEXT unit :=
  let* rcx := st_gets (fun ctx => reg_at ctx REG_RCX) in
  let is_zero :=
    if addr_size =? 64 then rcx =? 0
    else if addr_size =? 32 then Z.land rcx 0xFFFFFFFF =? 0
    else Z.land rcx 0xFFFF =? 0 in
  branch_or_next is_zero next_rip rel8 operand_size.

Definition decrement_loop_count (addr_size : Z) : ST CPU_CONTEXT Z :=
  let* rcx := st_gets (fun ctx => reg_at ctx REG_RCX) in
  if addr_size =? 64 then st_modify (set_reg_at REG_RCX (u64 (rcx - 1))) ;;; st_ret (u64 (rcx - 1))
  else if addr_size =? 32 then
    let ecx := u32 (u32 rcx - 1) in st_modify (set_reg_at REG_RCX (Z.lor (Z.ldiff rcx 0xFFFFFFFF) ecx)) ;;; st_ret ecx
  else
    let cx := u16 (u16 rcx - 1) in st_modify (set_reg_at REG_RCX (Z.lor (Z.ldiff rcx 0xFFFF) cx)) ;;; st_ret cx.

Definition execute_loopcc (opcode rel8 next_rip addr_size operand_size : Z) : ST CPU_CONTEXT unit :=
  let* count := decrement_loop_count addr_size in
  let* zf := st_gets jcc_zf in
  let branch := negb (count =? 0) in
  let branch := if opcode =? 0xE0 then branch && negb zf else if opcode =? 0xE1 then branch && zf else branch in
  branch_or_next branch next_rip rel8 operand_size.

(** The prefix loop: REX bytes are stored in the context whatever the mode, nothing is reset. *)
Record JccPrefixes := mkJccPrefixes { jp_offset : Z; jp_rex_w : bool; jp_operand : bool; jp_address : bool }.

Fixpoint jcc_prefix_loop (code : list Z) (p : JccPrefixes) : ST CPU_CONTEXT JccPrefixes :=
  match code with
  | [] => st_ret p
  | prefix :: code =>
      let next rex_w operand address := jcc_prefix_loop code (mkJccPrefixes (jp_offset p + 1) rex_w operand address) in
      if prefix =? 0x66 then next (jp_rex_w p) true (jp_address p)
      else if prefix =? 0x67 then next (jp_rex_w p) (jp_operand p) true
      else if is_rex_byte prefix then
        st_modify (set_rex prefix) ;;; next (negb (Z.land (Z.shiftr prefix 3) 1 =? 0)) (jp_operand p) (jp_address p)
      else if prefix =? 0xF0 then st_modify raise_ud_ctx ;;; next (jp_rex_w p) (jp_operand p) (jp_address p)
      else if is_segment_prefix prefix || (prefix =? 0xF2) || (prefix =? 0xF3) then next (jp_rex_w p) (jp_operand p) (jp_address p)
      else st_ret p
  end.

Definition jcc_operand_size (rex_w operand : bool) (ctx : CPU_CONTEXT) : Z :=
  if cs_long_mode ctx then 64 else if rex_w then 64 else if operand then 16 else 32.
Definition jcc_address_size (address : bool) (ctx : CPU_CONTEXT) : Z :=
  if cs_long_mode ctx then (if address then 32 else 64) else if address then 16 else 32.

Definition jcc_length (offset : Z) : ST CPU_CONTEXT Z :=
  st_modify (set_c_last_inst_size offset) ;;; st_gets (fun ctx => u64 (c_rip ctx + offset)).

Definition run_jcc (code : list Z) : ST CPU_CONTEXT unit :=
  let* p := jcc_prefix_loop code (mkJccPrefixes 0 false false false) in
  let offset := jp_offset p in
  if size_of code <=? offset then st_modify (raise_gp_ctx 0)
  else
    let* faulted := st_gets cpu_has_exception in
    if faulted then st_ret tt
    else
      let* operand_size := st_gets (jcc_operand_size (jp_rex_w p) (jp_operand p)) in
      let* addr_size := st_gets (jcc_address_size (jp_address p)) in
      let opcode := byte_at code offset in
      let offset := offset + 1 in
      if between 0xE0 0xE3 opcode then
        if size_of code <=? offset then st_modify (raise_gp_ctx 0)
        else
          let rel8 := sext 8 (byte_at code offset) in
          let* next_rip := jcc_length (offset + 1) in
          if opcode =? 0xE3 then execute_jcxz rel8 next_rip addr_size operand_size
          else execute_loopcc opcode rel8 next_rip addr_size operand_size
      else if between 0x70 0x7F opcode then
        if size_of code <=? offset then st_modify (raise_gp_ctx 0)
        else
          let rel8 := sext 8 (byte_at code offset) in
          let* next_rip := jcc_length (offset + 1) in
          execute_jcc_short (Z.land opcode 0x0F) rel8 next_rip operand_size
      else if opcode =? 0x0F then
        if size_of code <=? offset then st_modify (raise_gp_ctx 0)
        else
          let opcode2 := byte_at code offset in
          let offset := offset + 1 in
          ud_if (negb (between 0x80 0x8F opcode2)) ;;;
          let* long := st_gets cs_long_mode in
          ud_if (long && jp_operand p) ;;;
          let imm_size := if long then 4 else if jp_operand p then 2 else 4 in
          if size_of code <? offset + imm_size then st_modify (raise_gp_ctx 0)
          else
            let rel := sext (8 * imm_size) (field_value code offset imm_size) in
            let* next_rip := jcc_length (offset + imm_size) in
            execute_jcc_near (Z.land opcode2 0x0F) rel next_rip operand_size
      else st_modify raise_ud_ctx.

(** ** JMP and CALL: decoding *)

Definition branch_operand_size (ctx : CPU_CONTEXT) : Z :=
  if cpu_is_64bit_code ctx then (if c_operand_size_override ctx then 16 else 64)
  else if c_rex_w ctx then 64 else if c_operand_size_override ctx then 16 else 32.
Definition far_operand_size (ctx : CPU_CONTEXT) : Z := if c_rex_w ctx then 64 else if c_operand_size_override ctx then 16 else 32.

(** FF with [near] or [far] in the ModRM byte. *)
Definition indirect_operands (near far : Z) (code : list Z) (inst : DecodedInstruction) (offset : Z) : ST CPU_CONTEXT (DecodedInstruction * Z * bool) :=
  let* (inst, offset) := decode_modrm_by LockIgnored code inst offset false in
  let* long := st_gets cpu_is_64bit_code in
  if modrm_digit inst =? near then st_ret (if long then set_i_operand_size 64 inst else inst, offset, true)
  else if modrm_digit inst =? far then
    ud_if (modrm_mod (i_modrm inst) =? 3) ;;;
    let* size := st_gets far_operand_size in
    st_ret (if long then set_i_operand_size size inst else inst, offset, true)
  else st_modify raise_ud_ctx ;;; st_ret (inst, offset, true).

(** [ptr16:16] and [ptr16:32]: the offset in the immediate, the selector in [mem_address]. *)
Definition far_pointer_operands (code : list Z) (inst : DecodedInstruction) (offset : Z) : ST CPU_CONTEXT (DecodedInstruction * Z * bool) :=
  let* long := st_gets cpu_is_64bit_code in
  ud_if long ;;;
  let n := if i_operand_size inst =? 32 then 4 else 2 in
  if size_of code <? offset + (n + 2) then st_modify (raise_gp_ctx 0) ;;; st_ret (inst, offset, false)
  else
    st_ret (set_i_imm_size (n + 2) (set_i_mem_address (field_value code (offset + n) 2) (set_i_immediate (field_value code offset n) inst)),
            offset + (n + 2), true).

(** [inst.inst_size = offset] where the operands are complete. *)
Definition with_inst_size (c : ST CPU_CONTEXT (DecodedInstruction * Z * bool)) : ST CPU_CONTEXT (DecodedInstruction * Z * bool) :=
  let* (inst, offset, completed) := c in
  if negb completed then st_ret (inst, offset, false) else st_ret (set_i_inst_size offset inst, offset, true).

Definition jmp_operands (code : list Z) (inst : DecodedInstruction) (offset : Z) (lock : bool) : ST CPU_CONTEXT (DecodedInstruction * Z * bool) :=
  let* size := st_gets branch_operand_size in
  let inst := set_i_operand_size size inst in
  let opcode := i_opcode inst in
  with_inst_size
    (if opcode =? 0xEB then decode_alu_immediate code inst offset 1
     else if opcode =? 0xE9 then
       let* long := st_gets cpu_is_64bit_code in
       let* narrow := st_gets c_operand_size_override in
       ud_if (long && narrow) ;;;
       decode_alu_immediate code inst offset (if long then 4 else if narrow then 2 else 4)
     else if opcode =? 0xFF then indirect_operands 4 5 code inst offset
     else if opcode =? 0xEA then far_pointer_operands code inst offset
     else st_modify raise_ud_ctx ;;; st_ret (inst, offset, true)).

Definition call_operands (code : list Z) (inst : DecodedInstruction) (offset : Z) (lock : bool) : ST CPU_CONTEXT (DecodedInstruction * Z * bool) :=
  let* size := st_gets branch_operand_size in
  let inst := set_i_operand_size size inst in
  let opcode := i_opcode inst in
  with_inst_size
    (if opcode =? 0xE8 then
       let* long := st_gets cpu_is_64bit_code in
       let* narrow := st_gets c_operand_size_override in
       decode_alu_immediate code (set_i_operand_size (if narrow then 16 else if long then 64 else 32) inst) offset (if narrow then 2 else 4)
     else if opcode =? 0xFF then indirect_operands 2 3 code inst offset
     else if opcode =? 0x9A then far_pointer_operands code inst offset
     else st_modify raise_ud_ctx ;;; st_ret (inst, offset, true)).

Definition jmp_rules : DecoderRules := mkRules true true false true one_byte_opcode jmp_operands.
Definition call_rules : DecoderRules := mkRules true true false true one_byte_opcode call_operands.
Definition decode_modrm_jmp := decode_modrm_by LockIgnored.
Definition decode_modrm_call := decode_modrm_by LockIgnored.
Definition decode_jmp_instruction := decode_by jmp_rules.
Definition decode_call_instruction := decode_by call_rules.

(** ** Far RET and IRET: decoding *)

Definition decode_ret_far_operand_size (ctx : CPU_CONTEXT) : Z :=
  if cpu_is_64bit_code ctx then (if c_operand_size_override ctx then 16 else 64) else if c_operand_size_override ctx then 16 else 32.

Definition ret_opcode (opcodes : list Z) (code : list Z) (offset : Z) : ST CPU_CONTEXT (Z * Z * bool) :=
  ud_if (negb (one_of (byte_at code offset) opcodes)) ;;; st_ret (byte_at code offset, offset + 1, true).

Definition ret_operands (code : list Z) (inst : DecodedInstruction) (offset : Z) (lock : bool) : ST CPU_CONTEXT (DecodedInstruction * Z * bool) :=
  ud_if lock ;;;
  let* operand_size := st_gets decode_ret_far_operand_size in
  let* address_size := st_gets get_stack_addr_size in
  let inst := set_i_address_size address_size (set_i_operand_size operand_size inst) in
  with_inst_size
    (if i_opcode inst =? 0xCA then
       if size_of code <? offset + 2 then st_modify (raise_gp_ctx 0) ;;; st_ret (inst, offset, false)
       else st_ret (set_i_imm_size 2 (set_i_immediate (field_value code offset 2) inst), offset + 2, true)
     else st_ret (inst, offset, true)).

Definition ret_rules : DecoderRules := mkRules true false false true (ret_opcode [0xCA; 0xCB]) ret_operands.
Definition iret_rules : DecoderRules := mkRules true false false true (ret_opcode [0xCF]) ret_operands.
Definition decode_ret_instruction := decode_by ret_rules.
Definition decode_iret_instruction := decode_by iret_rules.

(** ** Execution *)

(** [ctx->cs.selector = (new_selector & 0xFFFC) | ctx->cpl] with the descriptor; the mode key is to
    be computed again. *)
Definition set_code_segment (new_selector : Z) (new_desc : SegmentDescriptor) (ctx : CPU_CONTEXT) : CPU_CONTEXT :=
  set_c_cached_mode_key_valid false (set_c_cs (mkSeg (Z.lor (Z.land new_selector 0xFFFC) (c_cpl ctx)) new_desc) ctx).

Section execute.
Context `{Callbacks}.

Definition execute_jcc (code : list Z) : ST cpueaxh_engine unit := on_ctx (run_jcc code).

Definition jump_to (target operand_size : Z) : ST cpueaxh_engine unit := on_ctx (cpu_assign_rip_checked target operand_size) ;;; st_ret tt.

Definition jmp_rel8 (rel8 next_rip operand_size : Z) := jump_to (u64 (next_rip + rel8)) operand_size.
Definition jmp_rel32 (rel32 next_rip operand_size : Z) := jump_to (u64 (next_rip + rel32)) operand_size.
Definition jmp_rel16 (rel16 next_rip : Z) := jump_to (u64 (next_rip + rel16)) 16.
(** [jmp_abs64], [jmp_abs32], [jmp_abs16]. *)
Definition jmp_abs (w target : Z) := jump_to target w.

(** The checks of a far transfer on its selector, up to the present bit. *)
Definition code_descriptor (checks_long_default : bool) (new_selector : Z) : ST cpueaxh_engine (option SegmentDescriptor) :=
  let gp := mod_ctx (raise_gp_ctx (Z.land new_selector 0xFFFC)) ;;; st_ret None in
  if is_null_selector new_selector then mod_ctx (raise_gp_ctx 0) ;;; st_ret None
  else
    let* new_desc := load_descriptor_from_table new_selector in
    let* faulted := get_ctx cpu_has_exception in
    if faulted then st_ret None
    else if negb (is_code_segment (sd_type new_desc)) then gp
    else
      let* long := get_ctx cpu_long_mode_active in
      if checks_long_default && long && sd_long_mode new_desc && sd_db new_desc then gp
      else
        let rpl := Z.land new_selector 0x03 in
        let* cpl := get_ctx c_cpl in
        if (if is_conforming_code_segment (sd_type new_desc) then cpl <? sd_dpl new_desc
            else negb (sd_dpl new_desc =? cpl) || (cpl <? rpl)) then gp
        else if negb (sd_present new_desc) then mod_ctx (raise_np_ctx (Z.land new_selector 0xFFFC)) ;;; st_ret None
        else st_ret (Some new_desc).

Definition jmp_far (new_selector new_offset operand_size : Z) : ST cpueaxh_engine unit :=
  let* desc := code_descriptor true new_selector in
  match desc with
  | None => st_ret tt
  | Some new_desc =>
      let target_rip := cpu_mask_code_offset new_offset operand_size in
      let* valid := on_ctx (cpu_validate_code_offset target_rip (if sd_long_mode new_desc then 64 else operand_size)) in
      if negb valid then st_ret tt
      else mod_ctx (set_code_segment new_selector new_desc) ;;; mod_ctx (set_c_rip target_rip)
  end.

Definition width_of (operand_size : Z) : Z := if operand_size =? 64 then 64 else if operand_size =? 32 then 32 else 16.

(** The near target of FF, from a register or memory. *)
Definition indirect_target (inst : DecodedInstruction) : ST cpueaxh_engine (option Z) :=
  let w := width_of (i_operand_size inst) in
  if modrm_mod (i_modrm inst) =? 3 then
    let* target := get_ctx (fun ctx => get_reg w ctx (rm_index (i_modrm inst) ctx)) in st_ret (Some target)
  else
    let* target := read_memory_operand (i_mem_address inst) w in
    let* faulted := get_ctx cpu_has_exception in
    if faulted then st_ret None else st_ret (Some target).

(** A far pointer in memory: the offset and behind it the selector. *)
Definition read_far_pointer (operand_size mem_addr : Z) : ST cpueaxh_engine (option (Z * Z)) :=
  let w := width_of operand_size in
  let* new_offset := read_memory_operand mem_addr w in
  let* new_selector := read_memory_word (u64 (mem_addr + w / 8)) in
  let* faulted := get_ctx cpu_has_exception in
  if faulted then st_ret None else st_ret (Some (new_offset, new_selector)).

Definition execute_jmp_with_decoded (inst : DecodedInstruction) : ST cpueaxh_engine unit :=
  let opcode := i_opcode inst in
  let* next_rip := get_ctx (fun ctx => u64 (c_rip ctx + i_inst_size inst)) in
  if opcode =? 0xEB then jmp_rel8 (sext 8 (i_immediate inst)) next_rip (i_operand_size inst)
  else if opcode =? 0xE9 then
    if i_imm_size inst =? 2 then jmp_rel16 (sext 16 (i_immediate inst)) next_rip
    else jmp_rel32 (sext 32 (i_immediate inst)) next_rip (i_operand_size inst)
  else if opcode =? 0xFF then
    if modrm_digit inst =? 4 then
      let* target := indirect_target inst in
      match target with None => st_ret tt | Some target => jmp_abs (width_of (i_operand_size inst)) target end
    else
      let* far := read_far_pointer (i_operand_size inst) (i_mem_address inst) in
      match far with
      | None => st_ret tt
      | Some (new_offset, new_selector) => jmp_far new_selector new_offset (i_operand_size inst)
      end
  else if opcode =? 0xEA then jmp_far (u16 (i_mem_address inst)) (i_immediate inst) (i_operand_size inst)
  else st_ret tt.

(** [call_near_rel*] and [call_near_abs*] once the target is known: it is checked, then the return
    address pushed. *)
Definition call_near (w target return_rip : Z) : ST cpueaxh_engine unit :=
  let* valid := on_ctx (cpu_validate_code_offset target w) in
  if negb valid then st_ret tt
  else
    (if w =? 64 then push_value64 return_rip else if w =? 32 then push_value32 (u32 return_rip) else push_value16 (u16 return_rip)) ;;;
    let* faulted := get_ctx cpu_has_exception in
    if faulted then st_ret tt else mod_ctx (set_c_rip target).
Definition call_near_rel64 (rel32 return_rip : Z) := call_near 64 (u64 (return_rip + rel32)) return_rip.
Definition call_near_rel32 (rel32 return_rip : Z) := call_near 32 (u32 (u32 return_rip + u32 rel32)) return_rip.
Definition call_near_rel16 (rel16 return_rip : Z) := call_near 16 (u16 (u16 return_rip + u16 rel16)) return_rip.

(** The old CS and return address, then the new ones. *)
Definition call_far_to (new_selector : Z) (new_desc : SegmentDescriptor) (target slot_size operand_size return_rip : Z) : ST cpueaxh_engine unit :=
  let* valid := on_ctx (cpu_validate_code_offset target operand_size) in
  if negb valid then st_ret tt
  else
    let* old_selector := get_ctx (fun ctx => seg_selector (c_cs ctx)) in
    push_two_stack_values old_selector (wrap (8 * slot_size) return_rip) slot_size ;;;
    let* faulted := get_ctx cpu_has_exception in
    if faulted then st_ret tt
    else mod_ctx (set_code_segment new_selector new_desc) ;;; mod_ctx (set_c_rip target).

Definition call_far_mem (mem_addr operand_size return_rip : Z) : ST cpueaxh_engine unit :=
  let* far := read_far_pointer operand_size mem_addr in
  match far with
  | None => st_ret tt
  | Some (new_offset, new_selector) =>
      let* desc := code_descriptor true new_selector in
      match desc with
      | None => st_ret tt
      | Some new_desc =>
          let new_offset := if sd_long_mode new_desc then new_offset else if operand_size =? 16 then Z.land new_offset 0xFFFF else Z.land new_offset 0xFFFFFFFF in
          let* long := get_ctx cpu_is_64bit_code in
          call_far_to new_selector new_desc new_offset (if long then 8 else if operand_size =? 32 then 4 else 2)
            (if sd_long_mode new_desc then 64 else operand_size) return_rip
      end
  end.

Definition call_far_ptr (new_selector new_offset operand_size return_rip : Z) : ST cpueaxh_engine unit :=
  let* desc := code_descriptor false new_selector in
  match desc with
  | None => st_ret tt
  | Some new_desc =>
      let target_eip := if operand_size =? 16 then Z.land new_offset 0xFFFF else new_offset in
      call_far_to new_selector new_desc target_eip (if operand_size =? 32 then 4 else 2) operand_size return_rip
  end.

Definition execute_call_with_decoded (inst : DecodedInstruction) : ST cpueaxh_engine unit :=
  let opcode := i_opcode inst in
  let operand_size := i_operand_size inst in
  let* return_rip := get_ctx (fun ctx => u64 (c_rip ctx + i_inst_size inst)) in
  if opcode =? 0xE8 then
    if operand_size =? 64 then call_near_rel64 (sext 32 (i_immediate inst)) return_rip
    else if operand_size =? 32 then call_near_rel32 (sext 32 (i_immediate inst)) return_rip
    else call_near_rel16 (sext 16 (i_immediate inst)) return_rip
  else if opcode =? 0xFF then
    if modrm_digit inst =? 2 then
      let* target := indirect_target inst in
      match target with None => st_ret tt | Some target => call_near (width_of operand_size) target return_rip end
    else call_far_mem (i_mem_address inst) operand_size return_rip
  else if opcode =? 0x9A then call_far_ptr (u16 (i_mem_address inst)) (u32 (i_immediate inst)) operand_size return_rip
  else st_ret tt.

Definition ret_far_adjust_stack (adjustment : Z) : ST cpueaxh_engine unit :=
  let* stack_addr_size := get_ctx get_stack_addr_size in
  mod_ctx (fun ctx =>
    let rsp := reg_at ctx REG_RSP in
    if stack_addr_size =? 64 then set_reg_at REG_RSP (u64 (rsp + adjustment)) ctx
    else if stack_addr_size =? 32 then
      let esp := u32 (Z.land rsp 0xFFFFFFFF + adjustment) in set_reg_at REG_RSP (Z.lor (Z.ldiff rsp 0xFFFFFFFF) esp) ctx
    else
      let sp := u16 (Z.land rsp 0xFFFF + adjustment) in set_reg_at REG_RSP (Z.lor (Z.ldiff rsp 0xFFFF) sp) ctx).

Definition validate_ret_far_selector (selector : Z) : ST cpueaxh_engine (option SegmentDescriptor) :=
  let gp := mod_ctx (raise_gp_ctx (Z.land selector 0xFFFC)) ;;; st_ret None in
  if is_null_selector selector then mod_ctx (raise_gp_ctx 0) ;;; st_ret None
  else
    let* desc := load_descriptor_from_table selector in
    let* faulted := get_ctx cpu_has_exception in
    if faulted then st_ret None
    else if negb (is_code_segment (sd_type desc)) then gp
    else
      let* long := get_ctx cpu_long_mode_active in
      if long && sd_long_mode desc && sd_db desc then gp
      else
        let rpl := Z.land selector 0x03 in
        let* cpl := get_ctx c_cpl in
        if negb (rpl =? cpl) then gp
        else if (if is_conforming_code_segment (sd_type desc) then cpl <? sd_dpl desc else negb (sd_dpl desc =? cpl)) then gp
        else if negb (sd_present desc) then mod_ctx (raise_np_ctx (Z.land selector 0xFFFC)) ;;; st_ret None
        else st_ret (Some desc).

(** [execute_ret] behind its decoder. *)
Definition far_return (inst : DecodedInstruction) : ST cpueaxh_engine unit :=
  let operand_size := i_operand_size inst in
  let* peeked := peek_stack_values (width_of operand_size / 8) 2 in
  match peeked with
  | None => st_ret tt
  | Some (stack_values, stack_after_pops) =>
      let new_rip := arr_get 0 stack_values 0 in
      let new_selector := u16 (arr_get 0 stack_values 1) in
      let* desc := validate_ret_far_selector new_selector in
      match desc with
      | None => st_ret tt
      | Some new_desc =>
          let* valid := on_ctx (cpu_validate_code_offset new_rip (if sd_long_mode new_desc then 64 else operand_size)) in
          if negb valid then st_ret tt
          else
            mod_ctx (cpu_set_stack_pointer_value (i_address_size inst) stack_after_pops) ;;;
            ret_far_adjust_stack (u16 (i_immediate inst)) ;;;
            mod_ctx (set_code_segment new_selector new_desc) ;;;
            mod_ctx (set_c_rip (if operand_size =? 16 then cpu_mask_code_offset new_rip 16
                                else if operand_size =? 32 then cpu_mask_code_offset new_rip 32 else new_rip))
      end
  end.

(** [execute_iret] behind its decoder: five slots for 64-bit operands, three for the others, whose
    [new_rsp] and [new_ss] stay 0. *)
Definition interrupt_return (inst : DecodedInstruction) : ST cpueaxh_engine unit :=
  let operand_size := i_operand_size inst in
  let* peeked := peek_stack_values (width_of operand_size / 8) (if operand_size =? 64 then 5 else 3) in
  match peeked with
  | None => st_ret tt
  | Some (stack_values, stack_after_pops) =>
      let new_rip := arr_get 0 stack_values 0 in
      let new_selector := u16 (arr_get 0 stack_values 1) in
      let new_rflags := arr_get 0 stack_values 2 in
      let new_rsp := if operand_size =? 64 then arr_get 0 stack_values 3 else 0 in
      let new_ss := if operand_size =? 64 then u16 (arr_get 0 stack_values 4) else 0 in
      let* desc := validate_ret_far_selector new_selector in
      match desc with
      | None => st_ret tt
      | Some new_desc =>
          let target_operand_size := if sd_long_mode new_desc then 64 else operand_size in
          let* valid := on_ctx (cpu_validate_code_offset new_rip target_operand_size) in
          if negb valid then st_ret tt
          else
            mod_ctx (set_code_segment new_selector new_desc) ;;;
            mod_ctx (set_c_rflags new_rflags) ;;;
            if target_operand_size =? 16 then
              mod_ctx (cpu_set_stack_pointer_value (i_address_size inst) stack_after_pops) ;;;
              mod_ctx (set_c_rip (cpu_mask_code_offset new_rip 16))
            else if target_operand_size =? 32 then
              mod_ctx (cpu_set_stack_pointer_value (i_address_size inst) stack_after_pops) ;;;
              mod_ctx (set_c_rip (cpu_mask_code_offset new_rip 32))
            else
              mod_ctx (set_c_rip new_rip) ;;;
              mod_ctx (set_reg_at REG_RSP new_rsp) ;;;
              mod_ctx (fun ctx => set_c_ss (mkSeg new_ss (seg_descriptor (c_ss ctx))) ctx)
      end
  end.

Definition execute_jmp := execute_decoded decode_jmp_instruction execute_jmp_with_decoded.
Definition execute_call := execute_decoded decode_call_instruction execute_call_with_decoded.
Definition execute_ret := execute_decoded decode_ret_instruction far_return.
Definition execute_iret := execute_decoded decode_iret_instruction interrupt_return.
Definition execute_jmp_fast := execute_as_cached execute_jmp_with_decoded.
Definition execute_call_fast := execute_as_cached execute_call_with_decoded.

End execute.

(** ** The inline forms of Jcc *)

(** The two switches over the condition code agree. *)
Lemma conditions_agree cond ctx : 0 <= cond < 16 -> eval_condition cond ctx = cpu_executor_eval_jcc_condition (c_rflags ctx) cond.
Proof.
  intros Hc. unfold eval_condition, cpu_executor_eval_jcc_condition, jcc_cf, jcc_zf, jcc_sf, jcc_of, jcc_pf.
  assert (H : Z.land cond 0x0F = cond) by (change 0x0F with (Z.ones 4); rewrite Z.land_ones by lia; apply Z.mod_small; lia). rewrite H.
  assert (cond = 0 \/ cond = 1 \/ cond = 2 \/ cond = 3 \/ cond = 4 \/ cond = 5 \/ cond = 6 \/ cond = 7 \/ cond = 8 \/ cond = 9 \/
    cond = 10 \/ cond = 11 \/ cond = 12 \/ cond = 13 \/ cond = 14 \/ cond = 15) as Hcases by lia.
  set (sf := has_bits _ RFLAGS_SF). set (o := has_bits _ RFLAGS_OF). clearbody sf o.
  repeat destruct Hcases as [-> | Hcases]; try subst cond; cbn [Z.eqb Pos.eqb]; by destruct sf, o.
Qed.

(** ** Jumps from the bytes and inline *)

(** The inline handler ends with [last_inst_size], this one begins with it: the outcome is the same. *)
Lemma branch_equals_inline n disp cond e :
  0 <= cond < 16 ->
  final (on_ctx (let* next_rip := jcc_length n in
                 let* taken := st_gets (eval_condition cond) in branch_or_next taken next_rip disp 64)) e =
  final (inline_jcc n disp cond) e.
Proof.
  intros Hc. unfold final, on_ctx, st_zoom, inline_jcc, jcc_length, branch_or_next, jcc_branch, get_ctx, mod_ctx, on_ctx, st_zoom, st_bind, st_modify, st_gets, st_ret.
  rewrite conditions_agree by done. cbn [c_rip c_rflags set_c_last_inst_size].
  rewrite wrap_add_r by lia.
  destruct (cpu_executor_eval_jcc_condition (c_rflags (en_context e)) cond); unfold cpu_assign_rip_checked, cpu_validate_code_offset;
    change (cpu_uses_canonical_addresses (set_c_last_inst_size n (en_context e))) with (cpu_uses_canonical_addresses (en_context e));
    match goal with |- context [if ?b then (false, _) else _] => destruct b end; cbn [snd en_context set_en_context];
    unfold raise_gp_ctx, cpu_raise_exception; try reflexivity;
    change (cpu_has_exception (set_c_last_inst_size n (en_context e))) with (cpu_has_exception (en_context e));
    by destruct (cpu_has_exception (en_context e)).
Qed.

Lemma no_prefix_loop b rest p : is_legacy_prefix b = false -> is_rex_byte b = false -> jcc_prefix_loop (b :: rest) p = st_ret p.
Proof.
  unfold is_legacy_prefix. intros Hl Hx. apply orb_false_iff in Hl as [Hl H3]. apply orb_false_iff in Hl as [Hl H2].
  apply orb_false_iff in Hl as [Hl Hf0]. apply orb_false_iff in Hl as [Hl H67]. apply orb_false_iff in Hl as [Hs H66].
  cbn [jcc_prefix_loop]. by rewrite H66, H67, Hx, Hf0, Hs, H2, H3.
Qed.

Lemma size_of_cons b l : size_of (b :: l) = 1 + size_of l.
Proof. unfold size_of. cbn [length]. lia. Qed.
Lemma size_of_nonneg l : 0 <= size_of l.
Proof. unfold size_of. lia. Qed.

(** The first byte of a conditional jump is no prefix. *)
Lemma jcc_first_byte b : b = 0x0F \/ 0x70 <= b < 0x80 -> is_legacy_prefix b = false /\ is_rex_byte b = false.
Proof.
  intros Hb. assert (Hl : forallb (fun b => negb (is_legacy_prefix b) && negb (is_rex_byte b)) (0x0F :: seqZ 0x70 16) = true) by (vm_compute; reflexivity).
  rewrite forallb_forall in Hl. specialize (Hl b). rewrite andb_true_iff, !negb_true_iff in Hl. apply Hl.
  destruct Hb as [-> | Hb]; [by left | right]. apply list_elem_of_In, elem_of_seqZ. lia.
Qed.

Section from_bytes.
Variable ctx : CPU_CONTEXT.
Hypothesis (Hx : cpu_has_exception ctx = false) (Hl : cs_long_mode ctx = true).

Lemma land_condition base cond : 0 <= cond < 16 -> Z.land (16 * base + cond) 0x0F = cond.
Proof. intros Hc. change 0x0F with (Z.ones 4). rewrite Z.land_ones by lia. change (2 ^ 4) with 16. zdiv. Qed.

Lemma run_jcc_short cond rel rest :
  0 <= cond < 16 ->
  run_jcc (0x70 + cond :: rel :: rest) ctx =
  (let* next_rip := jcc_length 2 in let* taken := st_gets (eval_condition cond) in branch_or_next taken next_rip (sext 8 rel) 64) ctx.
Proof.
  intros Hc. unfold run_jcc. destruct (jcc_first_byte (0x70 + cond)) as [H1 H2]; [lia |].
  rewrite no_prefix_loop by done. unfold st_bind at 1. cbn [st_ret jp_offset jp_rex_w jp_operand jp_address].
  pose proof (size_of_nonneg rest). rewrite !size_of_cons.
  destruct (Z.leb_spec (1 + (1 + size_of rest)) 0); [lia |]. unfold st_bind at 1 2 3, st_gets at 1 2 3. rewrite Hx.
  change (byte_at (0x70 + cond :: rel :: rest) 0) with (0x70 + cond).
  destruct (between 0xE0 0xE3 (0x70 + cond)) eqn:E; [unfold between in E; lia |].
  replace (between 0x70 0x7F (0x70 + cond)) with true by (unfold between; lia).
  destruct (Z.leb_spec (1 + (1 + size_of rest)) (0 + 1)); [lia |].
  unfold jcc_operand_size. rewrite Hl, (land_condition 7) by done. reflexivity.
Qed.

Lemma run_jcc_near cond d0 d1 d2 d3 rest :
  0 <= cond < 16 ->
  run_jcc (0x0F :: 0x80 + cond :: d0 :: d1 :: d2 :: d3 :: rest) ctx =
  (let* next_rip := jcc_length 6 in let* taken := st_gets (eval_condition cond) in
   branch_or_next taken next_rip (sext 32 (le_combine [d0; d1; d2; d3])) 64) ctx.
Proof.
  intros Hc. unfold run_jcc. destruct (jcc_first_byte 0x0F) as [H1 H2]; [by left |].
  rewrite no_prefix_loop by done. unfold st_bind at 1. cbn [st_ret jp_offset jp_rex_w jp_operand jp_address].
  pose proof (size_of_nonneg rest). rewrite !size_of_cons. set (n := 1 + _). assert (Hn : n = 6 + size_of rest) by lia. clearbody n.
  destruct (Z.leb_spec n 0); [lia |]. unfold st_bind at 1 2 3, st_gets at 1 2 3. rewrite Hx.
  change (byte_at (0x0F :: 0x80 + cond :: d0 :: d1 :: d2 :: d3 :: rest) 0) with 0x0F.
  change (byte_at (0x0F :: 0x80 + cond :: d0 :: d1 :: d2 :: d3 :: rest) (0 + 1)) with (0x80 + cond).
  cbn [between Z.leb Z.eqb Z.compare Pos.compare Pos.compare_cont andb Pos.eqb].
  destruct (Z.leb_spec n (0 + 1)); [lia |]. replace (between 0x80 0x8F (0x80 + cond)) with true by (unfold between; lia).
  cbn [negb ud_if]. unfold st_bind at 1, st_ret at 1. unfold st_bind at 1, st_gets at 1. rewrite Hl. cbn [andb].
  rewrite (bind_run (ud_if false) _ ctx tt ctx eq_refl). destruct (Z.ltb_spec n (0 + 1 + 1 + 4)); [lia |].
  unfold jcc_operand_size. rewrite Hl, (land_condition 8) by done. reflexivity.
Qed.

End from_bytes.

Definition jcc_code (cond rel : Z) (code : list Z) : Prop :=
  (exists rest, code = 0x70 + cond :: rel :: rest) \/
  (exists d0 d1 d2 d3 rest, code = 0x0F :: 0x80 + cond :: d0 :: d1 :: d2 :: d3 :: rest /\ rel = le_combine [d0; d1; d2; d3]).

Lemma sixteen cond : 0 <= cond < 16 -> In cond (seqZ 0 16).
Proof. intros Hc. apply list_elem_of_In, elem_of_seqZ. lia. Qed.

Section decode_jcc.
Context `{ProbeDecoders}.
Variable ctx : CPU_CONTEXT.
Hypothesis (Hl : cs_long_mode ctx = true).

Lemma decode_jcc_bytes code op dec :
  vector_form code = None -> peek_opcode ctx code = (op, 0) -> op <> 0xFFFF -> 0 < size_of code ->
  (forall d, d_handler (dec d) = d_handler d /\ early_form ctx code 0 op d = Some (dec d)) ->
  exists d, cpu_decode_instruction code ctx = (dec d, ctx) /\ d_handler (dec d) = None /\ has_bits (d_flags d) DECODED_FLAG_INLINE_RET = false.
Proof.
  intros Hv Hp Hop Hs Hd. eexists (add_flags (opcode_flags code 0 op) (set_d_segment_override (peek_segment_override code 0) (decoded_bytes code))).
  unfold cpu_decode_instruction. destruct (Z.leb_spec (size_of code) 0); [lia |]. rewrite Hv. unfold st_bind, st_get. rewrite Hp.
  destruct (Z.eqb_spec op 0xFFFF); [done |]. rewrite (proj2 (Hd _)). split; [done |]. split; [by rewrite (proj1 (Hd _)) |].
  cbn [d_flags add_flags set_d_flags set_d_segment_override decoded_bytes set_d_byte_count set_d_bytes]. unfold opcode_flags.
  by destruct (cpu_step_may_touch_vector_state _ _ _), (is_branch_opcode _), (cpu_decoder_is_escape_candidate_opc _).
Qed.

Lemma early_short cond rel rest d :
  0 <= cond < 16 ->
  early_form ctx (0x70 + cond :: rel :: rest) 0 (0x70 + cond) d =
  Some (add_flags DECODED_FLAG_BRANCH (set_d_length 2 (set_d_inline_jcc_disp (sext 8 rel) (set_d_inline_jcc_cond cond
    (set_d_inline_kind DECODED_INLINE_JCC_SHORT_LONGMODE d))))).
Proof.
  intros Hc. pose proof (size_of_nonneg rest). unfold early_form. rewrite Hl, !size_of_cons. replace (2 <=? 1 + (1 + size_of rest)) with true by lia.
  apply sixteen in Hc. cbn in Hc. repeat destruct Hc as [<- | Hc]; [reflexivity .. | done].
Qed.

Lemma early_near cond d0 d1 d2 d3 rest d :
  0 <= cond < 16 ->
  early_form ctx (0x0F :: 0x80 + cond :: d0 :: d1 :: d2 :: d3 :: rest) 0 (Z.lor 0x0F00 (0x80 + cond)) d =
  Some (add_flags DECODED_FLAG_BRANCH (set_d_length 6 (set_d_inline_jcc_disp32 (sext 32 (le_combine [d0; d1; d2; d3])) (set_d_inline_jcc_cond cond
    (set_d_inline_kind DECODED_INLINE_JCC_NEAR_LONGMODE d))))).
Proof.
  intros Hc. pose proof (size_of_nonneg rest). unfold early_form. rewrite Hl, !size_of_cons.
  replace (6 <=? 1 + (1 + (1 + (1 + (1 + (1 + size_of rest)))))) with true by lia.
  apply sixteen in Hc. cbn in Hc. repeat destruct Hc as [<- | Hc]; [reflexivity .. | done].
Qed.

Lemma jcc_prefix_run b rest : b = 0x0F \/ 0x70 <= b < 0x80 -> prefix_run (is_prefix_of_mode ctx) (b :: rest) = 0.
Proof. intros Hb. destruct (jcc_first_byte b Hb) as [H1 H2]. cbn [prefix_run]. unfold is_prefix_of_mode. by rewrite H1, H2, andb_false_r. Qed.

Lemma decode_jcc_short cond rel rest :
  0 <= cond < 16 ->
  exists d, cpu_decode_instruction (0x70 + cond :: rel :: rest) ctx = (d, ctx) /\ d_handler d = None /\
    has_bits (d_flags d) DECODED_FLAG_INLINE_RET = false /\ d_inline_kind d = DECODED_INLINE_JCC_SHORT_LONGMODE /\
    d_inline_jcc_disp d = sext 8 rel /\ d_inline_jcc_cond d = cond.
Proof.
  intros Hc. pose proof (size_of_nonneg rest). edestruct (decode_jcc_bytes (0x70 + cond :: rel :: rest) (0x70 + cond)) as (d & Hd & Hh & Hf).
  5: { intros d. split; [shelve | apply (early_short cond rel rest d Hc)]. }
  - apply sixteen in Hc. cbn in Hc. repeat destruct Hc as [<- | Hc]; [reflexivity .. | done].
  - unfold peek_opcode. rewrite jcc_prefix_run by lia. cbv zeta. rewrite !size_of_cons. destruct (Z.leb_spec (1 + (1 + size_of rest)) 0); [lia |].
    change (byte_at (0x70 + cond :: rel :: rest) 0) with (0x70 + cond). by replace (0x70 + cond =? 0x0F) with false by lia.
  - lia.
  - rewrite !size_of_cons. lia.
  - eexists. split; [exact Hd |]. split; [exact Hh |]. split; [| done]. cbn [d_flags add_flags set_d_flags set_d_length set_d_inline_jcc_disp set_d_inline_jcc_cond set_d_inline_kind].
    rewrite has_bits_lor, Hf. done.
    Unshelve. done.
Qed.

Lemma decode_jcc_near cond d0 d1 d2 d3 rest :
  0 <= cond < 16 ->
  exists d, cpu_decode_instruction (0x0F :: 0x80 + cond :: d0 :: d1 :: d2 :: d3 :: rest) ctx = (d, ctx) /\ d_handler d = None /\
    has_bits (d_flags d) DECODED_FLAG_INLINE_RET = false /\ d_inline_kind d = DECODED_INLINE_JCC_NEAR_LONGMODE /\
    d_inline_jcc_disp32 d = sext 32 (le_combine [d0; d1; d2; d3]) /\ d_inline_jcc_cond d = cond.
Proof.
  intros Hc. pose proof (size_of_nonneg rest).
  edestruct (decode_jcc_bytes (0x0F :: 0x80 + cond :: d0 :: d1 :: d2 :: d3 :: rest) (Z.lor 0x0F00 (0x80 + cond))) as (d & Hd & Hh & Hf).
  5: { intros d. split; [shelve | apply (early_near cond d0 d1 d2 d3 rest d Hc)]. }
  - apply sixteen in Hc. cbn in Hc. repeat destruct Hc as [<- | Hc]; [reflexivity .. | done].
  - unfold peek_opcode. rewrite jcc_prefix_run by lia. cbv zeta. rewrite !size_of_cons. set (n := 1 + _). assert (Hn : n = 6 + size_of rest) by lia. clearbody n.
    destruct (Z.leb_spec n 0); [lia |]. destruct (Z.ltb_spec (0 + 1) n); [| lia]. reflexivity.
  - apply sixteen in Hc. cbn in Hc. repeat destruct Hc as [<- | Hc]; [discriminate .. | done].
  - rewrite !size_of_cons. lia.
  - eexists. split; [exact Hd |]. split; [exact Hh |]. split; [| done]. cbn [d_flags add_flags set_d_flags set_d_length set_d_inline_jcc_disp32 set_d_inline_jcc_cond set_d_inline_kind].
    rewrite has_bits_lor, Hf. done.
    Unshelve. done.
Qed.

End decode_jcc.

Section inline_jumps.
Context `{Callbacks} `{ProbeDecoders} `{InstructionSet}.

(** C29: the executor's shortcut for conditional jumps is the instruction.  In 64-bit code every
    conditional jump without prefixes, short or near, is decoded to an inline form without a
    handler, and running that form leaves the engine exactly as the handler does on the bytes:
    the same RIP on either outcome, the same fault for a non-canonical target. *)
Theorem inline_jcc_runs_the_instruction e code cond rel rip_pre
  (Hx : cpu_has_exception (en_context e) = false) (Hl : cs_long_mode (en_context e) = true)
  (Hc : 0 <= cond < 16) (Hcode : jcc_code cond rel code) :
  let dec := result (cpu_decode_instruction code) (en_context e) in
  d_handler dec = None /\ final (run_decoded (OnStack dec) rip_pre) e = final (execute_jcc code) e.
Proof.
  destruct Hcode as [(rest & ->) | (d0 & d1 & d2 & d3 & rest & -> & ->)]; cbv zeta; unfold result.
  - destruct (decode_jcc_short _ Hl cond rel rest Hc) as (d & -> & Hh & Hf & Hk & Hd & Hcond). cbn [fst]. split; [done |].
    unfold run_decoded, execute_jcc, final. rewrite (bind_run (deref (OnStack d)) _ e d e eq_refl), Hf, Hk.
    rewrite Z.eqb_refl. unfold cpu_executor_inline_jcc_short_longmode. rewrite (bind_run (deref (OnStack d)) _ e d e eq_refl), Hd, Hcond.
    unfold on_ctx, st_zoom at 1. rewrite (run_jcc_short _ Hx Hl cond rel rest Hc). symmetry. apply (branch_equals_inline 2 (sext 8 rel) cond e Hc).
  - destruct (decode_jcc_near _ Hl cond d0 d1 d2 d3 rest Hc) as (d & -> & Hh & Hf & Hk & Hd & Hcond). cbn [fst]. split; [done |].
    unfold run_decoded, execute_jcc, final. rewrite (bind_run (deref (OnStack d)) _ e d e eq_refl), Hf, Hk.
    rewrite Z.eqb_refl. change (DECODED_INLINE_JCC_NEAR_LONGMODE =? DECODED_INLINE_JCC_SHORT_LONGMODE) with false.
    unfold cpu_executor_inline_jcc_near_longmode. rewrite (bind_run (deref (OnStack d)) _ e d e eq_refl), Hd, Hcond.
    unfold on_ctx, st_zoom at 1. rewrite (run_jcc_near _ Hx Hl cond d0 d1 d2 d3 rest Hc). symmetry.
    apply (branch_equals_inline 6 (sext 32 (le_combine [d0; d1; d2; d3])) cond e Hc).
Qed.

End inline_jumps.

(** ** Far transfers *)

(** The transfer was refused: an exception is pending, execution goes on where it was. *)
Definition transfer_refused (e e' : cpueaxh_engine) : Prop :=
  cpu_has_exception (en_context e') = true /\ segment_registers (en_context e') = segment_registers (en_context e) /\
  c_rip (en_context e') = c_rip (en_context e) /\ c_regs (en_context e') = c_regs (en_context e) /\
  c_rflags (en_context e') = c_rflags (en_context e) /\ ms_heap (en_mem e') = ms_heap (en_mem e).

Lemma raise_transfer_refused code ec e e1 :
  (code =? CPU_EXCEPTION_NONE) = false -> same_cpu e e1 ->
  transfer_refused e (set_en_context (cpu_raise_exception code ec (en_context e1)) e1).
Proof.
  intros Hc Hs. unfold transfer_refused. cbn [en_context set_en_context en_mem].
  split; [by apply raise_exception_pending |]. rewrite (same_cpu_context _ _ Hs), (same_cpu_heap _ _ Hs).
  unfold cpu_raise_exception. by destruct (cpu_has_exception (en_context e)).
Qed.

Lemma faults_transfer_refused e v ad acc e' : v <> V_OK -> faults e v ad acc e' -> transfer_refused e e'.
Proof.
  intros Hv Hf. split; [by eapply faults_pending |]. destruct Hf as (e1 & Hs & ->). cbn [en_context set_en_context en_mem].
  rewrite (same_cpu_heap _ _ Hs).
  destruct v; [done | | |]; unfold raise_verdict, raise_gp_ctx, cpu_raise_exception;
    [by destruct (cpu_has_exception (en_context e)) | |];
    by destruct (cpu_has_exception (set_c_control_regs (arr_set (c_control_regs (en_context e)) REG_CR2 ad) (en_context e))).
Qed.

(** A check that yields [d] when it passes. *)
Definition decides {D} (ok : bool) (e : cpueaxh_engine) (d : D) (r : option D * cpueaxh_engine) : Prop :=
  if ok then exists e', same_cpu e e' /\ r = (Some d, e') else exists e', transfer_refused e e' /\ r = (None, e').

Lemma decides_raise {D} e e1 (d : D) code ec :
  (code =? CPU_EXCEPTION_NONE) = false -> same_cpu e e1 ->
  decides false e d ((mod_ctx (cpu_raise_exception code ec) ;;; st_ret None) e1).
Proof. intros Hc Hs. eexists. split; [by apply (raise_transfer_refused code ec e e1) | done]. Qed.

Lemma decides_unless {D} e e1 (d : D) (b ok : bool) code ec (k : ST cpueaxh_engine (option D)) :
  (code =? CPU_EXCEPTION_NONE) = false -> same_cpu e e1 -> decides ok e d (k e1) ->
  decides (negb b && ok) e d ((if b then mod_ctx (cpu_raise_exception code ec) ;;; st_ret None else k) e1).
Proof. intros Hc Hs Hk. destruct b; [by apply decides_raise | done]. Qed.

Lemma decides_required {D} e e1 (d : D) (c ok : bool) code ec (k : ST cpueaxh_engine (option D)) :
  (code =? CPU_EXCEPTION_NONE) = false -> same_cpu e e1 -> decides ok e d (k e1) ->
  decides (c && ok) e d ((if negb c then mod_ctx (cpu_raise_exception code ec) ;;; st_ret None else k) e1).
Proof. intros Hc Hs Hk. destruct c; [done | by apply decides_raise]. Qed.

Definition descriptor_readable (e : cpueaxh_engine) (selector : Z) : bool :=
  descriptor_in_table e selector &&
  match first_fault e (descriptor_address e selector) 8 MM_PROT_READ with None => true | Some _ => false end.

(** What the code asks of the target of JMP and CALL, over the types 8 to 15, the conforming ones
    from 12 on.  [checks_ld]: a 64-bit segment must not have its D bit set.  The S bit is not among
    the checks; [transfer_allowed] below has it. *)
Definition transfer_checked (checks_ld : bool) (e : cpueaxh_engine) (selector : Z) : bool :=
  let d := guest_descriptor e selector in
  let cpl := c_cpl (en_context e) in
  negb (selector <? 4) && descriptor_readable e selector && (8 <=? sd_type d) &&
  negb (checks_ld && cpu_long_mode_active (en_context e) && sd_long_mode d && sd_db d) &&
  (if 12 <=? sd_type d then sd_dpl d <=? cpl else (sd_dpl d =? cpl) && (selector mod 4 <=? cpl)) && sd_present d.

(** What the code asks of the target of RET and IRET at the same privilege level. *)
Definition return_checked (e : cpueaxh_engine) (selector : Z) : bool :=
  let d := guest_descriptor e selector in
  let cpl := c_cpl (en_context e) in
  negb (selector <? 4) && descriptor_readable e selector && (8 <=? sd_type d) &&
  negb (cpu_long_mode_active (en_context e) && sd_long_mode d && sd_db d) &&
  (selector mod 4 =? cpl) && (if 12 <=? sd_type d then sd_dpl d <=? cpl else sd_dpl d =? cpl) && sd_present d.

Lemma code_type_tests t : 0 <= t < 16 -> is_code_segment t = (8 <=? t) /\ ((8 <=? t) = true -> is_conforming_code_segment t = (12 <=? t)).
Proof.
  intros Ht. assert (Hl : forallb (fun t => eqb (is_code_segment t) (8 <=? t) && implb (8 <=? t) (eqb (is_conforming_code_segment t) (12 <=? t))) (seqZ 0 16) = true)
    by (vm_compute; reflexivity).
  rewrite forallb_forall in Hl. specialize (Hl t). cbv beta in Hl. rewrite andb_true_iff, eqb_true_iff, implb_true_iff, eqb_true_iff in Hl.
  apply Hl, sixteen, Ht.
Qed.

Lemma rpl_land selector : Z.land selector 0x03 = selector mod 4.
Proof. change 0x03 with (Z.ones 2). by rewrite Z.land_ones by lia. Qed.

Section far.
Context `{Callbacks}.

(** The descriptor is read, or the check fails before any other. *)
Lemma decides_descriptor e selector (ok : bool) (k : SegmentDescriptor -> ST cpueaxh_engine (option SegmentDescriptor)) :
  cpu_ready e -> in_word 16 selector ->
  (forall e1, same_cpu e e1 -> decides ok e (guest_descriptor e selector) (k (guest_descriptor e selector) e1)) ->
  decides (descriptor_readable e selector && ok) e (guest_descriptor e selector)
    ((let* desc := load_descriptor_from_table selector in
      let* faulted := get_ctx cpu_has_exception in if faulted then st_ret None else k desc) e).
Proof.
  intros Hr Hsel Hk. pose proof (load_descriptor_spec e selector Hr Hsel) as Hl. unfold descriptor_readable.
  unfold st_bind, get_ctx, st_gets. destruct (descriptor_in_table e selector); cbn [andb].
  - destruct (first_fault e (descriptor_address e selector) 8 MM_PROT_READ) as [[ad v] |] eqn:Ef; cbn [andb].
    + destruct Hl as (d & e1 & Hf & ->). rewrite (first_fault_pending _ _ _ _ _ _ _ Ef Hf). exists e1. split; [| done].
      apply (faults_transfer_refused e v ad MM_PROT_READ); [by eapply first_fault_not_ok | done].
    + destruct Hl as (e1 & Hs & ->). pose proof Hr as (_ & _ & Hx). rewrite (same_cpu_context _ _ Hs), Hx. by apply Hk.
  - rewrite Hl. cbn [en_context set_en_context]. unfold raise_gp_ctx. rewrite raise_exception_pending by done. eexists. split; [| done].
    apply (raise_transfer_refused CPU_EXCEPTION_GP _ e e); [done |]. apply same_cpu_refl, Hr.
Qed.

Lemma get_ctx_run {A B} (f : CPU_CONTEXT -> A) (k : A -> ST cpueaxh_engine B) e e1 :
  same_cpu e e1 -> (let* x := get_ctx f in k x) e1 = k (f (en_context e)) e1.
Proof. intros Hs. unfold st_bind, get_ctx, st_gets. by rewrite (same_cpu_context _ _ Hs). Qed.

Lemma code_descriptor_spec chk e selector :
  cpu_ready e -> in_word 16 selector ->
  decides (transfer_checked chk e selector) e (guest_descriptor e selector) (code_descriptor chk selector e).
Proof.
  intros Hr Hsel. pose proof (same_cpu_refl e (proj1 Hr)) as Hrefl.
  unfold transfer_checked, code_descriptor. rewrite null_selector_eq, rpl_land by done. rewrite <- !andb_assoc.
  apply decides_unless; [done | done |]. apply decides_descriptor; [done | done |]. intros e1 Hs.
  destruct (code_type_tests _ (guest_type_range e selector)) as [Tc Tf]. rewrite Tc.
  set (d := guest_descriptor e selector) in *.
  destruct (8 <=? sd_type d); cbn [negb]; [| by apply decides_raise]. cbn [andb]. rewrite Tf by done.
  rewrite (get_ctx_run _ _ _ _ Hs). rewrite <- !andb_assoc.
  apply decides_unless; [done | done |]. rewrite (get_ctx_run _ _ _ _ Hs).
  replace (if 12 <=? sd_type d then sd_dpl d <=? c_cpl (en_context e) else (sd_dpl d =? c_cpl (en_context e)) && (selector mod 4 <=? c_cpl (en_context e)))
    with (negb (if 12 <=? sd_type d then c_cpl (en_context e) <? sd_dpl d
                else negb (sd_dpl d =? c_cpl (en_context e)) || (c_cpl (en_context e) <? selector mod 4)))
    by (destruct (12 <=? sd_type d); rewrite ?negb_orb, ?negb_involutive, ?Z.ltb_antisym, ?negb_involutive; done).
  apply decides_unless; [done | done |].
  destruct (sd_present d); cbn [negb]; [exists e1; done | by apply decides_raise].
Qed.

Lemma validate_ret_spec e selector :
  cpu_ready e -> in_word 16 selector ->
  decides (return_checked e selector) e (guest_descriptor e selector) (validate_ret_far_selector selector e).
Proof.
  intros Hr Hsel. pose proof (same_cpu_refl e (proj1 Hr)) as Hrefl.
  unfold return_checked, validate_ret_far_selector. rewrite null_selector_eq, rpl_land by done. rewrite <- !andb_assoc.
  apply decides_unless; [done | done |]. apply decides_descriptor; [done | done |]. intros e1 Hs.
  destruct (code_type_tests _ (guest_type_range e selector)) as [Tc Tf]. rewrite Tc.
  set (d := guest_descriptor e selector) in *.
  destruct (8 <=? sd_type d); cbn [negb]; [| by apply decides_raise]. cbn [andb]. rewrite Tf by done.
  rewrite (get_ctx_run _ _ _ _ Hs). rewrite <- !andb_assoc.
  apply decides_unless; [done | done |]. rewrite (get_ctx_run _ _ _ _ Hs).
  apply decides_required; [done | done |].
  replace (if 12 <=? sd_type d then sd_dpl d <=? c_cpl (en_context e) else sd_dpl d =? c_cpl (en_context e))
    with (negb (if 12 <=? sd_type d then c_cpl (en_context e) <? sd_dpl d else negb (sd_dpl d =? c_cpl (en_context e))))
    by (destruct (12 <=? sd_type d); rewrite ?negb_involutive, ?Z.ltb_antisym, ?negb_involutive; done).
  apply decides_unless; [done | done |].
  destruct (sd_present d); cbn [negb]; [exists e1; done | by apply decides_raise].
Qed.

End far.

(** What the code asks of the offset: canonical in 64-bit code.  The limit of the code segment is not
    looked at; [offset_in_segment] below is the architecture's rule. *)
Definition offset_checked (e : cpueaxh_engine) (target : Z) : bool :=
  negb (cpu_uses_canonical_addresses (en_context e)) || cpu_is_canonical_address target.

Lemma validate_run e target os :
  on_ctx (cpu_validate_code_offset target os) e =
  (if offset_checked e (cpu_mask_code_offset target os) then (true, e)
   else (false, set_en_context (raise_gp_ctx 0 (en_context e)) e)).
Proof.
  unfold on_ctx, st_zoom, cpu_validate_code_offset, offset_checked.
  destruct (cpu_uses_canonical_addresses (en_context e)), (cpu_is_canonical_address (cpu_mask_code_offset target os)); cbn [andb negb orb];
    by rewrite ?set_own_context.
Qed.

Lemma offset_checked_same e e1 target : same_cpu e e1 -> offset_checked e1 target = offset_checked e target.
Proof. intros Hs. unfold offset_checked. by rewrite (same_cpu_context _ _ Hs). Qed.

Lemma mask_twice off os long : cpu_mask_code_offset (cpu_mask_code_offset off os) (if long : bool then 64 else os) = cpu_mask_code_offset off os.
Proof.
  unfold cpu_mask_code_offset. destruct long; [done |].
  destruct (os =? 16); [by apply wrap_wrap |]. destruct (os =? 32); [by apply wrap_wrap | done].
Qed.

(** A context that looks at memory as [e]'s does. *)
Definition same_view (e : cpueaxh_engine) (ctx : CPU_CONTEXT) : Prop :=
  cpu_uses_canonical_addresses ctx = cpu_uses_canonical_addresses (en_context e) /\ c_cpl ctx = c_cpl (en_context e).

Lemma view_first_fault e ctx a n acc : same_view e ctx -> first_fault (set_en_context ctx e) a n acc = first_fault e a n acc.
Proof.
  intros [Hc Hp]. unfold first_fault. induction (offsets_from 0 n) as [| o l IH]; [done |]. cbn [first_fault_in].
  unfold cpu_access. cbn [en_context en_mem set_en_context]. by rewrite Hc, Hp, IH.
Qed.

Section far_jump.
Context `{Callbacks}.

(** What the architecture (volume 2, JMP) asks of the offset in the new segment: canonical in a 64-bit
    one, within the limit in any other. *)
Definition offset_in_segment (e : cpueaxh_engine) (d : SegmentDescriptor) (target : Z) : bool :=
  if cpu_long_mode_active (en_context e) && sd_long_mode d then cpu_is_canonical_address target
  else target <=? sd_limit d.

(** What it asks of a jump to a code segment. *)
Definition transfer_allowed (e : cpueaxh_engine) (selector target : Z) : bool :=
  transfer_checked true e selector && code_or_data e selector &&
  offset_in_segment e (guest_descriptor e selector) target.

(** The jumps the code makes against it: to a system descriptor whose type, read as that of a segment,
    is that of code, and past the limit of a segment. *)
Definition transfer_overlooked (e : cpueaxh_engine) (selector target : Z) : bool :=
  transfer_checked true e selector && offset_checked e target &&
  negb (code_or_data e selector && offset_in_segment e (guest_descriptor e selector) target).

Lemma guest_limit_range e selector : sd_limit (guest_descriptor e selector) < 2 ^ 32.
Proof.
  unfold guest_descriptor, architectural_descriptor. cbn [sd_limit]. set (raw := guest_value _ _ _).
  assert (0 <= field raw 0 16 < 2 ^ 16) by (unfold field; apply Z.mod_pos_bound; lia).
  assert (0 <= field raw 48 4 < 2 ^ 4) by (unfold field; apply Z.mod_pos_bound; lia).
  destruct (flag raw 55); lia.
Qed.

Lemma low_canonical target : 0 <= target < 2 ^ 47 -> cpu_is_canonical_address target = true.
Proof.
  intros Ht. unfold cpu_is_canonical_address. rewrite !Z.shiftr_div_pow2 by lia.
  rewrite (Z.div_small target (2 ^ 47)), (Z.div_small target (2 ^ 48)) by lia. reflexivity.
Qed.

(** An offset inside the segment passes the code's check. *)
Lemma offset_in_segment_checked e selector target :
  0 <= target -> offset_in_segment e (guest_descriptor e selector) target = true -> offset_checked e target = true.
Proof.
  intros Ht. unfold offset_in_segment, offset_checked. destruct (_ && _).
  - intros ->. by rewrite orb_true_r.
  - intros Hl%Z.leb_le. pose proof (guest_limit_range e selector). rewrite low_canonical by lia. by rewrite orb_true_r.
Qed.

Lemma mask_range offset os : in_word 64 offset -> 0 <= cpu_mask_code_offset offset os.
Proof.
  intros [Ho _]. unfold cpu_mask_code_offset. destruct (os =? 16); [apply (wrap_range 16); lia |].
  destruct (os =? 32); [apply (wrap_range 32); lia | done].
Qed.

(** The jump in terms of the code's checks. *)
Lemma far_jump_spec e selector offset os
  (Hr : cpu_ready e) (Hsel : in_word 16 selector) :
  let target := cpu_mask_code_offset offset os in
  let e' := final (jmp_far selector offset os) e in
  if transfer_checked true e selector && offset_checked e target
  then exists e1, same_cpu e e1 /\
         e' = set_en_context (set_c_rip target (set_code_segment selector (guest_descriptor e selector) (en_context e))) e1
  else transfer_refused e e'.
Proof.
  cbv zeta. pose proof (code_descriptor_spec true e selector Hr Hsel) as Hd. unfold jmp_far, final.
  unfold decides in Hd. destruct (transfer_checked true e selector); destruct Hd as (e1 & Hs & Hd); rewrite (bind_run _ _ _ _ _ Hd); cbn [andb]; [| exact Hs].
  pose proof (validate_run e1 (cpu_mask_code_offset offset os) (if sd_long_mode (guest_descriptor e selector) then 64 else os)) as Hv.
  rewrite mask_twice, (offset_checked_same _ _ _ Hs) in Hv.
  destruct (offset_checked e _); rewrite (bind_run _ _ _ _ _ Hv); cbn [negb]; [| by apply (raise_transfer_refused CPU_EXCEPTION_GP _ e e1)].
  exists e1. split; [done |]. unfold st_bind, mod_ctx, st_modify. cbn [snd en_context set_en_context]. by rewrite (same_cpu_context _ _ Hs).
Qed.

(** C30: a far jump to a code segment follows the architecture but for the jumps the statement names.
    For any selector and offset: when the descriptor is within its table's limit, readable, a code
    segment's (its S bit set, its type 8 to 15, not both L and D in long mode), of the privilege the
    jump asks for, conforming or not, and present, and the offset canonical in a 64-bit segment and
    within the limit of any other, CS gets the selector with the current privilege level and the
    descriptor in guest memory, and RIP the offset truncated to the operand size; otherwise an
    exception is pending and the registers, RIP, the flags, the segments and memory are as they
    were.  [transfer_overlooked] are the jumps the code makes although the architecture does not: the
    S bit is not looked at, so a system descriptor of one of those types (a gate or a TSS) is entered
    like a segment, and no offset is compared with the segment's limit. *)
Theorem far_jump_correct e selector offset os
  (Hr : cpu_ready e) (Hsel : in_word 16 selector) (Hoff : in_word 64 offset) :
  let target := cpu_mask_code_offset offset os in
  let e' := final (jmp_far selector offset os) e in
  let jumped := exists e1, same_cpu e e1 /\
    e' = set_en_context (set_c_rip target (set_code_segment selector (guest_descriptor e selector) (en_context e))) e1 in
  if transfer_overlooked e selector target then jumped
  else if transfer_allowed e selector target then jumped
  else transfer_refused e e'.
Proof.
  cbv zeta. pose proof (far_jump_spec e selector offset os Hr Hsel) as Hs. cbv zeta in Hs.
  pose proof (offset_in_segment_checked e selector _ (mask_range offset os Hoff)) as Hin.
  unfold transfer_overlooked, transfer_allowed. rewrite <- !andb_assoc.
  destruct (transfer_checked true e selector); cbn [andb]; [| exact Hs]. cbn [andb] in Hs.
  destruct (code_or_data e selector); cbn [andb negb].
  - destruct (offset_in_segment e _ _); cbn [negb].
    + rewrite Hin in * by done. exact Hs.
    + rewrite andb_true_r. destruct (offset_checked e _); exact Hs.
  - rewrite andb_true_r. destruct (offset_checked e _); exact Hs.
Qed.

End far_jump.

(** ** Returning from calls *)

Definition push_of_width (w value : Z) : Z := if w =? 64 then value else wrap w value.

Section near_calls.
Context `{Callbacks}.

(** [call_near] in terms of the push. *)
Lemma call_near_push e w n target ret :
  (w, n) = (16, 2) \/ (w, n) = (32, 4) \/ (w, n) = (64, 8) ->
  offset_checked e (cpu_mask_code_offset target w) = true -> cpu_has_exception (en_context (final (push_value n (push_of_width w ret)) e)) = false ->
  final (call_near w target ret) e = final (mod_ctx (set_c_rip target)) (final (push_value n (push_of_width w ret)) e).
Proof.
  intros Hw Hv Hx. unfold call_near, final at 1. pose proof (validate_run e target w) as Hrun. rewrite Hv in Hrun.
  rewrite (bind_run _ _ _ _ _ Hrun). cbn [negb]. unfold st_bind at 1.
  replace ((if w =? 64 then push_value64 ret else if w =? 32 then push_value32 (u32 ret) else push_value16 (u16 ret)) e)
    with (push_value n (push_of_width w ret) e).
  - unfold final in *. destruct (push_value n (push_of_width w ret) e) as [u e1]. cbn [snd] in *.
    unfold st_bind, get_ctx, st_gets. by rewrite Hx.
  - destruct Hw as [Hw | [Hw | Hw]]; injection Hw as -> ->; unfold push_of_width, push_value64, push_value32, push_value16; cbn [Z.eqb Pos.eqb];
      by rewrite ?wrap_wrap by lia.
Qed.

Lemma pop_rip_run e w n v e1 :
  (w, n) = (16, 2) \/ (w, n) = (32, 4) \/ (w, n) = (64, 8) ->
  pop_value n e = (v, e1) -> cpu_has_exception (en_context e1) = false -> offset_checked e1 (cpu_mask_code_offset v w) = true ->
  final (pop_rip w) e = set_en_context (set_c_rip (cpu_mask_code_offset v w) (en_context e1)) e1.
Proof.
  intros Hw Hp Hx Hv. unfold pop_rip, final.
  assert (Hpop : (if w =? 16 then pop_value16 else if w =? 32 then pop_value32 else pop_value64) e = (v, e1))
    by (destruct Hw as [Hw | [Hw | Hw]]; injection Hw as -> ->; exact Hp).
  rewrite (bind_run _ _ e v e1 Hpop). rewrite (bind_run (get_ctx cpu_has_exception) _ e1 _ e1 eq_refl), Hx.
  assert (Hos : (if w =? 16 then 16 else if w =? 32 then 32 else 64) = w) by (destruct Hw as [Hw | [Hw | Hw]]; by injection Hw as -> ->).
  rewrite Hos. unfold st_bind, on_ctx, st_zoom, cpu_assign_rip_checked, cpu_validate_code_offset.
  unfold offset_checked in Hv.
  destruct (cpu_uses_canonical_addresses (en_context e1)), (cpu_is_canonical_address (cpu_mask_code_offset v w)); done.
Qed.

(** A near return comes back from its call.  When the slot below the stack pointer is writable
    and readable and its bytes do not share host bytes, and the target and the return address are
    ones the mode allows, a near call at any operand size moves RIP to the target, and a near
    return from there leaves the context as it was before the call but for RIP, which is the
    return address: the stack pointer is back, at every stack address size and wrapping around. *)
Theorem near_call_returns e w n target ret
  (Hw : (w, n) = (16, 2) \/ (w, n) = (32, 4) \/ (w, n) = (64, 8))
  (Hr : cpu_ready e) (Hwf : regs_wf (en_context e)) (Hn : slot_ok e n)
  (Hwr : first_fault e (stack_at e (- n)) n MM_PROT_WRITE = None)
  (Hrd : first_fault e (stack_at e (- n)) n MM_PROT_READ = None)
  (Hnd : NoDup (hosts_of e (stack_at e (- n)) n))
  (Ht : in_word w target) (Hvt : offset_checked e target = true) (Hret : in_word w ret) (Hvr : offset_checked e ret = true) :
  let called := final (call_near w target ret) e in
  c_rip (en_context called) = target /\
  en_context (final (pop_rip w) called) = set_c_rip ret (en_context e).
Proof.
  cbv zeta. pose proof (push_spec e n (push_of_width w ret) Hr Hwf Hn) as Hp. rewrite Hwr in Hp. destruct Hp as (e1 & Hs & Hpush).
  pose proof (stored_context _ _ _ _ Hs) as Hc.
  assert (Hr1 : cpu_ready (with_sp e (- n) e1)) by (apply with_sp_ready; [by eapply stored_ready | done]).
  assert (Hmt : forall v, in_word w v -> cpu_mask_code_offset v w = v).
  { intros v Hv. unfold cpu_mask_code_offset. destruct Hw as [Hw | [Hw | Hw]]; injection Hw as -> ->; cbn [Z.eqb Pos.eqb]; try done; by apply wrap_small. }
  rewrite (call_near_push e w n target ret) by (rewrite ?Hmt, ?Hpush; done || apply Hr1). rewrite Hpush.
  unfold final at 1 3, mod_ctx, st_modify. cbn [snd en_context set_en_context]. split; [done |].
  set (c3 := set_c_rip target (en_context (with_sp e (- n) e1))). set (e3 := set_en_context c3 (with_sp e (- n) e1)).
  destruct (reg_at_with_sp e (- n) e1 Hwf) as [Hwf1 Htop].
  pose proof (with_sp_size e (- n) e1) as Hsz.
  assert (Hr3 : cpu_ready e3) by (apply context_ready; [done | done | apply Hr1]).
  assert (Hsz3 : stack_size e3 = stack_size e) by exact Hsz.
  assert (Htop3 : stack_top e3 = stack_at e (- n)) by exact Htop.
  assert (Hn3 : slot_ok e3 n) by (unfold slot_ok; rewrite Hsz3; exact Hn).
  pose proof (pop_spec e3 n Hr3 Hwf1 Hn3) as Hpop. rewrite Htop3 in Hpop.
  assert (Hff : first_fault e3 (stack_at e (- n)) n MM_PROT_READ = None).
  { rewrite <- Hrd, <- (stored_first_fault _ _ _ _ (stack_at e (- n)) n MM_PROT_READ Hs). apply (view_first_fault e1 c3). unfold same_view, c3, with_sp.
    rewrite Hc. cbn [en_context set_en_context]. unfold cpu_set_stack_pointer_value. by destruct (stack_size e =? 64), (stack_size e =? 32). }
  rewrite Hff in Hpop. destruct Hpop as (e2 & Hs2 & Hpop).
  change (guest_value e3 (stack_at e (- n)) n) with (guest_value e1 (stack_at e (- n)) n) in Hpop.
  rewrite (stored_value e (stack_at e (- n)) n _ e1 MM_PROT_WRITE Hs Hwr Hnd) in Hpop by (destruct (slot_bounds _ _ Hn); lia).
  assert (Hval : wrap (8 * n) (push_of_width w ret) = ret).
  { unfold push_of_width. destruct Hw as [Hw | [Hw | Hw]]; injection Hw as -> ->; cbn [Z.eqb Pos.eqb]; rewrite ?wrap_wrap by lia; by apply wrap_small. }
  rewrite Hval in Hpop.
  assert (Hctx : en_context (with_sp e3 n e2) = set_c_rip target (en_context e)).
  { unfold with_sp. cbn [en_context set_en_context]. rewrite Hsz3.
    replace (stack_at e3 n) with (wrap (stack_size e) (reg_at (en_context e) REG_RSP)).
    - unfold e3, c3, with_sp. cbn [en_context set_en_context].
      transitivity (set_c_rip target (cpu_set_stack_pointer_value (stack_size e) (wrap (stack_size e) (reg_at (en_context e) REG_RSP))
        (cpu_set_stack_pointer_value (stack_size e) (stack_at e (- n)) (en_context e)))).
      + unfold cpu_set_stack_pointer_value. by destruct (stack_size e =? 64), (stack_size e =? 32).
      + by rewrite sp_restore by (done || apply stack_size_ok_e || apply stack_at_word).
    - unfold stack_at at 1. rewrite Htop3, Hsz3, (stack_at_add e (- n) n). replace (- n + n) with 0 by lia. symmetry. apply stack_at_0. }
  erewrite pop_rip_run; [| exact Hw | exact Hpop | rewrite Hctx; apply Hr | rewrite Hmt by done; unfold offset_checked in *; by rewrite Hctx].
  cbn [en_context set_en_context]. by rewrite Hctx, Hmt.
Qed.

End near_calls.

(** ** Far calls *)

Section far_calls.
Context `{Callbacks}.
Variables (e : cpueaxh_engine) (n : Z).
Hypothesis (Hr : cpu_ready e) (Hwf : regs_wf (en_context e)) (Hn : slot_ok e n).

(** The two slots below the stack pointer can be written and read back. *)
Record two_slots : Prop := {
  ts_write1 : first_fault e (stack_at e (- n)) n MM_PROT_WRITE = None;
  ts_write2 : first_fault e (stack_at e (- n - n)) n MM_PROT_WRITE = None;
  ts_read1 : first_fault e (stack_at e (- n)) n MM_PROT_READ = None;
  ts_read2 : first_fault e (stack_at e (- n - n)) n MM_PROT_READ = None;
  ts_nodup1 : NoDup (hosts_of e (stack_at e (- n)) n);
  ts_nodup2 : NoDup (hosts_of e (stack_at e (- n - n)) n);
  ts_apart : hosts_of e (stack_at e (- n)) n ## hosts_of e (stack_at e (- n - n)) n;
}.
Hypothesis (Hslots : two_slots).

(** The state with both values pushed, in a context that differs in CS and RIP. *)
Record pushed (v1 v2 : Z) (e3 : cpueaxh_engine) : Prop := {
  pu_ready : cpu_ready e3;
  pu_size : stack_size e3 = stack_size e;
  pu_top : stack_top e3 = stack_at e (- n - n);
  pu_regs : regs_wf (en_context e3);
  pu_fault : forall a m acc, first_fault e3 a m acc = first_fault e a m acc;
  pu_value1 : guest_value e3 (stack_at e (- n)) n = wrap (8 * n) v1;
  pu_value2 : guest_value e3 (stack_at e (- n - n)) n = wrap (8 * n) v2;
  pu_other : forall a m, hosts_of e a m ## hosts_of e (stack_at e (- n)) n -> hosts_of e a m ## hosts_of e (stack_at e (- n - n)) n ->
    guest_value e3 a m = guest_value e a m;
}.

Lemma pushed_two v1 v2 selector d target :
  sd_long_mode d = cs_long_mode (en_context e) ->
  exists e2, final (push_two_stack_values v1 v2 n) e = with_sp e (- n - n) e2 /\ en_context e2 = en_context e /\
    pushed v1 v2 (set_en_context (set_c_rip target (set_code_segment selector d (en_context (with_sp e (- n - n) e2)))) (with_sp e (- n - n) e2)).
Proof.
  intros Hd. pose proof (push_two_spec e n v1 v2 Hr Hwf Hn) as Hp. cbv zeta in Hp.
  destruct Hslots as [Hw1 Hw2 Hr1 Hr2 Hnd1 Hnd2 Hap]. rewrite Hw1, Hw2 in Hp. destruct Hp as (e1 & e2 & Hs1 & Hs2 & ->).
  exists e2. split; [done |]. pose proof (stored_context _ _ _ _ Hs1) as Hc1. pose proof (stored_context _ _ _ _ Hs2) as Hc2. rewrite Hc1 in Hc2.
  split; [done |]. destruct (slot_bounds _ _ Hn) as [Hpos _].
  assert (Hr2' : cpu_ready e2) by (eapply stored_ready; [exact Hs2 |]; by eapply stored_ready).
  assert (Hrw : cpu_ready (with_sp e (- n - n) e2)) by (by apply with_sp_ready).
  destruct (reg_at_with_sp e (- n - n) e2 Hwf) as [Hwf1 Htop]. pose proof (with_sp_size e (- n - n) e2) as Hsz.
  set (c := en_context (with_sp e (- n - n) e2)) in *.
  assert (H64 : cpu_is_64bit_code (set_c_rip target (set_code_segment selector d c)) = cpu_is_64bit_code c).
  { unfold cpu_is_64bit_code, cs_long_mode, cpu_long_mode_active in *. cbn [seg_descriptor c_cs c_long_mode_active set_c_rip set_code_segment set_c_cached_mode_key_valid set_c_cs].
    rewrite Hd. unfold c, with_sp, cpu_set_stack_pointer_value. cbn [en_context set_en_context]. by destruct (stack_size e =? 64), (stack_size e =? 32). }
  assert (Hcv : cpu_is_64bit_code c = cpu_is_64bit_code (en_context e) /\ c_cpl c = c_cpl (en_context e)).
  { unfold c, with_sp, cpu_set_stack_pointer_value. cbn [en_context set_en_context]. by destruct (stack_size e =? 64), (stack_size e =? 32). }
  assert (Hsz3 : get_stack_addr_size (set_c_rip target (set_code_segment selector d c)) = stack_size e).
  { rewrite <- Hsz. unfold stack_size, get_stack_addr_size, cpu_stack_address_size. fold c. by rewrite H64. }
  constructor.
  - apply context_ready; [done | done | apply Hrw].
  - exact Hsz3.
  - unfold stack_top, stack_size at 1. cbn [en_context set_en_context]. rewrite Hsz3, <- Htop. unfold stack_top. rewrite Hsz. reflexivity.
  - exact Hwf1.
  - intros a m acc. rewrite <- (stored_first_fault _ _ _ _ a m acc Hs1), <- (stored_first_fault _ _ _ _ a m acc Hs2).
    apply (view_first_fault e2). unfold same_view, cpu_uses_canonical_addresses. rewrite H64, Hc2. cbn [c_cpl set_c_rip set_code_segment set_c_cached_mode_key_valid set_c_cs]. exact Hcv.
  - change (guest_value e2 (stack_at e (- n)) n = wrap (8 * n) v1).
    rewrite (stored_elsewhere e1 _ v2 e2) by (done || by rewrite (stored_hosts _ _ _ _ _ _ Hs1)).
    by apply (stored_value e _ n v1 e1 MM_PROT_WRITE Hs1 Hw1 Hnd1); lia.
  - change (guest_value e2 (stack_at e (- n - n)) n = wrap (8 * n) v2). rewrite <- (stored_hosts _ _ _ _ _ _ Hs1) in Hs2, Hnd2.
    rewrite <- (stored_first_fault _ _ _ _ _ _ _ Hs1) in Hw2.
    by apply (stored_value e1 _ n v2 e2 MM_PROT_WRITE Hs2 Hw2 Hnd2); lia.
  - intros a m Ha1 Ha2. change (guest_value e2 a m = guest_value e a m).
    rewrite (stored_elsewhere e1 _ v2 e2) by (done || by rewrite (stored_hosts _ _ _ _ _ _ Hs1)).
    by apply (stored_elsewhere e (hosts_of e (stack_at e (- n)) n) v1).
Qed.

End far_calls.

Lemma set_sp_twice s v v' ctx :
  stack_size_ok s -> regs_wf ctx -> in_word s v -> in_word s v' ->
  cpu_set_stack_pointer_value s v (cpu_set_stack_pointer_value s v' ctx) = cpu_set_stack_pointer_value s v ctx.
Proof.
  intros Hs Hwf Hv Hv'. assert (H0 : 0 <= s) by (destruct Hs as [-> | [-> | ->]]; lia).
  assert (Hi : in_word 64 (with_low s (reg_at ctx REG_RSP) v')) by (apply with_low_in_word; try done; by apply reg_at_in_word).
  rewrite (set_sp_with_low s v' ctx), (set_sp_with_low s v ctx) by done.
  rewrite set_sp_with_low by (done || by apply set_reg_at_wf).
  rewrite reg_at_set_reg_at, Z.eqb_refl by (done || (split; [discriminate | reflexivity]) || discriminate).
  rewrite with_low_twice by done. unfold set_reg_at. rewrite set_c_regs_twice. cbn [c_regs set_c_regs].
  unfold arr_set. by rewrite list_insert_insert_eq.
Qed.

Lemma set_sp_get s v ctx : stack_size_ok s -> regs_wf ctx -> in_word s v -> wrap s (reg_at (cpu_set_stack_pointer_value s v ctx) REG_RSP) = v.
Proof.
  intros Hs Hwf Hv. assert (H0 : 0 <= s) by (destruct Hs as [-> | [-> | ->]]; lia). rewrite set_sp_with_low by done.
  rewrite reg_at_set_reg_at, Z.eqb_refl by (done || (split; [discriminate | reflexivity]) || discriminate). by apply wrap_with_low.
Qed.

Lemma set_sp_wf s v ctx : stack_size_ok s -> regs_wf ctx -> in_word s v -> regs_wf (cpu_set_stack_pointer_value s v ctx).
Proof. intros Hs Hwf Hv. rewrite set_sp_with_low by done. apply set_reg_at_wf; [| done]. apply with_low_in_word; [done | by apply reg_at_in_word | done]. Qed.

Lemma mod_ctx_run {B} f (k : ST cpueaxh_engine B) e : (mod_ctx f ;;; k) e = k (set_en_context (f (en_context e)) e).
Proof. done. Qed.

Section far_returns.
Context `{Callbacks}.

(** Releasing [k] bytes is setting the stack pointer. *)
Lemma adjust_spec k e :
  regs_wf (en_context e) ->
  ret_far_adjust_stack k e =
  (tt, set_en_context (cpu_set_stack_pointer_value (stack_size e) (wrap (stack_size e) (reg_at (en_context e) REG_RSP + k)) (en_context e)) e).
Proof.
  intros Hwf. unfold ret_far_adjust_stack, st_bind, get_ctx, st_gets, mod_ctx, st_modify. fold (stack_size e).
  f_equal. f_equal. unfold cpu_set_stack_pointer_value.
  destruct (stack_size_ok_e e) as [-> | [-> | ->]]; cbn [Z.eqb Pos.eqb]; [| | done].
  - change 0xFFFF with (Z.ones 16). rewrite Z.land_ones by lia. change (_ mod 2 ^ 16) with (wrap 16 (reg_at (en_context e) REG_RSP)).
    by rewrite wrap_add_l, wrap_wrap by lia.
  - change 0xFFFFFFFF with (Z.ones 32). rewrite Z.land_ones by lia. change (_ mod 2 ^ 32) with (wrap 32 (reg_at (en_context e) REG_RSP)).
    by rewrite wrap_add_l, wrap_wrap by lia.
Qed.

Lemma return_allowed_same e e' selector :
  guest_descriptor e' selector = guest_descriptor e selector -> descriptor_readable e' selector = descriptor_readable e selector ->
  c_cpl (en_context e') = c_cpl (en_context e) -> cpu_long_mode_active (en_context e') = cpu_long_mode_active (en_context e) ->
  return_checked e' selector = return_checked e selector.
Proof. intros Hd Hrd Hc Hl. unfold return_checked. by rewrite Hd, Hrd, Hc, Hl. Qed.

(** A far return from a state [e3] with the return address and an allowed selector on the stack. *)
Lemma far_return_run e3 n w inst ip selector :
  (w, n) = (16, 2) \/ (w, n) = (32, 4) \/ (w, n) = (64, 8) ->
  i_operand_size inst = w -> i_address_size inst = stack_size e3 ->
  cpu_ready e3 -> regs_wf (en_context e3) -> slot_ok e3 n ->
  first_fault e3 (stack_at e3 0) n MM_PROT_READ = None -> first_fault e3 (stack_at e3 n) n MM_PROT_READ = None ->
  guest_value e3 (stack_at e3 0) n = ip -> u16 (guest_value e3 (stack_at e3 n) n) = selector ->
  return_checked e3 selector = true -> in_word w ip -> offset_checked e3 ip = true ->
  exists e4, same_cpu e3 e4 /\ final (far_return inst) e3 =
    set_en_context (set_c_rip ip (set_code_segment selector (guest_descriptor e3 selector)
      (cpu_set_stack_pointer_value (stack_size e3) (stack_at e3 (2 * n + u16 (i_immediate inst))) (en_context e3)))) e4.
Proof.
  intros Hw Hos Has Hr Hwf Hn Hf0 Hf1 Hv0 Hv1 Hal Hip Hvalid.
  pose proof (peek_stack_correct e3 n 2 Hr Hwf Hn) as Hp. unfold far_return, final. rewrite Hos.
  replace (width_of w / 8) with n by (destruct Hw as [Hw | [Hw | Hw]]; by injection Hw as -> ->).
  destruct (peek_stack_values n 2 e3) as [r e4] eqn:Epeek. destruct Hp as [_ Hp].
  change (offsets_from 0 2) with [0; 1] in Hp. cbn [stack_fault stack_values map] in Hp.
  rewrite Z.mul_0_l, Z.mul_1_l, Hf0, Hf1 in Hp. destruct Hp as [-> Hs4]. rewrite (bind_run _ _ _ _ _ Epeek).
  change (arr_get 0 [guest_value e3 (stack_at e3 0) n; guest_value e3 (stack_at e3 n) n] 0) with (guest_value e3 (stack_at e3 0) n).
  change (arr_get 0 [guest_value e3 (stack_at e3 0) n; guest_value e3 (stack_at e3 n) n] 1) with (guest_value e3 (stack_at e3 n) n).
  rewrite Hv0, Hv1. assert (Hsel : in_word 16 selector) by (rewrite <- Hv1; by apply wrap_range).
  pose proof (same_cpu_ready _ _ Hs4 Hr) as Hr4.
  assert (Hgd : guest_descriptor e4 selector = guest_descriptor e3 selector).
  { unfold guest_descriptor, descriptor_address. by rewrite (same_cpu_guest_value _ _ _ _ Hs4), (same_cpu_context _ _ Hs4). }
  pose proof (validate_ret_spec e4 selector Hr4 Hsel) as Hval. unfold decides in Hval. rewrite (return_allowed_same e3 e4) in Hval.
  2: done. 3, 4: by rewrite (same_cpu_context _ _ Hs4).
  2: { unfold descriptor_readable, descriptor_in_table, descriptor_address, first_fault. by rewrite (first_fault_same _ _ _ _ _ Hs4), (same_cpu_context _ _ Hs4). }
  rewrite Hal in Hval. destruct Hval as (e5 & Hs5 & Hval). rewrite (bind_run _ _ _ _ _ Hval), Hgd.
  pose proof (same_cpu_trans _ _ _ Hs4 Hs5) as Hs. pose proof (same_cpu_context _ _ Hs) as Hc.
  assert (Hmask : forall long : bool, cpu_mask_code_offset ip (if long then 64 else w) = ip).
  { intros long. unfold cpu_mask_code_offset. destruct long; [done |]. destruct Hw as [Hw | [Hw | Hw]]; injection Hw as -> ->; cbn [Z.eqb Pos.eqb]; try done; by apply wrap_small. }
  pose proof (validate_run e5 ip (if sd_long_mode (guest_descriptor e3 selector) then 64 else w)) as Hv.
  rewrite Hmask, (offset_checked_same _ _ _ Hs), Hvalid in Hv. rewrite (bind_run _ _ _ _ _ Hv). cbn [negb].
  exists e5. split; [done |]. rewrite Has, mod_ctx_run, Hc.
  pose proof (stack_size_ok_e e3) as Hsok. pose proof (stack_at_word e3 (2 * n)) as Hw2.
  set (c1 := cpu_set_stack_pointer_value (stack_size e3) (stack_at e3 (2 * n)) (en_context e3)).
  assert (Hwf1 : regs_wf c1) by (by apply set_sp_wf). pose proof (adjust_spec (u16 (i_immediate inst)) (set_en_context c1 e5) Hwf1) as Hadj.
  assert (Hsz : stack_size (set_en_context c1 e5) = stack_size e3).
  { unfold c1, stack_size at 1, get_stack_addr_size, cpu_set_stack_pointer_value. cbn [en_context set_en_context]. by destruct (stack_size e3 =? 64), (stack_size e3 =? 32). }
  rewrite Hsz in Hadj. rewrite (bind_run _ _ _ _ _ Hadj). unfold mod_ctx, st_bind, st_modify. cbn [snd en_context set_en_context].
  rewrite <- (wrap_add_l _ (reg_at c1 REG_RSP)) by apply stack_size_nonneg. unfold c1 at 1. rewrite set_sp_get, stack_at_add by done.
  unfold c1. rewrite set_sp_twice by (done || apply stack_at_word).
  replace (if w =? 16 then cpu_mask_code_offset ip 16 else if w =? 32 then cpu_mask_code_offset ip 32 else ip) with ip; [reflexivity |].
  rewrite <- (Hmask false) at 1. unfold cpu_mask_code_offset. by destruct (w =? 16), (w =? 32).
Qed.

End far_returns.

(** [(selector & 0xFFFC) | cpl] is the selector whose privilege level is the current one. *)
Lemma selector_with_cpl selector cpl : in_word 16 selector -> selector mod 4 = cpl -> Z.lor (Z.land selector 0xFFFC) cpl = selector.
Proof.
  intros Hs Hc. change 0xFFFC with (Z.shiftl (Z.ones 14) 2).
  replace cpl with (Z.land selector (Z.ones 2)) by (by rewrite Z.land_ones by lia).
  apply Z.bits_inj'. intros i Hi. rewrite Z.lor_spec, !Z.land_spec, Z.shiftl_spec, !Z.testbit_ones by lia.
  destruct (Z.testbit selector i) eqn:E; [| done]. cbn [andb].
  destruct (Z.leb_spec 16 i) as [H16 | H16]; [by rewrite (testbit_high 16 selector i Hs H16) in E |].
  destruct (Z.ltb_spec i 2); [by replace (0 <=? i) with true by lia; rewrite orb_true_r |].
  replace (0 <=? i - 2) with true by lia. by replace (i - 2 <? 14) with true by lia.
Qed.

(** Setting CS to what it is touches the mode key alone. *)
Lemma own_code_segment ctx selector :
  in_word 16 selector -> selector = seg_selector (c_cs ctx) -> selector mod 4 = c_cpl ctx ->
  set_code_segment selector (seg_descriptor (c_cs ctx)) ctx = set_c_cached_mode_key_valid false ctx.
Proof.
  intros Hs -> Hc. unfold set_code_segment. rewrite selector_with_cpl by done. f_equal.
  transitivity (set_c_cs (c_cs ctx) ctx); [by destruct (c_cs ctx) | by destruct ctx].
Qed.

Section far_round_trip.
Context `{Callbacks}.

Lemma call_far_pushed e n selector d target os ret :
  cpu_ready e -> regs_wf (en_context e) -> slot_ok e n -> two_slots e n ->
  offset_checked e (cpu_mask_code_offset target os) = true -> sd_long_mode d = cs_long_mode (en_context e) ->
  let e3 := final (call_far_to selector d target n os ret) e in
  pushed e n (seg_selector (c_cs (en_context e))) (wrap (8 * n) ret) e3 /\
  en_context e3 = set_c_rip target (set_code_segment selector d (cpu_set_stack_pointer_value (stack_size e) (stack_at e (- n - n)) (en_context e))).
Proof.
  intros Hr Hwf Hn Hts Hv Hd. cbv zeta. pose proof (validate_run e target os) as Hrun. rewrite Hv in Hrun.
  destruct (pushed_two e n Hr Hwf Hn Hts (seg_selector (c_cs (en_context e))) (wrap (8 * n) ret) selector d target Hd) as (e2 & Hp & Hc & Hpu).
  assert (Hpush : push_two_stack_values (seg_selector (c_cs (en_context e))) (wrap (8 * n) ret) n e = (tt, with_sp e (- n - n) e2)).
  { unfold final in Hp. destruct (push_two_stack_values _ _ _ e) as [[] e']. cbn [snd] in Hp. by rewrite Hp. }
  unfold call_far_to, final. rewrite (bind_run _ _ _ _ _ Hrun). cbn [negb].
  rewrite (bind_run (get_ctx (fun ctx => seg_selector (c_cs ctx))) _ e _ e eq_refl), (bind_run _ _ _ _ _ Hpush).
  rewrite (bind_run (get_ctx cpu_has_exception) _ (with_sp e (- n - n) e2) _ (with_sp e (- n - n) e2) eq_refl).
  destruct (pu_ready _ _ _ _ _ Hpu) as (_ & _ & Hx3).
  assert (Hx : cpu_has_exception (en_context (with_sp e (- n - n) e2)) = false) by exact Hx3. rewrite Hx.
  split; [exact Hpu |]. unfold mod_ctx, st_bind, st_modify, with_sp. by cbn [snd en_context set_en_context].
Qed.

(** C31: a far return comes back from its call.  Take any far call, with 2-, 4- or 8-byte slots, to a
    segment of the same code size, from a state whose CS is an allowed selector with its descriptor
    in the descriptor table, the two slots below the stack pointer readable, writable and apart
    from each other and from that descriptor, and target and return address valid.  The call
    loads the new CS and RIP; a far return that releases k bytes of arguments then restores CS
    and its descriptor, RIP to the return address and everything else of the context, the stack
    pointer k bytes above where it was. *)
Theorem far_call_returns e w n selector d target os ret inst
  (Hw : (w, n) = (16, 2) \/ (w, n) = (32, 4) \/ (w, n) = (64, 8))
  (Hr : cpu_ready e) (Hwf : regs_wf (en_context e)) (Hn : slot_ok e n) (Hts : two_slots e n)
  (Hold : in_word 16 (seg_selector (c_cs (en_context e))))
  (Hal : return_checked e (seg_selector (c_cs (en_context e))) = true)
  (Hdesc : guest_descriptor e (seg_selector (c_cs (en_context e))) = seg_descriptor (c_cs (en_context e)))
  (Hd1 : hosts_of e (descriptor_address e (seg_selector (c_cs (en_context e)))) 8 ## hosts_of e (stack_at e (- n)) n)
  (Hd2 : hosts_of e (descriptor_address e (seg_selector (c_cs (en_context e)))) 8 ## hosts_of e (stack_at e (- n - n)) n)
  (Hsame : sd_long_mode d = cs_long_mode (en_context e))
  (Hvt : offset_checked e (cpu_mask_code_offset target os) = true) (Hret : in_word w ret) (Hvr : offset_checked e ret = true)
  (Hos : i_operand_size inst = w) (Has : i_address_size inst = stack_size e) :
  let called := final (call_far_to selector d target n os ret) e in
  c_cs (en_context called) = mkSeg (Z.lor (Z.land selector 0xFFFC) (c_cpl (en_context e))) d /\ c_rip (en_context called) = target /\
  en_context (final (far_return inst) called) =
    set_c_cached_mode_key_valid false (set_c_rip ret
      (cpu_set_stack_pointer_value (stack_size e) (stack_at e (u16 (i_immediate inst))) (en_context e))).
Proof.
  cbv zeta. destruct (call_far_pushed e n selector d target os ret Hr Hwf Hn Hts Hvt Hsame) as [Hpu Hc3].
  set (e3 := final (call_far_to selector d target n os ret) e) in *. set (old := seg_selector (c_cs (en_context e))) in *.
  destruct Hpu as [Hr3 Hsz3 Htop3 Hwf3 Hff3 Hv1 Hv2 Hother].
  assert (Hat : forall k, stack_at e3 k = stack_at e (- n - n + k)) by (intros k; unfold stack_at at 1; by rewrite Htop3, Hsz3, stack_at_add).
  assert (Hs3 : segment_registers (en_context e3) = segment_registers (en_context e3) /\
    c_cpl (en_context e3) = c_cpl (en_context e) /\ cpu_long_mode_active (en_context e3) = cpu_long_mode_active (en_context e) /\
    selector_table old (en_context e3) = selector_table old (en_context e) /\
    c_cs (en_context e3) = mkSeg (Z.lor (Z.land selector 0xFFFC) (c_cpl (en_context e))) d /\ c_rip (en_context e3) = target).
  { rewrite Hc3. unfold cpu_set_stack_pointer_value. by destruct (stack_size e =? 64), (stack_size e =? 32). }
  destruct Hs3 as (_ & Hcpl & Hlm & Htab & Hcs & Hrip). split; [done |]. split; [done |].
  assert (Hda : descriptor_address e3 old = descriptor_address e old) by (unfold descriptor_address; by rewrite Htab).
  assert (Hgd : guest_descriptor e3 old = guest_descriptor e old).
  { unfold guest_descriptor. rewrite Hda. by rewrite Hother. }
  assert (Hal3 : return_checked e3 old = true).
  { rewrite (return_allowed_same e e3); try done. unfold descriptor_readable, descriptor_in_table. by rewrite Hda, Htab, Hff3. }
  assert (Hnw : w = 8 * n) by (destruct Hw as [Hw | [Hw | Hw]]; by injection Hw as -> ->).
  pose proof (slot_bounds _ _ Hn) as Hnb.
  destruct (far_return_run e3 n w inst ret old Hw) as (e4 & Hs4 & ->); try done.
  - by rewrite Hsz3.
  - unfold slot_ok. by rewrite Hsz3.
  - rewrite Hff3, Hat. replace (- n - n + 0) with (- n - n) by lia. apply Hts.
  - rewrite Hff3, Hat. replace (- n - n + n) with (- n) by lia. apply Hts.
  - rewrite Hat. replace (- n - n + 0) with (- n - n) by lia. rewrite Hv2, <- Hnw. rewrite wrap_wrap by lia. by apply wrap_small.
  - rewrite Hat. replace (- n - n + n) with (- n) by lia. rewrite Hv1. rewrite wrap_wrap_le by (destruct (slot_bounds _ _ Hn); destruct Hn as [Hn _]; lia).
    by apply wrap_small.
  - unfold offset_checked, cpu_uses_canonical_addresses, cpu_is_64bit_code, cs_long_mode in *. rewrite Hlm, Hcs. cbn [seg_descriptor]. by rewrite Hsame.
  - cbn [en_context set_en_context]. rewrite Hgd, Hdesc, Hc3, Hsz3, Hat.
    replace (- n - n + (2 * n + u16 (i_immediate inst))) with (u16 (i_immediate inst)) by lia.
    transitivity (set_c_rip ret (set_code_segment old (seg_descriptor (c_cs (en_context e)))
      (cpu_set_stack_pointer_value (stack_size e) (stack_at e (u16 (i_immediate inst)))
        (cpu_set_stack_pointer_value (stack_size e) (stack_at e (- n - n)) (en_context e))))).
    { unfold cpu_set_stack_pointer_value. by destruct (stack_size e =? 64), (stack_size e =? 32). }
    rewrite set_sp_twice by (done || apply stack_size_ok_e || apply stack_at_word).
    assert (Hcpl4 : old mod 4 = c_cpl (en_context e)).
    { unfold return_checked in Hal. rewrite !andb_true_iff in Hal. destruct Hal as [[[_ Hm] _] _]. by apply Z.eqb_eq. }
    set (ctx := cpu_set_stack_pointer_value (stack_size e) (stack_at e (u16 (i_immediate inst))) (en_context e)).
    assert (Hctx : c_cs ctx = c_cs (en_context e) /\ c_cpl ctx = c_cpl (en_context e))
      by (unfold ctx, cpu_set_stack_pointer_value; by destruct (stack_size e =? 64), (stack_size e =? 32)).
    destruct Hctx as [Hcs' Hcpl']. rewrite <- Hcs'. rewrite own_code_segment; [done | done | by rewrite Hcs' | by rewrite Hcpl'].
Qed.

End far_round_trip.

(** ** Replay of JMP and CALL *)

Lemma with_address_size inst n ctx : set_i_inst_size n (with_address inst 0 ctx) = with_address (set_i_inst_size n inst) 0 ctx.
Proof. unfold with_address, decoded_inst_needs_mem_recompute. cbn [i_has_modrm i_modrm set_i_inst_size]. by destruct (_ && _). Qed.

Lemma sticky_with_inst_size c : sticky c -> sticky (with_inst_size c).
Proof. intros Hc. unfold with_inst_size. apply sticky_bind; [done |]. intros [[? ?] ?]. sticky_steps. Qed.

Lemma uniform_with_inst_size c : sticky c -> uniform c -> uniform (with_inst_size c).
Proof.
  intros Hst Hu c1 c2 Hs O1 O2 H1 H2. cbv beta in *. unfold clean, with_inst_size in *.
  apply clean_bind in H1 as C1; [| intros [[? ?] ?]; sticky_steps]. apply clean_bind in H2 as C2; [| intros [[? ?] ?]; sticky_steps].
  destruct (Hu c1 c2 Hs O1 O2 C1 C2) as (i & o & (R1 & A1) & R2 & A2). exists (set_i_inst_size o i), o.
  rewrite (bind_run _ _ _ _ _ R1), (bind_run _ _ _ _ _ R2). cbn [negb]. rewrite !with_address_size. done.
Qed.

Lemma sticky_indirect near far code inst offset : sticky (indirect_operands near far code inst offset).
Proof. unfold indirect_operands. sticky_steps. Qed.
Lemma sticky_far_pointer code inst offset : sticky (far_pointer_operands code inst offset).
Proof. unfold far_pointer_operands. sticky_steps. Qed.
#[export] Hint Resolve sticky_with_inst_size sticky_indirect sticky_far_pointer : sticky.

Lemma uniform_size inst (b : bool) s offset :
  uniform_on inst (fun i => st_ret (if b then set_i_operand_size s i else i, offset, true)).
Proof.
  apply (uniform_ret inst (fun i => if b then set_i_operand_size s i else i)).
  - intros ctx. destruct b; [apply (with_address_set inst 0 0 s ctx) | done].
  - by destruct b.
Qed.

Lemma uniform_indirect near far code inst offset : uniform (indirect_operands near far code inst offset).
Proof.
  unfold indirect_operands. apply uniform_modrm; [intros; sticky_steps |]. intros i o.
  apply (uniform_gets i cpu_is_64bit_code (fun i long =>
    if modrm_digit i =? near then st_ret (if long then set_i_operand_size 64 i else i, o, true)
    else if modrm_digit i =? far then
      ud_if (modrm_mod (i_modrm i) =? 3) ;;; let* size := st_gets far_operand_size in st_ret (if long then set_i_operand_size size i else i, o, true)
    else st_modify raise_ud_ctx ;;; st_ret (i, o, true))); [apply same_decoding_64 |].
  intros long. assert (Hd : forall ctx, modrm_digit (with_address i 0 ctx) = modrm_digit i)
    by (intros ctx; unfold modrm_digit; by destruct (with_address_fields i ctx) as (-> & _)).
  intros c1 c2 Hs O1 O2 H1 H2. cbv beta in *. rewrite !Hd in *.
  destruct (modrm_digit i =? near); [exact (uniform_size i long 64 o c1 c2 Hs O1 O2 H1 H2) |].
  destruct (modrm_digit i =? far); [| unfold clean in H1; by apply ud_not_clean in H1].
  refine (uniform_ud i (fun i => modrm_mod (i_modrm i) =? 3)
    (fun i => let* size := st_gets far_operand_size in st_ret (if long then set_i_operand_size size i else i, o, true)) _ _ _ c1 c2 Hs O1 O2 H1 H2).
  - intros; sticky_steps.
  - intros ctx. by destruct (with_address_fields i ctx) as (-> & _).
  - apply (uniform_gets i far_operand_size (fun i size => st_ret (if long then set_i_operand_size size i else i, o, true))).
    + intros d1 d2 [_ Hp]. injection Hp as _ Ew _ _ _ Eo _. unfold far_operand_size. by rewrite Ew, Eo.
    + intros size. apply uniform_size.
Qed.

Lemma uniform_far_pointer code inst offset : i_has_modrm inst = false -> uniform (far_pointer_operands code inst offset).
Proof.
  intros Hm. unfold far_pointer_operands.
  apply (uniform_gets zero_inst cpu_is_64bit_code (fun _ long => ud_if long ;;; _)); [apply same_decoding_64 |].
  intros long. apply uniform_ud_plain; [cbv zeta; sticky_steps |]. cbv zeta. destruct (_ <? _).
  - apply (uniform_raise _ _ (raise_gp_ctx 0)); [apply gp_not_clean | done].
  - by apply uniform_here.
Qed.

Lemma same_branch_sizes c1 c2 : same_decoding c1 c2 -> branch_operand_size c1 = branch_operand_size c2.
Proof.
  intros Hs. unfold branch_operand_size. rewrite <- (same_decoding_64 c1 c2 Hs). destruct Hs as [_ Hp]. injection Hp as _ Ew _ _ _ Eo _. by rewrite Ew, Eo.
Qed.
Lemma same_narrow c1 c2 : same_decoding c1 c2 -> c_operand_size_override c1 = c_operand_size_override c2.
Proof. intros [_ Hp]. by injection Hp. Qed.

Lemma uniform_plain_immediate code inst offset n : i_has_modrm inst = false -> uniform (decode_alu_immediate code inst offset n).
Proof.
  intros Hm. apply (uniform_plain _ inst (fun i => decode_alu_immediate code i offset n) Hm); [apply uniform_immediate |].
  intros ctx. by rewrite with_address_none.
Qed.

Lemma uniform_jmp code inst offset lock : i_has_modrm inst = false -> uniform (jmp_operands code inst offset lock).
Proof.
  intros Hm. unfold jmp_operands. refine (uniform_gets zero_inst branch_operand_size (fun _ size => _) same_branch_sizes _).
  intros size. apply uniform_with_inst_size; [sticky_steps |]. cbv zeta. change (i_opcode (set_i_operand_size size inst)) with (i_opcode inst).
  destruct (_ =? 0xEB); [by apply uniform_plain_immediate |]. destruct (_ =? 0xE9).
  { refine (uniform_gets zero_inst cpu_is_64bit_code (fun _ long => _) same_decoding_64 _). intros long.
    refine (uniform_gets zero_inst c_operand_size_override (fun _ narrow => _) same_narrow _). intros narrow.
    apply uniform_ud_plain; [sticky_steps |]. by apply uniform_plain_immediate. }
  destruct (_ =? 0xFF); [apply uniform_indirect |]. destruct (_ =? 0xEA); [by apply uniform_far_pointer |].
  apply (uniform_raise _ _ raise_ud_ctx); [apply ud_not_clean | done].
Qed.

Lemma uniform_call code inst offset lock : i_has_modrm inst = false -> uniform (call_operands code inst offset lock).
Proof.
  intros Hm. unfold call_operands. refine (uniform_gets zero_inst branch_operand_size (fun _ size => _) same_branch_sizes _).
  intros size. apply uniform_with_inst_size; [sticky_steps |]. cbv zeta. change (i_opcode (set_i_operand_size size inst)) with (i_opcode inst).
  destruct (_ =? 0xE8).
  { refine (uniform_gets zero_inst cpu_is_64bit_code (fun _ long => _) same_decoding_64 _). intros long.
    refine (uniform_gets zero_inst c_operand_size_override (fun _ narrow => _) same_narrow _). intros narrow. by apply uniform_plain_immediate. }
  destruct (_ =? 0xFF); [apply uniform_indirect |]. destruct (_ =? 0x9A); [by apply uniform_far_pointer |].
  apply (uniform_raise _ _ raise_ud_ctx); [apply ud_not_clean | done].
Qed.

Lemma sticky_jmp code inst offset lock : sticky (jmp_operands code inst offset lock).
Proof. unfold jmp_operands. apply sticky_bind; [apply sticky_gets |]. intros. apply sticky_with_inst_size. sticky_steps. Qed.
Lemma sticky_call code inst offset lock : sticky (call_operands code inst offset lock).
Proof. unfold call_operands. apply sticky_bind; [apply sticky_gets |]. intros. apply sticky_with_inst_size. sticky_steps. Qed.

#[export] Instance jmp_replayable : Replayable jmp_rules.
Proof. split; intros; [apply one_byte_stage | apply sticky_jmp | by apply uniform_jmp]. Qed.
#[export] Instance call_replayable : Replayable call_rules.
Proof. split; intros; [apply one_byte_stage | apply sticky_call | by apply uniform_call]. Qed.

(** ** A 64-bit code segment at 0x1008, a stack at 0x2010 *)
Module ControlExample.
Import Bump EngineExample MemoryExample StackExample SegmentExample.

Definition code64 : SegmentDescriptor := mkDesc 0 0xFFFFFFFF 0xB 0 true true false true.

Definition prepared_context : CPU_CONTEXT := set_c_regs (sp_at 0x2010) (set_c_cs (mkSeg 8 code64) gdt_context).
Definition unwritten : cpueaxh_engine := set_en_context prepared_context machine.
Definition prepared : cpueaxh_engine := final (write_memory_operand 0x1008 64 0x00AF9B000000FFFF) unwritten.

Lemma unwritten_ready : cpu_ready unwritten.
Proof.
  assert (Ho : c_owner_engine prepared_context = c_owner_engine (en_context machine)) by (vm_compute; reflexivity).
  assert (Hx : cpu_has_exception prepared_context = false) by (vm_compute; reflexivity).
  exact (context_ready machine prepared_context machine_ready Ho Hx).
Qed.

Lemma prepared_stored : stored unwritten (hosts_of unwritten 0x1008 8) 0x00AF9B000000FFFF prepared.
Proof.
  assert (Ha : in_word 64 0x1008) by zcompute. assert (Hos : operand_size_ok 64) by (by right; right; right).
  assert (H := write_operand_spec unwritten 0x1008 64 0x00AF9B000000FFFF unwritten_ready Ha Hos).
  assert (first_fault unwritten 0x1008 (64 / 8) MM_PROT_WRITE = None) as E by (vm_compute; reflexivity).
  rewrite E in H. exact H.
Qed.

Lemma prepared_ready : cpu_ready prepared.
Proof. exact (stored_ready _ _ _ _ prepared_stored unwritten_ready). Qed.

Lemma prepared_regs : regs_wf (en_context prepared).
Proof.
  rewrite (stored_context _ _ _ _ prepared_stored). assert (Hv : in_word 64 0x2010) by zcompute.
  assert (E : c_regs (en_context unwritten) = c_regs (en_context (stacked 0x2010))) by (vm_compute; reflexivity).
  unfold regs_wf. rewrite E. exact (stacked_regs 0x2010 Hv).
Qed.

Lemma slot_8 : slot_ok prepared 8.
Proof. split; [by right; right |]. assert (stack_size prepared = 64) as E by (vm_compute; reflexivity). rewrite E. by intros [? _]. Qed.

(** [je +5] with ZF clear. *)
Lemma inline_jcc_runs_the_instruction_witness :
  c_rip (en_context (final (execute_jcc [0x74; 0x05]) machine)) = u64 (c_rip (en_context machine) + 2) /\
  final (@run_decoded _ ExecutorExample.increment_set
    (OnStack (result (@cpu_decode_instruction DecoderExample.alu_probes [0x74; 0x05]) (en_context machine))) 0) machine =
  final (execute_jcc [0x74; 0x05]) machine.
Proof.
  split; [vm_compute; reflexivity |].
  assert (Hx : cpu_has_exception (en_context machine) = false) by (vm_compute; reflexivity).
  assert (Hl : cs_long_mode (en_context machine) = true) by (vm_compute; reflexivity).
  assert (Hc : 0 <= 4 < 16) by lia. assert (Hcode : jcc_code 4 5 [0x74; 0x05]) by (left; by exists []).
  exact (proj2 (@inline_jcc_runs_the_instruction _ DecoderExample.alu_probes ExecutorExample.increment_set machine [0x74; 0x05] 4 5 0 Hx Hl Hc Hcode)).
Defined.

(** Selector 8 is taken, selector 0x10 names an empty slot. *)
Lemma far_jump_correct_witness :
  c_rip (en_context (final (jmp_far 8 0x1234 64) prepared)) = 0x1234 /\
  transfer_refused prepared (final (jmp_far 0x10 0x1234 64) prepared).
Proof.
  assert (H8 : in_word 16 8) by zcompute. assert (H10 : in_word 16 0x10) by zcompute. assert (Ho : in_word 64 0x1234) by zcompute.
  split.
  - assert (transfer_overlooked prepared 8 (cpu_mask_code_offset 0x1234 64) = false) as E1 by (vm_compute; reflexivity).
    assert (transfer_allowed prepared 8 (cpu_mask_code_offset 0x1234 64) = true) as E2 by (vm_compute; reflexivity).
    pose proof (far_jump_correct prepared 8 0x1234 64 prepared_ready H8 Ho) as H. cbv zeta in H. rewrite E1, E2 in H. destruct H as (e1 & _ & ->). reflexivity.
  - assert (transfer_overlooked prepared 0x10 (cpu_mask_code_offset 0x1234 64) = false) as E1 by (vm_compute; reflexivity).
    assert (transfer_allowed prepared 0x10 (cpu_mask_code_offset 0x1234 64) = false) as E2 by (vm_compute; reflexivity).
    pose proof (far_jump_correct prepared 0x10 0x1234 64 prepared_ready H10 Ho) as H. cbv zeta in H. rewrite E1, E2 in H. exact H.
Defined.

Lemma near_call_returns_witness :
  let called := final (call_near 64 0x1800 0x1005) prepared in
  c_rip (en_context called) = 0x1800 /\ en_context (final (pop_rip 64) called) = set_c_rip 0x1005 (en_context prepared).
Proof.
  assert (Ht : in_word 64 0x1800) by zcompute. assert (Hret : in_word 64 0x1005) by zcompute.
  assert (Hw : (64, 8) = (16, 2) \/ (64, 8) = (32, 4) \/ (64, 8) = (64, 8)) by (by right; right).
  assert (Hwr : first_fault prepared (stack_at prepared (Z.opp 8)) 8 MM_PROT_WRITE = None) by (vm_compute; reflexivity).
  assert (Hrd : first_fault prepared (stack_at prepared (Z.opp 8)) 8 MM_PROT_READ = None) by (vm_compute; reflexivity).
  assert (Hnd : NoDup (hosts_of prepared (stack_at prepared (Z.opp 8)) 8)) by (apply (bool_decide_unpack _); vm_compute; exact I).
   assert (Hvt : offset_checked prepared 0x1800 = true) by (vm_compute; reflexivity).
   assert (Hvr : offset_checked prepared 0x1005 = true) by (vm_compute; reflexivity).
  exact (near_call_returns prepared 64 8 0x1800 0x1005 Hw prepared_ready prepared_regs slot_8 Hwr Hrd Hnd Ht Hvt Hret Hvr).
Defined.

Lemma apart_by_test (l k : list Z) : forallb (fun x => negb (one_of x k)) l = true -> l ## k.
Proof.
  rewrite forallb_forall. intros Hl x Hx Hk. apply list_elem_of_In in Hx. specialize (Hl x Hx). apply negb_true_iff in Hl.
  apply not_true_iff_false in Hl. apply Hl. unfold one_of. apply existsb_exists. exists x. split; [by apply list_elem_of_In | apply Z.eqb_refl].
Qed.

Definition retf : DecodedInstruction := set_i_operand_size 64 (set_i_address_size 64 zero_inst).

Lemma prepared_slots : two_slots prepared 8.
Proof.
  split; [vm_compute; reflexivity | vm_compute; reflexivity | vm_compute; reflexivity | vm_compute; reflexivity | | | ];
    [apply (bool_decide_unpack _); vm_compute; exact I .. | apply apart_by_test; vm_compute; reflexivity].
Qed.

Lemma far_call_returns_witness :
  let called := final (call_far_to 8 code64 0x1800 8 64 0x1005) prepared in
  c_rip (en_context called) = 0x1800 /\
  c_rip (en_context (final (far_return retf) called)) = 0x1005 /\ c_cs (en_context (final (far_return retf) called)) = mkSeg 8 code64.
Proof.
  assert (Hret : in_word 64 0x1005) by zcompute. assert (Hold : in_word 16 (seg_selector (c_cs (en_context prepared)))) by zcompute.
  assert (Hw : (64, 8) = (16, 2) \/ (64, 8) = (32, 4) \/ (64, 8) = (64, 8)) by (by right; right).
  assert (Hal : return_checked prepared (seg_selector (c_cs (en_context prepared))) = true) by (vm_compute; reflexivity).
  assert (Hdesc : guest_descriptor prepared (seg_selector (c_cs (en_context prepared))) = seg_descriptor (c_cs (en_context prepared))) by (vm_compute; reflexivity).
  assert (Hd1 : hosts_of prepared (descriptor_address prepared (seg_selector (c_cs (en_context prepared)))) 8 ## hosts_of prepared (stack_at prepared (Z.opp 8)) 8)
    by (apply apart_by_test; vm_compute; reflexivity).
  assert (Hd2 : hosts_of prepared (descriptor_address prepared (seg_selector (c_cs (en_context prepared)))) 8 ## hosts_of prepared (stack_at prepared (Z.opp 8 - 8)) 8)
    by (apply apart_by_test; vm_compute; reflexivity).
  assert (Hsame : sd_long_mode code64 = cs_long_mode (en_context prepared)) by (vm_compute; reflexivity).
  assert (Hvt : offset_checked prepared (cpu_mask_code_offset 0x1800 64) = true) by (vm_compute; reflexivity).
   assert (Hvr : offset_checked prepared 0x1005 = true) by (vm_compute; reflexivity).
  assert (Has : i_address_size retf = stack_size prepared) by (vm_compute; reflexivity).
  pose proof (far_call_returns prepared 64 8 8 code64 0x1800 64 0x1005 retf Hw prepared_ready prepared_regs slot_8 prepared_slots
    Hold Hal Hdesc Hd1 Hd2 Hsame Hvt Hret Hvr eq_refl Has) as H.
  cbv zeta in H |- *. destruct H as (_ & H1 & H2). rewrite H2. split; [exact H1 |]. split; vm_compute; reflexivity.
Defined.

End ControlExample.
