(* ===== verification/Move.v ===== *)
(** * instructions/mov, movzx, movsx, movsxd, lea, cmovcc, setcc, bswap, cbw, cdq.hpp: data movement

    Everything that copies a value, possibly extended, possibly under a condition, and sets no
    flags.  All but LEA use the decoder of InstDecode.v; LEA computes its address with a function of
    its own while it decodes.  The theorems: each instruction moves the value its plan says, the
    faults of reading and of writing included; LEA's address is the architecture's; the decoders of
    this file are [Replayable], so that cached entries equal the bytes decoded again. *)

From Stdlib Require Import ZArith Bool List Lia.
From stdpp Require Import base tactics list.
From S2P Require Import Prelude CpuDef Flags HostMemory RegionTable RegionSplit Patches PageCache InstCache Machine CpuMemory Registers DispatchHelpers Stack Segments Alu Executor Decoder AluDecode InstDecode Operands Replay Control.

(** ** Decoding *)

(** One opcode byte, or the byte behind 0F: which of the two is not kept. *)
Definition mov_opcode (code : list Z) (offset : Z) : ST CPU_CONTEXT (Z * Z * bool) :=
  if byte_at code offset =? 0x0F then
    if size_of code <=? offset + 1 then st_modify (raise_gp_ctx 0) ;;; st_ret (byte_at code offset, offset + 1, false)
    else st_ret (byte_at code (offset + 1), offset + 2, true)
  else st_ret (byte_at code offset, offset + 1, true).

Definition decode_modrm_mov := decode_modrm_by LockIgnored.

(** Only the ModRM byte: the operand is a register whatever its mod field. *)
Definition decode_modrm_mov_cr (code : list Z) (inst : DecodedInstruction) (offset : Z) : ST CPU_CONTEXT (DecodedInstruction * Z) :=
  if size_of code <=? offset then st_modify (raise_gp_ctx 0) ;;; st_ret (inst, offset)
  else st_ret (set_i_modrm (byte_at code offset) (set_i_has_modrm true inst), offset + 1).

Definition mov_segment_base := cpu_segment_base_for_addressing.

(** A0 to A3: an address of the address size behind the opcode, the segment base added and the
    result checked. *)
Definition moffs_operands (code : list Z) (inst : DecodedInstruction) (offset : Z) : ST CPU_CONTEXT (DecodedInstruction * Z * bool) :=
  let* (inst, offset, completed) := decode_alu_immediate code inst offset (i_address_size inst / 8) in
  if negb completed then st_ret (inst, offset, false)
  else
    let* segment_index := st_gets (fun ctx => cpu_effective_segment_override_or_default ctx SEG_DS) in
    let* base := st_gets (fun ctx => mov_segment_base ctx segment_index) in
    let address := u64 (i_immediate inst + base) in
    let* _ := cpu_validate_linear_address address segment_index in
    st_ret (set_i_mem_address address inst, offset, true).

Definition mov_imm_size (ctx : CPU_CONTEXT) : Z := if c_rex_w ctx then 8 else if c_operand_size_override ctx then 2 else 4.

Definition mov_operands (code : list Z) (inst : DecodedInstruction) (offset : Z) (lock : bool) : ST CPU_CONTEXT (DecodedInstruction * Z * bool) :=
  let opcode := i_opcode inst in
  let byte_inst := set_i_operand_size 8 inst in
  if one_of opcode [0x88; 0x8A] then modrm_operands LockIgnored code byte_inst offset lock
  else if one_of opcode [0x89; 0x8B; 0x8C; 0x8E] then modrm_operands LockIgnored code inst offset lock
  else if one_of opcode [0x20; 0x22] then
    let* (inst, offset) := decode_modrm_mov_cr code inst offset in st_ret (inst, offset, true)
  else if one_of opcode [0xA0; 0xA2] then moffs_operands code byte_inst offset
  else if one_of opcode [0xA1; 0xA3] then moffs_operands code inst offset
  else if between 0xB0 0xB7 opcode then decode_alu_immediate code byte_inst offset 1
  else if between 0xB8 0xBF opcode then
    let* imm_size := st_gets mov_imm_size in decode_alu_immediate code inst offset imm_size
  else if one_of opcode [0xC6; 0xC7] then
    let* (inst, offset) := decode_modrm_mov code (if opcode =? 0xC6 then byte_inst else inst) offset lock in
    ud_if (negb (modrm_digit inst =? 0)) ;;;
    let* imm_size := st_gets wide_imm_size in
    decode_alu_immediate code inst offset (if opcode =? 0xC6 then 1 else imm_size)
  else st_modify raise_ud_ctx ;;; st_ret (inst, offset, true).

(** MOVZX and MOVSX refuse a word source for a word destination. *)
Definition extend_operands (word_opcode : Z) (code : list Z) (inst : DecodedInstruction) (offset : Z) (lock : bool)
  : ST CPU_CONTEXT (DecodedInstruction * Z * bool) :=
  ud_if ((i_opcode inst =? word_opcode) && (i_operand_size inst =? 16)) ;;; modrm_operands LockNever code inst offset lock.

Definition movsxd_operands (code : list Z) (inst : DecodedInstruction) (offset : Z) (lock : bool) : ST CPU_CONTEXT (DecodedInstruction * Z * bool) :=
  let* long := st_gets cs_long_mode in
  ud_if (negb long) ;;;
  let* narrow := st_gets (fun ctx => negb (c_rex_w ctx) || c_operand_size_override ctx) in
  ud_if narrow ;;;
  let* address := st_gets c_address_size_override in
  modrm_operands LockNever code (set_i_address_size (if address then 32 else 64) (set_i_operand_size 64 inst)) offset lock.

Definition cmovcc_operands (code : list Z) (inst : DecodedInstruction) (offset : Z) (lock : bool) : ST CPU_CONTEXT (DecodedInstruction * Z * bool) :=
  with_inst_size (modrm_operands LockNever code inst offset lock).
Definition setcc_operands (code : list Z) (inst : DecodedInstruction) (offset : Z) (lock : bool) : ST CPU_CONTEXT (DecodedInstruction * Z * bool) :=
  with_inst_size (modrm_operands LockNever code (set_i_operand_size 8 inst) offset lock).

(** BSWAP, CBW and CDQ have no operand bytes and leave the address size unset. *)
Definition implied_operands (operand_size : CPU_CONTEXT -> Z) (code : list Z) (inst : DecodedInstruction) (offset : Z) (lock : bool)
  : ST CPU_CONTEXT (DecodedInstruction * Z * bool) :=
  ud_if lock ;;;
  let* size := st_gets operand_size in
  with_inst_size (st_ret (set_i_address_size 0 (set_i_operand_size size inst), offset, true)).

Definition decode_bswap_operand_size (ctx : CPU_CONTEXT) : Z := if c_rex_w ctx then 64 else 32.
Definition decode_cbw_operand_size (ctx : CPU_CONTEXT) : Z :=
  if cs_long_mode ctx then (if c_rex_w ctx then 64 else if c_operand_size_override ctx then 16 else 32)
  else if c_operand_size_override ctx then 16 else 32.
Definition decode_cdq_operand_size := decode_cbw_operand_size.

Definition mov_rules : DecoderRules := mkRules false true false false mov_opcode mov_operands.
Definition movzx_rules : DecoderRules := mkRules false false false false (two_byte_opcode (fun op => one_of op [0xB6; 0xB7])) (extend_operands 0xB7).
Definition movsx_rules : DecoderRules := mkRules false false false false (two_byte_opcode (fun op => one_of op [0xBE; 0xBF])) (extend_operands 0xBF).
Definition movsxd_rules : DecoderRules := mkRules false false false false (ret_opcode [0x63]) movsxd_operands.
Definition cmovcc_rules : DecoderRules := mkRules false false false false (two_byte_opcode (between 0x40 0x4F)) cmovcc_operands.
Definition setcc_rules : DecoderRules := mkRules false false false false (two_byte_opcode (between 0x90 0x9F)) setcc_operands.
Definition bswap_rules : DecoderRules :=
  mkRules false false false false (two_byte_opcode (between 0xC8 0xCF)) (implied_operands decode_bswap_operand_size).
Definition cbw_rules : DecoderRules := mkRules false false false false (ret_opcode [0x98]) (implied_operands decode_cbw_operand_size).
Definition cdq_rules : DecoderRules := mkRules false false false false (ret_opcode [0x99]) (implied_operands decode_cdq_operand_size).

Definition decode_modrm_movzx := decode_modrm_by LockNever.
Definition decode_modrm_movsx := decode_modrm_by LockNever.
Definition decode_modrm_movsxd := decode_modrm_by LockNever.
Definition decode_modrm_cmovcc := decode_modrm_by LockNever.
Definition decode_modrm_setcc := decode_modrm_by LockNever.

Definition decode_mov_instruction := decode_by mov_rules.
Definition decode_movzx_instruction := decode_by movzx_rules.
Definition decode_movsx_instruction := decode_by movsx_rules.
Definition decode_movsxd_instruction := decode_by movsxd_rules.
Definition decode_cmovcc_instruction := decode_by cmovcc_rules.
Definition decode_setcc_instruction := decode_by setcc_rules.
Definition decode_bswap_instruction := decode_by bswap_rules.
Definition decode_cbw_instruction := decode_by cbw_rules.
Definition decode_cdq_instruction := decode_by cdq_rules.

(** ** LEA *)

Definition read_lea_address_reg (reg address_size : Z) (ctx : CPU_CONTEXT) : Z :=
  if address_size =? 64 then get_reg64 ctx reg else if address_size =? 32 then get_reg32 ctx reg else get_reg16 ctx reg.

(** [get_effective_offset] serves 16-bit addresses and is called without a length, which only
    RIP-relative operands would need. *)
Definition calculate_lea_address (modrm : Z) (has_sib : bool) (sib disp address_size next_rip : Z) : ST CPU_CONTEXT Z :=
  let mod_ := modrm_mod modrm in
  let raw_rm := modrm_rm modrm in
  ud_if (mod_ =? 3) ;;;
  let* ctx := st_get in
  if (address_size =? 64) || (address_size =? 32) then
    let long_mode_addr := cs_long_mode ctx in
    let addr :=
      if has_sib then
        let scale := Z.land (Z.shiftr sib 6) 0x03 in
        let raw_index := Z.land (Z.shiftr sib 3) 0x07 in
        let raw_base := Z.land sib 0x07 in
        let index := rex_extend (long_mode_addr && c_rex_x ctx) raw_index in
        let base := rex_extend (long_mode_addr && c_rex_b ctx) raw_base in
        let has_index := negb ((raw_index =? 4) && negb (long_mode_addr && c_rex_x ctx)) in
        let no_base := (mod_ =? 0) && (raw_base =? 5) in
        let addr :=
          if no_base then (if address_size =? 64 then u64 disp else u32 disp)
          else read_lea_address_reg base address_size ctx in
        if has_index then u64 (addr + u64 (Z.shiftl (read_lea_address_reg index address_size ctx) scale)) else addr
      else if (mod_ =? 0) && (raw_rm =? 5) then
        if address_size =? 64 then u64 (next_rip + u64 disp) else u32 disp
      else read_lea_address_reg (rex_extend (cs_long_mode ctx && c_rex_b ctx) raw_rm) address_size ctx in
    let addr :=
      if mod_ =? 1 then u64 (addr + sext 8 (Z.land disp 0xFF))
      else if mod_ =? 2 then u64 (addr + disp) else addr in
    st_ret (if address_size =? 32 then Z.land addr 0xFFFFFFFF else addr)
  else st_ret (get_effective_offset ctx modrm sib disp address_size 0).

Definition decode_modrm_lea (code : list Z) (inst : DecodedInstruction) (offset : Z) (has_lock_prefix : bool)
  : ST CPU_CONTEXT (DecodedInstruction * Z) :=
  if size_of code <=? offset then st_modify (raise_gp_ctx 0) ;;; st_ret (inst, offset)
  else
    let inst := set_i_modrm (byte_at code offset) (set_i_has_modrm true inst) in
    let offset := offset + 1 in
    let mod_ := modrm_mod (i_modrm inst) in
    let rm := modrm_rm (i_modrm inst) in
    ud_if (mod_ =? 3) ;;;
    let wants_sib := negb (mod_ =? 3) && (rm =? 4) && negb (i_address_size inst =? 16) in
    if wants_sib && (size_of code <=? offset) then st_modify (raise_gp_ctx 0) ;;; st_ret (inst, offset)
    else
      let '(inst, offset) :=
        if wants_sib then (set_i_sib (byte_at code offset) (set_i_has_sib true inst), offset + 1) else (inst, offset) in
      let disp_size := disp_size_of inst mod_ rm in
      let inst := set_i_disp_size disp_size inst in
      if (0 <? disp_size) && (size_of code <? offset + disp_size) then st_modify (raise_gp_ctx 0) ;;; st_ret (inst, offset)
      else
        let '(inst, offset) :=
          if 0 <? disp_size then (set_i_displacement (displacement_value code offset disp_size) inst, offset + disp_size)
          else (inst, offset) in
        let* next_rip := st_gets (fun ctx => u64 (c_rip ctx + offset)) in
        let* address := calculate_lea_address (i_modrm inst) (i_has_sib inst) (i_sib inst) (i_displacement inst) (i_address_size inst) next_rip in
        ud_if has_lock_prefix ;;; st_ret (set_i_mem_address address inst, offset).

Definition lea_operands (code : list Z) (inst : DecodedInstruction) (offset : Z) (lock : bool) : ST CPU_CONTEXT (DecodedInstruction * Z * bool) :=
  let* (inst, offset) := decode_modrm_lea code inst offset lock in st_ret (inst, offset, true).
Definition lea_rules : DecoderRules := mkRules false false false false (ret_opcode [0x8D]) lea_operands.
Definition decode_lea_instruction := decode_by lea_rules.

(** ** Byte order *)

Definition byteswap32_bswap (value : Z) : Z :=
  Z.lor (Z.lor (Z.lor (u32 (Z.shiftl (Z.land value 0x000000FF) 24)) (u32 (Z.shiftl (Z.land value 0x0000FF00) 8)))
               (Z.shiftr (Z.land value 0x00FF0000) 8)) (Z.shiftr (Z.land value 0xFF000000) 24).
Definition byteswap64_bswap (value : Z) : Z :=
  Z.lor (Z.lor (Z.lor (Z.lor (Z.lor (Z.lor (Z.lor
    (u64 (Z.shiftl (Z.land value 0x00000000000000FF) 56)) (u64 (Z.shiftl (Z.land value 0x000000000000FF00) 40)))
    (u64 (Z.shiftl (Z.land value 0x0000000000FF0000) 24))) (u64 (Z.shiftl (Z.land value 0x00000000FF000000) 8)))
    (Z.shiftr (Z.land value 0x000000FF00000000) 8)) (Z.shiftr (Z.land value 0x0000FF0000000000) 24))
    (Z.shiftr (Z.land value 0x00FF000000000000) 40)) (Z.shiftr (Z.land value 0xFF00000000000000) 56).

(** ** Control registers *)

(** The control and the general register; REX.R selects CR8 and nothing else. *)
Definition mov_decode_control_register_operands (modrm : Z) : ST CPU_CONTEXT (option (Z * Z)) :=
  let* ctx := st_get in
  let control_register := Z.lor (Z.land (Z.shiftr modrm 3) 0x07) (if c_rex_r ctx then 0x08 else 0) in
  let general_register := Z.lor (Z.land modrm 0x07) (if c_rex_b ctx then 0x08 else 0) in
  if c_rex_r ctx && negb (control_register =? REG_CR8) then st_modify raise_ud_ctx ;;; st_ret None
  else if negb (is_valid_control_register control_register) then st_modify raise_ud_ctx ;;; st_ret None
  else if (control_register =? REG_CR8) && negb (cpu_is_64bit_code ctx) then st_modify raise_ud_ctx ;;; st_ret None
  else if negb (c_cpl ctx =? 0) then st_modify (raise_gp_ctx 0) ;;; st_ret None
  else st_ret (Some (control_register, general_register)).

Definition mov_validate_control_register_write (control_register value : Z) : ST CPU_CONTEXT bool :=
  let* ctx := st_get in
  let bit i := negb (Z.land value (2 ^ i) =? 0) in
  let bad :=
    if control_register =? REG_CR0 then
      (cpu_long_mode_active ctx && negb (bit 31)) || (negb (bit 0) && bit 31) || (bit 29 && negb (bit 30))
    else if control_register =? REG_CR4 then cpu_long_mode_active ctx && negb (bit 5)
    else if control_register =? REG_CR8 then negb (Z.land value (Z.lxor 0xF (2 ^ 64 - 1)) =? 0)
    else false in
  if bad then st_modify (raise_gp_ctx 0) ;;; st_ret false else st_ret true.

Definition mov_r64_cr_ctx (modrm : Z) : ST CPU_CONTEXT unit :=
  let* operands := mov_decode_control_register_operands modrm in
  match operands with
  | None => st_ret tt
  | Some (control_register, general_register) =>
      let* value := get_control_register control_register in st_modify (set_reg64 general_register value)
  end.
Definition mov_cr_r64_ctx (modrm : Z) : ST CPU_CONTEXT unit :=
  let* operands := mov_decode_control_register_operands modrm in
  match operands with
  | None => st_ret tt
  | Some (control_register, general_register) =>
      let* value := st_gets (fun ctx => get_reg64 ctx general_register) in
      let* valid := mov_validate_control_register_write control_register value in
      if negb valid then st_ret tt else st_modify (set_control_register control_register value)
  end.

Section execute.
Context `{Callbacks}.

(** What [get_segment_register]'s static dummy holds. *)
Variable dummy_selector : Z.

(** [get_segment_register(ctx, index)->selector]. *)
Definition segment_selector (index : Z) : ST cpueaxh_engine Z :=
  select_segment_register index ;;;
  get_ctx (fun ctx => match cpu_segment ctx index with Some seg => seg_selector seg | None => dummy_selector end).

(** ** MOV *)

Definition mov_r64_cr (modrm : Z) : ST cpueaxh_engine unit := on_ctx (mov_r64_cr_ctx modrm).
Definition mov_cr_r64 (modrm : Z) : ST cpueaxh_engine unit := on_ctx (mov_cr_r64_ctx modrm).

Definition mov_r_rm (w modrm mem_addr : Z) : ST cpueaxh_engine unit :=
  let* value := read_rm w modrm mem_addr in write_reg w modrm value.
Definition mov_rm_r (w modrm mem_addr : Z) : ST cpueaxh_engine unit :=
  let* value := read_reg w modrm in write_rm w modrm mem_addr value.

(** A register of the operand size gets the selector, memory a word. *)
Definition mov_rm_sreg (w modrm mem_addr : Z) : ST cpueaxh_engine unit :=
  let* value := segment_selector (Z.land (Z.shiftr modrm 3) 0x07) in
  if modrm_mod modrm =? 3 then mod_ctx (fun ctx => set_reg w (rm_index modrm ctx) value ctx)
  else write_memory_word mem_addr (u16 value).

Definition mov_sreg_rm (w modrm mem_addr : Z) : ST cpueaxh_engine unit :=
  let reg := Z.land (Z.shiftr modrm 3) 0x07 in
  (if reg =? SEG_CS then mod_ctx raise_ud_ctx else st_ret tt) ;;;
  let* selector :=
    if modrm_mod modrm =? 3 then get_ctx (fun ctx => Z.land (get_reg w ctx (rm_index modrm ctx)) 0xFFFF) else read_memory_word mem_addr in
  load_segment_register reg selector.

(** The accumulator and the address in the instruction. *)
Definition mov_acc_moffs (w offset : Z) : ST cpueaxh_engine unit :=
  let* value := read_memory_operand offset w in write_acc w value.
Definition mov_moffs_acc (w offset : Z) : ST cpueaxh_engine unit :=
  let* value := read_acc w in write_memory_operand offset w value.

Definition mov_r_imm (w reg imm : Z) : ST cpueaxh_engine unit := mod_ctx (set_reg w reg imm).
Definition mov_rm_imm (w modrm mem_addr imm : Z) : ST cpueaxh_engine unit := write_rm w modrm mem_addr imm.

Definition execute_mov_with_decoded (inst : DecodedInstruction) : ST cpueaxh_engine unit :=
  let opcode := i_opcode inst in
  let modrm := i_modrm inst in
  let mem_addr := i_mem_address inst in
  let imm := i_immediate inst in
  let* w := get_ctx prefix_width in
  let* wide := get_ctx c_rex_w in
  let* extend := get_ctx c_rex_b in
  if opcode =? 0x88 then mov_rm_r 8 modrm mem_addr
  else if opcode =? 0x89 then mov_rm_r w modrm mem_addr
  else if opcode =? 0x8A then mov_r_rm 8 modrm mem_addr
  else if opcode =? 0x8B then mov_r_rm w modrm mem_addr
  else if opcode =? 0x8C then mov_rm_sreg w modrm mem_addr
  else if opcode =? 0x8E then mov_sreg_rm (if wide then 64 else 16) modrm mem_addr
  else if opcode =? 0x20 then mov_r64_cr modrm
  else if opcode =? 0x22 then mov_cr_r64 modrm
  else if opcode =? 0xA0 then mov_acc_moffs 8 mem_addr
  else if opcode =? 0xA1 then mov_acc_moffs w mem_addr
  else if opcode =? 0xA2 then mov_moffs_acc 8 mem_addr
  else if opcode =? 0xA3 then mov_moffs_acc w mem_addr
  else if between 0xB0 0xB7 opcode then mov_r_imm 8 (rex_extend extend (opcode - 0xB0)) (u8 imm)
  else if between 0xB8 0xBF opcode then mov_r_imm w (rex_extend extend (opcode - 0xB8)) (wrap w imm)
  else if opcode =? 0xC6 then mov_rm_imm 8 modrm mem_addr (u8 imm)
  else if opcode =? 0xC7 then mov_rm_imm w modrm mem_addr (wide_immediate w imm)
  else st_ret tt.

(** ** Extending moves *)

Definition movzx_r_rm (w src_w modrm mem_addr : Z) : ST cpueaxh_engine unit :=
  let* value := read_rm src_w modrm mem_addr in write_reg w modrm value.
Definition movsx_r_rm (w src_w modrm mem_addr : Z) : ST cpueaxh_engine unit :=
  let* value := read_rm src_w modrm mem_addr in write_reg w modrm (wrap w (sext src_w value)).
Definition movsxd_r64_rm32 (modrm mem_addr : Z) : ST cpueaxh_engine unit :=
  let* value := read_rm 32 modrm mem_addr in write_reg 64 modrm (u64 (sext 32 value)).

(** The switch of MOVZX and MOVSX: a byte source, and behind it a word source. *)
Definition extend_switch (byte_opcode : Z) (extend : Z -> Z -> Z -> Z -> ST cpueaxh_engine unit) (inst : DecodedInstruction) : ST cpueaxh_engine unit :=
  let opcode := i_opcode inst in
  let* w := get_ctx prefix_width in
  let* wide := get_ctx c_rex_w in
  if opcode =? byte_opcode then extend w 8 (i_modrm inst) (i_mem_address inst)
  else if opcode =? byte_opcode + 1 then extend (if wide then 64 else 32) 16 (i_modrm inst) (i_mem_address inst)
  else st_ret tt.

Definition execute_movzx_with_decoded := extend_switch 0xB6 movzx_r_rm.
Definition execute_movsx_with_decoded := extend_switch 0xBE movsx_r_rm.
Definition execute_movsxd_with_decoded (inst : DecodedInstruction) := movsxd_r64_rm32 (i_modrm inst) (i_mem_address inst).

(** [write_lea_reg_operand]: #UD for an operand size that is none of the three. *)
Definition write_reg_operand (operand_size modrm value : Z) : ST cpueaxh_engine unit :=
  if operand_size =? 16 then write_reg 16 modrm (u16 value)
  else if operand_size =? 32 then write_reg 32 modrm (u32 value)
  else if operand_size =? 64 then write_reg 64 modrm value
  else mod_ctx raise_ud_ctx.
Definition read_rm_operand (operand_size modrm mem_addr : Z) : ST cpueaxh_engine Z :=
  if one_of operand_size [16; 32; 64] then read_rm operand_size modrm mem_addr else mod_ctx raise_ud_ctx ;;; st_ret 0.

Definition execute_lea (code : list Z) : ST cpueaxh_engine unit :=
  execute_decoded decode_lea_instruction (fun inst => write_reg_operand (i_operand_size inst) (i_modrm inst) (i_mem_address inst)) code.

(** ** Conditional moves *)

Definition execute_cmovcc_with_decoded (inst : DecodedInstruction) : ST cpueaxh_engine unit :=
  let* source := read_rm_operand (i_operand_size inst) (i_modrm inst) (i_mem_address inst) in
  let* faulted := get_ctx cpu_has_exception in
  if faulted then st_ret tt
  else
    let* taken := get_ctx (eval_condition (Z.land (i_opcode inst) 0x0F)) in
    if taken then write_reg_operand (i_operand_size inst) (i_modrm inst) source else st_ret tt.

Definition execute_setcc_with_decoded (inst : DecodedInstruction) : ST cpueaxh_engine unit :=
  let* taken := get_ctx (eval_condition (Z.land (i_opcode inst) 0x0F)) in
  write_rm 8 (i_modrm inst) (i_mem_address inst) (if taken then 1 else 0).

(** ** Inside the registers *)

Definition bswap_reg (inst : DecodedInstruction) (ctx : CPU_CONTEXT) : CPU_CONTEXT :=
  let reg := rex_extend (c_rex_b ctx) (i_opcode inst - 0xC8) in
  if i_operand_size inst =? 64 then set_reg64 reg (byteswap64_bswap (get_reg64 ctx reg)) ctx
  else set_reg32 reg (byteswap32_bswap (get_reg32 ctx reg)) ctx.
Definition cbw_acc (inst : DecodedInstruction) (ctx : CPU_CONTEXT) : CPU_CONTEXT :=
  if i_operand_size inst =? 16 then set_reg16 REG_RAX (u16 (sext 8 (get_reg8 ctx REG_RAX))) ctx
  else if i_operand_size inst =? 32 then set_reg32 REG_RAX (u32 (sext 16 (get_reg16 ctx REG_RAX))) ctx
  else set_reg64 REG_RAX (u64 (sext 32 (get_reg32 ctx REG_RAX))) ctx.
Definition cdq_data (inst : DecodedInstruction) (ctx : CPU_CONTEXT) : CPU_CONTEXT :=
  if i_operand_size inst =? 16 then
    set_reg16 REG_RDX (if has_bits (get_reg16 ctx REG_RAX) 0x8000 then 0xFFFF else 0x0000) ctx
  else if i_operand_size inst =? 32 then
    set_reg32 REG_RDX (if sext 32 (get_reg32 ctx REG_RAX) <? 0 then 0xFFFFFFFF else 0) ctx
  else set_reg64 REG_RDX (if sext 64 (get_reg64 ctx REG_RAX) <? 0 then 0xFFFFFFFFFFFFFFFF else 0) ctx.

Definition execute_bswap_with_decoded (inst : DecodedInstruction) : ST cpueaxh_engine unit := mod_ctx (bswap_reg inst).
Definition execute_cbw_with_decoded (inst : DecodedInstruction) : ST cpueaxh_engine unit := mod_ctx (cbw_acc inst).
Definition execute_cdq_with_decoded (inst : DecodedInstruction) : ST cpueaxh_engine unit := mod_ctx (cdq_data inst).

Definition execute_mov := execute_decoded decode_mov_instruction execute_mov_with_decoded.
Definition execute_movzx := execute_decoded decode_movzx_instruction execute_movzx_with_decoded.
Definition execute_movsx := execute_decoded decode_movsx_instruction execute_movsx_with_decoded.
Definition execute_movsxd := execute_decoded decode_movsxd_instruction execute_movsxd_with_decoded.
Definition execute_cmovcc := execute_decoded decode_cmovcc_instruction execute_cmovcc_with_decoded.
Definition execute_setcc := execute_decoded decode_setcc_instruction execute_setcc_with_decoded.
Definition execute_bswap := execute_decoded decode_bswap_instruction execute_bswap_with_decoded.
Definition execute_cbw := execute_decoded decode_cbw_instruction execute_cbw_with_decoded.
Definition execute_cdq := execute_decoded decode_cdq_instruction execute_cdq_with_decoded.

Definition execute_mov_fast := execute_cached execute_mov_with_decoded.
Definition execute_movzx_fast := execute_cached execute_movzx_with_decoded.
Definition execute_movsx_fast := execute_cached execute_movsx_with_decoded.
Definition execute_movsxd_fast := execute_cached execute_movsxd_with_decoded.
Definition execute_cmovcc_fast := execute_cached execute_cmovcc_with_decoded.
Definition execute_setcc_fast := execute_as_cached execute_setcc_with_decoded.
Definition execute_bswap_fast := execute_as_cached execute_bswap_with_decoded.
Definition execute_cbw_fast := execute_as_cached execute_cbw_with_decoded.
Definition execute_cdq_fast := execute_as_cached execute_cdq_with_decoded.

End execute.

(** ** What the instructions move *)

(** The bytes of a [w]-bit value in the opposite order. *)
Definition byte_in (v i : Z) : Z := v / 2 ^ (8 * i) mod 256.
Definition reverse_bytes (w v : Z) : Z := le_combine (map (byte_in v) (rev (seqZ 0 (w / 8)))).

Inductive move_op := MOV | MOVZX | MOVSX | MOVSXD | CMOVCC | SETCC | BSWAP | CBW | CDQ.

(** A source read at one width, a value made of it, a destination written at another; the operand
    [Imm] as a destination is nothing written. *)
Record move_plan := mkPlan { mp_src_width : Z; mp_src : operand; mp_value : Z -> Z; mp_dst_width : Z; mp_dst : operand }.

Definition copy (w : Z) (src dst : operand) : move_plan := mkPlan w src (fun v => v) w dst.
Definition constant (w value : Z) (dst : operand) : move_plan := mkPlan w (Imm 0) (fun _ => value) w dst.
Definition sign_extended (src_w w : Z) (v : Z) : Z := wrap w (sext src_w v).

(** MOV, by opcode; the moves to segment and control registers are not of this kind. *)
Definition mov_plan (inst : DecodedInstruction) (ctx : CPU_CONTEXT) : option move_plan :=
  let opcode := i_opcode inst in
  let w := prefix_width ctx in
  let rm := rm_operand (i_modrm inst) (i_mem_address inst) ctx in
  let reg := Reg (reg_index (i_modrm inst) ctx) in
  let moffs := Mem (i_mem_address inst) in
  if opcode =? 0x88 then Some (copy 8 reg rm) else if opcode =? 0x89 then Some (copy w reg rm)
  else if opcode =? 0x8A then Some (copy 8 rm reg) else if opcode =? 0x8B then Some (copy w rm reg)
  else if opcode =? 0x8C then
    match cpu_segment ctx (modrm_digit inst) with
    | Some seg => Some (constant (if modrm_mod (i_modrm inst) =? 3 then w else 16) (seg_selector seg) rm)
    | None => None
    end
  else if opcode =? 0x8E then None else if opcode =? 0x20 then None else if opcode =? 0x22 then None
  else if opcode =? 0xA0 then Some (copy 8 moffs (Reg REG_RAX)) else if opcode =? 0xA1 then Some (copy w moffs (Reg REG_RAX))
  else if opcode =? 0xA2 then Some (copy 8 (Reg REG_RAX) moffs) else if opcode =? 0xA3 then Some (copy w (Reg REG_RAX) moffs)
  else if between 0xB0 0xB7 opcode then Some (constant 8 (u8 (i_immediate inst)) (Reg (rex_extend (c_rex_b ctx) (opcode - 0xB0))))
  else if between 0xB8 0xBF opcode then Some (constant w (wrap w (i_immediate inst)) (Reg (rex_extend (c_rex_b ctx) (opcode - 0xB8))))
  else if opcode =? 0xC6 then Some (constant 8 (u8 (i_immediate inst)) rm)
  else if opcode =? 0xC7 then Some (constant w (wide_immediate w (i_immediate inst)) rm)
  else None.

Definition move_plan_of (op : move_op) (inst : DecodedInstruction) (ctx : CPU_CONTEXT) : option move_plan :=
  let opcode := i_opcode inst in
  let size := i_operand_size inst in
  let w := prefix_width ctx in
  let wide := if c_rex_w ctx then 64 else 32 in
  let rm := rm_operand (i_modrm inst) (i_mem_address inst) ctx in
  let reg := Reg (reg_index (i_modrm inst) ctx) in
  let holds := eval_condition (Z.land opcode 0x0F) ctx in
  match op with
  | MOV => mov_plan inst ctx
  | MOVZX =>
      if opcode =? 0xB6 then Some (mkPlan 8 rm (fun v => v) w reg)
      else if opcode =? 0xB7 then Some (mkPlan 16 rm (fun v => v) wide reg) else None
  | MOVSX =>
      if opcode =? 0xBE then Some (mkPlan 8 rm (sign_extended 8 w) w reg)
      else if opcode =? 0xBF then Some (mkPlan 16 rm (sign_extended 16 wide) wide reg) else None
  | MOVSXD => Some (mkPlan 32 rm (sign_extended 32 64) 64 reg)
  | CMOVCC => if one_of size [16; 32; 64] then Some (copy size rm (if holds then reg else Imm 0)) else None
  | SETCC => Some (constant 8 (if holds then 1 else 0) rm)
  | BSWAP =>
      let operand := Reg (rex_extend (c_rex_b ctx) (opcode - 0xC8)) in
      if one_of size [32; 64] then Some (mkPlan size operand (reverse_bytes size) size operand) else None
  | CBW => if one_of size [16; 32; 64] then Some (mkPlan (size / 2) (Reg REG_RAX) (sign_extended (size / 2) size) size (Reg REG_RAX)) else None
  | CDQ => if one_of size [16; 32; 64] then Some (mkPlan size (Reg REG_RAX) (fun v => if sext size v <? 0 then 2 ^ size - 1 else 0) size (Reg REG_RDX)) else None
  end.

Definition execute_move `{Callbacks} (dummy_selector : Z) (op : move_op) : DecodedInstruction -> ST cpueaxh_engine unit :=
  match op with
  | MOV => execute_mov_with_decoded dummy_selector | MOVZX => execute_movzx_with_decoded | MOVSX => execute_movsx_with_decoded
  | MOVSXD => execute_movsxd_with_decoded | CMOVCC => execute_cmovcc_with_decoded | SETCC => execute_setcc_with_decoded
  | BSWAP => execute_bswap_with_decoded | CBW => execute_cbw_with_decoded | CDQ => execute_cdq_with_decoded
  end.

(** The fault of reading the source, or else of writing the destination; otherwise the value is
    in the destination and nothing else changed. *)
Definition move_outcome `{Callbacks} (e : cpueaxh_engine) (p : move_plan) (e' : cpueaxh_engine) : Prop :=
  match operand_fault e (mp_src_width p) MM_PROT_READ (mp_src p), operand_fault e (mp_dst_width p) MM_PROT_WRITE (mp_dst p) with
  | Some (ad, v), _ => abandoned e MM_PROT_READ v ad e'
  | None, Some (ad, v) => abandoned e MM_PROT_WRITE v ad e'
  | None, None => result_in e (en_context e) (mp_dst_width p) (mp_dst p) (mp_value p (operand_value e (mp_src_width p) (mp_src p))) e'
  end.

(** ** Bytes *)

Lemma mask_byte v k : 0 <= k -> Z.land v (Z.shiftl 255 k) = Z.shiftl (v / 2 ^ k mod 256) k.
Proof.
  intros Hk. change 256 with (2 ^ 8). rewrite <- Z.shiftr_div_pow2 by done. change 255 with (Z.ones 8). rewrite <- Z.land_ones by lia.
  apply Z.bits_inj'. intros i Hi. rewrite Z.land_spec, !Z.shiftl_spec, Z.land_spec by done.
  destruct (Z.ltb_spec i k); [by rewrite !(Z.testbit_neg_r _ (i - k)), andb_false_r by lia |].
  rewrite Z.shiftr_spec by lia. by replace (i - k + k) with i by lia.
Qed.

Lemma lor_byte x b : 0 <= b < 256 -> Z.lor (Z.shiftl x 8) b = b + 256 * x.
Proof. intros Hb. rewrite Z.lor_comm. by apply lor_disjoint. Qed.

Lemma byte_in_range v i : 0 <= byte_in v i < 256.
Proof. apply Z.mod_pos_bound. lia. Qed.

Lemma wrap_shiftl w b k : 0 <= b < 256 -> 0 <= k -> k + 8 <= w -> wrap w (Z.shiftl b k) = Z.shiftl b k.
Proof.
  intros Hb Hk Hw. apply wrap_small. unfold in_word. rewrite Z.shiftl_mul_pow2 by done. pose proof (pow2_pos k Hk).
  pose proof (Z.pow_le_mono_r 2 (k + 8) w ltac:(lia) Hw) as Hm. rewrite Z.pow_add_r in Hm by lia. change (2 ^ 8) with 256 in Hm. nia.
Qed.

(** One byte taken out and moved up or down. *)
Lemma byte_up w v i k : 0 <= i -> 0 <= k -> 8 * i + k + 8 <= w ->
  wrap w (Z.shiftl (Z.land v (Z.shiftl 255 (8 * i))) k) = Z.shiftl (byte_in v i) (8 * i + k).
Proof.
  intros Hi Hk Hw. rewrite mask_byte, Z.shiftl_shiftl by lia. apply wrap_shiftl; [apply byte_in_range | lia | lia].
Qed.

Lemma byte_down v i k : 0 <= i -> 0 <= k -> k <= 8 * i ->
  Z.shiftr (Z.land v (Z.shiftl 255 (8 * i))) k = Z.shiftl (byte_in v i) (8 * i - k).
Proof.
  intros Hi Hk Hw. rewrite mask_byte by lia. apply Z.bits_inj'. intros j Hj.
  rewrite Z.shiftr_spec, !Z.shiftl_spec by lia. unfold byte_in. f_equal. lia.
Qed.

Lemma byteswap32_spec v : byteswap32_bswap v = reverse_bytes 32 v.
Proof.
  unfold byteswap32_bswap.
  change 0xFF000000 with (Z.shiftl 255 (8 * 3)). change 0x00FF0000 with (Z.shiftl 255 (8 * 2)).
  change 0x0000FF00 with (Z.shiftl 255 (8 * 1)). change 0x000000FF with (Z.shiftl 255 (8 * 0)).
  rewrite !byte_up, !byte_down by lia. unfold reverse_bytes. change (rev (seqZ 0 (32 / 8))) with [3; 2; 1; 0]. cbn [map le_combine].
  pose proof (byte_in_range v) as Hb. set (b := byte_in v) in *.
  change (Z.lor (Z.lor (Z.lor (Z.shiftl (b 0) (8 + 16)) (Z.shiftl (b 1) (8 + 8))) (Z.shiftl (b 2) 8)) (Z.shiftl (b 3) 0) =
    b 3 + 256 * (b 2 + 256 * (b 1 + 256 * (b 0 + 256 * 0)))).
  rewrite Z.shiftl_0_r, <- !Z.shiftl_shiftl by lia. change 16 with (8 + 8). rewrite <- !Z.shiftl_shiftl by lia.
  rewrite <- !Z.shiftl_lor, !lor_byte by apply Hb. lia.
Qed.

Lemma byteswap64_spec v : byteswap64_bswap v = reverse_bytes 64 v.
Proof.
  unfold byteswap64_bswap.
  change 0xFF00000000000000 with (Z.shiftl 255 (8 * 7)). change 0x00FF000000000000 with (Z.shiftl 255 (8 * 6)).
  change 0x0000FF0000000000 with (Z.shiftl 255 (8 * 5)). change 0x000000FF00000000 with (Z.shiftl 255 (8 * 4)).
  change 0x00000000FF000000 with (Z.shiftl 255 (8 * 3)). change 0x0000000000FF0000 with (Z.shiftl 255 (8 * 2)).
  change 0x000000000000FF00 with (Z.shiftl 255 (8 * 1)). change 0x00000000000000FF with (Z.shiftl 255 (8 * 0)).
  rewrite !byte_up, !byte_down by lia. unfold reverse_bytes. change (rev (seqZ 0 (64 / 8))) with [7; 6; 5; 4; 3; 2; 1; 0]. cbn [map le_combine].
  pose proof (byte_in_range v) as Hb. set (b := byte_in v) in *.
  assert (Hs : forall x k, 0 <= k -> Z.shiftl x (k + 8) = Z.shiftl (Z.shiftl x k) 8) by (intros; by rewrite Z.shiftl_shiftl by lia).
  change (Z.lor (Z.lor (Z.lor (Z.lor (Z.lor (Z.lor (Z.lor (Z.shiftl (b 0) (48 + 8)) (Z.shiftl (b 1) (40 + 8))) (Z.shiftl (b 2) (32 + 8)))
    (Z.shiftl (b 3) (24 + 8))) (Z.shiftl (b 4) (16 + 8))) (Z.shiftl (b 5) (8 + 8))) (Z.shiftl (b 6) 8)) (Z.shiftl (b 7) 0) =
    b 7 + 256 * (b 6 + 256 * (b 5 + 256 * (b 4 + 256 * (b 3 + 256 * (b 2 + 256 * (b 1 + 256 * (b 0 + 256 * 0)))))))).
  rewrite Z.shiftl_0_r, !Hs by lia.
  change 48 with (40 + 8). change 40 with (32 + 8). change 32 with (24 + 8). change 24 with (16 + 8). change 16 with (8 + 8).
  rewrite !Hs by lia. rewrite <- !Z.shiftl_lor, !lor_byte by apply Hb. lia.
Qed.

(** ** The body of a move *)

Section outcome.
Context `{Callbacks}.
Variable e : cpueaxh_engine.
Hypotheses (Hr : cpu_ready e) (Hwf : regs_wf (en_context e)).

Definition plan_ok (p : move_plan) : Prop :=
  reg_width (mp_src_width p) /\ reg_width (mp_dst_width p) /\ operand_ok (mp_src_width p) (mp_src p) /\ operand_ok (mp_dst_width p) (mp_dst p).

(** The source is read, then the value written. *)
Definition move_body (p : move_plan) : ST cpueaxh_engine unit :=
  let* v := read_at (mp_src_width p) (mp_src p) in write_at (mp_dst_width p) (mp_dst p) (mp_value p v).

Lemma move_body_outcome p : plan_ok p -> move_outcome e p (final (move_body p) e).
Proof.
  intros (Hs & Hd & Hos & Hod). destruct p as [sw src value dw dst]. cbn [mp_src_width mp_src mp_value mp_dst_width mp_dst] in *.
  unfold move_outcome, move_body, final. cbn [mp_src_width mp_src mp_value mp_dst_width mp_dst]. pose proof (track_start e Hr) as Ht.
  pose proof (track_read e _ e sw src Hr (plain_refl _) Ht Hs Hos) as Hread.
  destruct (operand_fault e sw MM_PROT_READ src) as [[ad v] |]; destruct Hread as (e1 & Hread & He1); rewrite (bind_run _ _ _ _ _ Hread).
  - by apply abandoned_write.
  - unfold value_in in *. rewrite set_own_context. exact (track_write e _ e1 dw dst _ Hr (plain_refl _) He1 Hd Hod).
Qed.

(** A body that writes through the ModRM fields. *)
Lemma move_by_rm sw dw modrm mem (value : Z -> Z) (k : Z -> ST cpueaxh_engine unit) dst :
  reg_width sw -> in_word 64 mem ->
  (forall v e1, rex_bits e1 = rex_bits e -> k v e1 = write_at dw dst (value v) e1) ->
  (let* v := read_rm sw modrm mem in k v) e = move_body (mkPlan sw (rm_operand modrm mem (en_context e)) value dw dst) e.
Proof.
  intros Hs Hm Hk. unfold move_body. cbn [mp_src_width mp_src mp_value mp_dst_width mp_dst]. unfold st_bind. rewrite read_rm_at.
  pose proof (read_at_rex e sw _ Hr Hs (rm_operand_ok sw modrm mem (en_context e) Hm)) as Hrex.
  destruct (read_at sw _ e) as [v e1]. by apply Hk.
Qed.

(** A value that needs no reading. *)
Lemma constant_run w value dst : move_body (constant w value dst) e = write_at w dst value e.
Proof. done. Qed.

Lemma copy_run w src dst e1 v : read_at w src e = (v, e1) -> move_body (copy w src dst) e = write_at w dst v e1.
Proof. intros Hread. unfold move_body, copy. cbn [mp_src_width mp_src mp_value mp_dst_width mp_dst]. by rewrite (bind_run _ _ _ _ _ Hread). Qed.

End outcome.

(** ** Each instruction is such a move *)

Section moves.
Context `{Callbacks}.
Variables (e : cpueaxh_engine) (modrm mem : Z).
Hypotheses (Hr : cpu_ready e) (Hm : in_word 64 mem).
Let ctx := en_context e.
Let rm := rm_operand modrm mem ctx.
Let reg := Reg (reg_index modrm ctx).

Lemma mov_rm_r_run w : mov_rm_r w modrm mem e = move_body (copy w reg rm) e.
Proof.
  rewrite (copy_run e w reg rm e (get_reg w ctx (reg_index modrm ctx))) by done.
  unfold mov_rm_r. rewrite (bind_run (read_reg w modrm) _ e (get_reg w ctx (reg_index modrm ctx)) e) by done. by apply write_rm_at.
Qed.

Lemma mov_r_rm_run w : reg_width w -> mov_r_rm w modrm mem e = move_body (copy w rm reg) e.
Proof. intros Hw. unfold mov_r_rm. apply (move_by_rm e Hr); [done | done |]. intros v e1 Hrex. by apply write_reg_at. Qed.

Lemma movzx_run w src_w : reg_width src_w -> movzx_r_rm w src_w modrm mem e = move_body (mkPlan src_w rm (fun v => v) w reg) e.
Proof. intros Hs. unfold movzx_r_rm. apply (move_by_rm e Hr); [done | done |]. intros v e1 Hrex. by apply write_reg_at. Qed.

Lemma movsx_run w src_w : reg_width src_w -> movsx_r_rm w src_w modrm mem e = move_body (mkPlan src_w rm (sign_extended src_w w) w reg) e.
Proof. intros Hs. unfold movsx_r_rm. apply (move_by_rm e Hr); [done | done |]. intros v e1 Hrex. by apply write_reg_at. Qed.

Lemma mov_sreg_run dummy w seg :
  cpu_segment ctx (Z.land (Z.shiftr modrm 3) 0x07) = Some seg ->
  mov_rm_sreg dummy w modrm mem e = move_body (constant (if modrm_mod modrm =? 3 then w else 16) (seg_selector seg) rm) e.
Proof.
  intros Hseg. rewrite constant_run. unfold mov_rm_sreg, segment_selector. cbv zeta. set (index := Z.land _ _) in *.
  assert (Hsel : select_segment_register index e = (tt, e)).
  { unfold select_segment_register, cpu_segment in *. by repeat (destruct (index =? _); [done |]). }
  rewrite (bind_run _ _ e (seg_selector seg) e); [| rewrite (bind_run _ _ _ _ _ Hsel); unfold get_ctx, st_gets; fold ctx; by rewrite Hseg].
  unfold rm, rm_operand. destruct (modrm_mod modrm =? 3); done.
Qed.

Lemma mov_acc_moffs_run w : reg_width w -> mov_acc_moffs w mem e = move_body (copy w (Mem mem) (Reg REG_RAX)) e.
Proof.
  intros Hw. unfold mov_acc_moffs, move_body. cbn [mp_src_width mp_src mp_value mp_dst_width mp_dst copy read_at]. unfold st_bind.
  destruct (read_memory_operand mem w e) as [v e1]. exact (proj2 (acc_read_write e w Hw) v e1).
Qed.

Lemma mov_moffs_acc_run w : reg_width w -> mov_moffs_acc w mem e = move_body (copy w (Reg REG_RAX) (Mem mem)) e.
Proof.
  intros Hw. unfold mov_moffs_acc, move_body. cbn [mp_src_width mp_src mp_value mp_dst_width mp_dst copy]. unfold st_bind.
  rewrite (proj1 (acc_read_write e w Hw)). by destruct (read_at w (Reg REG_RAX) e).
Qed.

Lemma mov_rm_imm_run w imm : mov_rm_imm w modrm mem imm e = move_body (constant w imm rm) e.
Proof. rewrite constant_run. by apply write_rm_at. Qed.

End moves.

(** The tests of an opcode against constants, in the goal and in what defines the plan. *)
Ltac opcode_cases Hplan :=
  repeat match type of Hplan with
  | (if ?b then _ else _) = _ => let E := fresh "E" in destruct b eqn:E
  | match ?x with _ => _ end = _ => let E := fresh "E" in destruct x eqn:E
  end; try discriminate Hplan.
Ltac by_opcode Hplan := opcode_cases Hplan; injection Hplan as <-.

Ltac choose_opcode := repeat match goal with E : ?b = _ |- context [if ?b then _ else _] => rewrite E end.

Section correct.
Context `{Callbacks}.
Variables (dummy_selector : Z) (inst : DecodedInstruction) (e : cpueaxh_engine).
Hypotheses (Hr : cpu_ready e) (Hwf : regs_wf (en_context e)) (Hm : in_word 64 (i_mem_address inst)).
Let ctx := en_context e.

Lemma get_ctx_step {A B} (f : CPU_CONTEXT -> A) (k : A -> ST cpueaxh_engine B) : (let* x := get_ctx f in k x) e = k (f ctx) e.
Proof. done. Qed.

Lemma mov_plan_run p : mov_plan inst ctx = Some p -> execute_mov_with_decoded dummy_selector inst e = move_body p e.
Proof.
  intros Hplan. pose proof (prefix_width_ok ctx) as Hw. assert (H8 : reg_width 8) by by left. unfold execute_mov_with_decoded. cbv zeta.
  rewrite !get_ctx_step. unfold mov_plan in Hplan. cbv zeta in Hplan.
  by_opcode Hplan; choose_opcode;
    first [ by apply mov_rm_r_run | by apply mov_r_rm_run | by apply mov_sreg_run | by apply mov_acc_moffs_run | by apply mov_moffs_acc_run
          | apply mov_rm_imm_run | reflexivity ].
Qed.

(** A value stored in a context register of the 64-bit view. *)
Lemma size_widths size : one_of size [16; 32; 64] = true -> size = 16 \/ size = 32 \/ size = 64.
Proof. unfold one_of. cbn [existsb]. lia. Qed.

Lemma bswap_run p : move_plan_of BSWAP inst ctx = Some p -> execute_bswap_with_decoded inst e = move_body p e.
Proof.
  cbn [move_plan_of]. cbv zeta. destruct (one_of _ [32; 64]) eqn:Es; [intros [= <-] | done].
  unfold execute_bswap_with_decoded, move_body. cbn [mp_src_width mp_src mp_value mp_dst_width mp_dst]. cbn [read_at write_at]. rewrite get_ctx_step.
  unfold mod_ctx, st_modify. do 2 f_equal. unfold bswap_reg. fold ctx.
  unfold one_of in Es. cbn [existsb] in Es. assert (i_operand_size inst = 32 \/ i_operand_size inst = 64) as [-> | ->] by lia.
  - by rewrite <- byteswap32_spec.
  - by rewrite <- byteswap64_spec.
Qed.

Lemma cbw_run p : move_plan_of CBW inst ctx = Some p -> execute_cbw_with_decoded inst e = move_body p e.
Proof.
  cbn [move_plan_of]. cbv zeta. destruct (one_of _ _) eqn:Es; [intros [= <-] | done]. apply size_widths in Es.
  unfold execute_cbw_with_decoded, move_body, cbw_acc, sign_extended. cbn [mp_src_width mp_src mp_value mp_dst_width mp_dst]. cbn [read_at write_at]. rewrite get_ctx_step.
  unfold mod_ctx, st_modify. do 2 f_equal. by destruct Es as [-> | [-> | ->]].
Qed.

Lemma cdq_run p : move_plan_of CDQ inst ctx = Some p -> execute_cdq_with_decoded inst e = move_body p e.
Proof.
  cbn [move_plan_of]. cbv zeta. destruct (one_of _ _) eqn:Es; [intros [= <-] | done]. apply size_widths in Es.
  unfold execute_cdq_with_decoded, move_body, cdq_data. cbn [mp_src_width mp_src mp_value mp_dst_width mp_dst]. cbn [read_at write_at]. rewrite get_ctx_step.
  unfold mod_ctx, st_modify. do 2 f_equal. fold ctx. destruct Es as [-> | [-> | ->]]; cbn [Z.eqb Pos.eqb]; [| done..].
  assert (Hax : in_word 16 (get_reg 16 ctx REG_RAX)) by (apply get_reg_in_word; [by right; left | done]).
  change (get_reg16 ctx REG_RAX) with (get_reg 16 ctx REG_RAX). change 0x8000 with (sign_mask 16).
  by rewrite has_sign_bit, sext_neg by (done || lia).
Qed.

Lemma cmovcc_outcome p : move_plan_of CMOVCC inst ctx = Some p -> move_outcome e p (final (execute_cmovcc_with_decoded inst) e).
Proof.
  cbn [move_plan_of]. cbv zeta. destruct (one_of _ _) eqn:Es; [intros [= <-] | done].
  assert (Hw : reg_width (i_operand_size inst)) by (apply size_widths in Es; unfold reg_width; lia).
  assert (Hstep : forall k : Z -> ST cpueaxh_engine unit,
    (let* v := read_rm_operand (i_operand_size inst) (i_modrm inst) (i_mem_address inst) in k v) = (let* v := read_rm (i_operand_size inst) (i_modrm inst) (i_mem_address inst) in k v))
    by (intros; unfold read_rm_operand; by rewrite Es).
  unfold execute_cmovcc_with_decoded, move_outcome. rewrite Hstep. unfold copy. cbn [mp_src_width mp_src mp_value mp_dst_width mp_dst].
  apply (read_rm_then e); [done.. | |]; fold ctx.
  - intros ad v e1 Hf Ha. by rewrite Hf.
  - intros d e1 Hf Hd Hv Ht. rewrite Hf, <- Hv. unfold final. rewrite (bind_run (get_ctx _) _ _ _ _ (track_get e ctx e1 _ Ht)).
    destruct (eval_condition _ ctx); cbn [operand_fault result_in]; [| exact Ht].
    unfold write_reg_operand. apply size_widths in Es. pose proof (track_mod e ctx e1 (fun c => set_reg (i_operand_size inst) (reg_index (i_modrm inst) c) d c) Ht) as Hset.
    destruct Es as [E | [E | E]]; rewrite E in Hset, Hd |- *; cbn [Z.eqb Pos.eqb]; rewrite ?(wrap_small _ d) by exact Hd; exact Hset.
Qed.

Lemma move_plan_ok op p : move_plan_of op inst ctx = Some p -> plan_ok p.
Proof.
  intros Hplan. pose proof (prefix_width_ok ctx) as Hw. pose proof (rm_operand_ok) as Hrm.
  assert (H8 : reg_width 8) by by left. assert (H16 : reg_width 16) by by right; left. assert (H32 : reg_width 32) by by right; right; left.
  assert (H64 : reg_width 64) by by right; right; right. assert (Hwide : reg_width (if c_rex_w ctx then 64 else 32)) by by destruct (c_rex_w ctx).
  assert (Hzero : forall w, reg_width w -> in_word w 0) by (intros w Hx; destruct (reg_width_bounds w Hx); unfold in_word; pose proof (pow2_pos w); lia).
  assert (Hsize : forall l, l = [16; 32; 64] \/ l = [32; 64] -> one_of (i_operand_size inst) l = true -> reg_width (i_operand_size inst) /\ reg_width (i_operand_size inst / 2)).
  { intros l Hl Hs. assert (one_of (i_operand_size inst) [16; 32; 64] = true) as Hs' by (destruct Hl as [-> | ->]; unfold one_of in *; cbn [existsb] in *; lia).
    by apply size_widths in Hs' as [-> | [-> | ->]]. }
  destruct op; cbn [move_plan_of] in Hplan; unfold mov_plan in Hplan; cbv zeta in Hplan; by_opcode Hplan;
    repeat match goal with E : one_of (i_operand_size inst) _ = true |- _ => apply Hsize in E as [? ?]; [| by auto] end;
    unfold plan_ok; cbn [mp_src_width mp_src mp_value mp_dst_width mp_dst copy constant]; split_and!;
    repeat match goal with |- context [if ?b then _ else _] => destruct b end; first [done | by apply Hrm | by apply Hzero].
Qed.

(** C32: Every data movement moves exactly its plan.  Take MOV (but for segment and control register
    destinations), MOVZX, MOVSX, MOVSXD, CMOVcc, SETcc, BSWAP, CBW/CWDE/CDQE and CWD/CDQ/CQO with
    any opcode, prefixes and operands, on an engine without a pending exception.  When the source
    cannot be read the page fault of the read is pending and memory is as it was; when the
    destination cannot be written it is that of the write; otherwise the destination holds the
    source's value, zero- or sign-extended, byte-reversed or replaced as the instruction says, and
    registers, flags and memory are the same elsewhere.  CMOVcc reads its source even when the
    condition is false and then writes nothing. *)
Theorem move_instructions_correct op p :
  move_plan_of op inst ctx = Some p -> move_outcome e p (final (execute_move dummy_selector op inst) e).
Proof.
  intros Hplan. pose proof (move_body_outcome e Hr p (move_plan_ok op p Hplan)) as Hbody.
  pose proof (prefix_width_ok ctx) as Hw. assert (H8 : reg_width 8) by by left. assert (H16 : reg_width 16) by by right; left.
  assert (H32 : reg_width 32) by by right; right; left.
  assert (Hrun : execute_move dummy_selector op inst e = move_body p e -> move_outcome e p (final (execute_move dummy_selector op inst) e))
    by (intros E; unfold final in *; by rewrite E).
  destruct op; cbn [execute_move] in *.
  - apply Hrun. by apply mov_plan_run.
  - apply Hrun. cbn [move_plan_of] in Hplan. cbv zeta in Hplan. unfold execute_movzx_with_decoded, extend_switch. cbv zeta. change (0xB6 + 1) with 0xB7. rewrite !get_ctx_step.
    by_opcode Hplan; choose_opcode; by apply movzx_run.
  - apply Hrun. cbn [move_plan_of] in Hplan. cbv zeta in Hplan. unfold execute_movsx_with_decoded, extend_switch. cbv zeta. change (0xBE + 1) with 0xBF. rewrite !get_ctx_step.
    by_opcode Hplan; choose_opcode; by apply movsx_run.
  - apply Hrun. injection Hplan as <-. by apply (movsx_run e _ _ Hr Hm 64 32).
  - by apply cmovcc_outcome.
  - apply Hrun. injection Hplan as <-. unfold execute_setcc_with_decoded. rewrite get_ctx_step, constant_run. by apply write_rm_at.
  - apply Hrun. by apply bswap_run.
  - apply Hrun. by apply cbw_run.
  - apply Hrun. by apply cdq_run.
Qed.

End correct.

(** ** The address of LEA *)

Section lea.
Variable ctx : CPU_CONTEXT.
Hypothesis Hwf : regs_wf ctx.

Lemma read_lea_reg s r : s = 32 \/ s = 64 -> read_lea_address_reg r s ctx = wrap s (reg_at ctx r).
Proof.
  intros [-> | ->]; unfold read_lea_address_reg; cbn [Z.eqb Pos.eqb].
  - unfold get_reg32. change 0xFFFFFFFF with (Z.ones 32). by rewrite Z.land_ones by lia.
  - by apply u64_reg.
Qed.

Lemma wrap_multiple s a b q : 0 <= s -> a = b + q * 2 ^ s -> wrap s a = wrap s b.
Proof. intros Hs ->. unfold wrap. apply Z.mod_add. pose proof (pow2_pos s Hs). lia. Qed.

(** The address before the displacement of mod 1 or 2 is added, as a number modulo 2^64. *)
Lemma lea_finish s mod_ disp t goal :
  s = 32 \/ s = 64 -> wrap s (t + form_disp mod_ disp) = goal ->
  (let addr := if mod_ =? 1 then u64 (u64 t + sext 8 (Z.land disp 0xFF)) else if mod_ =? 2 then u64 (u64 t + disp) else u64 t in
   if s =? 32 then Z.land addr 0xFFFFFFFF else addr) = goal.
Proof. intros Hs <-. cbv zeta. by rewrite add_disp, truncate_sum. Qed.

Lemma u64_word s t : s = 32 \/ s = 64 -> wrap s t = u64 (wrap s t).
Proof. intros Hs. symmetry. apply wrap_small. pose proof (wrap_range s t). unfold in_word in *. destruct Hs as [-> | ->]; lia. Qed.

(** Base, index and a bare displacement. *)
Lemma lea_sib s sib mod_ disp rx rb :
  s = 32 \/ s = 64 -> 0 <= sib ->
  let index := rex_extend rx (Z.land (Z.shiftr sib 3) 7) in
  let base := if (mod_ =? 0) && (Z.land sib 7 =? 5) then (if s =? 64 then u64 disp else u32 disp)
              else read_lea_address_reg (rex_extend rb (Z.land sib 7)) s ctx in
  let addr := if negb ((Z.land (Z.shiftr sib 3) 7 =? 4) && negb rx)
              then u64 (base + u64 (Z.shiftl (read_lea_address_reg index s ctx) (Z.land (Z.shiftr sib 6) 3))) else base in
  let f := form_sib rx rb mod_ sib disp in
  exists t, addr = u64 t /\ forall d, wrap s (t + d) =
    wrap s (match of_base f with Some r => reg_at ctx r | None => disp end +
            match of_index f with Some (r, k) => reg_at ctx r * k | None => 0 end + d).
Proof.
  intros Hs Hsib. cbv zeta. rewrite !read_lea_reg by done.
  assert (Hidx : 0 <= Z.land (Z.shiftr sib 3) 7 < 8) by apply (land_range_bits 3 (Z.shiftr sib 3)), Z.le_0_2.
  assert (Hsc : 0 <= Z.land (Z.shiftr sib 6) 3) by (apply Z.land_nonneg; lia). unfold form_sib. rewrite rex_extend_eq4 by done.
  replace (if s =? 64 then u64 disp else u32 disp) with (wrap s disp) by (by destruct Hs as [-> | ->]).
  set (b := if (mod_ =? 0) && (Z.land sib 7 =? 5) then disp else reg_at ctx (rex_extend rb (Z.land sib 7))).
  replace (if (mod_ =? 0) && (Z.land sib 7 =? 5) then wrap s disp else wrap s (reg_at ctx (rex_extend rb (Z.land sib 7)))) with (wrap s b)
    by (unfold b; by destruct (_ && _)).
  assert (H0 : 0 <= s) by lia. rewrite Z.shiftl_mul_pow2 by done. set (k := 2 ^ Z.land (Z.shiftr sib 6) 3).
  assert (Hb : forall t, match of_base (if (mod_ =? 0) && (Z.land sib 7 =? 5) then Registers.mkForm None t false disp
    else Registers.mkForm (Some (rex_extend rb (Z.land sib 7))) t false (form_disp mod_ disp)) with Some r => reg_at ctx r | None => disp end = b)
    by (intros; unfold b; by destruct (_ && _)).
  rewrite Hb. clear Hb. set (i := reg_at ctx (rex_extend rx (Z.land (Z.shiftr sib 3) 7))).
  destruct ((Z.land (Z.shiftr sib 3) 7 =? 4) && negb rx); cbn [negb].
  - exists (wrap s b). split; [by apply u64_word |]. intros d. destruct (_ && _); cbn [of_index]; rewrite wrap_add_l by lia; f_equal; lia.
  - exists (wrap s b + wrap s i * k). split; [by rewrite wrap_add_r by lia |]. intros d.
    apply (wrap_multiple s _ _ (- (b / 2 ^ s) - i / 2 ^ s * k)); [done |]. unfold wrap. rewrite !Z.mod_eq by (pose proof (pow2_pos s H0); lia).
    destruct (_ && _); cbn [of_index]; fold i k; lia.
Qed.

(** The ModRM forms of 32- and 64-bit addresses. *)
Lemma lea_wide s modrm sib disp next :
  s = 32 \/ s = 64 -> cs_long_mode ctx = cpu_allows_rex_prefix ctx -> 0 <= sib -> modrm_mod modrm <> 3 ->
  (rip_form modrm = true -> (s =? 64) = cpu_allows_rex_prefix ctx) ->
  calculate_lea_address modrm (modrm_rm modrm =? 4) sib disp s next ctx = (architectural_offset ctx modrm sib disp s next, ctx).
Proof.
  intros Hs Hmode Hsib H3 Hrip. unfold calculate_lea_address. replace (modrm_mod modrm =? 3) with false by lia. cbn [ud_if].
  rewrite (bind_run (st_ret tt) _ ctx tt ctx eq_refl), (bind_run st_get _ ctx ctx ctx eq_refl).
  replace ((s =? 64) || (s =? 32)) with true by (destruct Hs as [-> | ->]; done). unfold st_ret at 1. f_equal.
  rewrite Hmode, !(andb_comm (cpu_allows_rex_prefix ctx)). set (rx := c_rex_x ctx && _). set (rb := c_rex_b ctx && _).
  unfold architectural_offset, form_of. fold rx rb. replace (s =? 16) with false by lia. pose proof (modrm_rm_range modrm) as Hrm.
  destruct (Z.eqb_spec (modrm_rm modrm) 4) as [E4 |].
  - destruct (lea_sib s sib (modrm_mod modrm) disp rx rb Hs Hsib) as (t & Ht & Hsum). cbv zeta in Ht. rewrite Ht.
    apply (lea_finish s (modrm_mod modrm) disp t); [done |]. rewrite Hsum. unfold form_value. rewrite form_sib_rip. f_equal.
    unfold form_sib. destruct ((modrm_mod modrm =? 0) && (Z.land sib 7 =? 5)) eqn:E; cbn [of_base of_index of_disp]; [| lia].
    apply andb_true_iff in E as [->%Z.eqb_eq _]. rewrite form_disp_mod0. lia.
  - rewrite (andb_comm (modrm_rm modrm =? 5)). unfold rip_form in Hrip. destruct ((modrm_mod modrm =? 0) && (modrm_rm modrm =? 5)) eqn:E5.
    + specialize (Hrip eq_refl). apply andb_true_iff in E5 as [Em _]. apply Z.eqb_eq in Em. rewrite Em. cbn [Z.eqb].
      unfold form_value. cbn [of_base of_index of_rip of_disp]. rewrite <- Hrip.
      destruct Hs as [-> | ->]; cbn [Z.eqb Pos.eqb].
      * rewrite !Z.add_0_l. change 0xFFFFFFFF with (Z.ones 32). rewrite Z.land_ones by lia. by apply wrap_wrap.
      * rewrite wrap_add_r by lia. by rewrite !Z.add_0_l.
    + rewrite read_lea_reg, (u64_word s) by done. apply lea_finish; [done |]. unfold form_value. cbn [of_base of_index of_rip of_disp].
      rewrite wrap_add_l by lia. f_equal. lia.
Qed.

(** LEA computes the architecture's address.  In 64-bit code with 64-bit addresses, and outside
    of it with 32- and 16-bit addresses, for every ModRM and SIB byte of a memory operand and every
    displacement, the value LEA stores is base plus scaled index plus sign-extended displacement (or
    the next instruction plus displacement), modulo the address size, and computing it changes
    nothing.  With 32-bit addresses in 64-bit code the same holds but for the RIP-relative form.
    The SIB form without a base, where memory operands go wrong
    ([displacement_only_forms_differ]), is right here. *)
Theorem lea_address_is_architectural (modrm sib disp address_size next : Z) :
  is_disp disp -> is_byte sib -> cs_long_mode ctx = cpu_allows_rex_prefix ctx -> address_size_ok ctx address_size -> modrm_mod modrm <> 3 ->
  ~ (cpu_allows_rex_prefix ctx = true /\ address_size = 32 /\ rip_form modrm = true) ->
  let has_sib := (modrm_rm modrm =? 4) && negb (address_size =? 16) in
  calculate_lea_address modrm has_sib sib disp address_size next ctx =
  (architectural_offset ctx modrm sib disp address_size next, ctx).
Proof.
  intros _ [Hsib _] Hmode Hsize H3 Hrip has_sib. subst has_sib. unfold address_size_ok in Hsize.
  destruct (Z.eqb_spec address_size 16) as [-> | H16].
  - destruct (cpu_allows_rex_prefix ctx) eqn:El; [lia |]. unfold calculate_lea_address. replace (modrm_mod modrm =? 3) with false by lia. cbn [ud_if Z.eqb Pos.eqb orb].
    rewrite (bind_run (st_ret tt) _ ctx tt ctx eq_refl), (bind_run st_get _ ctx ctx ctx eq_refl). unfold st_ret. f_equal.
    rewrite narrow_offset_form by done. unfold architectural_offset, form_of. cbn [Z.eqb Pos.eqb]. unfold form_value. f_equal.
    assert (of_rip (form16 (modrm_mod modrm) (modrm_rm modrm) disp) = false) as ->; [| done].
    unfold form16. by repeat match goal with |- context [if ?b then _ else _] => destruct b end.
  - rewrite andb_true_r. apply lea_wide; [destruct (cpu_allows_rex_prefix ctx); lia | done | done | done |]. intros Hr.
    destruct (cpu_allows_rex_prefix ctx); [| by destruct Hsize as [-> | ->]]. destruct Hsize as [-> | ->]; [done | by destruct Hrip].
Qed.

End lea.

(** ** Replay *)

Lemma ret_stage opcodes code offset : opcode_stage (ret_opcode opcodes code offset).
Proof.
  split; [unfold ret_opcode; sticky_steps |]. intros c1 c2 H1 H2. exists (byte_at code offset), (offset + 1). unfold clean, ret_opcode, ud_if in *.
  apply clean_if_raise in H1 as [_ E1]; [| apply ud_not_clean | done]. apply clean_if_raise in H2 as [_ E2]; [| apply ud_not_clean | done]. by rewrite E1, E2.
Qed.

Lemma same_long_code c1 c2 : same_decoding c1 c2 -> cs_long_mode c1 = cs_long_mode c2.
Proof. intros [[= _ H2 _] _]. exact H2. Qed.
Lemma same_rex_w c1 c2 : same_decoding c1 c2 -> c_rex_w c1 = c_rex_w c2.
Proof. intros [_ Hp]. by injection Hp. Qed.
Lemma same_narrow_address c1 c2 : same_decoding c1 c2 -> c_address_size_override c1 = c_address_size_override c2.
Proof. intros [_ Hp]. by injection Hp. Qed.

Lemma sticky_implied size code inst offset lock : sticky (implied_operands size code inst offset lock).
Proof. unfold implied_operands. sticky_steps. Qed.
Lemma sticky_movsxd code inst offset lock : sticky (movsxd_operands code inst offset lock).
Proof. unfold movsxd_operands. sticky_steps. Qed.
Lemma sticky_extend word code inst offset lock : sticky (extend_operands word code inst offset lock).
Proof. unfold extend_operands. sticky_steps. Qed.
#[export] Hint Resolve sticky_implied sticky_movsxd sticky_extend : sticky.

Lemma uniform_extend word code inst offset lock : uniform (extend_operands word code inst offset lock).
Proof. unfold extend_operands. apply uniform_ud_plain; [auto with sticky | apply uniform_modrm_operands]. Qed.

Lemma uniform_movsxd code inst offset lock : uniform (movsxd_operands code inst offset lock).
Proof.
  unfold movsxd_operands. refine (uniform_gets zero_inst cs_long_mode (fun _ long => _) same_long_code _). intros long.
  apply uniform_ud_plain; [sticky_steps |].
  refine (uniform_gets zero_inst (fun ctx => negb (c_rex_w ctx) || c_operand_size_override ctx) (fun _ narrow => _) _ _).
  { intros c1 c2 Hs. by rewrite (same_rex_w c1 c2 Hs), (same_narrow c1 c2 Hs). }
  intros narrow. apply uniform_ud_plain; [sticky_steps |].
  refine (uniform_gets zero_inst c_address_size_override (fun _ address => _) same_narrow_address _). intros address. apply uniform_modrm_operands.
Qed.

Lemma uniform_implied size code inst offset lock :
  (forall c1 c2, same_decoding c1 c2 -> size c1 = size c2) -> i_has_modrm inst = false -> uniform (implied_operands size code inst offset lock).
Proof.
  intros Hs Hm. unfold implied_operands. apply uniform_ud_plain; [sticky_steps |].
  refine (uniform_gets zero_inst size (fun _ n => _) Hs _). intros n. apply uniform_with_inst_size; [sticky_steps |]. by apply uniform_here.
Qed.

Lemma same_cbw_size c1 c2 : same_decoding c1 c2 -> decode_cbw_operand_size c1 = decode_cbw_operand_size c2.
Proof. intros Hs. unfold decode_cbw_operand_size. by rewrite (same_long_code c1 c2 Hs), (same_rex_w c1 c2 Hs), (same_narrow c1 c2 Hs). Qed.
Lemma same_bswap_size c1 c2 : same_decoding c1 c2 -> decode_bswap_operand_size c1 = decode_bswap_operand_size c2.
Proof. intros Hs. unfold decode_bswap_operand_size. by rewrite (same_rex_w c1 c2 Hs). Qed.

#[export] Instance movzx_replayable : Replayable movzx_rules.
Proof. split; intros; cbn; [apply two_byte_stage | auto with sticky | apply uniform_extend]. Qed.
#[export] Instance movsx_replayable : Replayable movsx_rules.
Proof. split; intros; cbn; [apply two_byte_stage | auto with sticky | apply uniform_extend]. Qed.
#[export] Instance movsxd_replayable : Replayable movsxd_rules.
Proof. split; intros; cbn; [apply ret_stage | auto with sticky | apply uniform_movsxd]. Qed.
#[export] Instance cmovcc_replayable : Replayable cmovcc_rules.
Proof.
  split; intros; cbn; [apply two_byte_stage | unfold cmovcc_operands; auto with sticky |].
  apply uniform_with_inst_size; [auto with sticky | apply uniform_modrm_operands].
Qed.
#[export] Instance setcc_replayable : Replayable setcc_rules.
Proof.
  split; intros; cbn; [apply two_byte_stage | unfold setcc_operands; auto with sticky |].
  apply uniform_with_inst_size; [auto with sticky | apply uniform_modrm_operands].
Qed.
#[export] Instance bswap_replayable : Replayable bswap_rules.
Proof. split; intros; cbn; [apply two_byte_stage | auto with sticky | apply uniform_implied; [apply same_bswap_size | done]]. Qed.
#[export] Instance cbw_replayable : Replayable cbw_rules.
Proof. split; intros; cbn; [apply ret_stage | auto with sticky | apply uniform_implied; [apply same_cbw_size | done]]. Qed.
#[export] Instance cdq_replayable : Replayable cdq_rules.
Proof. split; intros; cbn; [apply ret_stage | auto with sticky | apply uniform_implied; [apply same_cbw_size | done]]. Qed.

(** ** [movsx ecx, sp] with RSP = 0x8004, and [lea rax, [rip - 16]] *)

Module MoveExample.
Import Bump EngineExample MemoryExample StackExample.

Definition movsx_sp : DecodedInstruction := set_i_modrm 0xCC (set_i_opcode 0xBF zero_inst).

Lemma move_instructions_correct_witness :
  en_context (final (execute_move 0 MOVSX movsx_sp) (stacked 0x8004)) = set_reg 32 REG_RCX 0xFFFF8004 (en_context (stacked 0x8004)).
Proof.
  assert (Hv : in_word 64 0x8004) by zcompute. assert (Hm : in_word 64 (i_mem_address movsx_sp)) by zcompute.
  assert (Hplan : move_plan_of MOVSX movsx_sp (en_context (stacked 0x8004)) = Some (mkPlan 16 (Reg 4) (sign_extended 16 32) 32 (Reg REG_RCX))) by reflexivity.
  pose proof (move_instructions_correct 0 movsx_sp (stacked 0x8004) (stacked_ready _) (stacked_regs _ Hv) Hm MOVSX _ Hplan) as H.
  unfold move_outcome in H. cbn [mp_src_width mp_src mp_value mp_dst_width mp_dst operand_fault result_in] in H.
  apply track_context in H. rewrite H. reflexivity.
Defined.

Lemma lea_address_is_architectural_witness :
  calculate_lea_address 0x05 false 0 (-16) 64 0x1007 RegisterExample.ctx = (0xFF7, RegisterExample.ctx).
Proof.
  assert (Hs : is_byte 0) by zcompute. assert (Hd : is_disp (-16)) by (split; [discriminate | reflexivity]).
  assert (Hmode : cs_long_mode RegisterExample.ctx = cpu_allows_rex_prefix RegisterExample.ctx) by (vm_compute; reflexivity).
  assert (Ha : address_size_ok RegisterExample.ctx 64) by (left; reflexivity). assert (H3 : modrm_mod 0x05 <> 3) by (vm_compute; discriminate).
  assert (Hr : ~ (cpu_allows_rex_prefix RegisterExample.ctx = true /\ 64 = 32 /\ rip_form 0x05 = true)) by (intros (_ & H & _); discriminate).
  pose proof (lea_address_is_architectural RegisterExample.ctx RegisterExample.ctx_regs 0x05 0 (-16) 64 0x1007 Hd Hs Hmode Ha H3 Hr) as H.
  assert (Hv : architectural_offset RegisterExample.ctx 0x05 0 (-16) 64 0x1007 = 0xFF7) by (vm_compute; reflexivity). rewrite Hv in H. exact H.
Defined.

End MoveExample.
