(* ===== verification/PushPop.v ===== *)
(** * instructions/push, pop, enter, leave, pushf, lahf, flags.hpp: the stack and the flags register

    PUSH and POP in all their forms, procedure frames, and the instructions that move or set flags.
    PUSH and POP give up at a LOCK prefix instead of decoding on, so that they have a decoder of
    their own around the parts of InstDecode.v; the others use that decoder.  POP, ENTER and LEAVE
    look at all the memory they need before they change anything.  The theorems: PUSH stores its
    operand or changes nothing, POP gets back what PUSH stored and moves the stack pointer only
    when nothing faults, and LEAVE undoes ENTER, at every nesting level. *)

From Stdlib Require Import ZArith Bool List Lia.
From stdpp Require Import base tactics list.
From S2P Require Import Prelude CpuDef Flags HostMemory RegionTable RegionSplit Patches PageCache InstCache Machine CpuMemory Registers DispatchHelpers WideMemory Stack Segments Alu Executor Decoder AluDecode InstDecode Operands Replay Control Move.

(** ** PUSH and POP: decoding *)

(** The prefix loop that ends at LOCK; true says it did. *)
Fixpoint unlocked_prefix_loop (code : list Z) (offset : Z) : ST CPU_CONTEXT (Z * bool) :=
  match code with
  | [] => st_ret (offset, false)
  | prefix :: code =>
      if prefix =? 0x66 then st_modify (set_c_operand_size_override true) ;;; unlocked_prefix_loop code (offset + 1)
      else if prefix =? 0x67 then st_modify (set_c_address_size_override true) ;;; unlocked_prefix_loop code (offset + 1)
      else
        let* rex := cpu_try_apply_rex_prefix prefix in
        if rex then unlocked_prefix_loop code (offset + 1)
        else if prefix =? 0xF0 then st_ret (offset, true)
        else if is_segment_prefix prefix || (prefix =? 0xF2) || (prefix =? 0xF3) then unlocked_prefix_loop code (offset + 1)
        else st_ret (offset, false)
  end.

(** Behind the prefixes the decoder is that of InstDecode.v. *)
Definition decode_unlocked (r : DecoderRules) (code : list Z) : ST CPU_CONTEXT DecodedInstruction :=
  st_modify cpu_reset_prefix_state ;;;
  let* (offset, lock) := unlocked_prefix_loop code 0 in
  if lock then st_modify raise_ud_ctx ;;; st_ret zero_inst else decode_opcode_tail r code offset false.

(** [if (cpu_is_64bit_code(ctx) && inst.operand_size == 32) inst.operand_size = 64]. *)
Definition widen_operand (inst : DecodedInstruction) : ST CPU_CONTEXT DecodedInstruction :=
  let* long := st_gets cpu_is_64bit_code in
  st_ret (if long && (i_operand_size inst =? 32) then set_i_operand_size 64 inst else inst).

(** A segment register behind 0F: [imm_size] marks that the opcode is the second byte. *)
Definition two_byte_segment (opcodes : list Z) (code : list Z) (inst : DecodedInstruction) (offset : Z) : ST CPU_CONTEXT (DecodedInstruction * Z * bool) :=
  if size_of code <=? offset then st_modify (raise_gp_ctx 0) ;;; st_ret (inst, offset, false)
  else
    let inst := set_i_opcode (byte_at code offset) inst in
    ud_if (negb (one_of (i_opcode inst) opcodes)) ;;;
    st_ret (set_i_imm_size 0x0F (set_i_has_modrm false inst), offset + 1, true).

Definition push_operands (code : list Z) (inst : DecodedInstruction) (offset : Z) (lock : bool) : ST CPU_CONTEXT (DecodedInstruction * Z * bool) :=
  let* size := st_gets branch_operand_size in
  let inst := set_i_operand_size size inst in
  let opcode := i_opcode inst in
  if opcode =? 0xFF then
    let* (inst, offset) := decode_modrm_by LockIgnored code inst offset false in
    ud_if (negb (modrm_digit inst =? 6)) ;;;
    let* inst := widen_operand inst in st_ret (inst, offset, true)
  else if between 0x50 0x57 opcode then let* inst := widen_operand inst in st_ret (inst, offset, true)
  else if opcode =? 0x6A then decode_alu_immediate code inst offset 1
  else if opcode =? 0x68 then
    let* narrow := st_gets c_operand_size_override in decode_alu_immediate code inst offset (if narrow then 2 else 4)
  else if one_of opcode [0x0E; 0x16; 0x1E; 0x06] then
    let* long := st_gets cpu_is_64bit_code in ud_if long ;;; st_ret (inst, offset, true)
  else if opcode =? 0x0F then two_byte_segment [0xA0; 0xA8] code inst offset
  else st_modify raise_ud_ctx ;;; st_ret (inst, offset, true).

(** The address of POP's operand is computed when it is executed. *)
Definition decode_modrm_pop (code : list Z) (inst : DecodedInstruction) (offset : Z) : ST CPU_CONTEXT (DecodedInstruction * Z) :=
  if size_of code <=? offset then st_modify (raise_gp_ctx 0) ;;; st_ret (inst, offset)
  else
    let inst := set_i_modrm (byte_at code offset) (set_i_has_modrm true inst) in
    let offset := offset + 1 in
    let mod_ := modrm_mod (i_modrm inst) in
    let rm := modrm_rm (i_modrm inst) in
    let wants_sib := negb (mod_ =? 3) && (rm =? 4) && negb (i_address_size inst =? 16) in
    if wants_sib && (size_of code <=? offset) then st_modify (raise_gp_ctx 0) ;;; st_ret (inst, offset)
    else
      let '(inst, offset) :=
        if wants_sib then (set_i_sib (byte_at code offset) (set_i_has_sib true inst), offset + 1) else (inst, offset) in
      let disp_size := disp_size_of inst mod_ rm in
      let inst := set_i_disp_size disp_size inst in
      if (0 <? disp_size) && (size_of code <? offset + disp_size) then st_modify (raise_gp_ctx 0) ;;; st_ret (inst, offset)
      else
        st_ret (if 0 <? disp_size then (set_i_displacement (displacement_value code offset disp_size) inst, offset + disp_size) else (inst, offset)).

Definition pop_operands (code : list Z) (inst : DecodedInstruction) (offset : Z) (lock : bool) : ST CPU_CONTEXT (DecodedInstruction * Z * bool) :=
  let* size := st_gets branch_operand_size in
  let inst := set_i_operand_size size inst in
  let opcode := i_opcode inst in
  if opcode =? 0x8F then
    let* (inst, offset) := decode_modrm_pop code inst offset in
    ud_if (negb (modrm_digit inst =? 0)) ;;;
    let* inst := widen_operand inst in st_ret (inst, offset, true)
  else if between 0x58 0x5F opcode then let* inst := widen_operand inst in st_ret (inst, offset, true)
  else if one_of opcode [0x1F; 0x07; 0x17] then
    let* long := st_gets cpu_is_64bit_code in ud_if long ;;; st_ret (inst, offset, true)
  else if opcode =? 0x0F then two_byte_segment [0xA1; 0xA9] code inst offset
  else st_modify raise_ud_ctx ;;; st_ret (inst, offset, true).

Definition push_rules : DecoderRules := mkRules true true false true one_byte_opcode push_operands.
Definition pop_rules : DecoderRules := mkRules true true false true one_byte_opcode pop_operands.
Definition decode_modrm_push := decode_modrm_by LockIgnored.
Definition decode_push_instruction := decode_unlocked push_rules.
Definition decode_pop_instruction := decode_unlocked pop_rules.

(** ** Frames and flags: decoding *)

Definition decode_leave_operand_size (ctx : CPU_CONTEXT) : Z :=
  if cpu_is_64bit_code ctx then (if c_operand_size_override ctx then 16 else 64) else if c_operand_size_override ctx then 16 else 32.
Definition decode_enter_operand_size := decode_leave_operand_size.
Definition decode_pushf_operand_size := decode_leave_operand_size.

(** An address-size prefix changes the size of the stack pointer. *)
Definition decode_leave_stack_addr_size (ctx : CPU_CONTEXT) : Z :=
  if cpu_is_64bit_code ctx then (if c_address_size_override ctx then 32 else 64)
  else
    let default_size := if sd_db (seg_descriptor (c_ss ctx)) then 32 else 16 in
    if c_address_size_override ctx then (if default_size =? 32 then 16 else 32) else default_size.
Definition decode_enter_stack_addr_size := decode_leave_stack_addr_size.

(** [inst.operand_size] and [inst.address_size] from the context, no operands. *)
Definition sized_operands (operand_size address_size : CPU_CONTEXT -> Z) (code : list Z) (inst : DecodedInstruction) (offset : Z) (lock : bool)
  : ST CPU_CONTEXT (DecodedInstruction * Z * bool) :=
  ud_if lock ;;;
  let* operand := st_gets operand_size in
  let* address := st_gets address_size in
  with_inst_size (st_ret (set_i_address_size address (set_i_operand_size operand inst), offset, true)).

(** Two bytes of frame size and one of nesting level. *)
Definition enter_operands (code : list Z) (inst : DecodedInstruction) (offset : Z) (lock : bool) : ST CPU_CONTEXT (DecodedInstruction * Z * bool) :=
  ud_if lock ;;;
  if size_of code <? offset + 3 then st_modify (raise_gp_ctx 0) ;;; st_ret (inst, offset, false)
  else
    sized_operands decode_enter_operand_size decode_enter_stack_addr_size code
      (set_i_imm_size 3 (set_i_immediate (field_value code offset 3) inst)) (offset + 3) false.

(** LAHF and SAHF in 64-bit code are an optional feature of the host. *)
Definition lahf_operands (has_lahf_sahf : bool) (code : list Z) (inst : DecodedInstruction) (offset : Z) (lock : bool) : ST CPU_CONTEXT (DecodedInstruction * Z * bool) :=
  ud_if lock ;;;
  let* long := st_gets cpu_is_64bit_code in
  ud_if (long && negb has_lahf_sahf) ;;;
  with_inst_size (st_ret (set_i_address_size 0 (set_i_operand_size 0 inst), offset, true)).

Definition leave_rules : DecoderRules :=
  mkRules true false false true (ret_opcode [0xC9]) (sized_operands decode_leave_operand_size decode_leave_stack_addr_size).
Definition enter_rules : DecoderRules := mkRules true false false true (ret_opcode [0xC8]) enter_operands.
Definition pushf_rules : DecoderRules :=
  mkRules true false false true (ret_opcode [0x9C; 0x9D]) (sized_operands decode_pushf_operand_size get_stack_addr_size).
Definition lahf_rules (has_lahf_sahf : bool) : DecoderRules := mkRules false false false false (ret_opcode [0x9E; 0x9F]) (lahf_operands has_lahf_sahf).
Definition flags_rules : DecoderRules :=
  mkRules false false false false (ret_opcode [0xF5; 0xF8; 0xF9; 0xFC; 0xFD]) (implied_operands (fun _ => 0)).

Definition decode_leave_instruction := decode_by leave_rules.
Definition decode_enter_instruction := decode_by enter_rules.
Definition decode_pushf_instruction := decode_by pushf_rules.
Definition decode_lahf_instruction (has_lahf_sahf : bool) := decode_by (lahf_rules has_lahf_sahf).
Definition decode_flags_instruction := decode_by flags_rules.

(** ** PUSH *)

Section execute.
Context `{Callbacks}.
Variable dummy_selector : Z.

(** [push_value16], [push_value32] or [push_value64]. *)
Definition push_sized (operand_size value : Z) : ST cpueaxh_engine unit :=
  if operand_size =? 64 then push_value64 value else if operand_size =? 16 then push_value16 value else push_value32 value.
Definition stack_width (operand_size : Z) : Z := if operand_size =? 64 then 64 else if operand_size =? 16 then 16 else 32.

Definition push_rm (operand_size modrm mem_addr : Z) : ST cpueaxh_engine unit :=
  let w := stack_width operand_size in
  if modrm_mod modrm =? 3 then
    let* value := get_ctx (fun ctx => get_reg w ctx (rm_index modrm ctx)) in push_sized operand_size value
  else
    let* value := read_memory_operand mem_addr w in
    let* faulted := get_ctx cpu_has_exception in
    if faulted then st_ret tt else push_sized operand_size value.

Definition push_r (operand_size reg : Z) : ST cpueaxh_engine unit :=
  let* value := get_ctx (fun ctx => get_reg (stack_width operand_size) ctx reg) in push_sized operand_size value.

(** [(int8_t)] extended, and [(uint16_t)], [(int32_t)] extended or [(uint32_t)]. *)
Definition push_imm8 (operand_size imm : Z) : ST cpueaxh_engine unit :=
  push_sized operand_size (wrap (stack_width operand_size) (sext 8 imm)).
Definition push_imm (operand_size imm : Z) : ST cpueaxh_engine unit := push_sized operand_size (wide_immediate (stack_width operand_size) imm).

Definition push_sreg (operand_size seg_index : Z) : ST cpueaxh_engine unit :=
  let* value := segment_selector dummy_selector seg_index in push_sized operand_size value.

(** FS and GS are pushed at 64 bits in 64-bit code; the other segments never are. *)
Definition segment_width (inst : DecodedInstruction) (ctx : CPU_CONTEXT) : Z :=
  if cpu_is_64bit_code ctx then (if c_operand_size_override ctx then 16 else 64) else if c_operand_size_override ctx then 16 else 32.
Definition narrow_segment_width (inst : DecodedInstruction) : Z := if i_operand_size inst =? 16 then 16 else 32.

Definition execute_push_with_decoded (inst : DecodedInstruction) : ST cpueaxh_engine unit :=
  let opcode := i_opcode inst in
  let size := i_operand_size inst in
  if i_imm_size inst =? 0x0F then
    let* w := get_ctx (segment_width inst) in push_sreg w (if opcode =? 0xA0 then SEG_FS else SEG_GS)
  else if opcode =? 0xFF then push_rm size (i_modrm inst) (i_mem_address inst)
  else if between 0x50 0x57 opcode then
    let* extend := get_ctx c_rex_b in push_r size (rex_extend extend (opcode - 0x50))
  else if opcode =? 0x6A then push_imm8 size (i_immediate inst)
  else if opcode =? 0x68 then push_imm size (i_immediate inst)
  else if opcode =? 0x0E then push_sreg (narrow_segment_width inst) SEG_CS
  else if opcode =? 0x16 then push_sreg (narrow_segment_width inst) SEG_SS
  else if opcode =? 0x1E then push_sreg (narrow_segment_width inst) SEG_DS
  else if opcode =? 0x06 then push_sreg (narrow_segment_width inst) SEG_ES
  else st_ret tt.

(** ** POP *)

Definition value_size (operand_size : Z) : Z := if operand_size =? 16 then 2 else if operand_size =? 32 then 4 else 8.

(** The value on top of the stack and the stack pointer behind it. *)
Definition pop_peek_stack_value (operand_size : Z) : ST cpueaxh_engine (option (Z * Z)) :=
  let* peeked := peek_stack_values (value_size operand_size) 1 in
  match peeked with Some (values, final_sp) => st_ret (Some (arr_get 0 values 0, final_sp)) | None => st_ret None end.

Definition pop_commit_stack_pointer (final_sp : Z) : ST cpueaxh_engine unit :=
  mod_ctx (fun ctx => cpu_set_stack_pointer_value (get_stack_addr_size ctx) final_sp ctx).

(** False when the destination faults; no byte of it is written then. *)
Definition pop_write_memory_value (mem_addr operand_size value : Z) : ST cpueaxh_engine bool :=
  let* ptrs := cpu_resolve_stack_slot_write mem_addr (value_size operand_size) value in
  match ptrs with
  | None => st_ret false
  | Some ptrs => cpu_commit_stack_slot_write mem_addr (value_size operand_size) value ptrs ;;; st_ret true
  end.

(** The address with the stack pointer already moved; the register is put back. *)
Definition pop_compute_memory_destination_after_stack_advance (modrm sib disp address_size final_sp : Z) : ST CPU_CONTEXT (option Z) :=
  let* saved_rsp := st_gets (fun ctx => reg_at ctx REG_RSP) in
  st_modify (fun ctx => cpu_set_stack_pointer_value (get_stack_addr_size ctx) final_sp ctx) ;;;
  let* mem_addr := get_effective_address modrm sib disp address_size 0 in
  st_modify (set_reg_at REG_RSP saved_rsp) ;;;
  let* faulted := st_gets cpu_has_exception in
  st_ret (if faulted then None else Some mem_addr).

Definition pop_rm (operand_size modrm sib disp address_size : Z) : ST cpueaxh_engine unit :=
  let* peeked := pop_peek_stack_value operand_size in
  match peeked with
  | None => st_ret tt
  | Some (raw_value, final_sp) =>
      let value := wrap operand_size raw_value in
      if modrm_mod modrm =? 3 then
        pop_commit_stack_pointer final_sp ;;; mod_ctx (fun ctx => set_reg operand_size (rm_index modrm ctx) value ctx)
      else
        let* address := on_ctx (pop_compute_memory_destination_after_stack_advance modrm sib disp address_size final_sp) in
        match address with
        | None => st_ret tt
        | Some mem_addr =>
            let* written := pop_write_memory_value mem_addr operand_size value in
            if negb written then st_ret tt else pop_commit_stack_pointer final_sp
        end
  end.

Definition pop_r (operand_size reg : Z) : ST cpueaxh_engine unit :=
  let* peeked := pop_peek_stack_value operand_size in
  match peeked with
  | None => st_ret tt
  | Some (raw_value, final_sp) => pop_commit_stack_pointer final_sp ;;; mod_ctx (set_reg operand_size reg (wrap operand_size raw_value))
  end.

Definition pop_sreg (operand_size seg_index : Z) : ST cpueaxh_engine unit :=
  let* peeked := pop_peek_stack_value operand_size in
  match peeked with
  | None => st_ret tt
  | Some (raw_value, final_sp) =>
      load_segment_register seg_index (u16 raw_value) ;;;
      let* faulted := get_ctx cpu_has_exception in
      if faulted then st_ret tt else pop_commit_stack_pointer final_sp
  end.

Definition execute_pop_with_decoded (inst : DecodedInstruction) : ST cpueaxh_engine unit :=
  let opcode := i_opcode inst in
  let size := stack_width (i_operand_size inst) in
  if i_imm_size inst =? 0x0F then
    let* w := get_ctx (segment_width inst) in pop_sreg w (if opcode =? 0xA1 then SEG_FS else SEG_GS)
  else if opcode =? 0x8F then pop_rm size (i_modrm inst) (i_sib inst) (i_displacement inst) (i_address_size inst)
  else if between 0x58 0x5F opcode then
    let* extend := get_ctx c_rex_b in pop_r size (rex_extend extend (opcode - 0x58))
  else if opcode =? 0x1F then pop_sreg (narrow_segment_width inst) SEG_DS
  else if opcode =? 0x07 then pop_sreg (narrow_segment_width inst) SEG_ES
  else if opcode =? 0x17 then pop_sreg (narrow_segment_width inst) SEG_SS
  else st_ret tt.

(** ** LEAVE *)

(** [leave_get_frame_pointer_value], [enter_get_frame_pointer_address_from_value]. *)
Definition frame_pointer_value (stack_addr_size rbp : Z) : Z :=
  if stack_addr_size =? 64 then rbp
  else if stack_addr_size =? 32 then u32 (Z.land rbp 0xFFFFFFFF) else u16 (Z.land rbp 0xFFFF).

Definition execute_leave_with_decoded (inst : DecodedInstruction) : ST cpueaxh_engine unit :=
  let address_size := i_address_size inst in
  let w := if i_operand_size inst =? 16 then 16 else if i_operand_size inst =? 32 then 32 else 64 in
  let* frame_sp := get_ctx (fun ctx => frame_pointer_value address_size (reg_at ctx REG_RBP)) in
  if (w =? 64) && (address_size =? 16) then mod_ctx (raise_gp_ctx 0)
  else
    let* value := read_memory_operand frame_sp w in
    let* faulted := get_ctx cpu_has_exception in
    if faulted then st_ret tt
    else
      mod_ctx (cpu_set_stack_pointer_value address_size (cpu_stack_pointer_add address_size frame_sp (w / 8))) ;;;
      mod_ctx (set_reg w REG_RBP value).

(** ** ENTER *)

(** RBP moved to the enclosing frame's next pointer. *)
Definition enter_sub_frame_pointer_value (rbp_value operand_size : Z) : Z :=
  if operand_size =? 16 then Z.lor (Z.ldiff rbp_value 0xFFFF) (u16 (u16 (Z.land rbp_value 0xFFFF) - 2))
  else if operand_size =? 32 then Z.lor (Z.ldiff rbp_value 0xFFFFFFFF) (u32 (u32 (Z.land rbp_value 0xFFFFFFFF) - 4))
  else u64 (rbp_value - 8).

Definition enter_sub_stack_pointer_value (stack_addr_size value delta : Z) : Z :=
  if stack_addr_size =? 64 then u64 (value - delta)
  else if stack_addr_size =? 32 then u32 (u32 value - u32 delta)
  else u16 (u16 value - u16 delta).

Definition enter_read_frame_value (operand_size stack_addr_size rbp_value : Z) : ST cpueaxh_engine Z :=
  let address := frame_pointer_value stack_addr_size rbp_value in
  if operand_size =? 16 then read_memory_word address
  else if operand_size =? 32 then read_memory_dword address
  else if stack_addr_size =? 16 then mod_ctx (raise_gp_ctx 0) ;;; st_ret 0
  else read_memory_qword address.

(** [for (level = 1; level < nesting_level; ++level)]: the addresses and values to be pushed and
    the stack pointer behind them; [None] once a frame pointer cannot be read. *)
Fixpoint enter_frames (levels : nat) (operand_size stack_addr_size size working_rbp current_sp : Z)
  : ST cpueaxh_engine (option (list (Z * Z) * Z)) :=
  match levels with
  | O => st_ret (Some ([], current_sp))
  | S levels =>
      let working_rbp := enter_sub_frame_pointer_value working_rbp operand_size in
      let* value := enter_read_frame_value operand_size stack_addr_size working_rbp in
      let* faulted := get_ctx cpu_has_exception in
      if faulted then st_ret None
      else
        let current_sp := enter_sub_stack_pointer_value stack_addr_size current_sp size in
        let* rest := enter_frames levels operand_size stack_addr_size size working_rbp current_sp in
        match rest with
        | None => st_ret None
        | Some (pushes, final_sp) => st_ret (Some ((current_sp, value) :: pushes, final_sp))
        end
  end.

(** The pointers to every byte of every slot, before the first is written. *)
Fixpoint enter_resolve (pushes : list (Z * Z)) (size : Z) : ST cpueaxh_engine (option (list (list Z))) :=
  match pushes with
  | [] => st_ret (Some [])
  | (address, value) :: pushes =>
      let* ptrs := cpu_resolve_stack_slot_write address size value in
      match ptrs with
      | None => st_ret None
      | Some ptrs =>
          let* rest := enter_resolve pushes size in
          match rest with None => st_ret None | Some rest => st_ret (Some (ptrs :: rest)) end
      end
  end.

Fixpoint enter_commit (pushes : list (Z * Z)) (ptrs : list (list Z)) (size : Z) : ST cpueaxh_engine unit :=
  match pushes, ptrs with
  | (address, value) :: pushes, p :: ptrs => cpu_commit_stack_slot_write address size value p ;;; enter_commit pushes ptrs size
  | _, _ => st_ret tt
  end.

Definition execute_enter_with_decoded (inst : DecodedInstruction) : ST cpueaxh_engine unit :=
  let address_size := i_address_size inst in
  let operand_size := i_operand_size inst in
  let alloc_size := Z.land (i_immediate inst) 0xFFFF in
  let nesting_level := Z.land (Z.shiftr (i_immediate inst) 16) 0x1F in
  let size := value_size operand_size in
  if (address_size =? 16) && (size =? 8) then mod_ctx (raise_gp_ctx 0)
  else
    let w := if operand_size =? 16 then 16 else if operand_size =? 32 then 32 else 64 in
    let* sp := get_ctx (cpu_get_stack_pointer_value address_size) in
    let* rbp := get_ctx (fun ctx => reg_at ctx REG_RBP) in
    let* rbp_value := get_ctx (fun ctx => get_reg w ctx REG_RBP) in
    let frame_temp := enter_sub_stack_pointer_value address_size sp size in
    let* frames := enter_frames (Z.to_nat (nesting_level - 1)) operand_size address_size size rbp frame_temp in
    match frames with
    | None => st_ret tt
    | Some (frames, current_sp) =>
        let top := enter_sub_stack_pointer_value address_size current_sp size in
        let '(display, current_sp) := if 0 <? nesting_level then ([(top, frame_temp)], top) else ([], current_sp) in
        let pushes := (frame_temp, rbp_value) :: frames ++ display in
        let* ptrs := enter_resolve pushes size in
        match ptrs with
        | None => st_ret tt
        | Some ptrs =>
            enter_commit pushes ptrs size ;;;
            mod_ctx (set_reg w REG_RBP (wrap w frame_temp)) ;;;
            mod_ctx (cpu_set_stack_pointer_value address_size (enter_sub_stack_pointer_value address_size current_sp alloc_size))
        end
    end.

(** ** PUSHF, POPF, LAHF, SAHF and the single flags *)

Definition PUSHF_RF_BIT : Z := Z.shiftl 1 16.
Definition PUSHF_VM_BIT : Z := Z.shiftl 1 17.
Definition PUSHF_IF_BIT : Z := Z.shiftl 1 9.
Definition PUSHF_IOPL_MASK : Z := Z.shiftl 3 12.
Definition PUSHF_VIF_BIT : Z := Z.shiftl 1 19.
Definition PUSHF_VIP_BIT : Z := Z.shiftl 1 20.
Definition PUSHF_LOW16_WRITABLE_MASK : Z := 0x7FD5.
Definition PUSHF_EXTENDED_WRITABLE_MASK : Z := 0x247FD5.

Definition one_of_three (operand_size : Z) : bool := one_of operand_size [16; 32; 64].

Definition get_pushf_image (operand_size : Z) : ST cpueaxh_engine Z :=
  let* flags := get_ctx (fun ctx => Z.ldiff (c_rflags ctx) (Z.lor PUSHF_RF_BIT PUSHF_VM_BIT)) in
  if one_of_three operand_size then st_ret (if operand_size =? 64 then flags else wrap operand_size flags)
  else mod_ctx raise_ud_ctx ;;; st_ret 0.

Definition pushf_value (operand_size value : Z) : ST cpueaxh_engine unit :=
  if one_of_three operand_size then push_sized operand_size value else mod_ctx raise_ud_ctx.
Definition popf_value (operand_size : Z) : ST cpueaxh_engine Z :=
  if operand_size =? 16 then pop_value16 else if operand_size =? 32 then pop_value32 else if operand_size =? 64 then pop_value64
  else mod_ctx raise_ud_ctx ;;; st_ret 0.

(** The bits POPF may change at this privilege. *)
Definition popf_writable_mask (operand_size : Z) (ctx : CPU_CONTEXT) : Z :=
  let writable_mask := if operand_size =? 16 then PUSHF_LOW16_WRITABLE_MASK else PUSHF_EXTENDED_WRITABLE_MASK in
  let protected_mode := has_bits (arr_get 0 (c_control_regs ctx) 0) 1 in
  let iopl := Z.land (Z.shiftr (c_rflags ctx) 12) 0x3 in
  let writable_mask :=
    if protected_mode && negb (c_cpl ctx =? 0) then
      let writable_mask := Z.ldiff writable_mask PUSHF_IOPL_MASK in
      if iopl <? c_cpl ctx then Z.ldiff writable_mask PUSHF_IF_BIT else writable_mask
    else writable_mask in
  Z.ldiff writable_mask (Z.lor (Z.lor (Z.lor PUSHF_RF_BIT PUSHF_VM_BIT) PUSHF_VIF_BIT) PUSHF_VIP_BIT).

Definition write_popf_flags (operand_size value : Z) (ctx : CPU_CONTEXT) : CPU_CONTEXT :=
  let mask := popf_writable_mask operand_size ctx in
  let ctx :=
    if one_of_three operand_size then set_c_rflags (Z.lor (Z.ldiff (c_rflags ctx) mask) (Z.land value mask)) ctx else raise_ud_ctx ctx in
  set_c_rflags (Z.ldiff (c_rflags ctx) PUSHF_RF_BIT) ctx.

Definition execute_pushf_with_decoded (inst : DecodedInstruction) : ST cpueaxh_engine unit :=
  let size := i_operand_size inst in
  if i_opcode inst =? 0x9C then let* image := get_pushf_image size in pushf_value size image
  else
    let* value := popf_value size in
    let* faulted := get_ctx cpu_has_exception in
    if faulted then st_ret tt else mod_ctx (write_popf_flags size value).

Definition get_ah (ctx : CPU_CONTEXT) : Z := Z.land (Z.shiftr (reg_at ctx REG_RAX) 8) 0xFF.
Definition set_ah (value : Z) (ctx : CPU_CONTEXT) : CPU_CONTEXT :=
  set_reg_at REG_RAX (Z.lor (Z.ldiff (reg_at ctx REG_RAX) 0xFF00) (Z.shiftl value 8)) ctx.

Definition make_lahf_value (ctx : CPU_CONTEXT) : Z :=
  let bit flag v := if has_bits (c_rflags ctx) flag then v else 0 in
  Z.lor (Z.lor (Z.lor (Z.lor (Z.lor 0x02 (bit RFLAGS_CF 0x01)) (bit RFLAGS_PF 0x04)) (bit RFLAGS_AF 0x10)) (bit RFLAGS_ZF 0x40)) (bit RFLAGS_SF 0x80).
Definition apply_sahf_value (value : Z) (ctx : CPU_CONTEXT) : CPU_CONTEXT :=
  set_flag RFLAGS_SF (has_bits value 0x80) (set_flag RFLAGS_ZF (has_bits value 0x40) (set_flag RFLAGS_AF (has_bits value 0x10)
    (set_flag RFLAGS_PF (has_bits value 0x04) (set_flag RFLAGS_CF (has_bits value 0x01) ctx)))).

Definition execute_lahf_with_decoded (inst : DecodedInstruction) : ST cpueaxh_engine unit :=
  if i_opcode inst =? 0x9F then mod_ctx (fun ctx => set_ah (make_lahf_value ctx) ctx)
  else mod_ctx (fun ctx => apply_sahf_value (get_ah ctx) ctx).

Definition execute_flags_with_decoded (inst : DecodedInstruction) : ST cpueaxh_engine unit :=
  let opcode := i_opcode inst in
  if opcode =? 0xF5 then mod_ctx (fun ctx => set_flag RFLAGS_CF (negb (has_bits (c_rflags ctx) RFLAGS_CF)) ctx)
  else if opcode =? 0xF8 then mod_ctx (set_flag RFLAGS_CF false)
  else if opcode =? 0xF9 then mod_ctx (set_flag RFLAGS_CF true)
  else if opcode =? 0xFC then mod_ctx (set_flag RFLAGS_DF false)
  else if opcode =? 0xFD then mod_ctx (set_flag RFLAGS_DF true)
  else mod_ctx raise_ud_ctx.

Definition execute_push := execute_decoded decode_push_instruction execute_push_with_decoded.
Definition execute_pop := execute_decoded decode_pop_instruction execute_pop_with_decoded.
Definition execute_leave := execute_decoded decode_leave_instruction execute_leave_with_decoded.
Definition execute_enter := execute_decoded decode_enter_instruction execute_enter_with_decoded.
Definition execute_pushf := execute_decoded decode_pushf_instruction execute_pushf_with_decoded.
Definition execute_lahf (has_lahf_sahf : bool) := execute_decoded (decode_lahf_instruction has_lahf_sahf) execute_lahf_with_decoded.
Definition execute_flags := execute_decoded decode_flags_instruction execute_flags_with_decoded.

Definition execute_push_fast := execute_as_cached execute_push_with_decoded.
Definition execute_pop_fast := execute_as_cached execute_pop_with_decoded.
Definition execute_leave_fast := execute_as_cached execute_leave_with_decoded.
Definition execute_enter_fast := execute_as_cached execute_enter_with_decoded.
Definition execute_pushf_fast := execute_as_cached execute_pushf_with_decoded.
Definition execute_lahf_fast := execute_as_cached execute_lahf_with_decoded.
Definition execute_flags_fast := execute_as_cached execute_flags_with_decoded.

End execute.

(** ** What PUSH does *)

(** The width and the operand of a form. *)
Definition selector_operand (ctx : CPU_CONTEXT) (seg_index : Z) : operand :=
  Imm (match cpu_segment ctx seg_index with Some seg => seg_selector seg | None => 0 end).

Definition push_plan (inst : DecodedInstruction) (ctx : CPU_CONTEXT) : option (Z * operand) :=
  let opcode := i_opcode inst in
  let w := stack_width (i_operand_size inst) in
  let narrow := narrow_segment_width inst in
  if i_imm_size inst =? 0x0F then Some (segment_width inst ctx, selector_operand ctx (if opcode =? 0xA0 then SEG_FS else SEG_GS))
  else if opcode =? 0xFF then Some (w, rm_operand (i_modrm inst) (i_mem_address inst) ctx)
  else if between 0x50 0x57 opcode then Some (w, Reg (rex_extend (c_rex_b ctx) (opcode - 0x50)))
  else if opcode =? 0x6A then Some (w, Imm (wrap w (sext 8 (i_immediate inst))))
  else if opcode =? 0x68 then Some (w, Imm (wide_immediate w (i_immediate inst)))
  else if opcode =? 0x0E then Some (narrow, selector_operand ctx SEG_CS)
  else if opcode =? 0x16 then Some (narrow, selector_operand ctx SEG_SS)
  else if opcode =? 0x1E then Some (narrow, selector_operand ctx SEG_DS)
  else if opcode =? 0x06 then Some (narrow, selector_operand ctx SEG_ES)
  else None.

Definition push_width (w : Z) : Prop := w = 16 \/ w = 32 \/ w = 64.

Section push.
Context `{Callbacks}.

(** The value below the stack pointer, which is moved there; or the fault of the slot. *)
Definition pushed_outcome (e : cpueaxh_engine) (w value : Z) (e' : cpueaxh_engine) : Prop :=
  let slot := stack_at e (- (w / 8)) in
  match first_fault e slot (w / 8) MM_PROT_WRITE with
  | Some (ad, v) => faults e v ad MM_PROT_WRITE e'
  | None => exists e1, stored e (hosts_of e slot (w / 8)) (push_of_width w value) e1 /\ e' = with_sp e (- (w / 8)) e1
  end.

Definition push_outcome (e : cpueaxh_engine) (w : Z) (src : operand) (e' : cpueaxh_engine) : Prop :=
  match operand_fault e w MM_PROT_READ src with
  | Some (ad, v) => abandoned e MM_PROT_READ v ad e'
  | None => pushed_outcome e w (operand_value e w src) e'
  end.

Variable e : cpueaxh_engine.
Hypotheses (Hr : cpu_ready e) (Hwf : regs_wf (en_context e)).

Lemma same_stack e1 k : same_cpu e e1 -> stack_size e1 = stack_size e /\ stack_at e1 k = stack_at e k.
Proof. intros Hs. unfold stack_at, stack_top, stack_size. by rewrite (same_cpu_context _ _ Hs). Qed.

(** The push itself, from an engine that differs in the page cache at most. *)
Lemma push_sized_outcome e1 w value : push_width w -> slot_ok e (w / 8) -> same_cpu e e1 -> pushed_outcome e w value (final (push_sized w value) e1).
Proof.
  intros Hw Hn Hs. destruct (same_stack e1 (- (w / 8)) Hs) as [Hsz Hat].
  assert (Hn1 : slot_ok e1 (w / 8)) by (unfold slot_ok; by rewrite Hsz).
  assert (Hwf1 : regs_wf (en_context e1)) by (by rewrite (same_cpu_context _ _ Hs)).
  pose proof (push_spec e1 (w / 8) (push_of_width w value) (same_cpu_ready _ _ Hs Hr) Hwf1 Hn1) as Hp.
  assert (Hrun : push_sized w value = push_value (w / 8) (push_of_width w value)) by (by destruct Hw as [-> | [-> | ->]]). rewrite Hrun.
  unfold pushed_outcome. cbv zeta. rewrite Hat in Hp. unfold first_fault in *. rewrite (first_fault_same _ _ _ _ _ Hs) in Hp.
  destruct (first_fault_in e _ _ MM_PROT_WRITE) as [[ad v] |]; [by eapply faults_trans |].
  destruct Hp as (e2 & Hst & ->). rewrite (same_cpu_hosts _ _ _ _ Hs) in Hst. exists e2. split; [by eapply same_cpu_stored |].
  unfold with_sp. by rewrite Hsz, Hat, (same_cpu_context _ _ Hs).
Qed.

Lemma push_here w value : push_width w -> slot_ok e (w / 8) -> pushed_outcome e w value (final (push_sized w value) e).
Proof. intros Hw Hn. apply push_sized_outcome; [done.. |]. apply same_cpu_refl, Hr. Qed.

Lemma stack_width_ok size : push_width (stack_width size).
Proof. unfold push_width, stack_width. destruct (size =? 64), (size =? 16); auto. Qed.
Lemma segment_width_ok inst ctx : push_width (segment_width inst ctx).
Proof. unfold push_width, segment_width. destruct (cpu_is_64bit_code ctx), (c_operand_size_override ctx); auto. Qed.
Lemma narrow_width_ok inst : push_width (narrow_segment_width inst).
Proof. unfold push_width, narrow_segment_width. destruct (_ =? 16); auto. Qed.
Lemma push_width_reg w : push_width w -> reg_width w.
Proof. unfold push_width, reg_width. tauto. Qed.

Lemma push_stack_width size value : push_sized size value = push_sized (stack_width size) value.
Proof. unfold push_sized, stack_width. destruct (size =? 64); [done |]. by destruct (size =? 16). Qed.

Lemma push_rm_outcome size modrm mem :
  in_word 64 mem -> slot_ok e (stack_width size / 8) ->
  push_outcome e (stack_width size) (rm_operand modrm mem (en_context e)) (final (push_rm size modrm mem) e).
Proof.
  intros Hm Hn. pose proof (stack_width_ok size) as Hw. unfold push_rm, push_outcome, rm_operand. cbv zeta. set (w := stack_width size) in *.
  destruct (modrm_mod modrm =? 3) eqn:E3; cbn [operand_fault operand_value].
  - unfold final. rewrite get_ctx_step. rewrite push_stack_width. by apply push_here.
  - pose proof (read_at_spec e e w (Mem mem) Hr (same_cpu_refl _ (proj1 Hr)) (push_width_reg w Hw) Hm) as (e1 & Hs). cbn [operand_fault operand_value read_at] in Hs.
    unfold final. destruct (first_fault e mem (w / 8) MM_PROT_READ) as [[ad v] |] eqn:Ef.
    + destruct Hs as (Hv & Hf & Hrd). rewrite (bind_run _ _ _ _ _ Hrd). pose proof (faults_abandoned _ _ _ _ _ Hv Hf) as Ha.
      rewrite (bind_run (get_ctx cpu_has_exception) _ e1 _ e1 eq_refl). pose proof Ha as (_ & _ & -> & _). exact Ha.
    + destruct Hs as (Hs & Hrd). rewrite (bind_run _ _ _ _ _ Hrd), (bind_run (get_ctx cpu_has_exception) _ e1 _ e1 eq_refl), (same_cpu_context _ _ Hs).
      destruct Hr as (_ & _ & ->). rewrite push_stack_width. by apply push_sized_outcome.
Qed.

Lemma push_sreg_outcome dummy w index : push_width w -> slot_ok e (w / 8) ->
  one_of index [SEG_ES; SEG_CS; SEG_SS; SEG_DS; SEG_FS; SEG_GS] = true ->
  push_outcome e w (selector_operand (en_context e) index) (final (push_sreg dummy w index) e).
Proof.
  intros Hw Hn Hi. assert (Hrun : push_sreg dummy w index e =
    push_sized w (match cpu_segment (en_context e) index with Some seg => seg_selector seg | None => 0 end) e).
  { unfold one_of in Hi. cbn [existsb] in Hi. rewrite !orb_true_iff, !Z.eqb_eq in Hi. by repeat destruct Hi as [-> | Hi]. }
  unfold final, push_outcome. rewrite Hrun. cbn [selector_operand operand_fault operand_value]. by apply push_here.
Qed.

(** PUSH stores its operand or changes nothing that shows.  For every form of PUSH, a register,
    memory, an immediate or a segment selector, at every operand size the mode has a slot for: when
    a memory operand cannot be read its page fault is pending and memory is as it was; otherwise
    the operand's value, extended to the operand size, is stored just below the stack pointer,
    wherever the operand lies and wrapping around at the stack's address size, and the stack
    pointer is moved there, or a byte of the slot is not writable, its fault is pending and
    registers and memory are as they were.  PUSH of the stack pointer stores its old value. *)
Theorem push_instructions_correct dummy_selector inst w src
  (Hm : in_word 64 (i_mem_address inst)) (Hplan : push_plan inst (en_context e) = Some (w, src)) (Hslot : slot_ok e (w / 8)) :
  push_outcome e w src (final (execute_push_with_decoded dummy_selector inst) e).
Proof.
  unfold push_plan in Hplan. cbv zeta in Hplan. unfold execute_push_with_decoded. cbv zeta.
  destruct (i_imm_size inst =? 0x0F) eqn:Ei.
  { injection Hplan as <- <-. unfold final. rewrite get_ctx_step. apply push_sreg_outcome; [apply segment_width_ok | done | by destruct (i_opcode inst =? 0xA0)]. }
  opcode_cases Hplan; injection Hplan as <- <-; choose_opcode; try (apply push_sreg_outcome; [apply narrow_width_ok | done | done]).
  - by apply push_rm_outcome.
  - unfold final. rewrite get_ctx_step. unfold push_r. rewrite get_ctx_step, push_stack_width. apply (push_here (stack_width _)); [apply stack_width_ok | done].
  - unfold push_imm8. rewrite push_stack_width. apply (push_here (stack_width _)); [apply stack_width_ok | done].
  - unfold push_imm. rewrite push_stack_width. apply (push_here (stack_width _)); [apply stack_width_ok | done].
Qed.

End push.

(** ** What POP does *)

Inductive pop_destination := PopReg (reg : Z) | PopMem | PopSeg (seg_index : Z).

Definition pop_plan (inst : DecodedInstruction) (ctx : CPU_CONTEXT) : option (Z * pop_destination) :=
  let opcode := i_opcode inst in
  let w := stack_width (i_operand_size inst) in
  let narrow := narrow_segment_width inst in
  if i_imm_size inst =? 0x0F then Some (segment_width inst ctx, PopSeg (if opcode =? 0xA1 then SEG_FS else SEG_GS))
  else if opcode =? 0x8F then Some (w, if modrm_mod (i_modrm inst) =? 3 then PopReg (rm_index (i_modrm inst) ctx) else PopMem)
  else if between 0x58 0x5F opcode then Some (w, PopReg (rex_extend (c_rex_b ctx) (opcode - 0x58)))
  else if opcode =? 0x1F then Some (narrow, PopSeg SEG_DS)
  else if opcode =? 0x07 then Some (narrow, PopSeg SEG_ES)
  else if opcode =? 0x17 then Some (narrow, PopSeg SEG_SS)
  else None.

(** The segment load, and then the stack pointer moved at the stack size it leaves. *)
Definition popped_segment (e : cpueaxh_engine) (w seg_index : Z) (e' : cpueaxh_engine) : Prop :=
  let selector := u16 (guest_value e (stack_top e) (w / 8)) in
  if segment_checked e seg_index selector then
    exists e1, segment_set e seg_index (mkSeg selector (if selector <? 4 then zero_desc else guest_descriptor e selector)) e1 /\
      e' = set_en_context (cpu_set_stack_pointer_value (stack_size e1) (stack_at e (w / 8)) (en_context e1)) e1
  else refused e e'.

(** The value stored, and then the stack pointer moved; the address is that behind the move. *)
Definition popped_memory (e : cpueaxh_engine) (w : Z) (inst : DecodedInstruction) (e' : cpueaxh_engine) : Prop :=
  let '(address, ctx) := get_effective_address (i_modrm inst) (i_sib inst) (i_displacement inst) (i_address_size inst) 0
                           (en_context (with_sp e (w / 8) e)) in
  if cpu_has_exception ctx then transfer_refused e e'
  else
    match first_fault e address (w / 8) MM_PROT_WRITE with
    | Some (ad, v) => faults e v ad MM_PROT_WRITE e'
    | None => exists e1, stored e (hosts_of e address (w / 8)) (guest_value e (stack_top e) (w / 8)) e1 /\ e' = with_sp e (w / 8) e1
    end.

Definition popped_register (e : cpueaxh_engine) (w reg : Z) (e' : cpueaxh_engine) : Prop :=
  exists e1, same_cpu e e1 /\
    e' = set_en_context (set_reg w reg (guest_value e (stack_top e) (w / 8)) (en_context (with_sp e (w / 8) e1))) e1.

Definition pop_outcome (e : cpueaxh_engine) (w : Z) (inst : DecodedInstruction) (dst : pop_destination) (e' : cpueaxh_engine) : Prop :=
  match first_fault e (stack_top e) (w / 8) MM_PROT_READ with
  | Some (ad, v) => faults e v ad MM_PROT_READ e'
  | None =>
      match dst with
      | PopReg reg => popped_register e w reg e'
      | PopMem => popped_memory e w inst e'
      | PopSeg seg_index => popped_segment e w seg_index e'
      end
  end.

Lemma value_size_width w : push_width w -> value_size w = w / 8.
Proof. by intros [-> | [-> | ->]]. Qed.

Lemma context_with_sp e k e1 : en_context e1 = en_context e ->
  cpu_set_stack_pointer_value (get_stack_addr_size (en_context e1)) (stack_at e k) (en_context e1) = en_context (with_sp e k e1).
Proof. by intros ->. Qed.

(** Changes of the stack pointer leave the exception alone. *)
Lemma set_sp_exception s v ctx : cpu_has_exception (cpu_set_stack_pointer_value s v ctx) = cpu_has_exception ctx.
Proof. unfold cpu_set_stack_pointer_value. by destruct (s =? 64), (s =? 32). Qed.

Lemma same_cpu_descriptor e e1 selector : same_cpu e e1 -> guest_descriptor e1 selector = guest_descriptor e selector.
Proof.
  intros Hs. unfold guest_descriptor, descriptor_address. rewrite (same_cpu_context _ _ Hs).
  by rewrite !(same_cpu_guest_value _ _ _ _ Hs).
Qed.

Lemma same_cpu_checked e e1 seg_index selector : same_cpu e e1 -> segment_checked e1 seg_index selector = segment_checked e seg_index selector.
Proof.
  intros Hs. unfold segment_checked, descriptor_in_table, descriptor_address.
  by rewrite (same_cpu_descriptor _ _ _ Hs), (same_cpu_context _ _ Hs), (first_fault_same_cpu _ _ _ _ _ Hs).
Qed.

Section pop.
Context `{Callbacks}.
Variable e : cpueaxh_engine.
Hypotheses (Hr : cpu_ready e) (Hwf : regs_wf (en_context e)).

Lemma peek_one w : push_width w -> slot_ok e (w / 8) ->
  match first_fault e (stack_top e) (w / 8) MM_PROT_READ with
  | Some (ad, v) => exists e1, faults e v ad MM_PROT_READ e1 /\ pop_peek_stack_value w e = (None, e1)
  | None => exists e1, same_cpu e e1 /\
      pop_peek_stack_value w e = (Some (guest_value e (stack_top e) (w / 8), stack_at e (w / 8)), e1)
  end.
Proof.
  intros Hw Hn. pose proof (peek_stack_correct e (w / 8) 1 Hr Hwf Hn) as Hp.
  unfold pop_peek_stack_value. rewrite (value_size_width w Hw). unfold st_bind.
  destruct (peek_stack_values (w / 8) 1 e) as [r e1]. destruct Hp as [_ Hp].
  change (offsets_from 0 1) with [0] in Hp. cbn [stack_fault stack_values map] in Hp.
  rewrite Z.mul_0_l, stack_at_0, Z.mul_1_l in Hp. destruct (first_fault e (stack_top e) (w / 8) MM_PROT_READ) as [[ad v] |].
  - destruct Hp as [-> Hf]. by exists e1.
  - destruct Hp as [-> Hs]. by exists e1.
Qed.

Lemma popped_value w : push_width w -> first_fault e (stack_top e) (w / 8) MM_PROT_READ = None ->
  wrap w (guest_value e (stack_top e) (w / 8)) = guest_value e (stack_top e) (w / 8).
Proof. intros Hw Hf. apply (guest_value_wrap e _ w MM_PROT_READ); [apply Hr | | done]. unfold push_width in Hw. unfold operand_size_ok. tauto. Qed.

(** Computing an address raises an exception at most. *)
Lemma address_raises modrm sib disp size len ctx :
  exists code ec, (code =? CPU_EXCEPTION_NONE) = false /\
    (snd (get_effective_address modrm sib disp size len ctx) = ctx \/
     snd (get_effective_address modrm sib disp size len ctx) = cpu_raise_exception code ec ctx).
Proof.
  unfold get_effective_address, cpu_validate_linear_address, cpu_raise_noncanonical_address, raise_ss_ctx, raise_gp_ctx. cbv zeta.
  repeat match goal with |- context [if ?b then _ else _] => destruct b end; cbn [snd];
    first [by exists CPU_EXCEPTION_SS, 0; auto | by exists CPU_EXCEPTION_GP, 0; auto].
Qed.

(** The stack pointer saved before a move is back after it. *)
Lemma restore_moved k : set_reg_at REG_RSP (reg_at (en_context e) REG_RSP) (en_context (with_sp e k e)) = en_context e.
Proof.
  pose proof (sp_restore 64 (with_low (stack_size e) (reg_at (en_context e) REG_RSP) (stack_at e k)) (en_context e)) as Hres.
  unfold with_sp. cbn [en_context set_en_context]. rewrite set_sp_with_low by (done || apply stack_size_ok_e || apply stack_at_word).
  assert (Hin : in_word 64 (with_low (stack_size e) (reg_at (en_context e) REG_RSP) (stack_at e k)))
    by (apply with_low_in_word; [apply stack_size_ok_e | by apply reg_at_in_word | apply stack_at_word]).
  rewrite wrap_small in Hres by (by apply reg_at_in_word). apply Hres; [unfold stack_size_ok; tauto | done | done].
Qed.

(** But for the exception of a bad address the context is back as it was. *)
Lemma moved_address modrm sib disp size k :
  let '(address, ctx) := get_effective_address modrm sib disp size 0 (en_context (with_sp e k e)) in
  let '(r, ctx') := pop_compute_memory_destination_after_stack_advance modrm sib disp size (stack_at e k) (en_context e) in
  if cpu_has_exception ctx
  then r = None /\ exists code ec, (code =? CPU_EXCEPTION_NONE) = false /\ ctx' = cpu_raise_exception code ec (en_context e)
  else r = Some address /\ ctx' = en_context e.
Proof.
  unfold pop_compute_memory_destination_after_stack_advance, st_bind, st_gets, st_modify, st_ret.
  change (cpu_set_stack_pointer_value (get_stack_addr_size (en_context e)) (stack_at e k) (en_context e)) with (en_context (with_sp e k e)).
  pose proof (restore_moved k) as Hback. assert (Hx : cpu_has_exception (en_context (with_sp e k e)) = false).
  { unfold with_sp. cbn [en_context set_en_context]. rewrite set_sp_exception. apply Hr. }
  destruct (address_raises modrm sib disp size 0 (en_context (with_sp e k e))) as (code & ec & Hc & Hd).
  destruct (get_effective_address modrm sib disp size 0 (en_context (with_sp e k e))) as [address ctx]. cbn [snd] in Hd.
  assert (Hset : forall c, cpu_has_exception (set_reg_at REG_RSP (reg_at (en_context e) REG_RSP) c) = cpu_has_exception c) by done.
  rewrite Hset. destruct Hd as [-> | ->]; [by rewrite Hx |]. rewrite raise_exception_pending by done. split; [done |].
  exists code, ec. split; [done |]. rewrite <- Hback at 2. unfold cpu_raise_exception. rewrite Hset, Hx. done.
Qed.

Lemma pop_r_outcome inst w reg : push_width w -> slot_ok e (w / 8) -> pop_outcome e w inst (PopReg reg) (final (pop_r w reg) e).
Proof.
  intros Hw Hn. pose proof (peek_one w Hw Hn) as Hp. unfold pop_outcome, pop_r, final.
  destruct (first_fault e (stack_top e) (w / 8) MM_PROT_READ) as [[ad v] |] eqn:Ef; destruct Hp as (e1 & Hs & Hrun); rewrite (bind_run _ _ _ _ _ Hrun); [done |].
  exists e1. split; [done |]. unfold pop_commit_stack_pointer, mod_ctx, on_ctx, st_zoom, st_bind, st_modify. cbn [snd en_context set_en_context].
  rewrite (context_with_sp e (w / 8) e1) by apply (same_cpu_context _ _ Hs). rewrite popped_value by done. done.
Qed.

Lemma pop_mem_outcome w inst : push_width w -> slot_ok e (w / 8) -> modrm_mod (i_modrm inst) <> 3 ->
  pop_outcome e w inst PopMem (final (pop_rm w (i_modrm inst) (i_sib inst) (i_displacement inst) (i_address_size inst)) e).
Proof.
  intros Hw Hn H3. pose proof (peek_one w Hw Hn) as Hp. unfold pop_outcome, pop_rm, final.
  destruct (first_fault e (stack_top e) (w / 8) MM_PROT_READ) as [[ad v] |] eqn:Ef; destruct Hp as (e1 & Hs & Hrun); rewrite (bind_run _ _ _ _ _ Hrun); [done |].
  replace (modrm_mod (i_modrm inst) =? 3) with false by lia. rewrite popped_value by done. unfold popped_memory.
  pose proof (moved_address (i_modrm inst) (i_sib inst) (i_displacement inst) (i_address_size inst) (w / 8)) as Ha.
  destruct (get_effective_address _ _ _ _ 0 _) as [address ctx].
  destruct (pop_compute_memory_destination_after_stack_advance _ _ _ _ _ _) as [r ctx'] eqn:Em.
  assert (Hat : on_ctx (pop_compute_memory_destination_after_stack_advance (i_modrm inst) (i_sib inst) (i_displacement inst) (i_address_size inst)
    (stack_at e (w / 8))) e1 = (r, set_en_context ctx' e1)) by (unfold on_ctx, st_zoom; by rewrite (same_cpu_context _ _ Hs), Em).
  rewrite (bind_run _ _ _ _ _ Hat). clear Hat Em.
  destruct (cpu_has_exception ctx).
  - destruct Ha as (-> & code & ec & Hc & ->). cbn [st_ret snd]. rewrite <- (same_cpu_context _ _ Hs). by apply raise_transfer_refused.
  - destruct Ha as (-> & ->). assert (Hself : set_en_context (en_context e) e1 = e1) by (rewrite <- (same_cpu_context _ _ Hs); by destruct e1).
    rewrite Hself. unfold pop_write_memory_value. rewrite (value_size_width w Hw).
    pose proof (resolve_slot_spec e e1 address (w / 8) (guest_value e (stack_top e) (w / 8)) Hr Hs) as Hslot.
    destruct (first_fault e address (w / 8) MM_PROT_WRITE) as [[ad v] |]; destruct Hslot as (e2 & Hs2 & Hrun2); unfold st_bind; rewrite Hrun2; [done |].
    pose proof (same_cpu_ready _ _ Hs2 Hr) as Hr2. rewrite commit_slot_spec by apply Hr2.
    pose proof (store_le_spec (hosts_of e address (w / 8)) (guest_value e (stack_top e) (w / 8)) e2 (proj1 Hr2)) as Hst.
    unfold final in Hst. destruct (store_le _ _ e2) as [u e3]. cbn [snd st_ret negb] in *. exists e3. split; [by eapply same_cpu_stored |].
    unfold pop_commit_stack_pointer, mod_ctx, on_ctx, st_zoom, st_modify. cbn [snd].
    rewrite (context_with_sp e (w / 8) e3) by (rewrite (stored_context _ _ _ _ Hst); apply (same_cpu_context _ _ Hs2)). done.
Qed.

End pop.

Section pop_forms.
Context `{Callbacks}.
Variable e : cpueaxh_engine.
Hypotheses (Hr : cpu_ready e) (Hwf : regs_wf (en_context e)).

Lemma set_segment_exception seg_index seg ctx : cpu_has_exception (set_segment_register seg_index seg ctx) = cpu_has_exception ctx.
Proof. unfold set_segment_register. by repeat match goal with |- context [if ?b then _ else _] => destruct b end. Qed.

Lemma pop_segment_outcome inst w seg_index : push_width w -> slot_ok e (w / 8) -> 0 <= seg_index < 6 ->
  pop_outcome e w inst (PopSeg seg_index) (final (pop_sreg w seg_index) e).
Proof.
  intros Hw Hn Hi. pose proof (peek_one e Hr Hwf w Hw Hn) as Hp. unfold pop_outcome, pop_sreg, final.
  destruct (first_fault e (stack_top e) (w / 8) MM_PROT_READ) as [[ad v] |] eqn:Ef; destruct Hp as (e1 & Hs & Hrun); rewrite (bind_run _ _ _ _ _ Hrun); [done |].
  unfold popped_segment. cbv zeta. set (selector := u16 (guest_value e (stack_top e) (w / 8))).
  assert (Hsel : in_word 16 selector) by (apply wrap_range; lia).
  pose proof (segment_load_spec e1 seg_index selector (same_cpu_ready _ _ Hs Hr) Hi Hsel) as Hl. cbv zeta in Hl.
  rewrite (same_cpu_checked _ _ _ _ Hs), (same_cpu_descriptor _ _ _ Hs) in Hl. unfold final in Hl.
  destruct (load_segment_register seg_index selector e1) as [u e2] eqn:El. cbn [snd] in Hl. rewrite (bind_run _ _ _ _ _ El).
  destruct (segment_checked e seg_index selector).
  - destruct Hl as (e3 & Hs3 & ->). exists (set_en_context (set_segment_register seg_index (mkSeg selector (if selector <? 4 then zero_desc else guest_descriptor e selector)) (en_context e)) e3).
    rewrite (same_cpu_context _ _ Hs). split; [exists e3; split; [by eapply same_cpu_trans | done] |].
    unfold st_bind, get_ctx, st_gets. cbn [en_context set_en_context]. rewrite set_segment_exception. pose proof Hr as (_ & _ & ->). done.
  - destruct Hl as (Hx & Hsr & Hrg). unfold st_bind, get_ctx, st_gets. rewrite Hx. cbn [st_ret snd]. unfold refused.
    by rewrite Hx, Hsr, Hrg, (same_cpu_context _ _ Hs).
Qed.

(** The register form of 8F finds its register with the stack pointer already moved. *)
Lemma pop_rm_register w modrm sib disp size : push_width w -> slot_ok e (w / 8) -> modrm_mod modrm = 3 ->
  pop_rm w modrm sib disp size e = pop_r w (rm_index modrm (en_context e)) e.
Proof.
  intros Hw Hn H3. pose proof (peek_one e Hr Hwf w Hw Hn) as Hp. unfold pop_rm, pop_r. rewrite H3. cbn [Z.eqb Pos.eqb].
  destruct (first_fault e (stack_top e) (w / 8) MM_PROT_READ) as [[ad v] |]; destruct Hp as (e1 & Hs & Hrun); rewrite !(bind_run _ _ _ _ _ Hrun); [done |].
  rewrite <- (same_cpu_context _ _ Hs). unfold pop_commit_stack_pointer, mod_ctx, st_bind, st_modify. cbn [en_context set_en_context].
  assert (Hrex : forall s v ctx, rm_index modrm (cpu_set_stack_pointer_value s v ctx) = rm_index modrm ctx)
    by (intros s v ctx; unfold cpu_set_stack_pointer_value; by destruct (s =? 64), (s =? 32)).
  by rewrite Hrex.
Qed.

(** C33: POP moves the stack pointer only when all of it succeeds.  For every form of POP at every
    operand size the mode has a slot for: when the top of the stack cannot be read its fault is
    pending.  Otherwise a register gets the value and the stack pointer moves past the slot (POP of
    the stack pointer keeps the popped value); memory gets it at the address computed with the
    stack pointer already moved, unless that address is not canonical or a byte of it not writable,
    when the exception is pending and registers, flags and memory are as they were; and a segment
    register is loaded when the checks of a segment load pass and the stack pointer moved, at the stack size of
    the segments then loaded, or both are as they were. *)
Theorem pop_instructions_correct inst w dst
  (Hplan : pop_plan inst (en_context e) = Some (w, dst)) (Hslot : slot_ok e (w / 8)) :
  pop_outcome e w inst dst (final (execute_pop_with_decoded inst) e).
Proof.
  unfold pop_plan in Hplan. cbv zeta in Hplan. unfold execute_pop_with_decoded. cbv zeta.
  destruct (i_imm_size inst =? 0x0F).
  { injection Hplan as <- <-. unfold final. rewrite get_ctx_step. apply pop_segment_outcome; [apply segment_width_ok | done |].
    destruct (i_opcode inst =? 0xA1); unfold SEG_FS, SEG_GS; lia. }
  opcode_cases Hplan; injection Hplan as <- <-; choose_opcode;
    try (apply pop_segment_outcome; [apply narrow_width_ok | done | unfold SEG_DS, SEG_ES, SEG_SS; lia]).
  - pose proof (stack_width_ok (i_operand_size inst)) as Hw. destruct (Z.eqb_spec (modrm_mod (i_modrm inst)) 3) as [E3 |]; [| by apply pop_mem_outcome].
    unfold final. rewrite (pop_rm_register _ _ _ _ _ Hw Hslot E3). exact (pop_r_outcome e Hr Hwf inst _ _ Hw Hslot).
  - unfold final. rewrite get_ctx_step. exact (pop_r_outcome e Hr Hwf inst _ _ (stack_width_ok _) Hslot).
Qed.

End pop_forms.

(** ** What ENTER and LEAVE do *)

(** The fault of the first of several slots. *)
Fixpoint slots_fault (e : cpueaxh_engine) (n access : Z) (slots : list Z) : option (Z * verdict) :=
  match slots with
  | [] => None
  | a :: slots => match first_fault e a n access with Some f => Some f | None => slots_fault e n access slots end
  end.

(** Stores one after the other, the page cache aside. *)
Fixpoint stored_all (e : cpueaxh_engine) (writes : list (list Z * Z)) (e' : cpueaxh_engine) : Prop :=
  match writes with
  | [] => same_cpu e e'
  | (hosts, v) :: writes => exists e1, stored e hosts v e1 /\ stored_all e1 writes e'
  end.

(** The [k]th slot below a stack pointer. *)
Definition slot_below (s sp n : Z) (k : nat) : Z := wrap s (sp - n * Z.of_nat k).

(** Where ENTER finds the pointers to the enclosing frames. *)
Fixpoint frame_pointers (levels : nat) (w s rbp : Z) : list Z :=
  match levels with
  | O => []
  | S levels =>
      let rbp := enter_sub_frame_pointer_value rbp w in frame_pointer_value s rbp :: frame_pointers levels w s rbp
  end.

Definition enter_size_ok (w s : Z) : Prop := push_width w /\ stack_size_ok s /\ ~ (s = 16 /\ w = 64).

Lemma enter_sub_wrap s v d : stack_size_ok s -> enter_sub_stack_pointer_value s v d = wrap s (v - d).
Proof.
  intros [-> | [-> | ->]]; unfold enter_sub_stack_pointer_value; cbn [Z.eqb Pos.eqb]; [| | done];
    rewrite wrap_sub_l by lia; apply Zminus_mod_idemp_r.
Qed.

Lemma slot_below_next s sp n k : 0 <= s -> slot_below s (wrap s (sp - n)) n k = slot_below s sp n (S k).
Proof. intros Hs. unfold slot_below. rewrite wrap_sub_l by done. f_equal. lia. Qed.

Lemma slots_below_next s sp n levels : 0 <= s ->
  map (slot_below s sp n) (seq 1 (S levels)) = wrap s (sp - n) :: map (slot_below s (wrap s (sp - n)) n) (seq 1 levels).
Proof.
  intros Hs. cbn [seq map]. f_equal; [unfold slot_below; f_equal; lia |].
  rewrite <- (seq_shift _ 1), map_map. apply map_ext. intros k. symmetry. by apply slot_below_next.
Qed.

Lemma frame_pointer_wrap s v : stack_size_ok s -> in_word 64 v -> frame_pointer_value s v = wrap s v.
Proof.
  intros [-> | [-> | ->]] Hv; unfold frame_pointer_value; cbn [Z.eqb Pos.eqb];
    [change 0xFFFF with (Z.ones 16) | change 0xFFFFFFFF with (Z.ones 32) | by rewrite wrap_small];
    rewrite Z.land_ones by lia; by apply wrap_wrap.
Qed.

Lemma frame_pointer_step_word w v : push_width w -> in_word 64 v -> in_word 64 (enter_sub_frame_pointer_value v w).
Proof.
  intros [-> | [-> | ->]] Hv; unfold enter_sub_frame_pointer_value; cbn [Z.eqb Pos.eqb]; [| | apply wrap_range; lia].
  - change 0xFFFF with (Z.ones 16). rewrite (lor_ldiff_ones 16) by (try apply wrap_range; lia).
    apply with_low_in_word; [unfold stack_size_ok; tauto | done | apply wrap_range; lia].
  - change 0xFFFFFFFF with (Z.ones 32). rewrite (lor_ldiff_ones 32) by (try apply wrap_range; lia).
    apply with_low_in_word; [unfold stack_size_ok; tauto | done | apply wrap_range; lia].
Qed.

Lemma same_cpu_stored_all e e1 writes e' : same_cpu e e1 -> stored_all e1 writes e' -> stored_all e writes e'.
Proof.
  destruct writes as [| [hosts v] writes]; cbn [stored_all]; intros Hs; [by apply same_cpu_trans |].
  intros (e2 & Hst & Hrest). exists e2. split; [by eapply same_cpu_stored | done].
Qed.

Lemma stored_all_context writes : forall e e', stored_all e writes e' -> en_context e' = en_context e.
Proof.
  induction writes as [| [hosts v] writes IH]; cbn [stored_all]; intros e e'; [apply same_cpu_context |].
  intros (e1 & Hst & Hrest). by rewrite (IH _ _ Hrest), (stored_context _ _ _ _ Hst).
Qed.

Section frames.
Context `{Callbacks}.
Variable e : cpueaxh_engine.
Hypothesis Hr : cpu_ready e.

Lemma read_frame_spec e1 w s rbp : enter_size_ok w s -> in_word 64 rbp -> same_cpu e e1 ->
  match first_fault e (frame_pointer_value s rbp) (w / 8) MM_PROT_READ with
  | Some (ad, v) => exists e2, faults e v ad MM_PROT_READ e2 /\ enter_read_frame_value w s rbp e1 = (0, e2)
  | None => exists e2, same_cpu e e2 /\ enter_read_frame_value w s rbp e1 = (guest_value e (frame_pointer_value s rbp) (w / 8), e2)
  end.
Proof.
  intros (Hw & Hs & Hnot) Hrbp Hsame.
  assert (Hrun : enter_read_frame_value w s rbp = read_memory_scalar (w / 8) (frame_pointer_value s rbp)).
  { unfold enter_read_frame_value. destruct Hw as [-> | [-> | ->]]; [done | done |]. cbn [Z.eqb Pos.eqb].
    replace (s =? 16) with false by lia. done. }
  assert (Ha : in_word 64 (frame_pointer_value s rbp)).
  { rewrite frame_pointer_wrap by done. eapply stack_word; [done |]. apply wrap_range. destruct Hs as [-> | [-> | ->]]; lia. }
  assert (Hn : 0 < w / 8 <= 4096) by (destruct Hw as [-> | [-> | ->]]; done).
  rewrite Hrun. pose proof (read_memory_scalar_spec e1 _ _ (same_cpu_ready _ _ Hsame Hr) Ha Hn) as Hread.
  rewrite (first_fault_same_cpu _ _ _ _ _ Hsame), (same_cpu_guest_value _ _ _ _ Hsame) in Hread.
  destruct (first_fault e _ (w / 8) MM_PROT_READ) as [[ad v] |]; destruct Hread as (e2 & H2 & ->); exists e2; split; try done.
  - by eapply faults_trans.
  - by eapply same_cpu_trans.
Qed.

Lemma enter_frames_spec w s levels : enter_size_ok w s -> forall e1 rbp sp, in_word 64 rbp -> same_cpu e e1 ->
  let pointers := frame_pointers levels w s rbp in
  match slots_fault e (w / 8) MM_PROT_READ pointers with
  | Some (ad, v) => exists e2, faults e v ad MM_PROT_READ e2 /\ enter_frames levels w s (w / 8) rbp sp e1 = (None, e2)
  | None => exists e2, same_cpu e e2 /\ enter_frames levels w s (w / 8) rbp sp e1 =
      (Some (zip (map (slot_below s sp (w / 8)) (seq 1 levels)) (map (fun a => guest_value e a (w / 8)) pointers),
             if levels is O then sp else slot_below s sp (w / 8) levels), e2)
  end.
Proof.
  intros Hok. pose proof Hok as (Hw & Hs & _). assert (H0 : 0 <= s) by (destruct Hs as [-> | [-> | ->]]; lia).
  induction levels as [| levels IH]; intros e1 rbp sp Hrbp Hsame; [by exists e1 |]. cbn zeta. cbn [frame_pointers slots_fault enter_frames]. cbv zeta.
  set (rbp' := enter_sub_frame_pointer_value rbp w). assert (Hrbp' : in_word 64 rbp') by (by apply frame_pointer_step_word).
  pose proof (read_frame_spec e1 w s rbp' Hok Hrbp' Hsame) as Hread.
  destruct (first_fault e (frame_pointer_value s rbp') (w / 8) MM_PROT_READ) as [[ad v] |] eqn:Ef; destruct Hread as (e2 & H2 & Hrun); rewrite (bind_run _ _ _ _ _ Hrun).
  { exists e2. split; [done |]. rewrite (bind_run (get_ctx cpu_has_exception) _ e2 _ e2 eq_refl). by rewrite (first_fault_pending _ _ _ _ _ _ _ Ef H2). }
  rewrite (bind_run (get_ctx cpu_has_exception) _ e2 _ e2 eq_refl), (same_cpu_context _ _ H2). pose proof Hr as (_ & _ & ->).
  rewrite enter_sub_wrap by done. specialize (IH e2 rbp' (wrap s (sp - w / 8)) Hrbp' H2). cbv zeta in IH.
  destruct (slots_fault e (w / 8) MM_PROT_READ (frame_pointers levels w s rbp')) as [[ad v] |]; destruct IH as (e3 & H3 & Hrun3); rewrite (bind_run _ _ _ _ _ Hrun3); [by exists e3 |].
  exists e3. split; [done |]. rewrite slots_below_next by done. cbn [map zip_with]. unfold st_ret. do 3 f_equal.
  destruct levels; [unfold slot_below; f_equal; lia | by apply slot_below_next].
Qed.

Lemma enter_resolve_spec n pushes : forall e1, same_cpu e e1 ->
  match slots_fault e n MM_PROT_WRITE (map fst pushes) with
  | Some (ad, v) => exists e2, faults e v ad MM_PROT_WRITE e2 /\ enter_resolve pushes n e1 = (None, e2)
  | None => exists e2, same_cpu e e2 /\ enter_resolve pushes n e1 = (Some (map (fun p => hosts_of e (fst p) n) pushes), e2)
  end.
Proof.
  induction pushes as [| [a v] pushes IH]; intros e1 Hs; cbn [map fst slots_fault enter_resolve]; [by exists e1 |].
  pose proof (resolve_slot_spec e e1 a n v Hr Hs) as H1.
  destruct (first_fault e a n MM_PROT_WRITE) as [[ad vd] |]; destruct H1 as (e2 & H2 & Hrun); rewrite (bind_run _ _ _ _ _ Hrun); [by exists e2 |].
  specialize (IH e2 H2). destruct (slots_fault e n MM_PROT_WRITE (map fst pushes)) as [[ad vd] |];
    destruct IH as (e3 & H3 & Hrun3); rewrite (bind_run _ _ _ _ _ Hrun3); by exists e3.
Qed.

Lemma enter_commit_spec n pushes : forall e1, cpu_ready e1 ->
  stored_all e1 (map (fun p => (hosts_of e (fst p) n, snd p)) pushes)
    (final (enter_commit pushes (map (fun p => hosts_of e (fst p) n) pushes) n) e1).
Proof.
  induction pushes as [| [a v] pushes IH]; intros e1 Hr1; cbn [map enter_commit stored_all fst snd]; [by apply same_cpu_refl, Hr1 |].
  unfold final. unfold st_bind at 1. rewrite commit_slot_spec by apply Hr1.
  pose proof (store_le_spec (hosts_of e a n) v e1 (proj1 Hr1)) as Hst. unfold final in Hst.
  destruct (store_le _ v e1) as [u e2]. cbn [snd] in Hst. exists e2. split; [done |]. apply IH. by eapply stored_ready.
Qed.

End frames.

(** The nesting level of ENTER, the bytes it sets aside, and the width of the two instructions. *)
Definition nesting (inst : DecodedInstruction) : Z := Z.land (Z.shiftr (i_immediate inst) 16) 0x1F.
Definition frame_bytes (inst : DecodedInstruction) : Z := Z.land (i_immediate inst) 0xFFFF.

(** How many slots ENTER fills: the caller's frame pointer, the enclosing frames' and its own. *)
Definition enter_slots (inst : DecodedInstruction) : nat := Z.to_nat (nesting inst) + 1.

Definition enter_slot (e : cpueaxh_engine) (inst : DecodedInstruction) (k : nat) : Z :=
  slot_below (i_address_size inst) (reg_at (en_context e) REG_RSP) (i_operand_size inst / 8) k.

Definition enter_pointers (e : cpueaxh_engine) (inst : DecodedInstruction) : list Z :=
  frame_pointers (Z.to_nat (nesting inst - 1)) (i_operand_size inst) (i_address_size inst) (reg_at (en_context e) REG_RBP).

Definition enter_values (e : cpueaxh_engine) (inst : DecodedInstruction) : list Z :=
  get_reg (i_operand_size inst) (en_context e) REG_RBP ::
  map (fun a => guest_value e a (i_operand_size inst / 8)) (enter_pointers e inst) ++
  (if 0 <? nesting inst then [enter_slot e inst 1] else []).

Definition enter_context (e : cpueaxh_engine) (inst : DecodedInstruction) : CPU_CONTEXT :=
  let w := i_operand_size inst in
  cpu_set_stack_pointer_value (i_address_size inst)
    (wrap (i_address_size inst) (enter_slot e inst (enter_slots inst) - frame_bytes inst))
    (set_reg w REG_RBP (wrap w (enter_slot e inst 1)) (en_context e)).

Definition enter_outcome (e : cpueaxh_engine) (inst : DecodedInstruction) (e' : cpueaxh_engine) : Prop :=
  let n := i_operand_size inst / 8 in
  let slots := map (enter_slot e inst) (seq 1 (enter_slots inst)) in
  match slots_fault e n MM_PROT_READ (enter_pointers e inst), slots_fault e n MM_PROT_WRITE slots with
  | Some (ad, v), _ => faults e v ad MM_PROT_READ e'
  | None, Some (ad, v) => faults e v ad MM_PROT_WRITE e'
  | None, None =>
      exists e1, stored_all e (zip (map (fun a => hosts_of e a n) slots) (enter_values e inst)) e1 /\
        e' = set_en_context (enter_context e inst) e1
  end.

Lemma nesting_range inst : 0 <= nesting inst < 32.
Proof. unfold nesting. change 0x1F with (Z.ones 5). rewrite Z.land_ones by lia. apply Z.mod_pos_bound. lia. Qed.

Section enter.
Context `{Callbacks}.
Variable e : cpueaxh_engine.
Hypotheses (Hr : cpu_ready e) (Hwf : regs_wf (en_context e)).

Lemma slot_below_last s x n levels : 0 <= s ->
  wrap s ((if levels is O then x else slot_below s x n levels) - n) = slot_below s x n (levels + 1).
Proof.
  intros Hs. destruct levels; [unfold slot_below; f_equal; lia |]. unfold slot_below. rewrite wrap_sub_l by done. f_equal. lia.
Qed.

Lemma frame_pointers_length levels w s : forall rbp, length (frame_pointers levels w s rbp) = levels.
Proof. induction levels as [| levels IH]; intros rbp; [done |]. cbn [frame_pointers length]. by rewrite IH. Qed.

(** The pushes of ENTER, as addresses and values. *)
Lemma enter_pushes inst :
  let s := i_address_size inst in let n := i_operand_size inst / 8 in let levels := Z.to_nat (nesting inst - 1) in
  0 <= s -> let top := wrap s (reg_at (en_context e) REG_RSP - n) in
  let frames := zip (map (slot_below s top n) (seq 1 levels)) (map (fun a => guest_value e a n) (enter_pointers e inst)) in
  let current := if levels is O then top else slot_below s top n levels in
  (top, get_reg (i_operand_size inst) (en_context e) REG_RBP) :: frames ++ (if 0 <? nesting inst then [(wrap s (current - n), top)] else []) =
  zip (map (enter_slot e inst) (seq 1 (enter_slots inst))) (enter_values e inst) /\
  (if 0 <? nesting inst then wrap s (current - n) else current) = enter_slot e inst (enter_slots inst).
Proof.
  cbv zeta. intros Hs. set (s := i_address_size inst) in *. set (n := i_operand_size inst / 8). set (levels := Z.to_nat (nesting inst - 1)).
  set (top := wrap s (reg_at (en_context e) REG_RSP - n)). pose proof (nesting_range inst) as Hnest. unfold enter_slots.
  assert (Hlen : length (enter_pointers e inst) = levels) by apply frame_pointers_length.
  assert (Htop : enter_slot e inst 1 = top) by (unfold enter_slot, slot_below, top; fold s n; f_equal; lia).
  assert (Hnext : forall k, enter_slot e inst (S k) = slot_below s top n k) by (intros k; symmetry; by apply slot_below_next).
  replace (Z.to_nat (nesting inst) + 1)%nat with (S (Z.to_nat (nesting inst))) by lia. unfold enter_values. rewrite Htop, slot_below_last by done.
  unfold enter_slot at 1. fold s n. rewrite slots_below_next by done. fold top. cbn [zip_with]. rewrite !Hnext.
  destruct (Z.ltb_spec 0 (nesting inst)).
  - replace (Z.to_nat (nesting inst)) with (levels + 1)%nat by (unfold levels; lia). split; [| done]. f_equal.
    rewrite seq_app, map_app. rewrite zip_with_app by (rewrite !length_map, length_seq; by symmetry). f_equal.
    cbn [seq map zip_with]. by rewrite Nat.add_comm.
  - assert (Hl : levels = 0%nat) by (unfold levels; lia). replace (Z.to_nat (nesting inst)) with 0%nat by lia.
    rewrite Hl. split; [done |]. unfold slot_below. rewrite Z.mul_0_r, Z.sub_0_r. symmetry. unfold top. by apply wrap_wrap.
Qed.

Lemma enter_values_length inst : length (enter_values e inst) = enter_slots inst.
Proof.
  unfold enter_values, enter_slots. cbn [length]. rewrite length_app, length_map. unfold enter_pointers. rewrite frame_pointers_length.
  pose proof (nesting_range inst). destruct (Z.ltb_spec 0 (nesting inst)); cbn [length]; lia.
Qed.

Lemma map_zip_first {A B C} (f : A -> C) (l : list A) : forall m : list B, map (fun p => (f (fst p), snd p)) (zip l m) = zip (map f l) m.
Proof. induction l as [| a l IH]; intros [| b m]; cbn; [done.. |]. by rewrite IH. Qed.

(** ENTER with the sizes it decodes: where it stops and what it leaves. *)
Lemma enter_spec inst : enter_size_ok (i_operand_size inst) (i_address_size inst) ->
  enter_outcome e inst (final (execute_enter_with_decoded inst) e).
Proof.
  intros Hok. pose proof Hok as (Hw & Hs & Hnot). set (s := i_address_size inst) in *. set (w := i_operand_size inst) in *.
  assert (H0 : 0 <= s) by (destruct Hs as [-> | [-> | ->]]; lia). pose proof (same_cpu_refl e (proj1 Hr)) as Hrefl.
  destruct (enter_pushes inst H0) as [Hpushes Hlast]. fold w s in Hpushes, Hlast. set (top := wrap s (reg_at (en_context e) REG_RSP - w / 8)) in *.
  assert (Htop : enter_slot e inst 1 = top) by (unfold enter_slot, slot_below, top; fold s w; f_equal; lia).
  unfold enter_outcome, final, execute_enter_with_decoded. fold w s. rewrite (value_size_width w Hw).
  replace ((s =? 16) && (w / 8 =? 8)) with false by (destruct Hw as [-> | [-> | ->]]; destruct (Z.eqb_spec s 16); try done; tauto).
  replace (if w =? 16 then 16 else if w =? 32 then 32 else 64) with w by (by destruct Hw as [-> | [-> | ->]]).
  rewrite !(get_ctx_step e). rewrite get_sp_wrap by done. rewrite enter_sub_wrap, wrap_sub_l by done. fold top.
  fold (nesting inst) (frame_bytes inst). set (levels := Z.to_nat (nesting inst - 1)) in *.
  pose proof (enter_frames_spec e Hr w s levels Hok e (reg_at (en_context e) REG_RBP) top (reg_at_in_word _ _ Hwf) Hrefl) as Hframes.
  cbv zeta in Hframes. change (frame_pointers levels w s (reg_at (en_context e) REG_RBP)) with (enter_pointers e inst) in Hframes.
  destruct (slots_fault e (w / 8) MM_PROT_READ (enter_pointers e inst)) as [[ad v] |]; destruct Hframes as (e1 & H1 & Hrun); rewrite (bind_run _ _ _ _ _ Hrun); [done |].
  rewrite enter_sub_wrap by done.
  set (frames := zip _ _) in *. set (current := match levels with O => top | S _ => _ end) in *.
  replace (if 0 <? nesting inst then ([(wrap s (current - w / 8), top)], wrap s (current - w / 8)) else ([], current))
    with (if 0 <? nesting inst then [(wrap s (current - w / 8), top)] else [], enter_slot e inst (enter_slots inst))
    by (rewrite <- Hlast; by destruct (0 <? nesting inst)).
  rewrite Hpushes.
  set (slots := map (enter_slot e inst) (seq 1 (enter_slots inst))).
  pose proof (enter_resolve_spec e Hr (w / 8) (zip slots (enter_values e inst)) e1 H1) as Hres.
  assert (Hfst : map fst (zip slots (enter_values e inst)) = slots)
    by (apply fst_zip; rewrite enter_values_length; unfold slots; by rewrite length_map, length_seq).
  rewrite Hfst in Hres.
  destruct (slots_fault e (w / 8) MM_PROT_WRITE slots) as [[ad v] |]; destruct Hres as (e2 & H2 & Hrun2); rewrite (bind_run _ _ _ _ _ Hrun2); [done |].
  pose proof (enter_commit_spec e (w / 8) (zip slots (enter_values e inst)) e2 (same_cpu_ready _ _ H2 Hr)) as Hall. unfold final in Hall.
  destruct (enter_commit _ _ _ e2) as [u e3] eqn:Ec. rewrite (bind_run _ _ _ _ _ Ec). cbn [snd] in Hall.
  rewrite (map_zip_first (fun a => hosts_of e a (w / 8))) in Hall. pose proof (stored_all_context _ _ _ Hall) as Hc. exists e3.
  split; [by eapply same_cpu_stored_all |]. unfold enter_context, mod_ctx, st_bind, st_modify. cbn [snd en_context set_en_context].
  fold s w. rewrite enter_sub_wrap, Htop by done. by rewrite Hc, (same_cpu_context _ _ H2).
Qed.

(** LEAVE: the caller's frame pointer from the frame, the stack pointer behind it. *)
Lemma leave_spec inst e0 ctx : enter_size_ok (i_operand_size inst) (i_address_size inst) ->
  cpu_ready e0 -> regs_wf ctx -> en_context e0 = ctx ->
  let w := i_operand_size inst in let s := i_address_size inst in
  let frame := wrap s (reg_at ctx REG_RBP) in
  first_fault e0 frame (w / 8) MM_PROT_READ = None ->
  en_context (final (execute_leave_with_decoded inst) e0) =
  set_reg w REG_RBP (guest_value e0 frame (w / 8)) (cpu_set_stack_pointer_value s (wrap s (frame + w / 8)) ctx).
Proof.
  intros (Hw & Hs & Hnot) Hr0 Hwf0 <- w s frame Hf. unfold final, execute_leave_with_decoded. fold w s.
  replace (if w =? 16 then 16 else if w =? 32 then 32 else 64) with w by (unfold w; by destruct Hw as [-> | [-> | ->]]).
  rewrite (bind_run (get_ctx _) _ e0 _ e0 eq_refl), frame_pointer_wrap by (done || by apply reg_at_in_word). fold frame.
  replace ((w =? 64) && (s =? 16)) with false by (unfold w, s; destruct (Z.eqb_spec (i_operand_size inst) 64), (Z.eqb_spec (i_address_size inst) 16); tauto).
  assert (Ha : in_word 64 frame) by (eapply stack_word; [done |]; apply wrap_range; unfold s; destruct Hs as [-> | [-> | ->]]; lia).
  assert (Hos : operand_size_ok w) by (unfold w, push_width in *; unfold operand_size_ok; tauto).
  pose proof (read_operand_spec e0 frame w Hr0 Ha Hos) as Hread. rewrite Hf in Hread. destruct Hread as (e1 & H1 & Hrun).
  rewrite (bind_run _ _ _ _ _ Hrun), (bind_run (get_ctx cpu_has_exception) _ e1 _ e1 eq_refl), (same_cpu_context _ _ H1).
  destruct Hr0 as (_ & _ & ->). rewrite sp_add_wrap by done. unfold mod_ctx, st_bind, st_modify. cbn [snd en_context set_en_context].
  by rewrite (same_cpu_context _ _ H1).
Qed.

End enter.

(** ** LEAVE undoes ENTER *)

Lemma stored_all_kept writes : forall e e' a n acc, stored_all e writes e' -> first_fault e' a n acc = first_fault e a n acc.
Proof.
  induction writes as [| [hosts v] writes IH]; cbn [stored_all]; intros e e' a n acc; [apply first_fault_same_cpu |].
  intros (e1 & Hst & Hrest). by rewrite (IH _ _ _ _ _ Hrest), (stored_first_fault _ _ _ _ _ _ _ Hst).
Qed.

Lemma stored_all_ready writes : forall e e', stored_all e writes e' -> cpu_ready e -> cpu_ready e'.
Proof.
  induction writes as [| [hosts v] writes IH]; cbn [stored_all]; intros e e'; [apply same_cpu_ready |].
  intros (e1 & Hst & Hrest) Hr. eapply IH; [done |]. by eapply stored_ready.
Qed.

Lemma stored_all_elsewhere writes : forall e e' a n, stored_all e writes e' ->
  Forall (fun w => hosts_of e a n ## fst w) writes -> guest_value e' a n = guest_value e a n.
Proof.
  induction writes as [| [hosts v] writes IH]; cbn [stored_all]; intros e e' a n; [intros Hs _; by apply same_cpu_guest_value |].
  intros (e1 & Hst & Hrest) Hd. inversion Hd as [| ? ? Hd1 Hd2]; subst.
  rewrite (IH e1 e' a n Hrest), (stored_elsewhere _ _ _ _ _ _ Hst Hd1); [done |].
  by rewrite (stored_hosts _ _ _ _ _ _ Hst).
Qed.

Section roundtrip.
Context `{Callbacks}.
Variable e : cpueaxh_engine.
Hypotheses (Hr : cpu_ready e) (Hwf : regs_wf (en_context e)).

Lemma set_reg_at_twice r x y ctx : set_reg_at r x (set_reg_at r y ctx) = set_reg_at r x ctx.
Proof. unfold set_reg_at. rewrite set_c_regs_twice. cbn [c_regs set_c_regs]. unfold arr_set. by rewrite list_insert_insert_eq. Qed.

Lemma set_reg_twice w r v v' ctx : push_width w -> 0 <= r < 16 -> regs_wf ctx -> in_word w v -> in_word w v' ->
  set_reg w r v (set_reg w r v' ctx) = set_reg w r v ctx.
Proof.
  intros [-> | [-> | ->]] Hreg Hwf0 Hv Hv'; unfold set_reg; cbn [Z.eqb Pos.eqb]; [| apply set_reg_at_twice | apply set_reg_at_twice].
  unfold set_reg16. change 0xFFFF with (Z.ones 16). rewrite reg_at_set_reg_at, Z.eqb_refl by (done || lia).
  rewrite !(lor_ldiff_ones 16) by (done || lia). rewrite with_low_twice by (done || lia). apply set_reg_at_twice.
Qed.

Lemma set_reg_stack w r v ctx : push_width w -> 0 <= r < 16 -> regs_wf ctx -> in_word w v ->
  regs_wf (set_reg w r v ctx) /\ wrap w (reg_at (set_reg w r v ctx) r) = v /\
  (forall r', 0 <= r' -> r' <> r -> reg_at (set_reg w r v ctx) r' = reg_at ctx r').
Proof.
  intros Hw Hreg Hwf0 Hv. assert (Hval : exists x, in_word 64 x /\ wrap w x = v /\ set_reg w r v ctx = set_reg_at r x ctx).
  { destruct Hw as [-> | [-> | ->]]; unfold set_reg; cbn [Z.eqb Pos.eqb];
      [| exists v; split_and!; [unfold in_word in *; lia | by apply wrap_small | done] ..].
    unfold set_reg16. change 0xFFFF with (Z.ones 16). rewrite (lor_ldiff_ones 16) by (done || lia). eexists. split_and!; [| | done].
    - apply with_low_in_word; [unfold stack_size_ok; tauto | by apply reg_at_in_word | done].
    - apply wrap_with_low; [lia | done]. }
  destruct Hval as (x & Hx & Hlow & ->). split; [by apply set_reg_at_wf |]. split.
  - rewrite reg_at_set_reg_at, Z.eqb_refl by (done || lia). done.
  - intros r' Hr' Hne. rewrite reg_at_set_reg_at by (done || lia). by destruct (Z.eqb_spec r' r).
Qed.

Lemma slots_fault_not_ok n acc slots ad v : slots_fault e n acc slots = Some (ad, v) -> v <> V_OK.
Proof.
  induction slots as [| a slots IH]; [done |]. cbn [slots_fault]. destruct (first_fault e a n acc) as [[ad' v'] |] eqn:Ef; [| done].
  intros [= <- <-]. by eapply first_fault_not_ok.
Qed.

Lemma enter_completed inst e' : enter_outcome e inst e' -> cpu_has_exception (en_context e') = false ->
  exists e0, stored_all e (zip (map (fun a => hosts_of e a (i_operand_size inst / 8)) (map (enter_slot e inst) (seq 1 (enter_slots inst)))) (enter_values e inst)) e0 /\
    e' = set_en_context (enter_context e inst) e0.
Proof.
  unfold enter_outcome. intros Ho Hx. cbv zeta in Ho.
  destruct (slots_fault e _ MM_PROT_READ _) as [[ad v] |] eqn:E1.
  { pose proof (faults_pending _ _ _ _ _ (slots_fault_not_ok _ _ _ _ _ E1) Ho). congruence. }
  destruct (slots_fault e _ MM_PROT_WRITE _) as [[ad v] |] eqn:E2; [| done].
  pose proof (faults_pending _ _ _ _ _ (slots_fault_not_ok _ _ _ _ _ E2) Ho). congruence.
Qed.

Lemma width_bytes w : push_width w -> 0 <= w / 8 /\ 8 * (w / 8) = w.
Proof. by intros [-> | [-> | ->]]. Qed.
Lemma push_width_nonneg w : push_width w -> 0 <= w.
Proof. unfold push_width. lia. Qed.

(** The frame's first slot holds the caller's frame pointer when the other slots are elsewhere. *)
Lemma enter_frame_value inst e0 :
  push_width (i_operand_size inst) ->
  let n := i_operand_size inst / 8 in let top := enter_slot e inst 1 in
  stored_all e (zip (map (fun a => hosts_of e a n) (map (enter_slot e inst) (seq 1 (enter_slots inst)))) (enter_values e inst)) e0 ->
  first_fault e top n MM_PROT_READ = None -> NoDup (hosts_of e top n) ->
  Forall (fun k => hosts_of e top n ## hosts_of e (enter_slot e inst k) n) (seq 2 (Z.to_nat (nesting inst))) ->
  guest_value e0 top n = get_reg (i_operand_size inst) (en_context e) REG_RBP.
Proof.
  intros Hw n top Hall Hf Hnd Hd. pose proof (width_bytes _ Hw) as Hn.
  unfold enter_slots in Hall. rewrite Nat.add_comm in Hall. cbn [Nat.add seq map] in Hall.
  unfold enter_values in Hall. cbn [zip_with stored_all] in Hall. destruct Hall as (e1 & Hst & Hrest). fold n top in Hst.
  rewrite (stored_all_elsewhere _ _ _ top n Hrest).
  - rewrite (stored_value e top n _ e1 MM_PROT_READ Hst Hf Hnd (proj1 Hn)). unfold n at 1. rewrite (proj2 Hn).
    rewrite (get_reg_slice _ _ _ (push_width_reg _ Hw) Hwf). apply wrap_wrap, push_width_nonneg, Hw.
  - apply Forall_forall. intros [hosts v] Hin%elem_of_zip_l. cbn [fst]. rewrite (stored_hosts _ _ _ _ _ _ Hst).
    rewrite map_map in Hin. apply list_elem_of_fmap in Hin as (k & -> & Hk). rewrite Forall_forall in Hd. by apply Hd.
Qed.

End roundtrip.

Section frames_correct.
Context `{Callbacks}.
Variable e : cpueaxh_engine.
Hypotheses (Hr : cpu_ready e) (Hwf : regs_wf (en_context e)).

Lemma plain_set_sp s v ctx : stack_size_ok s -> regs_wf ctx -> in_word s v -> plain ctx (cpu_set_stack_pointer_value s v ctx).
Proof. intros Hs Hwf' Hv. rewrite set_sp_with_low by done. apply plain_set_reg_at. Qed.

Lemma moved_sp_keeps s v ctx r : stack_size_ok s -> regs_wf ctx -> in_word s v -> 0 <= r -> r <> REG_RSP ->
  regs_wf (cpu_set_stack_pointer_value s v ctx) /\ reg_at (cpu_set_stack_pointer_value s v ctx) r = reg_at ctx r.
Proof.
  intros Hs Hwf' Hv Hr0 Hne. rewrite set_sp_with_low by done. split.
  - apply set_reg_at_wf; [| done]. apply with_low_in_word; [done | by apply reg_at_in_word | done].
  - rewrite reg_at_set_reg_at by (done || (split; [discriminate | reflexivity])). by destruct (Z.eqb_spec r REG_RSP).
Qed.

(** ENTER does all of its pushes or none.  For every operand size, stack address size and
    nesting level from 0 to 31: when one of the enclosing frames' pointers cannot be read, or a byte
    of one of the slots to be filled cannot be written, the fault of the first one is pending and
    registers and memory are as they were.  Otherwise the caller's frame pointer, the pointers to
    the enclosing frames and (at level 1 and above) the new frame's address lie in consecutive slots
    below the stack pointer, RBP points to the first of them at the operand size, and the stack
    pointer is the requested number of bytes below the last. *)
Theorem enter_all_or_nothing inst (Hsizes : enter_size_ok (i_operand_size inst) (i_address_size inst)) :
  let e' := final (execute_enter_with_decoded inst) e in
  enter_outcome e inst e' /\
  (cpu_has_exception (en_context e') = true -> c_regs (en_context e') = c_regs (en_context e) /\ ms_heap (en_mem e') = ms_heap (en_mem e)).
Proof.
  cbv zeta. pose proof (enter_spec e Hr Hwf inst Hsizes) as Ho. split; [exact Ho |]. unfold enter_outcome in Ho. cbv zeta in Ho. intros Hx.
  assert (Hkept : forall v ad acc e', faults e v ad acc e' -> c_regs (en_context e') = c_regs (en_context e) /\ ms_heap (en_mem e') = ms_heap (en_mem e)).
  { intros v ad acc e' Hf. split; [by eapply faults_regs |]. destruct Hf as (e1 & Hs & ->). exact (same_cpu_heap _ _ Hs). }
  destruct (slots_fault e _ MM_PROT_READ _) as [[ad v] |]; [by eapply Hkept |].
  destruct (slots_fault e _ MM_PROT_WRITE _) as [[ad v] |]; [by eapply Hkept |].
  destruct Ho as (e1 & _ & Heq). rewrite Heq in Hx. cbn [en_context set_en_context] in Hx. unfold enter_context in Hx.
  rewrite set_sp_exception, (plain_has_exception _ _ (plain_set_reg _ _ _ _)) in Hx. destruct Hr as (_ & _ & Hx'). congruence.
Qed.

(** What ENTER leaves in the registers LEAVE looks at. *)
Lemma enter_context_frame inst : enter_size_ok (i_operand_size inst) (i_address_size inst) -> i_address_size inst <= i_operand_size inst ->
  let ctx := enter_context e inst in
  plain (en_context e) ctx /\ regs_wf ctx /\ wrap (i_address_size inst) (reg_at ctx REG_RBP) = enter_slot e inst 1 /\
  set_reg (i_operand_size inst) REG_RBP (get_reg (i_operand_size inst) (en_context e) REG_RBP)
    (cpu_set_stack_pointer_value (i_address_size inst) (wrap (i_address_size inst) (enter_slot e inst 1 + i_operand_size inst / 8)) ctx) =
  set_reg (i_operand_size inst) REG_RBP (get_reg (i_operand_size inst) (en_context e) REG_RBP) (en_context e).
Proof.
  intros (Hw & Hs & _) Hle. unfold enter_context. cbv zeta. set (s := i_address_size inst) in *. set (w := i_operand_size inst) in *.
  set (top := enter_slot e inst 1). assert (H0 : 0 <= s) by (clearbody s; destruct Hs as [-> | [-> | ->]]; lia).
  pose proof (push_width_nonneg w Hw) as Hw0. assert (Hrbp : 0 <= REG_RBP < 16) by (unfold REG_RBP; lia).
  destruct (set_reg_stack w REG_RBP (wrap w top) (en_context e) Hw Hrbp Hwf (wrap_range w top Hw0)) as (Hwf1 & Hlow & Helse).
  set (ctx1 := set_reg w REG_RBP (wrap w top) (en_context e)) in *. set (x := wrap s (enter_slot e inst (enter_slots inst) - frame_bytes inst)).
  assert (Hx : in_word s x) by (by apply wrap_range).
  destruct (moved_sp_keeps s x ctx1 REG_RBP Hs Hwf1 Hx (proj1 Hrbp)) as [Hwf2 Hkeep]; [discriminate |]. split_and!.
  - eapply plain_trans; [apply plain_set_reg | by apply plain_set_sp].
  - exact Hwf2.
  - rewrite Hkeep, <- (wrap_wrap_le s w) by (clearbody s w; lia). rewrite Hlow, wrap_wrap_le by (clearbody s w; lia).
    unfold top, enter_slot, slot_below. fold s. by apply wrap_wrap.
  - assert (Hback : wrap s (top + w / 8) = wrap s (reg_at ctx1 REG_RSP)).
    { rewrite Helse by (unfold REG_RSP, REG_RBP; lia). unfold top, enter_slot, slot_below. fold s w. rewrite wrap_add_l by done. f_equal. lia. }
    rewrite Hback, sp_restore by done. unfold ctx1. apply set_reg_twice; [exact Hw | exact Hrbp | exact Hwf | | by apply wrap_range].
    rewrite (get_reg_slice _ _ _ (push_width_reg _ Hw) Hwf). by apply wrap_range.
Qed.

(** C34: LEAVE undoes ENTER.  At every nesting level, operand size and stack address size no larger
    than it: when ENTER completes, the frame's first slot is readable, its bytes do not share host
    bytes and none with the other slots, LEAVE right after it gives the CPU context back as it was,
    the stack pointer and the frame pointer included (with a 32-bit operand size RBP loses its high
    half, as every 32-bit register write makes it). *)
Theorem leave_undoes_enter enter leave
  (Hsizes : enter_size_ok (i_operand_size enter) (i_address_size enter)) (Hle : i_address_size enter <= i_operand_size enter)
  (Hsame : i_operand_size leave = i_operand_size enter /\ i_address_size leave = i_address_size enter) :
  let w := i_operand_size enter in let top := enter_slot e enter 1 in
  let e1 := final (execute_enter_with_decoded enter) e in
  cpu_has_exception (en_context e1) = false ->
  first_fault e top (w / 8) MM_PROT_READ = None -> NoDup (hosts_of e top (w / 8)) ->
  Forall (fun k => hosts_of e top (w / 8) ## hosts_of e (enter_slot e enter k) (w / 8)) (seq 2 (Z.to_nat (nesting enter))) ->
  en_context (final (execute_leave_with_decoded leave) e1) = set_reg w REG_RBP (get_reg w (en_context e) REG_RBP) (en_context e).
Proof.
  intros w top e1 Hx Hf Hnd Hd. pose proof Hsizes as (Hw & _).
  destruct (enter_completed e enter e1 (enter_spec e Hr Hwf enter Hsizes) Hx) as (e0 & Hall & He1).
  destruct (enter_context_frame enter Hsizes Hle) as (Hplain & Hwf1 & Hframe & Hback).
  pose proof (stored_all_context _ _ _ Hall) as Hc0. destruct Hsame as [Hwl Hsl].
  assert (Hr1 : cpu_ready e1).
  { rewrite He1. apply context_ready; [by eapply stored_all_ready | rewrite Hc0; by rewrite Hplain |]. by rewrite He1 in Hx. }
  pose proof (leave_spec leave e1 (enter_context e enter)) as Hl. rewrite Hwl, Hsl in Hl. cbv zeta in Hl. rewrite Hframe in Hl.
  rewrite (Hl Hsizes Hr1 Hwf1); [| by rewrite He1 |].
  - assert (Hv : guest_value e1 top (w / 8) = get_reg w (en_context e) REG_RBP)
      by (rewrite He1; exact (enter_frame_value e Hwf enter e0 Hw Hall Hf Hnd Hd)).
    unfold w, top in Hv. rewrite Hv. exact Hback.
  - rewrite He1. rewrite plain_first_fault by (by rewrite Hc0). by rewrite (stored_all_kept _ _ _ _ _ _ Hall).
Qed.

End frames_correct.

(** ** POPF *)

(** The architecture's rule: the status and control flags and NT always; IF up to the I/O privilege
    level, that level at privilege 0, and both outside protected mode; AC and ID at the wide sizes. *)
Definition popf_permitted (protected supervisor trusted narrow : bool) (i : Z) : bool :=
  one_of i [0; 2; 4; 6; 7; 8; 10; 11; 14] || ((i =? 9) && (negb protected || trusted)) ||
  (one_of i [12; 13] && (negb protected || supervisor)) || (one_of i [18; 21] && negb narrow).

Definition popf_bit (w : Z) (ctx : CPU_CONTEXT) (i : Z) : bool :=
  let iopl := Z.land (Z.shiftr (c_rflags ctx) 12) 0x3 in
  popf_permitted (Z.testbit (arr_get 0 (c_control_regs ctx) 0) 0) (c_cpl ctx =? 0) (c_cpl ctx <=? iopl) (w =? 16) i.

(** The code's mask from the same four questions. *)
Definition popf_mask (protected supervisor trusted narrow : bool) : Z :=
  let mask := if narrow then PUSHF_LOW16_WRITABLE_MASK else PUSHF_EXTENDED_WRITABLE_MASK in
  let mask :=
    if protected && negb supervisor then
      let mask := Z.ldiff mask PUSHF_IOPL_MASK in if negb trusted then Z.ldiff mask PUSHF_IF_BIT else mask
    else mask in
  Z.ldiff mask (Z.lor (Z.lor (Z.lor PUSHF_RF_BIT PUSHF_VM_BIT) PUSHF_VIF_BIT) PUSHF_VIP_BIT).

Lemma popf_mask_table protected supervisor trusted narrow :
  implb supervisor trusted = true ->
  forallb (fun i => eqb (Z.testbit (popf_mask protected supervisor trusted narrow) i) (popf_permitted protected supervisor trusted narrow i)) (seqZ 0 22) = true /\
  (popf_mask protected supervisor trusted narrow <? 2 ^ 22) = true /\ (0 <=? popf_mask protected supervisor trusted narrow) = true.
Proof. by destruct protected, supervisor, trusted, narrow. Qed.

Lemma popf_mask_bits w ctx i : 0 <= i -> Z.testbit (popf_writable_mask w ctx) i = popf_bit w ctx i.
Proof.
  intros Hi. set (protected := Z.testbit (arr_get 0 (c_control_regs ctx) 0) 0).
  set (iopl := Z.land (Z.shiftr (c_rflags ctx) 12) 0x3). assert (Hiopl : 0 <= iopl) by (apply Z.land_nonneg; lia).
  assert (Hmask : popf_writable_mask w ctx = popf_mask protected (c_cpl ctx =? 0) (c_cpl ctx <=? iopl) (w =? 16)).
  { unfold popf_writable_mask, popf_mask. cbv zeta. fold iopl. change 1 with (2 ^ 0). rewrite has_bits_pow2 by lia. fold protected.
    by rewrite <- Z.ltb_antisym. }
  destruct (popf_mask_table protected (c_cpl ctx =? 0) (c_cpl ctx <=? iopl) (w =? 16)) as (Htable & Hhigh & Hlow).
  { destruct (Z.eqb_spec (c_cpl ctx) 0) as [-> |]; [| done]. cbn [implb]. lia. }
  rewrite Hmask. unfold popf_bit. fold protected iopl. destruct (Z.ltb_spec i 22).
  - rewrite forallb_forall in Htable. apply eqb_prop, Htable, list_elem_of_In, elem_of_seqZ. lia.
  - rewrite (testbit_high 22) by (unfold in_word; lia). unfold popf_permitted, one_of. cbn [existsb]. lia.
Qed.

Section popf.
Context `{Callbacks}.
Variable e : cpueaxh_engine.
Hypotheses (Hr : cpu_ready e) (Hwf : regs_wf (en_context e)).

(** POPF changes exactly the flags the privilege level may change.  At every operand size the
    mode has a slot for, when the top of the stack can be read: each bit of RFLAGS the architecture
    lets the current privilege, I/O privilege level and mode change becomes that of the popped
    value, RF becomes zero and every other bit stays, and the stack pointer moves past the slot;
    otherwise the fault is pending and the flags are as they were. *)
Theorem popf_changes_permitted_flags inst
  (Hop : i_opcode inst <> 0x9C) (Hw : push_width (i_operand_size inst)) (Hslot : slot_ok e (i_operand_size inst / 8)) :
  let w := i_operand_size inst in
  let e' := final (execute_pushf_with_decoded inst) e in
  match first_fault e (stack_top e) (w / 8) MM_PROT_READ with
  | Some (ad, v) => faults e v ad MM_PROT_READ e' /\ c_rflags (en_context e') = c_rflags (en_context e)
  | None => exists e1 flags, same_cpu e e1 /\ e' = set_en_context (set_c_rflags flags (en_context (with_sp e (w / 8) e1))) e1 /\
      forall i, 0 <= i -> Z.testbit flags i =
        if popf_bit w (en_context e) i then Z.testbit (guest_value e (stack_top e) (w / 8)) i
        else Z.testbit (c_rflags (en_context e)) i && negb (i =? 16)
  end.
Proof.
  cbv zeta. set (w := i_operand_size inst) in *. unfold final, execute_pushf_with_decoded. fold w. replace (i_opcode inst =? 0x9C) with false by lia.
  assert (Hrun : popf_value w = pop_value (w / 8)) by (clearbody w; by destruct Hw as [-> | [-> | ->]]). rewrite Hrun.
  pose proof (pop_spec e (w / 8) Hr Hwf Hslot) as Hp.
  destruct (first_fault e (stack_top e) (w / 8) MM_PROT_READ) as [[ad v] |] eqn:Ef; destruct Hp as (e1 & Hs & Hpop); rewrite (bind_run _ _ _ _ _ Hpop).
  - rewrite (bind_run (get_ctx cpu_has_exception) _ e1 _ e1 eq_refl), (first_fault_pending _ _ _ _ _ _ _ Ef Hs). split; [exact Hs |].
    destruct (faults_transfer_refused _ _ _ _ _ (first_fault_not_ok _ _ _ _ _ _ Ef) Hs) as (_ & _ & _ & _ & Hfl & _). exact Hfl.
  - set (moved := with_sp e (w / 8) e1). rewrite (bind_run (get_ctx cpu_has_exception) _ moved _ moved eq_refl).
    assert (Hctx : forall A (f : CPU_CONTEXT -> A), (forall c r, f (set_c_regs r c) = f c) -> f (en_context moved) = f (en_context e)).
    { intros A f Hf. unfold moved, with_sp. cbn [en_context set_en_context]. rewrite set_sp_with_low by (done || apply stack_size_ok_e || apply stack_at_word). apply Hf. }
    rewrite (Hctx bool cpu_has_exception) by done. pose proof Hr as (_ & _ & ->). exists e1. eexists. split; [done |]. split.
    + unfold mod_ctx, st_modify, write_popf_flags. cbn [snd]. assert (H3 : one_of_three w = true) by (clearbody w; by destruct Hw as [-> | [-> | ->]]).
      rewrite H3. reflexivity.
    + intros i Hi. rewrite (Hctx Z (popf_writable_mask w)) by done. change (c_rflags (set_c_rflags ?x ?c)) with x. rewrite (Hctx Z c_rflags) by done.
      rewrite Z.ldiff_spec, Z.lor_spec, Z.ldiff_spec, Z.land_spec, popf_mask_bits by done.
      change PUSHF_RF_BIT with (2 ^ 16). rewrite Z.pow2_bits_eqb, (Z.eqb_sym 16) by lia.
      destruct (popf_bit w (en_context e) i) eqn:Eb; cbn [negb andb orb]; rewrite ?andb_true_r, ?andb_false_r, ?orb_false_r; [| done].
      destruct (Z.eqb_spec i 16) as [-> |]; [| by rewrite andb_true_r].
      unfold popf_bit, popf_permitted, one_of in Eb. cbn in Eb. by rewrite ?andb_false_r in Eb.
Qed.

End popf.

(** ** Replay *)

Lemma uniform_lahf available code inst offset lock : i_has_modrm inst = false -> uniform (lahf_operands available code inst offset lock).
Proof.
  intros Hm. unfold lahf_operands. apply uniform_ud_plain; [sticky_steps |].
  refine (uniform_gets zero_inst cpu_is_64bit_code (fun _ long => _) same_decoding_64 _). intros long. apply uniform_ud_plain; [sticky_steps |].
  apply uniform_with_inst_size; [sticky_steps |]. by apply uniform_here.
Qed.

#[export] Instance lahf_replayable available : Replayable (lahf_rules available).
Proof. split; intros; cbn; [apply ret_stage | unfold lahf_operands; sticky_steps | by apply uniform_lahf]. Qed.
#[export] Instance flags_replayable : Replayable flags_rules.
Proof. split; intros; cbn; [apply ret_stage | auto with sticky | by apply uniform_implied]. Qed.

(** What LEAVE decodes to outside 64-bit code. *)
Definition leave_decoded (ctx : CPU_CONTEXT) : DecodedInstruction :=
  set_i_inst_size 1 (set_i_address_size (if sd_db (seg_descriptor (c_ss ctx)) then 32 else 16) (set_i_operand_size 32 (set_i_opcode 0xC9 zero_inst))).

Lemma decode_leave_byte ctx : cpu_is_64bit_code ctx = false -> fst (decode_leave_instruction [0xC9] ctx) = leave_decoded ctx.
Proof.
  intros H64. unfold decode_leave_instruction, decode_by. unfold st_bind at 1, st_modify at 1. set (ctx0 := cpu_reset_prefix_state ctx).
  assert (Hrex : take_rex (dr_rex_checked leave_rules) 0xC9 ctx0 = (false, ctx0)).
  { unfold take_rex, cpu_try_apply_rex_prefix, st_bind, st_gets. cbn. by destruct (cpu_allows_rex_prefix ctx0). }
  assert (Hloop : inst_prefix_loop leave_rules [0xC9] 0 false ctx0 = ((0, false), ctx0)).
  { cbn [inst_prefix_loop]. cbn [Z.eqb Pos.eqb]. by rewrite (bind_run _ _ _ _ _ Hrex). }
  rewrite (bind_run _ _ _ _ _ Hloop). 
  assert (Hsizes : decode_leave_operand_size ctx0 = 32 /\ decode_leave_stack_addr_size ctx0 = if sd_db (seg_descriptor (c_ss ctx)) then 32 else 16).
  { unfold decode_leave_operand_size, decode_leave_stack_addr_size. change (cpu_is_64bit_code ctx0) with (cpu_is_64bit_code ctx). by rewrite H64. }
  destruct Hsizes as [Hos Has]. change (size_of [0xC9] <=? 0) with false. cbn iota.
  rewrite (bind_run (dr_opcode leave_rules [0xC9] 0) _ ctx0 (0xC9, 1, true) ctx0 eq_refl). cbn [negb].
  rewrite (bind_run (st_gets decoded_operand_size) _ ctx0 _ ctx0 eq_refl), (bind_run (st_gets _) _ ctx0 _ ctx0 eq_refl). cbv zeta.
  assert (Hstage : forall inst, dr_operands leave_rules [0xC9] inst 1 false ctx0 =
    ((set_i_inst_size 1 (set_i_address_size (if sd_db (seg_descriptor (c_ss ctx)) then 32 else 16) (set_i_operand_size 32 inst)), 1, true), ctx0)).
  { intros inst. cbv [dr_operands leave_rules sized_operands with_inst_size st_bind st_gets st_ret ud_if negb]. by rewrite Hos, Has. }
  rewrite (bind_run _ _ _ _ _ (Hstage _)). reflexivity.
Qed.

(** A cached LEAVE keeps the stack size it was decoded with.  The key of the instruction cache
    tells long mode, the L and the D bit of the code segment, and for any two contexts outside
    64-bit code that agree in them it is the same, though one has a 32-bit and the other a 16-bit
    stack segment; LEAVE decodes to a 32-bit stack in one and to a 16-bit stack in the other, and
    to the same otherwise.  An entry made before SS is loaded is thus replayed after it at the old
    stack size. *)
Theorem leave_entry_keeps_stack_size ctx1 ctx2
  (Hmode : code_mode ctx1 = code_mode ctx2) (H64 : cpu_is_64bit_code ctx1 = false)
  (H1 : sd_db (seg_descriptor (c_ss ctx1)) = true) (H2 : sd_db (seg_descriptor (c_ss ctx2)) = false) :
  let inst1 := fst (decode_leave_instruction [0xC9] ctx1) in
  let inst2 := fst (decode_leave_instruction [0xC9] ctx2) in
  cpu_inst_cache_compute_mode_key_bits ctx1 = cpu_inst_cache_compute_mode_key_bits ctx2 /\
  i_address_size inst1 = 32 /\ i_address_size inst2 = 16 /\ inst2 = set_i_address_size 16 inst1.
Proof.
  cbv zeta. injection Hmode as Hlong Hl Hd.
  assert (H64' : cpu_is_64bit_code ctx2 = false) by (rewrite <- H64; unfold cpu_is_64bit_code, cpu_long_mode_active; by rewrite Hlong, Hl).
  rewrite !decode_leave_byte by done. unfold leave_decoded. rewrite H1, H2. split; [| done].
  unfold cpu_inst_cache_compute_mode_key_bits. by rewrite Hlong, Hl, Hd.
Qed.

(** ** PUSH and POP at the edge of the mapped pages, a frame and its end *)

Module PushPopExample.
Import Bump EngineExample MemoryExample StackExample.

Definition push_word : DecodedInstruction := set_i_operand_size 32 (set_i_immediate 0x11223344 (set_i_opcode 0x68 zero_inst)).
Definition pop_rcx : DecodedInstruction := set_i_operand_size 32 (set_i_opcode 0x59 zero_inst).
Definition popf32 : DecodedInstruction := set_i_operand_size 32 (set_i_opcode 0x9D zero_inst).
Definition frame (opcode immediate : Z) : DecodedInstruction :=
  set_i_address_size 64 (set_i_operand_size 64 (set_i_immediate immediate (set_i_opcode opcode zero_inst))).

Lemma sp_4 : in_word 64 0x1004. Proof. by zcompute. Qed.
Lemma sp_2 : in_word 64 0x1002. Proof. by zcompute. Qed.
Lemma sp_frame : in_word 64 0x2010. Proof. by zcompute. Qed.
Lemma sp_unmapped : in_word 64 0xFFE. Proof. by zcompute. Qed.

(** What the outcomes say of the registers. *)
Lemma pushed_sp e w v e' : regs_wf (en_context e) -> push_outcome e w (Imm v) e' ->
  first_fault e (stack_at e (- (w / 8))) (w / 8) MM_PROT_WRITE = None -> stack_top e' = stack_at e (- (w / 8)).
Proof. intros Hwf H E. cbn in H. unfold pushed_outcome in H. cbv zeta in H. rewrite E in H. destruct H as (e1 & _ & ->). by apply reg_at_with_sp. Qed.
Lemma push_faulted e w v e' f : push_outcome e w (Imm v) e' ->
  first_fault e (stack_at e (- (w / 8))) (w / 8) MM_PROT_WRITE = Some f -> c_regs (en_context e') = c_regs (en_context e).
Proof. intros H E. cbn in H. unfold pushed_outcome in H. cbv zeta in H. rewrite E in H. destruct f. by eapply faults_regs. Qed.
Lemma popped_in e w inst reg e' : pop_outcome e w inst (PopReg reg) e' -> first_fault e (stack_top e) (w / 8) MM_PROT_READ = None ->
  en_context e' = set_reg w reg (guest_value e (stack_top e) (w / 8)) (cpu_set_stack_pointer_value (stack_size e) (stack_at e (w / 8)) (en_context e)).
Proof. intros H E. unfold pop_outcome in H. rewrite E in H. by destruct H as (e1 & _ & ->). Qed.
Lemma pop_faulted e w inst dst e' f : pop_outcome e w inst dst e' -> first_fault e (stack_top e) (w / 8) MM_PROT_READ = Some f ->
  c_regs (en_context e') = c_regs (en_context e).
Proof. intros H E. unfold pop_outcome in H. rewrite E in H. destruct f. by eapply faults_regs. Qed.

Lemma push_instructions_correct_witness :
  stack_top (final (execute_push_with_decoded 0 push_word) (stacked 0x1004)) = 0x1000 /\
  c_regs (en_context (final (execute_push_with_decoded 0 push_word) (stacked 0x1002))) = c_regs (en_context (stacked 0x1002)).
Proof.
  assert (Hm : in_word 64 (i_mem_address push_word)) by zcompute.
  assert (Hp : forall v, push_plan push_word (en_context (stacked v)) = Some (32, Imm 0x11223344)) by (intros; reflexivity).
  assert (first_fault (stacked 0x1004) (stack_at (stacked 0x1004) (- (32 / 8))) (32 / 8) MM_PROT_WRITE = None) as E1 by (vm_compute; reflexivity).
  assert (first_fault (stacked 0x1002) (stack_at (stacked 0x1002) (- (32 / 8))) (32 / 8) MM_PROT_WRITE = Some (0xFFE, V_UNMAPPED)) as E2 by (vm_compute; reflexivity).
  assert (stack_at (stacked 0x1004) (- (32 / 8)) = 0x1000) as Ea by (vm_compute; reflexivity).
  split.
  - exact (eq_trans (pushed_sp _ _ _ _ (stacked_regs _ sp_4) (push_instructions_correct (stacked 0x1004) (stacked_ready _) (stacked_regs _ sp_4) 0 push_word 32 _ Hm (Hp _) (slot_4 _)) E1) Ea).
  - exact (push_faulted _ _ _ _ _ (push_instructions_correct (stacked 0x1002) (stacked_ready _) (stacked_regs _ sp_2) 0 push_word 32 _ Hm (Hp _) (slot_4 _)) E2).
Defined.

Lemma pop_instructions_correct_witness :
  reg_at (en_context (final (execute_pop_with_decoded pop_rcx) (stacked 0x1004))) REG_RSP = 0x1008 /\
  c_regs (en_context (final (execute_pop_with_decoded pop_rcx) (stacked 0xFFE))) = c_regs (en_context (stacked 0xFFE)).
Proof.
  assert (Hp : forall v, pop_plan pop_rcx (en_context (stacked v)) = Some (32, PopReg REG_RCX)) by (intros; reflexivity).
  assert (first_fault (stacked 0x1004) (stack_top (stacked 0x1004)) (32 / 8) MM_PROT_READ = None) as E1 by (vm_compute; reflexivity).
  assert (first_fault (stacked 0xFFE) (stack_top (stacked 0xFFE)) (32 / 8) MM_PROT_READ = Some (0xFFE, V_UNMAPPED)) as E2 by (vm_compute; reflexivity).
  split.
  - rewrite (popped_in _ _ _ _ _ (pop_instructions_correct (stacked 0x1004) (stacked_ready _) (stacked_regs _ sp_4) pop_rcx 32 _ (Hp _) (slot_4 _)) E1).
    vm_compute. reflexivity.
  - exact (pop_faulted _ _ _ _ _ _ (pop_instructions_correct (stacked 0xFFE) (stacked_ready _) (stacked_regs _ sp_unmapped) pop_rcx 32 _ (Hp _) (slot_4 _)) E2).
Defined.

Lemma popf_bit_kept e w i e' :
  match first_fault e (stack_top e) (w / 8) MM_PROT_READ with
  | Some (ad, v) => faults e v ad MM_PROT_READ e' /\ c_rflags (en_context e') = c_rflags (en_context e)
  | None => exists e1 flags, same_cpu e e1 /\ e' = set_en_context (set_c_rflags flags (en_context (with_sp e (w / 8) e1))) e1 /\
      forall i, 0 <= i -> Z.testbit flags i =
        if popf_bit w (en_context e) i then Z.testbit (guest_value e (stack_top e) (w / 8)) i
        else Z.testbit (c_rflags (en_context e)) i && negb (i =? 16)
  end ->
  first_fault e (stack_top e) (w / 8) MM_PROT_READ = None -> popf_bit w (en_context e) i = false -> 0 <= i -> i <> 16 ->
  Z.testbit (c_rflags (en_context e')) i = Z.testbit (c_rflags (en_context e)) i.
Proof.
  intros H E Hb Hi H16. rewrite E in H. destruct H as (e1 & flags & _ & -> & Hbits). change (c_rflags (en_context (set_en_context (set_c_rflags flags ?c) e1))) with flags.
  rewrite (Hbits i Hi), Hb. replace (i =? 16) with false by lia. apply andb_true_r.
Qed.

Lemma popf_changes_permitted_flags_witness :
  Z.testbit (c_rflags (en_context (final (execute_pushf_with_decoded popf32) (stacked 0x1004)))) 17 = Z.testbit (c_rflags (en_context (stacked 0x1004))) 17.
Proof.
  assert (Hop : i_opcode popf32 <> 0x9C) by discriminate. assert (Hw : push_width (i_operand_size popf32)) by (right; left; reflexivity).
  assert (first_fault (stacked 0x1004) (stack_top (stacked 0x1004)) (i_operand_size popf32 / 8) MM_PROT_READ = None) as E by (vm_compute; reflexivity).
  assert (popf_bit (i_operand_size popf32) (en_context (stacked 0x1004)) 17 = false) as Eb by (vm_compute; reflexivity).
  assert (Hslot : slot_ok (stacked 0x1004) (i_operand_size popf32 / 8)) by exact (slot_4 _).
  assert (Hi : 0 <= 17) by discriminate. assert (H16 : 17 <> 16) by discriminate.
  exact (popf_bit_kept (stacked 0x1004) (i_operand_size popf32) 17 (final (execute_pushf_with_decoded popf32) (stacked 0x1004))
    (popf_changes_permitted_flags (stacked 0x1004) (stacked_ready _) (stacked_regs _ sp_4) popf32 Hop Hw Hslot) E Eb Hi H16).
Defined.

Lemma enter_refused e inst e' f : enter_outcome e inst e' ->
  slots_fault e (i_operand_size inst / 8) MM_PROT_READ (enter_pointers e inst) = Some f -> cpu_has_exception (en_context e') = true.
Proof.
  intros H E. unfold enter_outcome in H. cbv zeta in H. rewrite E in H. destruct f as [ad v]. exact (faults_pending _ _ _ _ _ (slots_fault_not_ok _ _ _ _ _ _ E) H).
Qed.
Lemma enter_done e inst e' : cpu_ready e -> enter_outcome e inst e' ->
  slots_fault e (i_operand_size inst / 8) MM_PROT_READ (enter_pointers e inst) = None ->
  slots_fault e (i_operand_size inst / 8) MM_PROT_WRITE (map (enter_slot e inst) (seq 1 (enter_slots inst))) = None ->
  cpu_has_exception (en_context e') = false.
Proof.
  intros (_ & _ & Hx) H E1 E2. unfold enter_outcome in H. cbv zeta in H. rewrite E1, E2 in H. destruct H as (e1 & _ & ->).
  cbn [en_context set_en_context]. unfold enter_context. rewrite set_sp_exception. by rewrite (plain_has_exception _ _ (plain_set_reg _ _ _ _)).
Qed.

Lemma frame_sizes opcode immediate : enter_size_ok (i_operand_size (frame opcode immediate)) (i_address_size (frame opcode immediate)).
Proof. split; [by right; right | split; [by right; right | by intros [H _]]]. Qed.

Lemma set_reg_same ctx r : regs_wf ctx -> 0 <= r < 16 -> set_reg 64 r (get_reg 64 ctx r) ctx = ctx.
Proof.
  intros [Hl _] Hreg. change (set_c_regs (arr_set (c_regs ctx) r (arr_get 0 (c_regs ctx) r)) ctx = ctx).
  unfold arr_set, arr_get. rewrite list_insert_id; [apply set_c_regs_self |]. rewrite nth_lookup.
  destruct (lookup_lt_is_Some_2 (c_regs ctx) (Z.to_nat r)) as [x Hx]; [rewrite Hl; lia |]. by rewrite Hx.
Qed.
Lemma rbp_range : 0 <= REG_RBP < 16.
Proof. split; [discriminate | reflexivity]. Qed.

Definition enter2 : DecodedInstruction := frame 0xC8 0x020020.
Definition enter1 : DecodedInstruction := frame 0xC8 0x010020.

(** At nesting level 2 the enclosing frame's pointer would be below address 0. *)
Lemma enter_all_or_nothing_witness :
  let e' := final (execute_enter_with_decoded enter2) (stacked 0x2010) in
  c_regs (en_context e') = c_regs (en_context (stacked 0x2010)) /\ ms_heap (en_mem e') = ms_heap (en_mem (stacked 0x2010)).
Proof.
  assert (slots_fault (stacked 0x2010) (i_operand_size enter2 / 8) MM_PROT_READ (enter_pointers (stacked 0x2010) enter2) =
    Some (0xFFFFFFFFFFFFFFF8, V_UNMAPPED)) as E by (vm_compute; reflexivity).
  destruct (enter_all_or_nothing (stacked 0x2010) (stacked_ready _) (stacked_regs _ sp_frame) enter2 (frame_sizes _ _)) as [Ho Hkept].
  exact (Hkept (enter_refused _ _ _ _ Ho E)).
Defined.

Lemma enter_1_completes : cpu_has_exception (en_context (final (execute_enter_with_decoded enter1) (stacked 0x2010))) = false.
Proof.
  assert (slots_fault (stacked 0x2010) (i_operand_size enter1 / 8) MM_PROT_READ (enter_pointers (stacked 0x2010) enter1) = None) as E1
    by (vm_compute; reflexivity).
  assert (slots_fault (stacked 0x2010) (i_operand_size enter1 / 8) MM_PROT_WRITE
    (map (enter_slot (stacked 0x2010) enter1) (seq 1 (enter_slots enter1))) = None) as E2 by (vm_compute; reflexivity).
  exact (enter_done _ _ _ (stacked_ready _) (enter_spec (stacked 0x2010) (stacked_ready _) (stacked_regs _ sp_frame) enter1 (frame_sizes _ _)) E1 E2).
Qed.

Lemma leave_undoes_enter_witness :
  en_context (final (execute_leave_with_decoded (frame 0xC9 0)) (final (execute_enter_with_decoded enter1) (stacked 0x2010))) =
  en_context (stacked 0x2010).
Proof.
  assert (Hle : i_address_size enter1 <= i_operand_size enter1) by (vm_compute; discriminate).
  assert (Hrd : first_fault (stacked 0x2010) (enter_slot (stacked 0x2010) enter1 1) (i_operand_size enter1 / 8) MM_PROT_READ = None)
    by (vm_compute; reflexivity).
  assert (Hnd : NoDup (hosts_of (stacked 0x2010) (enter_slot (stacked 0x2010) enter1 1) (i_operand_size enter1 / 8)))
    by (apply (bool_decide_unpack _); vm_compute; exact I).
  assert (Hd : Forall (fun k => hosts_of (stacked 0x2010) (enter_slot (stacked 0x2010) enter1 1) (i_operand_size enter1 / 8) ##
      hosts_of (stacked 0x2010) (enter_slot (stacked 0x2010) enter1 k) (i_operand_size enter1 / 8))
      (seq 2 (Z.to_nat (nesting enter1)))).
  { change (Z.to_nat (nesting enter1)) with 1%nat. apply Forall_singleton. apply ControlExample.apart_by_test. vm_compute. reflexivity. }
  assert (Hback : set_reg 64 REG_RBP (get_reg 64 (en_context (stacked 0x2010)) REG_RBP) (en_context (stacked 0x2010)) = en_context (stacked 0x2010))
    by (exact (set_reg_same (en_context (stacked 0x2010)) REG_RBP (stacked_regs _ sp_frame) rbp_range)).
  assert (Hsizes : enter_size_ok (i_operand_size enter1) (i_address_size enter1)) by exact (frame_sizes _ _).
  assert (Hsame : i_operand_size (frame 0xC9 0) = i_operand_size enter1 /\ i_address_size (frame 0xC9 0) = i_address_size enter1) by (split; reflexivity).
  pose proof (leave_undoes_enter (stacked 0x2010) (stacked_ready _) (stacked_regs _ sp_frame) enter1 (frame 0xC9 0) Hsizes Hle Hsame) as H.
  cbv zeta in H. specialize (H enter_1_completes). specialize (H Hrd). specialize (H Hnd). specialize (H Hd).
  exact (eq_trans H Hback).
Defined.

(** The same compatibility-mode code, with a 32-bit and a 16-bit stack. *)
Definition compat (wide_stack : bool) : CPU_CONTEXT :=
  set_c_ss (mkSeg 0x10 (mkDesc 0 0 0 0 false false wide_stack false)) (set_c_cs (mkSeg 8 zero_desc) (en_context machine)).

Lemma leave_entry_keeps_stack_size_witness :
  cpu_inst_cache_compute_mode_key_bits (compat true) = cpu_inst_cache_compute_mode_key_bits (compat false) /\
  i_address_size (fst (decode_leave_instruction [0xC9] (compat true))) <> i_address_size (fst (decode_leave_instruction [0xC9] (compat false))).
Proof.
  assert (H64 : cpu_is_64bit_code (compat true) = false) by (vm_compute; reflexivity).
  destruct (leave_entry_keeps_stack_size (compat true) (compat false) eq_refl H64 eq_refl eq_refl) as (Hk & H1 & H2 & _).
  split; [exact Hk |]. rewrite H1, H2. discriminate.
Defined.

End PushPopExample.
