(* ===== verification/StringOps.v ===== *)
(** * instructions/movs, stos, lods, scas, cmps, rep.hpp: the string instructions and REP

    An iteration moves, fills, loads, scans or compares one element and steps the index registers
    in the direction of DF; REP, REPE and REPNE repeat it while RCX counts down.  Each instruction
    file has its own copies of the index and memory helpers; they are one definition here wherever
    the copies agree.  The repetition recurses on the count it starts with, which the code's loop
    counts down to zero.  The theorems: what one iteration does in every case; REP MOVS and REP STOS
    forward are one store of all the bytes; REPNE SCAS stops at the first match; and a repetition
    interrupted by a fault goes on from its registers as if it had not been. *)

From Stdlib Require Import ZArith Bool List Lia.
From stdpp Require Import base tactics list relations.
From S2P Require Import Prelude CpuDef Flags HostMemory RegionTable RegionSplit Patches PageCache InstCache Machine CpuMemory Registers DispatchHelpers WideMemory Stack Segments Alu Executor Decoder AluDecode InstDecode Operands Replay Control Move PushPop.

(** ** Decoding *)

(** [decode_movs_operand_size] and its like; [byte_opcode] is the instruction's opcode of bytes. *)
Definition string_operand_size (byte_opcode opcode : Z) (ctx : CPU_CONTEXT) : Z :=
  if opcode =? byte_opcode then 8
  else if cpu_is_64bit_code ctx then (if c_rex_w ctx then 64 else if c_operand_size_override ctx then 16 else 32)
  else if c_operand_size_override ctx then 16 else 32.
Definition string_address_size (ctx : CPU_CONTEXT) : Z :=
  if cpu_is_64bit_code ctx then (if c_address_size_override ctx then 32 else 64) else if c_address_size_override ctx then 16 else 32.

(** STOS and SCAS have no source operand. *)
Definition destination_operands (byte_opcode : Z) (code : list Z) (inst : DecodedInstruction) (offset : Z) (lock : bool)
  : ST CPU_CONTEXT (DecodedInstruction * Z * bool) :=
  sized_operands (string_operand_size byte_opcode (i_opcode inst)) string_address_size code inst offset lock.

(** [immediate] is the segment of the source. *)
Definition source_operands (byte_opcode : Z) (code : list Z) (inst : DecodedInstruction) (offset : Z) (lock : bool)
  : ST CPU_CONTEXT (DecodedInstruction * Z * bool) :=
  ud_if lock ;;;
  let* operand := st_gets (string_operand_size byte_opcode (i_opcode inst)) in
  let* address := st_gets string_address_size in
  let* segment := st_gets (fun ctx => cpu_effective_segment_override_or_default ctx SEG_DS) in
  with_inst_size (st_ret (set_i_immediate (u64 segment) (set_i_address_size address (set_i_operand_size operand inst)), offset, true)).

Definition movs_rules : DecoderRules := mkRules true false false true (ret_opcode [0xA4; 0xA5]) (source_operands 0xA4).
Definition cmps_rules : DecoderRules := mkRules true false false true (ret_opcode [0xA6; 0xA7]) (source_operands 0xA6).
Definition stos_rules : DecoderRules := mkRules true false false true (ret_opcode [0xAA; 0xAB]) (destination_operands 0xAA).
Definition lods_rules : DecoderRules := mkRules true false false true (ret_opcode [0xAC; 0xAD]) (source_operands 0xAC).
Definition scas_rules : DecoderRules := mkRules true false false true (ret_opcode [0xAE; 0xAF]) (destination_operands 0xAE).

Definition decode_movs_instruction := decode_by movs_rules.
Definition decode_cmps_instruction := decode_by cmps_rules.
Definition decode_stos_instruction := decode_by stos_rules.
Definition decode_lods_instruction := decode_by lods_rules.
Definition decode_scas_instruction := decode_by scas_rules.

(** ** Index registers *)

Definition index_size (address_size : Z) : bool := one_of address_size [16; 32; 64].

(** [get_movs_index], [get_rep_count] and their like. *)
Definition get_index (reg address_size : Z) : ST CPU_CONTEXT Z :=
  if index_size address_size then st_gets (fun ctx => get_reg address_size ctx reg) else st_modify raise_ud_ctx ;;; st_ret 0.
Definition set_index (reg address_size value : Z) : ST CPU_CONTEXT unit :=
  if index_size address_size then st_modify (set_reg address_size reg (wrap address_size value)) else st_modify raise_ud_ctx.

(** [index - step] where DF is set, [index + step] otherwise. *)
Definition stepped (operand_size index : Z) (ctx : CPU_CONTEXT) : Z :=
  let step := operand_size / 8 in u64 (if has_bits (c_rflags ctx) RFLAGS_DF then index - step else index + step).

Definition step_one (reg address_size operand_size index : Z) : ST CPU_CONTEXT unit :=
  let* next := st_gets (stepped operand_size index) in set_index reg address_size next.
Definition step_both (address_size operand_size source_index dest_index : Z) : ST CPU_CONTEXT unit :=
  let* ctx := st_get in
  set_index REG_RSI address_size (stepped operand_size source_index ctx) ;;;
  set_index REG_RDI address_size (stepped operand_size dest_index ctx).

(** [read_stos_accumulator], [write_lods_accumulator]. *)
Definition string_width (operand_size : Z) : bool := one_of operand_size [8; 16; 32; 64].
Definition read_accumulator (operand_size : Z) : ST CPU_CONTEXT Z :=
  if string_width operand_size then st_gets (fun ctx => get_reg operand_size ctx REG_RAX) else st_modify raise_ud_ctx ;;; st_ret 0.
Definition write_accumulator (operand_size value : Z) : ST CPU_CONTEXT unit :=
  if string_width operand_size then st_modify (set_reg operand_size REG_RAX (wrap operand_size value)) else st_modify raise_ud_ctx.

(** [update_scas_flags], [update_cmps_flags]. *)
Definition string_flags (operand_size left right : Z) (ctx : CPU_CONTEXT) : CPU_CONTEXT :=
  let lhs := wrap operand_size left in
  let rhs := wrap operand_size right in
  if operand_size =? 8 then update_flags_sub8 lhs rhs (u16 (lhs - rhs)) ctx
  else if operand_size =? 16 then update_flags_sub16 lhs rhs (u32 (lhs - rhs)) ctx
  else if operand_size =? 32 then update_flags_sub32 lhs rhs (u32 (lhs - rhs)) ctx
  else if operand_size =? 64 then update_flags_sub64 lhs rhs (u64 (lhs - rhs)) ctx
  else raise_ud_ctx ctx.

(** ** One iteration *)

Section execute.
Context `{Callbacks}.

Definition read_string_value := read_memory_operand.
Definition write_string_value := write_memory_operand.

(** [cpu_segment_base_for_addressing(ctx, segment) + index]. *)
Definition element_address (segment index : Z) (ctx : CPU_CONTEXT) : Z := u64 (cpu_segment_base_for_addressing ctx segment + index).

(** The indices and addresses of both operands, where both are canonical. *)
Definition both_elements (inst : DecodedInstruction) (body : Z -> Z -> Z -> Z -> ST cpueaxh_engine unit) : ST cpueaxh_engine unit :=
  let source_segment := i_immediate inst in
  let* source_index := on_ctx (get_index REG_RSI (i_address_size inst)) in
  let* dest_index := on_ctx (get_index REG_RDI (i_address_size inst)) in
  let* source_addr := get_ctx (element_address source_segment source_index) in
  let* dest_addr := get_ctx (element_address SEG_ES dest_index) in
  let* source_ok := on_ctx (cpu_validate_linear_address source_addr source_segment) in
  if negb source_ok then st_ret tt
  else
    let* dest_ok := on_ctx (cpu_validate_linear_address dest_addr SEG_ES) in
    if negb dest_ok then st_ret tt else body source_index dest_index source_addr dest_addr.

Definition execute_movs_with_decoded (inst : DecodedInstruction) : ST cpueaxh_engine unit :=
  let size := i_operand_size inst in
  both_elements inst (fun source_index dest_index source_addr dest_addr =>
    let* value := read_string_value source_addr size in
    let* faulted := get_ctx cpu_has_exception in
    if faulted then st_ret tt
    else
      write_string_value dest_addr size value ;;;
      let* faulted := get_ctx cpu_has_exception in
      if faulted then st_ret tt else on_ctx (step_both (i_address_size inst) size source_index dest_index)).

Definition execute_cmps_with_decoded (inst : DecodedInstruction) : ST cpueaxh_engine unit :=
  let size := i_operand_size inst in
  both_elements inst (fun source_index dest_index source_addr dest_addr =>
    let* source_value := read_string_value source_addr size in
    let* faulted := get_ctx cpu_has_exception in
    if faulted then st_ret tt
    else
      let* dest_value := read_string_value dest_addr size in
      let* faulted := get_ctx cpu_has_exception in
      if faulted then st_ret tt
      else
        mod_ctx (string_flags size source_value dest_value) ;;;
        on_ctx (step_both (i_address_size inst) size source_index dest_index)).

Definition execute_stos_with_decoded (inst : DecodedInstruction) : ST cpueaxh_engine unit :=
  let size := i_operand_size inst in
  let* dest_index := on_ctx (get_index REG_RDI (i_address_size inst)) in
  let* dest_addr := get_ctx (element_address SEG_ES dest_index) in
  let* value := on_ctx (read_accumulator size) in
  write_string_value dest_addr size value ;;;
  let* faulted := get_ctx cpu_has_exception in
  if faulted then st_ret tt else on_ctx (step_one REG_RDI (i_address_size inst) size dest_index).

Definition execute_lods_with_decoded (inst : DecodedInstruction) : ST cpueaxh_engine unit :=
  let source_segment := i_immediate inst in
  let size := i_operand_size inst in
  let* source_index := on_ctx (get_index REG_RSI (i_address_size inst)) in
  let* source_addr := get_ctx (element_address source_segment source_index) in
  let* source_ok := on_ctx (cpu_validate_linear_address source_addr source_segment) in
  if negb source_ok then st_ret tt
  else
    let* value := read_string_value source_addr size in
    let* faulted := get_ctx cpu_has_exception in
    if faulted then st_ret tt
    else on_ctx (write_accumulator size value) ;;; on_ctx (step_one REG_RSI (i_address_size inst) size source_index).

Definition execute_scas_with_decoded (inst : DecodedInstruction) : ST cpueaxh_engine unit :=
  let size := i_operand_size inst in
  let* dest_index := on_ctx (get_index REG_RDI (i_address_size inst)) in
  let* dest_addr := get_ctx (element_address SEG_ES dest_index) in
  let* accumulator := on_ctx (read_accumulator size) in
  let* memory_value := read_string_value dest_addr size in
  let* faulted := get_ctx cpu_has_exception in
  if faulted then st_ret tt
  else
    mod_ctx (string_flags size accumulator memory_value) ;;;
    on_ctx (step_one REG_RDI (i_address_size inst) size dest_index).

(** ** Repetition *)

(** The prefixes before the opcode: the last REP prefix of them, and how many they are. *)
Fixpoint decode_rep_prefix (code : list Z) (offset rep_prefix : Z) : ST CPU_CONTEXT (Z * Z) :=
  match code with
  | [] => st_ret (rep_prefix, offset)
  | prefix :: code =>
      if is_segment_prefix prefix || (prefix =? 0x66) || (prefix =? 0x67) || (prefix =? 0xF0) then decode_rep_prefix code (offset + 1) rep_prefix
      else
        let* rex := cpu_try_apply_rex_prefix prefix in
        if rex then decode_rep_prefix code (offset + 1) rep_prefix
        else if (prefix =? 0xF2) || (prefix =? 0xF3) then decode_rep_prefix code (offset + 1) prefix
        else st_ret (rep_prefix, offset)
  end.

Definition is_rep_string_opcode (opcode : Z) : bool := one_of opcode [0xA4; 0xA5; 0xA6; 0xA7; 0xAA; 0xAB; 0xAC; 0xAD; 0xAE; 0xAF].

Definition get_rep_count (address_size : Z) : ST CPU_CONTEXT Z := get_index REG_RCX address_size.
Definition set_rep_count (address_size value : Z) : ST CPU_CONTEXT unit := set_index REG_RCX address_size value.

Definition decode_rep_target (opcode : Z) (code : list Z) : ST CPU_CONTEXT DecodedInstruction :=
  if one_of opcode [0xA4; 0xA5] then decode_movs_instruction code
  else if one_of opcode [0xA6; 0xA7] then decode_cmps_instruction code
  else if one_of opcode [0xAA; 0xAB] then decode_stos_instruction code
  else if one_of opcode [0xAC; 0xAD] then decode_lods_instruction code
  else if one_of opcode [0xAE; 0xAF] then decode_scas_instruction code
  else st_modify raise_ud_ctx ;;; st_ret zero_inst.

Definition execute_rep_iteration_with_decoded (opcode : Z) (inst : DecodedInstruction) : ST cpueaxh_engine unit :=
  if one_of opcode [0xA4; 0xA5] then execute_movs_with_decoded inst
  else if one_of opcode [0xA6; 0xA7] then execute_cmps_with_decoded inst
  else if one_of opcode [0xAA; 0xAB] then execute_stos_with_decoded inst
  else if one_of opcode [0xAC; 0xAD] then execute_lods_with_decoded inst
  else if one_of opcode [0xAE; 0xAF] then execute_scas_with_decoded inst
  else mod_ctx raise_ud_ctx.

Definition conditional_scan (opcode : Z) : bool := one_of opcode [0xA6; 0xA7; 0xAE; 0xAF].

(** The condition that ends a scan: REPE at a difference, REPNE at a match. *)
Definition scan_ends (opcode rep_prefix : Z) (ctx : CPU_CONTEXT) : bool :=
  conditional_scan opcode && (let zf := has_bits (c_rflags ctx) RFLAGS_ZF in if rep_prefix =? 0xF3 then negb zf else zf).

(** [while (count != 0)], the count one less each time. *)
Fixpoint rep_loop (count : nat) (opcode rep_prefix : Z) (inst : DecodedInstruction) : ST cpueaxh_engine unit :=
  match count with
  | O => st_ret tt
  | S count =>
      execute_rep_iteration_with_decoded opcode inst ;;;
      let* faulted := get_ctx cpu_has_exception in
      if faulted then st_ret tt
      else
        on_ctx (set_rep_count (i_address_size inst) (Z.of_nat count)) ;;;
        let* ends := get_ctx (scan_ends opcode rep_prefix) in
        if ends then st_ret tt else rep_loop count opcode rep_prefix inst
  end.

Definition run_rep (opcode rep_prefix : Z) (inst : DecodedInstruction) : ST cpueaxh_engine unit :=
  let* count := on_ctx (get_rep_count (i_address_size inst)) in
  rep_loop (Z.to_nat count) opcode rep_prefix inst.

Definition execute_rep (code : list Z) : ST cpueaxh_engine unit :=
  mod_ctx cpu_reset_prefix_state ;;;
  let* (rep_prefix, prefix_len) := on_ctx (decode_rep_prefix code 0 0) in
  on_ctx (ud_if (negb (rep_prefix =? 0xF2) && negb (rep_prefix =? 0xF3))) ;;;
  if size_of code <=? prefix_len then mod_ctx (raise_gp_ctx 0)
  else
    let opcode := byte_at code prefix_len in
    on_ctx (ud_if (negb (is_rep_string_opcode opcode))) ;;;
    let* inst := on_ctx (decode_rep_target opcode code) in
    run_rep opcode rep_prefix inst.

(** For the cache: the prefix is kept in [mandatory_prefix]. *)
Definition decode_rep_for_fast (code : list Z) : ST CPU_CONTEXT DecodedInstruction :=
  st_modify cpu_reset_prefix_state ;;;
  let* (rep_prefix, prefix_len) := decode_rep_prefix code 0 0 in
  if negb (rep_prefix =? 0xF2) && negb (rep_prefix =? 0xF3) then st_modify raise_ud_ctx ;;; st_ret zero_inst
  else if size_of code <=? prefix_len then st_modify (raise_gp_ctx 0) ;;; st_ret zero_inst
  else
    let opcode := byte_at code prefix_len in
    if negb (is_rep_string_opcode opcode) then st_modify raise_ud_ctx ;;; st_ret zero_inst
    else let* inst := decode_rep_target opcode code in st_ret (set_i_mandatory_prefix rep_prefix (set_i_opcode opcode inst)).

Definition execute_rep_with_cached (inst : DecodedInstruction) : ST cpueaxh_engine unit :=
  let rep_prefix := i_mandatory_prefix inst in
  if negb (rep_prefix =? 0xF2) && negb (rep_prefix =? 0xF3) then mod_ctx raise_ud_ctx else run_rep (i_opcode inst) rep_prefix inst.
Definition execute_rep_fast := execute_as_cached execute_rep_with_cached.

Definition execute_movs := execute_decoded decode_movs_instruction execute_movs_with_decoded.
Definition execute_cmps := execute_decoded decode_cmps_instruction execute_cmps_with_decoded.
Definition execute_stos := execute_decoded decode_stos_instruction execute_stos_with_decoded.
Definition execute_lods := execute_decoded decode_lods_instruction execute_lods_with_decoded.
Definition execute_scas := execute_decoded decode_scas_instruction execute_scas_with_decoded.
Definition execute_rep_iteration (opcode : Z) (code : list Z) : ST cpueaxh_engine unit :=
  if one_of opcode [0xA4; 0xA5] then execute_movs code
  else if one_of opcode [0xA6; 0xA7] then execute_cmps code
  else if one_of opcode [0xAA; 0xAB] then execute_stos code
  else if one_of opcode [0xAC; 0xAD] then execute_lods code
  else if one_of opcode [0xAE; 0xAF] then execute_scas code
  else mod_ctx raise_ud_ctx.
Definition execute_movs_fast := execute_as_cached execute_movs_with_decoded.
Definition execute_cmps_fast := execute_as_cached execute_cmps_with_decoded.
Definition execute_stos_fast := execute_as_cached execute_stos_with_decoded.
Definition execute_lods_fast := execute_as_cached execute_lods_with_decoded.
Definition execute_scas_fast := execute_as_cached execute_scas_with_decoded.

End execute.

(** ** What one iteration does *)

Inductive string_op := MOVS | CMPS | STOS | LODS | SCAS.

Definition reads_source (op : string_op) : bool := match op with MOVS | CMPS | LODS => true | STOS | SCAS => false end.
Definition reads_destination (op : string_op) : bool := match op with CMPS | SCAS => true | _ => false end.
Definition writes_destination (op : string_op) : bool := match op with MOVS | STOS => true | _ => false end.

Definition string_op_of (opcode : Z) : option string_op :=
  if one_of opcode [0xA4; 0xA5] then Some MOVS
  else if one_of opcode [0xA6; 0xA7] then Some CMPS
  else if one_of opcode [0xAA; 0xAB] then Some STOS
  else if one_of opcode [0xAC; 0xAD] then Some LODS
  else if one_of opcode [0xAE; 0xAF] then Some SCAS else None.

(** The sizes the decoders give. *)
Definition string_sizes (inst : DecodedInstruction) : Prop := operand_size_ok (i_operand_size inst) /\ stack_size_ok (i_address_size inst).

Definition element_bytes (inst : DecodedInstruction) : Z := i_operand_size inst / 8.
Definition index_of (inst : DecodedInstruction) (reg : Z) (ctx : CPU_CONTEXT) : Z := get_reg (i_address_size inst) ctx reg.
Definition source_at (inst : DecodedInstruction) (ctx : CPU_CONTEXT) : Z := element_address (i_immediate inst) (index_of inst REG_RSI ctx) ctx.
Definition destination_at (inst : DecodedInstruction) (ctx : CPU_CONTEXT) : Z := element_address SEG_ES (index_of inst REG_RDI ctx) ctx.
Definition accumulator_of (inst : DecodedInstruction) (ctx : CPU_CONTEXT) : Z := get_reg (i_operand_size inst) ctx REG_RAX.

(** One element on, or back where DF is set; the index is that of the original context. *)
Definition direction (inst : DecodedInstruction) (ctx : CPU_CONTEXT) : Z :=
  if has_bits (c_rflags ctx) RFLAGS_DF then - element_bytes inst else element_bytes inst.
Definition index_moved (inst : DecodedInstruction) (old : CPU_CONTEXT) (reg : Z) (ctx : CPU_CONTEXT) : CPU_CONTEXT :=
  set_reg (i_address_size inst) reg (wrap (i_address_size inst) (index_of inst reg old + direction inst old)) ctx.

Definition noncanonical (ctx : CPU_CONTEXT) (address : Z) : bool := cpu_uses_canonical_addresses ctx && negb (cpu_is_canonical_address address).

Section outcome.
Context `{Callbacks}.
Variable inst : DecodedInstruction.

Definition string_fault (op : string_op) (e : cpueaxh_engine) : option (Z * verdict * Z) :=
  let n := element_bytes inst in
  let fault access address := match first_fault e address n access with Some (ad, v) => Some (ad, v, access) | None => None end in
  match (if reads_source op then fault MM_PROT_READ (source_at inst (en_context e)) else None) with
  | Some f => Some f
  | None =>
      match (if reads_destination op then fault MM_PROT_READ (destination_at inst (en_context e)) else None) with
      | Some f => Some f
      | None => if writes_destination op then fault MM_PROT_WRITE (destination_at inst (en_context e)) else None
      end
  end.

(** The context after it, and the values: loaded, compared or accumulated. *)
Definition string_context (op : string_op) (e : cpueaxh_engine) (ctx' : CPU_CONTEXT) : Prop :=
  let ctx := en_context e in
  let n := element_bytes inst in
  let source := guest_value e (source_at inst ctx) n in
  let destination := guest_value e (destination_at inst ctx) n in
  let si := index_moved inst ctx REG_RSI in
  let di := index_moved inst ctx REG_RDI in
  match op with
  | MOVS => ctx' = di (si ctx)
  | STOS => ctx' = di ctx
  | LODS => ctx' = si (set_reg (i_operand_size inst) REG_RAX source ctx)
  | CMPS => exists flags, ctx_flags_written (sub_spec (i_operand_size inst) source destination 0) ctx flags /\ ctx' = di (si flags)
  | SCAS => exists flags, ctx_flags_written (sub_spec (i_operand_size inst) (accumulator_of inst ctx) destination 0) ctx flags /\ ctx' = di flags
  end.

Definition string_memory (op : string_op) (e e1 : cpueaxh_engine) : Prop :=
  let ctx := en_context e in
  let n := element_bytes inst in
  let hosts := hosts_of e (destination_at inst ctx) n in
  match op with
  | MOVS => stored e hosts (guest_value e (source_at inst ctx) n) e1
  | STOS => stored e hosts (accumulator_of inst ctx) e1
  | _ => same_cpu e e1
  end.

(** Only MOVS, CMPS and LODS look at the addresses beforehand; elsewhere the access faults. *)
Definition string_outcome (op : string_op) (e e' : cpueaxh_engine) : Prop :=
  let ctx := en_context e in
  let refused := reads_source op && (noncanonical ctx (source_at inst ctx) ||
    match op with LODS => false | _ => noncanonical ctx (destination_at inst ctx) end) in
  if refused then transfer_refused e e'
  else
    match string_fault op e with
    | Some (ad, v, access) => faults e v ad access e'
    | None => exists e1 ctx', string_memory op e e1 /\ string_context op e ctx' /\ e' = set_en_context ctx' e1
    end.

(** *** The steps *)

Lemma index_size_ok size : stack_size_ok size -> index_size size = true.
Proof. by intros [-> | [-> | ->]]. Qed.
Lemma string_width_ok size : operand_size_ok size -> string_width size = true.
Proof. by intros [-> | [-> | [-> | ->]]]. Qed.

Lemma get_index_at e reg : stack_size_ok (i_address_size inst) ->
  on_ctx (get_index reg (i_address_size inst)) e = (index_of inst reg (en_context e), e).
Proof. intros Hs. unfold get_index. rewrite index_size_ok by done. unfold on_ctx, st_zoom, st_gets. by destruct e. Qed.

Lemma validate_at e a seg : on_ctx (cpu_validate_linear_address a seg) e =
  if noncanonical (en_context e) a then (false, set_en_context (cpu_raise_noncanonical_address seg (en_context e)) e) else (true, e).
Proof.
  unfold on_ctx, st_zoom, cpu_validate_linear_address, noncanonical. destruct (cpu_uses_canonical_addresses (en_context e)); cbn [negb andb]; [| by destruct e].
  destruct (cpu_is_canonical_address a); by destruct e.
Qed.

Lemma noncanonical_refused e seg : cpu_ready e -> transfer_refused e (set_en_context (cpu_raise_noncanonical_address seg (en_context e)) e).
Proof.
  intros Hr. unfold cpu_raise_noncanonical_address, raise_ss_ctx, raise_gp_ctx. destruct (seg =? SEG_SS);
    (apply raise_transfer_refused; [done | by apply same_cpu_refl, Hr]).
Qed.

Lemma set_index_at reg value ctx : stack_size_ok (i_address_size inst) ->
  set_index reg (i_address_size inst) value ctx = (tt, set_reg (i_address_size inst) reg (wrap (i_address_size inst) value) ctx).
Proof. intros Hs. unfold set_index. by rewrite index_size_ok. Qed.

Lemma stepped_direction old ctx reg : stack_size_ok (i_address_size inst) -> has_bits (c_rflags ctx) RFLAGS_DF = has_bits (c_rflags old) RFLAGS_DF ->
  wrap (i_address_size inst) (stepped (i_operand_size inst) (index_of inst reg old) ctx) =
  wrap (i_address_size inst) (index_of inst reg old + direction inst old).
Proof.
  intros Hs Hdf. unfold stepped, direction, element_bytes. cbv zeta. rewrite Hdf, wrap_wrap_le by (destruct Hs as [-> | [-> | ->]]; lia).
  destruct (has_bits (c_rflags old) RFLAGS_DF); [by rewrite Z.add_opp_r | done].
Qed.

Lemma step_one_at old e reg : stack_size_ok (i_address_size inst) -> has_bits (c_rflags (en_context e)) RFLAGS_DF = has_bits (c_rflags old) RFLAGS_DF ->
  final (on_ctx (step_one reg (i_address_size inst) (i_operand_size inst) (index_of inst reg old))) e =
  set_en_context (index_moved inst old reg (en_context e)) e.
Proof.
  intros Hs Hdf. unfold final, on_ctx, st_zoom, step_one, st_bind, st_gets. rewrite set_index_at by done. cbn [snd].
  by rewrite stepped_direction.
Qed.

Lemma step_both_at old e : stack_size_ok (i_address_size inst) -> has_bits (c_rflags (en_context e)) RFLAGS_DF = has_bits (c_rflags old) RFLAGS_DF ->
  final (on_ctx (step_both (i_address_size inst) (i_operand_size inst) (index_of inst REG_RSI old) (index_of inst REG_RDI old))) e =
  set_en_context (index_moved inst old REG_RDI (index_moved inst old REG_RSI (en_context e))) e.
Proof.
  intros Hs Hdf. unfold final, on_ctx, st_zoom, step_both, st_bind, st_get. rewrite !set_index_at by done. cbn [snd].
  by rewrite !stepped_direction.
Qed.

(** The comparison writes the six flags and leaves DF. *)
Lemma string_flags_written l r ctx : operand_size_ok (i_operand_size inst) -> in_word (i_operand_size inst) l -> in_word (i_operand_size inst) r ->
  cpu_has_exception ctx = false -> ctx_flags_written (sub_spec (i_operand_size inst) l r 0) ctx (string_flags (i_operand_size inst) l r ctx).
Proof.
  intros Hos Hl Hr Hx. unfold string_flags. cbv zeta.
  destruct Hos as [E | [E | [E | E]]]; rewrite E in *; cbn [Z.eqb Pos.eqb]; rewrite !wrap_small by done.
  - apply sub_narrow_written; try done; try lia. by apply wrap_wrap_le.
  - apply sub_narrow_written; try done; try lia. by apply wrap_wrap_le.
  - apply sub_narrow_written; try done; try lia. by apply wrap_wrap.
  - by apply sub64_flags_written.
Qed.

Lemma flags_keep_df f ctx ctx' : ctx_flags_written f ctx ctx' -> has_bits (c_rflags ctx') RFLAGS_DF = has_bits (c_rflags ctx) RFLAGS_DF.
Proof.
  intros [_ Hb]. change RFLAGS_DF with (2 ^ 10). rewrite !has_bits_pow2 by lia. by rewrite (Hb 10) by lia.
Qed.

End outcome.

(** *** The five instructions *)

Section iterations.
Context `{Callbacks}.
Variables (inst : DecodedInstruction) (e : cpueaxh_engine).
Hypotheses (Hr : cpu_ready e) (Hwf : regs_wf (en_context e)) (Hsizes : string_sizes inst).

Definition iteration_of (op : string_op) : ST cpueaxh_engine unit :=
  match op with
  | MOVS => execute_movs_with_decoded inst
  | CMPS => execute_cmps_with_decoded inst
  | STOS => execute_stos_with_decoded inst
  | LODS => execute_lods_with_decoded inst
  | SCAS => execute_scas_with_decoded inst
  end.

Lemma element_word seg index ctx : in_word 64 (element_address seg index ctx).
Proof. apply wrap_range. lia. Qed.

(** A read from an engine that differs in the page cache, with the check behind it. *)
Lemma string_read e1 a (k : Z -> ST cpueaxh_engine unit) : same_cpu e e1 -> in_word 64 a ->
  match first_fault e a (element_bytes inst) MM_PROT_READ with
  | Some (ad, v) => exists e2, faults e v ad MM_PROT_READ e2 /\
      (let* value := read_string_value a (i_operand_size inst) in
       let* faulted := get_ctx cpu_has_exception in if faulted then st_ret tt else k value) e1 = (tt, e2)
  | None => exists e2, same_cpu e e2 /\
      (let* value := read_string_value a (i_operand_size inst) in
       let* faulted := get_ctx cpu_has_exception in if faulted then st_ret tt else k value) e1 = k (guest_value e a (element_bytes inst)) e2
  end.
Proof.
  intros Hs Ha. pose proof (read_operand_spec e1 a _ (same_cpu_ready _ _ Hs Hr) Ha (proj1 Hsizes)) as Hread. fold (element_bytes inst) in Hread.
  rewrite (first_fault_same_cpu _ _ _ _ _ Hs), (same_cpu_guest_value _ _ _ _ Hs) in Hread. unfold read_string_value.
  destruct (first_fault e a (element_bytes inst) MM_PROT_READ) as [[ad v] |] eqn:Ef; destruct Hread as (e2 & H2 & Hrun); rewrite (bind_run _ _ _ _ _ Hrun),
    (bind_run (get_ctx cpu_has_exception) _ e2 _ e2 eq_refl); exists e2.
  - pose proof (faults_trans _ _ _ _ _ _ Hs H2) as Hf. split; [done |]. by rewrite (first_fault_pending _ _ _ _ _ _ _ Ef Hf).
  - pose proof (same_cpu_trans _ _ _ Hs H2) as Hs2. split; [done |]. rewrite (same_cpu_context _ _ Hs2). by destruct Hr as (_ & _ & ->).
Qed.

(** A write, and the check. *)
Lemma string_write e1 a value (k : ST cpueaxh_engine unit) : same_cpu e e1 -> in_word 64 a ->
  match first_fault e a (element_bytes inst) MM_PROT_WRITE with
  | Some (ad, v) => exists e2, faults e v ad MM_PROT_WRITE e2 /\
      (write_string_value a (i_operand_size inst) value ;;; let* faulted := get_ctx cpu_has_exception in if faulted then st_ret tt else k) e1 = (tt, e2)
  | None => exists e2, stored e (hosts_of e a (element_bytes inst)) value e2 /\
      (write_string_value a (i_operand_size inst) value ;;; let* faulted := get_ctx cpu_has_exception in if faulted then st_ret tt else k) e1 = k e2
  end.
Proof.
  intros Hs Ha. pose proof (write_operand_spec e1 a _ value (same_cpu_ready _ _ Hs Hr) Ha (proj1 Hsizes)) as Hwrite. fold (element_bytes inst) in Hwrite.
  rewrite (first_fault_same_cpu _ _ _ _ _ Hs), (same_cpu_hosts _ _ _ _ Hs) in Hwrite. unfold write_string_value.
  destruct (write_memory_operand a (i_operand_size inst) value e1) as [u e2] eqn:Erun. unfold final in Hwrite. rewrite Erun in Hwrite. cbn [snd] in Hwrite.
  rewrite (bind_run _ _ _ _ _ Erun), (bind_run (get_ctx cpu_has_exception) _ e2 _ e2 eq_refl).
  destruct (first_fault e a (element_bytes inst) MM_PROT_WRITE) as [[ad v] |] eqn:Ef; exists e2.
  - pose proof (faults_trans _ _ _ _ _ _ Hs Hwrite) as Hf. split; [done |]. by rewrite (first_fault_pending _ _ _ _ _ _ _ Ef Hf).
  - pose proof (same_cpu_stored _ _ _ _ _ Hs Hwrite) as Hst. split; [done |]. rewrite (stored_context _ _ _ _ Hst). by destruct Hr as (_ & _ & ->).
Qed.

(** Runs the read or the write at the head of the goal. *)
Ltac string_read_step Hs H2 Hrun :=
  match goal with |- context [st_bind (read_string_value ?a _) (fun value => let* faulted := get_ctx cpu_has_exception in if faulted then st_ret tt else @?k value)] =>
    let Hread := fresh "Hread" in let e2 := fresh "e2" in
    pose proof (string_read _ a k Hs (element_word _ _ _)) as Hread;
    destruct (first_fault e a (element_bytes inst) MM_PROT_READ) as [[? ?] |] eqn:?; destruct Hread as (e2 & H2 & Hrun); rewrite Hrun; [done |] end.
Ltac string_write_step Hs H2 Hrun :=
  match goal with |- context [st_bind (write_string_value ?a _ ?v) (fun _ => let* faulted := get_ctx cpu_has_exception in if faulted then st_ret tt else ?k)] =>
    let Hwrite := fresh "Hwrite" in let e2 := fresh "e2" in
    pose proof (string_write _ a v k Hs (element_word _ _ _)) as Hwrite;
    destruct (first_fault e a (element_bytes inst) MM_PROT_WRITE) as [[? ?] |]; destruct Hwrite as (e2 & H2 & Hrun); rewrite Hrun; [done |] end.

Lemma string_value_word a : first_fault e a (element_bytes inst) MM_PROT_READ = None -> in_word (i_operand_size inst) (guest_value e a (element_bytes inst)).
Proof.
  intros Hf. pose proof (proj1 Hsizes) as Hos. unfold element_bytes in *. rewrite <- (guest_value_wrap e a _ MM_PROT_READ (proj1 Hr) Hos Hf).
  apply wrap_range. destruct Hos as [-> | [-> | [-> | ->]]]; lia.
Qed.

Lemma accumulator_word : in_word (i_operand_size inst) (accumulator_of inst (en_context e)).
Proof.
  pose proof (proj1 Hsizes) as Hos. unfold accumulator_of. rewrite get_reg_slice by (done || exact Hos). apply wrap_range. destruct Hos as [-> | [-> | [-> | ->]]]; lia.
Qed.

Lemma read_accumulator_at e1 : en_context e1 = en_context e -> on_ctx (read_accumulator (i_operand_size inst)) e1 = (accumulator_of inst (en_context e), e1).
Proof. intros Hc. unfold read_accumulator. rewrite string_width_ok by apply Hsizes. unfold on_ctx, st_zoom, st_gets. rewrite Hc. unfold accumulator_of. rewrite <- Hc. by destruct e1. Qed.

(** Flags and then indices, where the element compared as [flags] says. *)
Lemma compare_and_step e1 l r reg : same_cpu e e1 -> in_word (i_operand_size inst) l -> in_word (i_operand_size inst) r ->
  exists flags, ctx_flags_written (sub_spec (i_operand_size inst) l r 0) (en_context e) flags /\
    final (mod_ctx (string_flags (i_operand_size inst) l r) ;;; on_ctx (step_one reg (i_address_size inst) (i_operand_size inst) (index_of inst reg (en_context e)))) e1 =
      set_en_context (index_moved inst (en_context e) reg flags) e1 /\
    final (mod_ctx (string_flags (i_operand_size inst) l r) ;;; on_ctx (step_both (i_address_size inst) (i_operand_size inst) (index_of inst REG_RSI (en_context e)) (index_of inst REG_RDI (en_context e)))) e1 =
      set_en_context (index_moved inst (en_context e) REG_RDI (index_moved inst (en_context e) REG_RSI flags)) e1.
Proof.
  intros Hs Hl Hri. pose proof (string_flags_written inst l r (en_context e) (proj1 Hsizes) Hl Hri ltac:(by destruct Hr as (_ & _ & ->))) as Hf.
  exists (string_flags (i_operand_size inst) l r (en_context e)). split; [exact Hf |].
  assert (Hrun : mod_ctx (string_flags (i_operand_size inst) l r) e1 = (tt, set_en_context (string_flags (i_operand_size inst) l r (en_context e)) e1))
    by (unfold mod_ctx, st_modify; by rewrite (same_cpu_context _ _ Hs)).
  unfold final. rewrite !(bind_run _ _ _ _ _ Hrun). set (e2 := set_en_context _ e1).
  pose proof (step_one_at inst (en_context e) e2 reg (proj2 Hsizes) (flags_keep_df _ _ _ Hf)) as H1.
  pose proof (step_both_at inst (en_context e) e2 (proj2 Hsizes) (flags_keep_df _ _ _ Hf)) as H2. unfold final in H1, H2. by rewrite H1, H2.
Qed.

Lemma both_elements_at body :
  both_elements inst body e =
  if noncanonical (en_context e) (source_at inst (en_context e))
  then (tt, set_en_context (cpu_raise_noncanonical_address (i_immediate inst) (en_context e)) e)
  else if noncanonical (en_context e) (destination_at inst (en_context e))
  then (tt, set_en_context (cpu_raise_noncanonical_address SEG_ES (en_context e)) e)
  else body (index_of inst REG_RSI (en_context e)) (index_of inst REG_RDI (en_context e)) (source_at inst (en_context e)) (destination_at inst (en_context e)) e.
Proof.
  pose proof (proj2 Hsizes) as Hs. unfold both_elements. cbv zeta. rewrite !(bind_run _ _ _ _ _ (get_index_at inst e _ Hs)), !(get_ctx_step e).
  fold (source_at inst (en_context e)) (destination_at inst (en_context e)).
  pose proof (validate_at e (source_at inst (en_context e)) (i_immediate inst)) as Hv.
  destruct (noncanonical _ (source_at _ _)); rewrite (bind_run _ _ _ _ _ Hv); cbn [negb]; [done |].
  pose proof (validate_at e (destination_at inst (en_context e)) SEG_ES) as Hv2.
  by destruct (noncanonical _ (destination_at _ _)); rewrite (bind_run _ _ _ _ _ Hv2).
Qed.

Ltac both_checked :=
  pose proof (same_cpu_refl e (proj1 Hr)) as Hrefl; unfold string_outcome, final;
  cbn [reads_source andb]; destruct (noncanonical _ (source_at _ _)); cbn [orb snd]; [by apply noncanonical_refused |];
  destruct (noncanonical _ (destination_at _ _)); cbn [snd]; [by apply noncanonical_refused |];
  unfold string_fault; cbn [reads_source reads_destination writes_destination].

Lemma movs_outcome : string_outcome inst MOVS e (final (execute_movs_with_decoded inst) e).
Proof.
  unfold execute_movs_with_decoded, final at 1. rewrite both_elements_at. both_checked. string_read_step Hrefl H1 Hrun1. string_write_step H1 H2 Hrun2.
  pose proof (stored_context _ _ _ _ H2) as Hc. eexists _, _. split; [exact H2 |]. split; [reflexivity |].
  pose proof (step_both_at inst (en_context e) _ (proj2 Hsizes) ltac:(by rewrite Hc)) as Hstep. unfold final in Hstep. rewrite Hstep. by rewrite Hc.
Qed.

Lemma cmps_outcome : string_outcome inst CMPS e (final (execute_cmps_with_decoded inst) e).
Proof.
  unfold execute_cmps_with_decoded, final at 1. rewrite both_elements_at. both_checked. string_read_step Hrefl H1 Hrun1. string_read_step H1 H2 Hrun2.
  destruct (compare_and_step _ _ _ REG_RDI H2 (string_value_word _ Heqo) (string_value_word _ Heqo0)) as (flags & Hf & _ & Hstep).
  eexists _, _. split; [exact H2 |]. split; [by exists flags |]. exact Hstep.
Qed.

Lemma stos_outcome : string_outcome inst STOS e (final (execute_stos_with_decoded inst) e).
Proof.
  pose proof (same_cpu_refl e (proj1 Hr)) as Hrefl. unfold string_outcome, final, execute_stos_with_decoded. cbv zeta.
  rewrite (bind_run _ _ _ _ _ (get_index_at inst e _ (proj2 Hsizes))), (get_ctx_step e), (bind_run _ _ _ _ _ (read_accumulator_at e eq_refl)).
  fold (destination_at inst (en_context e)). unfold string_fault. cbn [reads_source reads_destination writes_destination andb]. string_write_step Hrefl H2 Hrun2.
  pose proof (stored_context _ _ _ _ H2) as Hc. eexists _, _. split; [exact H2 |]. split; [reflexivity |].
  pose proof (step_one_at inst (en_context e) _ REG_RDI (proj2 Hsizes) ltac:(by rewrite Hc)) as Hstep. unfold final in Hstep. rewrite Hstep. by rewrite Hc.
Qed.

Lemma lods_outcome : string_outcome inst LODS e (final (execute_lods_with_decoded inst) e).
Proof.
  pose proof (same_cpu_refl e (proj1 Hr)) as Hrefl. unfold string_outcome, final, execute_lods_with_decoded. cbv zeta.
  rewrite (bind_run _ _ _ _ _ (get_index_at inst e _ (proj2 Hsizes))), (get_ctx_step e). fold (source_at inst (en_context e)).
  pose proof (validate_at e (source_at inst (en_context e)) (i_immediate inst)) as Hv. cbn [reads_source andb].
  destruct (noncanonical _ (source_at _ _)); rewrite (bind_run _ _ _ _ _ Hv); cbn [negb snd orb]; [by apply noncanonical_refused |].
  unfold string_fault. cbn [reads_source reads_destination writes_destination]. string_read_step Hrefl H1 Hrun1.
  eexists _, _. split; [exact H1 |]. split; [reflexivity |]. set (v := guest_value _ _ _).
  assert (Hacc : on_ctx (write_accumulator (i_operand_size inst) v) e2 = (tt, set_en_context (set_reg (i_operand_size inst) REG_RAX v (en_context e)) e2)).
  { unfold write_accumulator. rewrite string_width_ok by apply Hsizes. unfold on_ctx, st_zoom, st_modify. rewrite (same_cpu_context _ _ H1), wrap_small; [done |].
    by apply string_value_word. }
  rewrite (bind_run _ _ _ _ _ Hacc). refine (step_one_at inst (en_context e) _ REG_RSI (proj2 Hsizes) _).
  cbn [en_context set_en_context]. by rewrite set_reg_keeps_rflags.
Qed.

Lemma scas_outcome : string_outcome inst SCAS e (final (execute_scas_with_decoded inst) e).
Proof.
  pose proof (same_cpu_refl e (proj1 Hr)) as Hrefl. unfold string_outcome, final, execute_scas_with_decoded. cbv zeta.
  rewrite (bind_run _ _ _ _ _ (get_index_at inst e _ (proj2 Hsizes))), (get_ctx_step e), (bind_run _ _ _ _ _ (read_accumulator_at e eq_refl)).
  fold (destination_at inst (en_context e)). unfold string_fault. cbn [reads_source reads_destination writes_destination andb]. string_read_step Hrefl H2 Hrun2.
  destruct (compare_and_step _ _ _ REG_RDI H2 accumulator_word (string_value_word _ Heqo)) as (flags & Hf & Hstep & _).
  eexists _, _. split; [exact H2 |]. split; [by exists flags |]. exact Hstep.
Qed.

End iterations.

(** One iteration of any of the instructions, chosen by the opcode. *)
Section any.
Context `{Callbacks}.

Lemma iteration_at opcode op inst : string_op_of opcode = Some op -> execute_rep_iteration_with_decoded opcode inst = iteration_of inst op.
Proof.
  unfold string_op_of, execute_rep_iteration_with_decoded, iteration_of.
  destruct (one_of opcode [0xA4; 0xA5]); [intros [= <-]; reflexivity |]. destruct (one_of opcode [0xA6; 0xA7]); [intros [= <-]; reflexivity |].
  destruct (one_of opcode [0xAA; 0xAB]); [intros [= <-]; reflexivity |]. destruct (one_of opcode [0xAC; 0xAD]); [intros [= <-]; reflexivity |].
  destruct (one_of opcode [0xAE; 0xAF]); [intros [= <-]; reflexivity | discriminate].
Qed.

Lemma iteration_spec inst e op : cpu_ready e -> regs_wf (en_context e) -> string_sizes inst -> string_outcome inst op e (final (iteration_of inst op) e).
Proof. intros Hr Hwf Hs. destruct op; [exact (movs_outcome _ _ Hr Hs) | exact (cmps_outcome _ _ Hr Hs) | exact (stos_outcome _ _ Hr Hs) | exact (lods_outcome _ _ Hr Hs) | exact (scas_outcome _ _ Hr Hwf Hs)]. Qed.

(** C38: a string instruction does one element or leaves its fault.  For MOVS, CMPS, STOS, LODS and
    SCAS at every operand and address size: when an address MOVS, CMPS or LODS uses is not canonical
    #GP (or #SS) is pending and nothing else changed; when a byte of an operand cannot be read or
    written its fault is pending and nothing else changed; otherwise the element is moved, stored,
    loaded or compared with the flags of a subtraction, each index register it uses is one element
    further on, or back where DF is set, wrapped to the address size, and nothing else changes. *)
Theorem string_instructions_correct inst e opcode op
  (Hr : cpu_ready e) (Hwf : regs_wf (en_context e)) (Hsizes : string_sizes inst) (Hop : string_op_of opcode = Some op) :
  string_outcome inst op e (final (execute_rep_iteration_with_decoded opcode inst) e).
Proof. rewrite (iteration_at _ _ _ Hop). by apply iteration_spec. Qed.

End any.

(** ** Blocks of bytes *)

Lemma offsets_app n m : 0 <= n -> 0 <= m -> offsets_from 0 (n + m) = offsets_from 0 n ++ map (Z.add n) (offsets_from 0 m).
Proof.
  intros Hn Hm. rewrite !offsets_0. rewrite seqZ_app, Z.add_0_l by done. f_equal. rewrite <- (Z.add_0_r n) at 1. rewrite <- fmap_add_seqZ. done.
Qed.

Lemma first_fault_block e a n m acc : 0 <= n -> 0 <= m ->
  first_fault e a (n + m) acc = match first_fault e a n acc with Some f => Some f | None => first_fault e (at_off a n) m acc end.
Proof. intros Hn Hm. unfold first_fault. by rewrite offsets_app, first_fault_app, first_fault_shift. Qed.

Lemma guest_value_block e a n m : 0 <= n -> 0 <= m -> guest_value e a (n + m) = guest_value e a n + 256 ^ n * guest_value e (at_off a n) m.
Proof.
  intros Hn Hm. unfold guest_value. rewrite offsets_app, map_app, map_map, le_combine_app by done. rewrite length_map, offsets_length, Z2Nat.id by done.
  do 3 f_equal. apply map_ext. intros o. by rewrite at_off_at_off.
Qed.

Lemma hosts_of_block e a n m : 0 <= n -> 0 <= m -> hosts_of e a (n + m) = hosts_of e a n ++ hosts_of e (at_off a n) m.
Proof.
  intros Hn Hm. unfold hosts_of. rewrite offsets_app, map_app, map_map by done. f_equal. apply map_ext. intros o. by rewrite at_off_at_off.
Qed.

Lemma overwrite_app h1 h2 : forall v h b,
  overwrite (h1 ++ h2) v h b = overwrite h2 (Z.shiftr v (8 * Z.of_nat (length h1))) h (overwrite h1 v h b).
Proof.
  induction h1 as [| p h1 IH]; intros v h b; cbn [app overwrite length]; [by rewrite Z.mul_0_r, Z.shiftr_0_r |].
  rewrite IH, Z.shiftr_shiftr by lia. do 2 f_equal. lia.
Qed.

(** Two stores next to each other, the context aside, are one. *)
Lemma stored_app e h1 v1 e1 ctx h2 v2 e2 :
  stored e h1 v1 e1 -> stored (set_en_context ctx e1) h2 v2 e2 -> 0 <= v1 < 256 ^ Z.of_nat (length h1) ->
  stored e (h1 ++ h2) (v1 + 256 ^ Z.of_nat (length h1) * v2) (set_en_context (en_context e) e2).
Proof.
  intros (m1 & -> & _ & (c1 & Hc1) & Hh1 & Hv1) (m2 & -> & Hm2 & (c2 & Hc2) & Hh2 & Hv2) Hrange.
  exists m2. cbn [en_mem set_en_mem set_en_context] in *.
  split_and!; [by destruct e | done | exists c2; by rewrite Hc2, Hc1 | intros x; by rewrite Hh2, Hh1 |].
  intros x. rewrite Hv2, Hv1. destruct (access_view (en_mem e) x) as [[[b p] t] |]; [| done]. rewrite Hh1, overwrite_app.
  set (k := 8 * Z.of_nat (length h1)). assert (Hk : 256 ^ Z.of_nat (length h1) = 2 ^ k) by (unfold k; by rewrite Z.pow_mul_r by lia).
  rewrite Hk in *. replace (Z.shiftr (v1 + 2 ^ k * v2) k) with v2; [do 4 f_equal |].
  - rewrite <- (overwrite_wrap h1 (v1 + 2 ^ k * v2) _ _ k), <- (overwrite_wrap h1 v1 _ _ k) by (unfold k; lia). f_equal.
    unfold wrap. rewrite (Z.mul_comm (2 ^ k)), Z.mod_add; [done |]. pose proof (pow2_pos k). unfold k in *. lia.
  - rewrite Z.shiftr_div_pow2, (Z.mul_comm (2 ^ k)), Z.div_add, (Z.div_small v1) by (try done; unfold k; pose proof (pow2_pos k); unfold k in *; lia). lia.
Qed.

(** ** The registers of a repetition *)

Lemma set_reg_comm w r r' v v' ctx : push_width w -> 0 <= r < 16 -> 0 <= r' < 16 -> r <> r' -> regs_wf ctx ->
  set_reg w r v (set_reg w r' v' ctx) = set_reg w r' v' (set_reg w r v ctx).
Proof.
  intros Hw Hr Hr' Hne Hwf.
  assert (Hat : forall a x b y c, a <> b -> 0 <= a -> 0 <= b -> set_reg_at a x (set_reg_at b y c) = set_reg_at b y (set_reg_at a x c)).
  { intros a x b y c Hab Ha Hb. unfold set_reg_at. rewrite !set_c_regs_twice. cbn [c_regs set_c_regs]. unfold arr_set. f_equal.
    apply list_insert_insert_ne. lia. }
  destruct Hw as [-> | [-> | ->]]; unfold set_reg; cbn [Z.eqb Pos.eqb]; unfold set_reg32, set_reg64; [| apply Hat; lia | apply Hat; lia].
  unfold set_reg16. rewrite (reg_at_set_reg_at r'), (reg_at_set_reg_at r) by (done || lia).
  destruct (Z.eqb_spec r r'); [lia |]. destruct (Z.eqb_spec r' r); [lia |]. apply Hat; lia.
Qed.

Section registers.
Variable inst : DecodedInstruction.
Hypothesis Hsize : stack_size_ok (i_address_size inst).

Lemma index_width : push_width (i_address_size inst).
Proof. unfold stack_size_ok in Hsize. unfold push_width. tauto. Qed.
Lemma index_width_nonneg : 0 <= i_address_size inst.
Proof. apply push_width_nonneg, index_width. Qed.

Lemma get_index_wrap r ctx : regs_wf ctx -> index_of inst r ctx = wrap (i_address_size inst) (reg_at ctx r).
Proof.
  intros Hwf. unfold index_of. rewrite get_reg_slice by (try exact Hwf; apply push_width_reg, index_width).
  unfold slice_register, slice_offset. destruct index_width as [-> | [-> | ->]]; cbn [Z.eqb Pos.eqb andb negb]; by rewrite ?andb_false_r, Z.shiftr_0_r.
Qed.

Lemma index_set r v r' ctx : 0 <= r < 16 -> 0 <= r' -> regs_wf ctx -> in_word (i_address_size inst) v ->
  regs_wf (set_reg (i_address_size inst) r v ctx) /\
  index_of inst r' (set_reg (i_address_size inst) r v ctx) = if r' =? r then v else index_of inst r' ctx.
Proof.
  intros Hr Hr' Hwf Hv. destruct (set_reg_stack _ r v ctx index_width Hr Hwf Hv) as (Hwf' & Hsame & Helse). split; [done |].
  rewrite !get_index_wrap by done. destruct (Z.eqb_spec r' r) as [-> |]; [done |]. by rewrite Helse.
Qed.

(** The context [k] elements further on with a count of [rcx], DF clear, for the instructions with a
    destination. *)
Definition block_context (op : string_op) (k rcx : Z) (ctx : CPU_CONTEXT) : CPU_CONTEXT :=
  let s := i_address_size inst in
  let at_ reg := wrap s (index_of inst reg ctx + k * element_bytes inst) in
  let moved := if reads_source op then set_reg s REG_RSI (at_ REG_RSI) ctx else ctx in
  set_reg s REG_RCX (wrap s rcx) (set_reg s REG_RDI (at_ REG_RDI) moved).

Lemma reg_numbers : 0 <= REG_RSI < 16 /\ 0 <= REG_RDI < 16 /\ 0 <= REG_RCX < 16 /\ REG_RSI <> REG_RDI /\ REG_RSI <> REG_RCX /\ REG_RDI <> REG_RCX.
Proof. unfold REG_RSI, REG_RDI, REG_RCX. lia. Qed.

Lemma block_moved_wf op ctx k : regs_wf ctx ->
  let at_ reg := wrap (i_address_size inst) (index_of inst reg ctx + k * element_bytes inst) in
  let moved := if reads_source op then set_reg (i_address_size inst) REG_RSI (at_ REG_RSI) ctx else ctx in
  regs_wf moved /\ index_of inst REG_RDI moved = index_of inst REG_RDI ctx /\
  (reads_source op = true -> index_of inst REG_RSI moved = at_ REG_RSI).
Proof.
  intros Hwf. cbv zeta. destruct (reads_source op); [| by split_and!].
  destruct reg_numbers as (H1 & H2 & H3 & H4 & _). set (v := wrap _ _). assert (Hv : in_word (i_address_size inst) v) by (apply wrap_range, index_width_nonneg).
  destruct (index_set REG_RSI v REG_RDI ctx H1 (proj1 H2) Hwf Hv) as [Hwf' Hi]. destruct (index_set REG_RSI v REG_RSI ctx H1 (proj1 H1) Hwf Hv) as [_ Hj].
  split_and!; [done | by rewrite Hi | intros _; by rewrite Hj].
Qed.

Lemma block_indices op k rcx ctx : regs_wf ctx ->
  let ctx' := block_context op k rcx ctx in
  regs_wf ctx' /\ index_of inst REG_RCX ctx' = wrap (i_address_size inst) rcx /\
  index_of inst REG_RDI ctx' = wrap (i_address_size inst) (index_of inst REG_RDI ctx + k * element_bytes inst) /\
  (reads_source op = true -> index_of inst REG_RSI ctx' = wrap (i_address_size inst) (index_of inst REG_RSI ctx + k * element_bytes inst)).
Proof.
  intros Hwf. unfold block_context. cbv zeta. destruct reg_numbers as (H1 & H2 & H3 & H4 & H5 & H6).
  destruct (block_moved_wf op ctx k Hwf) as (Hwf1 & Hdi & Hsi). cbv zeta in *. set (moved := if reads_source op then _ else ctx) in *.
  set (d := wrap _ (index_of inst REG_RDI ctx + _)). assert (Hd : in_word (i_address_size inst) d) by (apply wrap_range, index_width_nonneg).
  assert (Hc : in_word (i_address_size inst) (wrap (i_address_size inst) rcx)) by (apply wrap_range, index_width_nonneg).
  destruct (index_set REG_RDI d REG_RDI moved H2 (proj1 H2) Hwf1 Hd) as [Hwf2 Hd2]. destruct (index_set REG_RDI d REG_RSI moved H2 (proj1 H1) Hwf1 Hd) as [_ Hs2].
  set (ctx2 := set_reg _ REG_RDI d moved) in *.
  destruct (index_set REG_RCX _ REG_RCX ctx2 H3 (proj1 H3) Hwf2 Hc) as [Hwf3 Hc3].
  destruct (index_set REG_RCX _ REG_RDI ctx2 H3 (proj1 H2) Hwf2 Hc) as [_ Hd3]. destruct (index_set REG_RCX _ REG_RSI ctx2 H3 (proj1 H1) Hwf2 Hc) as [_ Hs3].
  split_and!; [done | by rewrite Hc3 | by rewrite Hd3 | intros E; rewrite Hs3, Hs2; exact (Hsi E)].
Qed.

Lemma block_context_plain op k rcx ctx : plain ctx (block_context op k rcx ctx).
Proof.
  unfold block_context. cbv zeta. eapply plain_trans; [| apply plain_set_reg]. eapply plain_trans; [| apply plain_set_reg].
  destruct (reads_source op); [apply plain_set_reg | apply plain_refl].
Qed.

Lemma block_context_rflags op k rcx ctx : c_rflags (block_context op k rcx ctx) = c_rflags ctx.
Proof. unfold block_context. cbv zeta. rewrite !set_reg_keeps_rflags. destruct (reads_source op); by rewrite ?set_reg_keeps_rflags. Qed.

Lemma block_context_rax op k rcx ctx : regs_wf ctx -> reg_at (block_context op k rcx ctx) REG_RAX = reg_at ctx REG_RAX.
Proof.
  intros Hwf. unfold block_context. cbv zeta. destruct reg_numbers as (H1 & H2 & H3 & _).
  assert (Hset : forall r v c, 0 <= r < 16 -> r <> REG_RAX -> regs_wf c -> in_word (i_address_size inst) v -> reg_at (set_reg (i_address_size inst) r v c) REG_RAX = reg_at c REG_RAX).
  { intros r v c Hr Hne Hc Hv. destruct (set_reg_stack _ r v c index_width Hr Hc Hv) as (_ & _ & Helse). apply Helse; [unfold REG_RAX; lia | done]. }
  assert (Hw : forall x, in_word (i_address_size inst) (wrap (i_address_size inst) x)) by (intros; apply wrap_range, index_width_nonneg).
  destruct (block_moved_wf op ctx k Hwf) as (Hwf1 & _). cbv zeta in Hwf1.
  rewrite !Hset by (done || apply Hw || apply (index_set REG_RDI _ 0); try done; apply Hw).
  destruct (reads_source op); [by apply Hset | done].
Qed.

(** Later values of the same registers replace the earlier ones. *)
Lemma sets_collapse d d' c c' ctx : regs_wf ctx ->
  let set r v := set_reg (i_address_size inst) r (wrap (i_address_size inst) v) in
  set REG_RCX c' (set REG_RDI d' (set REG_RCX c (set REG_RDI d ctx))) = set REG_RCX c' (set REG_RDI d' ctx).
Proof.
  intros Hwf set. destruct reg_numbers as (H1 & H2 & H3 & H4 & H5 & H6). pose proof index_width as Hw.
  assert (Hword : forall x, in_word (i_address_size inst) (wrap (i_address_size inst) x)) by (intros; apply wrap_range, index_width_nonneg).
  assert (Hset : forall r v c, 0 <= r < 16 -> regs_wf c -> regs_wf (set r v c)) by (intros r v x Hr Hx; by apply (index_set r _ 0)).
  unfold set. rewrite (set_reg_comm _ REG_RDI REG_RCX) by (try done; by apply (Hset REG_RDI)).
  rewrite !set_reg_twice; try done; try (by apply (Hset REG_RDI)); repeat (apply Hset; try done).
Qed.

Lemma source_collapse s s' d c ctx : regs_wf ctx ->
  let set r v := set_reg (i_address_size inst) r (wrap (i_address_size inst) v) in
  set REG_RSI s' (set REG_RCX c (set REG_RDI d (set REG_RSI s ctx))) = set REG_RCX c (set REG_RDI d (set REG_RSI s' ctx)).
Proof.
  intros Hwf set. destruct reg_numbers as (H1 & H2 & H3 & H4 & H5 & H6). pose proof index_width as Hw.
  assert (Hword : forall x, in_word (i_address_size inst) (wrap (i_address_size inst) x)) by (intros; apply wrap_range, index_width_nonneg).
  assert (Hset : forall r v c, 0 <= r < 16 -> regs_wf c -> regs_wf (set r v c)) by (intros r v x Hr Hx; by apply (index_set r _ 0)).
  unfold set. rewrite (set_reg_comm _ REG_RSI REG_RCX), (set_reg_comm _ REG_RSI REG_RDI); try done; try (by apply (Hset REG_RSI)).
  - by rewrite set_reg_twice.
  - apply (Hset REG_RDI); [done |]. by apply (Hset REG_RSI).
Qed.

(** Two blocks in a row. *)
Lemma block_context_twice op k k' rcx rcx' ctx : regs_wf ctx ->
  block_context op k' rcx' (block_context op k rcx ctx) = block_context op (k + k') rcx' ctx.
Proof.
  intros Hwf. destruct (block_indices op k rcx ctx Hwf) as (Hwf' & _ & Hdi & Hsi). cbv zeta in *.
  assert (Hadd : forall i, wrap (i_address_size inst) (wrap (i_address_size inst) (i + k * element_bytes inst) + k' * element_bytes inst) =
    wrap (i_address_size inst) (i + (k + k') * element_bytes inst)).
  { intros i. rewrite wrap_add_l by apply index_width_nonneg. f_equal. lia. }
  destruct (block_moved_wf op ctx (k + k') Hwf) as (Hwf2 & _ & _). cbv zeta in Hwf2.
  unfold block_context at 1. cbv zeta. rewrite Hdi, Hadd. unfold block_context in *. cbv zeta in *.
  destruct (reads_source op); [| exact (sets_collapse _ _ _ _ ctx Hwf)].
  rewrite (Hsi eq_refl), Hadd. rewrite (source_collapse _ _ _ _ ctx Hwf). exact (sets_collapse _ _ _ _ _ Hwf2).
Qed.

End registers.

(** ** REP MOVS and REP STOS are one store *)

(** [k] copies of an element of [n] bytes. *)
Fixpoint fill (n value : Z) (k : nat) : Z := match k with O => 0 | S k => value + 256 ^ n * fill n value k end.

Section blocks.
Context `{Callbacks}.
Variable inst : DecodedInstruction.
Hypothesis Hsizes : string_sizes inst.
Variables opcode rep_prefix : Z.

Definition block_value (op : string_op) (e : cpueaxh_engine) (k : nat) : Z :=
  match op with
  | MOVS => guest_value e (source_at inst (en_context e)) (Z.of_nat k * element_bytes inst)
  | _ => fill (element_bytes inst) (accumulator_of inst (en_context e)) k
  end.

(** The destination is writable and, for MOVS, the source readable and elsewhere, and no index
    wraps around on the way. *)
Definition block_ok (op : string_op) (e : cpueaxh_engine) (k : nat) : Prop :=
  let ctx := en_context e in
  let len := Z.of_nat k * element_bytes inst in
  first_fault e (destination_at inst ctx) len MM_PROT_WRITE = None /\
  index_of inst REG_RDI ctx + len <= 2 ^ i_address_size inst /\
  (reads_source op = true ->
     first_fault e (source_at inst ctx) len MM_PROT_READ = None /\
     index_of inst REG_RSI ctx + len <= 2 ^ i_address_size inst /\
     hosts_of e (source_at inst ctx) len ## hosts_of e (destination_at inst ctx) len).

Lemma element_bytes_pos : 1 <= element_bytes inst <= 8 /\ 8 * element_bytes inst = i_operand_size inst.
Proof. unfold element_bytes. by destruct (proj1 Hsizes) as [-> | [-> | [-> | ->]]]. Qed.

(** The address of the next element, where the index does not wrap around. *)
Lemma next_element seg index n ctx ctx' : plain ctx ctx' -> 0 <= index -> 0 <= n -> index + n < 2 ^ i_address_size inst ->
  element_address seg (wrap (i_address_size inst) (index + n)) ctx' = at_off (element_address seg index ctx) n.
Proof.
  intros Hp Hi Hn Hlt. assert (Hbase : cpu_segment_base_for_addressing ctx' seg = cpu_segment_base_for_addressing ctx seg) by (rewrite Hp; reflexivity).
  unfold element_address, at_off. rewrite Hbase, (wrap_small (i_address_size inst)) by (split; lia). rewrite wrap_add_l by lia. f_equal. lia.
Qed.

Lemma access_canonical e a n acc : 1 <= n -> in_word 64 a -> first_fault e a n acc = None -> noncanonical (en_context e) a = false.
Proof.
  intros Hn Ha Hf. unfold first_fault in Hf. rewrite offsets_0, seqZ_cons in Hf by lia. cbn [first_fault_in] in Hf.
  unfold at_off in Hf. rewrite Z.add_0_r, wrap_small in Hf by done. unfold cpu_access in Hf. unfold noncanonical.
  destruct (cpu_uses_canonical_addresses (en_context e) && negb (cpu_is_canonical_address a)); [discriminate | done].
Qed.

(** One iteration that completes, in the loop. *)
Lemma rep_loop_step e e1 k : stack_size_ok (i_address_size inst) ->
  final (execute_rep_iteration_with_decoded opcode inst) e = e1 -> cpu_has_exception (en_context e1) = false ->
  final (rep_loop (S k) opcode rep_prefix inst) e =
  let ctx2 := set_reg (i_address_size inst) REG_RCX (wrap (i_address_size inst) (Z.of_nat k)) (en_context e1) in
  let e2 := set_en_context ctx2 e1 in
  if scan_ends opcode rep_prefix ctx2 then e2 else final (rep_loop k opcode rep_prefix inst) e2.
Proof.
  intros Hs Hrun Hx. unfold final in *. cbn [rep_loop]. destruct (execute_rep_iteration_with_decoded opcode inst e) as [u e1'] eqn:Erun. cbn [snd] in Hrun. subst e1'.
  rewrite (bind_run _ _ _ _ _ Erun), (bind_run (get_ctx cpu_has_exception) _ e1 _ e1 eq_refl), Hx.
  set (ctx2 := set_reg _ REG_RCX _ _). set (e2 := set_en_context ctx2 e1).
  assert (Hset : on_ctx (set_rep_count (i_address_size inst) (Z.of_nat k)) e1 = (tt, e2))
    by (unfold set_rep_count, on_ctx, st_zoom; rewrite set_index_at by exact Hs; reflexivity).
  rewrite (bind_run _ _ _ _ _ Hset), (bind_run (get_ctx _) _ e2 _ e2 eq_refl).
  change (en_context e2) with ctx2. cbv zeta. fold ctx2. fold e2. destruct (scan_ends opcode rep_prefix ctx2); reflexivity.
Qed.

Lemma scans_of op : string_op_of opcode = Some op -> conditional_scan opcode = reads_destination op.
Proof.
  unfold string_op_of. intros Hop. assert (Hone : one_of opcode [0xA4; 0xA5; 0xA6; 0xA7; 0xAA; 0xAB; 0xAC; 0xAD; 0xAE; 0xAF] = true).
  { unfold one_of in *. cbn [existsb] in *. repeat match goal with |- context [opcode =? ?x] => destruct (opcode =? x) end; done. }
  unfold one_of in *. cbn [existsb] in *. rewrite !orb_true_iff, !Z.eqb_eq in Hone.
  repeat (destruct Hone as [-> | Hone]; [by injection Hop as <- |]). done.
Qed.

(** The first element of a block of MOVS or STOS, and the count behind it. *)
Lemma block_first op e k : op = MOVS \/ op = STOS -> string_op_of opcode = Some op ->
  cpu_ready e -> regs_wf (en_context e) -> has_bits (c_rflags (en_context e)) RFLAGS_DF = false -> block_ok op e (S k) ->
  let n := element_bytes inst in
  let value := match op with MOVS => guest_value e (source_at inst (en_context e)) n | _ => accumulator_of inst (en_context e) end in
  exists e1, stored e (hosts_of e (destination_at inst (en_context e)) n) value e1 /\ in_word (8 * n) value /\
    final (rep_loop (S k) opcode rep_prefix inst) e =
    final (rep_loop k opcode rep_prefix inst) (set_en_context (block_context inst op 1 (Z.of_nat k) (en_context e)) e1).
Proof.
  intros Hop Hopcode Hr Hwf Hdf (Hw & Hdi & Hsrc). cbv zeta. pose proof element_bytes_pos as [Hn H8]. set (n := element_bytes inst) in *. pose proof (proj2 Hsizes) as Hs.
  replace (Z.of_nat (S k) * n) with (n + Z.of_nat k * n) in * by lia. rewrite first_fault_block in Hw by lia.
  destruct (first_fault e (destination_at inst (en_context e)) n MM_PROT_WRITE) as [? |] eqn:Ew; [discriminate |].
  pose proof (iteration_spec inst e op Hr Hwf Hsizes) as Ho. rewrite <- (iteration_at opcode op inst Hopcode) in Ho.
  unfold string_outcome, string_fault in Ho. fold n in Ho. rewrite Ew in Ho.
  assert (Hcd : noncanonical (en_context e) (destination_at inst (en_context e)) = false) by exact (access_canonical e _ n _ (proj1 Hn) (element_word _ _ _) Ew).
  rewrite Hcd in Ho.
  assert (Hdir : direction inst (en_context e) = n) by (unfold direction; by rewrite Hdf).
  assert (Hgo : exists e1, stored e (hosts_of e (destination_at inst (en_context e)) n)
      (match op with MOVS => guest_value e (source_at inst (en_context e)) n | _ => accumulator_of inst (en_context e) end) e1 /\
    in_word (8 * n) (match op with MOVS => guest_value e (source_at inst (en_context e)) n | _ => accumulator_of inst (en_context e) end) /\
    final (execute_rep_iteration_with_decoded opcode inst) e =
      set_en_context (index_moved inst (en_context e) REG_RDI (if reads_source op then index_moved inst (en_context e) REG_RSI (en_context e) else en_context e)) e1).
  { destruct Hop as [-> | ->]; cbn [reads_source reads_destination writes_destination orb andb] in Ho.
    - destruct (Hsrc eq_refl) as (Hrd & _ & _). rewrite first_fault_block in Hrd by lia.
      destruct (first_fault e (source_at inst (en_context e)) n MM_PROT_READ) as [? |] eqn:Er; [discriminate |].
      assert (Hcs : noncanonical (en_context e) (source_at inst (en_context e)) = false) by exact (access_canonical e _ n _ (proj1 Hn) (element_word _ _ _) Er).
      rewrite Hcs in Ho. cbn [orb] in Ho.
      destruct Ho as (e1 & ctx' & Hm & Hc & Heq). cbn [string_memory string_context] in Hm, Hc. exists e1. split; [exact Hm |]. split; [| by rewrite Heq, Hc].
      rewrite H8. exact (string_value_word inst e Hr Hsizes _ Er).
    - destruct Ho as (e1 & ctx' & Hm & Hc & Heq). cbn [string_memory string_context] in Hm, Hc. exists e1. split; [exact Hm |]. split; [| by rewrite Heq, Hc].
      rewrite H8. exact (accumulator_word inst e Hwf Hsizes). }
  destruct Hgo as (e1 & Hst & Hword & Hrun). exists e1. split; [exact Hst |]. split; [exact Hword |].
  set (ctx1 := index_moved inst (en_context e) REG_RDI _) in Hrun.
  assert (Hctx : set_reg (i_address_size inst) REG_RCX (wrap (i_address_size inst) (Z.of_nat k)) ctx1 = block_context inst op 1 (Z.of_nat k) (en_context e)).
  { unfold ctx1, block_context, index_moved. cbv zeta. rewrite Hdir. fold n. rewrite Z.mul_1_l. by destruct Hop as [-> | ->]. }
  rewrite (rep_loop_step e _ k Hs Hrun); cbn [en_context set_en_context].
  - cbv zeta. rewrite Hctx. unfold scan_ends. rewrite (scans_of op Hopcode). by destruct Hop as [-> | ->].
  - assert (Hp1 : plain (en_context e) ctx1).
    { unfold ctx1, index_moved. destruct Hop as [-> | ->]; [eapply plain_trans |]; apply plain_set_reg. }
    rewrite (plain_has_exception _ _ Hp1). apply Hr.
Qed.

End blocks.

Section block_loop.
Context `{Callbacks}.
Variable inst : DecodedInstruction.
Hypothesis Hsizes : string_sizes inst.
Variables opcode rep_prefix : Z.

Lemma accumulator_block op k rcx ctx : regs_wf ctx -> accumulator_of inst (block_context inst op k rcx ctx) = accumulator_of inst ctx.
Proof.
  intros Hwf. pose proof (block_context_rax inst (proj2 Hsizes) op k rcx ctx Hwf) as Hrax.
  assert (Hrex : c_rex_present (block_context inst op k rcx ctx) = c_rex_present ctx) by (rewrite (block_context_plain inst op k rcx ctx); reflexivity).
  unfold accumulator_of, get_reg, get_reg8, get_reg16, get_reg32, get_reg64. rewrite Hrex, Hrax. by destruct (c_rex_present ctx).
Qed.

(** What a block still asks behind its first element. *)
Lemma block_rest op e e1 v k : op = MOVS \/ op = STOS ->
  cpu_ready e -> regs_wf (en_context e) -> has_bits (c_rflags (en_context e)) RFLAGS_DF = false -> block_ok inst op e (S (S k)) ->
  let n := element_bytes inst in let ctx1 := block_context inst op 1 (Z.of_nat (S k)) (en_context e) in let e2 := set_en_context ctx1 e1 in
  stored e (hosts_of e (destination_at inst (en_context e)) n) v e1 ->
  cpu_ready e2 /\ regs_wf ctx1 /\ has_bits (c_rflags ctx1) RFLAGS_DF = false /\ block_ok inst op e2 (S k) /\
  destination_at inst ctx1 = at_off (destination_at inst (en_context e)) n /\
  (reads_source op = true -> source_at inst ctx1 = at_off (source_at inst (en_context e)) n /\
     guest_value e2 (source_at inst ctx1) (Z.of_nat (S k) * n) = guest_value e (at_off (source_at inst (en_context e)) n) (Z.of_nat (S k) * n)).
Proof.
  intros Hop Hr Hwf Hdf (Hw & Hdi & Hsrc) n ctx1 e2 Hst. destruct (element_bytes_pos inst Hsizes) as [Hn H8]. fold n in Hn, H8, Hw, Hdi, Hsrc.
  pose proof (proj2 Hsizes) as Hs. pose proof (index_width_nonneg inst Hs) as H0. set (len := Z.of_nat (S k) * n) in *. assert (Hlen : 1 <= len) by (unfold len; lia).
  replace (Z.of_nat (S (S k)) * n) with (n + len) in * by (unfold len; lia). rewrite first_fault_block in Hw by lia.
  destruct (block_indices inst Hs op 1 (Z.of_nat (S k)) (en_context e) Hwf) as (Hwf1 & _ & Hdi1 & Hsi1). cbv zeta in Hwf1, Hdi1, Hsi1. fold ctx1 n in Hwf1, Hdi1, Hsi1.
  rewrite Z.mul_1_l in Hdi1, Hsi1. pose proof (block_context_plain inst op 1 (Z.of_nat (S k)) (en_context e)) as Hp. fold ctx1 in Hp.
  assert (Hidx : forall r, 0 <= index_of inst r (en_context e)) by (intros r; rewrite get_index_wrap by done; by apply wrap_range).
  assert (Hd : destination_at inst ctx1 = at_off (destination_at inst (en_context e)) n).
  { unfold destination_at at 1. rewrite Hdi1. apply next_element; [done | done | lia |]. lia. }
  assert (Hff : forall a m acc, first_fault e2 a m acc = first_fault e a m acc).
  { intros a m acc. unfold e2. rewrite plain_first_fault by (by rewrite (stored_context _ _ _ _ Hst)). exact (stored_first_fault _ _ _ _ _ _ _ Hst). }
  assert (Hhosts : forall a m, hosts_of e2 a m = hosts_of e a m) by (intros a m; exact (stored_hosts _ _ _ _ a m Hst)).
  assert (Hready : cpu_ready e2).
  { apply context_ready; [by eapply stored_ready | rewrite (stored_context _ _ _ _ Hst); by rewrite Hp |]. rewrite (plain_has_exception _ _ Hp). apply Hr. }
  assert (Hwrest : first_fault e (at_off (destination_at inst (en_context e)) n) len MM_PROT_WRITE = None) by (by destruct (first_fault e _ n MM_PROT_WRITE)).
  assert (Hsource : reads_source op = true -> source_at inst ctx1 = at_off (source_at inst (en_context e)) n /\
    first_fault e (at_off (source_at inst (en_context e)) n) len MM_PROT_READ = None /\
    index_of inst REG_RSI ctx1 + len <= 2 ^ i_address_size inst /\
    hosts_of e (at_off (source_at inst (en_context e)) n) len ## hosts_of e (destination_at inst (en_context e)) n /\
    hosts_of e (at_off (source_at inst (en_context e)) n) len ## hosts_of e (at_off (destination_at inst (en_context e)) n) len).
  { intros E. destruct (Hsrc E) as (Hrd & Hsi & Hdisj). specialize (Hsi1 E). rewrite first_fault_block in Hrd by lia.
    rewrite !hosts_of_block in Hdisj by lia. pose proof (Hidx REG_RSI) as Hi.
    split; [unfold source_at at 1; rewrite Hsi1; apply next_element; [done | done | lia | lia] |]. split; [by destruct (first_fault e _ n MM_PROT_READ) |].
    split; [rewrite Hsi1, wrap_small by (split; lia); lia |]. split; intros x Hx Hy; apply (Hdisj x); apply elem_of_app; auto. }
  split; [exact Hready |]. split; [exact Hwf1 |]. split; [unfold ctx1; by rewrite block_context_rflags |]. split; [| split; [exact Hd |]].
  - unfold block_ok. change (en_context e2) with ctx1. fold n len. rewrite Hd, Hff. pose proof (Hidx REG_RDI) as Hi.
    split; [exact Hwrest |]. split; [rewrite Hdi1, wrap_small by (split; lia); lia |]. intros E. destruct (Hsource E) as (Ha & Hb & Hc & _ & He).
    rewrite Ha, Hff, !Hhosts. split; [exact Hb |]. split; [exact Hc | exact He].
  - intros E. destruct (Hsource E) as (Ha & _ & _ & Hx & _). split; [exact Ha |]. rewrite Ha.
    exact (stored_elsewhere _ _ _ _ _ _ Hst Hx).
Qed.

Lemma rep_block op k : op = MOVS \/ op = STOS -> string_op_of opcode = Some op -> forall e,
  cpu_ready e -> regs_wf (en_context e) -> has_bits (c_rflags (en_context e)) RFLAGS_DF = false -> block_ok inst op e (S k) ->
  exists e1, stored e (hosts_of e (destination_at inst (en_context e)) (Z.of_nat (S k) * element_bytes inst)) (block_value inst op e (S k)) e1 /\
    final (rep_loop (S k) opcode rep_prefix inst) e = set_en_context (block_context inst op (Z.of_nat (S k)) 0 (en_context e)) e1.
Proof.
  intros Hop Hopcode. pose proof (element_bytes_pos inst Hsizes) as [Hn H8]. set (n := element_bytes inst) in *.
  induction k as [| k IH]; intros e Hr Hwf Hdf Hok;
    destruct (block_first inst Hsizes opcode rep_prefix op e _ Hop Hopcode Hr Hwf Hdf Hok) as (e1 & Hst & Hword & Hrun); fold n in Hst, Hword; rewrite Hrun.
  - exists e1. change (Z.of_nat 1) with 1. rewrite Z.mul_1_l. split; [| reflexivity]. unfold block_value. fold n.
    destruct Hop as [-> | ->]; [change (Z.of_nat 1) with 1; by rewrite Z.mul_1_l |]. cbn [fill]. by rewrite Z.mul_0_r, Z.add_0_r.
  - destruct (block_rest op e e1 _ k Hop Hr Hwf Hdf Hok Hst) as (Hr2 & Hwf2 & Hdf2 & Hok2 & Hd & Hs). fold n in Hd, Hs. set (ctx1 := block_context inst op 1 _ _) in *.
    destruct (IH (set_en_context ctx1 e1) Hr2 Hwf2 Hdf2 Hok2) as (e3 & Hst3 & Hrun3). cbn [en_context set_en_context] in Hst3, Hrun3.
    exists (set_en_context (en_context e) e3). split.
    + replace (Z.of_nat (S (S k)) * n) with (n + Z.of_nat (S k) * n) by lia. rewrite hosts_of_block by lia.
      assert (Hh2 : hosts_of (set_en_context ctx1 e1) (destination_at inst ctx1) (Z.of_nat (S k) * n) = hosts_of e (at_off (destination_at inst (en_context e)) n) (Z.of_nat (S k) * n))
        by (rewrite Hd; exact (stored_hosts _ _ _ _ _ _ Hst)).
      rewrite Hh2 in Hst3.
      assert (Hlen : Z.of_nat (length (hosts_of e (destination_at inst (en_context e)) n)) = n) by (rewrite hosts_length, Z2Nat.id by lia; reflexivity).
      assert (Hsmall : 256 ^ n = 2 ^ (8 * n)) by (rewrite Z.pow_mul_r by lia; reflexivity).
      pose proof (stored_app _ _ _ _ ctx1 _ _ _ Hst Hst3) as Happ. rewrite Hlen in Happ. rewrite Hsmall in Happ at 1.
      specialize (Happ Hword). replace (block_value inst op e (S (S k))) with (match op with MOVS => guest_value e (source_at inst (en_context e)) n | _ => accumulator_of inst (en_context e) end + 256 ^ n * block_value inst op (set_en_context ctx1 e1) (S k)); [exact Happ |].
      unfold block_value. fold n. cbn [en_context set_en_context]. destruct Hop as [-> | ->].
      * destruct (Hs eq_refl) as [_ Hv]. rewrite Hv. replace (Z.of_nat (S (S k)) * n) with (n + Z.of_nat (S k) * n) by lia. rewrite guest_value_block by lia. reflexivity.
      * unfold ctx1. rewrite accumulator_block by done. reflexivity.
    + rewrite Hrun3. unfold ctx1. rewrite (block_context_twice inst (proj2 Hsizes)) by done. replace (1 + Z.of_nat (S k)) with (Z.of_nat (S (S k))) by lia. by destruct e3.
Qed.

End block_loop.

(** ** The repetition as a whole *)

Section repetition.
Context `{Callbacks}.
Variable inst : DecodedInstruction.
Hypothesis Hsizes : string_sizes inst.
Variables opcode rep_prefix : Z.

(** The repetition reads its count from the register. *)
Lemma run_rep_count e : final (run_rep opcode rep_prefix inst) e = final (rep_loop (Z.to_nat (index_of inst REG_RCX (en_context e))) opcode rep_prefix inst) e.
Proof. unfold run_rep, get_rep_count, final. by rewrite (bind_run _ _ _ _ _ (get_index_at inst e REG_RCX (proj2 Hsizes))). Qed.

(** C35: REP MOVS and REP STOS are one store of the whole block.  With DF clear, at every operand
    and address size: when the destination block is writable, for MOVS the source block readable
    and none of its host bytes one of the destination's, and no index wraps around on the way, the
    repetition stores the bytes of the source, or that many copies of the accumulator, at the
    destination, sets RCX to 0, moves RDI (and RSI) past the block, and changes nothing else; the
    block reads back as what was stored where its bytes do not share host bytes.  A count of 0
    changes nothing. *)
Theorem rep_stores_the_block e op (Hr : cpu_ready e) (Hwf : regs_wf (en_context e))
  (Hdf : has_bits (c_rflags (en_context e)) RFLAGS_DF = false) (Hop : op = MOVS \/ op = STOS) (Hopcode : string_op_of opcode = Some op) :
  let count := index_of inst REG_RCX (en_context e) in
  let dst := destination_at inst (en_context e) in
  let len := count * element_bytes inst in
  let value := block_value inst op e (Z.to_nat count) in
  block_ok inst op e (Z.to_nat count) ->
  let e' := final (run_rep opcode rep_prefix inst) e in
  if count =? 0 then e' = e
  else
    (exists e1, stored e (hosts_of e dst len) value e1 /\ e' = set_en_context (block_context inst op count 0 (en_context e)) e1) /\
    (NoDup (hosts_of e dst len) -> guest_value e' dst len = wrap (8 * len) value).
Proof.
  cbv zeta. rewrite run_rep_count. set (count := index_of inst REG_RCX (en_context e)). intros Hok.
  assert (Hcount : 0 <= count) by (unfold count; rewrite (get_index_wrap inst (proj2 Hsizes)) by done; apply wrap_range, (index_width_nonneg inst (proj2 Hsizes))).
  destruct (Z.eqb_spec count 0) as [E | Hne]; [rewrite E; reflexivity |].
  destruct (Z.to_nat count) as [| k] eqn:Ek; [lia |]. assert (Hk : Z.of_nat (S k) = count) by lia.
  destruct (rep_block inst Hsizes opcode rep_prefix op k Hop Hopcode e Hr Hwf Hdf Hok) as (e1 & Hst & Hrun). rewrite Hk in Hst, Hrun.
  split; [by exists e1 |]. intros Hnd. rewrite Hrun.
  destruct Hok as (Hw & _ & _). rewrite Hk in Hw. pose proof (element_bytes_pos inst Hsizes) as [Hn _].
  exact (stored_value _ _ _ _ e1 _ Hst Hw Hnd ltac:(lia)).
Qed.

(** *** Interruption *)

Lemma flags_wf f ctx ctx' : ctx_flags_written f ctx ctx' -> regs_wf ctx -> regs_wf ctx'.
Proof. intros [-> _] Hwf. exact Hwf. Qed.

Lemma moved_wf old r ctx : 0 <= r < 16 -> regs_wf ctx -> regs_wf (index_moved inst old r ctx).
Proof. intros Hreg Hwf. unfold index_moved. apply (index_set inst (proj2 Hsizes) r _ 0); [done | done | done |]. apply wrap_range, (index_width_nonneg inst (proj2 Hsizes)). Qed.

Lemma rax_wf v ctx : in_word (i_operand_size inst) v -> regs_wf ctx -> regs_wf (set_reg (i_operand_size inst) REG_RAX v ctx).
Proof.
  intros Hv Hwf. pose proof (proj1 Hsizes) as Hos. assert (Hok : reg_operand_ok (c_rex_present ctx) (i_operand_size inst) REG_RAX).
  { unfold reg_operand_ok, REG_RAX. destruct Hos as [-> | [-> | [-> | ->]]]; cbn; repeat case_match; lia. }
  rewrite set_reg_merged by done. destruct (slice_bounds _ _ _ Hos Hok) as (_ & Ho1 & Ho2).
  apply set_reg_at_wf; [| done]. apply merged_in_word; try done. by apply reg_at_in_word.
Qed.

Lemma accumulator_keeps_count v ctx : in_word (i_operand_size inst) v -> regs_wf ctx ->
  index_of inst REG_RCX (set_reg (i_operand_size inst) REG_RAX v ctx) = index_of inst REG_RCX ctx.
Proof.
  intros Hv Hwf. pose proof (proj1 Hsizes) as Hos. pose proof (push_width_reg _ (index_width inst (proj2 Hsizes))) as Has.
  assert (Hok : forall w r, 0 <= r < 4 -> reg_operand_ok (c_rex_present ctx) w r) by (intros w r ?; unfold reg_operand_ok; repeat case_match; lia).
  apply (register_accessors_correct ctx _ REG_RAX v Hos Hwf (Hok _ REG_RAX ltac:(unfold REG_RAX; lia)) Hv); [done | apply Hok; unfold REG_RCX; lia |].
  left. unfold slice_register, REG_RAX, REG_RCX. repeat case_match; lia.
Qed.

(** What an iteration writes stays a register file of words, and leaves the count alone. *)
Lemma string_context_wf e op ctx' : cpu_ready e -> regs_wf (en_context e) -> string_fault inst op e = None -> string_context inst op e ctx' ->
  regs_wf ctx' /\ index_of inst REG_RCX ctx' = index_of inst REG_RCX (en_context e) /\ plain (en_context e) ctx'.
Proof.
  intros Hr Hwf Hf Hc. pose proof (proj2 Hsizes) as Hs. destruct reg_numbers as (H1 & H2 & H3 & H4 & H5 & H6).
  assert (Hm : forall r ctx, 0 <= r < 16 -> r <> REG_RCX -> regs_wf ctx ->
    regs_wf (index_moved inst (en_context e) r ctx) /\ index_of inst REG_RCX (index_moved inst (en_context e) r ctx) = index_of inst REG_RCX ctx /\
    plain ctx (index_moved inst (en_context e) r ctx)).
  { intros r ctx Hreg Hne Hx. unfold index_moved. set (v := wrap _ _). assert (Hv : in_word (i_address_size inst) v) by (apply wrap_range, (index_width_nonneg inst Hs)).
    destruct (index_set inst Hs r v REG_RCX ctx Hreg (proj1 H3) Hx Hv) as [Hw Hi]. split; [done |]. split; [| apply plain_set_reg].
    rewrite Hi. by destruct (Z.eqb_spec REG_RCX r) as [E |]; [symmetry in E |]. }
  assert (Hfl : forall f ctx, ctx_flags_written f (en_context e) ctx -> regs_wf ctx /\ index_of inst REG_RCX ctx = index_of inst REG_RCX (en_context e) /\ plain (en_context e) ctx).
  { intros f ctx Hw. split; [by eapply flags_wf |]. split; [| by eapply plain_flags_written]. destruct Hw as [-> _]. reflexivity. }
  assert (Hthen : forall r ctx, 0 <= r < 16 -> r <> REG_RCX -> regs_wf ctx /\ index_of inst REG_RCX ctx = index_of inst REG_RCX (en_context e) /\ plain (en_context e) ctx ->
    regs_wf (index_moved inst (en_context e) r ctx) /\ index_of inst REG_RCX (index_moved inst (en_context e) r ctx) = index_of inst REG_RCX (en_context e) /\
    plain (en_context e) (index_moved inst (en_context e) r ctx)).
  { intros r ctx Hreg Hne (Hw & Hi & Hp). destruct (Hm r ctx Hreg Hne Hw) as (Hw' & Hi' & Hp'). split; [done |]. split; [by rewrite Hi' | by eapply plain_trans]. }
  assert (Hself : regs_wf (en_context e) /\ index_of inst REG_RCX (en_context e) = index_of inst REG_RCX (en_context e) /\ plain (en_context e) (en_context e))
    by (split; [done |]; split; [done | apply plain_refl]).
  destruct op; cbn [string_context] in Hc.
  - rewrite Hc. apply Hthen; [done | auto |]. by apply Hthen; auto.
  - destruct Hc as (fl & Hfl' & ->). apply Hthen; [done | auto |]. apply Hthen; [done | auto |]. by eapply Hfl.
  - rewrite Hc. by apply Hthen; auto.
  - rewrite Hc. apply Hthen; [done | auto |]. set (v := guest_value _ _ _).
    assert (Hv : in_word (i_operand_size inst) v).
    { apply (string_value_word inst e Hr Hsizes). unfold string_fault in Hf. cbn [reads_source reads_destination writes_destination] in Hf.
      by destruct (first_fault e _ _ MM_PROT_READ) as [[? ?] |]. }
    split; [by apply rax_wf |]. split; [| apply plain_set_reg].
    apply accumulator_keeps_count; done.
  - destruct Hc as (fl & Hfl' & ->). apply Hthen; [done | auto |]. by eapply Hfl.
Qed.

End repetition.

(** What an interrupted repetition leaves in the registers is enough to go on from. *)
Section interruption.
Context `{Callbacks}.
Variable inst : DecodedInstruction.
Hypothesis Hsizes : string_sizes inst.
Variables (opcode rep_prefix : Z) (op : string_op).
Hypothesis Hopcode : string_op_of opcode = Some op.

Definition iterated (e : cpueaxh_engine) : cpueaxh_engine := final (execute_rep_iteration_with_decoded opcode inst) e.

(** The element done, the count one less. *)
Definition counted (e : cpueaxh_engine) : cpueaxh_engine :=
  let e1 := iterated e in
  set_en_context (set_reg (i_address_size inst) REG_RCX (index_of inst REG_RCX (en_context e) - 1) (en_context e1)) e1.

(** One element of a repetition that goes on. *)
Inductive rep_step (e : cpueaxh_engine) : cpueaxh_engine -> Prop :=
| rep_goes_on : 0 < index_of inst REG_RCX (en_context e) ->
    cpu_has_exception (en_context (iterated e)) = false ->
    scan_ends opcode rep_prefix (en_context (counted e)) = false ->
    rep_step e (counted e).

(** How a repetition stops: nothing is left, the next element faults, or the comparison ends it. *)
Inductive rep_stops (e : cpueaxh_engine) : cpueaxh_engine -> Prop :=
| rep_counted_out : index_of inst REG_RCX (en_context e) = 0 -> rep_stops e e
| rep_faults : 0 < index_of inst REG_RCX (en_context e) ->
    cpu_has_exception (en_context (iterated e)) = true -> rep_stops e (iterated e)
| rep_scanned : 0 < index_of inst REG_RCX (en_context e) ->
    cpu_has_exception (en_context (iterated e)) = false ->
    scan_ends opcode rep_prefix (en_context (counted e)) = true -> rep_stops e (counted e).

Lemma count_word e : regs_wf (en_context e) -> in_word (i_address_size inst) (index_of inst REG_RCX (en_context e)).
Proof. intros Hwf. rewrite (get_index_wrap inst (proj2 Hsizes)) by done. apply wrap_range, (index_width_nonneg inst (proj2 Hsizes)). Qed.

(** An iteration that completes keeps the processor ready and the registers words. *)
Lemma iterated_keeps e : cpu_ready e -> regs_wf (en_context e) -> cpu_has_exception (en_context (iterated e)) = false ->
  cpu_ready (iterated e) /\ regs_wf (en_context (iterated e)) /\ index_of inst REG_RCX (en_context (iterated e)) = index_of inst REG_RCX (en_context e).
Proof.
  intros Hr Hwf Hx. pose proof (iteration_spec inst e op Hr Hwf Hsizes) as Ho. rewrite <- (iteration_at opcode op inst Hopcode) in Ho. fold (iterated e) in Ho.
  unfold string_outcome in Ho. destruct (_ && _) in Ho; [destruct Ho as (Hp & _); congruence |].
  destruct (string_fault inst op e) as [[[ad v] access] |] eqn:Ef.
  { assert (Hv : v <> V_OK).
    { unfold string_fault in Ef. repeat match type of Ef with context [first_fault e ?a ?n ?acc] => destruct (first_fault e a n acc) as [[? ?] |] eqn:? end;
      repeat match type of Ef with context [if ?b then _ else _] => destruct b end; try discriminate; simplify_eq; by eapply first_fault_not_ok. }
    rewrite (faults_pending _ _ _ _ _ Hv Ho) in Hx. discriminate. }
  destruct Ho as (e1 & ctx' & Hm & Hc & ->). destruct (string_context_wf inst Hsizes e op ctx' Hr Hwf Ef Hc) as (Hwf' & Hi & Hp).
  cbn [en_context set_en_context]. split; [| by split].
  assert (Hready : cpu_ready e1 /\ en_context e1 = en_context e).
  { destruct op; cbn [string_memory] in Hm; (first [exact (conj (stored_ready _ _ _ _ Hm Hr) (stored_context _ _ _ _ Hm)) | exact (conj (same_cpu_ready _ _ Hm Hr) (same_cpu_context _ _ Hm))]). }
  destruct Hready as [Hready Hctx]. apply context_ready; [done | by rewrite Hctx, Hp |]. rewrite (plain_has_exception _ _ Hp). apply Hr.
Qed.

Lemma counted_keeps e : cpu_ready e -> regs_wf (en_context e) -> 0 < index_of inst REG_RCX (en_context e) -> cpu_has_exception (en_context (iterated e)) = false ->
  cpu_ready (counted e) /\ regs_wf (en_context (counted e)) /\ index_of inst REG_RCX (en_context (counted e)) = index_of inst REG_RCX (en_context e) - 1.
Proof.
  intros Hr Hwf Hc Hx. destruct (iterated_keeps e Hr Hwf Hx) as (Hr1 & Hwf1 & _). pose proof (count_word e Hwf) as Hw. destruct reg_numbers as (_ & _ & Hcx & _).
  assert (Hv : in_word (i_address_size inst) (index_of inst REG_RCX (en_context e) - 1)) by (unfold in_word in *; lia).
  destruct (index_set inst (proj2 Hsizes) REG_RCX _ REG_RCX _ Hcx (proj1 Hcx) Hwf1 Hv) as [Hwf2 Hi].
  unfold counted. cbv zeta. cbn [en_context set_en_context]. split; [| split; [done | by rewrite Hi]].
  pose proof (plain_set_reg (i_address_size inst) REG_RCX (index_of inst REG_RCX (en_context e) - 1) (en_context (iterated e))) as Hp.
  apply context_ready; [done | by rewrite Hp |]. by rewrite (plain_has_exception _ _ Hp).
Qed.

(** One turn of the loop. *)
Lemma run_rep_turn e : cpu_ready e -> regs_wf (en_context e) -> 0 < index_of inst REG_RCX (en_context e) ->
  final (run_rep opcode rep_prefix inst) e =
  if cpu_has_exception (en_context (iterated e)) then iterated e
  else if scan_ends opcode rep_prefix (en_context (counted e)) then counted e else final (run_rep opcode rep_prefix inst) (counted e).
Proof.
  intros Hr Hwf Hc. rewrite !(run_rep_count inst Hsizes). destruct (Z.to_nat (index_of inst REG_RCX (en_context e))) as [| k] eqn:Ek; [lia |].
  destruct (cpu_has_exception (en_context (iterated e))) eqn:Hx.
  - unfold final. cbn [rep_loop]. destruct (execute_rep_iteration_with_decoded opcode inst e) as [u e1] eqn:Erun.
    assert (He : iterated e = e1) by (unfold iterated, final; by rewrite Erun). rewrite He in Hx |- *.
    by rewrite (bind_run _ _ _ _ _ Erun), (bind_run (get_ctx cpu_has_exception) _ e1 _ e1 eq_refl), Hx.
  - pose proof (counted_keeps e Hr Hwf Hc Hx) as (_ & _ & Hi).
    rewrite (rep_loop_step inst opcode rep_prefix e (iterated e) k (proj2 Hsizes) eq_refl Hx). cbv zeta.
    pose proof (count_word e Hwf) as Hw.
    assert (Hk : wrap (i_address_size inst) (Z.of_nat k) = index_of inst REG_RCX (en_context e) - 1) by (rewrite wrap_small; unfold in_word in *; lia).
    rewrite Hk, Hi. fold (counted e). replace (Z.to_nat (index_of inst REG_RCX (en_context e) - 1)) with k by lia. done.
Qed.

Lemma run_rep_step e e' : cpu_ready e -> regs_wf (en_context e) -> rep_step e e' ->
  cpu_ready e' /\ regs_wf (en_context e') /\ index_of inst REG_RCX (en_context e') = index_of inst REG_RCX (en_context e) - 1 /\
  final (run_rep opcode rep_prefix inst) e = final (run_rep opcode rep_prefix inst) e'.
Proof.
  intros Hr Hwf [Hc Hx Hs]. destruct (counted_keeps e Hr Hwf Hc Hx) as (Hr1 & Hwf1 & Hi). repeat (split; [done |]). by rewrite run_rep_turn, Hx, Hs.
Qed.

Lemma run_rep_stops e : cpu_ready e -> regs_wf (en_context e) ->
  exists n e', nsteps rep_step n e e' /\ rep_stops e' (final (run_rep opcode rep_prefix inst) e).
Proof.
  intros Hr Hwf. pose proof (count_word e Hwf) as [H0 _]. remember (Z.to_nat (index_of inst REG_RCX (en_context e))) as k eqn:Ek. revert e Hr Hwf H0 Ek.
  induction k as [| k IH]; intros e Hr Hwf H0 Ek.
  - exists 0%nat, e. split; [constructor |]. rewrite (run_rep_count inst Hsizes), <- Ek. exact (rep_counted_out e ltac:(lia)).
  - assert (Hc : 0 < index_of inst REG_RCX (en_context e)) by lia. rewrite run_rep_turn by done.
    destruct (cpu_has_exception (en_context (iterated e))) eqn:Hx; [exists 0%nat, e; split; [constructor | by apply rep_faults] |].
    destruct (scan_ends opcode rep_prefix (en_context (counted e))) eqn:Hs; [exists 0%nat, e; split; [constructor | by apply rep_scanned] |].
    destruct (counted_keeps e Hr Hwf Hc Hx) as (Hr1 & Hwf1 & Hi). destruct (IH (counted e) Hr1 Hwf1) as (n & e' & Hn & Hstop); [lia | lia |].
    exists (S n), e'. split; [| done]. econstructor; [by apply rep_goes_on | done].
Qed.

(** C36: a repetition can be interrupted and resumed.  Every repetition does some number of elements
    and then stops because the count is 0, because the next element faults, with everything before
    it done and nothing of it, or because a comparison ends it.  After any number of its elements
    RCX holds what is left, the registers are still words of the machine, and the repetition started
    again from that state ends exactly as the uninterrupted one. *)
Theorem repetition_resumes e : cpu_ready e -> regs_wf (en_context e) ->
  (exists n e', nsteps rep_step n e e' /\ rep_stops e' (final (run_rep opcode rep_prefix inst) e)) /\
  forall n e', nsteps rep_step n e e' ->
    cpu_ready e' /\ regs_wf (en_context e') /\
    index_of inst REG_RCX (en_context e') = index_of inst REG_RCX (en_context e) - Z.of_nat n /\
    final (run_rep opcode rep_prefix inst) e' = final (run_rep opcode rep_prefix inst) e.
Proof.
  intros Hr Hwf. split; [by apply run_rep_stops |]. intros n e' Hn. revert Hr Hwf. induction Hn as [e | n e e1 e' Hstep _ IH]; intros Hr Hwf.
  - repeat (split; [done || lia |]). done.
  - destruct (run_rep_step e e1 Hr Hwf Hstep) as (Hr1 & Hwf1 & Hi & Hrun). destruct (IH Hr1 Hwf1) as (Hr2 & Hwf2 & Hi2 & Hrun2).
    repeat (split; [done || lia |]). by rewrite Hrun2.
Qed.

End interruption.

(** ** Scans *)

Section scan.
Context `{Callbacks}.
Variable inst : DecodedInstruction.
Hypothesis Hsizes : string_sizes inst.
Variables opcode rep_prefix : Z.
Hypothesis Hopcode : string_op_of opcode = Some SCAS.

(** The [i]th element, forward. *)
Definition scan_address (e : cpueaxh_engine) (i : Z) : Z :=
  element_address SEG_ES (wrap (i_address_size inst) (index_of inst REG_RDI (en_context e) + i * element_bytes inst)) (en_context e).
Definition scanned (e : cpueaxh_engine) (i : Z) : Z := guest_value e (scan_address e i) (element_bytes inst).
Definition ends_at (e : cpueaxh_engine) (i : Z) : bool :=
  let equal := accumulator_of inst (en_context e) =? scanned e i in if rep_prefix =? 0xF3 then negb equal else equal.

Lemma block_context_set_rflags k rcx fl ctx : block_context inst SCAS k rcx (set_c_rflags fl ctx) = set_c_rflags fl (block_context inst SCAS k rcx ctx).
Proof.
  unfold block_context. cbv zeta. cbn [reads_source]. rewrite !set_reg_rflags.
  replace (index_of inst REG_RDI (set_c_rflags fl ctx)) with (index_of inst REG_RDI ctx) by reflexivity. reflexivity.
Qed.

Lemma flags_again f g r r1 r2 : flags_written f r r1 -> flags_written g r1 r2 -> flags_written g r r2.
Proof.
  intros H1 H2 i Hi. rewrite (H2 i Hi), (H1 i Hi). destruct (i =? 0), (i =? 2), (i =? 4), (i =? 6), (i =? 7), (i =? 11); reflexivity.
Qed.

(** The comparison's zero flag is the equality of the values. *)
Lemma compared_zf w l r fl fl' : 0 <= w -> in_word w l -> in_word w r -> flags_written (sub_spec w l r 0) fl fl' -> has_bits fl' RFLAGS_ZF = (l =? r).
Proof.
  intros Hw0 Hl Hr Hf. change RFLAGS_ZF with (2 ^ 6). rewrite has_bits_pow2, (Hf 6) by lia. cbn [Z.eqb Pos.eqb sub_spec f_zf].
  rewrite Z.sub_0_r. pose proof (Z.pow_pos_nonneg 2 w ltac:(lia) Hw0). unfold wrap, in_word in *. destruct (Z.eqb_spec l r) as [-> | Hne]; [by rewrite Z.sub_diag, Z.mod_0_l by lia |].
  destruct (Z.eqb_spec ((l - r) mod 2 ^ w) 0) as [E |]; [| done]. apply Z.mod_divide in E as [q Hq]; [| lia]. exfalso. destruct (Z.lt_trichotomy q 0) as [Hq0 | [-> | Hq0]]; [nia | lia | nia].
Qed.

(** One element. *)
Lemma scan_element e : cpu_ready e -> regs_wf (en_context e) -> has_bits (c_rflags (en_context e)) RFLAGS_DF = false ->
  0 < index_of inst REG_RCX (en_context e) -> first_fault e (scan_address e 0) (element_bytes inst) MM_PROT_READ = None ->
  exists e1 fl, same_cpu e e1 /\
    flags_written (sub_spec (i_operand_size inst) (accumulator_of inst (en_context e)) (scanned e 0) 0) (c_rflags (en_context e)) fl /\
    cpu_has_exception (en_context (iterated inst opcode e)) = false /\
    counted inst opcode e = set_en_context (set_c_rflags fl (block_context inst SCAS 1 (index_of inst REG_RCX (en_context e) - 1) (en_context e))) e1 /\
    scan_ends opcode rep_prefix (en_context (counted inst opcode e)) = ends_at e 0.
Proof.
  intros Hr Hwf Hdf Hc Hf. pose proof (iteration_spec inst e SCAS Hr Hwf Hsizes) as Ho. rewrite <- (iteration_at opcode SCAS inst Hopcode) in Ho.
  pose proof (count_word inst Hsizes e Hwf) as Hcw. assert (Haddr : scan_address e 0 = destination_at inst (en_context e)).
  { unfold scan_address, destination_at. rewrite Z.mul_0_l, Z.add_0_r, wrap_small; [done |]. rewrite (get_index_wrap inst (proj2 Hsizes)) by done. apply wrap_range, (index_width_nonneg inst (proj2 Hsizes)). }
  unfold string_outcome, string_fault in Ho. cbn [reads_source reads_destination writes_destination andb] in Ho. rewrite <- Haddr, Hf in Ho.
  destruct Ho as (e1 & ctx' & Hm & (flags & Hfl & ->) & Hrun). cbn [string_memory] in Hm. rewrite <- Haddr in Hfl. fold (scanned e 0) in Hfl. fold (iterated inst opcode e) in Hrun.
  pose proof Hfl as [Hset Hw]. set (fl := c_rflags flags) in *. exists e1, fl. split; [done |]. split; [done |].
  assert (Hcount : counted inst opcode e = set_en_context (set_c_rflags fl (block_context inst SCAS 1 (index_of inst REG_RCX (en_context e) - 1) (en_context e))) e1).
  { unfold counted. cbv zeta. rewrite Hrun. cbn [en_context set_en_context]. rewrite <- block_context_set_rflags, <- Hset. unfold block_context, index_moved, direction. cbv zeta. cbn [reads_source].
    rewrite Hdf, Z.mul_1_l, (wrap_small _ (_ - 1)) by (unfold in_word in *; lia). rewrite Hset. by destruct e1. }
  split; [| split; [done |]].
  - rewrite Hrun. cbn [en_context set_en_context]. unfold index_moved. rewrite (plain_has_exception _ _ (plain_set_reg _ _ _ _)), (plain_has_exception _ _ (plain_flags_written _ _ _ Hfl)). apply Hr.
  - unfold scan_ends. rewrite (scans_of opcode SCAS Hopcode), Hcount. cbn [reads_destination andb en_context set_en_context c_rflags set_c_rflags].
    assert (Hos : 0 <= i_operand_size inst) by (destruct (proj1 Hsizes) as [-> | [-> | [-> | ->]]]; lia).
    rewrite (compared_zf _ _ _ _ _ Hos (accumulator_word inst e Hwf Hsizes) (string_value_word inst e Hr Hsizes _ Hf) Hw). reflexivity.
Qed.

(** The elements behind the first, seen from the state after it. *)
Lemma scan_rest e e1 fl rcx i : regs_wf (en_context e) -> same_cpu e e1 ->
  let e2 := set_en_context (set_c_rflags fl (block_context inst SCAS 1 rcx (en_context e))) e1 in
  scan_address e2 i = scan_address e (i + 1) /\ scanned e2 i = scanned e (i + 1) /\ ends_at e2 i = ends_at e (i + 1) /\
  accumulator_of inst (en_context e2) = accumulator_of inst (en_context e) /\
  forall a n acc, first_fault e2 a n acc = first_fault e a n acc.
Proof.
  intros Hwf Hs e2. destruct (block_indices inst (proj2 Hsizes) SCAS 1 rcx (en_context e) Hwf) as (_ & _ & Hdi & _). cbv zeta in Hdi.
  pose proof (block_context_plain inst SCAS 1 rcx (en_context e)) as Hp. set (ctx1 := block_context inst SCAS 1 rcx (en_context e)) in *.
  assert (Ha : scan_address e2 i = scan_address e (i + 1)).
  { unfold scan_address, e2. cbn [en_context set_en_context]. replace (index_of inst REG_RDI (set_c_rflags fl ctx1)) with (index_of inst REG_RDI ctx1) by reflexivity.
    rewrite Hdi, wrap_add_l by (apply index_width_nonneg, Hsizes). unfold element_address.
    replace (cpu_segment_base_for_addressing (set_c_rflags fl ctx1) SEG_ES) with (cpu_segment_base_for_addressing (en_context e) SEG_ES) by (rewrite Hp; reflexivity).
    do 3 f_equal. lia. }
  assert (Hacc : accumulator_of inst (en_context e2) = accumulator_of inst (en_context e)) by exact (accumulator_block inst Hsizes SCAS 1 rcx (en_context e) Hwf).
  assert (Hv : scanned e2 i = scanned e (i + 1)) by (unfold scanned; rewrite Ha; exact (same_cpu_guest_value e e1 _ _ Hs)).
  split; [done |]. split; [done |]. split; [unfold ends_at; by rewrite Hacc, Hv |]. split; [done |].
  intros a n acc. unfold e2. rewrite plain_first_fault; [by apply first_fault_same_cpu |]. rewrite (same_cpu_context _ _ Hs).
  eapply plain_trans; [exact Hp | apply plain_set_rflags].
Qed.

(** The scan up to the element that ends it, by induction on how far away that is. *)
Lemma scan_runs j : forall e, cpu_ready e -> regs_wf (en_context e) -> has_bits (c_rflags (en_context e)) RFLAGS_DF = false ->
  Z.of_nat j < index_of inst REG_RCX (en_context e) ->
  (forall i, 0 <= i <= Z.of_nat j -> first_fault e (scan_address e i) (element_bytes inst) MM_PROT_READ = None) ->
  (forall i, 0 <= i < Z.of_nat j -> ends_at e i = false) ->
  ends_at e (Z.of_nat j) = true \/ Z.of_nat j + 1 = index_of inst REG_RCX (en_context e) ->
  exists e1 fl, same_cpu e e1 /\
    flags_written (sub_spec (i_operand_size inst) (accumulator_of inst (en_context e)) (scanned e (Z.of_nat j)) 0) (c_rflags (en_context e)) fl /\
    final (run_rep opcode rep_prefix inst) e =
    set_en_context (set_c_rflags fl (block_context inst SCAS (Z.of_nat j + 1) (index_of inst REG_RCX (en_context e) - (Z.of_nat j + 1)) (en_context e))) e1.
Proof.
  induction j as [| j IH]; intros e Hr Hwf Hdf Hc Hread Hno Hend;
    destruct (scan_element e Hr Hwf Hdf ltac:(lia) (Hread 0 ltac:(lia))) as (e1 & fl & Hs & Hfl & Hx & Hcount & Hscan);
    rewrite (run_rep_turn inst Hsizes opcode rep_prefix SCAS Hopcode e Hr Hwf ltac:(lia)), Hx, Hscan.
  - exists e1, fl. split; [done |]. split; [exact Hfl |]. change (Z.of_nat 0) with 0 in *. rewrite Z.add_0_l in *. destruct Hend as [-> | Hlast]; [exact Hcount |].
    destruct (ends_at e 0); [exact Hcount |]. pose proof (counted_keeps inst Hsizes opcode SCAS Hopcode e Hr Hwf ltac:(lia) Hx) as (_ & _ & Hi).
    rewrite (run_rep_count inst Hsizes), Hi. replace (index_of inst REG_RCX (en_context e) - 1) with 0 in * by lia. exact Hcount.
  - rewrite (Hno 0) by lia. pose proof (counted_keeps inst Hsizes opcode SCAS Hopcode e Hr Hwf ltac:(lia) Hx) as (Hr2 & Hwf2 & Hi).
    set (rcx := index_of inst REG_RCX (en_context e)) in *. pose proof (fun i => scan_rest e e1 fl (rcx - 1) i Hwf Hs) as Hrest. cbv zeta in Hrest. rewrite <- Hcount in Hrest.
    pose proof (Hrest (Z.of_nat j)) as (_ & Hv & He & Hacc & Hff).
    destruct (IH (counted inst opcode e) Hr2 Hwf2) as (e3 & fl3 & Hs3 & Hfl3 & Hrun3).
    + rewrite Hcount. cbn [en_context set_en_context c_rflags set_c_rflags]. rewrite <- Hdf. exact (flags_keep_df _ (en_context e) (set_c_rflags fl (en_context e)) (conj eq_refl Hfl)).
    + lia.
    + intros i Hi0. destruct (Hrest i) as (Ha & _). rewrite Hff, Ha. apply Hread. lia.
    + intros i Hi0. destruct (Hrest i) as (_ & _ & Hei & _). rewrite Hei. apply Hno. lia.
    + rewrite He, Hi. replace (Z.of_nat j + 1) with (Z.of_nat (S j)) by lia. destruct Hend as [-> | Hl]; [by left | right; lia].
    + rewrite Hacc, Hv in Hfl3. replace (Z.of_nat j + 1) with (Z.of_nat (S j)) in * by lia. rewrite Hi in Hrun3.
      rewrite Hcount in Hs3, Hfl3, Hrun3. cbn [en_context set_en_context c_rflags set_c_rflags] in Hfl3, Hrun3.
      exists (set_en_context (en_context e) e3), fl3. split_and!.
      * apply (same_cpu_trans _ e1); [done |]. destruct Hs3 as (m & -> & Hm). exists m. split; [| exact Hm]. rewrite <- (same_cpu_context _ _ Hs). by destruct e1.
      * exact (flags_again _ _ _ _ _ Hfl Hfl3).
      * rewrite Hcount, Hrun3. rewrite !block_context_set_rflags, (block_context_twice inst (proj2 Hsizes)) by done. change (Z.of_nat 1) with 1.
        replace (1 + Z.of_nat (S j)) with (Z.of_nat (S j) + 1) by lia. replace (rcx - 1 - Z.of_nat (S j)) with (rcx - (Z.of_nat (S j) + 1)) by lia. by destruct e3.
Qed.

(** C37: REPNE SCAS finds the first match, REPE SCAS the first difference.  With DF clear, when the
    elements up to and including number [j] can be read, none before it ends the scan, and it does
    or is the last one, the repetition leaves the six flags of the comparison of the accumulator
    with element [j], RCX at the number of elements behind it, RDI just past it, and memory and all
    else untouched; so ZF tells afterwards whether the value was there. *)
Theorem scan_finds_the_first e j : cpu_ready e -> regs_wf (en_context e) -> has_bits (c_rflags (en_context e)) RFLAGS_DF = false ->
  let count := index_of inst REG_RCX (en_context e) in
  0 <= j < count ->
  (forall i, 0 <= i <= j -> first_fault e (scan_address e i) (element_bytes inst) MM_PROT_READ = None) ->
  (forall i, 0 <= i < j -> ends_at e i = false) -> ends_at e j = true \/ j = count - 1 ->
  let e' := final (run_rep opcode rep_prefix inst) e in
  (exists e1 fl, same_cpu e e1 /\
    flags_written (sub_spec (i_operand_size inst) (accumulator_of inst (en_context e)) (scanned e j) 0) (c_rflags (en_context e)) fl /\
    e' = set_en_context (set_c_rflags fl (block_context inst SCAS (j + 1) (count - (j + 1)) (en_context e))) e1) /\
  has_bits (c_rflags (en_context e')) RFLAGS_ZF = (accumulator_of inst (en_context e) =? scanned e j).
Proof.
  intros Hr Hwf Hdf count Hj Hread Hno Hend e'. destruct (scan_runs (Z.to_nat j) e Hr Hwf Hdf) as (e1 & fl & Hs & Hfl & Hrun); rewrite ?Z2Nat.id in * by lia; try done.
  - unfold count in *. lia.
  - destruct Hend as [He | He]; [by left | right; unfold count in He; lia].
  - split; [by exists e1, fl |]. unfold e'. rewrite Hrun. cbn [en_context set_en_context c_rflags set_c_rflags].
    assert (Hos : 0 <= i_operand_size inst) by (destruct (proj1 Hsizes) as [-> | [-> | [-> | ->]]]; lia).
    exact (compared_zf _ _ _ _ _ Hos (accumulator_word inst e Hwf Hsizes) (string_value_word inst e Hr Hsizes _ (Hread j ltac:(lia))) Hfl).
Qed.

End scan.

(** ** Moves, a fill into the last mapped page and a scan on the three-page machine *)

Module StringExample.
Import Bump EngineExample MemoryExample StackExample.

Definition string_regs (rcx rsi rdi : Z) : list Z := [0x55; rcx; 0; 0; 0x2000; 0; rsi; rdi; 0; 0; 0; 0; 0; 0; 0; 0].
Definition indexed (rcx rsi rdi : Z) : cpueaxh_engine := set_en_context (set_c_regs (string_regs rcx rsi rdi) (en_context machine)) machine.

Definition string_inst (size : Z) : DecodedInstruction := set_i_immediate SEG_DS (set_i_address_size 64 (set_i_operand_size size zero_inst)).

Lemma indexed_ready rcx rsi rdi : cpu_ready (indexed rcx rsi rdi).
Proof. apply regs_ready, machine_ready. Qed.

Lemma indexed_regs rcx rsi rdi : in_word 64 rcx -> in_word 64 rsi -> in_word 64 rdi -> regs_wf (en_context (indexed rcx rsi rdi)).
Proof.
  intros. split; [done |]. change (c_regs (en_context (indexed rcx rsi rdi))) with (string_regs rcx rsi rdi).
  repeat (apply Forall_cons; split; [first [done | by zcompute] |]). by apply Forall_nil.
Qed.

Lemma inst_sizes size : operand_size_ok size -> string_sizes (string_inst size).
Proof. intros H. split; [exact H | by right; right]. Qed.
Lemma bytes_ok : operand_size_ok 8. Proof. by left. Qed.

(** What the outcomes say of the registers. *)
Lemma stos_context inst e e' : string_outcome inst STOS e e' -> string_fault inst STOS e = None ->
  en_context e' = index_moved inst (en_context e) REG_RDI (en_context e).
Proof. intros H E. unfold string_outcome in H. cbn [reads_source andb] in H. rewrite E in H. destruct H as (e1 & ctx' & _ & -> & ->). reflexivity. Qed.
Lemma string_faulted inst op e e' f : string_outcome inst op e e' -> reads_source op = false -> string_fault inst op e = Some f ->
  c_regs (en_context e') = c_regs (en_context e).
Proof. intros H Hop E. unfold string_outcome in H. rewrite Hop in H. cbn [andb] in H. rewrite E in H. destruct f as [[ad v] acc]. by eapply faults_regs. Qed.

Lemma word_fill : in_word 64 0x3FFF. Proof. by zcompute. Qed.
Lemma word_past : in_word 64 0x4000. Proof. by zcompute. Qed.
Lemma word_source : in_word 64 0x1000. Proof. by zcompute. Qed.
Lemma word_target : in_word 64 0x2000. Proof. by zcompute. Qed.
Lemma word_0 : in_word 64 0. Proof. by zcompute. Qed.
Lemma word_2 : in_word 64 2. Proof. by zcompute. Qed.

(** STOSB at the last mapped byte, and one byte further. *)
Lemma string_instructions_correct_witness :
  reg_at (en_context (final (execute_rep_iteration_with_decoded 0xAA (string_inst 8)) (indexed 0 0 0x3FFF))) REG_RDI = 0x4000 /\
  c_regs (en_context (final (execute_rep_iteration_with_decoded 0xAA (string_inst 8)) (indexed 0 0 0x4000))) = string_regs 0 0 0x4000.
Proof.
  assert (string_fault (string_inst 8) STOS (indexed 0 0 0x3FFF) = None) as E1 by (vm_compute; reflexivity).
  assert (string_fault (string_inst 8) STOS (indexed 0 0 0x4000) = Some (0x4000, V_UNMAPPED, MM_PROT_WRITE)) as E2 by (vm_compute; reflexivity).
  split.
  - rewrite (stos_context _ _ _ (string_instructions_correct (string_inst 8) (indexed 0 0 0x3FFF) 0xAA STOS (indexed_ready _ _ _) (indexed_regs _ _ _ word_0 word_0 word_fill) (inst_sizes 8 bytes_ok) eq_refl) E1).
    vm_compute. reflexivity.
  - exact (string_faulted _ _ _ _ _ (string_instructions_correct (string_inst 8) (indexed 0 0 0x4000) 0xAA STOS (indexed_ready _ _ _) (indexed_regs _ _ _ word_0 word_0 word_past) (inst_sizes 8 bytes_ok) eq_refl) eq_refl E2).
Defined.

Lemma block_count inst op k e1 ctx : string_sizes inst -> regs_wf ctx ->
  index_of inst REG_RCX (en_context (set_en_context (block_context inst op k 0 ctx) e1)) = 0.
Proof.
  intros Hs Hwf. destruct (block_indices inst (proj2 Hs) op k 0 ctx Hwf) as (_ & H & _). cbv zeta in H. cbn [en_context set_en_context].
  rewrite H. apply wrap_small. split; [lia |]. apply Z.pow_pos_nonneg; [lia | apply (index_width_nonneg inst (proj2 Hs))].
Qed.

Definition moving : cpueaxh_engine := indexed 2 0x1000 0x2000.

(** REP MOVSD, two elements. *)
Lemma rep_stores_the_block_witness :
  guest_value (final (run_rep 0xA5 0xF3 (string_inst 32)) moving) 0x2000 8 = wrap 64 (guest_value moving 0x1000 8) /\ index_of (string_inst 32) REG_RCX (en_context (final (run_rep 0xA5 0xF3 (string_inst 32)) moving)) = 0.
Proof.
  assert (Hs : string_sizes (string_inst 32)) by (apply inst_sizes; by right; right; left).
  assert (Hdf : has_bits (c_rflags (en_context moving)) RFLAGS_DF = false) by (vm_compute; reflexivity).
  assert (Hcount : index_of (string_inst 32) REG_RCX (en_context moving) = 2) by (vm_compute; reflexivity).
  assert (Hdst : destination_at (string_inst 32) (en_context moving) = 0x2000) by (vm_compute; reflexivity).
  assert (Hsrc : source_at (string_inst 32) (en_context moving) = 0x1000) by (vm_compute; reflexivity).
  assert (Hn : element_bytes (string_inst 32) = 4) by (vm_compute; reflexivity).
  assert (Hwr : first_fault moving 0x2000 8 MM_PROT_WRITE = None) by (vm_compute; reflexivity).
  assert (Hrd : first_fault moving 0x1000 8 MM_PROT_READ = None) by (vm_compute; reflexivity).
  assert (Hi : index_of (string_inst 32) REG_RDI (en_context moving) + 8 <= 2 ^ 64) by (vm_compute; discriminate).
  assert (Hj : index_of (string_inst 32) REG_RSI (en_context moving) + 8 <= 2 ^ 64) by (vm_compute; discriminate).
  assert (Hapart : hosts_of moving 0x1000 8 ## hosts_of moving 0x2000 8) by (apply ControlExample.apart_by_test; vm_compute; reflexivity).
  assert (Hnd : NoDup (hosts_of moving 0x2000 8)) by (apply (bool_decide_unpack _); vm_compute; exact I).
  pose proof (rep_stores_the_block (string_inst 32) Hs 0xA5 0xF3 moving MOVS (indexed_ready _ _ _) (indexed_regs _ _ _ word_2 word_source word_target) Hdf (or_introl eq_refl) eq_refl) as H.
  cbv zeta in H. unfold block_ok, block_value in H. rewrite Hcount, Hdst, Hsrc, Hn in H. change (Z.of_nat (Z.to_nat 2) * 4) with 8 in H. change (2 * 4) with 8 in H. change (8 * 8) with 64 in H.
  destruct (H (conj Hwr (conj Hi (fun _ => conj Hrd (conj Hj Hapart))))) as [(e1 & _ & He) Hv]. split; [exact (Hv Hnd) |].
  rewrite He. exact (block_count _ MOVS 2 e1 _ Hs (indexed_regs _ _ _ word_2 word_source word_target)).
Defined.

Definition filling : cpueaxh_engine := indexed 2 0 0x3FFF.

(** REP STOSB over the end of the mapped pages: one element, then the fault. *)
Lemma repetition_resumes_witness :
  nsteps (rep_step (string_inst 8) 0xAA 0xF3) 1 filling (counted (string_inst 8) 0xAA filling) /\ index_of (string_inst 8) REG_RCX (en_context (counted (string_inst 8) 0xAA filling)) = 1 /\
  final (run_rep 0xAA 0xF3 (string_inst 8)) (counted (string_inst 8) 0xAA filling) = final (run_rep 0xAA 0xF3 (string_inst 8)) filling.
Proof.
  assert (Hc : 0 < index_of (string_inst 8) REG_RCX (en_context filling)) by (vm_compute; reflexivity).
  assert (Hcount : index_of (string_inst 8) REG_RCX (en_context filling) - Z.of_nat 1 = 1) by (vm_compute; reflexivity).
  assert (Hx : cpu_has_exception (en_context (iterated (string_inst 8) 0xAA filling)) = false) by (vm_compute; reflexivity).
  assert (Hend : scan_ends 0xAA 0xF3 (en_context (counted (string_inst 8) 0xAA filling)) = false) by exact eq_refl.
  assert (Hstep : nsteps (rep_step (string_inst 8) 0xAA 0xF3) 1 filling (counted (string_inst 8) 0xAA filling))
    by exact (nsteps_l _ _ _ _ _ (rep_goes_on _ _ _ _ Hc Hx Hend) (nsteps_O _ _)).
  destruct (repetition_resumes (string_inst 8) (inst_sizes 8 bytes_ok) 0xAA 0xF3 STOS eq_refl filling (indexed_ready _ _ _) (indexed_regs _ _ _ word_2 word_0 word_fill)) as [_ H].
  destruct (H 1%nat _ Hstep) as (_ & _ & Hi & Hrun). split; [exact Hstep |]. split; [exact (eq_trans Hi Hcount) | exact Hrun].
Defined.

Definition scanning : cpueaxh_engine := indexed 2 0 0x1000.

(** REPNE SCASB for 0x55 in two bytes of zeros: it is not there. *)
Lemma scan_finds_the_first_witness :
  has_bits (c_rflags (en_context (final (run_rep 0xAE 0xF2 (string_inst 8)) scanning))) RFLAGS_ZF = false.
Proof.
  assert (Hdf : has_bits (c_rflags (en_context scanning)) RFLAGS_DF = false) by (vm_compute; reflexivity).
  assert (Hcount : index_of (string_inst 8) REG_RCX (en_context scanning) = 2) by (vm_compute; reflexivity).
  assert (Hj : 0 <= 1 < index_of (string_inst 8) REG_RCX (en_context scanning)) by (rewrite Hcount; lia).
  assert (Hread : forall i, 0 <= i <= 1 -> first_fault scanning (scan_address (string_inst 8) scanning i) (element_bytes (string_inst 8)) MM_PROT_READ = None).
  { intros i Hi. assert (i = 0 \/ i = 1) as [-> | ->] by lia; vm_compute; reflexivity. }
  assert (Hno : forall i, 0 <= i < 1 -> ends_at (string_inst 8) 0xF2 scanning i = false).
  { intros i Hi. assert (i = 0) as -> by lia. vm_compute. reflexivity. }
  assert (Hend : ends_at (string_inst 8) 0xF2 scanning 1 = true \/ 1 = index_of (string_inst 8) REG_RCX (en_context scanning) - 1) by (right; rewrite Hcount; reflexivity).
  assert (Hval : (accumulator_of (string_inst 8) (en_context scanning) =? scanned (string_inst 8) scanning 1) = false) by (vm_compute; reflexivity).
  pose proof (scan_finds_the_first (string_inst 8) (inst_sizes 8 bytes_ok) 0xAE 0xF2 eq_refl scanning 1 (indexed_ready _ _ _) (indexed_regs _ _ _ word_2 word_0 word_source) Hdf Hj Hread Hno Hend) as [_ H].
  exact (eq_trans H Hval).
Defined.

End StringExample.
