(* ===== verification/Exchange.v ===== *)
(** * instructions/test, xchg, xadd, cmpxchg, cmpxchg8b16b.hpp: comparing and exchanging

    TEST sets flags only.  XCHG, XADD and CMPXCHG exchange a register with an operand; on memory XCHG
    always, the others under LOCK go through the compare-and-exchange loop, whose retries [rounds]
    bounds.  CMPXCHG8B and CMPXCHG16B compare two registers with 8 or 16 bytes of memory.  The files'
    functions for 8, 16, 32 and 64 bits are one definition over the width; whether the processor has
    CMPXCHG16B is the host's answer, a parameter.  The theorems: what each instruction compares and
    exchanges, locked or not, and that the decoders promise what Replay.v asks of them. *)

From Stdlib Require Import ZArith Bool List Lia.
From stdpp Require Import base tactics list.
From S2P Require Import Prelude CpuDef Flags HostMemory RegionTable RegionSplit Patches PageCache InstCache Machine CpuMemory Registers DispatchHelpers WideMemory Stack Segments Alu Executor Decoder AluDecode InstDecode Operands Unary Replay Control Move.

(** ** Decoding *)

Definition test_operands (code : list Z) (inst : DecodedInstruction) (offset : Z) (lock : bool) : ST CPU_CONTEXT (DecodedInstruction * Z * bool) :=
  let opcode := i_opcode inst in
  let byte_inst := set_i_operand_size 8 inst in
  if opcode =? 0xA8 then decode_alu_immediate code byte_inst offset 1
  else if opcode =? 0xA9 then
    let* imm_size := st_gets wide_imm_size in decode_alu_immediate code inst offset imm_size
  else if one_of opcode [0xF6; 0xF7] then
    let* (inst, offset) := decode_modrm_by LockIgnored code (if opcode =? 0xF6 then byte_inst else inst) offset lock in
    ud_if (negb (modrm_digit inst =? 0)) ;;;
    let* imm_size := st_gets wide_imm_size in
    decode_alu_immediate code inst offset (if opcode =? 0xF6 then 1 else imm_size)
  else if opcode =? 0x84 then modrm_operands LockIgnored code byte_inst offset lock
  else if opcode =? 0x85 then modrm_operands LockIgnored code inst offset lock
  else st_modify raise_ud_ctx ;;; st_ret (inst, offset, true).

Definition xchg_operands (code : list Z) (inst : DecodedInstruction) (offset : Z) (lock : bool) : ST CPU_CONTEXT (DecodedInstruction * Z * bool) :=
  let opcode := i_opcode inst in
  with_inst_size
    (if opcode =? 0x86 then modrm_operands LockOnMemory code (set_i_operand_size 8 inst) offset lock
     else if opcode =? 0x87 then modrm_operands LockOnMemory code inst offset lock
     else if between 0x90 0x97 opcode then ud_if lock ;;; st_ret (inst, offset, true)
     else st_modify raise_ud_ctx ;;; st_ret (inst, offset, true)).

(** Both opcode bytes must be there before either is looked at. *)
Definition two_bytes_at_once (code : list Z) (offset : Z) : ST CPU_CONTEXT (Z * Z * bool) :=
  if size_of code <? offset + 2 then st_modify (raise_gp_ctx 0) ;;; st_ret (0, offset, false)
  else ud_if (negb (byte_at code offset =? 0x0F)) ;;; st_ret (byte_at code (offset + 1), offset + 2, true).

(** XADD and CMPXCHG: the byte opcode [base], the wide one behind it. *)
Definition pair_operands (base : Z) (code : list Z) (inst : DecodedInstruction) (offset : Z) (lock : bool) : ST CPU_CONTEXT (DecodedInstruction * Z * bool) :=
  let opcode := i_opcode inst in
  with_inst_size
    (if opcode =? base then modrm_operands LockOnMemory code (set_i_operand_size 8 inst) offset lock
     else if opcode =? base + 1 then modrm_operands LockOnMemory code inst offset lock
     else st_modify raise_ud_ctx ;;; st_ret (inst, offset, true)).

Definition decode_modrm_test := decode_modrm_by LockIgnored.
Definition decode_modrm_xchg := decode_modrm_by LockOnMemory.
Definition decode_modrm_xadd := decode_modrm_by LockOnMemory.
Definition decode_modrm_cmpxchg := decode_modrm_by LockOnMemory.

Definition test_rules : DecoderRules := mkRules false true false false one_byte_opcode test_operands.
Definition xchg_rules : DecoderRules := mkRules false false true false one_byte_opcode xchg_operands.
Definition xadd_rules : DecoderRules := mkRules false false true false two_bytes_at_once (pair_operands 0xC0).
Definition cmpxchg_rules : DecoderRules := mkRules false false true false two_bytes_at_once (pair_operands 0xB0).

Definition decode_test_instruction := decode_by test_rules.
Definition decode_xchg_instruction := decode_by xchg_rules.
Definition decode_xadd_instruction := decode_by xadd_rules.
Definition decode_cmpxchg_instruction := decode_by cmpxchg_rules.

(** [decode_modrm_cmpxchg8b16b]: a memory operand with group digit 1; the SIB byte is read for a
    register operand too, which has raised #UD by then. *)
Definition decode_cmpxchg8b16b_group (modrm : Z) : Z := Z.land (Z.shiftr modrm 3) 0x07.
Definition decode_modrm_cmpxchg8b16b (code : list Z) (inst : DecodedInstruction) (offset : Z) : ST CPU_CONTEXT (DecodedInstruction * Z) :=
  if size_of code <=? offset then st_modify (raise_gp_ctx 0) ;;; st_ret (inst, offset)
  else
    let inst := set_i_modrm (byte_at code offset) (set_i_has_modrm true inst) in
    let offset := offset + 1 in
    let mod_ := modrm_mod (i_modrm inst) in
    let rm := modrm_rm (i_modrm inst) in
    ud_if (negb (decode_cmpxchg8b16b_group (i_modrm inst) =? 1)) ;;;
    ud_if (mod_ =? 3) ;;;
    let wants_sib := (rm =? 4) && negb (i_address_size inst =? 16) in
    if wants_sib && (size_of code <=? offset) then st_modify (raise_gp_ctx 0) ;;; st_ret (inst, offset)
    else
      let '(inst, offset) := if wants_sib then (set_i_sib (byte_at code offset) (set_i_has_sib true inst), offset + 1) else (inst, offset) in
      let disp_size := disp_size_of inst mod_ rm in
      let inst := set_i_disp_size disp_size inst in
      if (0 <? disp_size) && (size_of code <? offset + disp_size) then st_modify (raise_gp_ctx 0) ;;; st_ret (inst, offset)
      else
        let '(inst, offset) :=
          if 0 <? disp_size then (set_i_displacement (displacement_value code offset disp_size) inst, offset + disp_size) else (inst, offset) in
        let* address := get_effective_address (i_modrm inst) (i_sib inst) (i_displacement inst) (i_address_size inst) 0 in
        st_ret (set_i_mem_address address inst, offset).

(** The alignment is tested before a RIP-relative address is completed. *)
Definition cmpxchg8b16b_operands (cpu_has_cmpxchg16b_feature : bool) (code : list Z) (inst : DecodedInstruction) (offset : Z) (lock : bool)
  : ST CPU_CONTEXT (DecodedInstruction * Z * bool) :=
  ud_if (negb (i_opcode inst =? 0xC7)) ;;;
  let* operand_size := st_gets (fun ctx => if c_rex_w ctx then 128 else 64) in
  let* (inst, offset) := decode_modrm_cmpxchg8b16b code (set_i_operand_size operand_size inst) offset in
  if (i_operand_size inst =? 128) && negb (Z.land (i_mem_address inst) 0x0F =? 0) then st_modify (raise_gp_ctx 0) ;;; st_ret (inst, offset, false)
  else if (i_operand_size inst =? 128) && negb cpu_has_cmpxchg16b_feature then st_modify (raise_gp_ctx 0) ;;; st_ret (inst, offset, false)
  else with_inst_size (st_ret (inst, offset, true)).
Definition cmpxchg8b16b_rules (cpu_has_cmpxchg16b_feature : bool) : DecoderRules :=
  mkRules false false false false two_bytes_at_once (cmpxchg8b16b_operands cpu_has_cmpxchg16b_feature).
Definition decode_cmpxchg8b16b_instruction (cpu_has_cmpxchg16b_feature : bool) := decode_by (cmpxchg8b16b_rules cpu_has_cmpxchg16b_feature).

(** ** Executing *)

Definition update_flags_test_at (w res : Z) : CPU_CONTEXT -> CPU_CONTEXT :=
  if w =? 8 then update_flags_test8 res else if w =? 16 then update_flags_test16 res
  else if w =? 32 then update_flags_test32 res else update_flags_test64 res.

(** The switches over the operand size of XCHG, XADD and CMPXCHG. *)
Definition exchange_width (operand_size : Z) : bool := one_of operand_size [8; 16; 32; 64].

Section execute.
Context `{Callbacks}.
Variable rounds : nat.

Definition test_acc_imm (w imm : Z) : ST cpueaxh_engine unit := let* src1 := read_acc w in mod_ctx (update_flags_test_at w (Z.land src1 imm)).
Definition test_rm_imm (w modrm mem_addr imm : Z) : ST cpueaxh_engine unit :=
  let* src1 := read_rm w modrm mem_addr in mod_ctx (update_flags_test_at w (Z.land src1 imm)).
Definition test_rm_r (w modrm mem_addr : Z) : ST cpueaxh_engine unit :=
  let* src2 := read_reg w modrm in let* src1 := read_rm w modrm mem_addr in mod_ctx (update_flags_test_at w (Z.land src1 src2)).

Definition execute_test_with_decoded (inst : DecodedInstruction) : ST cpueaxh_engine unit :=
  let opcode := i_opcode inst in
  let* w := get_ctx prefix_width in
  if opcode =? 0xA8 then test_acc_imm 8 (u8 (i_immediate inst))
  else if opcode =? 0xA9 then test_acc_imm w (wide_immediate w (i_immediate inst))
  else if opcode =? 0xF6 then test_rm_imm 8 (i_modrm inst) (i_mem_address inst) (u8 (i_immediate inst))
  else if opcode =? 0xF7 then test_rm_imm w (i_modrm inst) (i_mem_address inst) (wide_immediate w (i_immediate inst))
  else if opcode =? 0x84 then test_rm_r 8 (i_modrm inst) (i_mem_address inst)
  else if opcode =? 0x85 then test_rm_r w (i_modrm inst) (i_mem_address inst)
  else st_ret tt.

(** [read_*_reg_operand], [write_*_reg_operand] and their like for the operand of the ModRM byte. *)
Definition read_reg_operand (reg_index operand_size : Z) : ST cpueaxh_engine Z :=
  if exchange_width operand_size then get_ctx (fun ctx => get_reg operand_size ctx reg_index) else mod_ctx raise_ud_ctx ;;; st_ret 0.
Definition put_reg_operand (reg_index operand_size value : Z) : ST cpueaxh_engine unit :=
  if exchange_width operand_size then mod_ctx (set_reg operand_size reg_index (wrap operand_size value)) else mod_ctx raise_ud_ctx.
Definition get_rm_operand (modrm mem_addr operand_size : Z) : ST cpueaxh_engine Z :=
  let* index := get_ctx (rm_index modrm) in
  if modrm_mod modrm =? 3 then read_reg_operand index operand_size else read_memory_operand mem_addr operand_size.
Definition put_rm_operand (modrm mem_addr operand_size value : Z) : ST cpueaxh_engine unit :=
  let* index := get_ctx (rm_index modrm) in
  if modrm_mod modrm =? 3 then put_reg_operand index operand_size value else write_memory_operand mem_addr operand_size value.

Definition xchg_rm_reg (modrm mem_addr operand_size : Z) : ST cpueaxh_engine unit :=
  let* reg_index := get_ctx (reg_index modrm) in
  let* reg_value := read_reg_operand reg_index operand_size in
  if negb (modrm_mod modrm =? 3) then
    let* exchanged := cpu_atomic_exchange_memory rounds mem_addr operand_size reg_value in
    match exchanged with
    | Some (true, rm_value, _) => put_reg_operand reg_index operand_size rm_value
    | _ => st_ret tt
    end
  else
    let* rm_value := get_rm_operand modrm mem_addr operand_size in
    put_reg_operand reg_index operand_size rm_value ;;;
    put_rm_operand modrm mem_addr operand_size reg_value.

Definition decode_xchg_short_reg_index (opcode : Z) (ctx : CPU_CONTEXT) : Z := rex_extend (c_rex_b ctx) (Z.land opcode 0x07).
Definition xchg_acc_reg (opcode operand_size : Z) : ST cpueaxh_engine unit :=
  let* reg_index := get_ctx (decode_xchg_short_reg_index opcode) in
  if reg_index =? REG_RAX then st_ret tt
  else
    let* accumulator_value := read_reg_operand REG_RAX operand_size in
    let* register_value := read_reg_operand reg_index operand_size in
    put_reg_operand REG_RAX operand_size register_value ;;;
    put_reg_operand reg_index operand_size accumulator_value.

Definition execute_xchg_with_decoded (inst : DecodedInstruction) : ST cpueaxh_engine unit :=
  if one_of (i_opcode inst) [0x86; 0x87] then xchg_rm_reg (i_modrm inst) (i_mem_address inst) (i_operand_size inst)
  else if between 0x90 0x97 (i_opcode inst) then xchg_acc_reg (i_opcode inst) (i_operand_size inst)
  else mod_ctx raise_ud_ctx.

(** The result is truncated to the operand and the flags are those of the sum. *)
Definition xadd_compute_result (operand_size dst_value src_value : Z) : ST cpueaxh_engine Z :=
  if exchange_width operand_size then add_value operand_size (wrap operand_size dst_value) (wrap operand_size src_value)
  else mod_ctx raise_ud_ctx ;;; st_ret 0.

Definition xadd_rm_reg (modrm mem_addr operand_size : Z) (has_lock_prefix : bool) : ST cpueaxh_engine unit :=
  let* reg_index := get_ctx (reg_index modrm) in
  let* src_value := read_reg_operand reg_index operand_size in
  if has_lock_prefix && negb (modrm_mod modrm =? 3) then
    let* added := cpu_atomic_add_memory rounds mem_addr operand_size src_value in
    match added with
    | Some (true, dst_value, _) =>
        let* _ := xadd_compute_result operand_size dst_value src_value in put_reg_operand reg_index operand_size dst_value
    | _ => st_ret tt
    end
  else
    let* dst_value := get_rm_operand modrm mem_addr operand_size in
    let* faulted := get_ctx cpu_has_exception in
    if faulted then st_ret tt
    else
      let* result := xadd_compute_result operand_size dst_value src_value in
      put_reg_operand reg_index operand_size dst_value ;;;
      put_rm_operand modrm mem_addr operand_size result.
Definition execute_xadd_with_decoded (inst : DecodedInstruction) : ST cpueaxh_engine unit :=
  xadd_rm_reg (i_modrm inst) (i_mem_address inst) (i_operand_size inst) (i_has_lock_prefix inst).

Definition cmpxchg_update_flags (operand_size accumulator_value dst_value : Z) (ctx : CPU_CONTEXT) : CPU_CONTEXT :=
  if exchange_width operand_size then
    let lhs := wrap operand_size accumulator_value in
    let rhs := wrap operand_size dst_value in
    update_flags_sub_at operand_size lhs rhs (wrap (raw_width operand_size) (lhs - rhs)) ctx
  else raise_ud_ctx ctx.

Definition cmpxchg_rm_reg (modrm mem_addr operand_size : Z) (has_lock_prefix : bool) : ST cpueaxh_engine unit :=
  let* reg_index := get_ctx (reg_index modrm) in
  let* src_value := read_reg_operand reg_index operand_size in
  let* accumulator_value := read_reg_operand REG_RAX operand_size in
  if has_lock_prefix && negb (modrm_mod modrm =? 3) then
    let* exchanged := cpu_atomic_compare_exchange_memory rounds mem_addr operand_size accumulator_value src_value in
    match exchanged with
    | None => st_ret tt
    | Some (_, observed_value) =>
        let dst_value := default 0 observed_value in
        let* faulted := get_ctx cpu_has_exception in
        if faulted then st_ret tt
        else
          mod_ctx (cmpxchg_update_flags operand_size accumulator_value dst_value) ;;;
          if negb (accumulator_value =? dst_value) then put_reg_operand REG_RAX operand_size dst_value else st_ret tt
    end
  else
    let* dst_value := get_rm_operand modrm mem_addr operand_size in
    let* faulted := get_ctx cpu_has_exception in
    if faulted then st_ret tt
    else
      mod_ctx (cmpxchg_update_flags operand_size accumulator_value dst_value) ;;;
      if accumulator_value =? dst_value then put_rm_operand modrm mem_addr operand_size src_value
      else put_reg_operand REG_RAX operand_size dst_value.
Definition execute_cmpxchg_with_decoded (inst : DecodedInstruction) : ST cpueaxh_engine unit :=
  cmpxchg_rm_reg (i_modrm inst) (i_mem_address inst) (i_operand_size inst) (i_has_lock_prefix inst).

(** [(hi << 32) | lo] of two registers. *)
Definition register_pair (hi lo : Z) (ctx : CPU_CONTEXT) : Z := Z.lor (Z.shiftl (get_reg32 ctx hi) 32) (get_reg32 ctx lo).

Definition execute_cmpxchg8b_memory (mem_address : Z) : ST cpueaxh_engine unit :=
  let* destination := read_memory_qword mem_address in
  let* compare_value := get_ctx (register_pair REG_RDX REG_RAX) in
  if destination =? compare_value then
    let* source_value := get_ctx (register_pair REG_RCX REG_RBX) in
    write_memory_qword mem_address source_value ;;; mod_ctx (set_flag RFLAGS_ZF true)
  else
    mod_ctx (set_reg32 REG_RAX (u32 destination)) ;;;
    mod_ctx (set_reg32 REG_RDX (u32 (Z.shiftr destination 32))) ;;;
    mod_ctx (set_flag RFLAGS_ZF false).

Definition execute_cmpxchg16b_memory (mem_address : Z) : ST cpueaxh_engine unit :=
  let* destination := read_xmm_memory mem_address in
  let* compare_low := get_ctx (fun ctx => get_reg64 ctx REG_RAX) in
  let* compare_high := get_ctx (fun ctx => get_reg64 ctx REG_RDX) in
  if (xmm_low destination =? compare_low) && (xmm_high destination =? compare_high) then
    let* source := get_ctx (fun ctx => mkXmm (get_reg64 ctx REG_RBX) (get_reg64 ctx REG_RCX)) in
    write_xmm_memory mem_address source ;;; mod_ctx (set_flag RFLAGS_ZF true)
  else
    mod_ctx (set_reg64 REG_RAX (xmm_low destination)) ;;;
    mod_ctx (set_reg64 REG_RDX (xmm_high destination)) ;;;
    mod_ctx (set_flag RFLAGS_ZF false).

Definition execute_cmpxchg8b16b_with_decoded (inst : DecodedInstruction) : ST cpueaxh_engine unit :=
  if i_operand_size inst =? 128 then execute_cmpxchg16b_memory (i_mem_address inst)
  else if i_operand_size inst =? 64 then execute_cmpxchg8b_memory (i_mem_address inst)
  else mod_ctx raise_ud_ctx.
Definition execute_cmpxchg8b16b (cpu_has_cmpxchg16b_feature : bool) :=
  execute_decoded (decode_cmpxchg8b16b_instruction cpu_has_cmpxchg16b_feature) execute_cmpxchg8b16b_with_decoded.

Definition execute_test := execute_decoded decode_test_instruction execute_test_with_decoded.
Definition execute_xchg := execute_decoded decode_xchg_instruction execute_xchg_with_decoded.
Definition execute_xadd := execute_decoded decode_xadd_instruction execute_xadd_with_decoded.
Definition execute_cmpxchg := execute_decoded decode_cmpxchg_instruction execute_cmpxchg_with_decoded.
Definition execute_test_fast := execute_cached execute_test_with_decoded.
Definition execute_xchg_fast := execute_cached execute_xchg_with_decoded.
Definition execute_xadd_fast := execute_cached execute_xadd_with_decoded.
Definition execute_cmpxchg_fast := execute_cached execute_cmpxchg_with_decoded.

End execute.

(** ** What the instructions exchange *)

Inductive exchange_op := XCHG | XADD | CMPXCHG.

Definition execute_exchange `{Callbacks} (rounds : nat) (op : exchange_op) : DecodedInstruction -> ST cpueaxh_engine unit :=
  match op with
  | XCHG => execute_xchg_with_decoded rounds | XADD => execute_xadd_with_decoded rounds | CMPXCHG => execute_cmpxchg_with_decoded rounds
  end.

(** The register and the operand of an instruction; none for XCHG of RAX with itself. *)
Definition exchange_operands (op : exchange_op) (inst : DecodedInstruction) (ctx : CPU_CONTEXT) : option (Z * operand) :=
  let rm := rm_operand (i_modrm inst) (i_mem_address inst) ctx in
  let reg := reg_index (i_modrm inst) ctx in
  match op with
  | XCHG =>
      if one_of (i_opcode inst) [0x86; 0x87] then Some (reg, rm)
      else if between 0x90 0x97 (i_opcode inst) then
        let reg := decode_xchg_short_reg_index (i_opcode inst) ctx in if reg =? REG_RAX then None else Some (REG_RAX, Reg reg)
      else None
  | XADD | CMPXCHG => Some (reg, rm)
  end.

(** XCHG locks a memory operand with or without the prefix. *)
Definition exchange_locked (op : exchange_op) (inst : DecodedInstruction) : bool :=
  match op with
  | XCHG => one_of (i_opcode inst) [0x86; 0x87] && negb (modrm_mod (i_modrm inst) =? 3)
  | _ => i_has_lock_prefix inst && negb (modrm_mod (i_modrm inst) =? 3)
  end.

Section spec.
Context `{Callbacks}.

(** What is stored and the flags that are left, of an operand [d] and a register [s]. *)
Definition exchange_spec (op : exchange_op) (w d s rf0 r rf : Z) : Prop :=
  match op with XADD => r = wrap w (d + s) /\ flags_written (add_spec w d s 0) rf0 rf | _ => r = s /\ rf = rf0 end.

(** XCHG and XADD: the register receives the operand, then the operand the result. *)
Definition exchange_effect (op : exchange_op) (e : cpueaxh_engine) (w reg : Z) (dst : operand) (e' : cpueaxh_engine) : Prop :=
  let ctx := en_context e in
  let d := operand_value e w dst in
  match operand_fault e w MM_PROT_READ dst, operand_fault e w MM_PROT_WRITE dst with
  | Some (ad, v), _ => abandoned e MM_PROT_READ v ad e'
  | None, Some (ad, v) => abandoned e MM_PROT_WRITE v ad e'
  | None, None => exists r rf, exchange_spec op w d (get_reg w ctx reg) (c_rflags ctx) r rf /\ result_in e (set_reg w reg d (set_c_rflags rf ctx)) w dst r e'
  end.

(** What the code's CMPXCHG does with an operand that was read: equal to the accumulator it becomes the
    source, when it can be written, otherwise the accumulator becomes the operand; the flags are
    those of the comparison.  On a mismatch the operand is not touched; the architecture writes its
    old value back, so that there a read-only operand faults and a 32-bit register operand is
    zero-extended. *)
Definition compare_effect (e : cpueaxh_engine) (w reg : Z) (dst : operand) (e' : cpueaxh_engine) : Prop :=
  let ctx := en_context e in
  let d := operand_value e w dst in
  let acc := get_reg w ctx REG_RAX in
  exists rf, flags_written (sub_spec w acc d 0) (c_rflags ctx) rf /\
    if acc =? d then
      match operand_fault e w MM_PROT_WRITE dst with
      | Some (ad, v) => abandoned e MM_PROT_WRITE v ad e'
      | None => result_in e (set_c_rflags rf ctx) w dst (get_reg w ctx reg) e'
      end
    else on_track e (set_reg w REG_RAX d (set_c_rflags rf ctx)) e'.

(** [locked]: through the exchange loop; it asks for write permission first, and may be refused. *)
Definition exchange_outcome (op : exchange_op) (locked : bool) (e : cpueaxh_engine) (w reg : Z) (dst : operand) (e' : cpueaxh_engine) : Prop :=
  match op with
  | CMPXCHG =>
      if locked then lock_refused e w dst e' \/ operand_fault e w MM_PROT_WRITE dst = None /\ compare_effect e w reg dst e'
      else match operand_fault e w MM_PROT_READ dst with
           | Some (ad, v) => abandoned e MM_PROT_READ v ad e'
           | None => compare_effect e w reg dst e'
           end
  | _ => exchange_effect op e w reg dst e' \/ locked = true /\ lock_refused e w dst e'
  end.

End spec.

Section steps.
Context `{Callbacks}.
Variables (e : cpueaxh_engine) (w modrm mem : Z).
Hypotheses (Hr : cpu_ready e) (Hwf : regs_wf (en_context e)) (Hw : reg_width w) (Hm : in_word 64 mem).

Lemma exchange_width_ok : exchange_width w = true.
Proof. by destruct Hw as [-> | [-> | [-> | ->]]]. Qed.

Lemma wrap_of_word x : in_word w x -> wrap w x = x.
Proof. apply wrap_small. Qed.

Lemma read_reg_operand_run reg e1 : read_reg_operand reg w e1 = (get_reg w (en_context e1) reg, e1).
Proof. unfold read_reg_operand. by rewrite exchange_width_ok. Qed.

Lemma put_reg_operand_run reg v : in_word w v -> put_reg_operand reg w v = mod_ctx (set_reg w reg v).
Proof. intros Hv. unfold put_reg_operand. by rewrite exchange_width_ok, wrap_of_word. Qed.

Lemma get_rm_operand_run e1 : get_rm_operand modrm mem w e1 = read_rm w modrm mem e1.
Proof.
  unfold get_rm_operand, read_rm, st_bind, get_ctx, st_gets. destruct (modrm_mod modrm =? 3); [| done].
  by rewrite read_reg_operand_run.
Qed.

Lemma put_rm_operand_run v e1 : in_word w v -> put_rm_operand modrm mem w v e1 = write_rm w modrm mem v e1.
Proof.
  intros Hv. unfold put_rm_operand, write_rm, st_bind, get_ctx, st_gets. destruct (modrm_mod modrm =? 3); [| done].
  by rewrite put_reg_operand_run.
Qed.

(** The register receives [d], the operand [r]. *)
Lemma put_both ctx e1 reg d r : plain (en_context e) ctx -> on_track e ctx e1 -> in_word w d -> in_word w r ->
  let dst := rm_operand modrm mem (en_context e) in
  let e' := final (put_reg_operand reg w d ;;; put_rm_operand modrm mem w r) e1 in
  match operand_fault e w MM_PROT_WRITE dst with
  | Some (ad, v) => abandoned e MM_PROT_WRITE v ad e'
  | None => result_in e (set_reg w reg d ctx) w dst r e'
  end.
Proof.
  intros Hp Ht Hd Hres dst. cbv zeta. unfold final, st_bind. rewrite put_reg_operand_run by done.
  pose proof (track_mod _ _ _ (set_reg w reg d) Ht) as Ht2. change (mod_ctx (set_reg w reg d) e1) with (tt, snd (mod_ctx (set_reg w reg d) e1)).
  cbn iota beta. set (e2 := snd _) in *. rewrite put_rm_operand_run by done.
  assert (Hp2 : plain (en_context e) (set_reg w reg d ctx)) by (eapply plain_trans; [exact Hp | apply plain_set_reg]).
  assert (Hrex : rex_bits e2 = rex_bits e) by (unfold rex_bits; rewrite (track_context _ _ _ Ht2); destruct (plain_rex _ _ Hp2) as (-> & -> & _); done).
  rewrite (write_rm_at w modrm mem r e e2 Hrex). exact (track_write e _ e2 w dst r Hr Hp2 Ht2 Hw (rm_operand_ok _ _ _ _ Hm)).
Qed.

(** The flags of the sum, in a context on track. *)
Lemma xadd_compute_run ctx e1 d s : on_track e ctx e1 -> cpu_has_exception ctx = false -> in_word w d -> in_word w s ->
  exists rf, flags_written (add_spec w d s 0) (c_rflags ctx) rf /\
    exists e2, xadd_compute_result w d s e1 = (wrap w (d + s), e2) /\ on_track e (set_c_rflags rf ctx) e2.
Proof.
  intros Ht Hx Hd Hs. destruct (add_at_written w d s ctx Hw Hd Hs Hx) as [Hc Hf].
  eexists. split; [exact Hf |]. unfold xadd_compute_result. rewrite exchange_width_ok, !wrap_of_word by done.
  unfold add_value, st_bind. cbn zeta. eexists. split; [by rewrite raw_wrap |]. rewrite <- Hc. by apply track_mod.
Qed.

(** The comparison of CMPXCHG. *)
Lemma compare_flags ctx acc d : cpu_has_exception ctx = false -> in_word w acc -> in_word w d ->
  exists rf, cmpxchg_update_flags w acc d ctx = set_c_rflags rf ctx /\ flags_written (sub_spec w acc d 0) (c_rflags ctx) rf.
Proof.
  intros Hx Ha Hd. unfold cmpxchg_update_flags. rewrite exchange_width_ok, !wrap_of_word by done. cbn zeta.
  destruct (sub_at_written w acc d ctx Hw Ha Hd Hx) as [Hc Hf]. by eexists.
Qed.

End steps.

(** ** The bodies *)

Section bodies.
Context `{Callbacks}.
Variables (rounds : nat) (e : cpueaxh_engine) (w modrm mem : Z).
Hypotheses (Hr : cpu_ready e) (Hwf : regs_wf (en_context e)) (Hw : reg_width w) (Hm : in_word 64 mem).
Let ctx := en_context e.
Let reg := reg_index modrm ctx.
Let dst := rm_operand modrm mem ctx.

Lemma reg_word r : in_word w (get_reg w ctx r).
Proof. by apply get_reg_in_word. Qed.

Lemma register_operand : (modrm_mod modrm =? 3) = true -> dst = Reg (rm_index modrm ctx).
Proof. intros Hmod. unfold dst, rm_operand. by rewrite Hmod. Qed.
Lemma memory_operand : (modrm_mod modrm =? 3) = false -> dst = Mem mem.
Proof. intros Hmod. unfold dst, rm_operand. by rewrite Hmod. Qed.

(** The registers read first leave the engine as it is. *)
Lemma xchg_register : (modrm_mod modrm =? 3) = true -> exchange_effect XCHG e w reg dst (final (xchg_rm_reg rounds modrm mem w) e).
Proof.
  intros Hmod. unfold xchg_rm_reg, exchange_effect. fold ctx. pose proof (register_operand Hmod) as Hd.
  assert (Hrun : final (xchg_rm_reg rounds modrm mem w) e =
    final (put_reg_operand reg w (operand_value e w dst) ;;; put_rm_operand modrm mem w (get_reg w ctx reg)) e).
  { unfold final, xchg_rm_reg. unfold st_bind at 1 2, get_ctx at 1, st_gets at 1. rewrite read_reg_operand_run by done.
    cbn iota beta. rewrite Hmod. cbn [negb]. unfold st_bind at 1. rewrite get_rm_operand_run by done. rewrite read_rm_at.
    fold ctx reg dst. by rewrite Hd. }
  unfold xchg_rm_reg in Hrun. rewrite Hrun. pose proof (track_start e Hr) as Ht.
  pose proof (put_both e w modrm mem Hr Hw Hm ctx e reg (operand_value e w dst) (get_reg w ctx reg) (plain_refl _) Ht) as Hput.
  cbv zeta in Hput. fold ctx dst in Hput. rewrite Hd in *. cbn [operand_fault operand_value] in *.
  exists (get_reg w ctx reg), (c_rflags ctx). split; [done |].
  replace (set_c_rflags (c_rflags ctx) ctx) with ctx by (by destruct ctx). apply Hput; apply reg_word.
Qed.

(** Behind the loop: the context [after] the exchange. *)
Lemma locked_exchange op callback (after : Z -> Z -> CPU_CONTEXT -> CPU_CONTEXT) e' :
  op <> CMPXCHG -> (modrm_mod modrm =? 3) = false -> mem <> 0 ->
  (forall d, in_word w d -> exists rf, exchange_spec op w d (get_reg w ctx reg) (c_rflags ctx) (wrap w (callback d)) rf /\
     after d (wrap w (callback d)) ctx = set_reg w reg d (set_c_rflags rf ctx)) ->
  e' = final (let* done := cpu_atomic_rmw_memory (S rounds) mem w callback in
              match done with Some (true, old, new) => mod_ctx (after old new) | _ => st_ret tt end) e ->
  exchange_outcome op true e w reg dst e'.
Proof.
  intros Hop Hmod Hnz Haf ->. pose proof (rmw_locked_after rounds mem w callback after e Hr Hw Hm Hnz) as Hl. cbv zeta in Hl.
  set (e' := final _ e) in *. clearbody e'. rewrite memory_operand by done.
  assert (Hgoal : exchange_effect op e w reg (Mem mem) e' \/ lock_refused e w (Mem mem) e').
  2: { destruct op; [| | done]; (destruct Hgoal; [by left | by right]). }
  unfold exchange_effect. cbn [operand_fault operand_value]. fold ctx.
  destruct (first_fault e mem (w / 8) MM_PROT_READ) as [[ad v] |]; [by left |]. destruct Hl as [Href | (Hd & -> & Hres)]; [by right |]. left.
  destruct (Haf _ Hd) as (rf & Hs & Hc). fold ctx in Hres. rewrite Hc in Hres. by eexists _, rf.
Qed.

Lemma xchg_memory : (modrm_mod modrm =? 3) = false -> mem <> 0 ->
  exchange_outcome XCHG true e w reg dst (final (xchg_rm_reg (S rounds) modrm mem w) e).
Proof.
  intros Hmod Hnz. pose proof (wrap_of_word w _ (reg_word reg)) as Hs.
  apply (locked_exchange XCHG (cpu_atomic_exchange_callback (get_reg w ctx reg)) (fun old _ => set_reg w reg (wrap w old))); [done.. | |].
  - intros d Hd. unfold cpu_atomic_exchange_callback. rewrite Hs. exists (c_rflags ctx). split; [done |]. rewrite wrap_of_word by done.
    by destruct ctx.
  - unfold final, xchg_rm_reg, st_bind, get_ctx, st_gets. rewrite read_reg_operand_run by done. rewrite Hmod. cbn [negb].
    unfold cpu_atomic_exchange_memory. fold ctx reg. destruct (cpu_atomic_rmw_memory _ _ _ _ e) as [[[[[] old] new] |] e1]; [| done | done].
    unfold put_reg_operand. by rewrite exchange_width_ok.
Qed.

Lemma xadd_locked : (modrm_mod modrm =? 3) = false -> mem <> 0 ->
  exchange_outcome XADD true e w reg dst (final (xadd_rm_reg (S rounds) modrm mem w true) e).
Proof.
  intros Hmod Hnz. pose proof (reg_word reg) as Hsw. set (s := get_reg w ctx reg) in *.
  apply (locked_exchange XADD (cpu_atomic_add_callback s)
    (fun old _ c => set_reg w reg (wrap w old) (update_flags_add_at w (wrap w old) (wrap w s) (wrap (raw_width w) (wrap w old + wrap w s)) c))); [done.. | |].
  - intros d Hd. rewrite (wrap_of_word w d), (wrap_of_word w s) by done. destruct (add_at_written w d s ctx Hw Hd Hsw (proj2 (proj2 Hr))) as [Hc Hf].
    eexists. split; [split; [| exact Hf] |].
    + unfold cpu_atomic_add_callback. apply wrap_wrap_le. destruct (reg_width_bounds w Hw). lia.
    + by rewrite <- Hc.
  - unfold final, xadd_rm_reg, st_bind, get_ctx, st_gets. rewrite read_reg_operand_run by done. rewrite Hmod. cbn [negb andb].
    unfold cpu_atomic_add_memory. fold ctx reg. fold s. destruct (cpu_atomic_rmw_memory _ _ _ _ e) as [[[[[] old] new] |] e1]; [| done | done].
    unfold put_reg_operand, xadd_compute_result. by rewrite exchange_width_ok.
Qed.

Lemma xadd_unlocked (lock : bool) : (lock && negb (modrm_mod modrm =? 3)) = false ->
  exchange_effect XADD e w reg dst (final (xadd_rm_reg rounds modrm mem w lock) e).
Proof.
  intros Hlock. set (s := get_reg w ctx reg). pose proof (reg_word reg) as Hsw.
  assert (Hrun : final (xadd_rm_reg rounds modrm mem w lock) e =
    final (let* d := read_rm w modrm mem in let* faulted := get_ctx cpu_has_exception in
           if faulted then st_ret tt else
             let* result := xadd_compute_result w d s in put_reg_operand reg w d ;;; put_rm_operand modrm mem w result) e).
  { unfold final, xadd_rm_reg. unfold st_bind at 1 2, get_ctx at 1, st_gets at 1. rewrite read_reg_operand_run by done.
    cbn iota beta. rewrite Hlock. unfold st_bind at 1. rewrite get_rm_operand_run by done. done. }
  rewrite Hrun. unfold exchange_effect. fold ctx.
  pattern (final (let* d := read_rm w modrm mem in let* faulted := get_ctx cpu_has_exception in
           if faulted then st_ret tt else
             let* result := xadd_compute_result w d s in put_reg_operand reg w d ;;; put_rm_operand modrm mem w result) e).
  apply read_rm_then; [done.. | |].
  - intros ad v e1 Hf Ha. fold ctx dst in Hf. by rewrite Hf.
  - intros d e1 Hf Hd Heq Ht. fold ctx dst in Hf, Heq. rewrite Hf, <- Heq.
    destruct (xadd_compute_run e w Hw ctx e1 d s Ht (proj2 (proj2 Hr)) Hd Hsw) as (rf & Hfl & e2 & Hc & Ht2).
    unfold final. rewrite !(bind_run _ _ _ _ _ Hc).
    pose proof (put_both e w modrm mem Hr Hw Hm _ e2 reg d (wrap w (d + s)) (plain_set_rflags rf _) Ht2 Hd) as Hput.
    assert (Hsum : in_word w (wrap w (d + s))) by (apply wrap_range; destruct (reg_width_bounds w Hw); lia). specialize (Hput Hsum).
    cbv zeta in Hput. fold ctx dst in Hput. destruct (operand_fault e w MM_PROT_WRITE dst) as [[ad v] |]; [exact Hput |].
    by exists (wrap w (d + s)), rf.
Qed.

End bodies.

Section compare.
Context `{Callbacks}.
Variables (rounds : nat) (e : cpueaxh_engine) (w modrm mem : Z).
Hypotheses (Hr : cpu_ready e) (Hwf : regs_wf (en_context e)) (Hw : reg_width w) (Hm : in_word 64 mem).
Let ctx := en_context e.
Let reg := reg_index modrm ctx.
Let dst := rm_operand modrm mem ctx.
Let acc := get_reg w ctx REG_RAX.
Let src := get_reg w ctx reg.

Lemma cmpxchg_unlocked (lock : bool) : (lock && negb (modrm_mod modrm =? 3)) = false ->
  exchange_outcome CMPXCHG false e w reg dst (final (cmpxchg_rm_reg rounds modrm mem w lock) e).
Proof.
  intros Hlock. assert (Hsw : in_word w src) by (by apply get_reg_in_word). assert (Haw : in_word w acc) by (by apply get_reg_in_word).
  set (rest := fun d => mod_ctx (cmpxchg_update_flags w acc d) ;;; (if acc =? d then put_rm_operand modrm mem w src else put_reg_operand REG_RAX w d)).
  assert (Hrun : final (cmpxchg_rm_reg rounds modrm mem w lock) e =
    final (let* d := read_rm w modrm mem in let* faulted := get_ctx cpu_has_exception in if faulted then st_ret tt else rest d) e).
  { unfold final, cmpxchg_rm_reg. unfold st_bind at 1 2 3, get_ctx at 1, st_gets at 1. rewrite read_reg_operand_run by done.
    cbn iota beta. rewrite read_reg_operand_run by done. cbn iota beta. rewrite Hlock. unfold st_bind at 1. by rewrite get_rm_operand_run. }
  rewrite Hrun. unfold exchange_outcome, compare_effect. fold ctx. clear Hrun.
  match goal with |- context [final ?c e] => pattern (final c e) end.
  apply read_rm_then; [done.. | |].
  - intros ad v e1 Hf Ha. fold ctx dst in Hf. by rewrite Hf.
  - intros d e1 Hf Hd Heq Ht. fold ctx dst in Hf, Heq. rewrite Hf, <- Heq. fold acc src.
    destruct (compare_flags w Hw ctx acc d (proj2 (proj2 Hr)) Haw Hd) as (rf & Hc & Hfl). exists rf. split; [exact Hfl |].
    pose proof (track_mod _ _ _ (cmpxchg_update_flags w acc d) Ht) as Ht2. fold ctx in Ht2. rewrite Hc in Ht2. unfold rest, final, st_bind.
    change (mod_ctx (cmpxchg_update_flags w acc d) e1) with (tt, snd (mod_ctx (cmpxchg_update_flags w acc d) e1)).
    cbn iota beta. set (e2 := snd (mod_ctx _ e1)) in *. destruct (acc =? d).
    + rewrite put_rm_operand_run by done.
      assert (Hrex : rex_bits e2 = rex_bits e) by (unfold rex_bits; by rewrite (track_context _ _ _ Ht2)).
      rewrite (write_rm_at w modrm mem src e e2 Hrex).
      pose proof (track_write e _ e2 w dst src Hr (plain_set_rflags rf _) Ht2 Hw (rm_operand_ok _ _ _ _ Hm)) as Hwr.
      fold ctx dst. by destruct (operand_fault e w MM_PROT_WRITE dst) as [[ad v] |].
    + rewrite put_reg_operand_run by done. by apply track_mod.
Qed.

Lemma cmpxchg_locked : (modrm_mod modrm =? 3) = false -> mem <> 0 ->
  exchange_outcome CMPXCHG true e w reg dst (final (cmpxchg_rm_reg (S rounds) modrm mem w true) e).
Proof.
  intros Hmod Hnz. assert (Hsw : in_word w src) by (by apply get_reg_in_word). assert (Haw : in_word w acc) by (by apply get_reg_in_word).
  destruct (reg_width_bounds w Hw) as [Hb Hos]. assert (Hd : dst = Mem mem) by (unfold dst, rm_operand; by rewrite Hmod). rewrite Hd.
  pose proof (cas_spec rounds e mem w acc src Hr Hm Hnz Hos) as Hcas.
  unfold exchange_outcome, compare_effect. cbn [operand_fault operand_value]. fold ctx acc src.
  unfold final, cmpxchg_rm_reg, st_bind, get_ctx, st_gets. rewrite !read_reg_operand_run by done. rewrite Hmod. cbn [negb andb]. fold ctx reg acc src.
  destruct (cpu_atomic_compare_exchange_memory (S rounds) mem w acc src e) as [r e1]. cbn zeta in Hcas.
  destruct Hcas as [(Hff & Hl & -> & Hst) | (Hno & -> & v & ad & Hv & Hf)].
  2: { left. rewrite (faults_pending _ _ _ _ _ Hv Hf). exists mem, v, ad. split_and!; [done | done | by apply faults_abandoned]. }
  right. split; [exact Hff |]. assert (Hx : cpu_has_exception ctx = false) by apply Hr. pose proof (guest_value_wrap e mem w MM_PROT_WRITE (proj1 Hr) Hos Hff) as Hgw.
  rewrite (wrap_of_word w acc), Z.eqb_sym in Hst by done. cbn [from_option id].
  set (d := guest_value e mem (w / 8)) in *. assert (Hdw : in_word w d) by (rewrite <- Hgw; apply wrap_range; lia).
  destruct (compare_flags w Hw ctx acc d (proj2 (proj2 Hr)) Haw Hdw) as (rf & Hc & Hfl). exists rf. split; [exact Hfl |].
  rewrite Hff. destruct (acc =? d) eqn:Heq; cbn [negb].
  - pose proof (stored_context _ _ _ _ Hst) as Hctx. fold ctx in Hctx. rewrite Hctx, Hx.
    unfold mod_ctx, st_modify. cbn [snd fst]. rewrite Hctx, Hc. cbn [result_in].
    rewrite <- (set_own_context e) in Hst at 1. exact (stored_set_context _ _ _ _ _ _ Hst).
  - apply (track_same e e1 Hr) in Hst. pose proof (track_context _ _ _ Hst) as Hctx. change (en_context e1 = ctx) in Hctx. rewrite Hctx, Hx.
    rewrite put_reg_operand_run by done. pose proof (track_mod _ _ _ (cmpxchg_update_flags w acc d) Hst) as Ht2. fold ctx in Ht2. rewrite Hc in Ht2.
    change (mod_ctx (cmpxchg_update_flags w acc d) e1) with (tt, snd (mod_ctx (cmpxchg_update_flags w acc d) e1)).
    cbn iota beta. by apply track_mod.
Qed.

End compare.

(** ** The properties *)

Section theorem.
Context `{Callbacks}.

(** C39: XCHG, XADD and CMPXCHG exchange the register and the operand.  Without hooks, on every form of
    their operand and at every width: an operand that cannot be read, or else one that is stored to
    and cannot be written, leaves its fault pending with no byte of memory changed.  Otherwise XCHG
    swaps the operand and the register and keeps the flags; XADD stores the truncated sum, gives the
    register the old operand and sets the flags of the sum; CMPXCHG sets the flags of the accumulator
    minus the operand and, when they are equal, stores the register, else loads the operand into the
    accumulator; and nothing else changes.  All this is the architecture's, but for a mismatch of
    CMPXCHG: the architecture writes the operand's old value back, while the code leaves the operand
    alone, so that an unlocked CMPXCHG completes on readable memory that cannot be written and does
    not zero-extend a 32-bit register operand.  Locked, on memory at an address other than 0 (the
    locked operations of CpuMemory say why, and what the retries do), the same happens when no other
    processor interferes, or the access, which asks for write permission first, is refused: a fault is
    pending and memory unchanged. *)
Theorem exchange_instructions_correct (rounds : nat) op inst e reg dst
  (Hr : cpu_ready e) (Hwf : regs_wf (en_context e)) (Hw : reg_width (i_operand_size inst)) (Hm : in_word 64 (i_mem_address inst))
  (Hl : exchange_locked op inst = true -> i_mem_address inst <> 0)
  (Hop : exchange_operands op inst (en_context e) = Some (reg, dst)) :
  exchange_outcome op (exchange_locked op inst) e (i_operand_size inst) reg dst (final (execute_exchange (S rounds) op inst) e).
Proof.
  unfold exchange_locked, exchange_operands in *. destruct op; cbn [execute_exchange].
  - unfold execute_xchg_with_decoded. destruct (one_of (i_opcode inst) [0x86; 0x87]).
    + injection Hop as <- <-. cbn [andb] in *. destruct (modrm_mod (i_modrm inst) =? 3) eqn:Hmod; cbn [negb] in *.
      * left. by apply xchg_register.
      * apply xchg_memory; try done. by apply Hl.
    + cbn [andb] in *. destruct (between 0x90 0x97 (i_opcode inst)); [| done]. cbv zeta in Hop.
      destruct (decode_xchg_short_reg_index (i_opcode inst) (en_context e) =? REG_RAX) eqn:Hrax; [done |]. injection Hop as <- <-. left.
      set (w := i_operand_size inst) in *. set (ctx := en_context e). set (r := decode_xchg_short_reg_index (i_opcode inst) ctx).
      unfold exchange_effect. cbn [operand_fault operand_value]. fold ctx. exists (get_reg w ctx REG_RAX), (c_rflags ctx). split; [done |].
      unfold xchg_acc_reg, final, st_bind, get_ctx at 1, st_gets at 1. fold ctx r. change (r =? REG_RAX) with (decode_xchg_short_reg_index (i_opcode inst) (en_context e) =? REG_RAX). rewrite Hrax.
      rewrite !read_reg_operand_run, !put_reg_operand_run by first [done | by apply get_reg_in_word]. fold ctx.
      pose proof (track_start e Hr) as Ht. apply (track_mod _ _ _ (set_reg w REG_RAX (get_reg w ctx r))) in Ht.
      change (mod_ctx (set_reg w REG_RAX (get_reg w ctx r)) e) with (tt, snd (mod_ctx (set_reg w REG_RAX (get_reg w ctx r)) e)). cbn iota beta.
      replace (set_c_rflags (c_rflags ctx) ctx) with ctx by (by destruct ctx). cbn [result_in]. by apply track_mod.
  - unfold execute_xadd_with_decoded. injection Hop as <- <-. destruct (i_has_lock_prefix inst && negb (modrm_mod (i_modrm inst) =? 3)) eqn:Hlock.
    + apply andb_true_iff in Hlock as [Hp Hmod%negb_true_iff]. rewrite Hp. apply xadd_locked; try done. by apply Hl.
    + left. by apply xadd_unlocked.
  - unfold execute_cmpxchg_with_decoded. injection Hop as <- <-. destruct (i_has_lock_prefix inst && negb (modrm_mod (i_modrm inst) =? 3)) eqn:Hlock.
    + apply andb_true_iff in Hlock as [Hp Hmod%negb_true_iff]. rewrite Hp. apply cmpxchg_locked; try done. by apply Hl.
    + by apply cmpxchg_unlocked.
Qed.

(** XCHG of RAX with itself, the one-byte NOP, changes nothing. *)
Lemma xchg_rax_is_nop rounds inst e :
  one_of (i_opcode inst) [0x86; 0x87] = false -> between 0x90 0x97 (i_opcode inst) = true ->
  decode_xchg_short_reg_index (i_opcode inst) (en_context e) = REG_RAX -> final (execute_xchg_with_decoded rounds inst) e = e.
Proof.
  intros H1 H2 H3. unfold execute_xchg_with_decoded. rewrite H1, H2. unfold xchg_acc_reg, final, st_bind, get_ctx, st_gets. by rewrite H3.
Qed.



End theorem.

(** ** TEST *)

Section test.
Context `{Callbacks}.

Definition test_operands_of (inst : DecodedInstruction) (ctx : CPU_CONTEXT) : option (Z * operand * operand) :=
  let opcode := i_opcode inst in
  let w := prefix_width ctx in
  let rm := rm_operand (i_modrm inst) (i_mem_address inst) ctx in
  let reg := Reg (reg_index (i_modrm inst) ctx) in
  if opcode =? 0xA8 then Some (8, Reg REG_RAX, Imm (u8 (i_immediate inst)))
  else if opcode =? 0xA9 then Some (w, Reg REG_RAX, Imm (wide_immediate w (i_immediate inst)))
  else if opcode =? 0xF6 then Some (8, rm, Imm (u8 (i_immediate inst)))
  else if opcode =? 0xF7 then Some (w, rm, Imm (wide_immediate w (i_immediate inst)))
  else if opcode =? 0x84 then Some (8, rm, reg)
  else if opcode =? 0x85 then Some (w, rm, reg)
  else None.

(** The operand's fault, or the flags of the conjunction. *)
Definition test_effect (e : cpueaxh_engine) (w : Z) (dst src : operand) (e' : cpueaxh_engine) : Prop :=
  match operand_fault e w MM_PROT_READ dst with
  | Some (ad, v) => abandoned e MM_PROT_READ v ad e'
  | None => exists ctx', on_track e ctx' e' /\
      ctx_flags_written (logic_spec w (Z.land (operand_value e w dst) (operand_value e w src)) (Z.testbit (c_rflags (en_context e)) 4)) (en_context e) ctx'
  end.

Lemma test_flags_at w : reg_width w -> forall r, update_flags_test_at w r = update_flags_logic w r.
Proof. by intros [-> | [-> | [-> | ->]]]. Qed.

Lemma logic_keeps_fault w r : keeps_fault (update_flags_logic w r).
Proof.
  apply keeps_fault_id. intros ctx Hx. unfold update_flags_logic, set_sf_zf. cbv zeta.
  by rewrite !set_flag_pending by (by rewrite ?set_flag_has_exception).
Qed.

(** Reading one operand and setting the flags of its conjunction with [s]. *)
Lemma test_body_effect e w dst src s :
  cpu_ready e -> regs_wf (en_context e) -> reg_width w -> operand_ok w dst -> in_word w s -> s = operand_value e w src ->
  test_effect e w dst src (final (let* d := read_at w dst in mod_ctx (update_flags_test_at w (Z.land d s))) e).
Proof.
  intros Hr Hwf Hw Hd Hs Heq. unfold test_effect. pose proof (track_read e _ e w dst Hr (plain_refl _) (track_start e Hr) Hw Hd) as Hread.
  unfold final, st_bind. destruct (operand_fault e w MM_PROT_READ dst) as [[ad v] |] eqn:Hf; destruct Hread as (e1 & -> & He).
  - rewrite test_flags_at by done. apply (inert_mod _ (logic_keeps_fault w _) _ _ _ _ _ He).
  - unfold value_in. rewrite set_own_context, <- Heq, test_flags_at by done. eexists. split; [by apply track_mod |].
    apply logic_flags_written; [destruct (reg_width_bounds w Hw); lia | | apply Hr].
    apply (exact_logic_word AND w 0); [by left | done | by apply operand_in_word | done].
Qed.

(** TEST sets the flags of the conjunction of its operands and changes nothing else. *)
Theorem test_instruction_correct e inst w dst src
  (Hr : cpu_ready e) (Hwf : regs_wf (en_context e)) (Hm : in_word 64 (i_mem_address inst))
  (Hop : test_operands_of inst (en_context e) = Some (w, dst, src)) :
  test_effect e w dst src (final (execute_test_with_decoded inst) e).
Proof.
  unfold test_operands_of in Hop. cbv zeta in Hop. unfold execute_test_with_decoded. cbv zeta.
  unfold final. rewrite (get_ctx_step e).
  assert (H8 : reg_width 8) by by left. pose proof (prefix_width_ok (en_context e)) as Hpw. set (w0 := prefix_width (en_context e)) in *.
  assert (Hrm : forall v, reg_width v -> operand_ok v (rm_operand (i_modrm inst) (i_mem_address inst) (en_context e))) by (intros; by apply rm_operand_ok).
  pose proof (wide_immediate_word w0 (i_immediate inst) Hpw) as Hwi. assert (Hbi : in_word 8 (u8 (i_immediate inst))) by (apply wrap_range; lia).
  assert (Hacc : forall v, reg_width v -> read_acc v e = read_at v (Reg REG_RAX) e) by (intros v Hv; by apply acc_read_write).
  repeat match type of Hop with (if ?b then _ else _) = _ => destruct b end; [.. | done]; injection Hop as <- <- <-.
  - unfold test_acc_imm, st_bind. rewrite Hacc by done. by apply (test_body_effect e 8 (Reg REG_RAX)).
  - unfold test_acc_imm, st_bind. rewrite Hacc by done. by apply (test_body_effect e w0 (Reg REG_RAX)).
  - unfold test_rm_imm, st_bind. rewrite read_rm_at. apply test_body_effect; try done. by apply Hrm.
  - unfold test_rm_imm, st_bind. rewrite read_rm_at. apply test_body_effect; try done. by apply Hrm.
  - unfold test_rm_r, read_reg, st_bind, get_ctx, st_gets. rewrite read_rm_at. apply test_body_effect; try done; [by apply Hrm | by apply get_reg_in_word].
  - unfold test_rm_r, read_reg, st_bind, get_ctx, st_gets. rewrite read_rm_at. apply test_body_effect; try done; [by apply Hrm | by apply get_reg_in_word].
Qed.

End test.

(** ** CMPXCHG8B and CMPXCHG16B *)

Section pair.
Context `{Callbacks}.

(** Two registers of [w] bits as one number. *)
Definition pair_value (w hi lo : Z) (ctx : CPU_CONTEXT) : Z := get_reg w ctx hi * 2 ^ w + get_reg w ctx lo.

(** The memory operand of twice [w] bits faults; or equals the pair of RDX and RAX and becomes, if
    it can be written, the pair of RCX and RBX, with ZF set; or is loaded into RDX and RAX, with ZF clear. *)
Definition pair_effect (e : cpueaxh_engine) (w a : Z) (e' : cpueaxh_engine) : Prop :=
  let ctx := en_context e in
  let n := 2 * w / 8 in
  let d := guest_value e a n in
  let zf := fun b => set_c_rflags (put_bit 6 b (c_rflags ctx)) ctx in
  match first_fault e a n MM_PROT_READ with
  | Some (ad, v) => abandoned e MM_PROT_READ v ad e'
  | None =>
      if d =? pair_value w REG_RDX REG_RAX ctx then
        match first_fault e a n MM_PROT_WRITE with
        | Some (ad, v) => abandoned e MM_PROT_WRITE v ad e'
        | None => stored (set_en_context (zf true) e) (hosts_of e a n) (pair_value w REG_RCX REG_RBX ctx) e'
        end
      else on_track e (set_reg w REG_RDX (d / 2 ^ w) (set_reg w REG_RAX (d mod 2 ^ w) (zf false))) e'
  end.

Lemma register_pair_value hi lo ctx : regs_wf ctx -> register_pair hi lo ctx = pair_value 32 hi lo ctx.
Proof.
  intros Hwf. unfold register_pair, pair_value. change (get_reg32 ctx ?r) with (get_reg 32 ctx r).
  pose proof (get_reg_in_word 32 ctx lo ltac:(by right; right; left) Hwf) as Hlo. rewrite Z.lor_comm, lor_disjoint by (done || lia). lia.
Qed.

Lemma zf_keeps_fault b f : keeps_fault f -> keeps_fault (fun ctx => set_flag RFLAGS_ZF b (f ctx)).
Proof. intros Hf. apply (keeps_fault_compose _ f); [apply keeps_fault_set_flag | done]. Qed.

(** The registers, then ZF. *)
Lemma load_pair e e1 w hi lo : cpu_ready e -> on_track e (en_context e) e1 ->
  on_track e (set_reg w REG_RDX hi (set_reg w REG_RAX lo (set_c_rflags (put_bit 6 false (c_rflags (en_context e))) (en_context e))))
    (final (mod_ctx (set_reg w REG_RAX lo) ;;; mod_ctx (set_reg w REG_RDX hi) ;;; mod_ctx (set_flag RFLAGS_ZF false)) e1).
Proof.
  intros Hr Ht. apply (track_mod _ _ _ (set_reg w REG_RAX lo)) in Ht. apply (track_mod _ _ _ (set_reg w REG_RDX hi)) in Ht.
  apply (track_mod _ _ _ (set_flag RFLAGS_ZF false)) in Ht. change RFLAGS_ZF with (2 ^ 6) in *.
  rewrite set_flag_put in Ht.
  2: { rewrite (plain_has_exception (en_context e)); [apply Hr |]. eapply plain_trans; apply plain_set_reg. }
  rewrite !set_reg_keeps_rflags, !set_reg_rflags in Ht. exact Ht.
Qed.

(** ZF after the store. *)
Lemma stored_then_zf e e1 hosts v : cpu_ready e -> stored e hosts v e1 ->
  stored (set_en_context (set_c_rflags (put_bit 6 true (c_rflags (en_context e))) (en_context e)) e) hosts v (final (mod_ctx (set_flag RFLAGS_ZF true)) e1).
Proof.
  intros Hr Hst. unfold final, mod_ctx, st_modify. cbn [snd]. rewrite (stored_context _ _ _ _ Hst). change RFLAGS_ZF with (2 ^ 6).
  rewrite set_flag_put by apply Hr. rewrite <- (set_own_context e) in Hst at 1. exact (stored_set_context _ _ _ _ _ _ Hst).
Qed.

Lemma qword_is_operand a e : read_memory_qword a e = read_memory_operand a 64 e.
Proof. done. Qed.

Theorem cmpxchg8b_correct e a (Hr : cpu_ready e) (Hwf : regs_wf (en_context e)) (Ha : in_word 64 a) :
  pair_effect e 32 a (final (execute_cmpxchg8b_memory a) e).
Proof.
  unfold pair_effect. change (2 * 32 / 8) with 8.
  pose proof (track_read e _ e 64 (Mem a) Hr (plain_refl _) (track_start e Hr) ltac:(by right; right; right) Ha) as Hread.
  cbn [operand_fault read_at] in Hread. change (64 / 8) with 8 in Hread.
  unfold execute_cmpxchg8b_memory, final. rewrite <- qword_is_operand in Hread. destruct (first_fault e a 8 MM_PROT_READ) as [[ad v] |] eqn:Hf.
  - destruct Hread as (e1 & Hrun & He). rewrite (bind_run _ _ _ _ _ Hrun).
    assert (Hi : inert (let* compare_value := get_ctx (register_pair REG_RDX REG_RAX) in
      if 0 =? compare_value then let* source_value := get_ctx (register_pair REG_RCX REG_RBX) in
        write_at 64 (Mem a) source_value ;;; mod_ctx (set_flag RFLAGS_ZF true)
      else mod_ctx (set_reg 32 REG_RAX (u32 0)) ;;; mod_ctx (set_reg 32 REG_RDX (u32 (Z.shiftr 0 32))) ;;; mod_ctx (set_flag RFLAGS_ZF false)))
      by (assert (H64 : reg_width 64) by (by right; right; right); inert_steps).
    exact (Hi _ _ _ _ _ He).
  - destruct Hread as (e1 & Hrun & Ht). unfold value_in in Hrun. rewrite set_own_context in Hrun. cbn [operand_value] in Hrun. change (64 / 8) with 8 in Hrun.
    rewrite !(bind_run _ _ _ _ _ Hrun). set (d := guest_value e a 8). rewrite !(bind_run _ _ _ _ _ (track_get _ _ _ _ Ht)), register_pair_value by done.
    destruct (d =? _).
    + rewrite !(bind_run _ _ _ _ _ (track_get _ _ _ _ Ht)), register_pair_value by done.
      pose proof (track_write e _ e1 64 (Mem a) (pair_value 32 REG_RCX REG_RBX (en_context e)) Hr (plain_refl _) Ht ltac:(by right; right; right) Ha) as Hw.
      cbn [operand_fault write_at result_in] in Hw. change (64 / 8) with 8 in Hw. rewrite set_own_context in Hw.
      unfold st_bind. change (write_memory_qword a ?x) with (write_memory_operand a 64 x). destruct (write_memory_operand a 64 _ e1) as [u e2]. cbn [snd] in Hw.
      destruct (first_fault e a 8 MM_PROT_WRITE) as [[ad v] |].
      * exact (inert_mod _ (keeps_fault_set_flag _ _) _ _ _ _ _ Hw).
      * exact (stored_then_zf _ _ _ _ Hr Hw).
    + replace (d / 2 ^ 32) with (u32 (Z.shiftr d 32)); [by apply (load_pair e e1 32) |].
      assert (Hd : in_word 64 d).
      { pose proof (guest_value_wrap e a 64 MM_PROT_READ (proj1 Hr) ltac:(by right; right; right) Hf) as Hgw. change (64 / 8) with 8 in Hgw.
        unfold d. rewrite <- Hgw. apply wrap_range. lia. }
      rewrite Z.shiftr_div_pow2 by lia. apply wrap_small. unfold in_word in *. split; [apply Z.div_pos; lia | apply Z.div_lt_upper_bound; lia].
Qed.

(** The 16 bytes at an address are its XMM value. *)
Lemma guest_xmm_value e a : guest_value e a 16 = xmm_value (guest_xmm e a).
Proof.
  unfold guest_xmm, xmm_value. cbn [xmm_low xmm_high]. by rewrite guest_bytes_value, guest_bytes_split, le_combine_app, guest_bytes_length, <- !guest_bytes_value.
Qed.

Lemma guest_xmm_ok e a : manager_wf (en_mem e) -> first_fault e a 16 MM_PROT_READ = None -> xmm_ok (guest_xmm e a).
Proof.
  intros Hm Hf. pose proof (guest_bytes_range e a 16 _ Hm Hf) as Hok. rewrite guest_bytes_split in Hok. apply Forall_app in Hok as [H1 H2].
  assert (Hb : forall b, bytes_ok (guest_bytes e b 8) -> in_word 64 (guest_value e b 8)).
  { intros b Hb. rewrite guest_bytes_value. pose proof (le_combine_bound _ Hb) as Hv. rewrite guest_bytes_length in Hv. exact Hv. }
  split; by apply Hb.
Qed.

Lemma xmm_pair_eq v ctx : xmm_ok v -> regs_wf ctx ->
  ((xmm_low v =? get_reg64 ctx REG_RAX) && (xmm_high v =? get_reg64 ctx REG_RDX)) = (xmm_value v =? pair_value 64 REG_RDX REG_RAX ctx).
Proof.
  intros [Hl Hh] Hwf. unfold xmm_value, pair_value. change (get_reg64 ctx ?r) with (get_reg 64 ctx r).
  pose proof (get_reg_in_word 64 ctx REG_RAX ltac:(by right; right; right) Hwf) as Ha. unfold in_word in *.
  apply eq_true_iff_eq. rewrite andb_true_iff, !Z.eqb_eq. nia.
Qed.

Lemma inert_write_xmm a v : inert (write_xmm_memory a v).
Proof.
  intros e acc vd ad e1 Ha. pose proof Ha as (_ & _ & Hp & _). unfold write_xmm_memory, write_wide.
  rewrite (bind_run (get_ctx cpu_has_exception) _ e1 _ e1 eq_refl), Hp. exact Ha.
Qed.

Theorem cmpxchg16b_correct e a (Hr : cpu_ready e) (Hwf : regs_wf (en_context e)) (Ha : in_word 64 a) :
  pair_effect e 64 a (final (execute_cmpxchg16b_memory a) e).
Proof.
  unfold pair_effect. change (2 * 64 / 8) with 16. pose proof (read_xmm_spec e a Hr Ha) as Hread.
  unfold execute_cmpxchg16b_memory, final. destruct (first_fault e a 16 MM_PROT_READ) as [[ad v] |] eqn:Hf; destruct Hread as (e1 & He & Hrun); rewrite !(bind_run _ _ _ _ _ Hrun).
  - apply faults_abandoned in He; [| by eapply first_fault_not_ok].
    match goal with |- abandoned _ _ _ _ (snd (?c e1)) => assert (Hi : inert c) end.
    { inert_steps; [apply inert_write_xmm | exact (keeps_fault_set_reg 64 _ _) | exact (keeps_fault_set_reg 64 _ _)]. }
    exact (Hi _ _ _ _ _ He).
  - apply (track_same e e1 Hr) in He. rewrite !(bind_run _ _ _ _ _ (track_get _ _ _ _ He)).
    pose proof (guest_xmm_ok e a (proj1 Hr) Hf) as Hok. rewrite xmm_pair_eq, <- guest_xmm_value by done.
    set (d := guest_value e a 16). destruct (d =? _).
    + rewrite !(bind_run _ _ _ _ _ (track_get _ _ _ _ He)). set (src := mkXmm _ _).
      assert (Hsrc : xmm_ok src) by (split; apply (get_reg_in_word 64); [by right; right; right | done | by right; right; right | done]).
      pose proof (write_xmm_spec e1 a src (track_ready _ _ _ Hr (plain_refl _) He) Ha Hsrc) as Hw.
      rewrite (track_first_fault e _ e1 _ _ _ (plain_refl _) He) in Hw. unfold final in Hw.
      assert (Hv : xmm_value src = pair_value 64 REG_RCX REG_RBX (en_context e)) by (unfold xmm_value, pair_value; cbn [src xmm_low xmm_high]; change (get_reg64 (en_context e) ?r) with (get_reg 64 (en_context e) r); lia).
      unfold st_bind. destruct (write_xmm_memory a src e1) as [u e2]. cbn [snd] in Hw.
      destruct (first_fault e a 16 MM_PROT_WRITE) as [[ad v] |] eqn:Hfw.
      * apply faults_abandoned in Hw; [| by eapply first_fault_not_ok]. pose proof (track_abandoned _ _ _ _ _ _ _ (plain_refl _) He Hw) as Hab.
        exact (inert_mod _ (keeps_fault_set_flag _ _) _ _ _ _ _ Hab).
      * apply (track_same e e1 Hr) in He. rewrite Hv in Hw. rewrite (same_cpu_hosts _ _ _ _ He) in Hw.
        exact (stored_then_zf _ _ _ _ Hr (same_cpu_stored _ _ _ _ _ He Hw)).
    + destruct Hok as [Hl Hh]. unfold in_word in Hl, Hh. unfold d. rewrite guest_xmm_value. unfold xmm_value.
      rewrite <- (Z.div_unique (xmm_low (guest_xmm e a) + 2 ^ 64 * xmm_high (guest_xmm e a)) (2 ^ 64) (xmm_high (guest_xmm e a)) (xmm_low (guest_xmm e a))) by lia.
      rewrite <- (Z.mod_unique (xmm_low (guest_xmm e a) + 2 ^ 64 * xmm_high (guest_xmm e a)) (2 ^ 64) (xmm_high (guest_xmm e a)) (xmm_low (guest_xmm e a))) by lia.
      exact (load_pair e e1 64 _ _ Hr He).
Qed.

End pair.

(** ** Replay *)

Lemma at_once_stage code offset : opcode_stage (two_bytes_at_once code offset).
Proof.
  split; [unfold two_bytes_at_once; sticky_steps |]. unfold two_bytes_at_once. intros c1 c2 H1 H2.
  destruct (size_of code <? offset + 2); [by apply gp_not_clean in H1 |].
  assert (Hone : forall ctx, clean (ud_if (negb (byte_at code offset =? 0x0F)) ;;; st_ret (byte_at code (offset + 1), offset + 2, true)) ctx ->
    (ud_if (negb (byte_at code offset =? 0x0F)) ;;; st_ret (byte_at code (offset + 1), offset + 2, true)) ctx = ((byte_at code (offset + 1), offset + 2, true), ctx)).
  { intros ctx Hn. unfold clean, ud_if in *. apply clean_if_raise in Hn as H3; [| apply ud_not_clean | done]. by destruct H3 as [_ ->]. }
  eexists _, _. split; by apply Hone.
Qed.

Lemma uniform_bad inst offset : uniform (st_modify raise_ud_ctx ;;; st_ret (inst, offset, true)).
Proof. apply (uniform_raise zero_inst (fun _ => st_modify raise_ud_ctx ;;; st_ret (inst, offset, true)) raise_ud_ctx); [apply ud_not_clean | done]. Qed.

Lemma uniform_pair base code inst offset lock : uniform (pair_operands base code inst offset lock).
Proof.
  unfold pair_operands. cbv zeta. apply uniform_with_inst_size; [sticky_steps |].
  repeat (destruct (_ =? _); [apply uniform_modrm_operands |]). apply uniform_bad.
Qed.

Lemma uniform_xchg code inst offset lock : i_has_modrm inst = false -> uniform (xchg_operands code inst offset lock).
Proof.
  intros Hm. unfold xchg_operands. cbv zeta. apply uniform_with_inst_size; [sticky_steps |].
  repeat (destruct (_ =? _); [apply uniform_modrm_operands |]). destruct (between _ _ _); [| apply uniform_bad].
  apply uniform_ud_plain; [sticky_steps | by apply uniform_here].
Qed.

#[export] Instance xadd_replayable : Replayable xadd_rules.
Proof. split; intros; cbn; [apply at_once_stage | unfold pair_operands; cbv zeta; apply sticky_with_inst_size; sticky_steps | apply uniform_pair]. Qed.
#[export] Instance cmpxchg_replayable : Replayable cmpxchg_rules.
Proof. split; intros; cbn; [apply at_once_stage | unfold pair_operands; cbv zeta; apply sticky_with_inst_size; sticky_steps | apply uniform_pair]. Qed.
#[export] Instance xchg_replayable : Replayable xchg_rules.
Proof. split; intros; cbn; [apply one_byte_stage | unfold xchg_operands; cbv zeta; apply sticky_with_inst_size; sticky_steps | by apply uniform_xchg]. Qed.

Lemma same_wide_imm c1 c2 : same_decoding c1 c2 -> wide_imm_size c1 = wide_imm_size c2.
Proof. intros [_ Hp]. injection Hp as _ Ew _ _ _ Eo _. unfold wide_imm_size. by rewrite Ew, Eo. Qed.

Lemma uniform_wide_immediate code inst offset (f : Z -> Z) :
  uniform_on inst (fun i => let* imm_size := st_gets wide_imm_size in decode_alu_immediate code i offset (f imm_size)).
Proof.
  apply (uniform_gets inst wide_imm_size (fun i n => decode_alu_immediate code i offset (f n)) same_wide_imm). intros n. apply uniform_immediate.
Qed.

Lemma uniform_count_here code inst offset n : i_has_modrm inst = false -> uniform (decode_alu_immediate code inst offset n).
Proof.
  intros Hm. unfold decode_alu_immediate. cbv zeta. destruct (size_of code <? offset + n).
  - apply (uniform_raise zero_inst (fun _ => st_modify (raise_gp_ctx 0) ;;; st_ret (set_i_imm_size n inst, offset, false)) (raise_gp_ctx 0)); [apply gp_not_clean | done].
  - by apply uniform_here.
Qed.

Lemma uniform_test code inst offset lock : i_has_modrm inst = false -> uniform (test_operands code inst offset lock).
Proof.
  intros Hm. unfold test_operands. cbv zeta. destruct (_ =? 0xA8); [by apply uniform_count_here |].
  destruct (_ =? 0xA9).
  { refine (uniform_gets zero_inst wide_imm_size (fun _ n => _) same_wide_imm _). intros n. by apply uniform_count_here. }
  destruct (one_of _ _); [| do 2 (destruct (_ =? _); [apply uniform_modrm_operands |]); apply uniform_bad].
  apply uniform_modrm; [intros; sticky_steps |]. intros i o. apply uniform_ud.
  - intros; sticky_steps.
  - intros ctx. unfold modrm_digit. by destruct (with_address_fields i ctx) as (-> & _).
  - apply (uniform_wide_immediate code i o (fun n => if i_opcode inst =? 0xF6 then 1 else n)).
Qed.

#[export] Instance test_replayable : Replayable test_rules.
Proof. split; intros; cbn; [apply one_byte_stage | unfold test_operands; cbv zeta; sticky_steps | by apply uniform_test]. Qed.

(** ** [xadd ecx, esp] with RSP = 0x1004 *)

Module ExchangeExample.
Import Bump EngineExample MemoryExample StackExample.

Definition xadd_ecx_esp : DecodedInstruction := set_i_operand_size 32 (set_i_modrm 0xE1 (set_i_opcode 0xC1 zero_inst)).

Lemma exchange_instructions_correct_witness :
  let e' := final (execute_exchange 1 XADD xadd_ecx_esp) (stacked 0x1004) in
  get_reg 32 (en_context e') 1 = 0x1004 /\ get_reg 32 (en_context e') 4 = 0.
Proof.
  assert (Hv : in_word 64 0x1004) by zcompute. assert (Hm : in_word 64 (i_mem_address xadd_ecx_esp)) by zcompute.
  assert (Hw : reg_width (i_operand_size xadd_ecx_esp)) by (right; right; left; reflexivity).
  assert (Hl : exchange_locked XADD xadd_ecx_esp = true -> i_mem_address xadd_ecx_esp <> 0) by discriminate.
  assert (Hop : exchange_operands XADD xadd_ecx_esp (en_context (stacked 0x1004)) = Some (4, Reg 1)) by (vm_compute; reflexivity).
  pose proof (exchange_instructions_correct 0 XADD xadd_ecx_esp (stacked 0x1004) 4 (Reg 1) (stacked_ready _) (stacked_regs _ Hv) Hw Hm Hl Hop) as H.
  cbv zeta. set (e' := final _ _) in *. clearbody e'. destruct H as [H | [H _]]; [| discriminate H].
  destruct H as (r & rf & [Hs _] & Ht). cbn [result_in] in Ht. rewrite (track_context _ _ _ Ht), Hs. split; vm_compute; reflexivity.
Defined.

End ExchangeExample.
