(* ===== verification/BitOps.v ===== *)
(** * instructions/bt, bsf, popcnt, shld.hpp: testing, finding and counting bits, double shifts

    BT, BTS, BTR and BTC (bt.hpp) test a bit and set, clear or flip it; with a bit index from a
    register a memory operand is a bit string that extends both ways.  BSF and BSR, as TZCNT and LZCNT
    behind F3 where the host has them (bsf.hpp), POPCNT (popcnt.hpp) and SHLD and SHRD (shld.hpp)
    work on one word.  The files' copies of an operand helper are one definition, the host's feature
    bits are parameters, [rounds] bounds the retries of the locked forms.  The theorems: the bit a BT
    addresses, what the loops find and count, and the shifts as shifts of the two operands joined. *)

From Stdlib Require Import ZArith Bool List Lia.
From stdpp Require Import base tactics list.
From S2P Require Import Prelude CpuDef Flags HostMemory RegionTable RegionSplit Patches PageCache InstCache Machine CpuMemory Registers DispatchHelpers WideMemory Stack Segments Alu Executor Decoder AluDecode InstDecode Operands Unary Shifts Replay Control Move Exchange.

(** ** Decoding *)

Inductive BitTestOperation := BIT_TEST_OP_BT | BIT_TEST_OP_BTS | BIT_TEST_OP_BTR | BIT_TEST_OP_BTC.

Definition bt_operation_of (opcode modrm : Z) : option BitTestOperation :=
  if opcode =? 0xA3 then Some BIT_TEST_OP_BT else if opcode =? 0xAB then Some BIT_TEST_OP_BTS
  else if opcode =? 0xB3 then Some BIT_TEST_OP_BTR else if opcode =? 0xBB then Some BIT_TEST_OP_BTC
  else if opcode =? 0xBA then
    let digit := Z.land (Z.shiftr modrm 3) 0x07 in
    if digit =? 4 then Some BIT_TEST_OP_BT else if digit =? 5 then Some BIT_TEST_OP_BTS
    else if digit =? 6 then Some BIT_TEST_OP_BTR else if digit =? 7 then Some BIT_TEST_OP_BTC else None
  else None.
Definition decode_bt_operation (opcode modrm : Z) : ST CPU_CONTEXT BitTestOperation :=
  match bt_operation_of opcode modrm with
  | Some operation => st_ret operation
  | None => st_modify raise_ud_ctx ;;; st_ret BIT_TEST_OP_BT
  end.
Definition is_bt (operation : BitTestOperation) : bool := match operation with BIT_TEST_OP_BT => true | _ => false end.
Definition bt_operation_allows_lock (operation : BitTestOperation) (modrm : Z) : bool :=
  if is_bt operation then false else negb (modrm_mod modrm =? 3).

Definition decode_modrm_bt := decode_modrm_by LockIgnored.
Definition bt_operands (code : list Z) (inst : DecodedInstruction) (offset : Z) (lock : bool) : ST CPU_CONTEXT (DecodedInstruction * Z * bool) :=
  with_inst_size
    (let* (inst, offset) := decode_modrm_bt code inst offset lock in
     let* (inst, offset, completed) :=
       if i_opcode inst =? 0xBA then
         ud_if ((modrm_digit inst <? 4) || (7 <? modrm_digit inst)) ;;; decode_alu_immediate code inst offset 1
       else st_ret (inst, offset, true) in
     if negb completed then st_ret (inst, offset, false)
     else
       let* operation := decode_bt_operation (i_opcode inst) (i_modrm inst) in
       ud_if (lock && negb (bt_operation_allows_lock operation (i_modrm inst))) ;;;
       st_ret (set_i_has_lock_prefix lock inst, offset, true)).
Definition bt_opcodes (opcode : Z) : bool := one_of opcode [0xA3; 0xAB; 0xB3; 0xBB; 0xBA].
Definition bt_rules : DecoderRules := mkRules false false false false (two_byte_opcode bt_opcodes) bt_operands.
Definition decode_bt_instruction := decode_by bt_rules.

(** SHLD and SHRD: a wrong first byte ends the decoding. *)
Definition shld_opcode (code : list Z) (offset : Z) : ST CPU_CONTEXT (Z * Z * bool) :=
  if size_of code <=? offset + 1 then st_modify (raise_gp_ctx 0) ;;; st_ret (0, offset, false)
  else if negb (byte_at code offset =? 0x0F) then st_modify raise_ud_ctx ;;; st_ret (0, offset + 1, false)
  else st_ret (byte_at code (offset + 1), offset + 2, true).
Definition shld_operands (code : list Z) (inst : DecodedInstruction) (offset : Z) (lock : bool) : ST CPU_CONTEXT (DecodedInstruction * Z * bool) :=
  if one_of (i_opcode inst) [0xA4; 0xA5; 0xAC; 0xAD] then
    let* (inst, offset) := decode_modrm_shl code inst offset lock in
    ud_if lock ;;;
    if one_of (i_opcode inst) [0xA4; 0xAC] then decode_count code inst offset else st_ret (inst, offset, true)
  else st_modify raise_ud_ctx ;;; st_ret (inst, offset, true).
Definition shld_rules : DecoderRules := mkRules false false false false shld_opcode shld_operands.
Definition decode_shld_shrd_instruction := decode_by shld_rules.
Definition decode_shld_instruction := decode_shld_shrd_instruction.
Definition decode_shrd_instruction := decode_shld_shrd_instruction.

(** BSF and POPCNT note F3, and POPCNT F2: where the loop stops, and whether it met LOCK, F3, F2. *)
Fixpoint repeat_prefix_loop (code : list Z) (offset : Z) (lock f3 f2 : bool) : ST CPU_CONTEXT (Z * bool * bool * bool) :=
  match code with
  | [] => st_ret (offset, lock, f3, f2)
  | prefix :: code =>
      if prefix =? 0x66 then st_modify (set_c_operand_size_override true) ;;; repeat_prefix_loop code (offset + 1) lock f3 f2
      else if prefix =? 0x67 then st_modify (set_c_address_size_override true) ;;; repeat_prefix_loop code (offset + 1) lock f3 f2
      else if is_rex_byte prefix then st_modify (set_rex prefix) ;;; repeat_prefix_loop code (offset + 1) lock f3 f2
      else if prefix =? 0xF0 then repeat_prefix_loop code (offset + 1) true f3 f2
      else if prefix =? 0xF3 then repeat_prefix_loop code (offset + 1) lock true f2
      else if prefix =? 0xF2 then repeat_prefix_loop code (offset + 1) lock f3 true
      else if is_segment_prefix prefix then repeat_prefix_loop code (offset + 1) lock f3 f2
      else st_ret (offset, lock, f3, f2)
  end.

(** The sizes, the ModRM byte and the end of both decoders. *)
Definition decode_modrm_bsf := decode_modrm_by LockNever.
Definition decode_modrm_popcnt := decode_modrm_by LockNever.
Definition decode_counting_tail (code : list Z) (inst : DecodedInstruction) (offset : Z) (lock : bool) : ST CPU_CONTEXT DecodedInstruction :=
  let* operand_size := st_gets decoded_operand_size in
  let* address_size := st_gets (decoded_address_size false) in
  let* (inst, offset) := decode_modrm_bsf code (set_i_address_size address_size (set_i_operand_size operand_size inst)) offset lock in
  let* inst := finalize_rip_relative_address offset (set_i_inst_size offset inst) in
  st_modify (set_c_last_inst_size offset) ;;; st_ret inst.

Definition decode_bsf_instruction (code : list Z) : ST CPU_CONTEXT DecodedInstruction :=
  st_modify cpu_reset_prefix_state ;;;
  let* (offset, lock, f3, _) := repeat_prefix_loop code 0 false false false in
  let inst := if f3 then set_i_mandatory_prefix 0xF3 zero_inst else zero_inst in
  if size_of code <=? offset then st_modify (raise_gp_ctx 0) ;;; st_ret inst
  else
    let* (opcode, offset, completed) := two_byte_opcode (fun opcode => one_of opcode [0xBC; 0xBD]) code offset in
    if negb completed then st_ret (set_i_opcode opcode inst) else decode_counting_tail code (set_i_opcode opcode inst) offset lock.

Definition decode_popcnt_instruction (code : list Z) : ST CPU_CONTEXT DecodedInstruction :=
  st_modify cpu_reset_prefix_state ;;;
  let* (offset, lock, has_f3_prefix, has_unsupported_prefix) := repeat_prefix_loop code 0 false false false in
  ud_if (has_unsupported_prefix || negb has_f3_prefix) ;;;
  let* (opcode, offset, completed) := two_bytes_at_once code offset in
  if negb completed then st_ret zero_inst
  else ud_if (negb (opcode =? 0xB8)) ;;; decode_counting_tail code (set_i_opcode opcode zero_inst) offset lock.

(** ** Executing *)

(** [scan_forward_bsf], [count_trailing_zeros_bsf]: upwards from [bit], [otherwise] when none is set. *)
Fixpoint scan_up (fuel : nat) (value bit otherwise : Z) : Z :=
  match fuel with
  | O => otherwise
  | S fuel => if negb (Z.land (Z.shiftr value bit) 0x1 =? 0) then bit else scan_up fuel value (bit + 1) otherwise
  end.
(** [for (bit = operand_size - 1; bit >= 0; bit--)]: [found bit] for the first bit set. *)
Fixpoint scan_down (fuel : nat) (value : Z) (found : Z -> Z) (otherwise : Z) : Z :=
  match fuel with
  | O => otherwise
  | S fuel =>
      let bit := Z.of_nat fuel in
      if negb (Z.land (Z.shiftr value bit) 0x1 =? 0) then found bit else scan_down fuel value found otherwise
  end.
Definition scan_forward_bsf (value operand_size : Z) : Z := scan_up (Z.to_nat operand_size) value 0 0.
Definition scan_reverse_bsf (value operand_size : Z) : Z := scan_down (Z.to_nat operand_size) value (fun bit => bit) 0.
Definition count_trailing_zeros_bsf (value operand_size : Z) : Z := scan_up (Z.to_nat operand_size) value 0 operand_size.
Definition count_leading_zeros_bsf (value operand_size : Z) : Z :=
  scan_down (Z.to_nat operand_size) value (fun bit => operand_size - 1 - bit) operand_size.
Definition popcnt_count_bits (value operand_size : Z) : Z :=
  fold_left (fun count bit => count + Z.land (Z.shiftr value bit) 0x1) (seqZ 0 operand_size) 0.

Definition floor_div_bt_index (value divisor : Z) : Z :=
  if 0 <=? value then value / divisor
  else
    let magnitude := u64 (u64 (- (value + 1)) + 1) in
    - (u64 (magnitude + divisor - 1) / divisor).
Definition add_bt_signed_offset (base byte_offset : Z) : Z :=
  if 0 <=? byte_offset then u64 (base + byte_offset) else u64 (base - u64 (- byte_offset)).

(** The bit changed as the operation says. *)
Definition bt_change (operation : BitTestOperation) (value bit_index : Z) : Z :=
  let bit_mask := u64 (Z.shiftl 1 bit_index) in
  match operation with
  | BIT_TEST_OP_BT => value
  | BIT_TEST_OP_BTS => Z.lor value bit_mask
  | BIT_TEST_OP_BTR => Z.land value (u64 (Z.lnot bit_mask))
  | BIT_TEST_OP_BTC => Z.lxor value bit_mask
  end.
Definition bt_carry (value bit_index : Z) : bool := negb (Z.land (Z.shiftr value bit_index) 0x1 =? 0).

Section execute.
Context `{Callbacks}.
Variable rounds : nat.

(** The sizes these files know; anything else raises #UD. *)
Definition word_size (operand_size : Z) : bool := one_of operand_size [16; 32; 64].
Definition sized {A} (operand_size : Z) (c : ST cpueaxh_engine A) (otherwise : A) : ST cpueaxh_engine A :=
  if word_size operand_size then c else mod_ctx raise_ud_ctx ;;; st_ret otherwise.

Definition get_bt_operand_mask (operand_size : Z) : ST cpueaxh_engine Z := sized operand_size (st_ret (Z.ones operand_size)) 0.
Definition read_bt_memory_value (address operand_size : Z) : ST cpueaxh_engine Z := sized operand_size (read_memory_operand address operand_size) 0.
Definition write_bt_memory_value (address operand_size value : Z) : ST cpueaxh_engine unit :=
  sized operand_size (write_memory_operand address operand_size value) tt.
Definition read_bt_rm_value (modrm mem_addr operand_size : Z) : ST cpueaxh_engine Z := sized operand_size (read_rm operand_size modrm mem_addr) 0.
Definition write_bt_rm_value (modrm mem_addr operand_size value : Z) : ST cpueaxh_engine unit :=
  sized operand_size (write_rm operand_size modrm mem_addr (wrap operand_size value)) tt.
Definition sign_extend_bt_source (value operand_size : Z) : ST cpueaxh_engine Z := sized operand_size (st_ret (sext operand_size value)) 0.
Definition read_bt_source_register (modrm operand_size : Z) : ST cpueaxh_engine Z := sized operand_size (read_reg operand_size modrm) 0.

(** The interlocked bit operations on [n] bytes at a host pointer: the bit before. *)
Definition interlocked_bit (n : nat) (ptr : Z) (operation : BitTestOperation) (bit_index : Z) : ST cpueaxh_engine bool :=
  let* old := st_gets (fun e => load_le n ptr (ms_heap (en_mem e))) in
  store_le (map (ptr_add ptr) (offsets_from 0 (Z.of_nat n))) (bt_change operation old bit_index) ;;;
  st_ret (bt_carry old bit_index).

(** The retry loop; [None] of an exchange: a hook did not return. *)
Fixpoint bt_exchange_loop (fuel : nat) (operation : BitTestOperation) (address operand_size bit_index current_value : Z) : ST cpueaxh_engine unit :=
  match fuel with
  | O => st_ret tt
  | S fuel' =>
      if is_bt operation then mod_ctx raise_ud_ctx
      else
        let carry := bt_carry current_value bit_index in
        let new_value := bt_change operation current_value bit_index in
        let* exchanged := cpu_atomic_compare_exchange_memory fuel address operand_size current_value new_value in
        match exchanged with
        | Some (true, _) => mod_ctx (set_flag RFLAGS_CF carry)
        | Some (false, observed_value) =>
            let* faulted := get_ctx cpu_has_exception in
            if faulted then st_ret tt
            else
              let* mask := cpu_memory_operand_mask operand_size in
              bt_exchange_loop fuel' operation address operand_size bit_index (Z.land (default 0 observed_value) mask)
        | None => st_ret tt
        end
  end.

Definition execute_locked_bt_memory (operation : BitTestOperation) (address operand_size bit_index : Z) : ST cpueaxh_engine unit :=
  let by_exchange :=
    let* read_result := read_memory_operand_checked address operand_size in
    if negb (rr_ok read_result) then st_ret tt
    else
      let* mask := cpu_memory_operand_mask operand_size in
      bt_exchange_loop rounds operation address operand_size bit_index (Z.land (rr_value read_result) mask) in
  let* passthrough := st_gets cpu_is_host_write_passthrough in
  if passthrough then
    let* ptr := get_memory_write_ptr rounds address (operand_size / 8) 0 in
    match ptr with
    | None => st_ret tt
    | Some ptr =>
        if ptr =? NULL then st_ret tt
        else if one_of operand_size [32; 64] then
          if is_bt operation then mod_ctx raise_ud_ctx
          else
            let* carry := interlocked_bit (Z.to_nat (operand_size / 8)) ptr operation bit_index in
            mod_ctx (set_flag RFLAGS_CF carry)
        else by_exchange
    end
  else by_exchange.

(** Where the bit is: the address of its word and its index in it. *)
Definition bt_target (inst : DecodedInstruction) : ST cpueaxh_engine (Z * Z) :=
  let operand_bits := i_operand_size inst in
  if i_opcode inst =? 0xBA then st_ret (i_mem_address inst, u32 (Z.land (Z.land (i_immediate inst) 0xFF) (u64 (operand_bits - 1))))
  else
    let* source := read_bt_source_register (i_modrm inst) operand_bits in
    if modrm_mod (i_modrm inst) =? 3 then st_ret (i_mem_address inst, u32 (Z.land source (u64 (operand_bits - 1))))
    else
      let* source_index := sign_extend_bt_source source operand_bits in
      let element_index := floor_div_bt_index source_index operand_bits in
      let byte_offset := element_index * (operand_bits / 8) in
      st_ret (add_bt_signed_offset (i_mem_address inst) byte_offset, u32 (Z.land (u64 source_index) (u64 (operand_bits - 1)))).

Definition execute_bt_operation (inst : DecodedInstruction) : ST cpueaxh_engine unit :=
  let operand_bits := i_operand_size inst in
  let is_register := modrm_mod (i_modrm inst) =? 3 in
  let* operation := on_ctx (decode_bt_operation (i_opcode inst) (i_modrm inst)) in
  let* operand_mask := get_bt_operand_mask operand_bits in
  let* (target_address, bit_index) := bt_target inst in
  let* value := if is_register then read_bt_rm_value (i_modrm inst) (i_mem_address inst) operand_bits
                else read_bt_memory_value target_address operand_bits in
  let target_value := Z.land value operand_mask in
  let* faulted := get_ctx cpu_has_exception in
  if faulted then st_ret tt
  else
    mod_ctx (set_flag RFLAGS_CF (bt_carry target_value bit_index)) ;;;
    if i_has_lock_prefix inst && negb is_register then execute_locked_bt_memory operation target_address operand_bits bit_index
    else if is_bt operation then st_ret tt
    else
      let result := Z.land (bt_change operation target_value bit_index) operand_mask in
      if is_register then write_bt_rm_value (i_modrm inst) (i_mem_address inst) operand_bits result
      else write_bt_memory_value target_address operand_bits result.
Definition execute_bt_with_decoded := execute_bt_operation.

(** BSF, BSR, TZCNT, LZCNT and POPCNT. *)
Definition write_bit_register (modrm operand_size value : Z) : ST cpueaxh_engine unit :=
  sized operand_size (write_reg operand_size modrm (wrap operand_size value)) tt.

Definition execute_bsf_with_decoded (cpu_has_bmi1_feature cpu_has_lzcnt_feature : bool) (inst : DecodedInstruction) : ST cpueaxh_engine unit :=
  let w := i_operand_size inst in
  let* value := read_bt_rm_value (i_modrm inst) (i_mem_address inst) w in
  let* mask := get_bt_operand_mask w in
  let source := Z.land value mask in
  let* faulted := get_ctx cpu_has_exception in
  if faulted then st_ret tt
  else
    let forward := i_opcode inst =? 0xBC in
    let f3_is_tzcnt_lzcnt :=
      (i_mandatory_prefix inst =? 0xF3) && ((forward && cpu_has_bmi1_feature) || ((i_opcode inst =? 0xBD) && cpu_has_lzcnt_feature)) in
    if f3_is_tzcnt_lzcnt then
      let result := if forward then count_trailing_zeros_bsf source w else count_leading_zeros_bsf source w in
      write_bit_register (i_modrm inst) w result ;;;
      mod_ctx (set_flag RFLAGS_CF (source =? 0)) ;;; mod_ctx (set_flag RFLAGS_ZF (result =? 0))
    else if source =? 0 then mod_ctx (set_flag RFLAGS_ZF true)
    else
      let result := if forward then scan_forward_bsf source w else scan_reverse_bsf source w in
      write_bit_register (i_modrm inst) w result ;;; mod_ctx (set_flag RFLAGS_ZF false).

Definition popcnt_flags (zero : bool) (ctx : CPU_CONTEXT) : CPU_CONTEXT :=
  set_flag RFLAGS_OF false (set_flag RFLAGS_SF false (set_flag RFLAGS_ZF zero
    (set_flag RFLAGS_AF false (set_flag RFLAGS_PF false (set_flag RFLAGS_CF false ctx))))).
Definition execute_popcnt_with_decoded (cpu_has_popcnt_feature : bool) (inst : DecodedInstruction) : ST cpueaxh_engine unit :=
  let w := i_operand_size inst in
  if negb cpu_has_popcnt_feature then mod_ctx raise_ud_ctx
  else
    let* source := read_bt_rm_value (i_modrm inst) (i_mem_address inst) w in
    let* faulted := get_ctx cpu_has_exception in
    if faulted then st_ret tt
    else write_bit_register (i_modrm inst) w (popcnt_count_bits source w) ;;; mod_ctx (popcnt_flags (source =? 0)).

(** SHLD and SHRD. *)
Definition decode_shld_count (inst : DecodedInstruction) : ST cpueaxh_engine Z :=
  if one_of (i_opcode inst) [0xA4; 0xAC] then st_ret (u8 (i_immediate inst))
  else if one_of (i_opcode inst) [0xA5; 0xAD] then get_ctx (fun ctx => get_reg8 ctx REG_RCX)
  else mod_ctx raise_ud_ctx ;;; st_ret 0.

Definition update_flags_shld_shrd (old_value result operand_size count : Z) (is_shrd : bool) (ctx : CPU_CONTEXT) : CPU_CONTEXT :=
  if count =? 0 then ctx
  else
    let carry_bit := if is_shrd then bt_carry old_value (count - 1) else bt_carry old_value (operand_size - count) in
    let ctx := set_flag RFLAGS_CF carry_bit ctx in
    let ctx := if count =? 1
               then set_flag RFLAGS_OF (xorb (has_bits old_value (sign_mask operand_size)) (has_bits result (sign_mask operand_size))) ctx else ctx in
    let ctx := set_flag RFLAGS_SF (has_bits result (sign_mask operand_size)) ctx in
    let ctx := set_flag RFLAGS_ZF (result =? 0) ctx in
    set_flag RFLAGS_PF (calc_parity (u8 result)) ctx.

(** A count above the operand size, which only 16-bit operands have, is reduced to 1 ... size. *)
Definition shld_count (operand_size count : Z) : Z :=
  if operand_size <? count then (if count mod operand_size =? 0 then operand_size else count mod operand_size) else count.
Definition shld_result (is_shrd : bool) (operand_size old_value source count : Z) : Z :=
  if is_shrd then
    (if count =? operand_size then source else Z.lor (Z.shiftr old_value count) (u64 (Z.shiftl source (operand_size - count))))
  else if count =? operand_size then source else Z.lor (u64 (Z.shiftl old_value count)) (Z.shiftr source (operand_size - count)).

Definition shld_shrd_rm (modrm mem_addr operand_size raw_count : Z) (is_shrd : bool) : ST cpueaxh_engine unit :=
  let* mask := get_operand_mask operand_size in
  let count := Z.land raw_count (count_mask operand_size) in
  let* value := read_sized_rm operand_size modrm mem_addr in
  let old_value := Z.land value mask in
  let* faulted := get_ctx cpu_has_exception in
  if faulted then st_ret tt
  else if count =? 0 then st_ret tt
  else
    let* source := read_bt_source_register modrm operand_size in
    let source := Z.land source mask in
    let* faulted := get_ctx cpu_has_exception in
    if faulted then st_ret tt
    else
      let count := shld_count operand_size count in
      let result := Z.land (shld_result is_shrd operand_size old_value source count) mask in
      write_sized_rm operand_size modrm mem_addr result ;;;
      let* faulted := get_ctx cpu_has_exception in
      if faulted then st_ret tt else mod_ctx (update_flags_shld_shrd old_value result operand_size count is_shrd).

Definition execute_double_shift (is_shrd : bool) (inst : DecodedInstruction) : ST cpueaxh_engine unit :=
  let* count := decode_shld_count inst in shld_shrd_rm (i_modrm inst) (i_mem_address inst) (i_operand_size inst) count is_shrd.
Definition execute_shld_with_decoded := execute_double_shift false.
Definition execute_shrd_with_decoded := execute_double_shift true.

Definition execute_bt := execute_decoded decode_bt_instruction execute_bt_with_decoded.
Definition execute_bsf (bmi1 lzcnt : bool) := execute_decoded decode_bsf_instruction (execute_bsf_with_decoded bmi1 lzcnt).
Definition execute_popcnt (popcnt : bool) := execute_decoded decode_popcnt_instruction (execute_popcnt_with_decoded popcnt).
Definition execute_shld := execute_decoded decode_shld_instruction execute_shld_with_decoded.
Definition execute_shrd := execute_decoded decode_shrd_instruction execute_shrd_with_decoded.
Definition execute_bt_fast := execute_as_cached execute_bt_with_decoded.
Definition execute_bsf_fast (bmi1 lzcnt : bool) := execute_as_cached (execute_bsf_with_decoded bmi1 lzcnt).
Definition execute_popcnt_fast (popcnt : bool) := execute_as_cached (execute_popcnt_with_decoded popcnt).
Definition execute_shld_fast := execute_cached execute_shld_with_decoded.
Definition execute_shrd_fast := execute_cached execute_shrd_with_decoded.

End execute.

(** ** What the loops find *)

Lemma bit_set value bit : 0 <= bit -> negb (Z.land (Z.shiftr value bit) 0x1 =? 0) = Z.testbit value bit.
Proof.
  intros Hb. change 0x1 with (Z.ones 1). rewrite Z.land_ones by lia. change (2 ^ 1) with 2. rewrite Zmod_odd, <- Z.bit0_odd, Z.shiftr_spec by lia.
  replace (0 + bit) with bit by lia. by destruct (Z.testbit value bit).
Qed.

(** The lowest and the highest bit set of [w]. *)
Definition lowest_bit (w d r : Z) : Prop := 0 <= r < w /\ Z.testbit d r = true /\ forall i, 0 <= i < r -> Z.testbit d i = false.
Definition highest_bit (w d r : Z) : Prop := 0 <= r < w /\ Z.testbit d r = true /\ forall i, r < i < w -> Z.testbit d i = false.

Lemma scan_up_spec fuel value otherwise : forall bit, 0 <= bit ->
  let r := scan_up fuel value bit otherwise in
  (bit <= r < bit + Z.of_nat fuel /\ Z.testbit value r = true /\ forall i, bit <= i < r -> Z.testbit value i = false) \/
  (r = otherwise /\ forall i, bit <= i < bit + Z.of_nat fuel -> Z.testbit value i = false).
Proof.
  induction fuel as [| fuel IH]; intros bit Hb; cbn [scan_up]; [right; split; [done | intros; lia] |]. rewrite bit_set by done.
  destruct (Z.testbit value bit) eqn:E; [left; split_and!; [lia | lia | done | intros; lia] |].
  destruct (IH (bit + 1) ltac:(lia)) as [(Hr & Ht & Hl) | (Hr & Hl)]; [left | right]; split_and!; try lia; try done;
    intros i Hi; destruct (Z.eq_dec i bit) as [-> |]; try done; apply Hl; lia.
Qed.

Lemma scan_down_spec fuel value found otherwise :
  (exists r, 0 <= r < Z.of_nat fuel /\ scan_down fuel value found otherwise = found r /\ Z.testbit value r = true /\
     forall i, r < i < Z.of_nat fuel -> Z.testbit value i = false) \/
  (scan_down fuel value found otherwise = otherwise /\ forall i, 0 <= i < Z.of_nat fuel -> Z.testbit value i = false).
Proof.
  induction fuel as [| fuel IH]; cbn [scan_down]; [right; split; [done | intros; lia] |]. cbv zeta. rewrite bit_set by lia.
  destruct (Z.testbit value (Z.of_nat fuel)) eqn:E; [left; exists (Z.of_nat fuel); split_and!; [lia | lia | done | done | intros; lia] |].
  destruct IH as [(r & Hr & Hv & Ht & Hl) | (Hv & Hl)]; [left; exists r | right]; split_and!; try lia; try done;
    intros i Hi; destruct (Z.eq_dec i (Z.of_nat fuel)) as [-> |]; try done; apply Hl; lia.
Qed.

Lemma no_bits w d : 0 <= w -> in_word w d -> (forall i, 0 <= i < w -> Z.testbit d i = false) -> d = 0.
Proof.
  intros Hw Hd Hl. apply Z.bits_inj'. intros i Hi. rewrite Z.bits_0. destruct (Z.lt_ge_cases i w); [by apply Hl | by apply (testbit_high w)].
Qed.

Lemma scan_up_lowest w d otherwise : 0 <= w -> in_word w d -> let r := scan_up (Z.to_nat w) d 0 otherwise in if d =? 0 then r = otherwise else lowest_bit w d r.
Proof.
  intros Hw Hd r. pose proof (scan_up_spec (Z.to_nat w) d otherwise 0 ltac:(lia)) as H. fold r in H. cbv zeta in H. rewrite Z2Nat.id in H by lia.
  replace (0 + w) with w in H by lia. destruct H as [(Hr & Ht & Hl) | (Hr & Hl)].
  - destruct (Z.eqb_spec d 0) as [-> |]; [by rewrite Z.bits_0 in Ht | done].
  - by rewrite (no_bits w d Hw Hd Hl).
Qed.

Lemma scan_down_highest w d found otherwise : 0 <= w -> in_word w d ->
  if d =? 0 then scan_down (Z.to_nat w) d found otherwise = otherwise
  else exists r, highest_bit w d r /\ scan_down (Z.to_nat w) d found otherwise = found r.
Proof.
  intros Hw Hd. pose proof (scan_down_spec (Z.to_nat w) d found otherwise) as H. rewrite Z2Nat.id in H by lia.
  destruct H as [(r & Hr & Hv & Ht & Hl) | (Hv & Hl)].
  - destruct (Z.eqb_spec d 0) as [-> |]; [by rewrite Z.bits_0 in Ht |]. by exists r.
  - assert (d = 0) as -> by (by apply (no_bits w)). exact Hv.
Qed.

(** The number of bits set. *)
Definition bit_count (w d : Z) : Z := Z.of_nat (length (filter (fun i => Z.testbit d i = true) (seqZ 0 w))).

Lemma count_fold d l : forall n, Forall (fun i => 0 <= i) l ->
  fold_left (fun count bit => count + Z.land (Z.shiftr d bit) 0x1) l n = n + Z.of_nat (length (filter (fun i => Z.testbit d i = true) l)).
Proof.
  induction l as [| b l IH]; intros n Hl; cbn [fold_left]; [rewrite filter_nil; cbn; lia |]. apply Forall_cons in Hl as [Hb Hl].
  rewrite (IH _ Hl), filter_cons. pose proof (bit_set d b Hb) as Hs.
  assert (Hbit : Z.land (Z.shiftr d b) 0x1 = 0 \/ Z.land (Z.shiftr d b) 0x1 = 1).
  { pose proof (Z.land_ones (Z.shiftr d b) 1 ltac:(lia)) as Hm. change (Z.ones 1) with 1 in Hm. change (2 ^ 1) with 2 in Hm. pose proof (Z.mod_pos_bound (Z.shiftr d b) 2 ltac:(lia)). lia. }
  destruct Hbit as [E | E]; rewrite E in *; cbn in Hs; rewrite <- Hs; case_decide; try done; cbn [length]; lia.
Qed.

Lemma popcnt_count w d : 0 <= w -> popcnt_count_bits d w = bit_count w d.
Proof.
  intros Hw. unfold popcnt_count_bits, bit_count. rewrite count_fold; [done |]. rewrite Forall_forall. intros i Hi%elem_of_seqZ. lia.
Qed.

Lemma bit_count_range w d : 0 <= w -> 0 <= bit_count w d <= w.
Proof.
  intros Hw. unfold bit_count. pose proof (length_filter (fun i => Z.testbit d i = true) (seqZ 0 w)) as H. rewrite length_seqZ in H. lia.
Qed.

(** ** Scanning and counting *)

Inductive scan_op := BSF | BSR | TZCNT | LZCNT | POPCNT.

(** What a nonzero operand gives, and a zero one where it gives something. *)
Definition scan_value (op : scan_op) (w d r : Z) : Prop :=
  match op with
  | BSF => lowest_bit w d r
  | BSR => highest_bit w d r
  | TZCNT => if d =? 0 then r = w else lowest_bit w d r
  | LZCNT => if d =? 0 then r = w else highest_bit w d (w - 1 - r)
  | POPCNT => r = bit_count w d
  end.

Definition scan_flags (op : scan_op) (d r rf : Z) : Z :=
  match op with
  | BSF | BSR => put_bit 6 (d =? 0) rf
  | TZCNT | LZCNT => put_bit 6 (r =? 0) (put_bit 0 (d =? 0) rf)
  | POPCNT => put_bit 11 false (put_bit 7 false (put_bit 6 (d =? 0) (put_bit 4 false (put_bit 2 false (put_bit 0 false rf)))))
  end.

(** BSF and BSR of zero leave their register alone. *)
Definition scan_skips (op : scan_op) (d : Z) : bool := match op with BSF | BSR => d =? 0 | _ => false end.

(** Behind F3, and if the host knows them, BSF and BSR are TZCNT and LZCNT. *)
Definition bsf_op (bmi1 lzcnt : bool) (inst : DecodedInstruction) : scan_op :=
  let f3 := i_mandatory_prefix inst =? 0xF3 in
  if i_opcode inst =? 0xBC then (if f3 && bmi1 then TZCNT else BSF)
  else if f3 && (i_opcode inst =? 0xBD) && lzcnt then LZCNT else BSR.

Section scan.
Context `{Callbacks}.

Definition scan_effect (op : scan_op) (e : cpueaxh_engine) (w reg : Z) (src : operand) (e' : cpueaxh_engine) : Prop :=
  let ctx := en_context e in
  let d := operand_value e w src in
  match operand_fault e w MM_PROT_READ src with
  | Some (ad, v) => abandoned e MM_PROT_READ v ad e'
  | None =>
      if scan_skips op d then on_track e (set_c_rflags (scan_flags op d 0 (c_rflags ctx)) ctx) e'
      else exists r, scan_value op w d r /\ on_track e (set_reg w reg r (set_c_rflags (scan_flags op d r (c_rflags ctx)) ctx)) e'
  end.

Lemma word_size_ok w : word_size w = true -> reg_width w /\ 16 <= w <= 64 /\ in_word w w.
Proof.
  intros Hw. assert (Hcase : w = 16 \/ w = 32 \/ w = 64).
  { unfold word_size, one_of in Hw. cbn [existsb] in Hw. lia. }
  unfold reg_width, in_word. destruct Hcase as [-> | [-> | ->]]; lia.
Qed.

Lemma small_word w r : 16 <= w <= 64 -> 0 <= r <= w -> in_word w r.
Proof.
  intros Hw Hr. split; [lia |]. apply (Z.le_lt_trans _ 64); [lia |]. apply (Z.lt_le_trans _ (2 ^ 16)); [reflexivity | apply Z.pow_le_mono_r; lia].
Qed.

Lemma scan_value_word op w d r : 16 <= w <= 64 -> scan_value op w d r -> in_word w r.
Proof.
  intros Hw Hv. apply small_word; [done |]. destruct op; cbn [scan_value] in Hv; unfold lowest_bit, highest_bit in Hv.
  - lia.
  - lia.
  - destruct (d =? 0); lia.
  - destruct (d =? 0); lia.
  - subst r. pose proof (bit_count_range w d). lia.
Qed.

(** The register, then the flags: in a context on track. *)
Lemma put_then_flags e e1 w modrm r f F : cpu_ready e -> on_track e (en_context e) e1 -> word_size w = true -> in_word w r -> sets_flags f F ->
  on_track e (set_reg w (reg_index modrm (en_context e)) r (set_c_rflags (F (c_rflags (en_context e))) (en_context e)))
    (final (write_bit_register modrm w r ;;; mod_ctx f) e1).
Proof.
  intros Hr Ht Hw Hres Hf. unfold write_bit_register, sized. rewrite Hw, wrap_small by done. unfold write_reg.
  apply (track_mod _ _ _ (fun ctx => set_reg w (reg_index modrm ctx) r ctx)) in Ht. apply (track_mod _ _ _ f) in Ht. cbv beta in Ht.
  rewrite (Hf (set_reg _ _ _ _)) in Ht.
  - by rewrite set_reg_keeps_rflags, set_reg_rflags in Ht.
  - rewrite (plain_has_exception (en_context e)) by apply plain_set_reg. apply Hr.
Qed.

(** Setting flags only. *)
Lemma flags_only e e1 f F : cpu_ready e -> on_track e (en_context e) e1 -> sets_flags f F ->
  on_track e (set_c_rflags (F (c_rflags (en_context e))) (en_context e)) (final (mod_ctx f) e1).
Proof. intros Hr Ht Hf. apply (track_mod _ _ _ f) in Ht. by rewrite (Hf _ (proj2 (proj2 Hr))) in Ht. Qed.

Lemma sets_flags_one k v : sets_flags (set_flag (2 ^ k) v) (put_bit k v).
Proof. exact (sets_flags_put k v _ _ sets_flags_id). Qed.

Lemma popcnt_sets zero : sets_flags (popcnt_flags zero)
  (fun rf => put_bit 11 false (put_bit 7 false (put_bit 6 zero (put_bit 4 false (put_bit 2 false (put_bit 0 false rf)))))).
Proof.
  unfold popcnt_flags. change RFLAGS_CF with (2 ^ 0). change RFLAGS_PF with (2 ^ 2). change RFLAGS_AF with (2 ^ 4). change RFLAGS_ZF with (2 ^ 6).
  change RFLAGS_SF with (2 ^ 7). change RFLAGS_OF with (2 ^ 11). do 6 apply sets_flags_put. apply sets_flags_id.
Qed.

Lemma counting_sets source result : sets_flags (fun ctx => set_flag RFLAGS_ZF (result =? 0) (set_flag RFLAGS_CF (source =? 0) ctx))
  (fun rf => put_bit 6 (result =? 0) (put_bit 0 (source =? 0) rf)).
Proof. change RFLAGS_CF with (2 ^ 0). change RFLAGS_ZF with (2 ^ 6). do 2 apply sets_flags_put. apply sets_flags_id. Qed.

Lemma mod_twice f g (e1 : cpueaxh_engine) : (mod_ctx f ;;; mod_ctx g) e1 = mod_ctx (fun ctx => g (f ctx)) e1.
Proof. unfold mod_ctx, st_modify, st_bind. by destruct e1. Qed.

End scan.

Section scan_theorem.
Context `{Callbacks}.

Definition execute_scan (bmi1 lzcnt : bool) (op : scan_op) (inst : DecodedInstruction) : ST cpueaxh_engine unit :=
  match op with POPCNT => execute_popcnt_with_decoded true inst | _ => execute_bsf_with_decoded bmi1 lzcnt inst end.

(** The part of BSF and its like behind the operand. *)
Lemma bsf_tail bmi1 lzcnt inst e e1 d :
  cpu_ready e -> on_track e (en_context e) e1 -> word_size (i_operand_size inst) = true -> in_word (i_operand_size inst) d ->
  i_opcode inst = 0xBC \/ i_opcode inst = 0xBD ->
  let w := i_operand_size inst in
  let op := bsf_op bmi1 lzcnt inst in
  let ctx := en_context e in
  let forward := i_opcode inst =? 0xBC in
  let e' := final
    (if (i_mandatory_prefix inst =? 0xF3) && ((forward && bmi1) || ((i_opcode inst =? 0xBD) && lzcnt)) then
       let result := if forward then count_trailing_zeros_bsf d w else count_leading_zeros_bsf d w in
       write_bit_register (i_modrm inst) w result ;;;
       mod_ctx (set_flag RFLAGS_CF (d =? 0)) ;;; mod_ctx (set_flag RFLAGS_ZF (result =? 0))
     else if d =? 0 then mod_ctx (set_flag RFLAGS_ZF true)
     else
       let result := if forward then scan_forward_bsf d w else scan_reverse_bsf d w in
       write_bit_register (i_modrm inst) w result ;;; mod_ctx (set_flag RFLAGS_ZF false)) e1 in
  if scan_skips op d then on_track e (set_c_rflags (scan_flags op d 0 (c_rflags ctx)) ctx) e'
  else exists r, scan_value op w d r /\ on_track e (set_reg w (reg_index (i_modrm inst) ctx) r (set_c_rflags (scan_flags op d r (c_rflags ctx)) ctx)) e'.
Proof.
  intros Hr Ht Hw Hd Hop. cbv zeta. destruct (word_size_ok _ Hw) as (_ & Hb & _). set (w := i_operand_size inst) in *.
  pose proof (scan_up_lowest w d 0 ltac:(lia) Hd) as Hup0. pose proof (scan_up_lowest w d w ltac:(lia) Hd) as Hupw. cbv zeta in Hup0, Hupw.
  pose proof (scan_down_highest w d (fun bit => bit) 0 ltac:(lia) Hd) as Hdown0. pose proof (scan_down_highest w d (fun bit => w - 1 - bit) w ltac:(lia) Hd) as Hdownw.
  unfold bsf_op. set (f3 := i_mandatory_prefix inst =? 0xF3). change RFLAGS_ZF with (2 ^ 6).
  assert (Hput : forall r v op', scan_value op' w d r -> on_track e (set_reg w (reg_index (i_modrm inst) (en_context e)) r (set_c_rflags (put_bit 6 v (c_rflags (en_context e))) (en_context e)))
            (final (write_bit_register (i_modrm inst) w r ;;; mod_ctx (set_flag (2 ^ 6) v)) e1)).
  { intros r v op' Hv. apply put_then_flags; [done.. | by apply (scan_value_word op' w d) | apply sets_flags_one]. }
  assert (Hcount : forall r op', scan_value op' w d r -> op' = TZCNT \/ op' = LZCNT ->
     on_track e (set_reg w (reg_index (i_modrm inst) (en_context e)) r (set_c_rflags (scan_flags op' d r (c_rflags (en_context e))) (en_context e)))
       (final (write_bit_register (i_modrm inst) w r ;;; mod_ctx (set_flag RFLAGS_CF (d =? 0)) ;;; mod_ctx (set_flag (2 ^ 6) (r =? 0))) e1)).
  { intros r op' Hv Hop'. pose proof (put_then_flags e e1 w (i_modrm inst) r _ _ Hr Ht Hw (scan_value_word op' w d r Hb Hv) (counting_sets d r)) as H1.
    unfold final, st_bind at 1 in H1. unfold final, st_bind at 1. destruct (write_bit_register (i_modrm inst) w r e1) as [u e2]. rewrite mod_twice.
    by destruct Hop' as [-> | ->]. }
  destruct Hop as [Ho | Ho]; rewrite Ho; cbn [Z.eqb Pos.eqb andb orb]; rewrite ?andb_true_r, ?andb_false_r, ?orb_false_r, ?orb_false_l.
  - destruct (f3 && bmi1); cbn [scan_skips].
    + exists (count_trailing_zeros_bsf d w). assert (Hv : scan_value TZCNT w d (count_trailing_zeros_bsf d w)) by exact Hupw.
      split; [exact Hv |]. apply (Hcount _ TZCNT Hv). by left.
    + destruct (d =? 0) eqn:E; [cbn [scan_flags]; rewrite E; apply flags_only; [done.. | apply sets_flags_one] |].
      exists (scan_forward_bsf d w). assert (Hv : scan_value BSF w d (scan_forward_bsf d w)) by exact Hup0.
      split; [exact Hv |]. cbn [scan_flags]. rewrite E. by apply (Hput _ false BSF).
  - destruct (f3 && lzcnt); cbn [scan_skips].
    + exists (count_leading_zeros_bsf d w). assert (Hv : scan_value LZCNT w d (count_leading_zeros_bsf d w)).
      { cbn [scan_value]. unfold count_leading_zeros_bsf. destruct (d =? 0); [exact Hdownw |]. destruct Hdownw as (r & Hh & ->). by replace (w - 1 - (w - 1 - r)) with r by lia. }
      split; [exact Hv |]. apply (Hcount _ LZCNT Hv). by right.
    + destruct (d =? 0) eqn:E; [cbn [scan_flags]; rewrite E; apply flags_only; [done.. | apply sets_flags_one] |].
      exists (scan_reverse_bsf d w). assert (Hv : scan_value BSR w d (scan_reverse_bsf d w)).
      { cbn [scan_value]. unfold scan_reverse_bsf. destruct Hdown0 as (r & Hh & ->). exact Hh. }
      split; [exact Hv |]. cbn [scan_flags]. rewrite E. by apply (Hput _ false BSR).
Qed.

(** BSF, BSR, TZCNT, LZCNT and POPCNT find and count what the architecture says.  Without hooks,
    for an operand of 16, 32 or 64 bits in a register or memory: one that cannot be read leaves its
    fault pending with memory unchanged.  Otherwise BSF and BSR give the index of the lowest and of
    the highest bit set and set ZF only for a zero operand, for which the register keeps its value;
    TZCNT and LZCNT, which F3 selects where the host has them, give the number of zero bits below the
    lowest and above the highest bit set, the width for zero, with CF for a zero operand and ZF for a
    zero result; POPCNT gives the number of bits set and clears all flags but ZF, set for zero; and
    no other register, flag or byte changes. *)
Theorem bit_scans_correct (bmi1 lzcnt : bool) op inst e
  (Hr : cpu_ready e) (Hwf : regs_wf (en_context e)) (Hw : word_size (i_operand_size inst) = true) (Hm : in_word 64 (i_mem_address inst))
  (Hop : op = POPCNT \/ op = bsf_op bmi1 lzcnt inst /\ (i_opcode inst = 0xBC \/ i_opcode inst = 0xBD)) :
  scan_effect op e (i_operand_size inst) (reg_index (i_modrm inst) (en_context e)) (rm_operand (i_modrm inst) (i_mem_address inst) (en_context e))
    (final (execute_scan bmi1 lzcnt op inst) e).
Proof.
  destruct (word_size_ok _ Hw) as (Hrw & Hb & _). destruct Hop as [-> | [-> Hop]].
  - cbn [execute_scan]. unfold execute_popcnt_with_decoded, read_bt_rm_value, sized, scan_effect. cbn [negb]. cbv zeta. rewrite Hw.
    match goal with |- context [final ?c e] => pattern (final c e) end. apply read_rm_then; [done.. | |].
    + intros ad v e1 Hf Ha. by rewrite Hf.
    + intros d e1 Hf Hd Heq Ht. rewrite Hf, <- Heq. cbn [scan_skips]. exists (bit_count (i_operand_size inst) d). split; [done |].
      rewrite popcnt_count by lia. apply put_then_flags; [done.. | | apply popcnt_sets]. by apply (scan_value_word POPCNT _ d).
  - assert (Hrun : execute_scan bmi1 lzcnt (bsf_op bmi1 lzcnt inst) inst = execute_bsf_with_decoded bmi1 lzcnt inst)
      by (unfold bsf_op; repeat match goal with |- context [if ?b then _ else _] => destruct b end; done).
    rewrite Hrun. unfold execute_bsf_with_decoded, get_bt_operand_mask, read_bt_rm_value, sized, scan_effect. cbv zeta. rewrite Hw.
    match goal with |- context [final (let* value := ?rd in let* mask := st_ret ?m in @?k value mask) e] =>
      change (final (let* value := rd in let* mask := st_ret m in k value mask) e) with (final (let* value := rd in k value m) e) end. cbv beta.
    match goal with |- context [final ?c e] => pattern (final c e) end. apply read_rm_then; [done.. | |].
    + intros ad v e1 Hf Ha. by rewrite Hf.
    + intros d e1 Hf Hd Heq Ht. rewrite Hf, <- Heq. rewrite wrap_ones, wrap_small by (done || lia). by apply bsf_tail.
Qed.

End scan_theorem.

(** ** Double shifts *)

(** Two words as one of twice the width. *)
Definition joined (w hi lo : Z) : Z := lo + 2 ^ w * hi.

Lemma joined_bits w hi lo i : 0 <= w -> in_word w lo -> 0 <= i ->
  Z.testbit (joined w hi lo) i = if i <? w then Z.testbit lo i else Z.testbit hi (i - w).
Proof.
  intros Hw Hl Hi. unfold joined. rewrite <- lor_disjoint by done. rewrite Z.lor_spec, Z.shiftl_spec by lia.
  destruct (Z.ltb_spec i w); [by rewrite (Z.testbit_neg_r hi), orb_false_r by lia | by rewrite (testbit_high w lo) by (done || lia)].
Qed.

(** SHLD moves the destination with the source behind it to the left, SHRD with the source before it
    to the right; CF is the last bit moved out. *)
Definition double_value (is_shrd : bool) (w d s n : Z) : Z :=
  if is_shrd then wrap w (Z.shiftr (joined w s d) n) else wrap w (Z.shiftr (joined w d s) (w - n)).
Definition double_carry (is_shrd : bool) (w d n : Z) : bool := if is_shrd then Z.testbit d (n - 1) else Z.testbit d (w - n).

Definition double_spec (is_shrd : bool) (w n s rf0 d r rf : Z) : Prop :=
  r = double_value is_shrd w d s n /\
  forall i, 0 <= i -> Z.testbit rf i =
    (if i =? 0 then double_carry is_shrd w d n
     else if (i =? 11) && (n =? 1) then xorb (Z.testbit d (w - 1)) (Z.testbit r (w - 1))
     else if i =? 7 then Z.testbit r (w - 1) else if i =? 6 then r =? 0 else if i =? 2 then even_parity r
     else Z.testbit rf0 i).

(** The count: modulo 32 or 64, and above the width, where only 16-bit operands come, within it. *)
Definition double_count (w raw : Z) : Z := raw mod (if w =? 64 then 64 else 32).

Lemma shld_result_value is_shrd w d s n : 8 <= w <= 64 -> in_word w d -> in_word w s -> 0 < n <= w ->
  Z.land (shld_result is_shrd w d s n) (Z.ones w) = double_value is_shrd w d s n.
Proof.
  intros Hw Hd Hs Hn. rewrite wrap_ones by lia. apply Z.bits_inj'. intros i Hi. unfold shld_result, double_value.
  destruct (Z.eqb_spec n w) as [-> |]; destruct is_shrd; rewrite ?Z.sub_diag, !testbit_wrap by lia; bit_cases; try done;
    rewrite ?Z.lor_spec, ?testbit_wrap, ?Z.shiftr_spec, ?Z.shiftl_spec, joined_bits by (done || lia);
    bit_cases; rewrite ?(Z.testbit_neg_r _ (i - _)), ?(testbit_high w d), ?(testbit_high w s), ?orb_false_r, ?orb_false_l by (done || lia);
    try done; try lia; f_equal; lia.
Qed.

Lemma shld_count_range w raw : reg_width w -> w <> 8 -> let n := double_count w raw in
  Z.land raw (count_mask w) = n /\ 0 <= n < 64 /\ (n <> 0 -> 0 < shld_count w n <= w).
Proof.
  intros Hw H8. cbv zeta. assert (Hn : Z.land raw (count_mask w) = double_count w raw) by exact (masked_count SHL w raw Hw I).
  assert (Hr : 0 <= double_count w raw < 64 /\ (w <> 64 -> double_count w raw < 32)).
  { unfold double_count. destruct (Z.eqb_spec w 64); (split; [zdiv | intros ?; try done; zdiv]). }
  split_and!; [done | lia | lia |]. intros Hnz. unfold shld_count. destruct (Z.ltb_spec w (double_count w raw)); [| lia].
  assert (Hw16 : w = 16) by (destruct Hw as [-> | [-> | [-> | ->]]]; lia). subst w.
  destruct (Z.eqb_spec (double_count 16 raw mod 16) 0); [lia |]. pose proof (Z.mod_pos_bound (double_count 16 raw) 16). lia.
Qed.

Section double.
Context `{Callbacks}.

Definition double_flags (is_shrd : bool) (w d r n : Z) : Z -> Z :=
  shifted_flags SHL n (double_carry is_shrd w d n) (has_bits r (sign_mask w)) (r =? 0) (calc_parity (u8 r))
    (xorb (has_bits d (sign_mask w)) (has_bits r (sign_mask w))).

Lemma double_flags_pending is_shrd w d r n ctx : cpu_has_exception ctx = true -> update_flags_shld_shrd d r w n is_shrd ctx = ctx.
Proof.
  intros Hx. unfold update_flags_shld_shrd. cbv zeta. destruct (n =? 0), (n =? 1); try done;
    rewrite !set_flag_pending by (rewrite ?set_flag_has_exception; exact Hx); reflexivity.
Qed.

Lemma double_flags_set is_shrd w d r n : 0 < n <= w -> sets_flags (update_flags_shld_shrd d r w n is_shrd) (double_flags is_shrd w d r n).
Proof.
  intros Hn ctx Hx. unfold update_flags_shld_shrd, double_flags, shifted_flags, double_carry, bt_carry. cbv zeta. replace (n =? 0) with false by lia.
  rewrite !bit_set by lia. cbn [is_rotate]. change RFLAGS_CF with (2 ^ 0). change RFLAGS_PF with (2 ^ 2). change RFLAGS_ZF with (2 ^ 6).
  change RFLAGS_SF with (2 ^ 7). change RFLAGS_OF with (2 ^ 11). destruct is_shrd, (n =? 1);
    repeat (rewrite set_flag_put by (rewrite ?set_flag_has_exception; exact Hx)); reflexivity.
Qed.

Lemma double_spec_holds is_shrd w d s n rf0 : 8 <= w -> in_word w d -> in_word w (double_value is_shrd w d s n) ->
  double_spec is_shrd w n s rf0 d (double_value is_shrd w d s n) (double_flags is_shrd w d (double_value is_shrd w d s n) n rf0).
Proof.
  intros Hw Hd Hr. split; [done |]. intros i Hi. unfold double_flags. rewrite shifted_flags_bits by done. cbn [is_rotate].
  by rewrite !sign_bit_of, calc_parity_u8 by lia.
Qed.

(** Nothing more happens once the store has faulted. *)
Lemma flags_unless_faulted (f : CPU_CONTEXT -> CPU_CONTEXT) (e1 : cpueaxh_engine) : (forall ctx, cpu_has_exception ctx = true -> f ctx = ctx) ->
  (let* faulted := get_ctx cpu_has_exception in if faulted then st_ret tt else mod_ctx f) e1 = mod_ctx f e1.
Proof.
  intros Hf. unfold st_bind, get_ctx, mod_ctx, st_gets, st_modify. destruct (cpu_has_exception (en_context e1)) eqn:Hx; [| done].
  rewrite Hf by done. by rewrite set_own_context.
Qed.

(** What SHLD and SHRD end with; a count of 0 still reads the operand. *)
Definition double_outcome (is_shrd : bool) (e : cpueaxh_engine) (w n s : Z) (dst : operand) (e' : cpueaxh_engine) : Prop :=
  if n =? 0 then
    match operand_fault e w MM_PROT_READ dst with
    | Some (ad, v) => abandoned e MM_PROT_READ v ad e'
    | None => same_cpu e e'
    end
  else rmw_effect e w dst (double_spec is_shrd w (shld_count w n) s (c_rflags (en_context e))) e'.

Definition shld_raw (inst : DecodedInstruction) (ctx : CPU_CONTEXT) : option Z :=
  if one_of (i_opcode inst) [0xA4; 0xAC] then Some (u8 (i_immediate inst))
  else if one_of (i_opcode inst) [0xA5; 0xAD] then Some (get_reg 8 ctx REG_RCX) else None.

Lemma double_tail is_shrd e e1 w modrm mem d s n :
  cpu_ready e -> on_track e (en_context e) e1 -> reg_width w -> in_word 64 mem -> in_word w d -> in_word w s -> 0 < n <= w ->
  let dst := rm_operand modrm mem (en_context e) in
  let result := double_value is_shrd w d s n in
  let e' := final (write_sized_rm w modrm mem result ;;;
                   let* faulted := get_ctx cpu_has_exception in
                   if faulted then st_ret tt else mod_ctx (update_flags_shld_shrd d result w n is_shrd)) e1 in
  match operand_fault e w MM_PROT_WRITE dst with
  | Some (ad, v) => abandoned e MM_PROT_WRITE v ad e'
  | None => exists r rf, double_spec is_shrd w n s (c_rflags (en_context e)) d r rf /\ result_in e (set_c_rflags rf (en_context e)) w dst r e'
  end.
Proof.
  intros Hr Ht Hw Hm Hd Hs Hn dst result. cbv zeta. destruct (reg_width_bounds w Hw) as [Hb _]. unfold write_sized_rm. rewrite (known_width w Hw).
  assert (Hf : forall ctx, cpu_has_exception ctx = true -> update_flags_shld_shrd d result w n is_shrd ctx = ctx) by (intros; by apply double_flags_pending).
  assert (Hrun : final (write_rm w modrm mem result ;;; (let* faulted := get_ctx cpu_has_exception in
      if faulted then st_ret tt else mod_ctx (update_flags_shld_shrd d result w n is_shrd))) e1 =
    final (write_rm w modrm mem result ;;; mod_ctx (update_flags_shld_shrd d result w n is_shrd)) e1).
  { unfold final, st_bind at 1 3. destruct (write_rm w modrm mem result e1) as [u e2]. by rewrite (flags_unless_faulted _ e2 Hf). }
  rewrite Hrun. pose proof (write_then_flags e _ e1 w modrm mem result _ _ Hr (plain_refl _) Ht Hw Hm (keeps_fault_id _ Hf) (double_flags_set is_shrd w d result n Hn)) as Hwr.
  cbv zeta in Hwr. fold dst in Hwr. destruct (operand_fault e w MM_PROT_WRITE dst) as [[ad v] |]; [exact Hwr |].
  exists result, (double_flags is_shrd w d result n (c_rflags (en_context e))). split; [| exact Hwr].
  assert (Hres : in_word w result) by (unfold result, double_value; destruct is_shrd; apply wrap_range; lia). apply double_spec_holds; [lia | done | exact Hres].
Qed.

(** SHLD and SHRD shift two words as one.  Without hooks, for an operand of 16, 32 or 64 bits and a
    count modulo 32 or 64: an operand that cannot be read leaves its fault pending with memory
    unchanged, and a count of 0 changes nothing.  Otherwise the result is the operand's end of both
    words shifted together, CF the last bit moved out, OF for a count of 1 whether the sign changed,
    SF, ZF and PF those of the result; one that cannot be written leaves its fault.  (A 16-bit operand
    and a count above 16, which the architecture leaves undefined, take the count within 1 ... 16.) *)
Theorem double_shifts_correct (is_shrd : bool) inst e raw
  (Hr : cpu_ready e) (Hwf : regs_wf (en_context e)) (Hw : word_size (i_operand_size inst) = true) (Hm : in_word 64 (i_mem_address inst))
  (Hraw : shld_raw inst (en_context e) = Some raw) :
  let w := i_operand_size inst in
  double_outcome is_shrd e w (double_count w raw) (get_reg w (en_context e) (reg_index (i_modrm inst) (en_context e)))
    (rm_operand (i_modrm inst) (i_mem_address inst) (en_context e)) (final (execute_double_shift is_shrd inst) e).
Proof.
  intros w. destruct (word_size_ok _ Hw) as (Hrw & Hb & _). fold w in Hrw, Hb, Hw. set (s := get_reg w (en_context e) _).
  destruct (shld_count_range w raw Hrw ltac:(lia)) as (Hmask & Hn & Hc). assert (Hsw : in_word w s) by (by apply get_reg_in_word).
  assert (Hcount : decode_shld_count inst e = (raw, e)).
  { unfold shld_raw in Hraw. unfold decode_shld_count. destruct (one_of _ [0xA4; 0xAC]); [by injection Hraw as -> |].
    destruct (one_of _ [0xA5; 0xAD]); [by injection Hraw as <- | done]. }
  set (n := double_count w raw) in *. set (dst := rm_operand _ _ _).
  assert (Hrun : final (execute_double_shift is_shrd inst) e =
    final (let* value := read_rm w (i_modrm inst) (i_mem_address inst) in let* faulted := get_ctx cpu_has_exception in if faulted then st_ret tt else
      if n =? 0 then st_ret tt else
        let* source := read_bt_source_register (i_modrm inst) w in
        let* faulted := get_ctx cpu_has_exception in
        if faulted then st_ret tt else
          let old_value := Z.land value (Z.ones w) in
          let result := Z.land (shld_result is_shrd w old_value (Z.land source (Z.ones w)) (shld_count w n)) (Z.ones w) in
          write_sized_rm w (i_modrm inst) (i_mem_address inst) result ;;;
          let* faulted := get_ctx cpu_has_exception in
          if faulted then st_ret tt else mod_ctx (update_flags_shld_shrd old_value result w (shld_count w n) is_shrd)) e).
  { unfold final, execute_double_shift. rewrite (bind_run _ _ _ _ _ Hcount). fold w.
    unfold shld_shrd_rm, get_operand_mask, read_sized_rm. rewrite (known_width w Hrw). cbv zeta. rewrite Hmask. reflexivity. }
  rewrite Hrun. unfold double_outcome, rmw_effect. clear Hrun.
  match goal with |- context [final ?c e] => pattern (final c e) end. apply read_rm_then; [done.. | |].
  - intros ad v e1 Hf Ha. fold dst in Hf. rewrite Hf. by destruct (n =? 0).
  - intros d e1 Hf Hd Heq Ht. fold dst in Hf, Heq. rewrite Hf, <- Heq. destruct (Z.eqb_spec n 0) as [Hn0 | Hn0]; [by apply track_same |].
    cbv zeta. rewrite (wrap_ones w d), wrap_small by (done || lia). unfold read_bt_source_register, sized. rewrite Hw. unfold read_reg, final.
    rewrite !(bind_run _ _ _ _ _ (track_get _ _ _ _ Ht)). fold s. rewrite (wrap_ones w s), (wrap_small w s), shld_result_value by (done || lia || by apply Hc).
    rewrite (proj2 (proj2 Hr)).
    apply double_tail; try done. by apply Hc.
Qed.

End double.

(** ** Bit tests *)

Definition bt_result (operation : BitTestOperation) (d k : Z) : Z :=
  match operation with
  | BIT_TEST_OP_BT => d
  | BIT_TEST_OP_BTS => Z.setbit d k
  | BIT_TEST_OP_BTR => Z.clearbit d k
  | BIT_TEST_OP_BTC => Z.lxor d (2 ^ k)
  end.

Lemma bt_mask k : 0 <= k < 64 -> u64 (Z.shiftl 1 k) = 2 ^ k.
Proof. intros Hk. rewrite Z.shiftl_1_l. apply wrap_small. split; [lia | apply Z.pow_lt_mono_r; lia]. Qed.

Lemma bt_change_result operation w d k : 8 <= w <= 64 -> in_word w d -> 0 <= k < w -> bt_change operation d k = bt_result operation d k.
Proof.
  intros Hw Hd Hk. unfold bt_change, bt_result. rewrite bt_mask by lia. destruct operation; try done; [by rewrite Z.setbit_spec' |].
  apply Z.bits_inj'. intros i Hi. rewrite Z.land_spec, testbit_wrap, Z.lnot_spec, Z.clearbit_eqb, Z.pow2_bits_eqb by lia.
  destruct (Z.eqb_spec k i), (Z.ltb_spec i 64); cbn [negb andb]; rewrite ?andb_true_r, ?andb_false_r; try done; try lia.
  rewrite (testbit_high w d) by (done || lia). done.
Qed.

Lemma bt_result_word operation w d k : in_word w d -> 0 <= k < w -> in_word w (bt_result operation d k).
Proof.
  intros Hd Hk. apply word_of_bits; [lia |]. intros i Hi. unfold bt_result. pose proof (testbit_high w d i ltac:(done) ltac:(lia)) as Hh.
  destruct operation; rewrite ?Z.setbit_eqb, ?Z.clearbit_eqb, ?Z.lxor_spec, ?Z.pow2_bits_eqb by lia; rewrite Hh; try done;
    destruct (Z.eqb_spec k i); try done; lia.
Qed.

Lemma bt_carry_bit d k : 0 <= k -> bt_carry d k = Z.testbit d k.
Proof. intros Hk. by apply bit_set. Qed.

Lemma put_bit_twice k v rf : 0 <= k -> put_bit k v (put_bit k v rf) = put_bit k v rf.
Proof. intros Hk. apply Z.bits_inj'. intros i Hi. rewrite !testbit_put_bit by done. by destruct (i =? k). Qed.

(** The word and the bit: for a bit index from a register a memory operand extends both ways. *)
Definition bt_place (inst : DecodedInstruction) (ctx : CPU_CONTEXT) : operand * Z :=
  let w := i_operand_size inst in
  let rm := rm_operand (i_modrm inst) (i_mem_address inst) ctx in
  let src := get_reg w ctx (reg_index (i_modrm inst) ctx) in
  if i_opcode inst =? 0xBA then (rm, u8 (i_immediate inst) mod w)
  else if modrm_mod (i_modrm inst) =? 3 then (rm, src mod w)
  else (Mem (wrap 64 (i_mem_address inst + w / 8 * (sext w src / w))), sext w src mod w).

Lemma floor_div_spec s w : 16 <= w <= 64 -> - 2 ^ 63 <= s < 2 ^ 63 -> floor_div_bt_index s w = s / w.
Proof.
  intros Hw Hs. unfold floor_div_bt_index. destruct (Z.leb_spec 0 s); [done |].
  assert (Hm : u64 (u64 (- (s + 1)) + 1) = - s) by (rewrite (wrap_small 64 (- (s + 1))) by (split; lia); rewrite wrap_small by (split; lia); lia).
  cbv zeta. rewrite Hm, wrap_small by (split; lia). replace (- s + w - 1) with (w - 1 + - s) by lia.
  pose proof (Z.div_mod s w ltac:(lia)) as Hd. pose proof (Z.mod_pos_bound s w ltac:(lia)) as Hb.
  rewrite <- (Z.div_unique (w - 1 + - s) w (- (s / w)) (w - 1 - s mod w)); lia.
Qed.

Lemma signed_offset base off : in_word 64 base -> - 2 ^ 63 <= off < 2 ^ 63 -> add_bt_signed_offset base off = wrap 64 (base + off).
Proof.
  intros Hb Ho. unfold add_bt_signed_offset. destruct (Z.leb_spec 0 off); [done |]. rewrite (wrap_small 64 (- off)) by (split; lia). f_equal. lia.
Qed.

Section place.
Context `{Callbacks}.

Lemma index_mask w x : word_size w = true -> u32 (Z.land x (u64 (w - 1))) = x mod w.
Proof.
  intros Hw. assert (Hcase : w = 16 \/ w = 32 \/ w = 64) by (unfold word_size, one_of in Hw; cbn [existsb] in Hw; lia).
  assert (Hland : Z.land x (u64 (w - 1)) = x mod w).
  { destruct Hcase as [-> | [-> | ->]]; [change (u64 (16 - 1)) with (Z.ones 4) | change (u64 (32 - 1)) with (Z.ones 5) | change (u64 (64 - 1)) with (Z.ones 6)]; by rewrite Z.land_ones by lia. }
  rewrite Hland. pose proof (Z.mod_pos_bound x w ltac:(lia)). apply wrap_small. split; [lia |]. apply (Z.lt_trans _ 65); [lia | reflexivity].
Qed.

Lemma wrapped_mod w x : word_size w = true -> u64 x mod w = x mod w.
Proof.
  intros Hw. assert (Hcase : w = 16 \/ w = 32 \/ w = 64) by (unfold word_size, one_of in Hw; cbn [existsb] in Hw; lia).
  change (u64 x) with (x mod 2 ^ 64). apply Z.mod_mod_divide.
  destruct Hcase as [-> | [-> | ->]]; [exists (2 ^ 60) | exists (2 ^ 59) | exists (2 ^ 58)]; reflexivity.
Qed.

Lemma bt_target_run inst e : cpu_ready e -> regs_wf (en_context e) -> word_size (i_operand_size inst) = true -> in_word 64 (i_mem_address inst) ->
  let '(dst, k) := bt_place inst (en_context e) in
  exists address, bt_target inst e = ((address, k), e) /\ 0 <= k < i_operand_size inst /\ operand_ok (i_operand_size inst) dst /\
    (if modrm_mod (i_modrm inst) =? 3 then dst = Reg (rm_index (i_modrm inst) (en_context e)) else dst = Mem address).
Proof.
  intros Hr Hwf Hw Hm. destruct (word_size_ok _ Hw) as (Hrw & Hb & _). set (w := i_operand_size inst) in *.
  assert (Hk : forall x, 0 <= x mod w < w) by (intros; apply Z.mod_pos_bound; lia).
  unfold bt_place, bt_target. fold w. cbv zeta. destruct (i_opcode inst =? 0xBA).
  { change (Z.land (i_immediate inst) 0xFF) with (Z.land (i_immediate inst) (Z.ones 8)). rewrite Z.land_ones by lia. change (i_immediate inst mod 2 ^ 8) with (u8 (i_immediate inst)).
    rewrite index_mask by done. exists (i_mem_address inst). split_and!; [done | apply Hk | apply Hk | by apply rm_operand_ok |].
    unfold rm_operand. by destruct (modrm_mod (i_modrm inst) =? 3). }
  unfold read_bt_source_register, sign_extend_bt_source, sized. rewrite Hw. unfold read_reg. rewrite (get_ctx_step e).
  set (src := get_reg w (en_context e) _). assert (Hsw : in_word w src) by (by apply get_reg_in_word).
  destruct (modrm_mod (i_modrm inst) =? 3) eqn:Hmod.
  { rewrite index_mask by done. exists (i_mem_address inst). split_and!; [done | apply Hk | apply Hk | by apply rm_operand_ok |]. unfold rm_operand. by rewrite Hmod. }
  pose proof (sext_range w src ltac:(lia) Hsw) as Hrange. assert (Hle : 2 ^ (w - 1) <= 2 ^ 63) by (apply Z.pow_le_mono_r; lia).
  rewrite (bind_run _ _ e (sext w src) e eq_refl). rewrite index_mask, wrapped_mod, floor_div_spec by (done || lia).
  assert (H8 : w = 8 * (w / 8)) by (assert (Hcase : w = 16 \/ w = 32 \/ w = 64) by (unfold word_size, one_of in Hw; cbn [existsb] in Hw; lia); by destruct Hcase as [-> | [-> | ->]]).
  assert (Hdiv : - 2 ^ 61 <= sext w src / w * (w / 8) < 2 ^ 61).
  { pose proof (Z.div_mod (sext w src) w ltac:(lia)) as Hdm. specialize (Hk (sext w src)). set (q := sext w src / w) in *. nia. }
  rewrite signed_offset by (done || lia). replace (sext w src / w * (w / 8)) with (w / 8 * (sext w src / w)) by lia.
  eexists. split_and!; [reflexivity | apply Hk | apply Hk | apply wrap_range; lia | done].
Qed.

End place.

(** ** The locked forms *)

Section locked.
Context `{Callbacks}.

(** The retry loop is the one of the other locked operations. *)
Lemma bt_loop_is_rmw op k w a : reg_width w -> is_bt op = false -> 0 <= k < w -> forall fuel current e, in_word w current ->
  bt_exchange_loop fuel op a w k current e =
  (let '(r, e') := rmw_loop fuel a w (Z.ones w) (fun v => bt_change op v k) current e in
   match r with Some (true, old, _) => mod_ctx (set_flag RFLAGS_CF (bt_carry old k)) e' | _ => (tt, e') end).
Proof.
  intros Hw Hop Hk. destruct (reg_width_bounds w Hw) as [Hb Hos]. induction fuel as [| fuel IH]; intros current e Hc; [done |]. cbn [bt_exchange_loop rmw_loop].
  rewrite Hop. cbv zeta. rewrite wrap_ones, wrap_small by (first [lia | rewrite (bt_change_result op w) by (done || lia); by apply bt_result_word]).
  unfold st_bind, get_ctx, st_gets.
  destruct (cpu_atomic_compare_exchange_memory _ _ _ _ _ e) as [[[[] observed] |] e1]; [done | | done].
  destruct (cpu_has_exception (en_context e1)); [done |]. rewrite operand_mask_eq by done. apply IH. rewrite wrap_ones by lia. apply wrap_range. lia.
Qed.

Definition bt_by_exchange (rounds : nat) (op : BitTestOperation) (address w k : Z) : ST cpueaxh_engine unit :=
  let* read_result := read_memory_operand_checked address w in
  if negb (rr_ok read_result) then st_ret tt
  else
    let* mask := cpu_memory_operand_mask w in
    bt_exchange_loop rounds op address w k (Z.land (rr_value read_result) mask).

Lemma by_exchange_is_rmw rounds op k w a e : reg_width w -> is_bt op = false -> 0 <= k < w ->
  final (bt_by_exchange rounds op a w k) e =
  final (let* done := cpu_atomic_rmw_memory rounds a w (fun v => bt_change op v k) in
         match done with Some (true, old, new) => mod_ctx (set_flag RFLAGS_CF (bt_carry old k)) | _ => st_ret tt end) e.
Proof.
  intros Hw Hop Hk. destruct (reg_width_bounds w Hw) as [Hb Hos]. unfold final, bt_by_exchange, cpu_atomic_rmw_memory, st_bind. rewrite operand_mask_eq by done.
  destruct (read_memory_operand_checked a w e) as [[[] v] e1]; cbn [rr_ok rr_value negb]; [| done].
  rewrite operand_mask_eq by done. rewrite bt_loop_is_rmw; [| done.. | rewrite wrap_ones by lia; apply wrap_range; lia].
  by destruct (rmw_loop _ _ _ _ _ _ e1) as [[[[[] old] new] |] e2].
Qed.

Variables (rounds : nat) (e : cpueaxh_engine) (ctx : CPU_CONTEXT) (op : BitTestOperation) (w a k : Z).
Let n := w / 8.
Let d := guest_value e a n.
Hypotheses (Hr : cpu_ready e) (Hp : plain (en_context e) ctx) (Hw : word_size w = true) (Ha : in_word 64 a) (Hnz : a <> 0)
  (Hop : is_bt op = false) (Hk : 0 <= k < w) (Hrd : first_fault e a n MM_PROT_READ = None)
  (Hcf : set_flag RFLAGS_CF (Z.testbit d k) ctx = ctx).

(** Refused or done, from a state on track. *)
Definition locked_end (e' : cpueaxh_engine) : Prop :=
  lock_refused e w (Mem a) e' \/ first_fault e a n MM_PROT_WRITE = None /\ result_in e ctx w (Mem a) (bt_result op d k) e'.

Lemma refused_from_track e1 e' : on_track e ctx e1 -> lock_refused e1 w (Mem a) e' -> lock_refused e w (Mem a) e'.
Proof.
  intros Ht (b & v & ad & [= <-] & Hno & Hab). exists a, v, ad. split_and!; [done | | by eapply track_abandoned].
  rewrite (track_first_fault e ctx e1 _ _ _ Hp Ht) in Hno. intros [Hff Hl]. apply Hno. split; [done |].
  apply (same_cpu_one_line (set_en_context ctx e) e1 a n Ht). exact Hl.
Qed.

Lemma result_from_track e1 r e' : on_track e ctx e1 -> stored (set_en_context ctx e1) (hosts_of e1 a n) r e' -> result_in e ctx w (Mem a) r e'.
Proof.
  intros Ht Hst. cbn [result_in]. pose proof (same_cpu_hosts _ _ a n Ht) as Hh. change (hosts_of (set_en_context ctx e)) with (hosts_of e) in Hh.
  rewrite Hh in Hst. apply (same_cpu_stored _ (set_en_context ctx e1)); [| exact Hst]. exact (track_set _ _ ctx _ Ht).
Qed.

Lemma value_on_track e1 : on_track e ctx e1 -> guest_value e1 a n = d.
Proof. intros Ht. exact (same_cpu_guest_value _ _ a n Ht). Qed.

Lemma by_exchange_end e1 : on_track e ctx e1 -> locked_end (final (bt_by_exchange (S rounds) op a w k) e1).
Proof.
  intros Ht. destruct (word_size_ok w Hw) as (Hrw & Hb & _). rewrite by_exchange_is_rmw by done.
  pose proof (track_ready e ctx e1 Hr Hp Ht) as Hr1.
  pose proof (rmw_locked_after rounds a w (fun v => bt_change op v k) (fun old _ => set_flag RFLAGS_CF (bt_carry old k)) e1 Hr1 Hrw Ha Hnz) as Hl.
  cbv zeta in Hl. fold n in Hl. rewrite (value_on_track e1 Ht), (track_first_fault e ctx e1 a n MM_PROT_READ Hp Ht), Hrd in Hl.
  set (e' := final _ e1) in *. clearbody e'. destruct Hl as [Href | (Hd & Hff & Hres)]; [left; by apply (refused_from_track e1) |]. right.
  rewrite (track_first_fault e ctx e1 a n _ Hp Ht) in Hff. split; [done |]. apply (result_from_track e1); [done |]. cbn [result_in] in Hres. fold n in Hres.
  rewrite (track_context _ _ _ Ht), bt_carry_bit, Hcf in Hres by lia.
  rewrite (bt_change_result op w d k), wrap_small in Hres by first [done | lia | by apply bt_result_word]. exact Hres.
Qed.

Lemma locked_bt_end e1 : on_track e ctx e1 -> locked_end (final (execute_locked_bt_memory (S rounds) op a w k) e1).
Proof.
  intros Ht. destruct (word_size_ok w Hw) as (Hrw & Hb & _). destruct (reg_width_bounds w Hrw) as [_ Hos].
  unfold execute_locked_bt_memory. fold (bt_by_exchange (S rounds) op a w k). unfold final. rewrite (bind_run (st_gets cpu_is_host_write_passthrough) _ e1 _ e1 eq_refl).
  destruct (cpu_is_host_write_passthrough e1); [| by apply by_exchange_end]. fold n.
  pose proof (track_ready e ctx e1 Hr Hp Ht) as Hr1. assert (Hn : 0 < n <= 8) by (unfold n; zdiv).
  pose proof (write_ptr_spec rounds e1 a n 0 Hr1 Ha Hnz ltac:(lia)) as Hptr. unfold st_bind at 1.
  destruct (get_memory_write_ptr (S rounds) a n 0 e1) as [r e2].
  destruct Hptr as [(-> & Hnn & Hs & Hl) | (-> & (v & ad & Hv & Hf) & Hno)].
  2: { left. apply (refused_from_track e1); [done |]. exists a, v, ad. split_and!; [done | done | by apply faults_abandoned]. }
  pose proof (same_cpu_trans _ _ _ Ht Hs) as Ht2. destruct (Z.eqb_spec (host_address (en_mem e1) a) NULL); [done |].
  destruct (one_of w [32; 64]); [| by apply by_exchange_end]. rewrite Hop.
  pose proof Hl as [Hff Hline]. pose proof (host_word _ _ (proj1 Hr1) Ha) as [Hhw _].
  assert (Hfw : first_fault e1 a n MM_PROT_WRITE = None) by (unfold first_fault; by rewrite offsets_0).
  assert (Hval : load_le (Z.to_nat n) (host_address (en_mem e1) a) (ms_heap (en_mem e2)) = d).
  { rewrite (same_cpu_heap _ _ Hs), (load_in_line e1 a MM_PROT_WRITE) by (done || lia || apply Hr1). by apply value_on_track. }
  assert (Hhosts : map (ptr_add (host_address (en_mem e1) a)) (offsets_from 0 n) = hosts_of e1 a n).
  { unfold hosts_of. apply map_ext_in. intros i Hi. rewrite offsets_0 in Hi. apply list_elem_of_In, elem_of_seqZ in Hi. symmetry. apply Hline. lia. }
  pose proof (guest_value_wrap e a w MM_PROT_READ (proj1 Hr) Hos Hrd) as Hgw. fold n d in Hgw.
  assert (Hd : in_word w d) by (rewrite <- Hgw; apply wrap_range; lia).
  unfold interlocked_bit, st_bind, st_gets. rewrite Z2Nat.id by lia. rewrite Hval, Hhosts, (bt_change_result op w d k), bt_carry_bit by (done || lia).
  assert (Hm2 : manager_wf (en_mem e2)) by (destruct Hs as (m & -> & _ & ?); done).
  pose proof (store_le_spec (hosts_of e1 a n) (bt_result op d k) e2 Hm2) as Hst. unfold final in Hst.
  destruct (store_le (hosts_of e1 a n) (bt_result op d k) e2) as [u e3]. cbn [snd] in Hst.
  pose proof (same_cpu_stored _ _ _ _ _ Hs Hst) as Hst1. right. rewrite (track_first_fault e ctx e1 a n _ Hp Ht) in Hfw. split; [done |].
  apply (result_from_track e1); [done |]. unfold st_ret, mod_ctx, st_modify. cbn [snd]. rewrite (stored_context _ _ _ _ Hst1), (track_context _ _ _ Ht), Hcf.
  rewrite <- (set_own_context e1) in Hst1 at 1. exact (stored_set_context _ _ _ _ _ _ Hst1).
Qed.

End locked.

Section bt_theorem.
Context `{Callbacks}.

(** Bits of a little-endian number are bits of its bytes. *)
Lemma le_combine_bit l : bytes_ok l -> forall k, 0 <= k -> Z.testbit (le_combine l) k = Z.testbit (nth (Z.to_nat (k / 8)) l 0) (k mod 8).
Proof.
  induction 1 as [| b l Hb Hl IH]; intros k Hk.
  - cbn [le_combine]. by rewrite nth_overflow, !Z.bits_0 by (cbn; lia).
  - cbn [le_combine]. replace (b + 256 * le_combine l) with (joined 8 (le_combine l) b) by (unfold joined; lia).
    rewrite joined_bits by (done || lia). destruct (Z.ltb_spec k 8).
    + rewrite Z.div_small, Z.mod_small by lia. done.
    + replace (Z.to_nat (k / 8)) with (S (Z.to_nat ((k - 8) / 8))) by zdiv. cbn [nth]. rewrite IH by lia. f_equal. zdiv.
Qed.

Lemma guest_value_bit e a n k acc : manager_wf (en_mem e) -> first_fault e a n acc = None -> 0 <= k < 8 * n ->
  Z.testbit (guest_value e a n) k = Z.testbit (guest_byte e (at_off a (k / 8))) (k mod 8).
Proof.
  intros Hm Hf Hk. rewrite guest_bytes_value, le_combine_bit by (by eapply guest_bytes_range || lia). f_equal. unfold guest_bytes.
  rewrite nth_offsets by zdiv. f_equal. f_equal. zdiv.
Qed.

Definition bt_effect (op : BitTestOperation) (e : cpueaxh_engine) (w : Z) (dst : operand) (k : Z) (e' : cpueaxh_engine) : Prop :=
  let ctx := en_context e in
  let d := operand_value e w dst in
  let ctx' := set_c_rflags (put_bit 0 (Z.testbit d k) (c_rflags ctx)) ctx in
  match operand_fault e w MM_PROT_READ dst with
  | Some (ad, v) => abandoned e MM_PROT_READ v ad e'
  | None =>
      if is_bt op then on_track e ctx' e'
      else match operand_fault e w MM_PROT_WRITE dst with
           | Some (ad, v) => abandoned e MM_PROT_WRITE v ad e'
           | None => result_in e ctx' w dst (bt_result op d k) e'
           end
  end.

Definition bt_locked (inst : DecodedInstruction) : bool := i_has_lock_prefix inst && negb (modrm_mod (i_modrm inst) =? 3).

(** Reading the word where it is. *)
Lemma bt_read inst e e1 address dst : word_size (i_operand_size inst) = true -> on_track e (en_context e) e1 ->
  (if modrm_mod (i_modrm inst) =? 3 then dst = Reg (rm_index (i_modrm inst) (en_context e)) else dst = Mem address) ->
  (if modrm_mod (i_modrm inst) =? 3 then read_bt_rm_value (i_modrm inst) (i_mem_address inst) (i_operand_size inst)
   else read_bt_memory_value address (i_operand_size inst)) e1 = read_at (i_operand_size inst) dst e1.
Proof.
  intros Hw Ht Hdst. unfold read_bt_rm_value, read_bt_memory_value, sized. rewrite Hw. unfold read_rm.
  destruct (modrm_mod (i_modrm inst) =? 3); subst dst; [| done]. cbn [read_at]. unfold get_ctx, st_gets. by rewrite (track_context _ _ _ Ht).
Qed.

Lemma bt_write inst e ctx e1 address dst r : word_size (i_operand_size inst) = true -> on_track e ctx e1 -> plain (en_context e) ctx -> in_word (i_operand_size inst) r ->
  (if modrm_mod (i_modrm inst) =? 3 then dst = Reg (rm_index (i_modrm inst) (en_context e)) else dst = Mem address) ->
  (if modrm_mod (i_modrm inst) =? 3 then write_bt_rm_value (i_modrm inst) (i_mem_address inst) (i_operand_size inst) r
   else write_bt_memory_value address (i_operand_size inst) r) e1 = write_at (i_operand_size inst) dst r e1.
Proof.
  intros Hw Ht Hp Hr Hdst. unfold write_bt_rm_value, write_bt_memory_value, sized. rewrite Hw, wrap_small by done. unfold write_rm.
  destruct (modrm_mod (i_modrm inst) =? 3); subst dst; [| done]. cbn [write_at]. unfold mod_ctx, st_modify, rm_index. rewrite (track_context _ _ _ Ht).
  by destruct (plain_rex _ _ Hp) as (_ & -> & _).
Qed.

(** What follows the read, on track: CF, and the change. *)
Lemma bt_tail rounds op inst e e1 address dst k d :
  cpu_ready e -> on_track e (en_context e) e1 -> word_size (i_operand_size inst) = true -> operand_ok (i_operand_size inst) dst ->
  (if modrm_mod (i_modrm inst) =? 3 then dst = Reg (rm_index (i_modrm inst) (en_context e)) else dst = Mem address) ->
  operand_fault e (i_operand_size inst) MM_PROT_READ dst = None -> d = operand_value e (i_operand_size inst) dst -> in_word (i_operand_size inst) d ->
  0 <= k < i_operand_size inst -> (bt_locked inst = true -> address <> 0 /\ is_bt op = false) ->
  let w := i_operand_size inst in
  let is_register := modrm_mod (i_modrm inst) =? 3 in
  let e' := final
    (mod_ctx (set_flag RFLAGS_CF (bt_carry d k)) ;;;
     if i_has_lock_prefix inst && negb is_register then execute_locked_bt_memory (S rounds) op address w k
     else if is_bt op then st_ret tt
     else
       let result := Z.land (bt_change op d k) (Z.ones w) in
       if is_register then write_bt_rm_value (i_modrm inst) (i_mem_address inst) w result else write_bt_memory_value address w result) e1 in
  bt_effect op e w dst k e' \/ bt_locked inst = true /\ lock_refused e w dst e'.
Proof.
  intros Hr Ht Hw Hok Hdst Hfr -> Hd Hk Hl. cbv zeta. destruct (word_size_ok _ Hw) as (Hrw & Hb & _). set (w := i_operand_size inst) in *.
  set (d := operand_value e w dst) in *. set (rf := put_bit 0 (Z.testbit d k) (c_rflags (en_context e))). set (ctx := set_c_rflags rf (en_context e)).
  rewrite bt_carry_bit by lia. pose proof (track_mod _ _ _ (set_flag RFLAGS_CF (Z.testbit d k)) Ht) as Ht2. change RFLAGS_CF with (2 ^ 0) in *.
  rewrite set_flag_put in Ht2 by apply Hr. fold rf ctx in Ht2. assert (Hp : plain (en_context e) ctx) by apply plain_set_rflags.
  unfold final, st_bind. change (mod_ctx (set_flag (2 ^ 0) (Z.testbit d k)) e1) with (tt, snd (mod_ctx (set_flag (2 ^ 0) (Z.testbit d k)) e1)).
  cbn iota beta. set (e2 := snd (mod_ctx _ e1)) in *. unfold bt_effect. fold d rf ctx. rewrite Hfr. unfold bt_locked in *.
  destruct (i_has_lock_prefix inst && negb (modrm_mod (i_modrm inst) =? 3)) eqn:Hlock.
  - destruct (Hl eq_refl) as [Hnz Hop]. rewrite Hop. apply andb_true_iff in Hlock as [_ Hmod%negb_true_iff]. rewrite Hmod in Hdst. subst dst.
    cbn [operand_fault operand_value operand_ok] in *.
    assert (Hcf : set_flag RFLAGS_CF (Z.testbit (guest_value e address (w / 8)) k) ctx = ctx).
    { change RFLAGS_CF with (2 ^ 0). rewrite set_flag_put by apply Hr. unfold ctx, rf. cbn [c_rflags set_c_rflags]. fold d. rewrite put_bit_twice by lia. reflexivity. }
    destruct (locked_bt_end rounds e ctx op w address k Hr Hp Hw Hok Hnz Hop Hk Hfr Hcf e2 Ht2) as [Href | [Hff Hres]]; [by right |].
    left. by rewrite Hff.
  - left. destruct (is_bt op); [exact Ht2 |]. cbv zeta. rewrite wrap_ones by lia.
    rewrite (bt_change_result op w d k), wrap_small by first [done | lia | by apply bt_result_word].
    pose proof (bt_write inst e ctx e2 address dst _ Hw Ht2 Hp (bt_result_word op w d k Hd Hk) Hdst) as Hwr. fold w in Hwr. rewrite Hwr.
    exact (track_write e ctx e2 w dst (bt_result op d k) Hr Hp Ht2 Hrw Hok).
Qed.

End bt_theorem.

Section bt_correct.
Context `{Callbacks}.

(** In memory, under an index from a register, the bit is that of a bit string around the address. *)
Lemma bt_bit_string inst e dst k : regs_wf (en_context e) -> cpu_ready e -> word_size (i_operand_size inst) = true -> in_word 64 (i_mem_address inst) ->
  i_opcode inst <> 0xBA -> (modrm_mod (i_modrm inst) =? 3) = false -> bt_place inst (en_context e) = (dst, k) ->
  operand_fault e (i_operand_size inst) MM_PROT_READ dst = None ->
  let w := i_operand_size inst in
  let s := sext w (get_reg w (en_context e) (reg_index (i_modrm inst) (en_context e))) in
  Z.testbit (operand_value e w dst) k = Z.testbit (guest_byte e (wrap 64 (i_mem_address inst + s / 8))) (s mod 8).
Proof.
  intros Hwf Hr Hw Hm Hba Hmod Hplace Hf. cbv zeta. destruct (word_size_ok _ Hw) as (Hrw & Hb & _). unfold bt_place in Hplace. rewrite Hmod in Hplace.
  replace (i_opcode inst =? 0xBA) with false in Hplace by lia. cbv zeta in Hplace.
  assert (H8 : i_operand_size inst = 8 * (i_operand_size inst / 8)) by (destruct Hrw as [E | [E | [E | E]]]; rewrite E; reflexivity).
  set (w := i_operand_size inst) in *. set (s := sext w _) in *. injection Hplace as <- <-. cbn [operand_fault operand_value] in *. set (n := w / 8) in *.
  pose proof (Z.mod_pos_bound s w ltac:(lia)) as Hs. rewrite (guest_value_bit e _ n (s mod w) MM_PROT_READ (proj1 Hr) Hf) by lia.
  pose proof (Z.div_mod s w ltac:(lia)) as Hdm. set (q := s / w) in *. set (r := s mod w) in *.
  assert (Hq : s / 8 = n * q + r / 8 /\ s mod 8 = r mod 8).
  { rewrite Hdm, H8. replace (8 * n * q + r) with (r + (n * q) * 8) by lia. rewrite Z.div_add, Z.mod_add by lia. lia. }
  destruct Hq as [-> ->]. do 2 f_equal. unfold at_off. change u64 with (wrap 64). rewrite wrap_add_l by lia. f_equal. lia.
Qed.

(** C40: BT, BTS, BTR and BTC test and change the bit the architecture names.  Without hooks, for an
    operand of 16, 32 or 64 bits: the bit is the index modulo the width, of the register or of the word
    at the address; with an index from a register a memory operand is a bit string that extends both
    ways, and the bit is bit s mod 8 of the byte at the address plus s / 8, rounded down and modulo
    2^64, for the signed index s (the architecture wraps that sum at the address size, which behind an
    address-size prefix is 32 bits; the code does not).  A word that cannot be read, or for the last
    three else written, leaves its fault pending with memory unchanged; otherwise CF is the bit, BTS
    sets it, BTR clears it, BTC flips it, and no other bit, flag, register or byte changes.  With LOCK,
    on memory at an address other than 0 (the locked operations of CpuMemory say why, and what the
    retries do) and not on BT, for which decoding raises #UD, the same happens when no other
    processor interferes, or the access is refused: a fault is pending and memory unchanged. *)
Theorem bit_tests_correct (rounds : nat) op inst e dst k
  (Hr : cpu_ready e) (Hwf : regs_wf (en_context e)) (Hw : word_size (i_operand_size inst) = true) (Hm : in_word 64 (i_mem_address inst))
  (Hop : bt_operation_of (i_opcode inst) (i_modrm inst) = Some op) (Hplace : bt_place inst (en_context e) = (dst, k))
  (Hl : bt_locked inst = true -> dst <> Mem 0 /\ is_bt op = false) :
  let w := i_operand_size inst in
  let e' := final (execute_bt_with_decoded (S rounds) inst) e in
  (bt_effect op e w dst k e' \/ bt_locked inst = true /\ lock_refused e w dst e') /\
  (i_opcode inst <> 0xBA -> (modrm_mod (i_modrm inst) =? 3) = false -> operand_fault e w MM_PROT_READ dst = None ->
   let s := sext w (get_reg w (en_context e) (reg_index (i_modrm inst) (en_context e))) in
   Z.testbit (operand_value e w dst) k = Z.testbit (guest_byte e (wrap 64 (i_mem_address inst + s / 8))) (s mod 8)).
Proof.
  cbv zeta. split; [| intros Hba Hmod Hf; by apply bt_bit_string]. destruct (word_size_ok _ Hw) as (Hrw & Hb & _).
  pose proof (bt_target_run inst e Hr Hwf Hw Hm) as Htarget. rewrite Hplace in Htarget. destruct Htarget as (address & Hrun & Hk & Hok & Hdst).
  unfold execute_bt_with_decoded, execute_bt_operation, final. cbv zeta.
  assert (Hdec : on_ctx (decode_bt_operation (i_opcode inst) (i_modrm inst)) e = (op, e)).
  { unfold decode_bt_operation. rewrite Hop. unfold on_ctx, st_zoom, st_ret. by rewrite set_own_context. }
  rewrite (bind_run _ _ _ _ _ Hdec). unfold get_bt_operand_mask, sized. rewrite Hw. rewrite (bind_run _ _ e (Z.ones (i_operand_size inst)) e eq_refl).
  rewrite (bind_run _ _ _ _ _ Hrun). cbn iota beta. pose proof (bt_read inst e e address dst Hw (track_start e Hr) Hdst) as Hread.
  pose proof (track_read e _ e _ dst Hr (plain_refl _) (track_start e Hr) Hrw Hok) as Hrd. rewrite <- Hread in Hrd.
  destruct (operand_fault e (i_operand_size inst) MM_PROT_READ dst) as [[ad v] |] eqn:Hf; destruct Hrd as (e1 & Hrun1 & He); rewrite (bind_run _ _ _ _ _ Hrun1).
  - left. unfold bt_effect. rewrite Hf. pose proof He as (_ & _ & Hp & _). cbn iota beta.
    rewrite (bind_run (get_ctx cpu_has_exception) _ e1 true e1) by (unfold get_ctx, st_gets; by rewrite Hp). exact He.
  - cbn iota beta. unfold value_in. rewrite set_own_context. rewrite (bind_run _ _ _ _ _ (track_get _ _ _ _ He)), (proj2 (proj2 Hr)).
    pose proof (operand_in_word e _ dst Hr Hwf Hrw Hok Hf) as Hd. rewrite wrap_ones, wrap_small by (done || lia).
    pose proof (bt_tail rounds op inst e e1 address dst k _ Hr He Hw Hok Hdst Hf eq_refl Hd Hk) as Ht. cbv zeta in Ht. unfold final in Ht. apply Ht.
    intros Hlk. destruct (Hl Hlk) as [Hnz Hbt]. split; [| exact Hbt]. intros ->. apply Hnz.
    unfold bt_locked in Hlk. apply andb_true_iff in Hlk as [_ Hmod%negb_true_iff]. by rewrite Hmod in Hdst.
Qed.

End bt_correct.


(** ** A witness *)

Module BitExample.
Import Bump EngineExample MemoryExample StackExample.

(** BTS dword [0x2000], ESP with ESP = -1: the last bit before the address. *)
Definition bts_esp : DecodedInstruction := set_i_mem_address 0x2000 (set_i_operand_size 32 (set_i_modrm 0x20 (set_i_opcode 0xAB zero_inst))).

Lemma bit_tests_correct_witness :
  let e := stacked 0xFFFFFFFF in
  let e' := final (execute_bt_with_decoded 1 bts_esp) e in
  map (fun c => option_map (fun '(b, _, _) => b) (access_view (en_mem e') c)) [0x1FFE; 0x1FFF; 0x2000] = [Some 0; Some 0x80; Some 0] /\
  result_in e (set_c_rflags (put_bit 0 false (c_rflags (en_context e))) (en_context e)) 32 (Mem 0x1FFC) (2 ^ 31) e' /\
  Z.testbit (operand_value e 32 (Mem 0x1FFC)) 31 = Z.testbit (guest_byte e 0x1FFF) 7.
Proof.
  intros e e'. split; [vm_compute; reflexivity |].
  assert (Hv : in_word 64 0xFFFFFFFF) by zcompute. assert (Hm : in_word 64 (i_mem_address bts_esp)) by zcompute.
  assert (Hop : bt_operation_of (i_opcode bts_esp) (i_modrm bts_esp) = Some BIT_TEST_OP_BTS) by (vm_compute; reflexivity).
  assert (Hplace : bt_place bts_esp (en_context e) = (Mem 0x1FFC, 31)) by (vm_compute; reflexivity).
  assert (Hl : bt_locked bts_esp = true -> Mem 0x1FFC <> Mem 0 /\ is_bt BIT_TEST_OP_BTS = false) by discriminate.
  pose proof (bit_tests_correct 0 BIT_TEST_OP_BTS bts_esp e (Mem 0x1FFC) 31 (stacked_ready _) (stacked_regs _ Hv) eq_refl Hm Hop Hplace Hl) as H.
  cbv zeta in H. fold e' in H. clearbody e'. destruct H as [H Hbit]. split.
  - destruct H as [H | [H _]]; [| discriminate H]. unfold bt_effect in H.
    assert (operand_fault e (i_operand_size bts_esp) MM_PROT_READ (Mem 0x1FFC) = None) as E1 by (vm_compute; reflexivity).
    assert (operand_fault e (i_operand_size bts_esp) MM_PROT_WRITE (Mem 0x1FFC) = None) as E2 by (vm_compute; reflexivity).
    assert (operand_value e (i_operand_size bts_esp) (Mem 0x1FFC) = 0) as E3 by (vm_compute; reflexivity).
    cbv zeta in H. rewrite E1, E2, E3 in H. exact H.
  - assert (Hne : i_opcode bts_esp <> 0xBA) by discriminate. specialize (Hbit Hne eq_refl).
    assert (operand_fault e (i_operand_size bts_esp) MM_PROT_READ (Mem 0x1FFC) = None) as E1 by (vm_compute; reflexivity).
    specialize (Hbit E1). exact Hbit.
Defined.

End BitExample.
