(* ===== verification/ApiContext.v ===== *)
(** * cpueaxh.cpp: registers and contexts for the embedding program

    The embedding program reads and writes the CPU through register numbers ([cpueaxh_reg_read],
    [cpueaxh_reg_write]) or as a whole ([cpueaxh_context_read], [cpueaxh_context_write]).  A value
    is a buffer of the caller: [Buffer] is host memory behind a pointer or a local variable of a
    calling function; a read gives the bytes it puts at the start of the buffer.  The theorems: every
    register number names one slot of the context, writing it and reading it back gives the bytes
    written, cut to what the slot can hold, and no other slot changes; contexts round-trip; and
    writing the code segment's mode bits by register number leaves the cached decoding mode stale. *)

From Stdlib Require Import ZArith Bool List Lia.
From stdpp Require Import base tactics list gmap.
From S2P Require Import Prelude CpuDef HostMemory RegionTable InstCache Machine CpuMemory Registers.

(** ** Register numbers (cpueaxh.hpp) *)

Definition CPUEAXH_X86_REG_RAX : Z := 0.
Definition CPUEAXH_X86_REG_RCX : Z := 1.
Definition CPUEAXH_X86_REG_RDX : Z := 2.
Definition CPUEAXH_X86_REG_RBX : Z := 3.
Definition CPUEAXH_X86_REG_RSP : Z := 4.
Definition CPUEAXH_X86_REG_RBP : Z := 5.
Definition CPUEAXH_X86_REG_RSI : Z := 6.
Definition CPUEAXH_X86_REG_RDI : Z := 7.
Definition CPUEAXH_X86_REG_R8 : Z := 8.
Definition CPUEAXH_X86_REG_R9 : Z := 9.
Definition CPUEAXH_X86_REG_R10 : Z := 10.
Definition CPUEAXH_X86_REG_R11 : Z := 11.
Definition CPUEAXH_X86_REG_R12 : Z := 12.
Definition CPUEAXH_X86_REG_R13 : Z := 13.
Definition CPUEAXH_X86_REG_R14 : Z := 14.
Definition CPUEAXH_X86_REG_R15 : Z := 15.
Definition CPUEAXH_X86_REG_RIP : Z := 16.
Definition CPUEAXH_X86_REG_EFLAGS : Z := 17.
Definition CPUEAXH_X86_REG_GS_SELECTOR : Z := 18.
Definition CPUEAXH_X86_REG_GS_BASE : Z := 19.
Definition CPUEAXH_X86_REG_CPL : Z := 20.
Definition CPUEAXH_X86_REG_CR0 : Z := 21.
Definition CPUEAXH_X86_REG_CR2 : Z := 22.
Definition CPUEAXH_X86_REG_CR3 : Z := 23.
Definition CPUEAXH_X86_REG_CR4 : Z := 24.
Definition CPUEAXH_X86_REG_CR8 : Z := 25.
Definition CPUEAXH_X86_REG_XMM0 : Z := 26.
Definition CPUEAXH_X86_REG_XMM1 : Z := 27.
Definition CPUEAXH_X86_REG_XMM2 : Z := 28.
Definition CPUEAXH_X86_REG_XMM3 : Z := 29.
Definition CPUEAXH_X86_REG_XMM4 : Z := 30.
Definition CPUEAXH_X86_REG_XMM5 : Z := 31.
Definition CPUEAXH_X86_REG_XMM6 : Z := 32.
Definition CPUEAXH_X86_REG_XMM7 : Z := 33.
Definition CPUEAXH_X86_REG_XMM8 : Z := 34.
Definition CPUEAXH_X86_REG_XMM9 : Z := 35.
Definition CPUEAXH_X86_REG_XMM10 : Z := 36.
Definition CPUEAXH_X86_REG_XMM11 : Z := 37.
Definition CPUEAXH_X86_REG_XMM12 : Z := 38.
Definition CPUEAXH_X86_REG_XMM13 : Z := 39.
Definition CPUEAXH_X86_REG_XMM14 : Z := 40.
Definition CPUEAXH_X86_REG_XMM15 : Z := 41.
Definition CPUEAXH_X86_REG_YMM0 : Z := 42.
Definition CPUEAXH_X86_REG_YMM1 : Z := 43.
Definition CPUEAXH_X86_REG_YMM2 : Z := 44.
Definition CPUEAXH_X86_REG_YMM3 : Z := 45.
Definition CPUEAXH_X86_REG_YMM4 : Z := 46.
Definition CPUEAXH_X86_REG_YMM5 : Z := 47.
Definition CPUEAXH_X86_REG_YMM6 : Z := 48.
Definition CPUEAXH_X86_REG_YMM7 : Z := 49.
Definition CPUEAXH_X86_REG_YMM8 : Z := 50.
Definition CPUEAXH_X86_REG_YMM9 : Z := 51.
Definition CPUEAXH_X86_REG_YMM10 : Z := 52.
Definition CPUEAXH_X86_REG_YMM11 : Z := 53.
Definition CPUEAXH_X86_REG_YMM12 : Z := 54.
Definition CPUEAXH_X86_REG_YMM13 : Z := 55.
Definition CPUEAXH_X86_REG_YMM14 : Z := 56.
Definition CPUEAXH_X86_REG_YMM15 : Z := 57.
Definition CPUEAXH_X86_REG_ZMM0 : Z := 58.
Definition CPUEAXH_X86_REG_ZMM1 : Z := 59.
Definition CPUEAXH_X86_REG_ZMM2 : Z := 60.
Definition CPUEAXH_X86_REG_ZMM3 : Z := 61.
Definition CPUEAXH_X86_REG_ZMM4 : Z := 62.
Definition CPUEAXH_X86_REG_ZMM5 : Z := 63.
Definition CPUEAXH_X86_REG_ZMM6 : Z := 64.
Definition CPUEAXH_X86_REG_ZMM7 : Z := 65.
Definition CPUEAXH_X86_REG_ZMM8 : Z := 66.
Definition CPUEAXH_X86_REG_ZMM9 : Z := 67.
Definition CPUEAXH_X86_REG_ZMM10 : Z := 68.
Definition CPUEAXH_X86_REG_ZMM11 : Z := 69.
Definition CPUEAXH_X86_REG_ZMM12 : Z := 70.
Definition CPUEAXH_X86_REG_ZMM13 : Z := 71.
Definition CPUEAXH_X86_REG_ZMM14 : Z := 72.
Definition CPUEAXH_X86_REG_ZMM15 : Z := 73.
Definition CPUEAXH_X86_REG_K0 : Z := 74.
Definition CPUEAXH_X86_REG_K1 : Z := 75.
Definition CPUEAXH_X86_REG_K2 : Z := 76.
Definition CPUEAXH_X86_REG_K3 : Z := 77.
Definition CPUEAXH_X86_REG_K4 : Z := 78.
Definition CPUEAXH_X86_REG_K5 : Z := 79.
Definition CPUEAXH_X86_REG_K6 : Z := 80.
Definition CPUEAXH_X86_REG_K7 : Z := 81.
Definition CPUEAXH_X86_REG_MM0 : Z := 82.
Definition CPUEAXH_X86_REG_MM1 : Z := 83.
Definition CPUEAXH_X86_REG_MM2 : Z := 84.
Definition CPUEAXH_X86_REG_MM3 : Z := 85.
Definition CPUEAXH_X86_REG_MM4 : Z := 86.
Definition CPUEAXH_X86_REG_MM5 : Z := 87.
Definition CPUEAXH_X86_REG_MM6 : Z := 88.
Definition CPUEAXH_X86_REG_MM7 : Z := 89.
Definition CPUEAXH_X86_REG_MXCSR : Z := 90.
Definition CPUEAXH_X86_REG_ES_SELECTOR : Z := 91.
Definition CPUEAXH_X86_REG_CS_SELECTOR : Z := 92.
Definition CPUEAXH_X86_REG_SS_SELECTOR : Z := 93.
Definition CPUEAXH_X86_REG_DS_SELECTOR : Z := 94.
Definition CPUEAXH_X86_REG_FS_SELECTOR : Z := 95.
Definition CPUEAXH_X86_REG_ES_BASE : Z := 96.
Definition CPUEAXH_X86_REG_CS_BASE : Z := 97.
Definition CPUEAXH_X86_REG_SS_BASE : Z := 98.
Definition CPUEAXH_X86_REG_DS_BASE : Z := 99.
Definition CPUEAXH_X86_REG_FS_BASE : Z := 100.
Definition CPUEAXH_X86_REG_GDTR_BASE : Z := 101.
Definition CPUEAXH_X86_REG_GDTR_LIMIT : Z := 102.
Definition CPUEAXH_X86_REG_LDTR_BASE : Z := 103.
Definition CPUEAXH_X86_REG_LDTR_LIMIT : Z := 104.
Definition CPUEAXH_X86_REG_EXCEPTION_CODE : Z := 105.
Definition CPUEAXH_X86_REG_EXCEPTION_ERROR_CODE : Z := 106.
Definition CPUEAXH_X86_REG_CR1 : Z := 107.
Definition CPUEAXH_X86_REG_CR5 : Z := 108.
Definition CPUEAXH_X86_REG_CR6 : Z := 109.
Definition CPUEAXH_X86_REG_CR7 : Z := 110.
Definition CPUEAXH_X86_REG_CR9 : Z := 111.
Definition CPUEAXH_X86_REG_CR10 : Z := 112.
Definition CPUEAXH_X86_REG_CR11 : Z := 113.
Definition CPUEAXH_X86_REG_CR12 : Z := 114.
Definition CPUEAXH_X86_REG_CR13 : Z := 115.
Definition CPUEAXH_X86_REG_CR14 : Z := 116.
Definition CPUEAXH_X86_REG_CR15 : Z := 117.
Definition CPUEAXH_X86_REG_PROCESSOR_ID : Z := 118.
Definition CPUEAXH_X86_REG_ES_LIMIT : Z := 119.
Definition CPUEAXH_X86_REG_ES_TYPE : Z := 120.
Definition CPUEAXH_X86_REG_ES_DPL : Z := 121.
Definition CPUEAXH_X86_REG_ES_PRESENT : Z := 122.
Definition CPUEAXH_X86_REG_ES_GRANULARITY : Z := 123.
Definition CPUEAXH_X86_REG_ES_DB : Z := 124.
Definition CPUEAXH_X86_REG_ES_LONG_MODE : Z := 125.
Definition CPUEAXH_X86_REG_CS_LIMIT : Z := 126.
Definition CPUEAXH_X86_REG_CS_TYPE : Z := 127.
Definition CPUEAXH_X86_REG_CS_DPL : Z := 128.
Definition CPUEAXH_X86_REG_CS_PRESENT : Z := 129.
Definition CPUEAXH_X86_REG_CS_GRANULARITY : Z := 130.
Definition CPUEAXH_X86_REG_CS_DB : Z := 131.
Definition CPUEAXH_X86_REG_CS_LONG_MODE : Z := 132.
Definition CPUEAXH_X86_REG_SS_LIMIT : Z := 133.
Definition CPUEAXH_X86_REG_SS_TYPE : Z := 134.
Definition CPUEAXH_X86_REG_SS_DPL : Z := 135.
Definition CPUEAXH_X86_REG_SS_PRESENT : Z := 136.
Definition CPUEAXH_X86_REG_SS_GRANULARITY : Z := 137.
Definition CPUEAXH_X86_REG_SS_DB : Z := 138.
Definition CPUEAXH_X86_REG_SS_LONG_MODE : Z := 139.
Definition CPUEAXH_X86_REG_DS_LIMIT : Z := 140.
Definition CPUEAXH_X86_REG_DS_TYPE : Z := 141.
Definition CPUEAXH_X86_REG_DS_DPL : Z := 142.
Definition CPUEAXH_X86_REG_DS_PRESENT : Z := 143.
Definition CPUEAXH_X86_REG_DS_GRANULARITY : Z := 144.
Definition CPUEAXH_X86_REG_DS_DB : Z := 145.
Definition CPUEAXH_X86_REG_DS_LONG_MODE : Z := 146.
Definition CPUEAXH_X86_REG_FS_LIMIT : Z := 147.
Definition CPUEAXH_X86_REG_FS_TYPE : Z := 148.
Definition CPUEAXH_X86_REG_FS_DPL : Z := 149.
Definition CPUEAXH_X86_REG_FS_PRESENT : Z := 150.
Definition CPUEAXH_X86_REG_FS_GRANULARITY : Z := 151.
Definition CPUEAXH_X86_REG_FS_DB : Z := 152.
Definition CPUEAXH_X86_REG_FS_LONG_MODE : Z := 153.
Definition CPUEAXH_X86_REG_GS_LIMIT : Z := 154.
Definition CPUEAXH_X86_REG_GS_TYPE : Z := 155.
Definition CPUEAXH_X86_REG_GS_DPL : Z := 156.
Definition CPUEAXH_X86_REG_GS_PRESENT : Z := 157.
Definition CPUEAXH_X86_REG_GS_GRANULARITY : Z := 158.
Definition CPUEAXH_X86_REG_GS_DB : Z := 159.
Definition CPUEAXH_X86_REG_GS_LONG_MODE : Z := 160.

(** ** The public context.  Its reserved fields are always written 0 and never read: they are left out. *)

Record cpueaxh_x86_xmm := mkXXmm { xx_low : Z; xx_high : Z }.
Record cpueaxh_x86_ymm := mkXYmm { xy_lower : cpueaxh_x86_xmm; xy_upper : cpueaxh_x86_xmm }.
Record cpueaxh_x86_zmm := mkXZmm { xz_lower : cpueaxh_x86_ymm; xz_upper : cpueaxh_x86_ymm }.

Record cpueaxh_x86_segment_descriptor := mkXDesc {
  xd_base : Z; xd_limit : Z; xd_type : Z; xd_dpl : Z;
  xd_present : Z; xd_granularity : Z; xd_db : Z; xd_long_mode : Z;
}.

Record cpueaxh_x86_segment := mkXSeg { xs_selector : Z; xs_descriptor : cpueaxh_x86_segment_descriptor }.

Record cpueaxh_x86_context := mkXCtx {
  x_regs : list Z;
  x_rip : Z;
  x_rflags : Z;
  x_xmm : list XMMRegister;
  x_ymm_upper : list XMMRegister;
  x_zmm_upper : list ZMMUpperRegister;
  x_opmask : list Z;
  x_mm : list Z;
  x_mxcsr : Z;
  x_es : cpueaxh_x86_segment;
  x_cs : cpueaxh_x86_segment;
  x_ss : cpueaxh_x86_segment;
  x_ds : cpueaxh_x86_segment;
  x_fs : cpueaxh_x86_segment;
  x_gs : cpueaxh_x86_segment;
  x_gdtr_base : Z;
  x_gdtr_limit : Z;
  x_ldtr_base : Z;
  x_ldtr_limit : Z;
  x_cpl : Z;
  x_code_exception : Z;
  x_error_code_exception : Z;
  x_internal_bridge_block : Z;
  x_control_regs : list Z;
  x_processor_id : Z;
}.

Definition cpueaxh_copy_segment_out (in_segment : SegmentRegister) : cpueaxh_x86_segment :=
  let d := seg_descriptor in_segment in
  mkXSeg (seg_selector in_segment)
    (mkXDesc (sd_base d) (sd_limit d) (sd_type d) (sd_dpl d)
       (b2z (sd_present d)) (b2z (sd_granularity d)) (b2z (sd_db d)) (b2z (sd_long_mode d))).

Definition nonzero (z : Z) : bool := negb (z =? 0).

Definition cpueaxh_copy_segment_in (in_segment : cpueaxh_x86_segment) : SegmentRegister :=
  let d := xs_descriptor in_segment in
  mkSeg (xs_selector in_segment)
    (mkDesc (xd_base d) (xd_limit d) (xd_type d) (xd_dpl d)
       (nonzero (xd_present d)) (nonzero (xd_granularity d)) (nonzero (xd_db d)) (nonzero (xd_long_mode d))).

Definition cpueaxh_copy_xmm_out (in_xmm : XMMRegister) : cpueaxh_x86_xmm := mkXXmm (xmm_low in_xmm) (xmm_high in_xmm).
Definition cpueaxh_copy_xmm_in (in_xmm : cpueaxh_x86_xmm) : XMMRegister := mkXmm (xx_low in_xmm) (xx_high in_xmm).

Definition cpueaxh_copy_ymm_out (lower upper : XMMRegister) : cpueaxh_x86_ymm :=
  mkXYmm (cpueaxh_copy_xmm_out lower) (cpueaxh_copy_xmm_out upper).
Definition cpueaxh_copy_ymm_in (in_ymm : cpueaxh_x86_ymm) : XMMRegister * XMMRegister :=
  (cpueaxh_copy_xmm_in (xy_lower in_ymm), cpueaxh_copy_xmm_in (xy_upper in_ymm)).

Definition cpueaxh_copy_zmm_out (lower0 lower1 : XMMRegister) (upper : ZMMUpperRegister) : cpueaxh_x86_zmm :=
  mkXZmm (cpueaxh_copy_ymm_out lower0 lower1) (cpueaxh_copy_ymm_out (zmmu_lower upper) (zmmu_upper upper)).
Definition cpueaxh_copy_zmm_in (in_zmm : cpueaxh_x86_zmm) : XMMRegister * XMMRegister * ZMMUpperRegister :=
  let '(lower0, lower1) := cpueaxh_copy_ymm_in (xz_lower in_zmm) in
  let '(upper0, upper1) := cpueaxh_copy_ymm_in (xz_upper in_zmm) in
  (lower0, lower1, mkZmmU upper0 upper1).

(** The number of the segment ([SEG_ES] ...) whose register the source returns a pointer to. *)
Definition cpueaxh_select_segment (regid : Z) : option Z :=
  if one_of regid [CPUEAXH_X86_REG_ES_SELECTOR; CPUEAXH_X86_REG_ES_BASE; CPUEAXH_X86_REG_ES_LIMIT; CPUEAXH_X86_REG_ES_TYPE;
      CPUEAXH_X86_REG_ES_DPL; CPUEAXH_X86_REG_ES_PRESENT; CPUEAXH_X86_REG_ES_GRANULARITY; CPUEAXH_X86_REG_ES_DB;
      CPUEAXH_X86_REG_ES_LONG_MODE] then Some SEG_ES
  else if one_of regid [CPUEAXH_X86_REG_CS_SELECTOR; CPUEAXH_X86_REG_CS_BASE; CPUEAXH_X86_REG_CS_LIMIT; CPUEAXH_X86_REG_CS_TYPE;
      CPUEAXH_X86_REG_CS_DPL; CPUEAXH_X86_REG_CS_PRESENT; CPUEAXH_X86_REG_CS_GRANULARITY; CPUEAXH_X86_REG_CS_DB;
      CPUEAXH_X86_REG_CS_LONG_MODE] then Some SEG_CS
  else if one_of regid [CPUEAXH_X86_REG_SS_SELECTOR; CPUEAXH_X86_REG_SS_BASE; CPUEAXH_X86_REG_SS_LIMIT; CPUEAXH_X86_REG_SS_TYPE;
      CPUEAXH_X86_REG_SS_DPL; CPUEAXH_X86_REG_SS_PRESENT; CPUEAXH_X86_REG_SS_GRANULARITY; CPUEAXH_X86_REG_SS_DB;
      CPUEAXH_X86_REG_SS_LONG_MODE] then Some SEG_SS
  else if one_of regid [CPUEAXH_X86_REG_DS_SELECTOR; CPUEAXH_X86_REG_DS_BASE; CPUEAXH_X86_REG_DS_LIMIT; CPUEAXH_X86_REG_DS_TYPE;
      CPUEAXH_X86_REG_DS_DPL; CPUEAXH_X86_REG_DS_PRESENT; CPUEAXH_X86_REG_DS_GRANULARITY; CPUEAXH_X86_REG_DS_DB;
      CPUEAXH_X86_REG_DS_LONG_MODE] then Some SEG_DS
  else if one_of regid [CPUEAXH_X86_REG_FS_SELECTOR; CPUEAXH_X86_REG_FS_BASE; CPUEAXH_X86_REG_FS_LIMIT; CPUEAXH_X86_REG_FS_TYPE;
      CPUEAXH_X86_REG_FS_DPL; CPUEAXH_X86_REG_FS_PRESENT; CPUEAXH_X86_REG_FS_GRANULARITY; CPUEAXH_X86_REG_FS_DB;
      CPUEAXH_X86_REG_FS_LONG_MODE] then Some SEG_FS
  else if one_of regid [CPUEAXH_X86_REG_GS_SELECTOR; CPUEAXH_X86_REG_GS_BASE; CPUEAXH_X86_REG_GS_LIMIT; CPUEAXH_X86_REG_GS_TYPE;
      CPUEAXH_X86_REG_GS_DPL; CPUEAXH_X86_REG_GS_PRESENT; CPUEAXH_X86_REG_GS_GRANULARITY; CPUEAXH_X86_REG_GS_DB;
      CPUEAXH_X86_REG_GS_LONG_MODE] then Some SEG_GS
  else None.

(** [context->es] ... by the segment's number, read and written. *)
Definition segment_of (ctx : CPU_CONTEXT) (segment : Z) : SegmentRegister :=
  if segment =? SEG_ES then c_es ctx else if segment =? SEG_CS then c_cs ctx
  else if segment =? SEG_SS then c_ss ctx else if segment =? SEG_DS then c_ds ctx
  else if segment =? SEG_FS then c_fs ctx else c_gs ctx.
Definition set_segment_of (segment : Z) (v : SegmentRegister) (ctx : CPU_CONTEXT) : CPU_CONTEXT :=
  if segment =? SEG_ES then set_c_es v ctx else if segment =? SEG_CS then set_c_cs v ctx
  else if segment =? SEG_SS then set_c_ss v ctx else if segment =? SEG_DS then set_c_ds v ctx
  else if segment =? SEG_FS then set_c_fs v ctx else set_c_gs v ctx.

Inductive CPUEAXH_SEGMENT_FIELD_KIND :=
  | CPUEAXH_SEGMENT_FIELD_SELECTOR
  | CPUEAXH_SEGMENT_FIELD_BASE
  | CPUEAXH_SEGMENT_FIELD_LIMIT
  | CPUEAXH_SEGMENT_FIELD_TYPE
  | CPUEAXH_SEGMENT_FIELD_DPL
  | CPUEAXH_SEGMENT_FIELD_PRESENT
  | CPUEAXH_SEGMENT_FIELD_GRANULARITY
  | CPUEAXH_SEGMENT_FIELD_DB
  | CPUEAXH_SEGMENT_FIELD_LONG_MODE
  | CPUEAXH_SEGMENT_FIELD_NONE.

Definition cpueaxh_segment_field_kind_from_regid (regid : Z) : CPUEAXH_SEGMENT_FIELD_KIND :=
  if one_of regid [CPUEAXH_X86_REG_ES_SELECTOR; CPUEAXH_X86_REG_CS_SELECTOR; CPUEAXH_X86_REG_SS_SELECTOR;
      CPUEAXH_X86_REG_DS_SELECTOR; CPUEAXH_X86_REG_FS_SELECTOR; CPUEAXH_X86_REG_GS_SELECTOR] then CPUEAXH_SEGMENT_FIELD_SELECTOR
  else if one_of regid [CPUEAXH_X86_REG_ES_BASE; CPUEAXH_X86_REG_CS_BASE; CPUEAXH_X86_REG_SS_BASE;
      CPUEAXH_X86_REG_DS_BASE; CPUEAXH_X86_REG_FS_BASE; CPUEAXH_X86_REG_GS_BASE] then CPUEAXH_SEGMENT_FIELD_BASE
  else if one_of regid [CPUEAXH_X86_REG_ES_LIMIT; CPUEAXH_X86_REG_CS_LIMIT; CPUEAXH_X86_REG_SS_LIMIT;
      CPUEAXH_X86_REG_DS_LIMIT; CPUEAXH_X86_REG_FS_LIMIT; CPUEAXH_X86_REG_GS_LIMIT] then CPUEAXH_SEGMENT_FIELD_LIMIT
  else if one_of regid [CPUEAXH_X86_REG_ES_TYPE; CPUEAXH_X86_REG_CS_TYPE; CPUEAXH_X86_REG_SS_TYPE;
      CPUEAXH_X86_REG_DS_TYPE; CPUEAXH_X86_REG_FS_TYPE; CPUEAXH_X86_REG_GS_TYPE] then CPUEAXH_SEGMENT_FIELD_TYPE
  else if one_of regid [CPUEAXH_X86_REG_ES_DPL; CPUEAXH_X86_REG_CS_DPL; CPUEAXH_X86_REG_SS_DPL;
      CPUEAXH_X86_REG_DS_DPL; CPUEAXH_X86_REG_FS_DPL; CPUEAXH_X86_REG_GS_DPL] then CPUEAXH_SEGMENT_FIELD_DPL
  else if one_of regid [CPUEAXH_X86_REG_ES_PRESENT; CPUEAXH_X86_REG_CS_PRESENT; CPUEAXH_X86_REG_SS_PRESENT;
      CPUEAXH_X86_REG_DS_PRESENT; CPUEAXH_X86_REG_FS_PRESENT; CPUEAXH_X86_REG_GS_PRESENT] then CPUEAXH_SEGMENT_FIELD_PRESENT
  else if one_of regid [CPUEAXH_X86_REG_ES_GRANULARITY; CPUEAXH_X86_REG_CS_GRANULARITY; CPUEAXH_X86_REG_SS_GRANULARITY;
      CPUEAXH_X86_REG_DS_GRANULARITY; CPUEAXH_X86_REG_FS_GRANULARITY; CPUEAXH_X86_REG_GS_GRANULARITY]
       then CPUEAXH_SEGMENT_FIELD_GRANULARITY
  else if one_of regid [CPUEAXH_X86_REG_ES_DB; CPUEAXH_X86_REG_CS_DB; CPUEAXH_X86_REG_SS_DB;
      CPUEAXH_X86_REG_DS_DB; CPUEAXH_X86_REG_FS_DB; CPUEAXH_X86_REG_GS_DB] then CPUEAXH_SEGMENT_FIELD_DB
  else if one_of regid [CPUEAXH_X86_REG_ES_LONG_MODE; CPUEAXH_X86_REG_CS_LONG_MODE; CPUEAXH_X86_REG_SS_LONG_MODE;
      CPUEAXH_X86_REG_DS_LONG_MODE; CPUEAXH_X86_REG_FS_LONG_MODE; CPUEAXH_X86_REG_GS_LONG_MODE]
       then CPUEAXH_SEGMENT_FIELD_LONG_MODE
  else CPUEAXH_SEGMENT_FIELD_NONE.

Definition cpueaxh_context_out (in_context : CPU_CONTEXT) : cpueaxh_x86_context :=
  mkXCtx (c_regs in_context) (c_rip in_context) (c_rflags in_context) (c_xmm in_context) (c_ymm_upper in_context)
    (c_zmm_upper in_context) (c_opmask in_context) (c_mm in_context) (c_mxcsr in_context)
    (cpueaxh_copy_segment_out (c_es in_context)) (cpueaxh_copy_segment_out (c_cs in_context))
    (cpueaxh_copy_segment_out (c_ss in_context)) (cpueaxh_copy_segment_out (c_ds in_context))
    (cpueaxh_copy_segment_out (c_fs in_context)) (cpueaxh_copy_segment_out (c_gs in_context))
    (c_gdtr_base in_context) (c_gdtr_limit in_context) (c_ldtr_base in_context) (c_ldtr_limit in_context)
    (c_cpl in_context) (exc_code (c_exception in_context)) (exc_error_code (c_exception in_context)) 0
    (c_control_regs in_context) (c_processor_id in_context).

Definition cpueaxh_context_in (in_context : cpueaxh_x86_context) (out_context : CPU_CONTEXT) : CPU_CONTEXT :=
  let ctx := set_c_regs (x_regs in_context) out_context in
  let ctx := set_c_xmm (x_xmm in_context) ctx in
  let ctx := set_c_ymm_upper (x_ymm_upper in_context) ctx in
  let ctx := set_c_zmm_upper (x_zmm_upper in_context) ctx in
  let ctx := set_c_opmask (x_opmask in_context) ctx in
  let ctx := set_c_mm (x_mm in_context) ctx in
  let ctx := set_c_rip (x_rip in_context) ctx in
  let ctx := set_c_rflags (x_rflags in_context) ctx in
  let ctx := set_c_mxcsr (x_mxcsr in_context) ctx in
  let ctx := set_c_es (cpueaxh_copy_segment_in (x_es in_context)) ctx in
  let ctx := set_c_cs (cpueaxh_copy_segment_in (x_cs in_context)) ctx in
  let ctx := set_c_ss (cpueaxh_copy_segment_in (x_ss in_context)) ctx in
  let ctx := set_c_ds (cpueaxh_copy_segment_in (x_ds in_context)) ctx in
  let ctx := set_c_fs (cpueaxh_copy_segment_in (x_fs in_context)) ctx in
  let ctx := set_c_gs (cpueaxh_copy_segment_in (x_gs in_context)) ctx in
  let ctx := set_c_long_mode_active true ctx in
  let ctx := set_c_cached_mode_key_valid false ctx in
  let ctx := set_c_gdtr_base (x_gdtr_base in_context) ctx in
  let ctx := set_c_gdtr_limit (x_gdtr_limit in_context) ctx in
  let ctx := set_c_ldtr_base (x_ldtr_base in_context) ctx in
  let ctx := set_c_ldtr_limit (x_ldtr_limit in_context) ctx in
  let ctx := set_c_cpl (x_cpl in_context) ctx in
  let ctx := set_c_exception (mkExc (x_code_exception in_context) (x_error_code_exception in_context)) ctx in
  let ctx := set_c_control_regs (x_control_regs in_context) ctx in
  set_c_processor_id (x_processor_id in_context) ctx.

Definition cpueaxh_control_reg_index_from_regid (regid : Z) : Z :=
  if regid =? CPUEAXH_X86_REG_CR0 then 0
  else if regid =? CPUEAXH_X86_REG_CR1 then 1
  else if regid =? CPUEAXH_X86_REG_CR2 then 2
  else if regid =? CPUEAXH_X86_REG_CR3 then 3
  else if regid =? CPUEAXH_X86_REG_CR4 then 4
  else if regid =? CPUEAXH_X86_REG_CR5 then 5
  else if regid =? CPUEAXH_X86_REG_CR6 then 6
  else if regid =? CPUEAXH_X86_REG_CR7 then 7
  else if regid =? CPUEAXH_X86_REG_CR8 then 8
  else if regid =? CPUEAXH_X86_REG_CR9 then 9
  else if regid =? CPUEAXH_X86_REG_CR10 then 10
  else if regid =? CPUEAXH_X86_REG_CR11 then 11
  else if regid =? CPUEAXH_X86_REG_CR12 then 12
  else if regid =? CPUEAXH_X86_REG_CR13 then 13
  else if regid =? CPUEAXH_X86_REG_CR14 then 14
  else if regid =? CPUEAXH_X86_REG_CR15 then 15
  else -1.

(** ** Buffers *)

(** A [void*] argument: host memory behind a pointer ([NULL] = 0), or a local variable holding
    these bytes. *)
Inductive Buffer := HostPtr (ptr : Z) | Local (bytes : list Z).

Definition is_null (buffer : Buffer) : bool := match buffer with HostPtr ptr => ptr =? NULL | Local _ => false end.

Definition buffer_byte (heap : HostHeap) (buffer : Buffer) (index : Z) : Z :=
  match buffer with HostPtr ptr => load (ptr_add ptr index) heap | Local bytes => arr_get 0 bytes index end.

(** [n] bytes of the buffer from [index] on as a little-endian number, and a number's [n] bytes. *)
Definition buffer_le (heap : HostHeap) (buffer : Buffer) (index n : Z) : Z :=
  le_combine (map (buffer_byte heap buffer) (seqZ index n)).

Fixpoint le_split (n : nat) (v : Z) : list Z :=
  match n with O => [] | S n => Z.land v 0xFF :: le_split n (Z.shiftr v 8) end.

(** The bytes of [*reinterpret_cast<uintN_t*>(value) = v] and of the vector structs. *)
Definition out16 (v : Z) : list Z := le_split 2 v.
Definition out32 (v : Z) : list Z := le_split 4 v.
Definition out64 (v : Z) : list Z := le_split 8 v.
Definition out_xmm (v : cpueaxh_x86_xmm) : list Z := out64 (xx_low v) ++ out64 (xx_high v).
Definition out_ymm (v : cpueaxh_x86_ymm) : list Z := out_xmm (xy_lower v) ++ out_xmm (xy_upper v).
Definition out_zmm (v : cpueaxh_x86_zmm) : list Z := out_ymm (xz_lower v) ++ out_ymm (xz_upper v).

(** Writing bytes to a buffer; a local variable is not part of the engine's state. *)
Fixpoint put_bytes (buffer : Buffer) (index : Z) (bytes : list Z) : ST cpueaxh_engine unit :=
  match bytes with
  | [] => st_ret tt
  | byte :: bytes =>
      (match buffer with HostPtr ptr => store_host (ptr_add ptr index) byte | Local _ => st_ret tt end) ;;;
      put_bytes buffer (index + 1) bytes
  end.

(** ** Reading and writing a register *)

Definition xmm_at (ctx : CPU_CONTEXT) (index : Z) : XMMRegister := arr_get zero_xmm (c_xmm ctx) index.
Definition ymm_upper_at (ctx : CPU_CONTEXT) (index : Z) : XMMRegister := arr_get zero_xmm (c_ymm_upper ctx) index.
Definition zmm_upper_at (ctx : CPU_CONTEXT) (index : Z) : ZMMUpperRegister := arr_get zero_zmmu (c_zmm_upper ctx) index.

(** The status and the bytes written at [value]. *)
Definition cpueaxh_reg_read_raw (context : CPU_CONTEXT) (regid : Z) (value : Buffer) : Z * list Z :=
  if is_null value then (CPUEAXH_ERR_ARG, [])
  else if (CPUEAXH_X86_REG_RAX <=? regid) && (regid <=? CPUEAXH_X86_REG_R15) then
    (CPUEAXH_ERR_OK, out64 (arr_get 0 (c_regs context) regid))
  else if (CPUEAXH_X86_REG_XMM0 <=? regid) && (regid <=? CPUEAXH_X86_REG_XMM15) then
    (CPUEAXH_ERR_OK, out_xmm (cpueaxh_copy_xmm_out (xmm_at context (regid - CPUEAXH_X86_REG_XMM0))))
  else if (CPUEAXH_X86_REG_YMM0 <=? regid) && (regid <=? CPUEAXH_X86_REG_YMM15) then
    let ymm_index := regid - CPUEAXH_X86_REG_YMM0 in
    (CPUEAXH_ERR_OK, out_ymm (cpueaxh_copy_ymm_out (xmm_at context ymm_index) (ymm_upper_at context ymm_index)))
  else if (CPUEAXH_X86_REG_ZMM0 <=? regid) && (regid <=? CPUEAXH_X86_REG_ZMM15) then
    let zmm_index := regid - CPUEAXH_X86_REG_ZMM0 in
    (CPUEAXH_ERR_OK, out_zmm (cpueaxh_copy_zmm_out (xmm_at context zmm_index) (ymm_upper_at context zmm_index)
                                (zmm_upper_at context zmm_index)))
  else if (CPUEAXH_X86_REG_K0 <=? regid) && (regid <=? CPUEAXH_X86_REG_K7) then
    (CPUEAXH_ERR_OK, out64 (arr_get 0 (c_opmask context) (regid - CPUEAXH_X86_REG_K0)))
  else if (CPUEAXH_X86_REG_MM0 <=? regid) && (regid <=? CPUEAXH_X86_REG_MM7) then
    (CPUEAXH_ERR_OK, out64 (arr_get 0 (c_mm context) (regid - CPUEAXH_X86_REG_MM0)))
  else
    let control_reg_index := cpueaxh_control_reg_index_from_regid regid in
    if 0 <=? control_reg_index then (CPUEAXH_ERR_OK, out64 (arr_get 0 (c_control_regs context) control_reg_index))
    else if regid =? CPUEAXH_X86_REG_RIP then (CPUEAXH_ERR_OK, out64 (c_rip context))
    else if regid =? CPUEAXH_X86_REG_EFLAGS then (CPUEAXH_ERR_OK, out64 (c_rflags context))
    else if regid =? CPUEAXH_X86_REG_CPL then (CPUEAXH_ERR_OK, out64 (c_cpl context))
    else if regid =? CPUEAXH_X86_REG_MXCSR then (CPUEAXH_ERR_OK, out32 (c_mxcsr context))
    else if regid =? CPUEAXH_X86_REG_GDTR_BASE then (CPUEAXH_ERR_OK, out64 (c_gdtr_base context))
    else if regid =? CPUEAXH_X86_REG_GDTR_LIMIT then (CPUEAXH_ERR_OK, out16 (c_gdtr_limit context))
    else if regid =? CPUEAXH_X86_REG_LDTR_BASE then (CPUEAXH_ERR_OK, out64 (c_ldtr_base context))
    else if regid =? CPUEAXH_X86_REG_LDTR_LIMIT then (CPUEAXH_ERR_OK, out16 (c_ldtr_limit context))
    else if regid =? CPUEAXH_X86_REG_EXCEPTION_CODE then (CPUEAXH_ERR_OK, out32 (exc_code (c_exception context)))
    else if regid =? CPUEAXH_X86_REG_EXCEPTION_ERROR_CODE then (CPUEAXH_ERR_OK, out32 (exc_error_code (c_exception context)))
    else if regid =? CPUEAXH_X86_REG_PROCESSOR_ID then (CPUEAXH_ERR_OK, out32 (c_processor_id context))
    else
      match cpueaxh_select_segment regid with
      | None => (CPUEAXH_ERR_ARG, [])
      | Some index =>
          let segment := segment_of context index in
          let descriptor := seg_descriptor segment in
          match cpueaxh_segment_field_kind_from_regid regid with
          | CPUEAXH_SEGMENT_FIELD_SELECTOR => (CPUEAXH_ERR_OK, out16 (seg_selector segment))
          | CPUEAXH_SEGMENT_FIELD_BASE => (CPUEAXH_ERR_OK, out64 (sd_base descriptor))
          | CPUEAXH_SEGMENT_FIELD_LIMIT => (CPUEAXH_ERR_OK, out32 (sd_limit descriptor))
          | CPUEAXH_SEGMENT_FIELD_TYPE => (CPUEAXH_ERR_OK, out32 (sd_type descriptor))
          | CPUEAXH_SEGMENT_FIELD_DPL => (CPUEAXH_ERR_OK, out32 (sd_dpl descriptor))
          | CPUEAXH_SEGMENT_FIELD_PRESENT => (CPUEAXH_ERR_OK, out32 (b2z (sd_present descriptor)))
          | CPUEAXH_SEGMENT_FIELD_GRANULARITY => (CPUEAXH_ERR_OK, out32 (b2z (sd_granularity descriptor)))
          | CPUEAXH_SEGMENT_FIELD_DB => (CPUEAXH_ERR_OK, out32 (b2z (sd_db descriptor)))
          | CPUEAXH_SEGMENT_FIELD_LONG_MODE => (CPUEAXH_ERR_OK, out32 (b2z (sd_long_mode descriptor)))
          | CPUEAXH_SEGMENT_FIELD_NONE => (CPUEAXH_ERR_ARG, [])
          end
      end.

Section write.
(** The memory the buffer may be in. *)
Context (heap : HostHeap).

Definition in16 (value : Buffer) : Z := buffer_le heap value 0 2.
Definition in32 (value : Buffer) : Z := buffer_le heap value 0 4.
Definition in64 (value : Buffer) : Z := buffer_le heap value 0 8.
Definition in_xmm_at (value : Buffer) (index : Z) : cpueaxh_x86_xmm :=
  mkXXmm (buffer_le heap value index 8) (buffer_le heap value (index + 8) 8).
Definition in_xmm (value : Buffer) : cpueaxh_x86_xmm := in_xmm_at value 0.
Definition in_ymm (value : Buffer) : cpueaxh_x86_ymm := mkXYmm (in_xmm_at value 0) (in_xmm_at value 16).
Definition in_zmm (value : Buffer) : cpueaxh_x86_zmm :=
  mkXZmm (in_ymm value) (mkXYmm (in_xmm_at value 32) (in_xmm_at value 48)).

(** The descriptor with one field assigned. *)
Definition set_sd_base (v : Z) (d : SegmentDescriptor) : SegmentDescriptor :=
  mkDesc v (sd_limit d) (sd_type d) (sd_dpl d) (sd_present d) (sd_granularity d) (sd_db d) (sd_long_mode d).
Definition set_sd_limit (v : Z) (d : SegmentDescriptor) : SegmentDescriptor :=
  mkDesc (sd_base d) v (sd_type d) (sd_dpl d) (sd_present d) (sd_granularity d) (sd_db d) (sd_long_mode d).
Definition set_sd_type (v : Z) (d : SegmentDescriptor) : SegmentDescriptor :=
  mkDesc (sd_base d) (sd_limit d) v (sd_dpl d) (sd_present d) (sd_granularity d) (sd_db d) (sd_long_mode d).
Definition set_sd_dpl (v : Z) (d : SegmentDescriptor) : SegmentDescriptor :=
  mkDesc (sd_base d) (sd_limit d) (sd_type d) v (sd_present d) (sd_granularity d) (sd_db d) (sd_long_mode d).
Definition set_sd_present (v : bool) (d : SegmentDescriptor) : SegmentDescriptor :=
  mkDesc (sd_base d) (sd_limit d) (sd_type d) (sd_dpl d) v (sd_granularity d) (sd_db d) (sd_long_mode d).
Definition set_sd_granularity (v : bool) (d : SegmentDescriptor) : SegmentDescriptor :=
  mkDesc (sd_base d) (sd_limit d) (sd_type d) (sd_dpl d) (sd_present d) v (sd_db d) (sd_long_mode d).
Definition set_sd_db (v : bool) (d : SegmentDescriptor) : SegmentDescriptor :=
  mkDesc (sd_base d) (sd_limit d) (sd_type d) (sd_dpl d) (sd_present d) (sd_granularity d) v (sd_long_mode d).
Definition set_sd_long_mode (v : bool) (d : SegmentDescriptor) : SegmentDescriptor :=
  mkDesc (sd_base d) (sd_limit d) (sd_type d) (sd_dpl d) (sd_present d) (sd_granularity d) (sd_db d) v.

Definition set_xmm_at (index : Z) (v : XMMRegister) (ctx : CPU_CONTEXT) : CPU_CONTEXT :=
  set_c_xmm (arr_set (c_xmm ctx) index v) ctx.
Definition set_ymm_upper_at (index : Z) (v : XMMRegister) (ctx : CPU_CONTEXT) : CPU_CONTEXT :=
  set_c_ymm_upper (arr_set (c_ymm_upper ctx) index v) ctx.
Definition set_zmm_upper_at (index : Z) (v : ZMMUpperRegister) (ctx : CPU_CONTEXT) : CPU_CONTEXT :=
  set_c_zmm_upper (arr_set (c_zmm_upper ctx) index v) ctx.

(** The segment with a field assigned from the buffer; [None] in the [default] case. *)
Definition write_segment_field (kind : CPUEAXH_SEGMENT_FIELD_KIND) (value : Buffer) (segment : SegmentRegister)
  : option SegmentRegister :=
  let set_descriptor f := Some (mkSeg (seg_selector segment) (f (seg_descriptor segment))) in
  match kind with
  | CPUEAXH_SEGMENT_FIELD_SELECTOR => Some (mkSeg (in16 value) (seg_descriptor segment))
  | CPUEAXH_SEGMENT_FIELD_BASE => set_descriptor (set_sd_base (in64 value))
  | CPUEAXH_SEGMENT_FIELD_LIMIT => set_descriptor (set_sd_limit (in32 value))
  | CPUEAXH_SEGMENT_FIELD_TYPE => set_descriptor (set_sd_type (u8 (Z.land (in32 value) 0x1F)))
  | CPUEAXH_SEGMENT_FIELD_DPL => set_descriptor (set_sd_dpl (u8 (Z.land (in32 value) 0x3)))
  | CPUEAXH_SEGMENT_FIELD_PRESENT => set_descriptor (set_sd_present (nonzero (Z.land (in32 value) 0x1)))
  | CPUEAXH_SEGMENT_FIELD_GRANULARITY => set_descriptor (set_sd_granularity (nonzero (Z.land (in32 value) 0x1)))
  | CPUEAXH_SEGMENT_FIELD_DB => set_descriptor (set_sd_db (nonzero (Z.land (in32 value) 0x1)))
  | CPUEAXH_SEGMENT_FIELD_LONG_MODE => set_descriptor (set_sd_long_mode (nonzero (Z.land (in32 value) 0x1)))
  | CPUEAXH_SEGMENT_FIELD_NONE => None
  end.

Definition cpueaxh_reg_write_raw (regid : Z) (value : Buffer) : ST CPU_CONTEXT Z := fun context =>
  if is_null value then (CPUEAXH_ERR_ARG, context)
  else if (CPUEAXH_X86_REG_RAX <=? regid) && (regid <=? CPUEAXH_X86_REG_R15) then
    (CPUEAXH_ERR_OK, set_c_regs (arr_set (c_regs context) regid (in64 value)) context)
  else if (CPUEAXH_X86_REG_XMM0 <=? regid) && (regid <=? CPUEAXH_X86_REG_XMM15) then
    (CPUEAXH_ERR_OK, set_xmm_at (regid - CPUEAXH_X86_REG_XMM0) (cpueaxh_copy_xmm_in (in_xmm value)) context)
  else if (CPUEAXH_X86_REG_YMM0 <=? regid) && (regid <=? CPUEAXH_X86_REG_YMM15) then
    let ymm_index := regid - CPUEAXH_X86_REG_YMM0 in
    let '(lower, upper) := cpueaxh_copy_ymm_in (in_ymm value) in
    (CPUEAXH_ERR_OK, set_ymm_upper_at ymm_index upper (set_xmm_at ymm_index lower context))
  else if (CPUEAXH_X86_REG_ZMM0 <=? regid) && (regid <=? CPUEAXH_X86_REG_ZMM15) then
    let zmm_index := regid - CPUEAXH_X86_REG_ZMM0 in
    let '(lower0, lower1, upper) := cpueaxh_copy_zmm_in (in_zmm value) in
    (CPUEAXH_ERR_OK, set_zmm_upper_at zmm_index upper (set_ymm_upper_at zmm_index lower1 (set_xmm_at zmm_index lower0 context)))
  else if (CPUEAXH_X86_REG_K0 <=? regid) && (regid <=? CPUEAXH_X86_REG_K7) then
    (CPUEAXH_ERR_OK, set_c_opmask (arr_set (c_opmask context) (regid - CPUEAXH_X86_REG_K0) (in64 value)) context)
  else if (CPUEAXH_X86_REG_MM0 <=? regid) && (regid <=? CPUEAXH_X86_REG_MM7) then
    (CPUEAXH_ERR_OK, set_c_mm (arr_set (c_mm context) (regid - CPUEAXH_X86_REG_MM0) (in64 value)) context)
  else
    let control_reg_index := cpueaxh_control_reg_index_from_regid regid in
    if 0 <=? control_reg_index then
      (CPUEAXH_ERR_OK, set_c_control_regs (arr_set (c_control_regs context) control_reg_index (in64 value)) context)
    else if regid =? CPUEAXH_X86_REG_RIP then (CPUEAXH_ERR_OK, set_c_rip (in64 value) context)
    else if regid =? CPUEAXH_X86_REG_EFLAGS then (CPUEAXH_ERR_OK, set_c_rflags (in64 value) context)
    else if regid =? CPUEAXH_X86_REG_CPL then (CPUEAXH_ERR_OK, set_c_cpl (u8 (Z.land (in64 value) 0x3)) context)
    else if regid =? CPUEAXH_X86_REG_MXCSR then (CPUEAXH_ERR_OK, set_c_mxcsr (in32 value) context)
    else if regid =? CPUEAXH_X86_REG_GDTR_BASE then (CPUEAXH_ERR_OK, set_c_gdtr_base (in64 value) context)
    else if regid =? CPUEAXH_X86_REG_GDTR_LIMIT then (CPUEAXH_ERR_OK, set_c_gdtr_limit (in16 value) context)
    else if regid =? CPUEAXH_X86_REG_LDTR_BASE then (CPUEAXH_ERR_OK, set_c_ldtr_base (in64 value) context)
    else if regid =? CPUEAXH_X86_REG_LDTR_LIMIT then (CPUEAXH_ERR_OK, set_c_ldtr_limit (in16 value) context)
    else if regid =? CPUEAXH_X86_REG_EXCEPTION_CODE then
      (CPUEAXH_ERR_OK, set_c_exception (mkExc (in32 value) (exc_error_code (c_exception context))) context)
    else if regid =? CPUEAXH_X86_REG_EXCEPTION_ERROR_CODE then
      (CPUEAXH_ERR_OK, set_c_exception (mkExc (exc_code (c_exception context)) (in32 value)) context)
    else if regid =? CPUEAXH_X86_REG_PROCESSOR_ID then (CPUEAXH_ERR_OK, set_c_processor_id (in32 value) context)
    else
      match cpueaxh_select_segment regid with
      | None => (CPUEAXH_ERR_ARG, context)
      | Some index =>
          match write_segment_field (cpueaxh_segment_field_kind_from_regid regid) value (segment_of context index) with
          | Some segment => (CPUEAXH_ERR_OK, set_segment_of index segment context)
          | None => (CPUEAXH_ERR_ARG, context)
          end
      end.

End write.

(** ** The API functions.  The engine pointer is never [NULL] here: [cpueaxh_validate_engine] is OK. *)

Definition cpueaxh_reg_write (regid : Z) (value : Buffer) : ST cpueaxh_engine Z :=
  let* heap := st_gets (fun e => ms_heap (en_mem e)) in
  on_ctx (cpueaxh_reg_write_raw heap regid value).

Definition cpueaxh_reg_read (regid : Z) (value : Buffer) : ST cpueaxh_engine Z :=
  let* context := get_ctx id in
  let '(error, bytes) := cpueaxh_reg_read_raw context regid value in
  put_bytes value 0 bytes ;;; st_ret error.

(** [None] is a [NULL] context. *)
Definition cpueaxh_context_write (context : option cpueaxh_x86_context) : ST cpueaxh_engine Z :=
  match context with
  | None => st_ret CPUEAXH_ERR_ARG
  | Some context => mod_ctx (cpueaxh_context_in context) ;;; st_ret CPUEAXH_ERR_OK
  end.

(** [out] tells whether the caller passed a context to fill; it gets the second component. *)
Definition cpueaxh_context_read (out : bool) : ST cpueaxh_engine (Z * option cpueaxh_x86_context) :=
  if negb out then st_ret (CPUEAXH_ERR_ARG, None)
  else let* context := get_ctx cpueaxh_context_out in st_ret (CPUEAXH_ERR_OK, Some context).

Definition cpueaxh_set_processor_id (processor_id : Z) : ST cpueaxh_engine Z :=
  mod_ctx (set_c_processor_id processor_id) ;;; st_ret CPUEAXH_ERR_OK.

Definition cpueaxh_exception_raise (code error_code : Z) : ST cpueaxh_engine Z :=
  if negb (cpu_is_exception_code code) then st_ret CPUEAXH_ERR_ARG
  else mod_ctx (cpu_raise_exception code error_code) ;;; st_ret CPUEAXH_ERR_OK.

Definition cpueaxh_exception_clear : ST cpueaxh_engine Z :=
  mod_ctx cpu_clear_exception ;;; st_ret CPUEAXH_ERR_OK.

Definition cpueaxh_code_exception (engine : option cpueaxh_engine) : Z :=
  match engine with Some engine => exc_code (c_exception (en_context engine)) | None => CPU_EXCEPTION_NONE end.
Definition cpueaxh_error_code_exception (engine : option cpueaxh_engine) : Z :=
  match engine with Some engine => exc_error_code (c_exception (en_context engine)) | None => 0 end.

(** ** Slots: what a register number names *)

Inductive reg_slot :=
  | SReg (index : Z) | SXmm (index : Z) | SYmm (index : Z) | SZmm (index : Z) | SMask (index : Z) | SMm (index : Z)
  | SCr (index : Z) | SRip | SFlags | SCpl | SMxcsr | SGdtrBase | SGdtrLimit | SLdtrBase | SLdtrLimit
  | SExceptionCode | SExceptionError | SProcessor
  | SSegment (segment : Z) (field : CPUEAXH_SEGMENT_FIELD_KIND).

(** The fields of a segment after the base, in the order of their numbers. *)
Definition segment_fields : list CPUEAXH_SEGMENT_FIELD_KIND :=
  [CPUEAXH_SEGMENT_FIELD_LIMIT; CPUEAXH_SEGMENT_FIELD_TYPE; CPUEAXH_SEGMENT_FIELD_DPL; CPUEAXH_SEGMENT_FIELD_PRESENT;
   CPUEAXH_SEGMENT_FIELD_GRANULARITY; CPUEAXH_SEGMENT_FIELD_DB; CPUEAXH_SEGMENT_FIELD_LONG_MODE].

(** The numbering of the interface: 161 numbers in a row. *)
Definition slots : list reg_slot :=
  map SReg (seqZ 0 16) ++
  [SRip; SFlags; SSegment SEG_GS CPUEAXH_SEGMENT_FIELD_SELECTOR; SSegment SEG_GS CPUEAXH_SEGMENT_FIELD_BASE; SCpl] ++
  map SCr [0; 2; 3; 4; 8] ++
  map SXmm (seqZ 0 16) ++ map SYmm (seqZ 0 16) ++ map SZmm (seqZ 0 16) ++ map SMask (seqZ 0 8) ++ map SMm (seqZ 0 8) ++
  [SMxcsr] ++
  map (fun s => SSegment s CPUEAXH_SEGMENT_FIELD_SELECTOR) (seqZ 0 5) ++
  map (fun s => SSegment s CPUEAXH_SEGMENT_FIELD_BASE) (seqZ 0 5) ++
  [SGdtrBase; SGdtrLimit; SLdtrBase; SLdtrLimit; SExceptionCode; SExceptionError] ++
  map SCr [1; 5; 6; 7; 9; 10; 11; 12; 13; 14; 15] ++ [SProcessor] ++
  flat_map (fun s => map (SSegment s) segment_fields) (seqZ 0 6).

Definition slot_of (regid : Z) : option reg_slot := if regid <? 0 then None else slots !! Z.to_nat regid.

(** The value of a slot with its width in bytes, lowest part first. *)
Definition xmm_parts (v : XMMRegister) : list (nat * Z) := [(8%nat, xmm_low v); (8%nat, xmm_high v)].

Definition slot_parts (ctx : CPU_CONTEXT) (slot : reg_slot) : list (nat * Z) :=
  match slot with
  | SReg index => [(8%nat, arr_get 0 (c_regs ctx) index)]
  | SXmm index => xmm_parts (xmm_at ctx index)
  | SYmm index => xmm_parts (xmm_at ctx index) ++ xmm_parts (ymm_upper_at ctx index)
  | SZmm index =>
      xmm_parts (xmm_at ctx index) ++ xmm_parts (ymm_upper_at ctx index) ++
      xmm_parts (zmmu_lower (zmm_upper_at ctx index)) ++ xmm_parts (zmmu_upper (zmm_upper_at ctx index))
  | SMask index => [(8%nat, arr_get 0 (c_opmask ctx) index)]
  | SMm index => [(8%nat, arr_get 0 (c_mm ctx) index)]
  | SCr index => [(8%nat, arr_get 0 (c_control_regs ctx) index)]
  | SRip => [(8%nat, c_rip ctx)]
  | SFlags => [(8%nat, c_rflags ctx)]
  | SCpl => [(8%nat, c_cpl ctx)]
  | SMxcsr => [(4%nat, c_mxcsr ctx)]
  | SGdtrBase => [(8%nat, c_gdtr_base ctx)]
  | SGdtrLimit => [(2%nat, c_gdtr_limit ctx)]
  | SLdtrBase => [(8%nat, c_ldtr_base ctx)]
  | SLdtrLimit => [(2%nat, c_ldtr_limit ctx)]
  | SExceptionCode => [(4%nat, exc_code (c_exception ctx))]
  | SExceptionError => [(4%nat, exc_error_code (c_exception ctx))]
  | SProcessor => [(4%nat, c_processor_id ctx)]
  | SSegment index field =>
      let segment := segment_of ctx index in
      let d := seg_descriptor segment in
      match field with
      | CPUEAXH_SEGMENT_FIELD_SELECTOR => [(2%nat, seg_selector segment)]
      | CPUEAXH_SEGMENT_FIELD_BASE => [(8%nat, sd_base d)]
      | CPUEAXH_SEGMENT_FIELD_LIMIT => [(4%nat, sd_limit d)]
      | CPUEAXH_SEGMENT_FIELD_TYPE => [(4%nat, sd_type d)]
      | CPUEAXH_SEGMENT_FIELD_DPL => [(4%nat, sd_dpl d)]
      | CPUEAXH_SEGMENT_FIELD_PRESENT => [(4%nat, b2z (sd_present d))]
      | CPUEAXH_SEGMENT_FIELD_GRANULARITY => [(4%nat, b2z (sd_granularity d))]
      | CPUEAXH_SEGMENT_FIELD_DB => [(4%nat, b2z (sd_db d))]
      | CPUEAXH_SEGMENT_FIELD_LONG_MODE => [(4%nat, b2z (sd_long_mode d))]
      | CPUEAXH_SEGMENT_FIELD_NONE => []
      end
  end.

Definition parts_bytes (parts : list (nat * Z)) : list Z := flat_map (fun p => le_split p.1 p.2) parts.

(** The bytes of a slot, lowest first. *)
Definition slot_bytes (ctx : CPU_CONTEXT) (slot : reg_slot) : list Z := parts_bytes (slot_parts ctx slot).

(** What a slot keeps of a written value: CPL, type, DPL and the flags have fewer bits. *)
Definition slot_mask (slot : reg_slot) : option Z :=
  match slot with
  | SCpl | SSegment _ CPUEAXH_SEGMENT_FIELD_DPL => Some 3
  | SSegment _ CPUEAXH_SEGMENT_FIELD_TYPE => Some 0x1F
  | SSegment _ (CPUEAXH_SEGMENT_FIELD_PRESENT | CPUEAXH_SEGMENT_FIELD_GRANULARITY
               | CPUEAXH_SEGMENT_FIELD_DB | CPUEAXH_SEGMENT_FIELD_LONG_MODE) => Some 1
  | _ => None
  end.

(** [bytes] as the slot would hold them. *)
Definition cut_to_slot (slot : reg_slot) (bytes : list Z) : list Z :=
  match slot_mask slot, bytes with
  | Some mask, byte :: rest => Z.land byte mask :: map (fun _ => 0) rest
  | _, _ => bytes
  end.

Definition vector_index (slot : reg_slot) : option Z :=
  match slot with SXmm index | SYmm index | SZmm index => Some index | _ => None end.

(** Slots that share no storage: different ones, that are not vector registers of the same number. *)
Definition disjoint_slots (a b : reg_slot) : Prop :=
  a <> b /\ match vector_index a, vector_index b with Some i, Some j => i <> j | _, _ => True end.

(** The register arrays have the lengths of the source. *)
Record ctx_shape (ctx : CPU_CONTEXT) : Prop := {
  cs_regs : length (c_regs ctx) = 16%nat;
  cs_control : length (c_control_regs ctx) = 16%nat;
  cs_xmm : length (c_xmm ctx) = 16%nat;
  cs_ymm : length (c_ymm_upper ctx) = 16%nat;
  cs_zmm : length (c_zmm_upper ctx) = 16%nat;
  cs_opmask : length (c_opmask ctx) = 8%nat;
  cs_mm : length (c_mm ctx) = 8%nat;
}.

Lemma slots_length : length slots = 161%nat.
Proof. reflexivity. Qed.

(** A property of every register number follows from that of the 161 and of the rest. *)
Lemma regid_cases (P : Z -> Prop) :
  (forall regid, slot_of regid = None -> P regid) -> Forall P (seqZ 0 161) -> forall regid, P regid.
Proof.
  intros Hout Hin regid. destruct (decide (0 <= regid < 161)) as [Hr | Hr].
  - rewrite Forall_forall in Hin. apply Hin, elem_of_seqZ. lia.
  - apply Hout. unfold slot_of. destruct (Z.ltb_spec regid 0); [done |].
    apply lookup_ge_None. rewrite slots_length. lia.
Qed.

Lemma slot_of_range regid : slot_of regid = None <-> ~ 0 <= regid < 161.
Proof.
  unfold slot_of. destruct (Z.ltb_spec regid 0); [split; [lia | done] |].
  rewrite lookup_ge_None, slots_length. lia.
Qed.

Ltac each_regid := repeat (first [apply Forall_nil; exact I | apply Forall_cons; split]).

Lemma one_of_out regid cases : ~ 0 <= regid < 161 -> Forall (fun c => 0 <= c < 161) cases -> one_of regid cases = false.
Proof.
  intros Hr. unfold one_of. induction 1 as [| c cases Hc Hcs IH]; [done |]. cbn [existsb]. rewrite IH, orb_false_r.
  apply Z.eqb_neq. lia.
Qed.

Lemma select_segment_out regid : ~ 0 <= regid < 161 -> cpueaxh_select_segment regid = None.
Proof.
  intros Hr. unfold cpueaxh_select_segment. rewrite !one_of_out; try exact Hr; [reflexivity | ..];
    repeat constructor; vm_compute; discriminate || reflexivity.
Qed.

Lemma control_index_out regid : ~ 0 <= regid < 161 -> cpueaxh_control_reg_index_from_regid regid = -1.
Proof.
  intros Hr. unfold cpueaxh_control_reg_index_from_regid.
  repeat match goal with |- context [regid =? ?c] =>
    replace (regid =? c) with false by (symmetry; apply Z.eqb_neq; unfold c; lia) end.
  reflexivity.
Qed.

(** No [regid] outside the numbering passes a range test or a comparison. *)
Ltac out_of_numbering regid :=
  repeat match goal with
  | |- context [(?a <=? regid) && (regid <=? ?b)] =>
      replace ((a <=? regid) && (regid <=? b)) with false by (symmetry; apply andb_false_iff; unfold a, b; lia)
  | |- context [regid =? ?c] => replace (regid =? c) with false by (symmetry; apply Z.eqb_neq; unfold c; lia)
  end.

Lemma reg_read_slot ctx value regid :
  is_null value = false ->
  cpueaxh_reg_read_raw ctx regid value =
  match slot_of regid with Some slot => (CPUEAXH_ERR_OK, slot_bytes ctx slot) | None => (CPUEAXH_ERR_ARG, []) end.
Proof.
  intros Hv. revert regid. apply regid_cases.
  - intros regid Hr. rewrite Hr. apply slot_of_range in Hr. unfold cpueaxh_reg_read_raw. rewrite Hv.
    rewrite control_index_out, select_segment_out by exact Hr. cbv zeta. out_of_numbering regid. reflexivity.
  - unfold cpueaxh_reg_read_raw. rewrite Hv. each_regid; reflexivity.
Qed.

(** The context with a slot assigned from a buffer. *)
Definition slot_put (heap : HostHeap) (value : Buffer) (slot : reg_slot) (ctx : CPU_CONTEXT) : CPU_CONTEXT :=
  let xmm k := cpueaxh_copy_xmm_in (in_xmm_at heap value k) in
  match slot with
  | SReg index => set_c_regs (arr_set (c_regs ctx) index (in64 heap value)) ctx
  | SXmm index => set_xmm_at index (xmm 0) ctx
  | SYmm index => set_ymm_upper_at index (xmm 16) (set_xmm_at index (xmm 0) ctx)
  | SZmm index => set_zmm_upper_at index (mkZmmU (xmm 32) (xmm 48)) (set_ymm_upper_at index (xmm 16) (set_xmm_at index (xmm 0) ctx))
  | SMask index => set_c_opmask (arr_set (c_opmask ctx) index (in64 heap value)) ctx
  | SMm index => set_c_mm (arr_set (c_mm ctx) index (in64 heap value)) ctx
  | SCr index => set_c_control_regs (arr_set (c_control_regs ctx) index (in64 heap value)) ctx
  | SRip => set_c_rip (in64 heap value) ctx
  | SFlags => set_c_rflags (in64 heap value) ctx
  | SCpl => set_c_cpl (u8 (Z.land (in64 heap value) 0x3)) ctx
  | SMxcsr => set_c_mxcsr (in32 heap value) ctx
  | SGdtrBase => set_c_gdtr_base (in64 heap value) ctx
  | SGdtrLimit => set_c_gdtr_limit (in16 heap value) ctx
  | SLdtrBase => set_c_ldtr_base (in64 heap value) ctx
  | SLdtrLimit => set_c_ldtr_limit (in16 heap value) ctx
  | SExceptionCode => set_c_exception (mkExc (in32 heap value) (exc_error_code (c_exception ctx))) ctx
  | SExceptionError => set_c_exception (mkExc (exc_code (c_exception ctx)) (in32 heap value)) ctx
  | SProcessor => set_c_processor_id (in32 heap value) ctx
  | SSegment index field =>
      match write_segment_field heap field value (segment_of ctx index) with
      | Some segment => set_segment_of index segment ctx
      | None => ctx
      end
  end.

Lemma reg_write_slot heap value regid ctx :
  is_null value = false ->
  cpueaxh_reg_write_raw heap regid value ctx =
  match slot_of regid with Some slot => (CPUEAXH_ERR_OK, slot_put heap value slot ctx) | None => (CPUEAXH_ERR_ARG, ctx) end.
Proof.
  intros Hv. revert regid. apply regid_cases.
  - intros regid Hr. rewrite Hr. apply slot_of_range in Hr. unfold cpueaxh_reg_write_raw. rewrite Hv.
    rewrite control_index_out, select_segment_out by exact Hr. cbv zeta. out_of_numbering regid. reflexivity.
  - unfold cpueaxh_reg_write_raw. rewrite Hv. each_regid; reflexivity.
Qed.

(** ** Slots hold what is written *)

Lemma le_split_combine bytes : Forall (in_word 8) bytes -> le_split (length bytes) (le_combine bytes) = bytes.
Proof.
  induction 1 as [| b bytes Hb _ IH]; [done |]. cbn [length le_split le_combine].
  change 0xFF with (Z.ones 8). rewrite Z.land_ones, Z.shiftr_div_pow2 by lia.
  destruct Hb as [Hlo Hhi]. f_equal.
  - rewrite Z.mul_comm, Z_mod_plus_full. apply Z.mod_small. lia.
  - rewrite Z.mul_comm, Z.div_add by lia. rewrite Z.div_small by lia. exact IH.
Qed.

Lemma le_split_small n b : in_word 8 b -> le_split (S n) b = b :: repeat 0 n.
Proof.
  intros [Hlo Hhi]. cbn [le_split]. change 0xFF with (Z.ones 8).
  rewrite Z.land_ones, Z.shiftr_div_pow2, Z.mod_small, Z.div_small by lia. f_equal.
  clear. induction n as [| n IH]; [done |]. cbn [le_split repeat]. change (Z.shiftr 0 8) with 0. by rewrite IH.
Qed.

Section buffer.
Context (heap : HostHeap) (value : Buffer).

(** [n] bytes of the buffer from [index] on. *)
Definition buffer_bytes (index n : Z) : list Z := map (buffer_byte heap value) (seqZ index n).

Context (Hbytes : forall index, in_word 8 (buffer_byte heap value index)).

Lemma buffer_bytes_ok index n : Forall (in_word 8) (buffer_bytes index n).
Proof. unfold buffer_bytes. apply Forall_map, Forall_true. intros i. apply Hbytes. Qed.

Lemma buffer_bytes_length index n : length (buffer_bytes index n) = Z.to_nat n.
Proof. unfold buffer_bytes. by rewrite length_map, length_seqZ. Qed.

Lemma split_buffer_le index n k :
  Z.to_nat n = k -> le_split k (buffer_le heap value index n) = buffer_bytes index n.
Proof.
  intros <-. unfold buffer_le. fold (buffer_bytes index n). rewrite <- (buffer_bytes_length index n).
  apply le_split_combine, buffer_bytes_ok.
Qed.

Lemma masked_buffer_le n mask bits :
  0 < n -> mask = Z.ones bits -> 0 <= bits <= 8 ->
  Z.land (buffer_le heap value 0 n) mask = Z.land (buffer_byte heap value 0) mask /\
  in_word 8 (Z.land (buffer_byte heap value 0) mask).
Proof.
  intros Hn -> Hb. pose proof (pow2_pos bits ltac:(lia)) as Hpos.
  pose proof (Z.mod_pos_bound (buffer_byte heap value 0) (2 ^ bits) Hpos) as Hm.
  pose proof (Z.pow_le_mono_r 2 bits 8 ltac:(lia) ltac:(lia)).
  rewrite !Z.land_ones by lia. split; [| split; lia].
  unfold buffer_le. rewrite seqZ_cons by lia. cbn [map le_combine].
  replace 256 with (2 ^ bits * 2 ^ (8 - bits)) by (rewrite <- Z.pow_add_r by lia; replace (bits + (8 - bits)) with 8 by lia; done).
  rewrite <- Z.mul_assoc, Z.mul_comm, Z_mod_plus_full. done.
Qed.
End buffer.

Definition slot_size (slot : reg_slot) : Z :=
  match slot with
  | SXmm _ => 16
  | SYmm _ => 32
  | SZmm _ => 64
  | SMxcsr | SExceptionCode | SExceptionError | SProcessor => 4
  | SGdtrLimit | SLdtrLimit | SSegment _ CPUEAXH_SEGMENT_FIELD_SELECTOR => 2
  | SSegment _ CPUEAXH_SEGMENT_FIELD_BASE => 8
  | SSegment _ CPUEAXH_SEGMENT_FIELD_NONE => 0
  | SSegment _ _ => 4
  | _ => 8
  end.

Definition slot_ok (slot : reg_slot) : Prop :=
  match slot with
  | SReg index | SXmm index | SYmm index | SZmm index | SCr index => 0 <= index < 16
  | SMask index | SMm index => 0 <= index < 8
  | SSegment index field => 0 <= index < 6 /\ field <> CPUEAXH_SEGMENT_FIELD_NONE
  | _ => True
  end.

Lemma slot_of_ok regid slot : slot_of regid = Some slot -> slot_ok slot.
Proof.
  intros H. enough (Forall slot_ok slots) as Hall.
  { unfold slot_of in H. destruct (regid <? 0); [done |]. rewrite Forall_lookup in Hall. by eapply Hall. }
  let l := eval vm_compute in slots in change slots with l.
  each_regid; cbn; first [exact I | lia | split; [lia | discriminate]].
Qed.

(** Any segment register is one of the six. *)
Lemma segment_of_set index v ctx : 0 <= index < 6 -> segment_of (set_segment_of index v ctx) index = v.
Proof.
  intros H. assert (index = 0 \/ index = 1 \/ index = 2 \/ index = 3 \/ index = 4 \/ index = 5) as Hi by lia.
  by repeat destruct Hi as [-> | Hi]; subst.
Qed.

Lemma segment_of_set_ne i j v ctx : 0 <= i < 6 -> 0 <= j < 6 -> i <> j -> segment_of (set_segment_of i v ctx) j = segment_of ctx j.
Proof.
  intros Hi Hj Hne. assert (i = 0 \/ i = 1 \/ i = 2 \/ i = 3 \/ i = 4 \/ i = 5) as Ei by lia.
  assert (j = 0 \/ j = 1 \/ j = 2 \/ j = 3 \/ j = 4 \/ j = 5) as Ej by lia.
  repeat destruct Ei as [-> | Ei]; subst; repeat destruct Ej as [-> | Ej]; subst; congruence || reflexivity.
Qed.

Section slots.
Context (heap : HostHeap) (value : Buffer) (Hbytes : forall index, in_word 8 (buffer_byte heap value index)).

Lemma buffer_bytes_app i n j m k :
  0 <= n -> 0 <= m -> j = i + n -> k = n + m ->
  buffer_bytes heap value i n ++ buffer_bytes heap value j m = buffer_bytes heap value i k.
Proof. intros Hn Hm -> ->. unfold buffer_bytes. by rewrite seqZ_app, map_app by done. Qed.

Lemma put_xmm_parts k :
  parts_bytes (xmm_parts (cpueaxh_copy_xmm_in (in_xmm_at heap value k))) = buffer_bytes heap value k 16.
Proof.
  unfold parts_bytes, xmm_parts, in_xmm_at. cbn [flat_map fst snd cpueaxh_copy_xmm_in xmm_low xmm_high xx_low xx_high].
  rewrite app_nil_r, !split_buffer_le by done. by apply buffer_bytes_app.
Qed.

Lemma parts_bytes_app p q : parts_bytes (p ++ q) = parts_bytes p ++ parts_bytes q.
Proof. apply flat_map_app. Qed.

Lemma parts_bytes_one n v : parts_bytes [(n, v)] = le_split n v.
Proof. apply app_nil_r. Qed.

Lemma zeros_of {A} (l : list A) : map (fun _ => 0) l = repeat 0 (length l).
Proof. induction l as [| x l IH]; [done |]. cbn. by rewrite IH. Qed.

(** A number of fewer bits than its slot. *)
Lemma split_masked (n : Z) (k : nat) mask bits :
  Z.to_nat n = S k -> 0 < n -> mask = Z.ones bits -> 0 <= bits <= 8 ->
  le_split (S k) (Z.land (buffer_le heap value 0 n) mask) =
  match buffer_bytes heap value 0 n with byte :: rest => Z.land byte mask :: map (fun _ => 0) rest | [] => [] end.
Proof.
  intros Hk Hn Hm Hb. destruct (masked_buffer_le heap value n mask bits Hn Hm Hb) as [-> Hw].
  rewrite le_split_small by exact Hw. unfold buffer_bytes. rewrite seqZ_cons by lia. cbn [map]. f_equal.
  rewrite map_map, zeros_of, length_seqZ. f_equal. lia.
Qed.

Lemma flag_of_bit z : b2z (nonzero (Z.land z 0x1)) = Z.land z 0x1.
Proof.
  unfold nonzero. change 0x1 with (Z.ones 1). rewrite Z.land_ones by lia. change (2 ^ 1) with 2.
  pose proof (Z.mod_pos_bound z 2 ltac:(lia)). destruct (Z.eqb_spec (z mod 2) 0); cbn; lia.
Qed.

Lemma u8_mask z bits : 0 <= bits <= 8 -> u8 (Z.land z (Z.ones bits)) = Z.land z (Z.ones bits).
Proof.
  intros Hb. apply wrap_small. rewrite Z.land_ones by lia. pose proof (pow2_pos bits ltac:(lia)).
  pose proof (Z.mod_pos_bound z (2 ^ bits) ltac:(lia)). pose proof (Z.pow_le_mono_r 2 bits 8 ltac:(lia) ltac:(lia)). split; lia.
Qed.


Lemma put_get_same slot ctx :
  ctx_shape ctx -> slot_ok slot ->
  slot_bytes (slot_put heap value slot ctx) slot = cut_to_slot slot (buffer_bytes heap value 0 (slot_size slot)).
Proof.
  intros [H1 H2 H3 H4 H5 H6 H7] Hok. unfold slot_bytes, cut_to_slot.
  destruct slot as [i | i | i | i | i | i | i | | | | | | | | | | | | i f]; cbn [slot_ok] in Hok;
    cbn [slot_put slot_parts slot_mask slot_size]; unfold in16, in32, in64.
  all: try (rewrite parts_bytes_one; cbn -[arr_get arr_set le_split buffer_le buffer_bytes]; rewrite ?arr_get_set_eq by lia;
            by apply split_buffer_le).
  - unfold xmm_at, set_xmm_at. cbn [c_xmm set_c_xmm]. rewrite arr_get_set_eq by lia. apply put_xmm_parts.
  - unfold ymm_upper_at, xmm_at, set_ymm_upper_at, set_xmm_at.
    cbn [c_xmm set_c_xmm c_ymm_upper set_c_ymm_upper]. rewrite !arr_get_set_eq by lia.
    rewrite parts_bytes_app, !put_xmm_parts. by apply buffer_bytes_app.
  - unfold zmm_upper_at, ymm_upper_at, xmm_at, set_zmm_upper_at, set_ymm_upper_at, set_xmm_at.
    cbn [c_xmm set_c_xmm c_ymm_upper set_c_ymm_upper c_zmm_upper set_c_zmm_upper]. rewrite !arr_get_set_eq by lia.
    cbn [zmmu_lower zmmu_upper]. rewrite !parts_bytes_app, !put_xmm_parts.
    rewrite (buffer_bytes_app 32 16 48 16 32), (buffer_bytes_app 16 16 32 32 48), (buffer_bytes_app 0 16 16 48 64) by lia. done.
  - rewrite parts_bytes_one. cbn [c_cpl set_c_cpl]. change 3 with (Z.ones 2). rewrite u8_mask by lia. by apply (split_masked 8 7 _ 2).
  - destruct Hok as [Hi Hf]. destruct f; try done; cbn [write_segment_field]; rewrite segment_of_set by done;
      cbn [seg_selector seg_descriptor sd_base sd_limit sd_type sd_dpl sd_present sd_granularity sd_db sd_long_mode
           set_sd_base set_sd_limit set_sd_type set_sd_dpl set_sd_present set_sd_granularity set_sd_db set_sd_long_mode];
      rewrite parts_bytes_one; unfold in16, in32, in64; rewrite ?flag_of_bit; try (by apply split_buffer_le);
      try (change 0x1F with (Z.ones 5); rewrite u8_mask by lia); try (change 3 with (Z.ones 2); rewrite u8_mask by lia);
      first [by apply (split_masked 4 3 _ 5) | by apply (split_masked 4 3 _ 2) | by apply (split_masked 4 3 _ 1)].
Qed.

(** An assignment to a segment leaves the rest of the context. *)
Lemma segment_put_keeps index v ctx slot :
  (forall i f, slot <> SSegment i f) -> slot_parts (set_segment_of index v ctx) slot = slot_parts ctx slot.
Proof.
  intros Hne. unfold set_segment_of.
  destruct slot; try (exfalso; by eapply Hne);
    by destruct (index =? SEG_ES), (index =? SEG_CS), (index =? SEG_SS), (index =? SEG_DS), (index =? SEG_FS).
Qed.

Lemma write_segment_field_other f value' s s' :
  write_segment_field heap f value' s = Some s' -> forall g, g <> f ->
  match g with
  | CPUEAXH_SEGMENT_FIELD_SELECTOR => seg_selector s' = seg_selector s
  | CPUEAXH_SEGMENT_FIELD_BASE => sd_base (seg_descriptor s') = sd_base (seg_descriptor s)
  | CPUEAXH_SEGMENT_FIELD_LIMIT => sd_limit (seg_descriptor s') = sd_limit (seg_descriptor s)
  | CPUEAXH_SEGMENT_FIELD_TYPE => sd_type (seg_descriptor s') = sd_type (seg_descriptor s)
  | CPUEAXH_SEGMENT_FIELD_DPL => sd_dpl (seg_descriptor s') = sd_dpl (seg_descriptor s)
  | CPUEAXH_SEGMENT_FIELD_PRESENT => sd_present (seg_descriptor s') = sd_present (seg_descriptor s)
  | CPUEAXH_SEGMENT_FIELD_GRANULARITY => sd_granularity (seg_descriptor s') = sd_granularity (seg_descriptor s)
  | CPUEAXH_SEGMENT_FIELD_DB => sd_db (seg_descriptor s') = sd_db (seg_descriptor s)
  | CPUEAXH_SEGMENT_FIELD_LONG_MODE => sd_long_mode (seg_descriptor s') = sd_long_mode (seg_descriptor s)
  | CPUEAXH_SEGMENT_FIELD_NONE => True
  end.
Proof. intros H g Hg. destruct f; cbn in H; simplify_eq; destruct g; done. Qed.

Lemma put_get_other slot other ctx :
  slot_ok slot -> slot_ok other -> disjoint_slots slot other ->
  slot_parts (slot_put heap value slot ctx) other = slot_parts ctx other.
Proof.
  intros Ho Ho' [Hne Hv].
  destruct slot as [i | i | i | i | i | i | i | | | | | | | | | | | | i f]; cbn [slot_ok] in Ho.
  19: { cbn [slot_put]. destruct (write_segment_field heap f value (segment_of ctx i)) as [s' |] eqn:E; [| done].
    destruct Ho as [Hi Hf].
    destruct other as [| | | | | | | | | | | | | | | | | | j g]; try (apply segment_put_keeps; intros; discriminate).
    destruct Ho' as [Hj Hg]. cbn [slot_parts].
    destruct (decide (i = j)) as [<- | Hij].
    - rewrite segment_of_set by done. pose proof (write_segment_field_other _ _ _ _ E g ltac:(congruence)) as Hk.
      destruct g; try done; by rewrite Hk.
    - by rewrite segment_of_set_ne. }
  all: destruct other as [j | j | j | j | j | j | j | | | | | | | | | | | | j g]; cbn [slot_ok vector_index] in Ho', Hv;
    try reflexivity; cbn [slot_put slot_parts]; try congruence.
  all: unfold zmm_upper_at, ymm_upper_at, xmm_at, set_zmm_upper_at, set_ymm_upper_at, set_xmm_at;
    cbn [c_regs set_c_regs c_control_regs set_c_control_regs c_opmask set_c_opmask c_mm set_c_mm
         c_xmm set_c_xmm c_ymm_upper set_c_ymm_upper c_zmm_upper set_c_zmm_upper];
    rewrite ?arr_get_set_ne by (lia || congruence); reflexivity.
Qed.

Lemma put_shape slot ctx : ctx_shape ctx -> ctx_shape (slot_put heap value slot ctx).
Proof.
  intros [H1 H2 H3 H4 H5 H6 H7].
  destruct slot as [i | i | i | i | i | i | i | | | | | | | | | | | | i f];
    try (split; cbn [slot_put]; unfold set_zmm_upper_at, set_ymm_upper_at, set_xmm_at;
         cbn [c_regs set_c_regs c_control_regs set_c_control_regs c_opmask set_c_opmask c_mm set_c_mm
              c_xmm set_c_xmm c_ymm_upper set_c_ymm_upper c_zmm_upper set_c_zmm_upper set_c_rip set_c_rflags set_c_cpl set_c_mxcsr
              set_c_gdtr_base set_c_gdtr_limit set_c_ldtr_base set_c_ldtr_limit set_c_exception set_c_processor_id];
         rewrite ?arr_set_length; assumption).
  cbn [slot_put]. destruct (write_segment_field heap f value (segment_of ctx i)); [| by split].
  unfold set_segment_of. by destruct (i =? SEG_ES), (i =? SEG_CS), (i =? SEG_SS), (i =? SEG_DS), (i =? SEG_FS).
Qed.

End slots.

(** ** Register numbers are distinct *)

#[export] Instance segment_field_eq_dec : EqDecision CPUEAXH_SEGMENT_FIELD_KIND.
Proof. solve_decision. Defined.
#[export] Instance reg_slot_eq_dec : EqDecision reg_slot.
Proof. solve_decision. Defined.

Lemma slots_distinct : NoDup slots.
Proof. apply (bool_decide_unpack _). vm_compute. exact I. Qed.

Lemma slot_of_inj i j slot : slot_of i = Some slot -> slot_of j = Some slot -> i = j.
Proof.
  unfold slot_of. destruct (Z.ltb_spec i 0), (Z.ltb_spec j 0); try done. intros Hi Hj.
  pose proof (NoDup_lookup _ _ _ _ slots_distinct Hi Hj). lia.
Qed.

(** ** Buffers in host memory *)

(** The engine with this host heap. *)
Definition with_heap (heap : HostHeap) (e : cpueaxh_engine) : cpueaxh_engine := set_en_mem (set_ms_heap heap (en_mem e)) e.

Lemma store_host_eq p v e : store_host p v e = (tt, with_heap (snd (store p v (ms_heap (en_mem e)))) e).
Proof. reflexivity. Qed.

Lemma load_store a p v h : load a (snd (store p v h)) = if a =? p then u8 v else load a h.
Proof. reflexivity. Qed.

(** Stored bytes can be loaded, and nothing but host bytes changes. *)
Lemma put_bytes_spec bytes : forall q i e,
  0 <= i -> 0 <= q -> q + i + Z.of_nat (length bytes) <= 2 ^ 64 -> Forall (in_word 8) bytes ->
  exists heap, put_bytes (HostPtr q) i bytes e = (tt, with_heap heap e) /\
  (forall a, ~ q + i <= a < q + i + Z.of_nat (length bytes) -> load a heap = load a (ms_heap (en_mem e))) /\
  (forall k, 0 <= k < Z.of_nat (length bytes) -> load (q + i + k) heap = arr_get 0 bytes k).
Proof.
  induction bytes as [| b bytes IH]; intros q i e Hi Hq Hlen Hok.
  - exists (ms_heap (en_mem e)). split_and!; [by destruct e as [[]] | done | cbn; lia].
  - cbn [length] in Hlen |- *. rewrite Nat2Z.inj_succ in Hlen |- *. apply Forall_cons in Hok as [Hb Hok].
    cbn [put_bytes]. unfold st_bind at 1. rewrite ptr_add_small, store_host_eq by lia.
    set (h1 := snd (store (q + i) b (ms_heap (en_mem e)))).
    destruct (IH q (i + 1) (with_heap h1 e) ltac:(lia) Hq ltac:(lia) Hok) as (heap & -> & Hout & Hin).
    exists heap. change (ms_heap (en_mem (with_heap h1 e))) with h1 in Hout.
    split_and!; [done | |].
    + intros a Ha. rewrite Hout by lia. unfold h1. rewrite load_store. destruct (Z.eqb_spec a (q + i)); [lia | done].
    + intros k Hk. destruct (decide (k = 0)) as [-> | Hne].
      * rewrite Hout by lia. unfold h1. rewrite load_store, Z.add_0_r, Z.eqb_refl. by apply wrap_small.
      * replace (q + i + k) with (q + (i + 1) + (k - 1)) by lia. rewrite Hin by lia. unfold arr_get.
        replace (Z.to_nat k) with (S (Z.to_nat (k - 1))) by lia. done.
Qed.

Lemma le_split_ok n : forall v, Forall (in_word 8) (le_split n v) /\ length (le_split n v) = n.
Proof.
  induction n as [| n IH]; intros v; [by split |]. cbn [le_split length]. destruct (IH (Z.shiftr v 8)) as [Hf ->].
  split; [| done]. constructor; [| exact Hf]. change 0xFF with (Z.ones 8). rewrite Z.land_ones by lia.
  apply Z.mod_pos_bound. lia.
Qed.

Lemma parts_bytes_ok parts : Forall (in_word 8) (parts_bytes parts).
Proof. unfold parts_bytes. apply Forall_flat_map, Forall_true. intros p. apply le_split_ok. Qed.

Lemma slot_bytes_length ctx slot : slot_ok slot -> Z.of_nat (length (slot_bytes ctx slot)) = slot_size slot.
Proof.
  intros Hok. destruct slot as [| | | | | | | | | | | | | | | | | | i f]; try reflexivity. by destruct Hok, f.
Qed.

(** What the caller's buffers hold: bytes. *)
Definition byte_buffer (heap : HostHeap) (value : Buffer) : Prop := forall index, in_word 8 (buffer_byte heap value index).

Lemma reg_write_api regid value e :
  is_null value = false ->
  cpueaxh_reg_write regid value e =
  match slot_of regid with
  | Some slot => (CPUEAXH_ERR_OK, set_en_context (slot_put (ms_heap (en_mem e)) value slot (en_context e)) e)
  | None => (CPUEAXH_ERR_ARG, e)
  end.
Proof.
  intros Hv. unfold cpueaxh_reg_write, st_bind, st_gets, on_ctx, st_zoom. rewrite reg_write_slot by exact Hv.
  destruct (slot_of regid); [done | by destruct e].
Qed.

Lemma reg_read_api regid value e :
  is_null value = false ->
  cpueaxh_reg_read regid value e =
  match slot_of regid with
  | Some slot => (CPUEAXH_ERR_OK, snd (put_bytes value 0 (slot_bytes (en_context e) slot) e))
  | None => (CPUEAXH_ERR_ARG, e)
  end.
Proof.
  intros Hv. unfold cpueaxh_reg_read, st_bind, get_ctx, st_gets. cbn beta. rewrite reg_read_slot by exact Hv. unfold id.
  destruct (slot_of regid) as [slot |]; [| done]. by destruct (put_bytes value 0 (slot_bytes (en_context e) slot) e).
Qed.

Lemma vector_numbers i :
  0 <= i < 16 ->
  slot_of (CPUEAXH_X86_REG_XMM0 + i) = Some (SXmm i) /\ slot_of (CPUEAXH_X86_REG_YMM0 + i) = Some (SYmm i) /\
  slot_of (CPUEAXH_X86_REG_ZMM0 + i) = Some (SZmm i).
Proof.
  intros Hi. assert (i ∈ seqZ 0 16) as Hin by (apply elem_of_seqZ; lia). clear Hi. revert i Hin.
  apply Forall_forall. each_regid; split_and!; reflexivity.
Qed.

(** The register interface is a set of named cells.  Each of the 161 register numbers names its
    own slot of the context and every other number is refused without effect.  Writing a slot from a
    buffer and reading it back gives the buffer's bytes, as many as the slot is wide, cut to the bits
    CPL, DPL, type and flags have; every register that shares no storage with it reads as before; and
    the narrower vector registers are the low bytes of the wide ones.  Reading into host memory
    stores exactly these bytes. *)
Theorem register_interface_round_trip regid value e
  (Hshape : ctx_shape (en_context e)) (Hvalue : is_null value = false)
  (Hbytes : byte_buffer (ms_heap (en_mem e)) value) :
  match slot_of regid with
  | None => cpueaxh_reg_write regid value e = (CPUEAXH_ERR_ARG, e) /\ cpueaxh_reg_read regid value e = (CPUEAXH_ERR_ARG, e)
  | Some slot =>
      let written := cut_to_slot slot (buffer_bytes (ms_heap (en_mem e)) value 0 (slot_size slot)) in
      exists ctx, cpueaxh_reg_write regid value e = (CPUEAXH_ERR_OK, set_en_context ctx e) /\ ctx_shape ctx /\
      cpueaxh_reg_read_raw ctx regid value = (CPUEAXH_ERR_OK, written) /\
      (forall other slot', slot_of other = Some slot' -> other <> regid ->
        (forall i j, vector_index slot = Some i -> vector_index slot' = Some j -> i <> j) ->
        cpueaxh_reg_read_raw ctx other value = cpueaxh_reg_read_raw (en_context e) other value) /\
      (forall i, 0 <= i < 16 -> exists zmm,
        cpueaxh_reg_read_raw ctx (CPUEAXH_X86_REG_ZMM0 + i) value = (CPUEAXH_ERR_OK, zmm) /\ length zmm = 64%nat /\
        cpueaxh_reg_read_raw ctx (CPUEAXH_X86_REG_YMM0 + i) value = (CPUEAXH_ERR_OK, firstn 32 zmm) /\
        cpueaxh_reg_read_raw ctx (CPUEAXH_X86_REG_XMM0 + i) value = (CPUEAXH_ERR_OK, firstn 16 zmm)) /\
      forall q, 0 < q -> q + slot_size slot <= 2 ^ 64 ->
        exists heap, cpueaxh_reg_read regid (HostPtr q) (set_en_context ctx e)
                     = (CPUEAXH_ERR_OK, with_heap heap (set_en_context ctx e)) /\
        (forall k, 0 <= k < slot_size slot -> load (q + k) heap = arr_get 0 written k) /\
        (forall a, ~ q <= a < q + slot_size slot -> load a heap = load a (ms_heap (en_mem e)))
  end.
Proof.
  rewrite reg_write_api, reg_read_api by exact Hvalue. destruct (slot_of regid) as [slot |] eqn:Es; [| done].
  cbv zeta. pose proof (slot_of_ok _ _ Es) as Hok.
  exists (slot_put (ms_heap (en_mem e)) value slot (en_context e)).
  set (ctx := slot_put (ms_heap (en_mem e)) value slot (en_context e)).
  assert (Hsame : slot_bytes ctx slot = cut_to_slot slot (buffer_bytes (ms_heap (en_mem e)) value 0 (slot_size slot)))
    by (apply put_get_same; done).
  split; [done |]. split; [by apply put_shape |]. split; [by rewrite reg_read_slot, Es, Hsame |].
  split; [| split].
  - intros other slot' Es' Hne Hv. rewrite !reg_read_slot, Es' by exact Hvalue. f_equal. unfold slot_bytes. f_equal.
    apply put_get_other; [done | by eapply slot_of_ok |]. split.
    + intros <-. apply Hne. by eapply slot_of_inj.
    + destruct (vector_index slot) as [i |] eqn:E1, (vector_index slot') as [j |] eqn:E2; try done. by apply Hv.
  - intros i Hi. destruct (vector_numbers i Hi) as (N1 & N2 & N3).
    exists (slot_bytes ctx (SZmm i)). by rewrite !reg_read_slot, N1, N2, N3 by exact Hvalue.
  - intros q Hq Hlen. rewrite (reg_read_api regid (HostPtr q)) by (cbn; apply Z.eqb_neq; unfold NULL; lia).
    rewrite Es. change (en_context (set_en_context ctx e)) with ctx. pose proof (slot_bytes_length ctx slot Hok) as Hl. rewrite <- Hl in Hlen |- *.
    destruct (put_bytes_spec (slot_bytes ctx slot) q 0 (set_en_context ctx e)) as (heap & -> & Hout & Hin);
      [lia | lia | lia | apply parts_bytes_ok |].
    exists heap. rewrite Z.add_0_r in Hout, Hin. rewrite Hl in Hout, Hin |- *. rewrite Hsame in Hin. split; [done |]. split; [exact Hin | exact Hout].
Qed.

(** ** Contexts *)

Definition normal_segment (s : cpueaxh_x86_segment) : cpueaxh_x86_segment :=
  let d := xs_descriptor s in
  mkXSeg (xs_selector s)
    (mkXDesc (xd_base d) (xd_limit d) (xd_type d) (xd_dpl d) (b2z (nonzero (xd_present d)))
       (b2z (nonzero (xd_granularity d))) (b2z (nonzero (xd_db d))) (b2z (nonzero (xd_long_mode d)))).

(** What the engine keeps of a context: flags as 0 or 1, no bridge block. *)
Definition normal_context (x : cpueaxh_x86_context) : cpueaxh_x86_context :=
  mkXCtx (x_regs x) (x_rip x) (x_rflags x) (x_xmm x) (x_ymm_upper x) (x_zmm_upper x) (x_opmask x) (x_mm x) (x_mxcsr x)
    (normal_segment (x_es x)) (normal_segment (x_cs x)) (normal_segment (x_ss x)) (normal_segment (x_ds x))
    (normal_segment (x_fs x)) (normal_segment (x_gs x)) (x_gdtr_base x) (x_gdtr_limit x) (x_ldtr_base x) (x_ldtr_limit x)
    (x_cpl x) (x_code_exception x) (x_error_code_exception x) 0 (x_control_regs x) (x_processor_id x).

Lemma segment_in_out s : cpueaxh_copy_segment_in (cpueaxh_copy_segment_out s) = s.
Proof. by destruct s as [? [? ? ? ? [] [] [] []]]. Qed.

Lemma context_out_in x ctx : cpueaxh_context_out (cpueaxh_context_in x ctx) = normal_context x.
Proof. by destruct x, ctx. Qed.

Lemma context_in_out ctx :
  cpueaxh_context_in (cpueaxh_context_out ctx) ctx =
  set_c_cached_mode_key_valid false (set_c_long_mode_active true ctx).
Proof.
  destruct ctx. unfold cpueaxh_context_in, cpueaxh_context_out.
  cbn -[cpueaxh_copy_segment_in cpueaxh_copy_segment_out]. rewrite !segment_in_out.
  match goal with |- context [mkExc (exc_code ?e) (exc_error_code ?e)] => by destruct e end.
Qed.

(** Contexts round-trip.  Reading a context changes nothing; writing back what was read changes
    nothing but the cached decoding mode (and the long mode flag, which is always on); writing a
    context and reading it gives it back with flags as 0 or 1; the last write wins; a NULL context is
    refused; no other part of the engine changes. *)
Theorem context_interface_round_trip x y e :
  let snapshot := cpueaxh_context_out (en_context e) in
  cpueaxh_context_read true e = ((CPUEAXH_ERR_OK, Some snapshot), e) /\
  cpueaxh_context_write (Some snapshot) e =
    (CPUEAXH_ERR_OK, set_en_context (set_c_cached_mode_key_valid false (set_c_long_mode_active true (en_context e))) e) /\
  (let '(status, e1) := cpueaxh_context_write (Some x) e in
   status = CPUEAXH_ERR_OK /\ e1 = set_en_context (en_context e1) e /\
   cpueaxh_context_read true e1 = ((CPUEAXH_ERR_OK, Some (normal_context x)), e1) /\
   cpueaxh_context_write (Some x) (snd (cpueaxh_context_write (Some y) e)) = (CPUEAXH_ERR_OK, e1) /\
   cpueaxh_context_write (Some (normal_context x)) e = (CPUEAXH_ERR_OK, e1)) /\
  cpueaxh_context_write None e = (CPUEAXH_ERR_ARG, e) /\ cpueaxh_context_read false e = ((CPUEAXH_ERR_ARG, None), e).
Proof.
  cbv zeta. split; [done |]. split.
  { unfold cpueaxh_context_write, st_bind, mod_ctx, st_modify, st_ret. by rewrite context_in_out. }
  split; [| done]. unfold cpueaxh_context_write, cpueaxh_context_read, st_bind, mod_ctx, st_modify, st_ret, get_ctx, st_gets.
  cbn [snd negb en_context set_en_context]. rewrite context_out_in. split_and!; try done.
  assert (Hn : forall s, cpueaxh_copy_segment_in (normal_segment s) = cpueaxh_copy_segment_in s).
  { intros [? [? ? ? ? p g d l]]. unfold cpueaxh_copy_segment_in, normal_segment. cbn. by destruct p, g, d, l. }
  replace (cpueaxh_context_in (normal_context x) (en_context e)) with (cpueaxh_context_in x (en_context e)); [done |].
  unfold cpueaxh_context_in, normal_context. cbn [x_regs x_rip x_rflags x_xmm x_ymm_upper x_zmm_upper x_opmask x_mm x_mxcsr
    x_es x_cs x_ss x_ds x_fs x_gs x_gdtr_base x_gdtr_limit x_ldtr_base x_ldtr_limit x_cpl x_code_exception
    x_error_code_exception x_control_regs x_processor_id]. by rewrite !Hn.
Qed.

(** ** The cached decoding mode *)

Lemma put_mode heap value slot ctx :
  slot <> SSegment SEG_CS CPUEAXH_SEGMENT_FIELD_DB -> slot <> SSegment SEG_CS CPUEAXH_SEGMENT_FIELD_LONG_MODE ->
  cpu_inst_cache_compute_mode_key_bits (slot_put heap value slot ctx) = cpu_inst_cache_compute_mode_key_bits ctx.
Proof.
  intros Hd Hl. destruct slot as [| | | | | | | | | | | | | | | | | | i f]; try reflexivity.
  cbn [slot_put]. unfold set_segment_of, segment_of.
  destruct (i =? SEG_ES); [by destruct f |]. destruct (i =? SEG_CS) eqn:E.
  - apply Z.eqb_eq in E as ->. destruct f; try done; reflexivity.
  - destruct (i =? SEG_SS), (i =? SEG_DS), (i =? SEG_FS), f; reflexivity.
Qed.

Lemma put_cached_key heap value slot ctx :
  c_cached_mode_key_valid (slot_put heap value slot ctx) = c_cached_mode_key_valid ctx /\
  c_cached_mode_key_bits (slot_put heap value slot ctx) = c_cached_mode_key_bits ctx.
Proof.
  destruct slot as [| | | | | | | | | | | | | | | | | | i f]; try (split; reflexivity).
  cbn [slot_put]. unfold set_segment_of.
  destruct (i =? SEG_ES), (i =? SEG_CS), (i =? SEG_SS), (i =? SEG_DS), (i =? SEG_FS), f; split; reflexivity.
Qed.

(** A mode change by register number goes unnoticed.  A step looks decoded instructions up under
    the cached mode key.  Every register write but two, and every context write, keeps that key equal
    to the CPU's mode; but writing CS.DB or CS.LONG_MODE by register number leaves a valid key as it
    was: when the bit changes, the key is that of the old mode, and differs from the CPU's mode. *)
Theorem mode_register_write_is_missed regid value e
  (Hvalue : is_null value = false) (Hkey : mode_key_ok (en_context e)) (Hvalid : c_cached_mode_key_valid (en_context e) = true) :
  let '(_, e1) := cpueaxh_reg_write regid value e in
  let bit := nonzero (Z.land (in32 (ms_heap (en_mem e)) value) 1) in
  let changed := (regid = CPUEAXH_X86_REG_CS_DB /\ bit <> cs_db (en_context e)) \/
                 (regid = CPUEAXH_X86_REG_CS_LONG_MODE /\ bit <> cs_long_mode (en_context e)) in
  result cpu_inst_cache_mode_key (en_context e1) = cpu_inst_cache_compute_mode_key_bits (en_context e) /\
  (changed <-> result cpu_inst_cache_mode_key (en_context e1) <> cpu_inst_cache_compute_mode_key_bits (en_context e1)) /\
  forall x, mode_key_ok (en_context (snd (cpueaxh_context_write (Some x) e))).
Proof.
  rewrite reg_write_api by exact Hvalue.
  assert (Hw : forall x, mode_key_ok (en_context (snd (cpueaxh_context_write (Some x) e)))) by (intros x Hx; discriminate Hx).
  assert (Hold : result cpu_inst_cache_mode_key (en_context e) = cpu_inst_cache_compute_mode_key_bits (en_context e))
    by (unfold result, cpu_inst_cache_mode_key; rewrite Hvalid; by apply Hkey).
  destruct (slot_of regid) as [slot |] eqn:Es.
  2: { cbv zeta. split_and!; [done | | done]. rewrite Hold. split; [| done].
       intros [[-> _] | [-> _]]; vm_compute in Es; discriminate Es. }
  cbn [en_context set_en_context]. set (heap := ms_heap (en_mem e)) in *. cbv zeta.
  destruct (put_cached_key heap value slot (en_context e)) as [Kv Kb].
  assert (Hres : result cpu_inst_cache_mode_key (slot_put heap value slot (en_context e)) = cpu_inst_cache_compute_mode_key_bits (en_context e)).
  { unfold result, cpu_inst_cache_mode_key. rewrite Kv, Kb, Hvalid. by apply Hkey. }
  split_and!; [exact Hres | | done]. rewrite Hres.
  destruct (decide (slot = SSegment SEG_CS CPUEAXH_SEGMENT_FIELD_DB)) as [-> | Hd].
  { assert (regid = CPUEAXH_X86_REG_CS_DB) as -> by (by eapply slot_of_inj).
    unfold cpu_inst_cache_compute_mode_key_bits, cs_db, cs_long_mode. cbn -[buffer_le Z.land].
    destruct (c_long_mode_active _), (sd_long_mode _), (sd_db _), (nonzero _); cbn;
      (split; [intros [[_ H] | [H _]]; [first [congruence | intros Hk; vm_compute in Hk; discriminate Hk] | discriminate H] | intros H; left; split; [done | congruence]]). }
  destruct (decide (slot = SSegment SEG_CS CPUEAXH_SEGMENT_FIELD_LONG_MODE)) as [-> | Hl].
  { assert (regid = CPUEAXH_X86_REG_CS_LONG_MODE) as -> by (by eapply slot_of_inj).
    unfold cpu_inst_cache_compute_mode_key_bits, cs_db, cs_long_mode. cbn -[buffer_le Z.land].
    destruct (c_long_mode_active _), (sd_long_mode _), (sd_db _), (nonzero _); cbn;
      (split; [intros [[H _] | [_ H]]; [discriminate H | first [congruence | intros Hk; vm_compute in Hk; discriminate Hk]] | intros H; right; split; [done | congruence]]). }
  rewrite put_mode by done. split; [| done].
  intros [[-> _] | [-> _]]; vm_compute in Es; injection Es as <-; done.
Qed.

Module ApiContextExample.
Import EngineExample.

Definition eight : Buffer := Local [1; 2; 3; 4; 5; 6; 7; 8].

Lemma local_bytes heap bytes : Forall (in_word 8) bytes -> byte_buffer heap (Local bytes).
Proof.
  intros Hall index. cbn [buffer_byte]. unfold arr_get.
  destruct (nth_in_or_default (Z.to_nat index) bytes 0) as [Hin | ->]; [| split; lia].
  rewrite Forall_forall in Hall. apply Hall. by apply list_elem_of_In.
Qed.

Lemma eight_bytes heap : byte_buffer heap eight.
Proof. apply local_bytes. repeat constructor; cbn; lia. Qed.

Lemma engine_shape : ctx_shape (en_context engine).
Proof. by split. Qed.

Lemma register_interface_round_trip_witness :
  exists ctx, cpueaxh_reg_write CPUEAXH_X86_REG_R9 eight engine = (CPUEAXH_ERR_OK, set_en_context ctx engine) /\
  cpueaxh_reg_read_raw ctx CPUEAXH_X86_REG_R9 eight = (CPUEAXH_ERR_OK, [1; 2; 3; 4; 5; 6; 7; 8]) /\
  cpueaxh_reg_read_raw ctx CPUEAXH_X86_REG_R10 eight = (CPUEAXH_ERR_OK, repeat 0 8).
Proof.
  assert (H := register_interface_round_trip CPUEAXH_X86_REG_R9 eight engine engine_shape eq_refl (eight_bytes _)).
  change (slot_of CPUEAXH_X86_REG_R9) with (Some (SReg 9)) in H. cbv zeta in H.
  destruct H as (ctx & Hw & _ & Hr & Ho & _). exists ctx. split; [exact Hw |]. split; [exact Hr |].
  rewrite (Ho CPUEAXH_X86_REG_R10 (SReg 10)); [vm_compute; reflexivity | vm_compute; reflexivity | vm_compute; discriminate |].
  intros i j Hi Hj. vm_compute in Hi. discriminate Hi.
Defined.

(** An engine that has made a step in 64-bit mode: the key is cached. *)
Definition stepped : cpueaxh_engine :=
  set_en_context (final cpu_inst_cache_mode_key (en_context engine)) engine.

Lemma mode_register_write_is_missed_witness :
  let '(_, e1) := cpueaxh_reg_write CPUEAXH_X86_REG_CS_LONG_MODE (Local [0; 0; 0; 0]) stepped in
  cpu_is_64bit_code (en_context e1) = false /\
  result cpu_inst_cache_mode_key (en_context e1) <> cpu_inst_cache_compute_mode_key_bits (en_context e1).
Proof.
  assert (Hk : mode_key_ok (en_context stepped)) by (intros _; vm_compute; reflexivity).
  assert (H := mode_register_write_is_missed CPUEAXH_X86_REG_CS_LONG_MODE (Local [0; 0; 0; 0]) stepped eq_refl Hk eq_refl).
  destruct (cpueaxh_reg_write CPUEAXH_X86_REG_CS_LONG_MODE (Local [0; 0; 0; 0]) stepped) as [st e1] eqn:E.
  destruct H as (_ & Hiff & _). split.
  - change e1 with (snd (st, e1)). rewrite <- E. vm_compute. reflexivity.
  - apply Hiff. right. split; [reflexivity |]. vm_compute. discriminate.
Defined.

End ApiContextExample.
