(* ===== verification/EngineApi.v ===== *)
(** * cpueaxh.cpp: the engine's life and the memory interface

    Opening and closing an engine, the memory modes, and the functions that check the embedding
    program's arguments and call the memory manager.  A [size_t] is 64 bits.  The sizes of the
    engine object and of the instruction cache are the compiler's; they are parameters.  An engine
    pointer is never [NULL] here, so [cpueaxh_validate_engine] is OK.  The theorems: a fresh engine
    satisfies every invariant and closing it frees every block it took; mapping, unmapping and
    protecting refuse exactly the arguments the source refuses and otherwise change the guest's
    address map as asked; copies in and out stop at the first byte that may not be accessed. *)

From Stdlib Require Import ZArith Bool List Lia.
From stdpp Require Import base tactics list gmap.
From S2P Require Import Prelude CpuDef HostMemory RegionTable RegionSplit Patches PageCache InstCache Machine CpuMemory Registers ApiContext.

Definition CPUEAXH_ERR_ARCH : Z := 3.
Definition CPUEAXH_ERR_MODE : Z := 4.
Definition CPUEAXH_ERR_MAP : Z := 5.
Definition CPUEAXH_ERR_READ_UNMAPPED : Z := 6.
Definition CPUEAXH_ERR_WRITE_UNMAPPED : Z := 7.
Definition CPUEAXH_ERR_FETCH_UNMAPPED : Z := 8.
Definition CPUEAXH_ERR_EXCEPTION : Z := 9.
Definition CPUEAXH_ERR_READ_PROT : Z := 11.
Definition CPUEAXH_ERR_WRITE_PROT : Z := 12.
Definition CPUEAXH_ERR_FETCH_PROT : Z := 13.
Definition CPUEAXH_ERR_PATCH : Z := 14.

Definition CPUEAXH_ARCH_X86 : Z := 1.
Definition CPUEAXH_MODE_COMPAT32 : Z := 4.
Definition CPUEAXH_MODE_64 : Z := 8.
Definition CPUEAXH_MEMORY_MODE_GUEST : Z := 0.
Definition CPUEAXH_MEMORY_MODE_HOST : Z := 1.

Definition mod_manager (f : MEMORY_MANAGER -> MEMORY_MANAGER) : ST cpueaxh_engine unit := on_mem (mod_mgr f).

Definition cpueaxh_apply_memory_mode (memory_mode : Z) : ST cpueaxh_engine Z :=
  if negb (memory_mode =? CPUEAXH_MEMORY_MODE_GUEST) && negb (memory_mode =? CPUEAXH_MEMORY_MODE_HOST)
  then st_ret CPUEAXH_ERR_MODE
  else
    mod_engine (set_en_memory_mode memory_mode) ;;;
    mod_manager (mm_set_host_passthrough (Z.lor (Z.lor MM_PROT_READ MM_PROT_WRITE) MM_PROT_EXEC)
                   (memory_mode =? CPUEAXH_MEMORY_MODE_HOST)) ;;;
    st_ret CPUEAXH_ERR_OK.

Definition cpueaxh_set_memory_mode (memory_mode : Z) : ST cpueaxh_engine Z := cpueaxh_apply_memory_mode memory_mode.

Definition cpueaxh_translate_access_error (status : MM_ACCESS_STATUS) (perm : Z) : Z :=
  match status with
  | MM_ACCESS_PROT =>
      if perm =? MM_PROT_WRITE then CPUEAXH_ERR_WRITE_PROT
      else if perm =? MM_PROT_EXEC then CPUEAXH_ERR_FETCH_PROT
      else CPUEAXH_ERR_READ_PROT
  | _ =>
      if perm =? MM_PROT_WRITE then CPUEAXH_ERR_WRITE_UNMAPPED
      else if perm =? MM_PROT_EXEC then CPUEAXH_ERR_FETCH_UNMAPPED
      else CPUEAXH_ERR_READ_UNMAPPED
  end.

Definition cpueaxh_translate_patch_error (status : MM_PATCH_STATUS) : Z :=
  match status with
  | MM_PATCH_OK => CPUEAXH_ERR_OK
  | MM_PATCH_ARG => CPUEAXH_ERR_ARG
  | MM_PATCH_NOMEM => CPUEAXH_ERR_NOMEM
  | MM_PATCH_CONFLICT | MM_PATCH_NOT_FOUND => CPUEAXH_ERR_PATCH
  end.

(** ** Copying *)

(** The loop over the byte indices that are left; the source is read byte by byte, after the
    earlier bytes were written. *)
Fixpoint mem_write_loop (indices : list Z) (address : Z) (bytes : Buffer) : ST cpueaxh_engine Z :=
  match indices with
  | [] => st_ret CPUEAXH_ERR_OK
  | index :: indices =>
      let* byte := st_gets (fun e => buffer_byte (ms_heap (en_mem e)) bytes index) in
      let* (status, _) := on_mem (mm_write_byte_checked (u64 (address + index)) byte) in
      match status with
      | MM_ACCESS_OK => mem_write_loop indices address bytes
      | _ => st_ret (cpueaxh_translate_access_error status MM_PROT_WRITE)
      end
  end.

Definition cpueaxh_mem_write_raw (address : Z) (bytes : Buffer) (size : Z) : ST cpueaxh_engine Z :=
  mem_write_loop (seqZ 0 size) address bytes.

(** The status and the bytes read; each is put in the target before the next is read. *)
Fixpoint mem_read_loop (indices : list Z) (address : Z) (target : Buffer) : ST cpueaxh_engine (Z * list Z) :=
  match indices with
  | [] => st_ret (CPUEAXH_ERR_OK, [])
  | index :: indices =>
      let* (status, byte, _) := on_mem (mm_read_byte_checked (u64 (address + index)) MM_PROT_READ) in
      match status, byte with
      | MM_ACCESS_OK, Some byte =>
          put_bytes target index [byte] ;;;
          let* (error, bytes) := mem_read_loop indices address target in
          st_ret (error, byte :: bytes)
      | _, _ => st_ret (cpueaxh_translate_access_error status MM_PROT_READ, [])
      end
  end.

Definition cpueaxh_mem_read_raw (address : Z) (bytes : Buffer) (size : Z) : ST cpueaxh_engine (Z * list Z) :=
  mem_read_loop (seqZ 0 size) address bytes.

Definition cpueaxh_mem_write (address : Z) (bytes : Buffer) (size : Z) : ST cpueaxh_engine Z :=
  if is_null bytes && negb (size =? 0) then st_ret CPUEAXH_ERR_ARG
  else
    let* result := cpueaxh_mem_write_raw address bytes size in
    (if negb (size =? 0) then mod_manager mm_bump_code_version else st_ret tt) ;;;
    st_ret result.

Definition cpueaxh_mem_read (address : Z) (bytes : Buffer) (size : Z) : ST cpueaxh_engine (Z * list Z) :=
  if is_null bytes && negb (size =? 0) then st_ret (CPUEAXH_ERR_ARG, [])
  else cpueaxh_mem_read_raw address bytes size.

Section allocator.
Context `{HostAlloc}.

(** ** Mapping *)

Definition cpueaxh_mem_map (address size perms : Z) : ST cpueaxh_engine Z :=
  if size =? 0 then st_ret CPUEAXH_ERR_ARG
  else if negb (mm_is_page_aligned address) || negb (mm_is_page_aligned size) || mm_range_overflows address size
          || negb (mm_is_valid_perms perms)
  then st_ret CPUEAXH_ERR_ARG
  else
    let* ok := on_mem (mm_map_internal address size perms) in
    st_ret (if negb ok then CPUEAXH_ERR_MAP else CPUEAXH_ERR_OK).

Definition cpueaxh_mem_map_ptr (address size perms host_ptr : Z) : ST cpueaxh_engine Z :=
  if (size =? 0) || (host_ptr =? NULL) then st_ret CPUEAXH_ERR_ARG
  else if negb (mm_is_page_aligned address) || negb (mm_is_page_aligned size) || mm_range_overflows address size
          || negb (mm_is_valid_perms perms)
  then st_ret CPUEAXH_ERR_ARG
  else
    let* ok := on_mem (mm_map_host address size perms host_ptr) in
    st_ret (if negb ok then CPUEAXH_ERR_MAP else CPUEAXH_ERR_OK).

(** The checks of the three range functions; [valid] is the check of the new value. *)
Definition checked_range (valid : bool) (address size : Z) (operation : ST MemState bool) : ST cpueaxh_engine Z :=
  if size =? 0 then st_ret CPUEAXH_ERR_OK
  else if negb (mm_is_page_aligned address) || negb (mm_is_page_aligned size) || mm_range_overflows address size || negb valid
  then st_ret CPUEAXH_ERR_ARG
  else
    let* mapped := st_gets (fun e => mm_check_range_mapped (ms_mgr (en_mem e)) address size) in
    if negb mapped then st_ret CPUEAXH_ERR_MAP
    else let* ok := on_mem operation in st_ret (if ok then CPUEAXH_ERR_OK else CPUEAXH_ERR_MAP).

Definition cpueaxh_mem_unmap (address size : Z) : ST cpueaxh_engine Z :=
  checked_range true address size (mm_unmap address size).

Definition cpueaxh_mem_protect (address size perms : Z) : ST cpueaxh_engine Z :=
  checked_range (mm_is_valid_perms perms) address size (mm_protect address size perms).

Definition cpueaxh_mem_set_cpu_attrs (address size attrs : Z) : ST cpueaxh_engine Z :=
  checked_range (mm_is_valid_cpu_attrs attrs) address size (mm_set_cpu_attrs address size attrs).

(** ** Listing *)

Record cpueaxh_mem_region := mkMemRegion { mr_begin : Z; mr_end : Z; mr_perms : Z; mr_cpu_attrs : Z }.

Definition sizeof_cpueaxh_mem_region : Z := 24.

Definition mem_region_of (source : MEMORY_REGION) : cpueaxh_mem_region :=
  mkMemRegion (r_base source) (u64 (r_base source + r_size source - 1)) (r_perms source) (r_cpu_attrs source).

Definition mem_region_bytes (r : cpueaxh_mem_region) : list Z :=
  out64 (mr_begin r) ++ out64 (mr_end r) ++ out32 (mr_perms r) ++ out32 (mr_cpu_attrs r).

(** The status with [*regions] and [*count]. *)
Definition cpueaxh_mem_regions : ST cpueaxh_engine (Z * Z * Z) :=
  let* mgr := st_gets (fun e => ms_mgr (en_mem e)) in
  let region_count := region_count mgr in
  if region_count =? 0 then st_ret (CPUEAXH_ERR_OK, NULL, 0)
  else if 0xFFFFFFFF <? region_count then st_ret (CPUEAXH_ERR_NOMEM, NULL, 0)
  else
    let* result := on_mem (on_heap (host_alloc_zeroed (u64 (region_count * sizeof_cpueaxh_mem_region)))) in
    if result =? NULL then st_ret (CPUEAXH_ERR_NOMEM, NULL, 0)
    else
      put_bytes (HostPtr result) 0 (flat_map (fun r => mem_region_bytes (mem_region_of r)) (mm_regions mgr)) ;;;
      st_ret (CPUEAXH_ERR_OK, result, u32 region_count).

Definition cpueaxh_free (ptr : Z) : ST cpueaxh_engine unit :=
  if ptr =? NULL then st_ret tt else on_mem (on_heap (host_free ptr)).

(** ** Patches *)

Definition cpueaxh_mem_patch_add (address bytes size : Z) : ST cpueaxh_engine (Z * option Z) :=
  if (bytes =? NULL) && negb (size =? 0) then st_ret (CPUEAXH_ERR_ARG, None)
  else
    let* memory_mode := st_gets en_memory_mode in
    if negb (memory_mode =? CPUEAXH_MEMORY_MODE_HOST) then st_ret (CPUEAXH_ERR_MODE, None)
    else
      let* (status, handle) := on_mem (mm_add_patch address bytes size) in
      st_ret (cpueaxh_translate_patch_error status, handle).

Definition cpueaxh_mem_patch_del (patch : Z) : ST cpueaxh_engine Z :=
  let* status := on_mem (mm_del_patch patch) in
  st_ret (cpueaxh_translate_patch_error status).

(** ** Opening and closing *)

Context (sizeof_engine sizeof_slots : Z).

(** What a [cpueaxh_engine*] points to: the engine with the addresses of its object and of the
    instruction cache's slots. *)
Record engine_object := mkObject { ob_engine : cpueaxh_engine; ob_address : Z; ob_slots : Z }.

(** The engine's memory after [calloc] and [mm_init]. *)
Definition fresh_engine (heap : HostHeap) (context : CPU_CONTEXT) : cpueaxh_engine :=
  mkEngine (mkMem mm_init heap) context ∅ (repeat zero_hook (Z.to_nat CPUEAXH_MAX_HOOKS))
    (repeat 0 (Z.to_nat (CPUEAXH_HOOK_MEM_FETCH_PROT + 1))) (repeat 0 (Z.to_nat (CPUEAXH_ESCAPE_INSN_MAX + 1)))
    [] NULL 0 0 0 false 0.

(** The status, and [*out_engine] or the host as it is left. *)
Definition cpueaxh_open (arch mode : Z) (heap : HostHeap) : Z * (engine_object + HostHeap) :=
  if negb (arch =? CPUEAXH_ARCH_X86) then (CPUEAXH_ERR_ARCH, inr heap)
  else if negb (mode =? CPUEAXH_MODE_64) && negb (mode =? CPUEAXH_MODE_COMPAT32) then (CPUEAXH_ERR_MODE, inr heap)
  else
    let '(address, heap) := host_alloc_zeroed sizeof_engine heap in
    if address =? NULL then (CPUEAXH_ERR_NOMEM, inr heap)
    else
      let '(slots, heap) := host_alloc_zeroed sizeof_slots heap in
      let context := init_cpu_context (mode =? CPUEAXH_MODE_COMPAT32) in
      let context := set_c_owner_engine true context in
      let context := set_c_inst_cache (negb (slots =? NULL)) context in
      let engine := set_en_next_hook 1 (fresh_engine heap context) in
      let engine := set_en_memory_mode CPUEAXH_MEMORY_MODE_GUEST engine in
      let engine := final (cpueaxh_apply_memory_mode CPUEAXH_MEMORY_MODE_GUEST) engine in
      let engine := set_en_last_error CPUEAXH_ERR_OK engine in
      (CPUEAXH_ERR_OK, inl (mkObject engine address slots)).

(** The host as it is left. *)
Definition cpueaxh_close (object : engine_object) : HostHeap :=
  let engine := ob_engine object in
  let mem := if negb (ob_slots object =? NULL) then final (on_heap (host_free (ob_slots object))) (en_mem engine) else en_mem engine in
  let mem := final mm_destroy mem in
  let mem := final (on_heap (host_free (en_escapes_ptr engine))) mem in
  let mem := final (on_heap (host_free (ob_address object))) mem in
  ms_heap mem.

End allocator.

(** ** Shared lemmas *)

Lemma patches_wf_frame m m' : frame_part m' = frame_part m -> patches_wf m -> patches_wf m'.
Proof. intros Hf [H1 H2 H3 H4 H5]. unfold frame_part in Hf. injection Hf as F1 F2 F3 F4 F5 F6 F7 F8 F9. split; by rewrite ?F1, ?F4, ?F5, ?F6. Qed.

Lemma manager_wf_safe s s' : manager_wf s -> mem_wf s' -> cache_safe (ms_mgr s) (ms_mgr s') -> manager_wf s'.
Proof.
  intros [Hm Hp Hc] Hm' Hs. split; [done | | by eapply cache_safe_ok]. eapply patches_wf_frame; [apply Hs | done].
Qed.

Lemma bump_keeps_manager_wf s : manager_wf s -> manager_wf (set_ms_mgr (mm_bump_code_version (ms_mgr s)) s).
Proof.
  intros [[Ht Hb] Hp Hc]. split; [split; [exact Ht | exact Hb] | |].
  - by apply (patches_wf_frame (ms_mgr s)).
  - by apply (cache_ok_same (ms_mgr s)).
Qed.

Lemma bump_keeps_view s a : access_view (set_ms_mgr (mm_bump_code_version (ms_mgr s)) s) a = access_view s a.
Proof. reflexivity. Qed.

(** ** Mapping *)

(** A call that changes the engine's memory only, keeps its invariant, and either refuses with a
    status and no effect or does what [effect] says. *)
Definition memory_call (e : cpueaxh_engine) (refused : option Z) (effect : Z -> MemState -> Prop) (res : Z * cpueaxh_engine) : Prop :=
  let '(status, e') := res in
  e' = set_en_mem (en_mem e') e /\ manager_wf (en_mem e') /\
  match refused with
  | Some error => status = error /\ e' = e
  | None => (status = CPUEAXH_ERR_OK \/ status = CPUEAXH_ERR_MAP) /\ effect status (en_mem e')
  end.

Definition aligned (address size : Z) : bool := mm_is_page_aligned address && mm_is_page_aligned size.

(** The range lies inside the 64-bit address space. *)
Definition fits (address size : Z) : bool := address + size <=? 2 ^ 64.

(** When mapping is refused for its arguments. *)
Definition mapping_refused (address size perms : Z) : option Z :=
  if (0 <? size) && aligned address size && fits address size && mm_is_valid_perms perms then None
  else Some CPUEAXH_ERR_ARG.

(** When a range function does nothing: an empty range is fine; bad arguments are refused, a range
    that passes the end of the address space among them; a range that ends exactly there is
    reported as done although nothing is, since its end is computed as 0; and a range with a hole is
    refused. *)
Definition range_refused (e : cpueaxh_engine) (valid : bool) (address size : Z) : option Z :=
  if size =? 0 then Some CPUEAXH_ERR_OK
  else if negb (aligned address size && fits address size && valid) then Some CPUEAXH_ERR_ARG
  else if address + size =? 2 ^ 64 then Some CPUEAXH_ERR_OK
  else if negb (forallb (mapped (mm_regions (ms_mgr (en_mem e)))) (seqZ address size)) then Some CPUEAXH_ERR_MAP
  else None.

(** The effect of mapping [size] bytes: on success new cells where there were none, otherwise none. *)
Definition mapping_effect (e : cpueaxh_engine) (address size : Z) (cell : Z -> guest_cell) (status : Z) (s' : MemState) : Prop :=
  if status =? CPUEAXH_ERR_OK then
    (forall a, in_range address size a = true -> guest_view (en_mem e) a = None) /\
    (forall a, guest_view s' a = if in_range address size a then Some (cell a) else guest_view (en_mem e) a)
  else forall a, guest_view s' a = guest_view (en_mem e) a.

(** The effect of a range function: the rule applied up to some point, the end on success. *)
Definition range_effect (e : cpueaxh_engine) (address size : Z) (rule : guest_cell -> option guest_cell) (status : Z) (s' : MemState) : Prop :=
  exists stop, address <= stop <= address + size /\ (status = CPUEAXH_ERR_OK -> stop = address + size) /\
    forall a, guest_view s' a =
      match guest_view (en_mem e) a with
      | Some cell => if in_range address (stop - address) a then rule cell else Some cell
      | None => None
      end.

Lemma refused_call e error effect : manager_wf (en_mem e) -> memory_call e (Some error) effect (error, e).
Proof. intros Hwf. split_and!; [by destruct e | done..]. Qed.

Section interface.
Context `{HostAllocLaws}.

(** The overflow check is exact. *)
Lemma range_overflows_fits address size :
  in_word 64 address -> in_word 64 size -> size <> 0 -> mm_range_overflows address size = negb (fits address size).
Proof.
  intros Ha Hs Hn. unfold fits. destruct (Z.leb_spec (address + size) (2 ^ 64)) as [Hle | Hgt]; cbn [negb].
  - apply range_overflow_false; unfold in_word in *; lia.
  - destruct (mm_range_overflows address size) eqn:E; [done |]. apply range_overflow_bound in E; [lia | done..].
Qed.

(** A range that ends with the address space is not looked at. *)
Lemma range_top_unseen valid middle address size s :
  in_word 64 address -> in_word 64 size -> address + size = 2 ^ 64 ->
  mm_check_range_mapped (ms_mgr s) address size = true /\
  (mm_is_page_aligned address = true -> mm_is_page_aligned size = true -> valid = true ->
   mm_split_range valid middle address size s = (true, s)).
Proof.
  intros [? ?] [? ?] Ht.
  assert (Hchk : mm_check_range_mapped (ms_mgr s) address size = true).
  { unfold mm_check_range_mapped. destruct (Z.eqb_spec size 0); [done |].
    rewrite range_overflow_false by lia. rewrite Ht. change (u64 (2 ^ 64)) with 0. cbn [check_range_loop].
    by destruct (Z.ltb_spec address 0); [lia |]. }
  split; [done |]. intros Hpa Hps ->. unfold mm_split_range, st_bind, st_gets. rewrite Hchk, Hpa, Hps.
  destruct (Z.eqb_spec size 0); [done |]. rewrite range_overflow_false by lia. cbn [negb orb]. rewrite Ht.
  change (u64 (2 ^ 64)) with 0. cbn [split_loop]. by destruct (Z.ltb_spec address 0); [lia |].
Qed.

Lemma range_call address size valid middle rule e :
  manager_wf (en_mem e) -> in_word 64 address -> in_word 64 size ->
  (forall b p t, rule (b, p, t) = apply_rule middle (Some (b, p, t))) ->
  memory_call e (range_refused e valid address size) (range_effect e address size rule)
    (checked_range valid address size (mm_split_range valid middle address size) e).
Proof.
  intros Hwf Hwa Hws Hrule. unfold checked_range, range_refused, aligned.
  destruct (Z.eqb_spec size 0); [by apply refused_call |].
  rewrite range_overflows_fits by done.
  destruct (mm_is_page_aligned address) eqn:Ea; cbn [andb negb orb]; [| by apply refused_call].
  destruct (mm_is_page_aligned size) eqn:Es; cbn [andb negb orb]; [| by apply refused_call].
  destruct (fits address size) eqn:Ef; cbn [andb negb orb]; [| by apply refused_call].
  destruct valid; cbn [negb orb andb]; [| by apply refused_call].
  apply Z.leb_le in Ef. unfold st_bind, st_gets.
  destruct (Z.eqb_spec (address + size) (2 ^ 64)) as [Ht | Ht].
  { destruct (range_top_unseen true middle address size (en_mem e) Hwa Hws Ht) as [-> Hsp]. cbn [negb].
    unfold on_mem, st_zoom. rewrite Hsp by done. replace (set_en_mem (en_mem e) e) with e by (by destruct e).
    by apply refused_call. }
  destruct Hwa as [Ha _], Hws as [Hs _]. assert (He : address + size < 2 ^ 64) by lia.
  pose proof (mm_check_range_mapped_spec _ address size (mw_table _ (mgw_mem _ Hwf)) Ha Hs He) as Hc.
  assert (forallb (mapped (mm_regions (ms_mgr (en_mem e)))) (seqZ address size) = mm_check_range_mapped (ms_mgr (en_mem e)) address size) as ->.
  { apply eq_true_iff_eq. rewrite Hc, forallb_forall. split; intros Hall a Hin; apply Hall.
    - apply list_elem_of_In, elem_of_seqZ. lia.
    - apply list_elem_of_In, elem_of_seqZ in Hin. lia. }
  destruct (mm_check_range_mapped _ address size); cbn [negb]; [| by apply refused_call].
  pose proof (mm_split_range_spec true middle address size (en_mem e) (mgw_mem _ Hwf) Ha Hs He) as Hd.
  unfold on_mem, st_zoom. destruct (mm_split_range true middle address size (en_mem e)) as [ok s'].
  unfold range_done in Hd. cbn [fst snd] in Hd. destruct Hd as (Hw & Hcs & stop & Hstop & Hok & Hv).
  split_and!; [done | by eapply manager_wf_safe | by destruct ok; auto |].
  exists stop. split_and!; [apply Hstop.. | by destruct ok; auto |]. intros a. cbn [en_mem set_en_mem].
  rewrite Hv. unfold chunk_rule. destruct (guest_view (en_mem e) a) as [[[b p] t] |]; [by rewrite Hrule |].
  by destruct (in_range _ _ a).
Qed.

Lemma mapping_call address size perms (ok : bool) s' cell e :
  manager_wf (en_mem e) -> mem_wf s' -> frame_part (ms_mgr s') = frame_part (ms_mgr (en_mem e)) ->
  (if ok then
     mm_page_cache (ms_mgr s') = empty_cache /\
     (forall a, in_range address size a = true -> guest_view (en_mem e) a = None) /\
     (forall a, guest_view s' a = if in_range address size a then Some (cell a) else guest_view (en_mem e) a)
   else mm_page_cache (ms_mgr s') = mm_page_cache (ms_mgr (en_mem e)) /\ mm_regions (ms_mgr s') = mm_regions (ms_mgr (en_mem e)) /\
     (forall a, guest_view s' a = guest_view (en_mem e) a)) ->
  mapping_refused address size perms = None ->
  memory_call e (mapping_refused address size perms) (mapping_effect e address size cell)
    (if negb ok then CPUEAXH_ERR_MAP else CPUEAXH_ERR_OK, set_en_mem s' e).
Proof.
  intros Hwf Hw Hf Hres ->. split_and!; [done | | by destruct ok; auto |].
  - cbn [en_mem set_en_mem]. apply (manager_wf_safe (en_mem e)); [done.. |]. split; [done |].
    destruct ok; [left; apply Hres | right; split; apply Hres].
  - unfold mapping_effect. destruct ok; [exact (proj2 Hres) | exact (proj2 (proj2 Hres))].
Qed.

(** Mapping with bad arguments is refused; otherwise the range fits and the checks pass. *)
Lemma mapping_refused_cases address size perms :
  in_word 64 address -> in_word 64 size ->
  let checks := negb (mm_is_page_aligned address) || negb (mm_is_page_aligned size) || mm_range_overflows address size
                || negb (mm_is_valid_perms perms) in
  (mapping_refused address size perms = Some CPUEAXH_ERR_ARG /\ (size =? 0) || checks = true) \/
  (mapping_refused address size perms = None /\ (size =? 0) = false /\ checks = false /\ address + size <= 2 ^ 64).
Proof.
  intros Ha Hs. unfold mapping_refused, aligned. destruct (Z.eqb_spec size 0) as [-> | Hz].
  - left. by rewrite Z.ltb_irrefl.
  - rewrite range_overflows_fits by done. destruct (Z.ltb_spec 0 size); [| unfold in_word in *; lia]. cbn [andb orb].
    destruct (mm_is_page_aligned address), (mm_is_page_aligned size), (fits address size) eqn:Ef, (mm_is_valid_perms perms); cbn; auto.
    right. split_and!; [done.. |]. by apply Z.leb_le.
Qed.

(** C17: the mapping interface refines operations on the guest's address map.  Each of the five calls
    touches nothing of the engine but its memory and keeps the manager's invariant.  Bad sizes,
    alignments, permissions or attributes, a NULL client pointer and a range that passes the end of
    the 64-bit address space are refused with CPUEAXH_ERR_ARG and a range with a hole with
    CPUEAXH_ERR_MAP, without effect; unmapping or protecting nothing succeeds.  Otherwise mapping
    adds zeroed pages, or the client's, where nothing was mapped, or fails without effect; and
    unmapping, protecting and setting attributes change exactly the range, or on a failure a front
    part of it.  One range is special: it ends exactly at 2^64.  The three range functions report
    success there and do nothing, as the last step of their refusals says; the claim about the two
    mapping functions leaves it out, since they accept it and lose the region. *)
Theorem mapping_interface_refines_guest_map address size perms attrs host_ptr e
  (Hwf : manager_wf (en_mem e)) (Ha : in_word 64 address) (Hs : in_word 64 size) :
  (address + size <> 2 ^ 64 ->
   memory_call e (mapping_refused address size perms)
     (mapping_effect e address size (fun _ => (0, perms, MM_CPU_ATTR_USER)))
     (cpueaxh_mem_map address size perms e)) /\
  (address + size <> 2 ^ 64 -> host_ptr <> NULL ->
   (mapping_refused address size perms = None ->
    client_range (manager_blocks (ms_mgr (en_mem e)) ++ region_blocks (mm_regions (ms_mgr (en_mem e))))
      (ms_heap (en_mem e)) host_ptr size) ->
   memory_call e (mapping_refused address size perms)
     (mapping_effect e address size (fun a => (hh_bytes (ms_heap (en_mem e)) (host_ptr + (a - address)), perms, MM_CPU_ATTR_USER)))
     (cpueaxh_mem_map_ptr address size perms host_ptr e)) /\
  cpueaxh_mem_map_ptr address size perms NULL e = (CPUEAXH_ERR_ARG, e) /\
  memory_call e (range_refused e true address size) (range_effect e address size (fun _ => None))
    (cpueaxh_mem_unmap address size e) /\
  memory_call e (range_refused e (mm_is_valid_perms perms) address size)
    (range_effect e address size (fun '(b, _, t) => Some (b, perms, t)))
    (cpueaxh_mem_protect address size perms e) /\
  memory_call e (range_refused e (mm_is_valid_cpu_attrs attrs) address size)
    (range_effect e address size (fun '(b, p, _) => Some (b, p, attrs)))
    (cpueaxh_mem_set_cpu_attrs address size attrs e).
Proof.
  pose proof (mapping_refused_cases address size perms Ha Hs) as Hcases. cbv zeta in Hcases.
  split_and!.
  - intros Ht. unfold cpueaxh_mem_map. destruct Hcases as [[-> Hno] | (Hr & Hz & Hck & Hle)].
    { destruct (size =? 0); [by apply refused_call |]. cbn [orb] in Hno. rewrite Hno. by apply refused_call. }
    rewrite Hz, Hck. unfold st_bind, on_mem, st_zoom.
    destruct (mm_map_internal address size perms (en_mem e)) as [ok s'] eqn:E.
    assert (He : address + size < 2 ^ 64) by lia.
    destruct (mm_map_internal_ok _ _ _ _ _ _ (mgw_mem _ Hwf) (proj1 Ha) (proj1 Hs) He E) as (Hw & Hf & Hres). by apply mapping_call.
  - intros Ht Hp Hcl. unfold cpueaxh_mem_map_ptr.
    assert (Hptr : (host_ptr =? NULL) = false) by (by apply Z.eqb_neq).
    rewrite Hptr, orb_false_r. destruct Hcases as [[-> Hno] | (Hr & Hz & Hck & Hle)].
    { destruct (size =? 0); [by apply refused_call |]. cbn [orb] in Hno. rewrite Hno. by apply refused_call. }
    rewrite Hz, Hck. unfold st_bind, on_mem, st_zoom.
    destruct (mm_map_host address size perms host_ptr (en_mem e)) as [ok s'] eqn:E.
    assert (He : address + size < 2 ^ 64) by lia.
    destruct (mm_map_host_ok _ _ _ _ _ _ _ (mgw_mem _ Hwf) (proj1 Ha) (proj1 Hs) He (Hcl Hr) E) as (Hw & Hf & Hres). by apply mapping_call.
  - unfold cpueaxh_mem_map_ptr. by rewrite orb_true_r.
  - by apply range_call.
  - by apply range_call.
  - by apply range_call.
Qed.

(** ** Copies *)

(** The indices before the first byte that may not be accessed, and that byte's status. *)
Fixpoint allowed_prefix (s : MemState) (perm address : Z) (indices : list Z) : list Z * option MM_ACCESS_STATUS :=
  match indices with
  | [] => ([], None)
  | index :: indices =>
      match access_status s (u64 (address + index)) perm with
      | MM_ACCESS_OK => let '(allowed, refusal) := allowed_prefix s perm address indices in (index :: allowed, refusal)
      | status => ([], Some status)
      end
  end.

Definition copy_error (perm : Z) (refusal : option MM_ACCESS_STATUS) : Z :=
  match refusal with None => CPUEAXH_ERR_OK | Some status => cpueaxh_translate_access_error status perm end.

(** What an access sees after the bytes of [indices] were copied in, in this order. *)
Definition copied (s : MemState) (address : Z) (byte : Z -> Z) (indices : list Z) (c : Z) : option guest_cell :=
  match access_view s c with
  | Some (b, p, t) =>
      Some (match List.find (fun index => host_address s c =? host_address s (u64 (address + index))) (rev indices) with
            | Some index => byte index
            | None => b
            end, p, t)
  | None => None
  end.

(** The byte an access sees. *)
Definition byte_seen (s : MemState) (address : Z) : Z := match access_view s address with Some (b, _, _) => b | None => 0 end.

(** Reading the buffer does not meet what is written. *)
Definition source_apart (s : MemState) (address size : Z) (bytes : Buffer) : Prop :=
  match bytes with
  | Local _ => True
  | HostPtr p => forall i j, 0 <= i < size -> 0 <= j < size -> ptr_add p i <> host_address s (u64 (address + j))
  end.

Lemma copied_nil s address byte c : access_view s c = copied s address byte [] c.
Proof. unfold copied. by destruct (access_view s c) as [[[? ?] ?] |]. Qed.

Lemma allowed_prefix_ext s s' perm address indices :
  (forall a, access_status s' a perm = access_status s a perm) -> allowed_prefix s' perm address indices = allowed_prefix s perm address indices.
Proof. intros Hs. induction indices as [| i indices IH]; [done |]. cbn. by rewrite Hs, IH. Qed.

Lemma allowed_prefix_in s perm address (P : Z -> Prop) indices : Forall P indices -> Forall P (fst (allowed_prefix s perm address indices)).
Proof.
  induction 1 as [| i indices Hi _ IH]; cbn; [constructor |].
  destruct (access_status s (u64 (address + i)) perm); [| constructor..].
  destruct (allowed_prefix s perm address indices). by constructor.
Qed.

Lemma view_status s s' : (forall a, option_map (fun '(b, p, t) => (p, t)) (access_view s' a) = option_map (fun '(b, p, t) => (p, t)) (access_view s a)) ->
  forall a perm, access_status s' a perm = access_status s a perm.
Proof.
  intros Hv a perm. specialize (Hv a). unfold access_status.
  destruct (access_view s' a) as [[[? ?] ?] |], (access_view s a) as [[[? ?] ?] |]; cbn in Hv; try done.
  by injection Hv as -> ->.
Qed.

(** A checked write stores at the host address it resolves to, or nowhere. *)
Lemma write_byte_heap a v s st attrs s' :
  manager_wf s -> in_word 64 a -> mm_write_byte_checked a v s = ((st, attrs), s') ->
  forall p, load p (ms_heap s') = if status_ok st && (p =? host_address s a) then u8 v else load p (ms_heap s).
Proof.
  intros Hs Ha Hrun p. unfold mm_write_byte_checked, st_bind in Hrun.
  destruct (mm_get_ptr_checked a MM_PROT_WRITE s) as [[[st1 ptr] at1] s1] eqn:E.
  destruct (mm_get_ptr_checked_spec _ _ _ _ _ _ _ Hs Ha E) as ([Hh _] & _ & Hst & Hres).
  destruct st1.
  2,3: injection Hrun as <- <- <-; cbn [status_ok andb]; by rewrite Hh.
  unfold access_status in Hst. destruct (access_view s a) as [[[b q] t] |]; [| done].
  destruct Hres as [_ Hptr]. specialize (Hptr eq_refl). subst ptr. injection Hrun as <- <- <-. cbn [status_ok andb].
  transitivity (load p (snd (store (host_address s a) v (ms_heap s1)))); [done |]. by rewrite load_store, Hh.
Qed.

Lemma write_byte_version a v s : 
  manager_wf s -> in_word 64 a -> mm_code_version (ms_mgr (final (mm_write_byte_checked a v) s)) = mm_code_version (ms_mgr s).
Proof.
  intros Hs Ha. unfold final, mm_write_byte_checked, st_bind.
  destruct (mm_get_ptr_checked a MM_PROT_WRITE s) as [[[st1 ptr] at1] s1] eqn:E.
  destruct (mm_get_ptr_checked_spec _ _ _ _ _ _ _ Hs Ha E) as ([_ (c & Hm)] & _).
  transitivity (mm_code_version (ms_mgr s1)); [by destruct st1 | by rewrite Hm].
Qed.

Lemma mem_write_loop_version indices address bytes : forall e,
  manager_wf (en_mem e) -> mm_code_version (ms_mgr (en_mem (final (mem_write_loop indices address bytes) e))) = mm_code_version (ms_mgr (en_mem e)).
Proof.
  induction indices as [| i indices IH]; intros e Hwf; [done |]. unfold final. cbn [mem_write_loop].
  unfold st_bind at 1, st_gets. unfold st_bind, on_mem, st_zoom.
  set (byte := buffer_byte _ _ _). assert (Ha : in_word 64 (u64 (address + i))) by (apply wrap_range; lia).
  pose proof (write_byte_version _ byte _ Hwf Ha) as Hv. unfold final in Hv.
  destruct (mm_write_byte_checked (u64 (address + i)) byte (en_mem e)) as [[st attrs] s1] eqn:E.
  destruct (mm_write_byte_checked_spec _ _ _ _ _ _ Hwf Ha E) as (Hwf1 & _).
  destruct st; [| exact Hv..]. rewrite <- Hv. exact (IH (set_en_mem s1 e) Hwf1).
Qed.

Lemma mem_write_loop_spec address bytes size indices : forall e,
  manager_wf (en_mem e) -> source_apart (en_mem e) address size bytes -> Forall (fun i => 0 <= i < size) indices ->
  (forall i, in_word 8 (buffer_byte (ms_heap (en_mem e)) bytes i)) ->
  let '(allowed, refusal) := allowed_prefix (en_mem e) MM_PROT_WRITE address indices in
  let '(status, e') := mem_write_loop indices address bytes e in
  status = copy_error MM_PROT_WRITE refusal /\ e' = set_en_mem (en_mem e') e /\ manager_wf (en_mem e') /\
  (forall c, host_address (en_mem e') c = host_address (en_mem e) c) /\
  forall c, access_view (en_mem e') c = copied (en_mem e) address (buffer_byte (ms_heap (en_mem e)) bytes) allowed c.
Proof.
  induction indices as [| i indices IH]; intros e Hwf Hap Hin Hb.
  { cbn. split_and!; [done | by destruct e | done | done | intros c; by apply copied_nil]. }
  apply Forall_cons in Hin as [Hi Hin]. cbn [allowed_prefix mem_write_loop].
  unfold st_bind at 1, st_gets. unfold st_bind, on_mem, st_zoom.
  set (a := u64 (address + i)). set (byte := buffer_byte (ms_heap (en_mem e)) bytes i).
  assert (Ha : in_word 64 a) by (apply wrap_range; lia).
  destruct (mm_write_byte_checked a byte (en_mem e)) as [[st attrs] s1] eqn:E.
  destruct (mm_write_byte_checked_spec _ _ _ _ _ _ Hwf Ha E) as (Hwf1 & Hst & _ & Hh1 & Hv1).
  pose proof (write_byte_heap _ _ _ _ _ _ Hwf Ha E) as Hl1.
  assert (Hst1 : forall c perm, access_status s1 c perm = access_status (en_mem e) c perm).
  { apply view_status. intros c. rewrite Hv1. by destruct (access_view (en_mem e) c) as [[[? ?] ?] |]. }
  rewrite <- Hst. destruct st.
  2,3: cbn; split_and!; [done | done | done | exact Hh1 | intros c; rewrite Hv1; cbn [status_ok andb];
       unfold copied; by destruct (access_view (en_mem e) c) as [[[? ?] ?] |]].
  set (e1 := set_en_mem s1 e).
  assert (Hbuf : forall k, 0 <= k < size -> buffer_byte (ms_heap s1) bytes k = buffer_byte (ms_heap (en_mem e)) bytes k).
  { intros k Hk. destruct bytes as [p | l]; [| done]. cbn [buffer_byte]. rewrite Hl1. cbn [status_ok andb].
    destruct (Z.eqb_spec (ptr_add p k) (host_address (en_mem e) a)) as [Heq |]; [| done]. by destruct (Hap k i). }
  assert (Hb1 : forall k, in_word 8 (buffer_byte (ms_heap s1) bytes k)).
  { intros k. destruct bytes as [p | l]; [| apply Hb]. cbn [buffer_byte]. rewrite Hl1.
    destruct (status_ok _ && _); [apply wrap_range; lia |]. apply (Hb k). }
  assert (Hap1 : source_apart s1 address size bytes).
  { destruct bytes as [p | l]; [| done]. intros k j Hk Hj. rewrite Hh1. by apply Hap. }
  specialize (IH e1 Hwf1 Hap1 Hin Hb1). unfold e1 in IH. cbn [en_mem set_en_mem] in IH. fold e1 in IH.
  rewrite (allowed_prefix_ext (en_mem e) s1) in IH by (intros; apply Hst1).
  destruct (allowed_prefix (en_mem e) MM_PROT_WRITE address indices) as [allowed refusal] eqn:Eal.
  destruct (mem_write_loop indices address bytes e1) as [st' e'].
  destruct IH as (-> & He' & Hwf' & Hh' & Hv'). split_and!; [done | by rewrite He' | done | | ].
  { intros c. by rewrite Hh', Hh1. }
  intros c. rewrite Hv'. unfold copied. rewrite Hv1. cbn [rev]. rewrite find_app. cbn [List.find status_ok andb].
  destruct (access_view (en_mem e) c) as [[[b p] t] |]; [| done]. f_equal. f_equal. f_equal.
  rewrite Hh1.
  assert (Hext : forall l, List.find (fun j => host_address (en_mem e) c =? host_address s1 (u64 (address + j))) l
                 = List.find (fun j => host_address (en_mem e) c =? host_address (en_mem e) (u64 (address + j))) l).
  { induction l as [| x l IHl]; [done |]. cbn. by rewrite Hh1, IHl. }
  rewrite Hext. destruct (List.find _ (rev allowed)) as [j |] eqn:Ef.
  - apply Hbuf. apply List.find_some in Ef as [Hj _]. apply in_rev, list_elem_of_In in Hj.
    assert (Forall (fun i => 0 <= i < size) allowed) as Hall.
    { pose proof (allowed_prefix_in (en_mem e) MM_PROT_WRITE address _ _ Hin) as Hall. by rewrite Eal in Hall. }
    rewrite Forall_forall in Hall. by apply Hall.
  - fold a. destruct (host_address (en_mem e) c =? host_address (en_mem e) a); [| done]. by apply wrap_small, Hb.
Qed.

(** Storing to the target does not meet what is read. *)
Definition target_apart (s : MemState) (address size : Z) (target : Buffer) : Prop :=
  match target with
  | Local _ => True
  | HostPtr q =>
      0 < q /\ q + size <= 2 ^ 64 /\
      forall i j, 0 <= i < size -> 0 <= j < size -> q + i <> host_address s (u64 (address + j))
  end.

Lemma byte_seen_word s a : manager_wf s -> in_word 8 (byte_seen s a).
Proof.
  intros Hwf. unfold byte_seen. destruct (access_view s a) as [[[b p] t] |] eqn:E; [| split; lia].
  apply access_view_host in E as <-. apply (hw_bytes _ (ow_heap _ _ (bk_owns _ _ _ (mw_backed _ (mgw_mem _ Hwf))))).
Qed.

(** What reading does to the memory besides filling the target. *)
Definition target_filled (s s' : MemState) (first : Z) (target : Buffer) (bytes : list Z) : Prop :=
  match target with
  | Local _ => ms_heap s' = ms_heap s /\ forall c, access_view s' c = access_view s c
  | HostPtr q =>
      forall p, load p (ms_heap s') =
        if in_range (q + first) (Z.of_nat (length bytes)) p then arr_get 0 bytes (p - (q + first)) else load p (ms_heap s)
  end.

Lemma nothing_filled s first target : target_filled s s first target [].
Proof.
  destruct target as [q |]; [| done]. intros p. rewrite (proj2 (in_range_false _ _ _)); [done |]. cbn [length]. lia.
Qed.

Lemma mem_read_loop_spec address size target n : forall i e,
  manager_wf (en_mem e) -> target_apart (en_mem e) address size target -> 0 <= i -> i + Z.of_nat n = size ->
  let '(allowed, refusal) := allowed_prefix (en_mem e) MM_PROT_READ address (seqZ i (Z.of_nat n)) in
  let '(status, bytes, e') := mem_read_loop (seqZ i (Z.of_nat n)) address target e in
  status = copy_error MM_PROT_READ refusal /\
  bytes = map (fun k => byte_seen (en_mem e) (u64 (address + k))) allowed /\
  e' = set_en_mem (en_mem e') e /\ manager_wf (en_mem e') /\
  (forall c perm, access_status (en_mem e') c perm = access_status (en_mem e) c perm) /\
  target_filled (en_mem e) (en_mem e') i target bytes.
Proof.
  induction n as [| n IH]; intros i e Hwf Hap Hi Hn.
  { cbn. split_and!; [done | done | by destruct e | done | done |]. apply nothing_filled. }
  rewrite seqZ_cons by lia. replace (Z.pred (Z.of_nat (S n))) with (Z.of_nat n) by lia.
  cbn [allowed_prefix mem_read_loop]. unfold st_bind at 1, on_mem, st_zoom.
  set (a := u64 (address + i)). assert (Ha : in_word 64 a) by (apply wrap_range; lia).
  destruct (mm_read_byte_checked a MM_PROT_READ (en_mem e)) as [[[st byte] attrs] s1] eqn:E.
  destruct (mm_read_byte_checked_spec _ _ _ _ _ _ _ Hwf Ha E) as (Hsc & Hwf1 & Hst & Hbyte & _).
  assert (Hst1 : forall c perm, access_status s1 c perm = access_status (en_mem e) c perm)
    by (intros c perm; unfold access_status; by rewrite (same_but_cache_view _ _ _ Hsc)).
  rewrite <- Hst.
  assert (Hno : st <> MM_ACCESS_OK -> byte = None /\ target_filled (en_mem e) s1 i target []).
  { intros Hne. split; [by destruct st |]. destruct target as [q |]; cbn.
    - intros p. rewrite (proj2 (in_range_false _ _ _)) by (cbn; lia). by destruct Hsc as [-> _].
    - split; [apply Hsc |]. intros c. by apply same_but_cache_view. }
  destruct st.
  2,3: destruct (Hno ltac:(discriminate)) as [-> Ht]; cbn; split_and!; [done | done | done | exact Hwf1 | exact Hst1 | exact Ht].
  clear Hno. unfold access_status in Hst. fold a in Hst.
  destruct (access_view (en_mem e) a) as [[[b p] t] |] eqn:Hv; [| done]. subst byte.
  assert (Hbs : byte_seen (en_mem e) a = b) by (unfold byte_seen; by rewrite Hv).
  assert (Hb : in_word 8 b) by (rewrite <- Hbs; by apply byte_seen_word).
  set (e1 := set_en_mem s1 e).
  assert (Hput : exists s2, put_bytes target i [b] e1 = (tt, set_en_mem s2 e) /\ manager_wf s2 /\
    (forall c perm, access_status s2 c perm = access_status (en_mem e) c perm) /\ target_filled (en_mem e) s2 i target [b] /\
    target_apart s2 address size target /\
    forall j, 0 <= j < size -> byte_seen s2 (u64 (address + j)) = byte_seen (en_mem e) (u64 (address + j))).
  { destruct target as [q | l].
    - destruct Hap as (Hq & Hqs & Hap). cbn [put_bytes]. unfold st_bind, st_ret. rewrite ptr_add_small, store_host_eq by lia.
      exists (set_ms_heap (final (store (q + i) b) (ms_heap s1)) s1). split; [done |].
      assert (Hv2 : forall c, access_view (set_ms_heap (final (store (q + i) b) (ms_heap s1)) s1) c =
        match access_view (en_mem e) c with Some (b0, p0, t0) => Some (if host_address (en_mem e) c =? q + i then b else b0, p0, t0) | None => None end).
      { intros c. rewrite store_access_view, (same_but_cache_view _ _ _ Hsc), (same_but_cache_host _ _ _ Hsc). by rewrite (wrap_small 8). }
      split_and!; [by apply store_mem_wf | | | |].
      + apply view_status. intros c. rewrite Hv2. by destruct (access_view (en_mem e) c) as [[[? ?] ?] |].
      + intros p0. cbn [ms_heap set_ms_heap length]. unfold final. rewrite load_store. destruct Hsc as [-> _].
        destruct (Z.eqb_spec p0 (q + i)) as [Heq |], (in_rangeP (q + i) (Z.of_nat 1) p0); try lia.
        replace (p0 - (q + i)) with 0 by lia. by apply wrap_small.
      + split_and!; [done.. |]. intros k j Hk Hj. change (host_address (set_ms_heap _ s1)) with (host_address s1).
        rewrite (same_but_cache_host _ _ _ Hsc). by apply Hap.
      + intros j Hj. unfold byte_seen. rewrite Hv2. destruct (access_view (en_mem e) (u64 (address + j))) as [[[? ?] ?] |]; [| done].
        destruct (Z.eqb_spec (host_address (en_mem e) (u64 (address + j))) (q + i)) as [Heq |]; [| done]. exfalso. apply (Hap i j); lia.
    - exists s1. split_and!; [done | done | done | | done |].
      + split; [apply Hsc |]. intros c. by apply same_but_cache_view.
      + intros j Hj. unfold byte_seen. by rewrite (same_but_cache_view _ _ _ Hsc). }
  destruct Hput as (s2 & Hput & Hwf2 & Hst2 & Ht2 & Hap2 & Hs2). unfold st_bind. rewrite Hput.
  specialize (IH (Z.succ i) (set_en_mem s2 e) Hwf2 Hap2 ltac:(lia) ltac:(lia)). cbn [en_mem set_en_mem] in IH.
  rewrite (allowed_prefix_ext (en_mem e) s2) in IH by (intros; apply Hst2).
  destruct (allowed_prefix (en_mem e) MM_PROT_READ address (seqZ (Z.succ i) (Z.of_nat n))) as [allowed refusal] eqn:Eal.
  destruct (mem_read_loop (seqZ (Z.succ i) (Z.of_nat n)) address target (set_en_mem s2 e)) as [[st' bytes] e'].
  destruct IH as (-> & -> & He' & Hwf' & Hst' & Ht'). unfold st_ret.
  assert (Hall : Forall (fun k => 0 <= k < size) allowed).
  { assert (Forall (fun k => 0 <= k < size) (seqZ (Z.succ i) (Z.of_nat n))) as Hin by (apply Forall_forall; intros k Hk%elem_of_seqZ; lia).
    pose proof (allowed_prefix_in (en_mem e) MM_PROT_READ address _ _ Hin) as Hall. by rewrite Eal in Hall. }
  assert (Hmap : map (fun k => byte_seen s2 (u64 (address + k))) allowed = map (fun k => byte_seen (en_mem e) (u64 (address + k))) allowed).
  { apply map_ext_in. intros k Hk%list_elem_of_In. apply Hs2. rewrite Forall_forall in Hall. by apply Hall. }
  split_and!; [done | cbn [map]; fold a; by rewrite Hbs, Hmap | by rewrite He' | done | intros c perm; by rewrite Hst', Hst2 |].
  rewrite Hmap in *. destruct target as [q | l].
  - intros p0. rewrite Ht'. cbn [length]. rewrite Nat2Z.inj_succ. rewrite Ht2. cbn [length].
    set (len := Z.of_nat (length (map (fun k => byte_seen (en_mem e) (u64 (address + k))) allowed))).
    assert (0 <= len) by (unfold len; lia).
    destruct (in_rangeP (q + Z.succ i) len p0), (in_rangeP (q + i) (Z.succ len) p0), (in_rangeP (q + i) (Z.of_nat 1) p0); try lia; try done.
    + unfold arr_get. replace (Z.to_nat (p0 - (q + i))) with (S (Z.to_nat (p0 - (q + Z.succ i)))) by lia. done.
    + replace (p0 - (q + i)) with 0 by lia. done.
  - destruct Ht' as [H1 H2], Ht2 as [H3 H4]. split; [congruence |]. intros c. by rewrite H2.
Qed.

(** C18: copies in and out of guest memory.  [cpueaxh_mem_write] copies the buffer's bytes up to the
    first byte that may not be written and returns that byte's error, or CPUEAXH_ERR_OK when there is
    none: exactly the cells behind the host bytes written see the new bytes (the last one where
    several addresses share a host byte), and the code version moves on, so that no cached instruction
    survives.  [cpueaxh_mem_read] gives the bytes up to the first that may not be read, with its
    error, fills the target with them and changes no permission.  A NULL buffer is refused.  Both keep
    the manager's invariant and the rest of the engine. *)
Theorem memory_copies_correct address size bytes target e
  (Hwf : manager_wf (en_mem e)) (Hs : 0 < size) (Hb : is_null bytes = false) (Ht : is_null target = false)
  (Hbytes : byte_buffer (ms_heap (en_mem e)) bytes)
  (Hsrc : source_apart (en_mem e) address size bytes) (Htgt : target_apart (en_mem e) address size target) :
  (let '(allowed, refusal) := allowed_prefix (en_mem e) MM_PROT_WRITE address (seqZ 0 size) in
   let '(status, e') := cpueaxh_mem_write address bytes size e in
   status = copy_error MM_PROT_WRITE refusal /\ e' = set_en_mem (en_mem e') e /\ manager_wf (en_mem e') /\
   (forall c, access_view (en_mem e') c = copied (en_mem e) address (buffer_byte (ms_heap (en_mem e)) bytes) allowed c) /\
   mm_code_version (ms_mgr (en_mem e')) = mm_code_version (mm_bump_code_version (ms_mgr (en_mem e)))) /\
  (let '(allowed, refusal) := allowed_prefix (en_mem e) MM_PROT_READ address (seqZ 0 size) in
   let '(status, read, e') := cpueaxh_mem_read address target size e in
   status = copy_error MM_PROT_READ refusal /\ read = map (fun k => byte_seen (en_mem e) (u64 (address + k))) allowed /\
   e' = set_en_mem (en_mem e') e /\ manager_wf (en_mem e') /\
   (forall c perm, access_status (en_mem e') c perm = access_status (en_mem e) c perm) /\
   target_filled (en_mem e) (en_mem e') 0 target read) /\
  cpueaxh_mem_write address (HostPtr NULL) size e = (CPUEAXH_ERR_ARG, e) /\
  cpueaxh_mem_read address (HostPtr NULL) size e = ((CPUEAXH_ERR_ARG, []), e).
Proof.
  assert (Hz : (size =? 0) = false) by (apply Z.eqb_neq; lia). split_and!.
  - pose proof (mem_write_loop_spec address bytes size (seqZ 0 size) e Hwf Hsrc) as Hl.
    pose proof (mem_write_loop_version (seqZ 0 size) address bytes e Hwf) as Hv. unfold final in Hv.
    specialize (Hl ltac:(apply Forall_forall; intros k Hk%elem_of_seqZ; lia) Hbytes).
    destruct (allowed_prefix (en_mem e) MM_PROT_WRITE address (seqZ 0 size)) as [allowed refusal].
    unfold cpueaxh_mem_write. rewrite Hb, Hz. cbn [andb negb]. unfold cpueaxh_mem_write_raw, st_bind.
    destruct (mem_write_loop (seqZ 0 size) address bytes e) as [st e1]. destruct Hl as (-> & He & Hwf1 & _ & Hview).
    unfold mod_manager, on_mem, st_zoom, mod_mgr, st_modify, st_ret. cbn [snd fst en_mem set_en_mem] in Hv |- *.
    split_and!; [done | by rewrite He | by apply bump_keeps_manager_wf | |].
    + intros c. rewrite bump_keeps_view. apply Hview.
    + unfold mm_bump_code_version. cbn [ms_mgr set_ms_mgr set_mm_code_version mm_code_version]. by rewrite Hv.
  - pose proof (mem_read_loop_spec address size target (Z.to_nat size) 0 e Hwf Htgt) as Hl.
    rewrite Z2Nat.id in Hl by lia. specialize (Hl ltac:(lia) ltac:(lia)).
    unfold cpueaxh_mem_read. rewrite Ht, Hz. exact Hl.
  - unfold cpueaxh_mem_write. by rewrite Hz.
  - unfold cpueaxh_mem_read. by rewrite Hz.
Qed.

(** Every byte of the range allows [perm]. *)
Lemma allowed_all s perm address indices :
  Forall (fun i => access_status s (u64 (address + i)) perm = MM_ACCESS_OK) indices ->
  allowed_prefix s perm address indices = (indices, None).
Proof. induction 1 as [| i indices Hi _ IH]; [done |]. cbn. by rewrite Hi, IH. Qed.

Lemma find_rev_unique {A} (f : A -> bool) l x :
  x ∈ l -> f x = true -> (forall y, y ∈ l -> f y = true -> y = x) -> List.find f (rev l) = Some x.
Proof.
  intros Hx Hf Hu. destruct (List.find f (rev l)) as [y |] eqn:E.
  - apply List.find_some in E as [Hin Hy]. f_equal. apply Hu; [| done]. by apply list_elem_of_In, in_rev.
  - exfalso. apply list_elem_of_In, in_rev in Hx. pose proof (List.find_none _ _ E x Hx). congruence.
Qed.

(** What is written is read back.  When every byte of a range may be read and written and no two
    of its addresses share a host byte, writing a buffer there and reading the range gives
    CPUEAXH_ERR_OK twice and the buffer's bytes; in between, every cell outside the host bytes of the
    range is as before. *)
Theorem memory_copy_round_trip address size bytes e
  (Hwf : manager_wf (en_mem e)) (Hs : 0 < size) (Hb : is_null bytes = false)
  (Hbytes : byte_buffer (ms_heap (en_mem e)) bytes) (Hsrc : source_apart (en_mem e) address size bytes)
  (Hok : forall i, 0 <= i < size -> access_status (en_mem e) (u64 (address + i)) MM_PROT_WRITE = MM_ACCESS_OK /\
                                    access_status (en_mem e) (u64 (address + i)) MM_PROT_READ = MM_ACCESS_OK)
  (Hinj : forall i j, 0 <= i < size -> 0 <= j < size ->
     host_address (en_mem e) (u64 (address + i)) = host_address (en_mem e) (u64 (address + j)) -> i = j) :
  let '(status, e1) := cpueaxh_mem_write address bytes size e in
  let '(status', read, e2) := cpueaxh_mem_read address (Local []) size e1 in
  status = CPUEAXH_ERR_OK /\ status' = CPUEAXH_ERR_OK /\
  read = map (buffer_byte (ms_heap (en_mem e)) bytes) (seqZ 0 size) /\
  forall c, (forall i, 0 <= i < size -> host_address (en_mem e) c <> host_address (en_mem e) (u64 (address + i))) ->
    access_view (en_mem e2) c = access_view (en_mem e) c.
Proof.
  assert (Hz : (size =? 0) = false) by (apply Z.eqb_neq; lia).
  assert (Hin : Forall (fun i => 0 <= i < size) (seqZ 0 size)) by (apply Forall_forall; intros k Hk%elem_of_seqZ; lia).
  pose proof (mem_write_loop_spec address bytes size (seqZ 0 size) e Hwf Hsrc Hin Hbytes) as Hw.
  rewrite allowed_all in Hw by (eapply Forall_impl; [exact Hin |]; intros k Hk; apply (proj1 (Hok k Hk))).
  unfold cpueaxh_mem_write. rewrite Hb, Hz. cbn [andb negb]. unfold cpueaxh_mem_write_raw. unfold st_bind at 1.
  destruct (mem_write_loop (seqZ 0 size) address bytes e) as [st e1]. destruct Hw as (-> & _ & Hwf1 & _ & Hview).
  unfold st_bind, mod_manager, on_mem, st_zoom, mod_mgr, st_modify, st_ret.
  set (s2 := set_ms_mgr (mm_bump_code_version (ms_mgr (en_mem e1))) (en_mem e1)).
  assert (Hv2 : forall c, access_view s2 c = copied (en_mem e) address (buffer_byte (ms_heap (en_mem e)) bytes) (seqZ 0 size) c)
    by (intros c; unfold s2; rewrite bump_keeps_view; apply Hview).
  assert (Hst2 : forall c perm, access_status s2 c perm = access_status (en_mem e) c perm).
  { apply view_status. intros c. rewrite Hv2. unfold copied. by destruct (access_view (en_mem e) c) as [[[? ?] ?] |]. }
  pose proof (mem_read_loop_spec address size (Local []) (Z.to_nat size) 0 (set_en_mem s2 e1)) as Hr.
  rewrite Z2Nat.id in Hr by lia. specialize (Hr (bump_keeps_manager_wf _ Hwf1) I ltac:(lia) ltac:(lia)). cbn [en_mem set_en_mem] in Hr.
  rewrite allowed_all in Hr by (eapply Forall_impl; [exact Hin |]; intros k Hk; rewrite Hst2; apply (proj2 (Hok k Hk))).
  unfold cpueaxh_mem_read. rewrite Hz. cbn [is_null andb negb]. unfold cpueaxh_mem_read_raw.
  change (fst (tt, s2)) with tt. cbn beta iota.
  destruct (mem_read_loop (seqZ 0 size) address (Local []) (set_en_mem s2 e1)) as [[st' read] e2].
  destruct Hr as (-> & -> & _ & _ & _ & _ & Hsame). split_and!; [done | done | |].
  - apply map_ext_in. intros k Hk. rewrite Forall_forall in Hin. apply list_elem_of_In in Hk. pose proof (Hin k Hk) as Hks. cbn in Hks.
    unfold byte_seen. rewrite Hv2. unfold copied. destruct (Hok k Hks) as [_ Hr]. unfold access_status in Hr.
    destruct (access_view (en_mem e) (u64 (address + k))) as [[[b p] t] |]; [| done].
    rewrite (find_rev_unique _ _ k); [done | done | by apply Z.eqb_eq |].
    intros y Hy Heq. apply Z.eqb_eq in Heq. symmetry. apply Hinj; [done | by apply Hin | done].
  - intros c Hc. rewrite Hsame, Hv2. unfold copied. destruct (access_view (en_mem e) c) as [[[b p] t] |]; [| done].
    destruct (List.find _ _) as [i |] eqn:E; [| done]. apply List.find_some in E as [Hi Heq].
    apply in_rev, list_elem_of_In, elem_of_seqZ in Hi. apply Z.eqb_eq in Heq. by destruct (Hc i).
Qed.

(** ** The engine's life *)

(** The invariants of an engine's parts together. *)
Record engine_wf (e : cpueaxh_engine) : Prop := {
  ewf_manager : manager_wf (en_mem e);
  ewf_hooks : hooks_wf e;
  ewf_escapes : escapes_wf e;
  ewf_context : ctx_shape (en_context e);
  ewf_registers : regs_wf (en_context e);
  ewf_mode : mode_key_ok (en_context e);
}.

Lemma null_not_live h : heap_wf h -> hh_blocks h !! NULL = None.
Proof. intros Hh. destruct (hh_blocks h !! NULL) eqn:E; [| done]. pose proof (hw_block _ Hh _ _ E). unfold NULL in *. lia. Qed.

Lemma fresh_manager_wf heap : heap_wf heap -> manager_wf (mkMem (mm_set_host_passthrough 7 false mm_init) heap).
Proof.
  intros Hh. split.
  - split; cbn; [split; constructor |]. split; [| by intros ? ?%elem_of_nil].
    split; [done | constructor | by intros ? ? ?%elem_of_nil].
  - split; constructor.
  - by apply empty_cache_ok.
Qed.

(** The tables as [cpueaxh_open] leaves them. *)
Lemma fresh_tables_wf e :
  en_hooks e = repeat zero_hook 64 -> en_hook_type_counts e = repeat 0 12 -> en_escape_index_by_id e = repeat 0 20 ->
  en_escapes e = [] -> en_next_hook e = 1 -> hooks_wf e /\ escapes_wf e.
Proof.
  intros Hh Hc Hi He Hn. split; split.
  - by rewrite Hh.
  - by rewrite Hc.
  - intros t Ht. unfold count_at. rewrite Hc, Hh. unfold arr_get.
    destruct (nth_in_or_default (Z.to_nat t) (repeat 0 12) 0) as [Hin | ->]; [apply repeat_spec in Hin as -> |]; reflexivity.
  - rewrite Hh. apply Forall_forall. intros h Hin. apply list_elem_of_In, repeat_spec in Hin as ->. intros Hu. discriminate Hu.
  - unfold used_handles. rewrite Hh, He. constructor.
  - lia.
  - unfold used_handles. rewrite Hh, He. constructor.
  - by rewrite He.
  - rewrite He. constructor.
  - unfold cpueaxh_rebuild_escape_index. cbn [en_escape_index_by_id set_en_escape_index_by_id]. by rewrite He, Hi.
Qed.

(** A block just taken can be given back, in any heap with the same live blocks. *)
Lemma alloc_then_free size h p h' :
  heap_wf h -> 0 <= size -> host_alloc_zeroed size h = (p, h') ->
  heap_wf h' /\ (p = NULL -> h' = h) /\
  forall g, heap_wf g -> hh_blocks g = hh_blocks h' ->
    heap_wf (final (host_free p) g) /\ hh_blocks (final (host_free p) g) = hh_blocks h.
Proof.
  intros Hh Hs Ha. assert (Hw : heap_wf h') by (replace h' with (final (host_alloc_zeroed size) h) by (unfold final; by rewrite Ha); by apply host_alloc_zeroed_wf).
  split; [done |]. destruct (Z.eqb_spec p NULL) as [-> | Hne].
  - apply host_alloc_zeroed_fail in Ha; [| done..]. subst h'. split; [done |]. intros g Hg Hb. by rewrite host_free_null.
  - destruct (host_alloc_zeroed_ok size h p h' Hh Hs Ha Hne) as (Hf & Hb & _). split; [done |]. intros g Hg Hbg.
    assert (Hp : hh_blocks g !! p = Some size) by (by rewrite Hbg, Hb, lookup_insert_eq).
    split; [by eapply host_free_wf |]. rewrite host_free_blocks, Hbg, Hb, delete_insert_eq by done. by apply delete_id.
Qed.

Lemma on_heap_free_final p s : final (on_heap (host_free p)) s = mkMem (ms_mgr s) (final (host_free p) (ms_heap s)).
Proof. unfold final. by rewrite on_heap_free. Qed.

Lemma fresh_destroy s : mm_regions (ms_mgr s) = [] -> mm_patches (ms_mgr s) = [] -> mm_regions_ptr (ms_mgr s) = NULL ->
  mm_patches_ptr (ms_mgr s) = NULL -> ms_heap (final mm_destroy s) = ms_heap s.
Proof.
  intros H1 H2 H3 H4. unfold final, mm_destroy, st_bind, st_gets. rewrite H1, H2, H3, H4. reflexivity.
Qed.

(** C19: opening and closing an engine.  [cpueaxh_open] refuses another architecture or mode and fails
    without memory, leaving no block behind; otherwise the engine satisfies the invariants of all its
    parts, runs 64-bit or 32-bit code as asked, sees no memory, has no hook and no escape, and has an
    instruction cache exactly when it could be allocated; and closing it gives back every block taken:
    the host's blocks are those from before, and no block was released twice. *)
Theorem open_close_round_trip sizeof_engine sizeof_slots arch mode heap
  (Hh : heap_wf heap) (Hse : 0 <= sizeof_engine) (Hss : 0 <= sizeof_slots) :
  match cpueaxh_open sizeof_engine sizeof_slots arch mode heap with
  | (status, inr heap') =>
      hh_blocks heap' = hh_blocks heap /\
      status = (if negb (arch =? CPUEAXH_ARCH_X86) then CPUEAXH_ERR_ARCH
                else if negb ((mode =? CPUEAXH_MODE_64) || (mode =? CPUEAXH_MODE_COMPAT32)) then CPUEAXH_ERR_MODE
                else CPUEAXH_ERR_NOMEM)
  | (status, inl object) =>
      let e := ob_engine object in
      status = CPUEAXH_ERR_OK /\ arch = CPUEAXH_ARCH_X86 /\ (mode = CPUEAXH_MODE_64 \/ mode = CPUEAXH_MODE_COMPAT32) /\
      engine_wf e /\ cpu_is_64bit_code (en_context e) = (mode =? CPUEAXH_MODE_64) /\
      cpu_is_compat32_code (en_context e) = (mode =? CPUEAXH_MODE_COMPAT32) /\
      (forall a, access_view (en_mem e) a = None) /\ (forall type, cpu_has_hook_type e type = false) /\
      (forall id, cpueaxh_lookup_escape_entry e id = None) /\ en_memory_mode e = CPUEAXH_MEMORY_MODE_GUEST /\
      c_inst_cache (en_context e) = negb (ob_slots object =? NULL) /\
      hh_blocks (cpueaxh_close object) = hh_blocks heap /\ heap_wf (cpueaxh_close object)
  end.
Proof.
  unfold cpueaxh_open. destruct (Z.eqb_spec arch CPUEAXH_ARCH_X86) as [-> |]; cbn [negb]; [| by split].
  assert (Hm : negb (mode =? CPUEAXH_MODE_64) && negb (mode =? CPUEAXH_MODE_COMPAT32) = negb ((mode =? CPUEAXH_MODE_64) || (mode =? CPUEAXH_MODE_COMPAT32)))
    by (by rewrite negb_orb). rewrite Hm. destruct (_ || _) eqn:Hmode; cbn [negb]; [| by split].
  destruct (host_alloc_zeroed sizeof_engine heap) as [p h1] eqn:E1.
  destruct (alloc_then_free _ _ _ _ Hh Hse E1) as (Hh1 & Hn1 & Hd1). destruct (p =? NULL) eqn:Ep.
  { apply Z.eqb_eq in Ep. rewrite (Hn1 Ep). by split. }
  destruct (host_alloc_zeroed sizeof_slots h1) as [q h2] eqn:E2.
  destruct (alloc_then_free _ _ _ _ Hh1 Hss E2) as (Hh2 & Hn2 & Hd2).
  cbn [ob_engine ob_slots]. set (e := set_en_last_error _ _).
  assert (He : engine_wf e).
  { destruct (fresh_tables_wf e) as [Hhk Hes]; try reflexivity. split; [by apply fresh_manager_wf | done | done | by split | |].
    - split; [done |]. repeat constructor; cbn; lia.
    - intros Hv. by destruct (mode =? CPUEAXH_MODE_COMPAT32). }
  split; [done |]. split; [done |]. split; [| split; [done |]]; [| split; [| split; [| split; [done | split; [| split; [| split; [done | split; [done |]]]]]]]].
  - apply orb_true_iff in Hmode as [Hmo | Hmo]; apply Z.eqb_eq in Hmo; auto.
  - apply orb_true_iff in Hmode as [Hmo | Hmo]; apply Z.eqb_eq in Hmo as ->; reflexivity.
  - apply orb_true_iff in Hmode as [Hmo | Hmo]; apply Z.eqb_eq in Hmo as ->; reflexivity.
  - intros type. unfold cpu_has_hook_type, count_at. change (en_hook_type_counts e) with (repeat 0 12). destruct (negb _ || _); [reflexivity |].
    unfold arr_get. destruct (nth_in_or_default (Z.to_nat type) (repeat 0 12) 0) as [Hin | Hd]; [apply repeat_spec in Hin; by rewrite Hin | by rewrite Hd].
  - intros id. rewrite lookup_escape_spec by apply He. reflexivity.
  - unfold cpueaxh_close. cbn [ob_engine ob_slots ob_address].
    change (en_escapes_ptr e) with NULL. change (en_mem e) with (mkMem (mm_set_host_passthrough 7 false mm_init) h2).
    set (s0 := if negb (q =? NULL) then _ else _).
    assert (Hs0 : heap_wf (ms_heap s0) /\ hh_blocks (ms_heap s0) = hh_blocks h1 /\ ms_heap (final mm_destroy s0) = ms_heap s0).
    { unfold s0. destruct (Z.eqb_spec q NULL) as [Hq | Hq]; cbn [negb].
      - rewrite <- (Hn2 Hq). split_and!; [done | done | by apply fresh_destroy].
      - rewrite on_heap_free_final. destruct (Hd2 h2 Hh2 eq_refl). split_and!; [done | done | by apply fresh_destroy]. }
    clearbody s0. destruct Hs0 as (Hw & Hb & Hd). rewrite !on_heap_free_final. cbn [ms_heap]. rewrite Hd, host_free_null.
    apply and_comm. by apply Hd1.
Qed.

End interface.

Module EngineApiExample.
Import Bump EngineExample MemoryExample.

Definition host : cpueaxh_engine := set_en_mem Example3.start engine.

Lemma host_wf : manager_wf (en_mem host).
Proof. split; [exact Example3.start_wf | exact PatchExample.start_patches_wf | apply empty_cache_ok; vm_compute; reflexivity]. Qed.

Lemma mapping_interface_refines_guest_map_witness :
  fst (cpueaxh_mem_map 0x7000 0x1000 3 host) = CPUEAXH_ERR_OK /\
  fst (cpueaxh_mem_map 0x7000 0x800 3 host) = CPUEAXH_ERR_ARG /\
  fst (cpueaxh_mem_map (2 ^ 64 - 0x1000) 0x2000 3 host) = CPUEAXH_ERR_ARG /\
  cpueaxh_mem_unmap (2 ^ 64 - 0x1000) 0x1000 host = (CPUEAXH_ERR_OK, host) /\
  memory_call host (mapping_refused 0x7000 0x1000 3)
    (mapping_effect host 0x7000 0x1000 (fun a => (hh_bytes (ms_heap (en_mem host)) (0x5000 + (a - 0x7000)), 3, MM_CPU_ATTR_USER)))
    (cpueaxh_mem_map_ptr 0x7000 0x1000 3 0x5000 host) /\
  memory_call host (range_refused host true (2 ^ 64 - 0x1000) 0x2000)
    (range_effect host (2 ^ 64 - 0x1000) 0x2000 (fun _ => None)) (cpueaxh_mem_unmap (2 ^ 64 - 0x1000) 0x2000 host).
Proof.
  do 4 (split; [vm_compute; reflexivity |]). split.
  - assert (H := mapping_interface_refines_guest_map 0x7000 0x1000 3 1 0x5000 host host_wf). discharge H.
    destruct H as (_ & H & _). assert (C := Example3.start_client). discharge H. apply H. intros _. exact C.
  - assert (H := mapping_interface_refines_guest_map (2 ^ 64 - 0x1000) 0x2000 3 1 0x5000 host host_wf). discharge H.
    destruct H as (_ & _ & _ & H & _). exact H.
Defined.

Definition hello : Buffer := Local [0x68; 0x65; 0x6C; 0x6C; 0x6F].

Lemma hello_bytes heap : byte_buffer heap hello.
Proof. apply ApiContextExample.local_bytes. repeat constructor; cbn; lia. Qed.

(** Two bytes fit before the end of the last page. *)
Lemma memory_copies_correct_witness :
  fst (cpueaxh_mem_write 0x3FFE hello 5 machine) = CPUEAXH_ERR_WRITE_UNMAPPED /\
  fst (cpueaxh_mem_read 0x3FFE (Local []) 5 (snd (cpueaxh_mem_write 0x3FFE hello 5 machine)))
    = (CPUEAXH_ERR_READ_UNMAPPED, [0x68; 0x65]) /\
  let '(status, e') := cpueaxh_mem_write 0x3FFE hello 5 machine in
  status = copy_error MM_PROT_WRITE (Some MM_ACCESS_UNMAPPED) /\ manager_wf (en_mem e').
Proof.
  split; [vm_compute; reflexivity |]. split; [vm_compute; reflexivity |].
  assert (H := memory_copies_correct 0x3FFE 5 hello (Local []) machine (proj1 machine_ready) ltac:(lia) eq_refl eq_refl (hello_bytes _) I I).
  destruct H as [H _].
  assert (allowed_prefix (en_mem machine) MM_PROT_WRITE 0x3FFE (seqZ 0 5) = ([0; 1], Some MM_ACCESS_UNMAPPED)) as E by (vm_compute; reflexivity).
  rewrite E in H. destruct (cpueaxh_mem_write 0x3FFE hello 5 machine) as [st e']. destruct H as (H1 & _ & H2 & _). exact (conj H1 H2).
Defined.

Lemma memory_copy_round_trip_witness :
  let '(status, e1) := cpueaxh_mem_write 0x1FFE hello 5 machine in
  let '(status', read, e2) := cpueaxh_mem_read 0x1FFE (Local []) 5 e1 in
  status = CPUEAXH_ERR_OK /\ status' = CPUEAXH_ERR_OK /\ read = [0x68; 0x65; 0x6C; 0x6C; 0x6F].
Proof.
  assert (Hi : forall i, 0 <= i < 5 -> i = 0 \/ i = 1 \/ i = 2 \/ i = 3 \/ i = 4) by (intros; lia).
  assert (H := memory_copy_round_trip 0x1FFE 5 hello machine (proj1 machine_ready) ltac:(lia) eq_refl (hello_bytes _) I).
  assert (Hok : forall i, 0 <= i < 5 -> access_status (en_mem machine) (u64 (0x1FFE + i)) MM_PROT_WRITE = MM_ACCESS_OK /\
                                      access_status (en_mem machine) (u64 (0x1FFE + i)) MM_PROT_READ = MM_ACCESS_OK)
    by (intros i Hr; apply Hi in Hr; repeat destruct Hr as [-> | Hr]; subst; split; vm_compute; reflexivity).
  assert (Hinj : forall i j, 0 <= i < 5 -> 0 <= j < 5 ->
     host_address (en_mem machine) (u64 (0x1FFE + i)) = host_address (en_mem machine) (u64 (0x1FFE + j)) -> i = j).
  { intros i j Hr Hr'. apply Hi in Hr, Hr'. intros Heq.
    repeat destruct Hr as [-> | Hr]; subst; repeat destruct Hr' as [-> | Hr']; subst; first [reflexivity | vm_compute in Heq; discriminate Heq]. }
  specialize (H Hok Hinj).
  destruct (cpueaxh_mem_write 0x1FFE hello 5 machine) as [st e1]. destruct (cpueaxh_mem_read 0x1FFE (Local []) 5 e1) as [[st' rd] e2].
  destruct H as (H1 & H2 & H3 & _). exact (conj H1 (conj H2 H3)).
Defined.

Lemma open_close_round_trip_witness :
  match cpueaxh_open 0x5000 0x20000 CPUEAXH_ARCH_X86 CPUEAXH_MODE_64 empty_heap with
  | (status, inl object) =>
      engine_wf (ob_engine object) /\ hh_blocks (cpueaxh_close object) = hh_blocks empty_heap /\ heap_wf (cpueaxh_close object)
  | (_, inr _) => False
  end.
Proof.
  assert (H := open_close_round_trip 0x5000 0x20000 CPUEAXH_ARCH_X86 CPUEAXH_MODE_64 empty_heap empty_heap_wf ltac:(lia) ltac:(lia)).
  destruct (cpueaxh_open 0x5000 0x20000 CPUEAXH_ARCH_X86 CPUEAXH_MODE_64 empty_heap) as [st [ob | hp]] eqn:E.
  - destruct H as (_ & _ & _ & H1 & _ & _ & _ & _ & _ & _ & _ & H2). exact (conj H1 H2).
  - apply (f_equal fst) in E. vm_compute in E. destruct H as [_ H]. vm_compute in H. rewrite H in E. discriminate E.
Defined.

End EngineApiExample.
