(* ===== verification/Emulation.v ===== *)
(** * cpueaxh.cpp: running the guest

    [cpueaxh_emu_start] with its two loops, the one for an engine without hooks and escapes and the
    one that calls code hooks, dispatches escapes and skips their recognition for instructions the
    cache knows; the escape dispatch, and [cpueaxh_emu_start_function].  The loops take fuel and
    return [None] when it runs out; the theorems say how much is enough.

    The theorems: what a run is, round by round, and that it ends; that a stop request is obeyed;
    that the cached path misses no escape; what an escape does to the CPU; that a called function
    leaves its return slot as it was; what becomes of a code hook that moves RIP. *)

From Stdlib Require Import ZArith Bool List Lia String.
From stdpp Require Import base tactics list gmap.
From S2P Require Import Prelude CpuDef Flags HostMemory RegionTable RegionSplit Patches PageCache InstCache Machine CpuMemory Registers DispatchHelpers Executor Decoder ApiContext EngineApi.

Definition CPUEAXH_EMU_RETURN_MAGIC : Z := 0x41485841.

Definition CPUEAXH_ESCAPE_INSN_SYSCALL : Z := 1.
Definition CPUEAXH_ESCAPE_INSN_SYSENTER : Z := 2.
Definition CPUEAXH_ESCAPE_INSN_INT : Z := 3.
Definition CPUEAXH_ESCAPE_INSN_INT3 : Z := 4.
Definition CPUEAXH_ESCAPE_INSN_CPUID : Z := 5.
Definition CPUEAXH_ESCAPE_INSN_XGETBV : Z := 6.
Definition CPUEAXH_ESCAPE_INSN_RDTSC : Z := 7.
Definition CPUEAXH_ESCAPE_INSN_RDTSCP : Z := 8.
Definition CPUEAXH_ESCAPE_INSN_RDRAND : Z := 9.
Definition CPUEAXH_ESCAPE_INSN_HLT : Z := 10.
Definition CPUEAXH_ESCAPE_INSN_IN : Z := 11.
Definition CPUEAXH_ESCAPE_INSN_OUT : Z := 12.
Definition CPUEAXH_ESCAPE_INSN_WRITECRX : Z := 13.
Definition CPUEAXH_ESCAPE_INSN_READCRX : Z := 14.
Definition CPUEAXH_ESCAPE_INSN_RDSSPD : Z := 15.
Definition CPUEAXH_ESCAPE_INSN_RDSSPQ : Z := 16.
Definition CPUEAXH_ESCAPE_INSN_INS : Z := 17.
Definition CPUEAXH_ESCAPE_INSN_INT1 : Z := 18.
Definition CPUEAXH_ESCAPE_INSN_UD2 : Z := 19.

(** An escape callback may do anything to the engine; it returns its error code and what it left in
    the context record it was handed. *)
Class EscapeCallbacks := {
  cb_escape : forall (callback : Z) (context : cpueaxh_x86_context) (instruction : list Z) (user_data : Z),
    ST cpueaxh_engine (Z * cpueaxh_x86_context);
}.

Definition set_x_internal_bridge_block (v : Z) (x : cpueaxh_x86_context) : cpueaxh_x86_context :=
  mkXCtx (x_regs x) (x_rip x) (x_rflags x) (x_xmm x) (x_ymm_upper x) (x_zmm_upper x) (x_opmask x) (x_mm x)
    (x_mxcsr x) (x_es x) (x_cs x) (x_ss x) (x_ds x) (x_fs x) (x_gs x) (x_gdtr_base x) (x_gdtr_limit x)
    (x_ldtr_base x) (x_ldtr_limit x) (x_cpl x) (x_code_exception x) (x_error_code_exception x) v
    (x_control_regs x) (x_processor_id x).

(** ** Recognising instructions the host may handle *)

(** REX.W of the last REX byte before the opcode: [*is_64bit] of [probe_rdssp_instruction]. *)
Definition rdssp_is_64 (bytes : list Z) : bool :=
  has_bits (last_prefix is_rex_byte 0 bytes (own_prefix_len bytes)) 0x8.

(** The instruction and [*instruction_size]. *)
Definition cpueaxh_classify_escape_instruction (ctx : CPU_CONTEXT) (bytes : list Z) : Z * Z :=
  let fetched := size_of bytes in
  let none := (CPUEAXH_ESCAPE_INSN_NONE, 0) in
  if fetched <=? 0 then none
  else
    let '(opc, prefix_len) := peek_opcode ctx bytes in
    if opc =? 0xFFFF then none
    else if opc =? 0x00CC then (CPUEAXH_ESCAPE_INSN_INT3, prefix_len + 1)
    else if opc =? 0x00F1 then (CPUEAXH_ESCAPE_INSN_INT1, prefix_len + 1)
    else if (opc =? 0x00CD) && (prefix_len + 2 <=? fetched) then (CPUEAXH_ESCAPE_INSN_INT, prefix_len + 2)
    else if opc =? 0x0F0B then (CPUEAXH_ESCAPE_INSN_UD2, prefix_len + 2)
    else if opc =? 0x00F4 then (CPUEAXH_ESCAPE_INSN_HLT, prefix_len + 1)
    else if one_of opc [0x00E4; 0x00E5] then
      if prefix_len + 2 <=? fetched then (CPUEAXH_ESCAPE_INSN_IN, prefix_len + 2) else none
    else if one_of opc [0x00EC; 0x00ED] then (CPUEAXH_ESCAPE_INSN_IN, prefix_len + 1)
    else if one_of opc [0x006C; 0x006D] then (CPUEAXH_ESCAPE_INSN_INS, prefix_len + 1)
    else if one_of opc [0x00E6; 0x00E7] then
      if prefix_len + 2 <=? fetched then (CPUEAXH_ESCAPE_INSN_OUT, prefix_len + 2) else none
    else if one_of opc [0x00EE; 0x00EF] then (CPUEAXH_ESCAPE_INSN_OUT, prefix_len + 1)
    else if opc =? 0x0F05 then (CPUEAXH_ESCAPE_INSN_SYSCALL, prefix_len + 2)
    else if opc =? 0x0F34 then (CPUEAXH_ESCAPE_INSN_SYSENTER, prefix_len + 2)
    else if opc =? 0x0FA2 then (CPUEAXH_ESCAPE_INSN_CPUID, prefix_len + 2)
    else if opc =? 0x0F31 then (CPUEAXH_ESCAPE_INSN_RDTSC, prefix_len + 2)
    else if (opc =? 0x0F01) && (prefix_len + 2 <? fetched) && (byte_at bytes (prefix_len + 2) =? 0xD0) then
      (CPUEAXH_ESCAPE_INSN_XGETBV, prefix_len + 3)
    else if (opc =? 0x0F01) && (prefix_len + 2 <? fetched) && (byte_at bytes (prefix_len + 2) =? 0xF9) then
      (CPUEAXH_ESCAPE_INSN_RDTSCP, prefix_len + 3)
    else if (opc =? 0x0FC7) && is_rdrand_instruction bytes then (CPUEAXH_ESCAPE_INSN_RDRAND, prefix_len + 3)
    else if (opc =? 0x0F20) && (prefix_len + 3 <=? fetched) then (CPUEAXH_ESCAPE_INSN_READCRX, prefix_len + 3)
    else if (opc =? 0x0F22) && (prefix_len + 3 <=? fetched) then (CPUEAXH_ESCAPE_INSN_WRITECRX, prefix_len + 3)
    else if (opc =? 0x0F1E) && is_rdssp_instruction bytes then
      (if rdssp_is_64 bytes then CPUEAXH_ESCAPE_INSN_RDSSPQ else CPUEAXH_ESCAPE_INSN_RDSSPD, own_prefix_len bytes + 3)
    else none.

Definition cpueaxh_is_optional_escape_instruction (instruction_id : Z) : bool :=
  (instruction_id =? CPUEAXH_ESCAPE_INSN_RDSSPD) || (instruction_id =? CPUEAXH_ESCAPE_INSN_RDSSPQ).

(** [cpueaxh_err] of a step's status, from the pending exception. *)
Definition cpueaxh_translate_step_error (e : cpueaxh_engine) (status : Z) : Z :=
  if (status =? CPU_STEP_OK) || (status =? CPU_STEP_HALT) then CPUEAXH_ERR_OK
  else if status =? CPU_STEP_FETCH_ERR then CPUEAXH_ERR_FETCH_UNMAPPED
  else if status =? CPU_STEP_UD then CPUEAXH_ERR_EXCEPTION
  else if status =? CPU_STEP_EXCEPTION then
    let exception := c_exception (en_context e) in
    if exc_code exception =? CPU_EXCEPTION_PF then
      let error_code := exc_error_code exception in
      let protection_violation := has_bits error_code 0x1 in
      let write_access := has_bits error_code 0x2 in
      let exec_access := has_bits error_code 0x10 in
      if exec_access then (if protection_violation then CPUEAXH_ERR_FETCH_PROT else CPUEAXH_ERR_FETCH_UNMAPPED)
      else if write_access then (if protection_violation then CPUEAXH_ERR_WRITE_PROT else CPUEAXH_ERR_WRITE_UNMAPPED)
      else (if protection_violation then CPUEAXH_ERR_READ_PROT else CPUEAXH_ERR_READ_UNMAPPED)
    else CPUEAXH_ERR_EXCEPTION
  else CPUEAXH_ERR_EXCEPTION.

(** The hook types in the order of the source's loop, and [has_any_hook]. *)
Definition has_any_hook (e : cpueaxh_engine) : bool :=
  existsb (fun hook_type => negb (count_at e hook_type =? 0))
    (seqZ CPUEAXH_HOOK_CODE_PRE (CPUEAXH_HOOK_MEM_FETCH_PROT - CPUEAXH_HOOK_CODE_PRE + 1)).
Definition has_registered_escapes (e : cpueaxh_engine) : bool := negb (escape_count e =? 0).

(** The checks at the head of both loops, in their order: the count, the address, the request. *)
Definition run_is_over (until count executed : Z) (e : cpueaxh_engine) : bool :=
  (negb (count =? 0) && (count <=? executed)) || (negb (until =? 0) && (c_rip (en_context e) =? until)) || en_stop_requested e.

(** [engine->last_error = error] and out of the loop. *)
Definition end_run {A} (error : Z) (result : Z -> A) : ST cpueaxh_engine A :=
  mod_engine (set_en_last_error error) ;;; st_ret (result error).

Section emulation.
Context `{Callbacks} `{InstructionSet} `{Decoder} `{EscapeCallbacks}.

(** The address of [emu_start]'s local [host_bridge_block]. *)
Context (host_bridge_block : Z).

(** ** Escapes *)

(** [None] when the instruction is not dispatched; else [*callback_error], and [*escaped_size] where
    it is written. *)
Definition cpueaxh_try_dispatch_escape (address : Z) (bytes : list Z) : ST cpueaxh_engine (option (Z * option Z)) :=
  let* ctx := get_ctx id in
  let '(instruction_id, instruction_size) := cpueaxh_classify_escape_instruction ctx bytes in
  if (instruction_id =? CPUEAXH_ESCAPE_INSN_NONE) || (instruction_size =? 0) then st_ret None
  else
    let* escape := st_gets (fun e => cpueaxh_lookup_escape_entry e instruction_id) in
    let refuse :=
      if cpueaxh_is_optional_escape_instruction instruction_id then st_ret None
      else
        (if instruction_id =? CPUEAXH_ESCAPE_INSN_INT3 then mod_ctx (cpu_raise_exception CPU_EXCEPTION_BP 0)
         else if instruction_id =? CPUEAXH_ESCAPE_INSN_INT1 then mod_ctx (cpu_raise_exception CPU_EXCEPTION_DB 0)
         else mod_ctx (cpu_raise_exception CPU_EXCEPTION_UD 0)) ;;;
        st_ret (Some (CPUEAXH_ERR_EXCEPTION, None)) in
    match escape with
    | None => refuse
    | Some escape =>
        if negb (esc_callback escape =? 0) && cpueaxh_range_contains (esc_begin escape) (esc_end escape) address then
          let rip_before := c_rip ctx in
          let context := set_x_internal_bridge_block host_bridge_block (cpueaxh_context_out ctx) in
          let* (error, context) := cb_escape (esc_callback escape) context bytes (esc_user_data escape) in
          if negb (error =? CPUEAXH_ERR_OK) then st_ret (Some (error, None))
          else
            mod_ctx (cpueaxh_context_in context) ;;;
            mod_ctx (fun ctx => if c_rip ctx =? rip_before then set_c_rip (u64 (rip_before + u64 instruction_size)) ctx else ctx) ;;;
            mod_ctx (set_c_last_inst_size instruction_size) ;;;
            let* pending := get_ctx cpu_has_exception in
            st_ret (Some (if pending then CPUEAXH_ERR_EXCEPTION else CPUEAXH_ERR_OK, Some instruction_size))
        else refuse
    end.

(** ** The loops *)

(** [if (need_hook) cpueaxh_dispatch_code_hooks(...)]. *)
Definition call_hooks (need_hook : bool) (type address : Z) : ST cpueaxh_engine unit :=
  if need_hook then cpueaxh_dispatch_code_hooks type address else st_ret tt.

(** What follows a step: [None] to go on with the next round, else the error of the run. *)
Definition after_step (need_post_hook : bool) (address status : Z) : ST cpueaxh_engine (option Z) :=
  let post := call_hooks need_post_hook CPUEAXH_HOOK_CODE_POST address in
  if status =? CPU_STEP_OK then post ;;; st_ret None
  else if status =? CPU_STEP_HALT then post ;;; end_run CPUEAXH_ERR_OK Some
  else
    let* error := st_gets (fun e => cpueaxh_translate_step_error e status) in
    end_run error Some.

(** The slot of [address] answers for the current code version and mode, and its instruction is
    known not to be an escape. *)
Definition known_slot (address : Z) : ST cpueaxh_engine bool :=
  let* cache := get_ctx c_inst_cache in
  if negb cache then st_ret false
  else
    let* fast_mode := on_ctx cpu_inst_cache_mode_key in
    st_gets (fun e =>
      let slot := slot_at (en_inst_cache e) (cpu_inst_cache_index address) in
      cache_hit slot (mm_code_version (ms_mgr (en_mem e))) address fast_mode &&
      has_bits (d_flags (ic_decoded slot)) DECODED_FLAG_KNOWN_NOT_ESCAPE).

(** The dispatch of the fetched bytes: to an escape, else to the executor. *)
Definition execute_bytes (need_post_hook : bool) (address : Z) (bytes : list Z) : ST cpueaxh_engine (option Z) :=
  let* escaped := cpueaxh_try_dispatch_escape address bytes in
  match escaped with
  | Some (error, _) =>
      if negb (error =? CPUEAXH_ERR_OK) then end_run error Some
      else after_step need_post_hook address CPU_STEP_OK
  | None =>
      let* status := cpu_step_with_prefetch bytes in
      after_step need_post_hook address status
  end.

(** A round after the pre hooks and the second look at the stop request. *)
Definition execute_at (need_post_hook : bool) (address : Z) : ST cpueaxh_engine (option Z) :=
  let* fast := known_slot address in
  if fast then
    let* status := cpu_step_decoded (cpu_inst_cache_index address) in
    after_step need_post_hook address status
  else
    let* bytes := fetch_instruction_bytes address in
    execute_bytes need_post_hook address bytes.

Definition hooked_round (need_pre_hook need_post_hook : bool) : ST cpueaxh_engine (option Z) :=
  let* address := get_ctx c_rip in
  call_hooks need_pre_hook CPUEAXH_HOOK_CODE_PRE address ;;;
  let* stop := st_gets en_stop_requested in
  if stop then end_run CPUEAXH_ERR_OK Some else execute_at need_post_hook address.

(** The round of the loop without hooks and escapes. *)
Definition plain_round : ST cpueaxh_engine (option Z) :=
  let* status := cpu_step in after_step false 0 status.

(** Both loops: the checks, a round, [executed++].  [None]: not over after [fuel] rounds. *)
Fixpoint run_loop (fuel : nat) (round : ST cpueaxh_engine (option Z)) (until count executed : Z) : ST cpueaxh_engine (option Z) :=
  match fuel with
  | O => st_ret None
  | S fuel =>
      let* over := st_gets (run_is_over until count executed) in
      if over then end_run CPUEAXH_ERR_OK Some
      else
        let* ended := round in
        match ended with
        | Some error => st_ret (Some error)
        | None => run_loop fuel round until count (u64 (executed + 1))
        end
  end.

(** ** The entry points *)

(** What the run starts from. *)
Definition start_at (begin : Z) (e : cpueaxh_engine) : cpueaxh_engine :=
  let e := if begin =? 0 then e else set_en_context (set_c_rip begin (en_context e)) e in
  let e := set_en_stop_requested false e in
  set_en_context (cpu_clear_exception (en_context e)) e.

(** The loop [cpueaxh_emu_start] enters, by the hooks and escapes there are when it starts. *)
Definition chosen_round (engine : cpueaxh_engine) : ST cpueaxh_engine (option Z) :=
  if negb (has_any_hook engine) && negb (has_registered_escapes engine) then plain_round
  else hooked_round (negb (count_at engine CPUEAXH_HOOK_CODE_PRE =? 0)) (negb (count_at engine CPUEAXH_HOOK_CODE_POST =? 0)).

Definition cpueaxh_emu_start (fuel : nat) (begin until timeout count : Z) : ST cpueaxh_engine (option Z) :=
  mod_engine (start_at begin) ;;;
  let* engine := st_get in
  run_loop fuel (chosen_round engine) until count 0.

Definition cpueaxh_emu_start_function (fuel : nat) (begin timeout count : Z) : ST cpueaxh_engine (option Z) :=
  let* ctx := get_ctx id in
  let '(error, stack_bytes) := cpueaxh_reg_read_raw ctx CPUEAXH_X86_REG_RSP (Local (repeat 0 8)) in
  let stack_address := le_combine stack_bytes in
  if negb (error =? CPUEAXH_ERR_OK) then st_ret (Some error)
  else
    let* (error, original_return) := cpueaxh_mem_read_raw stack_address (Local (repeat 0 8)) 8 in
    if negb (error =? CPUEAXH_ERR_OK) then st_ret (Some error)
    else
      let* error := cpueaxh_mem_write_raw stack_address (Local (out64 CPUEAXH_EMU_RETURN_MAGIC)) 8 in
      if negb (error =? CPUEAXH_ERR_OK) then st_ret (Some error)
      else
        let* run := cpueaxh_emu_start fuel begin CPUEAXH_EMU_RETURN_MAGIC timeout count in
        match run with
        | None => st_ret None
        | Some run_error =>
            let* restore_error := cpueaxh_mem_write_raw stack_address (Local original_return) 8 in
            if negb (run_error =? CPUEAXH_ERR_OK) then st_ret (Some run_error)
            else if negb (restore_error =? CPUEAXH_ERR_OK) then st_ret (Some restore_error)
            else st_ret (Some CPUEAXH_ERR_OK)
        end.

End emulation.

Definition cpueaxh_emu_stop (engine : option cpueaxh_engine) : option cpueaxh_engine :=
  option_map (set_en_stop_requested true) engine.

(** ** Recognising escapes and decoding agree *)

(** Two prefix scans end at the same byte when the wider one does not skip it. *)
Lemma prefix_run_agree (P Q : Z -> bool) buf :
  (forall b, P b = true -> Q b = true) -> prefix_run P buf < size_of buf -> Q (byte_at buf (prefix_run P buf)) = false ->
  prefix_run Q buf = prefix_run P buf.
Proof.
  intros HPQ. induction buf as [| b buf IH]; [done |]. cbn [prefix_run]. destruct (P b) eqn:HP.
  - rewrite (HPQ _ HP). pose proof (prefix_run_bounds P buf). intros Hlt Hq. f_equal. apply IH.
    + unfold size_of in *. cbn [List.length] in Hlt. lia.
    + revert Hq. unfold byte_at, arr_get. replace (Z.to_nat (1 + prefix_run P buf)) with (S (Z.to_nat (prefix_run P buf))) by lia. done.
  - intros _ Hq. change (Q b = false) in Hq. by rewrite Hq.
Qed.

(** The opcode that is peeked, byte by byte. *)
Lemma peek_spec ctx buf opc p :
  peek_opcode ctx buf = (opc, p) -> opc <> 0xFFFF ->
  0 <= p < size_of buf /\ p = prefix_run (is_prefix_of_mode ctx) buf /\
  (opc = byte_at buf p \/ byte_at buf p = 0x0F /\ p + 1 < size_of buf /\ opc = Z.lor 0x0F00 (byte_at buf (p + 1))).
Proof.
  unfold peek_opcode. cbv zeta. pose proof (prefix_run_bounds (is_prefix_of_mode ctx) buf).
  destruct (Z.leb_spec (size_of buf) (prefix_run (is_prefix_of_mode ctx) buf)); [congruence |].
  destruct (Z.eqb_spec (byte_at buf (prefix_run (is_prefix_of_mode ctx) buf)) 0x0F) as [E |]; cbn [andb].
  2: intros [= <- <-] _; split_and!; [lia | lia | done | by left].
  destruct (Z.ltb_spec (prefix_run (is_prefix_of_mode ctx) buf + 1) (size_of buf)); intros [= <- <-] _; (split_and!; [lia | lia | done |]);
    [right; done | by left].
Qed.

Lemma rex_byte_spec b : is_rex_byte b = true <-> 0x40 <= b <= 0x4F.
Proof. unfold is_rex_byte. rewrite andb_true_iff, !Z.leb_le. done. Qed.

(** The decoders' own prefix scan ends at the opcode, unless that is taken for a REX byte. *)
Lemma own_prefix_peek ctx buf opc p :
  peek_opcode ctx buf = (opc, p) -> opc <> 0xFFFF -> is_any_prefix_byte (byte_at buf p) = false -> own_prefix_len buf = p.
Proof.
  intros Hpk Hopc Hno. destruct (peek_spec _ _ _ _ Hpk Hopc) as (Hlt & -> & _). unfold own_prefix_len.
  apply prefix_run_agree; [| lia | done]. intros b. unfold is_prefix_of_mode, is_any_prefix_byte.
  destruct (is_legacy_prefix b); [done |]. cbn [orb]. intros [_ Hr]%andb_true_iff. done.
Qed.

(** *** No escape is flagged as known *)

Lemma not_candidate_no_escape ctx buf :
  cpu_decoder_is_escape_candidate_opc (fst (peek_opcode ctx buf)) = false ->
  cpueaxh_classify_escape_instruction ctx buf = (CPUEAXH_ESCAPE_INSN_NONE, 0).
Proof.
  unfold cpueaxh_classify_escape_instruction. destruct (size_of buf <=? 0); [done |].
  destruct (peek_opcode ctx buf) as [opc p]. cbn [fst]. unfold cpu_decoder_is_escape_candidate_opc, one_of. cbn [existsb].
  intros Hc. repeat match type of Hc with _ || _ = false => apply orb_false_iff in Hc as [-> Hc] end.
  cbn [andb orb]. destruct (opc =? 0xFFFF); [done |]. done.
Qed.

Lemma early_form_known ctx buf p o dec dec' :
  early_form ctx buf p o dec = Some dec' ->
  has_bits (d_flags dec') DECODED_FLAG_KNOWN_NOT_ESCAPE = has_bits (d_flags dec) DECODED_FLAG_KNOWN_NOT_ESCAPE /\ d_byte_count dec' = d_byte_count dec.
Proof.
  unfold early_form. destruct (decode_near_ret_operand_size ctx buf) as [os npl].
  repeat match goal with |- (if ?b then _ else _) = Some _ -> _ => destruct b end; intros [= <-]; (split; [| done]); try done;
    unfold cpu_decoder_set_inline_ret; cbn [add_flags d_flags set_d_flags set_d_length set_d_inline_imm16 set_d_near_ret_op_size
      set_d_near_ret_prefix_len set_d_inline_kind set_d_inline_jcc_disp set_d_inline_jcc_cond set_d_inline_jcc_disp32];
    rewrite ?has_bits_lor; by rewrite orb_false_r.
Qed.

Lemma install_known buf p o handler dec :
  has_bits (d_flags (install_handler buf p o handler dec)) DECODED_FLAG_KNOWN_NOT_ESCAPE = has_bits (d_flags dec) DECODED_FLAG_KNOWN_NOT_ESCAPE /\
  d_byte_count (install_handler buf p o handler dec) = d_byte_count dec.
Proof.
  unfold install_handler. destruct (_ && cpu_decoder_classify_no_fault _ _ _ _ _ _ _ _), (match handler with Some _ => _ | None => _ end);
    cbn [add_flags d_flags set_d_flags set_d_handler]; (split; [| done]); rewrite ?has_bits_lor; by rewrite ?orb_false_r.
Qed.

Lemma ff_branch_known buf p o dec :
  has_bits (d_flags (ff_branch_flag buf p o dec)) DECODED_FLAG_KNOWN_NOT_ESCAPE = has_bits (d_flags dec) DECODED_FLAG_KNOWN_NOT_ESCAPE /\
  d_byte_count (ff_branch_flag buf p o dec) = d_byte_count dec.
Proof.
  unfold ff_branch_flag. destruct (u8 o =? 0xFF); [| done].
  destruct (one_of _ _); cbn [add_flags d_flags set_d_flags]; (split; [| done]); [rewrite has_bits_lor; by rewrite orb_false_r | by apply has_bits_ldiff].
Qed.

Lemma entry_known ctx buf :
  has_bits (d_flags (fst (decode_entry ctx buf))) DECODED_FLAG_KNOWN_NOT_ESCAPE = true ->
  cpu_decoder_is_escape_candidate_opc (fst (peek_opcode ctx buf)) = false /\ d_byte_count (fst (decode_entry ctx buf)) <> 0.
Proof.
  unfold decode_entry. destruct (Z.leb_spec (size_of buf) 0); [done |]. cbv zeta. destruct (vector_form buf); [done |].
  destruct (peek_opcode ctx buf) as [opc p]. cbn [fst]. destruct (opc =? 0xFFFF); [done |].
  set (dec := add_flags _ (set_d_segment_override _ _)).
  assert (Hdec : has_bits (d_flags dec) DECODED_FLAG_KNOWN_NOT_ESCAPE = negb (cpu_decoder_is_escape_candidate_opc opc)).
  { unfold dec, opcode_flags. cbn [add_flags d_flags set_d_flags set_d_segment_override]. rewrite !has_bits_lor.
    by destruct (cpu_step_may_touch_vector_state _ _ _), (is_branch_opcode opc), (cpu_decoder_is_escape_candidate_opc opc). }
  assert (Hcount : d_byte_count dec <> 0) by (change (Z.min (size_of buf) DECODED_INST_MAX_BYTES <> 0); unfold DECODED_INST_MAX_BYTES; lia).
  rewrite <- negb_true_iff, <- Hdec. clearbody dec. destruct (ff_branch_known buf p opc dec) as [Hk Hc].
  destruct (early_form ctx buf p opc dec) as [dec' |] eqn:He; cbn [fst].
  { destruct (early_form_known _ _ _ _ _ _ He) as [-> ->]. done. }
  destruct (dispatch_ladder ctx buf p opc) as [name | |]; cbn [fst].
  - destruct (install_known buf p opc (Some name) (ff_branch_flag buf p opc dec)) as [-> ->]. by rewrite Hk, Hc.
  - cbn [add_flags d_flags d_byte_count set_d_flags]. rewrite has_bits_lor, Hk, Hc, orb_false_r. done.
  - destruct (install_known buf p opc None (ff_branch_flag buf p opc dec)) as [-> ->]. by rewrite Hk, Hc.
Qed.

(** *** Sizes, and what the decoder makes of escapes *)

Definition bytes_ok (buf : list Z) : Prop := Forall (in_word 8) buf.

Lemma byte_at_ok buf i : bytes_ok buf -> in_word 8 (byte_at buf i).
Proof.
  intros Hb. unfold byte_at, arr_get. destruct (nth_in_or_default (Z.to_nat i) buf 0) as [Hin | ->]; [| done].
  unfold bytes_ok in Hb. rewrite Forall_forall in Hb. apply Hb. by apply list_elem_of_In.
Qed.

Lemma lor_0f b : in_word 8 b -> Z.lor 0x0F00 b = 0x0F00 + b.
Proof.
  intros Hw. assert (Hl : Z.land 0x0F00 b = 0); [| pose proof (Z.add_lor_land 0x0F00 b); lia].
  apply Z.bits_inj'. intros i Hi. rewrite Z.land_spec, Z.bits_0. destruct (Z.ltb_spec i 8) as [Hlt8 |].
  - assert (E : Z.testbit 0x0F00 i = false); [| by rewrite E].
    change 0x0F00 with (Z.shiftl 15 8). rewrite Z.shiftl_spec by lia. apply Z.testbit_neg_r. lia.
  - rewrite (testbit_high 8 b) by (done || lia). apply andb_false_r.
Qed.

(** An opcode of two bytes: both are there, and the other scans find it at the same place. *)
Lemma two_byte_peek ctx buf opc p :
  bytes_ok buf -> peek_opcode ctx buf = (opc, p) -> 0x0F00 <= opc < 0xFFFF ->
  byte_at buf p = 0x0F /\ p + 2 <= size_of buf /\ own_prefix_len buf = p /\ opc = 0x0F00 + byte_at buf (p + 1).
Proof.
  intros Hb Hpk Hopc. destruct (peek_spec _ _ _ _ Hpk ltac:(lia)) as (Hlt & _ & Hcase).
  destruct Hcase as [-> | (H0f & Hsz & ->)].
  { pose proof (byte_at_ok buf p Hb) as Hw. unfold in_word in Hw. lia. }
  pose proof (byte_at_ok buf (p + 1) Hb) as Hw. split_and!; try lia.
  - eapply own_prefix_peek; [exact Hpk | lia | by rewrite H0f].
  - by apply lor_0f.
Qed.

Lemma rdrand_form buf : is_rdrand_instruction buf = true ->
  own_prefix_len buf + 3 <= size_of buf /\ register_form_of (byte_at buf (own_prefix_len buf + 2)) 6 = true.
Proof. unfold is_rdrand_instruction. cbv zeta. rewrite !andb_true_iff, Z.leb_le. tauto. Qed.

Lemma rdssp_form buf : is_rdssp_instruction buf = true ->
  own_prefix_len buf + 3 <= size_of buf /\ register_form_of (byte_at buf (own_prefix_len buf + 2)) 1 = true.
Proof. unfold is_rdssp_instruction, probe_rdssp_instruction. cbv zeta. rewrite !andb_true_iff, Z.leb_le. tauto. Qed.

(** The opcodes an escape may have; the ladder decides on the second group. *)
Definition owned_opcodes : list Z :=
  [0x00CC; 0x00F1; 0x00CD; 0x0F0B; 0x00F4; 0x00E4; 0x00E5; 0x00EC; 0x00ED; 0x00E6; 0x00E7; 0x00EE; 0x00EF; 0x0F05; 0x0F34; 0x0FA2; 0x0F20; 0x0F22].

Inductive escape_form (buf : list Z) (p opc id n : Z) : Prop :=
  | ef_owned : In opc owned_opcodes -> id <> CPUEAXH_ESCAPE_INSN_INS -> cpueaxh_is_optional_escape_instruction id = false ->
      (id = CPUEAXH_ESCAPE_INSN_INT3 <-> opc = 0x00CC) -> (id = CPUEAXH_ESCAPE_INSN_INT1 <-> opc = 0x00F1) ->
      0 < id <= 19 -> p < n -> (n = p + 1 \/ n = p + 2 /\ 0x0F00 <= opc < 0xFFFF \/ n <= size_of buf) -> escape_form buf p opc id n
  | ef_ins : In opc [0x006C; 0x006D] -> id = CPUEAXH_ESCAPE_INSN_INS -> n = p + 1 -> escape_form buf p opc id n
  | ef_rdtsc : opc = 0x0F31 -> id = CPUEAXH_ESCAPE_INSN_RDTSC -> n = p + 2 -> escape_form buf p opc id n
  | ef_0f01 : opc = 0x0F01 -> (id, byte_at buf (p + 2)) = (CPUEAXH_ESCAPE_INSN_XGETBV, 0xD0) \/ (id, byte_at buf (p + 2)) = (CPUEAXH_ESCAPE_INSN_RDTSCP, 0xF9) ->
      p + 2 < size_of buf -> n = p + 3 -> escape_form buf p opc id n
  | ef_rdrand : opc = 0x0FC7 -> id = CPUEAXH_ESCAPE_INSN_RDRAND -> is_rdrand_instruction buf = true -> n = p + 3 -> escape_form buf p opc id n
  | ef_rdssp : opc = 0x0F1E -> id = CPUEAXH_ESCAPE_INSN_RDSSPD \/ id = CPUEAXH_ESCAPE_INSN_RDSSPQ -> is_rdssp_instruction buf = true ->
      n = own_prefix_len buf + 3 -> escape_form buf p opc id n.

Ltac owned := intros [= <- <-]; apply ef_owned; unfold owned_opcodes; cbn [In]; try done; first [tauto | lia | split; (discriminate || lia)].

Lemma classify_form ctx buf id n :
  cpueaxh_classify_escape_instruction ctx buf = (id, n) -> id <> CPUEAXH_ESCAPE_INSN_NONE ->
  exists opc p, peek_opcode ctx buf = (opc, p) /\ opc <> 0xFFFF /\ escape_form buf p opc id n.
Proof.
  unfold cpueaxh_classify_escape_instruction. destruct (size_of buf <=? 0); [congruence |].
  destruct (peek_opcode ctx buf) as [opc p]. intros Hc Hid. exists opc, p. split; [done |].
  destruct (Z.eqb_spec opc 0xFFFF); [congruence |]. split; [done |]. revert Hc.
  destruct (Z.eqb_spec opc 0x00CC) as [-> |]; [owned |]. destruct (Z.eqb_spec opc 0x00F1) as [-> |]; [owned |].
  destruct (Z.eqb_spec opc 0x00CD) as [-> |]; [| cbn [andb]].
  { cbn [andb]. destruct (Z.leb_spec (p + 2) (size_of buf)); [owned |]. cbn. congruence. }
  destruct (Z.eqb_spec opc 0x0F0B) as [-> |]; [owned |]. destruct (Z.eqb_spec opc 0x00F4) as [-> |]; [owned |].
  unfold one_of. cbn [existsb].
  destruct (Z.eqb_spec opc 0x00E4) as [-> |]; [cbn [orb]; destruct (Z.leb_spec (p + 2) (size_of buf)); [owned | congruence] |].
  destruct (Z.eqb_spec opc 0x00E5) as [-> |]; [cbn [orb]; destruct (Z.leb_spec (p + 2) (size_of buf)); [owned | congruence] |].
  cbn [orb]. destruct (Z.eqb_spec opc 0x00EC) as [-> |]; [owned |]. destruct (Z.eqb_spec opc 0x00ED) as [-> |]; [owned |]. cbn [orb].
  destruct (Z.eqb_spec opc 0x006C) as [-> |]; [cbn [orb]; intros [= <- <-]; apply ef_ins; cbn [In]; tauto |].
  destruct (Z.eqb_spec opc 0x006D) as [-> |]; [cbn [orb]; intros [= <- <-]; apply ef_ins; cbn [In]; tauto |]. cbn [orb].
  destruct (Z.eqb_spec opc 0x00E6) as [-> |]; [cbn [orb]; destruct (Z.leb_spec (p + 2) (size_of buf)); [owned | congruence] |].
  destruct (Z.eqb_spec opc 0x00E7) as [-> |]; [cbn [orb]; destruct (Z.leb_spec (p + 2) (size_of buf)); [owned | congruence] |].
  cbn [orb]. destruct (Z.eqb_spec opc 0x00EE) as [-> |]; [owned |]. destruct (Z.eqb_spec opc 0x00EF) as [-> |]; [owned |]. cbn [orb].
  destruct (Z.eqb_spec opc 0x0F05) as [-> |]; [owned |]. destruct (Z.eqb_spec opc 0x0F34) as [-> |]; [owned |].
  destruct (Z.eqb_spec opc 0x0FA2) as [-> |]; [owned |].
  destruct (Z.eqb_spec opc 0x0F31) as [-> |]; [intros [= <- <-]; by apply ef_rdtsc |].
  destruct (Z.eqb_spec opc 0x0F01) as [-> |]; cbn [andb].
  { change (0x0F01 =? 0x0FC7) with false. change (0x0F01 =? 0x0F20) with false. change (0x0F01 =? 0x0F22) with false.
    change (0x0F01 =? 0x0F1E) with false. cbn [andb]. destruct (Z.ltb_spec (p + 2) (size_of buf)); cbn [andb]; [| congruence].
    destruct (Z.eqb_spec (byte_at buf (p + 2)) 0xD0) as [E |]; [intros [= <- <-]; apply ef_0f01; try done; left; by rewrite E |].
    destruct (Z.eqb_spec (byte_at buf (p + 2)) 0xF9) as [E |]; [intros [= <- <-]; apply ef_0f01; try done; right; by rewrite E | congruence]. }
  destruct (Z.eqb_spec opc 0x0FC7) as [-> |]; cbn [andb].
  { destruct (is_rdrand_instruction buf) eqn:Er; [intros [= <- <-]; by apply ef_rdrand | cbn; congruence]. }
  destruct (Z.eqb_spec opc 0x0F20) as [-> |]; cbn [andb]; [destruct (Z.leb_spec (p + 3) (size_of buf)); [owned | cbn; congruence] |].
  destruct (Z.eqb_spec opc 0x0F22) as [-> |]; cbn [andb]; [destruct (Z.leb_spec (p + 3) (size_of buf)); [owned | cbn; congruence] |].
  destruct (Z.eqb_spec opc 0x0F1E) as [-> |]; cbn [andb]; [| congruence].
  destruct (is_rdssp_instruction buf) eqn:Er; [| congruence]. intros [= <- <-]. apply ef_rdssp; try done. destruct (rdssp_is_64 buf); auto.
Qed.

(** What is recognised lies within the fetched bytes. *)
Lemma classify_size ctx buf id n :
  bytes_ok buf -> cpueaxh_classify_escape_instruction ctx buf = (id, n) -> id <> CPUEAXH_ESCAPE_INSN_NONE -> 0 < n <= size_of buf.
Proof.
  intros Hb Hc Hid. destruct (classify_form _ _ _ _ Hc Hid) as (opc & p & Hpk & Hne & Hform).
  destruct (peek_spec _ _ _ _ Hpk Hne) as (Hp & _ & _).
  assert (H2 : 0x0F00 <= opc < 0xFFFF -> own_prefix_len buf = p /\ p + 2 <= size_of buf).
  { intros. by destruct (two_byte_peek _ _ _ _ Hb Hpk ltac:(done)) as (_ & ? & ? & _). }
  destruct Hform as [Hin _ _ _ _ _ Hn [-> | [[-> Ho] | Hsz]] | _ _ -> | -> _ -> | -> _ Hsz -> | -> _ Hr -> | -> _ Hr ->]; try lia.
  - destruct (rdrand_form _ Hr) as [? _]. destruct (H2 ltac:(lia)). lia.
  - destruct (rdssp_form _ Hr) as [? _]. lia.
Qed.

(** The trap the decoder marks a host instruction with. *)
Definition trap_flag (id : Z) : Z :=
  if id =? CPUEAXH_ESCAPE_INSN_INT3 then DECODED_FLAG_BP else if id =? CPUEAXH_ESCAPE_INSN_INT1 then DECODED_FLAG_DB else DECODED_FLAG_UD.

Lemma register_form_unique m r r' : register_form_of m r = true -> r <> r' -> register_form_of m r' = false.
Proof.
  unfold register_form_of. intros [H _]%andb_true_iff Hne. apply andb_false_iff. left. apply Z.eqb_neq. apply Z.eqb_eq in H. lia.
Qed.

Lemma opcode_at_not buf p extra opcode i b :
  opcode !! i = Some b -> byte_at buf (p + Z.of_nat i) <> b -> opcode_at buf p extra opcode = false.
Proof.
  intros Hn Hb. unfold opcode_at. apply andb_false_iff. right. apply not_true_iff_false. rewrite forallb_forall. intros Hall. apply Hb.
  assert (Hin : In (Z.of_nat i, b) (zip (seqZ 0 (Z.of_nat (List.length opcode))) opcode)).
  { apply list_elem_of_In, list_elem_of_lookup. exists i. apply lookup_zip_Some. split; [| done].
    apply lookup_seqZ. apply lookup_lt_Some in Hn. lia. }
  specialize (Hall _ Hin). cbn beta in Hall. by apply Z.eqb_eq in Hall.
Qed.

Section ladder.
Context (ctx : CPU_CONTEXT) (buf : list Z) (p : Z).

Lemma ins_undefined opc : In opc [0x006C; 0x006D] -> own_prefix_len buf = p -> byte_at buf p = opc -> dispatch_ladder ctx buf p opc = Undefined.
Proof.
  intros Hin Hown Hop. assert (Hlt : opc < 256) by (cbn [In] in Hin; lia).
  assert (Hno : opcode_at buf p 1 [0x0F; 0x1E] = false).
  { apply (opcode_at_not _ _ _ _ 0%nat 0x0F); [done |]. rewrite Z.add_0_r, Hop. cbn [In] in Hin. lia. }
  unfold dispatch_ladder. rewrite (vector_ladder_one_byte _ _ _ Hlt). rewrite misc_ladder_one_byte; [| done | |].
  - cbn [In] in Hin. destruct Hin as [<- | [<- | []]]; unfold one_byte_ladder; destruct (peek_repeat_prefix buf p =? 0);
      unfold cpu_decoder_resolve_x87, group_ladder; destruct (size_of buf =? 0), (cpu_is_64bit_code ctx); reflexivity.
  - unfold is_endbr_instruction, probe_endbr_instruction. cbv zeta. by rewrite Hown, Hno, andb_false_r.
  - unfold is_rdssp_instruction, probe_rdssp_instruction. cbv zeta. by rewrite Hown, Hno, andb_false_r.
Qed.

Lemma rdtsc_undefined : dispatch_ladder ctx buf p 0x0F31 = Undefined.
Proof. reflexivity. Qed.

Lemma group_0f01_undefined : p + 2 < size_of buf -> byte_at buf (p + 2) = 0xD0 \/ byte_at buf (p + 2) = 0xF9 -> dispatch_ladder ctx buf p 0x0F01 = Undefined.
Proof.
  intros Hsz Hb. unfold dispatch_ladder. change (vector_ladder buf p 0x0F01) with NoCandidate. cbn iota. unfold misc_ladder.
  assert (Hser : is_serialize_instruction buf p = false).
  { unfold is_serialize_instruction. rewrite (opcode_at_not _ _ _ _ 2%nat 0xE8) by (done || (change (Z.of_nat 2) with 2; lia)). apply andb_false_r. }
  assert (Hmisc : cpu_decoder_resolve_two_byte_misc buf p 0x0F01 (peek_mandatory_prefix buf p) = NoCandidate).
  { unfold cpu_decoder_resolve_two_byte_misc. rewrite Hser. reflexivity. }
  rewrite Hmisc. unfold cpu_decoder_classify_xgetbv_rdtscp. destruct (Z.leb_spec (size_of buf) (p + 2)); [lia |].
  change (negb (0x0F01 =? 0x0F01)) with false. cbn [orb]. destruct Hb as [-> | ->]; reflexivity.
Qed.

Lemma rdrand_undefined : own_prefix_len buf = p -> is_rdrand_instruction buf = true -> dispatch_ladder ctx buf p 0x0FC7 = Undefined.
Proof.
  intros Hown Hr. destruct (rdrand_form _ Hr) as [_ Hform]. rewrite Hown in Hform.
  assert (Hno7 : register_form_of (byte_at buf (p + 2)) 7 = false) by by apply (register_form_unique _ 6).
  assert (Hpid : is_rdpid_instruction buf p = false) by (unfold is_rdpid_instruction; rewrite Hno7; apply andb_false_r).
  assert (Hseed : is_rdseed_instruction buf = false) by (unfold is_rdseed_instruction; cbv zeta; rewrite Hown, Hno7; apply andb_false_r).
  unfold dispatch_ladder. change (vector_ladder buf p 0x0FC7) with NoCandidate. cbn iota. unfold misc_ladder.
  assert (Hmisc : cpu_decoder_resolve_two_byte_misc buf p 0x0FC7 (peek_mandatory_prefix buf p) = Undefined).
  { unfold cpu_decoder_resolve_two_byte_misc. cbv zeta. rewrite Hpid, Hseed, Hno7, Hr. destruct (p + 2 <? size_of buf); reflexivity. }
  rewrite Hmisc. by destruct (cpu_decoder_classify_xgetbv_rdtscp buf p 0x0FC7).
Qed.

Lemma rdssp_handler : own_prefix_len buf = p -> is_rdssp_instruction buf = true -> dispatch_ladder ctx buf p 0x0F1E = Handler "execute_rdssp"%string.
Proof.
  intros Hown Hr. destruct (rdssp_form _ Hr) as [_ Hform]. rewrite Hown in Hform.
  assert (Hend : is_endbr_instruction buf = false).
  { unfold is_endbr_instruction, probe_endbr_instruction. cbv zeta. rewrite Hown. apply andb_false_iff. right.
    apply orb_false_iff; split; apply Z.eqb_neq; intros E; rewrite E in Hform; discriminate Hform. }
  unfold dispatch_ladder. change (vector_ladder buf p 0x0F1E) with NoCandidate. cbn iota. unfold misc_ladder.
  change (cpu_decoder_resolve_two_byte_misc buf p 0x0F1E (peek_mandatory_prefix buf p)) with NoCandidate. cbn iota.
  change (cpu_decoder_classify_xgetbv_rdtscp buf p 0x0F1E) with (false, false). cbn iota. rewrite Hend, Hr. reflexivity.
Qed.

End ladder.

Lemma vector_form_peek ctx buf handler :
  vector_form buf = Some handler -> size_of buf <> 0 -> peek_opcode ctx buf = (byte_at buf 0, 0) /\ In (byte_at buf 0) [0x62; 0xC4; 0xC5].
Proof.
  intros Hv Hne.
  assert (Hin : In (byte_at buf 0) [0x62; 0xC4; 0xC5]).
  { revert Hv. unfold vector_form. cbn [In]. destruct (Z.eqb_spec (byte_at buf 0) 0x62); [intros _; lia |]. cbn [andb].
    destruct (Z.eqb_spec (byte_at buf 0) 0xC5); [intros _; lia |]. destruct (Z.eqb_spec (byte_at buf 0) 0xC4); [intros _; lia | done]. }
  split; [| done]. destruct buf as [| b buf]; [done |]. change (byte_at (b :: buf) 0) with b in *.
  unfold peek_opcode. cbn [prefix_run]. assert (Hp : is_prefix_of_mode ctx b = false /\ (b =? 0x0F) = false).
  { unfold is_prefix_of_mode. cbn [In] in Hin. destruct Hin as [<- | [<- | [<- | []]]]; split; try reflexivity; apply andb_false_r. }
  destruct Hp as [-> E]. cbv zeta. destruct (Z.leb_spec (size_of (b :: buf)) 0).
  { unfold size_of in *. cbn [List.length] in *. lia. }
  change (byte_at (b :: buf) 0) with b. by rewrite E.
Qed.

(** Host instructions decode to the traps, the shadow stack reads to their no-operation. *)
Lemma escape_decoded ctx buf id n :
  bytes_ok buf -> cpueaxh_classify_escape_instruction ctx buf = (id, n) -> id <> CPUEAXH_ESCAPE_INSN_NONE ->
  let '(dec, more) := decode_entry ctx buf in
  if cpueaxh_is_optional_escape_instruction id
  then d_handler dec = Some "execute_rdssp"%string /\ has_bits (d_flags dec) trap_mask = false
  else more = false /\ Z.land (d_flags dec) trap_mask = trap_flag id.
Proof.
  intros Hb Hc Hid. destruct (classify_form _ _ _ _ Hc Hid) as (opc & p & Hpk & Hne & Hform).
  destruct (peek_spec _ _ _ _ Hpk Hne) as (Hp & _ & Hcase).
  unfold decode_entry. destruct (Z.leb_spec (size_of buf) 0); [lia |]. cbv zeta.
  destruct (vector_form buf) eqn:Hv.
  { destruct (vector_form_peek ctx _ _ Hv ltac:(lia)) as [Hpk' Hin]. rewrite Hpk' in Hpk. injection Hpk as <- _. exfalso. cbn [In] in Hin.
    destruct Hform as [Hin' _ _ _ _ _ _ _ | Hin' _ _ | Hin' _ _ | Hin' _ _ _ | Hin' _ _ _ | Hin' _ _ _]; unfold owned_opcodes in *; cbn [In] in *; lia. }
  rewrite Hpk. destruct (Z.eqb_spec opc 0xFFFF); [done |].
  set (dec := add_flags _ (set_d_segment_override _ _)).
  assert (Ht : Z.land (d_flags dec) trap_mask = 0).
  { assert (E : has_bits (d_flags dec) trap_mask = false).
    { unfold dec. cbn [add_flags d_flags set_d_flags set_d_segment_override]. rewrite has_bits_lor, opcode_flags_clean by auto. done. }
    unfold has_bits in E. apply negb_false_iff, Z.eqb_eq in E. done. }
  assert (Htrap : forall f d, Z.land (d_flags d) trap_mask = 0 -> Z.land (d_flags (add_flags f d)) trap_mask = Z.land f trap_mask).
  { intros f d Hd. cbn [add_flags d_flags set_d_flags]. by rewrite Z.land_lor_distr_l, Hd. }
  assert (Hff : forall d, u8 opc <> 0xFF -> ff_branch_flag buf p opc d = d).
  { intros d Hu. unfold ff_branch_flag. by destruct (Z.eqb_spec (u8 opc) 0xFF). }
  assert (Hh0 : has_bits (d_flags dec) trap_mask = false) by (unfold has_bits; by rewrite Ht).
  clearbody dec.
  destruct Hform as [Hin Hni Hopt H3 H1 Hr Hn _ | Hin -> _ | -> -> _ | -> Hd Hsz _ | -> -> Hr _ | -> Hd Hr _].
  - rewrite Hopt.
    assert (He : early_form ctx buf p opc dec = Some (add_flags (trap_flag id) dec)).
    { unfold trap_flag. destruct (Z.eqb_spec id CPUEAXH_ESCAPE_INSN_INT3) as [E |]; [by rewrite ((proj1 H3) E) |].
      destruct (Z.eqb_spec id CPUEAXH_ESCAPE_INSN_INT1) as [E |]; [by rewrite ((proj1 H1) E) |].
      unfold owned_opcodes in Hin. cbn [In] in Hin.
      repeat (destruct Hin as [<- | Hin]; [try reflexivity; tauto |]). done. }
    rewrite He. split; [done |]. rewrite Htrap by done. unfold trap_flag.
    by destruct (id =? CPUEAXH_ESCAPE_INSN_INT3), (id =? CPUEAXH_ESCAPE_INSN_INT1).
  - assert (Hop : byte_at buf p = opc).
    { destruct Hcase as [-> | (_ & _ & E)]; [done |]. pose proof (byte_at_ok buf (p + 1) Hb) as Hw. exfalso.
      assert (Hge : 0x0F00 <= opc); [| cbn [In] in Hin; lia]. rewrite E, lor_0f by done. unfold in_word in Hw. lia. }
    assert (Hown : own_prefix_len buf = p).
    { apply (own_prefix_peek ctx _ opc); [done | done |]. rewrite Hop. cbn [In] in Hin. by destruct Hin as [<- | [<- | []]]. }
    rewrite (ins_undefined _ _ _ _ Hin Hown Hop). cbn [In] in Hin.
    destruct Hin as [<- | [<- | []]]; unfold early_form; destruct (p =? 0); (rewrite Hff by (vm_compute; discriminate); split; [done | by apply Htrap]).
  - rewrite rdtsc_undefined. unfold early_form. destruct (p =? 0); (rewrite Hff by (vm_compute; discriminate); split; [done | by apply Htrap]).
  - rewrite group_0f01_undefined; [| done | destruct Hd as [[= _ E] | [= _ E]]; auto].
    unfold early_form. destruct (p =? 0), Hd as [[= -> _] | [= -> _]]; (rewrite Hff by (vm_compute; discriminate); split; [done | by apply Htrap]).
  - destruct (two_byte_peek _ _ _ _ Hb Hpk ltac:(lia)) as (_ & _ & Hown & _). rewrite rdrand_undefined by done.
    unfold early_form. destruct (p =? 0); (rewrite Hff by (vm_compute; discriminate); split; [done | by apply Htrap]).
  - destruct (two_byte_peek _ _ _ _ Hb Hpk ltac:(lia)) as (_ & _ & Hown & _). rewrite rdssp_handler by done.
    assert (Hopt : cpueaxh_is_optional_escape_instruction id = true) by (destruct Hd as [-> | ->]; done). rewrite Hopt.
    unfold early_form. destruct (p =? 0); (rewrite Hff by (vm_compute; discriminate); unfold install_handler; change (String.eqb "execute_rdssp" "execute_rep") with false; cbn iota;
      split; [by destruct (_ && _) |]; destruct (_ && _); cbn [add_flags d_flags set_d_flags set_d_handler]; rewrite ?has_bits_lor, Hh0; done).
Qed.

(** ** Escapes that nobody handles *)

(** The escape registered for an instruction at an address, if its callback would be called. *)
Definition escape_handler (e : cpueaxh_engine) (insn address : Z) : option CPUEAXH_ESCAPE_ENTRY :=
  match cpueaxh_lookup_escape_entry e insn with
  | Some escape =>
      if negb (esc_callback escape =? 0) && cpueaxh_range_contains (esc_begin escape) (esc_end escape) address then Some escape else None
  | None => None
  end.

Definition trap_exception (insn : Z) : Z :=
  if insn =? CPUEAXH_ESCAPE_INSN_INT3 then CPU_EXCEPTION_BP else if insn =? CPUEAXH_ESCAPE_INSN_INT1 then CPU_EXCEPTION_DB else CPU_EXCEPTION_UD.

Lemma arr_set_same l i : arr_set l i (arr_get 0 l i) = l.
Proof.
  unfold arr_set, arr_get. destruct (l !! Z.to_nat i) as [x |] eqn:E.
  - rewrite (nth_lookup_Some _ _ _ _ E). by apply list_insert_id.
  - apply list_insert_ge. by apply lookup_ge_None in E.
Qed.

Lemma trap_masks flags m : In m [DECODED_FLAG_UD; DECODED_FLAG_BP; DECODED_FLAG_DB] ->
  has_bits flags m = has_bits (Z.land flags trap_mask) m.
Proof.
  intros Hm. unfold has_bits. rewrite <- Z.land_assoc. do 2 f_equal. cbn [In] in Hm. by destruct Hm as [<- | [<- | [<- | []]]].
Qed.

Section refused.
Context `{Callbacks} `{InstructionSet} `{ProbesFramed} `{EscapeCallbacks}.

(** The exit of the step at decode time, when nothing was pending. *)
Lemma raise_and_finish r code status e :
  cpu_has_exception (en_context e) = false -> code <> CPU_EXCEPTION_NONE ->
  cpu_step_finish r None None status (set_en_context (cpu_raise_exception code 0 (en_context e)) e) =
  (CPU_STEP_EXCEPTION, set_en_context (set_c_segment_override (-1) (set_c_exception (mkExc code 0) (en_context e))) e).
Proof.
  intros Hx Hc. unfold cpu_raise_exception. rewrite Hx. unfold cpu_step_finish, st_bind, get_ctx, st_gets.
  change (en_context (set_en_context ?c e)) with c. replace (cpu_has_exception _) with true.
  - unfold mod_ctx, st_modify, st_ret. cbn [en_context set_en_context c_control_regs c_exception set_c_exception].
    rewrite arr_set_same. destruct e as [? ctx ? ? ? ? ? ? ? ? ? ? ?], ctx. reflexivity.
  - symmetry. unfold cpu_has_exception. apply negb_true_iff. by apply Z.eqb_neq.
Qed.

(** An instruction for the host that no escape handles traps the same way whichever loop runs
    it.  Where the classifier sees INT3, INT1 or another instruction only the host can execute, and no
    registered escape covers the address, the escape dispatch raises #BP, #DB or #UD and ends the
    run with EXCEPTION; without hooks and escapes the decoder marks the same bytes with the trap
    flag and the step raises the same exception with the same error code, on the same context but
    for the segment override.  Registering a hook does not change what an unhandled instruction does. *)
Theorem unhandled_escape_traps_like_decoder bridge buf e insn n rip address (Hb : bytes_ok buf)
  (Hx : cpu_has_exception (en_context e) = false) (Hfetch : cpu_has_hook_type e CPUEAXH_HOOK_MEM_FETCH = false)
  (Hc : cpueaxh_classify_escape_instruction (en_context e) buf = (insn, n)) (Hid : insn <> CPUEAXH_ESCAPE_INSN_NONE)
  (Hopt : cpueaxh_is_optional_escape_instruction insn = false) (Hnone : escape_handler e insn address = None) :
  let dec := result (cpu_decode_instruction buf) (en_context e) in
  let trapped := set_c_exception (mkExc (trap_exception insn) 0) (en_context e) in
  cpueaxh_try_dispatch_escape bridge address buf e = (Some (CPUEAXH_ERR_EXCEPTION, None), set_en_context trapped e) /\
  cpu_step_dispatch_decoded (OnStack dec) rip e = (CPU_STEP_EXCEPTION, set_en_context (set_c_segment_override (-1) trapped) e) /\
  cpueaxh_translate_step_error (set_en_context trapped e) CPU_STEP_EXCEPTION = CPUEAXH_ERR_EXCEPTION.
Proof.
  cbv zeta. pose proof (classify_size _ _ _ _ Hb Hc Hid) as Hn.
  assert (Hcode : trap_exception insn <> CPU_EXCEPTION_NONE /\ trap_exception insn <> CPU_EXCEPTION_PF).
  { unfold trap_exception. by destruct (insn =? CPUEAXH_ESCAPE_INSN_INT3), (insn =? CPUEAXH_ESCAPE_INSN_INT1). }
  split_and!.
  - unfold cpueaxh_try_dispatch_escape, st_bind, get_ctx, st_gets, id. rewrite Hc, (proj2 (Z.eqb_neq _ _) Hid).
    destruct (Z.eqb_spec n 0); [lia |]. cbn [orb]. unfold escape_handler in Hnone. rewrite Hopt.
    assert (Hrefuse : (let* _ := if insn =? CPUEAXH_ESCAPE_INSN_INT3 then mod_ctx (cpu_raise_exception CPU_EXCEPTION_BP 0)
         else if insn =? CPUEAXH_ESCAPE_INSN_INT1 then mod_ctx (cpu_raise_exception CPU_EXCEPTION_DB 0)
         else mod_ctx (cpu_raise_exception CPU_EXCEPTION_UD 0) in st_ret (Some (CPUEAXH_ERR_EXCEPTION, @None Z))) e
      = (Some (CPUEAXH_ERR_EXCEPTION, None), set_en_context (set_c_exception (mkExc (trap_exception insn) 0) (en_context e)) e)).
    { assert (Hraise : forall code, mod_ctx (cpu_raise_exception code 0) e = (tt, set_en_context (set_c_exception (mkExc code 0) (en_context e)) e)).
      { intros code. unfold mod_ctx, st_modify, cpu_raise_exception. by rewrite Hx. }
      unfold trap_exception, st_bind.
      destruct (insn =? CPUEAXH_ESCAPE_INSN_INT3); [by rewrite Hraise |]. by destruct (insn =? CPUEAXH_ESCAPE_INSN_INT1); rewrite Hraise. }
    destruct (cpueaxh_lookup_escape_entry e insn) as [escape |]; [| exact Hrefuse].
    destruct (negb _ && _); [discriminate | exact Hrefuse].
  - pose proof (escape_decoded _ _ _ _ Hb Hc Hid) as Hd. pose proof (decode_by_entry buf (en_context e)) as Hdec.
    destruct (decode_entry (en_context e) buf) as [dec more]. rewrite Hopt in Hd. destruct Hd as [-> Hfl].
    unfold result. rewrite Hdec. cbn [fst]. unfold cpu_step_dispatch_decoded, cpu_executor_notify_fetched_bytes, st_bind, st_gets, deref, st_ret, mod_ctx, st_modify.
    rewrite Hfetch. cbn [negb]. rewrite !(trap_masks (d_flags dec)) by (cbn [In]; tauto). rewrite Hfl.
    set (e1 := set_en_context (set_c_segment_override (d_segment_override dec) (en_context e)) e).
    assert (Hx1 : cpu_has_exception (en_context e1) = false) by done.
    assert (He1 : forall code, set_en_context (set_c_segment_override (-1) (set_c_exception (mkExc code 0) (en_context e1))) e1 =
      set_en_context (set_c_segment_override (-1) (set_c_exception (mkExc code 0) (en_context e))) e).
    { intros code. unfold e1. cbn [en_context set_en_context]. by destruct e as [? ctx], ctx. }
    unfold trap_flag, trap_exception in *.
    destruct (insn =? CPUEAXH_ESCAPE_INSN_INT3); [| destruct (insn =? CPUEAXH_ESCAPE_INSN_INT1)];
      repeat match goal with |- context [has_bits ?f ?m] => let b := eval vm_compute in (has_bits f m) in change (has_bits f m) with b end;
      cbn iota; unfold raise_bp_ctx, raise_db_ctx, raise_ud_ctx; fold e1; rewrite (raise_and_finish _ _ _ e1) by done; by rewrite He1.
  - unfold cpueaxh_translate_step_error. cbn [en_context set_en_context c_exception set_c_exception exc_code].
    change (CPU_STEP_EXCEPTION =? CPU_STEP_OK) with false. cbn. destruct Hcode as [_ Hpf]. by rewrite (proj2 (Z.eqb_neq _ _) Hpf).
Qed.

End refused.

(** ** The cached path *)

Section cached.
Context `{Callbacks} `{InstructionSet} `{ProbesFramed} `{EscapeCallbacks}.

(** What the decoder flags as known is no escape, and it has bytes. *)
Lemma decoded_known buf ctx ctx' :
  has_bits (d_flags (result (cpu_decode_instruction buf) ctx)) DECODED_FLAG_KNOWN_NOT_ESCAPE = true ->
  cpu_is_64bit_code ctx' = cpu_is_64bit_code ctx ->
  cpueaxh_classify_escape_instruction ctx' buf = (CPUEAXH_ESCAPE_INSN_NONE, 0) /\ d_byte_count (result (cpu_decode_instruction buf) ctx) <> 0.
Proof.
  destruct (decode_spec buf ctx) as (dec & Hd & He & _). unfold result. rewrite Hd. cbn [fst]. intros Hk Hmode.
  assert (Hsame : d_flags dec = d_flags (fst (decode_entry ctx buf)) /\ d_byte_count dec = d_byte_count (fst (decode_entry ctx buf))).
  { assert (Hf : forall d, d_flags (erase_fast d) = d_flags d /\ d_byte_count (erase_fast d) = d_byte_count d).
    { intros d. unfold erase_fast. by destruct (d_handler d). }
    destruct (Hf dec) as [<- <-], (Hf (fst (decode_entry ctx buf))) as [<- <-]. by rewrite He. }
  destruct Hsame as [Hfl Hc]. rewrite Hfl in Hk. destruct (entry_known _ _ Hk) as [Hno Hne]. split; [| by rewrite Hc].
  apply not_candidate_no_escape. replace (peek_opcode ctx' buf) with (peek_opcode ctx buf); [done |].
  unfold peek_opcode, is_prefix_of_mode, cpu_allows_rex_prefix. by rewrite Hmode.
Qed.

(** C21: the cached path misses no escape.  When the slot of RIP answers and its instruction, decoded
    from some bytes in the current mode, is flagged as known not to be an escape, the classifier
    finds no escape in those bytes whatever is registered, and running straight from the slot is
    exactly what the full path does with those bytes: same status, same state, same hooks after it. *)
Theorem cached_path_misses_no_escape bridge need_post_hook buf ctx e
  (Hdec : ic_decoded (slot_at (en_inst_cache e) (Executor.slot_of e)) = result (cpu_decode_instruction buf) ctx)
  (Hflag : has_bits (d_flags (result (cpu_decode_instruction buf) ctx)) DECODED_FLAG_KNOWN_NOT_ESCAPE = true)
  (Hmode : cpu_is_64bit_code (en_context e) = cpu_is_64bit_code ctx)
  (Hhit : step_hits e = true) (Hx : cpu_has_exception (en_context e) = false) :
  let rip := c_rip (en_context e) in
  cpueaxh_try_dispatch_escape bridge rip buf e = (None, e) /\
  result (known_slot rip) e = true /\
  execute_at bridge need_post_hook rip e = execute_bytes bridge need_post_hook rip buf e.
Proof.
  cbv zeta. destruct (decoded_known buf ctx (en_context e) Hflag Hmode) as [Hcl Hcount].
  assert (Htry : cpueaxh_try_dispatch_escape bridge (c_rip (en_context e)) buf e = (None, e)).
  { unfold cpueaxh_try_dispatch_escape, st_bind, get_ctx, st_gets, id. by rewrite Hcl. }
  assert (Hknown : known_slot (c_rip (en_context e)) e = (true, with_mode_key e)).
  { pose proof Hhit as Hh. unfold step_hits, mode_key_of in Hh. apply andb_true_iff in Hh as [Hcache Hh].
    unfold known_slot, st_bind, get_ctx, st_gets, on_ctx, st_zoom. rewrite Hcache. cbn [negb].
    unfold with_mode_key. destruct (cpu_inst_cache_mode_key (en_context e)) as [key c] eqn:Ek. cbn [fst snd] in *.
    cbn [en_inst_cache en_mem set_en_context]. fold (Executor.slot_of e). rewrite Hh, Hdec, Hflag. done. }
  split_and!; [done | by unfold result; rewrite Hknown |].
  unfold execute_at, execute_bytes, st_bind. rewrite Hknown, Htry.
  rewrite (step_on_hit buf e Hx Hhit) by by rewrite Hdec. unfold cpu_step_decoded, st_bind, get_ctx, st_gets.
  destruct (with_mode_key_fields e) as (Hrip & _ & Hexc & _). by rewrite Hexc, Hx, Hrip.
Qed.

End cached.

(** ** What a run is *)

Section rounds.
Context (round : ST cpueaxh_engine (option Z)) (until count : Z).

(** [n] rounds that went on, each begun when no check ended the run. *)
Inductive rounds : nat -> cpueaxh_engine -> cpueaxh_engine -> Prop :=
  | rounds_none e : rounds 0 e e
  | rounds_more n e e1 e2 :
      rounds n e e1 -> run_is_over until count (Z.of_nat n) e1 = false -> round e1 = (None, e2) -> rounds (S n) e e2.

Lemma rounds_below_count n e e1 : rounds n e e1 -> count <> 0 -> 0 <= count -> Z.of_nat n <= count.
Proof.
  intros Hr Hc Hc0. destruct Hr as [| n e e1 e2 _ Hover _]; [lia |]. unfold run_is_over in Hover.
  destruct (Z.eqb_spec count 0); [done |]. cbn [negb andb] in Hover. destruct (Z.leb_spec count (Z.of_nat n)); [done | lia].
Qed.

(** The loop after those rounds. *)
Lemma run_loop_after n e e1 fuel :
  rounds n e e1 -> Z.of_nat n < 2 ^ 64 -> run_loop (n + fuel) round until count 0 e = run_loop fuel round until count (Z.of_nat n) e1.
Proof.
  intros Hr. revert fuel. induction Hr as [| n e e1 e2 Hr IH Hover Hround]; intros fuel Hn; [done |].
  replace (S n + fuel)%nat with (n + S fuel)%nat by lia. rewrite IH by lia. cbn [run_loop].
  unfold st_bind, st_gets. rewrite Hover, Hround. f_equal. unfold wrap. rewrite Z.mod_small by lia. lia.
Qed.

(** A run ends within [count] rounds. *)
Lemma rounds_end e : 0 < count -> exists n e1, rounds n e e1 /\ (run_is_over until count (Z.of_nat n) e1 = true \/ fst (round e1) <> None).
Proof.
  intros Hc.
  assert (Hk : forall k : nat, (Z.of_nat k <= count) -> (exists e1, rounds k e e1) \/
    exists n e1, rounds n e e1 /\ (run_is_over until count (Z.of_nat n) e1 = true \/ fst (round e1) <> None)).
  { induction k as [| k IH]; intros Hk; [left; exists e; constructor |].
    destruct IH as [[e1 Hr] | Hend]; [lia | | by right].
    destruct (run_is_over until count (Z.of_nat k) e1) eqn:Hover; [right; exists k, e1; auto |].
    destruct (round e1) as [[error |] e2] eqn:Hround.
    - right. exists k, e1. rewrite Hround. split; [done | by right].
    - left. exists e2. by eapply rounds_more. }
  destruct (Hk (Z.to_nat count) ltac:(lia)) as [[e1 Hr] | Hend]; [| done].
  exists (Z.to_nat count), e1. split; [done |]. left. unfold run_is_over.
  destruct (Z.eqb_spec count 0); [lia |]. destruct (Z.leb_spec count (Z.of_nat (Z.to_nat count))); [done | lia].
Qed.

End rounds.

Section runs.
Context `{Callbacks} `{InstructionSet} `{Decoder} `{EscapeCallbacks}.
Context (bridge : Z).

Lemma after_step_error np address status e error e' : after_step np address status e = (Some error, e') -> en_last_error e' = error.
Proof.
  unfold after_step, end_run, mod_engine, st_modify, st_bind, st_gets, st_ret.
  destruct (status =? CPU_STEP_OK); [destruct (call_hooks np _ _ e); discriminate |].
  destruct (status =? CPU_STEP_HALT); [destruct (call_hooks np _ _ e) |]; by intros [= <- <-].
Qed.

Lemma round_error e0 e error e' : chosen_round bridge e0 e = (Some error, e') -> en_last_error e' = error.
Proof.
  unfold chosen_round. destruct (_ && _).
  - unfold plain_round, st_bind. destruct (cpu_step e) as [status e1]. apply after_step_error.
  - unfold hooked_round, st_bind, get_ctx, st_gets. destruct (call_hooks _ _ _ e) as [[] e1].
    destruct (en_stop_requested e1). { unfold end_run, mod_engine, st_modify, st_bind, st_ret. by intros [= <- <-]. }
    unfold execute_at, st_bind. destruct (known_slot _ e1) as [fast e2]. destruct fast.
    { destruct (cpu_step_decoded _ e2). apply after_step_error. }
    destruct (fetch_instruction_bytes _ e2) as [bytes e3]. unfold execute_bytes, st_bind.
    destruct (cpueaxh_try_dispatch_escape _ _ _ e3) as [[[code size] |] e4].
    + destruct (negb _); [| apply after_step_error]. unfold end_run, mod_engine, st_modify, st_bind, st_ret. by intros [= <- <-].
    + destruct (cpu_step_with_prefetch _ e4). apply after_step_error.
Qed.

Lemma ok_steps_snoc n e e1 e2 : ok_steps n e e1 -> cpu_step e1 = (CPU_STEP_OK, e2) -> ok_steps (S n) e e2.
Proof. induction 1 as [| n e e' e1 Hs Hr IH]; intros H'; econstructor; eauto. constructor. Qed.

(** Rounds without hooks and escapes are steps that succeeded. *)
Lemma plain_rounds_steps until count n e e1 : rounds plain_round until count n e e1 -> ok_steps n e e1.
Proof.
  intros Hr. induction Hr as [| n e e1 e2 Hr IH _ Hround]; [constructor |]. eapply ok_steps_snoc; [exact IH |].
  unfold plain_round, st_bind in Hround. destruct (cpu_step e1) as [status e3] eqn:Hs.
  unfold after_step, call_hooks, end_run, st_bind, st_ret, mod_engine, st_modify, st_gets in Hround.
  destruct (Z.eqb_spec status CPU_STEP_OK) as [-> |]; [congruence |]. destruct (status =? CPU_STEP_HALT); discriminate.
Qed.

(** C20: a run with a count ends, and is that many rounds at most.  For any engine, hooks, escapes and
    callbacks, [cpueaxh_emu_start] with a non-zero [count] begins with RIP at [begin] (where that is not
    0), no stop request and no exception, and makes some number of complete rounds, at most [count];
    without hooks and escapes they are successful steps of the executor.  Then either one of the checks
    holds - count reached, RIP at [until], stop requested - and it returns OK; or the next round
    ends the run with the error it returns.  The engine's last error is what is returned.  Fuel beyond
    the number of rounds changes nothing. *)
Theorem run_ends_within_count begin until timeout count e (Hcount : 0 < count < 2 ^ 64) :
  let s := start_at begin e in
  exists n e1, rounds (chosen_round bridge s) until count n s e1 /\ Z.of_nat n <= count /\
    (has_any_hook s = false -> has_registered_escapes s = false -> ok_steps n s e1) /\
    exists error e2,
      (run_is_over until count (Z.of_nat n) e1 = true /\ error = CPUEAXH_ERR_OK /\ e2 = set_en_last_error error e1 \/
       run_is_over until count (Z.of_nat n) e1 = false /\ chosen_round bridge s e1 = (Some error, e2)) /\
      en_last_error e2 = error /\
      forall fuel, (n < fuel)%nat -> cpueaxh_emu_start bridge fuel begin until timeout count e = (Some error, e2).
Proof.
  cbv zeta. set (s := start_at begin e). destruct (rounds_end (chosen_round bridge s) until count s ltac:(lia)) as (n & e1 & Hr & Hend).
  pose proof (rounds_below_count _ _ _ _ _ _ Hr ltac:(lia) ltac:(lia)) as Hn. exists n, e1. split_and!; [done | done | |].
  { intros Hh He. eapply (plain_rounds_steps until count). revert Hr. unfold chosen_round. by rewrite Hh, He. }
  assert (Hrun : forall fuel, (n < fuel)%nat -> cpueaxh_emu_start bridge fuel begin until timeout count e =
    run_loop (S (fuel - S n)) (chosen_round bridge s) until count (Z.of_nat n) e1).
  { intros fuel Hf. unfold cpueaxh_emu_start, st_bind, mod_engine, st_modify, st_get. fold s.
    replace fuel with (n + S (fuel - S n))%nat at 1 by lia. apply run_loop_after; [done | lia]. }
  destruct (run_is_over until count (Z.of_nat n) e1) eqn:Hover.
  - exists CPUEAXH_ERR_OK, (set_en_last_error CPUEAXH_ERR_OK e1). split_and!; [by left | done |].
    intros fuel Hf. rewrite Hrun by done. cbn [run_loop]. unfold st_bind, st_gets. by rewrite Hover.
  - destruct Hend as [Hend | Hend]; [done |]. destruct (chosen_round bridge s e1) as [[error |] e2] eqn:Hround; [| done].
    exists error, e2. split_and!; [by right | by eapply round_error |].
    intros fuel Hf. rewrite Hrun by done. cbn [run_loop]. unfold st_bind, st_gets. by rewrite Hover, Hround.
Qed.

(** C23: stop requests are obeyed.  Wherever a run stands after some rounds, a stop request seen by the
    checks ends it with OK there and then, and so does one that a code hook makes before the next
    instruction: that instruction is not executed, the engine is as the hook left it.  A request from
    before the run is forgotten. *)
Theorem stop_request_ends_run begin until timeout count e n e1 fuel (Hfuel : (n < fuel)%nat) (Hn : Z.of_nat n < 2 ^ 64) :
  let s := start_at begin e in
  let pre := call_hooks (negb (count_at s CPUEAXH_HOOK_CODE_PRE =? 0)) CPUEAXH_HOOK_CODE_PRE (c_rip (en_context e1)) in
  en_stop_requested s = false /\
  (rounds (chosen_round bridge s) until count n s e1 -> en_stop_requested e1 = true ->
   cpueaxh_emu_start bridge fuel begin until timeout count e = (Some CPUEAXH_ERR_OK, set_en_last_error CPUEAXH_ERR_OK e1)) /\
  (rounds (chosen_round bridge s) until count n s e1 -> run_is_over until count (Z.of_nat n) e1 = false ->
   has_any_hook s = true -> en_stop_requested (final pre e1) = true ->
   cpueaxh_emu_start bridge fuel begin until timeout count e = (Some CPUEAXH_ERR_OK, set_en_last_error CPUEAXH_ERR_OK (final pre e1))).
Proof.
  cbv zeta. set (s := start_at begin e). split; [unfold s, start_at; by destruct (begin =? 0) |].
  assert (Hrun : rounds (chosen_round bridge s) until count n s e1 -> cpueaxh_emu_start bridge fuel begin until timeout count e =
    run_loop (S (fuel - S n)) (chosen_round bridge s) until count (Z.of_nat n) e1).
  { intros Hr. unfold cpueaxh_emu_start, st_bind, mod_engine, st_modify, st_get. fold s.
    replace fuel with (n + S (fuel - S n))%nat at 1 by lia. by apply run_loop_after. }
  split; intros Hr; rewrite (Hrun Hr); cbn [run_loop]; unfold st_bind at 1; unfold st_gets at 1.
  - intros Hs. unfold run_is_over. by rewrite Hs, orb_true_r.
  - intros Hover Hh Hs. rewrite Hover. unfold st_bind at 1. unfold chosen_round. rewrite Hh. cbn [negb andb].
    unfold hooked_round, st_bind at 1, get_ctx, st_gets at 1. unfold st_bind at 1. unfold final in Hs.
    destruct (call_hooks _ _ _ e1) as [[] e2] eqn:Hpre. unfold final. rewrite Hpre. cbn [snd] in *. unfold st_bind at 1, st_gets. rewrite Hs. done.
Qed.

End runs.

(** ** What an escape does *)

(** A record with RIP replaced. *)
Definition set_x_rip (v : Z) (x : cpueaxh_x86_context) : cpueaxh_x86_context :=
  mkXCtx (x_regs x) v (x_rflags x) (x_xmm x) (x_ymm_upper x) (x_zmm_upper x) (x_opmask x) (x_mm x) (x_mxcsr x)
    (x_es x) (x_cs x) (x_ss x) (x_ds x) (x_fs x) (x_gs x) (x_gdtr_base x) (x_gdtr_limit x) (x_ldtr_base x) (x_ldtr_limit x)
    (x_cpl x) (x_code_exception x) (x_error_code_exception x) (x_internal_bridge_block x) (x_control_regs x) (x_processor_id x).

Lemma out_set_rip v ctx : cpueaxh_context_out (set_c_rip v ctx) = set_x_rip v (cpueaxh_context_out ctx).
Proof. reflexivity. Qed.

Lemma normal_set_rip v x : normal_context (set_x_rip v x) = set_x_rip v (normal_context x).
Proof. reflexivity. Qed.

Lemma set_same_rip x : set_x_rip (x_rip x) x = x.
Proof. by destruct x. Qed.

Section outcome.
Context `{Callbacks} `{InstructionSet} `{EscapeCallbacks}.

(** C22: a registered escape takes the instruction's place.  When the callback refuses, its error ends
    the run and the engine is as the callback left it.  When it accepts, the record it leaves is the
    CPU's next state, except that a RIP it did not change moves past the instruction, whose size lies
    within the fetched bytes; a pending exception in the record ends the run with EXCEPTION.  So a
    callback that changes nothing makes the instruction a no-operation: nothing changes but RIP, the
    last instruction size and the validity of the cached decoding mode. *)
Theorem escape_replaces_instruction bridge address buf e insn n escape error x e1 (Hb : bytes_ok buf)
  (Hc : cpueaxh_classify_escape_instruction (en_context e) buf = (insn, n)) (Hid : insn <> CPUEAXH_ESCAPE_INSN_NONE)
  (Hh : escape_handler e insn address = Some escape) :
  let given := set_x_internal_bridge_block bridge (cpueaxh_context_out (en_context e)) in
  let rip := c_rip (en_context e) in
  cb_escape (esc_callback escape) given buf (esc_user_data escape) e = ((error, x), e1) ->
  0 < n <= size_of buf /\
  (error <> CPUEAXH_ERR_OK -> cpueaxh_try_dispatch_escape bridge address buf e = (Some (error, None), e1)) /\
  (error = CPUEAXH_ERR_OK -> exists ctx,
    cpueaxh_try_dispatch_escape bridge address buf e =
      (Some (if x_code_exception x =? CPU_EXCEPTION_NONE then CPUEAXH_ERR_OK else CPUEAXH_ERR_EXCEPTION, Some n), set_en_context ctx e1) /\
    cpueaxh_context_out ctx = normal_context (set_x_rip (if x_rip x =? rip then u64 (rip + n) else x_rip x) x) /\
    c_last_inst_size ctx = n) /\
  (error = CPUEAXH_ERR_OK -> x = given -> e1 = e -> cpu_has_exception (en_context e) = false ->
    cpueaxh_try_dispatch_escape bridge address buf e = (Some (CPUEAXH_ERR_OK, Some n),
      set_en_context (set_c_last_inst_size n (set_c_rip (u64 (rip + n))
        (set_c_cached_mode_key_valid false (set_c_long_mode_active true (en_context e))))) e)).
Proof.
  cbv zeta. intros Hcb. pose proof (classify_size _ _ _ _ Hb Hc Hid) as Hn. split; [done |].
  assert (Hn32 : u64 (c_rip (en_context e) + u64 n) = u64 (c_rip (en_context e) + n)) by (apply wrap_add_r; lia).
  assert (Htry : cpueaxh_try_dispatch_escape bridge address buf e =
    if negb (error =? CPUEAXH_ERR_OK) then (Some (error, None), e1)
    else
      let moved := cpueaxh_context_in x (en_context e1) in
      let moved := if c_rip moved =? c_rip (en_context e) then set_c_rip (u64 (c_rip (en_context e) + n)) moved else moved in
      let ctx := set_c_last_inst_size n moved in
      (Some (if cpu_has_exception ctx then CPUEAXH_ERR_EXCEPTION else CPUEAXH_ERR_OK, Some n), set_en_context ctx e1)).
  { unfold cpueaxh_try_dispatch_escape, st_bind, get_ctx, st_gets, id. rewrite Hc, (proj2 (Z.eqb_neq _ _) Hid).
    destruct (Z.eqb_spec n 0); [lia |]. cbn [orb]. unfold escape_handler in Hh.
    destruct (cpueaxh_lookup_escape_entry e insn) as [escape' |]; [| discriminate].
    destruct (negb (esc_callback escape' =? 0) && _); [| discriminate]. injection Hh as ->. rewrite Hcb.
    destruct (negb (error =? CPUEAXH_ERR_OK)); [done |].
    unfold mod_ctx, st_modify, st_ret. cbv zeta. cbn [en_context set_en_context]. by rewrite Hn32. }
  rewrite Htry. clear Htry. split_and!.
  - intros Hne. by rewrite (proj2 (Z.eqb_neq _ _) Hne).
  - intros ->. cbn [negb Z.eqb CPUEAXH_ERR_OK]. cbv zeta. eexists. split; [| split].
    + assert (Hx : forall c, cpu_has_exception (set_c_last_inst_size n c) = cpu_has_exception c) by done. rewrite Hx.
      assert (Hxx : cpu_has_exception (if c_rip (cpueaxh_context_in x (en_context e1)) =? c_rip (en_context e)
        then set_c_rip (u64 (c_rip (en_context e) + n)) (cpueaxh_context_in x (en_context e1)) else cpueaxh_context_in x (en_context e1)) =
        negb (x_code_exception x =? CPU_EXCEPTION_NONE)).
      { by destruct (_ =? c_rip (en_context e)). }
      rewrite Hxx, if_negb. reflexivity.
    + change (c_rip (cpueaxh_context_in x (en_context e1))) with (x_rip x).
      assert (Hl : forall c, cpueaxh_context_out (set_c_last_inst_size n c) = cpueaxh_context_out c) by reflexivity. rewrite Hl.
      rewrite normal_set_rip, <- (context_out_in x (en_context e1)). destruct (x_rip x =? c_rip (en_context e)); [exact (out_set_rip _ _) |].
      symmetry. exact (set_same_rip _).
    + done.
  - intros -> -> -> Hx. cbn [negb Z.eqb CPUEAXH_ERR_OK]. cbv zeta.
    assert (Hin : cpueaxh_context_in (set_x_internal_bridge_block bridge (cpueaxh_context_out (en_context e))) (en_context e) =
      set_c_cached_mode_key_valid false (set_c_long_mode_active true (en_context e))) by exact (context_in_out (en_context e)).
    rewrite Hin. cbn [c_rip set_c_cached_mode_key_valid set_c_long_mode_active]. rewrite Z.eqb_refl.
    unfold cpu_has_exception in *. cbn [c_exception set_c_last_inst_size set_c_rip set_c_cached_mode_key_valid set_c_long_mode_active]. by rewrite Hx.
Qed.

End outcome.

(** ** Calling a function *)

(** Writing bytes to a range all of which may be written, no two addresses sharing a host byte. *)
Record range_writable (s : MemState) (address size : Z) : Prop := {
  rw_ok : forall i, 0 <= i < size -> access_status s (u64 (address + i)) MM_PROT_WRITE = MM_ACCESS_OK;
  rw_distinct : forall i j, 0 <= i < size -> 0 <= j < size ->
    host_address s (u64 (address + i)) = host_address s (u64 (address + j)) -> i = j;
}.

(** Everything but the bytes of the range is as before. *)
Definition range_written (s s' : MemState) (address : Z) (values : list Z) : Prop :=
  (forall c perm, access_status s' c perm = access_status s c perm) /\
  (forall i, 0 <= i < Z.of_nat (length values) -> byte_seen s' (u64 (address + i)) = arr_get 0 values i) /\
  (forall c, (forall i, 0 <= i < Z.of_nat (length values) -> host_address s c <> host_address s (u64 (address + i))) ->
    access_view s' c = access_view s c).

Lemma write_range_raw address values e :
  manager_wf (en_mem e) -> bytes_ok values -> 0 < Z.of_nat (length values) ->
  range_writable (en_mem e) address (Z.of_nat (length values)) ->
  let '(status, e') := cpueaxh_mem_write_raw address (Local values) (Z.of_nat (length values)) e in
  status = CPUEAXH_ERR_OK /\ e' = set_en_mem (en_mem e') e /\ manager_wf (en_mem e') /\ range_written (en_mem e) (en_mem e') address values.
Proof.
  intros Hwf Hb Hs [Hok Hinj]. set (size := Z.of_nat (length values)) in *.
  assert (Hin : Forall (fun i => 0 <= i < size) (seqZ 0 size)) by (apply Forall_forall; intros k Hk%elem_of_seqZ; lia).
  pose proof (mem_write_loop_spec address (Local values) size (seqZ 0 size) e Hwf I Hin (fun i => byte_at_ok values i Hb)) as Hw.
  rewrite allowed_all in Hw by (eapply Forall_impl; [exact Hin |]; intros k Hk; by apply Hok).
  unfold cpueaxh_mem_write_raw. destruct (mem_write_loop (seqZ 0 size) address (Local values) e) as [st e1].
  destruct Hw as (-> & He & Hwf1 & _ & Hview). split_and!; [done | done | done |]. split_and!.
  - apply view_status. intros c. rewrite Hview. unfold copied. by destruct (access_view (en_mem e) c) as [[[? ?] ?] |].
  - intros i Hi. unfold byte_seen. rewrite Hview. unfold copied. pose proof (Hok i Hi) as Hst. unfold access_status in Hst.
    destruct (access_view (en_mem e) (u64 (address + i))) as [[[b p] t] |]; [| done].
    rewrite (find_rev_unique _ _ i); [done | by apply elem_of_seqZ; lia | by apply Z.eqb_eq |].
    intros y Hy%elem_of_seqZ Heq%Z.eqb_eq. symmetry. apply Hinj; [done | lia | done].
  - intros c Hc. rewrite Hview. unfold copied. destruct (access_view (en_mem e) c) as [[[b p] t] |]; [| done].
    destruct (List.find _ _) as [i |] eqn:E; [| done]. apply List.find_some in E as [Hi Heq].
    apply in_rev, list_elem_of_In, elem_of_seqZ in Hi. apply Z.eqb_eq in Heq. destruct (Hc i); [fold size; lia | done].
Qed.

Lemma le_combine_split n : forall v, le_combine (le_split n v) = wrap (8 * Z.of_nat n) v.
Proof.
  induction n as [| n IH]; intros v; cbn [le_split le_combine].
  - unfold wrap. by rewrite Z.mod_1_r.
  - rewrite IH. change 0xFF with (Z.ones 8). rewrite Z.land_ones, Z.shiftr_div_pow2 by lia. unfold wrap.
    replace (8 * Z.of_nat (S n)) with (8 + 8 * Z.of_nat n) by lia. rewrite Z.pow_add_r by lia.
    change 256 with (2 ^ 8). rewrite Z.rem_mul_r by lia. done.
Qed.

Lemma le_split_bytes n v : bytes_ok (le_split n v) /\ length (le_split n v) = n.
Proof. apply le_split_ok. Qed.

(** Reading into a local variable changes the page cache alone. *)
Lemma read_local address l indices : forall e, manager_wf (en_mem e) -> same_cpu e (snd (mem_read_loop indices address (Local l) e)).
Proof.
  induction indices as [| i indices IH]; intros e Hwf; [by apply same_cpu_refl |]. cbn [mem_read_loop]. unfold st_bind at 1, on_mem, st_zoom.
  set (a := u64 (address + i)). assert (Ha : in_word 64 a) by (apply wrap_range; lia).
  destruct (mm_read_byte_checked a MM_PROT_READ (en_mem e)) as [[[st byte] attrs] s1] eqn:E.
  destruct (mm_read_byte_checked_spec _ _ _ _ _ _ _ Hwf Ha E) as (Hsc & Hwf1 & _).
  assert (Hs : same_cpu e (set_en_mem s1 e)) by by exists s1.
  destruct st; [destruct byte as [byte |] |..]; try exact Hs. cbn [put_bytes]. unfold st_bind, st_ret.
  specialize (IH (set_en_mem s1 e) Hwf1). destruct (mem_read_loop indices address (Local l) _) as [[error bytes] e2].
  by eapply same_cpu_trans.
Qed.

Lemma range_writable_same e e' address size : same_cpu e e' -> range_writable (en_mem e) address size -> range_writable (en_mem e') address size.
Proof.
  intros Hs [Hok Hinj]. destruct Hs as (m & -> & Hsc & _). cbn [en_mem set_en_mem]. split.
  - intros i Hi. unfold access_status. rewrite (same_but_cache_view _ _ _ Hsc). by apply Hok.
  - intros i j Hi Hj. rewrite !(same_but_cache_host _ _ _ Hsc). by apply Hinj.
Qed.

Lemma range_written_same e e' s address values : same_cpu e e' -> range_written (en_mem e') s address values -> range_written (en_mem e) s address values.
Proof.
  intros (m & -> & Hsc & _) (Hst & Hb & Hv). cbn [en_mem set_en_mem] in *. split_and!; [| done |].
  - intros c perm. rewrite Hst. unfold access_status. by rewrite (same_but_cache_view _ _ _ Hsc).
  - intros c Hc. rewrite Hv; [by apply same_but_cache_view |]. intros i Hi. rewrite !(same_but_cache_host _ _ _ Hsc). by apply Hc.
Qed.

Lemma st_bind_run {S A B} (c : ST S A) (k : A -> ST S B) s a s' : c s = (a, s') -> st_bind c k s = k a s'.
Proof. unfold st_bind. by intros ->. Qed.

Section call.
Context `{Callbacks} `{InstructionSet} `{Decoder} `{EscapeCallbacks}.

(** The call after the stack pointer is read. *)
Definition call_body (bridge : Z) (fuel : nat) (begin timeout count sp : Z) : ST cpueaxh_engine (option Z) :=
  let* (error, original_return) := mem_read_loop (seqZ 0 8) sp (Local (repeat 0 8)) in
  if negb (error =? CPUEAXH_ERR_OK) then st_ret (Some error)
  else
    let* error := cpueaxh_mem_write_raw sp (Local (out64 CPUEAXH_EMU_RETURN_MAGIC)) 8 in
    if negb (error =? CPUEAXH_ERR_OK) then st_ret (Some error)
    else
      let* run := cpueaxh_emu_start bridge fuel begin CPUEAXH_EMU_RETURN_MAGIC timeout count in
      match run with
      | None => st_ret None
      | Some run_error =>
          let* restore_error := cpueaxh_mem_write_raw sp (Local original_return) 8 in
          if negb (run_error =? CPUEAXH_ERR_OK) then st_ret (Some run_error)
          else if negb (restore_error =? CPUEAXH_ERR_OK) then st_ret (Some restore_error)
          else st_ret (Some CPUEAXH_ERR_OK)
      end.

Lemma function_body bridge fuel begin timeout count e :
  in_word 64 (arr_get 0 (c_regs (en_context e)) REG_RSP) ->
  cpueaxh_emu_start_function bridge fuel begin timeout count e =
  call_body bridge fuel begin timeout count (arr_get 0 (c_regs (en_context e)) REG_RSP) e.
Proof.
  intros Hsp. unfold cpueaxh_emu_start_function. unfold st_bind at 1, get_ctx, st_gets, id.
  set (sp := arr_get 0 (c_regs (en_context e)) REG_RSP) in *.
  assert (Hr : cpueaxh_reg_read_raw (en_context e) CPUEAXH_X86_REG_RSP (Local (repeat 0 8)) = (CPUEAXH_ERR_OK, out64 sp)) by reflexivity.
  rewrite Hr. unfold out64. rewrite le_combine_split. change (8 * Z.of_nat 8) with 64. rewrite wrap_small by done. reflexivity.
Qed.

(** The bytes of a written range, as a list. *)
Lemma range_written_list s s' address values :
  range_written s s' address values -> map (fun i => byte_seen s' (u64 (address + i))) (seqZ 0 (Z.of_nat (length values))) = values.
Proof.
  intros (_ & Hb & _). apply (nth_ext _ _ 0 0); [rewrite length_map, length_seqZ; lia |].
  intros k Hk. rewrite length_map, length_seqZ in Hk. specialize (Hb (Z.of_nat k) ltac:(lia)). unfold arr_get in Hb. rewrite Nat2Z.id in Hb.
  rewrite <- Hb. rewrite (nth_indep _ 0 (byte_seen s' (u64 (address + 0)))) by (rewrite length_map, length_seqZ; lia).
  rewrite (map_nth (fun i => byte_seen s' (u64 (address + i)))). do 3 f_equal.
  rewrite nth_lookup, (lookup_seqZ_lt 0 (Z.of_nat (length values)) k) by lia. cbn. lia.
Qed.

(** C24: a called function gets the magic return address and its return slot back.  With the eight
    bytes at RSP readable and writable, [cpueaxh_emu_start_function] starts the run with exactly these
    bytes changed to the magic number and the run's end there; and when the run has ended, well or
    not, and the slot is still writable, it leaves the slot with its original bytes, everything else as
    the run left it, and returns the run's error.  When the first byte of the slot cannot be read, nothing
    runs and the error says why. *)
Theorem function_call_restores_return_slot bridge begin timeout count e (Hwf : manager_wf (en_mem e)) :
  let sp := arr_get 0 (c_regs (en_context e)) REG_RSP in
  let slot s := map (fun i => byte_seen s (u64 (sp + i))) (seqZ 0 8) in
  in_word 64 sp ->
  ((forall i, 0 <= i < 8 -> access_status (en_mem e) (u64 (sp + i)) MM_PROT_READ = MM_ACCESS_OK) -> range_writable (en_mem e) sp 8 ->
   exists e1, e1 = set_en_mem (en_mem e1) e /\ range_written (en_mem e) (en_mem e1) sp (out64 CPUEAXH_EMU_RETURN_MAGIC) /\
   forall fuel, match cpueaxh_emu_start bridge fuel begin CPUEAXH_EMU_RETURN_MAGIC timeout count e1 with
     | (None, e2) => cpueaxh_emu_start_function bridge fuel begin timeout count e = (None, e2)
     | (Some error, e2) => manager_wf (en_mem e2) -> range_writable (en_mem e2) sp 8 ->
         exists e3, cpueaxh_emu_start_function bridge fuel begin timeout count e = (Some error, e3) /\
           e3 = set_en_mem (en_mem e3) e2 /\ range_written (en_mem e2) (en_mem e3) sp (slot (en_mem e)) /\ slot (en_mem e3) = slot (en_mem e)
     end) /\
  (access_status (en_mem e) sp MM_PROT_READ <> MM_ACCESS_OK -> forall fuel, exists e1,
   cpueaxh_emu_start_function bridge fuel begin timeout count e =
     (Some (cpueaxh_translate_access_error (access_status (en_mem e) sp MM_PROT_READ) MM_PROT_READ), e1) /\ same_cpu e e1).
Proof.
  cbv zeta. set (sp := arr_get 0 (c_regs (en_context e)) REG_RSP). intros Hsp.
  pose proof (fun fuel => function_body bridge fuel begin timeout count e Hsp) as Hread. unfold call_body in Hread. fold sp in Hread.
  pose proof (mem_read_loop_spec sp 8 (Local (repeat 0 8)) 8 0 e Hwf I ltac:(lia) ltac:(lia)) as Hl. change (Z.of_nat 8) with 8 in Hl.
  pose proof (read_local sp (repeat 0 8) (seqZ 0 8) e Hwf) as Hsame.
  destruct (mem_read_loop (seqZ 0 8) sp (Local (repeat 0 8)) e) as [[st bytes] e0] eqn:Hloop. cbn [snd] in Hsame.
  assert (Hread0 := fun fuel => eq_trans (Hread fuel) (st_bind_run _ _ _ _ _ Hloop)). clear Hread. cbn beta iota in Hread0. rename Hread0 into Hread. split.
  - intros Hok Hw. rewrite allowed_all in Hl by (apply Forall_forall; intros i Hi%elem_of_seqZ; apply Hok; lia).
    destruct Hl as (-> & -> & _ & Hwf0 & _). set (slot := map (fun i => byte_seen (en_mem e) (u64 (sp + i))) (seqZ 0 8)) in *.
    destruct (le_split_bytes 8 CPUEAXH_EMU_RETURN_MAGIC) as [Hmb Hml]. fold (out64 CPUEAXH_EMU_RETURN_MAGIC) in Hmb, Hml.
    pose proof (write_range_raw sp (out64 CPUEAXH_EMU_RETURN_MAGIC) e0 Hwf0 Hmb ltac:(lia)) as Hwr. rewrite Hml in Hwr.
    specialize (Hwr (range_writable_same _ _ _ _ Hsame Hw)). change (Z.of_nat 8) with 8 in Hwr.
    destruct (cpueaxh_mem_write_raw sp (Local (out64 CPUEAXH_EMU_RETURN_MAGIC)) 8 e0) as [st e1] eqn:Hwrite. destruct Hwr as (-> & He1 & _ & Hw1).
    exists e1. split_and!; [destruct Hsame as (m & -> & _); by rewrite He1 | by eapply range_written_same |].
    intros fuel. specialize (Hread fuel).
    change (negb (copy_error MM_PROT_READ None =? CPUEAXH_ERR_OK)) with false in Hread. cbn iota in Hread.
    rewrite (st_bind_run _ _ _ _ _ Hwrite) in Hread. change (negb (CPUEAXH_ERR_OK =? CPUEAXH_ERR_OK)) with false in Hread. cbn iota in Hread.
    destruct (cpueaxh_emu_start bridge fuel begin CPUEAXH_EMU_RETURN_MAGIC timeout count e1) as [[error |] e2] eqn:Hrun;
      rewrite (st_bind_run _ _ _ _ _ Hrun) in Hread; [| exact Hread].
    intros Hwf2 Hw2.
    assert (Hsb : bytes_ok slot /\ length slot = 8%nat).
    { split; [| by unfold slot; rewrite length_map, length_seqZ]. apply Forall_forall. intros b (i & -> & _)%list_elem_of_fmap. by apply byte_seen_word. }
    destruct Hsb as [Hsb Hsl]. pose proof (write_range_raw sp slot e2 Hwf2 Hsb ltac:(lia)) as Hwr. rewrite Hsl in Hwr. specialize (Hwr Hw2).
    change (Z.of_nat 8) with 8 in Hwr.
    destruct (cpueaxh_mem_write_raw sp (Local slot) 8 e2) as [st e3] eqn:Hrest. rewrite (st_bind_run _ _ _ _ _ Hrest) in Hread.
    destruct Hwr as (-> & He3 & _ & Hw3). exists e3. split_and!.
    + rewrite Hread. destruct (Z.eqb_spec error CPUEAXH_ERR_OK) as [-> |]; done.
    + done.
    + done.
    + pose proof (range_written_list _ _ _ _ Hw3) as Hl3. rewrite Hsl in Hl3. exact Hl3.
  - intros Hno fuel. rewrite seqZ_cons in Hl by lia. cbn [allowed_prefix] in Hl. rewrite Z.add_0_r, (wrap_small 64 sp Hsp) in Hl.
    destruct (access_status (en_mem e) sp MM_PROT_READ) eqn:Est; [done |..]; destruct Hl as (-> & _); exists e0; (split; [| exact Hsame]);
      rewrite Hread; reflexivity.
Qed.

End call.

(** ** A code hook that moves RIP *)

Section redirect.
Context `{Callbacks} `{InstructionSet} `{Decoder} `{EscapeCallbacks}.

(** The step on bytes the caller fetched, when the cache does not know RIP. *)
Lemma prefetched_miss e bytes dec :
  cpu_has_exception (en_context e) = false -> c_inst_cache (en_context e) = true -> step_hits e = false -> bytes <> [] ->
  cpu_decode (firstn 15 bytes) (with_mode_key e) = (dec, with_mode_key e) -> d_byte_count dec <> 0 ->
  cpu_step_with_prefetch bytes e =
  cpu_step_dispatch_decoded (InCache (Executor.slot_of e)) (c_rip (en_context e))
    (committed dec (c_rip (en_context e)) (mode_key_of e) (with_mode_key e)).
Proof.
  intros Hx Hic Hh Hne Hdec Hb. unfold cpu_step_with_prefetch, st_bind, get_ctx, st_gets, on_ctx, st_zoom. rewrite Hx.
  fold (Executor.slot_of e). unfold step_hits, mode_key_of, with_mode_key in *.
  destruct (cpu_inst_cache_mode_key (en_context e)) as [key c] eqn:Ek. cbn [fst snd] in *.
  cbn [en_inst_cache en_mem set_en_context]. rewrite Hh. destruct bytes as [| b bytes]; [done |].
  cbn [st_ret]. unfold st_ret. destruct (firstn 15 (b :: bytes)) as [| b' bytes'] eqn:Ef; [done |].
  rewrite Hdec, Hic. destruct (Z.eqb_spec (d_byte_count dec) 0); [done |]. cbn [andb negb].
  unfold mod_engine, st_modify, deref, st_gets. unfold committed. cbn [en_inst_cache set_en_inst_cache].
  unfold Executor.slot_of, cpu_inst_cache_commit. rewrite slot_at_insert_eq. cbn [ic_decoded].
  by destruct (Z.eqb_spec (d_byte_count dec) 0).
Qed.

(** A code hook that moves RIP does not move the instruction.  The round notes the address before
    its pre hooks run and works with it after them.  If the cache knows that address, its
    instruction is executed although RIP is elsewhere; if not, the bytes at that address are fetched
    and, when the cache does not know the RIP the hook set either, what they decode to is executed
    and committed to the cache as the instruction at the new RIP, where later rounds will find it. *)
Theorem redirecting_hook_runs_old_instruction bridge need_post_hook e e1 e2
  (Hhooks : call_hooks true CPUEAXH_HOOK_CODE_PRE (c_rip (en_context e)) e = (tt, e1)) (Hstop : en_stop_requested e1 = false) :
  let address := c_rip (en_context e) in
  (known_slot address e1 = (true, e2) ->
   c_rip (en_context e2) = c_rip (en_context e1) /\
   hooked_round bridge true need_post_hook e =
     (let* status := cpu_step_decoded (cpu_inst_cache_index address) in after_step need_post_hook address status) e2) /\
  (forall bytes e3 dec, known_slot address e1 = (false, e2) -> fetch_instruction_bytes address e2 = (bytes, e3) -> bytes <> [] ->
   cpueaxh_try_dispatch_escape bridge address bytes e3 = (None, e3) ->
   cpu_has_exception (en_context e3) = false -> c_inst_cache (en_context e3) = true -> step_hits e3 = false ->
   cpu_decode (firstn 15 bytes) (with_mode_key e3) = (dec, with_mode_key e3) -> d_byte_count dec <> 0 ->
   let rip := c_rip (en_context e3) in
   let poisoned := committed dec rip (mode_key_of e3) (with_mode_key e3) in
   hooked_round bridge true need_post_hook e =
     (let* status := cpu_step_dispatch_decoded (InCache (cpu_inst_cache_index rip)) rip in after_step need_post_hook address status) poisoned /\
   step_hits poisoned = true /\ ic_decoded (slot_at (en_inst_cache poisoned) (cpu_inst_cache_index rip)) = dec).
Proof.
  cbv zeta.
  assert (Hround : hooked_round bridge true need_post_hook e = execute_at bridge need_post_hook (c_rip (en_context e)) e1).
  { unfold hooked_round, st_bind, get_ctx, st_gets. by rewrite Hhooks, Hstop. }
  rewrite Hround. split.
  - intros Hk. split.
    + unfold known_slot, st_bind, get_ctx, st_gets, on_ctx, st_zoom in Hk. destruct (c_inst_cache (en_context e1)); [| discriminate].
      cbn [negb] in Hk. pose proof (mode_key_context (en_context e1)) as (b & v & Hc).
      destruct (cpu_inst_cache_mode_key (en_context e1)) as [key c]. cbn [snd] in Hc. injection Hk as _ <-. by rewrite Hc.
    + unfold execute_at. by rewrite (st_bind_run _ _ _ _ _ Hk).
  - intros bytes e3 dec Hk Hf Hne Htry Hx Hic Hh Hdec Hb.
    assert (Hslot : slot_at (en_inst_cache (committed dec (c_rip (en_context e3)) (mode_key_of e3) (with_mode_key e3))) (cpu_inst_cache_index (c_rip (en_context e3))) =
      mkIcEntry (c_rip (en_context e3)) (mm_code_version (ms_mgr (en_mem e3))) (mode_key_of e3) dec).
    { unfold committed, cpu_inst_cache_commit. cbn [en_inst_cache set_en_inst_cache]. by rewrite slot_at_insert_eq. }
    split_and!; [| | by rewrite Hslot].
    + unfold execute_at. rewrite (st_bind_run _ _ _ _ _ Hk). rewrite (st_bind_run _ _ _ _ _ Hf).
      unfold execute_bytes. rewrite (st_bind_run _ _ _ _ _ Htry). unfold st_bind. by rewrite (prefetched_miss e3 bytes dec).
    + set (P := committed dec _ _ _) in *.
      assert (Hkey : mode_key_of P = mode_key_of e3).
      { unfold mode_key_of at 1. change (en_context P) with (snd (cpu_inst_cache_mode_key (en_context e3))). by rewrite mode_key_idempotent. }
      destruct (with_mode_key_fields e3) as (Hrip & Hcache & _).
      change (c_rip (en_context P) = c_rip (en_context e3)) in Hrip. change (c_inst_cache (en_context P) = c_inst_cache (en_context e3)) in Hcache.
      unfold step_hits, Executor.slot_of. rewrite Hrip, Hcache, Hic, Hslot, Hkey. unfold cache_hit. cbn [andb ic_tag ic_version ic_mode].
      change (mm_code_version (ms_mgr (en_mem P))) with (mm_code_version (ms_mgr (en_mem e3))). by rewrite !Z.eqb_refl.
Qed.

End redirect.

Module EmulationExample.
Import Bump MemoryExample.

(** Code hook 1 stops the run, hook 2 moves RIP to its user data. *)
#[export] Instance host_callbacks : Callbacks := {
  cb_hookcode cb address user := if cb =? 1 then mod_engine (set_en_stop_requested true) else mod_ctx (set_c_rip user);
  cb_hookmem cb type address size value user := st_ret tt;
  cb_hookmem_invalid cb type address size value user := st_ret 0;
}.

(** An escape that leaves everything as it is. *)
#[export] Instance neutral_escape : EscapeCallbacks := { cb_escape cb context instruction user := st_ret (CPUEAXH_ERR_OK, context) }.

#[local] Existing Instance ExecutorExample.increment_set.
#[local] Existing Instance DecoderExample.alu_probes.
#[local] Existing Instance DecoderExample.alu_probes_framed.

Definition at_ (rip : Z) (e : cpueaxh_engine) : cpueaxh_engine := set_en_context (set_c_rip rip (en_context e)) e.

Lemma rdtsc_bytes : bytes_ok [0x0F; 0x31; 0x90].
Proof. repeat constructor; cbn; lia. Qed.

(** [rdtsc] with a code hook registered and no escape. *)
Definition watched : cpueaxh_engine := final (cpueaxh_hook_add CPUEAXH_HOOK_CODE_PRE 2 0x2000 0 0) machine.

Lemma unhandled_escape_traps_like_decoder_witness :
  fst (cpueaxh_try_dispatch_escape 0 0x1000 [0x0F; 0x31; 0x90] watched) = Some (CPUEAXH_ERR_EXCEPTION, None) /\
  fst (cpu_step_dispatch_decoded (OnStack (result (cpu_decode_instruction [0x0F; 0x31; 0x90]) (en_context watched))) 0x1000 watched) = CPU_STEP_EXCEPTION.
Proof.
  assert (Hx : cpu_has_exception (en_context watched) = false) by (vm_compute; reflexivity).
  assert (Hf : cpu_has_hook_type watched CPUEAXH_HOOK_MEM_FETCH = false) by (vm_compute; reflexivity).
  assert (Hc : cpueaxh_classify_escape_instruction (en_context watched) [0x0F; 0x31; 0x90] = (CPUEAXH_ESCAPE_INSN_RDTSC, 2)) by (vm_compute; reflexivity).
  assert (Hid : CPUEAXH_ESCAPE_INSN_RDTSC <> CPUEAXH_ESCAPE_INSN_NONE) by discriminate.
  assert (Hn : escape_handler watched CPUEAXH_ESCAPE_INSN_RDTSC 0x1000 = None) by (vm_compute; reflexivity).
  destruct (unhandled_escape_traps_like_decoder 0 [0x0F; 0x31; 0x90] watched CPUEAXH_ESCAPE_INSN_RDTSC 2 0x1000 0x1000
    rdtsc_bytes Hx Hf Hc Hid eq_refl Hn) as (H1 & H2 & _).
  split; [exact (f_equal fst H1) | exact (f_equal fst H2)].
Defined.

(** A cached [cdq]. *)
Definition cdq_entry : DecodedInst := result (cpu_decode_instruction [0x99]) (en_context machine).
Definition cached : cpueaxh_engine := committed cdq_entry 0x1000 (mode_key_of (at_ 0x1000 machine)) (with_mode_key (at_ 0x1000 machine)).

Lemma cached_path_misses_no_escape_witness :
  result (known_slot 0x1000) cached = true /\ execute_at 0 false 0x1000 cached = execute_bytes 0 false 0x1000 [0x99] cached.
Proof.
  assert (Hrip : c_rip (en_context cached) = 0x1000) by (vm_compute; reflexivity).
  assert (Hd : ic_decoded (slot_at (en_inst_cache cached) (Executor.slot_of cached)) = result (cpu_decode_instruction [0x99]) (en_context machine)) by (vm_compute; reflexivity).
  assert (Hf : has_bits (d_flags (result (cpu_decode_instruction [0x99]) (en_context machine))) DECODED_FLAG_KNOWN_NOT_ESCAPE = true) by (vm_compute; reflexivity).
  assert (Hm : cpu_is_64bit_code (en_context cached) = cpu_is_64bit_code (en_context machine)) by (vm_compute; reflexivity).
  assert (Hh : step_hits cached = true) by (vm_compute; reflexivity).
  assert (Hx : cpu_has_exception (en_context cached) = false) by (vm_compute; reflexivity).
  destruct (cached_path_misses_no_escape 0 false [0x99] (en_context machine) cached Hd Hf Hm Hh Hx) as (_ & H1 & H2).
  rewrite Hrip in H1, H2. exact (conj H1 H2).
Defined.

Lemma run_ends_within_count_witness :
  fst (cpueaxh_emu_start 0 4 0x1000 0 0 3 machine) = Some CPUEAXH_ERR_OK /\
  exists n e1, ok_steps n (start_at 0x1000 machine) e1 /\ Z.of_nat n <= 3.
Proof.
  split; [vm_compute; reflexivity |].
  destruct (run_ends_within_count 0 0x1000 0 0 3 machine ltac:(lia)) as (n & e1 & _ & H1 & H2 & _).
  exists n, e1. split; [| exact H1]. apply H2; vm_compute; reflexivity.
Defined.

(** Hook 1 stops before the first instruction. *)
Definition stopping : cpueaxh_engine := final (cpueaxh_hook_add CPUEAXH_HOOK_CODE_PRE 1 0 0 0) machine.

Lemma stop_request_ends_run_witness :
  let e' := final (cpueaxh_emu_start 0 1 0x1000 0 0 0) stopping in
  c_rip (en_context e') = 0x1000 /\ fst (cpueaxh_emu_start 0 1 0x1000 0 0 0 stopping) = Some CPUEAXH_ERR_OK.
Proof.
  split; [vm_compute; reflexivity |].
  assert (Hn : Z.of_nat 0 < 2 ^ 64) by (cbn; lia).
  destruct (stop_request_ends_run 0 0x1000 0 0 0 stopping 0 (start_at 0x1000 stopping) 1 ltac:(lia) Hn) as (_ & _ & H).
  assert (Hr : rounds (chosen_round 0 (start_at 0x1000 stopping)) 0 0 0 (start_at 0x1000 stopping) (start_at 0x1000 stopping)) by constructor.
  assert (Ho : run_is_over 0 0 (Z.of_nat 0) (start_at 0x1000 stopping) = false) by (vm_compute; reflexivity).
  assert (Ha : has_any_hook (start_at 0x1000 stopping) = true) by (vm_compute; reflexivity).
  specialize (H Hr Ho Ha). rewrite H; [reflexivity | vm_compute; reflexivity].
Defined.

(** [cpuid] escaped. *)
Definition escaping : cpueaxh_engine := final (cpueaxh_escape_add CPUEAXH_ESCAPE_INSN_CPUID 5 0 0 0) (at_ 0x1000 machine).

Lemma escape_replaces_instruction_witness :
  c_rip (en_context (final (cpueaxh_try_dispatch_escape 0x77 0x1000 [0x0F; 0xA2; 0x90]) escaping)) = 0x1002 /\
  fst (cpueaxh_try_dispatch_escape 0x77 0x1000 [0x0F; 0xA2; 0x90] escaping) = Some (CPUEAXH_ERR_OK, Some 2).
Proof.
  split; [vm_compute; reflexivity |].
  assert (Hb : bytes_ok [0x0F; 0xA2; 0x90]) by (repeat constructor; cbn; lia).
  assert (Hc : cpueaxh_classify_escape_instruction (en_context escaping) [0x0F; 0xA2; 0x90] = (CPUEAXH_ESCAPE_INSN_CPUID, 2)) by (vm_compute; reflexivity).
  assert (Hid : CPUEAXH_ESCAPE_INSN_CPUID <> CPUEAXH_ESCAPE_INSN_NONE) by discriminate.
  assert (Hh : escape_handler escaping CPUEAXH_ESCAPE_INSN_CPUID 0x1000 = cpueaxh_lookup_escape_entry escaping CPUEAXH_ESCAPE_INSN_CPUID) by (vm_compute; reflexivity).
  destruct (cpueaxh_lookup_escape_entry escaping CPUEAXH_ESCAPE_INSN_CPUID) as [escape |] eqn:El; [| vm_compute in El; discriminate El].
  assert (Hx : cpu_has_exception (en_context escaping) = false) by (vm_compute; reflexivity).
  set (given := set_x_internal_bridge_block 0x77 (cpueaxh_context_out (en_context escaping))).
  assert (Hcb : cb_escape (esc_callback escape) given [0x0F; 0xA2; 0x90] (esc_user_data escape) escaping = ((CPUEAXH_ERR_OK, given), escaping)) by reflexivity.
  destruct (escape_replaces_instruction 0x77 0x1000 [0x0F; 0xA2; 0x90] escaping CPUEAXH_ESCAPE_INSN_CPUID 2 escape CPUEAXH_ERR_OK
    given escaping Hb Hc Hid Hh Hcb) as (_ & _ & _ & H).
  exact (f_equal fst (H eq_refl eq_refl eq_refl Hx)).
Defined.

(** A function that is a [ret] away from its caller: RSP at 0x2000, the code runs three steps. *)
Definition calling : cpueaxh_engine := set_en_context (set_c_regs (arr_set (c_regs (en_context machine)) REG_RSP 0x2000) (en_context machine)) machine.

Lemma eight_cases (P : Z -> Prop) : P 0 -> P 1 -> P 2 -> P 3 -> P 4 -> P 5 -> P 6 -> P 7 -> forall i, 0 <= i < 8 -> P i.
Proof. intros. assert (i = 0 \/ i = 1 \/ i = 2 \/ i = 3 \/ i = 4 \/ i = 5 \/ i = 6 \/ i = 7) as Hi by lia. by repeat destruct Hi as [-> | Hi]; subst. Qed.

Lemma context_manager_wf ctx : manager_wf (en_mem (set_en_context ctx machine)).
Proof. destruct machine_ready as [Hm _]. destruct machine. exact Hm. Qed.

Lemma calling_slot : range_writable (en_mem calling) 0x2000 8.
Proof.
  split.
  - apply eight_cases; vm_compute; reflexivity.
  - intros i j Hi Hj. revert i Hi. apply (eight_cases (fun i => host_address (en_mem calling) (u64 (0x2000 + i)) = host_address (en_mem calling) (u64 (0x2000 + j)) -> i = j));
      revert j Hj; refine (eight_cases _ _ _ _ _ _ _ _ _); intros Heq; first [reflexivity | vm_compute in Heq; discriminate Heq].
Qed.

Lemma function_call_restores_return_slot_witness :
  fst (cpueaxh_emu_start_function 0 4 0x1000 0 3 calling) = Some CPUEAXH_ERR_OK /\
  exists e1, range_written (en_mem calling) (en_mem e1) 0x2000 (out64 CPUEAXH_EMU_RETURN_MAGIC).
Proof.
  split; [vm_compute; reflexivity |].
  assert (Hsp : arr_get 0 (c_regs (en_context calling)) REG_RSP = 0x2000) by (vm_compute; reflexivity).
  assert (Hw : in_word 64 0x2000) by zcompute.
  assert (Hr : forall i, 0 <= i < 8 -> access_status (en_mem calling) (u64 (0x2000 + i)) MM_PROT_READ = MM_ACCESS_OK)
    by (apply eight_cases; vm_compute; reflexivity).
  assert (Hwf : manager_wf (en_mem calling)) by exact (context_manager_wf _).
  pose proof (function_call_restores_return_slot 0 0x1000 0 3 calling Hwf) as H. cbv zeta in H. rewrite Hsp in H.
  destruct (H Hw) as [H1 _]. destruct (H1 Hr calling_slot) as (e1 & _ & H2 & _). exists e1. exact H2.
Defined.

Lemma run_eta {S A} (c : ST S A) s : c s = (result c s, final c s).
Proof. unfold result, final. by destruct (c s). Qed.

Lemma unit_eta {S} (c : ST S unit) s : c s = (tt, final c s).
Proof. unfold final. by destruct (c s) as [[] ?]. Qed.

Lemma run_result {S A} (c : ST S A) s a : result c s = a -> c s = (a, final c s).
Proof. intros <-. apply run_eta. Qed.

Lemma no_escape_no_dispatch bridge address bytes e :
  cpueaxh_classify_escape_instruction (en_context e) bytes = (CPUEAXH_ESCAPE_INSN_NONE, 0) ->
  cpueaxh_try_dispatch_escape bridge address bytes e = (None, e).
Proof. intros Hc. unfold cpueaxh_try_dispatch_escape, st_bind, get_ctx, st_gets, id. by rewrite Hc. Qed.

Lemma decode_keeps bytes e : cpu_decode bytes e = (result (cpu_decode_instruction bytes) (en_context e), e).
Proof.
  cbn [cpu_decode decoder]. unfold on_ctx, st_zoom, result. destruct (decode_spec bytes (en_context e)) as (d & -> & _). by destruct e.
Qed.

(** Hook 2 moves RIP from 0x1000 to 0x2000: the bytes at 0x1000 are executed and cached there. *)
Definition redirecting : cpueaxh_engine :=
  at_ 0x1000 (snd (cpueaxh_mem_write 0x1000 (Local [0x99]) 1 (final (cpueaxh_hook_add CPUEAXH_HOOK_CODE_PRE 2 0x2000 0x1000 0x1000) machine))).

Definition after_hook : cpueaxh_engine := final (call_hooks true CPUEAXH_HOOK_CODE_PRE 0x1000) redirecting.
Definition after_lookup : cpueaxh_engine := final (known_slot 0x1000) after_hook.
Definition after_fetch : cpueaxh_engine := final (fetch_instruction_bytes 0x1000) after_lookup.
Definition old_bytes : list Z := result (fetch_instruction_bytes 0x1000) after_lookup.
Definition old_instruction : DecodedInst := result (cpu_decode_instruction (firstn 15 old_bytes)) (en_context (with_mode_key after_fetch)).

Lemma lookup_misses : known_slot 0x1000 after_hook = (false, after_lookup).
Proof. refine (run_result (known_slot 0x1000) after_hook false _). vm_compute. reflexivity. Qed.

Lemma redirecting_hook_runs_old_instruction_witness :
  fst (cpueaxh_mem_read 0x2000 (Local []) 1 redirecting) = (CPUEAXH_ERR_OK, [0]) /\
  d_handler (ic_decoded (slot_at (en_inst_cache (final (hooked_round 0 true false) redirecting)) (cpu_inst_cache_index 0x2000))) = Some "execute_cdq"%string /\
  exists e1 e2 bytes e3 dec, let poisoned := committed dec 0x2000 (mode_key_of e3) (with_mode_key e3) in
    hooked_round 0 true false redirecting =
      (let* status := cpu_step_dispatch_decoded (InCache (cpu_inst_cache_index 0x2000)) 0x2000 in after_step false 0x1000 status) poisoned /\
    call_hooks true CPUEAXH_HOOK_CODE_PRE 0x1000 redirecting = (tt, e1) /\ fetch_instruction_bytes 0x1000 e2 = (bytes, e3).
Proof.
  split; [vm_compute; reflexivity |]. split; [vm_compute; reflexivity |].
  assert (Hrip : c_rip (en_context redirecting) = 0x1000) by (vm_compute; reflexivity).
  assert (Hrip3 : c_rip (en_context after_fetch) = 0x2000) by (vm_compute; reflexivity).
  assert (H1 : call_hooks true CPUEAXH_HOOK_CODE_PRE (c_rip (en_context redirecting)) redirecting = (tt, after_hook)).
  { rewrite Hrip. exact (unit_eta (call_hooks true CPUEAXH_HOOK_CODE_PRE 0x1000) redirecting). }
  assert (Hs : en_stop_requested after_hook = false) by (vm_compute; reflexivity).
  assert (Hf : fetch_instruction_bytes 0x1000 after_lookup = (old_bytes, after_fetch)) by exact (run_eta (fetch_instruction_bytes 0x1000) after_lookup).
  assert (Hne : old_bytes <> []) by (vm_compute; discriminate).
  assert (Ht : cpueaxh_try_dispatch_escape 0 0x1000 old_bytes after_fetch = (None, after_fetch)).
  { apply no_escape_no_dispatch. vm_compute. reflexivity. }
  assert (Hx : cpu_has_exception (en_context after_fetch) = false) by (vm_compute; reflexivity).
  assert (Hic : c_inst_cache (en_context after_fetch) = true) by (vm_compute; reflexivity).
  assert (Hh : step_hits after_fetch = false) by (vm_compute; reflexivity).
  assert (Hd : cpu_decode (firstn 15 old_bytes) (with_mode_key after_fetch) = (old_instruction, with_mode_key after_fetch)).
  { exact (decode_keeps (firstn 15 old_bytes) (with_mode_key after_fetch)). }
  assert (Hb : d_byte_count old_instruction <> 0) by (vm_compute; discriminate).
  destruct (redirecting_hook_runs_old_instruction 0 false redirecting after_hook after_lookup H1 Hs) as [_ H]. rewrite Hrip in H, H1.
  destruct (H old_bytes after_fetch old_instruction lookup_misses Hf Hne Ht Hx Hic Hh Hd Hb) as (H2 & _ & _). cbv zeta in H2. rewrite Hrip3 in H2.
  exists after_hook, after_lookup, old_bytes, after_fetch, old_instruction. cbv zeta. exact (conj H2 (conj H1 Hf)).
Defined.

End EmulationExample.
